(* ===== verification/_CoqProject ===== *)
-Q . S2P
Prelude.v
ByteOrder.v
Sorting.v
SingleGram.v
GramSpec.v
GramMerge.v
MergedGram.v
Ranges.v
Options.v
SyllableData.v
ContentData.v
Chewing.v
Syllables.v
Vocab.v
Graph.v
FullIndex.v
FullIndexSpec.v
GraphBuild.v
GraphPaths.v
Parser.v
ParserCount.v
ParserGroup.v
ParserInput.v
Kbest.v
KbestSweep.v
KbestBest.v
DoublePinyin.v
DoubleSpec.v
DoubleTyping.v
ZhuyinData.v
Zhuyin.v
ZhuyinSpec.v
ZhuyinTyping.v
ZhuyinDirect.v
Ucs4.v
Constraint.v
ConstraintRuns.v
RowFormat.v
UserRecords.v
UserMarkers.v
UserPhraseTable.v
UserPhraseSpec.v
UserIndex.v
UserIndexSpec.v
UserTraining.v
UserTrainingSpec.v
UserBigramSpec.v
ChunkFormat.v
PhraseLibrary.v
UserLibrary.v
UserLibraryBodies.v
UserLibraryStore.v
UserLibrarySpec.v
Float.v
Models.v
Cost.v
Scoring.v
ScoringSpec.v
Ranking.v
RankingSpec.v
Trellis.v
ScanMatrix.v
MatrixBuild.v
MatrixBuildSpec.v
WindowScan.v
WindowScanSpec.v
TableDictionary.v
Cursor.v
CursorSpec.v
CharOffset.v
CharOffsetSpec.v
Nbest.v
NbestWalk.v
NbestSpec.v
SessionState.v
Retained.v
Refresh.v
Session.v
SessionSpec.v
SessionSafety.v
