(* ===== verification/Prelude.v ===== *)
(** * A verification of the oxpinyin core

    oxpinyin turns keystrokes into Chinese text: an input is parsed into
    pinyin syllables, the syllables span a graph, phrases are looked up along
    it and a bigram model ranks the sentences; what the user picks is learned.
    This library models the crates this stands on, [crates/oxpinyin-core] and
    [crates/oxpinyin-chewing], the row formats of [crates/oxpinyin-data], the
    tables and the training of [crates/oxpinyin-user], and of
    [crates/oxpinyin-engine] the decoder, the scans and the session that owns
    an input, and proves what their parts promise.

    ** Parts and files

    Shared: [ByteOrder], the order of byte strings, and this file, with bytes
    as [list Byte.byte], [u32] and [i64] as [Z]
    with their wrapping and saturating operations, [usize] lengths as [nat]
    with the checked operations that can refuse, little- and big-endian words,
    the standard library's binary searches, UTF-8 validity, and the list and
    bit-field lemmas the parts share.

    The bigram rows, [oxpinyin-core/src/single_gram.rs] and the row types of
    [lib.rs]:
    - [SingleGram]: the byte form of one row, a total and sorted (token,
      frequency) items, with every operation of [single_gram.rs] on any bytes;
    - [GramSpec]: the abstract row, a total and a finite map, as the interface
      [GramStore] with two instances, and the refinement between them;
    - [GramMerge]: the merge of two rows and the side-by-side reads;
    - [MergedGram]: [MergedGram], [SharedGram] and [NbestStepRow].
    - [Ranges]: [PhraseIndexRanges] of [lib.rs], the matched items of a search
      cut into runs of consecutive tokens.

    The syllables, [oxpinyin-chewing] and [options.rs], [syllables.rs],
    [vocab.rs]:
    - [Options]: the option word; [SyllableData], [ContentData]: the tables;
    - [Chewing]: [ChewingKey], its packed form, spelling search and renderers;
    - [Syllables]: spelling aliases by option bit; [Vocab]: [SyllableKey].

    The parsers:
    - [Graph], [GraphBuild], [GraphPaths]: [graph.rs], the segment graph, what
      it holds, which positions it reaches, its fewest-keys path;
    - [Parser], [ParserCount], [ParserGroup],
      [ParserInput]: [parser.rs], the exhaustive parse: counting, the explicit
      stack, the fallback, whole inputs, and the options that make it panic;
    - [DoublePinyin], [DoubleSpec], [DoubleTyping]: the double
      pinyin half of [scheme.rs];
    - [ZhuyinData], [Zhuyin], [ZhuyinSpec], [ZhuyinTyping], [ZhuyinDirect]: its
      zhuyin half with [zhuyin_map.rs], [direct.rs] and [tool.rs]: the simple,
      discrete and CP26 keyboards and the direct parsers;
    - [FullIndex], [FullIndexSpec]: [full_pinyin_index.rs],
      the luoma and secondary-zhuyin spellings and their dynamic program.

    The search:
    - [Kbest], [KbestSweep], [KbestBest]:
      [kbest.rs], the k cheapest paths through a graph;
    - [Cost], [Scoring], [ScoringSpec]: [cost.rs] and [scoring.rs], costs from
      counts, the expansion of initial-only keys and the phrase scorer.

    Phrases and stored rows:
    - [Ucs4]: [ucs4.rs], a phrase's text as a string or as raw words;
    - [RowFormat]: [oxpinyin-data/src/row_format.rs] and [single_gram.rs], the
      keys and values of a data directory;
    - [ChunkFormat], [PhraseLibrary]: [chunk_format.rs], [chunk_write.rs] and
      [phrase_library.rs]: the frame with its checksum, a library's slots and
      items, the writer and the reader.

    The engine:
    - [Constraint], [ConstraintRuns]: [oxpinyin-engine/src/constraint.rs], the
      forced runs of a session's input;
    - [Sorting], [Float]: the sorts of the standard library by a comparison,
      and single and double precision;
    - [Models]: what the decoder asks of a dictionary and a language model,
      as type classes with the laws their documentation states;
    - [Trellis], [ScanMatrix], [Nbest], [NbestWalk], [NbestSpec]: [nbest.rs] over the key columns of
      [session/matrix.rs]: the trellis, the search of a span, the pricing of
      its tokens, the steps they take, and the sentences read back. It calls
      [Ranges], [MergedGram], [Constraint] and [Ucs4];
    - [Ranking], [RankingSpec]: [candidate.rs] and the ranking of
      [session/mod.rs] and [session/lookup.rs]: the guarded order of
      frequencies, the permutation by swaps, one row a text;
    - [MatrixBuild], [MatrixBuildSpec]: the key columns of a parse, built by
      [session/mod.rs] from a [Graph] and the tables of
      [session/split_tables.rs];
    - [WindowScan], [WindowScanSpec]: [collect_window_scan] of
      [session/lookup.rs]: the key paths of those columns, window by window,
      searched in a dictionary, which is a class; it calls [Scoring] to expand
      initial-only keys and [Ranking] to order a window;
    - [TableDictionary]: a dictionary that is a list of entries, on which the
      theorems over any dictionary are tried;
    - [Cursor], [CursorSpec]: [cursor.rs], the columns cut out of a parse's
      ordered key spans, the offset of a cursor and the moves by a word;
    - [CharOffset], [CharOffsetSpec]: [char_offset.rs], the same columns built
      one by one, the characters of a phrase before an offset and the key
      paths a phrase is remembered under.

    The session, [oxpinyin-engine/src/session]:
    - [SessionState]: the state, with the input and its four caches
      ([buffer.rs]), the record of a selection ([record.rs]), the sentences
      and the list, and the monad of its operations: a state goes in, and
      either a panic or a state with an answer or an error comes out;
    - [Retained]: the cached reads of [matrix.rs], [offsets.rs] and
      [lookup.rs]: the graph of [Graph], its selected path, the columns of
      [MatrixBuild], the keys of [Cursor];
    - [Refresh]: the lists of [lookup.rs], over [WindowScan], [Ranking],
      [Kbest] and [Scoring], with what they ask of a model and a dictionary
      as two classes;
    - [Session]: [input.rs], [state.rs], [selection.rs] and [guess.rs]: every
      operation of the session, over [Constraint] and [Nbest], with the
      training of a user model, which is a class;
    - [SessionSpec]: an operation run on two states that differ in the caches
      alone answers alike; [SessionSafety]: none panics on ASCII, and one does
      outside it.

    The user's own tables, [oxpinyin-user]:
    - [UserRecords], [UserMarkers]: the arena, offsets and overlay shared by
      [user_index.rs] and [user_phrase_table.rs], as one ordered map, and the
      empty records of the prefixes;
    - [UserPhraseTable], [UserPhraseSpec]: [phrase_table.rs] and
      [user_phrase_table.rs], phrases to tokens;
    - [UserIndex], [UserIndexSpec]: [user_index.rs], readings to
      tokens, under a complete and an incomplete key;
    - [UserTraining], [UserTrainingSpec], [UserBigramSpec]: [seed.rs] and the
      gram half of [store.rs]: what a selection does to the bigram rows, over
      any container that keeps the laws of the trait [UserBigramDb]
      ([UserBigramLaws], with an instance in memory);
    - [UserLibrary], [UserLibraryBodies], [UserLibraryStore],
      [UserLibrarySpec]:
      [user_library.rs], the phrases a user adds: the sparse slot array, the
      bodies changed in place, moved or compacted, the file written and read,
      and the map of items all of it stands for.

    A file that models code defines it first, with the names of the source;
    the files after it hold the specification and the proofs.

    ** How the code is read

    A function on a mutable vector takes the list and returns the new one. An
    [Option] is an [option], a [Result] the type [result] below, a panic is
    [None] of the whole operation ([Parser]). An iterator is the list it
    yields. A [while] loop is a [Fixpoint] on fuel, and every such loop has a
    lemma that the fuel given is enough: the width of a span
    ([NbestWalk.walk_view_fuel]), the position a value ends at
    ([NbestSpec.extract_linked]), the remaining length of the row
    ([SingleGram.mask_loop], [merge_loop]), the number of groups and so the
    input's length ([Parser.parse_groups]), the window's length
    ([DoublePinyin.greedy], [Zhuyin.greedy_keys], [Zhuyin.direct_loop]: C35 and
    C37 say that more fuel answers the same), the position in the arena
    ([Kbest.walk_entries]) or in the input ([FullIndexSpec.walk_back_enough]),
    the index a row is placed at ([RankingSpec.follow_chain]), the keys left to
    push and the positions left before the end of a window
    ([WindowScanSpec.events_paths]), the ends left to search
    ([WindowScanSpec.scan_windows_run]), the span of a binary search
    ([CursorSpec.partition_point_spec]), the positions left before an offset
    or the end of a parse, when every key ends after it starts
    ([CharOffsetSpec.walk_spec], [CharOffsetSpec.recur_plays]), and for the explicit stack of the parser the exact
    number of turns ([Parser.frame_turns], [ParserCount.turns_spec]). The
    arena of a user library is assumed to stay below 2^32 bytes where an
    operation is said to succeed ([UserLibrarySpec.op_growth],
    [UserLibraryStore.payload_room]): past it the code's own checked
    arithmetic refuses, and the model refuses with it. A
    generated perfect-hash map or pooled string table is the table it is
    generated from. The data tables are the source's rows, in order.

    ** What is proved

    - refinement and equivalence: a sequence of operations on a row refines
      the map (C1), and one on a user's phrase library a map of items (C39);
      the shared row answers as the merged one (C2); the columns of a parse
      read by binary search are those built one by one (C27); the user's
      records are an ordered map (C28), the phrase table on it a map of token
      sets (C29) and the index a table of readings with
      a slot for every length (C30); a training call and
      its check answer the same (C33); the frequency guard passes exactly the
      lists the wrapping comparison orders (C18); the caches of a session are
      invisible to every run of its operations (C3);
    - functional: the walk of the ranges (C4), the rows a refresh offers (C5),
      the best index parse (C9), the edges and reachable positions of a graph
      (C10, C11), its fewest-keys path (C12), the rows a window scan collects
      (C13), the paths of a group (C14), the k best paths (C17), what each
      operation does to the forced runs (C24), where a cursor and its moves by a word end (C21), the
      characters of a phrase before an offset (C19), the walk that
      remembers a phrase, as the run of its tests and calls in their order,
      each on the state the ones before it left (C7);
    - round trips: spellings (C25), double-pinyin
      typing (C20), zhuyin typing (C36) and display (C37), the rows of a data
      directory (C26), a phrase library's file (C38);
    - safety and errors: every row of a sentence decode is a whole sentence
      the dictionary offers and the forced runs allow (C40); the exhaustive parser never panics, unless one of
      three option bits is set (C15), and with any of them it does (C16); a
      token mask over the user's rows meets no fault (C34); no run of session
      operations panics while the texts that replace the input are ASCII (C6),
      and one outside it does ([SessionSafety.clear_constraint_panics]);
    - invariants, types and bounds: the key columns of a parse hold the
      selected keys and their alternates, each path once, on text without NUL
      (C8); texts are read, joined and cut well formed, with
      their words and lengths (C22), the
      forced runs are disjoint and no operation on them panics (C23), the
      total of a trained row is the sum of its counts and fits 32 bits (C31);
    - liveness: repeating a selection raises its count until it settles
      (C32);
    - termination: the batch zhuyin parse ends on the one greedy walk, and takes
      an input as one key where the one-key parse does and the stated
      conditions hold (C35).

    ** What is not modelled

    Capacity hints, [Display] and [Error] implementations, and the trait
    declarations of [lib.rs] that no modelled code calls. The phrase half of
    [store.rs] and the arena it trains, the tables of [oxpinyin-data] over a store,
    [oxpinyin-kmm] and the segmenter of [oxpinyin-utils] join parts modelled
    here to stores and corpora read from files, and are left out. Mapping a library's file into memory is the bytes it
    holds. The logarithms of the platform are parameters. The locks and atomics of a session are its sequential
    reading: every operation runs under one guard. Loading and saving a
    profile, the C interfaces, the stores and the training tools are
    marshalling and file access and are left out. *)

From Stdlib Require Import ZArith Lia Bool String Strings.Byte.
From stdpp Require Import base list strings.

#[global] Set Default Proof Using "Type".
#[export] Set Warnings "-clear-no-such-hyp".

(** ** Bytes *)

#[export] Instance byte_eq_dec : EqDecision byte := Byte.byte_eq_dec.

(** A Rust [&[u8]] or [&str]: the sequence of its bytes. *)
Abbreviation bytes := (list byte).

(** The numeric value of a byte. *)
Definition byte_val (b : byte) : Z := Z.of_N (Byte.to_N b).

(** [z as u8]: truncation to the low eight bits. *)
Definition byte_of (z : Z) : byte :=
  default x00 (Byte.of_N (Z.to_N (z mod 256))).

(** A string literal as its bytes. *)
Definition str (s : string) : bytes := list_byte_of_string s.

Lemma byte_val_range b : (0 <= byte_val b < 256)%Z.
Proof. unfold byte_val. pose proof (Byte.to_N_bounded b). lia. Qed.

Lemma byte_val_inj b c : byte_val b = byte_val c -> b = c.
Proof.
  unfold byte_val. intros H%N2Z.inj.
  pose proof (Byte.of_to_N b) as Hb. pose proof (Byte.of_to_N c) as Hc.
  rewrite H in Hb. congruence.
Qed.

Lemma byte_of_some z :
  Byte.of_N (Z.to_N (z mod 256)) = Some (byte_of z).
Proof.
  unfold byte_of. destruct (Byte.of_N _) eqn:E; [done|].
  apply Byte.of_N_None_iff in E.
  pose proof (Z.mod_pos_bound z 256 eq_refl). lia.
Qed.

Lemma byte_val_of z : byte_val (byte_of z) = (z mod 256)%Z.
Proof.
  pose proof (byte_of_some z) as H. apply Byte.to_of_N in H.
  unfold byte_val. rewrite H.
  pose proof (Z.mod_pos_bound z 256 eq_refl). lia.
Qed.

Lemma byte_of_val b : byte_of (byte_val b) = b.
Proof.
  apply byte_val_inj. rewrite byte_val_of.
  apply Z.mod_small, byte_val_range.
Qed.

(** ** Machine integers

    [u32], [u64] and [i64] values are [Z]s; the operations below write out
    what the width does to the result. *)

Create HintDb machine.
Create Rewrite HintDb machine.
Declare Scope machine_scope.
Delimit Scope machine_scope with M.

Definition u32_size : Z := (2 ^ 32)%Z.
Definition u32_max : Z := (u32_size - 1)%Z.
Definition u64_size : Z := (2 ^ 64)%Z.
Definition u64_max : Z := (u64_size - 1)%Z.
Definition i64_min : Z := (- 2 ^ 63)%Z.
Definition i64_max : Z := (2 ^ 63 - 1)%Z.

Definition is_u32 (z : Z) : Prop := (0 <= z < u32_size)%Z.
Definition is_u64 (z : Z) : Prop := (0 <= z < u64_size)%Z.
Definition is_i64 (z : Z) : Prop := (i64_min <= z <= i64_max)%Z.

Definition wrap32 (z : Z) : Z := (z mod u32_size)%Z.

(** [u32::wrapping_add] and [u32::wrapping_sub]. *)
Definition wrapping_add32 (a b : Z) : Z := wrap32 (a + b).
Definition wrapping_sub32 (a b : Z) : Z := wrap32 (a - b).
Notation "a +₃₂ b" := (wrapping_add32 a b) (at level 50, left associativity) : machine_scope.
Notation "a -₃₂ b" := (wrapping_sub32 a b) (at level 50, left associativity) : machine_scope.

(** [i64::saturating_add] and its relatives clamp the exact result. *)
Definition clamp_i64 (z : Z) : Z := Z.max i64_min (Z.min i64_max z).
Definition sat_add64 (a b : Z) : Z := clamp_i64 (a + b).
Definition sat_sub64 (a b : Z) : Z := clamp_i64 (a - b).
Definition sat_mul64 (a b : Z) : Z := clamp_i64 (a * b).

(** Unfold every width in the goal and context, then decide. *)
Ltac width_lia :=
  unfold is_u32, is_u64, is_i64, wrapping_add32, wrapping_sub32, wrap32,
    sat_add64, sat_sub64, sat_mul64, clamp_i64,
    u32_max, u32_size, u64_max, u64_size, i64_min, i64_max in *; lia.

Lemma wrap32_range z : is_u32 (wrap32 z).
Proof. apply Z.mod_pos_bound. reflexivity. Qed.

Lemma wrap32_small z : is_u32 z -> wrap32 z = z.
Proof. intros H. apply Z.mod_small, H. Qed.

Lemma wrap32_add_l a b : wrap32 (wrap32 a + b) = wrap32 (a + b).
Proof. apply Zplus_mod_idemp_l. Qed.

Lemma wrap32_add_r a b : wrap32 (a + wrap32 b) = wrap32 (a + b).
Proof. apply Zplus_mod_idemp_r. Qed.

Lemma wrap32_sub_l a b : wrap32 (wrap32 a - b) = wrap32 (a - b).
Proof. apply Zminus_mod_idemp_l. Qed.

#[export] Hint Resolve wrap32_range byte_val_range : machine.

Lemma sat_add64_mono a b c : (a <= b)%Z -> (sat_add64 a c <= sat_add64 b c)%Z.
Proof. width_lia. Qed.

Lemma sat_add64_range a b : is_i64 (sat_add64 a b).
Proof. width_lia. Qed.

(** ** Little-endian words *)

Fixpoint le_bytes (n : nat) (z : Z) : bytes :=
  match n with
  | O => []
  | S n => byte_of z :: le_bytes n (z / 256)
  end.

Fixpoint le_value (l : bytes) : Z :=
  match l with
  | [] => 0
  | b :: l => byte_val b + 256 * le_value l
  end.

(** [u32::to_le_bytes] and [u32::from_le_bytes]. *)
Definition le32 (z : Z) : bytes := le_bytes 4 z.

Lemma length_le_bytes n z : length (le_bytes n z) = n.
Proof. revert z. induction n; intros; simpl; auto. Qed.

Lemma le_value_bytes n z :
  le_value (le_bytes n z) = (z mod 2 ^ (8 * Z.of_nat n))%Z.
Proof.
  revert z. induction n as [|n IH]; intros z.
  - simpl. by rewrite Z.mod_1_r.
  - cbn [le_bytes le_value]. rewrite byte_val_of, IH.
    replace (8 * Z.of_nat (S n))%Z with (8 + 8 * Z.of_nat n)%Z by lia.
    rewrite Z.pow_add_r by lia. change (2 ^ 8)%Z with 256%Z.
    rewrite Z.rem_mul_r by lia. lia.
Qed.

Lemma le_value_range l : (0 <= le_value l < 2 ^ (8 * Z.of_nat (length l)))%Z.
Proof.
  induction l as [|b l IH]; [simpl; lia|].
  cbn [le_value length]. pose proof (byte_val_range b).
  replace (8 * Z.of_nat (S (length l)))%Z with (8 + 8 * Z.of_nat (length l))%Z by lia.
  rewrite Z.pow_add_r by lia. change (2 ^ 8)%Z with 256%Z. nia.
Qed.

Lemma le_bytes_value l : le_bytes (length l) (le_value l) = l.
Proof.
  induction l as [|b l IH]; [done|]. cbn [length le_bytes le_value].
  pose proof (byte_val_range b).
  replace ((byte_val b + 256 * le_value l) / 256)%Z with (le_value l).
  2: { rewrite Z.add_comm, Z.mul_comm, Z.div_add_l by lia.
       rewrite (Z.div_small (byte_val b)) by lia. lia. }
  rewrite IH. f_equal. apply byte_val_inj. rewrite byte_val_of.
  rewrite Z.add_comm, Z.mul_comm, Z.add_comm, Z.mod_add by lia.
  by apply Z.mod_small.
Qed.

Lemma length_le32 z : length (le32 z) = 4.
Proof. apply length_le_bytes. Qed.

Lemma le_value_le32 z : le_value (le32 z) = wrap32 z.
Proof. apply (le_value_bytes 4). Qed.

Lemma le32_value l : length l = 4 -> le32 (le_value l) = l.
Proof. intros H. unfold le32. rewrite <- H. apply le_bytes_value. Qed.

Lemma le_value_u32 l : length l = 4 -> is_u32 (le_value l).
Proof. intros H. pose proof (le_value_range l) as R. rewrite H in R. exact R. Qed.

#[export] Hint Rewrite length_le_bytes length_le32 le_value_le32 : machine.

(** ** Slices and binary search

    [subslice l a b] is [l.get(a..b)]: [None] when the range is reversed or
    leaves the slice. *)
Definition subslice {A} (l : list A) (a b : nat) : option (list A) :=
  if decide (a <= b <= length l) then Some (take (b - a) (drop a l)) else None.

(** [&l[a..b]] of a range inside the slice. *)
Definition slice {A} (l : list A) (a b : nat) : list A := take (b - a) (drop a l).

(** [usize::is_multiple_of]. *)
Definition is_multiple_of (len n : nat) : bool := len mod n =? 0.

(** [slice::position]: the first index whose element satisfies [p]. *)
Fixpoint position {A} (p : A -> bool) (l : list A) : option nat :=
  match l with
  | [] => None
  | x :: l => if p x then Some 0 else S <$> position p l
  end.

(** [slice::binary_search_by], the standard library's branch-free loop:
    [size] halves until one element is left, then that element decides.
    [fuel] bounds the halvings; [length l] is always enough. *)
Fixpoint bsearch_loop {A} (cmp : A -> comparison) (l : list A)
    (fuel size base : nat) : nat :=
  match fuel with
  | O => base
  | S fuel =>
      if decide (size <= 1) then base
      else
        let half := size / 2 in
        let base' :=
          match cmp <$> l !! (base + half) with
          | Some Gt | None => base
          | Some _ => base + half
          end in
        bsearch_loop cmp l fuel (size - half) base'
  end.

Definition binary_search_by {A} (cmp : A -> comparison) (l : list A) : nat + nat :=
  match l with
  | [] => inr 0
  | _ =>
      let base := bsearch_loop cmp l (length l) (length l) 0 in
      match cmp <$> l !! base with
      | Some Eq => inl base
      | Some Lt => inr (S base)
      | _ => inr base
      end
  end.

(** [slice::partition_point]. *)
Definition partition_point {A} (p : A -> bool) (l : list A) : nat :=
  match binary_search_by (fun x => if p x then Lt else Gt) l with
  | inl i | inr i => i
  end.

(** The comparisons along the slice go up: [Lt]s, then [Eq]s, then [Gt]s. *)
Definition ascending_cmp {A} (cmp : A -> comparison) (l : list A) : Prop :=
  forall i j x y, i < j -> l !! i = Some x -> l !! j = Some y ->
    (cmp y = Lt -> cmp x = Lt) /\ (cmp x = Gt -> cmp y = Gt).

Section binary_search.
Context {A : Type} (cmp : A -> comparison) (l : list A).

(** The remaining window never leaves the slice. *)
Lemma bsearch_loop_bound fuel size base :
  1 <= size -> base + size <= length l ->
  bsearch_loop cmp l fuel size base < length l.
Proof.
  revert size base. induction fuel as [|fuel IH]; intros size base H1 Hb; [simpl; lia|].
  cbn [bsearch_loop]. case_decide; [lia|].
  pose proof (Nat.div_lt size 2 ltac:(lia) ltac:(lia)).
  pose proof (Nat.Div0.div_le_upper_bound size 2 size ltac:(lia)).
  apply IH; [lia|]. repeat case_match; lia.
Qed.

Hypothesis Hasc : ascending_cmp cmp l.

Lemma bsearch_loop_spec fuel size base :
  size <= fuel -> 1 <= size -> base + size <= length l ->
  (base = 0 \/ exists x, l !! base = Some x /\ cmp x <> Gt) ->
  (forall j x, base + size <= j -> l !! j = Some x -> cmp x = Gt) ->
  let r := bsearch_loop cmp l fuel size base in
  (r = 0 \/ exists x, l !! r = Some x /\ cmp x <> Gt) /\
  (forall j x, S r <= j -> l !! j = Some x -> cmp x = Gt).
Proof using Hasc.
  revert size base. induction fuel as [|fuel IH]; intros size base Hf H1 Hb Hlo Hhi; [lia|].
  cbn [bsearch_loop]. case_decide as Hs.
  { replace size with 1 in * by lia. rewrite Nat.add_1_r in *. done. }
  pose proof (Nat.div_lt size 2 ltac:(lia) ltac:(lia)) as Hh.
  pose proof (Nat.div_mod_eq size 2).
  pose proof (Nat.mod_upper_bound size 2 ltac:(lia)).
  destruct (lookup_lt_is_Some_2 l (base + size / 2)) as [x Hx]; [lia|].
  rewrite Hx. cbn [fmap option_fmap option_map].
  assert (forall c, c <> Gt -> cmp x = c ->
    let r := bsearch_loop cmp l fuel (size - size / 2) (base + size / 2) in
    (r = 0 \/ exists x, l !! r = Some x /\ cmp x <> Gt) /\
    (forall j x, S r <= j -> l !! j = Some x -> cmp x = Gt)) as Hup.
  { intros c Hc Ec. apply IH; try lia.
    - right. exists x. split; [done|congruence].
    - intros j y Hj. apply Hhi. lia. }
  destruct (cmp x) eqn:Ex; [by apply (Hup Eq)|by apply (Hup Lt)|].
  apply IH; try lia; [done|].
  intros j y Hj Hy. destruct (decide (j = base + size / 2)) as [->|Hne]; [congruence|].
  eapply (Hasc (base + size / 2) j); eauto. lia.
Qed.

(** What the search answers: an equal element, or the insertion point
    that splits the slice into lesser and greater elements. *)
Lemma binary_search_by_spec :
  match binary_search_by cmp l with
  | inl i => exists x, l !! i = Some x /\ cmp x = Eq
  | inr i => i <= length l /\
      forall j x, l !! j = Some x -> cmp x = if decide (j < i) then Lt else Gt
  end.
Proof using Hasc.
  unfold binary_search_by. destruct (decide (l = [])) as [->|Hl]; [by split; [simpl; lia|]|].
  assert (1 <= length l) by (destruct l; [done|simpl; lia]).
  pose proof (bsearch_loop_bound (length l) (length l) 0 ltac:(lia) ltac:(lia)) as Hr.
  pose proof (bsearch_loop_spec (length l) (length l) 0) as [Hlo Hhi]; try lia; auto.
  { intros j x Hj Hx. apply lookup_lt_Some in Hx. lia. }
  destruct l as [|x0 l'] eqn:El; [done|]. rewrite <- El in *. clear El x0 l'.
  set (r := bsearch_loop _ _ _ _ _) in *.
  destruct (lookup_lt_is_Some_2 l r Hr) as [x Hx]. rewrite Hx. cbn [fmap option_fmap option_map].
  assert (forall j y, l !! j = Some y -> j < r -> cmp x <> Eq -> cmp y = Lt) as Hbelow.
  { intros j y Hy Hj Hne. destruct Hlo as [->|(x' & Hx' & Hgt)]; [lia|].
    replace x' with x in Hgt by congruence.
    apply (Hasc j r y x); auto. by destruct (cmp x). }
  destruct (cmp x) eqn:Ex.
  - eauto.
  - split; [lia|]. intros j y Hy. case_decide.
    + destruct (decide (j = r)) as [->|]; [congruence|]. apply (Hbelow j); auto. lia.
    + apply (Hhi j); auto. lia.
  - split; [lia|]. intros j y Hy. case_decide.
    + apply (Hbelow j); auto.
    + destruct (decide (j = r)) as [->|]; [congruence|]. apply (Hhi j); auto. lia.
Qed.
End binary_search.

(** [p] holds on exactly the first [n] elements. *)
Definition partitioned_at {A} (p : A -> bool) (l : list A) (n : nat) : Prop :=
  n <= length l /\ forall j x, l !! j = Some x -> p x = bool_decide (j < n).

Lemma partition_point_le {A} (p : A -> bool) (l : list A) :
  partition_point p l <= length l.
Proof.
  unfold partition_point, binary_search_by. destruct l as [|x0 l']; [done|].
  set (l := x0 :: l').
  pose proof (bsearch_loop_bound (fun x => if p x then Lt else Gt) l (length l) (length l) 0).
  repeat case_match; simplify_eq; simpl in *; lia.
Qed.

(** On a partitioned slice [partition_point] answers the partition. *)
Lemma partition_point_partitioned {A} (p : A -> bool) (l : list A) n :
  partitioned_at p l n -> partition_point p l = n.
Proof.
  intros [Hn Hp]. unfold partition_point.
  assert (ascending_cmp (fun x => if p x then Lt else Gt) l) as Hasc.
  { intros i j x y Hij Hx%Hp Hy%Hp. rewrite Hx, Hy.
    repeat case_bool_decide; split; congruence || lia. }
  pose proof (binary_search_by_spec _ l Hasc) as H.
  destruct (binary_search_by _ l) as [i|i].
  { destruct H as (x & _ & Hx). by destruct (p x). }
  destruct H as [Hi H].
  destruct (lt_eq_lt_dec i n) as [[Hlt| ->]|Hgt]; [|done|].
  - destruct (lookup_lt_is_Some_2 l i) as [x Hx]; [lia|].
    pose proof (H i x Hx) as H1. pose proof (Hp i x Hx) as H2.
    rewrite decide_False in H1 by lia. rewrite bool_decide_true in H2 by lia.
    by rewrite H2 in H1.
  - destruct (lookup_lt_is_Some_2 l n) as [x Hx]; [lia|].
    pose proof (H n x Hx) as H1. pose proof (Hp n x Hx) as H2.
    rewrite decide_True in H1 by lia. rewrite bool_decide_false in H2 by lia.
    by rewrite H2 in H1.
Qed.

(** ** [usize] arithmetic

    Lengths and indexes are [nat]s; the checked and saturating forms stop at
    the 64-bit [usize]. A Rust slice never holds more than [isize::MAX]
    elements, which is what [fits] says of a list that stands for one. *)
Definition usize_max : Z := (2 ^ 64 - 1)%Z.
Definition isize_max : Z := (2 ^ 63 - 1)%Z.

Definition checked_usize (z : Z) : option nat :=
  if (z <=? usize_max)%Z then Some (Z.to_nat z) else None.
Definition checked_add (a b : nat) : option nat :=
  checked_usize (Z.of_nat a + Z.of_nat b).
Definition checked_mul (a b : nat) : option nat :=
  checked_usize (Z.of_nat a * Z.of_nat b).
Definition usat_add (a b : nat) : nat :=
  match checked_add a b with Some n => n | None => Z.to_nat usize_max end.

Definition fits {A} (l : list A) : Prop := (Z.of_nat (length l) <= isize_max)%Z.

Lemma checked_usize_small z :
  (0 <= z <= isize_max)%Z -> checked_usize z = Some (Z.to_nat z).
Proof.
  intros H. unfold checked_usize. rewrite (proj2 (Z.leb_le _ _)); [done|].
  unfold isize_max, usize_max in *. lia.
Qed.

Lemma checked_add_fits {A} (l : list A) a b :
  fits l -> a + b <= length l -> checked_add a b = Some (a + b).
Proof.
  unfold fits. intros H Hl. unfold checked_add.
  rewrite checked_usize_small by lia. f_equal. lia.
Qed.

Lemma usat_add_fits {A} (l : list A) a b :
  fits l -> a + b <= length l -> usat_add a b = a + b.
Proof. intros H Hl. unfold usat_add. by rewrite (checked_add_fits l). Qed.

Lemma fits_le {A B} (l : list A) (k : list B) :
  fits l -> length k <= length l -> fits k.
Proof. unfold fits. lia. Qed.

(** ** Results, chunks and iterators *)

Inductive result (A E : Type) : Type :=
  | Ok (a : A)
  | Err (e : E).
Arguments Ok {A E} a.
Arguments Err {A E} e.

(** [Option::ok_or], [Result::map_err] and the [?] operator. *)
Definition ok_or {A E} (o : option A) (e : E) : result A E :=
  match o with Some a => Ok a | None => Err e end.

Definition map_err {A E F} (f : E -> F) (r : result A E) : result A F :=
  match r with Ok a => Ok a | Err e => Err (f e) end.

Declare Scope result_scope.
Delimit Scope result_scope with result.
Notation "'try' x ':=' r 'in' k" := (match r with Ok x => k | Err e => Err e end)
  (at level 10, x name, r at level 100, k at level 200) : result_scope.
Notation "'try' ' x ':=' r 'in' k" := (match r with Ok x => k | Err e => Err e end)
  (at level 10, x strict pattern, r at level 100, k at level 200) : result_scope.

(** [slice::as_chunks::<N>]: the whole chunks and the remainder. *)
Fixpoint chunks_of {A} (k n : nat) (l : list A) : list (list A) :=
  match k with
  | O => []
  | S k => take n l :: chunks_of k n (drop n l)
  end.

Definition as_chunks {A} (n : nat) (l : list A) : list (list A) * list A :=
  let k := length l / n in (chunks_of k n l, drop (k * n) l).

(** [Iterator::map_while] and [Iterator::take_while]. *)
Fixpoint map_while {A B} (f : A -> option B) (l : list A) : list B :=
  match l with
  | [] => []
  | x :: l => match f x with Some y => y :: map_while f l | None => [] end
  end.

Fixpoint take_while {A} (p : A -> bool) (l : list A) : list A :=
  match l with
  | [] => []
  | x :: l => if p x then x :: take_while p l else []
  end.

Lemma map_while_all {A B} (f : A -> option B) (l : list A) (k : list B) :
  Forall2 (fun x y => f x = Some y) l k -> map_while f l = k.
Proof. induction 1 as [|x y l k H _ IH]; [done|]. simpl. by rewrite H, IH. Qed.

Lemma subslice_in {A} (l : list A) a b :
  a <= b <= length l -> subslice l a b = Some (take (b - a) (drop a l)).
Proof. intros H. unfold subslice. by rewrite decide_True. Qed.

Lemma subslice_app {A} (l k : list A) a b s : subslice l a b = Some s -> subslice (l ++ k) a b = Some s.
Proof.
  unfold subslice. case_decide as H; [|done]. intros [= <-].
  rewrite decide_True by (rewrite length_app; lia).
  rewrite drop_app_le by lia. rewrite take_app_le by (rewrite length_drop; lia). done.
Qed.

Lemma subslice_middle {A} (l s r : list A) a b :
  a = length l -> b = length l + length s -> subslice (l ++ s ++ r) a b = Some s.
Proof.
  intros -> ->. rewrite subslice_in by (rewrite !length_app; lia).
  rewrite drop_app_length, take_app_length' by lia. done.
Qed.

(** ** Lists read by position *)

Lemma filter_all {A} (P : A -> Prop) `{!forall x, Decision (P x)} (l : list A) :
  Forall P l -> filter P l = l.
Proof. induction 1 as [|x l Hx _ IH]; [done|]. by rewrite filter_cons_True, IH. Qed.

Lemma filter_none {A} (P : A -> Prop) `{!forall x, Decision (P x)} (l : list A) :
  Forall (fun x => ~ P x) l -> filter P l = [].
Proof. induction 1 as [|x l Hx _ IH]; [done|]. by rewrite filter_cons_False. Qed.

Lemma filter_ext_in {A} (P Q : A -> Prop) `{!forall x, Decision (P x), !forall x, Decision (Q x)}
    (l : list A) :
  (forall x, x ∈ l -> P x <-> Q x) -> filter P l = filter Q l.
Proof.
  induction l as [|x l IH]; intros Hpq; [done|]. rewrite !filter_cons.
  rewrite IH by (intros y Hy; apply Hpq; by apply elem_of_cons; right).
  specialize (Hpq x ltac:(by apply elem_of_cons; left)). repeat case_decide; tauto.
Qed.

Lemma omap_ext_in {A B} (f g : A -> option B) (l : list A) :
  (forall x, x ∈ l -> f x = g x) -> omap f l = omap g l.
Proof. intros H. apply list_omap_ext, Forall_Forall2_diag, Forall_forall, H. Qed.

Lemma omap_fmap {A B C} (f : A -> B) (g : B -> option C) (l : list A) :
  omap g (f <$> l) = omap (g ∘ f) l.
Proof. symmetry. apply list_omap_ext, Forall2_fmap_r, Forall_Forall2_diag, Forall_true. done. Qed.

Lemma omap_concat {A B} (f : A -> option B) (ls : list (list A)) :
  omap f (concat ls) = ls ≫= omap (M:=list) f.
Proof.
  induction ls as [|l ls IH]; [done|]. cbn [concat]. by rewrite omap_app, IH, bind_cons.
Qed.

(** A window of optional slots, read index by index. *)
Lemma omap_window {A} (l : list (option A)) m n :
  omap id (take n (drop m l)) = omap (fun j => mjoin (l !! j)) (seq m n).
Proof.
  revert m. induction n as [|n IH]; intros m; [done|]. cbn [seq omap list_omap].
  destruct (l !! m) as [x|] eqn:Hx.
  - rewrite (drop_S l x m) by done. simpl. by rewrite IH.
  - rewrite drop_ge by by apply lookup_ge_None_1. simpl. rewrite <- IH.
    rewrite drop_ge by (apply lookup_ge_None_1 in Hx; lia). by destruct n.
Qed.

Lemma concat_fmap {A B} (f : A -> list B) (l : list A) : concat (f <$> l) = l ≫= f.
Proof. induction l as [|x l IH]; [done|]. by rewrite fmap_cons, bind_cons, <- IH. Qed.

Lemma concat_bind {A B} (f : A -> list B) (ls : list (list A)) :
  concat ls ≫= f = ls ≫= fun l => l ≫= f.
Proof. induction ls as [|l ls IH]; [done|]. cbn [concat]. by rewrite bind_app, IH, bind_cons. Qed.

(** A list of lists read index by index. *)
Lemma bind_by_index {A B} (f : A -> list B) (F : nat -> list B) (l : list A) :
  (forall i x, l !! i = Some x -> f x = F i) -> l ≫= f = seq 0 (length l) ≫= F.
Proof.
  revert F. induction l as [|x l IH]; intros F H; [done|].
  cbn [length seq]. rewrite !bind_cons, (H 0 x eq_refl). f_equal.
  rewrite <- fmap_S_seq, list_fmap_bind. apply IH. intros i y Hi. by apply (H (S i)).
Qed.

Lemma omap_bind {A B C} (f : B -> option C) (g : A -> list B) (l : list A) :
  omap f (l ≫= g) = l ≫= fun x => omap f (g x).
Proof. induction l as [|x l IH]; [done|]. by rewrite !bind_cons, omap_app, IH. Qed.

Lemma fmap_bind {A B C} (f : B -> C) (g : A -> list B) (l : list A) :
  f <$> (l ≫= g) = l ≫= fun x => f <$> g x.
Proof. induction l as [|x l IH]; [done|]. by rewrite !bind_cons, fmap_app, IH. Qed.

(** ** Bit fields *)

(** Fields that do not overlap: [a | b << n] is a sum. *)
Lemma lor_shiftl_add a b n :
  (0 <= n)%Z -> (0 <= a < 2 ^ n)%Z -> Z.lor a (Z.shiftl b n) = (a + b * 2 ^ n)%Z.
Proof.
  intros Hn Ha. rewrite <- Z.shiftl_mul_pow2 by done.
  rewrite Z.add_nocarry_lxor, <- Z.lxor_lor; [done|..];
    (apply Z.bits_inj'; intros i Hi; rewrite Z.land_spec, Z.bits_0;
     destruct (Z.lt_ge_cases i n);
     [rewrite (Z.shiftl_spec_low b n i) by lia; apply andb_false_r
     |rewrite <- (Z.mod_small a (2 ^ n)), Z.mod_pow2_bits_high by lia; done]).
Qed.

(** [(x >> n) & (2^m - 1)]. *)
Lemma field_mod x n m :
  (0 <= n)%Z -> (0 <= m)%Z ->
  Z.land (Z.shiftr x n) (Z.ones m) = ((x / 2 ^ n) mod 2 ^ m)%Z.
Proof. intros. by rewrite Z.land_ones, Z.shiftr_div_pow2. Qed.

(** Division and remainder by constants. *)
Ltac div_lia := Z.to_euclidean_division_equations; lia.

(** A list of bytes read big-endian, byte by byte. *)
Definition be_value (l : bytes) : Z := fold_left (fun acc b => 256 * acc + byte_val b)%Z l 0%Z.

Lemma be_value_snoc l b : be_value (l ++ [b]) = (256 * be_value l + byte_val b)%Z.
Proof. unfold be_value. by rewrite fold_left_app. Qed.

Lemma be_value_inj l k : length l = length k -> be_value l = be_value k -> l = k.
Proof.
  revert k. induction l as [|b l IH] using rev_ind; intros k Hlen Hv.
  { destruct k; [done|]. simpl in Hlen. lia. }
  destruct k as [|c k _] using rev_ind; [rewrite length_app in Hlen; simpl in Hlen; lia|].
  rewrite !length_app in Hlen. rewrite !be_value_snoc in Hv. simpl in Hlen.
  pose proof (byte_val_range b). pose proof (byte_val_range c).
  rewrite (IH k) by lia. f_equal. f_equal. apply byte_val_inj. lia.
Qed.

(** ** Increasing tables *)

Fixpoint increasing (l : list Z) : bool :=
  match l with
  | a :: ((b :: _) as rest) => (a <? b)%Z && increasing rest
  | _ => true
  end.

Lemma increasing_lookup l i j x y :
  increasing l = true -> i < j -> l !! i = Some x -> l !! j = Some y -> (x < y)%Z.
Proof.
  revert i j x. induction l as [|a l IH]; intros i j x Hl Hij Hi Hj; [done|].
  destruct l as [|b l]; [destruct j; [lia|done]|].
  change (increasing (a :: b :: l)) with ((a <? b)%Z && increasing (b :: l)) in Hl.
  apply andb_true_iff in Hl as [Hab%Z.ltb_lt Hl].
  destruct j as [|j]; [lia|]. destruct i as [|i].
  - injection Hi as <-. destruct j as [|j]; [injection Hj as <-; done|].
    transitivity b; [done|]. by apply (IH 0 (S j)); [|lia| |].
  - by apply (IH i j x); [|lia| |].
Qed.

(** Binary search over a table whose keys increase. *)
Lemma bsearch_increasing {A} (key : A -> Z) (l : list A) (k : Z) :
  increasing (key <$> l) = true ->
  match binary_search_by (fun x => (key x ?= k)%Z) l with
  | inl i => exists x, l !! i = Some x /\ key x = k
  | inr _ => forall i x, l !! i = Some x -> key x <> k
  end.
Proof.
  intros Hinc. pose proof (binary_search_by_spec (fun x => (key x ?= k)%Z) l) as H.
  assert (ascending_cmp (fun x => (key x ?= k)%Z) l) as Hasc.
  { intros i j x y Hij Hx Hy.
    assert (key x < key y)%Z
      by (apply (increasing_lookup _ i j _ _ Hinc Hij); by rewrite list_lookup_fmap, ?Hx, ?Hy).
    rewrite !Z.compare_lt_iff, !Z.compare_gt_iff. lia. }
  specialize (H Hasc). destruct (binary_search_by _ l) as [i|i].
  - destruct H as (x & Hx & Hk%Z.compare_eq_iff). eauto.
  - destruct H as [_ H]. intros j x Hx%H Hk. rewrite Hk, Z.compare_refl in Hx. by case_decide.
Qed.

(** A computed check over a table, read row by row. *)
Lemma forallb_lookup {A} (p : A -> bool) (l : list A) :
  forallb p l = true -> forall i x, l !! i = Some x -> p x = true.
Proof.
  intros H i x Hx. rewrite List.forallb_forall in H. apply H.
  by apply list_elem_of_In, (list_elem_of_lookup_2 _ i).
Qed.

Lemma forallb_seq (p : nat -> bool) n i : forallb p (seq 0 n) = true -> i < n -> p i = true.
Proof. intros H Hi. apply (forallb_lookup _ _ H i). by rewrite lookup_seq. Qed.

Lemma forallb_elem {A} (p : A -> bool) (l : list A) x : forallb p l = true -> x ∈ l -> p x = true.
Proof. intros H Hx. rewrite List.forallb_forall in H. by apply H, list_elem_of_In. Qed.

Lemma lookup_app_plus {A} (l k : list A) i : (l ++ k) !! (length l + i) = k !! i.
Proof. rewrite lookup_app_r by lia. f_equal. lia. Qed.

(** ** UTF-8

    [str::from_utf8]: the well-formed sequences of the Unicode standard. *)
Definition in_range (lo hi : Z) (b : byte) : bool :=
  (lo <=? byte_val b)%Z && (byte_val b <=? hi)%Z.

Definition is_cont : byte -> bool := in_range 128 191.

Fixpoint utf8_valid (l : bytes) : bool :=
  match l with
  | [] => true
  | b0 :: r0 =>
      if in_range 0 127 b0 then utf8_valid r0
      else
        match r0 with
        | [] => false
        | b1 :: r1 =>
            if in_range 194 223 b0 then is_cont b1 && utf8_valid r1
            else
              match r1 with
              | [] => false
              | b2 :: r2 =>
                  let lo3 := if (byte_val b0 =? 224)%Z then 160%Z else 128%Z in
                  let hi3 := if (byte_val b0 =? 237)%Z then 159%Z else 191%Z in
                  if in_range 224 239 b0 then in_range lo3 hi3 b1 && is_cont b2 && utf8_valid r2
                  else
                    match r2 with
                    | [] => false
                    | b3 :: r3 =>
                        let lo4 := if (byte_val b0 =? 240)%Z then 144%Z else 128%Z in
                        let hi4 := if (byte_val b0 =? 244)%Z then 143%Z else 191%Z in
                        in_range 240 244 b0 && in_range lo4 hi4 b1 && is_cont b2 && is_cont b3
                          && utf8_valid r3
                    end
              end
        end
  end.

Definition from_utf8 (l : bytes) : option bytes := if utf8_valid l then Some l else None.

(** [u8::is_ascii_lowercase]. *)
Definition is_ascii_lowercase : byte -> bool := in_range 97 122.

Lemma utf8_ascii l : forallb (in_range 0 127) l = true -> utf8_valid l = true.
Proof.
  induction l as [|b l IH]; [done|]. cbn [forallb utf8_valid].
  intros [-> Hl]%andb_true_iff. by apply IH.
Qed.

Lemma lowercase_ascii l : forallb is_ascii_lowercase l = true -> forallb (in_range 0 127) l = true.
Proof.
  rewrite !List.forallb_forall. intros H b Hb%H. unfold is_ascii_lowercase, in_range in *.
  rewrite !andb_true_iff, !Z.leb_le in *. lia.
Qed.

Lemma from_utf8_lowercase l : forallb is_ascii_lowercase l = true -> from_utf8 l = Some l.
Proof. intros H. unfold from_utf8. by rewrite utf8_ascii by by apply lowercase_ascii. Qed.

(** [position] answers the first index, or none satisfies [p]. *)
Lemma position_first {A} (p : A -> bool) (l : list A) :
  match position p l with
  | Some i => (exists x, l !! i = Some x /\ p x = true) /\
      forall j y, j < i -> l !! j = Some y -> p y = false
  | None => forall j y, l !! j = Some y -> p y = false
  end.
Proof.
  induction l as [|x l IH]; simpl; [done|].
  destruct (p x) eqn:E; [split; [by exists x|intros; lia]|].
  destruct (position p l) as [i|]; simpl.
  - destruct IH as [IH1 IH2]. split; [done|]. intros [|j] y Hj Hy; [by simplify_eq/=|].
    apply (IH2 j); [lia|done].
  - intros [|j] y Hy; [by simplify_eq/=|by apply (IH j)].
Qed.

Lemma position_spec {A} (p : A -> bool) (l : list A) :
  match position p l with
  | Some i => exists x, l !! i = Some x /\ p x = true
  | None => forall x, x ∈ l -> p x = false
  end.
Proof.
  pose proof (position_first p l) as H. destruct (position p l); [apply H|].
  intros x [i Hi]%list_elem_of_lookup. by apply (H i).
Qed.

Lemma fold_left_ext_in {A B} (f g : A -> B -> A) (l : list B) (a : A) :
  (forall a x, x ∈ l -> f a x = g a x) -> fold_left f l a = fold_left g l a.
Proof.
  revert a. induction l as [|x l IH]; intros a H; [done|]. cbn.
  rewrite H by apply list_elem_of_here. apply IH. intros. apply H. by apply list_elem_of_further.
Qed.

(** The last index that satisfies [p]. *)
Lemma find_reverse_seq (p : nat -> bool) m :
  match List.find p (reverse (seq 0 m)) with
  | Some i => i < m /\ p i = true /\ forall j, i < j < m -> p j = false
  | None => forall j, j < m -> p j = false
  end.
Proof.
  induction m as [|m IH]; [cbn; intros; lia|]. rewrite seq_S, reverse_snoc. cbn [List.find Nat.add].
  destruct (p m) eqn:Hm; [split; [lia|split; [done|lia]]|].
  destruct (List.find p (reverse (seq 0 m))) as [i|].
  - destruct IH as (Hi & Hp & IH). split; [lia|split; [done|]]. intros j Hj.
    destruct (decide (j = m)) as [->|]; [done|]. apply IH. lia.
  - intros j Hj. destruct (decide (j = m)) as [->|]; [done|]. apply IH. lia.
Qed.

Lemma NoDup_omap_inj {A B} (f : A -> option B) (l : list A) :
  (forall x y z, x ∈ l -> y ∈ l -> f x = Some z -> f y = Some z -> x = y) ->
  NoDup l -> NoDup (omap f l).
Proof.
  intros Hf Hl. induction Hl as [|x l Hx Hl IH]; [constructor|].
  assert (NoDup (omap f l)) as Hnd
    by (apply IH; intros a b z Ha Hb; apply Hf; by apply list_elem_of_further).
  cbn [omap list_omap]. destruct (f x) as [z|] eqn:E; [|done]. constructor; [|done].
  intros (y & Hy & Hz)%list_elem_of_omap. apply Hx.
  by rewrite (Hf x y z) by first [done|apply list_elem_of_here|by apply list_elem_of_further].
Qed.

Lemma bind_bind {A B C} (f : A -> list B) (g : B -> list C) (l : list A) :
  (l ≫= f) ≫= g = l ≫= fun x => f x ≫= g.
Proof. induction l as [|x l IH]; [done|]. by rewrite !bind_cons, bind_app, IH. Qed.

Lemma filter_fmap_comp {A B} (f : A -> B) (P : B -> Prop) `{!forall x, Decision (P x)} (l : list A) :
  filter P (f <$> l) = f <$> filter (fun x => P (f x)) l.
Proof. induction l as [|x l IH]; [done|]. rewrite fmap_cons, !filter_cons, IH. by case_decide. Qed.

Lemma filter_filter_imp {A} (P Q : A -> Prop) `{!forall x, Decision (P x), !forall x, Decision (Q x)} (l : list A) :
  (forall x, P x -> Q x) -> filter P (filter Q l) = filter P l.
Proof.
  intros Hpq. induction l as [|x l IH]; [done|]. rewrite !filter_cons.
  destruct (decide (Q x)) as [Hq|Hq].
  - rewrite filter_cons, IH. done.
  - rewrite IH, decide_False; [done|]. intros Hp. by apply Hq, Hpq.
Qed.

Lemma elem_of_concat {A} (x : A) (ls : list (list A)) : x ∈ concat ls <-> exists l, l ∈ ls /\ x ∈ l.
Proof. rewrite list_elem_of_In, List.in_concat. by setoid_rewrite list_elem_of_In. Qed.
