(* ===== verification/ByteOrder.v ===== *)
(** * ByteOrder: the order of byte strings

    [Ord] of slices and strings: the first difference decides, a prefix is
    smaller. The order of [str] is that of its bytes. *)

From Stdlib Require Import ZArith Lia Bool Strings.Byte.
From stdpp Require Import base list.
From S2P Require Import Prelude.

(** [Ord] of slices and of iterators: the first difference decides. *)
Fixpoint lex_compare (l k : list Z) : comparison :=
  match l, k with
  | [], [] => Eq
  | [], _ => Lt
  | _, [] => Gt
  | x :: l, y :: k => match (x ?= y)%Z with Eq => lex_compare l k | c => c end
  end.

Lemma lex_compare_refl l : lex_compare l l = Eq.
Proof. induction l as [|x l IH]; [done|]. cbn. by rewrite Z.compare_refl. Qed.

Lemma lex_compare_eq l k : lex_compare l k = Eq <-> l = k.
Proof.
  split; [|intros ->; apply lex_compare_refl]. revert k.
  induction l as [|x l IH]; intros [|y k]; try done. cbn.
  destruct (Z.compare_spec x y); try done. intros. f_equal; auto.
Qed.

Lemma lex_compare_antisym l k : lex_compare k l = CompOpp (lex_compare l k).
Proof.
  revert k. induction l as [|x l IH]; intros [|y k]; try done. cbn.
  rewrite (Z.compare_antisym x y). destruct (x ?= y)%Z; cbn; auto.
Qed.

Lemma lex_compare_app p l k : lex_compare (p ++ l) (p ++ k) = lex_compare l k.
Proof. induction p as [|x p IH]; [done|]. cbn. by rewrite Z.compare_refl. Qed.

(** A smaller leading unit decides; an equal one is skipped. *)
Lemma lex_step x y l k :
  (x <= y)%Z -> (x = y -> lex_compare l k = Lt) -> lex_compare (x :: l) (y :: k) = Lt.
Proof. intros Hle Heq. cbn. destruct (Z.compare_spec x y); auto; lia. Qed.

(** [Ord] of byte slices. *)
Definition bytes_cmp (l k : bytes) : comparison :=
  lex_compare (byte_val <$> l) (byte_val <$> k).

Definition bytes_lt (l k : bytes) : Prop := bytes_cmp l k = Lt.

Lemma bytes_cmp_eq l k : bytes_cmp l k = Eq <-> l = k.
Proof.
  unfold bytes_cmp. rewrite lex_compare_eq. split; [|by intros ->].
  apply list_fmap_eq_inj. intros b c. apply byte_val_inj.
Qed.

Lemma bytes_cmp_antisym l k : bytes_cmp k l = CompOpp (bytes_cmp l k).
Proof. apply lex_compare_antisym. Qed.

Lemma lex_compare_trans l k m :
  lex_compare l k = Lt -> lex_compare k m = Lt -> lex_compare l m = Lt.
Proof.
  revert k m. induction l as [|x l IH]; intros [|y k] [|z m]; try done. cbn.
  destruct (Z.compare_spec x y), (Z.compare_spec y z); try done; intros H1 H2; subst.
  - rewrite Z.compare_refl. by eapply IH.
  - by rewrite (proj2 (Z.compare_lt_iff _ _)).
  - by rewrite (proj2 (Z.compare_lt_iff _ _)).
  - rewrite (proj2 (Z.compare_lt_iff x z)) by lia. done.
Qed.

#[export] Instance bytes_lt_trans : Transitive bytes_lt.
Proof. intros l k m. apply lex_compare_trans. Qed.

Lemma bytes_lt_self l : ~ bytes_lt l l.
Proof.
  intros H. unfold bytes_lt, bytes_cmp in H. rewrite lex_compare_refl in H. discriminate.
Qed.

#[export] Instance bytes_lt_dec l k : Decision (bytes_lt l k).
Proof. unfold bytes_lt. destruct (bytes_cmp l k); (left; reflexivity) || (right; discriminate). Defined.

Lemma bytes_lt_ne l k : bytes_lt l k -> l <> k.
Proof. intros H ->. by apply bytes_lt_self in H. Qed.

(** Case analysis on two keys. *)
Inductive bytes_cmp_view (l k : bytes) : comparison -> Prop :=
  | view_lt : bytes_lt l k -> bytes_cmp_view l k Lt
  | view_eq : l = k -> bytes_cmp_view l k Eq
  | view_gt : bytes_lt k l -> bytes_cmp_view l k Gt.

Lemma bytes_cmp_spec l k : bytes_cmp_view l k (bytes_cmp l k).
Proof.
  destruct (bytes_cmp l k) eqn:E; constructor; [by apply bytes_cmp_eq|done|].
  unfold bytes_lt. rewrite bytes_cmp_antisym, E. done.
Qed.

(** ** Tables of strings

    [StringTable::position]: a binary search of the first column. *)
Definition string_position {A} (first : A -> bytes) (table : list A) (spelling : bytes) : option nat :=
  let position := partition_point (fun row =>
    match bytes_cmp (first row) spelling with Lt => true | _ => false end) table in
  row ← table !! position;
  if bool_decide (first row = spelling) then Some position else None.

Fixpoint bytes_increasing (l : list bytes) : bool :=
  match l with
  | a :: ((b :: _) as rest) => bool_decide (bytes_lt a b) && bytes_increasing rest
  | _ => true
  end.

Lemma bytes_increasing_lookup l i j a b :
  bytes_increasing l = true -> i < j -> l !! i = Some a -> l !! j = Some b -> bytes_lt a b.
Proof.
  revert i j a. induction l as [|x l IH]; intros i j a Hl Hij Hi Hj; [done|].
  destruct l as [|y l]; [destruct j; [lia|done]|].
  change (bytes_increasing (x :: y :: l))
    with (bool_decide (bytes_lt x y) && bytes_increasing (y :: l)) in Hl.
  apply andb_true_iff in Hl as [Hxy%bool_decide_eq_true Hl].
  destruct j as [|j]; [lia|]. destruct i as [|i].
  - injection Hi as <-. destruct j as [|j]; [injection Hj as <-; done|].
    transitivity y; [done|]. by apply (IH 0 (S j)); [|lia| |].
  - by apply (IH i j a); [|lia| |].
Qed.

(** Where the first column increases, the search finds a row by its spelling. *)
Lemma string_position_spec {A} (first : A -> bytes) (table : list A) spelling i :
  bytes_increasing (first <$> table) = true ->
  string_position first table spelling = Some i <->
  exists row, table !! i = Some row /\ first row = spelling.
Proof.
  intros Hinc. unfold string_position.
  set (p := fun row => match bytes_cmp (first row) spelling with Lt => true | _ => false end).
  assert (forall j row, table !! j = Some row -> first row = spelling ->
    partitioned_at p table j) as Hpart.
  { intros j row Hj Hs. split; [apply lookup_lt_Some in Hj; lia|]. intros k x Hx. unfold p.
    assert (forall m n a b, m < n -> table !! m = Some a -> table !! n = Some b ->
      bytes_lt (first a) (first b)) as Hlt.
    { intros m n a b Hmn Hm Hn. eapply (bytes_increasing_lookup _ m n); [exact Hinc|done|..];
        rewrite list_lookup_fmap, ?Hm, ?Hn; done. }
    case_bool_decide as Hk.
    - pose proof (Hlt k j _ _ Hk Hx Hj) as H. rewrite Hs in H. unfold bytes_lt in H. by rewrite H.
    - destruct (decide (k = j)) as [->|].
      + replace x with row by congruence. rewrite Hs, (proj2 (bytes_cmp_eq _ _)); done.
      + pose proof (Hlt j k _ _ ltac:(lia) Hj Hx) as H. rewrite Hs in H. unfold bytes_lt in H.
        by rewrite bytes_cmp_antisym, H. }
  split.
  - intros H. apply bind_Some in H as (row & Hrow & H). case_bool_decide; [|done].
    injection H as <-. by exists row.
  - intros (row & Hi & Hs). rewrite (partition_point_partitioned p table i) by eauto.
    rewrite Hi. cbn [mbind option_bind]. by rewrite bool_decide_true.
Qed.
