(* ===== verification/Sorting.v ===== *)
(** * Sorting: the standard library's sorts by a comparison

    [sort_by] is stable, [sort_unstable_by] and [select_nth_unstable_by]
    promise less; all of them leave one list when no two elements compare
    equal. A comparison is read through a key that orders as it does. *)

From Stdlib Require Import ZArith Lia Bool.
From stdpp Require Import base list sorting.
From S2P Require Import Prelude ByteOrder.

Fixpoint insert_by {A} (cmp : A -> A -> comparison) (x : A) (l : list A) : list A :=
  match l with
  | [] => [x]
  | y :: l => match cmp x y with Gt => y :: insert_by cmp x l | _ => x :: y :: l end
  end.

Definition sort_by {A} (cmp : A -> A -> comparison) (l : list A) : list A := foldr (insert_by cmp) [] l.

(** What [select_nth_unstable_by] documents of the list it leaves. *)
Definition selected_at {A} (cmp : A -> A -> comparison) (n : nat) (l k : list A) : Prop :=
  k ≡ₚ l /\
  forall i j x y, i < n \/ i = n -> n <= j -> k !! i = Some x -> k !! j = Some y -> cmp x y <> Gt.

Definition select_nth_unstable_by {A} (cmp : A -> A -> comparison) (n : nat) (l : list A) : list A :=
  sort_by cmp l.

Section keyed.
Context {A : Type} (cmp : A -> A -> comparison) (key : A -> list Z).
Hypothesis cmp_key : forall x y, cmp x y = lex_compare (key x) (key y).

Definition le_key (x y : A) : Prop := lex_compare (key x) (key y) <> Gt.

Lemma le_key_refl x : le_key x x.
Proof using Type. unfold le_key. by rewrite lex_compare_refl. Qed.

Lemma le_key_trans x y z : le_key x y -> le_key y z -> le_key x z.
Proof using Type.
  unfold le_key. intros H1 H2.
  destruct (lex_compare (key x) (key y)) eqn:E1; [| |done].
  - apply lex_compare_eq in E1. by rewrite E1.
  - destruct (lex_compare (key y) (key z)) eqn:E2; [| |done].
    + apply lex_compare_eq in E2. by rewrite <- E2, E1.
    + by rewrite (lex_compare_trans _ _ _ E1 E2).
Qed.

#[local] Instance le_key_preorder : PreOrder le_key.
Proof. split; [exact le_key_refl|exact le_key_trans]. Qed.

Lemma le_key_total x y : le_key x y \/ le_key y x.
Proof using Type.
  unfold le_key. rewrite (lex_compare_antisym (key x) (key y)).
  destruct (lex_compare (key x) (key y)); cbn; auto.
Qed.

Lemma insert_by_perm x l : insert_by cmp x l ≡ₚ x :: l.
Proof using Type.
  induction l as [|y l IH]; [done|]. cbn. destruct (cmp x y); [done|done|].
  rewrite IH. constructor.
Qed.

Lemma sort_by_perm l : sort_by cmp l ≡ₚ l.
Proof using Type. induction l as [|x l IH]; [done|]. cbn. by rewrite insert_by_perm, IH. Qed.

Lemma insert_by_sorted x l : StronglySorted le_key l -> StronglySorted le_key (insert_by cmp x l).
Proof using cmp_key.
  induction 1 as [|y l Hs IH Hy]; [by repeat constructor|]. cbn.
  destruct (cmp x y) eqn:E.
  1,2: constructor; [by constructor|]; assert (le_key x y) as Hxy by (unfold le_key; rewrite <- cmp_key; congruence);
    constructor; [done|]; apply (Forall_impl _ _ _ Hy); intros ? ?; by transitivity y.
  constructor; [done|]. apply Forall_forall. intros z. rewrite insert_by_perm. rewrite Forall_forall in Hy.
  intros [->|Hz]%elem_of_cons; [|by apply Hy]. destruct (le_key_total x y) as [H|]; [|done].
  destruct H. by rewrite <- cmp_key.
Qed.

Lemma sort_by_sorted l : StronglySorted le_key (sort_by cmp l).
Proof using cmp_key. induction l as [|x l IH]; [constructor|]. by apply insert_by_sorted. Qed.

(** Elements that compare equal keep their order. *)
Lemma insert_by_stable k x l :
  filter (fun y => key y = k) (insert_by cmp x l) = filter (fun y => key y = k) (x :: l).
Proof using cmp_key.
  induction l as [|y l IH]; [done|]. cbn [insert_by]. destruct (cmp x y) eqn:E; [done|done|].
  rewrite !filter_cons, IH, filter_cons. rewrite cmp_key in E.
  destruct (decide (key x = k)) as [H1|], (decide (key y = k)) as [H2|]; try done.
  rewrite H1, H2, lex_compare_refl in E. discriminate.
Qed.

Lemma sort_by_stable k l :
  filter (fun y => key y = k) (sort_by cmp l) = filter (fun y => key y = k) l.
Proof using cmp_key.
  induction l as [|x l IH]; [done|]. cbn [sort_by foldr]. rewrite insert_by_stable, !filter_cons.
  fold (sort_by cmp l). by rewrite IH.
Qed.

(** ** One sorted list when the keys differ *)

Lemma sorted_unique l k :
  NoDup (key <$> l) -> StronglySorted le_key l -> StronglySorted le_key k -> l ≡ₚ k -> l = k.
Proof using Type.
  intros Hn Hl. revert k. induction Hl as [|x l Hl IH Hx]; intros k Hk Hp.
  { by apply Permutation_nil_l in Hp. }
  apply NoDup_cons in Hn as [Hnx Hn].
  destruct Hk as [|y k Hk Hy]; [by apply Permutation_nil_r in Hp|].
  rewrite Forall_forall in Hx, Hy.
  assert (x = y) as <-.
  { assert (x ∈ y :: k) as [->|Hin]%elem_of_cons by (rewrite <- Hp; left); [done|].
    assert (y ∈ x :: l) as [->|Hin']%elem_of_cons by (rewrite Hp; left); [done|].
    specialize (Hx y Hin'). specialize (Hy x Hin). unfold le_key in Hx, Hy.
    rewrite (lex_compare_antisym (key x) (key y)) in Hy.
    destruct (lex_compare (key x) (key y)) eqn:E; cbn in Hy; [|done|done].
    apply lex_compare_eq in E. destruct Hnx. rewrite E. by apply list_elem_of_fmap_2. }
  f_equal. apply IH; [done|done|]. by apply Permutation_cons_inv in Hp.
Qed.

(** Selection followed by a sort keeps the first of the sorted list. *)
Lemma select_sorted n l k s :
  NoDup (key <$> l) -> selected_at cmp n l k -> n < length l ->
  StronglySorted le_key s -> s ≡ₚ take (S n) k ->
  s = take (S n) (sort_by cmp l).
Proof using cmp_key.
  intros Hn [Hp Hsel] Hlen Hs Hps.
  assert (NoDup (key <$> k)) as Hnk by (by rewrite Hp).
  set (r := s ++ sort_by cmp (drop (S n) k)).
  assert (r ≡ₚ l) as Hr.
  { unfold r. rewrite Hps, sort_by_perm. by rewrite take_drop. }
  assert (StronglySorted le_key r) as Hrs.
  { apply StronglySorted_app_2; [|done|apply sort_by_sorted].
    intros x y Hx Hy. rewrite Hps in Hx. rewrite sort_by_perm in Hy.
    apply list_elem_of_lookup in Hx as [i Hi]. apply list_elem_of_lookup in Hy as [j Hj].
    apply lookup_take_Some in Hi as [Hi Hi']. rewrite lookup_drop in Hj.
    unfold le_key. rewrite <- cmp_key. apply (Hsel i (S n + j)); [lia|lia|done..]. }
  assert (r = sort_by cmp l) as <-.
  { apply sorted_unique; [by rewrite Hr|done|apply sort_by_sorted|by rewrite sort_by_perm]. }
  unfold r. rewrite take_app_length'; [done|].
  rewrite Hps, length_take. rewrite <- Hp in Hlen. lia.
Qed.

Lemma select_nth_selects n l : selected_at cmp n l (select_nth_unstable_by cmp n l).
Proof using cmp_key.
  split; [apply sort_by_perm|]. unfold select_nth_unstable_by. intros i j x y Hi Hj Hx Hy.
  rewrite cmp_key. destruct (decide (i = j)) as [->|Hne].
  { simplify_eq. by rewrite lex_compare_refl. }
  assert (i < j) as Hij by lia. pose proof (sort_by_sorted l) as Hs.
  rewrite <- (take_drop j (sort_by cmp l)) in Hs.
  assert (le_key x y); [|done]. eapply StronglySorted_app_1_elem_of; [exact Hs| |].
  - apply list_elem_of_lookup. exists i. by rewrite lookup_take_lt.
  - apply list_elem_of_lookup. exists 0. by rewrite lookup_drop, Nat.add_0_r.
Qed.
End keyed.

Lemma insert_by_fmap {A B} (g : A -> B) (cmp : B -> B -> comparison) x l :
  g <$> insert_by (fun x y => cmp (g x) (g y)) x l = insert_by cmp (g x) (g <$> l).
Proof. induction l as [|y l IH]; [done|]. cbn. destruct (cmp _ _); cbn; [done|done|]. f_equal. exact IH. Qed.

Lemma sort_by_fmap {A B} (g : A -> B) (cmp : B -> B -> comparison) l :
  g <$> sort_by (fun x y => cmp (g x) (g y)) l = sort_by cmp (g <$> l).
Proof.
  induction l as [|x l IH]; [done|]. rewrite fmap_cons. unfold sort_by in *. cbn [foldr].
  by rewrite insert_by_fmap, IH.
Qed.

Lemma insert_by_ext_in {A} (cmp cmp' : A -> A -> comparison) x l :
  (forall y, y ∈ l -> cmp x y = cmp' x y) -> insert_by cmp x l = insert_by cmp' x l.
Proof.
  induction l as [|y l IH]; intros H; [done|]. cbn. rewrite (H y) by apply list_elem_of_here.
  rewrite IH by (intros z Hz; apply H; by apply list_elem_of_further). done.
Qed.

Lemma sort_by_ext_in {A} (cmp cmp' : A -> A -> comparison) l :
  (forall x y, x ∈ l -> y ∈ l -> cmp x y = cmp' x y) -> sort_by cmp l = sort_by cmp' l.
Proof.
  induction l as [|x l IH]; intros H; [done|]. unfold sort_by in *. cbn [foldr].
  rewrite IH by (intros y z Hy Hz; apply H; by apply list_elem_of_further).
  apply insert_by_ext_in. intros y Hy. fold (sort_by cmp' l) in Hy. rewrite sort_by_perm in Hy.
  apply H; [apply list_elem_of_here|by apply list_elem_of_further].
Qed.

Lemma StronglySorted_impl_elem {A} (R R' : A -> A -> Prop) l :
  (forall x y, x ∈ l -> y ∈ l -> R x y -> R' x y) -> StronglySorted R l -> StronglySorted R' l.
Proof.
  intros Himp Hl. induction Hl as [|x l Hl IH Hx]; [constructor|].
  constructor; [apply IH; intros y z Hy Hz; apply Himp; by apply list_elem_of_further|].
  rewrite Forall_forall in Hx |- *. intros y Hy. apply Himp;
    [apply list_elem_of_here|by apply list_elem_of_further|by apply Hx].
Qed.

Lemma StronglySorted_concat {A} (R : A -> A -> Prop) (ls : list (list A)) :
  Forall (StronglySorted R) ls ->
  StronglySorted (fun l k => forall x y, x ∈ l -> y ∈ k -> R x y) ls -> StronglySorted R (concat ls).
Proof.
  intros Hls Hs. induction Hs as [|l ls Hs IH Hl]; [constructor|]. apply Forall_cons in Hls as [H1 H2].
  cbn. apply StronglySorted_app_2; [|done|by apply IH].
  intros x y Hx (k & Hk & Hy)%elem_of_concat. rewrite Forall_forall in Hl. by apply (Hl k).
Qed.

Lemma filter_seq_sorted (P : nat -> Prop) `{!forall i, Decision (P i)} m n :
  StronglySorted lt (filter P (seq m n)).
Proof.
  revert m. induction n as [|n IH]; intros m; [constructor|]. cbn [seq]. rewrite filter_cons.
  case_decide; [|apply IH]. constructor; [apply IH|]. apply Forall_forall.
  intros i [_ Hi%elem_of_seq]%list_elem_of_filter. lia.
Qed.

Lemma sort_by_id {A} (cmp : A -> A -> comparison) l :
  StronglySorted (fun x y => cmp x y <> Gt) l -> sort_by cmp l = l.
Proof.
  induction 1 as [|x l _ IH Hx]; [done|]. unfold sort_by in *. cbn. rewrite IH.
  destruct l as [|y l]; [done|]. apply Forall_cons in Hx as [Hxy _]. cbn. by destruct (cmp x y).
Qed.

Lemma StronglySorted_lookup_lt {A} (R : A -> A -> Prop) l i j x y :
  StronglySorted R l -> i < j -> l !! i = Some x -> l !! j = Some y -> R x y.
Proof.
  intros Hs. revert i j. induction Hs as [|z l _ IH Hz]; intros i j Hij Hx Hy; [done|].
  destruct j as [|j]; [lia|]. destruct i as [|i]; cbn in Hx, Hy.
  - injection Hx as ->. rewrite Forall_forall in Hz. apply Hz. by eapply list_elem_of_lookup_2.
  - by apply (IH i j); [lia|..].
Qed.

(** ** Swaps *)

(** [slice::swap] inside the slice. *)
Definition swap {A} (l : list A) (i j : nat) : list A :=
  match l !! i, l !! j with
  | Some x, Some y => <[i := y]> (<[j := x]> l)
  | _, _ => l
  end.

Lemma swap_lookup {A} (l : list A) i j x y k :
  l !! i = Some x -> l !! j = Some y ->
  swap l i j !! k = if decide (k = i) then Some y else if decide (k = j) then Some x else l !! k.
Proof.
  intros Hi Hj. unfold swap. rewrite Hi, Hj. apply lookup_lt_Some in Hi as Li. apply lookup_lt_Some in Hj as Lj.
  destruct (decide (k = i)) as [->|]; [by rewrite list_lookup_insert_eq by by rewrite length_insert|].
  rewrite list_lookup_insert_ne by done. destruct (decide (k = j)) as [->|]; [by rewrite list_lookup_insert_eq|].
  by rewrite list_lookup_insert_ne.
Qed.

Lemma length_swap {A} (l : list A) i j : length (swap l i j) = length l.
Proof. unfold swap. destruct (l !! i), (l !! j); rewrite ?length_insert; done. Qed.

(** One kept element of a compaction in place: the element read goes behind
    those kept, the ones not yet read stay. *)
Lemma compact_keep {A} (l l0 : list A) kept read x :
  kept <= read -> length l = length l0 -> drop read l = drop read l0 -> l0 !! read = Some x ->
  take (S kept) (swap l kept read) = take kept l ++ [x] /\
  drop (S read) (swap l kept read) = drop (S read) l0.
Proof.
  intros Hk Hl Hd Hx. assert (forall i, read <= i -> l !! i = l0 !! i) as Hrest.
  { intros i Hi. pose proof (f_equal (fun d => d !! (i - read)) Hd) as E. cbn in E.
    rewrite !lookup_drop in E. by replace (read + (i - read)) with i in E by lia. }
  apply lookup_lt_Some in Hx as Hlt. destruct (lookup_lt_is_Some_2 l kept) as [y Hy]; [lia|].
  assert (l !! read = Some x) as Hr by by rewrite Hrest.
  assert (forall i, swap l kept read !! i =
    if decide (i = kept) then Some x else if decide (i = read) then Some y else l !! i) as Hs
    by (intros; by apply swap_lookup).
  split.
  - rewrite (take_S_r _ kept x) by (by rewrite Hs, decide_True). f_equal.
    apply list_eq. intros i. destruct (decide (i < kept)).
    + rewrite !lookup_take_lt, Hs, !decide_False by lia. done.
    + rewrite !lookup_ge_None_2 by (rewrite length_take; lia). done.
  - apply list_eq. intros i. rewrite !lookup_drop, Hs, !decide_False, Hrest by lia. done.
Qed.

(** ** The first of each kind *)

Section firsts.
Context {A K : Type} `{EqDecision K} (f : A -> K).

(** The elements no earlier one is of the same kind as, in order. *)
Definition firsts (l : list A) : list A :=
  omap (fun i => l !! i)
    (filter (fun i => f <$> l !! i ∉ (fun x => Some (f x)) <$> take i l) (seq 0 (length l))).

Lemma firsts_elem l x : x ∈ firsts l -> x ∈ l.
Proof. intros (i & _ & Hi)%list_elem_of_omap. by eapply list_elem_of_lookup_2. Qed.

Lemma first_index l i x :
  l !! i = Some x ->
  (f <$> l !! i ∉ (fun x => Some (f x)) <$> take i l) <->
  forall j y, j < i -> l !! j = Some y -> f y <> f x.
Proof.
  intros Hi. rewrite Hi. cbn. rewrite list_elem_of_fmap. split.
  - intros Hn j y Hj Hy E. apply Hn. exists y. rewrite E. split; [done|].
    apply (list_elem_of_lookup_2 _ j). by rewrite lookup_take_lt.
  - intros Hn (y & [= E] & Hy). apply list_elem_of_lookup in Hy as [j Hj].
    apply lookup_lt_Some in Hj as Hlt. rewrite length_take in Hlt. rewrite lookup_take_lt in Hj by lia.
    apply (Hn j y); [lia|done..].
Qed.

Lemma firsts_NoDup l : NoDup (f <$> firsts l).
Proof.
  unfold firsts. rewrite list_fmap_omap. apply NoDup_omap_inj; [|apply NoDup_filter, NoDup_seq].
  intros i j z [Hi _]%list_elem_of_filter [Hj _]%list_elem_of_filter Ei Ej. cbn in Ei, Ej.
  destruct (l !! i) as [x|] eqn:Hx; [|done]. destruct (l !! j) as [y|] eqn:Hy; [|done]. cbn in Ei, Ej.
  rewrite <- Hx in Hi. rewrite <- Hy in Hj.
  pose proof (proj1 (first_index l i x Hx) Hi) as Fi. pose proof (proj1 (first_index l j y Hy) Hj) as Fj.
  destruct (lt_eq_lt_dec i j) as [[Hlt| ->]|Hlt]; [|done|]; exfalso.
  - apply (Fj i x Hlt Hx). congruence.
  - apply (Fi j y Hlt Hy). congruence.
Qed.

Lemma firsts_id l : NoDup (f <$> l) -> firsts l = l.
Proof.
  intros Hn. unfold firsts. rewrite filter_all.
  - induction l as [|x l IH] using rev_ind; [done|]. rewrite fmap_app, NoDup_app in Hn.
    rewrite length_app, seq_app, omap_app. cbn [length seq omap list_omap Nat.add].
    rewrite lookup_app_r, Nat.sub_diag by lia. cbn. f_equal.
    rewrite <- IH at 2 by tauto. apply omap_ext_in. intros i Hi%elem_of_seq. rewrite lookup_app_l by lia. done.
  - apply Forall_forall. intros i Hi%elem_of_seq.
    destruct (lookup_lt_is_Some_2 l i) as [x Hx]; [lia|]. apply (first_index l i x Hx).
    intros j y Hj Hy E. assert (j = i); [|lia].
    apply (NoDup_lookup (f <$> l) j i (f y)); [done|by rewrite list_lookup_fmap, Hy|by rewrite list_lookup_fmap, Hx, E].
Qed.

Lemma firsts_cover l x : x ∈ l -> exists y, y ∈ firsts l /\ f y = f x.
Proof.
  intros [i Hi]%list_elem_of_lookup. revert x Hi. induction (lt_wf i) as [i _ IH]. intros x Hi.
  destruct (decide (f <$> l !! i ∉ (fun x => Some (f x)) <$> take i l)) as [Hf|Hn].
  - exists x. split; [|done]. apply list_elem_of_omap. exists i. split; [|done].
    apply list_elem_of_filter. split; [done|]. apply elem_of_seq. apply lookup_lt_Some in Hi. lia.
  - rewrite Hi in Hn. cbn in Hn. apply dec_stable in Hn.
    apply list_elem_of_fmap in Hn as (y & [= E] & Hy). apply list_elem_of_lookup in Hy as [j Hj].
    apply lookup_lt_Some in Hj as Hlt. rewrite length_take in Hlt. rewrite lookup_take_lt in Hj by lia.
    destruct (IH j ltac:(lia) y Hj) as (z & Hz & Ez). exists z. split; [done|congruence].
Qed.
End firsts.
