(* ===== verification/SingleGram.v ===== *)
(** * SingleGram: one bigram row as bytes

    [crates/oxpinyin-core/src/single_gram.rs]: the value a bigram container
    stores under a predecessor, a little-endian total followed by packed
    eight-byte [(token, frequency)] items. Every operation is the source's,
    over the bytes; a mutating operation returns the new bytes with its
    answer. *)

From Stdlib Require Import ZArith Lia Bool Strings.Byte.
From stdpp Require Import base list gmap sorting.
From S2P Require Import Prelude.

(** Bytes of the total, and of one item. *)
Definition TOTAL_LEN : nat := 4.
Definition ITEM_LEN : nat := 8.

(** The number of whole items after the total. *)
Definition get_length (gram : bytes) : nat :=
  (length gram - TOTAL_LEN) / ITEM_LEN.

Definition word (gram : bytes) (offset : nat) : Z :=
  match subslice gram offset (usat_add offset 4) with
  | Some s => le_value s
  | None => 0
  end.

Definition put_word (gram : bytes) (offset : nat) (value : Z) : bytes :=
  match subslice gram offset (usat_add offset 4) with
  | Some _ => take offset gram ++ le32 value ++ drop (offset + 4) gram
  | None => gram
  end.

(** The byte offset of an item; [None] when it overflows. *)
Definition item_offset (index : nat) : option nat :=
  b ← checked_mul index ITEM_LEN; checked_add b TOTAL_LEN.

(** The token and the frequency of an item; [None] past the last one. *)
Definition item_token (gram : bytes) (index : nat) : option Z :=
  if decide (index < get_length gram)
  then word gram <$> item_offset index
  else None.

Definition item_freq (gram : bytes) (index : nat) : option Z :=
  o ← item_offset index;
  offset ← checked_add o 4;
  if decide (index < get_length gram) then Some (word gram offset) else None.

(** The whole records, borrowed, and the partial tail. *)
Definition records (gram : bytes) : option (list bytes * bytes) :=
  rest ← subslice gram TOTAL_LEN (length gram);
  Some (as_chunks ITEM_LEN rest).

Definition record_token (record : bytes) : Z := le_value (take 4 record).
Definition record_freq (record : bytes) : Z := le_value (take 4 (drop 4 record)).

Definition get_total_freq (gram : bytes) : option Z :=
  if decide (TOTAL_LEN <= length gram) then Some (word gram 0) else None.

Definition set_total_freq (gram : bytes) (total : Z) : bytes :=
  let gram :=
    if decide (length gram < TOTAL_LEN)
    then gram ++ replicate (TOTAL_LEN - length gram) x00
    else gram in
  put_word gram 0 total.

Definition lower_bound_records (records : list bytes) (token : Z) : nat :=
  partition_point (fun record => (record_token record <? token)%Z) records.

Definition lower_bound (gram : bytes) (token : Z) : nat :=
  match records gram with
  | None => 0
  | Some (records, _) => lower_bound_records records token
  end.

(** The indexes a walk from [lower_bound] visits. *)
Definition walk (gram : bytes) (token : Z) : list nat :=
  let lb := lower_bound gram token in seq lb (get_length gram - lb).

(** The walk [get_freq], [set_freq] and [remove_freq] share. *)
Fixpoint find_in (gram : bytes) (token : Z) (indexes : list nat) : option nat :=
  match indexes with
  | [] => None
  | index :: rest =>
      item ← item_token gram index;
      if (token <? item)%Z then None
      else if (item =? token)%Z then Some index
      else find_in gram token rest
  end.

Definition find (gram : bytes) (token : Z) : option nat :=
  find_in gram token (walk gram token).

Definition get_freq (gram : bytes) (token : Z) : option Z :=
  index ← find gram token; item_freq gram index.

(** Where the pin's read of a malformed value stops being defined. *)
Inductive GramFault : Type :=
  | Short
  | OverRead.

Definition has_partial_tail (gram : bytes) : bool :=
  bool_decide (TOTAL_LEN <= length gram) &&
  negb ((length gram - TOTAL_LEN) mod ITEM_LEN =? 0).

Fixpoint checked_get_in (gram : bytes) (token : Z) (indexes : list nat)
    : result (option Z) GramFault :=
  match indexes with
  | [] => if has_partial_tail gram then Err OverRead else Ok None
  | index :: rest =>
      match item_token gram index, item_freq gram index with
      | Some item, Some freq =>
          if (token <? item)%Z then Ok None
          else if (item =? token)%Z then Ok (Some freq)
          else checked_get_in gram token rest
      | _, _ => Err OverRead
      end
  end.

Definition checked_get_freq (gram : bytes) (token : Z) : result (option Z) GramFault :=
  if decide (length gram < TOTAL_LEN) then Err OverRead
  else checked_get_in gram token (walk gram token).

(** The walk of [checked_search]: the items pushed so far survive an error. *)
Fixpoint checked_search_in (records : list bytes) (tail : bytes) (end_ : Z)
    (out : list (Z * Z)) : list (Z * Z) * result unit GramFault :=
  match records with
  | [] => (out, match tail with [] => Ok tt | _ => Err OverRead end)
  | record :: rest =>
      let item := record_token record in
      let freq := record_freq record in
      if (end_ <=? item)%Z then (out, Ok tt)
      else checked_search_in rest tail end_ (out ++ [(item, freq)])
  end.

Definition checked_search (gram : bytes) (begin end_ : Z) (out : list (Z * Z))
    : list (Z * Z) * result unit GramFault :=
  match records gram with
  | None => (out, Err Short)
  | Some (records, tail) =>
      checked_search_in (drop (lower_bound_records records begin) records) tail end_ out
  end.

Definition set_freq (gram : bytes) (token freq : Z) : bytes * bool :=
  match (i ← find gram token; o ← item_offset i; checked_add o 4) with
  | None => (gram, false)
  | Some offset => (put_word gram offset freq, true)
  end.

(** [u32] words are stored little-endian: one packed item. *)
Definition record_of (token freq : Z) : bytes := le32 token ++ le32 freq.

Fixpoint insert_in (gram : bytes) (token freq : Z) (indexes : list nat) : bytes * bool :=
  match indexes with
  | [] => (gram ++ record_of token freq, true)
  | index :: rest =>
      match item_token gram index with
      | None => (gram, false)
      | Some item =>
          if (token <? item)%Z then
            match item_offset index with
            | None => (gram, false)
            | Some offset =>
                (take offset gram ++ record_of token freq ++ drop offset gram, true)
            end
          else if (item =? token)%Z then (gram, false)
          else insert_in gram token freq rest
      end
  end.

Definition insert_freq (gram : bytes) (token freq : Z) : bytes * bool :=
  insert_in gram token freq (walk gram token).

Definition remove_freq (gram : bytes) (token : Z) : bytes * option Z :=
  match (index ← find gram token;
         freq ← item_freq gram index;
         offset ← item_offset index;
         stop ← checked_add offset ITEM_LEN;
         Some (freq, offset, stop)) with
  | None => (gram, None)
  | Some (freq, offset, stop) => (take offset gram ++ drop stop gram, Some freq)
  end.

(** The [while] loop of [mask_out]: each turn steps the index or drains an
    item, so the number of items bounds the turns. *)
Fixpoint mask_loop (fuel : nat) (mask value : Z) (gram : bytes) (index : nat)
    (total removed : Z) : bytes * Z * Z :=
  match fuel with
  | O => (gram, total, removed)
  | S fuel =>
      if decide (index < get_length gram) then
        match item_token gram index, item_freq gram index, item_offset index with
        | Some item, Some freq, Some offset =>
            if (Z.land item mask =? value)%Z then
              mask_loop fuel mask value
                (take offset gram ++ drop (usat_add offset ITEM_LEN) gram) index
                (total -₃₂ freq)%M (removed +₃₂ 1)%M
            else mask_loop fuel mask value gram (S index) total removed
        | _, _, _ => (gram, total, removed)
        end
      else (gram, total, removed)
  end.

Definition mask_out (gram : bytes) (mask value : Z) : bytes * Z :=
  match get_total_freq gram with
  | None => (gram, 0%Z)
  | Some total =>
      let '(gram, total, removed) :=
        mask_loop (get_length gram) mask value gram 0 total 0 in
      (set_total_freq gram total, removed)
  end.

Definition item_at (gram : bytes) (index : nat) : option (Z * Z) :=
  t ← item_token gram index; f ← item_freq gram index; Some (t, f).

Definition retrieve_all (gram : bytes) : list (Z * Z) :=
  map_while (item_at gram) (seq 0 (get_length gram)).

Definition search (gram : bytes) (begin end_ : Z) : list (Z * Z) :=
  take_while (fun it => (it.1 <? end_)%Z) (map_while (item_at gram) (walk gram begin)).

(** The two-pointer loop of [merge_single_gram]; it stops when one side is
    exhausted and answers where both stand. *)
Definition merge_item (gram : bytes) (index : nat) : Z * Z :=
  (default 0%Z (item_token gram index), default 0%Z (item_freq gram index)).

Fixpoint merge_loop (fuel : nat) (system user : bytes) (left right : nat)
    (merged : bytes) : nat * nat * bytes :=
  match fuel with
  | O => (left, right, merged)
  | S fuel =>
      if decide (left < get_length system /\ right < get_length user) then
        let '(st, sf) := merge_item system left in
        let '(ut, uf) := merge_item user right in
        if (st <? ut)%Z then
          merge_loop fuel system user (S left) right (merged ++ record_of st sf)
        else if (ut <? st)%Z then
          merge_loop fuel system user left (S right) (merged ++ record_of ut uf)
        else
          merge_loop fuel system user (S left) (S right)
            (merged ++ record_of st (sf +₃₂ uf)%M)
      else (left, right, merged)
  end.

Definition append_rest (gram : bytes) (from : nat) (merged : bytes) : bytes :=
  fold_left (fun acc index => acc ++ record_of (merge_item gram index).1 (merge_item gram index).2)
    (seq from (get_length gram - from)) merged.

Definition merge_single_gram (merged : bytes) (system user : option bytes) : bytes * bool :=
  match system, user with
  | None, None => (merged, false)
  | None, Some only | Some only, None => (only, true)
  | Some system, Some user =>
      let total := (default 0%Z (get_total_freq system) +₃₂
                    default 0%Z (get_total_freq user))%M in
      let '(l, r, merged) :=
        merge_loop (get_length system + get_length user) system user 0 0 (le32 total) in
      (append_rest user r (append_rest system l merged), true)
  end.

(** Adjacent tokens strictly increase ([windows(2).all]). *)
Fixpoint windows_increase (records : list bytes) : bool :=
  match records with
  | a :: ((b :: _) as rest) => (record_token a <? record_token b)%Z && windows_increase rest
  | _ => true
  end.

Definition is_strictly_ordered (gram : bytes) : bool :=
  match records gram with
  | None => true
  | Some (records, _) => windows_increase records
  end.

Definition get_freq_merged (system user : bytes) (token : Z) : option Z :=
  match get_freq system token, get_freq user token with
  | Some s, Some u => Some (s +₃₂ u)%M
  | freq, None | None, freq => freq
  end.

(** One side of [search_merged]: the records from [lower_bound] on. *)
Definition search_side (gram : bytes) (begin : Z) : list (Z * Z) :=
  let records := match records gram with Some (records, _) => records | None => [] end in
  (fun r => (record_token r, record_freq r)) <$>
    drop (lower_bound_records records begin) records.

Fixpoint search_merged_loop (fuel : nat) (system user : list (Z * Z)) (end_ : Z)
    (out : list (Z * Z)) : list (Z * Z) :=
  match fuel with
  | O => out
  | S fuel =>
      let step item system user :=
        if (end_ <=? item.1)%Z then out
        else search_merged_loop fuel system user end_ (out ++ [item]) in
      match system, user with
      | [], [] => out
      | item :: system, [] => step item system []
      | [], item :: user => step item [] user
      | l :: system', r :: user' =>
          match (l.1 ?= r.1)%Z with
          | Lt => step l system' user
          | Gt => step r system user'
          | Eq => step (l.1, (l.2 +₃₂ r.2)%M) system' user'
          end
      end
  end.

Definition search_merged (system user : bytes) (begin end_ : Z) (out : list (Z * Z))
    : list (Z * Z) :=
  let s := search_side system begin in
  let u := search_side user begin in
  search_merged_loop (S (length s + length u)) s u end_ out.

Definition new_gram : bytes := replicate TOTAL_LEN x00.

(** ** The bytes as a row

    A value with a whole total is a total, its items and a tail shorter than
    an item; the lemmas below read every operation on that view. *)

Definition item_bytes (it : Z * Z) : bytes := record_of it.1 it.2.

Definition encode (t : Z) (its : list (Z * Z)) (tl : bytes) : bytes :=
  le32 t ++ (its ≫= item_bytes) ++ tl.

Definition item_ok (it : Z * Z) : Prop := is_u32 it.1 /\ is_u32 it.2.

Record row_ok (t : Z) (its : list (Z * Z)) (tl : bytes) : Prop := {
  row_total : is_u32 t;
  row_items : Forall item_ok its;
  row_tail : length tl < ITEM_LEN;
  row_fits : fits (encode t its tl)
}.

Lemma length_record_of t f : length (record_of t f) = 8.
Proof. reflexivity. Qed.

Lemma length_items its : length (its ≫= item_bytes) = 8 * length its.
Proof.
  induction its as [|it its IH]; [done|].
  rewrite bind_cons, length_app, IH. unfold item_bytes. rewrite length_record_of. simpl. lia.
Qed.

Lemma length_encode t its tl :
  length (encode t its tl) = 4 + 8 * length its + length tl.
Proof. unfold encode. rewrite !length_app, length_items, length_le32. lia. Qed.

Lemma get_length_encode t its tl :
  length tl < 8 -> get_length (encode t its tl) = length its.
Proof.
  intros H. unfold get_length. rewrite length_encode. unfold TOTAL_LEN, ITEM_LEN.
  replace (4 + 8 * length its + length tl - 4) with (length tl + length its * 8) by lia.
  rewrite Nat.div_add, Nat.div_small by lia. lia.
Qed.

(** Where item [i] starts. *)
Lemma take_encode t its tl i :
  i <= length its ->
  take (4 + 8 * i) (encode t its tl) = encode t (take i its) [].
Proof.
  intros H. unfold encode. rewrite take_app_ge by (rewrite length_le32; lia).
  f_equal. rewrite length_le32, app_nil_r. replace (4 + 8 * i - 4) with (8 * i) by lia.
  rewrite <- (take_drop i its) at 1. rewrite bind_app, <- app_assoc.
  apply take_app_length'. rewrite length_items, length_take. lia.
Qed.

Lemma drop_encode t its tl i :
  i <= length its ->
  drop (4 + 8 * i) (encode t its tl) = (drop i its ≫= item_bytes) ++ tl.
Proof.
  intros H. unfold encode. rewrite drop_app_ge by (rewrite length_le32; lia).
  rewrite length_le32. replace (4 + 8 * i - 4) with (8 * i) by lia.
  rewrite <- (take_drop i its) at 1. rewrite bind_app, <- app_assoc.
  apply drop_app_length'. rewrite length_items, length_take. lia.
Qed.

Lemma encode_app t its k tl :
  encode t its [] ++ (k ≫= item_bytes) ++ tl = encode t (its ++ k) tl.
Proof. unfold encode. rewrite bind_app, app_nil_r, <- !app_assoc. done. Qed.

(** Every value with a whole total is such a row. *)
Lemma le32_surj l : length l = 4 -> exists z, is_u32 z /\ l = le32 z.
Proof.
  intros H. exists (le_value l). split; [by apply le_value_u32|].
  by rewrite le32_value.
Qed.

Lemma items_surj n l :
  length l = 8 * n -> exists its, length its = n /\ Forall item_ok its /\ l = its ≫= item_bytes.
Proof.
  revert l. induction n as [|n IH]; intros l H.
  { exists []. destruct l; [done|simpl in H; lia]. }
  destruct (IH (drop 8 l)) as (its & Hn & Hok & Hl); [rewrite length_drop; lia|].
  destruct (le32_surj (take 4 l)) as (t & Ht & Et); [rewrite length_take; lia|].
  destruct (le32_surj (take 4 (drop 4 l))) as (f & Hf & Ef).
  { rewrite length_take, length_drop. lia. }
  exists ((t, f) :: its). split; [simpl; lia|]. split; [by constructor|].
  rewrite bind_cons. unfold item_bytes at 1, record_of. cbn [fst snd].
  rewrite <- Et, <- Ef, <- Hl.
  rewrite <- (take_drop 4 l) at 1. rewrite <- app_assoc. f_equal.
  rewrite <- (take_drop 4 (drop 4 l)) at 1. f_equal. by rewrite drop_drop.
Qed.

Lemma row_surj g :
  4 <= length g -> fits g ->
  exists t its tl, g = encode t its tl /\ row_ok t its tl.
Proof.
  intros H Hfit. set (n := (length g - 4) / 8).
  assert (8 * n <= length g - 4 < 8 * n + 8).
  { unfold n. pose proof (Nat.div_mod_eq (length g - 4) 8).
    pose proof (Nat.mod_upper_bound (length g - 4) 8). lia. }
  destruct (le32_surj (take 4 g)) as (t & Ht & Et); [rewrite length_take; lia|].
  destruct (items_surj n (take (8 * n) (drop 4 g))) as (its & Hn & Hok & Hl).
  { rewrite length_take, length_drop. lia. }
  exists t, its, (drop (8 * n) (drop 4 g)).
  assert (g = encode t its (drop (8 * n) (drop 4 g))) as Eg.
  { unfold encode. by rewrite <- Et, <- Hl, !take_drop. }
  split; [done|]. split; [done|done| |by rewrite <- Eg].
  rewrite !length_drop. unfold ITEM_LEN. lia.
Qed.

(** ** Reading a row *)

Lemma word_at g o :
  fits g -> o + 4 <= length g -> word g o = le_value (take 4 (drop o g)).
Proof.
  intros Hf H. unfold word. rewrite (usat_add_fits g) by done.
  rewrite subslice_in by lia. by replace (o + 4 - o) with 4 by lia.
Qed.

Lemma put_word_at g o v :
  fits g -> o + 4 <= length g ->
  put_word g o v = take o g ++ le32 v ++ drop (o + 4) g.
Proof.
  intros Hf H. unfold put_word. rewrite (usat_add_fits g) by done.
  by rewrite subslice_in by lia.
Qed.

Lemma chunks_items its : chunks_of (length its) 8 (its ≫= item_bytes) = item_bytes <$> its.
Proof.
  induction its as [|it its' IH]; [done|].
  rewrite bind_cons. cbn [length chunks_of fmap list_fmap].
  rewrite take_app_length', drop_app_length' by done. by rewrite IH.
Qed.

Lemma chunks_of_app {A} k n (l r : list A) :
  length l = k * n -> chunks_of k n (l ++ r) = chunks_of k n l.
Proof.
  revert l. induction k as [|k IH]; intros l H; [done|]. cbn [chunks_of].
  rewrite take_app_le, drop_app_le by lia. f_equal. apply IH. rewrite length_drop. lia.
Qed.

Lemma record_token_item it : item_ok it -> record_token (item_bytes it) = it.1.
Proof.
  intros [H1 _]. unfold record_token, item_bytes, record_of.
  rewrite take_app_length' by (by rewrite length_le32).
  rewrite le_value_le32. by apply wrap32_small.
Qed.

Lemma record_freq_item it : item_ok it -> record_freq (item_bytes it) = it.2.
Proof.
  intros [_ H2]. unfold record_freq, item_bytes, record_of.
  rewrite drop_app_length' by (by rewrite length_le32).
  rewrite take_ge by (rewrite length_le32; lia).
  rewrite le_value_le32. by apply wrap32_small.
Qed.
Section row.
Context (t : Z) (its : list (Z * Z)) (tl : bytes).
Hypothesis Hrow : row_ok t its tl.
Local Abbreviation g := (encode t its tl).

Lemma row_length : get_length g = length its.
Proof using Hrow. apply get_length_encode, Hrow. Qed.

Lemma row_total_word : word g 0 = t.
Proof using Hrow.
  destruct Hrow as [Ht _ _ Hf]. rewrite word_at by (done || (rewrite length_encode; lia)).
  rewrite drop_0. unfold encode. rewrite take_app_length' by (by rewrite length_le32).
  rewrite le_value_le32. by apply wrap32_small.
Qed.

Lemma row_get_total : get_total_freq g = Some t.
Proof using Hrow.
  unfold get_total_freq. rewrite decide_True.
  - by rewrite row_total_word.
  - rewrite length_encode. unfold TOTAL_LEN. lia.
Qed.

Lemma row_item i it :
  its !! i = Some it ->
  (drop i its ≫= item_bytes) = item_bytes it ++ (drop (S i) its ≫= item_bytes).
Proof. intros Hi. by rewrite (drop_S its it i). Qed.

Lemma row_words i it :
  its !! i = Some it ->
  word g (4 + 8 * i) = it.1 /\ word g (4 + 8 * i + 4) = it.2.
Proof using Hrow.
  intros Hi. pose proof (lookup_lt_Some _ _ _ Hi).
  destruct Hrow as [_ Hok _ Hf].
  pose proof (proj1 (Forall_lookup _ _) Hok i it Hi) as [H1 H2].
  rewrite !word_at by (done || (rewrite length_encode; lia)).
  rewrite <- (drop_drop g 4 (4 + 8 * i)), drop_encode by lia.
  rewrite (row_item i it) by done. unfold item_bytes, record_of.
  rewrite <- !app_assoc. split.
  - rewrite take_app_length' by (by rewrite length_le32).
    rewrite le_value_le32. by apply wrap32_small.
  - rewrite drop_app_length' by (by rewrite length_le32).
    rewrite take_app_length' by (by rewrite length_le32).
    rewrite le_value_le32. by apply wrap32_small.
Qed.

Lemma row_offset i : i <= length its -> item_offset i = Some (4 + 8 * i).
Proof using Hrow.
  intros Hi. destruct Hrow as [_ _ _ Hf]. unfold fits in Hf. rewrite length_encode in Hf.
  unfold item_offset, checked_mul, checked_add, ITEM_LEN, TOTAL_LEN.
  rewrite checked_usize_small by lia. cbn [mbind option_bind].
  rewrite checked_usize_small by lia. f_equal. lia.
Qed.

Lemma row_offset4 i : i < length its -> checked_add (4 + 8 * i) 4 = Some (4 + 8 * i + 4).
Proof using Hrow.
  intros Hi. destruct Hrow as [_ _ _ Hf]. apply (checked_add_fits g); [done|].
  rewrite length_encode. lia.
Qed.

Lemma row_token i : item_token g i = fst <$> its !! i.
Proof using Hrow.
  unfold item_token. rewrite row_length. case_decide as Hi.
  - destruct (lookup_lt_is_Some_2 its i Hi) as [it Hit].
    rewrite row_offset by lia. cbn [fmap option_fmap option_map].
    rewrite Hit. simpl. f_equal. by apply row_words.
  - rewrite lookup_ge_None_2 by lia. done.
Qed.

Lemma row_freq i : item_freq g i = snd <$> its !! i.
Proof using Hrow.
  unfold item_freq. rewrite row_length.
  destruct (decide (i < length its)) as [Hi|Hi].
  - destruct (lookup_lt_is_Some_2 its i Hi) as [it Hit].
    rewrite row_offset by lia. cbn [mbind option_bind].
    rewrite row_offset4 by done. cbn [mbind option_bind].
    rewrite Hit. simpl. f_equal. by apply row_words.
  - rewrite lookup_ge_None_2 by lia.
    destruct (item_offset i); [|done]. cbn [mbind option_bind].
    by destruct (checked_add n 4).
Qed.

Lemma row_records : records g = Some (item_bytes <$> its, tl).
Proof using Hrow.
  unfold records. pose proof (length_encode t its tl) as Hl.
  unfold TOTAL_LEN, ITEM_LEN. rewrite subslice_in by lia. cbn [mbind option_bind].
  assert (take (length (encode t its tl) - 4) (drop 4 (encode t its tl))
          = (its ≫= item_bytes) ++ tl) as ->.
  { rewrite take_ge by (rewrite length_drop; lia). apply (drop_encode t its tl 0). lia. }
  f_equal. unfold as_chunks. rewrite length_app, length_items.
  pose proof (row_tail _ _ _ Hrow) as Htl. unfold ITEM_LEN in Htl.
  replace (8 * length its + length tl) with (length tl + length its * 8) by lia.
  rewrite Nat.div_add, Nat.div_small by lia. rewrite Nat.add_0_l. f_equal.
  - rewrite chunks_of_app by (rewrite length_items; lia). apply chunks_items.
  - apply drop_app_length'. rewrite length_items. lia.
Qed.

End row.

#[export] Hint Rewrite length_encode : machine.

Lemma lower_bound_le t its tl k :
  row_ok t its tl -> lower_bound (encode t its tl) k <= length its.
Proof.
  intros H. unfold lower_bound. rewrite row_records by done. unfold lower_bound_records.
  rewrite <- (length_fmap item_bytes its). apply partition_point_le.
Qed.

Lemma retrieve_all_row t its tl :
  row_ok t its tl -> retrieve_all (encode t its tl) = its.
Proof.
  intros H. unfold retrieve_all. rewrite row_length by done. apply map_while_all.
  apply Forall2_same_length_lookup. split; [by rewrite length_seq|].
  intros i j it Hj%lookup_seq Hit. destruct Hj as [-> _]. unfold item_at. simpl.
  rewrite row_token, row_freq, Hit by done. by destruct it.
Qed.

(** ** Walking a row

    Every reader walks from [lower_bound] to the first item at or above the
    token. [scan] is that walk on the items. *)

Fixpoint scan (k : Z) (its : list (Z * Z)) : option nat :=
  match its with
  | [] => None
  | it :: its =>
      if (k <? it.1)%Z then None
      else if (it.1 =? k)%Z then Some 0
      else S <$> scan k its
  end.

Section walk.
Context (t : Z) (its : list (Z * Z)) (tl : bytes).
Hypothesis Hrow : row_ok t its tl.
Local Abbreviation g := (encode t its tl).

Lemma find_in_row k n :
  find_in g k (seq n (length its - n)) = (fun j => n + j) <$> scan k (drop n its).
Proof using Hrow.
  remember (length its - n) as m eqn:Hm. revert n Hm.
  induction m as [|m IH]; intros n Hm; cbn [seq find_in].
  { by rewrite drop_ge by lia. }
  destruct (lookup_lt_is_Some_2 its n) as [it Hit]; [lia|].
  rewrite (drop_S its it n) by done. rewrite row_token, Hit by done. cbn [fmap option_fmap option_map mbind option_bind scan].
  destruct (k <? it.1)%Z; [done|]. destruct (it.1 =? k)%Z.
  { simpl. f_equal. lia. }
  rewrite IH by lia. destruct (scan k (drop (S n) its)); simpl; [f_equal; lia|done].
Qed.

Lemma find_row k :
  find g k = (fun j => lower_bound g k + j) <$> scan k (drop (lower_bound g k) its).
Proof using Hrow. unfold find, walk. rewrite row_length by done. apply find_in_row. Qed.

Lemma checked_get_in_row k n :
  checked_get_in g k (seq n (length its - n)) =
  match scan k (drop n its) with
  | Some j => Ok (snd <$> its !! (n + j))
  | None =>
      if has_partial_tail g && forallb (fun it => (it.1 <? k)%Z) (drop n its)
      then Err OverRead else Ok None
  end.
Proof using Hrow.
  remember (length its - n) as m eqn:Hm. revert n Hm.
  induction m as [|m IH]; intros n Hm; cbn [seq checked_get_in].
  { rewrite drop_ge by lia. cbn. by rewrite andb_true_r. }
  destruct (lookup_lt_is_Some_2 its n) as [it Hit]; [lia|].
  rewrite (drop_S its it n) by done. rewrite row_token, row_freq, Hit by done.
  cbn [fmap option_fmap option_map scan forallb].
  destruct (Z.ltb_spec k it.1).
  { rewrite (proj2 (Z.ltb_ge it.1 k)) by lia. cbn. by rewrite andb_false_r. }
  destruct (Z.eqb_spec it.1 k).
  { rewrite Nat.add_0_r, Hit. done. }
  rewrite IH by lia. rewrite (proj2 (Z.ltb_lt it.1 k)) by lia. cbn [andb].
  destruct (scan k (drop (S n) its)); simpl; [|done].
  by replace (n + S n1) with (S (n + n1)) by lia.
Qed.
End walk.

(** ** Ordered rows

    The shape every writer keeps: tokens strictly increase. *)

Definition ordered (its : list (Z * Z)) : Prop := StronglySorted Z.lt its.*1.

Abbreviation below k := (Forall (fun it : Z * Z => (it.1 < k)%Z)).
Abbreviation above k := (Forall (fun it : Z * Z => (k < it.1)%Z)).

(** Where a token stands in an ordered row. *)
Variant located (k : Z) (its : list (Z * Z)) : Prop :=
  | located_hit L f R :
      its = L ++ (k, f) :: R -> below k L -> above k R -> located k its
  | located_miss L R :
      its = L ++ R -> below k L -> above k R -> located k its.

Lemma ordered_cons it its : ordered (it :: its) <-> ordered its /\ above it.1 its.
Proof.
  unfold ordered. rewrite fmap_cons. split.
  - intros H. apply StronglySorted_inv in H as [H1 H2]. by rewrite Forall_fmap in H2.
  - intros [H1 H2]. constructor; [done|]. by rewrite Forall_fmap.
Qed.

Lemma above_mono k k' its : (k' <= k)%Z -> above k its -> above k' its.
Proof. intros Hk H. apply (Forall_impl _ _ _ H). lia. Qed.

Lemma ordered_located k its : ordered its -> located k its.
Proof.
  induction its as [|[a f] its IH]; intros H.
  { by apply (located_miss _ _ [] []). }
  apply ordered_cons in H as [H Ha]. simpl in Ha.
  destruct (Z.lt_trichotomy k a) as [Hk|[->|Hk]].
  - apply (located_miss _ _ [] ((a, f) :: its)); [done..|].
    constructor; [done|]. apply (above_mono a); [lia|done].
  - by apply (located_hit _ _ [] f its).
  - destruct (IH H) as [L h R -> HL HR|L R -> HL HR].
    + apply (located_hit _ _ ((a, f) :: L) h R); [done| |done]. by constructor.
    + apply (located_miss _ _ ((a, f) :: L) R); [done| |done]. by constructor.
Qed.

Lemma ordered_app L R :
  ordered (L ++ R) <->
  ordered L /\ ordered R /\ forall x y, x ∈ L -> y ∈ R -> (x.1 < y.1)%Z.
Proof.
  induction L as [|a L IH].
  { split; [intros H; split; [constructor|split; [done|]]|by intros (_ & H & _)].
    intros x y Hx. by apply not_elem_of_nil in Hx. }
  rewrite <- app_comm_cons, !ordered_cons, IH, Forall_app, !Forall_forall. split.
  - intros ((HL & HR & Hlt) & Ha1 & Ha2). repeat split; try done.
    intros x y [->|Hx]%elem_of_cons Hy; auto.
  - intros ((HL & Ha) & HR & Hlt). repeat split; try done.
    + intros x y Hx Hy. apply Hlt; [by apply elem_of_cons; right|done].
    + intros y Hy. apply Hlt; [by apply elem_of_cons; left|done].
Qed.

Lemma ordered_nodup its : ordered its -> NoDup its.*1.
Proof.
  induction its as [|it its IH]; [constructor|]. intros [H Ha]%ordered_cons.
  constructor; [|by apply IH]. intros (x & Hx & Hin)%list_elem_of_fmap.
  rewrite Forall_forall in Ha. specialize (Ha x Hin). lia.
Qed.

Lemma windows_increase_cons a b l :
  windows_increase (a :: b :: l) = (record_token a <? record_token b)%Z && windows_increase (b :: l).
Proof. done. Qed.

Lemma windows_increase_ordered its :
  Forall item_ok its ->
  windows_increase (item_bytes <$> its) = true <-> ordered its.
Proof.
  intros Hok. induction Hok as [|a its Ha Hok IH]; [by split; [constructor|]|].
  rewrite ordered_cons. destruct its as [|b its].
  { split; [by repeat constructor|done]. }
  inversion Hok as [|? ? Hb _]; subst.
  rewrite !fmap_cons, windows_increase_cons, <- fmap_cons.
  rewrite !record_token_item by done. rewrite andb_true_iff, IH, Z.ltb_lt, ordered_cons.
  split.
  - intros (Hlt & Ho & Hab). repeat split; try done. constructor; [done|].
    apply (above_mono b.1); [lia|done].
  - intros ((Ho & Hb') & Hall). inversion Hall; subst. done.
Qed.

Lemma is_strictly_ordered_row t its tl :
  row_ok t its tl -> is_strictly_ordered (encode t its tl) = true <-> ordered its.
Proof.
  intros H. unfold is_strictly_ordered. rewrite row_records by done.
  apply windows_increase_ordered, H.
Qed.

Lemma lower_bound_split t L R tl k :
  row_ok t (L ++ R) tl -> below k L -> Forall (fun it => (k <= it.1)%Z) R ->
  lower_bound (encode t (L ++ R) tl) k = length L.
Proof.
  intros Hrow HL HR. unfold lower_bound. rewrite row_records by done.
  apply partition_point_partitioned.
  pose proof (row_items _ _ _ Hrow) as Hok. rewrite Forall_lookup in Hok.
  rewrite Forall_lookup in HL. rewrite Forall_lookup in HR.
  split; [rewrite length_fmap, length_app; lia|].
  intros j x Hx. rewrite list_lookup_fmap in Hx.
  destruct ((L ++ R) !! j) as [it|] eqn:Hit; [|done]. simplify_eq/=.
  rewrite record_token_item by eauto. case_bool_decide as Hj.
  - rewrite lookup_app_l in Hit by done. apply Z.ltb_lt. eauto.
  - rewrite lookup_app_r in Hit by lia. apply Z.ltb_ge. eauto.
Qed.

Lemma below_le k its : above k its -> Forall (fun it => (k <= it.1)%Z) its.
Proof. intros H. apply (Forall_impl _ _ _ H). lia. Qed.

Lemma scan_above k its : above k its -> scan k its = None.
Proof. destruct 1 as [|it its H _]; [done|]. simpl. by rewrite (proj2 (Z.ltb_lt _ _) H). Qed.

(** One operation on an ordered row, at the place its token stands. *)
Section at_hit.
Context (t k f : Z) (L R : list (Z * Z)) (tl : bytes).
Hypothesis Hrow : row_ok t (L ++ (k, f) :: R) tl.
Hypothesis HL : below k L.
Hypothesis HR : above k R.
Local Abbreviation its := (L ++ (k, f) :: R).
Local Abbreviation g := (encode t its tl).

Lemma hit_lower_bound : lower_bound g k = length L.
Proof using Hrow HL HR.
  apply lower_bound_split; [done..|]. constructor; [simpl; lia|by apply below_le].
Qed.

Lemma hit_scan : scan k (drop (length L) its) = Some 0.
Proof. rewrite drop_app_length. simpl. by rewrite Z.ltb_irrefl, Z.eqb_refl. Qed.

Lemma hit_lookup : its !! length L = Some (k, f).
Proof. by rewrite list_lookup_middle. Qed.

Lemma hit_find : find g k = Some (length L).
Proof using Hrow HL HR.
  rewrite find_row, hit_lower_bound, hit_scan by done. simpl. by rewrite Nat.add_0_r.
Qed.

Lemma hit_get : get_freq g k = Some f.
Proof using Hrow HL HR.
  unfold get_freq. rewrite hit_find. cbn [mbind option_bind].
  by rewrite row_freq, hit_lookup.
Qed.

Lemma hit_checked_get : checked_get_freq g k = Ok (Some f).
Proof using Hrow HL HR.
  unfold checked_get_freq. rewrite decide_False by (rewrite length_encode; unfold TOTAL_LEN; lia).
  unfold walk. rewrite row_length, checked_get_in_row by done.
  rewrite hit_lower_bound, hit_scan, Nat.add_0_r. by rewrite hit_lookup.
Qed.

Lemma hit_len : length L < length its.
Proof. rewrite length_app. simpl. lia. Qed.

Lemma encode_middle v :
  encode t (L ++ (k, v) :: R) tl =
  (encode t L [] ++ le32 k) ++ le32 v ++ (R ≫= item_bytes) ++ tl.
Proof. unfold encode. rewrite bind_app, bind_cons, app_nil_r. by rewrite <- !app_assoc. Qed.

Lemma hit_set v : set_freq g k v = (encode t (L ++ (k, v) :: R) tl, true).
Proof using Hrow HL HR.
  pose proof hit_len. unfold set_freq. rewrite hit_find. cbn [mbind option_bind].
  rewrite (row_offset t its tl) by (done || lia). cbn [mbind option_bind].
  rewrite (row_offset4 t its tl) by (done || lia). f_equal.
  rewrite put_word_at; [|apply Hrow|rewrite length_encode; lia].
  rewrite !encode_middle. f_equal.
  - apply take_app_length'. rewrite length_app, length_encode, length_le32. simpl. lia.
  - f_equal. rewrite (app_assoc (_ ++ le32 k)). apply drop_app_length'.
    rewrite !length_app, length_encode, !length_le32. simpl. lia.
Qed.

Lemma hit_insert v : insert_freq g k v = (g, false).
Proof using Hrow HL HR.
  pose proof hit_len as Hlen. unfold insert_freq, walk. rewrite hit_lower_bound, row_length by done.
  destruct (length its - length L) as [|n] eqn:E; [lia|]. cbn [seq insert_in].
  rewrite row_token, hit_lookup by done. cbn [fmap option_fmap option_map fst].
  by rewrite Z.ltb_irrefl, Z.eqb_refl.
Qed.

Lemma hit_remove : remove_freq g k = (encode t (L ++ R) tl, Some f).
Proof using Hrow HL HR.
  pose proof hit_len. unfold remove_freq. rewrite hit_find. cbn [mbind option_bind].
  rewrite row_freq, hit_lookup, (row_offset t its tl) by (done || lia). cbn [mbind option_bind fmap option_fmap option_map snd].
  rewrite (checked_add_fits g); [|apply Hrow|rewrite length_encode; unfold ITEM_LEN; lia].
  cbn [mbind option_bind]. f_equal. rewrite take_encode by lia.
  replace (4 + 8 * length L + ITEM_LEN) with (4 + 8 * S (length L)) by (unfold ITEM_LEN; lia).
  rewrite drop_encode by lia. rewrite take_app_length.
  rewrite encode_app. f_equal. f_equal.
  change (L ++ (k, f) :: R) with (L ++ [(k, f)] ++ R). rewrite app_assoc.
  apply drop_app_length'. rewrite length_app. simpl. lia.
Qed.
End at_hit.

(** The insertion point of an absent token is before the first item above. *)
Lemma insert_in_above t k v L R :
  row_ok t (L ++ R) [] -> above k R ->
  insert_in (encode t (L ++ R) []) k v (seq (length L) (length R)) =
  (encode t (L ++ (k, v) :: R) [], true).
Proof.
  intros Hrow HR.
  destruct R as [|it R']; cbn [length seq insert_in].
  - f_equal. rewrite app_nil_r. unfold encode. rewrite bind_app, bind_cons. cbn [mbind list_bind]. rewrite !app_nil_r.
    by rewrite <- app_assoc.
  - inversion HR as [|? ? Hlt _]; subst.
    rewrite row_token, list_lookup_middle by done.
    cbn [fmap option_fmap option_map]. rewrite (proj2 (Z.ltb_lt _ _) Hlt).
    rewrite (row_offset t (L ++ it :: R') []) by (done || (rewrite length_app; lia)). f_equal.
    rewrite take_encode, drop_encode by (rewrite length_app; lia).
    rewrite take_app_length, drop_app_length.
    change (record_of k v) with (item_bytes (k, v)).
    rewrite app_assoc, <- (encode_app t L ((k, v) :: it :: R')), bind_cons.
    by rewrite <- !app_assoc.
Qed.

Section at_miss.
Context (t k : Z) (L R : list (Z * Z)) (tl : bytes).
Hypothesis Hrow : row_ok t (L ++ R) tl.
Hypothesis HL : below k L.
Hypothesis HR : above k R.
Local Abbreviation its := (L ++ R).
Local Abbreviation g := (encode t its tl).

Lemma miss_lower_bound : lower_bound g k = length L.
Proof using Hrow HL HR. by apply lower_bound_split; [..|apply below_le]. Qed.

Lemma miss_find : find g k = None.
Proof using Hrow HL HR.
  by rewrite find_row, miss_lower_bound, drop_app_length, scan_above by done.
Qed.

Lemma miss_get : get_freq g k = None.
Proof using Hrow HL HR. unfold get_freq. by rewrite miss_find. Qed.

Lemma miss_checked_get : tl = [] -> checked_get_freq g k = Ok None.
Proof using Hrow HL HR.
  intros Htl. unfold checked_get_freq.
  rewrite decide_False by (rewrite length_encode; unfold TOTAL_LEN; lia).
  unfold walk. rewrite row_length, checked_get_in_row by done.
  rewrite miss_lower_bound, drop_app_length, scan_above by done.
  unfold has_partial_tail. rewrite length_encode, Htl. unfold TOTAL_LEN, ITEM_LEN.
  replace (4 + 8 * length its + length (@nil byte) - 4) with (length its * 8) by (simpl; lia).
  by rewrite Nat.Div0.mod_mul, Nat.eqb_refl, andb_false_r.
Qed.

Lemma miss_set v : set_freq g k v = (g, false).
Proof using Hrow HL HR. unfold set_freq. by rewrite miss_find. Qed.

Lemma miss_insert v : tl = [] -> insert_freq g k v = (encode t (L ++ (k, v) :: R) [], true).
Proof using Hrow HL HR.
  intros Htl. unfold insert_freq, walk. rewrite miss_lower_bound, row_length by done.
  rewrite length_app. replace (length L + length R - length L) with (length R) by lia.
  rewrite Htl. apply insert_in_above; [by rewrite <- Htl|done].
Qed.

Lemma miss_remove : remove_freq g k = (g, None).
Proof using Hrow HL HR. unfold remove_freq. by rewrite miss_find. Qed.
End at_miss.

(** ** [mask_out] on a row *)

Definition masked (mask value : Z) (it : Z * Z) : bool := (Z.land it.1 mask =? value)%Z.

Definition freq_sum (its : list (Z * Z)) : Z := foldr Z.add 0%Z its.*2.

Lemma row_drop_item t L it R tl :
  row_ok t (L ++ it :: R) tl ->
  take (4 + 8 * length L) (encode t (L ++ it :: R) tl) ++
    drop (usat_add (4 + 8 * length L) ITEM_LEN) (encode t (L ++ it :: R) tl)
  = encode t (L ++ R) tl /\ row_ok t (L ++ R) tl.
Proof.
  intros Hrow. assert (length (L ++ it :: R) = S (length (L ++ R))) as Hlen
    by (rewrite !length_app; simpl; lia).
  pose proof (length_app L R). destruct Hrow as [Ht Hok Htl Hf].
  rewrite (usat_add_fits _ _ _ Hf) by (rewrite length_encode; unfold ITEM_LEN; lia).
  replace (4 + 8 * length L + ITEM_LEN) with (4 + 8 * S (length L)) by (unfold ITEM_LEN; lia).
  rewrite take_encode, drop_encode by lia. split.
  - rewrite take_app_length, encode_app. f_equal. f_equal.
    rewrite (cons_middle it L R), app_assoc. apply drop_app_length'. rewrite length_app. simpl. lia.
  - split; [done| |done|].
    + rewrite Forall_app, Forall_cons in Hok. rewrite Forall_app. tauto.
    + apply (fits_le _ _ Hf). rewrite !length_encode. lia.
Qed.

Lemma mask_loop_row fuel mask value t L R tl total removed :
  row_ok t (L ++ R) tl -> length R <= fuel ->
  is_u32 total -> is_u32 removed ->
  mask_loop fuel mask value (encode t (L ++ R) tl) (length L) total removed =
  (encode t (L ++ filter (fun it => masked mask value it = false) R) tl,
   wrap32 (total - freq_sum (filter (fun it => masked mask value it = true) R)),
   wrap32 (removed + Z.of_nat (length (filter (fun it => masked mask value it = true) R)))).
Proof.
  revert L R total removed. induction fuel as [|fuel IH]; intros L R total removed Hrow Hf Ht Hr.
  { destruct R; [|simpl in Hf; lia]. simpl. rewrite Z.sub_0_r, Z.add_0_r.
    by rewrite !wrap32_small. }
  cbn [mask_loop]. rewrite row_length, length_app by done.
  destruct R as [|it R].
  { rewrite decide_False by (simpl; lia). simpl. rewrite Z.sub_0_r, Z.add_0_r.
    by rewrite !wrap32_small. }
  rewrite decide_True by (simpl; lia).
  rewrite row_token, row_freq, list_lookup_middle by done.
  rewrite (row_offset t _ _ Hrow) by (rewrite length_app; lia).
  cbn [fmap option_fmap option_map]. rewrite !filter_cons.
  destruct (row_drop_item _ _ _ _ _ Hrow) as [-> Hrow'].
  fold (masked mask value it). simpl in Hf. destruct (masked mask value it) eqn:E.
  - rewrite decide_False, decide_True by done.
    rewrite IH by (done || lia || apply wrap32_range).
    unfold wrapping_sub32, wrapping_add32. rewrite wrap32_sub_l, wrap32_add_l.
    unfold freq_sum. rewrite fmap_cons. cbn [foldr length].
    do 2 f_equal; [f_equal|]; lia.
  - rewrite decide_True, decide_False by done.
    replace (L ++ it :: R) with ((L ++ [it]) ++ R) in * by (by rewrite <- app_assoc).
    replace (S (length L)) with (length (L ++ [it])) by (rewrite length_app; simpl; lia).
    rewrite IH by (done || lia). by rewrite <- app_assoc.
Qed.

Lemma row_ok_filter P `{!forall x, Decision (P x)} t its tl :
  row_ok t its tl -> row_ok t (filter P its) tl.
Proof.
  intros [Ht Hok Htl Hf]. split; [done| |done|].
  - rewrite Forall_forall in *. intros x [_ Hx]%list_elem_of_filter. auto.
  - apply (fits_le _ _ Hf). rewrite !length_encode. pose proof (length_filter P its). lia.
Qed.

Lemma row_ok_total t t' its tl : is_u32 t' -> row_ok t its tl -> row_ok t' its tl.
Proof. intros Ht [_ Hok Htl Hf]. by split. Qed.

Lemma set_total_row t its tl v :
  row_ok t its tl -> is_u32 v -> set_total_freq (encode t its tl) v = encode v its tl.
Proof.
  intros Hrow Hv. unfold set_total_freq.
  rewrite decide_False by (rewrite length_encode; unfold TOTAL_LEN; lia).
  rewrite put_word_at; [|apply Hrow|rewrite length_encode; lia].
  rewrite take_0, app_nil_l. unfold encode. f_equal.
Qed.

Lemma mask_out_row mask value t its tl :
  row_ok t its tl ->
  mask_out (encode t its tl) mask value =
  (encode (wrap32 (t - freq_sum (filter (fun it => masked mask value it = true) its)))
     (filter (fun it => masked mask value it = false) its) tl,
   wrap32 (Z.of_nat (length (filter (fun it => masked mask value it = true) its)))).
Proof.
  intros Hrow. unfold mask_out. rewrite row_get_total, row_length by done.
  rewrite (mask_loop_row _ _ _ t [] its) by (done || apply Hrow || width_lia).
  rewrite set_total_row; [done| |apply wrap32_range].
  by apply row_ok_filter.
Qed.

(** ** The row as a finite map *)

Definition row_map (its : list (Z * Z)) : gmap Z Z := list_to_map its.

Lemma row_map_none k its :
  Forall (fun it => it.1 <> k) its -> row_map its !! k = None.
Proof.
  intros H. apply not_elem_of_list_to_map_1. intros (x & -> & Hx)%list_elem_of_fmap.
  rewrite Forall_forall in H. by apply (H x).
Qed.

Lemma row_map_below k its : below k its -> row_map its !! k = None.
Proof. intros H. apply row_map_none, (Forall_impl _ _ _ H). lia. Qed.

Lemma row_map_above k its : above k its -> row_map its !! k = None.
Proof. intros H. apply row_map_none, (Forall_impl _ _ _ H). lia. Qed.

#[export] Hint Resolve row_map_below row_map_above : machine.

Lemma row_map_app L R : row_map (L ++ R) = row_map L ∪ row_map R.
Proof. apply list_to_map_app. Qed.

Lemma row_map_middle k f L R :
  below k L -> row_map (L ++ (k, f) :: R) = <[k:=f]> (row_map (L ++ R)).
Proof.
  intros HL. rewrite !row_map_app. unfold row_map at 2. rewrite list_to_map_cons.
  symmetry. apply insert_union_r. by apply row_map_below.
Qed.

Lemma row_map_apart k L R : below k L -> above k R -> row_map (L ++ R) !! k = None.
Proof.
  intros HL HR. rewrite row_map_app, lookup_union_None. auto with machine.
Qed.

Lemma ordered_middle k f L R :
  below k L -> above k R -> ordered (L ++ (k, f) :: R) <-> ordered (L ++ R).
Proof.
  intros HL HR. rewrite !ordered_app, ordered_cons. rewrite Forall_forall in HL.
  rewrite Forall_forall in HR. split.
  - intros (H1 & (H2 & _) & H3). repeat split; try done. intros x y Hx Hy.
    apply H3; [done|]. by apply elem_of_cons; right.
  - intros (H1 & H2 & H3). repeat split; try done. by apply Forall_forall.
    intros x y Hx [->|Hy]%elem_of_cons; simpl; auto.
Qed.
