(* ===== verification/GramSpec.v ===== *)
(** * GramSpec: what a gram promises

    The contract of [single_gram.rs] stated over a total and a finite map
    from token to frequency, and the proof that the byte-level operations of
    [SingleGram] implement it on every value they write themselves. *)

From Stdlib Require Import ZArith Lia Bool Strings.Byte.
From stdpp Require Import base list gmap sorting.
From S2P Require Import Prelude SingleGram.

(** ** The interface *)

Inductive gram_op : Type :=
  | GetTotal
  | SetTotal (total : Z)
  | GetFreq (token : Z)
  | SetFreq (token freq : Z)
  | InsertFreq (token freq : Z)
  | RemoveFreq (token : Z)
  | MaskOut (mask value : Z).

Inductive gram_answer : Type :=
  | Freq (o : option Z)
  | Done (b : bool)
  | Count (n : Z)
  | Unit.

(** Every argument is a [u32]. *)
Definition op_ok (op : gram_op) : Prop :=
  match op with
  | GetTotal => True
  | SetTotal t => is_u32 t
  | GetFreq k | RemoveFreq k => is_u32 k
  | SetFreq k f | InsertFreq k f => is_u32 k /\ is_u32 f
  | MaskOut m v => is_u32 m /\ is_u32 v
  end.

Class GramStore (S : Type) := gram_step : gram_op -> S -> S * gram_answer.

(** The stored bytes. *)
#[export] Instance byte_store : GramStore bytes := fun op g =>
  match op with
  | GetTotal => (g, Freq (get_total_freq g))
  | SetTotal t => (set_total_freq g t, Unit)
  | GetFreq k => (g, Freq (get_freq g k))
  | SetFreq k f => let '(g, b) := set_freq g k f in (g, Done b)
  | InsertFreq k f => let '(g, b) := insert_freq g k f in (g, Done b)
  | RemoveFreq k => let '(g, o) := remove_freq g k in (g, Freq o)
  | MaskOut m v => let '(g, n) := mask_out g m v in (g, Count n)
  end.

(** The abstract gram: its total and its frequencies. *)
Abbreviation gram_spec := (Z * gmap Z Z)%type.

Definition map_freq_sum (m : gmap Z Z) : Z := freq_sum (map_to_list m).

#[export] Instance spec_store : GramStore gram_spec := fun op '(t, m) =>
  match op with
  | GetTotal => ((t, m), Freq (Some t))
  | SetTotal t' => ((t', m), Unit)
  | GetFreq k => ((t, m), Freq (m !! k))
  | SetFreq k f =>
      match m !! k with
      | Some _ => ((t, <[k:=f]> m), Done true)
      | None => ((t, m), Done false)
      end
  | InsertFreq k f =>
      match m !! k with
      | Some _ => ((t, m), Done false)
      | None => ((t, <[k:=f]> m), Done true)
      end
  | RemoveFreq k => ((t, delete k m), Freq (m !! k))
  | MaskOut mask v =>
      let gone := filter (fun it => masked mask v it = true) m in
      ((wrap32 (t - map_freq_sum gone), filter (fun it => masked mask v it = false) m),
       Count (wrap32 (Z.of_nat (size gone))))
  end.

(** A run of operations and its answers, in order. *)
Fixpoint gram_run {S} `{GramStore S} (ops : list gram_op) (s : S) : S * list gram_answer :=
  match ops with
  | [] => (s, [])
  | op :: ops =>
      let '(s, a) := gram_step op s in
      let '(s, l) := gram_run ops s in (s, a :: l)
  end.

(** ** The simulation *)

(** The bytes store the abstract gram: strictly ordered items, no tail. *)
Definition gram_rel (g : bytes) (s : gram_spec) : Prop :=
  exists its, g = encode s.1 its [] /\ row_ok s.1 its [] /\ ordered its /\ s.2 = row_map its.

Lemma freq_sum_perm l k : l ≡ₚ k -> freq_sum l = freq_sum k.
Proof. intros H. unfold freq_sum. induction H; rewrite ?fmap_cons in *; cbn [foldr] in *; lia. Qed.

Lemma row_map_perm its : ordered its -> map_to_list (row_map its) ≡ₚ its.
Proof. intros H. by apply map_to_list_to_map, ordered_nodup. Qed.

Lemma ordered_filter P `{!forall x, Decision (P x)} its : ordered its -> ordered (filter P its).
Proof.
  induction its as [|it its IH]; [done|]. intros [Ho Ha]%ordered_cons. rewrite filter_cons.
  case_decide; [|auto]. apply ordered_cons. split; [auto|].
  rewrite Forall_forall in *. intros x [_ Hx]%list_elem_of_filter. auto.
Qed.

Lemma row_map_filter P `{!forall x, Decision (P x)} its :
  ordered its -> row_map (filter P its) = filter P (row_map its).
Proof.
  intros Ho. rewrite map_filter_alt. apply list_to_map_proper.
  - by apply ordered_nodup, ordered_filter.
  - by rewrite row_map_perm.
Qed.

Lemma row_ok_set t k f v L R tl :
  row_ok t (L ++ (k, f) :: R) tl -> is_u32 v -> row_ok t (L ++ (k, v) :: R) tl.
Proof.
  intros [Ht Hok Htl Hf] Hv. split; [done| |done|].
  - rewrite Forall_app, Forall_cons in *. destruct Hok as (H1 & [H2 _] & H3). done.
  - apply (fits_le _ _ Hf). rewrite !length_encode, !length_app. done.
Qed.

Lemma row_ok_insert t k v L R :
  row_ok t (L ++ R) [] -> is_u32 k -> is_u32 v ->
  (Z.of_nat (length (encode t (L ++ R) [])) + 8 <= isize_max)%Z ->
  row_ok t (L ++ (k, v) :: R) [].
Proof.
  intros [Ht Hok Htl Hf] Hk Hv Hroom. split; [done| |done|].
  - rewrite Forall_app, Forall_cons in *. destruct Hok as (H1 & H3). done.
  - unfold fits. rewrite length_encode, length_app in *. simpl in *. lia.
Qed.

Lemma row_ok_remove t it L R tl : row_ok t (L ++ it :: R) tl -> row_ok t (L ++ R) tl.
Proof. intros H. by apply row_drop_item in H as [_ H]. Qed.

#[export] Hint Resolve row_ok_set row_ok_insert row_ok_remove : machine.

(** Removing the item at its place deletes its token. *)
Lemma row_map_delete k f L R :
  below k L -> above k R -> row_map (L ++ R) = delete k (row_map (L ++ (k, f) :: R)).
Proof.
  intros HL HR. rewrite row_map_middle by done. symmetry. apply delete_insert_id.
  by apply row_map_apart.
Qed.

Ltac gram_witness its' := exists its'; split_and!; [done|auto with machine|..].

(** One operation keeps the relation and answers the same. *)
Lemma gram_step_sim op g s :
  gram_rel g s -> op_ok op ->
  (Z.of_nat (length g) + 8 <= isize_max)%Z ->
  gram_rel (gram_step op g).1 (gram_step op s).1 /\
  (gram_step op g).2 = (gram_step op s).2.
Proof.
  intros (its & -> & Hrow & Hord & Hm) Hok Hroom. destruct s as [t m]. simpl in Hrow, Hm |- *.
  destruct op as [|t'|k|k v|k v|k|mask v]; unfold gram_step, byte_store, spec_store.
  - rewrite row_get_total by done. split; [by exists its|done].
  - rewrite set_total_row by done. split; [|done]. gram_witness its; [|done..].
    by apply (row_ok_total t).
  - split; [by exists its|]. subst m. destruct (ordered_located k its Hord) as [L f R -> HL HR|L R -> HL HR].
    + by rewrite hit_get, row_map_middle, lookup_insert_eq.
    + by rewrite (miss_get t k L R), row_map_apart.
  - subst m. destruct Hok as [Hk Hv].
    destruct (ordered_located k its Hord) as [L f R -> HL HR|L R -> HL HR].
    + rewrite hit_set, row_map_middle, lookup_insert_eq by done. split; [|done].
      gram_witness (L ++ (k, v) :: R); [by eapply row_ok_set| |].
      * by apply ordered_middle, (ordered_middle k f).
      * by rewrite row_map_middle, insert_insert_eq.
    + rewrite (miss_set t k L R), row_map_apart by done. split; [by exists (L ++ R)|done].
  - subst m. destruct Hok as [Hk Hv].
    destruct (ordered_located k its Hord) as [L f R -> HL HR|L R -> HL HR].
    + rewrite hit_insert, row_map_middle, lookup_insert_eq by done. split; [|done].
      rewrite <- row_map_middle by done. by exists (L ++ (k, f) :: R).
    + rewrite miss_insert, row_map_apart by done. split; [|done].
      gram_witness (L ++ (k, v) :: R); [by apply ordered_middle|]. by rewrite row_map_middle.
  - subst m. destruct (ordered_located k its Hord) as [L f R -> HL HR|L R -> HL HR].
    + rewrite hit_remove by done. split; [|by rewrite row_map_middle, lookup_insert_eq].
      gram_witness (L ++ R); [by eapply row_ok_remove|by apply (ordered_middle k f)|].
      symmetry. by apply row_map_delete.
    + rewrite (miss_remove t k L R) by done. pose proof (row_map_apart k L R HL HR) as Hn.
      split; [|by rewrite Hn]. gram_witness (L ++ R); [done|]. simpl. by rewrite delete_id.
  - subst m. rewrite mask_out_row by done. simpl. unfold map_freq_sum.
    rewrite <- !row_map_filter by done.
    erewrite (freq_sum_perm (map_to_list _)) by by apply row_map_perm, ordered_filter.
    split.
    + gram_witness (filter (fun it => masked mask v it = false) its); [|by apply ordered_filter|done].
      apply (row_ok_total t); [apply wrap32_range|]. by apply row_ok_filter.
    + unfold row_map. by rewrite map_size_list_to_map by by apply ordered_nodup, ordered_filter.
Qed.

(** A stored gram takes four bytes and eight more per token. *)
Lemma gram_rel_length g s : gram_rel g s -> length g = 4 + 8 * size s.2.
Proof.
  intros (its & -> & _ & Hord & ->). rewrite length_encode.
  unfold row_map. rewrite map_size_list_to_map by by apply ordered_nodup. simpl. lia.
Qed.

Lemma spec_size_step op (s : gram_spec) : size (gram_step op s).1.2 <= S (size s.2).
Proof.
  destruct s as [t m], op as [|t'|k|k v|k v|k|mask v];
    unfold gram_step, spec_store; try (destruct (m !! k) eqn:E); simpl; try lia.
  - rewrite map_size_insert, E. simpl. lia.
  - rewrite map_size_insert, E. simpl. lia.
  - rewrite map_size_delete, E. simpl. lia.
  - rewrite map_size_delete, E. simpl. lia.
  - transitivity (size m); [|lia]. apply map_subseteq_size, map_filter_subseteq.
Qed.

Lemma gram_run_sim ops g s :
  gram_rel g s -> Forall op_ok ops ->
  (Z.of_nat (length g) + 8 * Z.of_nat (length ops) <= isize_max)%Z ->
  gram_rel (gram_run ops g).1 (gram_run ops s).1 /\
  (gram_run ops g).2 = (gram_run ops s).2.
Proof.
  intros Hrel Hops. revert g s Hrel. induction Hops as [|op ops Hop _ IH]; intros g s Hrel Hroom.
  { done. }
  cbn [length] in Hroom.
  destruct (gram_step_sim op g s Hrel Hop) as [Hrel' Ha]; [lia|].
  pose proof (gram_rel_length _ _ Hrel). pose proof (gram_rel_length _ _ Hrel') as Hlen'.
  pose proof (spec_size_step op s). cbn [gram_run].
  destruct (gram_step op g) as [g' a], (gram_step op s) as [s' a']. simpl in *.
  destruct (IH g' s' Hrel') as [Hr Hl]; [lia|].
  destruct (gram_run ops g') as [g2 l], (gram_run ops s') as [s2 l']. simpl in *.
  split; [done|congruence].
Qed.

Lemma gram_rel_new : gram_rel new_gram (0%Z, ∅).
Proof.
  exists []. split_and!; [done| |constructor|done].
  split; [done|by apply Forall_nil|unfold ITEM_LEN; simpl; lia|done].
Qed.

(** ** C1 *)

(** C1. Started from a fresh gram ([new_gram]), any sequence of the
    operations of [single_gram.rs] that fits in memory answers, operation by
    operation, what the abstract gram answers, and leaves bytes that store
    its final total and frequencies. *)
Theorem gram_run_refines (ops : list gram_op)
    (Hops : Forall op_ok ops)
    (Hroom : (4 + 8 * Z.of_nat (length ops) <= isize_max)%Z) :
  (gram_run ops new_gram).2 = (gram_run ops (0%Z, ∅ : gmap Z Z)).2 /\
  gram_rel (gram_run ops new_gram).1 (gram_run ops (0%Z, ∅ : gmap Z Z)).1.
Proof.
  apply and_comm, gram_run_sim; [apply gram_rel_new|done|]. simpl length. lia.
Qed.

Definition sample_ops : list gram_op :=
  [InsertFreq 7 3; InsertFreq 5 2; InsertFreq 7 9; SetTotal 5; GetFreq 5;
   MaskOut 4 4; GetTotal; RemoveFreq 7].

Lemma gram_run_refines_witness :
  (gram_run sample_ops (0%Z, ∅ : gmap Z Z)).2 =
    [Done true; Done true; Done false; Unit; Freq (Some 2%Z);
     Count 2; Freq (Some 0%Z); Freq None] /\
  (gram_run sample_ops new_gram).2 = (gram_run sample_ops (0%Z, ∅ : gmap Z Z)).2.
Proof.
  split; [vm_compute; reflexivity|].
  refine (proj1 (gram_run_refines sample_ops _ _)).
  - repeat (apply Forall_cons; split; [simpl; width_lia|]). by apply Forall_nil.
  - vm_compute. discriminate.
Defined.
