(* ===== verification/GramMerge.v ===== *)
(** * GramMerge: merging a system row with a user row

    Facts about [merge_single_gram] and the two readers that answer for the
    merged row without building it, [get_freq_merged] and [search_merged]. *)

From Stdlib Require Import ZArith Lia Bool Strings.Byte.
From stdpp Require Import base list gmap sorting.
From S2P Require Import Prelude SingleGram.

(** ** The merge of two item lists *)

Fixpoint merge_items (l : list (Z * Z)) : list (Z * Z) -> list (Z * Z) :=
  fix go r :=
    match l, r with
    | [], _ => r
    | _, [] => l
    | a :: l', b :: r' =>
        if (a.1 <? b.1)%Z then a :: merge_items l' r
        else if (b.1 <? a.1)%Z then b :: go r'
        else (a.1, (a.2 +₃₂ b.2)%M) :: merge_items l' r'
    end.

Lemma merge_items_nil_l r : merge_items [] r = r.
Proof. by destruct r. Qed.

Lemma merge_items_nil_r l : merge_items l [] = l.
Proof. by destruct l. Qed.

Lemma merge_items_cons a l b r :
  merge_items (a :: l) (b :: r) =
  if (a.1 <? b.1)%Z then a :: merge_items l (b :: r)
  else if (b.1 <? a.1)%Z then b :: merge_items (a :: l) r
  else (a.1, (a.2 +₃₂ b.2)%M) :: merge_items l r.
Proof. done. Qed.

(** Induction on two lists by the step the merge takes. *)
Lemma merge_ind (P : list (Z * Z) -> list (Z * Z) -> Prop) :
  (forall r, P [] r) -> (forall l, P l []) ->
  (forall a l b r, (a.1 < b.1)%Z -> P l (b :: r) -> P (a :: l) (b :: r)) ->
  (forall a l b r, (b.1 < a.1)%Z -> P (a :: l) r -> P (a :: l) (b :: r)) ->
  (forall a l b r, a.1 = b.1 -> P l r -> P (a :: l) (b :: r)) ->
  forall l r, P l r.
Proof.
  intros Hl Hr H1 H2 H3 l. induction l as [|a l IHl]; [done|].
  intros r. induction r as [|b r IHr]; [done|].
  destruct (Z.lt_trichotomy a.1 b.1) as [?|[?|?]]; auto.
Qed.

Ltac merge_case :=
  rewrite !merge_items_cons;
  repeat match goal with
  | |- context [(?a <? ?b)%Z] => destruct (Z.ltb_spec a b); try lia
  end.

(** The tokens above a bound stay above it. *)
Lemma merge_items_forall (P : Z -> Prop) l r :
  Forall (fun it => P it.1) l -> Forall (fun it => P it.1) r ->
  Forall (fun it => P it.1) (merge_items l r).
Proof.
  revert l r. refine (merge_ind _ _ _ _ _ _).
  - intros r. by rewrite merge_items_nil_l.
  - intros l. by rewrite merge_items_nil_r.
  - intros a l b r ? IH Ha Hb. merge_case. inversion Ha; subst. auto.
  - intros a l b r ? IH Ha Hb. merge_case. inversion Hb; subst. auto.
  - intros a l b r ? IH Ha Hb. merge_case. inversion Ha; inversion Hb; subst. auto.
Qed.

Lemma merge_items_ordered l r : ordered l -> ordered r -> ordered (merge_items l r).
Proof.
  revert l r. refine (merge_ind _ _ _ _ _ _).
  - intros r. by rewrite merge_items_nil_l.
  - intros l. by rewrite merge_items_nil_r.
  - intros a l b r Hab IH [Hl Ha]%ordered_cons Hr. merge_case. apply ordered_cons.
    split; [auto|]. apply (merge_items_forall (fun x => (a.1 < x)%Z)); [done|].
    apply ordered_cons in Hr as [_ Hb]. constructor; [done|].
    apply (above_mono b.1); [lia|done].
  - intros a l b r Hab IH Hl [Hr Hb]%ordered_cons. merge_case. apply ordered_cons.
    split; [auto|]. apply (merge_items_forall (fun x => (b.1 < x)%Z)); [|done].
    apply ordered_cons in Hl as [_ Ha]. constructor; [done|].
    apply (above_mono a.1); [lia|done].
  - intros a l b r Hab IH [Hl Ha]%ordered_cons [Hr Hb]%ordered_cons. merge_case.
    apply ordered_cons. split; [auto|]. simpl.
    apply (merge_items_forall (fun x => (a.1 < x)%Z)); [done|]. by rewrite Hab.
Qed.

Lemma merge_items_ok l r :
  Forall item_ok l -> Forall item_ok r -> Forall item_ok (merge_items l r).
Proof.
  revert l r. refine (merge_ind _ _ _ _ _ _).
  - intros r. by rewrite merge_items_nil_l.
  - intros l. by rewrite merge_items_nil_r.
  - intros a l b r ? IH Ha Hb. merge_case. inversion Ha; subst. auto.
  - intros a l b r ? IH Ha Hb. merge_case. inversion Hb; subst. auto.
  - intros a l b r ? IH Ha Hb. merge_case. inversion Ha as [|? ? [??]]; inversion Hb; subst.
    constructor; [|auto]. split; [done|apply wrap32_range].
Qed.

Lemma merge_items_length l r : length (merge_items l r) <= length l + length r.
Proof.
  revert l r. refine (merge_ind _ _ _ _ _ _).
  - intros r. rewrite merge_items_nil_l. simpl. lia.
  - intros l. rewrite merge_items_nil_r. lia.
  - intros a l b r ? IH. merge_case. simpl in *. lia.
  - intros a l b r ? IH. merge_case. simpl in *. lia.
  - intros a l b r ? IH. merge_case. simpl in *. lia.
Qed.

(** Lower parts merge before upper parts. *)
Lemma merge_items_split k L1 R1 L2 R2 :
  below k L1 -> below k L2 ->
  Forall (fun it => (k <= it.1)%Z) R1 -> Forall (fun it => (k <= it.1)%Z) R2 ->
  merge_items (L1 ++ R1) (L2 ++ R2) = merge_items L1 L2 ++ merge_items R1 R2.
Proof.
  intros HL1 HL2 HR1 HR2. revert L1 L2 HL1 HL2. refine (merge_ind _ _ _ _ _ _).
  - intros L2 _ H. rewrite merge_items_nil_l. induction H as [|b L2 Hb _ IH]; [done|].
    rewrite <- !app_comm_cons, app_nil_l in *. destruct HR1 as [|a R1 Ha HR1].
    { by rewrite !merge_items_nil_l. }
    merge_case. by rewrite IH.
  - intros L1 H _. rewrite merge_items_nil_r. induction H as [|a L1 Ha _ IH]; [done|].
    rewrite <- !app_comm_cons. destruct HR2 as [|b R2 Hb HR2].
    + by rewrite !merge_items_nil_r.
    + rewrite app_nil_l in *. merge_case. by rewrite IH.
  - intros a L1 b L2 ? IH Ha Hb. rewrite <- !app_comm_cons. inversion Ha; subst.
    merge_case. rewrite <- app_comm_cons. f_equal. by apply IH.
  - intros a L1 b L2 ? IH Ha Hb. rewrite <- !app_comm_cons. inversion Hb; subst.
    merge_case. rewrite <- app_comm_cons. f_equal. by apply IH.
  - intros a L1 b L2 ? IH Ha Hb. rewrite <- !app_comm_cons. inversion Ha; inversion Hb; subst.
    merge_case. rewrite <- app_comm_cons. f_equal. by apply IH.
Qed.

(** ** The merged chunk *)

Section merge.
Context (t1 t2 : Z) (l r : list (Z * Z)) (tl1 tl2 : bytes).
Hypothesis H1 : row_ok t1 l tl1.
Hypothesis H2 : row_ok t2 r tl2.
Local Abbreviation g1 := (encode t1 l tl1).
Local Abbreviation g2 := (encode t2 r tl2).

Lemma merge_item_row t its tl i it :
  row_ok t its tl -> its !! i = Some it -> merge_item (encode t its tl) i = it.
Proof.
  intros H Hi. unfold merge_item. rewrite row_token, row_freq, Hi by done. by destruct it.
Qed.

Lemma append_rest_row t its tl n m :
  row_ok t its tl -> n <= length its ->
  append_rest (encode t its tl) n m = m ++ (drop n its ≫= item_bytes).
Proof.
  intros H Hn. unfold append_rest. rewrite row_length by done.
  remember (length its - n) as k eqn:Hk. revert n m Hn Hk.
  induction k as [|k IH]; intros n m Hn Hk; cbn [seq fold_left].
  { rewrite drop_ge by lia. by rewrite app_nil_r. }
  destruct (lookup_lt_is_Some_2 its n) as [it Hit]; [lia|].
  rewrite (merge_item_row _ _ _ n it H Hit), IH, (drop_S its it n), bind_cons by (done || lia).
  by rewrite <- app_assoc.
Qed.

Lemma merge_loop_row fuel i j m :
  i <= length l -> j <= length r -> length l - i + (length r - j) <= fuel ->
  let '(i', j', m') := merge_loop fuel g1 g2 i j m in
  append_rest g2 j' (append_rest g1 i' m') =
  m ++ (merge_items (drop i l) (drop j r) ≫= item_bytes).
Proof using H1 H2.
  revert i j m. induction fuel as [|fuel IH]; intros i j m Hi Hj Hf; cbn [merge_loop].
  { rewrite !append_rest_row by (done || lia). rewrite !drop_ge by lia. by rewrite !app_nil_r. }
  rewrite !row_length by done. case_decide as Hlt.
  2: { rewrite !append_rest_row by (done || lia). rewrite <- app_assoc, <- bind_app.
       f_equal. f_equal. destruct (decide (i < length l)).
       - rewrite (drop_ge r) by lia. by rewrite merge_items_nil_r, app_nil_r.
       - by rewrite (drop_ge l), merge_items_nil_l by lia. }
  destruct (lookup_lt_is_Some_2 l i) as [[a f] Ha]; [lia|].
  destruct (lookup_lt_is_Some_2 r j) as [[b h] Hb]; [lia|].
  rewrite (merge_item_row _ _ _ i (a, f)), (merge_item_row _ _ _ j (b, h)) by done.
  rewrite (drop_S l (a, f) i), (drop_S r (b, h) j), merge_items_cons by done. cbn [fst snd].
  destruct (a <? b)%Z; [|destruct (b <? a)%Z].
  - specialize (IH (S i) j (m ++ record_of a f)). destruct (merge_loop fuel _ _ _ _ _) as [[??]?].
    rewrite IH, (drop_S r (b, h) j), bind_cons, <- app_assoc by (done || lia). done.
  - specialize (IH i (S j) (m ++ record_of b h)). destruct (merge_loop fuel _ _ _ _ _) as [[??]?].
    rewrite IH, (drop_S l (a, f) i), bind_cons, <- app_assoc by (done || lia). done.
  - specialize (IH (S i) (S j) (m ++ record_of a (f +₃₂ h)%M)).
    destruct (merge_loop fuel _ _ _ _ _) as [[??]?].
    rewrite IH, bind_cons, <- app_assoc by (done || lia). done.
Qed.

(** The chunk is the merged items under the wrapped sum of the totals. *)
Lemma merge_single_gram_row m :
  merge_single_gram m (Some g1) (Some g2) =
  (encode (t1 +₃₂ t2)%M (merge_items l r) [], true).
Proof using H1 H2.
  unfold merge_single_gram. rewrite !row_get_total, !row_length by done. simpl default.
  pose proof (merge_loop_row (length l + length r) 0 0 (le32 (t1 +₃₂ t2)%M)) as H.
  destruct (merge_loop _ _ _ _ _ _) as [[i j] m']. rewrite H by lia.
  rewrite !drop_0. unfold encode. by rewrite app_nil_r.
Qed.

Lemma merged_row_ok :
  fits (g1 ++ g2) -> row_ok (t1 +₃₂ t2)%M (merge_items l r) [].
Proof using H1 H2.
  intros Hf. split; [apply wrap32_range| |unfold ITEM_LEN; simpl; lia|].
  - apply merge_items_ok; [apply H1|apply H2].
  - apply (fits_le _ _ Hf). rewrite length_app, !length_encode. simpl.
    pose proof (merge_items_length l r). lia.
Qed.
End merge.

(** ** Reading an ordered, whole row *)

Lemma located_lookup k its :
  ordered its ->
  (exists L f R, its = L ++ (k, f) :: R /\ below k L /\ above k R /\ row_map its !! k = Some f) \/
  (exists L R, its = L ++ R /\ below k L /\ above k R /\ row_map its !! k = None).
Proof.
  intros H. destruct (ordered_located k its H) as [L f R -> HL HR|L R -> HL HR].
  - left. exists L, f, R. split_and!; [done..|]. by rewrite row_map_middle, lookup_insert_eq.
  - right. exists L, R. split_and!; [done..|]. by apply row_map_apart.
Qed.

Lemma get_freq_ordered t its tl k :
  row_ok t its tl -> ordered its -> get_freq (encode t its tl) k = row_map its !! k.
Proof.
  intros Hrow Ho.
  destruct (located_lookup k its Ho) as [(L & f & R & -> & HL & HR & ->)|(L & R & -> & HL & HR & ->)].
  - by apply hit_get.
  - by apply miss_get.
Qed.

Lemma checked_get_ordered t its k :
  row_ok t its [] -> ordered its -> checked_get_freq (encode t its []) k = Ok (row_map its !! k).
Proof.
  intros Hrow Ho.
  destruct (located_lookup k its Ho) as [(L & f & R & -> & HL & HR & ->)|(L & R & -> & HL & HR & ->)].
  - by apply hit_checked_get.
  - by apply miss_checked_get.
Qed.

(** Where [lower_bound] cuts an ordered row. *)
Lemma ordered_cut k its :
  ordered its ->
  exists L R, its = L ++ R /\ below k L /\ Forall (fun it => (k <= it.1)%Z) R.
Proof.
  intros H. destruct (ordered_located k its H) as [L f R -> HL HR|L R -> HL HR].
  - exists L, ((k, f) :: R). split_and!; [done..|]. constructor; [simpl; lia|by apply below_le].
  - exists L, R. split_and!; [done..|]. by apply below_le.
Qed.

Lemma checked_search_in_row its e out :
  Forall item_ok its ->
  checked_search_in (item_bytes <$> its) [] e out =
  (out ++ take_while (fun it => (it.1 <? e)%Z) its, Ok tt).
Proof.
  intros Hok. revert out. induction Hok as [|it its Hit _ IH]; intros out.
  { simpl. by rewrite app_nil_r. }
  rewrite fmap_cons. cbn [checked_search_in take_while].
  rewrite record_token_item, record_freq_item by done.
  rewrite Z.ltb_antisym. destruct (e <=? it.1)%Z; simpl; [by rewrite app_nil_r|].
  rewrite IH, <- app_assoc. by destruct it.
Qed.

Lemma checked_search_cut t L R k e out :
  row_ok t (L ++ R) [] -> below k L -> Forall (fun it => (k <= it.1)%Z) R ->
  checked_search (encode t (L ++ R) []) k e out =
  (out ++ take_while (fun it => (it.1 <? e)%Z) R, Ok tt).
Proof.
  intros Hrow HL HR. pose proof (lower_bound_split t L R [] k Hrow HL HR) as Hlb.
  unfold checked_search. unfold lower_bound in Hlb. rewrite row_records in Hlb |- * by done.
  rewrite Hlb, <- fmap_drop, drop_app_length. apply checked_search_in_row.
  apply row_items in Hrow. by apply Forall_app in Hrow as [_ ?].
Qed.

Lemma search_side_cut t L R tl k :
  row_ok t (L ++ R) tl -> below k L -> Forall (fun it => (k <= it.1)%Z) R ->
  search_side (encode t (L ++ R) tl) k = R.
Proof.
  intros Hrow HL HR. pose proof (lower_bound_split t L R tl k Hrow HL HR) as Hlb.
  unfold search_side. unfold lower_bound in Hlb. rewrite row_records in Hlb |- * by done.
  rewrite Hlb, <- fmap_drop, drop_app_length, <- list_fmap_compose.
  rewrite <- (list_fmap_id R) at 2. apply row_items in Hrow. apply Forall_app in Hrow as [_ Hok].
  apply Forall_fmap_ext_1, (Forall_impl _ _ _ Hok). intros it Hit. simpl.
  rewrite record_token_item, record_freq_item by done. by destruct it.
Qed.

(** The peeking loop visits the merged items in order. *)
Lemma search_merged_loop_items fuel s u e out :
  length s + length u < fuel ->
  search_merged_loop fuel s u e out =
  out ++ take_while (fun it => (it.1 <? e)%Z) (merge_items s u).
Proof.
  revert s u out. induction fuel as [|fuel IH]; intros s u out Hf; [lia|].
  cbn [search_merged_loop]. destruct s as [|a s], u as [|b u].
  - by rewrite app_nil_r.
  - rewrite merge_items_nil_l. cbn [take_while]. rewrite Z.ltb_antisym.
    destruct (e <=? b.1)%Z; cbn [negb]; [by rewrite app_nil_r|].
    rewrite IH, merge_items_nil_l, <- app_assoc by (simpl in *; lia). done.
  - rewrite merge_items_nil_r. cbn [take_while]. rewrite Z.ltb_antisym.
    destruct (e <=? a.1)%Z; cbn [negb]; [by rewrite app_nil_r|].
    rewrite IH, merge_items_nil_r, <- app_assoc by (simpl in *; lia). done.
  - rewrite merge_items_cons.
    destruct (Z.compare_spec a.1 b.1) as [E|E|E];
      [rewrite (proj2 (Z.ltb_ge a.1 b.1)), (proj2 (Z.ltb_ge b.1 a.1)) by lia
      |rewrite (proj2 (Z.ltb_lt a.1 b.1)) by lia
      |rewrite (proj2 (Z.ltb_ge a.1 b.1)), (proj2 (Z.ltb_lt b.1 a.1)) by lia];
      cbn [take_while fst snd]; rewrite Z.ltb_antisym;
      (destruct (e <=? _)%Z; cbn [negb]; [by rewrite app_nil_r|]);
      rewrite IH, <- app_assoc by (simpl in *; lia); done.
Qed.

Lemma row_map_cons it its : row_map (it :: its) = <[it.1 := it.2]> (row_map its).
Proof. done. Qed.

(** The two lookups, as [get_freq_merged] combines them. *)
Definition join_freq (s u : option Z) : option Z :=
  match s, u with
  | Some s, Some u => Some (s +₃₂ u)%M
  | freq, None | None, freq => freq
  end.

Lemma merge_items_lookup l r k :
  ordered l -> ordered r ->
  row_map (merge_items l r) !! k = join_freq (row_map l !! k) (row_map r !! k).
Proof.
  revert l r. refine (merge_ind _ _ _ _ _ _).
  - intros r _ _. rewrite merge_items_nil_l. simpl. by destruct (row_map r !! k).
  - intros l _ _. rewrite merge_items_nil_r. simpl. by destruct (row_map l !! k).
  - intros a l b r Hab IH [Hl Ha]%ordered_cons Hr. merge_case. rewrite !(row_map_cons a).
    destruct (decide (k = a.1)) as [->|]; [|rewrite !lookup_insert_ne by done; auto].
    rewrite !lookup_insert_eq. rewrite (row_map_above a.1 (b :: r)); [done|].
    apply ordered_cons in Hr as [_ Hb]. constructor; [done|]. apply (above_mono b.1); [lia|done].
  - intros a l b r Hab IH Hl [Hr Hb]%ordered_cons. merge_case. rewrite !(row_map_cons b).
    destruct (decide (k = b.1)) as [->|]; [|rewrite !lookup_insert_ne by done; auto].
    rewrite !lookup_insert_eq. rewrite (row_map_above b.1 (a :: l)); [done|].
    apply ordered_cons in Hl as [_ Ha]. constructor; [done|]. apply (above_mono a.1); [lia|done].
  - intros a l b r Hab IH [Hl Ha]%ordered_cons [Hr Hb]%ordered_cons. merge_case.
    rewrite !row_map_cons, Hab. cbn [fst snd].
    destruct (decide (k = b.1)) as [->|]; [by rewrite !lookup_insert_eq|].
    rewrite !lookup_insert_ne by done. auto.
Qed.

(** ** The merge read without building it *)

Section layered.
Context (t1 t2 : Z) (l r : list (Z * Z)).
Local Abbreviation g1 := (encode t1 l []).
Local Abbreviation g2 := (encode t2 r []).
Local Abbreviation merged := (encode (t1 +₃₂ t2)%M (merge_items l r) []).
Hypothesis H1 : row_ok t1 l [].
Hypothesis H2 : row_ok t2 r [].
Hypothesis Hm : row_ok (t1 +₃₂ t2)%M (merge_items l r) [].
Hypothesis Hl : ordered l.
Hypothesis Hr : ordered r.

Lemma get_freq_merged_row k :
  Ok (get_freq_merged g1 g2 k) = checked_get_freq merged k.
Proof using H1 H2 Hm Hl Hr.
  unfold get_freq_merged. rewrite !get_freq_ordered by done.
  rewrite checked_get_ordered by (done || by apply merge_items_ordered).
  rewrite merge_items_lookup by done. by destruct (row_map l !! k), (row_map r !! k).
Qed.

Lemma search_merged_row b e out :
  (search_merged g1 g2 b e out, Ok tt) = checked_search merged b e out.
Proof using H1 H2 Hm Hl Hr.
  unfold search_merged. revert H1 H2 Hm.
  destruct (ordered_cut b l Hl) as (L1 & R1 & -> & HL1 & HR1).
  destruct (ordered_cut b r Hr) as (L2 & R2 & -> & HL2 & HR2). intros K1 K2 Km.
  rewrite !search_side_cut, search_merged_loop_items by (done || lia).
  rewrite (merge_items_split b) in Km |- * by done.
  rewrite checked_search_cut; [done|done| |].
  - by apply (merge_items_forall (fun x => (x < b)%Z)).
  - by apply (merge_items_forall (fun x => (b <= x)%Z)).
Qed.
End layered.
