(* ===== verification/MergedGram.v ===== *)
(** * MergedGram: one predecessor's row with the user's overlay

    [MergedGram], [SharedGram] and [NbestStepRow] of
    [crates/oxpinyin-core/src/lib.rs]: the merge of a system row with a user
    row, either built ([merge]) or kept as two values side by side
    ([merge_shared]), and the row cached by an n-best step. A [SharedGram]
    is its bytes: the [OnceLock] beside them only remembers what
    [is_strictly_ordered] answers for them. *)

From Stdlib Require Import ZArith Lia Bool Strings.Byte.
From stdpp Require Import base list gmap sorting.
From S2P Require Import Prelude SingleGram GramMerge.

Definition SharedGram : Type := bytes.

(** Where the items of a row live. *)
Inductive GramRow : Type :=
  | Chunk (chunk : bytes)
  | Shared (system : SharedGram)
  | Layered (system : SharedGram) (user : bytes).

Definition GramRow_default : GramRow := Chunk [].

Record MergedGram : Type := mk_merged { row : GramRow; fault : option GramFault }.

Definition chunk (bytes : bytes) : MergedGram :=
  {| row := Chunk bytes; fault := None |}.

(** What a merge of two present values meets before its loop. *)
Definition merge_fault (system user : bytes) : option GramFault :=
  let short gram := match get_total_freq gram with None => true | Some _ => false end in
  if short system || short user then Some Short
  else if has_partial_tail system || has_partial_tail user then Some OverRead
  else None.

Definition merged_chunk (system user : bytes) : bytes :=
  (merge_single_gram [] (Some system) (Some user)).1.

(** [total as u32] and [count as u32] keep the low 32 bits. *)
Definition new (total : Z) (records : list (Z * Z)) : MergedGram :=
  chunk (fold_left (fun acc '(token, count) => acc ++ le32 token ++ le32 (wrap32 count))
           records (le32 (wrap32 total))).

Definition merge (system user : option bytes) : option MergedGram :=
  match system, user with
  | None, None => None
  | Some only, None | None, Some only => Some (chunk only)
  | Some system, Some user =>
      Some (match merge_fault system user with
            | Some fault => {| row := GramRow_default; fault := Some fault |}
            | None => chunk (merged_chunk system user)
            end)
  end.

Definition merge_shared (system : SharedGram) (user : option bytes) : MergedGram :=
  match user with
  | None => {| row := Shared system; fault := None |}
  | Some user =>
      match merge_fault system user with
      | Some fault => {| row := GramRow_default; fault := Some fault |}
      | None =>
          if is_strictly_ordered user && is_strictly_ordered system
          then {| row := Layered system user; fault := None |}
          else chunk (merged_chunk system user)
      end
  end.

Definition total_of (gram : bytes) : result Z GramFault :=
  match get_total_freq gram with Some t => Ok t | None => Err Short end.

Definition total (m : MergedGram) : result Z GramFault :=
  match fault m with
  | Some fault => Err fault
  | None =>
      match row m with
      | Chunk chunk => total_of chunk
      | Shared system => total_of system
      | Layered system user =>
          match total_of system with
          | Err e => Err e
          | Ok s =>
              match total_of user with
              | Err e => Err e
              | Ok u => Ok (s +₃₂ u)%M
              end
          end
      end
  end.

Definition get_freq (m : MergedGram) (token : Z) : result (option Z) GramFault :=
  match fault m with
  | Some fault => Err fault
  | None =>
      match row m with
      | Chunk chunk => checked_get_freq chunk token
      | Shared system => checked_get_freq system token
      | Layered system user => Ok (get_freq_merged system user token)
      end
  end.

Definition search_into (m : MergedGram) (first last : Z) (out : list (Z * Z))
    : list (Z * Z) * result unit GramFault :=
  match fault m with
  | Some fault => (out, Err fault)
  | None =>
      let end_ := (last +₃₂ 1)%M in
      match row m with
      | Chunk chunk => checked_search chunk first end_ out
      | Shared system => checked_search system first end_ out
      | Layered system user => (search_merged system user first end_ out, Ok tt)
      end
  end.

Definition to_bytes (m : MergedGram) : bytes :=
  match row m with
  | Chunk chunk => chunk
  | Shared system => system
  | Layered system user => merged_chunk system user
  end.

(** ** The row an n-best step caches *)

(** [generation] is the [NonZeroU64] tag: [None] is an unloaded row. *)
Record NbestStepRow : Type := mk_step_row {
  loaded : option MergedGram;
  generation : option Z
}.

Definition NbestStepRow_default : NbestStepRow :=
  {| loaded := None; generation := None |}.

(** [NonZeroU64::new(generation.wrapping_add(1))]. *)
Definition step_tag (generation : Z) : option Z :=
  let tag := ((generation + 1) mod u64_size)%Z in
  if (tag =? 0)%Z then None else Some tag.

(** [load] is the loader's answer, should it be called; the last component
    says whether it was. *)
Definition get_or_try_init_in_generation {E} (r : NbestStepRow) (gen : Z)
    (load : result (option MergedGram) E)
    : NbestStepRow * result (option MergedGram) E * bool :=
  let tag := step_tag gen in
  if bool_decide (tag = None) || negb (bool_decide (generation r = tag)) then
    match load with
    | Err e => (r, Err e, true)
    | Ok m => ({| loaded := m; generation := tag |}, Ok m, true)
    end
  else (r, Ok (loaded r), false).

Definition get_or_try_init {E} (r : NbestStepRow) (load : result (option MergedGram) E) :=
  get_or_try_init_in_generation r 0 load.

(** ** [merge_shared] answers what [merge] answers *)

Lemma no_fault_row system user :
  fits (system ++ user) -> merge_fault system user = None ->
  exists t1 l t2 r,
    system = encode t1 l [] /\ row_ok t1 l [] /\
    user = encode t2 r [] /\ row_ok t2 r [].
Proof.
  intros Hf. unfold merge_fault.
  assert (fits system) as Hs by (apply (fits_le _ _ Hf); rewrite length_app; lia).
  assert (fits user) as Hu by (apply (fits_le _ _ Hf); rewrite length_app; lia).
  unfold get_total_freq, TOTAL_LEN. repeat case_decide; simpl; try discriminate.
  destruct (has_partial_tail system) eqn:T1, (has_partial_tail user) eqn:T2; try done. intros _.
  destruct (row_surj system) as (t1 & l & tl1 & -> & R1); [done..|].
  destruct (row_surj user) as (t2 & r & tl2 & -> & R2); [done..|].
  assert (forall t its tl, row_ok t its tl -> has_partial_tail (encode t its tl) = false -> tl = []) as Htl.
  { intros t its tl [_ _ Htl _]. unfold has_partial_tail. rewrite length_encode.
    unfold TOTAL_LEN, ITEM_LEN in *. rewrite bool_decide_true by lia.
    replace (4 + 8 * length its + length tl - 4) with (length tl + length its * 8) by lia.
    rewrite Nat.Div0.mod_add, Nat.mod_small by done. destruct tl; [done|]. done. }
  pose proof (Htl _ _ _ R1 T1) as ->. pose proof (Htl _ _ _ R2 T2) as ->.
  by exists t1, l, t2, r.
Qed.

(** C2. A row kept as two values side by side answers every reader as the
    merged chunk does: [merge_shared] and [merge] meet the same fault, and
    give the same total, the same frequency of every token, the same items
    in every token range with the same error, and the same bytes, whatever
    the two stored values are. *)
Theorem merge_shared_merge (system : bytes) (user : option bytes)
    (Hfits : fits (system ++ default [] user)) :
  exists m, merge (Some system) user = Some m /\
    fault (merge_shared system user) = fault m /\
    total (merge_shared system user) = total m /\
    (forall token, get_freq (merge_shared system user) token = get_freq m token) /\
    (forall first last out,
       search_into (merge_shared system user) first last out = search_into m first last out) /\
    to_bytes (merge_shared system user) = to_bytes m.
Proof.
  destruct user as [user|]; [|by exists (chunk system)]. simpl in Hfits.
  unfold merge_shared, merge. destruct (merge_fault system user) as [f|] eqn:F.
  { eexists. by split_and!. }
  eexists. split; [done|].
  destruct (is_strictly_ordered user && is_strictly_ordered system) eqn:Hord; [|by split_and!].
  apply andb_true_iff in Hord as [Ho2 Ho1].
  destruct (no_fault_row _ _ Hfits F) as (t1 & l & t2 & r & -> & R1 & -> & R2).
  apply is_strictly_ordered_row in Ho1; [|done]. apply is_strictly_ordered_row in Ho2; [|done].
  pose proof (merged_row_ok _ _ _ _ _ _ R1 R2 Hfits) as Rm.
  assert (merged_chunk (encode t1 l []) (encode t2 r []) =
          encode (t1 +₃₂ t2)%M (merge_items l r) []) as Em
    by (unfold merged_chunk; by rewrite merge_single_gram_row).
  unfold total, get_freq, search_into, to_bytes, total_of; cbn [fault row chunk].
  rewrite Em. split_and!; try done.
  - by rewrite !row_get_total.
  - intros k. by apply get_freq_merged_row.
  - intros b e out. by apply search_merged_row.
Qed.

Definition sample_system : bytes := to_bytes (new 9 [(3, 4); (5, 5)]%Z).
Definition sample_user : bytes := to_bytes (new 4294967295 [(5, 4294967295); (8, 1)]%Z).

Lemma merge_shared_merge_witness :
  search_into (merge_shared sample_system (Some sample_user)) 5 8 [] =
    ([(5, 4); (8, 1)]%Z, Ok tt) /\
  total (merge_shared sample_system (Some sample_user)) = Ok 8%Z /\
  to_bytes (merge_shared sample_system (Some sample_user)) =
    to_bytes (new 8 [(3, 4); (5, 4); (8, 1)]%Z).
Proof.
  destruct (merge_shared_merge sample_system (Some sample_user)) as (m & Hm & _ & Ht & _ & Hs & Hb).
  - vm_compute. discriminate.
  - rewrite Ht, Hs, Hb. injection Hm as <-. by split_and!; vm_compute.
Defined.

(** ** The cache is transparent *)

(** The row remembers what the loader answers for its generation. *)
Definition step_row_ok {E} (load : Z -> result (option MergedGram) E) (r : NbestStepRow) : Prop :=
  forall tag, generation r = Some tag ->
    exists gen, is_u64 gen /\ step_tag gen = Some tag /\ load gen = Ok (loaded r).

Lemma step_tag_inj g h tag :
  is_u64 g -> is_u64 h -> step_tag g = Some tag -> step_tag h = Some tag -> g = h.
Proof.
  unfold step_tag, is_u64. intros Hg Hh.
  assert (forall x, (0 <= x < u64_size)%Z -> ((x + 1) mod u64_size)%Z <> 0%Z ->
    ((x + 1) mod u64_size = x + 1)%Z) as Hmod.
  { intros x Hx H. apply Z.mod_small. split; [lia|].
    destruct (Z.eq_dec (x + 1)%Z u64_size) as [E|]; [|lia].
    rewrite E, Z.mod_same in H by done. done. }
  destruct (Z.eqb_spec ((g + 1) mod u64_size)%Z 0); [done|].
  destruct (Z.eqb_spec ((h + 1) mod u64_size)%Z 0); [done|].
  intros [= <-] [= E]. rewrite !Hmod in E by done. lia.
Qed.

(** The calls one step makes: their answers, and the generations whose
    loader ran. *)
Fixpoint step_row_calls {E} (load : Z -> result (option MergedGram) E)
    (gens : list Z) (r : NbestStepRow) : list (result (option MergedGram) E) * list Z :=
  match gens with
  | [] => ([], [])
  | g :: gens =>
      let '(r, a, ran) := get_or_try_init_in_generation r g (load g) in
      let '(l, runs) := step_row_calls load gens r in
      (a :: l, if ran then g :: runs else runs)
  end.

Lemma step_row_calls_ok {E} (load : Z -> result (option MergedGram) E) gens r :
  Forall is_u64 gens -> step_row_ok load r ->
  (step_row_calls load gens r).1 = load <$> gens.
Proof.
  intros Hg. revert r. induction Hg as [|g gens Hg _ IH]; intros r Hr; [done|].
  cbn [step_row_calls fmap list_fmap].
  assert (exists r' ran, get_or_try_init_in_generation r g (load g) = (r', load g, ran) /\
            step_row_ok load r') as (r' & ran & -> & Hr').
  { unfold get_or_try_init_in_generation.
    destruct (step_tag g) as [tag|] eqn:Et; cbn [orb].
    - rewrite bool_decide_false by done. cbn [orb]. case_bool_decide as Eg; cbn [negb].
      + exists r, false. split; [|done]. destruct (Hr tag Eg) as (g' & Hg' & Ht' & Hl).
        rewrite (step_tag_inj g g' tag) in * by done. by rewrite Hl.
      + destruct (load g) as [m|e] eqn:El; [|by exists r, true].
        exists {| loaded := m; generation := Some tag |}, true. split; [done|].
        intros tag' [= <-]. by exists g.
    - rewrite bool_decide_true by done. cbn [orb].
      destruct (load g) as [m|e]; [|by exists r, true].
      exists {| loaded := m; generation := None |}, true. by split. }
  specialize (IH r' Hr'). destruct (step_row_calls load gens r') as [l runs]. simpl in *.
  by rewrite IH.
Qed.

(** The cache of an n-best step is transparent: with a loader that
    answers by the store's generation, every call of a fresh row in any
    order of generations answers what the loader answers for the
    generation asked, errors and missing rows included, although the wrapped
    counter [u64::MAX] has no tag. *)
Theorem step_row_transparent {E} (load : Z -> result (option MergedGram) E) (gens : list Z)
    (Hgens : Forall is_u64 gens) :
  (step_row_calls load gens NbestStepRow_default).1 = load <$> gens.
Proof. by apply step_row_calls_ok. Qed.

Definition sample_load (g : Z) : result (option MergedGram) unit :=
  if (g =? 3)%Z then Err tt
  else if (g =? 2)%Z then Ok None else Ok (Some (new g [])).

Lemma step_row_transparent_witness :
  (step_row_calls sample_load [0; 0; u64_max; u64_max; 0; 3; 3; 2; 2]%Z NbestStepRow_default).1 =
    sample_load <$> [0; 0; u64_max; u64_max; 0; 3; 3; 2; 2]%Z /\
  (step_row_calls sample_load [0; 0; u64_max; u64_max; 0; 3; 3; 2; 2]%Z NbestStepRow_default).2 =
    [0; u64_max; u64_max; 0; 3; 3; 2]%Z.
Proof.
  split; [|vm_compute; reflexivity].
  apply (step_row_transparent sample_load).
  repeat (apply Forall_cons; split; [width_lia|]). by apply Forall_nil.
Defined.
