(* ===== verification/Ranges.v ===== *)
(** * Ranges: the token ranges a table search fills

    [PhraseIndexRange] and [PhraseIndexRanges] of
    [crates/oxpinyin-core/src/lib.rs]: per-library arrays of consecutive
    token ranges over one vector of entry slots, filled by [convert],
    joined by [append_from] and read back by the n-best walk. *)

From Stdlib Require Import ZArith Lia Bool.
From stdpp Require Import base list sorting.
From S2P Require Import Prelude.

Definition PHRASE_INDEX_LIBRARY_COUNT : nat := 16.

Definition phrase_index_library (token : Z) : nat :=
  Z.to_nat (Z.land (Z.shiftr token 24) 15).

Record PhraseIndexRange : Type := mk_range { first : Z; last : Z; slot : Z }.

Record PhraseIndexRanges (E : Type) : Type := mk_ranges {
  libraries : list (list PhraseIndexRange);
  slots : list (option E)
}.
Arguments mk_ranges {E} _ _.
Arguments libraries {E} _.
Arguments slots {E} _.

Definition new_ranges {E} : PhraseIndexRanges E :=
  mk_ranges (replicate PHRASE_INDEX_LIBRARY_COUNT []) [].

Definition clear {E} (r : PhraseIndexRanges E) : PhraseIndexRanges E :=
  mk_ranges ((fun _ => []) <$> libraries r) [].

(** [push]: [get_mut] past the last library does nothing. *)
Definition push (libs : list (list PhraseIndexRange)) (range : PhraseIndexRange)
    : list (list PhraseIndexRange) :=
  alter (fun ranges => ranges ++ [range]) (phrase_index_library (first range)) libs.

Definition close (libs : list (list PhraseIndexRange)) (cursor : option PhraseIndexRange)
    : list (list PhraseIndexRange) :=
  match cursor with Some closed => push libs closed | None => libs end.

(** [u32::try_from(len).unwrap_or(u32::MAX)]. *)
Definition slot_of (len : nat) : Z := Z.min (Z.of_nat len) u32_max.

(** [open.last.checked_add(1) == Some(token)]. *)
Definition follows (last token : Z) : bool :=
  (last + 1 <=? u32_max)%Z && (last + 1 =? token)%Z.

(** One turn of the loop of [convert]. *)
Definition convert_item {E} (libs : list (list PhraseIndexRange)) (slots : list (option E))
    (cursor : option PhraseIndexRange) (token : Z) (entry : option E)
    : list (list PhraseIndexRange) * list (option E) * option PhraseIndexRange :=
  let slot := slot_of (length slots) in
  let slots := slots ++ [entry] in
  let fresh := Some {| first := token; last := token; slot := slot |} in
  match cursor with
  | Some open =>
      if follows (last open) token &&
         (phrase_index_library (first open) =? phrase_index_library token)
      then (libs, slots, Some {| first := first open; last := token; slot := Ranges.slot open |})
      else (close libs cursor, slots, fresh)
  | None => (libs, slots, fresh)
  end.

Fixpoint convert_loop {E} (items : list (Z * option E)) (libs : list (list PhraseIndexRange))
    (slots : list (option E)) (cursor : option PhraseIndexRange) : PhraseIndexRanges E :=
  match items with
  | [] => mk_ranges (close libs cursor) slots
  | (token, entry) :: items =>
      let '(libs, slots, cursor) := convert_item libs slots cursor token entry in
      convert_loop items libs slots cursor
  end.

Definition convert {E} (r : PhraseIndexRanges E) (items : list (Z * option E))
    : PhraseIndexRanges E :=
  convert_loop items (libraries r) (slots r) None.

Definition ranges {E} (r : PhraseIndexRanges E) (library : nat) : list PhraseIndexRange :=
  default [] (libraries r !! library).

Definition iter {E} (r : PhraseIndexRanges E) : list PhraseIndexRange :=
  concat (libraries r).

Definition entry {E} (r : PhraseIndexRanges E) (range : PhraseIndexRange) (token : Z) : option E :=
  if (token <? first range)%Z || (last range <? token)%Z then None
  else
    offset ← checked_add (Z.to_nat (slot range)) (Z.to_nat (token - first range));
    e ← slots r !! offset; e.

(** [last - first + 1] as a count, saturating. *)
Definition range_count (range : PhraseIndexRange) : nat :=
  usat_add (Z.to_nat (last range - first range)) 1.

Definition entries {E} (r : PhraseIndexRanges E) (range : PhraseIndexRange) : list E :=
  omap id (take (range_count range) (drop (Z.to_nat (slot range)) (slots r))).

(** [first..=last]. *)
Definition token_span (range : PhraseIndexRange) : list Z :=
  seqZ (first range) (last range - first range + 1).

Definition walk_tokens {E} (r : PhraseIndexRanges E) : list (Z * E) :=
  iter r ≫= fun range =>
    omap (fun token => (fun e => (token, e)) <$> entry r range token) (token_span range).

Definition walk {E} (r : PhraseIndexRanges E) : list E :=
  iter r ≫= entries r.

(** [Option::take] over a window of the slots: what it yields, and the
    slots it leaves behind. *)
Definition take_window {E} (slots : list (option E)) (from count : nat)
    : list E * list (option E) :=
  (omap id (take count (drop from slots)),
   take from slots ++ ((fun _ => None) <$> take count (drop from slots))
     ++ drop count (drop from slots)).

Fixpoint take_ranges {E} (rs : list PhraseIndexRange) (slots : list (option E)) : list E :=
  match rs with
  | [] => []
  | range :: rs =>
      let '(out, slots) := take_window slots (Z.to_nat (slot range)) (range_count range) in
      out ++ take_ranges rs slots
  end.

Definition into_walk_entries {E} (r : PhraseIndexRanges E) : list E :=
  take_ranges (iter r) (slots r).

(** [append_from]: ours and the emptied other. *)
Definition append_from {E F} (r : PhraseIndexRanges E) (other : PhraseIndexRanges F) (map : F -> E)
    : PhraseIndexRanges E * PhraseIndexRanges F :=
  let base := slot_of (length (slots r)) in
  let moved (range : PhraseIndexRange) : PhraseIndexRange :=
    {| first := first range; last := last range;
       slot := Z.min (slot range + base) u32_max |} in
  (mk_ranges
     (zip_with (fun ours theirs => ours ++ fmap (M:=list) moved theirs) (libraries r) (libraries other))
     (slots r ++ (fmap (M:=option) map <$> slots other)),
   mk_ranges (fmap (M:=list) (fun _ => []) (libraries other)) []).

(** ** What the ranges stand for

    [its] is every item converted so far, in order. A library's ranges are
    the slots of its items, in order; each range's slots hold consecutive
    tokens. *)

Lemma phrase_index_library_lt token :
  phrase_index_library token < PHRASE_INDEX_LIBRARY_COUNT.
Proof.
  unfold phrase_index_library, PHRASE_INDEX_LIBRARY_COUNT.
  change 15%Z with (Z.ones 4). rewrite Z.land_ones by lia.
  pose proof (Z.mod_pos_bound (Z.shiftr token 24) (2 ^ 4) eq_refl). lia.
Qed.

#[local] Opaque phrase_index_library.

Section represents.
Context {E : Type}.
Implicit Types (its : list (Z * option E)) (r : PhraseIndexRanges E).

Definition range_slots (range : PhraseIndexRange) : list nat :=
  seq (Z.to_nat (slot range)) (S (Z.to_nat (last range - first range))).

Definition lib_indexes its (lib : nat) : list nat :=
  filter (fun j => phrase_index_library <$> its.*1 !! j = Some lib) (seq 0 (length its)).

Record range_ok its (range : PhraseIndexRange) : Prop := {
  range_order : (0 <= first range <= last range)%Z;
  range_u32 : is_u32 (last range);
  range_slot : is_u32 (slot range);
  range_tokens : forall k, k <= Z.to_nat (last range - first range) ->
    its.*1 !! (Z.to_nat (slot range) + k) = Some (first range + Z.of_nat k)%Z
}.

Record represents r its : Prop := {
  rep_slots : slots r = its.*2;
  rep_libs : length (libraries r) = PHRASE_INDEX_LIBRARY_COUNT;
  rep_ranges : forall lib rs, libraries r !! lib = Some rs ->
    Forall (range_ok its) rs /\ concat (range_slots <$> rs) = lib_indexes its lib
}.

Lemma represents_new : represents new_ranges [].
Proof.
  split; [done|done|]. intros lib rs [-> _]%lookup_replicate. split; [by apply Forall_nil|done].
Qed.

Lemma lib_indexes_snoc its t e lib :
  lib_indexes (its ++ [(t, e)]) lib =
  lib_indexes its lib ++ (if decide (phrase_index_library t = lib) then [length its] else []).
Proof.
  unfold lib_indexes. rewrite length_app, Nat.add_1_r, seq_S, filter_app, Nat.add_0_l. f_equal.
  - apply filter_ext_in. intros j Hj%elem_of_seq.
    rewrite fmap_app, lookup_app_l by (rewrite length_fmap; lia). reflexivity.
  - rewrite filter_cons, filter_nil, fmap_app, lookup_app_r by (rewrite length_fmap; lia).
    rewrite length_fmap, Nat.sub_diag. cbn. by repeat case_decide; simplify_eq.
Qed.

Lemma range_ok_app its k rg : range_ok its rg -> range_ok (its ++ k) rg.
Proof.
  intros [H1 H2 H3 H4]. split; [done..|]. intros i Hi.
  rewrite fmap_app. apply lookup_app_l_Some. by apply H4.
Qed.

Lemma length_push libs rg : length (push libs rg) = length libs.
Proof. apply length_alter. Qed.

Lemma push_lookup libs rg lib :
  push libs rg !! lib =
  (if decide (phrase_index_library (first rg) = lib) then fun rs => rs ++ [rg] else id)
    <$> libs !! lib.
Proof.
  unfold push. case_decide as Hl.
  - subst lib. apply list_lookup_alter_eq.
  - rewrite list_lookup_alter_ne by done. by destruct (libs !! lib).
Qed.

(** A fresh range for the next item. *)
Lemma represents_fresh libs sl its t e :
  represents (mk_ranges libs sl) its -> is_u32 t -> (Z.of_nat (length its) <= u32_max)%Z ->
  represents
    (mk_ranges (push libs {| first := t; last := t; slot := slot_of (length sl) |}) (sl ++ [e]))
    (its ++ [(t, e)]).
Proof.
  intros [Hs Hn Hr] Ht Hlen. simpl in Hs. subst sl.
  assert (slot_of (length its.*2) = Z.of_nat (length its)) as ->.
  { unfold slot_of. rewrite length_fmap. lia. }
  split; [by rewrite fmap_app|by simpl; rewrite length_push|].
  intros lib rs. simpl. rewrite push_lookup. simpl. intros (rs0 & Hrs & ->)%fmap_Some.
  destruct (Hr lib rs0 Hrs) as [Hok Hc]. rewrite lib_indexes_snoc.
  assert (Forall (range_ok (its ++ [(t, e)])) rs0) as Hok'
    by (apply (Forall_impl _ _ _ Hok); intros rg; apply range_ok_app).
  case_decide; simpl; [|by rewrite app_nil_r].
  split.
  - apply Forall_app. split; [done|]. apply Forall_cons. split; [|by apply Forall_nil].
    split; simpl; [width_lia|done|width_lia|]. intros k Hk. replace k with 0 by lia.
    rewrite fmap_app, lookup_app_r by (rewrite length_fmap; lia).
    rewrite length_fmap, Nat2Z.id, Nat.add_0_r, Nat.sub_diag. cbn. f_equal. lia.
  - rewrite fmap_app, concat_app, Hc. simpl. unfold range_slots. simpl.
    rewrite Z.sub_diag, Nat2Z.id. done.
Qed.

Lemma range_slots_extend a b k n :
  (a <= b)%Z -> (0 <= k)%Z -> (k + (b - a) + 1 = Z.of_nat n)%Z ->
  range_slots {| first := a; last := b + 1; slot := k |} =
  range_slots {| first := a; last := b; slot := k |} ++ [n].
Proof.
  intros Hab Hk Hn. unfold range_slots. cbn [first last slot].
  replace (Z.to_nat (b + 1 - a)) with (S (Z.to_nat (b - a))) by lia.
  rewrite (seq_S (S (Z.to_nat (b - a)))). f_equal. f_equal. lia.
Qed.

(** The open range takes one more token. *)
Lemma represents_extend libs sl its t e a b k :
  represents (mk_ranges (push libs {| first := a; last := b; slot := k |}) sl) its ->
  is_u32 t -> t = (b + 1)%Z -> phrase_index_library a = phrase_index_library t ->
  (k + (b - a) + 1 = Z.of_nat (length its))%Z ->
  represents (mk_ranges (push libs {| first := a; last := t; slot := k |}) (sl ++ [e]))
    (its ++ [(t, e)]).
Proof.
  intros [Hs Hn Hr] Ht -> Hlib Hend. simpl in Hs. subst sl.
  split; [by rewrite fmap_app|revert Hn; simpl; by rewrite !length_push|].
  intros lib rs. simpl. rewrite push_lookup. simpl. intros (rs0 & Hrs & ->)%fmap_Some.
  specialize (Hr lib). simpl in Hr. rewrite push_lookup, Hrs in Hr. simpl in Hr.
  destruct (Hr _ eq_refl) as [Hok Hc]. rewrite lib_indexes_snoc, <- Hc, <- Hlib.
  assert (forall rs, Forall (range_ok its) rs -> Forall (range_ok (its ++ [((b + 1)%Z, e)])) rs) as Hup
    by (intros ? HH; apply (Forall_impl _ _ _ HH); intros rg; apply range_ok_app).
  case_decide; [|simpl; rewrite app_nil_r; by split; [apply Hup|]].
  apply Forall_app in Hok as [Hok0 [Hrg _]%Forall_cons].
  pose proof (range_order _ _ Hrg) as Ho. pose proof (range_slot _ _ Hrg) as Hk. unfold is_u32 in Hk. simpl in Ho, Hk.
  split.
  - apply Forall_app. split; [by apply Hup|]. apply Forall_cons. split; [|by apply Forall_nil].
    split; simpl; [lia|done|done|]. intros i Hi.
    destruct (decide (i <= Z.to_nat (b - a))) as [Hle|].
    + rewrite fmap_app. apply lookup_app_l_Some. by apply (range_tokens _ _ Hrg).
    + replace i with (S (Z.to_nat (b - a))) by lia.
      rewrite fmap_app, lookup_app_r, length_fmap by (rewrite length_fmap; lia).
      replace (Z.to_nat k + S (Z.to_nat (b - a)) - length its) with 0 by lia. cbn. f_equal. lia.
  - rewrite !fmap_app, !concat_app, <- app_assoc. f_equal. rewrite !list_fmap_singleton.
    cbn [concat]. rewrite !app_nil_r. apply range_slots_extend; lia.
Qed.

(** Where the open range ends. *)
Definition cursor_ok its (cursor : option PhraseIndexRange) : Prop :=
  match cursor with
  | Some c => (slot c + (last c - first c) + 1 = Z.of_nat (length its))%Z
  | None => True
  end.

Lemma convert_loop_represents items libs sl cursor its :
  Forall (fun it => is_u32 it.1) items ->
  (Z.of_nat (length its + length items) <= u32_max)%Z ->
  represents (mk_ranges (close libs cursor) sl) its -> cursor_ok its cursor ->
  represents (convert_loop items libs sl cursor) (its ++ items).
Proof.
  intros Hi. revert libs sl cursor its.
  induction Hi as [|[t e] items Ht _ IH]; intros libs sl cursor its Hlen Hrep Hcur.
  { by rewrite app_nil_r. }
  cbn [length fst] in *. cbn [convert_loop]. rewrite cons_middle, app_assoc.
  assert (slot_of (length sl) = Z.of_nat (length its)) as Hslot.
  { pose proof (rep_slots _ _ Hrep) as Hs. simpl in Hs. subst sl.
    unfold slot_of. rewrite length_fmap. lia. }
  assert (length (its ++ [(t, e)]) = S (length its)) as Hl' by (rewrite length_app; simpl; lia).
  assert (forall L, represents (mk_ranges L sl) its ->
    represents (convert_loop items L (sl ++ [e])
      (Some {| first := t; last := t; slot := slot_of (length sl) |})) ((its ++ [(t, e)]) ++ items))
    as Hfresh.
  { intros L HL. apply IH; [rewrite Hl'; lia| |simpl; rewrite Hl'; lia].
    apply represents_fresh; [done..|lia]. }
  unfold convert_item. destruct cursor as [[a b k]|]; [|by apply Hfresh].
  destruct (follows _ t && _) eqn:Ef; [|by apply Hfresh].
  cbn [first last slot] in *.
  apply andb_true_iff in Ef as [E1 E2%Nat.eqb_eq]. unfold follows in E1.
  apply andb_true_iff in E1 as [_ E1%Z.eqb_eq]. simpl in Hcur.
  apply IH; [rewrite Hl'; lia| |simpl; rewrite Hl'; lia].
  by apply (represents_extend libs sl its t e a b k).
Qed.

Lemma convert_represents r items its :
  Forall (fun it => is_u32 it.1) items ->
  (Z.of_nat (length its + length items) <= u32_max)%Z ->
  represents r its -> represents (convert r items) (its ++ items).
Proof. intros Hi Hl Hr. apply convert_loop_represents; [done..| |done]. by destruct r. Qed.

(** ** Reading the ranges back *)

(** A filled item, with its token. *)
Definition filled (it : Z * option E) : option (Z * E) := pair it.1 <$> it.2.

Definition by_library its : list (Z * E) :=
  seq 0 PHRASE_INDEX_LIBRARY_COUNT ≫= fun lib =>
    omap filled (filter (fun it => phrase_index_library it.1 = lib) its).

Definition filled_at its (j : nat) : option (Z * E) := its !! j ≫= filled.

Lemma omap_lib_indexes its lib :
  omap (filled_at its) (lib_indexes its lib) =
  omap filled (filter (fun it => phrase_index_library it.1 = lib) its).
Proof.
  induction its as [|[t e] its IH] using rev_ind; [done|].
  rewrite lib_indexes_snoc, filter_app, !omap_app, <- IH. f_equal.
  - apply omap_ext_in. intros j [_ Hj%elem_of_seq]%list_elem_of_filter.
    unfold filled_at. rewrite lookup_app_l by lia. done.
  - rewrite filter_cons, filter_nil. simpl. case_decide; [|done]. simpl.
    unfold filled_at. by rewrite lookup_app_r, Nat.sub_diag by lia.
Qed.

Section reading.
Context (r : PhraseIndexRanges E) (its : list (Z * option E)).
Hypothesis Hrep : represents r its.

Lemma slots_lookup j : mjoin (slots r !! j) = snd <$> filled_at its j.
Proof using Hrep.
  rewrite (rep_slots _ _ Hrep), list_lookup_fmap. unfold filled_at, filled.
  destruct (its !! j) as [[t [e|]]|]; done.
Qed.

Lemma range_count_slots rg : range_ok its rg ->
  range_count rg = S (Z.to_nat (last rg - first rg)).
Proof.
  intros [H1 H2 _ _]. unfold range_count, usat_add, checked_add.
  rewrite checked_usize_small by (unfold isize_max; width_lia). lia.
Qed.

Lemma entries_range rg : range_ok its rg ->
  entries r rg = (omap (filled_at its) (range_slots rg)).*2.
Proof using Hrep.
  intros Hrg. unfold entries. rewrite range_count_slots, omap_window by done.
  fold (range_slots rg). rewrite list_fmap_omap.
  apply omap_ext_in. intros j _. apply slots_lookup.
Qed.

Lemma tokens_range rg : range_ok its rg ->
  omap (fun token => pair token <$> entry r rg token) (token_span rg) =
  omap (filled_at its) (range_slots rg).
Proof using Hrep.
  intros Hrg. pose proof Hrg as [Ho Hu Hk Ht].
  unfold token_span, seqZ, range_slots.
  replace (Z.to_nat (last rg - first rg + 1)) with (S (Z.to_nat (last rg - first rg))) by lia.
  rewrite <- (Nat.add_0_r (Z.to_nat (slot rg))), <- fmap_add_seq, !omap_fmap.
  apply omap_ext_in. intros k Hin%elem_of_seq. unfold compose. specialize (Ht k ltac:(lia)).
  rewrite list_lookup_fmap in Ht. apply fmap_Some in Ht as ([t e] & Hit & Et). simpl in Et. subst t.
  unfold entry. rewrite (proj2 (Z.ltb_ge _ _)), (proj2 (Z.ltb_ge _ _)) by lia. cbn [orb].
  replace (Z.to_nat (Z.of_nat k + first rg - first rg)) with k by lia.
  apply lookup_lt_Some in Hit as Hlt.
  assert (checked_add (Z.to_nat (slot rg)) k = Some (Z.to_nat (slot rg) + k)) as ->.
  { unfold checked_add. rewrite checked_usize_small by (unfold isize_max; width_lia). f_equal. lia. }
  cbn [mbind option_bind]. unfold filled_at.
  rewrite (rep_slots _ _ Hrep), list_lookup_fmap, Hit. cbn. destruct e; [|done].
  cbn. do 2 f_equal. lia.
Qed.

Lemma iter_ok : Forall (range_ok its) (iter r).
Proof using Hrep.
  apply Forall_concat, Forall_lookup. intros lib rs Hrs. by apply (rep_ranges _ _ Hrep lib).
Qed.

Lemma iter_slots : iter r ≫= range_slots = seq 0 PHRASE_INDEX_LIBRARY_COUNT ≫= lib_indexes its.
Proof using Hrep.
  unfold iter. rewrite concat_bind, <- (rep_libs _ _ Hrep). apply bind_by_index.
  intros lib rs Hrs. rewrite <- concat_fmap. by apply (rep_ranges _ _ Hrep lib).
Qed.

Lemma iter_slots_filled :
  iter r ≫= (fun rg => omap (filled_at its) (range_slots rg)) = by_library its.
Proof using Hrep.
  rewrite <- omap_bind, iter_slots, omap_bind. unfold by_library.
  apply list_bind_ext; [|done]. intros lib. apply omap_lib_indexes.
Qed.

Lemma walk_tokens_by_library : walk_tokens r = by_library its.
Proof using Hrep.
  rewrite <- iter_slots_filled. apply Forall_bind_ext.
  apply (Forall_impl _ _ _ iter_ok), tokens_range.
Qed.

Lemma walk_by_library : walk r = (by_library its).*2.
Proof using Hrep.
  rewrite <- iter_slots_filled, fmap_bind. apply Forall_bind_ext.
  apply (Forall_impl _ _ _ iter_ok), entries_range.
Qed.

(** Every slot belongs to one range. *)
Lemma iter_slots_nodup : NoDup (iter r ≫= range_slots).
Proof using Hrep.
  rewrite iter_slots. apply NoDup_bind.
  - intros i j k _ _ [Hi _]%list_elem_of_filter [Hj _]%list_elem_of_filter. congruence.
  - intros lib _. apply NoDup_filter, NoDup_seq.
  - apply NoDup_seq.
Qed.
End reading.

(** A taken window leaves the other slots alone. *)
Lemma take_window_lookup (sl : list (option E)) from count j :
  ~ (from <= j < from + count) -> (take_window sl from count).2 !! j = sl !! j.
Proof.
  intros Hj. unfold take_window. simpl.
  destruct (decide (j < from)) as [Hlt|Hge].
  - destruct (decide (j < length sl)) as [Hl|Hl].
    + rewrite lookup_app_l by (rewrite length_take; lia). by apply lookup_take_lt.
    + rewrite !lookup_ge_None_2; [done|lia|].
      rewrite !length_app, length_fmap, !length_take, !length_drop. lia.
  - rewrite drop_drop. destruct (decide (from + count <= length sl)) as [Hl|Hl].
    + rewrite lookup_app_r by (rewrite length_take; lia).
      rewrite lookup_app_r by (rewrite length_fmap, !length_take, length_drop; lia).
      rewrite length_fmap, !length_take, length_drop, lookup_drop. f_equal. lia.
    + rewrite !lookup_ge_None_2; [done|lia|].
      rewrite !length_app, length_fmap, !length_take, !length_drop. lia.
Qed.

Lemma take_ranges_entries its rs (sl : list (option E)) :
  Forall (range_ok its) rs -> NoDup (rs ≫= range_slots) ->
  take_ranges rs sl =
  rs ≫= fun rg => omap (fun j => mjoin (sl !! j)) (range_slots rg).
Proof.
  intros Hok. revert sl. induction Hok as [|rg rs Hrg _ IH]; intros sl Hnd; [done|].
  rewrite bind_cons in Hnd. apply NoDup_app in Hnd as (_ & Hdis & Hnd).
  cbn [take_ranges]. rewrite bind_cons. unfold take_window at 1.
  rewrite (range_count_slots its rg Hrg), omap_window. fold (range_slots rg). f_equal.
  set (n := S (Z.to_nat (last rg - first rg))). 
  rewrite (IH _ Hnd). apply Forall_bind_ext, Forall_forall. intros rg' Hin.
  apply omap_ext_in. intros j Hj.
  change (_ ++ _ ++ _) with (take_window sl (Z.to_nat (slot rg)) n).2.
  rewrite take_window_lookup; [done|]. intros Hr. apply (Hdis j).
  - apply elem_of_seq. unfold n in Hr. lia.
  - apply list_elem_of_bind. by exists rg'.
Qed.

Lemma into_walk_walk r its : represents r its -> into_walk_entries r = walk r.
Proof.
  intros Hrep. unfold into_walk_entries, walk.
  rewrite (take_ranges_entries its) by (eauto using iter_ok, iter_slots_nodup).
  apply Forall_bind_ext, (Forall_impl _ _ _ (iter_ok _ _ Hrep)).
  intros rg Hrg. unfold entries. by rewrite (range_count_slots its), omap_window.
Qed.
End represents.

(** ** Joining two ranges *)

Section append.
Context {E F : Type} (f : F -> E).

Definition map_entry (it : Z * option F) : Z * option E := (it.1, f <$> it.2).

Lemma map_entry_tokens (its : list (Z * option F)) : (map_entry <$> its).*1 = its.*1.
Proof. rewrite <- list_fmap_compose. by apply list_fmap_ext. Qed.

Lemma lib_indexes_app (its : list (Z * option E)) (k : list (Z * option F)) lib :
  lib_indexes (its ++ (map_entry <$> k)) lib =
  lib_indexes its lib ++ (Nat.add (length its) <$> lib_indexes k lib).
Proof.
  induction k as [|[t e] k IH] using rev_ind; [by rewrite !app_nil_r|].
  rewrite fmap_app, app_assoc, list_fmap_singleton. unfold map_entry at 2. cbn [fst snd].
  rewrite !lib_indexes_snoc, IH, fmap_app, <- app_assoc. f_equal. f_equal.
  rewrite length_app, length_fmap. by case_decide.
Qed.

Definition moved (base : Z) (range : PhraseIndexRange) : PhraseIndexRange :=
  {| first := first range; last := last range; slot := Z.min (slot range + base) u32_max |}.

Lemma moved_ok (its : list (Z * option E)) (k : list (Z * option F)) rg :
  (Z.of_nat (length its + length k) <= u32_max)%Z -> range_ok k rg ->
  range_ok (its ++ (map_entry <$> k)) (moved (slot_of (length its)) rg) /\
  range_slots (moved (slot_of (length its)) rg) = Nat.add (length its) <$> range_slots rg.
Proof.
  intros Hlen [Ho Hu Hs Ht]. unfold moved.
  assert (Z.to_nat (slot rg) < length k) as Hlt.
  { specialize (Ht 0 ltac:(lia)). apply lookup_lt_Some in Ht. rewrite length_fmap in Ht. lia. }
  assert (slot_of (length its) = Z.of_nat (length its)) as -> by (unfold slot_of; lia).
  rewrite Z.min_l by (unfold is_u32 in Hs; lia). unfold is_u32 in Hs. split.
  - split; cbn [first last slot]; [done|done|width_lia|].
    intros i Hi. rewrite fmap_app, lookup_app_r, length_fmap by (rewrite length_fmap; lia).
    rewrite map_entry_tokens, <- (Ht i Hi). f_equal. lia.
  - unfold range_slots. cbn [first last slot]. rewrite fmap_add_seq. f_equal. lia.
Qed.

Lemma append_represents r o (its : list (Z * option E)) (k : list (Z * option F)) :
  (Z.of_nat (length its + length k) <= u32_max)%Z ->
  represents r its -> represents o k ->
  represents (append_from r o f).1 (its ++ (map_entry <$> k)).
Proof.
  intros Hlen [Hs Hn Hr] [Hs' Hn' Hr'].
  assert (length (slots r) = length its) as Hl by (by rewrite Hs, length_fmap).
  split; simpl.
  - rewrite Hs, Hs', fmap_app. f_equal. by rewrite <- !list_fmap_compose.
  - rewrite length_zip_with, Hn, Hn'. done.
  - intros lib rs (ours & theirs & -> & Ho & Ht)%lookup_zip_with_Some.
    destruct (Hr lib ours Ho) as [Hok Hc], (Hr' lib theirs Ht) as [Hok' Hc'].
    fold (moved (slot_of (length (slots r)))). rewrite Hl. split.
    + apply Forall_app. split.
      * apply (Forall_impl _ _ _ Hok). intros rg. apply range_ok_app.
      * apply Forall_fmap, (Forall_impl _ _ _ Hok'). intros rg Hrg. by apply moved_ok.
    + rewrite fmap_app, concat_app, lib_indexes_app, Hc, <- Hc'. f_equal.
      rewrite !concat_fmap, list_fmap_bind, fmap_bind. apply Forall_bind_ext.
      apply (Forall_impl _ _ _ Hok'). intros rg Hrg. by destruct (moved_ok its k rg).
Qed.
End append.

Lemma converts_represents {E} (calls : list (list (Z * option E))) r its :
  Forall (fun it => is_u32 it.1) (concat calls) ->
  (Z.of_nat (length its + length (concat calls)) <= u32_max)%Z ->
  represents r its -> represents (fold_left convert calls r) (its ++ concat calls).
Proof.
  revert r its. induction calls as [|items calls IH]; intros r its Hu Hlen Hr.
  { by rewrite app_nil_r. }
  cbn [concat fold_left] in *. rewrite length_app in Hlen. apply Forall_app in Hu as [Hu1 Hu2].
  rewrite app_assoc. apply IH; [done|rewrite length_app; lia|].
  apply convert_represents; [done|lia|done].
Qed.

(** ** C4 *)

(** C4. However the search calls cut the matched items into ranges, and
    after another search's ranges are appended, the walk meets every filled
    item exactly once with its own entry: library by library, and inside a
    library in the order the items were matched. [walk] and the moved-out
    [into_walk_entries] are that walk without its tokens, and the appended
    ranges are left empty. *)
Theorem ranges_walk {E F} (calls : list (list (Z * option E)))
    (others : list (list (Z * option F))) (f : F -> E)
    (Hcalls : Forall (fun it => is_u32 it.1) (concat calls))
    (Hothers : Forall (fun it => is_u32 it.1) (concat others))
    (Hlen : (Z.of_nat (length (concat calls) + length (concat others)) <= u32_max)%Z) :
  let r := append_from (fold_left convert calls new_ranges)
             (fold_left convert others new_ranges) f in
  let its := concat calls ++ (map_entry f <$> concat others) in
  walk_tokens r.1 = by_library its /\
  walk r.1 = (by_library its).*2 /\
  into_walk_entries r.1 = walk r.1 /\
  walk_tokens r.2 = [].
Proof.
  intros r its.
  assert (represents r.1 its) as Hr.
  { apply append_represents; [done|apply (converts_represents _ _ [])..];
      try apply represents_new; simpl; try done; lia. }
  split_and!.
  - by apply walk_tokens_by_library.
  - by apply walk_by_library.
  - by apply (into_walk_walk _ its).
  - unfold walk_tokens, iter, r. simpl.
    induction (libraries (fold_left convert others new_ranges)); [done|]. done.
Qed.

Definition sample_calls : list (list (Z * option nat)) :=
  [[(33554433%Z, Some 10); (33554434%Z, None); (16777217%Z, Some 11)];
   [(33554435%Z, Some 12)]].
Definition sample_others : list (list (Z * option nat)) := [[(16777218%Z, Some 5)]].

Lemma ranges_walk_witness :
  let r := append_from (fold_left convert sample_calls new_ranges)
             (fold_left convert sample_others new_ranges) (Nat.add 20) in
  walk_tokens r.1 =
    [(16777217%Z, 11); (16777218%Z, 25); (33554433%Z, 10); (33554435%Z, 12)] /\
  length (iter r.1) = 4.
Proof.
  split; [|vm_compute; reflexivity].
  refine (eq_trans (proj1 (ranges_walk sample_calls sample_others (Nat.add 20) _ _ _)) _).
  - repeat (apply Forall_cons; split; [simpl; width_lia|]). by apply Forall_nil.
  - repeat (apply Forall_cons; split; [simpl; width_lia|]). by apply Forall_nil.
  - simpl; width_lia.
  - vm_compute. reflexivity.
Defined.
