(* ===== verification/Options.v ===== *)
(** * Options: the parser and decoder option word

    [crates/oxpinyin-core/src/options.rs]: the bit values of libpinyin's
    option enumerators and the [OptionBits] set over one [u32]. *)

From Stdlib Require Import ZArith Lia Bool.
From stdpp Require Import base list.
From S2P Require Import Prelude.

Definition PINYIN_INCOMPLETE : Z := Z.shiftl 1 3.
Definition ZHUYIN_INCOMPLETE : Z := Z.shiftl 1 4.
Definition USE_TONE : Z := Z.shiftl 1 5.
Definition FORCE_TONE : Z := Z.shiftl 1 6.
Definition USE_DIVIDED_TABLE : Z := Z.shiftl 1 7.
Definition USE_RESPLIT_TABLE : Z := Z.shiftl 1 8.
Definition DYNAMIC_ADJUST : Z := Z.shiftl 1 9.
Definition PINYIN_AMB_C_CH : Z := Z.shiftl 1 10.
Definition PINYIN_AMB_S_SH : Z := Z.shiftl 1 11.
Definition PINYIN_AMB_Z_ZH : Z := Z.shiftl 1 12.
Definition PINYIN_AMB_F_H : Z := Z.shiftl 1 13.
Definition PINYIN_AMB_G_K : Z := Z.shiftl 1 14.
Definition PINYIN_AMB_L_N : Z := Z.shiftl 1 15.
Definition PINYIN_AMB_L_R : Z := Z.shiftl 1 16.
Definition PINYIN_AMB_AN_ANG : Z := Z.shiftl 1 17.
Definition PINYIN_AMB_EN_ENG : Z := Z.shiftl 1 18.
Definition PINYIN_AMB_IN_ING : Z := Z.shiftl 1 19.
Definition PINYIN_AMB_ALL : Z := Z.shiftl 1023 10.
Definition PINYIN_CORRECT_GN_NG : Z := Z.shiftl 1 21.
Definition PINYIN_CORRECT_MG_NG : Z := Z.shiftl 1 22.
Definition PINYIN_CORRECT_IOU_IU : Z := Z.shiftl 1 23.
Definition PINYIN_CORRECT_UEI_UI : Z := Z.shiftl 1 24.
Definition PINYIN_CORRECT_UEN_UN : Z := Z.shiftl 1 25.
Definition PINYIN_CORRECT_UE_VE : Z := Z.shiftl 1 26.
Definition PINYIN_CORRECT_V_U : Z := Z.shiftl 1 27.
Definition PINYIN_CORRECT_ON_ONG : Z := Z.shiftl 1 28.
Definition PINYIN_CORRECT_ALL : Z := Z.shiftl 255 21.
Definition ZHUYIN_CORRECT_HSU : Z := Z.shiftl 1 29.
Definition ZHUYIN_CORRECT_ETEN26 : Z := Z.shiftl 1 30.
Definition ZHUYIN_CORRECT_SHUFFLE : Z := Z.shiftl 1 31.
Definition ZHUYIN_CORRECT_ALL : Z := Z.shiftl 7 29.

(** A set of option bits: one [u32]. *)
Definition OptionBits : Type := Z.

Definition OptionBits_default : OptionBits := 0%Z.
Definition from_bits (bits : Z) : OptionBits := bits.
Definition bits (o : OptionBits) : Z := o.

Definition contains (o : OptionBits) (bit : Z) : bool := negb (Z.land o bit =? 0)%Z.

Definition has_incomplete (o : OptionBits) : bool := contains o PINYIN_INCOMPLETE.
Definition has_divided_table (o : OptionBits) : bool := contains o USE_DIVIDED_TABLE.
Definition has_resplit_table (o : OptionBits) : bool := contains o USE_RESPLIT_TABLE.
Definition has_dynamic_adjust (o : OptionBits) : bool := contains o DYNAMIC_ADJUST.
Definition has_force_tone (o : OptionBits) : bool := contains o FORCE_TONE.

(** [with]: [self.0 | bit] or [self.0 & !bit]. *)
Definition with_bit (o : OptionBits) (bit : Z) (enabled : bool) : OptionBits :=
  if enabled then Z.lor o bit else Z.land o (Z.lxor bit u32_max).

Lemma contains_zero o : contains o 0 = false.
Proof. unfold contains. by rewrite Z.land_0_r. Qed.

Lemma contains_lor o a b : contains o (Z.lor a b) = contains o a || contains o b.
Proof.
  unfold contains. rewrite Z.land_lor_distr_r.
  destruct (Z.eqb_spec (Z.land o a) 0) as [->|Ha]; destruct (Z.eqb_spec (Z.land o b) 0) as [->|Hb]; simpl.
  - done.
  - rewrite Z.lor_0_l. by rewrite (proj2 (Z.eqb_neq _ _)).
  - rewrite Z.lor_0_r. by rewrite (proj2 (Z.eqb_neq _ _)).
  - apply negb_true_iff, Z.eqb_neq. intros [? _]%Z.lor_eq_0_iff. done.
Qed.

(** Dropping a mask leaves the bits outside it. *)
Lemma contains_ldiff options mask bit :
  Z.land mask bit = 0%Z -> contains (Z.ldiff options mask) bit = contains options bit.
Proof.
  intros Hm. unfold contains. f_equal. f_equal. apply Z.bits_inj'. intros n Hn.
  rewrite !Z.land_spec, Z.ldiff_spec. apply (f_equal (fun z => Z.testbit z n)) in Hm.
  rewrite Z.land_spec, Z.bits_0 in Hm. destruct (Z.testbit options n), (Z.testbit mask n), (Z.testbit bit n); done.
Qed.
