(* ===== verification/SyllableData.v ===== *)
(** * SyllableData: the frozen syllable inventory

    The tables of [crates/oxpinyin-core/src/table_data/full_pinyin_syllables.rs]
    and [syllable_inventory.rs], spelling by spelling in their stored order. *)

From Stdlib Require Import String Strings.Byte.
From stdpp Require Import base list.
From S2P Require Import Prelude.

Definition FULL_PINYIN_SYLLABLE_COUNT : nat := 405.
Definition MAX_SYLLABLE_LEN : nat := 6.
Definition INCOMPLETE_PINYIN_KEY_COUNT : nat := 23.
Definition OPTION_ONLY_COMPLETE_SYLLABLE_COUNT : nat := 2.
Definition ZHUYIN_ONLY_COMPLETE_SYLLABLE_COUNT : nat := 10.

Definition FULL_PINYIN_SYLLABLES : list bytes := Eval vm_compute in map str [
   "a"; "ai"; "an"; "ang"; "ao"; "ba"; "bai"; "ban"; "bang"; "bao"; "bei"; "ben";
   "beng"; "bi"; "bian"; "biao"; "bie"; "bin"; "bing"; "bo"; "bu"; "ca"; "cai"; "can";
   "cang"; "cao"; "ce"; "cen"; "ceng"; "ci"; "cong"; "cou"; "cu"; "cuan"; "cui"; "cun";
   "cuo"; "cha"; "chai"; "chan"; "chang"; "chao"; "che"; "chen"; "cheng"; "chi";
   "chong"; "chou"; "chu"; "chuai"; "chuan"; "chuang"; "chui"; "chun"; "chuo"; "da";
   "dai"; "dan"; "dang"; "dao"; "de"; "dei"; "deng"; "di"; "dia"; "dian"; "diao"; "die";
   "ding"; "diu"; "dong"; "dou"; "du"; "duan"; "dui"; "dun"; "duo"; "e"; "ei"; "en";
   "er"; "fa"; "fan"; "fang"; "fei"; "fen"; "feng"; "fo"; "fou"; "fu"; "ga"; "gai";
   "gan"; "gang"; "gao"; "ge"; "gei"; "gen"; "geng"; "gong"; "gou"; "gu"; "gua"; "guai";
   "guan"; "guang"; "gui"; "gun"; "guo"; "ha"; "hai"; "han"; "hang"; "hao"; "he"; "hei";
   "hen"; "heng"; "hong"; "hou"; "hu"; "hua"; "huai"; "huan"; "huang"; "hui"; "hun";
   "huo"; "ji"; "jia"; "jian"; "jiang"; "jiao"; "jie"; "jin"; "jing"; "jiong"; "jiu";
   "ju"; "juan"; "jue"; "jun"; "ka"; "kai"; "kan"; "kang"; "kao"; "ke"; "ken"; "keng";
   "kong"; "kou"; "ku"; "kua"; "kuai"; "kuan"; "kuang"; "kui"; "kun"; "kuo"; "la";
   "lai"; "lan"; "lang"; "lao"; "le"; "lei"; "leng"; "li"; "lia"; "lian"; "liang";
   "liao"; "lie"; "lin"; "ling"; "liu"; "lo"; "long"; "lou"; "lu"; "luan"; "lun"; "luo";
   "lv"; "lve"; "ma"; "mai"; "man"; "mang"; "mao"; "me"; "mei"; "men"; "meng"; "mi";
   "mian"; "miao"; "mie"; "min"; "ming"; "miu"; "mo"; "mou"; "mu"; "na"; "nai"; "nan";
   "nang"; "nao"; "ne"; "nei"; "nen"; "neng"; "ni"; "nian"; "niang"; "niao"; "nie";
   "nin"; "ning"; "niu"; "ng"; "nong"; "nou"; "nu"; "nuan"; "nuo"; "nv"; "nve"; "o";
   "ou"; "pa"; "pai"; "pan"; "pang"; "pao"; "pei"; "pen"; "peng"; "pi"; "pian"; "piao";
   "pie"; "pin"; "ping"; "po"; "pou"; "pu"; "qi"; "qia"; "qian"; "qiang"; "qiao"; "qie";
   "qin"; "qing"; "qiong"; "qiu"; "qu"; "quan"; "que"; "qun"; "ran"; "rang"; "rao";
   "re"; "ren"; "reng"; "ri"; "rong"; "rou"; "ru"; "ruan"; "rui"; "run"; "ruo"; "sa";
   "sai"; "san"; "sang"; "sao"; "se"; "sen"; "seng"; "si"; "song"; "sou"; "su"; "suan";
   "sui"; "sun"; "suo"; "sha"; "shai"; "shan"; "shang"; "shao"; "she"; "shei"; "shen";
   "sheng"; "shi"; "shou"; "shu"; "shua"; "shuai"; "shuan"; "shuang"; "shui"; "shun";
   "shuo"; "ta"; "tai"; "tan"; "tang"; "tao"; "te"; "teng"; "ti"; "tian"; "tiao"; "tie";
   "ting"; "tong"; "tou"; "tu"; "tuan"; "tui"; "tun"; "tuo"; "wa"; "wai"; "wan"; "wang";
   "wei"; "wen"; "weng"; "wo"; "wu"; "xi"; "xia"; "xian"; "xiang"; "xiao"; "xie"; "xin";
   "xing"; "xiong"; "xiu"; "xu"; "xuan"; "xue"; "xun"; "ya"; "yan"; "yang"; "yao"; "ye";
   "yi"; "yin"; "ying"; "yo"; "yong"; "you"; "yu"; "yuan"; "yue"; "yun"; "za"; "zai";
   "zan"; "zang"; "zao"; "ze"; "zei"; "zen"; "zeng"; "zi"; "zong"; "zou"; "zu"; "zuan";
   "zui"; "zun"; "zuo"; "zha"; "zhai"; "zhan"; "zhang"; "zhao"; "zhe"; "zhen"; "zheng";
   "zhi"; "zhong"; "zhou"; "zhu"; "zhua"; "zhuai"; "zhuan"; "zhuang"; "zhui"; "zhun";
   "zhuo"]%string.

Definition INCOMPLETE_PINYIN_KEYS : list bytes := Eval vm_compute in map str [
   "b"; "c"; "ch"; "d"; "f"; "g"; "h"; "j"; "k"; "l"; "m"; "n"; "p"; "q"; "r"; "s";
   "sh"; "t"; "w"; "x"; "y"; "z"; "zh"]%string.

Definition OPTION_ONLY_COMPLETE_SYLLABLES : list bytes := Eval vm_compute in map str [
   "eng"; "nun"]%string.

Definition ZHUYIN_ONLY_COMPLETE_SYLLABLES : list bytes := Eval vm_compute in map str [
   "chua"; "den"; "din"; "fe"; "kei"; "len"; "nia"; "rua"; "yai"; "zhei"]%string.
