(* ===== verification/ContentData.v ===== *)
(** * ContentData: the content rows and the key table

    [crates/oxpinyin-chewing/src/content_table_source.rs] and
    [chewing_key_tables.rs], row by row in their stored order. *)

From Stdlib Require Import ZArith String Strings.Byte.
From stdpp Require Import base list.
From S2P Require Import Prelude.

(** One content row: its six display strings and its key's components. *)
Record ContentItem : Type := content_item {
  pinyin : bytes;
  shengmu : bytes;
  yunmu : bytes;
  zhuyin : bytes;
  luoma : bytes;
  secondary : bytes;
  initial : Z;
  middle : Z;
  final_ : Z
}.

Definition item (p s y z l c : string) (i m f : Z) : ContentItem :=
  content_item (str p) (str s) (str y) (str z) (str l) (str c) i m f.

Definition CONTENT_TABLE : list ContentItem := Eval vm_compute in [
   item "" "" "" "" "" "" 0 0 0;
   item "a" "" "a" "ㄚ" "a" "a" 0 0 1;
   item "ai" "" "ai" "ㄞ" "ai" "ai" 0 0 2;
   item "an" "" "an" "ㄢ" "an" "an" 0 0 3;
   item "ang" "" "ang" "ㄤ" "ang" "ang" 0 0 4;
   item "ao" "" "ao" "ㄠ" "ao" "au" 0 0 5;
   item "b" "b" "" "ㄅ" "None" "None" 1 0 0;
   item "ba" "b" "a" "ㄅㄚ" "ba" "ba" 1 0 1;
   item "bai" "b" "ai" "ㄅㄞ" "bai" "bai" 1 0 2;
   item "ban" "b" "an" "ㄅㄢ" "ban" "ban" 1 0 3;
   item "bang" "b" "ang" "ㄅㄤ" "bang" "bang" 1 0 4;
   item "bao" "b" "ao" "ㄅㄠ" "bao" "bau" 1 0 5;
   item "bei" "b" "ei" "ㄅㄟ" "bei" "bei" 1 0 8;
   item "ben" "b" "en" "ㄅㄣ" "ben" "ben" 1 0 9;
   item "beng" "b" "eng" "ㄅㄥ" "beng" "beng" 1 0 10;
   item "bi" "b" "i" "ㄅㄧ" "bi" "bi" 1 1 0;
   item "bian" "b" "ian" "ㄅㄧㄢ" "bian" "bian" 1 1 3;
   item "biao" "b" "iao" "ㄅㄧㄠ" "biao" "biau" 1 1 5;
   item "bie" "b" "ie" "ㄅㄧㄝ" "bieh" "bie" 1 1 6;
   item "bin" "b" "in" "ㄅㄧㄣ" "bin" "bin" 1 0 16;
   item "bing" "b" "ing" "ㄅㄧㄥ" "bing" "bing" 1 0 17;
   item "bo" "b" "o" "ㄅㄛ" "bo" "bo" 1 0 13;
   item "bu" "b" "u" "ㄅㄨ" "bu" "bu" 1 2 0;
   item "c" "c" "" "ㄘ" "tsih" "tsz" 2 0 0;
   item "ca" "c" "a" "ㄘㄚ" "tsa" "tsa" 2 0 1;
   item "cai" "c" "ai" "ㄘㄞ" "tsai" "tsai" 2 0 2;
   item "can" "c" "an" "ㄘㄢ" "tsan" "tsan" 2 0 3;
   item "cang" "c" "ang" "ㄘㄤ" "tsang" "tsang" 2 0 4;
   item "cao" "c" "ao" "ㄘㄠ" "tsao" "tsau" 2 0 5;
   item "ce" "c" "e" "ㄘㄜ" "tse" "tse" 2 0 6;
   item "cen" "c" "en" "ㄘㄣ" "tsen" "tsen" 2 0 9;
   item "ceng" "c" "eng" "ㄘㄥ" "tseng" "tseng" 2 0 10;
   item "ch" "ch" "" "ㄔ" "chih" "chr" 3 0 0;
   item "cha" "ch" "a" "ㄔㄚ" "cha" "cha" 3 0 1;
   item "chai" "ch" "ai" "ㄔㄞ" "chai" "chai" 3 0 2;
   item "chan" "ch" "an" "ㄔㄢ" "chan" "chan" 3 0 3;
   item "chang" "ch" "ang" "ㄔㄤ" "chang" "chang" 3 0 4;
   item "chao" "ch" "ao" "ㄔㄠ" "chao" "chau" 3 0 5;
   item "che" "ch" "e" "ㄔㄜ" "che" "che" 3 0 6;
   item "chen" "ch" "en" "ㄔㄣ" "chen" "chen" 3 0 9;
   item "cheng" "ch" "eng" "ㄔㄥ" "cheng" "cheng" 3 0 10;
   item "chi" "ch" "i" "ㄔ" "chih" "chr" 3 1 0;
   item "chong" "ch" "ong" "ㄔㄨㄥ" "chong" "chung" 3 0 14;
   item "chou" "ch" "ou" "ㄔㄡ" "chou" "chou" 3 0 15;
   item "chu" "ch" "u" "ㄔㄨ" "chu" "chu" 3 2 0;
   item "chua" "ch" "ua" "ㄔㄨㄚ" "None" "None" 3 2 1;
   item "chuai" "ch" "uai" "ㄔㄨㄞ" "chuai" "chuai" 3 2 2;
   item "chuan" "ch" "uan" "ㄔㄨㄢ" "chuan" "chuan" 3 2 3;
   item "chuang" "ch" "uang" "ㄔㄨㄤ" "chuang" "chuang" 3 2 4;
   item "chui" "ch" "ui" "ㄔㄨㄟ" "chuei" "chuei" 3 2 8;
   item "chun" "ch" "un" "ㄔㄨㄣ" "chun" "chuen" 3 2 9;
   item "chuo" "ch" "uo" "ㄔㄨㄛ" "chuo" "chuo" 3 2 13;
   item "ci" "c" "i" "ㄘ" "tsih" "tsz" 2 1 0;
   item "cong" "c" "ong" "ㄘㄨㄥ" "tsong" "tsung" 2 0 14;
   item "cou" "c" "ou" "ㄘㄡ" "tsou" "tsou" 2 0 15;
   item "cu" "c" "u" "ㄘㄨ" "tsu" "tsu" 2 2 0;
   item "cuan" "c" "uan" "ㄘㄨㄢ" "tsuan" "tsuan" 2 2 3;
   item "cui" "c" "ui" "ㄘㄨㄟ" "tsuei" "tsuei" 2 2 8;
   item "cun" "c" "un" "ㄘㄨㄣ" "tsun" "tsun" 2 2 9;
   item "cuo" "c" "uo" "ㄘㄨㄛ" "tsuo" "tsuo" 2 2 13;
   item "d" "d" "" "ㄉ" "None" "None" 4 0 0;
   item "da" "d" "a" "ㄉㄚ" "da" "da" 4 0 1;
   item "dai" "d" "ai" "ㄉㄞ" "dai" "dai" 4 0 2;
   item "dan" "d" "an" "ㄉㄢ" "dan" "dan" 4 0 3;
   item "dang" "d" "ang" "ㄉㄤ" "dang" "dang" 4 0 4;
   item "dao" "d" "ao" "ㄉㄠ" "dao" "dau" 4 0 5;
   item "de" "d" "e" "ㄉㄜ" "de" "de" 4 0 6;
   item "dei" "d" "ei" "ㄉㄟ" "dei" "dei" 4 0 8;
   item "den" "d" "en" "ㄉㄣ" "None" "None" 4 0 9;
   item "deng" "d" "eng" "ㄉㄥ" "deng" "deng" 4 0 10;
   item "di" "d" "i" "ㄉㄧ" "di" "di" 4 1 0;
   item "dia" "d" "ia" "ㄉㄧㄚ" "None" "None" 4 1 1;
   item "dian" "d" "ian" "ㄉㄧㄢ" "dian" "dian" 4 1 3;
   item "diao" "d" "iao" "ㄉㄧㄠ" "diao" "diau" 4 1 5;
   item "die" "d" "ie" "ㄉㄧㄝ" "dieh" "die" 4 1 6;
   item "din" "d" "in" "ㄉㄧㄣ" "None" "None" 4 0 16;
   item "ding" "d" "ing" "ㄉㄧㄥ" "ding" "ding" 4 0 17;
   item "diu" "d" "iu" "ㄉㄧㄡ" "diou" "diou" 4 1 15;
   item "dong" "d" "ong" "ㄉㄨㄥ" "dong" "dung" 4 0 14;
   item "dou" "d" "ou" "ㄉㄡ" "dou" "dou" 4 0 15;
   item "du" "d" "u" "ㄉㄨ" "du" "du" 4 2 0;
   item "duan" "d" "uan" "ㄉㄨㄢ" "duan" "duan" 4 2 3;
   item "dui" "d" "ui" "ㄉㄨㄟ" "duei" "duei" 4 2 8;
   item "dun" "d" "un" "ㄉㄨㄣ" "dun" "duen" 4 2 9;
   item "duo" "d" "uo" "ㄉㄨㄛ" "duo" "duo" 4 2 13;
   item "e" "" "e" "ㄜ" "e" "e" 0 0 6;
   item "ei" "" "ei" "ㄟ" "ei" "ei" 0 0 8;
   item "en" "" "en" "ㄣ" "en" "en" 0 0 9;
   item "eng" "" "eng" "ㄥ" "eng" "eng" 0 0 10;
   item "er" "" "er" "ㄦ" "er" "er" 0 0 11;
   item "f" "f" "" "ㄈ" "None" "None" 5 0 0;
   item "fa" "f" "a" "ㄈㄚ" "fa" "fa" 5 0 1;
   item "fan" "f" "an" "ㄈㄢ" "fan" "fan" 5 0 3;
   item "fang" "f" "ang" "ㄈㄤ" "fang" "fang" 5 0 4;
   item "fe" "f" "e" "ㄈㄜ" "None" "None" 5 0 6;
   item "fei" "f" "ei" "ㄈㄟ" "fei" "fei" 5 0 8;
   item "fen" "f" "en" "ㄈㄣ" "fen" "fen" 5 0 9;
   item "feng" "f" "eng" "ㄈㄥ" "None" "None" 5 0 10;
   item "fo" "f" "o" "ㄈㄛ" "fo" "fo" 5 0 13;
   item "fou" "f" "ou" "ㄈㄡ" "fou" "fou" 5 0 15;
   item "fu" "f" "u" "ㄈㄨ" "fu" "fu" 5 2 0;
   item "g" "g" "" "ㄍ" "None" "None" 7 0 0;
   item "ga" "g" "a" "ㄍㄚ" "ga" "ga" 7 0 1;
   item "gai" "g" "ai" "ㄍㄞ" "gai" "gai" 7 0 2;
   item "gan" "g" "an" "ㄍㄢ" "gan" "gan" 7 0 3;
   item "gang" "g" "ang" "ㄍㄤ" "gang" "gang" 7 0 4;
   item "gao" "g" "ao" "ㄍㄠ" "gao" "gau" 7 0 5;
   item "ge" "g" "e" "ㄍㄜ" "ge" "ge" 7 0 6;
   item "gei" "g" "ei" "ㄍㄟ" "gei" "gei" 7 0 8;
   item "gen" "g" "en" "ㄍㄣ" "gen" "gen" 7 0 9;
   item "geng" "g" "eng" "ㄍㄥ" "geng" "geng" 7 0 10;
   item "gong" "g" "ong" "ㄍㄨㄥ" "gong" "gung" 7 0 14;
   item "gou" "g" "ou" "ㄍㄡ" "gou" "gou" 7 0 15;
   item "gu" "g" "u" "ㄍㄨ" "gu" "gu" 7 2 0;
   item "gua" "g" "ua" "ㄍㄨㄚ" "gua" "gua" 7 2 1;
   item "guai" "g" "uai" "ㄍㄨㄞ" "guai" "guai" 7 2 2;
   item "guan" "g" "uan" "ㄍㄨㄢ" "guan" "guan" 7 2 3;
   item "guang" "g" "uang" "ㄍㄨㄤ" "guang" "guang" 7 2 4;
   item "gui" "g" "ui" "ㄍㄨㄟ" "guei" "guei" 7 2 8;
   item "gun" "g" "un" "ㄍㄨㄣ" "gun" "guen" 7 2 9;
   item "guo" "g" "uo" "ㄍㄨㄛ" "guo" "guo" 7 2 13;
   item "h" "h" "" "ㄏ" "None" "None" 6 0 0;
   item "ha" "h" "a" "ㄏㄚ" "ha" "ha" 6 0 1;
   item "hai" "h" "ai" "ㄏㄞ" "hai" "hai" 6 0 2;
   item "han" "h" "an" "ㄏㄢ" "han" "han" 6 0 3;
   item "hang" "h" "ang" "ㄏㄤ" "hang" "hang" 6 0 4;
   item "hao" "h" "ao" "ㄏㄠ" "hao" "hau" 6 0 5;
   item "he" "h" "e" "ㄏㄜ" "he" "he" 6 0 6;
   item "hei" "h" "ei" "ㄏㄟ" "hei" "hei" 6 0 8;
   item "hen" "h" "en" "ㄏㄣ" "hen" "hen" 6 0 9;
   item "heng" "h" "eng" "ㄏㄥ" "heng" "heng" 6 0 10;
   item "hong" "h" "ong" "ㄏㄨㄥ" "hong" "hung" 6 0 14;
   item "hou" "h" "ou" "ㄏㄡ" "hou" "hou" 6 0 15;
   item "hu" "h" "u" "ㄏㄨ" "hu" "hu" 6 2 0;
   item "hua" "h" "ua" "ㄏㄨㄚ" "hua" "hua" 6 2 1;
   item "huai" "h" "uai" "ㄏㄨㄞ" "huai" "huai" 6 2 2;
   item "huan" "h" "uan" "ㄏㄨㄢ" "huan" "huan" 6 2 3;
   item "huang" "h" "uang" "ㄏㄨㄤ" "huang" "huang" 6 2 4;
   item "hui" "h" "ui" "ㄏㄨㄟ" "huei" "huei" 6 2 8;
   item "hun" "h" "un" "ㄏㄨㄣ" "hun" "huen" 6 2 9;
   item "huo" "h" "uo" "ㄏㄨㄛ" "huo" "huo" 6 2 13;
   item "j" "j" "" "ㄐ" "None" "None" 9 0 0;
   item "ji" "j" "i" "ㄐㄧ" "ji" "ji" 9 1 0;
   item "jia" "j" "ia" "ㄐㄧㄚ" "jia" "jia" 9 1 1;
   item "jian" "j" "ian" "ㄐㄧㄢ" "jian" "jian" 9 1 3;
   item "jiang" "j" "iang" "ㄐㄧㄤ" "jiang" "jiang" 9 1 4;
   item "jiao" "j" "iao" "ㄐㄧㄠ" "jiao" "jiau" 9 1 5;
   item "jie" "j" "ie" "ㄐㄧㄝ" "jieh" "jie" 9 1 6;
   item "jin" "j" "in" "ㄐㄧㄣ" "jin" "jin" 9 0 16;
   item "jing" "j" "ing" "ㄐㄧㄥ" "jing" "jing" 9 0 17;
   item "jiong" "j" "iong" "ㄐㄩㄥ" "jyong" "jiung" 9 1 14;
   item "jiu" "j" "iu" "ㄐㄧㄡ" "jiou" "jiou" 9 1 15;
   item "ju" "j" "u" "ㄐㄩ" "jyu" "jiu" 9 3 0;
   item "juan" "j" "uan" "ㄐㄩㄢ" "jyuan" "jiuan" 9 3 3;
   item "jue" "j" "ue" "ㄐㄩㄝ" "jyueh" "jiue" 9 3 6;
   item "jun" "j" "un" "ㄐㄩㄣ" "jyun" "jiun" 9 3 9;
   item "k" "k" "" "ㄎ" "None" "None" 8 0 0;
   item "ka" "k" "a" "ㄎㄚ" "ka" "ka" 8 0 1;
   item "kai" "k" "ai" "ㄎㄞ" "kai" "kai" 8 0 2;
   item "kan" "k" "an" "ㄎㄢ" "kan" "kan" 8 0 3;
   item "kang" "k" "ang" "ㄎㄤ" "kang" "kang" 8 0 4;
   item "kao" "k" "ao" "ㄎㄠ" "kao" "kau" 8 0 5;
   item "ke" "k" "e" "ㄎㄜ" "ke" "ke" 8 0 6;
   item "kei" "k" "ei" "ㄎㄟ" "None" "None" 8 0 8;
   item "ken" "k" "en" "ㄎㄣ" "ken" "ken" 8 0 9;
   item "keng" "k" "eng" "ㄎㄥ" "keng" "keng" 8 0 10;
   item "kong" "k" "ong" "ㄎㄨㄥ" "kong" "kung" 8 0 14;
   item "kou" "k" "ou" "ㄎㄡ" "kou" "kou" 8 0 15;
   item "ku" "k" "u" "ㄎㄨ" "ku" "ku" 8 2 0;
   item "kua" "k" "ua" "ㄎㄨㄚ" "kua" "kua" 8 2 1;
   item "kuai" "k" "uai" "ㄎㄨㄞ" "kuai" "kuai" 8 2 2;
   item "kuan" "k" "uan" "ㄎㄨㄢ" "kuan" "kuan" 8 2 3;
   item "kuang" "k" "uang" "ㄎㄨㄤ" "kuang" "kuang" 8 2 4;
   item "kui" "k" "ui" "ㄎㄨㄟ" "kuei" "kuei" 8 2 8;
   item "kun" "k" "un" "ㄎㄨㄣ" "kun" "kuen" 8 2 9;
   item "kuo" "k" "uo" "ㄎㄨㄛ" "kuo" "kuo" 8 2 13;
   item "l" "l" "" "ㄌ" "None" "None" 12 0 0;
   item "la" "l" "a" "ㄌㄚ" "la" "la" 12 0 1;
   item "lai" "l" "ai" "ㄌㄞ" "lai" "lai" 12 0 2;
   item "lan" "l" "an" "ㄌㄢ" "lan" "lan" 12 0 3;
   item "lang" "l" "ang" "ㄌㄤ" "lang" "lang" 12 0 4;
   item "lao" "l" "ao" "ㄌㄠ" "lao" "lau" 12 0 5;
   item "le" "l" "e" "ㄌㄜ" "le" "le" 12 0 6;
   item "lei" "l" "ei" "ㄌㄟ" "lei" "lei" 12 0 8;
   item "len" "l" "en" "ㄌㄣ" "None" "None" 12 0 9;
   item "leng" "l" "eng" "ㄌㄥ" "leng" "leng" 12 0 10;
   item "li" "l" "i" "ㄌㄧ" "li" "li" 12 1 0;
   item "lia" "l" "ia" "ㄌㄧㄚ" "lia" "lia" 12 1 1;
   item "lian" "l" "ian" "ㄌㄧㄢ" "lian" "lian" 12 1 3;
   item "liang" "l" "iang" "ㄌㄧㄤ" "liang" "liang" 12 1 4;
   item "liao" "l" "iao" "ㄌㄧㄠ" "liao" "liau" 12 1 5;
   item "lie" "l" "ie" "ㄌㄧㄝ" "lieh" "lie" 12 1 6;
   item "lin" "l" "in" "ㄌㄧㄣ" "lin" "lin" 12 0 16;
   item "ling" "l" "ing" "ㄌㄧㄥ" "ling" "ling" 12 0 17;
   item "liu" "l" "iu" "ㄌㄧㄡ" "liou" "liou" 12 1 15;
   item "lo" "l" "o" "ㄌㄛ" "lo" "lo" 12 0 13;
   item "long" "l" "ong" "ㄌㄨㄥ" "long" "lung" 12 0 14;
   item "lou" "l" "ou" "ㄌㄡ" "lou" "lou" 12 0 15;
   item "lu" "l" "u" "ㄌㄨ" "lu" "lu" 12 2 0;
   item "luan" "l" "uan" "ㄌㄨㄢ" "luan" "luan" 12 2 3;
   item "lun" "l" "un" "ㄌㄨㄣ" "lun" "luen" 12 2 9;
   item "luo" "l" "uo" "ㄌㄨㄛ" "luo" "luo" 12 2 13;
   item "lv" "l" "v" "ㄌㄩ" "lyu" "liu" 12 3 0;
   item "lve" "l" "ve" "ㄌㄩㄝ" "lyueh" "liue" 12 3 6;
   item "m" "m" "" "ㄇ" "None" "None" 10 0 0;
   item "ma" "m" "a" "ㄇㄚ" "ma" "ma" 10 0 1;
   item "mai" "m" "ai" "ㄇㄞ" "mai" "mai" 10 0 2;
   item "man" "m" "an" "ㄇㄢ" "man" "man" 10 0 3;
   item "mang" "m" "ang" "ㄇㄤ" "mang" "mang" 10 0 4;
   item "mao" "m" "ao" "ㄇㄠ" "mao" "mau" 10 0 5;
   item "me" "m" "e" "ㄇㄜ" "me" "me" 10 0 6;
   item "mei" "m" "ei" "ㄇㄟ" "mei" "mei" 10 0 8;
   item "men" "m" "en" "ㄇㄣ" "men" "men" 10 0 9;
   item "meng" "m" "eng" "ㄇㄥ" "meng" "meng" 10 0 10;
   item "mi" "m" "i" "ㄇㄧ" "mi" "mi" 10 1 0;
   item "mian" "m" "ian" "ㄇㄧㄢ" "mian" "mian" 10 1 3;
   item "miao" "m" "iao" "ㄇㄧㄠ" "miao" "miau" 10 1 5;
   item "mie" "m" "ie" "ㄇㄧㄝ" "mieh" "mie" 10 1 6;
   item "min" "m" "in" "ㄇㄧㄣ" "min" "min" 10 0 16;
   item "ming" "m" "ing" "ㄇㄧㄥ" "ming" "ming" 10 0 17;
   item "miu" "m" "iu" "ㄇㄧㄡ" "miou" "miou" 10 1 15;
   item "mo" "m" "o" "ㄇㄛ" "mo" "mo" 10 0 13;
   item "mou" "m" "ou" "ㄇㄡ" "mou" "mou" 10 0 15;
   item "mu" "m" "u" "ㄇㄨ" "mu" "mu" 10 2 0;
   item "n" "n" "" "ㄋ" "None" "None" 11 0 0;
   item "na" "n" "a" "ㄋㄚ" "na" "na" 11 0 1;
   item "nai" "n" "ai" "ㄋㄞ" "nai" "nai" 11 0 2;
   item "nan" "n" "an" "ㄋㄢ" "nan" "nan" 11 0 3;
   item "nang" "n" "ang" "ㄋㄤ" "nang" "nang" 11 0 4;
   item "nao" "n" "ao" "ㄋㄠ" "nao" "nau" 11 0 5;
   item "ne" "n" "e" "ㄋㄜ" "ne" "ne" 11 0 6;
   item "nei" "n" "ei" "ㄋㄟ" "nei" "nei" 11 0 8;
   item "nen" "n" "en" "ㄋㄣ" "nen" "nen" 11 0 9;
   item "neng" "n" "eng" "ㄋㄥ" "neng" "neng" 11 0 10;
   item "ng" "" "ng" "ㄫ" "None" "None" 0 0 12;
   item "ni" "n" "i" "ㄋㄧ" "ni" "ni" 11 1 0;
   item "nia" "n" "ia" "ㄋㄧㄚ" "None" "None" 11 1 1;
   item "nian" "n" "ian" "ㄋㄧㄢ" "nian" "nian" 11 1 3;
   item "niang" "n" "iang" "ㄋㄧㄤ" "niang" "niang" 11 1 4;
   item "niao" "n" "iao" "ㄋㄧㄠ" "niao" "niau" 11 1 5;
   item "nie" "n" "ie" "ㄋㄧㄝ" "nieh" "nie" 11 1 6;
   item "nin" "n" "in" "ㄋㄧㄣ" "nin" "nin" 11 0 16;
   item "ning" "n" "ing" "ㄋㄧㄥ" "ning" "ning" 11 0 17;
   item "niu" "n" "iu" "ㄋㄧㄡ" "niou" "niou" 11 1 15;
   item "nong" "n" "ong" "ㄋㄨㄥ" "nong" "nung" 11 0 14;
   item "nou" "n" "ou" "ㄋㄡ" "nou" "nou" 11 0 15;
   item "nu" "n" "u" "ㄋㄨ" "nu" "nu" 11 2 0;
   item "nuan" "n" "uan" "ㄋㄨㄢ" "nuan" "nuan" 11 2 3;
   item "nun" "n" "un" "ㄋㄨㄣ" "nun" "nuen" 11 2 9;
   item "nuo" "n" "uo" "ㄋㄨㄛ" "nuo" "nuo" 11 2 13;
   item "nv" "n" "v" "ㄋㄩ" "nyu" "niu" 11 3 0;
   item "nve" "n" "ve" "ㄋㄩㄝ" "nyueh" "niue" 11 3 6;
   item "o" "" "o" "ㄛ" "o" "o" 0 0 13;
   item "ou" "" "ou" "ㄡ" "ou" "ou" 0 0 15;
   item "p" "p" "" "ㄆ" "None" "None" 14 0 0;
   item "pa" "p" "a" "ㄆㄚ" "pa" "pa" 14 0 1;
   item "pai" "p" "ai" "ㄆㄞ" "pai" "pai" 14 0 2;
   item "pan" "p" "an" "ㄆㄢ" "pan" "pan" 14 0 3;
   item "pang" "p" "ang" "ㄆㄤ" "pang" "pang" 14 0 4;
   item "pao" "p" "ao" "ㄆㄠ" "pao" "pau" 14 0 5;
   item "pei" "p" "ei" "ㄆㄟ" "pei" "pei" 14 0 8;
   item "pen" "p" "en" "ㄆㄣ" "pen" "pen" 14 0 9;
   item "peng" "p" "eng" "ㄆㄥ" "peng" "peng" 14 0 10;
   item "pi" "p" "i" "ㄆㄧ" "pi" "pi" 14 1 0;
   item "pian" "p" "ian" "ㄆㄧㄢ" "pian" "pian" 14 1 3;
   item "piao" "p" "iao" "ㄆㄧㄠ" "piao" "piau" 14 1 5;
   item "pie" "p" "ie" "ㄆㄧㄝ" "pieh" "pie" 14 1 6;
   item "pin" "p" "in" "ㄆㄧㄣ" "pin" "pin" 14 0 16;
   item "ping" "p" "ing" "ㄆㄧㄥ" "ping" "ping" 14 0 17;
   item "po" "p" "o" "ㄆㄛ" "po" "po" 14 0 13;
   item "pou" "p" "ou" "ㄆㄡ" "pou" "pou" 14 0 15;
   item "pu" "p" "u" "ㄆㄨ" "pu" "pu" 14 2 0;
   item "q" "q" "" "ㄑ" "None" "None" 15 0 0;
   item "qi" "q" "i" "ㄑㄧ" "chi" "chi" 15 1 0;
   item "qia" "q" "ia" "ㄑㄧㄚ" "chia" "chia" 15 1 1;
   item "qian" "q" "ian" "ㄑㄧㄢ" "chian" "chian" 15 1 3;
   item "qiang" "q" "iang" "ㄑㄧㄤ" "chiang" "chiang" 15 1 4;
   item "qiao" "q" "iao" "ㄑㄧㄠ" "chiao" "chiau" 15 1 5;
   item "qie" "q" "ie" "ㄑㄧㄝ" "chieh" "chie" 15 1 6;
   item "qin" "q" "in" "ㄑㄧㄣ" "chin" "chin" 15 0 16;
   item "qing" "q" "ing" "ㄑㄧㄥ" "ching" "ching" 15 0 17;
   item "qiong" "q" "iong" "ㄑㄩㄥ" "chyong" "chiung" 15 1 14;
   item "qiu" "q" "iu" "ㄑㄧㄡ" "chiou" "chiou" 15 1 15;
   item "qu" "q" "u" "ㄑㄩ" "chyu" "chiu" 15 3 0;
   item "quan" "q" "uan" "ㄑㄩㄢ" "chyuan" "chiuan" 15 3 3;
   item "que" "q" "ue" "ㄑㄩㄝ" "chyueh" "chiue" 15 3 6;
   item "qun" "q" "un" "ㄑㄩㄣ" "chyun" "chiun" 15 3 9;
   item "r" "r" "" "ㄖ" "rih" "r" 13 0 0;
   item "ran" "r" "an" "ㄖㄢ" "ran" "ran" 13 0 3;
   item "rang" "r" "ang" "ㄖㄤ" "rang" "rang" 13 0 4;
   item "rao" "r" "ao" "ㄖㄠ" "rao" "rau" 13 0 5;
   item "re" "r" "e" "ㄖㄜ" "re" "re" 13 0 6;
   item "ren" "r" "en" "ㄖㄣ" "ren" "ren" 13 0 9;
   item "reng" "r" "eng" "ㄖㄥ" "reng" "reng" 13 0 10;
   item "ri" "r" "i" "ㄖ" "rih" "r" 13 1 0;
   item "rong" "r" "ong" "ㄖㄨㄥ" "rong" "rung" 13 0 14;
   item "rou" "r" "ou" "ㄖㄡ" "rou" "rou" 13 0 15;
   item "ru" "r" "u" "ㄖㄨ" "ru" "ru" 13 2 0;
   item "rua" "r" "ua" "ㄖㄨㄚ" "None" "None" 13 2 1;
   item "ruan" "r" "uan" "ㄖㄨㄢ" "ruan" "ruan" 13 2 3;
   item "rui" "r" "ui" "ㄖㄨㄟ" "ruei" "ruei" 13 2 8;
   item "run" "r" "un" "ㄖㄨㄣ" "run" "ruen" 13 2 9;
   item "ruo" "r" "uo" "ㄖㄨㄛ" "ruo" "ruo" 13 2 13;
   item "s" "s" "" "ㄙ" "sih" "sz" 16 0 0;
   item "sa" "s" "a" "ㄙㄚ" "sa" "sa" 16 0 1;
   item "sai" "s" "ai" "ㄙㄞ" "sai" "sai" 16 0 2;
   item "san" "s" "an" "ㄙㄢ" "san" "san" 16 0 3;
   item "sang" "s" "ang" "ㄙㄤ" "sang" "sang" 16 0 4;
   item "sao" "s" "ao" "ㄙㄠ" "sao" "sau" 16 0 5;
   item "se" "s" "e" "ㄙㄜ" "se" "se" 16 0 6;
   item "sen" "s" "en" "ㄙㄣ" "sen" "sen" 16 0 9;
   item "seng" "s" "eng" "ㄙㄥ" "seng" "seng" 16 0 10;
   item "sh" "sh" "" "ㄕ" "shih" "shr" 17 0 0;
   item "sha" "sh" "a" "ㄕㄚ" "sha" "sha" 17 0 1;
   item "shai" "sh" "ai" "ㄕㄞ" "shai" "shai" 17 0 2;
   item "shan" "sh" "an" "ㄕㄢ" "shan" "shan" 17 0 3;
   item "shang" "sh" "ang" "ㄕㄤ" "shang" "shang" 17 0 4;
   item "shao" "sh" "ao" "ㄕㄠ" "shao" "shau" 17 0 5;
   item "she" "sh" "e" "ㄕㄜ" "she" "she" 17 0 6;
   item "shei" "sh" "ei" "ㄕㄟ" "shei" "shei" 17 0 8;
   item "shen" "sh" "en" "ㄕㄣ" "shen" "shen" 17 0 9;
   item "sheng" "sh" "eng" "ㄕㄥ" "sheng" "sheng" 17 0 10;
   item "shi" "sh" "i" "ㄕ" "shih" "shr" 17 1 0;
   item "shou" "sh" "ou" "ㄕㄡ" "shou" "shou" 17 0 15;
   item "shu" "sh" "u" "ㄕㄨ" "shu" "shu" 17 2 0;
   item "shua" "sh" "ua" "ㄕㄨㄚ" "shua" "shua" 17 2 1;
   item "shuai" "sh" "uai" "ㄕㄨㄞ" "shuai" "shuai" 17 2 2;
   item "shuan" "sh" "uan" "ㄕㄨㄢ" "shuan" "shuan" 17 2 3;
   item "shuang" "sh" "uang" "ㄕㄨㄤ" "shuang" "shuang" 17 2 4;
   item "shui" "sh" "ui" "ㄕㄨㄟ" "shuei" "shuei" 17 2 8;
   item "shun" "sh" "un" "ㄕㄨㄣ" "shun" "shuen" 17 2 9;
   item "shuo" "sh" "uo" "ㄕㄨㄛ" "shuo" "shuo" 17 2 13;
   item "si" "s" "i" "ㄙ" "sih" "sz" 16 1 0;
   item "song" "s" "ong" "ㄙㄨㄥ" "song" "sung" 16 0 14;
   item "sou" "s" "ou" "ㄙㄡ" "sou" "sou" 16 0 15;
   item "su" "s" "u" "ㄙㄨ" "su" "su" 16 2 0;
   item "suan" "s" "uan" "ㄙㄨㄢ" "suan" "suan" 16 2 3;
   item "sui" "s" "ui" "ㄙㄨㄟ" "suei" "suei" 16 2 8;
   item "sun" "s" "un" "ㄙㄨㄣ" "sun" "suen" 16 2 9;
   item "suo" "s" "uo" "ㄙㄨㄛ" "suo" "suo" 16 2 13;
   item "t" "t" "" "ㄊ" "None" "None" 18 0 0;
   item "ta" "t" "a" "ㄊㄚ" "ta" "ta" 18 0 1;
   item "tai" "t" "ai" "ㄊㄞ" "tai" "tai" 18 0 2;
   item "tan" "t" "an" "ㄊㄢ" "tan" "tan" 18 0 3;
   item "tang" "t" "ang" "ㄊㄤ" "tang" "tang" 18 0 4;
   item "tao" "t" "ao" "ㄊㄠ" "tao" "tau" 18 0 5;
   item "te" "t" "e" "ㄊㄜ" "te" "te" 18 0 6;
   item "teng" "t" "eng" "ㄊㄥ" "teng" "teng" 18 0 10;
   item "ti" "t" "i" "ㄊㄧ" "ti" "ti" 18 1 0;
   item "tian" "t" "ian" "ㄊㄧㄢ" "tian" "tian" 18 1 3;
   item "tiao" "t" "iao" "ㄊㄧㄠ" "tiao" "tiau" 18 1 5;
   item "tie" "t" "ie" "ㄊㄧㄝ" "tieh" "tie" 18 1 6;
   item "ting" "t" "ing" "ㄊㄧㄥ" "ting" "ting" 18 0 17;
   item "tong" "t" "ong" "ㄊㄨㄥ" "tong" "tung" 18 0 14;
   item "tou" "t" "ou" "ㄊㄡ" "tou" "tou" 18 0 15;
   item "tu" "t" "u" "ㄊㄨ" "tu" "tu" 18 2 0;
   item "tuan" "t" "uan" "ㄊㄨㄢ" "tuan" "tuan" 18 2 3;
   item "tui" "t" "ui" "ㄊㄨㄟ" "tuei" "tuei" 18 2 8;
   item "tun" "t" "un" "ㄊㄨㄣ" "tun" "tuen" 18 2 9;
   item "tuo" "t" "uo" "ㄊㄨㄛ" "tuo" "tuo" 18 2 13;
   item "w" "w" "" "PINYIN_W" "None" "None" 19 0 0;
   item "wa" "w" "a" "ㄨㄚ" "wa" "wa" 19 2 1;
   item "wai" "w" "ai" "ㄨㄞ" "wai" "wai" 19 2 2;
   item "wan" "w" "an" "ㄨㄢ" "wan" "wan" 19 2 3;
   item "wang" "w" "ang" "ㄨㄤ" "wang" "wang" 19 2 4;
   item "wei" "w" "ei" "ㄨㄟ" "wei" "wei" 19 2 8;
   item "wen" "w" "en" "ㄨㄣ" "wun" "wen" 19 2 9;
   item "weng" "w" "eng" "ㄨㄥ" "wong" "weng" 19 0 14;
   item "wo" "w" "o" "ㄨㄛ" "wo" "wo" 19 2 13;
   item "wu" "w" "u" "ㄨ" "wu" "wu" 19 2 0;
   item "x" "x" "" "ㄒ" "None" "None" 20 0 0;
   item "xi" "x" "i" "ㄒㄧ" "si" "shi" 20 1 0;
   item "xia" "x" "ia" "ㄒㄧㄚ" "sia" "shia" 20 1 1;
   item "xian" "x" "ian" "ㄒㄧㄢ" "sian" "shian" 20 1 3;
   item "xiang" "x" "iang" "ㄒㄧㄤ" "siang" "shiang" 20 1 4;
   item "xiao" "x" "iao" "ㄒㄧㄠ" "siao" "shiau" 20 1 5;
   item "xie" "x" "ie" "ㄒㄧㄝ" "sieh" "shie" 20 1 6;
   item "xin" "x" "in" "ㄒㄧㄣ" "sin" "shin" 20 0 16;
   item "xing" "x" "ing" "ㄒㄧㄥ" "sing" "shing" 20 0 17;
   item "xiong" "x" "iong" "ㄒㄩㄥ" "syong" "shiung" 20 1 14;
   item "xiu" "x" "iu" "ㄒㄧㄡ" "siou" "shiou" 20 1 15;
   item "xu" "x" "u" "ㄒㄩ" "syu" "shiu" 20 3 0;
   item "xuan" "x" "uan" "ㄒㄩㄢ" "syuan" "shiuan" 20 3 3;
   item "xue" "x" "ue" "ㄒㄩㄝ" "syueh" "shiue" 20 3 6;
   item "xun" "x" "un" "ㄒㄩㄣ" "syun" "shiun" 20 3 9;
   item "y" "y" "" "PINYIN_Y" "None" "None" 21 0 0;
   item "ya" "y" "a" "ㄧㄚ" "ya" "ya" 21 1 1;
   item "yai" "y" "ai" "ㄧㄞ" "yai" "yai" 21 1 2;
   item "yan" "y" "an" "ㄧㄢ" "yan" "yan" 21 1 3;
   item "yang" "y" "ang" "ㄧㄤ" "yang" "yang" 21 1 4;
   item "yao" "y" "ao" "ㄧㄠ" "yao" "yau" 21 1 5;
   item "ye" "y" "e" "ㄧㄝ" "yeh" "ye" 21 1 6;
   item "yi" "y" "i" "ㄧ" "yi" "yi" 21 1 0;
   item "yin" "y" "in" "ㄧㄣ" "yin" "yin" 21 0 16;
   item "ying" "y" "ing" "ㄧㄥ" "ying" "ying" 21 0 17;
   item "yo" "y" "o" "ㄧㄛ" "yo" "yo" 21 1 13;
   item "yong" "y" "ong" "ㄩㄥ" "yong" "yung" 21 1 14;
   item "you" "y" "ou" "ㄧㄡ" "you" "you" 21 1 15;
   item "yu" "y" "u" "ㄩ" "yu" "yu" 21 3 0;
   item "yuan" "y" "uan" "ㄩㄢ" "yuan" "yuan" 21 3 3;
   item "yue" "y" "ue" "ㄩㄝ" "yueh" "yue" 21 3 6;
   item "yun" "y" "un" "ㄩㄣ" "yun" "yun" 21 3 9;
   item "z" "z" "" "ㄗ" "zih" "tz" 22 0 0;
   item "za" "z" "a" "ㄗㄚ" "za" "tza" 22 0 1;
   item "zai" "z" "ai" "ㄗㄞ" "zai" "tzai" 22 0 2;
   item "zan" "z" "an" "ㄗㄢ" "zan" "tzan" 22 0 3;
   item "zang" "z" "ang" "ㄗㄤ" "zang" "tzang" 22 0 4;
   item "zao" "z" "ao" "ㄗㄠ" "zao" "tzau" 22 0 5;
   item "ze" "z" "e" "ㄗㄜ" "ze" "tze" 22 0 6;
   item "zei" "z" "ei" "ㄗㄟ" "zei" "tzei" 22 0 8;
   item "zen" "z" "en" "ㄗㄣ" "zen" "tzen" 22 0 9;
   item "zeng" "z" "eng" "ㄗㄥ" "zeng" "tzeng" 22 0 10;
   item "zh" "zh" "" "ㄓ" "jhih" "jr" 23 0 0;
   item "zha" "zh" "a" "ㄓㄚ" "jha" "ja" 23 0 1;
   item "zhai" "zh" "ai" "ㄓㄞ" "jhai" "jai" 23 0 2;
   item "zhan" "zh" "an" "ㄓㄢ" "jhan" "jan" 23 0 3;
   item "zhang" "zh" "ang" "ㄓㄤ" "jhang" "jang" 23 0 4;
   item "zhao" "zh" "ao" "ㄓㄠ" "jhao" "jau" 23 0 5;
   item "zhe" "zh" "e" "ㄓㄜ" "jhe" "je" 23 0 6;
   item "zhei" "zh" "ei" "ㄓㄟ" "jhei" "jei" 23 0 8;
   item "zhen" "zh" "en" "ㄓㄣ" "jhen" "jen" 23 0 9;
   item "zheng" "zh" "eng" "ㄓㄥ" "jheng" "jeng" 23 0 10;
   item "zhi" "zh" "i" "ㄓ" "jhih" "jr" 23 1 0;
   item "zhong" "zh" "ong" "ㄓㄨㄥ" "jhong" "jung" 23 0 14;
   item "zhou" "zh" "ou" "ㄓㄡ" "jhou" "jou" 23 0 15;
   item "zhu" "zh" "u" "ㄓㄨ" "jhu" "ju" 23 2 0;
   item "zhua" "zh" "ua" "ㄓㄨㄚ" "jhua" "jua" 23 2 1;
   item "zhuai" "zh" "uai" "ㄓㄨㄞ" "jhuai" "juai" 23 2 2;
   item "zhuan" "zh" "uan" "ㄓㄨㄢ" "jhuan" "juan" 23 2 3;
   item "zhuang" "zh" "uang" "ㄓㄨㄤ" "jhuang" "juang" 23 2 4;
   item "zhui" "zh" "ui" "ㄓㄨㄟ" "jhuei" "juei" 23 2 8;
   item "zhun" "zh" "un" "ㄓㄨㄣ" "jhun" "juen" 23 2 9;
   item "zhuo" "zh" "uo" "ㄓㄨㄛ" "jhuo" "juo" 23 2 13;
   item "zi" "z" "i" "ㄗ" "zih" "tz" 22 1 0;
   item "zong" "z" "ong" "ㄗㄨㄥ" "zong" "tzung" 22 0 14;
   item "zou" "z" "ou" "ㄗㄡ" "zou" "tzou" 22 0 15;
   item "zu" "z" "u" "ㄗㄨ" "zu" "tzu" 22 2 0;
   item "zuan" "z" "uan" "ㄗㄨㄢ" "zuan" "tzuan" 22 2 3;
   item "zui" "z" "ui" "ㄗㄨㄟ" "zuei" "tzuei" 22 2 8;
   item "zun" "z" "un" "ㄗㄨㄣ" "zun" "tzuen" 22 2 9;
   item "zuo" "z" "uo" "ㄗㄨㄛ" "zuo" "tzuo" 22 2 13]%string.

Definition NUM_INITIALS : nat := 24.
Definition NUM_MIDDLES : nat := 4.
Definition NUM_FINALS : nat := 18.

(** The row of each (initial, middle, final); -1 where there is none. *)
Definition CHEWING_KEY_TABLE : list Z := [
   (-1); 1; 2; 3; 4; 5; 85; (-1); 86; 87; 88; 89; 234; 252; (-1); 253; (-1); (-1); (-1);
   (-1); (-1); (-1); (-1); (-1); (-1); (-1); (-1); (-1); (-1); (-1); (-1); (-1); (-1);
   (-1); (-1); (-1); (-1); (-1); (-1); (-1); (-1); (-1); (-1); (-1); (-1); (-1); (-1);
   (-1); (-1); (-1); (-1); (-1); (-1); (-1); (-1); (-1); (-1); (-1); (-1); (-1); (-1);
   (-1); (-1); (-1); (-1); (-1); (-1); (-1); (-1); (-1); (-1); (-1); 6; 7; 8; 9; 10; 11;
   (-1); (-1); 12; 13; 14; (-1); (-1); 21; (-1); (-1); 19; 20; 15; (-1); (-1); 16; (-1);
   17; 18; (-1); (-1); (-1); (-1); (-1); (-1); (-1); (-1); (-1); (-1); (-1); 22; (-1);
   (-1); (-1); (-1); (-1); (-1); (-1); (-1); (-1); (-1); (-1); (-1); (-1); (-1); (-1);
   (-1); (-1); (-1); (-1); (-1); (-1); (-1); (-1); (-1); (-1); (-1); (-1); (-1); (-1);
   (-1); (-1); (-1); (-1); (-1); (-1); 23; 24; 25; 26; 27; 28; 29; (-1); (-1); 30; 31;
   (-1); (-1); (-1); 53; 54; (-1); (-1); 52; (-1); (-1); (-1); (-1); (-1); (-1); (-1);
   (-1); (-1); (-1); (-1); (-1); (-1); (-1); (-1); (-1); (-1); 55; (-1); (-1); 56; (-1);
   (-1); (-1); (-1); 57; 58; (-1); (-1); (-1); 59; (-1); (-1); (-1); (-1); (-1); (-1);
   (-1); (-1); (-1); (-1); (-1); (-1); (-1); (-1); (-1); (-1); (-1); (-1); (-1); (-1);
   (-1); (-1); 32; 33; 34; 35; 36; 37; 38; (-1); (-1); 39; 40; (-1); (-1); (-1); 42; 43;
   (-1); (-1); 41; (-1); (-1); (-1); (-1); (-1); (-1); (-1); (-1); (-1); (-1); (-1);
   (-1); (-1); (-1); (-1); (-1); (-1); 44; 45; 46; 47; 48; (-1); (-1); (-1); 49; 50;
   (-1); (-1); (-1); 51; (-1); (-1); (-1); (-1); (-1); (-1); (-1); (-1); (-1); (-1);
   (-1); (-1); (-1); (-1); (-1); (-1); (-1); (-1); (-1); (-1); (-1); (-1); 60; 61; 62;
   63; 64; 65; 66; (-1); 67; 68; 69; (-1); (-1); (-1); 78; 79; 75; 76; 70; 71; (-1); 72;
   (-1); 73; 74; (-1); (-1); (-1); (-1); (-1); (-1); (-1); (-1); 77; (-1); (-1); 80;
   (-1); (-1); 81; (-1); (-1); (-1); (-1); 82; 83; (-1); (-1); (-1); 84; (-1); (-1);
   (-1); (-1); (-1); (-1); (-1); (-1); (-1); (-1); (-1); (-1); (-1); (-1); (-1); (-1);
   (-1); (-1); (-1); (-1); (-1); (-1); 90; 91; (-1); 92; 93; (-1); 94; (-1); 95; 96; 97;
   (-1); (-1); 98; (-1); 99; (-1); (-1); (-1); (-1); (-1); (-1); (-1); (-1); (-1); (-1);
   (-1); (-1); (-1); (-1); (-1); (-1); (-1); (-1); (-1); (-1); 100; (-1); (-1); (-1);
   (-1); (-1); (-1); (-1); (-1); (-1); (-1); (-1); (-1); (-1); (-1); (-1); (-1); (-1);
   (-1); (-1); (-1); (-1); (-1); (-1); (-1); (-1); (-1); (-1); (-1); (-1); (-1); (-1);
   (-1); (-1); (-1); (-1); 121; 122; 123; 124; 125; 126; 127; (-1); 128; 129; 130; (-1);
   (-1); (-1); 131; 132; (-1); (-1); (-1); (-1); (-1); (-1); (-1); (-1); (-1); (-1);
   (-1); (-1); (-1); (-1); (-1); (-1); (-1); (-1); (-1); (-1); 133; 134; 135; 136; 137;
   (-1); (-1); (-1); 138; 139; (-1); (-1); (-1); 140; (-1); (-1); (-1); (-1); (-1);
   (-1); (-1); (-1); (-1); (-1); (-1); (-1); (-1); (-1); (-1); (-1); (-1); (-1); (-1);
   (-1); (-1); (-1); 101; 102; 103; 104; 105; 106; 107; (-1); 108; 109; 110; (-1); (-1);
   (-1); 111; 112; (-1); (-1); (-1); (-1); (-1); (-1); (-1); (-1); (-1); (-1); (-1);
   (-1); (-1); (-1); (-1); (-1); (-1); (-1); (-1); (-1); 113; 114; 115; 116; 117; (-1);
   (-1); (-1); 118; 119; (-1); (-1); (-1); 120; (-1); (-1); (-1); (-1); (-1); (-1);
   (-1); (-1); (-1); (-1); (-1); (-1); (-1); (-1); (-1); (-1); (-1); (-1); (-1); (-1);
   (-1); (-1); 156; 157; 158; 159; 160; 161; 162; (-1); 163; 164; 165; (-1); (-1); (-1);
   166; 167; (-1); (-1); (-1); (-1); (-1); (-1); (-1); (-1); (-1); (-1); (-1); (-1);
   (-1); (-1); (-1); (-1); (-1); (-1); (-1); (-1); 168; 169; 170; 171; 172; (-1); (-1);
   (-1); 173; 174; (-1); (-1); (-1); 175; (-1); (-1); (-1); (-1); (-1); (-1); (-1);
   (-1); (-1); (-1); (-1); (-1); (-1); (-1); (-1); (-1); (-1); (-1); (-1); (-1); (-1);
   (-1); 141; (-1); (-1); (-1); (-1); (-1); (-1); (-1); (-1); (-1); (-1); (-1); (-1);
   (-1); (-1); (-1); 148; 149; 142; 143; (-1); 144; 145; 146; 147; (-1); (-1); (-1);
   (-1); (-1); (-1); (-1); 150; 151; (-1); (-1); (-1); (-1); (-1); (-1); (-1); (-1);
   (-1); (-1); (-1); (-1); (-1); (-1); (-1); (-1); (-1); (-1); (-1); (-1); 152; (-1);
   (-1); 153; (-1); (-1); 154; (-1); (-1); 155; (-1); (-1); (-1); (-1); (-1); (-1);
   (-1); (-1); 204; 205; 206; 207; 208; 209; 210; (-1); 211; 212; 213; (-1); (-1); 221;
   (-1); 222; 218; 219; 214; (-1); (-1); 215; (-1); 216; 217; (-1); (-1); (-1); (-1);
   (-1); (-1); (-1); (-1); 220; (-1); (-1); 223; (-1); (-1); (-1); (-1); (-1); (-1);
   (-1); (-1); (-1); (-1); (-1); (-1); (-1); (-1); (-1); (-1); (-1); (-1); (-1); (-1);
   (-1); (-1); (-1); (-1); (-1); (-1); (-1); (-1); (-1); (-1); (-1); (-1); (-1); (-1);
   (-1); 224; 225; 226; 227; 228; 229; 230; (-1); 231; 232; 233; (-1); (-1); (-1); 244;
   245; 241; 242; 235; 236; (-1); 237; 238; 239; 240; (-1); (-1); (-1); (-1); (-1);
   (-1); (-1); (-1); 243; (-1); (-1); 246; (-1); (-1); 247; (-1); (-1); (-1); (-1);
   (-1); 248; (-1); (-1); (-1); 249; (-1); (-1); (-1); (-1); 250; (-1); (-1); (-1);
   (-1); (-1); 251; (-1); (-1); (-1); (-1); (-1); (-1); (-1); (-1); (-1); (-1); (-1);
   176; 177; 178; 179; 180; 181; 182; (-1); 183; 184; 185; (-1); (-1); 195; 196; 197;
   192; 193; 186; 187; (-1); 188; 189; 190; 191; (-1); (-1); (-1); (-1); (-1); (-1);
   (-1); (-1); 194; (-1); (-1); 198; (-1); (-1); 199; (-1); (-1); (-1); (-1); (-1); 200;
   (-1); (-1); (-1); 201; (-1); (-1); (-1); (-1); 202; (-1); (-1); (-1); (-1); (-1);
   203; (-1); (-1); (-1); (-1); (-1); (-1); (-1); (-1); (-1); (-1); (-1); 287; (-1);
   (-1); 288; 289; 290; 291; (-1); (-1); 292; 293; (-1); (-1); (-1); 295; 296; (-1);
   (-1); 294; (-1); (-1); (-1); (-1); (-1); (-1); (-1); (-1); (-1); (-1); (-1); (-1);
   (-1); (-1); (-1); (-1); (-1); 297; 298; (-1); 299; (-1); (-1); (-1); (-1); 300; 301;
   (-1); (-1); (-1); 302; (-1); (-1); (-1); (-1); (-1); (-1); (-1); (-1); (-1); (-1);
   (-1); (-1); (-1); (-1); (-1); (-1); (-1); (-1); (-1); (-1); (-1); (-1); 254; 255;
   256; 257; 258; 259; (-1); (-1); 260; 261; 262; (-1); (-1); 269; (-1); 270; 267; 268;
   263; (-1); (-1); 264; (-1); 265; 266; (-1); (-1); (-1); (-1); (-1); (-1); (-1); (-1);
   (-1); (-1); (-1); 271; (-1); (-1); (-1); (-1); (-1); (-1); (-1); (-1); (-1); (-1);
   (-1); (-1); (-1); (-1); (-1); (-1); (-1); (-1); (-1); (-1); (-1); (-1); (-1); (-1);
   (-1); (-1); (-1); (-1); (-1); (-1); (-1); (-1); (-1); (-1); (-1); 272; (-1); (-1);
   (-1); (-1); (-1); (-1); (-1); (-1); (-1); (-1); (-1); (-1); (-1); (-1); (-1); 279;
   280; 273; 274; (-1); 275; 276; 277; 278; (-1); (-1); (-1); (-1); (-1); (-1); (-1);
   281; 282; (-1); (-1); (-1); (-1); (-1); (-1); (-1); (-1); (-1); (-1); (-1); (-1);
   (-1); (-1); (-1); (-1); (-1); (-1); (-1); (-1); 283; (-1); (-1); 284; (-1); (-1);
   285; (-1); (-1); 286; (-1); (-1); (-1); (-1); (-1); (-1); (-1); (-1); 303; 304; 305;
   306; 307; 308; 309; (-1); (-1); 310; 311; (-1); (-1); (-1); 333; 334; (-1); (-1);
   332; (-1); (-1); (-1); (-1); (-1); (-1); (-1); (-1); (-1); (-1); (-1); (-1); (-1);
   (-1); (-1); (-1); (-1); 335; (-1); (-1); 336; (-1); (-1); (-1); (-1); 337; 338; (-1);
   (-1); (-1); 339; (-1); (-1); (-1); (-1); (-1); (-1); (-1); (-1); (-1); (-1); (-1);
   (-1); (-1); (-1); (-1); (-1); (-1); (-1); (-1); (-1); (-1); (-1); 312; 313; 314; 315;
   316; 317; 318; (-1); 319; 320; 321; (-1); (-1); (-1); (-1); 323; (-1); (-1); 322;
   (-1); (-1); (-1); (-1); (-1); (-1); (-1); (-1); (-1); (-1); (-1); (-1); (-1); (-1);
   (-1); (-1); (-1); 324; 325; 326; 327; 328; (-1); (-1); (-1); 329; 330; (-1); (-1);
   (-1); 331; (-1); (-1); (-1); (-1); (-1); (-1); (-1); (-1); (-1); (-1); (-1); (-1);
   (-1); (-1); (-1); (-1); (-1); (-1); (-1); (-1); (-1); (-1); 340; 341; 342; 343; 344;
   345; 346; (-1); (-1); (-1); 347; (-1); (-1); (-1); 353; 354; (-1); 352; 348; (-1);
   (-1); 349; (-1); 350; 351; (-1); (-1); (-1); (-1); (-1); (-1); (-1); (-1); (-1);
   (-1); (-1); 355; (-1); (-1); 356; (-1); (-1); (-1); (-1); 357; 358; (-1); (-1); (-1);
   359; (-1); (-1); (-1); (-1); (-1); (-1); (-1); (-1); (-1); (-1); (-1); (-1); (-1);
   (-1); (-1); (-1); (-1); (-1); (-1); (-1); (-1); (-1); 360; (-1); (-1); (-1); (-1);
   (-1); (-1); (-1); (-1); (-1); (-1); (-1); (-1); (-1); 367; (-1); (-1); (-1); (-1);
   (-1); (-1); (-1); (-1); (-1); (-1); (-1); (-1); (-1); (-1); (-1); (-1); (-1); (-1);
   (-1); (-1); (-1); 369; 361; 362; 363; 364; (-1); (-1); (-1); 365; 366; (-1); (-1);
   (-1); 368; (-1); (-1); (-1); (-1); (-1); (-1); (-1); (-1); (-1); (-1); (-1); (-1);
   (-1); (-1); (-1); (-1); (-1); (-1); (-1); (-1); (-1); (-1); 370; (-1); (-1); (-1);
   (-1); (-1); (-1); (-1); (-1); (-1); (-1); (-1); (-1); (-1); (-1); (-1); 377; 378;
   371; 372; (-1); 373; 374; 375; 376; (-1); (-1); (-1); (-1); (-1); (-1); (-1); 379;
   380; (-1); (-1); (-1); (-1); (-1); (-1); (-1); (-1); (-1); (-1); (-1); (-1); (-1);
   (-1); (-1); (-1); (-1); (-1); (-1); (-1); 381; (-1); (-1); 382; (-1); (-1); 383;
   (-1); (-1); 384; (-1); (-1); (-1); (-1); (-1); (-1); (-1); (-1); 385; (-1); (-1);
   (-1); (-1); (-1); (-1); (-1); (-1); (-1); (-1); (-1); (-1); (-1); (-1); (-1); 393;
   394; 392; 386; 387; 388; 389; 390; 391; (-1); (-1); (-1); (-1); (-1); (-1); 395; 396;
   397; (-1); (-1); (-1); (-1); (-1); (-1); (-1); (-1); (-1); (-1); (-1); (-1); (-1);
   (-1); (-1); (-1); (-1); (-1); (-1); (-1); 398; (-1); (-1); 399; (-1); (-1); 400;
   (-1); (-1); 401; (-1); (-1); (-1); (-1); (-1); (-1); (-1); (-1); 402; 403; 404; 405;
   406; 407; 408; (-1); 409; 410; 411; (-1); (-1); (-1); 434; 435; (-1); (-1); 433;
   (-1); (-1); (-1); (-1); (-1); (-1); (-1); (-1); (-1); (-1); (-1); (-1); (-1); (-1);
   (-1); (-1); (-1); 436; (-1); (-1); 437; (-1); (-1); (-1); (-1); 438; 439; (-1); (-1);
   (-1); 440; (-1); (-1); (-1); (-1); (-1); (-1); (-1); (-1); (-1); (-1); (-1); (-1);
   (-1); (-1); (-1); (-1); (-1); (-1); (-1); (-1); (-1); (-1); 412; 413; 414; 415; 416;
   417; 418; (-1); 419; 420; 421; (-1); (-1); (-1); 423; 424; (-1); (-1); 422; (-1);
   (-1); (-1); (-1); (-1); (-1); (-1); (-1); (-1); (-1); (-1); (-1); (-1); (-1); (-1);
   (-1); (-1); 425; 426; 427; 428; 429; (-1); (-1); (-1); 430; 431; (-1); (-1); (-1);
   432; (-1); (-1); (-1); (-1); (-1); (-1); (-1); (-1); (-1); (-1); (-1); (-1); (-1);
   (-1); (-1); (-1); (-1); (-1); (-1); (-1); (-1); (-1)]%Z.
