(* ===== verification/Chewing.v ===== *)
(** * Chewing: the packed pinyin key

    [crates/oxpinyin-chewing/src/chewing_key.rs] and [chewing_key_data.rs]:
    the four elements of a key, its sixteen-bit packed form, the lookup of a
    spelling by binary search over inline integer keys, the inverse key
    table and the display strings. *)

From Stdlib Require Import ZArith Lia Bool String Strings.Byte.
From stdpp Require Import base list.
From S2P Require Import Prelude ContentData.

Record ChewingKey : Type := mk_key { initial : Z; middle : Z; final_ : Z; tone : Z }.

#[export] Instance ChewingKey_eq_dec : EqDecision ChewingKey.
Proof. solve_decision. Defined.

Definition CHEWING_ZERO_TONE : Z := 0.
Definition ZERO : ChewingKey := mk_key 0 0 0 0.

Definition with_tone (k : ChewingKey) (t : Z) : ChewingKey :=
  mk_key (initial k) (middle k) (final_ k) t.

Definition elements_in_dims (k : ChewingKey) : bool :=
  (initial k <? Z.of_nat NUM_INITIALS)%Z && (middle k <? Z.of_nat NUM_MIDDLES)%Z
    && (final_ k <? Z.of_nat NUM_FINALS)%Z.

Definition tone_in_dims (k : ChewingKey) : bool := (tone k <? 6)%Z.

(** [usize::try_from(entry).unwrap_or(0)]: a negative entry answers 0. *)
Definition table_index (k : ChewingKey) : nat :=
  let i := Z.to_nat (initial k) in
  let m := Z.to_nat (middle k) in
  let f := Z.to_nat (final_ k) in
  if (NUM_INITIALS <=? i) || (NUM_MIDDLES <=? m) || (NUM_FINALS <=? f) then 0
  else Z.to_nat (default 0%Z (CHEWING_KEY_TABLE !! ((i * NUM_MIDDLES + m) * NUM_FINALS + f))).

(** The display columns of a content row, in the order of the table. *)
Definition content_fields (row : ContentItem) : list bytes :=
  [pinyin row; shengmu row; yunmu row; zhuyin row; luoma row; secondary row].

Definition content_string (k : ChewingKey) (field : nat) : bytes :=
  default [] (row ← CONTENT_TABLE !! table_index k; content_fields row !! field).

(** The text's bytes, zero-padded to eight. *)
Definition padded (text : bytes) : bytes := text ++ replicate (8 - length text) x00.

Definition spelling_key (text : bytes) : option Z :=
  if decide (8 < length text) then None
  else if existsb (fun b => bool_decide (b = x00)) text then None
  else Some (be_value (padded text)).

(** A content row's integer columns. *)
Record ContentKey : Type := mk_content_key {
  spelling : Z; key_initial : Z; key_middle : Z; key_final : Z
}.

Definition content_key (row : ContentItem) : ContentKey :=
  mk_content_key (be_value (padded (pinyin row)))
    (ContentData.initial row) (ContentData.middle row) (ContentData.final_ row).

Definition CONTENT_KEYS : list ContentKey := Eval vm_compute in map content_key CONTENT_TABLE.

Definition from_pinyin (text : bytes) : option ChewingKey :=
  spelling ← spelling_key text;
  match binary_search_by (fun row => (Chewing.spelling row ?= spelling)%Z) CONTENT_KEYS with
  | inr _ => None
  | inl position =>
      row ← CONTENT_KEYS !! position;
      Some (mk_key (key_initial row) (key_middle row) (key_final row) CHEWING_ZERO_TONE)
  end.

Definition to_packed (k : ChewingKey) : Z :=
  Z.lor (Z.lor (Z.lor (Z.land (initial k) 31)
    (Z.shiftl (Z.land (middle k) 3) 5))
    (Z.shiftl (Z.land (final_ k) 31) 7))
    (Z.shiftl (Z.land (tone k) 7) 12).

Definition from_packed (bits : Z) : ChewingKey :=
  mk_key (Z.land bits 31) (Z.land (Z.shiftr bits 5) 3)
    (Z.land (Z.shiftr bits 7) 31) (Z.land (Z.shiftr bits 12) 7).

(** ** The display strings *)

Inductive KeyText : Type :=
  | Plain (base : bytes)
  | Digit (base : bytes) (tone : Z)
  | Mark (base mark : bytes).

(** [char] of [b'0' + tone] for a one-digit tone. *)
Definition digit (tone : Z) : option byte :=
  if (0 <=? tone)%Z && (tone <=? 9)%Z then Some (byte_of (48 + tone)) else None.

Definition digit_text (base : bytes) (tone : Z) : KeyText :=
  if (tone =? CHEWING_ZERO_TONE)%Z then Plain base
  else match digit tone with None => Plain base | Some _ => Digit base tone end.

Definition tone_symbol (tone : Z) : bytes :=
  match tone with
  | 1 => str " "
  | 2 => str "ˊ"
  | 3 => str "ˇ"
  | 4 => str "ˋ"
  | 5 => str "˙"
  | _ => []
  end%Z.

(** [Display]: [%d] of a tone prints its decimal digits; a [Digit] only ever
    holds one. *)
Definition display (t : KeyText) : bytes :=
  match t with
  | Plain base => base
  | Digit base tone => base ++ from_option (fun d => [d]) [] (digit tone)
  | Mark base mark => base ++ mark
  end.

Definition pinyin_spelling (k : ChewingKey) : bytes := content_string k 0.
Definition text (k : ChewingKey) : bytes := pinyin_spelling k.
Definition pinyin_text (k : ChewingKey) : KeyText := digit_text (content_string k 0) (tone k).
Definition pinyin_string (k : ChewingKey) : bytes := display (pinyin_text k).
Definition shengmu_string (k : ChewingKey) : bytes := content_string k 1.
Definition yunmu_string (k : ChewingKey) : bytes := content_string k 2.

Definition zhuyin_text (k : ChewingKey) : KeyText :=
  let base := content_string k 3 in
  if (2 <=? tone k)%Z && (tone k <=? 5)%Z then Mark base (tone_symbol (tone k)) else Plain base.

Definition zhuyin_string (k : ChewingKey) : bytes := display (zhuyin_text k).
Definition luoma_pinyin_text (k : ChewingKey) : KeyText := digit_text (content_string k 4) (tone k).
Definition luoma_pinyin_string (k : ChewingKey) : bytes := display (luoma_pinyin_text k).
Definition secondary_zhuyin_text (k : ChewingKey) : KeyText :=
  digit_text (content_string k 5) (tone k).
Definition secondary_zhuyin_string (k : ChewingKey) : bytes := display (secondary_zhuyin_text k).

(** ** C5: the packed form *)

(** The widths of the packed fields. *)
Definition packable (k : ChewingKey) : Prop :=
  (0 <= initial k < 32)%Z /\ (0 <= middle k < 4)%Z /\
  (0 <= final_ k < 32)%Z /\ (0 <= tone k < 8)%Z.

Lemma to_packed_sum k :
  to_packed k = (initial k mod 32 + (middle k mod 4) * 32 + (final_ k mod 32) * 128
                 + (tone k mod 8) * 4096)%Z.
Proof.
  unfold to_packed.
  change 31%Z with (Z.ones 5). change 3%Z with (Z.ones 2). change 7%Z with (Z.ones 3) at 2.
  rewrite !Z.land_ones by lia.
  pose proof (Z.mod_pos_bound (initial k) (2 ^ 5) eq_refl).
  pose proof (Z.mod_pos_bound (middle k) (2 ^ 2) eq_refl).
  pose proof (Z.mod_pos_bound (final_ k) (2 ^ 5) eq_refl).
  rewrite (lor_shiftl_add _ _ 5) by lia.
  rewrite (lor_shiftl_add _ _ 7) by lia.
  rewrite (lor_shiftl_add _ _ 12) by lia.
  reflexivity.
Qed.

Lemma from_packed_fields bits :
  from_packed bits =
  mk_key (bits mod 32) ((bits / 32) mod 4) ((bits / 128) mod 32) ((bits / 4096) mod 8).
Proof.
  unfold from_packed.
  change 31%Z with (Z.ones 5). change 3%Z with (Z.ones 2). change 7%Z with (Z.ones 3) at 2.
  rewrite !field_mod, Z.land_ones by lia. reflexivity.
Qed.

Lemma from_to_packed k : packable k -> from_packed (to_packed k) = k.
Proof.
  destruct k as [i m f t]. intros (Hi & Hm & Hf & Ht). simpl in *.
  rewrite from_packed_fields, to_packed_sum. cbn [initial middle final_ tone].
  f_equal; div_lia.
Qed.

Lemma to_packed_range k : (0 <= to_packed k < 32768)%Z.
Proof. rewrite to_packed_sum. div_lia. Qed.

(** The sixteen-bit form loses nothing: a key whose elements fit their
    fields comes back unchanged and leaves the padding bit clear, and any
    sixteen-bit word comes back with only its padding bit dropped. *)
Theorem packed_round_trip (k : ChewingKey) (bits : Z) (Hk : packable k)
    (Hbits : (0 <= bits < 65536)%Z) :
  from_packed (to_packed k) = k /\ (0 <= to_packed k < 32768)%Z /\
  packable (from_packed bits) /\ to_packed (from_packed bits) = (bits mod 32768)%Z.
Proof.
  split; [by apply from_to_packed|]. split; [apply to_packed_range|].
  rewrite !from_packed_fields, !to_packed_sum. unfold packable. cbn [initial middle final_ tone].
  repeat split; div_lia.
Qed.

Lemma packed_round_trip_witness :
  from_packed (to_packed (mk_key 22 0 3 4)) = mk_key 22 0 3 4 /\
  to_packed (from_packed 65535) = 32767%Z.
Proof.
  destruct (packed_round_trip (mk_key 22 0 3 4) 65535) as (H & _ & _ & H');
    [unfold packable; simpl; lia|lia|].
  split; [exact H|exact H'].
Defined.

(** ** Spellings and keys *)

Definition row_key (row : ContentItem) : ChewingKey :=
  mk_key (ContentData.initial row) (ContentData.middle row) (ContentData.final_ row)
    CHEWING_ZERO_TONE.

Lemma spelling_key_Some t x :
  spelling_key t = Some x <-> (length t <= 8) /\ (x00 ∉ t) /\ x = be_value (padded t).
Proof.
  unfold spelling_key. case_decide; [split; [done|intros; lia]|].
  destruct (existsb _ t) eqn:E.
  - split; [done|]. intros (_ & Hn & _). apply List.existsb_exists in E as (b & Hb & Eb).
    apply bool_decide_eq_true in Eb as ->. by apply list_elem_of_In in Hb.
  - split; [intros [= <-]|intros (_ & _ & ->); done]. split; [lia|]. split; [|done].
    intros Hb. apply not_true_iff_false in E. apply E, List.existsb_exists.
    exists x00. split; [by apply list_elem_of_In|by apply bool_decide_eq_true].
Qed.

Lemma padded_text t : x00 ∉ t -> filter (fun b => b <> x00) (padded t) = t.
Proof.
  intros Ht. unfold padded. rewrite filter_app.
  assert (filter (fun b => b <> x00) (replicate (8 - length t) x00) = []) as ->.
  { generalize (8 - length t). induction n as [|n IH]; [done|]. simpl. by rewrite filter_cons, decide_False by naive_solver. }
  rewrite app_nil_r. induction t as [|b t IH]; [done|].
  apply not_elem_of_cons in Ht as [Hb Ht]. by rewrite filter_cons, decide_True, IH by done.
Qed.

Lemma spelling_key_inj s t x : spelling_key s = Some x -> spelling_key t = Some x -> s = t.
Proof.
  rewrite !spelling_key_Some. intros (Hs & Hs0 & ->) (Ht & Ht0 & He).
  apply be_value_inj in He.
  - by rewrite <- (padded_text s), <- (padded_text t), He.
  - unfold padded. rewrite !length_app, !length_replicate. lia.
Qed.

(** What the generator asserts of the rows. *)
Lemma content_rows_checked :
  forallb (fun row => match spelling_key (pinyin row) with Some _ => true | None => false end)
    CONTENT_TABLE && increasing (spelling <$> CONTENT_KEYS) = true.
Proof. vm_compute. reflexivity. Qed.

Lemma content_keys_rows : CONTENT_KEYS = content_key <$> CONTENT_TABLE.
Proof. vm_compute. reflexivity. Qed.

Lemma content_row_key i row :
  CONTENT_TABLE !! i = Some row -> spelling_key (pinyin row) = Some (spelling (content_key row)).
Proof.
  intros Hrow. pose proof content_rows_checked as [H _]%andb_true_iff.
  pose proof (forallb_lookup _ _ H i row Hrow) as Hs. simpl in Hs.
  destruct (spelling_key (pinyin row)) eqn:E; [|done].
  apply spelling_key_Some in E as (_ & _ & ->). done.
Qed.

Lemma from_pinyin_row text :
  match from_pinyin text with
  | Some k => exists i row, CONTENT_TABLE !! i = Some row /\ pinyin row = text /\ k = row_key row
  | None => forall i row, CONTENT_TABLE !! i = Some row -> pinyin row <> text
  end.
Proof.
  unfold from_pinyin. destruct (spelling_key text) as [x|] eqn:Ex; cbn [mbind option_bind].
  2: { intros i row Hrow <-. by rewrite (content_row_key i) in Ex. }
  pose proof content_rows_checked as [_ Hinc]%andb_true_iff.
  pose proof (bsearch_increasing spelling CONTENT_KEYS x Hinc) as H.
  destruct (binary_search_by _ _) as [p|p].
  - destruct H as (key & Hp & Hk). rewrite Hp. cbn [mbind option_bind].
    rewrite content_keys_rows, list_lookup_fmap in Hp. apply fmap_Some in Hp as (row & Hrow & ->).
    exists p, row. split; [done|]. split; [|done]. apply (spelling_key_inj _ _ x); [|done].
    rewrite (content_row_key p) by done. by rewrite Hk.
  - intros i row Hrow <-. rewrite (content_row_key i) in Ex by done. injection Ex as Ex.
    apply (H i (content_key row)); [|done]. by rewrite content_keys_rows, list_lookup_fmap, Hrow.
Qed.

(** Spellings are distinct. *)
Lemma content_pinyin_inj i j ri rj :
  CONTENT_TABLE !! i = Some ri -> CONTENT_TABLE !! j = Some rj -> pinyin ri = pinyin rj -> i = j.
Proof.
  intros Hi Hj E. pose proof content_rows_checked as [_ Hinc]%andb_true_iff.
  assert (spelling (content_key ri) = spelling (content_key rj)) as Es.
  { apply (f_equal spelling_key) in E. by rewrite (content_row_key i), (content_row_key j) in E by done; simplify_eq. }
  assert (forall n row, CONTENT_TABLE !! n = Some row ->
    (spelling <$> CONTENT_KEYS) !! n = Some (spelling (content_key row))) as Hs.
  { intros n row Hn. by rewrite content_keys_rows, !list_lookup_fmap, Hn. }
  apply Hs in Hi. apply Hs in Hj.
  destruct (lt_eq_lt_dec i j) as [[Hlt| ->]|Hlt]; [|done|].
  - pose proof (increasing_lookup _ i j _ _ Hinc Hlt Hi Hj). lia.
  - pose proof (increasing_lookup _ j i _ _ Hinc Hlt Hj Hi). lia.
Qed.

Lemma from_pinyin_content i row :
  CONTENT_TABLE !! i = Some row -> from_pinyin (pinyin row) = Some (row_key row).
Proof.
  intros Hrow. pose proof (from_pinyin_row (pinyin row)) as H.
  destruct (from_pinyin (pinyin row)) as [k|].
  - destruct H as (j & row' & Hj & Ep & ->).
    assert (j = i) as -> by (by eapply content_pinyin_inj). by simplify_eq.
  - by destruct (H i row Hrow).
Qed.

(** The two ported tables invert each other. *)
Definition row_index_ok (i : nat) (row : ContentItem) : bool := table_index (row_key row) =? i.

Definition entry_ok (index : nat) (entry : Z) : bool :=
  (entry <=? 0)%Z ||
  match CONTENT_TABLE !! Z.to_nat entry with
  | Some row =>
      let k := row_key row in
      elements_in_dims k && (0 <=? initial k)%Z && (0 <=? middle k)%Z && (0 <=? final_ k)%Z &&
      ((Z.to_nat (initial k) * NUM_MIDDLES + Z.to_nat (middle k)) * NUM_FINALS
         + Z.to_nat (final_ k) =? index)
  | None => false
  end.

Lemma tables_checked :
  forallb id (imap row_index_ok CONTENT_TABLE) && forallb id (imap entry_ok CHEWING_KEY_TABLE)
  && (length CHEWING_KEY_TABLE =? 1728) = true.
Proof. vm_compute. reflexivity. Qed.

#[local] Opaque CONTENT_TABLE CHEWING_KEY_TABLE CONTENT_KEYS.

Lemma table_index_row i row :
  CONTENT_TABLE !! i = Some row -> table_index (row_key row) = i.
Proof.
  intros Hrow. pose proof tables_checked as [[H _]%andb_true_iff _]%andb_true_iff.
  apply Nat.eqb_eq. change (id (row_index_ok i row) = true).
  apply (forallb_lookup id _ H i). by rewrite list_lookup_imap, Hrow.
Qed.

Lemma entry_checked n entry : CHEWING_KEY_TABLE !! n = Some entry -> entry_ok n entry = true.
Proof.
  intros En. pose proof tables_checked as [[_ H]%andb_true_iff _]%andb_true_iff.
  change (id (entry_ok n entry) = true). apply (forallb_lookup id _ H n).
  by rewrite list_lookup_imap, En.
Qed.

Lemma table_index_tone k t : table_index (with_tone k t) = table_index k.
Proof. done. Qed.

Definition nonnegative (k : ChewingKey) : Prop :=
  (0 <= initial k)%Z /\ (0 <= middle k)%Z /\ (0 <= final_ k)%Z.

(** A valid key is its row's key, its own tone apart. *)
Lemma table_index_content k :
  nonnegative k -> table_index k <> 0 ->
  exists row, CONTENT_TABLE !! table_index k = Some row /\ row_key row = with_tone k 0.
Proof.
  intros (Hi & Hm & Hf) Hne.
  unfold table_index in *.
  destruct ((NUM_INITIALS <=? Z.to_nat (initial k)) || (NUM_MIDDLES <=? Z.to_nat (middle k))
            || (NUM_FINALS <=? Z.to_nat (final_ k))) eqn:Ed; [done|].
  apply orb_false_iff in Ed as [[Di%Nat.leb_gt Dm%Nat.leb_gt]%orb_false_iff Df%Nat.leb_gt].
  unfold NUM_INITIALS, NUM_MIDDLES, NUM_FINALS in *.
  set (n := (Z.to_nat (initial k) * 4 + Z.to_nat (middle k)) * 18 + Z.to_nat (final_ k)) in *.
  destruct (CHEWING_KEY_TABLE !! n) as [entry|] eqn:En; [|done]. cbn [default from_option] in *.
  pose proof (entry_checked n entry En) as He.
  unfold entry_ok in He. apply orb_true_iff in He as [He%Z.leb_le|He]; [simpl in Hne; lia|].
  unfold id in *. destruct (CONTENT_TABLE !! Z.to_nat entry) as [row|]; [|done].
  exists row. split; [done|]. unfold elements_in_dims, NUM_INITIALS, NUM_MIDDLES, NUM_FINALS in He.
  rewrite !andb_true_iff, !Z.ltb_lt, !Z.leb_le, Nat.eqb_eq in He.
  destruct (row_key row) as [i m f t] eqn:Er. unfold row_key, CHEWING_ZERO_TONE in Er. simplify_eq.
  cbn [initial middle final_] in He. unfold with_tone. unfold n in He.
  f_equal; lia.
Qed.

Lemma from_pinyin_spelling text k :
  from_pinyin text = Some k -> pinyin_spelling k = text /\ tone k = CHEWING_ZERO_TONE.
Proof.
  pose proof (from_pinyin_row text) as H. intros E. rewrite E in H. destruct H as (i & row & Hrow & <- & ->).
  split; [|done]. unfold pinyin_spelling, content_string. by rewrite (table_index_row i), Hrow.
Qed.

(** C25. Spellings and keys invert each other. [from_pinyin], a binary
    search over integer keys, answers exactly for the spellings of the content
    rows, with the toneless key that the key table maps back to that spelling;
    and every key the key table does not mark invalid is found again from its
    own spelling, its tone apart. *)
Theorem from_pinyin_inverse (text : bytes) (k : ChewingKey) :
  (from_pinyin text = Some k ->
     pinyin_spelling k = text /\ tone k = CHEWING_ZERO_TONE) /\
  (from_pinyin text = None -> text ∉ (pinyin <$> CONTENT_TABLE)) /\
  (nonnegative k -> table_index k <> 0 ->
     from_pinyin (pinyin_spelling k) = Some (with_tone k CHEWING_ZERO_TONE)).
Proof.
  split_and!.
  - apply from_pinyin_spelling.
  - pose proof (from_pinyin_row text) as H. intros E. rewrite E in H. intros (row & -> & Hin)%list_elem_of_fmap.
    apply list_elem_of_lookup in Hin as [i Hi]. by apply (H i row).
  - intros Hk Hne. destruct (table_index_content k Hk Hne) as (row & Hrow & Hkey).
    change (with_tone k CHEWING_ZERO_TONE) with (with_tone k 0). rewrite <- Hkey.
    unfold pinyin_spelling, content_string. rewrite Hrow.
    by apply (from_pinyin_content (table_index k)).
Qed.

Lemma from_pinyin_inverse_witness :
  from_pinyin (str "zhuang") = Some (mk_key 23 2 4 0) /\
  pinyin_spelling (mk_key 23 2 4 0) = str "zhuang" /\
  from_pinyin (pinyin_spelling (mk_key 23 2 4 4)) = Some (mk_key 23 2 4 0).
Proof.
  assert (from_pinyin (str "zhuang") = Some (mk_key 23 2 4 0)) as E by (vm_compute; reflexivity).
  split; [exact E|]. split.
  - apply (from_pinyin_inverse (str "zhuang") (mk_key 23 2 4 0)), E.
  - apply (from_pinyin_inverse (str "zhuang") (mk_key 23 2 4 4));
      [unfold nonnegative; simpl; lia|vm_compute; discriminate].
Defined.
