(* ===== verification/Syllables.v ===== *)
(** * Syllables: the spelling inventory and its option-gated aliases

    [crates/oxpinyin-core/src/syllables.rs]: membership of the frozen
    inventories, the correction and ambiguity aliases an option word admits,
    and the initial of a spelling. The perfect-hash maps the build generates
    from the tables are the tables' own positions. *)

From Stdlib Require Import ZArith Lia Bool String Strings.Byte.
From stdpp Require Import base list strings.
From S2P Require Import Prelude Options SyllableData.

(** A generated map from spelling to table index. *)
Definition map_get (table : list bytes) (text : bytes) : option nat :=
  position (fun s => bool_decide (s = text)) table.

Definition full_pinyin_syllable (index : nat) : option bytes := FULL_PINYIN_SYLLABLES !! index.

Definition ends_with (text suffix : bytes) : bool :=
  bool_decide (drop (length text - length suffix) text = suffix).

Definition starts_with (text prefix : bytes) : bool :=
  bool_decide (take (length prefix) text = prefix).

Definition canonical_complete_syllable (text : bytes) : option bytes :=
  match (i ← map_get FULL_PINYIN_SYLLABLES text; full_pinyin_syllable i) with
  | Some c => Some c
  | None =>
      i ← map_get OPTION_ONLY_COMPLETE_SYLLABLES text;
      OPTION_ONLY_COMPLETE_SYLLABLES !! i
  end.

(** An empty stem is no row of the index. *)
Definition checked_canonical (text : bytes) (suffix_len : nat) (suffix : bytes) : option bytes :=
  if decide (length text < suffix_len) then None
  else
    let base_len := length text - suffix_len in
    if base_len =? 0 then None
    else canonical_complete_syllable (take base_len text ++ suffix).

Definition correction_canonical (text : bytes) (options : OptionBits) : option bytes :=
  if contains options PINYIN_CORRECT_GN_NG && ends_with text (str "gn") then
    checked_canonical text 2 (str "ng")
  else if contains options PINYIN_CORRECT_MG_NG && ends_with text (str "mg") then
    checked_canonical text 2 (str "ng")
  else if contains options PINYIN_CORRECT_IOU_IU && ends_with text (str "iou") then
    checked_canonical text 3 (str "iu")
  else if contains options PINYIN_CORRECT_UEI_UI && ends_with text (str "uei") then
    checked_canonical text 3 (str "ui")
  else if contains options PINYIN_CORRECT_UEN_UN && ends_with text (str "uen") then
    checked_canonical text 3 (str "un")
  else if contains options PINYIN_CORRECT_UE_VE && ends_with text (str "ue") then
    checked_canonical text 2 (str "ve")
  else
    let v_u :=
      match text with
      | b :: c :: rest =>
          if contains options PINYIN_CORRECT_V_U
             && existsb (fun x => bool_decide (x = b)) (str "jqxy") && bool_decide (c = x76)
          then Some (b :: x75 :: rest) else None
      | _ => None
      end in
    match v_u with
    | Some candidate => canonical_complete_syllable candidate
    | None =>
        if contains options PINYIN_CORRECT_ON_ONG && ends_with text (str "on")
           && (2 <? length text)
        then canonical_complete_syllable (text ++ str "g")
        else None
    end.

Definition ambiguity_canonical (text : bytes) (options : OptionBits) : option bytes :=
  if bool_decide (text = str "sua") && contains options PINYIN_AMB_S_SH then Some (str "shua")
  else if bool_decide (text = str "zua") && contains options PINYIN_AMB_Z_ZH then Some (str "zhua")
  else None.

Definition alias_bits : Z := Z.lor (Z.lor PINYIN_CORRECT_ALL PINYIN_AMB_S_SH) PINYIN_AMB_Z_ZH.

Definition option_alias_canonical (text : bytes) (options : OptionBits) : option bytes :=
  if (Z.land options alias_bits =? 0)%Z then None
  else match correction_canonical text options with
       | Some c => Some c
       | None => ambiguity_canonical text options
       end.

(** [max_by_key] keeps the last of equal maxima; lengths of prefixes of one
    text differ. *)
Definition syllable_initial (text : bytes) : option bytes :=
  fold_left (fun best key =>
      match best with
      | Some b => if length b <=? length key then Some key else best
      | None => Some key
      end)
    (filter (fun key => starts_with text key = true) INCOMPLETE_PINYIN_KEYS) None.

Definition phonetic_initial (text : bytes) : option bytes :=
  if bool_decide (text = str "ng") then None else syllable_initial text.

(** ** The alias relation

    What each option bit admits, as the rows of the parser's index: a spelling
    and the canonical syllable it stands for. *)

Definition suffix_rules : list (Z * bytes * bytes) :=
  [(PINYIN_CORRECT_GN_NG, str "gn", str "ng"); (PINYIN_CORRECT_MG_NG, str "mg", str "ng");
   (PINYIN_CORRECT_IOU_IU, str "iou", str "iu"); (PINYIN_CORRECT_UEI_UI, str "uei", str "ui");
   (PINYIN_CORRECT_UEN_UN, str "uen", str "un"); (PINYIN_CORRECT_UE_VE, str "ue", str "ve")].

Variant alias (options : OptionBits) : bytes -> bytes -> Prop :=
  | alias_suffix bit wrong fixed stem :
      (bit, wrong, fixed) ∈ suffix_rules -> contains options bit = true -> stem <> [] ->
      alias options (stem ++ wrong) (stem ++ fixed)
  | alias_v b rest :
      contains options PINYIN_CORRECT_V_U = true -> b ∈ str "jqxy" ->
      alias options (b :: x76 :: rest) (b :: x75 :: rest)
  | alias_on stem :
      contains options PINYIN_CORRECT_ON_ONG = true -> stem <> [] ->
      alias options (stem ++ str "on") (stem ++ str "on" ++ str "g")
  | alias_s_sh : contains options PINYIN_AMB_S_SH = true -> alias options (str "sua") (str "shua")
  | alias_z_zh : contains options PINYIN_AMB_Z_ZH = true -> alias options (str "zua") (str "zhua").

(** The complete syllables a parser reaches. *)
Definition reachable_syllables : list bytes :=
  FULL_PINYIN_SYLLABLES ++ OPTION_ONLY_COMPLETE_SYLLABLES.

Lemma map_get_spec table text :
  match map_get table text with
  | Some i => table !! i = Some text
  | None => text ∉ table
  end.
Proof.
  unfold map_get. pose proof (position_spec (fun s => bool_decide (s = text)) table) as H.
  destruct (position _ table).
  - destruct H as (x & Hx & <-%bool_decide_eq_true). done.
  - intros Hin%H. by apply bool_decide_eq_false in Hin.
Qed.

Lemma canonical_complete_spec text c :
  canonical_complete_syllable text = Some c <-> c = text /\ text ∈ reachable_syllables.
Proof.
  unfold canonical_complete_syllable, full_pinyin_syllable, reachable_syllables.
  pose proof (map_get_spec FULL_PINYIN_SYLLABLES text) as H1.
  pose proof (map_get_spec OPTION_ONLY_COMPLETE_SYLLABLES text) as H2.
  rewrite elem_of_app.
  destruct (map_get FULL_PINYIN_SYLLABLES text); cbn [mbind option_bind].
  { rewrite H1. split; [|intros [-> _]; done].
    intros [= <-]. split; [done|left]. by eapply list_elem_of_lookup_2. }
  destruct (map_get OPTION_ONLY_COMPLETE_SYLLABLES text); cbn [mbind option_bind].
  { rewrite H2. split; [|intros [-> _]; done].
    intros [= <-]. split; [done|right]. by eapply list_elem_of_lookup_2. }
  split; [done|]. intros [_ [?|?]]; done.
Qed.

Lemma ends_with_spec text suffix :
  ends_with text suffix = true <-> exists stem, text = stem ++ suffix.
Proof.
  unfold ends_with. rewrite bool_decide_eq_true. split.
  - intros H. exists (take (length text - length suffix) text). rewrite <- H at 2. by rewrite take_drop.
  - intros [stem ->]. rewrite length_app, Nat.add_sub. apply drop_app_length.
Qed.

(** ** The cascade as rules *)

Fixpoint apply_rules (rules : list (Z * bytes * bytes)) (text : bytes) (options : OptionBits)
    (otherwise : option bytes) : option bytes :=
  match rules with
  | [] => otherwise
  | (bit, wrong, fixed) :: rules =>
      if contains options bit && ends_with text wrong
      then checked_canonical text (length wrong) fixed
      else apply_rules rules text options otherwise
  end.

Definition v_u_candidate (text : bytes) (options : OptionBits) : option bytes :=
  match text with
  | b :: c :: rest =>
      if contains options PINYIN_CORRECT_V_U
         && existsb (fun x => bool_decide (x = b)) (str "jqxy") && bool_decide (c = x76)
      then Some (b :: x75 :: rest) else None
  | _ => None
  end.

Definition last_rules (text : bytes) (options : OptionBits) : option bytes :=
  match v_u_candidate text options with
  | Some candidate => canonical_complete_syllable candidate
  | None =>
      if contains options PINYIN_CORRECT_ON_ONG && ends_with text (str "on") && (2 <? length text)
      then canonical_complete_syllable (text ++ str "g")
      else None
  end.

Lemma correction_rules text options :
  correction_canonical text options =
  apply_rules suffix_rules text options (last_rules text options).
Proof. reflexivity. Qed.

Lemma checked_canonical_spec stem wrong fixed c :
  checked_canonical (stem ++ wrong) (length wrong) fixed = Some c <->
  stem <> [] /\ c = stem ++ fixed /\ c ∈ reachable_syllables.
Proof.
  unfold checked_canonical. rewrite length_app, decide_False, Nat.add_sub, take_app_length by lia.
  destruct stem as [|b stem]; [split; [done|by intros [? _]]|]. cbn [length Nat.eqb].
  rewrite canonical_complete_spec. split; [intros [-> ?]; done|intros (_ & -> & ?); done].
Qed.

Lemma v_u_candidate_spec text options candidate :
  v_u_candidate text options = Some candidate <->
  exists b rest, text = b :: x76 :: rest /\ candidate = b :: x75 :: rest /\
    b ∈ str "jqxy" /\ contains options PINYIN_CORRECT_V_U = true.
Proof.
  unfold v_u_candidate. destruct text as [|b [|c rest]]; [naive_solver..|].
  destruct (contains options PINYIN_CORRECT_V_U); cbn [andb]; [|naive_solver].
  destruct (existsb _ _) eqn:E; cbn [andb].
  - apply List.existsb_exists in E as (x & Hx%list_elem_of_In & ->%bool_decide_eq_true).
    case_bool_decide; naive_solver.
  - split; [done|]. intros (b' & rest' & [= -> -> ->] & _ & Hb & _).
    apply not_true_iff_false in E. destruct E. apply List.existsb_exists.
    exists b'. split; [by apply list_elem_of_In|by apply bool_decide_eq_true].
Qed.

Lemma suffix_of_longer (a b s s' : bytes) :
  a ++ s = b ++ s' -> length s <= length s' -> exists k, s' = k ++ s.
Proof.
  intros E Hle. apply (f_equal length) in E as El. rewrite !length_app in El.
  apply (f_equal (drop (length a))) in E. rewrite drop_app_length, drop_app_ge in E by lia.
  exists (take (length a - length b) s'). by rewrite E, take_drop.
Qed.

(** Two suffixes one text can end with: one ends with the other. *)
Lemma ends_with_compatible stem s s' :
  ends_with (stem ++ s) s' = true -> ends_with s s' || ends_with s' s = true.
Proof.
  rewrite orb_true_iff, !ends_with_spec. intros [stem' E].
  destruct (decide (length s <= length s')).
  - right. by apply (suffix_of_longer stem stem').
  - left. apply (suffix_of_longer stem' stem); [done|lia].
Qed.

(** No two suffixes of the cascade end one text. *)
Definition suffixes : list bytes := (snd ∘ fst <$> suffix_rules) ++ [str "on"].

Lemma suffixes_apart :
  forallb (fun s => forallb (fun s' =>
    bool_decide (s = s') || negb (ends_with s s' || ends_with s' s)) suffixes) suffixes = true.
Proof. vm_compute. reflexivity. Qed.

Lemma suffix_unique stem s s' :
  s ∈ suffixes -> s' ∈ suffixes -> ends_with (stem ++ s) s' = true -> s = s'.
Proof.
  intros Hs Hs' H%ends_with_compatible. pose proof suffixes_apart as Ha.
  rewrite List.forallb_forall in Ha. specialize (Ha s (proj1 (list_elem_of_In _ _) Hs)).
  rewrite List.forallb_forall in Ha. specialize (Ha s' (proj1 (list_elem_of_In _ _) Hs')).
  rewrite H, orb_false_r in Ha. by apply bool_decide_eq_true in Ha.
Qed.

(** What the frozen inventory has no syllable of: a corrected suffix after a
    [ju]-like onset, and an onset [jv]. *)
Definition v_onset (c : bytes) : bool :=
  match c with
  | b :: d :: _ => existsb (fun x => bool_decide (x = b)) (str "jqxy") && bool_decide (d = x76)
  | _ => false
  end.

Definition u_onset_rest (c : bytes) : option bytes :=
  match c with
  | b :: d :: rest =>
      if existsb (fun x => bool_decide (x = b)) (str "jqxy") && bool_decide (d = x75)
      then Some rest else None
  | _ => None
  end.

Lemma inventory_shapes :
  forallb (fun c => negb (v_onset c) &&
    match u_onset_rest c with
    | Some rest => forallb (fun s => negb (ends_with rest s)) (snd ∘ fst <$> suffix_rules)
    | None => true
    end) reachable_syllables = true.
Proof. vm_compute. reflexivity. Qed.

Definition fires (options : OptionBits) (text : bytes) (rule : Z * bytes * bytes) : Prop :=
  contains options rule.1.1 = true /\ ends_with text rule.1.2 = true.

Lemma apply_rules_spec rules text options otherwise c :
  (forall r r', r ∈ rules -> r' ∈ rules -> fires options text r -> fires options text r' -> r = r') ->
  apply_rules rules text options otherwise = Some c <->
  (exists bit wrong fixed stem, (bit, wrong, fixed) ∈ rules /\ contains options bit = true /\
     text = stem ++ wrong /\ stem <> [] /\ c = stem ++ fixed /\ c ∈ reachable_syllables) \/
  ((forall r, r ∈ rules -> ~ fires options text r) /\ otherwise = Some c).
Proof.
  induction rules as [|[[bit wrong] fixed] rules IH]; intros Huniq; cbn [apply_rules].
  { split; [intros ?; right; split; [intros ? []%not_elem_of_nil|done]|].
    intros [(? & ? & ? & ? & []%not_elem_of_nil & _)|[_ ?]]; done. }
  destruct (contains options bit && ends_with text wrong) eqn:E.
  - apply andb_true_iff in E as [Eb Ee].
    assert (fires options text (bit, wrong, fixed)) as Hf by done.
    pose proof Ee as [stem ->]%ends_with_spec. rewrite checked_canonical_spec. split.
    + intros (Hs & -> & Hr). left. exists bit, wrong, fixed, stem. by rewrite elem_of_cons; auto 10.
    + intros [(b' & w' & f' & stem' & Hin & Hb' & Et & Hs & -> & Hr)|[Hno _]].
      * assert ((b', w', f') = (bit, wrong, fixed)) as [= -> -> ->].
        { apply Huniq; [done|by left|split; [done|]|done]. apply ends_with_spec. by exists stem'. }
        apply app_inv_tail in Et as ->. done.
      * destruct (Hno (bit, wrong, fixed)); [by left|done].
  - assert (~ fires options text (bit, wrong, fixed)) as Hf.
    { intros [H1 H2]. simpl in H1, H2. by rewrite H1, H2 in E. }
    rewrite IH by (intros r r' Hr Hr'; apply Huniq; by right).
    split; (intros [(b' & w' & f' & stem' & Hin & Hb' & Et & H)|[Hno Ho]];
      [left; exists b', w', f', stem'|right]).
    + split; [by right|done].
    + split; [|done]. intros r [->|Hr]%elem_of_cons; [done|by apply Hno].
    + split; [|done]. apply elem_of_cons in Hin as [[= -> -> ->]|Hin]; [|done].
      destruct Hf. split; [done|]. apply ends_with_spec. by exists stem'.
    + split; [|done]. intros r Hr. apply Hno. by right.
Qed.

Lemma suffix_rule_in r : r ∈ suffix_rules -> r.1.2 ∈ suffixes.
Proof. intros H. unfold suffixes. apply elem_of_app. left. by apply (list_elem_of_fmap_2 (snd ∘ fst)). Qed.

Lemma suffix_rules_distinct r r' :
  r ∈ suffix_rules -> r' ∈ suffix_rules -> r.1.2 = r'.1.2 -> r = r'.
Proof.
  assert (forallb (fun r => forallb (fun r' => negb (bool_decide (r.1.2 = r'.1.2)) || bool_decide (r = r'))
    suffix_rules) suffix_rules = true) as H by (vm_compute; reflexivity).
  intros Hr Hr' E. rewrite List.forallb_forall in H.
  specialize (H r (proj1 (list_elem_of_In _ _) Hr)). rewrite List.forallb_forall in H.
  specialize (H r' (proj1 (list_elem_of_In _ _) Hr')).
  rewrite bool_decide_true in H by done. by apply bool_decide_eq_true in H.
Qed.

Lemma fires_unique options text r r' :
  r ∈ suffix_rules -> r' ∈ suffix_rules -> fires options text r -> fires options text r' -> r = r'.
Proof.
  intros Hr Hr' [_ [stem ->]%ends_with_spec] [_ H'].
  apply suffix_rules_distinct; [done..|].
  apply (suffix_unique stem); [by apply suffix_rule_in..|done].
Qed.

Lemma inventory_no_v b rest : b ∈ str "jqxy" -> (b :: x76 :: rest) ∉ reachable_syllables.
Proof.
  intros Hb Hin. pose proof inventory_shapes as H. rewrite List.forallb_forall in H.
  specialize (H _ (proj1 (list_elem_of_In _ _) Hin)). apply andb_true_iff in H as [H _].
  apply negb_true_iff in H. unfold v_onset in H. rewrite bool_decide_true, andb_true_r in H by done.
  apply not_true_iff_false in H. destruct H. apply List.existsb_exists.
  exists b. split; [by apply list_elem_of_In|by apply bool_decide_eq_true].
Qed.

Lemma inventory_u_rest b rest r :
  b ∈ str "jqxy" -> (b :: x75 :: rest) ∈ reachable_syllables -> r ∈ suffix_rules ->
  ends_with rest r.1.2 = false.
Proof.
  intros Hb Hin Hr. pose proof inventory_shapes as H. rewrite List.forallb_forall in H.
  specialize (H _ (proj1 (list_elem_of_In _ _) Hin)). apply andb_true_iff in H as [_ H].
  unfold u_onset_rest in H.
  assert (existsb (fun x => bool_decide (x = b)) (str "jqxy") = true) as Hj.
  { apply List.existsb_exists. exists b. split; [by apply list_elem_of_In|by apply bool_decide_eq_true]. }
  rewrite Hj, bool_decide_true in H by done. cbn [andb] in H. rewrite List.forallb_forall in H.
  apply negb_true_iff, H, list_elem_of_In. by apply (list_elem_of_fmap_2 (snd ∘ fst)).
Qed.

(** A corrected suffix holds no [v], so on a [jv] text it lies past the onset. *)
Lemma suffix_past_onset b rest r :
  r ∈ suffix_rules -> ends_with (b :: x76 :: rest) r.1.2 = true -> ends_with rest r.1.2 = true.
Proof.
  intros Hr [stem E]%ends_with_spec.
  assert (forallb (fun r => forallb (fun x => negb (bool_decide (x = x76))) r.1.2) suffix_rules = true) as H
    by (vm_compute; reflexivity).
  assert (x76 ∉ r.1.2) as Hv.
  { intros Hin. rewrite List.forallb_forall in H. specialize (H r (proj1 (list_elem_of_In _ _) Hr)).
    rewrite List.forallb_forall in H. specialize (H _ (proj1 (list_elem_of_In _ _) Hin)).
    by rewrite bool_decide_true in H. }
  apply ends_with_spec. destruct stem as [|b1 [|b2 stem]]; simplify_eq/=.
  - destruct Hv. rewrite <- E. right. left.
  - destruct Hv. match goal with E : _ = r.1.2 |- _ => rewrite <- E end. left.
  - by exists stem.
Qed.

Lemma last_rules_spec text options c :
  last_rules text options = Some c <->
  c ∈ reachable_syllables /\
  ((exists b rest, text = b :: x76 :: rest /\ c = b :: x75 :: rest /\ b ∈ str "jqxy" /\
      contains options PINYIN_CORRECT_V_U = true) \/
   (exists stem, text = stem ++ str "on" /\ c = stem ++ str "on" ++ str "g" /\ stem <> [] /\
      contains options PINYIN_CORRECT_ON_ONG = true)).
Proof.
  unfold last_rules. destruct (v_u_candidate text options) as [v|] eqn:E.
  - apply v_u_candidate_spec in E as (b & rest & -> & -> & Hb & Ho).
    rewrite canonical_complete_spec. split; [intros [-> Hr]; split; [done|left]; eauto 10|].
    intros [Hr [(b' & rest' & [= <- <-] & -> & _)|(stem & E & -> & Hs & _)]]; [done|].
    rewrite app_assoc, <- E in Hr. by apply inventory_no_v in Hr.
  - assert (forall b rest, text = b :: x76 :: rest -> b ∈ str "jqxy" ->
      contains options PINYIN_CORRECT_V_U = true -> False) as Hno.
    { intros b rest -> Hb Ho. by rewrite (proj2 (v_u_candidate_spec _ _ (b :: x75 :: rest))) in E; eauto 10. }
    destruct (contains options PINYIN_CORRECT_ON_ONG && ends_with text (str "on") && (2 <? length text)) eqn:Eo.
    + apply andb_true_iff in Eo as [[Ho [stem ->]%ends_with_spec]%andb_true_iff Hl%Nat.ltb_lt].
      rewrite canonical_complete_spec, <- app_assoc. split.
      * intros [-> Hr]. split; [done|right]. exists stem. split_and!; [done..| |done].
        intros ->. simpl in Hl. lia.
      * intros [Hr [(b & rest & ? & _ & ? & ?)|(stem' & Es & -> & _)]]; [naive_solver|].
        apply app_inv_tail in Es as ->. done.
    + split; [done|].
      intros [Hr [(b & rest & ? & _ & ? & ?)|(stem & -> & _ & Hs & Ho)]]; [naive_solver|].
      rewrite Ho, (proj2 (ends_with_spec _ _)) in Eo by eauto. apply Nat.ltb_ge in Eo.
      rewrite length_app in Eo. destruct stem; [done|simpl in Eo; lia].
Qed.

(** The two ambiguity spellings end with no corrected suffix. *)
Lemma correction_ambiguous options text :
  text ∈ [str "sua"; str "zua"] -> correction_canonical text options = None.
Proof.
  intros Hin. rewrite correction_rules. unfold last_rules, apply_rules, suffix_rules.
  assert (v_u_candidate text options = None) as ->.
  { unfold v_u_candidate.
    apply elem_of_cons in Hin as [->|[->|[]%not_elem_of_nil]%elem_of_cons]; cbn;
      by rewrite andb_false_r. }
  assert (forall s, s ∈ suffixes -> ends_with text s = false) as Hno.
  { assert (forallb (fun t => forallb (fun s => negb (ends_with t s)) suffixes)
      [str "sua"; str "zua"] = true) as H by (vm_compute; reflexivity).
    rewrite List.forallb_forall in H. specialize (H text (proj1 (list_elem_of_In _ _) Hin)).
    rewrite List.forallb_forall in H. intros s Hs. by apply negb_true_iff, H, list_elem_of_In. }
  rewrite !Hno by (refine (proj1 (bool_decide_eq_true _) _); vm_compute; reflexivity).
  by rewrite !andb_false_r.
Qed.

Lemma alias_reachable_correction options text c :
  alias options text c -> c ∈ reachable_syllables ->
  correction_canonical text options = Some c \/
  (correction_canonical text options = None /\ ambiguity_canonical text options = Some c).
Proof.
  intros Ha Hr. rewrite correction_rules.
  rewrite apply_rules_spec by (intros r r'; apply fires_unique). rewrite last_rules_spec.
  destruct Ha as [bit wrong fixed stem Hin Hb Hs|b rest Ho Hb|stem Ho Hs|Ho|Ho].
  - left. left. by exists bit, wrong, fixed, stem.
  - left. right. split; [|split; [done|]; left; eauto 10].
    intros r Hin [_ Hf]. apply (suffix_past_onset b rest r Hin) in Hf.
    by rewrite (inventory_u_rest b rest r) in Hf.
  - left. right. split; [|split; [done|]; right; eauto 10].
    intros r Hin [_ Hf]. apply (suffix_unique stem (str "on")) in Hf as Hf'.
    + assert (forallb (fun r => negb (bool_decide (str "on" = r.1.2))) suffix_rules = true) as H
        by (vm_compute; reflexivity).
      rewrite List.forallb_forall in H. specialize (H r (proj1 (list_elem_of_In _ _) Hin)).
      by rewrite bool_decide_true in H.
    + unfold suffixes. apply elem_of_app. right. by left.
    + by apply suffix_rule_in.
  - right. split; [|unfold ambiguity_canonical; by rewrite Ho].
    rewrite <- correction_rules. apply correction_ambiguous. by repeat constructor.
  - right. split; [|unfold ambiguity_canonical; by rewrite Ho].
    rewrite <- correction_rules. apply correction_ambiguous. by repeat constructor.
Qed.

Definition alias_bit_list : list Z :=
  (fst ∘ fst <$> suffix_rules) ++
  [PINYIN_CORRECT_V_U; PINYIN_CORRECT_ON_ONG; PINYIN_AMB_S_SH; PINYIN_AMB_Z_ZH].

(** The early return asks about no fewer bits than the rules do. *)
Lemma alias_bits_cover options bit :
  bit ∈ alias_bit_list -> contains options bit = true -> Z.land options alias_bits <> 0%Z.
Proof.
  intros Hin Hc Hz.
  assert (forallb (fun b => Z.land alias_bits b =? b)%Z alias_bit_list = true) as H
    by (vm_compute; reflexivity).
  rewrite List.forallb_forall in H. specialize (H bit (proj1 (list_elem_of_In _ _) Hin)).
  apply Z.eqb_eq in H. unfold contains in Hc. rewrite <- H, Z.land_assoc, Hz in Hc. done.
Qed.

Lemma single_alias_bits bit :
  bit ∈ [PINYIN_CORRECT_V_U; PINYIN_CORRECT_ON_ONG; PINYIN_AMB_S_SH; PINYIN_AMB_Z_ZH] ->
  bit ∈ alias_bit_list.
Proof. intros Hb. apply elem_of_app. by right. Qed.

Lemma alias_enabled options text c : alias options text c -> Z.land options alias_bits <> 0%Z.
Proof.
  intros [bit wrong fixed stem Hb Ho _|b rest Ho _|stem Ho _|Ho|Ho].
  - apply (alias_bits_cover _ bit); [|done]. apply elem_of_app. left.
    by apply (list_elem_of_fmap_2 (fst ∘ fst) _ (bit, wrong, fixed)).
  - apply (alias_bits_cover _ PINYIN_CORRECT_V_U), Ho. apply single_alias_bits. by repeat constructor.
  - apply (alias_bits_cover _ PINYIN_CORRECT_ON_ONG), Ho. apply single_alias_bits. by repeat constructor.
  - apply (alias_bits_cover _ PINYIN_AMB_S_SH), Ho. apply single_alias_bits. by repeat constructor.
  - apply (alias_bits_cover _ PINYIN_AMB_Z_ZH), Ho. apply single_alias_bits. by repeat constructor.
Qed.

Lemma ambiguity_spec options text c :
  ambiguity_canonical text options = Some c -> alias options text c /\ c ∈ reachable_syllables.
Proof.
  unfold ambiguity_canonical.
  assert (forall t, bool_decide (t ∈ reachable_syllables) = true -> t ∈ reachable_syllables) as Hdec
    by (intros t; apply bool_decide_eq_true).
  case_bool_decide as E1; [destruct (contains options PINYIN_AMB_S_SH) eqn:Ho|]; cbn [andb].
  - intros [= <-]. subst text. split; [by constructor|]. apply Hdec. vm_compute. reflexivity.
  - subst text. rewrite bool_decide_false by done. done.
  - case_bool_decide as E2; cbn [andb]; [|done].
    destruct (contains options PINYIN_AMB_Z_ZH) eqn:Ho; [|done].
    intros [= <-]. subst text. split; [by constructor|]. apply Hdec. vm_compute. reflexivity.
Qed.

Lemma option_alias_sound text options c :
  option_alias_canonical text options = Some c -> alias options text c /\ c ∈ reachable_syllables.
Proof.
  unfold option_alias_canonical. destruct (Z.land options alias_bits =? 0)%Z; [done|].
  destruct (correction_canonical text options) as [c'|] eqn:E; [|apply ambiguity_spec].
  intros [= ->]. rewrite correction_rules in E.
  rewrite apply_rules_spec in E by (intros r r'; apply fires_unique).
  rewrite last_rules_spec in E.
  destruct E as [(bit & wrong & fixed & stem & Hin & Hb & -> & Hs & -> & Hr)|[_ [Hr [E|E]]]].
  - split; [by apply (alias_suffix _ bit)|done].
  - destruct E as (b & rest & -> & -> & Hb & Ho). split; [by constructor|done].
  - destruct E as (stem & -> & -> & Hs & Ho). split; [by constructor|done].
Qed.

Lemma option_alias_found text options c :
  alias options text c -> c ∈ reachable_syllables -> option_alias_canonical text options = Some c.
Proof.
  intros Ha Hr. unfold option_alias_canonical.
  rewrite (proj2 (Z.eqb_neq _ _)) by by eapply alias_enabled.
  destruct (alias_reachable_correction _ _ _ Ha Hr) as [->|[-> ->]]; done.
Qed.

(** The alias cascade is the parser index's alias relation. An option
    word admits a spelling for a canonical syllable exactly when some enabled
    bit's row pairs them and the syllable is in the inventory: the early
    return on the option word, the order of the rules and the first match
    they stop at are not observable. *)
Theorem option_alias_relation (text : bytes) (options : OptionBits) (c : bytes) :
  option_alias_canonical text options = Some c <->
  alias options text c /\ c ∈ reachable_syllables.
Proof. split; [apply option_alias_sound|intros []; by apply option_alias_found]. Qed.
