(* ===== verification/Vocab.v ===== *)
(** * Vocab: the decoder's key ids

    [SyllableKey] and the fuzzy alternates of
    [crates/oxpinyin-core/src/vocab.rs]: dense frozen ids over the four
    inventories, their spellings and packed keys. *)

From Stdlib Require Import ZArith Lia Bool String Strings.Byte.
From stdpp Require Import base list strings.
From S2P Require Import Prelude Options SyllableData ContentData Chewing Syllables.

Inductive Completeness : Type := Complete | Partial.

#[export] Instance Completeness_eq_dec : EqDecision Completeness.
Proof. solve_decision. Defined.

Definition SYLLABLE_KEY_COUNT : nat :=
  FULL_PINYIN_SYLLABLE_COUNT + INCOMPLETE_PINYIN_KEY_COUNT
    + OPTION_ONLY_COMPLETE_SYLLABLE_COUNT + ZHUYIN_ONLY_COMPLETE_SYLLABLE_COUNT.

(** The dense id of a key. *)
Record SyllableKey : Type := mk_syllable { index : nat }.

#[export] Instance SyllableKey_eq_dec : EqDecision SyllableKey.
Proof. solve_decision. Defined.

Definition from_index (i : nat) : option SyllableKey :=
  if SYLLABLE_KEY_COUNT <=? i then None else Some (mk_syllable i).

Definition from_text (text : bytes) : option SyllableKey :=
  match map_get FULL_PINYIN_SYLLABLES text with
  | Some i => from_index i
  | None =>
      i ← map_get INCOMPLETE_PINYIN_KEYS text; from_index (FULL_PINYIN_SYLLABLE_COUNT + i)
  end.

Definition option_start : nat := FULL_PINYIN_SYLLABLE_COUNT + INCOMPLETE_PINYIN_KEY_COUNT.
Definition zhuyin_start : nat := option_start + OPTION_ONLY_COMPLETE_SYLLABLE_COUNT.

Definition from_canonical_text (text : bytes) : option SyllableKey :=
  match map_get FULL_PINYIN_SYLLABLES text with
  | Some i => from_index i
  | None =>
      match map_get INCOMPLETE_PINYIN_KEYS text with
      | Some i => from_index (FULL_PINYIN_SYLLABLE_COUNT + i)
      | None =>
          match map_get OPTION_ONLY_COMPLETE_SYLLABLES text with
          | Some i => from_index (option_start + i)
          | None =>
              i ← map_get ZHUYIN_ONLY_COMPLETE_SYLLABLES text; from_index (zhuyin_start + i)
          end
      end
  end.

Definition from_chewing_key (key : ChewingKey) : option SyllableKey :=
  if table_index key =? 0 then None else from_canonical_text (pinyin_spelling key).

(** The matched row's key and correction distance. *)
Definition from_option_text_with_distance (text : bytes) (options : OptionBits)
    : option (SyllableKey * Z) :=
  match from_text text with
  | Some key => Some (key, 0%Z)
  | None =>
      canonical ← option_alias_canonical text options;
      (fun key => (key, 1%Z)) <$> from_canonical_text canonical
  end.

Definition from_option_text (text : bytes) (options : OptionBits) : option SyllableKey :=
  fst <$> from_option_text_with_distance text options.

Definition key_text (key : SyllableKey) : bytes :=
  let i := index key in
  match full_pinyin_syllable i with
  | Some s => s
  | None =>
      match INCOMPLETE_PINYIN_KEYS !! (i - FULL_PINYIN_SYLLABLE_COUNT) with
      | Some s => s
      | None =>
          match OPTION_ONLY_COMPLETE_SYLLABLES !! (i - option_start) with
          | Some s => s
          | None => default [] (ZHUYIN_ONLY_COMPLETE_SYLLABLES !! (i - zhuyin_start))
          end
      end
  end.

Definition completeness (key : SyllableKey) : Completeness :=
  if (index key <? FULL_PINYIN_SYLLABLE_COUNT)
     || (FULL_PINYIN_SYLLABLE_COUNT + INCOMPLETE_PINYIN_KEY_COUNT <=? index key)
  then Complete else Partial.

Definition key_len (key : SyllableKey) : nat := length (key_text key).

(** The build's [CHEWING_KEYS]: one tone-zero key per id, from the first
    content row after row zero with the spelling. *)
Definition generated_spellings : list bytes :=
  FULL_PINYIN_SYLLABLES ++ INCOMPLETE_PINYIN_KEYS
    ++ OPTION_ONLY_COMPLETE_SYLLABLES ++ ZHUYIN_ONLY_COMPLETE_SYLLABLES.

Definition content_row (spelling : bytes) : option ContentItem :=
  i ← position (fun row => bool_decide (pinyin row = spelling)) (drop 1 CONTENT_TABLE);
  drop 1 CONTENT_TABLE !! i.

Definition CHEWING_KEYS : list ChewingKey := Eval vm_compute in
  omap (fun s => row_key <$> content_row s) generated_spellings.

Definition chewing_key (key : SyllableKey) : ChewingKey := default ZERO (CHEWING_KEYS !! index key).

(** ** Fuzzy alternates *)

Definition initial_swaps : list (Z * bytes * bytes) :=
  [(PINYIN_AMB_C_CH, str "c", str "ch"); (PINYIN_AMB_Z_ZH, str "z", str "zh");
   (PINYIN_AMB_S_SH, str "s", str "sh"); (PINYIN_AMB_L_R, str "l", str "r");
   (PINYIN_AMB_L_N, str "l", str "n"); (PINYIN_AMB_F_H, str "f", str "h");
   (PINYIN_AMB_G_K, str "g", str "k")].

Definition final_swaps : list (Z * bytes * bytes) :=
  [(PINYIN_AMB_AN_ANG, str "an", str "ang"); (PINYIN_AMB_EN_ENG, str "en", str "eng");
   (PINYIN_AMB_IN_ING, str "in", str "ing")].

Definition set_initial (k : ChewingKey) (i : Z) : ChewingKey := mk_key i (middle k) (final_ k) (tone k).
Definition set_final (k : ChewingKey) (f : Z) : ChewingKey := mk_key (initial k) (middle k) f (tone k).

(** One swap of the initial loop: both directions, kept when the table has
    the result. *)
Definition swap_initial (key : ChewingKey) (options : OptionBits) (swap : Z * bytes * bytes)
    : list ChewingKey :=
  let '(bit, a, b) := swap in
  if negb (contains options bit) then []
  else
    match from_pinyin a, from_pinyin b with
    | Some a, Some b =>
        [(initial a, initial b); (initial b, initial a)] ≫= fun '(from, to) =>
          if (initial key =? from)%Z then
            let alternate := set_initial key to in
            if table_index alternate =? 0 then [] else [alternate]
          else []
    | _, _ => []
    end.

Definition swap_final (source : ChewingKey) (options : OptionBits) (swap : Z * bytes * bytes)
    : list ChewingKey :=
  let '(bit, a, b) := swap in
  if negb (contains options bit) then []
  else
    match from_pinyin a, from_pinyin b with
    | Some a, Some b =>
        [(final_ a, final_ b); (final_ b, final_ a)] ≫= fun '(from, to) =>
          if (final_ source =? from)%Z then [set_final source to] else []
    | _, _ => []
    end.

Definition fuzzy_chewing_alternatives (key : ChewingKey) (options : OptionBits) : list ChewingKey :=
  let initials := initial_swaps ≫= swap_initial key options in
  initials ++ ((key :: initials) ≫= fun source => final_swaps ≫= swap_final source options).

Definition fuzzy_alternatives (key : SyllableKey) (options : OptionBits) : list SyllableKey :=
  omap from_chewing_key (fuzzy_chewing_alternatives (chewing_key key) options).

(** ** The ids, the spellings and the packed keys agree *)

Definition key_checked (i : nat) : bool :=
  let k := mk_syllable i in
  bool_decide (from_canonical_text (key_text k) = Some k) &&
  bool_decide (from_text (key_text k) = if i <? option_start then Some k else None) &&
  bool_decide (generated_spellings !! i = Some (key_text k)) &&
  bool_decide (from_pinyin (key_text k) = Some (chewing_key k)) &&
  negb (table_index (chewing_key k) =? 0).

Lemma keys_checked :
  forallb key_checked (seq 0 SYLLABLE_KEY_COUNT) && (length generated_spellings =? SYLLABLE_KEY_COUNT)
  && forallb (fun row => bool_decide (row ∈ generated_spellings)) (tail (pinyin <$> CONTENT_TABLE)) = true.
Proof. vm_compute. reflexivity. Qed.

#[local] Opaque CONTENT_TABLE CHEWING_KEY_TABLE CHEWING_KEYS FULL_PINYIN_SYLLABLES.

Lemma key_checked_at key :
  index key < SYLLABLE_KEY_COUNT -> key_checked (index key) = true.
Proof.
  intros H. pose proof keys_checked as [[Hk _]%andb_true_iff _]%andb_true_iff.
  exact (forallb_seq _ _ _ Hk H).
Qed.

Lemma key_facts key :
  index key < SYLLABLE_KEY_COUNT ->
  from_canonical_text (key_text key) = Some key /\
  from_text (key_text key) = (if index key <? option_start then Some key else None) /\
  generated_spellings !! index key = Some (key_text key) /\
  from_pinyin (key_text key) = Some (chewing_key key) /\
  table_index (chewing_key key) <> 0.
Proof.
  intros H%key_checked_at. destruct key as [i]. unfold key_checked in H. cbn [index] in H |- *.
  rewrite !andb_true_iff, !bool_decide_eq_true, negb_true_iff, Nat.eqb_neq in H. tauto.
Qed.

(** Spellings are the generator's list. *)
Lemma generated_length : length generated_spellings = SYLLABLE_KEY_COUNT.
Proof.
  pose proof keys_checked as [[_ H]%andb_true_iff _]%andb_true_iff. by apply Nat.eqb_eq.
Qed.

Lemma key_text_spelling i text :
  generated_spellings !! i = Some text -> i < SYLLABLE_KEY_COUNT /\ key_text (mk_syllable i) = text.
Proof.
  intros Hi. assert (i < SYLLABLE_KEY_COUNT) as Hlt
    by (rewrite <- generated_length; by eapply lookup_lt_Some).
  split; [done|]. destruct (key_facts (mk_syllable i) Hlt) as (_ & _ & Hg & _).
  cbn [index] in Hg. congruence.
Qed.

Lemma from_canonical_text_spelling text key :
  from_canonical_text text = Some key -> generated_spellings !! index key = Some text.
Proof.
  unfold from_canonical_text, generated_spellings, zhuyin_start, option_start.
  pose proof (map_get_spec FULL_PINYIN_SYLLABLES text) as H1.
  pose proof (map_get_spec INCOMPLETE_PINYIN_KEYS text) as H2.
  pose proof (map_get_spec OPTION_ONLY_COMPLETE_SYLLABLES text) as H3.
  pose proof (map_get_spec ZHUYIN_ONLY_COMPLETE_SYLLABLES text) as H4.
  assert (length FULL_PINYIN_SYLLABLES = FULL_PINYIN_SYLLABLE_COUNT /\
          length INCOMPLETE_PINYIN_KEYS = INCOMPLETE_PINYIN_KEY_COUNT /\
          length OPTION_ONLY_COMPLETE_SYLLABLES = OPTION_ONLY_COMPLETE_SYLLABLE_COUNT) as (L1 & L2 & L3)
    by (split_and!; vm_compute; reflexivity).
  assert (forall i key, from_index i = Some key -> index key = i) as Hi.
  { intros i k. unfold from_index. by destruct (SYLLABLE_KEY_COUNT <=? i); intros [= <-]. }
  destruct (map_get FULL_PINYIN_SYLLABLES text).
  { intros ->%Hi. by apply lookup_app_l_Some. }
  rewrite <- L1. destruct (map_get INCOMPLETE_PINYIN_KEYS text).
  { intros ->%Hi. rewrite lookup_app_plus. by apply lookup_app_l_Some. }
  rewrite <- L2. destruct (map_get OPTION_ONLY_COMPLETE_SYLLABLES text).
  { intros ->%Hi. rewrite <- Nat.add_assoc, !lookup_app_plus. by apply lookup_app_l_Some. }
  rewrite <- L3. destruct (map_get ZHUYIN_ONLY_COMPLETE_SYLLABLES text); [|done]. cbn [mbind option_bind].
  intros ->%Hi. by rewrite <- !Nat.add_assoc, !lookup_app_plus.
Qed.

Lemma from_canonical_text_inv text key :
  from_canonical_text text = Some key -> index key < SYLLABLE_KEY_COUNT /\ key_text key = text.
Proof.
  intros H%from_canonical_text_spelling. apply key_text_spelling in H. by destruct key.
Qed.

Lemma content_spellings row i :
  CONTENT_TABLE !! S i = Some row -> pinyin row ∈ generated_spellings.
Proof.
  intros Hrow. pose proof keys_checked as [_ H]%andb_true_iff.
  refine (proj1 (bool_decide_eq_true _) (forallb_elem _ _ _ H _)). clear H.
  apply (list_elem_of_lookup_2 _ i). rewrite lookup_tail, list_lookup_fmap. by rewrite Hrow.
Qed.

(** Ids, spellings and packed keys name each other one to one. Every id
    is found again from its canonical spelling and from its packed key
    whatever tone it carries, its packed key is its spelling's; [from_text]
    finds exactly the ids the full-pinyin surface has; a spelling is found
    only for the id that spells it; and every key the pin's table holds has
    an id. *)
Theorem syllable_key_ids (key : SyllableKey) (t : Z) (text : bytes) (c : ChewingKey)
    (Hkey : index key < SYLLABLE_KEY_COUNT) (Hc : nonnegative c) (Hvalid : table_index c <> 0) :
  from_canonical_text (key_text key) = Some key /\
  from_text (key_text key) = (if index key <? option_start then Some key else None) /\
  from_pinyin (key_text key) = Some (chewing_key key) /\
  from_chewing_key (with_tone (chewing_key key) t) = Some key /\
  (from_canonical_text text = Some key -> text = key_text key) /\
  (exists k, from_chewing_key c = Some k /\ chewing_key k = with_tone c CHEWING_ZERO_TONE).
Proof.
  destruct (key_facts key Hkey) as (H1 & H2 & _ & H4 & H5).
  split_and!; [done..| | |].
  - unfold from_chewing_key. rewrite table_index_tone, (proj2 (Nat.eqb_neq _ _) H5).
    replace (pinyin_spelling (with_tone (chewing_key key) t)) with (key_text key); [done|].
    symmetry. by apply from_pinyin_spelling in H4 as [H4 _].
  - by intros [_ ->]%from_canonical_text_inv.
  - destruct (table_index_content c Hc Hvalid) as (row & Hrow & Hk).
    destruct (table_index c) as [|i] eqn:Ei; [done|].
    pose proof (content_spellings row i Hrow) as [j Hj]%list_elem_of_lookup.
    destruct (key_text_spelling j _ Hj) as [Hlt Et].
    destruct (key_facts (mk_syllable j) Hlt) as (F1 & _ & _ & F4 & _).
    exists (mk_syllable j). unfold from_chewing_key. rewrite Ei. cbn [Nat.eqb].
    unfold pinyin_spelling, content_string. rewrite Ei, Hrow. cbn [mbind option_bind default].
    rewrite Et in F1, F4. split; [exact F1|]. change (with_tone c CHEWING_ZERO_TONE) with (with_tone c 0).
    rewrite <- Hk. rewrite (from_pinyin_content (S i) row Hrow) in F4. by injection F4 as ->.
Qed.

Lemma syllable_key_ids_witness :
  from_chewing_key (with_tone (chewing_key (mk_syllable 437)) 3) = Some (mk_syllable 437) /\
  key_text (mk_syllable 437) = str "rua" /\
  exists k, from_chewing_key (mk_key 23 2 4 5) = Some k /\ chewing_key k = mk_key 23 2 4 0.
Proof.
  destruct (syllable_key_ids (mk_syllable 437) 3 (str "rua") (mk_key 23 2 4 5)) as (_ & _ & _ & H & _ & H').
  - cbn [index]. unfold SYLLABLE_KEY_COUNT. apply Nat.ltb_lt. vm_compute. reflexivity.
  - unfold nonnegative; simpl; lia.
  - vm_compute. discriminate.
  - split; [exact H|]. split; [vm_compute; reflexivity|exact H'].
Defined.

(** ** Option-gated spellings *)

(** Every bit an alias rule can ask about, set. *)
Definition all_alias_options : OptionBits := alias_bits.

Lemma alias_more options options' text c :
  (forall bit, bit ∈ alias_bit_list -> contains options bit = true -> contains options' bit = true) ->
  alias options text c -> alias options' text c.
Proof.
  intros Hall [bit wrong fixed stem Hb Ho Hs|b rest Ho Hb|stem Ho Hs|Ho|Ho].
  - apply (alias_suffix _ bit); [done| |done]. apply Hall; [|done]. apply elem_of_app. left.
    by apply (list_elem_of_fmap_2 (fst ∘ fst) _ (bit, wrong, fixed)).
  - constructor; [|done]. apply Hall; [|done]. apply single_alias_bits. by repeat constructor.
  - constructor; [|done]. apply Hall; [|done]. apply single_alias_bits. by repeat constructor.
  - constructor. apply Hall; [|done]. apply single_alias_bits. by repeat constructor.
  - constructor. apply Hall; [|done]. apply single_alias_bits. by repeat constructor.
Qed.

Lemma alias_mono options text c : alias options text c -> alias all_alias_options text c.
Proof.
  apply alias_more. intros bit Hb _.
  assert (forallb (fun b => contains all_alias_options b) alias_bit_list = true) as H
    by (vm_compute; reflexivity). apply (forallb_elem _ _ _ H Hb).
Qed.

(** No exact spelling of the full-pinyin surface is also an alias. *)
Definition exact_spellings : list bytes := FULL_PINYIN_SYLLABLES ++ INCOMPLETE_PINYIN_KEYS.

Lemma exact_not_alias options text c :
  text ∈ exact_spellings -> alias options text c -> c ∉ reachable_syllables.
Proof.
  assert (forallb (fun t => match option_alias_canonical t all_alias_options with
                            | None => true | Some _ => false end) exact_spellings = true) as H
    by (vm_compute; reflexivity).
  intros Hin Ha%alias_mono Hr. pose proof (forallb_elem _ _ _ H Hin) as Hn. clear H. simpl in Hn.
  by rewrite (option_alias_found text all_alias_options c) in Hn.
Qed.

Lemma from_text_exact text key : from_text text = Some key -> text ∈ exact_spellings.
Proof.
  unfold from_text, exact_spellings. rewrite elem_of_app.
  pose proof (map_get_spec FULL_PINYIN_SYLLABLES text) as H1.
  pose proof (map_get_spec INCOMPLETE_PINYIN_KEYS text) as H2.
  destruct (map_get FULL_PINYIN_SYLLABLES text) as [i|].
  { intros _. left. by apply (list_elem_of_lookup_2 _ i). }
  destruct (map_get INCOMPLETE_PINYIN_KEYS text) as [i|]; [|done].
  intros _. right. by apply (list_elem_of_lookup_2 _ i).
Qed.

Lemma reachable_canonical c :
  c ∈ reachable_syllables -> exists key, from_canonical_text c = Some key /\ completeness key = Complete.
Proof.
  assert (forallb (fun c => match from_canonical_text c with
                            | Some k => bool_decide (completeness k = Complete)
                            | None => false end) reachable_syllables = true) as H
    by (vm_compute; reflexivity).
  intros Hc. pose proof (forallb_elem _ _ _ H Hc) as Hk. clear H. simpl in Hk.
  destruct (from_canonical_text c) as [k|]; [|done]. exists k.
  by apply bool_decide_eq_true in Hk.
Qed.

(** The correction distance tells an exact spelling from an alias. Under
    any option word a spelling is answered with distance 0 exactly when it is
    a full-pinyin or initial-only spelling, whatever the word, and with
    distance 1 exactly when an enabled row of the alias relation gives it a
    canonical complete syllable; no spelling is both, so the order of the two
    lookups is not observable. *)
Theorem option_text_distance (text : bytes) (options : OptionBits) (key : SyllableKey) (d : Z) :
  from_option_text_with_distance text options = Some (key, d) <->
  (d = 0%Z /\ from_text text = Some key) \/
  (d = 1%Z /\ completeness key = Complete /\
   exists c, alias options text c /\ c ∈ reachable_syllables /\ from_canonical_text c = Some key).
Proof.
  unfold from_option_text_with_distance. destruct (from_text text) as [k|] eqn:E.
  - split; [intros [= <- <-]; by left|].
    intros [[-> [= ->]]|(_ & _ & c & Ha & Hr & _)]; [done|].
    by destruct (exact_not_alias options text c (from_text_exact _ _ E) Ha).
  - split.
    + destruct (option_alias_canonical text options) as [c|] eqn:Ec; [|done].
      apply option_alias_sound in Ec as [Ha Hr].
      destruct (reachable_canonical c Hr) as (k & Hk & Hcomp). cbn [mbind option_bind].
      rewrite Hk. intros [= <- <-]. right. eauto 10.
    + intros [[_ ?]|(-> & _ & c & Ha & Hr & Hk)]; [done|].
      rewrite (option_alias_found text options c) by done.
      cbn [mbind option_bind]. by rewrite Hk.
Qed.
