(* ===== verification/Graph.v ===== *)
(** * Graph: the weighted segment graph

    [crates/oxpinyin-core/src/graph.rs]: one edge per key match between byte
    positions, the positions a path reaches, and the fewest-keys path. A
    position is a [nat]; the conversions to the [u32]s an edge stores are
    written out where the source makes them. *)

From Stdlib Require Import ZArith Lia Bool String Strings.Byte.
From stdpp Require Import base list sorting strings.
From S2P Require Import Prelude Options SyllableData Syllables Vocab.

Definition MAX_GRAPH_POSITION : Z := (u32_max - 1)%Z.

Inductive GraphError : Type :=
  | InputTooLong (len limit : Z)
  | ExactSegmentsInvalid.

Record ExactSegment : Type := mk_segment {
  seg_start : nat; seg_end : nat; seg_key : SyllableKey; seg_tone : Z
}.

Inductive EdgeKind : Type := Exact | Segmentation | Incomplete.

#[export] Instance EdgeKind_eq_dec : EqDecision EdgeKind.
Proof. solve_decision. Defined.

Definition kind_completeness (k : EdgeKind) : Completeness :=
  match k with Exact | Segmentation => Complete | Incomplete => Partial end.

Record Edge : Type := mk_edge {
  from : nat; to : nat; syllable_start : nat;
  key : SyllableKey; kind : EdgeKind; tone : Z; distance : Z
}.

#[export] Instance Edge_eq_dec : EqDecision Edge.
Proof. solve_decision. Defined.

Definition crosses_separator (e : Edge) : bool := from e <? syllable_start e.

Record SegmentGraph : Type := mk_graph {
  input_len : nat; edges : list Edge; starts : list nat;
  reachable : list bool; consumed : nat
}.

(** [u32::try_from(n).ok()]. *)
Definition u32_ok (n : nat) : bool := (Z.of_nat n <=? u32_max)%Z.

Definition apostrophe : byte := x27.

(** The tone digit a span ends with, and the letters before it up to a NUL. *)
Definition tone_split (text : bytes) (use_tone force_tone : bool) : option (bytes * Z) :=
  let '(core, tone) :=
    match last text with
    | Some digit =>
        if in_range 49 53 digit && use_tone
        then (take (length text - 1) text, (byte_val digit - 48)%Z)
        else (text, 0%Z)
    | None => (text, 0%Z)
    end in
  if force_tone && (tone =? 0)%Z then None
  else
    let core := take (default (length core) (position (fun b => bool_decide (b = x00)) core)) core in
    if negb (bool_decide (core = [])) && forallb is_ascii_lowercase core
    then Some (core, tone) else None.

(** The end of the apostrophe run at [node], from the cached [run_end]. *)
Definition key_start (input : bytes) (node run_end : nat) : option nat * nat :=
  match input !! node with
  | None => (None, run_end)
  | Some b =>
      if bool_decide (b = apostrophe) then
        let run_end :=
          if run_end <=? node then
            match position (fun b => negb (bool_decide (b = apostrophe))) (drop node input) with
            | Some offset => node + offset
            | None => length input
            end
          else run_end in
        (if run_end <? length input then Some run_end else None, run_end)
      else (Some node, run_end)
  end.

Definition key_for_spelling (text : bytes) (options : OptionBits) : option (SyllableKey * Z) :=
  spelling ← from_utf8 text; from_option_text_with_distance spelling options.

(** The match of the span of [length] bytes at [syllable_start]. *)
Definition parse_span (input : bytes) (syllable_start length_ : nat) (options : OptionBits)
    : option (SyllableKey * Z * Z) :=
  let use_tone := contains options USE_TONE in
  let force_tone := use_tone && contains options FORCE_TONE in
  if Nat.min (MAX_SYLLABLE_LEN + 1) (length input - syllable_start) <? length_ then None
  else
    '(core, tone) ← tone_split (take length_ (drop syllable_start input)) use_tone force_tone;
    '(key, distance) ← key_for_spelling core options;
    Some (key, tone, distance).

Definition parsed_spans (input : bytes) (syllable_start : nat) (options : OptionBits)
    : list (option (SyllableKey * Z * Z)) :=
  (fun index => parse_span input syllable_start (S index) options) <$> seq 0 (MAX_SYLLABLE_LEN + 1).

(** [rposition(..).map(|index| index + 1)]. *)
Definition span_complete (span : option (SyllableKey * Z * Z)) : bool :=
  match span with Some (key, _, _) => bool_decide (completeness key = Complete) | None => false end.

Fixpoint last_complete (spans : list (option (SyllableKey * Z * Z))) : option nat :=
  match spans with
  | [] => None
  | span :: spans =>
      match last_complete spans with
      | Some n => Some (S n)
      | None => if span_complete span then Some 1 else None
      end
  end.

Definition edge_kind (key : SyllableKey) (longest_complete : option nat) (length_ : nat) : EdgeKind :=
  match completeness key with
  | Complete =>
      if bool_decide (longest_complete = Some length_) then Exact else Segmentation
  | Partial => Incomplete
  end.

Definition emit_edges (input : bytes) (node syllable_start : nat) (options : OptionBits)
    : list Edge :=
  let spans := parsed_spans input syllable_start options in
  let longest_complete := last_complete spans in
  reverse (imap pair spans) ≫= fun '(index, span) =>
    match span with
    | None => []
    | Some (key, tone, distance) =>
        let length_ := index + 1 in
        let end_ := syllable_start + length_ in
        if u32_ok node && u32_ok end_ && u32_ok syllable_start then
          [{| from := node; to := end_; syllable_start := syllable_start; key := key;
              kind := edge_kind key longest_complete length_; tone := tone;
              distance := distance |}]
        else []
    end.

(** The pass that fills [edges] and [starts]. *)
Definition build_node (input : bytes) (options : OptionBits)
    (st : list Edge * list nat * nat) (node : nat) : list Edge * list nat * nat :=
  let '(edges, starts, run_end) := st in
  let starts := starts ++ [length edges] in
  match key_start input node run_end with
  | (Some syllable_start, run_end) =>
      (edges ++ emit_edges input node syllable_start options, starts, run_end)
  | (None, run_end) => (edges, starts, run_end)
  end.

(** The slice [edges[starts[node]..starts[node + 1]]]. *)
Definition node_edges (edges : list Edge) (starts : list nat) (node : nat) : list Edge :=
  match starts !! node, starts !! (node + 1) with
  | Some a, Some b => default [] (subslice edges a b)
  | _, _ => []
  end.

(** The pass that fills [reachable] and [consumed]. *)
Definition reach_node (input : bytes) (edges : list Edge) (starts : list nat)
    (st : list bool * nat) (node : nat) : list bool * nat :=
  let '(reachable, consumed) := st in
  if negb (default false (reachable !! node)) then (reachable, consumed)
  else
    let reachable :=
      if (node + 1 <? length input + 1) && bool_decide (input !! node = Some apostrophe)
      then <[node + 1 := true]> reachable else reachable in
    (fold_left (fun r e => <[to e := true]> r) (node_edges edges starts node) reachable, node).

Definition build_with_options (input : bytes) (options : OptionBits)
    : result SegmentGraph GraphError :=
  if (MAX_GRAPH_POSITION <? Z.of_nat (length input))%Z
  then Err (InputTooLong (Z.of_nat (length input)) MAX_GRAPH_POSITION)
  else
    let node_count := length input + 1 in
    let '(edges, starts, _) :=
      fold_left (build_node input options) (seq 0 node_count) ([], [], 0) in
    let starts := starts ++ [length edges] in
    let '(reachable, consumed) :=
      fold_left (reach_node input edges starts) (seq 0 node_count)
        (<[0 := true]> (replicate node_count false), 0) in
    Ok {| input_len := length input; edges := edges; starts := starts;
          reachable := reachable; consumed := consumed |}.

Definition build (input : bytes) : result SegmentGraph GraphError :=
  build_with_options input OptionBits_default.

(** ** Pre-parsed input *)

Fixpoint exact_edges (input : bytes) (segments : list ExactSegment) (previous_end : nat)
    : result (list Edge) GraphError :=
  match segments with
  | [] => Ok []
  | s :: segments =>
      if (seg_end s <=? seg_start s) || (seg_start s <? previous_end) || (length input <? seg_end s)
         || negb (forallb (fun b => bool_decide (b = apostrophe))
                    (default [] (subslice input previous_end (seg_start s))))
      then Err ExactSegmentsInvalid
      else if u32_ok previous_end && u32_ok (seg_end s) && u32_ok (seg_start s) then
        match exact_edges input segments (seg_end s) with
        | Ok edges =>
            Ok ({| from := previous_end; to := seg_end s; syllable_start := seg_start s;
                   key := seg_key s; kind := Exact; tone := seg_tone s; distance := 0 |} :: edges)
        | Err e => Err e
        end
      else Err ExactSegmentsInvalid
  end.

(** The [while] loop that moves the cursor to the first edge from [node]. *)
Fixpoint advance (edges : list Edge) (node cursor : nat) : nat :=
  match edges with
  | [] => cursor
  | e :: edges => if from e <? node then advance edges node (S cursor) else cursor
  end.

Definition exact_starts (edges : list Edge) (node_count : nat) : list nat :=
  (fold_left (fun '(starts, cursor) node =>
      let cursor := advance (drop cursor edges) node cursor in
      (starts ++ [cursor], cursor))
    (seq 0 (node_count + 1)) ([], 0)).1.

Definition reach_exact (st : list bool * nat) (e : Edge) : list bool * nat :=
  let '(reachable, consumed) := st in
  if default false (reachable !! from e)
  then (<[to e := true]> reachable, Nat.max consumed (to e))
  else (reachable, consumed).

Definition build_exact (input : bytes) (segments : list ExactSegment)
    : result SegmentGraph GraphError :=
  if (MAX_GRAPH_POSITION <? Z.of_nat (length input))%Z
  then Err (InputTooLong (Z.of_nat (length input)) MAX_GRAPH_POSITION)
  else
    match exact_edges input segments 0 with
    | Err e => Err e
    | Ok edges =>
        let node_count := length input + 1 in
        let '(reachable, consumed) :=
          fold_left reach_exact edges (<[0 := true]> (replicate node_count false), 0) in
        Ok {| input_len := length input; edges := edges;
              starts := exact_starts edges node_count;
              reachable := reachable; consumed := consumed |}
    end.

(** ** Reading the graph *)

Definition node_count (g : SegmentGraph) : nat := input_len g + 1.
Definition edge (g : SegmentGraph) (id : nat) : option Edge := edges g !! id.
Definition outgoing (g : SegmentGraph) (node : nat) : list Edge :=
  node_edges (edges g) (starts g) node.

Definition outgoing_ids (g : SegmentGraph) (node : nat) : list nat :=
  let start := default 0 (starts g !! node) in
  let end_ := Nat.max (default start (starts g !! (node + 1))) start in
  seq start (end_ - start).

Definition is_reachable (g : SegmentGraph) (node : nat) : bool :=
  default false (reachable g !! node).

Definition fully_consumed (g : SegmentGraph) : bool := consumed g =? input_len g.

Definition find_edge (g : SegmentGraph) (from_ : nat) (k : SyllableKey) (start : nat) : option nat :=
  head (filter (fun id =>
    match edge g id with
    | Some e => bool_decide (key e = k) && (syllable_start e =? start)
    | None => false
    end = true) (outgoing_ids g from_)).

(** ** The fewest-keys path *)

Definition ONE_KEY : Z := Z.shiftl 1 32.

Definition step_edge (bound : nat) (rank : Z) (steps : list (option (Z * Edge))) (e : Edge)
    : list (option (Z * Edge)) :=
  if bound <? to e then steps
  else
    let candidate := (rank + ONE_KEY + distance e)%Z in
    let replace :=
      match mjoin (steps !! to e) with
      | Some (seen, _) => (candidate <? seen)%Z
      | None => true
      end in
    if replace then <[to e := Some (candidate, e)]> steps else steps.

Definition step_node (g : SegmentGraph) (allow_incomplete : bool) (bound : nat)
    (steps : list (option (Z * Edge))) (node : nat) : list (option (Z * Edge)) :=
  let relax rank :=
    fold_left (step_edge bound rank)
      (filter (fun e => allow_incomplete = true \/ kind e <> Incomplete) (outgoing g node)) steps in
  if node =? 0 then relax 0%Z
  else match mjoin (steps !! node) with
       | Some (rank, _) => relax rank
       | None => steps
       end.

(** The furthest node with a step, at or below [node]. *)
Fixpoint final_node (steps : list (option (Z * Edge))) (node : nat) : nat :=
  match node with
  | O => 0
  | S n => match mjoin (steps !! node) with Some _ => node | None => final_node steps n end
  end.

(** The walk back; each step's edge comes from a lower node, so the node
    bounds the steps. *)
Fixpoint walk_back (fuel : nat) (steps : list (option (Z * Edge))) (node : nat) (path : list Edge)
    : list Edge :=
  match fuel with
  | O => path
  | S fuel =>
      if node =? 0 then path
      else match mjoin (steps !! node) with
           | None => path
           | Some (_, e) => walk_back fuel steps (from e) (path ++ [e])
           end
  end.

Definition fewest_steps (g : SegmentGraph) (allow_incomplete : bool) : list (option (Z * Edge)) :=
  fold_left (step_node g allow_incomplete (consumed g)) (seq 0 (consumed g))
    (replicate (consumed g + 1) None).

Definition fewest_keys (g : SegmentGraph) (allow_incomplete : bool) : list Edge :=
  let steps := fewest_steps g allow_incomplete in
  let node := final_node steps (consumed g) in
  reverse (walk_back (S node) steps node []).

(** ** Fewest complete keys of a spelling *)

Definition parse_fewest (pinyin : bytes) : option (list SyllableKey) :=
  match build pinyin with
  | Err _ => None
  | Ok g =>
      let path := fewest_keys g false in
      if bool_decide (path = []) && (0 <? consumed g) then None
      else Some (key <$> path)
  end.

Fixpoint join (sep : bytes) (l : list bytes) : bytes :=
  match l with
  | [] => []
  | [x] => x
  | x :: l => x ++ sep ++ join sep l
  end.

Definition canonical (keys : list SyllableKey) : bytes := join (str "'") (key_text <$> keys).
