(* ===== verification/FullIndex.v ===== *)
(** * FullIndex: the indexed full-pinyin schemes

    [crates/oxpinyin-core/src/full_pinyin_index.rs]: the luoma and the
    secondary-zhuyin parser. A dynamic program over the byte positions relaxes
    the hops that leave each of them: an apostrophe hops one byte without a
    key, a spelling of the index hops over itself and the tone digit after it.
    The longest covered prefix is walked back hop by hop. *)

From Stdlib Require Import String Strings.Byte ZArith Lia Bool.
From stdpp Require Import base list.
From S2P Require Import Prelude ByteOrder Options Graph.

(** [FullPinyinIndex]: input spelling, canonical pinyin. *)
Abbreviation FullPinyinIndex := (list (bytes * bytes)).

Local Abbreviation r i c := (str i%string, str c%string).

Definition LUOMA_PINYIN_COUNT : nat := 406.

Definition SECONDARY_ZHUYIN_COUNT : nat := 406.

Definition LUOMA_PINYIN_INDEX : FullPinyinIndex := Eval vm_compute in
  [r "a" "a"; r "ai" "ai"; r "an" "an"; r "ang" "ang"; r "ao" "ao"; r "ba" "ba"; r "bai" "bai";
   r "ban" "ban"; r "bang" "bang"; r "bao" "bao"; r "bei" "bei"; r "ben" "ben"; r "beng" "beng";
   r "bi" "bi"; r "bian" "bian"; r "biao" "biao"; r "bieh" "bie"; r "bin" "bin"; r "bing" "bing";
   r "bo" "bo"; r "bu" "bu"; r "cha" "cha"; r "chai" "chai"; r "chan" "chan"; r "chang" "chang";
   r "chao" "chao"; r "che" "che"; r "chen" "chen"; r "cheng" "cheng"; r "chi" "qi";
   r "chia" "qia"; r "chian" "qian"; r "chiang" "qiang"; r "chiao" "qiao"; r "chieh" "qie";
   r "chih" "ch"; r "chin" "qin"; r "ching" "qing"; r "chiou" "qiu"; r "chong" "chong";
   r "chou" "chou"; r "chu" "chu"; r "chuai" "chuai"; r "chuan" "chuan"; r "chuang" "chuang";
   r "chuei" "chui"; r "chun" "chun"; r "chuo" "chuo"; r "chyong" "qiong"; r "chyu" "qu";
   r "chyuan" "quan"; r "chyueh" "que"; r "chyun" "qun"; r "da" "da"; r "dai" "dai";
   r "dan" "dan"; r "dang" "dang"; r "dao" "dao"; r "de" "de"; r "dei" "dei"; r "deng" "deng";
   r "di" "di"; r "dian" "dian"; r "diao" "diao"; r "dieh" "die"; r "ding" "ding";
   r "diou" "diu"; r "dong" "dong"; r "dou" "dou"; r "du" "du"; r "duan" "duan"; r "duei" "dui";
   r "dun" "dun"; r "duo" "duo"; r "e" "e"; r "ei" "ei"; r "en" "en"; r "eng" "eng"; r "er" "er";
   r "fa" "fa"; r "fan" "fan"; r "fang" "fang"; r "fei" "fei"; r "fen" "fen"; r "fo" "fo";
   r "fou" "fou"; r "fu" "fu"; r "ga" "ga"; r "gai" "gai"; r "gan" "gan"; r "gang" "gang";
   r "gao" "gao"; r "ge" "ge"; r "gei" "gei"; r "gen" "gen"; r "geng" "geng"; r "gong" "gong";
   r "gou" "gou"; r "gu" "gu"; r "gua" "gua"; r "guai" "guai"; r "guan" "guan";
   r "guang" "guang"; r "guei" "gui"; r "gun" "gun"; r "guo" "guo"; r "ha" "ha"; r "hai" "hai";
   r "han" "han"; r "hang" "hang"; r "hao" "hao"; r "he" "he"; r "hei" "hei"; r "hen" "hen";
   r "heng" "heng"; r "hong" "hong"; r "hou" "hou"; r "hu" "hu"; r "hua" "hua"; r "huai" "huai";
   r "huan" "huan"; r "huang" "huang"; r "huei" "hui"; r "hun" "hun"; r "huo" "huo";
   r "jha" "zha"; r "jhai" "zhai"; r "jhan" "zhan"; r "jhang" "zhang"; r "jhao" "zhao";
   r "jhe" "zhe"; r "jhei" "zhei"; r "jhen" "zhen"; r "jheng" "zheng"; r "jhih" "zh";
   r "jhong" "zhong"; r "jhou" "zhou"; r "jhu" "zhu"; r "jhua" "zhua"; r "jhuai" "zhuai";
   r "jhuan" "zhuan"; r "jhuang" "zhuang"; r "jhuei" "zhui"; r "jhun" "zhun"; r "jhuo" "zhuo";
   r "ji" "ji"; r "jia" "jia"; r "jian" "jian"; r "jiang" "jiang"; r "jiao" "jiao";
   r "jieh" "jie"; r "jin" "jin"; r "jing" "jing"; r "jiou" "jiu"; r "jyong" "jiong";
   r "jyu" "ju"; r "jyuan" "juan"; r "jyueh" "jue"; r "jyun" "jun"; r "ka" "ka"; r "kai" "kai";
   r "kan" "kan"; r "kang" "kang"; r "kao" "kao"; r "ke" "ke"; r "ken" "ken"; r "keng" "keng";
   r "kong" "kong"; r "kou" "kou"; r "ku" "ku"; r "kua" "kua"; r "kuai" "kuai"; r "kuan" "kuan";
   r "kuang" "kuang"; r "kuei" "kui"; r "kun" "kun"; r "kuo" "kuo"; r "la" "la"; r "lai" "lai";
   r "lan" "lan"; r "lang" "lang"; r "lao" "lao"; r "le" "le"; r "lei" "lei"; r "leng" "leng";
   r "li" "li"; r "lia" "lia"; r "lian" "lian"; r "liang" "liang"; r "liao" "liao";
   r "lieh" "lie"; r "lin" "lin"; r "ling" "ling"; r "liou" "liu"; r "lo" "lo"; r "long" "long";
   r "lou" "lou"; r "lu" "lu"; r "luan" "luan"; r "lun" "lun"; r "luo" "luo"; r "lyu" "lv";
   r "lyueh" "lve"; r "ma" "ma"; r "mai" "mai"; r "man" "man"; r "mang" "mang"; r "mao" "mao";
   r "me" "me"; r "mei" "mei"; r "men" "men"; r "meng" "meng"; r "mi" "mi"; r "mian" "mian";
   r "miao" "miao"; r "mieh" "mie"; r "min" "min"; r "ming" "ming"; r "miou" "miu"; r "mo" "mo";
   r "mou" "mou"; r "mu" "mu"; r "na" "na"; r "nai" "nai"; r "nan" "nan"; r "nang" "nang";
   r "nao" "nao"; r "ne" "ne"; r "nei" "nei"; r "nen" "nen"; r "neng" "neng"; r "ni" "ni";
   r "nian" "nian"; r "niang" "niang"; r "niao" "niao"; r "nieh" "nie"; r "nin" "nin";
   r "ning" "ning"; r "niou" "niu"; r "nong" "nong"; r "nou" "nou"; r "nu" "nu"; r "nuan" "nuan";
   r "nun" "nun"; r "nuo" "nuo"; r "nyu" "nv"; r "nyueh" "nve"; r "o" "o"; r "ou" "ou";
   r "pa" "pa"; r "pai" "pai"; r "pan" "pan"; r "pang" "pang"; r "pao" "pao"; r "pei" "pei";
   r "pen" "pen"; r "peng" "peng"; r "pi" "pi"; r "pian" "pian"; r "piao" "piao"; r "pieh" "pie";
   r "pin" "pin"; r "ping" "ping"; r "po" "po"; r "pou" "pou"; r "pu" "pu"; r "ran" "ran";
   r "rang" "rang"; r "rao" "rao"; r "re" "re"; r "ren" "ren"; r "reng" "reng"; r "rih" "r";
   r "rong" "rong"; r "rou" "rou"; r "ru" "ru"; r "ruan" "ruan"; r "ruei" "rui"; r "run" "run";
   r "ruo" "ruo"; r "sa" "sa"; r "sai" "sai"; r "san" "san"; r "sang" "sang"; r "sao" "sao";
   r "se" "se"; r "sen" "sen"; r "seng" "seng"; r "sha" "sha"; r "shai" "shai"; r "shan" "shan";
   r "shang" "shang"; r "shao" "shao"; r "she" "she"; r "shei" "shei"; r "shen" "shen";
   r "sheng" "sheng"; r "shih" "sh"; r "shou" "shou"; r "shu" "shu"; r "shua" "shua";
   r "shuai" "shuai"; r "shuan" "shuan"; r "shuang" "shuang"; r "shuei" "shui"; r "shun" "shun";
   r "shuo" "shuo"; r "si" "xi"; r "sia" "xia"; r "sian" "xian"; r "siang" "xiang";
   r "siao" "xiao"; r "sieh" "xie"; r "sih" "s"; r "sin" "xin"; r "sing" "xing"; r "siou" "xiu";
   r "song" "song"; r "sou" "sou"; r "su" "su"; r "suan" "suan"; r "suei" "sui"; r "sun" "sun";
   r "suo" "suo"; r "syong" "xiong"; r "syu" "xu"; r "syuan" "xuan"; r "syueh" "xue";
   r "syun" "xun"; r "ta" "ta"; r "tai" "tai"; r "tan" "tan"; r "tang" "tang"; r "tao" "tao";
   r "te" "te"; r "teng" "teng"; r "ti" "ti"; r "tian" "tian"; r "tiao" "tiao"; r "tieh" "tie";
   r "ting" "ting"; r "tong" "tong"; r "tou" "tou"; r "tsa" "ca"; r "tsai" "cai"; r "tsan" "can";
   r "tsang" "cang"; r "tsao" "cao"; r "tse" "ce"; r "tsen" "cen"; r "tseng" "ceng";
   r "tsih" "c"; r "tsong" "cong"; r "tsou" "cou"; r "tsu" "cu"; r "tsuan" "cuan";
   r "tsuei" "cui"; r "tsun" "cun"; r "tsuo" "cuo"; r "tu" "tu"; r "tuan" "tuan"; r "tuei" "tui";
   r "tun" "tun"; r "tuo" "tuo"; r "wa" "wa"; r "wai" "wai"; r "wan" "wan"; r "wang" "wang";
   r "wei" "wei"; r "wo" "wo"; r "wong" "weng"; r "wu" "wu"; r "wun" "wen"; r "ya" "ya";
   r "yai" "yai"; r "yan" "yan"; r "yang" "yang"; r "yao" "yao"; r "yeh" "ye"; r "yi" "yi";
   r "yin" "yin"; r "ying" "ying"; r "yo" "yo"; r "yong" "yong"; r "you" "you"; r "yu" "yu";
   r "yuan" "yuan"; r "yueh" "yue"; r "yun" "yun"; r "za" "za"; r "zai" "zai"; r "zan" "zan";
   r "zang" "zang"; r "zao" "zao"; r "ze" "ze"; r "zei" "zei"; r "zen" "zen"; r "zeng" "zeng";
   r "zih" "z"; r "zong" "zong"; r "zou" "zou"; r "zu" "zu"; r "zuan" "zuan"; r "zuei" "zui";
   r "zun" "zun"; r "zuo" "zuo"].

Definition SECONDARY_ZHUYIN_INDEX : FullPinyinIndex := Eval vm_compute in
  [r "a" "a"; r "ai" "ai"; r "an" "an"; r "ang" "ang"; r "au" "ao"; r "ba" "ba"; r "bai" "bai";
   r "ban" "ban"; r "bang" "bang"; r "bau" "bao"; r "bei" "bei"; r "ben" "ben"; r "beng" "beng";
   r "bi" "bi"; r "bian" "bian"; r "biau" "biao"; r "bie" "bie"; r "bin" "bin"; r "bing" "bing";
   r "bo" "bo"; r "bu" "bu"; r "cha" "cha"; r "chai" "chai"; r "chan" "chan"; r "chang" "chang";
   r "chau" "chao"; r "che" "che"; r "chen" "chen"; r "cheng" "cheng"; r "chi" "qi";
   r "chia" "qia"; r "chian" "qian"; r "chiang" "qiang"; r "chiau" "qiao"; r "chie" "qie";
   r "chin" "qin"; r "ching" "qing"; r "chiou" "qiu"; r "chiu" "qu"; r "chiuan" "quan";
   r "chiue" "que"; r "chiun" "qun"; r "chiung" "qiong"; r "chou" "chou"; r "chr" "ch";
   r "chu" "chu"; r "chuai" "chuai"; r "chuan" "chuan"; r "chuang" "chuang"; r "chuei" "chui";
   r "chuen" "chun"; r "chung" "chong"; r "chuo" "chuo"; r "da" "da"; r "dai" "dai";
   r "dan" "dan"; r "dang" "dang"; r "dau" "dao"; r "de" "de"; r "dei" "dei"; r "deng" "deng";
   r "di" "di"; r "dian" "dian"; r "diau" "diao"; r "die" "die"; r "ding" "ding"; r "diou" "diu";
   r "dou" "dou"; r "du" "du"; r "duan" "duan"; r "duei" "dui"; r "duen" "dun"; r "dung" "dong";
   r "duo" "duo"; r "e" "e"; r "ei" "ei"; r "en" "en"; r "eng" "eng"; r "er" "er"; r "fa" "fa";
   r "fan" "fan"; r "fang" "fang"; r "fei" "fei"; r "fen" "fen"; r "fo" "fo"; r "fou" "fou";
   r "fu" "fu"; r "ga" "ga"; r "gai" "gai"; r "gan" "gan"; r "gang" "gang"; r "gau" "gao";
   r "ge" "ge"; r "gei" "gei"; r "gen" "gen"; r "geng" "geng"; r "gou" "gou"; r "gu" "gu";
   r "gua" "gua"; r "guai" "guai"; r "guan" "guan"; r "guang" "guang"; r "guei" "gui";
   r "guen" "gun"; r "gung" "gong"; r "guo" "guo"; r "ha" "ha"; r "hai" "hai"; r "han" "han";
   r "hang" "hang"; r "hau" "hao"; r "he" "he"; r "hei" "hei"; r "hen" "hen"; r "heng" "heng";
   r "hou" "hou"; r "hu" "hu"; r "hua" "hua"; r "huai" "huai"; r "huan" "huan";
   r "huang" "huang"; r "huei" "hui"; r "huen" "hun"; r "hung" "hong"; r "huo" "huo";
   r "ja" "zha"; r "jai" "zhai"; r "jan" "zhan"; r "jang" "zhang"; r "jau" "zhao"; r "je" "zhe";
   r "jei" "zhei"; r "jen" "zhen"; r "jeng" "zheng"; r "ji" "ji"; r "jia" "jia"; r "jian" "jian";
   r "jiang" "jiang"; r "jiau" "jiao"; r "jie" "jie"; r "jin" "jin"; r "jing" "jing";
   r "jiou" "jiu"; r "jiu" "ju"; r "jiuan" "juan"; r "jiue" "jue"; r "jiun" "jun";
   r "jiung" "jiong"; r "jou" "zhou"; r "jr" "zh"; r "ju" "zhu"; r "jua" "zhua";
   r "juai" "zhuai"; r "juan" "zhuan"; r "juang" "zhuang"; r "juei" "zhui"; r "juen" "zhun";
   r "jung" "zhong"; r "juo" "zhuo"; r "ka" "ka"; r "kai" "kai"; r "kan" "kan"; r "kang" "kang";
   r "kau" "kao"; r "ke" "ke"; r "ken" "ken"; r "keng" "keng"; r "kou" "kou"; r "ku" "ku";
   r "kua" "kua"; r "kuai" "kuai"; r "kuan" "kuan"; r "kuang" "kuang"; r "kuei" "kui";
   r "kuen" "kun"; r "kung" "kong"; r "kuo" "kuo"; r "la" "la"; r "lai" "lai"; r "lan" "lan";
   r "lang" "lang"; r "lau" "lao"; r "le" "le"; r "lei" "lei"; r "leng" "leng"; r "li" "li";
   r "lia" "lia"; r "lian" "lian"; r "liang" "liang"; r "liau" "liao"; r "lie" "lie";
   r "lin" "lin"; r "ling" "ling"; r "liou" "liu"; r "liu" "lv"; r "liue" "lve"; r "lo" "lo";
   r "lou" "lou"; r "lu" "lu"; r "luan" "luan"; r "luen" "lun"; r "lung" "long"; r "luo" "luo";
   r "ma" "ma"; r "mai" "mai"; r "man" "man"; r "mang" "mang"; r "mau" "mao"; r "me" "me";
   r "mei" "mei"; r "men" "men"; r "meng" "meng"; r "mi" "mi"; r "mian" "mian"; r "miau" "miao";
   r "mie" "mie"; r "min" "min"; r "ming" "ming"; r "miou" "miu"; r "mo" "mo"; r "mou" "mou";
   r "mu" "mu"; r "na" "na"; r "nai" "nai"; r "nan" "nan"; r "nang" "nang"; r "nau" "nao";
   r "ne" "ne"; r "nei" "nei"; r "nen" "nen"; r "neng" "neng"; r "ni" "ni"; r "nian" "nian";
   r "niang" "niang"; r "niau" "niao"; r "nie" "nie"; r "nin" "nin"; r "ning" "ning";
   r "niou" "niu"; r "niu" "nv"; r "niue" "nve"; r "nou" "nou"; r "nu" "nu"; r "nuan" "nuan";
   r "nuen" "nun"; r "nung" "nong"; r "nuo" "nuo"; r "o" "o"; r "ou" "ou"; r "pa" "pa";
   r "pai" "pai"; r "pan" "pan"; r "pang" "pang"; r "pau" "pao"; r "pei" "pei"; r "pen" "pen";
   r "peng" "peng"; r "pi" "pi"; r "pian" "pian"; r "piau" "piao"; r "pie" "pie"; r "pin" "pin";
   r "ping" "ping"; r "po" "po"; r "pou" "pou"; r "pu" "pu"; r "r" "r"; r "ran" "ran";
   r "rang" "rang"; r "rau" "rao"; r "re" "re"; r "ren" "ren"; r "reng" "reng"; r "rou" "rou";
   r "ru" "ru"; r "ruan" "ruan"; r "ruei" "rui"; r "ruen" "run"; r "rung" "rong"; r "ruo" "ruo";
   r "sa" "sa"; r "sai" "sai"; r "san" "san"; r "sang" "sang"; r "sau" "sao"; r "se" "se";
   r "sen" "sen"; r "seng" "seng"; r "sha" "sha"; r "shai" "shai"; r "shan" "shan";
   r "shang" "shang"; r "shau" "shao"; r "she" "she"; r "shei" "shei"; r "shen" "shen";
   r "sheng" "sheng"; r "shi" "xi"; r "shia" "xia"; r "shian" "xian"; r "shiang" "xiang";
   r "shiau" "xiao"; r "shie" "xie"; r "shin" "xin"; r "shing" "xing"; r "shiou" "xiu";
   r "shiu" "xu"; r "shiuan" "xuan"; r "shiue" "xue"; r "shiun" "xun"; r "shiung" "xiong";
   r "shou" "shou"; r "shr" "sh"; r "shu" "shu"; r "shua" "shua"; r "shuai" "shuai";
   r "shuan" "shuan"; r "shuang" "shuang"; r "shuei" "shui"; r "shuen" "shun"; r "shuo" "shuo";
   r "sou" "sou"; r "su" "su"; r "suan" "suan"; r "suei" "sui"; r "suen" "sun"; r "sung" "song";
   r "suo" "suo"; r "sz" "s"; r "ta" "ta"; r "tai" "tai"; r "tan" "tan"; r "tang" "tang";
   r "tau" "tao"; r "te" "te"; r "teng" "teng"; r "ti" "ti"; r "tian" "tian"; r "tiau" "tiao";
   r "tie" "tie"; r "ting" "ting"; r "tou" "tou"; r "tsa" "ca"; r "tsai" "cai"; r "tsan" "can";
   r "tsang" "cang"; r "tsau" "cao"; r "tse" "ce"; r "tsen" "cen"; r "tseng" "ceng";
   r "tsou" "cou"; r "tsu" "cu"; r "tsuan" "cuan"; r "tsuei" "cui"; r "tsun" "cun";
   r "tsung" "cong"; r "tsuo" "cuo"; r "tsz" "c"; r "tu" "tu"; r "tuan" "tuan"; r "tuei" "tui";
   r "tuen" "tun"; r "tung" "tong"; r "tuo" "tuo"; r "tz" "z"; r "tza" "za"; r "tzai" "zai";
   r "tzan" "zan"; r "tzang" "zang"; r "tzau" "zao"; r "tze" "ze"; r "tzei" "zei";
   r "tzen" "zen"; r "tzeng" "zeng"; r "tzou" "zou"; r "tzu" "zu"; r "tzuan" "zuan";
   r "tzuei" "zui"; r "tzuen" "zun"; r "tzung" "zong"; r "tzuo" "zuo"; r "wa" "wa";
   r "wai" "wai"; r "wan" "wan"; r "wang" "wang"; r "wei" "wei"; r "wen" "wen"; r "weng" "weng";
   r "wo" "wo"; r "wu" "wu"; r "ya" "ya"; r "yai" "yai"; r "yan" "yan"; r "yang" "yang";
   r "yau" "yao"; r "ye" "ye"; r "yi" "yi"; r "yin" "yin"; r "ying" "ying"; r "yo" "yo";
   r "you" "you"; r "yu" "yu"; r "yuan" "yuan"; r "yue" "yue"; r "yun" "yun"; r "yung" "yong"].

(** ** Indexes *)

(** [FullPinyinIndex::len], [is_empty], [get] and [entries] are the list's. *)
Definition index_get (index : FullPinyinIndex) (i : nat) : option (bytes * bytes) := index !! i.

Definition index_canonical (index : FullPinyinIndex) (spelling : bytes) : option bytes :=
  position ← string_position fst index spelling;
  row ← index !! position;
  Some row.2.

Definition luoma_pinyin_index : FullPinyinIndex := LUOMA_PINYIN_INDEX.
Definition secondary_zhuyin_index : FullPinyinIndex := SECONDARY_ZHUYIN_INDEX.

Definition MAX_INDEX_SPELLING_LEN : nat := 6.
Definition MAX_LOOKAHEAD : nat := 7.

Record FullPinyinIndexKey : Type := mk_index_key {
  canonical : bytes; start : nat; end_ : nat; tone : Z
}.

Record FullPinyinIndexParse : Type := mk_index_parse {
  keys : list FullPinyinIndexKey; consumed : nat
}.

Definition full_pinyin (p : FullPinyinIndexParse) : bytes := join [x27] (canonical <$> keys p).

(** ** The dynamic program *)

Record Step : Type := mk_step {
  reached : bool; last : nat; num_keys : nat; parsed_len : nat; key : option FullPinyinIndexKey
}.

Definition unreached : Step := mk_step false 0 0 0 None.

(** [matches!(byte, b'1'..=b'5')] and its [byte - b'0']. *)
Definition tone_digit (b : byte) : option Z :=
  if in_range 49 53 b then Some (byte_val b - 48)%Z else None.

Definition parse_one_index_key (input : bytes) (options : OptionBits) (index : FullPinyinIndex)
    : option FullPinyinIndexKey :=
  let use_tone := contains options USE_TONE in
  let parsed := length input in
  let '(parsed, t) :=
    match (if use_tone then b ← input !! (parsed - 1); tone_digit b else None) with
    | Some t => (parsed - 1, t)
    | None => (parsed, 0%Z)
    end in
  if (parsed =? 0) || use_tone && contains options FORCE_TONE && (t =? 0)%Z then None
  else
    spelling ← from_utf8 (take parsed input);
    c ← index_canonical index spelling;
    Some (mk_index_key c 0 (if use_tone && negb (t =? 0)%Z then S parsed else parsed) t).

Definition step_at (steps : list Step) (i : nat) : Step := default unreached (steps !! i).

(** The value replaces the step it reaches first, further or with fewer keys. *)
Definition relax (value next : Step) : Step :=
  if negb (reached next) || (parsed_len next <? parsed_len value)
     || (parsed_len value =? parsed_len next) && (num_keys value <? num_keys next)
  then value else next.

Section parse.
Context (options : OptionBits) (index : FullPinyinIndex) (input : bytes).

Definition hop_separator (position : nat) (steps : list Step) : list Step :=
  let previous := step_at steps position in
  if reached previous then
    let value := mk_step true position (num_keys previous) (parsed_len previous + 1) None in
    <[position + 1 := relax value (step_at steps (position + 1))]> steps
  else steps.

Definition hop_key (position : nat) (steps : list Step) (end_ : nat) : list Step :=
  match parse_one_index_key (slice input position end_) options index with
  | None => steps
  | Some k =>
      let previous := step_at steps position in
      if negb (reached previous) then steps
      else
        let value := mk_step true position (num_keys previous + 1)
          (parsed_len previous + (end_ - position))
          (Some (mk_index_key (canonical k) position end_ (tone k))) in
        <[end_ := relax value (step_at steps end_)]> steps
  end.

Definition is_separator (b : byte) : bool := bool_decide (b = x27).

Definition try_end (i : nat) : nat :=
  let next_sep := i + default (length input - i) (position is_separator (drop i input)) in
  Nat.min (i + MAX_LOOKAHEAD) next_sep.

Definition parse_position (steps : list Step) (i : nat) : list Step :=
  if is_separator (default x00 (input !! i)) then hop_separator i steps
  else fold_left (hop_key i) (seq (S i) (try_end i - i)) steps.

Definition initial_steps : list Step :=
  <[0 := mk_step true 0 0 0 None]> (replicate (length input + 1) unreached).

Definition parse_steps : list Step :=
  fold_left parse_position (seq 0 (length input)) initial_steps.

(** The furthest position whose step covers it. *)
Definition final_position (steps : list Step) : nat :=
  default 0 (List.find (fun i => reached (step_at steps i) && (parsed_len (step_at steps i) =? i))
    (reverse (seq 0 (S (length input))))).

(** The walk back: every hop goes to an earlier step, so the fuel is the
    position it starts from. The keys come last to first. *)
Fixpoint walk_back (fuel : nat) (steps : list Step) (cursor : nat) : list FullPinyinIndexKey :=
  match fuel with
  | O => []
  | S fuel =>
      if cursor =? 0 then []
      else
        let step := step_at steps cursor in
        option_list (key step) ++ walk_back fuel steps (last step)
  end.

Definition parse_index : FullPinyinIndexParse :=
  let best := final_position parse_steps in
  mk_index_parse (reverse (walk_back best parse_steps best)) best.
End parse.

Definition parse_full_pinyin_index (input : bytes) (use_tone : bool) (index : FullPinyinIndex)
    : FullPinyinIndexParse :=
  parse_index (from_bits (if use_tone then USE_TONE else 0%Z)) index input.

(** The error type is uninhabited. *)
Definition parse_full_pinyin_index_with_options (input : bytes) (options : OptionBits)
    (index : FullPinyinIndex) : result FullPinyinIndexParse Empty_set :=
  Ok (parse_index options index input).
