(* ===== verification/FullIndexSpec.v ===== *)
(** * FullIndexSpec: the indexed full-pinyin parse is optimal

    The steps of [FullIndex] hold, for every position a segmentation reaches,
    one with the fewest keys; among those the last hop is the longest. The
    parse is therefore the segmentation of the furthest reachable prefix that
    has the fewest keys and, from the end, the longest ones. *)

From Stdlib Require Import ZArith Lia Bool String Strings.Byte.
From stdpp Require Import base list.
From S2P Require Import Prelude ByteOrder Options Graph FullIndex.

(** ** What a segmentation is *)

Section segmentation.
Context (options : OptionBits) (index : FullPinyinIndex) (input : bytes).

(** The tone digit after a spelling: none, or one of five under [USE_TONE]. *)
Inductive tone_suffix : Z -> bytes -> Prop :=
  | suffix_none :
      ~ (contains options USE_TONE = true /\ contains options FORCE_TONE = true) -> tone_suffix 0 []
  | suffix_digit t : contains options USE_TONE = true -> (1 <= t <= 5)%Z ->
      tone_suffix t [byte_of (48 + t)].

Definition reads_key (k : FullPinyinIndexKey) : Prop :=
  start k <= end_ k <= length input /\
  exists spelling suffix, (spelling, canonical k) ∈ index /\ tone_suffix (tone k) suffix /\
    slice input (start k) (end_ k) = spelling ++ suffix.

Inductive Segmentation : nat -> list FullPinyinIndexKey -> Prop :=
  | segmentation_start : Segmentation 0 []
  | segmentation_separator p ks :
      Segmentation p ks -> input !! p = Some x27 -> Segmentation (S p) ks
  | segmentation_key p ks k :
      Segmentation p ks -> start k = p -> reads_key k -> Segmentation (end_ k) (ks ++ [k]).
End segmentation.

(** ** Relaxation *)

Section relaxation.
Context (n : nat) (hop : nat -> nat -> option (option FullPinyinIndexKey)).
Hypothesis hop_bounds : forall p e o, hop p e = Some o -> p < e <= n.

Definition keys_of (o : option FullPinyinIndexKey) : nat := length (option_list o).

Definition offer (i e : nat) (previous next : Step) : Step :=
  match hop i e with
  | Some o =>
      if reached previous
      then relax (mk_step true i (num_keys previous + keys_of o) (parsed_len previous + (e - i)) o) next
      else next
  | None => next
  end.

Definition relax_from (i : nat) (steps : list Step) (e : nat) : list Step :=
  <[e := offer i e (step_at steps i) (step_at steps e)]> steps.

Definition relax_all (steps : list Step) (i : nat) : list Step :=
  fold_left (relax_from i) (seq (S i) (n - i)) steps.

Lemma length_relax_fold i es steps : length (fold_left (relax_from i) es steps) = length steps.
Proof using Type.
  revert steps. induction es as [|e es IH]; intros steps; [done|]. cbn [fold_left].
  rewrite IH. apply length_insert.
Qed.

Lemma step_at_insert steps e s j :
  e < length steps -> step_at (<[e := s]> steps) j = if decide (j = e) then s else step_at steps j.
Proof using Type.
  intros He. unfold step_at. case_decide as Hj.
  - subst j. by rewrite list_lookup_insert_eq.
  - by rewrite list_lookup_insert_ne.
Qed.

Lemma relax_fold_at i es steps j :
  NoDup es -> Forall (fun e => i < e < length steps) es ->
  step_at (fold_left (relax_from i) es steps) j =
    if decide (j ∈ es) then offer i j (step_at steps i) (step_at steps j) else step_at steps j.
Proof using Type.
  revert steps. induction es as [|e es IH]; intros steps Hnd Hb.
  { cbn. by rewrite decide_False by apply not_elem_of_nil. }
  apply NoDup_cons in Hnd as [Hne Hnd]. apply Forall_cons in Hb as [He Hb]. cbn [fold_left].
  assert (forall j, step_at (relax_from i steps e) j =
    if decide (j = e) then offer i e (step_at steps i) (step_at steps e) else step_at steps j) as Hat
    by (intros; apply step_at_insert; lia).
  rewrite IH; [|done|]. 2: { unfold relax_from. by rewrite length_insert. }
  rewrite !Hat, (decide_False (P := i = e)) by lia.
  destruct (decide (j = e)) as [->|Hj].
  - rewrite decide_False by done. by rewrite decide_True by apply list_elem_of_here.
  - destruct (decide (j ∈ es)) as [Hin|Hin].
    + by rewrite decide_True by by apply list_elem_of_further.
    + by rewrite decide_False by (rewrite not_elem_of_cons; done).
Qed.

Lemma relax_all_at steps i j :
  length steps = S n ->
  step_at (relax_all steps i) j =
    if decide (i < j <= n) then offer i j (step_at steps i) (step_at steps j) else step_at steps j.
Proof using Type.
  intros Hl. unfold relax_all. rewrite relax_fold_at; [|apply NoDup_seq|].
  - apply decide_ext. rewrite elem_of_seq. lia.
  - apply Forall_forall. intros e He%elem_of_seq. lia.
Qed.

(** The steps once every hop that leaves a position below [i] was relaxed. *)
Record Relaxed (i : nat) (steps : list Step) : Prop := {
  relaxed_length : length steps = S n;
  relaxed_start : step_at steps 0 = mk_step true 0 0 0 None;
  relaxed_back e : 0 < e -> reached (step_at steps e) = true ->
    let s := step_at steps e in
    last s < Nat.min i e /\ reached (step_at steps (last s)) = true /\ hop (last s) e = Some (key s) /\
    num_keys s = num_keys (step_at steps (last s)) + keys_of (key s) /\ parsed_len s = e;
  relaxed_best p e o : p < i -> hop p e = Some o -> reached (step_at steps p) = true ->
    reached (step_at steps e) = true /\
    (num_keys (step_at steps e) < num_keys (step_at steps p) + keys_of o \/
     num_keys (step_at steps e) = num_keys (step_at steps p) + keys_of o /\
     last (step_at steps e) <= p)
}.

Lemma relaxed_parsed i steps e :
  Relaxed i steps -> reached (step_at steps e) = true -> parsed_len (step_at steps e) = e.
Proof using Type.
  intros H He. destruct (decide (e = 0)) as [->|]; [by rewrite (relaxed_start _ _ H)|].
  by apply (relaxed_back _ _ H); [lia|].
Qed.

(** A value that covers as much replaces a step exactly where it is unreached
    or has more keys. *)
Lemma relax_equal_length value next :
  (reached next = true -> parsed_len next = parsed_len value) ->
  relax value next =
    if reached next && (num_keys next <=? num_keys value) then next else value.
Proof using Type.
  intros H. unfold relax. destruct (reached next); simpl; [|done].
  rewrite H by done. rewrite Nat.ltb_irrefl, Nat.eqb_refl. simpl.
  destruct (Nat.ltb_spec (num_keys value) (num_keys next)), (Nat.leb_spec (num_keys next) (num_keys value));
    done || lia.
Qed.

(** The hops of one position, relaxed. *)
Lemma relax_all_step steps i e :
  Relaxed i steps -> i <= n ->
  let s := step_at (relax_all steps i) e in
  s = step_at steps e /\
    (forall o, hop i e = Some o -> reached (step_at steps i) = true ->
      reached s = true /\ num_keys s <= num_keys (step_at steps i) + keys_of o) \/
  reached (step_at steps i) = true /\ exists o, hop i e = Some o /\
    s = mk_step true i (num_keys (step_at steps i) + keys_of o) e o /\
    (reached (step_at steps e) = true -> num_keys s < num_keys (step_at steps e)).
Proof using Type hop_bounds.
  intros H Hi s. subst s. rewrite relax_all_at by apply (relaxed_length _ _ H).
  destruct (decide (i < e <= n)) as [He|He].
  2: { left. split; [done|]. intros o Ho%hop_bounds. lia. }
  unfold offer. destruct (hop i e) as [o|] eqn:Ho; [|by left].
  destruct (reached (step_at steps i)) eqn:Hr; [|by left].
  rewrite (relaxed_parsed _ _ _ H Hr). replace (i + (e - i)) with e by lia.
  rewrite relax_equal_length by (intros Hn; cbn; by apply (relaxed_parsed _ _ _ H)). cbn [num_keys].
  destruct (reached (step_at steps e)) eqn:Hn; simpl.
  2: { right. split; [done|]. exists o. done. }
  destruct (Nat.leb_spec (num_keys (step_at steps e)) (num_keys (step_at steps i) + keys_of o)).
  - left. split; [done|]. by intros ? [= <-] _.
  - right. split; [done|]. exists o. done.
Qed.

Lemma relax_all_below steps i j : Relaxed i steps -> j <= i -> step_at (relax_all steps i) j = step_at steps j.
Proof using Type.
  intros H Hj. rewrite relax_all_at by apply (relaxed_length _ _ H). rewrite decide_False by lia. done.
Qed.

Lemma relaxed_next steps i : Relaxed i steps -> i < n -> Relaxed (S i) (relax_all steps i).
Proof using Type hop_bounds.
  intros H Hi. split.
  - unfold relax_all. rewrite length_relax_fold. apply (relaxed_length _ _ H).
  - rewrite relax_all_below by (done || lia). apply (relaxed_start _ _ H).
  - intros e He Hr. destruct (relax_all_step steps i e H ltac:(lia)) as [[Hs _]|(Hri & o & Ho & Hs & _)].
    + rewrite Hs in *. destruct (relaxed_back _ _ H e He Hr) as (Hl & Hback).
      cbv zeta. rewrite relax_all_below by (done || lia). split; [lia|done].
    + cbv zeta. rewrite Hs. cbn [last key num_keys parsed_len]. rewrite relax_all_below by done. apply hop_bounds in Ho as Hb.
      split; [lia|done].
  - intros p e o Hp Ho Hrp. rewrite !(relax_all_below _ _ p) in * by (done || lia).
    apply hop_bounds in Ho as Hb.
    destruct (relax_all_step steps i e H ltac:(lia)) as [[Hs Hle]|(Hri & o' & Ho' & Hs & Hlt)].
    + rewrite Hs in *. destruct (decide (p = i)) as [->|].
      * destruct (Hle o Ho Hrp) as [Hr Hnum]. split; [done|].
        destruct (relaxed_back _ _ H e ltac:(lia) Hr) as (Hl & _). lia.
      * by apply (relaxed_best _ _ H); [lia|..].
    + rewrite Hs in *. cbn in *. split; [done|]. destruct (decide (p = i)) as [->|].
      * replace o' with o by congruence. lia.
      * destruct (relaxed_best _ _ H p e o ltac:(lia) Ho Hrp) as [Hr Hnum]. specialize (Hlt Hr). lia.
Qed.

Lemma relaxed_initial : Relaxed 0 (<[0 := mk_step true 0 0 0 None]> (replicate (n + 1) unreached)).
Proof using Type.
  assert (forall e, 0 < e ->
    step_at (<[0 := mk_step true 0 0 0 None]> (replicate (n + 1) unreached)) e = unreached) as Hu.
  { intros e He. rewrite step_at_insert by (rewrite length_replicate; lia).
    rewrite decide_False by lia. unfold step_at.
    destruct (replicate (n + 1) unreached !! e) as [s|] eqn:E; [|done].
    by apply lookup_replicate in E as [-> _]. }
  split.
  - rewrite length_insert, length_replicate. lia.
  - rewrite step_at_insert by (rewrite length_replicate; lia). by rewrite decide_True.
  - intros e He Hr. by rewrite Hu in Hr.
  - lia.
Qed.

Lemma relaxed_all m : m <= n ->
  Relaxed m (fold_left relax_all (seq 0 m)
    (<[0 := mk_step true 0 0 0 None]> (replicate (n + 1) unreached))).
Proof using Type hop_bounds.
  induction m as [|m IH]; intros Hm; [apply relaxed_initial|].
  rewrite seq_S, fold_left_app. apply relaxed_next; [apply IH|]; lia.
Qed.

(** ** Paths over hops *)

Inductive Hops : nat -> list FullPinyinIndexKey -> Prop :=
  | hops_start : Hops 0 []
  | hops_step p e o ks : Hops p ks -> hop p e = Some o -> Hops e (ks ++ option_list o).

Hypothesis hop_span : forall p e k, hop p e = Some (Some k) -> start k = p /\ end_ k = e.

Lemma hops_ends p ks : Hops p ks -> Forall (fun k => end_ k <= p) ks.
Proof using hop_bounds hop_span.
  induction 1 as [|p e o ks H IH Ho]; [constructor|]. apply hop_bounds in Ho as Hb.
  apply Forall_app. split.
  - eapply Forall_impl; [exact IH|]. cbn. lia.
  - destruct o as [k|]; cbn; repeat constructor. apply hop_span in Ho. lia.
Qed.

Section optimal.
Context (steps : list Step).
Hypothesis Hsteps : Relaxed n steps.

(** Every path over hops ends at a reached step that has no more keys. *)
Lemma relaxed_hops p ks :
  Hops p ks -> reached (step_at steps p) = true /\ num_keys (step_at steps p) <= length ks.
Proof using hop_bounds Hsteps.
  induction 1 as [|p e o ks H [Hr IH] Ho]; [by rewrite (relaxed_start _ _ Hsteps)|].
  apply hop_bounds in Ho as Hb.
  destruct (relaxed_best _ _ Hsteps p e o ltac:(lia) Ho Hr) as [He Hnum]. split; [done|].
  rewrite length_app. unfold keys_of in Hnum. lia.
Qed.

Lemma walk_back_enough fuel e :
  e <= fuel -> reached (step_at steps e) = true ->
  walk_back fuel steps e = walk_back e steps e.
Proof using Hsteps.
  revert fuel. induction (lt_wf e) as [e _ IH]. intros fuel Hf Hr.
  destruct e as [|e]; [by destruct fuel|]. destruct fuel as [|fuel]; [lia|]. cbn [walk_back Nat.eqb].
  destruct (relaxed_back _ _ Hsteps (S e) ltac:(lia) Hr) as (Hl & Hr' & _).
  specialize (IH (last (step_at steps (S e))) ltac:(lia)).
  rewrite (IH fuel), (IH e); done || lia.
Qed.

(** The keys of the path a step keeps. *)
Definition walk (e : nat) : list FullPinyinIndexKey := reverse (walk_back e steps e).

Lemma walk_step e :
  0 < e -> reached (step_at steps e) = true ->
  walk e = walk (last (step_at steps e)) ++ option_list (key (step_at steps e)).
Proof using Hsteps.
  intros He Hr. unfold walk. destruct e as [|e]; [lia|]. cbn [walk_back Nat.eqb].
  destruct (relaxed_back _ _ Hsteps (S e) He Hr) as (Hl & Hr' & _).
  rewrite reverse_app, (walk_back_enough e) by (done || lia). f_equal.
  by destruct (key (step_at steps (S e))).
Qed.

Lemma walk_hops e :
  reached (step_at steps e) = true -> Hops e (walk e) /\ length (walk e) = num_keys (step_at steps e).
Proof using Hsteps.
  induction (lt_wf e) as [e _ IH]. intros Hr.
  destruct (decide (e = 0)) as [->|]; [rewrite (relaxed_start _ _ Hsteps); split; constructor|].
  destruct (relaxed_back _ _ Hsteps e ltac:(lia) Hr) as (Hl & Hr' & Hhop & Hnum & _).
  rewrite walk_step by (done || lia). destruct (IH (last (step_at steps e)) ltac:(lia) Hr') as [IH1 IH2].
  split; [by econstructor|]. rewrite length_app, IH2, Hnum. done.
Qed.

(** Each key of a walk is the longest that ends as few keys at its end. *)
Lemma walk_longest e ks1 k ks2 ks' k' :
  reached (step_at steps e) = true -> walk e = ks1 ++ k :: ks2 ->
  Hops (end_ k) (ks' ++ [k']) -> end_ k' = end_ k -> length ks' <= length ks1 -> start k <= start k'.
Proof using hop_bounds hop_span Hsteps.
  revert ks2. induction (lt_wf e) as [e _ IH]. intros ks2 Hr Hw Hhops Hend Hlen.
  destruct (decide (e = 0)) as [->|]; [by destruct ks1|].
  destruct (relaxed_back _ _ Hsteps e ltac:(lia) Hr) as (Hl & Hr' & Hhop & Hnum & _).
  rewrite walk_step in Hw by (done || lia).
  destruct (walk_hops _ Hr') as [_ Hlast].
  set (s := step_at steps e) in *. destruct (key s) as [k0|]; cbn [option_list] in Hw.
  2: { rewrite app_nil_r in Hw. by apply (IH (last s) ltac:(lia) ks2). }
  destruct ks2 as [|k2 ks2 _] using rev_ind.
  2: { rewrite app_comm_cons, app_assoc in Hw. apply app_inj_tail in Hw as [Hw _].
       by apply (IH (last s) ltac:(lia) ks2). }
  apply app_inj_tail in Hw as [Hw ->].
  destruct (hop_span _ _ _ Hhop) as [Hs He]. rewrite He in *.
  inversion Hhops as [HA HB|p e' o ks0 H0 Ho HA E2]; [by destruct ks'|]. subst e'.
  apply hop_bounds in Ho as Hb. destruct o as [k1|]; cbn [option_list] in E2.
  - apply app_inj_tail in E2 as [-> ->]. destruct (hop_span _ _ _ Ho) as [Hs' _].
    destruct (relaxed_hops _ _ H0) as [Hrp Hle].
    destruct (relaxed_best _ _ Hsteps p e _ ltac:(lia) Ho Hrp) as [_ Hbest].
    fold s in Hbest. rewrite Hnum, <- Hlast, Hw in Hbest. cbn in Hbest. lia.
  - rewrite app_nil_r in E2. subst ks0. apply hops_ends in H0.
    apply Forall_app in H0 as [_ H0]. apply Forall_cons in H0 as [H0 _]. lia.
Qed.
End optimal.
End relaxation.

(** ** The parser relaxes its hops *)

Section hops.
Context (options : OptionBits) (index : FullPinyinIndex) (input : bytes).

Definition key_hop (i e : nat) : option (option FullPinyinIndexKey) :=
  (fun k => Some (mk_index_key (canonical k) i e (tone k))) <$>
    parse_one_index_key (slice input i e) options index.

Definition input_hop (i e : nat) : option (option FullPinyinIndexKey) :=
  match input !! i with
  | None => None
  | Some b =>
      if is_separator b then if decide (e = S i) then Some None else None
      else if decide (i < e <= try_end input i) then key_hop i e else None
  end.

Lemma try_end_le i : i <= length input -> try_end input i <= length input.
Proof.
  intros Hi. unfold try_end. pose proof (position_spec is_separator (drop i input)) as H.
  destruct (position is_separator (drop i input)) as [j|]; cbn [default from_option id]; [|lia].
  destruct H as (x & Hx & _). apply lookup_lt_Some in Hx. rewrite length_drop in Hx. lia.
Qed.

Lemma input_hop_bounds p e o : input_hop p e = Some o -> p < e <= length input.
Proof.
  unfold input_hop. destruct (input !! p) as [b|] eqn:Hb; [|done]. apply lookup_lt_Some in Hb.
  pose proof (try_end_le p ltac:(lia)). destruct (is_separator b); case_decide; intros; done || lia.
Qed.

Lemma input_hop_span p e k : input_hop p e = Some (Some k) -> start k = p /\ end_ k = e.
Proof.
  unfold input_hop, key_hop. destruct (input !! p) as [b|]; [|done].
  destruct (is_separator b); case_decide; try done.
  destruct (parse_one_index_key _ _ _); [|done]. by intros [= <-].
Qed.

Lemma relax_from_none i steps e : input_hop i e = None -> relax_from input_hop i steps e = steps.
Proof.
  intros H. unfold relax_from, offer. rewrite H. unfold step_at.
  destruct (steps !! e) as [s|] eqn:E; [by apply list_insert_id|].
  by apply list_insert_ge, lookup_ge_None_1.
Qed.

Lemma relax_fold_none i es steps :
  Forall (fun e => input_hop i e = None) es -> fold_left (relax_from input_hop i) es steps = steps.
Proof.
  intros H. induction H as [|e es He _ IH] in steps |- *; [done|]. cbn. by rewrite relax_from_none.
Qed.

Lemma hop_key_relax i steps e b :
  input !! i = Some b -> is_separator b = false -> i < e <= try_end input i ->
  hop_key options index input i steps e = relax_from input_hop i steps e.
Proof.
  intros Hb Hsep He. unfold hop_key. destruct (parse_one_index_key _ _ _) as [k|] eqn:Hk.
  - assert (input_hop i e = Some (Some (mk_index_key (canonical k) i e (tone k)))) as Hh
      by (unfold input_hop, key_hop; by rewrite Hb, Hsep, decide_True, Hk).
    unfold relax_from, offer. rewrite Hh. destruct (reached (step_at steps i)); [done|]. simpl.
    unfold step_at. destruct (steps !! e) eqn:E; [by rewrite list_insert_id|].
    by rewrite list_insert_ge by by apply lookup_ge_None_1.
  - rewrite relax_from_none; [done|]. unfold input_hop, key_hop. by rewrite Hb, Hsep, decide_True, Hk.
Qed.

Lemma hop_separator_relax i steps :
  input !! i = Some x27 -> hop_separator i steps = relax_from input_hop i steps (S i).
Proof.
  intros Hb. unfold hop_separator, relax_from, offer.
  assert (input_hop i (S i) = Some None) as -> by (unfold input_hop; rewrite Hb; cbn; by rewrite decide_True).
  replace (i + 1) with (S i) by lia. destruct (reached (step_at steps i)).
  - cbn. replace (parsed_len (step_at steps i) + (S i - i)) with (parsed_len (step_at steps i) + 1) by lia.
    rewrite Nat.add_0_r. replace (i + 1) with (S i) by lia. done.
  - unfold step_at. destruct (steps !! S i) eqn:E; [by rewrite list_insert_id|].
    by rewrite list_insert_ge by by apply lookup_ge_None_1.
Qed.

Lemma parse_position_relax steps i :
  i < length input -> parse_position options index input steps i =
    relax_all (length input) input_hop steps i.
Proof.
  intros Hi. destruct (lookup_lt_is_Some_2 input i Hi) as [b Hb].
  unfold parse_position, relax_all. rewrite Hb. cbn [default from_option id].
  destruct (is_separator b) eqn:Hsep.
  - apply bool_decide_eq_true in Hsep as ->. rewrite hop_separator_relax by done.
    replace (length input - i) with (S (length input - S i)) by lia. cbn [seq fold_left].
    rewrite relax_fold_none; [done|]. apply Forall_forall. intros e He%elem_of_seq.
    unfold input_hop. rewrite Hb. cbn. rewrite decide_False by lia. done.
  - pose proof (try_end_le i ltac:(lia)).
    replace (length input - i) with ((try_end input i - i) + (length input - Nat.max i (try_end input i))) by lia.
    rewrite seq_app, fold_left_app. rewrite (relax_fold_none _ (seq _ _)).
    + apply fold_left_ext_in. intros a e He%elem_of_seq. eapply hop_key_relax; [done|done|lia].
    + apply Forall_forall. intros e He%elem_of_seq. unfold input_hop.
      rewrite Hb, Hsep, decide_False by lia. done.
Qed.

Lemma parse_steps_relaxed : Relaxed (length input) input_hop (length input) (parse_steps options index input).
Proof.
  unfold parse_steps. erewrite fold_left_ext_in.
  - apply relaxed_all; [apply input_hop_bounds|done].
  - intros steps i Hi%elem_of_seq. apply parse_position_relax. lia.
Qed.

(** [final_position] is the furthest reached step. *)
Lemma final_position_spec steps :
  Relaxed (length input) input_hop (length input) steps ->
  reached (step_at steps (final_position input steps)) = true /\
  forall j, j <= length input -> reached (step_at steps j) = true -> j <= final_position input steps.
Proof.
  intros H. unfold final_position. set (p := fun i => _).
  assert (forall j, reached (step_at steps j) = true -> p j = true) as Hp.
  { intros j Hj. unfold p. rewrite Hj, (relaxed_parsed _ _ _ _ _ H Hj). apply Nat.eqb_refl. }
  pose proof (find_reverse_seq p (S (length input))) as Hf.
  destruct (List.find p _) as [i|]; cbn [default from_option id].
  - destruct Hf as (Hi & Hpi & Hmax). split; [by apply andb_true_iff in Hpi as [? _]|].
    intros j Hj Hr%Hp. destruct (decide (j <= i)); [done|]. rewrite Hmax in Hr; [done|lia].
  - specialize (Hf 0 ltac:(lia)). rewrite Hp in Hf; [done|]. by rewrite (relaxed_start _ _ _ _ H).
Qed.
End hops.

(** ** Keys of an index *)

(** What the pinned indexes are: sorted by spelling, the spellings of letters
    and short enough for the lookahead with a digit. *)
Record well_spelled (index : FullPinyinIndex) : Prop := {
  spelled_sorted : bytes_increasing (fst <$> index) = true;
  spelled_rows : forallb (fun row =>
    (1 <=? length row.1) && (length row.1 <=? MAX_INDEX_SPELLING_LEN)
      && forallb is_ascii_lowercase row.1) index = true
}.

Lemma well_spelled_row index spelling c :
  well_spelled index -> (spelling, c) ∈ index ->
  1 <= length spelling <= MAX_INDEX_SPELLING_LEN /\ forallb is_ascii_lowercase spelling = true.
Proof.
  intros Hw Hin. pose proof (forallb_elem _ _ _ (spelled_rows _ Hw) Hin) as H. cbn [fst] in H.
  rewrite !andb_true_iff, !Nat.leb_le in H. tauto.
Qed.

Lemma index_canonical_spec index spelling c :
  well_spelled index -> index_canonical index spelling = Some c <-> (spelling, c) ∈ index.
Proof.
  intros Hw. unfold index_canonical. split.
  - intros H. apply bind_Some in H as (i & Hi & H). apply bind_Some in H as ([s c'] & Hrow & [= <-]).
    apply (string_position_spec _ _ _ _ (spelled_sorted _ Hw)) in Hi as (row & Hr & Hs).
    replace row with (s, c') in Hs by congruence. cbn in Hs |- *. subst s.
    by apply (list_elem_of_lookup_2 _ i).
  - intros [i Hi]%list_elem_of_lookup.
    rewrite (proj2 (string_position_spec _ _ _ i (spelled_sorted _ Hw))) by (eexists; eauto).
    cbn [mbind option_bind]. by rewrite Hi.
Qed.

Lemma tone_digit_of t : (1 <= t <= 5)%Z -> tone_digit (byte_of (48 + t)) = Some t.
Proof.
  intros Ht. unfold tone_digit, in_range. rewrite byte_val_of, Z.mod_small by lia.
  rewrite !(proj2 (Z.leb_le _ _)) by lia. cbn. f_equal. lia.
Qed.

Lemma tone_digit_some b t : tone_digit b = Some t -> (1 <= t <= 5)%Z /\ b = byte_of (48 + t).
Proof.
  unfold tone_digit, in_range. destruct (Z.leb_spec 49 (byte_val b)), (Z.leb_spec (byte_val b) 53); try done.
  cbn. intros [= <-]. split; [lia|]. rewrite <- (byte_of_val b) at 1. f_equal. lia.
Qed.

Lemma tone_digit_lowercase b : is_ascii_lowercase b = true -> tone_digit b = None.
Proof.
  unfold is_ascii_lowercase, tone_digit, in_range. intros [H1%Z.leb_le H2%Z.leb_le]%andb_true_iff.
  rewrite (proj2 (Z.leb_gt (byte_val b) 53)) by lia. by rewrite andb_false_r.
Qed.

(** One segment: a row's spelling and the tone suffix the options read. *)
Lemma parse_one_index_key_sound options index seg k :
  well_spelled index -> parse_one_index_key seg options index = Some k ->
  exists spelling suffix, (spelling, canonical k) ∈ index /\
    tone_suffix options (tone k) suffix /\ seg = spelling ++ suffix.
Proof.
  intros Hw. unfold parse_one_index_key.
  destruct (if contains options USE_TONE then b ← seg !! (length seg - 1); tone_digit b else None)
    as [t|] eqn:Ht.
  - destruct (contains options USE_TONE) eqn:Hu; [|done].
    apply bind_Some in Ht as (b & Hb & [Hr ->]%tone_digit_some).
    rewrite (proj2 (Z.eqb_neq t 0)) by lia. rewrite andb_false_r, orb_false_r. cbn [negb andb].
    case_match eqn:Hl; [done|]. unfold from_utf8. case_match; [|done]. cbn [mbind option_bind].
    destruct (index_canonical _ _) as [c|] eqn:Hc; [|done]. cbn. intros [= <-]. cbn.
    apply (index_canonical_spec _ _ _ Hw) in Hc. eexists _, _. split; [done|].
    split; [by constructor|]. rewrite <- (take_drop (length seg - 1) seg) at 1. f_equal.
    apply Nat.eqb_neq in Hl. rewrite (drop_S _ _ _ Hb), drop_ge; [done|lia].
  - destruct ((length seg =? 0) || _) eqn:Hl; [done|]. rewrite take_ge by done.
    unfold from_utf8. destruct (utf8_valid seg); [|done]. cbn [mbind option_bind].
    destruct (index_canonical _ _) as [c|] eqn:Hc; [|done]. cbn. intros [= <-]. cbn.
    apply (index_canonical_spec _ _ _ Hw) in Hc. exists seg, []. split; [done|].
    split; [|by rewrite app_nil_r]. constructor. intros [Hu Hf].
    by rewrite Hu, Hf, orb_true_r in Hl.
Qed.

Lemma parse_one_index_key_complete options index spelling suffix c t :
  well_spelled index -> (spelling, c) ∈ index -> tone_suffix options t suffix ->
  exists k, parse_one_index_key (spelling ++ suffix) options index = Some k /\
    canonical k = c /\ tone k = t.
Proof.
  intros Hw Hin Ht. destruct (well_spelled_row _ _ _ Hw Hin) as [Hlen Hlow].
  pose proof (from_utf8_lowercase _ Hlow) as Hutf.
  pose proof (proj2 (index_canonical_spec _ _ c Hw) Hin) as Hc.
  unfold parse_one_index_key. destruct Ht as [Hf|t Hu Hr].
  - rewrite app_nil_r.
    assert ((if contains options USE_TONE then b ← spelling !! (length spelling - 1); tone_digit b else None)
      = None) as ->.
    { destruct (contains options USE_TONE); [|done]. destruct (spelling !! _) as [b|] eqn:Hb; [|done].
      cbn. eapply tone_digit_lowercase, (forallb_lookup _ _ Hlow), Hb. }
    rewrite (proj2 (Nat.eqb_neq _ _)) by lia. cbn [orb].
    case_match eqn:Hforce.
    { rewrite !andb_true_iff in Hforce. tauto. }
    rewrite take_ge by done. rewrite Hutf. cbn [mbind option_bind]. rewrite Hc. cbn. eauto.
  - rewrite Hu, length_app. cbn [length]. replace (length spelling + 1 - 1) with (length spelling) by lia.
    rewrite lookup_app_r, Nat.sub_diag by lia. cbn [lookup list_lookup mbind option_bind].
    rewrite tone_digit_of by done. rewrite (proj2 (Z.eqb_neq t 0)) by lia.
    rewrite (proj2 (Nat.eqb_neq _ _)) by lia. rewrite andb_false_r. cbn [orb].
    rewrite take_app_length, Hutf. cbn [mbind option_bind]. rewrite Hc. cbn. eauto.
Qed.

(** ** Hops are segmentations *)

Section correspondence.
Context (options : OptionBits) (index : FullPinyinIndex) (input : bytes).
Hypothesis Hw : well_spelled index.

Lemma key_bytes_no_separator spelling suffix c t :
  (spelling, c) ∈ index -> tone_suffix options t suffix ->
  1 <= length (spelling ++ suffix) <= MAX_LOOKAHEAD /\
  Forall (fun b => is_separator b = false) (spelling ++ suffix).
Proof using Hw.
  intros Hin Ht. destruct (well_spelled_row _ _ _ Hw Hin) as [Hlen Hlow].
  unfold MAX_INDEX_SPELLING_LEN, MAX_LOOKAHEAD in *. rewrite length_app. split.
  { destruct Ht; cbn [length]; lia. }
  apply Forall_app. split.
  - apply Forall_forall. intros b Hb. pose proof (forallb_elem _ _ _ Hlow Hb) as H.
    apply bool_decide_eq_false. by intros ->.
  - destruct Ht as [|t Hu Hr]; constructor; [|constructor]. apply bool_decide_eq_false. intros H.
    apply (f_equal byte_val) in H. rewrite byte_val_of, Z.mod_small in H by lia. cbn in H. lia.
Qed.

Lemma reads_key_hop k :
  reads_key options index input k -> input_hop options index input (start k) (end_ k) = Some (Some k).
Proof using Hw.
  intros ([Hse Hen] & spelling & suffix & Hin & Ht & Hslice).
  destruct (key_bytes_no_separator _ _ _ _ Hin Ht) as [Hlen Hsep]. rewrite <- Hslice in Hlen, Hsep.
  assert (length (slice input (start k) (end_ k)) = end_ k - start k) as Hl
    by (unfold slice; rewrite length_take, length_drop; lia).
  assert (forall j b, j < end_ k - start k -> input !! (start k + j) = Some b ->
    is_separator b = false) as Hns.
  { intros j b Hj Hb. rewrite Forall_lookup in Hsep. apply (Hsep j). unfold slice.
    by rewrite lookup_take_lt, lookup_drop. }
  destruct (lookup_lt_is_Some_2 input (start k)) as [b Hb]; [lia|].
  unfold input_hop. rewrite Hb, (Hns 0 b) by (lia || by rewrite Nat.add_0_r).
  rewrite decide_True.
  - unfold key_hop. rewrite Hslice.
    destruct (parse_one_index_key_complete _ _ _ _ _ _ Hw Hin Ht) as (k' & -> & Hc & Htone).
    cbn. rewrite Hc, Htone. by destruct k.
  - split; [lia|]. unfold try_end. pose proof (position_spec is_separator (drop (start k) input)) as H.
    destruct (position _ _) as [j|]; cbn [default from_option id]; [|lia].
    destruct H as (x & Hx & Hxs). rewrite lookup_drop in Hx.
    destruct (decide (j < end_ k - start k)) as [Hj|]; [|lia].
    rewrite (Hns j x Hj Hx) in Hxs. done.
Qed.

Lemma hop_reads_key p e k : input_hop options index input p e = Some (Some k) -> reads_key options index input k.
Proof using Hw.
  intros Hh. pose proof (input_hop_bounds _ _ _ _ _ _ Hh). destruct (input_hop_span _ _ _ _ _ _ Hh) as [Hs He].
  unfold input_hop, key_hop in Hh. destruct (input !! p) as [b|]; [|done].
  destruct (is_separator b); case_decide; try done.
  destruct (parse_one_index_key _ _ _) as [k'|] eqn:Hk; [|done]. injection Hh as <-. cbn in *.
  apply (parse_one_index_key_sound _ _ _ _ Hw) in Hk as (spelling & suffix & Hin & Ht & Hslice).
  split; [cbn; lia|]. by exists spelling, suffix.
Qed.

Lemma hops_segmentation p ks :
  Hops (input_hop options index input) p ks <-> Segmentation options index input p ks.
Proof using Hw.
  split.
  - induction 1 as [|p e o ks _ IH Ho]; [constructor|]. destruct o as [k|].
    + destruct (input_hop_span _ _ _ _ _ _ Ho) as [Hs <-].
      apply (segmentation_key _ _ _ p); [done..|]. by eapply hop_reads_key.
    + cbn. rewrite app_nil_r. unfold input_hop, key_hop in Ho. destruct (input !! p) as [b|] eqn:Hb; [|done].
      destruct (is_separator b) eqn:Hsep; case_decide; try done.
      * subst e. apply bool_decide_eq_true in Hsep as ->. by constructor.
      * by destruct (parse_one_index_key _ _ _).
  - induction 1 as [|p ks _ IH Hb|p ks k _ IH Hs Hk]; [constructor|..].
    + rewrite <- (app_nil_r ks). apply (hops_step _ p (S p) None); [done|].
      unfold input_hop. rewrite Hb. cbn. by rewrite decide_True.
    + apply (hops_step _ p (end_ k) (Some k)); [done|]. subst p. by apply reads_key_hop.
Qed.
End correspondence.

(** The two pinned indexes. *)
Lemma luoma_well_spelled : well_spelled luoma_pinyin_index.
Proof. split; vm_compute; reflexivity. Qed.

Lemma secondary_well_spelled : well_spelled secondary_zhuyin_index.
Proof. split; vm_compute; reflexivity. Qed.

Lemma parse_index_optimal options index input :
  well_spelled index ->
  let p := parse_index options index input in
  Segmentation options index input (consumed p) (keys p) /\
  (forall n ks, Segmentation options index input n ks ->
    n <= consumed p /\ (n = consumed p -> length (keys p) <= length ks)) /\
  (forall ks1 k ks2 ks' k', keys p = ks1 ++ k :: ks2 ->
    Segmentation options index input (end_ k) (ks' ++ [k']) -> end_ k' = end_ k ->
    length ks' <= length ks1 -> start k <= start k').
Proof.
  intros Hw p. pose proof (parse_steps_relaxed options index input) as Hr.
  destruct (final_position_spec options index input _ Hr) as [Hfinal Hmax].
  pose proof (input_hop_bounds options index input) as Hb.
  pose proof (input_hop_span options index input) as Hs.
  destruct (walk_hops _ _ _ Hr _ Hfinal) as [Hwalk Hlen]. repeat split.
  - by apply hops_segmentation.
  - apply (hops_segmentation _ _ _ Hw) in H. destruct (relaxed_hops _ _ Hb _ Hr _ _ H) as [Hn _].
    apply Hmax; [|done]. clear -H Hb. destruct H as [|p e o ks _ Ho]; [lia|]. apply Hb in Ho. lia.
  - intros ->. apply (hops_segmentation _ _ _ Hw) in H.
    destruct (relaxed_hops _ _ Hb _ Hr _ _ H) as [_ Hn]. 
    change (length (walk (parse_steps options index input)
      (final_position input (parse_steps options index input))) <= length ks).
    rewrite Hlen. exact Hn.
  - intros ks1 k ks2 ks' k' Hk Hseg Hend Hle. apply (hops_segmentation _ _ _ Hw) in Hseg.
    by apply (walk_longest _ _ Hb Hs _ Hr (consumed p) ks1 k ks2 ks' k').
Qed.

(** C9. Whatever the options and the bytes, a luoma or secondary-zhuyin parse
    is a segmentation of the prefix it consumes into apostrophes and table
    spellings with the tone digits the options read; no segmentation reaches
    further, none of the same prefix has fewer keys, and each key is the
    longest that ends a segmentation with as few keys there. Both entry points
    answer this parse. *)
Theorem full_index_parse_optimal options index input (use_tone : bool) :
  index = luoma_pinyin_index \/ index = secondary_zhuyin_index ->
  let p := parse_index options index input in
  (Segmentation options index input (consumed p) (keys p) /\
   (forall n ks, Segmentation options index input n ks ->
     n <= consumed p /\ (n = consumed p -> length (keys p) <= length ks)) /\
   (forall ks1 k ks2 ks' k', keys p = ks1 ++ k :: ks2 ->
     Segmentation options index input (end_ k) (ks' ++ [k']) -> end_ k' = end_ k ->
     length ks' <= length ks1 -> start k <= start k')) /\
  parse_full_pinyin_index_with_options input options index = Ok p /\
  (options = from_bits (if use_tone then USE_TONE else 0%Z) ->
    parse_full_pinyin_index input use_tone index = p).
Proof.
  intros Hi p. split; [|split; [done|by intros ->]]. apply parse_index_optimal.
  destruct Hi as [-> | ->]; [apply luoma_well_spelled|apply secondary_well_spelled].
Qed.

Lemma full_index_parse_optimal_witness :
  let p := parse_index USE_TONE luoma_pinyin_index (str "ni'hao3") in
  consumed p = 7 /\ Segmentation USE_TONE luoma_pinyin_index (str "ni'hao3") 7 (keys p) /\
  forall n ks, Segmentation USE_TONE luoma_pinyin_index (str "ni'hao3") n ks -> n <= 7.
Proof.
  pose proof (full_index_parse_optimal USE_TONE luoma_pinyin_index (str "ni'hao3") true
    (or_introl eq_refl)) as [[Hs [Hm _]] _].
  split; [vm_compute; reflexivity|].
  assert (consumed (parse_index USE_TONE luoma_pinyin_index (str "ni'hao3")) = 7) as E
    by (vm_compute; reflexivity).
  rewrite E in Hs, Hm. split; [exact Hs|]. intros n ks H. apply (Hm n ks H).
Defined.
