(* ===== verification/GraphBuild.v ===== *)
(** * GraphBuild: what the graph holds

    The edges [build_with_options] and [build_exact] of [Graph] collect,
    their index by node, and the positions they mark reachable. *)

From Stdlib Require Import ZArith Lia Bool String Strings.Byte.
From stdpp Require Import base list sorting strings relations.
From S2P Require Import Prelude Options SyllableData Syllables Vocab Graph.

(** ** Edges indexed by node *)

(** Where node [n]'s edges start in the concatenation of [E]. *)
Definition offset (E : nat -> list Edge) (n : nat) : nat := length (seq 0 n ≫= E).

(** [g] stores the edges [E n] of every node [n], in node order, with the
    index of each node's first edge. *)
Record indexed (g : SegmentGraph) (E : nat -> list Edge) : Prop := {
  idx_edges : edges g = seq 0 (node_count g) ≫= E;
  idx_starts : starts g = offset E <$> seq 0 (node_count g + 1);
  idx_forward : forall n e, e ∈ E n -> from e = n /\ n < to e <= input_len g
}.

Lemma offset_S E n : offset E (S n) = offset E n + length (E n).
Proof. unfold offset. rewrite seq_S, bind_app, length_app. simpl. by rewrite app_nil_r. Qed.

Lemma offset_le E n m : n <= m -> offset E n <= offset E m.
Proof. induction 1 as [|m _ IH]; [done|]. rewrite offset_S. lia. Qed.

Lemma bind_seq_slice {A} (E : nat -> list A) N n :
  n < N ->
  take (length (E n)) (drop (length (seq 0 n ≫= E)) (seq 0 N ≫= E)) = E n.
Proof.
  intros Hn. replace N with (n + S (N - S n)) by lia.
  rewrite seq_app, bind_app, drop_app_length. cbn [seq]. rewrite bind_cons, Nat.add_0_l.
  apply take_app_length.
Qed.

Lemma node_edges_indexed E N n :
  n < N -> node_edges (seq 0 N ≫= E) (offset E <$> seq 0 (N + 1)) n = E n.
Proof.
  intros Hn. unfold node_edges. rewrite !list_lookup_fmap, !lookup_seq_lt by lia. simpl.
  rewrite Nat.add_1_r. rewrite subslice_in.
  - cbn [default from_option id]. rewrite offset_S, Nat.add_comm, Nat.add_sub. by apply bind_seq_slice.
  - split; [apply offset_le; lia|]. apply (offset_le E (S n) N). lia.
Qed.

Lemma outgoing_indexed g E n :
  indexed g E -> outgoing g n = if decide (n < node_count g) then E n else [].
Proof.
  intros [He Hs Hf]. unfold outgoing. rewrite He, Hs. case_decide as Hn.
  - by apply node_edges_indexed.
  - unfold node_edges. rewrite !list_lookup_fmap.
    rewrite (lookup_ge_None_2 _ (n + 1)) by (rewrite length_seq; lia).
    by destruct (seq 0 (node_count g + 1) !! n).
Qed.

(** ** The apostrophe run *)

Definition run_end_of (input : bytes) (node : nat) : nat :=
  match position (fun b => negb (bool_decide (b = apostrophe))) (drop node input) with
  | Some offset => node + offset
  | None => length input
  end.

(** Where a key leaving [node] starts: past the apostrophe run at it. *)
Definition key_start_at (input : bytes) (node : nat) : option nat := (key_start input node 0).1.

Lemma run_end_apostrophe input node :
  input !! node = Some apostrophe -> run_end_of input node = run_end_of input (S node).
Proof.
  intros Hn. unfold run_end_of. rewrite (drop_S input apostrophe node Hn). simpl.
  destruct (position _ (drop (S node) input)); simpl; [lia|done].
Qed.

Lemma run_end_other input node b :
  input !! node = Some b -> b <> apostrophe -> run_end_of input node = node.
Proof.
  intros Hn Hb. unfold run_end_of. rewrite (drop_S input b node Hn). simpl.
  rewrite bool_decide_false by done. simpl. lia.
Qed.

Lemma run_end_spec input node :
  node <= length input ->
  node <= run_end_of input node <= length input /\
  (forall i, node <= i < run_end_of input node -> input !! i = Some apostrophe) /\
  input !! run_end_of input node <> Some apostrophe.
Proof.
  intros Hn. unfold run_end_of.
  pose proof (position_first (fun b => negb (bool_decide (b = apostrophe))) (drop node input)) as H.
  assert (forall i, node <= i -> drop node input !! (i - node) = input !! i) as Hd.
  { intros i Hi. rewrite lookup_drop. f_equal. lia. }
  assert (forall i c, node <= i -> input !! i = Some c ->
    negb (bool_decide (c = apostrophe)) = false -> input !! i = Some apostrophe) as Hap.
  { intros i c Hi -> ->%negb_false_iff%bool_decide_eq_true. done. }
  destruct (position _ _) as [o|].
  - destruct H as [(x & Hx & Hp) H]. pose proof (lookup_lt_Some _ _ _ Hx) as Hlt.
    rewrite length_drop in Hlt. split; [lia|]. split.
    + intros i Hi. destruct (lookup_lt_is_Some_2 input i) as [c Hc]; [lia|].
      apply (Hap i c); [lia|done|]. apply (H (i - node)); [lia|]. by rewrite Hd by lia.
    + rewrite lookup_drop in Hx. rewrite Hx. intros [= ->]. by rewrite bool_decide_true in Hp.
  - split; [lia|]. split.
    + intros i Hi. destruct (lookup_lt_is_Some_2 input i) as [c Hc]; [lia|].
      apply (Hap i c); [lia|done|]. apply (H (i - node)). by rewrite Hd by lia.
    + rewrite lookup_ge_None_2 by lia. done.
Qed.

Definition cache_ok (input : bytes) (node run_end : nat) : Prop :=
  run_end <= node \/ run_end = run_end_of input node.

(** The cached run end changes nothing. *)
Lemma key_start_cached input node run_end :
  cache_ok input node run_end ->
  (key_start input node run_end).1 = key_start_at input node /\
  cache_ok input (S node) (key_start input node run_end).2.
Proof.
  intros Hc. unfold key_start_at, key_start. destruct (input !! node) as [b|] eqn:Hb.
  2: { simpl. split; [done|]. apply lookup_ge_None in Hb. destruct Hc as [?|Hc]; [left; lia|].
       left. rewrite Hc. unfold run_end_of. rewrite drop_ge by lia. simpl. lia. }
  case_bool_decide as Ha; simpl.
  - subst b. fold (run_end_of input node).
    assert ((if run_end <=? node then run_end_of input node else run_end) = run_end_of input node) as E.
    { destruct (Nat.leb_spec run_end node); [done|]. destruct Hc; [lia|done]. }
    rewrite E. split; [done|]. right. by apply run_end_apostrophe.
  - split; [done|]. left. destruct Hc as [?|Hc]; [lia|].
    rewrite Hc, (run_end_other _ _ b) by done. lia.
Qed.

(** A key leaving [node] starts at the first byte past its apostrophes. *)
Lemma key_start_at_spec input node s :
  key_start_at input node = Some s <->
  node <= s /\ s < length input /\ input !! s <> Some apostrophe /\
  forall i, node <= i < s -> input !! i = Some apostrophe.
Proof.
  unfold key_start_at, key_start. destruct (input !! node) as [b|] eqn:Hb.
  2: { apply lookup_ge_None in Hb. split; [done|]. intros. lia. }
  pose proof (lookup_lt_Some _ _ _ Hb) as Hlt. case_bool_decide as Ha; simpl.
  - subst b. fold (run_end_of input node).
    destruct (run_end_spec input node) as (Hr & Hrun & Hend); [lia|]. split.
    + destruct (Nat.ltb_spec (run_end_of input node) (length input)); [|done].
      intros [= <-]. split_and!; [lia|done|done|done].
    + intros (Hs & Hsl & Hsa & Hi).
      assert (s = run_end_of input node) as ->; [|by rewrite (proj2 (Nat.ltb_lt _ _))].
      destruct (lt_eq_lt_dec s (run_end_of input node)) as [[?|?]|?]; [|done|].
      * destruct Hsa. apply Hrun. lia.
      * destruct Hend. apply Hi. lia.
  - split; [intros [= <-]; split_and!; [done|done|congruence|lia]|].
    intros (Hs & _ & _ & Hi). destruct (decide (s = node)) as [->|]; [done|].
    rewrite (Hi node) in Hb by lia. congruence.
Qed.

(** ** The pass over the nodes *)

(** The edges leaving one node. *)
Definition node_emits (input : bytes) (options : OptionBits) (node : nat) : list Edge :=
  match key_start_at input node with
  | Some s => emit_edges input node s options
  | None => []
  end.

Lemma build_nodes input options n :
  exists run_end,
    fold_left (build_node input options) (seq 0 n) ([], [], 0) =
    (seq 0 n ≫= node_emits input options, offset (node_emits input options) <$> seq 0 n, run_end) /\
    cache_ok input n run_end.
Proof.
  induction n as [|n (run_end & IH & Hc)]; [exists 0; split; [done|left; lia]|].
  rewrite seq_S, Nat.add_0_l, fold_left_app, IH, fmap_app, bind_app. cbn [fold_left build_node].
  destruct (key_start_cached input n run_end Hc) as [Hk Hc'].
  destruct (key_start input n run_end) as [o run_end'] eqn:E. simpl in Hk, Hc'.
  exists run_end'. split; [|done]. cbn [mbind list_bind fmap list_fmap]. rewrite app_nil_r.
  assert (node_emits input options n = from_option (fun s => emit_edges input n s options) [] o) as ->
    by (unfold node_emits; rewrite <- Hk; by destruct o).
  destruct o as [s|]; [done|]. cbn. by rewrite app_nil_r.
Qed.

(** ** The edges of one node *)

(** The span of [e]'s key is what the span parser answers for its bytes. *)
Definition span_edge (input : bytes) (options : OptionBits) (node s : nat) (e : Edge) : Prop :=
  exists len key tone dist,
    1 <= len <= MAX_SYLLABLE_LEN + 1 /\
    parse_span input s len options = Some (key, tone, dist) /\
    e = {| from := node; to := s + len; syllable_start := s; Graph.key := key;
           kind := edge_kind key (last_complete (parsed_spans input s options)) len;
           Graph.tone := tone; distance := dist |}.

Lemma parsed_spans_lookup input s options i :
  parsed_spans input s options !! i =
  if decide (i <= MAX_SYLLABLE_LEN) then Some (parse_span input s (S i) options) else None.
Proof.
  unfold parsed_spans. rewrite list_lookup_fmap. case_decide as Hi.
  - by rewrite lookup_seq_lt by (unfold MAX_SYLLABLE_LEN in *; lia).
  - by rewrite lookup_ge_None_2 by (rewrite length_seq; unfold MAX_SYLLABLE_LEN in *; lia).
Qed.

Lemma parse_span_fits input s len options r :
  parse_span input s len options = Some r -> s + len <= Nat.max s (length input).
Proof.
  unfold parse_span. destruct (Nat.ltb_spec (Nat.min (MAX_SYLLABLE_LEN + 1) (length input - s)) len); [done|].
  intros _. lia.
Qed.

Lemma emit_edges_spec input node s options e :
  (Z.of_nat (length input) <= MAX_GRAPH_POSITION)%Z -> node <= s -> s <= length input ->
  e ∈ emit_edges input node s options <-> span_edge input options node s e.
Proof.
  intros Hlen Hn Hs. unfold emit_edges, span_edge. rewrite list_elem_of_bind.
  setoid_rewrite elem_of_reverse. split.
  - intros ([i span] & He & Hin). apply elem_of_lookup_imap in Hin as (i' & span' & [= <- <-] & Hin).
    rewrite parsed_spans_lookup in Hin. case_decide as Hi; [|done]. injection Hin as <-.
    destruct (parse_span input s (S i) options) as [[[k t] d]|] eqn:Ep; [|by apply not_elem_of_nil in He].
    destruct (u32_ok node && _ && _); [|by apply not_elem_of_nil in He].
    apply list_elem_of_singleton in He as ->. exists (S i), k, t, d.
    rewrite (Nat.add_1_r i). split_and!; [lia|lia|done|done].
  - intros (len & k & t & d & Hl & Ep & ->). pose proof (parse_span_fits _ _ _ _ _ Ep) as Hfit.
    exists (len - 1, Some (k, t, d)). split.
    + assert (forall x, x <= length input -> u32_ok x = true) as Hok.
      { intros x Hx. unfold u32_ok. apply Z.leb_le. unfold MAX_GRAPH_POSITION in Hlen. lia. }
      rewrite !Hok by lia. cbn [andb]. replace (len - 1 + 1) with len by lia. by left.
    + apply elem_of_lookup_imap. exists (len - 1), (Some (k, t, d)). split; [done|].
      rewrite parsed_spans_lookup, decide_True by lia. replace (S (len - 1)) with len by lia. by rewrite Ep.
Qed.

(** Every edge of a node, by what it spans. *)
Lemma node_emits_spec input options node e :
  (Z.of_nat (length input) <= MAX_GRAPH_POSITION)%Z ->
  e ∈ node_emits input options node <->
  exists s, key_start_at input node = Some s /\ span_edge input options node s e.
Proof.
  intros Hlen. unfold node_emits. destruct (key_start_at input node) as [s|] eqn:Es.
  - apply key_start_at_spec in Es as (H1 & H2 & _). rewrite emit_edges_spec by (done || lia).
    split; [by exists s|]. by intros (? & [= <-] & ?).
  - split; [by intros ?%not_elem_of_nil|]. by intros (? & ? & _).
Qed.

Lemma node_emits_forward input options node e :
  (Z.of_nat (length input) <= MAX_GRAPH_POSITION)%Z -> e ∈ node_emits input options node ->
  from e = node /\ node <= syllable_start e < to e /\ to e <= length input.
Proof.
  intros Hlen (s & Hs & len & k & t & d & Hl & Hp & ->)%node_emits_spec; [|done].
  apply key_start_at_spec in Hs as (H1 & H2 & _). apply parse_span_fits in Hp. simpl. lia.
Qed.

(** Longest key first. *)
Lemma spans_order {A} (f : nat * A -> list Edge) (g : nat -> nat) (l : list A) :
  (forall i j, i < j -> g i < g j) ->
  (forall it e, e ∈ f it -> to e = g it.1) -> (forall it, length (f it) <= 1) ->
  StronglySorted (fun a b => to b < to a) (reverse (imap pair l) ≫= f).
Proof.
  intros Hg Hf H1. induction l as [|x l IH] using rev_ind; [constructor|].
  rewrite imap_app, reverse_app. cbn [imap]. rewrite Nat.add_0_r.
  change (reverse [(length l, x)]) with [(length l, x)]. cbn [app].
  rewrite bind_cons. specialize (H1 (length l, x)).
  destruct (f (length l, x)) as [|e [|e' r]] eqn:E; simpl in *; [done| |lia].
  constructor; [done|]. apply Forall_forall.
  intros e' ([i y] & He' & Hin)%list_elem_of_bind. rewrite elem_of_reverse in Hin.
  apply elem_of_lookup_imap in Hin as (i' & y' & [= <- <-] & Hi%lookup_lt_Some).
  rewrite (Hf _ _ He'), (Hf (length l, x) e) by (rewrite E; by left). by apply Hg.
Qed.

Lemma node_emits_order input options node :
  StronglySorted (fun a b => to b < to a) (node_emits input options node).
Proof.
  unfold node_emits. destruct (key_start_at input node) as [s|]; [|constructor].
  apply (spans_order _ (fun i => s + (i + 1))); [lia|..].
  - intros [i [[[k t] d]|]] e He; [|by apply not_elem_of_nil in He].
    cbn zeta in He. destruct (u32_ok node && _ && _); [|by apply not_elem_of_nil in He].
    by apply list_elem_of_singleton in He as ->.
  - intros [i [[[k t] d]|]]; [|simpl; lia]. cbn zeta. destruct (u32_ok node && _ && _); simpl; lia.
Qed.

(** ** Reachable positions *)

Definition marked (r : list bool) (m : nat) : Prop := default false (r !! m) = true.

Lemma marked_insert r n m : marked (<[n := true]> r) m <-> marked r m \/ (m = n /\ n < length r).
Proof.
  unfold marked. destruct (decide (m = n)) as [->|Hne].
  - destruct (decide (n < length r)).
    + rewrite list_lookup_insert_eq by done. simpl. tauto.
    + rewrite list_insert_ge by lia. split; [by left|]. intros [?|[_ ?]]; [done|lia].
  - rewrite list_lookup_insert_ne by done. split; [by left|]. by intros [?|[? _]].
Qed.

Lemma marked_edges l r m :
  marked (fold_left (fun r e => <[to e := true]> r) l r) m <->
  marked r m \/ (m < length r /\ exists e, e ∈ l /\ to e = m).
Proof.
  revert r. induction l as [|e l IH]; intros r; cbn [fold_left].
  { split; [by left|]. intros [?|(_ & e & []%not_elem_of_nil & _)]; done. }
  rewrite IH, marked_insert, length_insert. split.
  - intros [[?|[-> ?]]|(? & e' & ? & ?)]; [by left|right..].
    + split; [done|]. exists e. split; [by left|done].
    + split; [done|]. exists e'. split; [by right|done].
  - intros [?|(Hm & e' & [->|Hin]%elem_of_cons & <-)]; auto.
    right. eauto.
Qed.

Lemma length_fold_edges l r :
  length (fold_left (fun r e => <[to e := true]> r) l r) = length r.
Proof. revert r. induction l as [|e l IH]; intros r; [done|]. cbn [fold_left]. by rewrite IH, length_insert. Qed.

(** One step of a walk: an apostrophe hop or an edge. *)
Definition walk_step (input : bytes) (E : nat -> list Edge) (a b : nat) : Prop :=
  (input !! a = Some apostrophe /\ b = a + 1) \/ exists e, e ∈ E a /\ to e = b.

Definition walk_to (input : bytes) (E : nat -> list Edge) : nat -> Prop :=
  rtc (walk_step input E) 0.

Section reach.
Context (input : bytes) (E : nat -> list Edge).
Hypothesis Hfwd : forall n e, e ∈ E n -> from e = n /\ n < to e <= length input.
Local Abbreviation edges := (seq 0 (length input + 1) ≫= E).
Local Abbreviation starts := (offset E <$> seq 0 (length input + 2)).

Lemma walk_step_forward a b : walk_step input E a b -> a < b <= length input.
Proof using Hfwd.
  intros [[H ->]|(e & He & <-)]; [apply lookup_lt_Some in H; lia|by apply Hfwd].
Qed.

Lemma walk_to_bound n : walk_to input E n -> n <= length input.
Proof using Hfwd.
  intros H. destruct (rtc_inv_r _ _ H) as [<-|(m & _ & Hs)]; [lia|].
  apply walk_step_forward in Hs. lia.
Qed.

(** After the nodes below [k]: what a walk stepping last from one of them
    reaches, and the furthest of them a walk reaches. *)
Definition reach_inv (k : nat) (st : list bool * nat) : Prop :=
  length st.1 = length input + 1 /\
  (forall m, marked st.1 m <->
     m = 0 \/ exists n, n < k /\ walk_to input E n /\ walk_step input E n m) /\
  (forall n, n < k -> walk_to input E n -> n <= st.2) /\
  walk_to input E st.2 /\ (st.2 = 0 \/ st.2 < k).

Lemma reach_inv_walk k st m : reach_inv k st -> m <= k -> marked st.1 m <-> walk_to input E m.
Proof using Hfwd.
  intros (_ & Hm & _) Hle. rewrite Hm. split.
  - intros [->|(n & _ & Hn & Hs)]; [apply rtc_refl|]. by eapply rtc_r.
  - intros H. destruct (rtc_inv_r _ _ H) as [<-|(n & Hn & Hs)]; [by left|right].
    exists n. apply walk_step_forward in Hs as Hf. split; [lia|done].
Qed.

Lemma reach_node_inv k st :
  k <= length input -> reach_inv k st ->
  reach_inv (S k) (reach_node input edges starts st k).
Proof using Hfwd.
  intros Hk Hinv. pose proof (reach_inv_walk k st k Hinv (le_n _)) as Hwk.
  destruct st as [r c], Hinv as (Hlen & Hm & Hc & Hwc & Hcb). simpl in *.
  unfold reach_node. destruct (default false (r !! k)) eqn:Er; cbn [negb].
  - assert (walk_to input E k) as Hw by (by apply Hwk).
    replace (length input + 2) with (length input + 1 + 1) by lia.
    rewrite node_edges_indexed by lia. unfold reach_inv. cbn [fst snd].
    set (r' := if _ : bool then _ else _).
    assert (length r' = length input + 1) as Hl' by (unfold r'; case_match; by rewrite ?length_insert).
    assert (forall m, marked r' m <-> marked r m \/ (input !! k = Some apostrophe /\ m = k + 1)) as Hr'.
    { intros m. unfold r'. destruct (Nat.ltb_spec (k + 1) (length input + 1)); cbn [andb].
      - case_bool_decide; [rewrite marked_insert; split; intros [?|[? ?]]; auto; right; split; (done || lia)|].
        split; [by left|]. by intros [?|[? _]].
      - split; [by left|]. intros [?|[Ha%lookup_lt_Some _]]; [done|lia]. }
    split; [by rewrite length_fold_edges|]. split; [|split_and!; [|done|lia]].
    + intros m. rewrite marked_edges, Hr', Hm. unfold walk_step. split.
      * intros [[[->|(n & ? & ? & ?)]|[? ->]]|(? & e & ? & <-)]; [by left|right..].
        -- exists n. split; [lia|done].
        -- exists k. split; [lia|]. split; [done|by left].
        -- exists k. split; [lia|]. split; [done|right; by exists e].
      * intros [->|(n & Hn & Hwn & Hs)]; [tauto|].
        destruct (decide (n = k)) as [->|]; [|left; left; right; exists n; split; [lia|done]].
        destruct Hs as [?|(e & He & <-)]; [tauto|]. right. rewrite Hl'.
        apply Hfwd in He as ?. split; [lia|by exists e].
    + intros n Hn _. lia.
  - assert (~ walk_to input E k) as Hw by (intros H%Hwk; unfold marked in H; congruence).
    split; [done|]. split; [|split_and!; [|done|simpl; lia]].
    + intros m. rewrite Hm. simpl. split; intros [->|(n & Hn & H)]; try by left.
      * right. exists n. split; [lia|done].
      * right. exists n. split; [|done]. destruct (decide (n = k)) as [->|]; [tauto|lia].
    + intros n Hn Hwn. destruct (decide (n = k)) as [->|]; [done|]. apply Hc; [lia|done].
Qed.

Lemma reach_nodes k :
  k <= length input + 1 ->
  reach_inv k (fold_left (reach_node input edges starts) (seq 0 k)
    (<[0 := true]> (replicate (length input + 1) false), 0)).
Proof using Hfwd.
  induction k as [|k IH]; intros Hk.
  - split; [cbn [fst seq fold_left]; by rewrite length_insert, length_replicate|]. split; [|split_and!; [lia|apply rtc_refl|by left]].
    intros m. cbn [fst seq fold_left]. rewrite marked_insert, length_replicate. split.
    + intros [H|[-> _]]; [|by left]. unfold marked in H.
      destruct (replicate (length input + 1) false !! m) as [b|] eqn:Eb; [|done].
      apply lookup_replicate in Eb as [-> _]. done.
    + intros [->|(n & ? & _)]; [right; split; [done|lia]|lia].
  - rewrite seq_S, Nat.add_0_l, fold_left_app. apply reach_node_inv; [lia|]. apply IH. lia.
Qed.
End reach.

(** ** What a build answers *)

Lemma build_inv input options g :
  build_with_options input options = Ok g ->
  (Z.of_nat (length input) <= MAX_GRAPH_POSITION)%Z /\ input_len g = length input /\
  indexed g (node_emits input options) /\
  reach_inv input (node_emits input options) (length input + 1) (reachable g, consumed g).
Proof.
  unfold build_with_options. destruct (Z.ltb_spec MAX_GRAPH_POSITION (Z.of_nat (length input))) as [|Hlen]; [done|].
  destruct (build_nodes input options (length input + 1)) as (run_end & -> & _).
  set (E := node_emits input options).
  assert ((offset E <$> seq 0 (length input + 1)) ++ [length (seq 0 (length input + 1) ≫= E)] =
          offset E <$> seq 0 (length input + 2)) as ->.
  { replace (length input + 2) with (S (length input + 1)) by lia. by rewrite (seq_S (length input + 1)), fmap_app. }
  assert (forall n e, e ∈ E n -> from e = n /\ n < to e <= length input) as Hfwd.
  { intros n e He. apply node_emits_forward in He; [lia|done]. }
  pose proof (reach_nodes input E Hfwd (length input + 1) (le_n _)) as Hr.
  destruct (fold_left _ _ _) as [r c]. intros [= <-]. cbn [input_len reachable consumed].
  split_and!; [done|done| |done]. split; unfold node_count; cbn [input_len edges starts]; [done| |done].
  by replace (length input + 1 + 1) with (length input + 2) by lia.
Qed.

(** A key leaving [node] starts at [s]: past the apostrophes at [node]. *)
Definition starts_key (input : bytes) (node s : nat) : Prop :=
  node <= s < length input /\ input !! s <> Some apostrophe /\
  forall i, node <= i < s -> input !! i = Some apostrophe.

Lemma key_start_starts input node s : key_start_at input node = Some s <-> starts_key input node s.
Proof. rewrite key_start_at_spec. unfold starts_key. tauto. Qed.

Lemma node_emits_starts input options node e :
  (Z.of_nat (length input) <= MAX_GRAPH_POSITION)%Z ->
  e ∈ node_emits input options node <->
  exists s, starts_key input node s /\ span_edge input options node s e.
Proof.
  intros Hlen. rewrite node_emits_spec by done.
  split; intros (s & Hs & He); exists s; (split; [|done]); by apply key_start_starts.
Qed.

Lemma last_complete_spec spans :
  match last_complete spans with
  | Some n => (exists i sp, n = S i /\ spans !! i = Some sp /\ span_complete sp = true) /\
      forall j sp, n <= j -> spans !! j = Some sp -> span_complete sp = false
  | None => forall j sp, spans !! j = Some sp -> span_complete sp = false
  end.
Proof.
  induction spans as [|sp spans IH]; simpl; [done|].
  destruct (last_complete spans) as [n|].
  - destruct IH as [(i & sp' & -> & Hi & Hc) IH]. split; [by exists (S i), sp'|].
    intros [|j] sp'' Hj Hl; [lia|]. apply (IH j); [lia|done].
  - destruct (span_complete sp) eqn:E.
    + split; [by exists 0, sp|]. intros [|j] sp' Hj Hl; [lia|by apply (IH j)].
    + intros [|j] sp' Hl; [by simplify_eq/=|by apply (IH j)].
Qed.

(** The exact edge of a node is its longest complete one. *)
Lemma exact_longest input options node s e :
  span_edge input options node s e ->
  kind_completeness (kind e) = completeness (key e) /\
  (kind e = Exact <-> completeness (key e) = Complete /\
     forall e', span_edge input options node s e' -> completeness (key e') = Complete -> to e' <= to e).
Proof.
  intros (len & k & t & d & Hl & Hp & ->). cbn [kind key to]. unfold edge_kind.
  destruct (completeness k) eqn:Ec; [|split; [done|split; [done|intros [? _]; done]]].
  pose proof (last_complete_spec (parsed_spans input s options)) as Hlast.
  split; [by case_bool_decide|].
  assert (forall n k' t' d', 1 <= n <= MAX_SYLLABLE_LEN + 1 ->
    parse_span input s n options = Some (k', t', d') ->
    exists sp, parsed_spans input s options !! (n - 1) = Some sp /\
      span_complete sp = bool_decide (completeness k' = Complete)) as Hsp.
  { intros n k' t' d' Hn Hp'. exists (Some (k', t', d')). split; [|done].
    rewrite parsed_spans_lookup, decide_True by lia. replace (S (n - 1)) with n by lia. by rewrite Hp'. }
  destruct (Hsp len k t d Hl Hp) as (sp0 & Hsp0 & Hc0).
  destruct (last_complete _) as [n|].
  2: { rewrite (Hlast _ _ Hsp0) in Hc0. by rewrite bool_decide_true in Hc0. }
  destruct Hlast as [(i & sp & -> & Hi & Hci) Hlast]. split.
  - destruct (decide (S i = len)) as [<-|Hne]; [intros _|by rewrite bool_decide_false by congruence]. split; [done|].
    intros e' (len' & k' & t' & d' & Hl' & Hp' & ->) Hc'. cbn [to key] in *.
    destruct (Hsp len' k' t' d' Hl' Hp') as (sp' & Hsp' & Hcs).
    destruct (decide (len' <= S i)); [lia|].
    rewrite (Hlast (len' - 1) sp') in Hcs by (done || lia). by rewrite bool_decide_true in Hcs.
  - intros [_ Hmax]. rewrite parsed_spans_lookup in Hi. case_decide as Hi6; [|done]. injection Hi as Hi.
    unfold span_complete in Hci. rewrite <- Hi in Hci.
    destruct (parse_span input s (S i) options) as [[[k' t'] d']|] eqn:Ep; [|done].
    apply bool_decide_eq_true in Hci.
    assert (s + S i <= s + len) as Hle.
    { refine (Hmax {| from := node; to := s + S i; syllable_start := s; Graph.key := k';
        kind := edge_kind k' (last_complete (parsed_spans input s options)) (S i);
        Graph.tone := t'; distance := d' |} _ Hci).
      exists (S i), k', t', d'. split_and!; [lia|lia|done|done]. }
    destruct (decide (len <= S i)) as [?|?]; [by rewrite bool_decide_true by (f_equal; lia)|].
    rewrite (Hlast (len - 1) sp0) in Hc0 by (done || lia). by rewrite bool_decide_true in Hc0.
Qed.

(** The edges of a built graph, by what they span. *)
Lemma built_outgoing input options g :
  build_with_options input options = Ok g ->
  (Z.of_nat (length input) <= MAX_GRAPH_POSITION)%Z /\
  forall node, outgoing g node = node_emits input options node.
Proof.
  intros (Hlen & Hn & Hidx & _)%build_inv. split; [done|].
  intros node. rewrite (outgoing_indexed g _ node Hidx). case_decide as Hd; [done|].
  destruct (node_emits input options node) as [|e l] eqn:E; [done|].
  assert (e ∈ node_emits input options node) as He by (rewrite E; by left).
  apply node_emits_forward in He; [|done]. unfold node_count in Hd. lia.
Qed.

Lemma built_edge input options g node e :
  build_with_options input options = Ok g -> e ∈ outgoing g node ->
  from e = node /\ node <= syllable_start e < to e /\ to e <= length input /\
  exists s, starts_key input node s /\ span_edge input options node s e.
Proof.
  intros [Hlen Hout]%built_outgoing. rewrite Hout. intros He.
  pose proof (node_emits_forward _ _ _ _ Hlen He) as (H1 & H2 & H3).
  apply node_emits_starts in He; [|done]. done.
Qed.

(** C10. The graph holds exactly the key matches of the input. An input
    within the position limit always builds: the edges are the nodes' edges
    in node order, each node's longest first; an edge leaves a node precisely
    when a span of at most seven bytes past the node's apostrophes parses
    under the options; every edge runs forward inside the input; and the one
    [Exact] edge of a node is its longest complete one. A longer input is
    refused with its length. *)
Theorem graph_edges (input : bytes) (options : OptionBits) :
  match build_with_options input options with
  | Err e => (MAX_GRAPH_POSITION < Z.of_nat (length input))%Z /\
      e = InputTooLong (Z.of_nat (length input)) MAX_GRAPH_POSITION
  | Ok g =>
      input_len g = length input /\
      edges g = (seq 0 (node_count g) ≫= outgoing g) /\
      (forall node, StronglySorted (fun a b => to b < to a) (outgoing g node)) /\
      (forall node e, e ∈ outgoing g node <->
         exists s, starts_key input node s /\ span_edge input options node s e) /\
      (forall node e, e ∈ outgoing g node ->
         from e = node /\ node <= syllable_start e < to e /\ to e <= length input /\
         kind_completeness (kind e) = completeness (key e) /\
         (kind e = Exact <-> completeness (key e) = Complete /\
            forall e', e' ∈ outgoing g node -> completeness (key e') = Complete -> to e' <= to e))
  end.
Proof.
  destruct (build_with_options input options) as [g|err] eqn:Eb.
  2: { unfold build_with_options in Eb.
       destruct (Z.ltb_spec MAX_GRAPH_POSITION (Z.of_nat (length input))); [by injection Eb as <-|].
       destruct (fold_left _ _ _) as [[? ?] ?], (fold_left _ _ _). done. }
  destruct (built_outgoing input options g Eb) as [_ Hout].
  apply build_inv in Eb as (Hlen & Hn & Hidx & _).
  split_and!; [done| | | |].
  - rewrite (idx_edges _ _ Hidx). by apply list_bind_ext.
  - intros node. rewrite Hout. apply node_emits_order.
  - intros node e. rewrite Hout. by apply node_emits_starts.
  - intros node e. setoid_rewrite Hout. intros He.
    pose proof (node_emits_forward _ _ _ _ Hlen He) as (H1 & H2 & H3).
    apply node_emits_spec in He as (s & Hs & He); [|done].
    destruct (exact_longest _ _ _ _ _ He) as [Hk Hex]. split_and!; [done|lia|lia|done|done|].
    rewrite Hex. split; intros [Hc Hmax]; (split; [done|]); intros e' He' Hc'; apply Hmax; try done.
    + apply node_emits_spec in He' as (s' & Hs' & He'); [|done]. congruence.
    + apply node_emits_spec; [done|]. by exists s.
Qed.

Lemma built_walk input options g n :
  build_with_options input options = Ok g ->
  walk_to input (outgoing g) n <-> walk_to input (node_emits input options) n.
Proof.
  intros [_ Hout]%built_outgoing.
  split; apply rtc_subrel; intros a b [?|(e & He & ?)]; (by left) || right; exists e;
    [rewrite <- Hout|rewrite Hout]; done.
Qed.

(** No walk over a built graph outruns [consumed]. *)
Lemma built_consumed input options g n :
  build_with_options input options = Ok g -> walk_to input (outgoing g) n -> n <= consumed g.
Proof.
  intros Hb Hx%(built_walk _ _ _ _ Hb). apply build_inv in Hb as (Hlen & _ & _ & Hr).
  destruct Hr as (_ & _ & Hc & _). apply Hc; [|done]. apply walk_to_bound in Hx; [lia|].
  intros m e He. apply node_emits_forward in He; [lia|done].
Qed.

(** C11. The reachable positions are the ends of walks. In a built graph a
    position is reachable precisely when steps over edges and over single
    apostrophes lead to it from the start, and [consumed] is the furthest of
    them. *)
Theorem graph_reachable (input : bytes) (options : OptionBits) (g : SegmentGraph)
    (Hbuild : build_with_options input options = Ok g) :
  (forall n, is_reachable g n = true <-> walk_to input (outgoing g) n) /\
  walk_to input (outgoing g) (consumed g) /\
  (forall n, walk_to input (outgoing g) n -> n <= consumed g).
Proof.
  pose proof (fun n => built_walk input options g n Hbuild) as Hw.
  apply build_inv in Hbuild as (Hlen & Hn & Hidx & Hr).
  assert (forall n e, e ∈ node_emits input options n -> from e = n /\ n < to e <= length input) as Hfwd.
  { intros n e He. apply node_emits_forward in He; [lia|done]. }
  setoid_rewrite Hw. pose proof Hr as (Hl & Hm & Hc & Hwc & _). split_and!; [|done|].
  - intros n. destruct (decide (n <= length input + 1)) as [?|Hgt].
    + by apply (reach_inv_walk input _ Hfwd (length input + 1) (reachable g, consumed g)).
    + split; [|intros Hx%walk_to_bound; [lia|done]].
      unfold is_reachable. simpl in Hl. by rewrite lookup_ge_None_2 by lia.
  - intros n Hx. apply Hc; [|done]. apply walk_to_bound in Hx; [lia|done].
Qed.

Lemma graph_reachable_witness :
  exists g, build_with_options (str "xi'an'") PINYIN_INCOMPLETE = Ok g /\
    consumed g = 6 /\ walk_to (str "xi'an'") (outgoing g) 6.
Proof.
  eexists. split; [vm_compute; reflexivity|]. split; [reflexivity|].
  refine (proj1 (proj2 (graph_reachable (str "xi'an'") PINYIN_INCOMPLETE _ _))).
  vm_compute. reflexivity.
Defined.
