(* ===== verification/GraphPaths.v ===== *)
(** * GraphPaths: the fewest-keys path

    [fewest_keys] of [Graph] is a shortest path: the dynamic program over
    packed ranks finds, among the paths to the furthest position any path
    reaches, one with the fewest keys and then the least distance. *)

From Stdlib Require Import ZArith Lia Bool String Strings.Byte.
From stdpp Require Import base list sorting strings relations.
From S2P Require Import Prelude Options SyllableData Syllables Vocab Graph GraphBuild.

(** ** Paths *)

(** The edges the walk may take from a node. *)
Definition usable (g : SegmentGraph) (allow_incomplete : bool) (n : nat) : list Edge :=
  filter (fun e => allow_incomplete = true \/ kind e <> Incomplete) (outgoing g n).

(** [p] joins [a] to [b], each edge leaving where the one before enters. *)
Fixpoint path (E : nat -> list Edge) (a b : nat) (p : list Edge) : Prop :=
  match p with
  | [] => a = b
  | e :: p => e ∈ E a /\ path E (to e) b p
  end.

Definition weight (e : Edge) : Z := (ONE_KEY + distance e)%Z.
Definition rank (p : list Edge) : Z := foldr (fun e r => weight e + r)%Z 0%Z p.
Definition total_distance (p : list Edge) : Z := foldr (fun e r => distance e + r)%Z 0%Z p.

Lemma path_app E a b p q : path E a b (p ++ q) <-> exists c, path E a c p /\ path E c b q.
Proof.
  revert a. induction p as [|e p IH]; intros a; simpl; [split; [by exists a|by intros (? & -> & ?)]|].
  rewrite IH. naive_solver.
Qed.

Lemma rank_app p q : rank (p ++ q) = (rank p + rank q)%Z.
Proof. induction p as [|e p IH]; simpl; [done|]. lia. Qed.

Lemma rank_split p : rank p = (Z.of_nat (length p) * ONE_KEY + total_distance p)%Z.
Proof. induction p as [|e p IH]; simpl; [done|]. unfold weight. lia. Qed.

Section forward.
Context (E : nat -> list Edge).
Hypothesis Hfwd : forall n e, e ∈ E n -> from e = n /\ n < to e.

Lemma path_le a b p : path E a b p -> a + length p <= b.
Proof using Hfwd.
  revert a. induction p as [|e p IH]; intros a; simpl; [lia|].
  intros [He Hp%IH]. apply Hfwd in He. lia.
Qed.

Lemma path_unique a b p q :
  (forall n e e', e ∈ E n -> e' ∈ E n -> e = e') -> path E a b p -> path E a b q -> p = q.
Proof using Hfwd.
  intros Huniq. revert a q. induction p as [|e p IH]; intros a [|e' q]; cbn [path].
  - done.
  - intros -> [He Hq]. apply path_le in Hq. apply Hfwd in He. lia.
  - intros [He Hp] ->. apply path_le in Hp. apply Hfwd in He. lia.
  - intros [He Hp] [He' Hq]. rewrite (Huniq _ _ _ He' He) in *. f_equal. by apply (IH (to e)).
Qed.
End forward.

(** ** The dynamic program *)

Section dp.
Context (E : nat -> list Edge) (bound : nat).
Hypothesis Hfwd : forall n e, e ∈ E n -> from e = n /\ n < to e.
Implicit Types steps : list (option (Z * Edge)).

Definition rank_at steps (n : nat) : option Z :=
  if n =? 0 then Some 0%Z else fst <$> mjoin (steps !! n).

(** Every step is the best over the edges [Q] relaxed so far. *)
Definition best_over (Q : Edge -> Prop) steps (m : nat) : Prop :=
  match mjoin (steps !! m) with
  | Some (r, e) =>
      Q e /\ to e = m /\ (exists r0, rank_at steps (from e) = Some r0 /\ r = (r0 + weight e)%Z) /\
      forall e' r', Q e' -> to e' = m -> rank_at steps (from e') = Some r' -> (r <= r' + weight e')%Z
  | None => forall e', Q e' -> to e' = m -> rank_at steps (from e') = None
  end.

Definition dp_inv (Q : Edge -> Prop) steps : Prop :=
  length steps = bound + 1 /\ forall m, m <= bound -> best_over Q steps m.

Lemma best_over_ext Q Q' steps steps' m :
  (forall e, to e = m -> Q e <-> Q' e) ->
  (forall e, Q e -> rank_at steps' (from e) = rank_at steps (from e)) ->
  steps' !! m = steps !! m -> best_over Q steps m -> best_over Q' steps' m.
Proof.
  intros HQ Hr Hm. unfold best_over. rewrite Hm. destruct (mjoin (steps !! m)) as [[r e]|].
  - intros (Hq & Hto & (r0 & Hr0 & ->) & Hmin). split; [by apply HQ|]. split; [done|]. split.
    + exists r0. rewrite Hr by done. done.
    + intros e' r' Hq' Hto' Hr'. apply HQ in Hq'; [|done]. rewrite Hr in Hr' by done. by apply (Hmin e').
  - intros Hnone e' Hq' Hto'. apply HQ in Hq'; [|done]. rewrite Hr by done. by apply Hnone.
Qed.

Lemma rank_at_insert steps m n x : n <> m -> rank_at (<[m := x]> steps) n = rank_at steps n.
Proof. intros Hn. unfold rank_at. by rewrite list_lookup_insert_ne. Qed.

(** Relaxing one edge of node [k]. *)
Lemma step_edge_inv Q steps k r e :
  (forall e', Q e' -> from e' <= k) -> e ∈ E k -> rank_at steps k = Some r ->
  dp_inv Q steps -> dp_inv (fun e' => Q e' \/ e' = e) (step_edge bound r steps e) /\
  rank_at (step_edge bound r steps e) k = Some r.
Proof using Hfwd.
  intros Hle He Hr [Hlen Hinv]. destruct (Hfwd k e He) as [Hfrom Hto]. unfold step_edge.
  destruct (Nat.ltb_spec bound (to e)) as [Hb|Hb].
  { split; [|done]. split; [done|]. intros m Hm. apply (best_over_ext Q _ steps); auto.
    intros e' Hm'. split; [by left|]. intros [?| ->]; [done|lia]. }
  set (new := <[to e := Some ((r + ONE_KEY + distance e)%Z, e)]> steps).
  assert (forall n, n <= k -> rank_at new n = rank_at steps n) as Hsame
    by (intros n Hn; apply rank_at_insert; lia).
  assert (new !! to e = Some (Some ((r + ONE_KEY + distance e)%Z, e))) as Hnew
    by (apply list_lookup_insert_eq; lia).
  assert (forall m, m <= bound -> m <> to e -> best_over (fun e' => Q e' \/ e' = e) new m) as Hother.
  { intros m Hm Hne. apply (best_over_ext Q _ steps); [|intros e' Hq; apply Hsame; by apply Hle| |by apply Hinv].
    - intros e' Hm'. split; [by left|]. intros [?| ->]; [done|congruence].
    - by apply list_lookup_insert_ne. }
  pose proof (Hinv (to e) Hb) as Hbest. unfold best_over in Hbest.
  assert (dp_inv (fun e' => Q e' \/ e' = e) new /\ rank_at new k = Some r <->
    best_over (fun e' => Q e' \/ e' = e) new (to e)) as Hiff.
  { split; [intros [[_ H] _]; by apply H|]. intros Hb'. split; [|by rewrite Hsame].
    split; [unfold new; by rewrite length_insert|]. intros m Hm.
    destruct (decide (m = to e)) as [->|]; auto. }
  assert (forall seen, (forall e' r', Q e' -> to e' = to e -> rank_at steps (from e') = Some r' ->
      (seen <= r' + weight e')%Z) -> (r + ONE_KEY + distance e < seen)%Z ->
      best_over (fun e' => Q e' \/ e' = e) new (to e)) as Hreplace.
  { intros seen Hseen Hlt. unfold best_over. rewrite Hnew. cbn [mjoin option_join].
    split; [by right|]. split; [done|]. split.
    - exists r. rewrite Hfrom, Hsame by lia. split; [done|unfold weight; lia].
    - intros e' r' [Hq| ->] Hto' Hr'.
      + rewrite Hsame in Hr' by by apply Hle. specialize (Hseen e' r' Hq Hto' Hr'). lia.
      + rewrite Hfrom, Hsame, Hr in Hr' by lia. injection Hr' as <-. unfold weight. lia. }
  destruct (mjoin (steps !! to e)) as [[seen e0]|] eqn:Es.
  - destruct Hbest as (Hq0 & Hto0 & Hr0 & Hmin).
    destruct (Z.ltb_spec (r + ONE_KEY + distance e) seen) as [Hlt|Hge].
    + apply Hiff. by apply (Hreplace seen).
    + split; [|done]. split; [done|]. intros m Hm. destruct (decide (m = to e)) as [->|Hne].
      * unfold best_over. rewrite Es. split; [by left|]. split; [done|]. split; [done|].
        intros e' r' [Hq| ->] Hto' Hr'; [by apply (Hmin e')|].
        rewrite Hfrom, Hr in Hr'. injection Hr' as <-. unfold weight. lia.
      * apply (best_over_ext Q _ steps); auto. intros e' Hm'. split; [by left|]. intros [?| ->]; [done|congruence].
  - apply Hiff. apply (Hreplace (r + ONE_KEY + distance e + 1)%Z); [|lia].
    intros e' r' Hq Hto' Hr'. by rewrite (Hbest e' Hq Hto') in Hr'.
Qed.

Lemma step_edges_inv l Q steps k r :
  (forall e', Q e' -> from e' <= k) -> (forall e, e ∈ l -> e ∈ E k) -> rank_at steps k = Some r ->
  dp_inv Q steps ->
  dp_inv (fun e' => Q e' \/ e' ∈ l) (fold_left (step_edge bound r) l steps).
Proof using Hfwd.
  revert Q steps. induction l as [|e l IH]; intros Q steps Hle Hl Hr Hinv; cbn [fold_left].
  { destruct Hinv as [Hlen Hinv]. split; [done|]. intros m Hm. apply (best_over_ext Q _ steps); auto.
    intros e' _. split; [by left|]. intros [?|[]%not_elem_of_nil]; done. }
  destruct (step_edge_inv Q steps k r e Hle) as [Hinv' Hr']; [by apply Hl; left|done..|].
  destruct (IH (fun e' => Q e' \/ e' = e) (step_edge bound r steps e)) as [Hlen Hb]; [|..|done|done|].
  - intros e' [?| ->]; [by apply Hle|]. destruct (Hfwd k e) as [-> _]; [by apply Hl; left|done].
  - intros e' He'. apply Hl. by right.
  - split; [done|]. intros m Hm. apply (best_over_ext (fun e' => (Q e' \/ e' = e) \/ e' ∈ l) _ (fold_left (step_edge bound r) l (step_edge bound r steps e))); auto.
    intros e' _. rewrite elem_of_cons. tauto.
Qed.

(** Every edge leaving a node below [k]. *)
Definition below (k : nat) (e : Edge) : Prop := from e < k /\ e ∈ E (from e).

Lemma below_S k e : below (S k) e <-> below k e \/ e ∈ E k.
Proof using Hfwd.
  unfold below. split.
  - intros [Hlt He]. destruct (decide (from e = k)) as [<-|]; [by right|left; split; [lia|done]].
  - intros [[? ?]|He]; [split; [lia|done]|]. destruct (Hfwd k e He) as [-> _]. split; [lia|done].
Qed.

Definition relax_node steps (k : nat) : list (option (Z * Edge)) :=
  match rank_at steps k with
  | Some r => fold_left (step_edge bound r) (E k) steps
  | None => steps
  end.

Lemma relax_node_inv steps k :
  dp_inv (below k) steps -> dp_inv (below (S k)) (relax_node steps k).
Proof using Hfwd.
  intros Hinv. unfold relax_node. destruct (rank_at steps k) as [r|] eqn:Er.
  - destruct (step_edges_inv (E k) (below k) steps k r) as [Hlen Hb]; auto.
    { intros e' [? _]. lia. }
    split; [done|]. intros m Hm.
    apply (best_over_ext (fun e' => below k e' \/ e' ∈ E k) _ (fold_left (step_edge bound r) (E k) steps)); auto.
    intros e _. by rewrite below_S.
  - destruct Hinv as [Hlen Hb]. split; [done|]. intros m Hm. specialize (Hb m Hm). revert Hb.
    assert (forall e, e ∈ E k -> rank_at steps (from e) = None) as Hk.
    { intros e He. by destruct (Hfwd k e He) as [-> _]. }
    unfold best_over. destruct (mjoin (steps !! m)) as [[r e]|].
    + intros (Hq & Hto & Hr & Hmin). split; [apply below_S; by left|]. split_and!; [done..|].
      intros e' r' [Hq'|Hq']%below_S Hto' Hr'; [by apply (Hmin e')|]. by rewrite Hk in Hr'.
    + intros Hnone e' [Hq'|Hq']%below_S Hto'; [by apply Hnone|by apply Hk].
Qed.

Definition relaxed (k : nat) : list (option (Z * Edge)) :=
  fold_left relax_node (seq 0 k) (replicate (bound + 1) None).

Lemma relaxed_inv k : dp_inv (below k) (relaxed k).
Proof using Hfwd.
  unfold relaxed. induction k as [|k IH].
  - split; [apply length_replicate|]. intros m Hm. unfold best_over. cbn [seq fold_left].
    rewrite lookup_replicate_2 by lia. cbn [mjoin option_join]. intros e' [? _]. lia.
  - rewrite seq_S, Nat.add_0_l, fold_left_app. by apply relax_node_inv.
Qed.

(** ** What the steps say of paths *)

Section steps.
Context (steps : list (option (Z * Edge))).
Hypothesis Hinv : dp_inv (below bound) steps.
Hypothesis Hbound : forall n p, path E 0 n p -> n <= bound.

Lemma rank_at_best n p : path E 0 n p -> exists r, rank_at steps n = Some r /\ (r <= rank p)%Z.
Proof using Hinv Hfwd Hbound.
  revert n. induction p as [|e p IH] using rev_ind; intros n Hp.
  { simpl in Hp. subst n. by exists 0%Z. }
  pose proof (Hbound _ _ Hp) as Hn.
  apply path_app in Hp as (c & Hp & He & Ht). simpl in Ht. subst n.
  destruct (Hfwd c e He) as [Hfe Hlt]. destruct (IH c Hp) as (r' & Hr' & Hle).
  pose proof (proj2 Hinv (to e) Hn) as Hb. unfold best_over in Hb.
  assert (below bound e) as Hq by (split; [lia|by rewrite Hfe]).
  unfold rank_at. rewrite (proj2 (Nat.eqb_neq _ _)) by lia.
  destruct (mjoin (steps !! to e)) as [[r e0]|].
  - exists r. split; [done|]. destruct Hb as (_ & _ & _ & Hmin).
    rewrite rank_app. simpl. rewrite Z.add_0_r. rewrite <- Hfe in Hr'.
    specialize (Hmin e r' Hq eq_refl Hr'). lia.
  - rewrite <- Hfe in Hr'. by rewrite (Hb e Hq eq_refl) in Hr'.
Qed.

Lemma walk_back_app fuel n p : walk_back fuel steps n p = p ++ walk_back fuel steps n [].
Proof.
  revert n p. induction fuel as [|fuel IH]; intros n p; cbn [walk_back]; [by rewrite app_nil_r|].
  destruct (n =? 0); [by rewrite app_nil_r|].
  destruct (mjoin (steps !! n)) as [[r e]|]; [|by rewrite app_nil_r].
  rewrite IH, (IH _ [e]), <- app_assoc. done.
Qed.

Lemma walk_back_path fuel n r :
  n <= bound -> n < fuel -> rank_at steps n = Some r ->
  path E 0 n (reverse (walk_back fuel steps n [])) /\
  rank (reverse (walk_back fuel steps n [])) = r.
Proof using Hinv Hfwd.
  revert n r. induction fuel as [|fuel IH]; intros n r Hn Hf Hr; [lia|].
  cbn [walk_back]. unfold rank_at in Hr. destruct (Nat.eqb_spec n 0) as [->|Hne].
  { injection Hr as <-. done. }
  pose proof (proj2 Hinv n Hn) as Hb. unfold best_over in Hb.
  destruct (mjoin (steps !! n)) as [[r0 e]|]; [|done]. injection Hr as ->.
  destruct Hb as ([Hlt He] & Hto & (r1 & Hr1 & ->) & _).
  destruct (Hfwd _ _ He) as [_ Hft].
  destruct (IH (from e) r1) as [Hp Hk]; [lia|lia|done|].
  rewrite walk_back_app, app_nil_l, reverse_app. cbn [reverse rev_append].
  change (reverse [e]) with [e]. rewrite rank_app, Hk. split.
  - apply path_app. exists (from e). split; [done|]. simpl. done.
  - simpl. lia.
Qed.

Lemma final_node_spec n :
  n <= bound ->
  final_node steps n <= n /\ rank_at steps (final_node steps n) <> None /\
  forall m, m <= n -> rank_at steps m <> None -> m <= final_node steps n.
Proof.
  induction n as [|n IH]; intros Hn.
  { simpl. split_and!; [done|done|]. intros m Hm _. lia. }
  cbn [final_node]. destruct (mjoin (steps !! S n)) as [x|] eqn:E1.
  - split_and!; [done| |done]. unfold rank_at. simpl. by rewrite E1.
  - destruct IH as (H1 & H2 & H3); [lia|]. split_and!; [lia|done|].
    intros m Hm Hr. apply H3; [|done]. destruct (decide (m = S n)) as [->|]; [|lia].
    unfold rank_at in Hr. simpl in Hr. by rewrite E1 in Hr.
Qed.

(** The walk back from the furthest step is a best path to the furthest
    node. *)
Lemma final_path_best :
  let n := final_node steps bound in
  let p := reverse (walk_back (S n) steps n []) in
  path E 0 n p /\ (forall m q, path E 0 m q -> m <= n) /\
  forall q, path E 0 n q -> (rank p <= rank q)%Z.
Proof using Hinv Hfwd Hbound.
  intros n p. destruct (final_node_spec bound) as (H1 & H2 & H3); [done|]. fold n in H1, H2, H3.
  destruct (rank_at steps n) as [r|] eqn:Er; [|done].
  destruct (walk_back_path (S n) n r) as [Hp Hr]; [lia|lia|done|]. split_and!; [done| |].
  - intros m q Hq. apply H3; [by eapply Hbound|].
    destruct (rank_at_best m q Hq) as (r' & -> & _). done.
  - intros q Hq. destruct (rank_at_best n q Hq) as (r' & Hr' & Hle). fold p in Hr.
    rewrite Hr. congruence.
Qed.
End steps.
End dp.

(** ** [fewest_keys] on a built graph *)

Lemma step_node_relax g allow bound steps k :
  step_node g allow bound steps k = relax_node (usable g allow) bound steps k.
Proof.
  unfold step_node, relax_node, rank_at, usable. destruct (k =? 0); [done|].
  by destruct (mjoin (steps !! k)) as [[r e]|].
Qed.

Lemma fewest_steps_relaxed g allow :
  fewest_steps g allow = relaxed (usable g allow) (consumed g) (consumed g).
Proof.
  unfold fewest_steps, relaxed. generalize (replicate (consumed g + 1) (@None (Z * Edge))).
  induction (seq 0 (consumed g)) as [|k l IH]; intros steps; [done|].
  cbn [fold_left]. by rewrite step_node_relax, IH.
Qed.

Lemma usable_outgoing g allow n e : e ∈ usable g allow n -> e ∈ outgoing g n.
Proof. by intros [_ He]%list_elem_of_filter. Qed.

(** Any graph whose edges run forward and whose paths stay within
    [consumed]. *)
Lemma fewest_keys_best g allow :
  (forall n e, e ∈ outgoing g n -> from e = n /\ n < to e) ->
  (forall n p, path (usable g allow) 0 n p -> n <= consumed g) ->
  exists n, path (usable g allow) 0 n (fewest_keys g allow) /\
    (forall m q, path (usable g allow) 0 m q -> m <= n) /\
    forall q, path (usable g allow) 0 n q -> (rank (fewest_keys g allow) <= rank q)%Z.
Proof.
  intros Hfwd Hb.
  assert (forall n e, e ∈ usable g allow n -> from e = n /\ n < to e) as Hfwd'
    by (intros n e He; by apply Hfwd, (usable_outgoing g allow)).
  exists (final_node (fewest_steps g allow) (consumed g)). unfold fewest_keys.
  rewrite fewest_steps_relaxed. apply final_path_best; [done|by apply relaxed_inv|done].
Qed.

(** Distances are bits, so a path's packed rank orders it by key count, then
    by total distance. *)
Lemma distance_bit input options node s e :
  span_edge input options node s e -> (0 <= distance e <= 1)%Z.
Proof.
  intros (len & k & t & d & _ & Hp & ->). cbn [distance]. unfold parse_span in Hp.
  destruct (_ <? len); [done|]. destruct (tone_split _ _ _) as [[core tone]|]; [|done].
  cbn [mbind option_bind] in Hp. unfold key_for_spelling in Hp.
  destruct (from_utf8 core) as [sp|]; [|done]. cbn [mbind option_bind] in Hp.
  destruct (from_option_text_with_distance sp options) as [[k' d']|] eqn:E; [|done].
  cbn [mbind option_bind] in Hp. injection Hp as _ _ <-.
  apply option_text_distance in E as [[-> _]|[-> _]]; lia.
Qed.

Lemma total_distance_range (E : nat -> list Edge) a b p :
  (forall n e, e ∈ E n -> (0 <= distance e <= 1)%Z) -> path E a b p ->
  (0 <= total_distance p <= Z.of_nat (length p))%Z.
Proof.
  intros Hd. revert a. induction p as [|e p IH]; intros a; simpl; [lia|].
  intros [He Hp%IH]. apply Hd in He. lia.
Qed.

(** Paths over edges are walks. *)
Lemma path_walk input (E E' : nat -> list Edge) n p :
  (forall n e, e ∈ E n -> e ∈ E' n) -> path E 0 n p -> walk_to input E' n.
Proof.
  intros HE. unfold walk_to. generalize 0 as a. induction p as [|e p IH]; intros a; simpl.
  { intros ->. apply rtc_refl. }
  intros [He Hp%IH]. eapply rtc_l; [|done]. right. exists e. split; [by apply HE|done].
Qed.

(** C12. [fewest_keys] finds a best parse. On a built graph, with or without
    the initial-only keys, it answers a path from the start that no admitted
    path outruns; among the paths to the same end none has fewer keys, and of
    those with as many none has a smaller total correction distance. The
    packing of both into one rank loses nothing. *)
Theorem fewest_keys_optimal (input : bytes) (options : OptionBits) (g : SegmentGraph)
    (allow : bool) (Hbuild : build_with_options input options = Ok g) :
  let p := fewest_keys g allow in
  exists n, path (usable g allow) 0 n p /\
    (forall m q, path (usable g allow) 0 m q -> m <= n) /\
    forall q, path (usable g allow) 0 n q ->
      length p < length q \/ (length p = length q /\ (total_distance p <= total_distance q)%Z).
Proof.
  intros p.
  assert (forall m e, e ∈ outgoing g m -> from e = m /\ m < to e) as Hfwd
    by (intros m e He; apply (built_edge input options) in He; [lia|done]).
  pose proof (fun m => built_consumed input options g m Hbuild) as Hcons.
  destruct (fewest_keys_best g allow) as (n & Hp & Hmax & Hmin).
  - done.
  - intros m q Hq. apply Hcons. by apply (path_walk _ _ _ _ _ (usable_outgoing g allow) Hq).
  - exists n. split_and!; [done|done|]. intros q Hq.
    assert (forall m e, e ∈ usable g allow m -> (0 <= distance e <= 1)%Z) as Hd.
    { intros m e He%usable_outgoing. apply (built_edge input options) in He as (_ & _ & _ & s & _ & He); [|done].
      by apply distance_bit in He. }
    assert (forall q, path (usable g allow) 0 n q ->
      (0 <= total_distance q <= Z.of_nat (length q))%Z /\ (Z.of_nat (length q) < 2 ^ 32)%Z) as Hr.
    { intros q' Hq'. split; [by eapply total_distance_range|].
      apply (path_le (usable g allow)) in Hq' as Hl; [|intros m e He%usable_outgoing%Hfwd; lia].
      pose proof (Hcons n (path_walk input _ _ _ _ (usable_outgoing g allow) Hq')) as Hn.
      pose proof (build_inv input options g Hbuild) as (Hmaxlen & Hil & _ & Hri).
      destruct Hri as (_ & _ & _ & Hw & _). apply walk_to_bound in Hw.
      - simpl in Hw. unfold MAX_GRAPH_POSITION, u32_max, u32_size in Hmaxlen. lia.
      - intros m e He. apply node_emits_forward in He; [lia|done]. }
    specialize (Hmin q Hq). rewrite !rank_split in Hmin. fold p in Hmin.
    destruct (Hr p Hp) as [? ?], (Hr q Hq) as [? ?]. unfold ONE_KEY in Hmin.
    change (Z.shiftl 1 32) with (2 ^ 32)%Z in Hmin. nia.
Qed.

Lemma fewest_keys_optimal_witness :
  exists g n, build_with_options (str "fangan") PINYIN_INCOMPLETE = Ok g /\
    (key_text ∘ key <$> fewest_keys g false) = [str "fan"; str "gan"] /\
    path (usable g false) 0 n (fewest_keys g false) /\
    forall m q, path (usable g false) 0 m q -> m <= n.
Proof.
  destruct (build_with_options (str "fangan") PINYIN_INCOMPLETE) as [g|] eqn:E;
    [|exfalso; vm_compute in E; discriminate].
  destruct (fewest_keys_optimal (str "fangan") PINYIN_INCOMPLETE g false E) as (n & Hp & Hm & _).
  exists g, n. split; [reflexivity|]. split; [|by split].
  vm_compute in E. injection E as <-. vm_compute. reflexivity.
Defined.

(** ** Pre-parsed segments *)

(** The segments walk over the input from [prev]: each has a span of its own,
    starts past the one before, ends inside the input, and only apostrophes
    lie between. *)
Fixpoint valid_segments (input : bytes) (prev : nat) (segments : list ExactSegment) : Prop :=
  match segments with
  | [] => True
  | s :: segments =>
      prev <= seg_start s < seg_end s /\ seg_end s <= length input /\
      (forall i, prev <= i < seg_start s -> input !! i = Some apostrophe) /\
      valid_segments input (seg_end s) segments
  end.

(** One exact edge per segment, from the end of the one before. *)
Fixpoint segment_edges (prev : nat) (segments : list ExactSegment) : list Edge :=
  match segments with
  | [] => []
  | s :: segments =>
      {| from := prev; to := seg_end s; syllable_start := seg_start s; key := seg_key s;
         kind := Exact; tone := seg_tone s; distance := 0 |}
      :: segment_edges (seg_end s) segments
  end.

Definition last_end (prev : nat) (segments : list ExactSegment) : nat :=
  fold_left (fun _ s => seg_end s) segments prev.

Lemma subslice_apostrophes (input : bytes) a b :
  a <= b -> b <= length input ->
  forallb (fun c => bool_decide (c = apostrophe)) (default [] (subslice input a b)) = true <->
  forall i, a <= i < b -> input !! i = Some apostrophe.
Proof.
  intros Hab Hb. rewrite subslice_in by lia. cbn [default from_option id].
  rewrite List.forallb_forall. split.
  - intros H i Hi. destruct (lookup_lt_is_Some_2 input i) as [c Hc]; [lia|].
    assert (c ∈ take (b - a) (drop a input)) as Hin.
    { apply (list_elem_of_lookup_2 _ (i - a)). rewrite lookup_take_lt, lookup_drop by lia.
      by replace (a + (i - a)) with i by lia. }
    apply list_elem_of_In in Hin. apply H in Hin as ->%bool_decide_eq_true. done.
  - intros H c Hc%list_elem_of_In. apply bool_decide_eq_true.
    apply list_elem_of_lookup in Hc as [i Hi]. pose proof (lookup_lt_Some _ _ _ Hi) as Hlt.
    rewrite length_take, length_drop in Hlt. rewrite lookup_take_lt, lookup_drop in Hi by lia.
    rewrite H in Hi by lia. congruence.
Qed.

Lemma exact_edges_spec input prev segments :
  (Z.of_nat (length input) <= MAX_GRAPH_POSITION)%Z -> prev <= length input ->
  match exact_edges input segments prev with
  | Ok es => valid_segments input prev segments /\ es = segment_edges prev segments
  | Err e => e = ExactSegmentsInvalid /\ ~ valid_segments input prev segments
  end.
Proof.
  intros Hlen. revert prev. induction segments as [|s segments IH]; intros prev Hp; [done|].
  assert (forall x, x <= length input -> u32_ok x = true) as Hok.
  { intros x Hx. unfold u32_ok. apply Z.leb_le. unfold MAX_GRAPH_POSITION in Hlen. lia. }
  cbn [exact_edges valid_segments segment_edges].
  destruct (Nat.leb_spec (seg_end s) (seg_start s)); [split; [done|intros; lia]|].
  destruct (Nat.ltb_spec (seg_start s) prev); [split; [done|intros; lia]|].
  destruct (Nat.ltb_spec (length input) (seg_end s)); [split; [done|intros; lia]|]. cbn [orb].
  pose proof (subslice_apostrophes input prev (seg_start s)) as Ha.
  destruct (forallb _ _) eqn:Ef; cbn [negb].
  - rewrite !Hok by lia. cbn [andb]. specialize (IH (seg_end s) ltac:(lia)).
    destruct (exact_edges input segments (seg_end s)) as [es|e].
    + destruct IH as [Hv ->]. split; [|done]. split_and!; [lia|lia|lia| |done]. apply Ha; [lia|lia|done].
    + destruct IH as [-> Hn]. split; [done|tauto].
  - split; [done|]. intros (_ & _ & Hall & _).
    apply Ha in Hall; [discriminate|lia|lia].
Qed.

(** The sources of the segments' edges increase. *)
Lemma segment_edges_order input prev segments :
  valid_segments input prev segments ->
  Forall (fun e => prev <= from e < to e /\ to e <= length input) (segment_edges prev segments) /\
  StronglySorted (fun a b => to a <= from b) (segment_edges prev segments).
Proof.
  revert prev. induction segments as [|s segments IH]; intros prev; simpl.
  { intros _. split; [by apply Forall_nil|constructor]. }
  intros (H1 & H2 & _ & Hv). destruct (IH _ Hv) as [Hall Hs]. split.
  - apply Forall_cons. split; [simpl; lia|]. apply (Forall_impl _ _ _ Hall). intros e ?. simpl. lia.
  - constructor; [done|]. apply (Forall_impl _ _ _ Hall). intros e ?. simpl. lia.
Qed.

Lemma reach_exact_edges input prev segments r c :
  valid_segments input prev segments -> length r = length input + 1 ->
  prev <= length input -> r !! prev = Some true -> c <= prev ->
  (fold_left reach_exact (segment_edges prev segments) (r, c)).2 =
  match segments with [] => c | _ => last_end prev segments end.
Proof.
  revert prev r c. induction segments as [|s segments IH]; intros prev r c; [done|].
  cbn [valid_segments segment_edges fold_left]. intros (H1 & H2 & _ & Hv) Hl Hp Hr Hc.
  unfold reach_exact at 2. cbn [from to]. rewrite Hr. cbn [default from_option id].
  rewrite IH; [|done|by rewrite length_insert|lia|apply list_lookup_insert_eq; lia|lia].
  destruct segments; [simpl; lia|done].
Qed.

(** ** The index of an exact graph *)

Definition leaving (es : list Edge) (n : nat) : list Edge := filter (fun e => from e = n) es.
Definition count_below (es : list Edge) (n : nat) : nat := length (filter (fun e => from e < n) es).

Lemma sorted_cut (es : list Edge) n :
  StronglySorted (fun a b => from a < from b) es ->
  exists L R, es = L ++ R /\ Forall (fun e => from e < n) L /\ Forall (fun e => n <= from e) R.
Proof.
  induction 1 as [|e l _ IH Hall]; [by exists [], []|].
  destruct (decide (from e < n)) as [Hlt|Hge].
  - destruct IH as (L & R & -> & HL & HR). exists (e :: L), R. split; [done|]. split; [by constructor|done].
  - exists [], (e :: l). split; [done|]. split; [by apply Forall_nil|]. constructor; [lia|].
    apply (Forall_impl _ _ _ Hall). intros e' ?. lia.
Qed.

Lemma sorted_from_lt (es : list Edge) i j a b :
  StronglySorted (fun a b => from a < from b) es ->
  i < j -> es !! i = Some a -> es !! j = Some b -> from a < from b.
Proof.
  intros Hs. revert i j. induction Hs as [|x l _ IH Hall]; intros i j Hij Ha Hb; [done|].
  destruct i as [|i], j as [|j]; simplify_eq/=; try lia.
  - rewrite Forall_lookup in Hall. by apply (Hall j).
  - apply (IH i j); [lia|done|done].
Qed.

Section exact_index.
Context (es : list Edge).
Hypothesis Hsorted : StronglySorted (fun a b => from a < from b) es.

Lemma cut_at n :
  exists L R, es = L ++ R /\ Forall (fun e => from e < n) L /\ Forall (fun e => n <= from e) R.
Proof using Hsorted. by apply sorted_cut. Qed.

Lemma count_below_cut n L R :
  es = L ++ R -> Forall (fun e => from e < n) L -> Forall (fun e => n <= from e) R ->
  count_below es n = length L.
Proof.
  intros E HL HR. unfold count_below. rewrite E, filter_app.
  rewrite (filter_all (fun e => from e < n) L), (filter_none (fun e => from e < n) R), app_nil_r; [done| |done].
  apply (Forall_impl _ _ _ HR). intros e ?. lia.
Qed.

Lemma advance_cut n L R c :
  Forall (fun e => from e < n) L -> Forall (fun e => n <= from e) R ->
  advance (L ++ R) n c = c + length L.
Proof.
  intros HL HR. revert c. induction HL as [|e L He _ IH]; intros c; simpl.
  - destruct HR as [|e R He _]; simpl; [lia|]. rewrite (proj2 (Nat.ltb_ge _ _)) by done. lia.
  - rewrite (proj2 (Nat.ltb_lt _ _)), IH by done. lia.
Qed.

Lemma advance_next n m :
  n <= m -> advance (drop (count_below es n) es) m (count_below es n) = count_below es m.
Proof using Hsorted.
  intros Hle. destruct (cut_at n) as (L & R & E & HL & HR).
  destruct (cut_at m) as (L' & R' & E' & HL' & HR').
  rewrite (count_below_cut n L R), (count_below_cut m L' R') by done.
  assert (length L <= length L') as Hlen.
  { destruct (decide (length L <= length L')) as [?|?]; [done|].
    destruct (lookup_lt_is_Some_2 L (length L')) as [e He]; [lia|].
    assert (es !! length L' = Some e) as Hes by (rewrite E; by apply lookup_app_l_Some).
    rewrite E', lookup_app_r, Nat.sub_diag in Hes by lia.
    rewrite Forall_lookup in HL, HR'. specialize (HL _ _ He). specialize (HR' _ _ Hes). lia. }
  assert (drop (length L) es = drop (length L) L' ++ R') as ->.
  { rewrite E'. by rewrite drop_app_le by lia. }
  rewrite advance_cut; [rewrite length_drop; lia| |done]. by apply Forall_drop.
Qed.

Lemma exact_starts_count N :
  exact_starts es N = count_below es <$> seq 0 (N + 1).
Proof using Hsorted.
  unfold exact_starts.
  assert (forall k, fold_left (fun '(starts, cursor) node =>
      (starts ++ [advance (drop cursor es) node cursor], advance (drop cursor es) node cursor))
    (seq 0 k) ([], 0) = (count_below es <$> seq 0 k, count_below es (Nat.pred k))) as H.
  { induction k as [|k IH].
    - simpl. f_equal. unfold count_below. rewrite filter_none; [done|].
      apply Forall_forall. intros e _. lia.
    - rewrite seq_S, Nat.add_0_l, fold_left_app, IH, fmap_app. cbn [fold_left Nat.pred].
      rewrite advance_next by lia. done. }
  cbn zeta. by rewrite H.
Qed.

Lemma leaving_below n : seq 0 n ≫= leaving es = filter (fun e => from e < n) es.
Proof using Hsorted.
  induction n as [|n IH].
  { rewrite filter_none; [done|]. apply Forall_forall. intros e _. lia. }
  rewrite seq_S, Nat.add_0_l, bind_app, IH. cbn [mbind list_bind]. rewrite app_nil_r.
  destruct (cut_at n) as (L & R & E & HL & HR). unfold leaving. rewrite E, !filter_app.
  rewrite (filter_all (fun e => from e < n) L), (filter_none (fun e => from e < n) R) by
    (done || (apply (Forall_impl _ _ _ HR); intros; lia)).
  rewrite (filter_none (fun e => from e = n) L) by (apply (Forall_impl _ _ _ HL); intros; lia).
  rewrite (filter_all (fun e => from e < S n) L) by (apply (Forall_impl _ _ _ HL); intros; lia).
  rewrite app_nil_r, app_nil_l. f_equal. apply filter_ext_in.
  intros e He. rewrite Forall_forall in HR. specialize (HR e He). lia.
Qed.

Lemma leaving_unique n e e' : e ∈ leaving es n -> e' ∈ leaving es n -> e = e'.
Proof using Hsorted.
  intros [Hn He]%list_elem_of_filter [Hn' He']%list_elem_of_filter.
  apply list_elem_of_lookup in He as [i Hi]. apply list_elem_of_lookup in He' as [j Hj].
  pose proof (fun i j a b => sorted_from_lt es i j a b Hsorted) as Hlt.
  destruct (lt_eq_lt_dec i j) as [[?| ->]|?]; [|congruence|].
  - assert (from e < from e') by (by apply (Hlt i j)). lia.
  - assert (from e' < from e) by (by apply (Hlt j i)). lia.
Qed.
End exact_index.

Lemma build_exact_inv input segments g :
  build_exact input segments = Ok g ->
  valid_segments input 0 segments /\ input_len g = length input /\
  edges g = segment_edges 0 segments /\ consumed g = last_end 0 segments /\
  (forall n, outgoing g n = leaving (edges g) n).
Proof.
  unfold build_exact. destruct (Z.ltb_spec MAX_GRAPH_POSITION (Z.of_nat (length input))) as [|Hlen]; [done|].
  pose proof (exact_edges_spec input 0 segments Hlen ltac:(lia)) as He.
  destruct (exact_edges input segments 0) as [es|]; [|done]. destruct He as [Hv ->].
  pose proof (reach_exact_edges input 0 segments (<[0:=true]> (replicate (length input + 1) false)) 0) as Hc.
  destruct (fold_left reach_exact _ _) as [r c]. intros [= <-]. cbn [edges input_len consumed].
  destruct (segment_edges_order input 0 segments Hv) as [Hall Hs].
  assert (StronglySorted (fun a b => from a < from b) (segment_edges 0 segments)) as Hs'.
  { clear -Hall Hs. induction Hs as [|e l _ IH He]; [constructor|].
    apply Forall_cons in Hall as [Hfe Hall]. constructor; [by apply IH|].
    apply (Forall_impl _ _ _ He). intros e' ?. lia. }
  split_and!; [done|done|done| |].
  - simpl in Hc. rewrite Hc; [by destruct segments|done|by rewrite length_insert, length_replicate|lia|..|done].
    apply list_lookup_insert_eq. rewrite length_replicate. lia.
  - intros n. set (es := segment_edges 0 segments) in *.
    match goal with |- outgoing ?g n = _ => assert (indexed g (leaving es)) as Hidx end.
    { split; unfold node_count; cbn [input_len edges starts].
      - rewrite leaving_below by done. symmetry. apply filter_all.
        apply (Forall_impl _ _ _ Hall). intros e ?. lia.
      - rewrite exact_starts_count by done. apply list_fmap_ext. intros _ m _.
        unfold offset, count_below. by rewrite leaving_below.
      - intros m e [<- He]%list_elem_of_filter. rewrite Forall_forall in Hall. specialize (Hall e He). lia. }
    rewrite (outgoing_indexed _ _ _ Hidx). unfold node_count. cbn [input_len]. case_decide; [done|].
    symmetry. apply filter_none. apply (Forall_impl _ _ _ Hall). intros e ?. lia.
Qed.

Lemma segment_edges_path E prev segments :
  (forall e, e ∈ segment_edges prev segments -> e ∈ E (from e)) ->
  path E prev (last_end prev segments) (segment_edges prev segments).
Proof.
  revert prev. induction segments as [|s segments IH]; intros prev HE; [done|].
  split; [apply (HE _ (list_elem_of_here _ _))|]. apply IH. intros e He. apply HE. by right.
Qed.

Lemma segment_edges_start input prev segments :
  valid_segments input prev segments ->
  Forall (fun e => from e <= syllable_start e < to e) (segment_edges prev segments).
Proof.
  revert prev. induction segments as [|s segments IH]; intros prev; [intros _; constructor|].
  intros (H1 & _ & _ & Hv). constructor; [exact H1|by apply IH].
Qed.

Lemma exact_sources input segments g :
  build_exact input segments = Ok g -> StronglySorted (fun a b => from a < from b) (edges g).
Proof.
  intros (Hv & _ & -> & _)%build_exact_inv.
  destruct (segment_edges_order input 0 segments Hv) as [Hall Hs].
  induction Hs as [|e l _ IH Hle]; [constructor|].
  apply Forall_cons in Hall as [Hfe Hall]. constructor; [by apply IH|].
  apply (Forall_impl _ _ _ Hle). intros e' ?. lia.
Qed.

(** The edges of a pre-parsed input are one path, and no path outruns it. *)
Lemma exact_paths input segments g allow :
  build_exact input segments = Ok g ->
  (forall n e, e ∈ outgoing g n -> from e = n /\ n <= syllable_start e < to e) /\
  path (usable g allow) 0 (consumed g) (edges g) /\
  (forall n p, path (usable g allow) 0 n p -> n <= consumed g).
Proof.
  intros (Hv & Hl & He & Hc & Hout)%build_exact_inv.
  pose proof (segment_edges_start input 0 segments Hv) as Hall. rewrite <- He in Hall.
  assert (forall n e, e ∈ outgoing g n -> from e = n /\ n <= syllable_start e < to e) as Hfwd.
  { intros n e. rewrite Hout. intros [<- Hin]%list_elem_of_filter.
    rewrite Forall_forall in Hall. specialize (Hall e Hin). done. }
  assert (path (usable g allow) 0 (consumed g) (edges g)) as Hfull.
  { rewrite Hc, He. apply segment_edges_path. intros e Hin. apply list_elem_of_filter. split.
    - right. clear -Hin. generalize dependent 0.
      induction segments as [|s segs IH]; intros prev; [intros []%not_elem_of_nil|].
      intros [->|Hin]%elem_of_cons; [done|by apply (IH (seg_end s))].
    - rewrite Hout. apply list_elem_of_filter. by rewrite He. }
  split; [done|]. split; [done|]. intros n p Hp. destruct p as [|e p _] using rev_ind; [simpl in Hp; lia|].
  apply path_app in Hp as (c & _ & Hin & <-). apply usable_outgoing in Hin.
  rewrite Hout in Hin. apply list_elem_of_filter in Hin as [_ Hin].
  apply list_elem_of_split in Hin as (l1 & l2 & El). rewrite El in Hfull.
  apply path_app in Hfull as (c' & _ & _ & Hq).
  apply (path_le (usable g allow)) in Hq; [lia|]. intros m e' He'%usable_outgoing%Hfwd. lia.
Qed.

(** A pre-parsed input is replayed unchanged. [build_exact] accepts
    segments exactly when they walk over the input with only apostrophes
    between them, telling apart an input too long from invalid segments; the
    graph then has one edge per segment and no other, and the fewest-keys
    path, with or without initial-only keys, is all of them in order. *)
Theorem build_exact_replays (input : bytes) (segments : list ExactSegment) :
  match build_exact input segments with
  | Err e =>
      ((MAX_GRAPH_POSITION < Z.of_nat (length input))%Z /\
         e = InputTooLong (Z.of_nat (length input)) MAX_GRAPH_POSITION) \/
      ((Z.of_nat (length input) <= MAX_GRAPH_POSITION)%Z /\ e = ExactSegmentsInvalid /\
         ~ valid_segments input 0 segments)
  | Ok g =>
      valid_segments input 0 segments /\ edges g = segment_edges 0 segments /\
      consumed g = last_end 0 segments /\ forall allow, fewest_keys g allow = edges g
  end.
Proof.
  destruct (build_exact input segments) as [g|e] eqn:Eb.
  - pose proof Eb as Hb0. apply build_exact_inv in Eb as (Hv & Hl & He & Hc & Hout0).
    split_and!; [done..|]. intros allow.
    destruct (exact_paths input segments g allow Hb0) as (Hfwd0 & Hfull & Hb).
    assert (forall n e, e ∈ outgoing g n -> from e = n /\ n < to e) as Hfwd by (intros m x Hx%Hfwd0; lia).
    rename Hout0 into Hout.
    destruct (fewest_keys_best g allow Hfwd Hb) as (n & Hp & Hmax & _).
    assert (n = consumed g) as -> by (apply Nat.le_antisymm; [by eapply Hb|by eapply Hmax]).
    apply (path_unique (usable g allow)) with (a := 0) (b := consumed g); [| |done|done].
    + intros m e' He'. by apply Hfwd, (usable_outgoing g allow).
    + intros m e e' H1%usable_outgoing H2%usable_outgoing. rewrite Hout in H1, H2.
      eapply leaving_unique; [|done..]. by apply (exact_sources input segments).
  - unfold build_exact in Eb. destruct (Z.ltb_spec MAX_GRAPH_POSITION (Z.of_nat (length input))) as [|Hlen].
    { left. by injection Eb as <-. }
    right. split; [done|]. pose proof (exact_edges_spec input 0 segments Hlen ltac:(lia)) as He.
    destruct (exact_edges input segments 0) as [es|e']; [by destruct (fold_left _ _ _)|].
    injection Eb as <-. done.
Qed.
