(* ===== verification/Parser.v ===== *)
(** * Parser: exhaustive full-pinyin parsing

    [crates/oxpinyin-core/src/parser.rs]: an input is cut at apostrophes into
    groups of letters; a group is counted, then enumerated by an explicit
    stack, either over its complete segmentations or, when it has none, over
    the segmentations of its longest prefix that end in a partial syllable.

    [None] is a panic: the count and the enumeration disagreeing. *)

From Stdlib Require Import ZArith Lia Bool String Strings.Byte.
From stdpp Require Import base list strings.
From S2P Require Import Prelude Options SyllableData ContentData Chewing Syllables Vocab.

Definition MAX_PARSE_RESULTS : nat := Z.to_nat 4096.
Definition OVER_LIMIT : nat := MAX_PARSE_RESULTS + 1.

Record ParsedSyllable : Type := mk_parsed {
  syllable : bytes; start : nat; end_ : nat; completeness : Completeness
}.

Record ParseResult : Type := mk_result { syllables : list ParsedSyllable; remainder : bytes }.

Inductive ParseError : Type := TooManyAlternatives (limit : nat).

Definition too_many_alternatives : ParseError := TooManyAlternatives MAX_PARSE_RESULTS.

Abbreviation paths := (list (list ParsedSyllable)).

Record GroupPaths : Type := mk_group { group_paths : paths; group_consumed : nat; complete : bool }.

Record Frame : Type := mk_frame { cursor : nat; next_length : nat }.

Definition frame_new (cursor end_ : nat) : Frame :=
  mk_frame cursor (Nat.min MAX_SYLLABLE_LEN (end_ - cursor)).

Definition complete_syllable (text : bytes) (options : OptionBits) : option bytes :=
  spelling ← from_utf8 text;
  key ← from_option_text spelling options;
  if bool_decide (Vocab.completeness key = Complete) then Some (key_text key) else None.

Definition is_partial_only (text : bytes) : bool :=
  match complete_syllable text OptionBits_default with Some _ => false | None => true end &&
  existsb (fun s => (length text <? length s) && starts_with s text) FULL_PINYIN_SYLLABLES.

(** [&group[from..from + length]]; the callers stay inside the group. *)
Definition span (group : bytes) (from length_ : nat) : bytes := take length_ (drop from group).

(** [1..=n] and [(1..=n).rev()]. *)
Definition lengths (n : nat) : list nat := seq 1 n.

Definition longest_partial_prefix (text : bytes) : nat :=
  default 0 (head (filter (fun l => is_partial_only (take l text) = true)
                     (reverse (lengths (Nat.min MAX_SYLLABLE_LEN (length text)))))).

(** A saturating sum capped one past the limit. *)
Definition bounded_add (left right : nat) : nat :=
  let sum := usat_add left right in if OVER_LIMIT <? sum then OVER_LIMIT else sum.

Definition count_complete_paths (group : bytes) (options : OptionBits) : nat :=
  let n := length group in
  let counts :=
    fold_left (fun counts cursor =>
        fold_left (fun counts l =>
            match complete_syllable (span group cursor l) options with
            | Some _ =>
                <[cursor := bounded_add (default 0 (counts !! cursor))
                                        (default 0 (counts !! (cursor + l)))]> counts
            | None => counts
            end)
          (reverse (lengths (Nat.min MAX_SYLLABLE_LEN (n - cursor)))) counts)
      (reverse (seq 0 n)) (<[n := 1]> (replicate (n + 1) 0)) in
  default 0 (counts !! 0).

(** The inner [while]: lengths from [next_length] down to the first complete
    syllable, with what the lengths above it push on the way. *)
Fixpoint scan {R} (hit : nat -> option bytes) (emit : nat -> list R) (next_length : nat)
    : list R * option (bytes * nat) :=
  match next_length with
  | O => ([], None)
  | S l =>
      match hit next_length with
      | Some s => ([], Some (s, next_length))
      | None => let '(out, next) := scan hit emit l in (emit next_length ++ out, next)
      end
  end.

(** One turn of an enumeration over [0..goal]: the stack, the path from the
    group's start and the results so far. *)
Section enumeration.
Context (hit : nat -> nat -> option bytes) (absolute_start goal : nat)
  (emit : nat -> nat -> list ParsedSyllable).

Definition segment (s : bytes) (cursor l : nat) (c : Completeness) : ParsedSyllable :=
  mk_parsed s (absolute_start + cursor) (absolute_start + cursor + l) c.

Definition pop_path (stack : list Frame) (path : list ParsedSyllable) : list ParsedSyllable :=
  match stack with [] => path | _ => take (length path - 1) path end.

Definition turn (stack : list Frame) (path : list ParsedSyllable) (results : paths)
    : option (list Frame * list ParsedSyllable * paths) :=
  match stack with
  | [] => None
  | frame :: stack =>
      let c := cursor frame in
      if c =? goal then Some (stack, pop_path stack path, results ++ [path])
      else
        let '(partials, next) :=
          scan (hit c) (fun l => (fun p => path ++ [p]) <$> emit c l) (next_length frame) in
        let results := results ++ partials in
        match next with
        | Some (s, l) =>
            Some (frame_new (c + l) goal :: mk_frame c (l - 1) :: stack,
                  path ++ [segment s c l Complete], results)
        | None => Some (stack, pop_path stack path, results)
        end
  end.

Fixpoint turns (fuel : nat) (stack : list Frame) (path : list ParsedSyllable) (results : paths)
    : paths :=
  match fuel with
  | O => results
  | S fuel =>
      match turn stack path results with
      | None => results
      | Some (stack, path, results) => turns fuel stack path results
      end
  end.

(** The turns one frame takes, its descents included. *)
Fixpoint frame_turns (depth cursor next_length : nat) : nat :=
  match depth with
  | O => 1
  | S depth =>
      if cursor =? goal then 1
      else S (sum_list_with (fun l =>
               match hit cursor l with
               | Some _ =>
                   S (frame_turns depth (cursor + l) (Nat.min MAX_SYLLABLE_LEN (goal - (cursor + l))))
               | None => 0
               end) (lengths next_length))
  end.

Definition enumerate : paths :=
  let f := frame_new 0 goal in
  turns (frame_turns (S goal) (cursor f) (next_length f)) [f] [] [].
End enumeration.

(** [assert_eq!(results.len(), expected)]. *)
Definition assert_count (results : paths) (expected : nat) : option paths :=
  if length results =? expected then Some results else None.

Definition group_hit (group : bytes) (options : OptionBits) (cursor l : nat) : option bytes :=
  complete_syllable (span group cursor l) options.

Definition enumerate_complete_paths (group : bytes) (absolute_start expected : nat)
    (options : OptionBits) : option paths :=
  assert_count
    (enumerate (group_hit group options) absolute_start (length group) (fun _ _ => [])) expected.

Definition maximal_fallback_end (group : bytes) (options : OptionBits) : nat :=
  let n := length group in
  (fold_left (fun '(reachable, target) cursor =>
      if negb (default false (reachable !! cursor)) then (reachable, target)
      else
        let target := Nat.max target (cursor + longest_partial_prefix (drop cursor group)) in
        fold_left (fun '(reachable, target) l =>
            match complete_syllable (span group cursor l) options with
            | Some _ => (<[cursor + l := true]> reachable, Nat.max target (cursor + l))
            | None => (reachable, target)
            end)
          (lengths (Nat.min MAX_SYLLABLE_LEN (n - cursor))) (reachable, target))
    (seq 0 n) (<[0 := true]> (replicate (n + 1) false), 0)).2.

Definition fallback_ways (group : bytes) (target : nat) (options : OptionBits) : list nat :=
  fold_left (fun ways cursor =>
      if default 0 (ways !! cursor) =? 0 then ways
      else
        fold_left (fun ways l =>
            match complete_syllable (span group cursor l) options with
            | Some _ =>
                <[cursor + l := bounded_add (default 0 (ways !! (cursor + l)))
                                            (default 0 (ways !! cursor))]> ways
            | None => ways
            end)
          (lengths (Nat.min MAX_SYLLABLE_LEN (target - cursor))) ways)
    (seq 0 target) (<[0 := 1]> (replicate (target + 1) 0)).

Definition count_fallback_paths (group : bytes) (target : nat) (options : OptionBits) : nat :=
  let ways := fallback_ways group target options in
  fold_left (fun count cursor =>
      if is_partial_only (span group cursor (target - cursor))
      then bounded_add count (default 0 (ways !! cursor)) else count)
    (seq 0 target) (default 0 (ways !! target)).

(** The partial segment pushed where a length ends at the target. *)
Definition partial_emit (group : bytes) (absolute_start target cursor l : nat)
    : list ParsedSyllable :=
  let text := span group cursor l in
  if (cursor + l =? target) && is_partial_only text
  then [segment absolute_start text cursor l Partial] else [].

Definition enumerate_fallback_paths (group : bytes) (absolute_start target expected : nat)
    (options : OptionBits) : option paths :=
  assert_count
    (enumerate (group_hit group options) absolute_start target
       (partial_emit group absolute_start target)) expected.

Definition parse_group (group : bytes) (absolute_start : nat) (options : OptionBits)
    : option (result GroupPaths ParseError) :=
  let complete_count := count_complete_paths group options in
  if MAX_PARSE_RESULTS <? complete_count then Some (Err too_many_alternatives)
  else if negb (complete_count =? 0) then
    ps ← enumerate_complete_paths group absolute_start complete_count options;
    Some (Ok (mk_group ps (length group) true))
  else
    let target := maximal_fallback_end group options in
    let fallback_count := count_fallback_paths group target options in
    if MAX_PARSE_RESULTS <? fallback_count then Some (Err too_many_alternatives)
    else
      ps ← enumerate_fallback_paths group absolute_start target fallback_count options;
      Some (Ok (mk_group ps target false)).

Definition combine (left right : paths) : result paths ParseError :=
  match checked_mul (length left) (length right) with
  | None => Err too_many_alternatives
  | Some count =>
      if MAX_PARSE_RESULTS <? count then Err too_many_alternatives
      else Ok (left ≫= fun l => (fun r => l ++ r) <$> right)
  end.

Definition finish (ps : paths) (input : bytes) (remainder_start : nat) : list ParseResult :=
  (fun p => mk_result p (drop remainder_start input)) <$> ps.

(** The end of the letters from [from]. *)
Definition letters_end (input : bytes) (from : nat) : nat :=
  match position (fun b => negb (is_ascii_lowercase b)) (drop from input) with
  | Some offset => from + offset
  | None => length input
  end.

Definition apostrophe : byte := x27.

(** [while cursor < len && input[cursor] == b'\'' { cursor += 1 }]. *)
Definition apostrophes_end (input : bytes) (from : nat) : nat :=
  match position (fun b => negb (bool_decide (b = apostrophe))) (drop from input) with
  | Some offset => from + offset
  | None => length input
  end.

Definition lowercase_at (input : bytes) (i : nat) : bool :=
  match input !! i with Some b => is_ascii_lowercase b | None => false end.

(** The [loop]: one group a turn; every turn that goes on consumes a byte. *)
Fixpoint parse_groups (fuel : nat) (input : bytes) (options : OptionBits) (cursor : nat)
    (pending_separator : option nat) (accumulated : paths)
    : option (result (list ParseResult) ParseError) :=
  match fuel with
  | O => None
  | S fuel =>
      let group_start := cursor in
      let group_end := letters_end input group_start in
      let stop_before := default group_start pending_separator in
      if group_start =? group_end then Some (Ok (finish accumulated input stop_before))
      else
        g ← parse_group (span input group_start (group_end - group_start)) group_start options;
        match g with
        | Err e => Some (Err e)
        | Ok group =>
            if group_consumed group =? 0 then Some (Ok (finish accumulated input stop_before))
            else
              match combine accumulated (group_paths group) with
              | Err e => Some (Err e)
              | Ok accumulated =>
                  if negb (complete group)
                  then Some (Ok (finish accumulated input (group_start + group_consumed group)))
                  else
                    let cursor := group_end in
                    if (cursor =? length input) || negb (bool_decide (input !! cursor = Some apostrophe))
                    then Some (Ok (finish accumulated input cursor))
                    else
                      let separator := cursor in
                      let cursor := apostrophes_end input cursor in
                      if negb (lowercase_at input cursor)
                      then Some (Ok (finish accumulated input separator))
                      else parse_groups fuel input options cursor (Some separator) accumulated
              end
        end
  end.

Definition parse_input (input : bytes) (options : OptionBits)
    : option (result (list ParseResult) ParseError) :=
  if bool_decide (input !! 0 = Some apostrophe) then
    let cursor := apostrophes_end input 0 in
    if negb (lowercase_at input cursor) then Some (Ok (finish [[]] input 0))
    else parse_groups (S (length input)) input options cursor (Some 0) [[]]
  else parse_groups (S (length input)) input options 0 None [[]].

Definition parse (input : bytes) : option (result (list ParseResult) ParseError) :=
  parse_input input OptionBits_default.

Definition parse_with_options (input : bytes) (options : OptionBits)
    : option (result (list ParseResult) ParseError) :=
  parse_input input options.

(** ** One key *)

Definition parse_one_key (options : Z) (input : bytes) : option ChewingKey :=
  if existsb (fun b => bool_decide (b = apostrophe)) input then None
  else
    let bits := from_bits options in
    let '(tone, core) :=
      if contains bits USE_TONE then
        match last input with
        | Some digit =>
            if in_range 49 53 digit then ((byte_val digit - 48)%Z, take (length input - 1) input)
            else (CHEWING_ZERO_TONE, input)
        | None => (CHEWING_ZERO_TONE, input)
        end
      else (CHEWING_ZERO_TONE, input) in
    if contains bits USE_TONE && contains bits FORCE_TONE && (tone =? CHEWING_ZERO_TONE)%Z then None
    else
      text ← from_utf8 core;
      syllable ← from_option_text text bits;
      if bool_decide (Vocab.completeness syllable = Partial) && negb (contains bits PINYIN_INCOMPLETE)
      then None
      else
        key ← from_pinyin (key_text syllable);
        Some (with_tone key tone).
