(* ===== verification/ParserCount.v ===== *)
(** * ParserCount: the enumeration of the parser and its count

    The explicit stack enumerates the paths it is to, in as many turns as
    they have frames, and the counting pass counts them. *)

From Stdlib Require Import ZArith Lia Bool String Strings.Byte.
From stdpp Require Import base list strings.
From S2P Require Import Prelude Options SyllableData Syllables Vocab Parser.

Section enumerate.
Context (hit : nat -> nat -> option bytes) (absolute_start goal : nat)
  (emit : nat -> nat -> list ParsedSyllable).
Local Abbreviation seg := (segment absolute_start).

(** The lengths a fresh frame tries at [c]. *)
Definition fresh (c : nat) : nat := Nat.min MAX_SYLLABLE_LEN (goal - c).

(** What a frame at [c] with [n] lengths left still pushes, after the path
    that leads to it: the recursive enumeration. *)
Fixpoint completions (depth c n : nat) : paths :=
  match depth with
  | O => []
  | S depth =>
      if c =? goal then [[]]
      else reverse (lengths n) ≫= fun l =>
        match hit c l with
        | Some s => cons (seg s c l Complete) <$> completions depth (c + l) (fresh (c + l))
        | None => (fun p => [p]) <$> emit c l
        end
  end.

Lemma lengths_elem l n : l ∈ lengths n <-> 1 <= l <= n.
Proof. unfold lengths. rewrite elem_of_seq. lia. Qed.

Lemma lengths_S n : lengths (S n) = lengths n ++ [S n].
Proof. unfold lengths. rewrite seq_S. done. Qed.

Lemma bind_ext_elem {A B} (f g : A -> list B) l :
  (forall x, x ∈ l -> f x = g x) -> l ≫= f = l ≫= g.
Proof. intros H. apply Forall_bind_ext, Forall_forall, H. Qed.

Lemma sum_ext_elem {A} (f g : A -> nat) l :
  (forall x, x ∈ l -> f x = g x) -> sum_list_with f l = sum_list_with g l.
Proof.
  induction l as [|x l IH]; intros H; [done|]. simpl.
  rewrite (H x) by by left. rewrite IH; [done|]. intros y Hy. apply H. by right.
Qed.

Lemma completions_depth d d' c n :
  goal - c < d -> goal - c < d' -> n <= goal - c -> completions d c n = completions d' c n.
Proof.
  revert d' c n. induction d as [|d IH]; intros d' c n Hd Hd' Hn; [lia|].
  destruct d' as [|d']; [lia|]. cbn [completions]. destruct (Nat.eqb_spec c goal); [done|].
  apply bind_ext_elem. intros l Hl. rewrite elem_of_reverse, lengths_elem in Hl.
  destruct (hit c l); [|done]. f_equal. apply IH; unfold fresh; lia.
Qed.

Lemma frame_turns_depth d d' c n :
  goal - c < d -> goal - c < d' -> n <= goal - c ->
  frame_turns hit goal d c n = frame_turns hit goal d' c n.
Proof.
  revert d' c n. induction d as [|d IH]; intros d' c n Hd Hd' Hn; [lia|].
  destruct d' as [|d']; [lia|]. cbn [frame_turns]. destruct (Nat.eqb_spec c goal); [done|].
  f_equal. apply sum_ext_elem. intros l Hl%lengths_elem.
  destruct (hit c l); [|done]. f_equal. apply IH; lia.
Qed.

Definition comps (c n : nat) : paths := completions (S goal) c n.
Definition cost (c n : nat) : nat := frame_turns hit goal (S goal) c n.

Lemma comps_goal n : comps goal n = [[]].
Proof. unfold comps. cbn [completions]. by rewrite Nat.eqb_refl. Qed.

Lemma comps_eq c n :
  c < goal -> n <= goal - c ->
  comps c n = reverse (lengths n) ≫= fun l =>
    match hit c l with
    | Some s => cons (seg s c l Complete) <$> comps (c + l) (fresh (c + l))
    | None => (fun p => [p]) <$> emit c l
    end.
Proof.
  intros Hc Hn. unfold comps at 1. cbn [completions]. rewrite (proj2 (Nat.eqb_neq _ _)) by lia.
  apply bind_ext_elem. intros l Hl. rewrite elem_of_reverse, lengths_elem in Hl.
  destruct (hit c l); [|done]. f_equal. apply completions_depth; unfold fresh; lia.
Qed.

Lemma comps_S c n :
  c < goal -> S n <= goal - c ->
  comps c (S n) =
  match hit c (S n) with
  | Some s => cons (seg s c (S n) Complete) <$> comps (c + S n) (fresh (c + S n))
  | None => (fun p => [p]) <$> emit c (S n)
  end ++ comps c n.
Proof.
  intros Hc Hn. rewrite (comps_eq c (S n)), (comps_eq c n) by lia. rewrite lengths_S, reverse_app, bind_app.
  f_equal. change (reverse [S n]) with [S n]. cbn [mbind list_bind]. by rewrite app_nil_r.
Qed.

Lemma comps_0 c : c < goal -> comps c 0 = [].
Proof. intros Hc. by rewrite comps_eq by lia. Qed.

Lemma cost_goal n : cost goal n = 1.
Proof. unfold cost. cbn [frame_turns]. by rewrite Nat.eqb_refl. Qed.

Lemma cost_eq c n :
  c < goal -> n <= goal - c ->
  cost c n = S (sum_list_with (fun l =>
    match hit c l with Some _ => S (cost (c + l) (fresh (c + l))) | None => 0 end) (lengths n)).
Proof.
  intros Hc Hn. unfold cost at 1. cbn [frame_turns]. rewrite (proj2 (Nat.eqb_neq _ _)) by lia.
  f_equal. apply sum_ext_elem. intros l Hl%lengths_elem.
  destruct (hit c l); [|done]. f_equal. apply frame_turns_depth; unfold fresh; lia.
Qed.

Lemma cost_S c n :
  c < goal -> S n <= goal - c ->
  cost c (S n) =
  match hit c (S n) with Some _ => S (cost (c + S n) (fresh (c + S n))) | None => 0 end + cost c n.
Proof.
  intros Hc Hn. rewrite !(cost_eq c) by lia. rewrite lengths_S, sum_list_with_app. simpl. lia.
Qed.

(** The inner loop skips to the next descent. *)
Lemma scan_spec path c n :
  c < goal -> n <= goal - c ->
  let '(partials, next) :=
    scan (hit c) (fun l => (fun p => path ++ [p]) <$> emit c l) n in
  match next with
  | Some (s, l) =>
      1 <= l <= n /\
      app path <$> comps c n =
        partials ++ (app (path ++ [seg s c l Complete]) <$> comps (c + l) (fresh (c + l)))
          ++ (app path <$> comps c (l - 1)) /\
      cost c n = S (cost (c + l) (fresh (c + l)) + cost c (l - 1))
  | None => app path <$> comps c n = partials /\ cost c n = 1
  end.
Proof.
  intros Hc Hn. induction n as [|n IH]; cbn [scan].
  { rewrite comps_0, cost_eq by lia. done. }
  rewrite comps_S, cost_S by lia. destruct (hit c (S n)) as [s|].
  - split; [lia|]. rewrite Nat.sub_succ, Nat.sub_0_r. split; [|lia].
    rewrite fmap_app, app_nil_l, <- list_fmap_compose. f_equal.
    apply list_fmap_ext. intros _ p _. simpl. by rewrite <- app_assoc.
  - specialize (IH ltac:(lia)). destruct (scan _ _ n) as [out next].
    rewrite fmap_app, <- list_fmap_compose. destruct next as [[s l]|].
    + destruct IH as (Hl & He & Hk). split; [lia|]. split; [|lia]. by rewrite He, <- app_assoc.
    + destruct IH as [He Hk]. by rewrite He, Hk.
Qed.

(** ** The loop *)

Definition frame_ok (f : Frame) : Prop :=
  cursor f = goal \/ (cursor f < goal /\ next_length f <= goal - cursor f).

(** What a stack still pushes, and the turns it still takes. *)
Fixpoint pending (stack : list Frame) (path : list ParsedSyllable) : paths :=
  match stack with
  | [] => []
  | f :: stack =>
      (app path <$> comps (cursor f) (next_length f)) ++ pending stack (pop_path stack path)
  end.

Definition turns_left (stack : list Frame) : nat :=
  sum_list_with (fun f => cost (cursor f) (next_length f)) stack.

Lemma frame_new_ok c : c <= goal -> frame_ok (frame_new c goal).
Proof. intros Hc. unfold frame_ok, frame_new. cbn [cursor next_length]. lia. Qed.

Lemma turn_spec stack path results :
  Forall frame_ok stack -> stack <> [] ->
  exists stack' path' results',
    turn hit absolute_start goal emit stack path results = Some (stack', path', results') /\
    Forall frame_ok stack' /\ turns_left stack = S (turns_left stack') /\
    results ++ pending stack path = results' ++ pending stack' path'.
Proof.
  intros Hok Hne. destruct stack as [|f stack]; [done|]. apply Forall_cons in Hok as [Hf Hok].
  unfold turns_left. cbn [turn pending sum_list_with]. destruct (Nat.eqb_spec (cursor f) goal) as [Eg|Eg].
  { rewrite Eg, comps_goal, cost_goal. eexists _, _, _. split_and!; [done|done|done|].
    rewrite list_fmap_singleton, app_nil_r, <- app_assoc. done. }
  destruct Hf as [?|[Hc Hn]]; [done|].
  pose proof (scan_spec path (cursor f) (next_length f) Hc Hn) as Hs.
  destruct (scan _ _ _) as [partials next]. destruct next as [[s l]|].
  - destruct Hs as (Hl & He & Hk). eexists _, _, _. split; [done|]. split_and!.
    + apply Forall_cons. split; [by apply frame_new_ok; lia|]. apply Forall_cons. split; [|done].
      right. simpl. lia.
    + cbn [sum_list_with frame_new cursor next_length]. fold (fresh (cursor f + l)). lia.
    + cbn [pending pop_path frame_new cursor next_length]. fold (fresh (cursor f + l)).
      rewrite He, length_app. cbn [length]. rewrite Nat.add_sub, take_app_length.
      by rewrite <- !app_assoc.
  - destruct Hs as [He Hk]. eexists _, _, _. split; [done|]. split_and!; [done|lia|].
    by rewrite He, <- app_assoc.
Qed.

Lemma turns_spec fuel stack path results :
  Forall frame_ok stack -> turns_left stack <= fuel ->
  turns hit absolute_start goal emit fuel stack path results = results ++ pending stack path.
Proof.
  revert stack path results. induction fuel as [|fuel IH]; intros stack path results Hok Hf.
  - destruct stack as [|f stack]; [by rewrite app_nil_r|].
    destruct (turn_spec (f :: stack) path results Hok ltac:(done)) as (? & ? & ? & _ & _ & Ht & _). lia.
  - destruct stack as [|f stack]; [by rewrite app_nil_r|].
    destruct (turn_spec (f :: stack) path results Hok ltac:(done)) as (st & pa & re & Et & Hok' & Ht & Hp).
    cbn [turns]. rewrite Et, IH by (done || lia). by rewrite Hp.
Qed.

Lemma enumerate_comps : enumerate hit absolute_start goal emit = comps 0 (fresh 0).
Proof.
  unfold enumerate. rewrite turns_spec.
  - cbn [pending frame_new cursor next_length]. rewrite app_nil_l, app_nil_r.
    replace (app []) with (@id (list ParsedSyllable)) by done. by rewrite list_fmap_id.
  - apply Forall_singleton, frame_new_ok. lia.
  - unfold turns_left, cost. cbn [sum_list_with]. lia.
Qed.

(** ** What is enumerated *)

Inductive segmentation : nat -> list ParsedSyllable -> Prop :=
  | seg_done : segmentation goal []
  | seg_complete c l s p :
      1 <= l <= MAX_SYLLABLE_LEN -> c + l <= goal -> hit c l = Some s ->
      segmentation (c + l) p -> segmentation c (seg s c l Complete :: p)
  | seg_partial c l p :
      1 <= l <= MAX_SYLLABLE_LEN -> c + l <= goal -> hit c l = None -> p ∈ emit c l ->
      segmentation c [p].

Lemma comps_elem c p : c <= goal -> p ∈ comps c (fresh c) <-> segmentation c p.
Proof.
  remember (goal - c) as k eqn:Hk. revert c p Hk.
  induction k as [k IH] using lt_wf_ind; intros c p Hk Hc.
  destruct (decide (c = goal)) as [->|Hne].
  { rewrite comps_goal, list_elem_of_singleton. split; [intros ->; constructor|].
    inversion 1; [done|lia..]. }
  rewrite comps_eq by (unfold fresh; lia). rewrite list_elem_of_bind. split.
  - intros (l & Hp & Hl). rewrite elem_of_reverse, lengths_elem in Hl. unfold fresh in Hl.
    destruct (hit c l) as [s|] eqn:Eh.
    + apply list_elem_of_fmap in Hp as (q & -> & Hq). constructor; [lia|lia|done|].
      by apply (IH (goal - (c + l))); [lia|lia|lia|].
    + apply list_elem_of_fmap in Hp as (q & -> & Hq). by apply (seg_partial c l); [lia|lia|..].
  - intros H. inversion H as [|c' l s q Hl Hcl Eh Hq|c' l q Hl Hcl Eh Hq]; subst; [done|..];
      exists l; rewrite elem_of_reverse, lengths_elem, Eh; (split; [|unfold fresh; lia]).
    + apply list_elem_of_fmap. exists q. split; [done|].
      by apply (IH (goal - (c + l))); [lia|lia|lia|].
    + apply list_elem_of_fmap. by exists q.
Qed.

(** No segmentation is pushed twice, where what is emitted ends where its
    length does. *)
Lemma comps_nodup c :
  (forall c l p, p ∈ emit c l -> end_ p = absolute_start + c + l) ->
  (forall c l, NoDup (emit c l)) -> c <= goal -> NoDup (comps c (fresh c)).
Proof.
  intros Hend Hnd. remember (goal - c) as k eqn:Hk. revert c Hk.
  induction k as [k IH] using lt_wf_ind; intros c Hk Hc.
  destruct (decide (c = goal)) as [->|Hne]; [rewrite comps_goal; apply NoDup_singleton|].
  rewrite comps_eq by (unfold fresh; lia). apply NoDup_bind.
  - assert (forall l p, p ∈ match hit c l with
        | Some s => cons (seg s c l Complete) <$> comps (c + l) (fresh (c + l))
        | None => (fun p => [p]) <$> emit c l end ->
      end_ <$> head p = Some (absolute_start + c + l)) as Hhead.
    { intros l p Hp. destruct (hit c l); apply list_elem_of_fmap in Hp as (q & -> & Hq); [done|].
      simpl. f_equal. by apply (Hend c l q). }
    intros l l' p _ _ H1%Hhead H2%Hhead. rewrite H1 in H2. injection H2. lia.
  - intros l Hl. rewrite elem_of_reverse, lengths_elem in Hl. unfold fresh in Hl.
    destruct (hit c l).
    + apply NoDup_fmap_2; [intros ?? [=]; done|]. apply (IH (goal - (c + l))); lia.
    + apply NoDup_fmap_2; [intros ?? [=]; done|]. apply Hnd.
  - rewrite reverse_Permutation. apply NoDup_seq.
Qed.
End enumerate.

(** ** Capped sums *)

Definition cap (n : nat) : nat := Nat.min n OVER_LIMIT.

Lemma limit_value : Z.of_nat OVER_LIMIT = 4097%Z.
Proof. unfold OVER_LIMIT, MAX_PARSE_RESULTS. lia. Qed.

Lemma bounded_add_cap a b : bounded_add (cap a) (cap b) = cap (a + b).
Proof.
  pose proof limit_value. unfold bounded_add, usat_add, checked_add, cap.
  rewrite checked_usize_small by (unfold isize_max; lia).
  rewrite <- Nat2Z.inj_add, Nat2Z.id.
  destruct (Nat.ltb_spec OVER_LIMIT (Nat.min a OVER_LIMIT + Nat.min b OVER_LIMIT)); lia.
Qed.

Lemma cap_0 : cap 0 = 0.
Proof. done. Qed.

Lemma cap_1 : cap 1 = 1.
Proof. pose proof limit_value. unfold cap. lia. Qed.

Lemma cap_zero n : cap n = 0 <-> n = 0.
Proof. pose proof limit_value. unfold cap. lia. Qed.

Lemma cap_exceeds n : MAX_PARSE_RESULTS < cap n <-> MAX_PARSE_RESULTS < n.
Proof. pose proof limit_value. unfold cap, OVER_LIMIT in *. lia. Qed.

Lemma cap_within n : cap n <= MAX_PARSE_RESULTS -> cap n = n.
Proof. pose proof limit_value. unfold cap, OVER_LIMIT in *. lia. Qed.

Lemma length_bind {A B} (f : A -> list B) (l : list A) :
  length (l ≫= f) = sum_list_with (fun x => length (f x)) l.
Proof. induction l as [|x l IH]; [done|]. rewrite bind_cons, length_app, IH. done. Qed.

Lemma sum_zero {A} (f : A -> nat) l : (forall x, x ∈ l -> f x = 0) -> sum_list_with f l = 0.
Proof.
  induction l as [|x l IH]; intros H; [done|]. simpl. rewrite (H x) by by left.
  rewrite IH; [done|]. intros y Hy. apply H. by right.
Qed.

(** ** How many segmentations lead on from a position *)

Section counts.
Context (hit : nat -> nat -> option bytes) (absolute_start goal : nat)
  (emit : nat -> nat -> list ParsedSyllable).
Local Abbreviation ways_on c := (length (comps hit absolute_start goal emit c (fresh goal c))).

(** What a position pushes without a descent. *)
Definition emitted (c : nat) : nat :=
  sum_list_with (fun l => match hit c l with Some _ => 0 | None => length (emit c l) end)
    (lengths (fresh goal c)).

Lemma emitted_nil c : (forall l, emit c l = []) -> emitted c = 0.
Proof. intros H. apply sum_zero. intros l _. rewrite H. by destruct (hit c l). Qed.

Lemma ways_on_goal : ways_on goal = 1.
Proof. by rewrite comps_goal. Qed.

Lemma ways_on_eq c :
  c < goal ->
  ways_on c = emitted c +
    sum_list_with (fun l => match hit c l with Some _ => ways_on (c + l) | None => 0 end)
      (lengths (fresh goal c)).
Proof.
  intros Hc. rewrite comps_eq by (unfold fresh; lia).
  rewrite length_bind, sum_list_with_reverse. unfold emitted.
  induction (lengths (fresh goal c)) as [|l ls IH]; [done|]. cbn [sum_list_with].
  rewrite IH. destruct (hit c l); rewrite length_fmap; lia.
Qed.
End counts.

(** ** The backward count of complete paths *)

Section complete_count.
Context (group : bytes) (options : OptionBits) (absolute_start : nat).
Local Abbreviation n := (length group).
Local Abbreviation hit := (group_hit group options).
Local Abbreviation ways_on c :=
  (length (comps hit absolute_start n (fun _ _ => []) c (fresh n c))).

Definition count_length (cursor : nat) (counts : list nat) (l : nat) : list nat :=
  match complete_syllable (span group cursor l) options with
  | Some _ =>
      <[cursor := bounded_add (default 0 (counts !! cursor))
                              (default 0 (counts !! (cursor + l)))]> counts
  | None => counts
  end.

Definition counted (c : nat) (counts : list nat) : Prop :=
  length counts = n + 1 /\
  forall i, i <= n -> counts !! i = Some (if c <=? i then cap (ways_on i) else 0).

Lemma count_lengths_spec c x ls counts :
  c < n -> (forall l, l ∈ ls -> 1 <= l <= n - c) -> length counts = n + 1 ->
  (forall i, c < i <= n -> counts !! i = Some (cap (ways_on i))) ->
  counts !! c = Some (cap x) ->
  fold_left (count_length c) ls counts =
  <[c := cap (x + sum_list_with
      (fun l => match hit c l with Some _ => ways_on (c + l) | None => 0 end) ls)]> counts.
Proof.
  intros Hc. revert x counts. induction ls as [|l ls IH]; intros x counts Hls Hlen Hi Hx; cbn [fold_left sum_list_with].
  { rewrite Nat.add_0_r. by rewrite list_insert_id. }
  specialize (Hls l) as Hl. specialize (Hl (list_elem_of_here _ _)).
  unfold count_length at 2. change (complete_syllable (span group c l) options) with (hit c l).
  destruct (hit c l) as [s|].
  - rewrite Hx, Hi by lia. cbn [default from_option id]. rewrite bounded_add_cap.
    rewrite (IH (x + ways_on (c + l))).
    + rewrite list_insert_insert_eq. by rewrite Nat.add_assoc.
    + intros l' Hl'. apply Hls. by right.
    + by rewrite length_insert.
    + intros i Hic. rewrite list_lookup_insert_ne by lia. by apply Hi.
    + apply list_lookup_insert_eq. lia.
  - rewrite (IH x); [done| |done|done|done]. intros l' Hl'. apply Hls. by right.
Qed.

Lemma count_cursor_spec c counts :
  c < n -> counted (S c) counts ->
  counted c (fold_left (count_length c) (reverse (lengths (Nat.min MAX_SYLLABLE_LEN (n - c)))) counts).
Proof.
  intros Hc [Hlen Hi]. fold (fresh n c).
  rewrite (count_lengths_spec c 0); [|done| |done| |].
  - rewrite sum_list_with_reverse. split; [by rewrite length_insert|]. intros i Hin.
    destruct (decide (i = c)) as [->|Hne].
    + rewrite list_lookup_insert_eq by lia. rewrite Nat.leb_refl. f_equal. f_equal.
      by rewrite ways_on_eq, emitted_nil by done.
    + rewrite list_lookup_insert_ne, Hi by done. f_equal.
      by destruct (Nat.leb_spec c i), (Nat.leb_spec (S c) i); try lia.
  - intros l Hl. rewrite elem_of_reverse, lengths_elem in Hl. unfold fresh in Hl. lia.
  - intros i Hin. rewrite Hi by lia. by rewrite (proj2 (Nat.leb_le _ _)) by lia.
  - rewrite Hi by lia. by rewrite (proj2 (Nat.leb_gt _ _)) by lia.
Qed.

Lemma count_complete_spec : count_complete_paths group options = cap (ways_on 0).
Proof.
  unfold count_complete_paths. cbn zeta.
  assert (forall k, k <= n -> counted (n - k)
    (fold_left (fun counts cursor => fold_left (count_length cursor)
        (reverse (lengths (Nat.min MAX_SYLLABLE_LEN (n - cursor)))) counts)
      (reverse (seq (n - k) k)) (<[n := 1]> (replicate (n + 1) 0)))) as H.
  { induction k as [|k IH]; intros Hk.
    - split; [cbn [seq reverse rev_append fold_left]; by rewrite length_insert, length_replicate|].
      intros i Hi. cbn [seq reverse rev_append fold_left]. rewrite Nat.sub_0_r. destruct (decide (i = n)) as [->|Hne].
      + rewrite list_lookup_insert_eq by (rewrite length_replicate; lia).
        rewrite Nat.leb_refl, comps_goal. cbn [length]. by rewrite cap_1.
      + rewrite list_lookup_insert_ne, lookup_replicate_2 by lia.
        by rewrite (proj2 (Nat.leb_gt _ _)) by lia.
    - replace (seq (n - S k) (S k)) with ((n - S k) :: seq (n - k) k)
        by (cbn [seq]; by replace (S (n - S k)) with (n - k) by lia).
      rewrite reverse_cons, fold_left_app. cbn [fold_left].
      apply count_cursor_spec; [lia|]. replace (S (n - S k)) with (n - k) by lia. apply IH. lia. }
  specialize (H n (le_n _)). rewrite Nat.sub_diag in H. destruct H as [_ H].
  fold (count_length). setoid_rewrite H; [|lia]. done.
Qed.
End complete_count.

(** ** Sums over positions *)

Lemma sum_seq_point (f : nat -> nat) k d n :
  k < n ->
  sum_list_with (fun m => f m + (if m =? k then d else 0)) (seq 0 n) = sum_list_with f (seq 0 n) + d.
Proof.
  induction n as [|n IH]; intros Hk; [lia|]. rewrite seq_S, !sum_list_with_app. cbn [sum_list_with Nat.add].
  destruct (Nat.eqb_spec n k) as [->|Hne]; [|rewrite IH by lia; lia].
  rewrite (sum_ext_elem _ f (seq 0 k)); [lia|].
  intros m Hm%elem_of_seq. rewrite (proj2 (Nat.eqb_neq _ _)) by lia. lia.
Qed.

Lemma sum_mul {A} (f : A -> nat) k l :
  sum_list_with (fun x => k * f x) l = k * sum_list_with f l.
Proof. induction l as [|x l IH]; simpl; lia. Qed.

(** ** The forward count of fallback paths *)

Definition no_overlap (options : OptionBits) : Prop :=
  forall text, is_partial_only text = true -> complete_syllable text options = None.

(** The inventory's longest syllable has [MAX_SYLLABLE_LEN] bytes. *)
Lemma inventory_lengths :
  forallb (fun s => length s <=? MAX_SYLLABLE_LEN) FULL_PINYIN_SYLLABLES = true.
Proof. vm_compute. reflexivity. Qed.

Lemma partial_short text : is_partial_only text = true -> length text < MAX_SYLLABLE_LEN.
Proof.
  unfold is_partial_only. intros [_ H]%andb_true_iff. apply existsb_exists in H as (s & Hs & H).
  apply andb_true_iff in H as [H _]. apply Nat.ltb_lt in H.
  pose proof (proj1 (forallb_forall _ _) inventory_lengths s Hs) as Hl. apply Nat.leb_le in Hl. lia.
Qed.

Section fallback_count.
Context (group : bytes) (options : OptionBits) (absolute_start target : nat).
Local Abbreviation hit := (group_hit group options).
Local Abbreviation emit := (partial_emit group absolute_start target).
Local Abbreviation ways_on c := (length (comps hit absolute_start target emit c (fresh target c))).
Local Abbreviation emitted := (emitted hit target emit).

Definition ways_length (cursor : nat) (ways : list nat) (l : nat) : list nat :=
  match complete_syllable (span group cursor l) options with
  | Some _ =>
      <[cursor + l := bounded_add (default 0 (ways !! (cursor + l)))
                                  (default 0 (ways !! cursor))]> ways
  | None => ways
  end.

(** [ways] holds the capped values of [u]. *)
Definition holds (ways : list nat) (u : nat -> nat) : Prop :=
  length ways = target + 1 /\ forall i, i <= target -> ways !! i = Some (cap (u i)).

Definition weigh (u w : nat -> nat) : nat :=
  sum_list_with (fun m => u m * w m) (seq 0 (target + 1)).

Lemma weigh_add u w j d :
  j <= target -> weigh (fun m => u m + if m =? j then d else 0) w = weigh u w + d * w j.
Proof.
  intros Hj. unfold weigh. rewrite <- (sum_seq_point _ j) by lia. apply sum_ext_elem.
  intros m _. destruct (Nat.eqb_spec m j) as [->|]; lia.
Qed.

Lemma weigh_weight u w j d :
  j <= target -> weigh u (fun m => w m + if m =? j then d else 0) = weigh u w + u j * d.
Proof.
  intros Hj. unfold weigh. rewrite <- (sum_seq_point _ j) by lia. apply sum_ext_elem.
  intros m _. destruct (Nat.eqb_spec m j) as [->|]; lia.
Qed.

Lemma weigh_ext u w w' : (forall m, m <= target -> w m = w' m) -> weigh u w = weigh u w'.
Proof. intros H. apply sum_ext_elem. intros m Hm%elem_of_seq. rewrite H by lia. done. Qed.

Lemma ways_lengths_spec k ls ways u :
  (forall l, l ∈ ls -> 1 <= l <= target - k) -> k < target -> holds ways u ->
  exists u', holds (fold_left (ways_length k) ls ways) u' /\ u' k = u k /\
    forall w, weigh u' w = weigh u w +
      u k * sum_list_with (fun l => match hit k l with Some _ => w (k + l) | None => 0 end) ls.
Proof.
  intros Hls Hk. revert ways u Hls. induction ls as [|l ls IH]; intros ways u Hls Hh; cbn [fold_left sum_list_with].
  { exists u. split; [done|]. split; [done|]. intros w. lia. }
  specialize (Hls l (list_elem_of_here _ _)) as Hl.
  assert (forall l', l' ∈ ls -> 1 <= l' <= target - k) as Hls' by (intros l' Hl'; apply Hls; by right).
  unfold ways_length at 2. change (complete_syllable (span group k l) options) with (hit k l).
  destruct (hit k l) as [s|].
  - destruct Hh as [Hlen Hi]. rewrite !Hi by lia. cbn [default from_option id]. rewrite bounded_add_cap.
    destruct (IH (<[k + l := cap (u (k + l) + u k)]> ways)
                (fun m => u m + if m =? k + l then u k else 0) Hls') as (u' & Hh' & Hk' & Hw).
    + split; [by rewrite length_insert|]. intros i Hit. destruct (Nat.eqb_spec i (k + l)) as [->|Hne].
      * by rewrite list_lookup_insert_eq by lia.
      * rewrite list_lookup_insert_ne, Hi by lia. by rewrite Nat.add_0_r.
    + rewrite (proj2 (Nat.eqb_neq k (k + l))), Nat.add_0_r in Hk' by lia.
      exists u'. split; [done|]. split; [done|]. intros w. rewrite Hw, weigh_add by lia.
      rewrite (proj2 (Nat.eqb_neq k (k + l))) by lia. lia.
  - destruct (IH ways u Hls' Hh) as (u' & Hh' & Hk' & Hw). exists u'. split; [done|]. split; [done|].
    intros w. rewrite Hw. lia.
Qed.

(** A position already handled weighs what it emits, one to come what leads
    on from it. *)
Definition weight (k m : nat) : nat := if m <? k then emitted m else ways_on m.

Lemma weight_step u k :
  k < target ->
  weigh u (weight k) = weigh u (weight (S k)) +
    u k * sum_list_with (fun l => match hit k l with Some _ => weight (S k) (k + l) | None => 0 end)
            (lengths (fresh target k)).
Proof.
  intros Hk. rewrite <- weigh_weight by lia. apply weigh_ext. intros m Hm. unfold weight.
  destruct (Nat.eqb_spec m k) as [->|Hne].
  - rewrite (proj2 (Nat.ltb_ge _ _)), (proj2 (Nat.ltb_lt k (S k))), ways_on_eq by lia. f_equal.
    apply sum_ext_elem. intros l Hl%lengths_elem. unfold fresh in Hl.
    by rewrite (proj2 (Nat.ltb_ge (k + l) (S k))) by lia.
  - rewrite Nat.add_0_r. destruct (Nat.ltb_spec m k), (Nat.ltb_spec m (S k)); lia.
Qed.

Lemma fallback_ways_spec :
  exists u, holds (fallback_ways group target options) u /\ weigh u (weight target) = ways_on 0.
Proof.
  unfold fallback_ways.
  assert (forall k, k <= target -> exists u, holds (fold_left (fun ways cursor =>
      if default 0 (ways !! cursor) =? 0 then ways
      else fold_left (ways_length cursor) (lengths (Nat.min MAX_SYLLABLE_LEN (target - cursor))) ways)
    (seq 0 k) (<[0 := 1]> (replicate (target + 1) 0))) u /\ weigh u (weight k) = ways_on 0) as H.
  { induction k as [|k IH]; intros Hk.
    - exists (fun m => if m =? 0 then 1 else 0). split.
      + cbn [seq fold_left]. split; [by rewrite length_insert, length_replicate|]. intros i Hi.
        destruct (Nat.eqb_spec i 0) as [->|Hne].
        * rewrite list_lookup_insert_eq by (rewrite length_replicate; lia). by rewrite cap_1.
        * by rewrite list_lookup_insert_ne, lookup_replicate_2 by lia.
      + transitivity (weigh (fun _ => 0) (weight 0) + 1 * weight 0 0).
        * rewrite <- weigh_add by lia. done.
        * unfold weigh. rewrite sum_zero by done. unfold weight. cbn [Nat.ltb Nat.leb]. lia.
    - destruct IH as (u & Hh & Hw); [lia|]. rewrite seq_S, fold_left_app. cbn [fold_left Nat.add].
      set (ways := fold_left _ (seq 0 k) _) in *. pose proof Hh as [Hlen Hi]. rewrite Hi by lia.
      rewrite weight_step in Hw by lia. cbn [default from_option id].
      destruct (Nat.eqb_spec (cap (u k)) 0) as [E|_].
      + exists u. split; [done|]. rewrite cap_zero in E. rewrite <- Hw, E. lia.
      + destruct (ways_lengths_spec k (lengths (fresh target k)) ways u) as (u' & Hh' & _ & Hw').
        * intros l Hl%lengths_elem. unfold fresh in Hl. lia.
        * lia.
        * done.
        * exists u'. split; [exact Hh'|]. rewrite Hw', <- Hw. done. }
  exact (H target (le_n _)).
Qed.

Context (Hno : no_overlap options).

(** A partial syllable ends at the target from [m]. *)
Definition partial_tail (m : nat) : nat :=
  if is_partial_only (span group m (target - m)) then 1 else 0.

Lemma emitted_tail m : m < target -> target <= length group -> emitted m = partial_tail m.
Proof using Hno.
  intros Hm Ht. unfold emitted, partial_tail.
  rewrite (sum_ext_elem _ (fun l => 0 + if l =? target - m
    then if is_partial_only (span group m (target - m)) then 1 else 0 else 0)).
  2:{ intros l Hl%lengths_elem. unfold partial_emit, fresh in *.
      destruct (Nat.eqb_spec l (target - m)) as [->|Hne].
      - rewrite (proj2 (Nat.eqb_eq _ _)) by lia. cbn [andb].
        destruct (is_partial_only _) eqn:E; [|by destruct (hit m _)].
        unfold group_hit. by rewrite Hno.
      - rewrite (proj2 (Nat.eqb_neq (m + l) target)) by lia. by destruct (hit m l). }
  unfold lengths. destruct (is_partial_only (span group m (target - m))) eqn:E.
  - pose proof (partial_short _ E) as Hs. unfold span in Hs. rewrite length_take, length_drop in Hs.
    unfold fresh. rewrite (proj2 (Nat.min_r_iff _ _)) by lia.
    replace (seq 1 (target - m)) with (seq 1 (target - m - 1) ++ [target - m]).
    2:{ replace (target - m) with (S (target - m - 1)) at 3 by lia. rewrite seq_S. f_equal. f_equal. lia. }
    rewrite sum_list_with_app. cbn [sum_list_with]. rewrite Nat.eqb_refl.
    rewrite sum_zero; [done|]. intros l Hl%elem_of_seq.
    by rewrite (proj2 (Nat.eqb_neq _ _)) by lia.
  - apply sum_zero. intros l _. by destruct (l =? target - m).
Qed.

Lemma count_tails_spec ways u x ks :
  holds ways u -> (forall m, m ∈ ks -> m < target) ->
  fold_left (fun count cursor =>
    if is_partial_only (span group cursor (target - cursor))
    then bounded_add count (default 0 (ways !! cursor)) else count) ks (cap x) =
  cap (x + sum_list_with (fun m => u m * partial_tail m) ks).
Proof.
  intros [_ Hi]. revert x. induction ks as [|m ks IH]; intros x Hks; cbn [fold_left sum_list_with].
  { by rewrite Nat.add_0_r. }
  specialize (Hks m (list_elem_of_here _ _)) as Hm.
  assert (forall m, m ∈ ks -> m < target) as Hks' by (intros m' H; apply Hks; by right).
  unfold partial_tail at 1. destruct (is_partial_only _).
  - rewrite Hi by lia. cbn [default from_option id]. rewrite bounded_add_cap, IH by done. f_equal. lia.
  - rewrite IH by done. f_equal. lia.
Qed.

Lemma count_fallback_spec :
  target <= length group -> count_fallback_paths group target options = cap (ways_on 0).
Proof using Hno.
  intros Ht. destruct fallback_ways_spec as (u & Hh & Hw). unfold count_fallback_paths.
  pose proof Hh as [_ Hi]. rewrite Hi by lia. cbn [default from_option id].
  rewrite (count_tails_spec _ u) by (done || intros m Hm%elem_of_seq; lia). f_equal.
  rewrite <- Hw. unfold weigh. rewrite Nat.add_1_r, seq_S, sum_list_with_app. cbn [sum_list_with Nat.add].
  unfold weight at 2. rewrite Nat.ltb_irrefl, ways_on_goal, Nat.add_0_r, Nat.mul_1_r, Nat.add_comm. f_equal.
  apply sum_ext_elem. intros m Hm%elem_of_seq. unfold weight.
  rewrite (proj2 (Nat.ltb_lt _ _)), emitted_tail by lia. done.
Qed.
End fallback_count.
