(* ===== verification/ParserGroup.v ===== *)
(** * ParserGroup: what one group of letters parses to

    The fallback's end is the farthest any segmentation reaches, and
    [parse_group] returns the segmentations of that span, or says there are
    too many. *)

From Stdlib Require Import ZArith Lia Bool String Strings.Byte.
From stdpp Require Import base list strings.
From S2P Require Import Prelude Options SyllableData Syllables Vocab Parser ParserCount.

(** ** The longest partial prefix *)

Lemma head_filter_lengths (P : nat -> bool) n :
  match head (filter (fun l => P l = true) (reverse (lengths n))) with
  | Some l => 1 <= l <= n /\ P l = true /\ forall l', 1 <= l' <= n -> P l' = true -> l' <= l
  | None => forall l', 1 <= l' <= n -> P l' = false
  end.
Proof.
  induction n as [|n IH]; [simpl; lia|].
  rewrite lengths_S, reverse_app. change (reverse [S n]) with [S n]. cbn [app].
  rewrite filter_cons. destruct (decide (P (S n) = true)) as [E|E]; cbn [head].
  { split_and!; [lia..|done|]. lia. }
  apply not_true_is_false in E. destruct (head _) as [l|].
  - destruct IH as (Hl & HP & Hmax). split_and!; [lia..|done|]. intros l' Hl' HP'.
    destruct (decide (l' = S n)) as [->|Hne]; [congruence|]. apply Hmax; [lia|done].
  - intros l' Hl'. destruct (decide (l' = S n)) as [->|Hne]; [done|]. apply IH. lia.
Qed.

Lemma longest_partial_prefix_spec text :
  let l := longest_partial_prefix text in
  (l = 0 \/ 1 <= l <= length text /\ is_partial_only (take l text) = true) /\
  forall l', 1 <= l' <= length text -> is_partial_only (take l' text) = true -> l' <= l.
Proof.
  unfold longest_partial_prefix. cbn zeta.
  pose proof (head_filter_lengths (fun l => is_partial_only (take l text))
                (Nat.min MAX_SYLLABLE_LEN (length text))) as H.
  assert (forall l', 1 <= l' <= length text -> is_partial_only (take l' text) = true ->
            l' <= Nat.min MAX_SYLLABLE_LEN (length text)) as Hshort.
  { intros l' Hl' HP%partial_short. rewrite length_take in HP. lia. }
  destruct (head _) as [l|]; cbn [default from_option id].
  - destruct H as (Hl & HP & Hmax). split; [right; split; [lia|done]|].
    intros l' Hl' HP'. apply Hmax; [|done]. split; [lia|by apply Hshort].
  - split; [by left|]. intros l' Hl' HP'. specialize (Hshort l' Hl' HP').
    rewrite H in HP' by lia. done.
Qed.

(** ** How far a fallback reaches *)

Section reach.
Context (group : bytes) (options : OptionBits).
Local Abbreviation n := (length group).
Local Abbreviation hit := (group_hit group options).

(** Complete syllables cover the group up to a position. *)
Inductive reach : nat -> Prop :=
  | reach_0 : reach 0
  | reach_step c l s :
      reach c -> 1 <= l <= MAX_SYLLABLE_LEN -> c + l <= n -> hit c l = Some s -> reach (c + l).

(** The ends a reached position offers. *)
Definition offers (c e : nat) : Prop :=
  e = c \/ (c < e <= n /\ is_partial_only (span group c (e - c)) = true).

Lemma reach_le c : reach c -> c <= n.
Proof. induction 1; lia. Qed.

(** [reachable] after the positions before [k], and [target] the farthest
    they offer. *)
Definition explored (k : nat) (state : list bool * nat) : Prop :=
  length state.1 = n + 1 /\
  (forall i, state.1 !! i = Some true -> reach i) /\
  state.1 !! 0 = Some true /\
  (forall c l s, c < k -> reach c -> 1 <= l <= MAX_SYLLABLE_LEN -> c + l <= n ->
     hit c l = Some s -> state.1 !! (c + l) = Some true) /\
  (forall i, state.1 !! i = Some true -> i <= state.2) /\
  (exists c, reach c /\ offers c state.2) /\
  (forall c e, c < k -> reach c -> offers c e -> e <= state.2).

Definition reach_length (cursor : nat) : list bool * nat -> nat -> list bool * nat :=
  fun '(reachable, target) l =>
    match complete_syllable (span group cursor l) options with
    | Some _ => (<[cursor + l := true]> reachable, Nat.max target (cursor + l))
    | None => (reachable, target)
    end.

Lemma reach_lengths_spec c ls reachable target :
  reach c -> (forall l, l ∈ ls -> 1 <= l <= MAX_SYLLABLE_LEN /\ c + l <= n) ->
  length reachable = n + 1 ->
  let state := fold_left (reach_length c) ls (reachable, target) in
  length state.1 = n + 1 /\
  (forall i, state.1 !! i = Some true <->
     reachable !! i = Some true \/ exists l s, l ∈ ls /\ hit c l = Some s /\ i = c + l) /\
  target <= state.2 /\
  (state.2 = target \/ reach state.2) /\
  (forall l s, l ∈ ls -> hit c l = Some s -> c + l <= state.2).
Proof.
  intros Hc. revert reachable target. induction ls as [|l ls IH]; intros reachable target Hls Hlen; cbn [fold_left].
  { cbn zeta. split_and!; [done| |done|by left|by intros ?? ?%not_elem_of_nil].
    intros i. split; [by left|]. intros [?|(?&?&[]%not_elem_of_nil&_)]. done. }
  destruct (Hls l (list_elem_of_here _ _)) as [Hl Hcl].
  assert (forall l, l ∈ ls -> 1 <= l <= MAX_SYLLABLE_LEN /\ c + l <= n) as Hls'
    by (intros l' Hl'; apply Hls; by right).
  assert (reach_length c (reachable, target) l = match hit c l with
    | Some _ => (<[c + l := true]> reachable, Nat.max target (c + l))
    | None => (reachable, target) end) as -> by done.
  destruct (hit c l) as [s|] eqn:E.
  - destruct (IH (<[c + l := true]> reachable) (Nat.max target (c + l)) Hls') as (IH1 & IH2 & IH3 & IH4 & IH5).
    { by rewrite length_insert. }
    cbn zeta. split_and!; [done| |lia| |].
    + intros i. rewrite IH2. destruct (decide (i = c + l)) as [->|Hne].
      * rewrite list_lookup_insert_eq by lia. split; [|by left].
        intros _. right. exists l, s. split; [by left|done].
      * rewrite list_lookup_insert_ne by done. split.
        { intros [?|(l' & s' & ? & ? & ?)]; [by left|]. right. exists l', s'. split; [by right|done]. }
        { intros [?|(l' & s' & Hl' & ? & ->)]; [by left|].
          right. exists l', s'. by apply elem_of_cons in Hl' as [->|Hl']. }
    + destruct IH4 as [IH4|IH4]; [|by right]. rewrite IH4.
      destruct (Nat.max_spec target (c + l)) as [[_ ->]|[_ ->]]; [|by left].
      right. by apply (reach_step c l s).
    + intros l' s' [->|Hl']%elem_of_cons Hh; [lia|by apply (IH5 l' s')].
  - destruct (IH reachable target Hls' Hlen) as (IH1 & IH2 & IH3 & IH4 & IH5).
    cbn zeta. split_and!; [done| |done|done|].
    + intros i. rewrite IH2. split.
      * intros [?|(l' & s' & ? & ? & ?)]; [by left|]. right. exists l', s'. split; [by right|done].
      * intros [?|(l' & s' & Hl' & ? & ?)]; [by left|].
        right. exists l', s'. apply elem_of_cons in Hl' as [->|Hl']; [congruence|done].
    + intros l' s' [->|Hl']%elem_of_cons Hh; [congruence|by apply (IH5 l' s')].
Qed.

Lemma explored_marks k state i : explored k state -> i <= k -> reach i -> state.1 !! i = Some true.
Proof.
  intros (_ & _ & H0 & Hm & _) Hi Hr. destruct Hr as [|c l s Hc Hl Hcl Hh]; [done|].
  apply (Hm c l s); (done || lia).
Qed.

Definition explore : list bool * nat -> nat -> list bool * nat := fun '(reachable, target) cursor =>
  if negb (default false (reachable !! cursor)) then (reachable, target)
  else
    fold_left (reach_length cursor) (lengths (Nat.min MAX_SYLLABLE_LEN (n - cursor)))
      (reachable, Nat.max target (cursor + longest_partial_prefix (drop cursor group))).

(** The farthest end a position offers on its own. *)
Lemma longest_offer c :
  c < n ->
  offers c (c + longest_partial_prefix (drop c group)) /\
  forall e, offers c e -> e <= c + longest_partial_prefix (drop c group).
Proof.
  intros Hc. pose proof (longest_partial_prefix_spec (drop c group)) as [Hl Hmax].
  rewrite length_drop in Hl, Hmax. unfold offers, span. split.
  - destruct Hl as [->|[Hl HP]]; [left; lia|right]. split; [lia|].
    by replace (c + longest_partial_prefix (drop c group) - c) with (longest_partial_prefix (drop c group)) by lia.
  - intros e [->|[He HP]]; [lia|]. specialize (Hmax (e - c) ltac:(lia) HP). lia.
Qed.

Lemma explore_spec k state : k < n -> explored k state -> explored (S k) (explore state k).
Proof.
  destruct state as [reachable target]. intros Hk He. pose proof He as (Hlen & Hs & H0 & Hm & Hle & Ht & Hf).
  cbn [fst snd] in *. unfold explore. destruct (reachable !! k) as [[|]|] eqn:Ek; cbn [default from_option id negb].
  2,3: split_and!; try done;
    [intros c l s Hc Hr; apply (Hm c l s); [|done]|intros c e Hc Hr; apply (Hf c e); [|done]];
    (destruct (decide (c = k)) as [->|]; [|lia]);
    pose proof (explored_marks k _ k He (le_n _) Hr) as Hx; cbn [fst] in Hx; congruence.
  pose proof (Hs k Ek) as Hr. destruct (longest_offer k Hk) as [Ho Homax].
  destruct (reach_lengths_spec k (lengths (Nat.min MAX_SYLLABLE_LEN (n - k))) reachable
    (Nat.max target (k + longest_partial_prefix (drop k group))) Hr) as (S1 & S2 & S3 & S4 & S5).
  { intros l Hl%lengths_elem. lia. }
  { done. }
  split_and!; [done| | | | | |].
  - intros i [Hi|(l & s & Hl%lengths_elem & Hh & ->)]%S2; [by apply Hs|].
    apply (reach_step k l s); (done || lia).
  - apply S2. by left.
  - intros c l s Hc Hrc Hl Hcl Hh. apply S2. destruct (decide (c = k)) as [->|Hne].
    + right. exists l, s. split; [apply lengths_elem; lia|done].
    + left. apply (Hm c l s); (done || lia).
  - intros i [Hi|(l & s & Hl & Hh & ->)]%S2; [apply Hle in Hi; lia|by apply (S5 l s)].
  - destruct S4 as [->|S4]; [|eexists; split; [exact S4|by left]].
    destruct (Nat.max_spec target (k + longest_partial_prefix (drop k group))) as [[_ ->]|[_ ->]];
      [by exists k|done].
  - intros c e Hc Hrc Hoe. destruct (decide (c = k)) as [->|Hne].
    + apply Homax in Hoe. lia.
    + specialize (Hf c e ltac:(lia) Hrc Hoe). lia.
Qed.

Lemma maximal_fallback_end_spec :
  (exists c, reach c /\ offers c (maximal_fallback_end group options)) /\
  forall c e, reach c -> offers c e -> e <= maximal_fallback_end group options.
Proof.
  assert (forall k, k <= n ->
    explored k (fold_left explore (seq 0 k) (<[0 := true]> (replicate (n + 1) false), 0))) as H.
  { induction k as [|k IH]; intros Hk.
    - cbn [seq fold_left]. unfold explored. cbn [fst snd].
      assert (forall i, <[0 := true]> (replicate (n + 1) false) !! i = Some true -> i = 0) as Hz.
      { intros i Hi. destruct (decide (i = 0)) as [->|Hne]; [done|].
        rewrite list_lookup_insert_ne in Hi by done. apply lookup_replicate in Hi as [? _]. done. }
      split_and!; [by rewrite length_insert, length_replicate|by intros i ->%Hz; constructor| | | | |].
      + apply list_lookup_insert_eq. rewrite length_replicate. lia.
      + lia.
      + by intros i ->%Hz.
      + exists 0. split; [constructor|by left].
      + lia.
    - rewrite seq_S, fold_left_app. apply explore_spec; [lia|]. apply IH. lia. }
  specialize (H n (le_n _)). pose proof (explored_marks n _ n H (le_n _)) as Hn.
  destruct H as (_ & _ & _ & _ & Hle & Ht & Hf). split; [exact Ht|].
  intros c e Hr Ho. pose proof (reach_le c Hr). destruct (decide (c = n)) as [->|Hne].
  - destruct Ho as [->|[? _]]; [|lia]. apply Hle, Hn, Hr.
  - apply (Hf c e); [lia|done..].
Qed.

Lemma maximal_fallback_end_le : maximal_fallback_end group options <= n.
Proof. destruct maximal_fallback_end_spec as [(c & Hr%reach_le & [->|[? _]]) _]; lia. Qed.
End reach.

(** ** Segmentations of a group *)

(** The span [0..goal] cut into complete syllables. *)
Abbreviation complete_segmentation group options absolute_start :=
  (segmentation (group_hit group options) absolute_start (length group) (fun _ _ => []) 0).

(** The span [0..goal] cut into complete syllables, the last segment possibly
    a partial one. *)
Abbreviation fallback_segmentation group options absolute_start goal :=
  (segmentation (group_hit group options) absolute_start goal
     (partial_emit group absolute_start goal) 0).

Lemma partial_emit_elem group absolute_start goal c l p :
  p ∈ partial_emit group absolute_start goal c l <->
  c + l = goal /\ is_partial_only (span group c l) = true /\
  p = segment absolute_start (span group c l) c l Partial.
Proof.
  unfold partial_emit. destruct (Nat.eqb_spec (c + l) goal) as [E|E]; cbn [andb].
  - destruct (is_partial_only _); [rewrite list_elem_of_singleton; naive_solver|].
    split; [by intros ?%not_elem_of_nil|naive_solver].
  - split; [by intros ?%not_elem_of_nil|naive_solver].
Qed.

Lemma partial_emit_nodup group absolute_start goal c l :
  NoDup (partial_emit group absolute_start goal c l).
Proof. unfold partial_emit. destruct (_ && _); [apply NoDup_singleton|constructor]. Qed.

Lemma partial_emit_end group absolute_start goal c l p :
  p ∈ partial_emit group absolute_start goal c l -> end_ p = absolute_start + c + l.
Proof. by intros (_ & _ & ->)%partial_emit_elem. Qed.

Lemma segmentation_le hit absolute_start goal emit c p :
  segmentation hit absolute_start goal emit c p -> c <= goal.
Proof. destruct 1; lia. Qed.

Section offered.
Context (group : bytes) (options : OptionBits) (absolute_start goal : nat) (Hgoal : goal <= length group).
Local Abbreviation cut :=
  (segmentation (group_hit group options) absolute_start goal (partial_emit group absolute_start goal)).

Lemma cut_offers c p :
  cut c p -> reach group options c -> exists c', reach group options c' /\ offers group c' goal.
Proof using Hgoal.
  induction 1 as [|c l s p Hl Hcl Hh Hp IH|c l p Hl Hcl Hh Hp]; intros Hr.
  - exists goal. split; [done|by left].
  - apply IH, (reach_step _ _ c l s); (done || lia).
  - apply partial_emit_elem in Hp as (<- & HP & _). exists c. split; [done|]. right.
    split; [lia|]. by replace (c + l - c) with l by lia.
Qed.

Lemma reach_cut c p : reach group options c -> cut c p -> exists q, cut 0 q.
Proof.
  intros Hr. revert p. induction Hr as [|c l s Hr IH Hl Hcl Hh]; intros p Hp; [by exists p|].
  apply (IH (segment absolute_start s c l Complete :: p)). constructor; [done| |done..].
  by apply segmentation_le in Hp.
Qed.

Lemma cut_exists :
  no_overlap options ->
  (exists p, cut 0 p) <-> exists c, reach group options c /\ offers group c goal.
Proof using Hgoal.
  intros Hno. split.
  - intros [p Hp]. apply (cut_offers 0 p Hp). constructor.
  - intros (c & Hr & [E|[Hg HP]]); [apply (reach_cut c [] Hr); rewrite E; constructor|].
    apply (reach_cut c [segment absolute_start (span group c (goal - c)) c (goal - c) Partial] Hr).
    assert (goal - c <= MAX_SYLLABLE_LEN) as Hs.
    { apply partial_short in HP. unfold span in HP. rewrite length_take, length_drop in HP. lia. }
    apply (seg_partial _ _ _ _ c (goal - c)); [lia|lia|by apply Hno|].
    apply partial_emit_elem. split; [lia|done].
Qed.
End offered.

Lemma length_zero_none (ps : paths) (P : list ParsedSyllable -> Prop) :
  (forall p, p ∈ ps <-> P p) -> length ps = 0 <-> forall p, ~ P p.
Proof.
  intros H. split.
  - intros Hl p Hp%H. destruct ps; [|done]. by apply not_elem_of_nil in Hp.
  - intros Hn. destruct ps as [|p ps]; [done|]. destruct (Hn p). apply H. by left.
Qed.

(** What a group's paths are: all the complete segmentations, or, when there
    is none, all the segmentations of the longest prefix that has one. *)
Definition group_spec (group : bytes) (absolute_start : nat) (options : OptionBits)
    (is_complete : bool) (consumed : nat) (ps : paths) : Prop :=
  NoDup ps /\ ps <> [] /\
  if is_complete then
    consumed = length group /\
    forall p, p ∈ ps <-> complete_segmentation group options absolute_start p
  else
    consumed <= length group /\
    (forall p, ~ complete_segmentation group options absolute_start p) /\
    (forall p, p ∈ ps <-> fallback_segmentation group options absolute_start consumed p) /\
    (forall e p, consumed < e <= length group ->
       ~ fallback_segmentation group options absolute_start e p).

Lemma assert_count_ok ps expected :
  expected = cap (length ps) -> expected <= MAX_PARSE_RESULTS -> assert_count ps expected = Some ps.
Proof.
  intros -> H. unfold assert_count. rewrite cap_within by done. by rewrite Nat.eqb_refl.
Qed.

(** What the fallback enumerates. *)
Definition fallback_paths (group : bytes) (absolute_start target : nat) (options : OptionBits) : paths :=
  comps (group_hit group options) absolute_start target
    (partial_emit group absolute_start target) 0 (fresh target 0).

(** What the complete enumeration pushes. *)
Definition full_paths (group : bytes) (absolute_start : nat) (options : OptionBits) : paths :=
  comps (group_hit group options) absolute_start (length group) (fun _ _ => []) 0 (fresh (length group) 0).

Lemma full_paths_elem group absolute_start options p :
  p ∈ full_paths group absolute_start options <-> complete_segmentation group options absolute_start p.
Proof. apply comps_elem. lia. Qed.

Lemma full_paths_spec group absolute_start options :
  length (full_paths group absolute_start options) <> 0 ->
  group_spec group absolute_start options true (length group) (full_paths group absolute_start options).
Proof.
  intros Hne. split_and!.
  - apply comps_nodup; [by intros ??? ?%not_elem_of_nil|constructor|lia].
  - intros E. by rewrite E in Hne.
  - done.
  - intros p. apply full_paths_elem.
Qed.

Lemma fallback_paths_spec group absolute_start options :
  no_overlap options ->
  (forall p, ~ complete_segmentation group options absolute_start p) ->
  let target := maximal_fallback_end group options in
  group_spec group absolute_start options false target (fallback_paths group absolute_start target options).
Proof.
  intros Hno Hz target.
  pose proof (maximal_fallback_end_le group options) as Hle.
  pose proof (maximal_fallback_end_spec group options) as [Hex Hmax]. fold target in Hle, Hex, Hmax.
  assert (forall p, p ∈ fallback_paths group absolute_start target options <->
    fallback_segmentation group options absolute_start target p) as Hps by (intros p; apply comps_elem; lia).
  split_and!; [| |done|done|done|].
  - apply comps_nodup; [intros c l p; apply partial_emit_end|intros; apply partial_emit_nodup|lia].
  - apply (cut_exists group options absolute_start target Hle Hno) in Hex as [p Hp%Hps].
    intros E. rewrite E in Hp. by apply not_elem_of_nil in Hp.
  - intros e p He Hp.
    assert (exists c, reach group options c /\ offers group c e) as (c & Hr & Ho).
    { apply (cut_exists group options absolute_start e); [lia|done|by exists p]. }
    specialize (Hmax c e Hr Ho). lia.
Qed.

Lemma parse_group_spec (group : bytes) (absolute_start : nat) (options : OptionBits) :
  no_overlap options ->
  match parse_group group absolute_start options with
  | None => False
  | Some (Ok g) =>
      length (group_paths g) <= MAX_PARSE_RESULTS /\
      group_spec group absolute_start options (complete g) (group_consumed g) (group_paths g)
  | Some (Err e) =>
      e = TooManyAlternatives MAX_PARSE_RESULTS /\
      exists is_complete consumed ps,
        MAX_PARSE_RESULTS < length ps /\
        group_spec group absolute_start options is_complete consumed ps
  end.
Proof.
  intros Hno. unfold parse_group. cbn zeta.
  rewrite (count_complete_spec group options absolute_start). fold (full_paths group absolute_start options).
  pose proof (full_paths_spec group absolute_start options) as Hcs.
  destruct (Nat.ltb_spec MAX_PARSE_RESULTS (cap (length (full_paths group absolute_start options)))) as [Hbig|Hsmall].
  { rewrite cap_exceeds in Hbig. split; [done|]. exists true, (length group), (full_paths group absolute_start options).
    split; [done|]. apply Hcs. lia. }
  destruct (Nat.eqb_spec (cap (length (full_paths group absolute_start options))) 0) as [Hz|Hnz]; cbn [negb].
  2:{ unfold enumerate_complete_paths. rewrite enumerate_comps. fold (full_paths group absolute_start options).
      rewrite assert_count_ok by done. cbn [mbind option_bind group_paths complete group_consumed].
      rewrite cap_within in Hsmall by done. rewrite cap_zero in Hnz. split; [done|]. by apply Hcs. }
  rewrite cap_zero, (length_zero_none _ _ (full_paths_elem group absolute_start options)) in Hz.
  pose proof (fallback_paths_spec group absolute_start options Hno Hz) as Hspec. cbn zeta in Hspec.
  set (target := maximal_fallback_end group options) in *.
  rewrite (count_fallback_spec group options absolute_start target Hno (maximal_fallback_end_le group options)).
  fold (fallback_paths group absolute_start target options).
  destruct (Nat.ltb_spec MAX_PARSE_RESULTS (cap (length (fallback_paths group absolute_start target options)))) as [Hbig|Hfit].
  { rewrite cap_exceeds in Hbig. split; [done|]. by eexists false, target, _. }
  unfold enumerate_fallback_paths. rewrite enumerate_comps.
  fold (fallback_paths group absolute_start target options).
  rewrite assert_count_ok by done. cbn [mbind option_bind group_paths complete group_consumed].
  rewrite cap_within in Hfit by done. done.
Qed.

(** C14. Parsing one group never trips the count assertion where no option
    makes a partial syllable complete. The paths it returns are, each once,
    exactly the segmentations of the group into complete syllables; when there
    is none, exactly the segmentations, a last partial syllable allowed, of the
    longest prefix that has one, of which there is at least one. There are at
    most 4096 of them, and more than that is the error. *)
Theorem parse_group_paths (group : bytes) (absolute_start : nat) (options : OptionBits) :
  no_overlap options ->
  match parse_group group absolute_start options with
  | None => False
  | Some (Ok g) =>
      length (group_paths g) <= MAX_PARSE_RESULTS /\
      group_spec group absolute_start options (complete g) (group_consumed g) (group_paths g)
  | Some (Err e) =>
      e = TooManyAlternatives MAX_PARSE_RESULTS /\
      exists is_complete consumed ps,
        MAX_PARSE_RESULTS < length ps /\
        group_spec group absolute_start options is_complete consumed ps
  end.
Proof. apply parse_group_spec. Qed.

(** ** Options under which no partial syllable is complete *)

Lemma no_overlap_default : no_overlap OptionBits_default.
Proof.
  intros text. unfold is_partial_only.
  by destruct (complete_syllable text OptionBits_default).
Qed.

Lemma parse_group_paths_witness :
  parse_group (str "xianx") 3 OptionBits_default =
    Some (Ok (mk_group
      [[mk_parsed (str "xian") 3 7 Complete; mk_parsed (str "x") 7 8 Partial];
       [mk_parsed (str "xi") 3 5 Complete; mk_parsed (str "an") 5 7 Complete;
        mk_parsed (str "x") 7 8 Partial]] 5 false)) /\
  match parse_group (str "xianx") 3 OptionBits_default with
  | None => False
  | Some (Ok g) =>
      length (group_paths g) <= MAX_PARSE_RESULTS /\
      group_spec (str "xianx") 3 OptionBits_default (complete g) (group_consumed g) (group_paths g)
  | Some (Err e) => 
      e = TooManyAlternatives MAX_PARSE_RESULTS /\
      exists is_complete consumed ps,
        MAX_PARSE_RESULTS < length ps /\
        group_spec (str "xianx") 3 OptionBits_default is_complete consumed ps
  end.
Proof.
  split; [vm_compute; reflexivity|]. apply (parse_group_paths (str "xianx") 3 OptionBits_default no_overlap_default).
Defined.
