(* ===== verification/ParserInput.v ===== *)
(** * ParserInput: what a whole input parses to, and when it panics

    A partial syllable is a proper prefix of the inventory; only three option
    bits make one of them complete. Without them [Parser] never panics; with
    one of them it can. Every result of the parser is a run of syllables over
    the input's start, apostrophes between them, followed by the remainder it
    reports. *)

From Stdlib Require Import ZArith Lia Bool String Strings.Byte.
From stdpp Require Import base list strings.
From S2P Require Import Prelude Options SyllableData Syllables Vocab Parser ParserCount ParserGroup.

(** The bits that turn a partial syllable into an alias. *)
Definition overlap_bits : list Z := [PINYIN_CORRECT_ON_ONG; PINYIN_AMB_S_SH; PINYIN_AMB_Z_ZH].

(** Every alias bit but those. *)
Definition safe_options : OptionBits :=
  Eval vm_compute in Z.land alias_bits
    (Z.lnot (Z.lor PINYIN_CORRECT_ON_ONG (Z.lor PINYIN_AMB_S_SH PINYIN_AMB_Z_ZH))).

Definition inventory_prefixes : list bytes :=
  FULL_PINYIN_SYLLABLES ≫= fun s => (fun l => take l s) <$> seq 0 (length s).

Lemma partial_only_prefix text : is_partial_only text = true -> text ∈ inventory_prefixes.
Proof.
  unfold is_partial_only. intros [_ H]%andb_true_iff. apply existsb_exists in H as (s & Hs & H).
  apply andb_true_iff in H as [Hl Hp]. apply Nat.ltb_lt in Hl. unfold starts_with in Hp.
  apply bool_decide_eq_true in Hp. apply list_elem_of_bind. exists s.
  split; [|by apply list_elem_of_In]. apply list_elem_of_fmap. exists (length text). split; [by symmetry|].
  apply elem_of_seq. lia.
Qed.

(** No alias the safe bits admit is a partial syllable. *)
Lemma safe_prefixes :
  forallb (fun t => negb (is_partial_only t) ||
    match option_alias_canonical t safe_options with Some _ => false | None => true end)
    inventory_prefixes = true.
Proof. vm_compute. reflexivity. Qed.

Lemma contains_safe options bit :
  (forall b, b ∈ overlap_bits -> contains options b = false) ->
  bit ∈ alias_bit_list -> contains options bit = true -> contains safe_options bit = true.
Proof.
  intros Hno Hin Ho.
  assert (forallb (fun b => existsb (Z.eqb b) overlap_bits || contains safe_options b) alias_bit_list = true) as H
    by (vm_compute; reflexivity).
  pose proof (forallb_elem _ _ _ H Hin) as Hb. clear H. cbv beta in Hb.
  apply orb_true_iff in Hb as [Hb|Hb]; [|done]. apply existsb_exists in Hb as (b & Hb & ->%Z.eqb_eq).
  apply list_elem_of_In in Hb. by rewrite Hno in Ho.
Qed.

Lemma safe_no_overlap options :
  (forall b, b ∈ overlap_bits -> contains options b = false) -> no_overlap options.
Proof.
  intros Hno text Hp. pose proof (forallb_elem _ _ _ safe_prefixes (partial_only_prefix _ Hp)) as Hs.
  cbv beta in Hs. rewrite Hp in Hs. cbn [negb orb] in Hs.
  unfold is_partial_only in Hp. apply andb_true_iff in Hp as [Hd _].
  unfold complete_syllable, from_option_text, from_option_text_with_distance in *.
  destruct (from_utf8 text) as [spelling|] eqn:Eu; [|done]. cbn [mbind option_bind] in *.
  unfold from_utf8 in Eu. destruct (utf8_valid text); [|done]. injection Eu as <-.
  destruct (from_text text) as [key|] eqn:Et.
  { cbn in *. by destruct (if bool_decide _ then _ else _). }
  destruct (option_alias_canonical text options) as [c|] eqn:Ec; [|done].
  apply option_alias_sound in Ec as [Ha Hr].
  rewrite (option_alias_found text safe_options c) in Hs; [done| |done].
  apply (alias_more options); [|done]. intros bit. by apply contains_safe.
Qed.

Definition overlap_inputs : list (Z * bytes) :=
  [(PINYIN_CORRECT_ON_ONG, str "zonv"); (PINYIN_AMB_S_SH, str "suav"); (PINYIN_AMB_Z_ZH, str "zuav")].

Lemma overlap_inputs_panic :
  forallb (fun bi => match parse_with_options bi.2 bi.1, parse bi.2 with
                     | None, Some (Ok _) => true | _, _ => false end) overlap_inputs = true.
Proof. vm_compute. reflexivity. Qed.

(** C16. The count assertion can fail, and no bit can be left out of those
    [ParserInput] asks about: under each of the three alone some letters panic
    that parse without it. With the bit that spells [ong] as [on] they are
    [zonv], whose longest prefix that parses, [zon], is both an alias of [zong]
    and a partial syllable: [count_fallback_paths] takes that tail twice and
    the enumeration pushes it once. *)
Theorem overlap_panics (bit : Z) :
  bit ∈ overlap_bits ->
  exists input, parse_with_options input bit = None /\ exists rs, parse input = Some (Ok rs).
Proof.
  intros Hb. assert (bit ∈ fst <$> overlap_inputs) as H by done.
  apply list_elem_of_fmap in H as ([b input] & -> & Hin). exists input.
  pose proof (forallb_elem _ _ _ overlap_inputs_panic Hin) as H. cbn [fst snd] in *.
  destruct (parse_with_options input b); [done|]. destruct (parse input) as [[rs|]|]; [|done..].
  split; [done|by exists rs].
Qed.

Lemma overlap_panics_witness :
  PINYIN_CORRECT_ON_ONG ∈ overlap_bits /\
  exists input, parse_with_options input PINYIN_CORRECT_ON_ONG = None /\ exists rs, parse input = Some (Ok rs).
Proof.
  assert (PINYIN_CORRECT_ON_ONG ∈ overlap_bits) as H by by left.
  split; [exact H|apply (overlap_panics PINYIN_CORRECT_ON_ONG H)].
Defined.

(** ** Runs of syllables *)

Definition apostrophes_between (input : bytes) (from to : nat) : Prop :=
  forall i, from <= i < to -> input !! i = Some apostrophe.

(** [p] covers [from..to]: syllables in order, only apostrophes between them,
    each complete one the syllable its bytes spell under the options, a partial
    one only at the end and a proper prefix of the inventory. *)
Inductive parsed (input : bytes) (options : OptionBits) : nat -> list ParsedSyllable -> nat -> Prop :=
  | parsed_nil from : parsed input options from [] from
  | parsed_complete from start end_ s p to :
      from <= start < end_ -> end_ <= length input -> apostrophes_between input from start ->
      complete_syllable (span input start (end_ - start)) options = Some s ->
      parsed input options end_ p to ->
      parsed input options from (mk_parsed s start end_ Complete :: p) to
  | parsed_partial from start end_ :
      from <= start < end_ -> end_ <= length input -> apostrophes_between input from start ->
      is_partial_only (span input start (end_ - start)) = true ->
      parsed input options from
        [mk_parsed (span input start (end_ - start)) start end_ Partial] end_.

Definition all_complete (p : list ParsedSyllable) : Prop :=
  Forall (fun s => completeness s = Complete) p.

Lemma parsed_le input options from p to : parsed input options from p to -> from <= to.
Proof. induction 1; lia. Qed.

Lemma parsed_app input options from p mid q to :
  parsed input options from p mid -> all_complete p -> parsed input options mid q to ->
  parsed input options from (p ++ q) to.
Proof.
  induction 1 as [| |]; intros Hc Hq; [done|..]; apply Forall_cons in Hc as [? Hc]; [|done].
  cbn [app]. constructor; auto.
Qed.

(** A run is still a run from before the apostrophes that lead to it. *)
Lemma parsed_gap input options from from' p to :
  from <= from' -> apostrophes_between input from from' -> p <> [] ->
  parsed input options from' p to -> parsed input options from p to.
Proof.
  intros Hle Hgap Hne H.
  assert (forall start, from' <= start -> apostrophes_between input from' start ->
            apostrophes_between input from start) as Hall.
  { intros start Hs Ha i Hi. destruct (decide (i < from')); [apply Hgap; lia|apply Ha; lia]. }
  destruct H as [|? start end_ s p to H1 H2 H3 H4 H5|? start end_ H1 H2 H3 H4]; [done|..]; constructor;
    try done; try lia; apply Hall; (done || lia).
Qed.

(** The segments before [at_] are told apart from those after it. *)
Lemma parsed_ends input options from p to :
  parsed input options from p to -> Forall (fun s => from < end_ s /\ end_ s <= to) p.
Proof.
  induction 1 as [|from st en s p to H1 H2 H3 H4 Hp IH|]; [constructor|..|by repeat constructor; simpl; lia].
  pose proof (parsed_le _ _ _ _ _ Hp). constructor; [simpl; lia|].
  eapply Forall_impl; [exact IH|]. intros x Hx. simpl in Hx. lia.
Qed.

Lemma parsed_split input options from p mid q to :
  parsed input options from p mid -> parsed input options mid q to ->
  filter (fun s => end_ s <= mid) (p ++ q) = p.
Proof.
  intros Hp%parsed_ends Hq%parsed_ends. rewrite filter_app.
  assert (filter (fun s => end_ s <= mid) p = p) as ->.
  { clear Hq. induction Hp as [|s p [_ Hs] _ IH]; [done|]. rewrite filter_cons_True by done. by rewrite IH. }
  assert (filter (fun s => end_ s <= mid) q = []) as ->; [|apply app_nil_r].
  clear Hp. induction Hq as [|s q [Hs _] _ IH]; [done|]. rewrite filter_cons_False by lia. done.
Qed.

(** ** From one group to the input *)

Lemma span_span input start len c l :
  c + l <= len -> span (span input start len) c l = span input (start + c) l.
Proof.
  intros H. unfold span. rewrite skipn_firstn_comm, take_take, drop_drop, Nat.min_l by lia. done.
Qed.

Section group_runs.
Context (input : bytes) (options : OptionBits) (start stop : nat) (Hstop : start <= stop <= length input).
Local Abbreviation group := (span input start (stop - start)).

Lemma group_length : length group = stop - start.
Proof using Hstop. unfold span. rewrite length_take, length_drop. lia. Qed.

(** What a segmentation emits without a descent. *)
Definition emits_partials (goal : nat) (emit : nat -> nat -> list ParsedSyllable) : Prop :=
  forall c l p, p ∈ emit c l ->
    c + l = goal /\ is_partial_only (span group c l) = true /\
    p = segment start (span group c l) c l Partial.

Lemma segmentation_parsed goal emit c p :
  goal <= length group -> emits_partials goal emit ->
  segmentation (group_hit group options) start goal emit c p ->
  parsed input options (start + c) p (start + goal).
Proof using Hstop.
  intros Hg Hemit. rewrite group_length in Hg.
  induction 1 as [|c l s p Hl Hcl Hh Hp IH|c l p Hl Hcl Hh Hp]; [constructor|..].
  - unfold group_hit in Hh. rewrite span_span in Hh by lia.
    constructor; [lia|lia|intros i Hi; lia|..].
    + by replace (start + c + l - (start + c)) with l by lia.
    + by rewrite <- Nat.add_assoc.
  - apply Hemit in Hp as (<- & HP & ->). rewrite span_span in * by lia.
    rewrite Nat.add_assoc. unfold segment.
    replace l with (start + c + l - (start + c)) at 1 by lia.
    constructor; [lia|lia|intros i Hi; lia|].
    by replace (start + c + l - (start + c)) with l by lia.
Qed.

Lemma segmentation_complete goal c p :
  segmentation (group_hit group options) start goal (fun _ _ => []) c p -> all_complete p.
Proof.
  induction 1 as [|c l s p Hl Hcl Hh Hp IH|c l p Hl Hcl Hh Hp%not_elem_of_nil]; [constructor| |done].
  by constructor.
Qed.

(** The paths of a group, as runs over the input. *)
Lemma group_spec_parsed is_complete consumed ps :
  group_spec group start options is_complete consumed ps ->
  NoDup ps /\ ps <> [] /\ consumed <= stop - start /\ (is_complete = true -> consumed = stop - start) /\
  forall p, p ∈ ps ->
    parsed input options start p (start + consumed) /\ (is_complete = true -> all_complete p).
Proof using Hstop.
  intros (Hnd & Hne & H). split; [done|]. split; [done|]. rewrite <- group_length. destruct is_complete.
  - destruct H as [-> Hps]. split; [done|]. split; [done|]. intros p Hp%Hps.
    split; [|by intros _; eapply segmentation_complete]. rewrite <- (Nat.add_0_r start) at 1.
    apply (segmentation_parsed _ (fun _ _ => [])); [done|by intros ??? ?%not_elem_of_nil|done].
  - destruct H as (Hle & _ & Hps & _). split; [done|]. split; [done|]. intros p Hp%Hps.
    split; [|done]. rewrite <- (Nat.add_0_r start) at 1.
    apply (segmentation_parsed _ (partial_emit group start consumed)); [done| |done].
    intros c l q. apply partial_emit_elem.
Qed.
End group_runs.

(** ** The input's letters and apostrophes *)

Lemma position_end (f : byte -> bool) input from :
  from <= length input ->
  let stop := match position f (drop from input) with
              | Some offset => from + offset | None => length input end in
  from <= stop <= length input /\
  forall i, from <= i < stop -> exists b, input !! i = Some b /\ f b = false.
Proof.
  intros Hf stop.
  assert (stop <= length input /\ from <= stop) as [Hle Hge].
  { unfold stop. pose proof (position_spec f (drop from input)) as H. destruct (position f _); [|lia].
    destruct H as (b & Hb%lookup_lt_Some & _). rewrite length_drop in Hb. lia. }
  split; [lia|]. intros i Hi. destruct (lookup_lt_is_Some_2 input i) as [b Hb]; [lia|].
  exists b. split; [done|]. destruct (f b) eqn:Ef; [|done]. exfalso.
  assert (drop from input !! (i - from) = Some b) as Hd.
  { rewrite lookup_drop. by replace (from + (i - from)) with i by lia. }
  unfold stop in Hi. pose proof (position_first f (drop from input)) as Hfirst.
  destruct (position f (drop from input)) as [o|].
  - destruct Hfirst as [_ Hfirst]. rewrite (Hfirst (i - from) b) in Ef by (done || lia). done.
  - by rewrite (Hfirst (i - from) b) in Ef.
Qed.

Lemma letters_end_bounds input from :
  from <= length input -> from <= letters_end input from <= length input.
Proof. intros H. apply (position_end _ input from H). Qed.

Lemma apostrophes_end_spec input from :
  from <= length input ->
  from <= apostrophes_end input from <= length input /\
  apostrophes_between input from (apostrophes_end input from).
Proof.
  intros H. destruct (position_end (fun b => negb (bool_decide (b = apostrophe))) input from H) as [Hb Hi].
  split; [exact Hb|]. intros i Hlt. destruct (Hi i Hlt) as (b & Hbi & Hf).
  apply negb_false_iff, bool_decide_eq_true in Hf. by rewrite Hbi, Hf.
Qed.

(** ** The loop over groups *)

Definition within_limit (ps : paths) : Prop := ps <> [] /\ length ps <= MAX_PARSE_RESULTS.

(** What a parse promises: some runs, each once, over one prefix of the input,
    and the rest of the input as the remainder; or too many of them. *)
Definition parse_spec (input : bytes) (options : OptionBits)
    (r : option (result (list ParseResult) ParseError)) : Prop :=
  match r with
  | Some (Ok rs) =>
      rs <> [] /\ length rs <= MAX_PARSE_RESULTS /\ NoDup rs /\
      exists to, to <= length input /\
        forall p, p ∈ rs -> parsed input options 0 (syllables p) to /\ remainder p = drop to input
  | Some (Err e) => e = TooManyAlternatives MAX_PARSE_RESULTS
  | None => False
  end.

(** Runs over [0..to] that another group can extend. *)
Definition runs (input : bytes) (options : OptionBits) (acc : paths) (to : nat) : Prop :=
  within_limit acc /\ NoDup acc /\ to <= length input /\
  forall p, p ∈ acc -> parsed input options 0 p to.

Lemma finish_spec input options acc to :
  runs input options acc to -> parse_spec input options (Some (Ok (finish acc input to))).
Proof.
  intros ([Hne Hle] & Hnd & Hto & Hp). unfold finish. split_and!.
  - by destruct acc.
  - by rewrite length_fmap.
  - apply NoDup_fmap_2; [|done]. by intros p q [=].
  - exists to. split; [done|]. intros r (p & -> & Hin)%list_elem_of_fmap. split; [by apply Hp|done].
Qed.

Lemma combine_runs input options acc mid right_ to acc' :
  runs input options acc mid -> (forall p, p ∈ acc -> all_complete p) ->
  right_ <> [] -> NoDup right_ -> to <= length input ->
  (forall q, q ∈ right_ -> parsed input options mid q to) ->
  combine acc right_ = Ok acc' ->
  runs input options acc' to /\
  forall x, x ∈ acc' <-> exists p q, x = p ++ q /\ p ∈ acc /\ q ∈ right_.
Proof.
  intros ([Hne Hle] & Hnd & Hmid & Hp) Hc Hner Hndr Hto Hq. unfold combine.
  destruct (checked_mul _ _) as [count|] eqn:Em; [|done].
  destruct (Nat.ltb_spec MAX_PARSE_RESULTS count) as [?|Hcount]; [done|]. intros [= <-].
  assert (forall x, x ∈ (acc ≫= fun l => (fun r => l ++ r) <$> right_) <->
    exists p q, x = p ++ q /\ p ∈ acc /\ q ∈ right_) as Hx.
  { intros x. rewrite list_elem_of_bind. setoid_rewrite list_elem_of_fmap. naive_solver. }
  split; [|done]. split; [split|split_and!; [|done|]].
  - destruct acc as [|p acc], right_ as [|q right_]; [done..|]. intros E.
    apply (not_elem_of_nil (p ++ q)). rewrite <- E. apply Hx. exists p, q. by repeat constructor.
  - rewrite length_bind. rewrite (sum_ext_elem _ (fun _ => length right_ * 1)) by (intros; rewrite length_fmap; lia).
    rewrite sum_mul. unfold checked_mul, checked_usize in Em. destruct (_ <=? _)%Z; [|done].
    injection Em as <-. rewrite <- Nat2Z.inj_mul, Nat2Z.id in Hcount.
    enough (sum_list_with (fun _ : list ParsedSyllable => 1) acc = length acc) as -> by lia.
    clear. induction acc as [|p acc IH]; simpl; congruence.
  - apply NoDup_bind; [|intros p _; by apply NoDup_fmap_2; [intros ??; apply app_inv_head|]|done].
    intros p p' x Hin Hin' (q & -> & Hqin)%list_elem_of_fmap (q' & E & Hqin')%list_elem_of_fmap.
    rewrite <- (parsed_split input options 0 p mid q to), E by auto.
    apply (parsed_split input options 0 p' mid q' to); auto.
  - intros x (p & q & -> & Hin & Hqin)%Hx. apply (parsed_app _ _ _ _ mid); auto.
Qed.

Lemma parse_groups_spec input options fuel cursor pending acc :
  no_overlap options ->
  length input - cursor < fuel -> cursor <= length input ->
  default cursor pending <= cursor ->
  apostrophes_between input (default cursor pending) cursor ->
  runs input options acc (default cursor pending) -> (forall p, p ∈ acc -> all_complete p) ->
  parse_spec input options (parse_groups fuel input options cursor pending acc).
Proof.
  intros Hno. revert cursor pending acc.
  induction fuel as [|fuel IH]; intros cursor pending acc Hfuel Hc Hat Hgap Hruns Hcomp; [lia|].
  cbn [parse_groups]. cbv zeta. pose proof (letters_end_bounds input cursor Hc) as Hstop.
  set (stop := letters_end input cursor) in *.
  destruct (Nat.eqb_spec cursor stop) as [?|Hne]; [by apply finish_spec|].
  pose proof (parse_group_spec (span input cursor (stop - cursor)) cursor options Hno) as Hg.
  destruct (parse_group _ _ _) as [[g|e]|]; cbn [mbind option_bind]; [|by destruct Hg as [-> _]|done].
  destruct Hg as [_ Hg]. apply (group_spec_parsed input options cursor stop Hstop) in Hg as (Hnd & Hneg & Hcons & Hfull & Hps).
  destruct (Nat.eqb_spec (group_consumed g) 0) as [?|Hpos]; [by apply finish_spec|].
  destruct (combine acc (group_paths g)) as [acc'|e] eqn:Ecomb.
  2:{ unfold combine in Ecomb. by repeat case_match; simplify_eq. }
  destruct (combine_runs input options acc (default cursor pending) (group_paths g) (cursor + group_consumed g) acc')
    as [Hruns' Hacc']; [done..|lia| |done|].
  { intros q Hq. destruct (Hps q Hq) as [Hq' _]. apply (parsed_gap _ _ _ cursor); [done..| |done].
    intros ->. inversion Hq'. lia. }
  destruct (complete g); cbn [negb]; [|by apply finish_spec].
  rewrite (Hfull eq_refl), (Nat.add_comm cursor), Nat.sub_add in Hruns' by lia.
  assert (forall p, p ∈ acc' -> all_complete p) as Hcomp'.
  { intros x (p & q & -> & Hp & Hq)%Hacc'. apply Forall_app. split; [by apply Hcomp|by apply Hps]. }
  destruct ((stop =? length input) || _); [by apply finish_spec|].
  destruct (apostrophes_end_spec input stop) as [Hend Hgap']; [lia|].
  destruct (negb _); [by apply finish_spec|]. by apply IH; [lia|lia|cbn; lia|..].
Qed.

(** C15. Where no partial syllable is complete, which holds unless one of three
    option bits is set, parsing any bytes stops without a panic. It returns
    between 1 and 4096 results, no two alike, or the error naming that limit.
    All results cover the same prefix of the input: syllables in order with
    only apostrophes between them, each complete one the syllable its bytes
    spell under the options, at most a last one partial and a proper prefix of
    the inventory; the remainder is the rest of the input. *)
Theorem parse_with_options_sound (input : bytes) (options : OptionBits) :
  (forall b, b ∈ overlap_bits -> contains options b = false) ->
  match parse_with_options input options with
  | Some (Ok rs) =>
      rs <> [] /\ length rs <= MAX_PARSE_RESULTS /\ NoDup rs /\
      exists to, to <= length input /\
        forall p, p ∈ rs -> parsed input options 0 (syllables p) to /\ remainder p = drop to input
  | Some (Err e) => e = TooManyAlternatives MAX_PARSE_RESULTS
  | None => False
  end.
Proof.
  intros Hno%safe_no_overlap.
  assert (runs input options [[]] 0) as Hruns.
  { pose proof limit_value. split_and!; [|apply NoDup_singleton|lia|].
    - split; [done|]. unfold OVER_LIMIT in *. cbn [length]. lia.
    - intros p ->%list_elem_of_singleton. constructor. }
  assert (forall p, p ∈ ([[]] : paths) -> all_complete p) as Hcomp.
  { intros p ->%list_elem_of_singleton. constructor. }
  enough (parse_spec input options (parse_with_options input options)) as H by exact H.
  unfold parse_with_options, parse_input. case_bool_decide as E.
  - destruct (apostrophes_end_spec input 0) as [Hend Hgap]; [lia|].
    destruct (negb _); [by apply finish_spec|]. by apply parse_groups_spec; [done|lia|lia|cbn; lia|..].
  - apply parse_groups_spec; [done|lia|lia|cbn; lia|intros i; cbn; lia|done..].
Qed.

Lemma parse_with_options_sound_witness :
  let input := str "'xi'anx?" in
  parse_with_options input OptionBits_default =
    Some (Ok [mk_result [mk_parsed (str "xi") 1 3 Complete; mk_parsed (str "an") 4 6 Complete;
                         mk_parsed (str "x") 6 7 Partial] (str "?")]) /\
  match parse_with_options input OptionBits_default with
  | Some (Ok rs) =>
      rs <> [] /\ length rs <= MAX_PARSE_RESULTS /\ NoDup rs /\
      exists to, to <= length input /\
        forall p, p ∈ rs -> parsed input OptionBits_default 0 (syllables p) to /\ remainder p = drop to input
  | Some (Err e) => e = TooManyAlternatives MAX_PARSE_RESULTS
  | None => False
  end.
Proof.
  split; [vm_compute; reflexivity|].
  apply (parse_with_options_sound (str "'xi'anx?") OptionBits_default). intros b _. done.
Defined.
