(* ===== verification/Kbest.v ===== *)
(** * Kbest: the k cheapest paths through a graph

    [crates/oxpinyin-core/src/kbest.rs]: a sweep over the positions keeps, for
    every edge, the [k] cheapest partial paths that end with it, as indexes
    into one arena of entries that point back to the entry they extend. The
    scorer is a parameter: the cost of an edge after the edge before it. *)

From Stdlib Require Import ZArith Lia Bool.
From stdpp Require Import base list.
From S2P Require Import Prelude Vocab Graph.

Definition MAX_K : nat := Z.to_nat 4096.

Inductive DecodeError : Type :=
  | KTooLarge (k limit : nat)
  | TooManyEdges (edges : nat)
  | TooManyEntries (k : nat).

(** [EdgeCost::cost]. *)
Definition EdgeCost : Type := option Edge -> Edge -> Z.

Record DecodedPath : Type := mk_decoded { decoded_cost : Z; decoded_edges : list nat }.

Record Entry : Type := mk_entry { cost : Z; last : option nat; previous : option nat }.

Definition first_entry : Entry := mk_entry 0 None None.

(** The indexes are [u32]. *)
Definition u32_index (n : nat) : bool := (Z.of_nat n <=? u32_max)%Z.

(** ** Which edges enter a node *)

Record Incoming : Type := mk_incoming { in_starts : list nat; in_ids : list nat }.

Definition at_ (l : list nat) (i : nat) : nat := default 0 (l !! i).

Definition count_edge (starts : list nat) (e : Edge) : list nat :=
  <[to e + 1 := S (at_ starts (to e + 1))]> starts.

Definition sum_node (starts : list nat) (node : nat) : list nat :=
  <[node + 1 := at_ starts (node + 1) + at_ starts node]> starts.

Definition place_edge (st : list nat * list nat) (edge : nat * Edge) : list nat * list nat :=
  let '(cursor, ids) := st in
  let slot := at_ cursor (to edge.2) in
  (<[to edge.2 := S slot]> cursor, <[slot := edge.1]> ids).

Definition incoming_index (g : SegmentGraph) : result Incoming DecodeError :=
  let n := length (edges g) in
  if negb (u32_index n) then Err (TooManyEdges n)
  else
    let starts := fold_left count_edge (edges g) (replicate (node_count g + 1) 0) in
    let starts := fold_left sum_node (seq 0 (node_count g)) starts in
    let '(_, ids) := fold_left place_edge (zip (seq 0 n) (edges g)) (starts, replicate n 0) in
    Ok (mk_incoming starts ids).

Definition states_at (incoming : Incoming) (node : nat) : list nat :=
  (if node =? 0 then [0] else []) ++
  match in_starts incoming !! node, in_starts incoming !! (node + 1) with
  | Some start, Some end_ => S <$> take (end_ - start) (drop start (in_ids incoming))
  | _, _ => []
  end.

(** ** The sweep *)

(** [sort_by_key]: stable. *)
Fixpoint insert_by_key {A} (key : A -> Z) (x : A) (l : list A) : list A :=
  match l with
  | [] => [x]
  | y :: l' => if (key x <=? key y)%Z then x :: l else y :: insert_by_key key x l'
  end.

Definition sort_by_key {A} (key : A -> Z) (l : list A) : list A := foldr (insert_by_key key) [] l.

(** A fold that stops at the first error. *)
Fixpoint fold_result {S A E} (f : S -> A -> result S E) (l : list A) (s : S) : result S E :=
  match l with
  | [] => Ok s
  | x :: l => match f s x with Ok s => fold_result f l s | Err e => Err e end
  end.

Record Sweep : Type := mk_sweep { arena : list Entry; buckets : list (list nat) }.

Definition entry_at (arena : list Entry) (i : nat) : Entry := default first_entry (arena !! i).
Definition bucket (st : Sweep) (state : nat) : list nat := default [] (buckets st !! state).

Definition rank_state (k : nat) (st : Sweep) (state : nat) : Sweep :=
  mk_sweep (arena st)
    (<[state := take k (sort_by_key (fun i => cost (entry_at (arena st) i)) (bucket st state))]>
       (buckets st)).

Section sweep.
Context (g : SegmentGraph) (scorer : EdgeCost) (k target : nat).

Definition extend_edge (entry_index : nat) (st : Sweep) (edge_id : nat) : result Sweep DecodeError :=
  let entry := entry_at (arena st) entry_index in
  let previous := id ← last entry; edge g id in
  match edge g edge_id with
  | None => Ok st
  | Some e =>
      if target <? to e then Ok st
      else
        let index := length (arena st) in
        if negb (u32_index index) then Err (TooManyEntries k)
        else
          Ok (mk_sweep
            (arena st ++ [mk_entry (sat_add64 (cost entry) (scorer previous e))
                                   (Some edge_id) (Some entry_index)])
            (<[edge_id + 1 := bucket st (edge_id + 1) ++ [index]]> (buckets st)))
  end.

Definition extend_entry (node : nat) (st : Sweep) (entry_index : nat) : result Sweep DecodeError :=
  fold_result (extend_edge entry_index) (outgoing_ids g node) st.

Definition extend_state (node : nat) (st : Sweep) (state : nat) : result Sweep DecodeError :=
  fold_result (extend_entry node) (bucket st state) st.

Definition sweep_node (incoming : Incoming) (st : Sweep) (node : nat) : result Sweep DecodeError :=
  let st := fold_left (rank_state k) (states_at incoming node) st in
  if node =? target then Ok st
  else fold_result (extend_state node) (states_at incoming node) st.

(** [reconstruct]: an entry points to an earlier one, so the walk takes at
    most one step more than its index. *)
Fixpoint walk_entries (fuel : nat) (arena : list Entry) (cursor : option nat) : list nat :=
  match fuel, cursor with
  | S fuel, Some current =>
      let entry := entry_at arena current in
      option_list (last entry) ++ walk_entries fuel arena (previous entry)
  | _, _ => []
  end.

Definition reconstruct (arena : list Entry) (index : nat) : DecodedPath :=
  mk_decoded (cost (entry_at arena index)) (reverse (walk_entries (S index) arena (Some index))).

Definition k_best_to : result (list DecodedPath) DecodeError :=
  if MAX_K <? k then Err (KTooLarge k MAX_K)
  else if (k =? 0) || (node_count g <=? target) then Ok []
  else
    match incoming_index g with
    | Err e => Err e
    | Ok incoming =>
        let st := mk_sweep [first_entry] (<[0 := [0]]> (replicate (length (edges g) + 1) [])) in
        match fold_result (sweep_node incoming) (seq 0 (target + 1)) st with
        | Err e => Err e
        | Ok st =>
            let finalists := states_at incoming target ≫= bucket st in
            let finalists :=
              take k (sort_by_key (fun i => cost (entry_at (arena st) i)) finalists) in
            Ok (reconstruct (arena st) <$> finalists)
        end
    end.
End sweep.

Definition k_best (g : SegmentGraph) (scorer : EdgeCost) (k : nat)
    : result (list DecodedPath) DecodeError :=
  k_best_to g scorer k (consumed g).
