(* ===== verification/KbestSweep.v ===== *)
(** * KbestSweep: the index, the paths and the sweep of the k-best search

    What the incoming index holds, the paths of a graph with their costs, and
    that the sweep over the buckets keeps the cheapest of them. *)

From Stdlib Require Import ZArith Lia Bool.
From stdpp Require Import base list sorting.
From S2P Require Import Prelude Options Vocab Graph GraphBuild Kbest.

(** ** Counts of targets *)

(** The edges before [j] that enter [v]. *)
Definition entering (es : list Edge) (v j : nat) : list nat :=
  filter (fun i => to <$> es !! i = Some v) (seq 0 j).

(** How many edges enter a node below [v]. *)
Definition before (es : list Edge) (v : nat) : nat :=
  sum_list_with (fun u => length (entering es u (length es))) (seq 0 v).

Lemma entering_S es v j :
  entering es v (S j) = entering es v j ++ (if decide (to <$> es !! j = Some v) then [j] else []).
Proof. unfold entering. rewrite seq_S, filter_app. done. Qed.

Lemma entering_le es v j m : j <= m -> length (entering es v j) <= length (entering es v m).
Proof.
  induction 1 as [|m _ IH]; [done|]. rewrite entering_S, length_app. lia.
Qed.

Lemma before_S es v : before es (S v) = before es v + length (entering es v (length es)).
Proof. unfold before. rewrite seq_S, sum_list_with_app. simpl. lia. Qed.

Lemma before_le es v w : v <= w -> before es v <= before es w.
Proof. induction 1 as [|w _ IH]; [done|]. rewrite before_S. lia. Qed.

Lemma entering_app es e v :
  entering (es ++ [e]) v (S (length es)) =
  entering es v (length es) ++ (if decide (to e = v) then [length es] else []).
Proof.
  rewrite entering_S. f_equal.
  - unfold entering. apply filter_ext_in. intros i Hi%elem_of_seq. by rewrite lookup_app_l by lia.
  - rewrite list_lookup_middle by done. simpl.
    destruct (decide (to e = v)) as [->|Hne]; [by rewrite decide_True|].
    rewrite decide_False; [done|congruence].
Qed.

Section index.
Context (es : list Edge) (nodes : nat) (Hto : Forall (fun e => to e < nodes) es).

(** Every edge enters one of the nodes. *)
Lemma before_nodes : before es nodes = length es.
Proof using Hto.
  unfold before. revert Hto. induction es as [|e l IH] using rev_ind; intros Hall.
  { clear. by induction (seq 0 nodes). }
  apply Forall_app in Hall as [Hl [He _]%Forall_cons].
  rewrite length_app. cbn [length]. rewrite Nat.add_1_r.
  assert (forall n, n <= nodes ->
    sum_list_with (fun u => length (entering (l ++ [e]) u (S (length l)))) (seq 0 n) =
    sum_list_with (fun u => length (entering l u (length l))) (seq 0 n) + (if to e <? n then 1 else 0)) as Hsum.
  { induction n as [|n IHn]; intros Hn; [done|].
    rewrite seq_S, !sum_list_with_app, IHn by lia. cbn [sum_list_with Nat.add].
    rewrite entering_app, length_app.
    destruct (decide (to e = n)), (Nat.ltb_spec (to e) n), (Nat.ltb_spec (to e) (S n)); simpl; lia. }
  rewrite Hsum, IH by done. rewrite (proj2 (Nat.ltb_lt _ _)) by done. lia.
Qed.

(** After counting, the slot past a node holds how many edges enter it. *)
Lemma count_edges_spec :
  let s := fold_left count_edge es (replicate (nodes + 1) 0) in
  length s = nodes + 1 /\
  forall v, v < nodes -> at_ s 0 = 0 /\ at_ s (v + 1) = length (entering es v (length es)).
Proof using Hto.
  cbv zeta. revert Hto. induction es as [|e l IH] using rev_ind; intros Hall.
  { cbn [fold_left]. split; [apply length_replicate|]. intros v Hv.
    unfold at_. rewrite !lookup_replicate_2 by lia. done. }
  apply Forall_app in Hall as [Hl [He _]%Forall_cons]. destruct (IH Hl) as [IHl IHs]. clear IH.
  rewrite fold_left_app. cbn [fold_left]. set (s := fold_left _ l _) in *.
  unfold count_edge. split; [by rewrite length_insert|]. intros v Hv.
  rewrite length_app. cbn [length]. rewrite (Nat.add_1_r (length l)), entering_app, length_app.
  destruct (IHs v Hv) as [H0 Hs]. destruct (IHs (to e) He) as [_ Hse]. unfold at_ in *. split.
  - by rewrite list_lookup_insert_ne by lia.
  - destruct (decide (to e = v)) as [->|Hne].
    + rewrite list_lookup_insert_eq by lia. simpl. rewrite Hs. lia.
    + rewrite list_lookup_insert_ne by lia. rewrite Hs. simpl. lia.
Qed.

(** After the running sum, it holds how many enter a node up to it. *)
Lemma sum_nodes_spec s :
  length s = nodes + 1 -> at_ s 0 = 0 ->
  (forall v, v < nodes -> at_ s (v + 1) = length (entering es v (length es))) ->
  let s' := fold_left sum_node (seq 0 nodes) s in
  length s' = nodes + 1 /\ forall v, v <= nodes -> s' !! v = Some (before es v).
Proof.
  intros Hl H0 Hs. cbv zeta.
  assert (forall n, n <= nodes ->
    let s' := fold_left sum_node (seq 0 n) s in
    length s' = nodes + 1 /\ (forall v, v <= n -> at_ s' v = before es v) /\
    (forall v, n < v -> at_ s' v = at_ s v)) as H.
  { induction n as [|n IH]; intros Hn.
    - cbn [seq fold_left]. split_and!; [done| |done]. intros v Hv. by replace v with 0 by lia.
    - rewrite seq_S, fold_left_app. cbn [fold_left]. cbv zeta in *. destruct (IH ltac:(lia)) as (Hl' & Hb & Hr).
      set (s' := fold_left _ _ s) in *. unfold sum_node. cbn [Nat.add].
      split_and!; [by rewrite length_insert|..]; intros v Hv; unfold at_ at 1.
      + destruct (decide (v = n + 1)) as [->|Hne].
        * rewrite list_lookup_insert_eq by lia. cbn [default from_option id].
          rewrite Hr, Hs, Hb by lia. rewrite Nat.add_1_r, before_S. lia.
        * rewrite list_lookup_insert_ne by lia. apply Hb. lia.
      + rewrite list_lookup_insert_ne by lia. apply Hr. lia. }
  destruct (H nodes (le_n _)) as (Hl' & Hb & _). split; [done|]. intros v Hv.
  destruct (lookup_lt_is_Some_2 (fold_left sum_node (seq 0 nodes) s) v) as [x Hx]; [lia|].
  specialize (Hb v Hv). unfold at_ in Hb. rewrite Hx in *. simpl in Hb. congruence.
Qed.

(** The ids placed so far: each group in order from its node's slot. *)
Definition placed (j : nat) (st : list nat * list nat) : Prop :=
  length st.1 = nodes + 1 /\ length st.2 = length es /\
  (forall v, v < nodes -> at_ st.1 v = before es v + length (entering es v j)) /\
  (forall v r i, v < nodes -> entering es v j !! r = Some i -> st.2 !! (before es v + r) = Some i).

Lemma place_edge_spec j e st :
  es !! j = Some e -> placed j st -> placed (S j) (place_edge st (j, e)).
Proof using Hto.
  intros He (Hlc & Hli & Hc & Hi). destruct st as [cursor ids]. unfold place_edge. cbn [fst snd] in *.
  assert (to e < nodes) as Ht by by apply (Forall_lookup_1 _ _ _ _ Hto He).
  assert (to <$> es !! j = Some (to e)) as Hej by by rewrite He.
  assert (forall v, length (entering es v (S j)) <= length (entering es v (length es))) as Hle.
  { intros v. apply entering_le. apply lookup_lt_Some in He. lia. }
  split_and!; cbn [fst snd]; [by rewrite length_insert..| |].
  - intros v Hv. rewrite entering_S, length_app, Hej. destruct (decide (to e = v)) as [->|Hne].
    + rewrite decide_True by done. unfold at_ at 1. rewrite list_lookup_insert_eq by lia. cbn [default from_option id length]. specialize (Hc v Hv). lia.
    + rewrite decide_False by congruence. unfold at_ at 1. rewrite list_lookup_insert_ne by done.
      fold (at_ cursor v). rewrite Hc by done. simpl. lia.
  - intros v r i Hv. rewrite entering_S, Hej, Hc by done. destruct (decide (to e = v)) as [<-|Hne].
    + rewrite decide_True by done. intros Hr. destruct (decide (r < length (entering es (to e) j))) as [Hlt|Hge].
      * rewrite lookup_app_l in Hr by done. rewrite list_lookup_insert_ne by lia. by apply Hi.
      * pose proof Hr as Hrl%lookup_lt_Some. rewrite length_app in Hrl. cbn [length] in Hrl.
        replace r with (length (entering es (to e) j)) in * by lia.
        rewrite list_lookup_middle in Hr by done. injection Hr as <-. apply list_lookup_insert_eq.
        rewrite Hli, <- before_nodes. specialize (Hle (to e)). rewrite entering_S, Hej, length_app in Hle. rewrite decide_True in Hle by done.
        cbn [length] in Hle. pose proof (before_le es (S (to e)) nodes ltac:(lia)). rewrite before_S in *. lia.
    + rewrite decide_False, app_nil_r by congruence. intros Hr. pose proof Hr as Hrl%lookup_lt_Some.
      rewrite list_lookup_insert_ne; [by apply Hi|]. specialize (Hle v) as Hv'. specialize (Hle (to e)).
      rewrite !entering_S, Hej, !length_app, decide_True in Hle by done. rewrite entering_S, length_app in Hv'.
      cbn [length] in Hle. pose proof (before_S es v). pose proof (before_S es (to e)).
      destruct (decide (v < to e)) as [Hlt|Hge].
      * pose proof (before_le es (S v) (to e) Hlt). lia.
      * pose proof (before_le es (S (to e)) v ltac:(lia)). lia.
Qed.

Lemma place_edges_spec st :
  placed 0 st -> placed (length es) (fold_left place_edge (zip (seq 0 (length es)) es) st).
Proof using Hto.
  intros H0.
  assert (forall n l, n + length l = length es -> drop n es = l -> forall st, placed n st ->
    placed (length es) (fold_left place_edge (zip (seq n (length l)) l) st)) as H.
  { intros n l. revert n. induction l as [|e l IH]; intros n Hn Hd st' Hst.
    - cbn [length] in Hn. rewrite Nat.add_0_r in Hn. by subst n.
    - cbn [length] in *. cbn [seq zip zip_with fold_left]. apply IH; [lia| |].
      + rewrite <- (Nat.add_1_r n), <- drop_drop, Hd. done.
      + apply place_edge_spec; [|done]. rewrite <- (Nat.add_0_r n), <- lookup_drop, Hd. done. }
  by apply (H 0 es).
Qed.
End index.

(** ** What the index answers *)

Definition states_of (g : SegmentGraph) (node : nat) : list nat :=
  (if node =? 0 then [0] else []) ++ (S <$> entering (edges g) node (length (edges g))).

Lemma incoming_index_spec g :
  Forall (fun e => to e < node_count g) (edges g) ->
  match incoming_index g with
  | Err e => (u32_max < Z.of_nat (length (edges g)))%Z /\ e = TooManyEdges (length (edges g))
  | Ok incoming => forall node, node < node_count g -> states_at incoming node = states_of g node
  end.
Proof.
  intros Hto. unfold incoming_index, u32_index. cbv zeta.
  destruct (Z.leb_spec (Z.of_nat (length (edges g))) u32_max) as [Hn|Hn]; cbn [negb]; [|done].
  destruct (count_edges_spec (edges g) (node_count g) Hto) as [Hl Hs].
  set (s := fold_left count_edge _ _) in *.
  destruct (sum_nodes_spec (edges g) (node_count g) s) as [Hl' Hb]; [done| |intros v Hv; by apply Hs|].
  { destruct (Hs 0) as [? _]; [|done]. unfold node_count. lia. }
  set (s' := fold_left sum_node _ s) in *.
  pose proof (place_edges_spec (edges g) (node_count g) Hto (s', replicate (length (edges g)) 0)) as Hp.
  destruct (fold_left place_edge _ _) as [cursor ids].
  destruct Hp as (_ & Hli & _ & Hi).
  { split_and!; cbn [fst snd]; [done|by rewrite length_replicate| |by intros v [|r] i _].
    intros v Hv. unfold at_. rewrite Hb by lia. simpl. lia. }
  intros node Hnode. unfold states_at, states_of. cbn [in_starts in_ids fst snd] in *. f_equal.
  rewrite !Hb by lia. f_equal. rewrite Nat.add_1_r, before_S, (Nat.add_comm (before _ _)), Nat.add_sub.
  apply list_eq_same_length with (n := length (entering (edges g) node (length (edges g)))); [done| |].
  - rewrite length_take, length_drop, Hli. pose proof (before_le (edges g) (S node) (node_count g) Hnode) as Hle.
    rewrite (before_nodes _ _ Hto), before_S in Hle. lia.
  - intros r x y Hr Hx Hy. rewrite lookup_take_lt, lookup_drop in Hx by done.
    specialize (Hi node r y Hnode Hy). congruence.
Qed.

(** ** Edge ids of a built graph *)

(** What the sweep uses of a graph: the ids leaving a node, and that edges run
    forward inside the input. *)
Record linked (g : SegmentGraph) : Prop := {
  linked_ids : forall i node,
    i ∈ outgoing_ids g node <-> exists e, edge g i = Some e /\ from e = node;
  linked_forward : forall i e, edge g i = Some e -> from e < to e < node_count g
}.

Lemma edge_at_offset E N n r :
  n < N -> r < length (E n) -> (seq 0 N ≫= E) !! (offset E n + r) = E n !! r.
Proof.
  intros Hn Hr. rewrite <- (bind_seq_slice E N n) by done.
  rewrite lookup_take_lt, lookup_drop by done. done.
Qed.

Lemma offset_find E N i :
  i < offset E N -> exists n, n < N /\ offset E n <= i < offset E (S n).
Proof.
  induction N as [|N IH]; intros Hid; [unfold offset in Hid; simpl in Hid; lia|].
  destruct (decide (i < offset E N)) as [Hlt|Hge].
  - destruct (IH Hlt) as (n & Hn & Hb). exists n. split; [lia|done].
  - exists N. split; [lia|lia].
Qed.

Lemma indexed_linked g E : indexed g E -> linked g.
Proof.
  intros [He Hs Hf].
  assert (forall n i, n < node_count g -> offset E n <= i < offset E (S n) ->
    exists e, edge g i = Some e /\ from e = n /\ n < to e <= input_len g) as Hat.
  { intros n i Hn Hid. rewrite offset_S in Hid. destruct (lookup_lt_is_Some_2 (E n) (i - offset E n)) as [e Hx]; [lia|].
    exists e. split; [|by apply Hf; eapply list_elem_of_lookup_2].
    unfold edge. rewrite He. replace i with (offset E n + (i - offset E n)) by lia.
    rewrite edge_at_offset by lia. done. }
  assert (forall i e, edge g i = Some e -> exists n, n < node_count g /\ offset E n <= i < offset E (S n)) as Hfind.
  { intros i e Hid. apply offset_find. apply lookup_lt_Some in Hid. by rewrite He in Hid. }
  split.
  - intros i node. unfold outgoing_ids. rewrite Hs, !list_lookup_fmap, elem_of_seq.
    destruct (decide (node < node_count g)) as [Hn|Hn].
    + rewrite !lookup_seq_lt by lia. cbn [fmap option_fmap option_map default from_option id Nat.add].
      rewrite Nat.add_1_r, Nat.max_l by (apply offset_le; lia).
      pose proof (offset_le E node (S node) ltac:(lia)). split.
      * intros Hid. destruct (Hat node i) as (e & Hx & Hfr & _); [done|lia|by exists e].
      * intros (e & Hx & <-). destruct (Hfind i e Hx) as (n & Hn' & Hid).
        destruct (Hat n i Hn' Hid) as (e' & Hx' & <- & _). rewrite Hx in Hx'. injection Hx' as <-. lia.
    + rewrite (lookup_ge_None_2 _ (node + 1)) by (rewrite length_seq; lia).
      split; [cbn; lia|]. intros (e & Hx & <-). destruct (Hfind i e Hx) as (n & Hn' & Hid).
      destruct (Hat n i Hn' Hid) as (e' & Hx' & <- & _). rewrite Hx in Hx'. by injection Hx' as <-.
  - intros i e Hx. destruct (Hfind i e Hx) as (n & Hn' & Hid).
    destruct (Hat n i Hn' Hid) as (e' & Hx' & Hfr & Ht). rewrite Hx in Hx'. injection Hx' as <-.
    unfold node_count in *. lia.
Qed.

Lemma linked_to g : linked g -> Forall (fun e => to e < node_count g) (edges g).
Proof. intros [_ Hf]. apply Forall_lookup. intros i e He. by apply (Hf i e). Qed.

(** ** Sorting by key *)

Lemma insert_by_key_perm {A} (key : A -> Z) x l : insert_by_key key x l ≡ₚ x :: l.
Proof.
  induction l as [|y l IH]; [done|]. simpl. destruct (_ <=? _)%Z; [done|].
  rewrite IH. constructor.
Qed.

Lemma sort_by_key_perm {A} (key : A -> Z) l : sort_by_key key l ≡ₚ l.
Proof. induction l as [|x l IH]; [done|]. cbn [sort_by_key foldr]. by rewrite insert_by_key_perm, IH. Qed.

Definition by_key {A} (key : A -> Z) : A -> A -> Prop := fun x y => (key x <= key y)%Z.

Lemma insert_by_key_sorted {A} (key : A -> Z) x l :
  StronglySorted (by_key key) l -> StronglySorted (by_key key) (insert_by_key key x l).
Proof.
  induction 1 as [|y l Hl IH Hy]; simpl; [by repeat constructor|].
  destruct (Z.leb_spec (key x) (key y)) as [Hle|Hlt].
  - constructor; [by constructor|]. constructor; [done|].
    eapply Forall_impl; [exact Hy|]. unfold by_key. intros. lia.
  - constructor; [done|]. rewrite insert_by_key_perm. constructor; [unfold by_key; lia|done].
Qed.

Lemma sort_by_key_sorted {A} (key : A -> Z) l : StronglySorted (by_key key) (sort_by_key key l).
Proof. induction l as [|x l IH]; [constructor|]. by apply insert_by_key_sorted. Qed.

Lemma insert_by_key_fmap {A B} (f : A -> B) (key : B -> Z) x l :
  f <$> insert_by_key (key ∘ f) x l = insert_by_key key (f x) (f <$> l).
Proof. induction l as [|y l IH]; [done|]. simpl. destruct (_ <=? _)%Z; [done|]. simpl. f_equal. exact IH. Qed.

Lemma insert_by_key_ext {A} (key key' : A -> Z) x l :
  key x = key' x -> (forall y, y ∈ l -> key y = key' y) ->
  insert_by_key key x l = insert_by_key key' x l.
Proof.
  intros Hx Hl. induction l as [|y l IH]; [done|]. simpl.
  rewrite Hx, (Hl y) by by left. rewrite IH; [done|]. intros z Hz. apply Hl. by right.
Qed.

Lemma sort_by_key_fmap {A B} (f : A -> B) (key : B -> Z) (key' : A -> Z) l :
  (forall x, x ∈ l -> key' x = key (f x)) ->
  f <$> sort_by_key key' l = sort_by_key key (f <$> l).
Proof.
  induction l as [|x l IH]; intros Hk; [done|]. cbn [sort_by_key foldr fmap list_fmap].
  change (foldr (insert_by_key key') [] l) with (sort_by_key key' l).
  change (foldr (insert_by_key key) [] (f <$> l)) with (sort_by_key key (f <$> l)).
  rewrite (insert_by_key_ext _ (key ∘ f)), insert_by_key_fmap, IH; [done|..].
  - intros y Hy. apply Hk. by right.
  - apply Hk. by left.
  - intros y. rewrite sort_by_key_perm. intros Hy. apply Hk. by right.
Qed.

(** ** The best of a set *)

(** [B] holds [k] cheapest elements of [P], or all of them. *)
Record kbest {A} (c : A -> Z) (k : nat) (P : A -> Prop) (B : list A) : Prop := {
  kbest_in : forall p, p ∈ B -> P p;
  kbest_nodup : NoDup B;
  kbest_length : length B <= k;
  kbest_least : forall q, P q -> q ∈ B \/ (length B = k /\ forall p, p ∈ B -> (c p <= c q)%Z)
}.

(** [U] holds enough of [P] to pick them from. *)
Record covers {A} (c : A -> Z) (k : nat) (P : A -> Prop) (U : list A) : Prop := {
  covers_in : forall p, p ∈ U -> P p;
  covers_nodup : NoDup U;
  covers_least : forall q, P q -> q ∈ U \/ k <= length (filter (fun p => (c p <= c q)%Z) U)
}.

Lemma sorted_app_elem {A} (R : A -> A -> Prop) l1 l2 x y :
  StronglySorted R (l1 ++ l2) -> x ∈ l1 -> y ∈ l2 -> R x y.
Proof.
  induction l1 as [|z l1 IH]; intros Hs Hx Hy; [by apply not_elem_of_nil in Hx|].
  inversion Hs as [|? ? Hs' Hz]; subst. rewrite Forall_forall in Hz.
  apply elem_of_cons in Hx as [->|Hx]; [apply Hz, elem_of_app; by right|by apply IH].
Qed.

Lemma rank_covers {A} (c : A -> Z) k P U :
  covers c k P U -> kbest c k P (take k (sort_by_key c U)).
Proof.
  intros [Hin Hnd Hleast]. pose proof (sort_by_key_perm c U) as Hperm.
  pose proof (sort_by_key_sorted c U) as Hs. set (L := sort_by_key c U) in *.
  assert (forall x y, x ∈ take k L -> y ∈ drop k L -> (c x <= c y)%Z) as Hcut.
  { intros x y. apply (sorted_app_elem (by_key c)). by rewrite take_drop. }
  split.
  - intros p Hp. apply Hin. rewrite <- Hperm, <- (take_drop k L). apply elem_of_app. by left.
  - apply (sublist_NoDup _ L); [by rewrite Hperm|apply sublist_take].
  - rewrite length_take. lia.
  - intros q Hq. destruct (Hleast q Hq) as [HU|Hk].
    + rewrite <- Hperm, <- (take_drop k L) in HU. apply elem_of_app in HU as [HU|HU]; [by left|right].
      split; [|by intros p Hp; apply Hcut]. pose proof (list_elem_of_lookup_1 _ _ HU) as [r Hr%lookup_lt_Some].
      rewrite length_drop in Hr. rewrite length_take. lia.
    + right. rewrite <- Hperm in Hk. pose proof (length_filter (fun p => (c p <= c q)%Z) L) as Hle.
      split; [rewrite length_take; lia|]. intros p Hp. destruct (decide (c p <= c q)%Z) as [|Hgt]; [done|exfalso].
      rewrite <- (take_drop k L), filter_app, length_app in Hk.
      assert (filter (fun p => (c p <= c q)%Z) (drop k L) = []) as Hd.
      { apply filter_none, Forall_forall. intros y Hy. specialize (Hcut p y Hp Hy). lia. }
      pose proof (length_filter_lt (fun p => (c p <= c q)%Z) _ p Hp Hgt) as Hlt.
      rewrite Hd, length_take in *. simpl in *. lia.
Qed.

(** Extending the best of each part covers the extensions of the whole. *)
Lemma covers_bind {S A} (ss : list S) (P : S -> A -> Prop) (B : S -> list A) (f : A -> A) c k Q :
  NoDup ss -> (forall s, s ∈ ss -> kbest c k (P s) (B s)) -> (forall p q, f p = f q -> p = q) ->
  (forall s p q, P s p -> P s q -> (c p <= c q)%Z -> (c (f p) <= c (f q))%Z) ->
  (forall s s' p, P s p -> P s' p -> s = s') ->
  (forall q, Q q <-> exists s p, s ∈ ss /\ P s p /\ q = f p) ->
  covers c k Q (ss ≫= fun s => f <$> B s).
Proof.
  intros Hss HB Hinj Hmono Hdisj HQ. split.
  - intros q (s & (p & -> & Hp)%list_elem_of_fmap & Hs)%list_elem_of_bind. apply HQ. exists s, p.
    split_and!; [done| |done]. by apply (HB s).
  - apply NoDup_bind; [|intros s Hs; apply NoDup_fmap_2; [exact Hinj|by apply (HB s)]|done].
    intros s s' q Hs Hs' (p & -> & Hp)%list_elem_of_fmap (p' & E%Hinj & Hp')%list_elem_of_fmap. subst p'.
    by apply (Hdisj s s' p); [apply (HB s)|apply (HB s')].
  - intros q (s & p & Hs & Hp & ->)%HQ. destruct (kbest_least _ _ _ _ (HB s Hs) p Hp) as [Hin|[Hlen Hle]].
    + left. apply list_elem_of_bind. exists s. split; [by apply list_elem_of_fmap_2|done].
    + right. apply list_elem_of_split in Hs as (l1 & l2 & ->).
      rewrite bind_app, bind_cons, !filter_app, !length_app.
      assert (filter (fun p' => (c p' <= c (f p))%Z) (f <$> B s) = f <$> B s) as ->.
      { apply filter_all, Forall_forall. intros x (p' & -> & Hp')%list_elem_of_fmap. apply (Hmono s); [|done|by apply Hle].
        apply (HB s); [apply elem_of_app; right; by left|done]. }
      rewrite length_fmap. lia.
Qed.

(** ** Paths of edge ids *)

(** [p] joins [a] to [b], each edge leaving where the one before enters. *)
Fixpoint id_path (g : SegmentGraph) (a b : nat) (p : list nat) : Prop :=
  match p with
  | [] => a = b
  | i :: p => exists e, edge g i = Some e /\ from e = a /\ id_path g (to e) b p
  end.

Definition extend_cost (g : SegmentGraph) (scorer : EdgeCost) (st : Z * option Edge) (i : nat)
    : Z * option Edge :=
  match edge g i with
  | Some e => (sat_add64 st.1 (scorer st.2 e), Some e)
  | None => st
  end.

(** The cost of a path and its last edge: each edge is charged after the one
    before it, saturating. *)
Definition walk_cost (g : SegmentGraph) (scorer : EdgeCost) (p : list nat) : Z * option Edge :=
  fold_left (extend_cost g scorer) p (0%Z, None).

Definition path_cost (g : SegmentGraph) (scorer : EdgeCost) (p : list nat) : Z :=
  (walk_cost g scorer p).1.

(** A path from the start in a state: at the start, or by its last edge. *)
Definition arrives (g : SegmentGraph) (s : nat) (p : list nat) : Prop :=
  match s with
  | O => p = []
  | S i => exists q e, p = q ++ [i] /\ edge g i = Some e /\ id_path g 0 (from e) q
  end.

Section paths.
Context (g : SegmentGraph) (scorer : EdgeCost).

Lemma id_path_snoc a b p i :
  id_path g a b (p ++ [i]) <-> exists e, edge g i = Some e /\ to e = b /\ id_path g a (from e) p.
Proof. revert a. induction p as [|j p IH]; intros a; simpl; [naive_solver|]. setoid_rewrite IH. naive_solver. Qed.

Lemma states_of_elem n s :
  s ∈ states_of g n <->
  match s with O => n = 0 | S i => exists e, edge g i = Some e /\ to e = n end.
Proof.
  unfold states_of, entering. rewrite elem_of_app, list_elem_of_fmap. setoid_rewrite list_elem_of_filter.
  setoid_rewrite elem_of_seq. destruct s as [|i].
  - destruct (Nat.eqb_spec n 0); [rewrite list_elem_of_singleton; naive_solver|].
    split; [intros [?%not_elem_of_nil|(? & ? & _)]; done|done].
  - unfold edge. split.
    + intros [H|(j & [= <-] & He & _)].
      * destruct (n =? 0); [by apply list_elem_of_singleton in H|by apply not_elem_of_nil in H].
      * destruct (edges g !! i) as [e|]; [|done]. injection He as He. by exists e.
    + intros (e & He & Ht). right. exists i. rewrite He. split; [done|]. split; [by rewrite <- Ht|].
      apply lookup_lt_Some in He. lia.
Qed.

Lemma states_of_nodup n : NoDup (states_of g n).
Proof.
  unfold states_of. apply NoDup_app. split_and!.
  - destruct (n =? 0); [apply NoDup_singleton|constructor].
  - intros s Hs (i & -> & _)%list_elem_of_fmap.
    destruct (n =? 0); [by apply list_elem_of_singleton in Hs|by apply not_elem_of_nil in Hs].
  - apply NoDup_fmap_2; [by intros ?? [=]|]. apply NoDup_filter, NoDup_seq.
Qed.

Lemma arrives_at n p : id_path g 0 n p <-> exists s, s ∈ states_of g n /\ arrives g s p.
Proof.
  setoid_rewrite states_of_elem. destruct p as [|j p _] using rev_ind.
  - simpl. split; [intros <-; by exists 0|]. intros ([|i] & H & Ha); [done|].
    destruct Ha as (q & e & E & _). by destruct q.
  - rewrite id_path_snoc. split.
    + intros (e & He & Ht & Hp). exists (S j). split; [by exists e|]. by exists p, e.
    + intros ([|i] & H & Ha); [by apply app_nil in Ha as [_ ?]|]. destruct H as (e & He & Ht).
      destruct Ha as (q & e' & E & He' & Hq). apply app_inj_tail in E as [-> ->].
      exists e. split_and!; [done..|]. congruence.
Qed.

Lemma arrives_snoc i e p :
  edge g i = Some e ->
  arrives g (S i) p <-> exists s q, s ∈ states_of g (from e) /\ arrives g s q /\ p = q ++ [i].
Proof.
  intros He. simpl. split.
  - intros (q & e' & -> & He' & Hq). rewrite He in He'. injection He' as <-.
    apply arrives_at in Hq as (s & Hs & Ha). by exists s, q.
  - intros (s & q & Hs & Ha & ->). exists q, e. split_and!; [done..|]. apply arrives_at. by exists s.
Qed.

Lemma arrives_unique s s' p : arrives g s p -> arrives g s' p -> s = s'.
Proof.
  destruct s as [|i], s' as [|j]; simpl; [done|..].
  - intros -> (q & e & E & _). by destruct q.
  - intros (q & e & -> & _) E. by destruct q.
  - intros (q & e & -> & _) (q' & e' & E & _). by apply app_inj_tail in E as [_ ->].
Qed.

Lemma walk_cost_snoc p i : walk_cost g scorer (p ++ [i]) = extend_cost g scorer (walk_cost g scorer p) i.
Proof. unfold walk_cost. by rewrite fold_left_app. Qed.

Lemma arrives_last s p q : arrives g s p -> arrives g s q -> (walk_cost g scorer p).2 = (walk_cost g scorer q).2.
Proof.
  destruct s as [|i]; simpl; [by intros -> ->|].
  intros (p' & e & -> & He & _) (q' & e' & -> & _). rewrite !walk_cost_snoc. unfold extend_cost. by rewrite He.
Qed.

(** Paths to one state extend in the order of their costs. *)
Lemma path_cost_mono s p q i :
  arrives g s p -> arrives g s q -> (path_cost g scorer p <= path_cost g scorer q)%Z ->
  (path_cost g scorer (p ++ [i]) <= path_cost g scorer (q ++ [i]))%Z.
Proof.
  intros Hp Hq Hle. unfold path_cost in *. rewrite !walk_cost_snoc. unfold extend_cost.
  rewrite (arrives_last s p q Hp Hq). destruct (edge g i); [|done]. by apply sat_add64_mono.
Qed.
End paths.

(** ** Entries as paths *)

(** Entries point to earlier ones. *)
Definition linked_back (a : list Entry) : Prop :=
  forall n e j, a !! n = Some e -> previous e = Some j -> j < n.

Definition path_of (a : list Entry) (n : nat) : list nat := decoded_edges (reconstruct a n).

Lemma entry_at_lookup a n e : a !! n = Some e -> entry_at a n = e.
Proof. unfold entry_at. by intros ->. Qed.

Lemma walk_entries_fuel a fuel n :
  linked_back a -> n < length a -> n < fuel ->
  walk_entries fuel a (Some n) = walk_entries (S n) a (Some n).
Proof.
  intros Hl. revert fuel. induction n as [n IH] using lt_wf_ind. intros fuel Hn Hf.
  destruct fuel as [|fuel]; [lia|]. cbn [walk_entries]. f_equal.
  destruct (lookup_lt_is_Some_2 a n Hn) as [e He]. rewrite (entry_at_lookup a n e He).
  destruct (previous e) as [j|] eqn:Ej; [|by destruct fuel, n].
  pose proof (Hl n e j He Ej) as Hj. rewrite (IH j) by lia. symmetry. by rewrite (IH j) by lia.
Qed.

Lemma path_of_eq a n e :
  linked_back a -> a !! n = Some e ->
  path_of a n =
  match previous e with Some j => path_of a j | None => [] end ++ option_list (last e).
Proof.
  intros Hl He. unfold path_of, reconstruct. cbn [decoded_edges].
  cbn [walk_entries]. rewrite (entry_at_lookup a n e He). rewrite reverse_app.
  assert (reverse (option_list (last e)) = option_list (last e)) as -> by by destruct (last e).
  f_equal. destruct (previous e) as [j|] eqn:Ej; [|by destruct n].
  f_equal. pose proof (Hl n e j He Ej). apply walk_entries_fuel; [done| |done].
  apply lookup_lt_Some in He. lia.
Qed.

Lemma path_of_app a b n :
  linked_back (a ++ b) -> n < length a -> path_of (a ++ b) n = path_of a n.
Proof.
  intros Hl. assert (linked_back a) as Hl'.
  { intros m e j Hm. apply (Hl m). by apply lookup_app_l_Some. }
  induction n as [n IH] using lt_wf_ind. intros Hn.
  destruct (lookup_lt_is_Some_2 a n Hn) as [e He].
  rewrite (path_of_eq a n e Hl' He), (path_of_eq (a ++ b) n e Hl) by by apply lookup_app_l_Some.
  f_equal. destruct (previous e) as [j|] eqn:Ej; [|done]. pose proof (Hl' n e j He Ej). apply IH; lia.
Qed.

(** ** What the extensions add *)

Section sweep.
Context (g : SegmentGraph) (scorer : EdgeCost) (k target : nat).

Record valid (st : Sweep) : Prop := {
  valid_links : linked_back (arena st);
  valid_costs : forall n e, arena st !! n = Some e ->
    walk_cost g scorer (path_of (arena st) n) = (cost e, i ← last e; edge g i);
  valid_buckets : forall s n, n ∈ bucket st s -> n < length (arena st);
  valid_states : length (buckets st) = length (edges g) + 1
}.

Definition paths (st : Sweep) (s : nat) : list (list nat) := path_of (arena st) <$> bucket st s.

(** [st'] keeps the paths of [st] and adds [add s] to the state [s]. *)
Record grows (st st' : Sweep) (add : nat -> list (list nat)) : Prop := {
  grows_valid : valid st';
  grows_arena : length (arena st) <= length (arena st');
  grows_paths : forall n, n < length (arena st) -> path_of (arena st') n = path_of (arena st) n;
  grows_add : forall s, paths st' s = paths st s ++ add s
}.

Lemma grows_refl st : valid st -> grows st st (fun _ => []).
Proof. intros Hv. split; [done..|]. intros s. by rewrite app_nil_r. Qed.

Lemma grows_trans st1 st2 st3 add1 add2 :
  grows st1 st2 add1 -> grows st2 st3 add2 -> grows st1 st3 (fun s => add1 s ++ add2 s).
Proof.
  intros [V1 L1 P1 A1] [V2 L2 P2 A2]. split; [done|lia| |].
  - intros n Hn. rewrite P2, P1 by lia. done.
  - intros s. by rewrite A2, A1, app_assoc.
Qed.

Lemma grows_ext st st' add add' : (forall s, add s = add' s) -> grows st st' add -> grows st st' add'.
Proof. intros H [V L P A]. split; [done..|]. intros s. by rewrite A, H. Qed.

(** What extending [p] by the edges [ids] adds. *)
Definition added (ids : list nat) (s : nat) (p : list nat) : list (list nat) :=
  match s with
  | O => []
  | S i =>
      if decide (i ∈ ids) then
        match edge g i with
        | Some e => if target <? to e then [] else [p ++ [i]]
        | None => []
        end
      else []
  end.

Lemma bucket_insert st a s b s' :
  s < length (buckets st) ->
  bucket (mk_sweep a (<[s := b]> (buckets st))) s' = if decide (s' = s) then b else bucket st s'.
Proof.
  intros Hs. unfold bucket. cbn [buckets]. case_decide as E.
  - subst s'. by rewrite list_lookup_insert_eq.
  - by rewrite list_lookup_insert_ne.
Qed.

Lemma push_links a n en :
  linked_back a -> previous en = Some n -> n < length a -> linked_back (a ++ [en]).
Proof.
  intros Hl Hp Hn m e j [Hm|[Hm Hm']]%lookup_app_Some Hj; [by apply (Hl m e)|].
  apply list_lookup_singleton_Some in Hm' as [Hm0 <-]. rewrite Hp in Hj. injection Hj as <-. lia.
Qed.

Lemma extend_edge_grows st st' n i :
  valid st -> n < length (arena st) -> extend_edge g scorer k target n st i = Ok st' ->
  grows st st' (fun s => added [i] s (path_of (arena st) n)).
Proof.
  intros Hv Hn. unfold extend_edge, added. cbv zeta.
  destruct (edge g i) as [e|] eqn:Ei.
  2:{ intros [= <-]. eapply grows_ext; [|by apply grows_refl]. intros [|j]; [done|]. simpl.
      case_decide as Hj; [|done]. apply list_elem_of_singleton in Hj as ->. by rewrite Ei. }
  destruct (target <? to e) eqn:Et.
  { intros [= <-]. eapply grows_ext; [|by apply grows_refl]. intros [|j]; [done|]. simpl.
    case_decide as Hj; [|done]. apply list_elem_of_singleton in Hj as ->. by rewrite Ei, Et. }
  destruct (u32_index _); cbn [negb]; [|done]. intros [= <-]. rewrite Nat.add_1_r.
  destruct (lookup_lt_is_Some_2 (arena st) n Hn) as [en Hen]. rewrite (entry_at_lookup _ _ _ Hen).
  pose proof Hv as [Hl Hc Hb Hs].
  set (new := mk_entry _ (Some i) (Some n)).
  assert (linked_back (arena st ++ [new])) as Hl' by by apply (push_links _ n).
  assert (S i < length (buckets st)) as Hsi.
  { rewrite Hs. apply lookup_lt_Some in Ei. lia. }
  assert (path_of (arena st ++ [new]) (length (arena st)) = path_of (arena st) n ++ [i]) as Hnew.
  { rewrite (path_of_eq _ _ new) by (done || by apply list_lookup_middle). cbn [previous last new option_list].
    by rewrite path_of_app. }
  assert (forall s m, m ∈ bucket st s -> path_of (arena st ++ [new]) m = path_of (arena st) m) as Hold.
  { intros s m Hm%Hb. by apply path_of_app. }
  split; cbn [arena buckets].
  - split; cbn [arena buckets]; [done| | |by rewrite length_insert].
    + intros m em [Hm|[Hm Hm']]%lookup_app_Some.
      * rewrite path_of_app by (done || by eapply lookup_lt_Some). by apply Hc.
      * apply list_lookup_singleton_Some in Hm' as [Hm0 <-]. replace m with (length (arena st)) by lia.
        rewrite Hnew, walk_cost_snoc, (Hc n en Hen). unfold extend_cost. rewrite Ei. cbn. by rewrite Ei.
    + intros s m. rewrite bucket_insert, length_app by done. cbn [length]. case_decide; [|intros Hm%Hb; lia].
      intros [Hm%Hb|Hm%list_elem_of_singleton]%elem_of_app; lia.
  - rewrite length_app. lia.
  - intros m Hm. by apply path_of_app.
  - intros s. unfold paths. cbn [arena]. rewrite bucket_insert by done.
    assert (forall s, path_of (arena st ++ [new]) <$> bucket st s = path_of (arena st) <$> bucket st s) as Hsame.
    { intros s'. apply list_fmap_ext. intros j m Hm%list_elem_of_lookup_2. by apply (Hold s'). }
    case_decide as E.
    + subst s. rewrite fmap_app, Hsame. cbn [fmap list_fmap]. rewrite Hnew, decide_True by by left.
      by rewrite Ei, Et.
    + rewrite Hsame. destruct s as [|j]; [by rewrite app_nil_r|]. rewrite decide_False, app_nil_r; [done|].
      intros ->%list_elem_of_singleton. done.
Qed.

Lemma added_cons i ids s p :
  i ∉ ids -> added (i :: ids) s p = added [i] s p ++ added ids s p.
Proof.
  intros Hi. destruct s as [|j]; [done|]. simpl.
  destruct (decide (j = i)) as [->|Hne].
  - rewrite !decide_True by by left. rewrite decide_False by done. by rewrite app_nil_r.
  - destruct (decide (j ∈ ids)) as [Hj|Hj].
    + rewrite decide_True by by right. rewrite (decide_False (P := j ∈ [i])); [done|]. by intros ?%list_elem_of_singleton.
    + rewrite decide_False by (intros [?|?]%elem_of_cons; done).
      by rewrite decide_False by (by intros ?%list_elem_of_singleton).
Qed.

Lemma extend_edges_grows ids st st' n :
  NoDup ids -> valid st -> n < length (arena st) ->
  fold_result (extend_edge g scorer k target n) ids st = Ok st' ->
  grows st st' (fun s => added ids s (path_of (arena st) n)).
Proof.
  intros Hnd. revert st. induction Hnd as [|i ids Hi _ IH]; intros st Hv Hn; cbn [fold_result].
  { intros [= <-]. eapply grows_ext; [|by apply grows_refl]. intros [|j]; [done|].
    unfold added. rewrite decide_False; [done|]. apply not_elem_of_nil. }
  destruct (extend_edge g scorer k target n st i) as [st1|] eqn:E1; [|done]. intros E2.
  pose proof (extend_edge_grows _ _ _ _ Hv Hn E1) as G1.
  pose proof (IH st1 (grows_valid _ _ _ G1) ltac:(pose proof (grows_arena _ _ _ G1); lia) E2) as G2.
  rewrite (grows_paths _ _ _ G1 n Hn) in G2.
  eapply grows_ext; [|exact (grows_trans _ _ _ _ _ G1 G2)]. intros s. symmetry. by apply added_cons.
Qed.

Lemma outgoing_nodup node : NoDup (outgoing_ids g node).
Proof. unfold outgoing_ids. apply NoDup_seq. Qed.

Lemma extend_entries_grows node ns st st' :
  valid st -> (forall n, n ∈ ns -> n < length (arena st)) ->
  fold_result (extend_entry g scorer k target node) ns st = Ok st' ->
  grows st st' (fun s => (path_of (arena st) <$> ns) ≫= added (outgoing_ids g node) s).
Proof.
  revert st. induction ns as [|n ns IH]; intros st Hv Hns; cbn [fold_result].
  { intros [= <-]. by apply grows_refl. }
  destruct (extend_entry g scorer k target node st n) as [st1|] eqn:E1; [|done]. intros E2.
  apply extend_edges_grows in E1 as G1; [|apply outgoing_nodup|done|apply Hns; by left].
  assert (forall m, m ∈ ns -> m < length (arena st)) as Hns' by (intros m Hm; apply Hns; by right).
  pose proof (IH st1 (grows_valid _ _ _ G1)) as G2.
  specialize (G2 ltac:(intros m Hm; specialize (Hns' m Hm); pose proof (grows_arena _ _ _ G1); lia) E2).
  eapply grows_ext; [|exact (grows_trans _ _ _ _ _ G1 G2)]. intros s. cbv beta.
  rewrite fmap_cons, bind_cons. f_equal. f_equal. apply list_fmap_ext.
  intros j m Hm%list_elem_of_lookup_2. by apply (grows_paths _ _ _ G1), Hns'.
Qed.

Lemma bind_nil {A B} (f : A -> list B) l : (forall x, x ∈ l -> f x = []) -> l ≫= f = [].
Proof.
  induction l as [|x l IH]; intros H; [done|]. rewrite bind_cons, (H x) by by left.
  apply IH. intros y Hy. apply H. by right.
Qed.

Lemma extend_states_grows node ss st st' :
  valid st -> (forall s p, s ∈ ss -> added (outgoing_ids g node) s p = []) ->
  fold_result (extend_state g scorer k target node) ss st = Ok st' ->
  grows st st' (fun s' => ss ≫= fun s => paths st s ≫= added (outgoing_ids g node) s').
Proof.
  intros Hv Hss.
  assert (forall done_ ss2 st1, (forall s, s ∈ done_ ++ ss2 -> s ∈ ss) ->
    grows st st1 (fun s' => done_ ≫= fun s => paths st s ≫= added (outgoing_ids g node) s') ->
    fold_result (extend_state g scorer k target node) ss2 st1 = Ok st' ->
    grows st st' (fun s' => (done_ ++ ss2) ≫= fun s => paths st s ≫= added (outgoing_ids g node) s')) as H.
  2:{ intros E. apply (H [] ss st); [done|by apply grows_refl|done]. }
  intros done_ ss2. revert done_. induction ss2 as [|s ss2 IH]; intros done_ st1 Hin G; cbn [fold_result].
  { intros [= <-]. by rewrite app_nil_r. }
  destruct (extend_state g scorer k target node st1 s) as [st2|] eqn:E1; [|done]. intros E2.
  unfold extend_state in E1. apply extend_entries_grows in E1 as G1;
    [|by apply (grows_valid _ _ _ G)|by intros n; apply (valid_buckets _ (grows_valid _ _ _ G))].
  rewrite cons_middle, app_assoc. apply (IH _ st2); [by rewrite <- app_assoc| |done].
  eapply grows_ext; [|exact (grows_trans _ _ _ _ _ G G1)]. intros s'. cbv beta.
  rewrite bind_app. f_equal. rewrite bind_cons, app_nil_r. f_equal.
  fold (paths st1 s). assert (s ∈ ss) as Hs by (apply Hin, elem_of_app; right; by left).
  rewrite (grows_add _ _ _ G s), bind_nil; [by rewrite app_nil_r|].
  intros x _. apply bind_nil. intros p _. by apply Hss.
Qed.

(** ** Ranking *)

Lemma rank_state_paths st s :
  valid st -> s < length (buckets st) ->
  valid (rank_state k st s) /\ arena (rank_state k st s) = arena st /\
  forall s', paths (rank_state k st s) s' =
    if decide (s' = s) then take k (sort_by_key (path_cost g scorer) (paths st s)) else paths st s'.
Proof.
  intros Hv Hs. pose proof Hv as [Hl Hc Hb Hlen]. unfold rank_state. split_and!; [|done|].
  - split; cbn [arena buckets]; [done..| |by rewrite length_insert].
    intros s' n. rewrite bucket_insert by done. case_decide; [|apply Hb]. intros Hn%elem_of_take.
    destruct Hn as (i & Hn & _). apply list_elem_of_lookup_2 in Hn. rewrite sort_by_key_perm in Hn. by apply (Hb s).
  - intros s'. unfold paths. rewrite bucket_insert by done. cbn [arena]. case_decide; [|done].
    rewrite fmap_take. f_equal. apply sort_by_key_fmap. intros n Hn%Hb.
    destruct (lookup_lt_is_Some_2 (arena st) n Hn) as [e He]. rewrite (entry_at_lookup _ _ _ He).
    unfold path_cost. by rewrite (Hc n e He).
Qed.

Lemma rank_states_paths ss st :
  NoDup ss -> valid st -> (forall s, s ∈ ss -> s < length (buckets st)) ->
  let st' := fold_left (rank_state k) ss st in
  valid st' /\ forall s', paths st' s' =
    if decide (s' ∈ ss) then take k (sort_by_key (path_cost g scorer) (paths st s')) else paths st s'.
Proof.
  intros Hnd. cbv zeta. revert st. induction Hnd as [|s ss Hs _ IH]; intros st Hv Hss; cbn [fold_left].
  { split; [done|]. intros s'. rewrite decide_False; [done|]. apply not_elem_of_nil. }
  destruct (rank_state_paths st s Hv) as (Hv' & _ & Hp); [apply Hss; by left|].
  destruct (IH (rank_state k st s) Hv') as [Hv2 Hp2].
  { intros s' Hs'. rewrite (valid_states _ Hv'), <- (valid_states _ Hv). apply Hss. by right. }
  split; [done|]. intros s'. rewrite Hp2, Hp. destruct (decide (s' = s)) as [->|Hne].
  - rewrite decide_False, decide_True by (done || by left). done.
  - destruct (decide (s' ∈ ss)) as [Hin|Hin].
    + by rewrite decide_True by by right.
    + rewrite decide_False; [done|]. by intros [?|?]%elem_of_cons.
Qed.
End sweep.
