(* ===== verification/KbestBest.v ===== *)
(** * KbestBest: the sweep finds k cheapest paths

    The invariant of the sweep over positions, the room the search takes and
    the property of [k_best_to]. *)

From Stdlib Require Import ZArith Lia Bool String Strings.Byte.
From stdpp Require Import base list sorting strings.
From S2P Require Import Prelude Options Vocab Graph GraphBuild Kbest KbestSweep.

Lemma fold_result_app {S A E} (f : S -> A -> result S E) l1 l2 s :
  fold_result f (l1 ++ l2) s =
  match fold_result f l1 s with Ok s => fold_result f l2 s | Err e => Err e end.
Proof. revert s. induction l1 as [|x l1 IH]; intros s; [done|]. simpl. by destruct (f s x). Qed.

Lemma bind_single {A B} (f : A -> B) (l : list A) : (l ≫= fun x => [f x]) = f <$> l.
Proof. induction l as [|x l IH]; [done|]. by rewrite bind_cons, IH. Qed.

Section best.
Context (g : SegmentGraph) (scorer : EdgeCost) (k target : nat).
Context (Hlink : linked g).
Local Abbreviation c := (path_cost g scorer).
Local Abbreviation best st s := (kbest c k (arrives g s) (paths st s)).

(** ** The invariant *)

(** Before [n] is swept: the states of earlier nodes hold the best of their
    paths, those entered from there cover theirs, the others are empty. *)
Record swept (n : nat) (st : Sweep) : Prop := {
  swept_valid : valid g scorer st;
  swept_best : forall m s, m < n -> s ∈ states_of g m -> best st s;
  swept_cover : forall i e, edge g i = Some e -> n <= to e <= target -> from e < n ->
    covers c k (arrives g (S i)) (paths st (S i));
  swept_empty : forall i e, edge g i = Some e -> n <= from e -> paths st (S i) = [];
  swept_start : n = 0 -> paths st 0 = [[]]
}.

Lemma start_covers : covers c k (arrives g 0) [[]].
Proof.
  split; [by intros p ->%list_elem_of_singleton|apply NoDup_singleton|].
  intros q ->. left. by left.
Qed.

Lemma states_of_bound s n st : valid g scorer st -> s ∈ states_of g n -> s < length (buckets st).
Proof.
  intros Hv Hs. rewrite (valid_states _ _ _ Hv). apply states_of_elem in Hs. destruct s as [|i]; [lia|].
  destruct Hs as (e & He & _). apply lookup_lt_Some in He. lia.
Qed.

Lemma states_of_node s n m : s ∈ states_of g n -> s ∈ states_of g m -> n = m.
Proof.
  rewrite !states_of_elem. destruct s as [|i]; [congruence|].
  intros (e & He & <-) (e' & He' & <-). congruence.
Qed.

(** Ranking the states of [n] makes them the best of their paths. *)
Lemma ranked_best n st :
  n <= target -> swept n st ->
  let st' := fold_left (rank_state k) (states_of g n) st in
  valid g scorer st' /\ (forall m s, m <= n -> s ∈ states_of g m -> best st' s) /\
  (forall i e, edge g i = Some e -> to e <> n -> paths st' (S i) = paths st (S i)).
Proof using Hlink.
  intros Hn [Hv Hb Hc He H0]. cbv zeta.
  destruct (rank_states_paths g scorer k (states_of g n) st) as [Hv' Hp];
    [apply states_of_nodup|done|intros s; by apply states_of_bound|].
  split_and!; [done| |].
  - intros m s Hm Hs. rewrite Hp. destruct (decide (m = n)) as [->|Hne].
    + rewrite decide_True by done. apply rank_covers. apply states_of_elem in Hs. destruct s as [|i].
      * rewrite H0 by done. apply start_covers.
      * destruct Hs as (e & Hi & <-). apply (Hc i e Hi); [done|]. by apply (linked_forward _ Hlink i e).
    + rewrite decide_False; [apply (Hb m); [lia|done]|]. intros Hs'. by apply Hne, (states_of_node s).
  - intros i e Hi Hne. rewrite Hp, decide_False; [done|]. intros Hs%states_of_elem.
    destruct Hs as (e' & Hi' & Ht). congruence.
Qed.

(** What extending the states of [n] adds to the state of an edge. *)
Lemma added_leaving n i e p :
  edge g i = Some e ->
  added g target (outgoing_ids g n) (S i) p = if decide (from e = n /\ to e <= target) then [p ++ [i]] else [].
Proof using Hlink.
  intros Hi. unfold added. rewrite Hi. pose proof (linked_ids _ Hlink i n) as Hids.
  destruct (decide (i ∈ outgoing_ids g n)) as [Hin|Hout].
  - apply Hids in Hin as (e' & Hi' & Hf). rewrite Hi in Hi'. injection Hi' as <-.
    destruct (Nat.ltb_spec target (to e)); [rewrite decide_False by lia; done|by rewrite decide_True by lia].
  - rewrite decide_False; [done|]. intros [Hf _]. apply Hout, Hids. by exists e.
Qed.

Lemma added_states n s p : s ∈ states_of g n -> added g target (outgoing_ids g n) s p = [].
Proof using Hlink.
  intros Hs%states_of_elem. destruct s as [|i]; [done|]. destruct Hs as (e & Hi & Ht).
  rewrite (added_leaving n i e) by done. rewrite decide_False; [done|].
  pose proof (linked_forward _ Hlink i e Hi). lia.
Qed.

Lemma extended_swept n st st' :
  n < target -> swept n st ->
  fold_result (extend_state g scorer k target n) (states_of g n)
    (fold_left (rank_state k) (states_of g n) st) = Ok st' ->
  swept (S n) st'.
Proof using Hlink.
  intros Hn Hsw. destruct (ranked_best n st ltac:(lia) Hsw) as (Hv & Hb & Hsame). intros E.
  apply extend_states_grows in E as G; [|done|intros s p; by apply added_states].
  destruct Hsw as [_ _ Hc He _]. set (st1 := fold_left _ _ st) in *.
  assert (forall i e, edge g i = Some e -> paths st' (S i) = paths st1 (S i) ++
    (if decide (from e = n /\ to e <= target)
     then states_of g n ≫= fun s => (fun p => p ++ [i]) <$> paths st1 s else [])) as Hadd.
  { intros i e Hi. rewrite (grows_add _ _ _ _ _ G (S i)). f_equal. case_decide as Hd.
    - apply list_bind_ext; [|done]. intros s. rewrite <- bind_single. apply list_bind_ext; [|done].
      intros p. rewrite (added_leaving n i e) by done. by rewrite decide_True.
    - apply bind_nil. intros s _. apply bind_nil. intros p _.
      rewrite (added_leaving n i e) by done. by rewrite decide_False. }
  split; [by apply (grows_valid _ _ _ _ _ G)| | | |done].
  - intros m s Hm Hs. rewrite (grows_add _ _ _ _ _ G s), bind_nil, app_nil_r; [apply (Hb m); [lia|done]|].
    intros s' _. apply bind_nil. intros p _. apply states_of_elem in Hs. destruct s as [|i]; [done|].
    destruct Hs as (e & Hi & Ht). rewrite (added_leaving n i e) by done. rewrite decide_False; [done|].
    pose proof (linked_forward _ Hlink i e Hi). lia.
  - intros i e Hi Ht Hf. rewrite (Hadd i e Hi), (Hsame i e Hi) by lia.
    destruct (decide (from e = n)) as [Hfn|Hfn].
    + rewrite decide_True, (He i e Hi) by lia. cbn [app].
      apply (covers_bind (states_of g n) (arrives g) (paths st1) (fun p => p ++ [i])).
      * apply states_of_nodup.
      * intros s Hs. by apply (Hb n).
      * intros p q. apply app_inv_tail.
      * intros s p q. apply path_cost_mono.
      * intros s s' p. apply arrives_unique.
      * intros q. rewrite (arrives_snoc g i e q Hi), Hfn. naive_solver.
    + rewrite decide_False, app_nil_r by lia. apply (Hc i e Hi); lia.
  - intros i e Hi Hf. pose proof (linked_forward _ Hlink i e Hi).
    rewrite (Hadd i e Hi), (Hsame i e Hi), (He i e Hi), decide_False by lia. done.
Qed.

(** ** The room the search takes *)

(** What a step does to the arena: it grows by at most [n] entries, or it has
    no index left for [n] more. *)
Definition room (st : Sweep) (n : nat) (r : result Sweep DecodeError) : Prop :=
  match r with
  | Ok st' => length (arena st') <= length (arena st) + n
  | Err e => e = TooManyEntries k /\ (u32_max < Z.of_nat (length (arena st) + n))%Z
  end.

Lemma fold_result_room {A} (I : Sweep -> Prop) f (l : list A) n st :
  I st ->
  (forall x st, x ∈ l -> I st -> room st n (f st x) /\ forall st', f st x = Ok st' -> I st') ->
  room st (length l * n) (fold_result f l st).
Proof.
  revert st. induction l as [|x l IH]; intros st HI Hf; cbn [fold_result length]; [simpl; lia|].
  destruct (Hf x st) as [Hr Hn]; [by left|done|]. destruct (f st x) as [st1|e]; simpl in Hr.
  - specialize (IH st1 (Hn st1 eq_refl)). assert (room st1 (length l * n) (fold_result f l st1)) as H.
    { apply IH. intros y st2 Hy. apply Hf. by right. }
    destruct (fold_result f l st1); simpl in *; [lia|]. split; [apply H|lia].
  - simpl. split; [apply Hr|lia].
Qed.

Lemma extend_edge_room n st i : room st 1 (extend_edge g scorer k target n st i).
Proof.
  unfold extend_edge, u32_index. cbv zeta. destruct (edge g i) as [e|]; [|simpl; lia].
  destruct (target <? to e); [simpl; lia|].
  destruct (Z.leb_spec (Z.of_nat (length (arena st))) u32_max); simpl; [rewrite length_app; simpl; lia|].
  split; [done|lia].
Qed.

Lemma extend_entry_room node st n : room st (length (outgoing_ids g node)) (extend_entry g scorer k target node st n).
Proof.
  unfold extend_entry. rewrite <- (Nat.mul_1_r (length _)).
  apply (fold_result_room (fun _ => True)); [done|]. intros i st' _ _. split; [apply extend_edge_room|done].
Qed.

(** The entries a swept position may add. *)
Definition node_room (node : nat) : nat := length (states_of g node) * (k * length (outgoing_ids g node)).

Lemma room_le st n m r : n <= m -> room st n r -> room st m r.
Proof. intros Hle. destruct r; simpl; [lia|]. intros [? ?]. split; [done|lia]. Qed.

Lemma extend_states_room n st :
  n < target -> swept n st ->
  room st (node_room n)
    (fold_result (extend_state g scorer k target n) (states_of g n)
       (fold_left (rank_state k) (states_of g n) st)).
Proof using Hlink.
  intros Hn Hsw. destruct (ranked_best n st ltac:(lia) Hsw) as (Hv & Hb & _).
  assert (arena (fold_left (rank_state k) (states_of g n) st) = arena st) as Ha.
  { clear. generalize (states_of g n). intros ss. revert st. induction ss as [|s ss IH]; intros st; [done|].
    cbn [fold_left]. by rewrite IH. }
  set (st1 := fold_left _ _ st) in *.
  assert (room st1 (node_room n) (fold_result (extend_state g scorer k target n) (states_of g n) st1)) as Hr;
    [|unfold room in *; by rewrite Ha in Hr].
  apply (fold_result_room (fun st2 => valid g scorer st2 /\
    forall s, s ∈ states_of g n -> length (bucket st2 s) <= k)).
  { split; [done|]. intros s Hs. pose proof (kbest_length _ _ _ _ (Hb n s (le_n _) Hs)) as Hl.
    unfold paths in Hl. by rewrite length_fmap in Hl. }
  intros s st2 Hs [Hv2 Hl2]. split.
  - apply (room_le _ (length (bucket st2 s) * length (outgoing_ids g n)));
      [apply Nat.mul_le_mono_r, Hl2, Hs|].
    apply (fold_result_room (fun _ => True)); [done|]. intros m st3 _ _. split; [apply extend_entry_room|done].
  - intros st3 E. unfold extend_state in E.
    apply extend_entries_grows in E as G; [|done|intros m; apply (valid_buckets _ _ _ Hv2)].
    split; [by apply (grows_valid _ _ _ _ _ G)|]. intros s' Hs'.
    pose proof (grows_add _ _ _ _ _ G s') as Hadd. cbv beta in Hadd. rewrite bind_nil in Hadd.
    2:{ intros p _. by apply added_states. }
    rewrite app_nil_r in Hadd. apply (f_equal length) in Hadd. unfold paths in Hadd.
    rewrite !length_fmap in Hadd. rewrite Hadd. by apply Hl2.
Qed.

(** ** The whole sweep *)

Definition start_sweep : Sweep :=
  mk_sweep [first_entry] (<[0 := [0]]> (replicate (length (edges g) + 1) [])).

Lemma bucket_start s : bucket start_sweep s = if decide (s = 0) then [0] else [].
Proof.
  unfold bucket, start_sweep. cbn [buckets]. case_decide as E.
  - subst s. rewrite list_lookup_insert_eq; [done|]. rewrite length_replicate. lia.
  - rewrite list_lookup_insert_ne by done.
    by destruct (replicate (length (edges g) + 1) [] !! s) eqn:E'; [apply lookup_replicate in E' as [-> _]|].
Qed.

Lemma start_swept : swept 0 start_sweep.
Proof.
  assert (valid g scorer start_sweep) as Hv.
  { split; cbn [arena start_sweep].
    - intros n e j Hn Hp. apply list_lookup_singleton_Some in Hn as [_ <-]. done.
    - intros n e Hn. by apply list_lookup_singleton_Some in Hn as [-> <-].
    - intros s n. rewrite bucket_start. case_decide; [|by intros ?%not_elem_of_nil].
      intros ->%list_elem_of_singleton. simpl. lia.
    - unfold start_sweep; cbn [buckets]; by rewrite length_insert, length_replicate. }
  split; [done|lia|lia| |].
  - intros i e _ _. unfold paths. by rewrite bucket_start.
  - intros _. unfold paths. by rewrite bucket_start.
Qed.

(** Entries the positions before [n] may add. *)
Definition search_room (n : nat) : nat := sum_list_with node_room (seq 0 n).

Context (incoming : Incoming).
Context (Hin : forall node, node < node_count g -> states_at incoming node = states_of g node).
Context (Htarget : target < node_count g).

Lemma sweep_nodes n :
  n <= target ->
  room start_sweep (search_room n) (fold_result (sweep_node g scorer k target incoming) (seq 0 n) start_sweep) /\
  forall st, fold_result (sweep_node g scorer k target incoming) (seq 0 n) start_sweep = Ok st -> swept n st.
Proof using Hlink Hin Htarget.
  induction n as [|n IH]; intros Hn.
  - split; [simpl; lia|]. intros st [= <-]. apply start_swept.
  - destruct (IH ltac:(lia)) as [Hr Hs]. clear IH.
    unfold search_room. rewrite seq_S, sum_list_with_app, fold_result_app. fold (search_room n). cbn [Nat.add].
    destruct (fold_result _ (seq 0 n) start_sweep) as [st|e]; [|split; [|done]; split; [apply Hr|]].
    2:{ destruct Hr as [_ Hr]. lia. }
    cbn [fold_result sum_list_with]. specialize (Hs st eq_refl).
    assert (sweep_node g scorer k target incoming st n =
      fold_result (extend_state g scorer k target n) (states_of g n)
        (fold_left (rank_state k) (states_of g n) st)) as ->.
    { unfold sweep_node. rewrite Hin by lia. by rewrite (proj2 (Nat.eqb_neq n target)) by lia. }
    pose proof (extend_states_room n st ltac:(lia) Hs) as Hr2.
    pose proof (extended_swept n st) as Hx. destruct (fold_result _ (states_of g n) _) as [st'|e]; simpl in *.
    + split; [lia|]. intros st2 [= <-]. by apply Hx.
    + destruct Hr2 as [-> Hr2]. split; [split; [done|lia]|done].
Qed.

Lemma sweep_target st :
  fold_result (sweep_node g scorer k target incoming) (seq 0 (target + 1)) start_sweep = Ok st ->
  valid g scorer st /\ forall s, s ∈ states_of g target -> best st s.
Proof using Hlink Hin Htarget.
  rewrite Nat.add_1_r, seq_S, fold_result_app. cbn [Nat.add].
  destruct (sweep_nodes target (le_n _)) as [_ Hs].
  destruct (fold_result _ (seq 0 target) start_sweep) as [st1|]; [|done].
  cbn [fold_result]. unfold sweep_node. rewrite Nat.eqb_refl, Hin by done. intros [= <-].
  destruct (ranked_best target st1 (le_n _) (Hs st1 eq_refl)) as (Hv & Hb & _).
  split; [done|]. intros s. by apply Hb.
Qed.

Lemma sweep_room :
  match fold_result (sweep_node g scorer k target incoming) (seq 0 (target + 1)) start_sweep with
  | Ok _ => True
  | Err e => e = TooManyEntries k /\ (u32_max < Z.of_nat (1 + search_room target))%Z
  end.
Proof using Hlink Hin Htarget.
  rewrite Nat.add_1_r, seq_S, fold_result_app. cbn [Nat.add].
  destruct (sweep_nodes target (le_n _)) as [Hr _].
  destruct (fold_result _ (seq 0 target) start_sweep) as [st1|e]; [|exact Hr].
  cbn [fold_result]. unfold sweep_node. by rewrite Nat.eqb_refl.
Qed.
End best.

(** ** The property *)

Lemma finalists_best g scorer k target st ids :
  valid g scorer st -> NoDup (states_of g target) ->
  (forall s, s ∈ states_of g target -> kbest (path_cost g scorer) k (arrives g s) (paths st s)) ->
  ids = take k (sort_by_key (fun i => cost (entry_at (arena st) i)) (states_of g target ≫= bucket st)) ->
  kbest (path_cost g scorer) k (id_path g 0 target) (path_of (arena st) <$> ids) /\
  StronglySorted (by_key (path_cost g scorer)) (path_of (arena st) <$> ids) /\
  forall n, n ∈ ids -> decoded_cost (reconstruct (arena st) n) = path_cost g scorer (path_of (arena st) n).
Proof.
  intros Hv Hnd Hb ->. set (L := states_of g target ≫= bucket st).
  assert (forall n, n ∈ L -> cost (entry_at (arena st) n) = path_cost g scorer (path_of (arena st) n)) as Hcost.
  { intros n (s & Hn%(valid_buckets _ _ _ Hv) & _)%list_elem_of_bind.
    destruct (lookup_lt_is_Some_2 _ _ Hn) as [e He]. rewrite (entry_at_lookup _ _ _ He).
    unfold path_cost. by rewrite (valid_costs _ _ _ Hv n e He). }
  assert (path_of (arena st) <$> L = states_of g target ≫= fun s => id <$> paths st s) as HL.
  { unfold L. rewrite fmap_bind. apply list_bind_ext; [|done]. intros s. by rewrite list_fmap_id. }
  rewrite fmap_take, (sort_by_key_fmap (path_of (arena st)) (path_cost g scorer)) by done. split_and!.
  - apply rank_covers. rewrite HL. apply (covers_bind _ (arrives g)); [done..|intros s s' p; apply arrives_unique|].
    intros q. rewrite (arrives_at g target q). naive_solver.
  - pose proof (sort_by_key_sorted (path_cost g scorer) (path_of (arena st) <$> L)) as Hs.
    rewrite <- (take_drop k (sort_by_key _ _)) in Hs. by apply StronglySorted_app_1_l in Hs.
  - intros n (i & Hn & _)%elem_of_take. apply list_elem_of_lookup_2 in Hn.
    rewrite sort_by_key_perm in Hn. by apply Hcost.
Qed.

Lemma sorted_fmap {A B C} (h : A -> B) (f : A -> C) (c : C -> Z) (key : B -> Z) (l : list A) :
  (forall n, n ∈ l -> key (h n) = c (f n)) ->
  StronglySorted (by_key c) (f <$> l) -> StronglySorted (by_key key) (h <$> l).
Proof.
  induction l as [|n l IH]; intros Hc Hs; [constructor|].
  inversion Hs as [|? ? Hs' Hh]; subst. constructor; [apply IH; [intros m Hm; apply Hc; by right|done]|].
  apply Forall_fmap, Forall_forall. intros m Hm. unfold by_key, compose.
  rewrite !Hc by (by left || by right). rewrite Forall_fmap, Forall_forall in Hh. by apply Hh.
Qed.

(** C17. [k_best_to] finds k cheapest paths. On a built graph, for any scorer
    that charges an edge by the edge before it, the answer lists distinct paths
    from the start to the target, each with its saturating cost, cheapest
    first; there are at most [k], and every path left out costs no less than
    each of them and is left out only because they are [k]. The search fails
    only for a [k] past the limit, or where the graph's edges or the partial
    paths the sweep may generate outgrow its 32-bit indexes. *)
Theorem k_best_to_least (input : bytes) (options : OptionBits) (g : SegmentGraph)
    (scorer : EdgeCost) (k target : nat) (Hbuild : build_with_options input options = Ok g) :
  match k_best_to g scorer k target with
  | Ok ps =>
      k <= MAX_K /\ length ps <= k /\ NoDup (decoded_edges <$> ps) /\
      StronglySorted (by_key decoded_cost) ps /\
      (forall p, p ∈ ps -> id_path g 0 target (decoded_edges p) /\
         decoded_cost p = path_cost g scorer (decoded_edges p)) /\
      forall q, id_path g 0 target q ->
        q ∈ decoded_edges <$> ps \/
        (length ps = k /\ forall p, p ∈ ps -> (decoded_cost p <= path_cost g scorer q)%Z)
  | Err e =>
      (MAX_K < k /\ e = KTooLarge k MAX_K) \/
      ((u32_max < Z.of_nat (length (edges g)))%Z /\ e = TooManyEdges (length (edges g))) \/
      ((u32_max < Z.of_nat (1 + search_room g k target))%Z /\ e = TooManyEntries k)
  end.
Proof.
  apply build_inv in Hbuild as (_ & Hlen & Hlink%indexed_linked & _).
  unfold k_best_to. destruct (Nat.ltb_spec MAX_K k) as [|Hmax]; [by left|].
  destruct (Nat.eqb_spec k 0) as [->|Hk]; cbn [orb].
  { split_and!; [lia|simpl; lia|constructor|constructor|by intros ? ?%not_elem_of_nil|].
    intros q _. right. split; [done|by intros ? ?%not_elem_of_nil]. }
  destruct (Nat.leb_spec (node_count g) target) as [Hout|Hin].
  { split_and!; [done|simpl; lia|constructor|constructor|by intros ? ?%not_elem_of_nil|].
    intros q Hq. exfalso. destruct q as [|i q _] using rev_ind.
    - simpl in Hq. unfold node_count in Hout. lia.
    - apply id_path_snoc in Hq as (e & He & Ht & _). pose proof (linked_forward _ Hlink i e He). lia. }
  pose proof (incoming_index_spec g (linked_to g Hlink)) as Hidx.
  destruct (incoming_index g) as [incoming|e]; [|destruct Hidx as [? ->]; by right; left].
  pose proof (sweep_room g scorer k target Hlink incoming Hidx Hin) as Hroom.
  pose proof (sweep_target g scorer k target Hlink incoming Hidx Hin) as Hs.
  fold (start_sweep g). destruct (fold_result _ _ (start_sweep g)) as [st|e].
  2:{ destruct Hroom as [-> ?]. by right; right. }
  destruct (Hs st eq_refl) as [Hv Hb]. rewrite Hidx by done.
  destruct (finalists_best g scorer k target st _ Hv (states_of_nodup g target) Hb eq_refl) as ([Kin Knd Klen Kl] & Ksort & Kcost).
  set (ids := take k _) in *.
  assert (decoded_edges <$> (reconstruct (arena st) <$> ids) = path_of (arena st) <$> ids) as Hpaths
    by by rewrite <- list_fmap_compose.
  rewrite Hpaths. rewrite !length_fmap. rewrite length_fmap in Klen. split_and!; [done..| | |].
  - by apply (sorted_fmap _ (path_of (arena st)) (path_cost g scorer)).
  - intros p (n & -> & Hn)%list_elem_of_fmap. split; [|by apply Kcost].
    apply Kin. by apply (list_elem_of_fmap_2 (path_of (arena st))).
  - intros q Hq. destruct (Kl q Hq) as [?|[Hl Hle]]; [by left|right]. rewrite length_fmap in Hl. split; [done|].
    intros p (n & -> & Hn)%list_elem_of_fmap. rewrite Kcost by done. apply Hle.
    by apply list_elem_of_fmap_2.
Qed.

Definition sample_scorer : EdgeCost := fun previous e =>
  (match previous with Some _ => 10 | None => 5 end + Z.of_nat (to e))%Z.

Lemma k_best_to_least_witness :
  exists g, build_with_options (str "xian") OptionBits_default = Ok g /\
    k_best_to g sample_scorer 2 4 = Ok [mk_decoded 9 [0]; mk_decoded 21 [2; 4]] /\
    ((u32_max < Z.of_nat (1 + search_room g 2 4))%Z -> False) /\
    match k_best_to g sample_scorer 2 4 with
    | Ok ps =>
        2 <= MAX_K /\ length ps <= 2 /\ NoDup (decoded_edges <$> ps) /\
        StronglySorted (by_key decoded_cost) ps /\
        (forall p, p ∈ ps -> id_path g 0 4 (decoded_edges p) /\
           decoded_cost p = path_cost g sample_scorer (decoded_edges p)) /\
        forall q, id_path g 0 4 q ->
          q ∈ decoded_edges <$> ps \/
          (length ps = 2 /\ forall p, p ∈ ps -> (decoded_cost p <= path_cost g sample_scorer q)%Z)
    | Err e =>
        (MAX_K < 2 /\ e = KTooLarge 2 MAX_K) \/
        ((u32_max < Z.of_nat (length (edges g)))%Z /\ e = TooManyEdges (length (edges g))) \/
        ((u32_max < Z.of_nat (1 + search_room g 2 4))%Z /\ e = TooManyEntries 2)
    end.
Proof.
  eexists. split; [vm_compute; reflexivity|]. split; [vm_compute; reflexivity|]. split; [vm_compute; discriminate|].
  apply (k_best_to_least (str "xian") OptionBits_default). vm_compute. reflexivity.
Defined.
