(* ===== verification/DoublePinyin.v ===== *)
(** * DoublePinyin: the double-pinyin parser

    [crates/oxpinyin-core/src/scheme.rs], its first half: a key pair is an
    initial and a final of the scheme's tables, or a fallback spelling; the
    batch parse takes the longest key that probes, one after another. *)

From Stdlib Require Import String Strings.Byte ZArith Lia Bool.
From stdpp Require Import base list strings.
From S2P Require Import Prelude Options SyllableData ContentData Chewing Syllables Vocab Graph.

Definition ShengmuTable : Type := list (option bytes).
Definition YunmuTable : Type := list (list (option bytes)).
Definition FallbackTable : Type := list (bytes * bytes).

Local Abbreviation s x := (Some (str x%string)).


Definition MS_SHENG : ShengmuTable := Eval vm_compute in
  [None; s "b"; s "c"; s "d"; None; s "f"; s "g"; s "h"; s "ch"; s "j"; s "k"; s "l"; s "m";
   s "n"; s "'"; s "p"; s "q"; s "r"; s "s"; s "t"; s "sh"; s "zh"; s "w"; s "x"; s "y"; s "z";
   None].

Definition MS_YUN : YunmuTable := Eval vm_compute in
  [[s "a"; None]; [s "ou"; None]; [s "iao"; None]; [s "uang"; s "iang"]; [s "e"; None];
   [s "en"; None]; [s "eng"; s "ng"]; [s "ang"; None]; [s "i"; None]; [s "an"; None];
   [s "ao"; None]; [s "ai"; None]; [s "ian"; None]; [s "in"; None]; [s "uo"; s "o"];
   [s "un"; None]; [s "iu"; None]; [s "uan"; s "er"]; [s "ong"; s "iong"]; [s "ue"; None];
   [s "u"; None]; [s "ui"; s "ue"]; [s "ia"; s "ua"]; [s "ie"; None]; [s "uai"; s "v"];
   [s "ei"; None]; [s "ing"; None]].

Definition ZRM_SHENG : ShengmuTable := Eval vm_compute in
  [None; s "b"; s "c"; s "d"; None; s "f"; s "g"; s "h"; s "ch"; s "j"; s "k"; s "l"; s "m";
   s "n"; s "'"; s "p"; s "q"; s "r"; s "s"; s "t"; s "sh"; s "zh"; s "w"; s "x"; s "y"; s "z";
   None].

Definition ZRM_YUN : YunmuTable := Eval vm_compute in
  [[s "a"; None]; [s "ou"; None]; [s "iao"; None]; [s "uang"; s "iang"]; [s "e"; None];
   [s "en"; None]; [s "eng"; s "ng"]; [s "ang"; None]; [s "i"; None]; [s "an"; None];
   [s "ao"; None]; [s "ai"; None]; [s "ian"; None]; [s "in"; None]; [s "uo"; s "o"];
   [s "un"; None]; [s "iu"; None]; [s "uan"; s "er"]; [s "ong"; s "iong"]; [s "ue"; None];
   [s "u"; None]; [s "ui"; s "v"]; [s "ia"; s "ua"]; [s "ie"; None]; [s "uai"; s "ing"];
   [s "ei"; None]; [None; None]].

Definition ZRM_FALLBACK : FallbackTable := Eval vm_compute in
  [(str "aa"%string, str "a"%string); (str "ai"%string, str "ai"%string);
   (str "an"%string, str "an"%string); (str "ah"%string, str "ang"%string);
   (str "ao"%string, str "ao"%string); (str "ee"%string, str "e"%string);
   (str "ei"%string, str "ei"%string); (str "en"%string, str "en"%string);
   (str "er"%string, str "er"%string); (str "oo"%string, str "o"%string);
   (str "ou"%string, str "ou"%string)].

Definition ABC_SHENG : ShengmuTable := Eval vm_compute in
  [s "zh"; s "b"; s "c"; s "d"; s "ch"; s "f"; s "g"; s "h"; None; s "j"; s "k"; s "l"; s "m";
   s "n"; s "'"; s "p"; s "q"; s "r"; s "s"; s "t"; None; s "sh"; s "w"; s "x"; s "y"; s "z"; None].

Definition ABC_YUN : YunmuTable := Eval vm_compute in
  [[s "a"; None]; [s "ou"; None]; [s "in"; s "uai"]; [s "ia"; s "ua"]; [s "e"; None];
   [s "en"; None]; [s "eng"; s "ng"]; [s "ang"; None]; [s "i"; None]; [s "an"; None];
   [s "ao"; None]; [s "ai"; None]; [s "ue"; s "ui"]; [s "un"; None]; [s "uo"; s "o"];
   [s "uan"; None]; [s "ei"; None]; [s "er"; s "iu"]; [s "ong"; s "iong"]; [s "iang"; s "uang"];
   [s "u"; None]; [s "v"; s "ue"]; [s "ian"; None]; [s "ie"; None]; [s "ing"; None];
   [s "iao"; None]; [None; None]].

Definition ZG_SHENG : ShengmuTable := Eval vm_compute in
  [s "ch"; s "b"; s "c"; s "d"; None; s "f"; s "g"; s "h"; s "sh"; s "j"; s "k"; s "l"; s "m";
   s "n"; s "'"; s "p"; s "q"; s "r"; s "s"; s "t"; s "zh"; None; s "w"; s "x"; s "y"; s "z"; None].

Definition ZG_YUN : YunmuTable := Eval vm_compute in
  [[s "a"; None]; [s "iao"; None]; [None; None]; [s "ie"; None]; [s "e"; None]; [s "ian"; None];
   [s "iang"; s "uang"]; [s "ong"; s "iong"]; [s "i"; None]; [s "er"; s "iu"]; [s "ei"; None];
   [s "uan"; None]; [s "un"; None]; [s "ue"; s "ui"]; [s "uo"; s "o"]; [s "ai"; None];
   [s "ao"; None]; [s "an"; None]; [s "ang"; None]; [s "eng"; s "ng"]; [s "u"; None];
   [s "v"; None]; [s "en"; None]; [s "ia"; s "ua"]; [s "in"; s "uai"]; [s "ou"; None];
   [s "ing"; None]].

Definition PYJJ_SHENG : ShengmuTable := Eval vm_compute in
  [s "'"; s "b"; s "c"; s "d"; None; s "f"; s "g"; s "h"; s "sh"; s "j"; s "k"; s "l"; s "m";
   s "n"; s "'"; s "p"; s "q"; s "r"; s "s"; s "t"; s "ch"; s "zh"; s "w"; s "x"; s "y"; s "z";
   None].

Definition PYJJ_YUN : YunmuTable := Eval vm_compute in
  [[s "a"; None]; [s "ia"; s "ua"]; [s "uan"; None]; [s "ao"; None]; [s "e"; None];
   [s "an"; None]; [s "ang"; None]; [s "iang"; s "uang"]; [s "i"; None]; [s "ian"; None];
   [s "iao"; None]; [s "in"; None]; [s "ie"; None]; [s "iu"; None]; [s "uo"; s "o"];
   [s "ou"; None]; [s "er"; s "ing"]; [s "en"; None]; [s "ai"; None]; [s "eng"; s "ng"];
   [s "u"; None]; [s "v"; s "ui"]; [s "ei"; None]; [s "uai"; s "ue"]; [s "ong"; s "iong"];
   [s "un"; None]; [None; None]].

Definition PYJJ_FALLBACK : FallbackTable := Eval vm_compute in
  [(str "aa"%string, str "a"%string); (str "as"%string, str "ai"%string);
   (str "af"%string, str "an"%string); (str "ag"%string, str "ang"%string);
   (str "ad"%string, str "ao"%string); (str "ee"%string, str "e"%string);
   (str "ew"%string, str "ei"%string); (str "er"%string, str "en"%string);
   (str "eq"%string, str "er"%string); (str "oo"%string, str "o"%string);
   (str "op"%string, str "ou"%string)].

Definition XHE_SHENG : ShengmuTable := Eval vm_compute in
  [None; s "b"; s "c"; s "d"; None; s "f"; s "g"; s "h"; s "ch"; s "j"; s "k"; s "l"; s "m";
   s "n"; s "'"; s "p"; s "q"; s "r"; s "s"; s "t"; s "sh"; s "zh"; s "w"; s "x"; s "y"; s "z";
   None].

Definition XHE_YUN : YunmuTable := Eval vm_compute in
  [[s "a"; None]; [s "in"; None]; [s "ao"; None]; [s "ai"; None]; [s "e"; None]; [s "en"; None];
   [s "eng"; s "ng"]; [s "ang"; None]; [s "i"; None]; [s "an"; None]; [s "uai"; s "ing"];
   [s "iang"; s "uang"]; [s "ian"; None]; [s "iao"; None]; [s "uo"; s "o"]; [s "ie"; None];
   [s "iu"; None]; [s "uan"; s "er"]; [s "ong"; s "iong"]; [s "ue"; None]; [s "u"; None];
   [s "v"; s "ui"]; [s "ei"; None]; [s "ia"; s "ua"]; [s "un"; None]; [s "ou"; None]; [None; None]].

Definition XHE_FALLBACK : FallbackTable := Eval vm_compute in
  [(str "aa"%string, str "a"%string); (str "ai"%string, str "ai"%string);
   (str "an"%string, str "an"%string); (str "ah"%string, str "ang"%string);
   (str "ao"%string, str "ao"%string); (str "ee"%string, str "e"%string);
   (str "ei"%string, str "ei"%string); (str "en"%string, str "en"%string);
   (str "er"%string, str "er"%string); (str "oo"%string, str "o"%string);
   (str "ou"%string, str "ou"%string)].

Record DoublePinyinKey : Type := mk_double_key {
  key : SyllableKey; start : nat; end_ : nat; tone : Z
}.

Record DoublePinyinParse : Type := mk_double_parse { keys : list DoublePinyinKey; consumed : nat }.

Definition DoublePinyinParse_default : DoublePinyinParse := mk_double_parse [] 0.

(** [DoublePinyinParse::full_pinyin]. *)
Definition full_pinyin (p : DoublePinyinParse) : bytes := join (str "'") (key_text ∘ key <$> keys p).

Inductive DoublePinyinScheme : Type := Zrm | Ms | Ziguang | Abc | Pyjj | Xhe | Customized.

#[export] Instance DoublePinyinScheme_eq_dec : EqDecision DoublePinyinScheme.
Proof. solve_decision. Defined.

Definition SCHEME_KEY_COUNT : nat := 27.

Record SchemeTables : Type := mk_tables {
  shengmu_table : ShengmuTable; yunmu_table : YunmuTable; fallback : option FallbackTable
}.

Definition tables (s : DoublePinyinScheme) : option SchemeTables :=
  match s with
  | Zrm => Some (mk_tables ZRM_SHENG ZRM_YUN (Some ZRM_FALLBACK))
  | Ms => Some (mk_tables MS_SHENG MS_YUN None)
  | Ziguang => Some (mk_tables ZG_SHENG ZG_YUN None)
  | Abc => Some (mk_tables ABC_SHENG ABC_YUN None)
  | Pyjj => Some (mk_tables PYJJ_SHENG PYJJ_YUN (Some PYJJ_FALLBACK))
  | Xhe => Some (mk_tables XHE_SHENG XHE_YUN (Some XHE_FALLBACK))
  | Customized => None
  end.

Definition semicolon : byte := x3b.

Definition is_key (b : byte) : bool := is_ascii_lowercase b || bool_decide (b = semicolon).

Definition key_id (b : byte) : nat :=
  if bool_decide (b = semicolon) then SCHEME_KEY_COUNT - 1 else Z.to_nat (byte_val b - 97).

(** [&spelling[..1]] of a text with a first byte. *)
Definition first_byte (text : bytes) : bytes := take 1 text.

Definition lookup_pinyin (spelling : bytes) : option SyllableKey :=
  match from_text spelling with
  | Some key => Some key
  | None =>
      if bool_decide (spelling ∈ [str "lue"; str "nue"])
      then from_text (first_byte spelling ++ str "ve")
      else
        first ← head spelling;
        if bool_decide (first ∈ str "jqxy") && bool_decide (x76 ∈ spelling)
        then from_text ((fun b => if bool_decide (b = x76) then x75 else b) <$> spelling)
        else None
  end.

Definition parse_fallback (input : bytes) (t : SchemeTables) : option SyllableKey :=
  table ← fallback t;
  text ← from_utf8 input;
  i ← position (fun row => bool_decide (row.1 = text)) table;
  row ← table !! i;
  lookup_pinyin row.2.

(** [for candidate in yun.iter().flatten()]: the first that is a syllable. *)
Fixpoint first_syllable (sheng : bytes) (candidates : list bytes) : option SyllableKey :=
  match candidates with
  | [] => None
  | c :: candidates =>
      match lookup_pinyin (sheng ++ c) with
      | Some key => Some key
      | None => first_syllable sheng candidates
      end
  end.

Definition parse_two_keys (a b : byte) (t : SchemeTables) : option SyllableKey :=
  if negb (is_key a) || negb (is_key b) then None
  else
    match mjoin (shengmu_table t !! key_id a) with
    | None => parse_fallback [a; b] t
    | Some sheng =>
        let sheng := if bool_decide (sheng = str "'") then [] else sheng in
        match first_syllable sheng (omap id (default [] (yunmu_table t !! key_id b))) with
        | Some key => Some key
        | None => parse_fallback [a; b] t
        end
    end.

Definition parse_incomplete (b : byte) (allow_incomplete : bool) (t : SchemeTables)
    : option SyllableKey :=
  if negb allow_incomplete || negb (is_key b) then None
  else
    sheng ← mjoin (shengmu_table t !! key_id b);
    if bool_decide (sheng = str "'") then None else from_text sheng.

(** [b'1'..=b'5' => byte - b'0']. *)
Definition tone_digit (b : byte) : option Z :=
  if in_range 49 53 b then Some (byte_val b - 48)%Z else None.

Definition probe_one_key (input : bytes) (use_tone force_tone allow_incomplete : bool)
    (t : SchemeTables) : option (SyllableKey * Z) :=
  if force_tone && negb (length input =? 3) then None
  else
    match input with
    | [b] => (fun key => (key, 0%Z)) <$> parse_incomplete b allow_incomplete t
    | [a; b] => (fun key => (key, 0%Z)) <$> parse_two_keys a b t
    | [a; b; d] =>
        if negb use_tone then None
        else tone ← tone_digit d; (fun key => (key, tone)) <$> parse_two_keys a b t
    | _ => None
    end.

Record DoublePinyinParser : Type := mk_double_parser {
  scheme : DoublePinyinScheme; suppress_fallback : bool
}.

Definition new : DoublePinyinParser := mk_double_parser Ms false.
Definition with_scheme (s : DoublePinyinScheme) : DoublePinyinParser := mk_double_parser s false.
Definition with_fallback_suppressed (p : DoublePinyinParser) : DoublePinyinParser :=
  mk_double_parser (scheme p) true.

Definition set_scheme (p : DoublePinyinParser) (s : DoublePinyinScheme)
    : DoublePinyinParser * bool :=
  if bool_decide (s = Customized) then (p, false) else (mk_double_parser s false, true).

(** The tables in force. *)
Definition parser_tables (p : DoublePinyinParser) : option SchemeTables :=
  t ← tables (scheme p);
  Some (if suppress_fallback p then mk_tables (shengmu_table t) (yunmu_table t) None else t).

(** [for len in (1..=n).rev()]: the first length that probes. *)
Fixpoint longest_probe (probe : bytes -> option (SyllableKey * Z)) (input : bytes) (n : nat)
    : option (SyllableKey * Z * nat) :=
  match n with
  | O => None
  | S m =>
      match probe (take n input) with
      | Some (key, tone) => Some (key, tone, n)
      | None => longest_probe probe input m
      end
  end.

(** The [while]: a key consumes a byte at least. *)
Fixpoint greedy (fuel : nat) (probe : bytes -> option (SyllableKey * Z)) (window : bytes)
    (parsed_len : nat) (keys : list DoublePinyinKey) : DoublePinyinParse :=
  match fuel with
  | O => mk_double_parse keys parsed_len
  | S fuel =>
      if length window <=? parsed_len then mk_double_parse keys parsed_len
      else
        let remaining := drop parsed_len window in
        match longest_probe probe remaining (Nat.min (length remaining) 3) with
        | None => mk_double_parse keys parsed_len
        | Some (key, tone, len) =>
            greedy fuel probe window (parsed_len + len)
              (keys ++ [mk_double_key key parsed_len (parsed_len + len) tone])
        end
  end.

(** The input's keys and tone digits, up to the first other byte. *)
Definition probe_window (input : bytes) : bytes :=
  take_while (fun b => is_key b || in_range 49 53 b) input.

Definition option_probe (options : Z) (t : SchemeTables) (input : bytes) : option (SyllableKey * Z) :=
  let bits := from_bits options in
  probe_one_key input (contains bits USE_TONE) (contains bits FORCE_TONE)
    (contains bits PINYIN_INCOMPLETE) t.

Definition parse_with_options (p : DoublePinyinParser) (input : bytes) (options : Z)
    : DoublePinyinParse :=
  match parser_tables p with
  | None => DoublePinyinParse_default
  | Some t =>
      let window := probe_window input in
      greedy (S (length window)) (option_probe options t) window 0 []
  end.

Definition parse (p : DoublePinyinParser) (input : bytes) (allow_incomplete : bool)
    : DoublePinyinParse :=
  parse_with_options p input (if allow_incomplete then PINYIN_INCOMPLETE else 0)%Z.

(** [parse_one_key]: one whole key, with its packed form. *)
Definition parse_one_key (p : DoublePinyinParser) (options : Z) (input : bytes) : option ChewingKey :=
  let bits := from_bits (Z.ldiff options (Z.lor PINYIN_CORRECT_ALL PINYIN_AMB_ALL)) in
  if contains bits FORCE_TONE && negb (length input =? 3) then None
  else
    t ← parser_tables p;
    match input with
    | [b] =>
        syllable ← parse_incomplete b (contains bits PINYIN_INCOMPLETE) t;
        from_pinyin (key_text syllable)
    | [a; b] =>
        syllable ← parse_two_keys a b t;
        key ← from_pinyin (key_text syllable);
        Some (Chewing.with_tone key 0)
    | [a; b; d] =>
        if negb (contains bits USE_TONE) then None
        else
          tone ← tone_digit d;
          syllable ← parse_two_keys a b t;
          key ← from_pinyin (key_text syllable);
          Some (Chewing.with_tone key tone)
    | _ => None
    end.

Example ms_ni_hao :
  full_pinyin (parse new (str "nihk") false) = str "ni'hao".
Proof. vm_compute. reflexivity. Qed.
