(* ===== verification/DoubleSpec.v ===== *)
(** * DoubleSpec: what the double-pinyin parser answers

    The greedy walk of [DoublePinyin] as a relation between the input and its
    keys, the agreement of the one-key parse with the walk's probe, and the
    syllables every scheme can type. *)

From Stdlib Require Import ZArith Lia Bool String Strings.Byte.
From stdpp Require Import base list strings.
From S2P Require Import Prelude Options SyllableData ContentData Chewing Syllables Vocab DoublePinyin.

(** ** The greedy walk *)

Section greedy.
Context (probe : bytes -> option (SyllableKey * Z)) (window : bytes).

(** No key of one to three bytes starts at [a] and ends past [b]. *)
Definition none_longer (a b : nat) : Prop :=
  forall e, b < e <= Nat.min (length window) (a + 3) -> probe (slice window a e) = None.

(** [ks] are the longest keys from [from] to [to], one after another, and no
    key starts at [to]. *)
Fixpoint greedy_run (from : nat) (ks : list DoublePinyinKey) (to : nat) : Prop :=
  match ks with
  | [] => from = to /\ none_longer to to
  | k :: ks =>
      start k = from /\ from < end_ k <= Nat.min (length window) (from + 3) /\
      probe (slice window from (end_ k)) = Some (key k, tone k) /\
      none_longer from (end_ k) /\ greedy_run (end_ k) ks to
  end.

Lemma longest_probe_spec a n :
  n <= Nat.min (length window - a) 3 ->
  match longest_probe probe (drop a window) n with
  | Some (key, tone, len) =>
      0 < len <= n /\ probe (slice window a (a + len)) = Some (key, tone) /\
      forall e, a + len < e <= a + n -> probe (slice window a e) = None
  | None => forall e, a < e <= a + n -> probe (slice window a e) = None
  end.
Proof.
  induction n as [|n IH]; intros Hn; cbn [longest_probe]; [intros e; lia|].
  assert (slice window a (a + S n) = take (S n) (drop a window)) as Hs.
  { unfold slice. f_equal. lia. }
  destruct (probe (take (S n) (drop a window))) as [[key tone]|] eqn:E.
  - split; [lia|]. split; [by rewrite Hs|]. intros e. lia.
  - specialize (IH ltac:(lia)). destruct (longest_probe _ _ _) as [[[key tone] len]|].
    + destruct IH as (Hl & Hp & Hnone). split; [lia|]. split; [done|]. intros e He.
      destruct (decide (e = a + S n)) as [->|]; [by rewrite Hs|]. apply Hnone. lia.
    + intros e He. destruct (decide (e = a + S n)) as [->|]; [by rewrite Hs|]. apply IH. lia.
Qed.

Lemma greedy_spec fuel from acc :
  from <= length window -> length window - from < fuel ->
  exists ks to, greedy fuel probe window from acc = mk_double_parse (acc ++ ks) to /\ greedy_run from ks to.
Proof.
  revert from acc. induction fuel as [|fuel IH]; intros from acc Hf Hfuel; [lia|]. cbn [greedy].
  destruct (Nat.leb_spec (length window) from) as [Hge|Hlt].
  { exists [], from. rewrite app_nil_r. split; [done|]. split; [done|]. intros e He. lia. }
  rewrite length_drop. pose proof (longest_probe_spec from (Nat.min (length window - from) 3) (le_n _)) as Hl.
  destruct (longest_probe _ _ _) as [[[key tone] len]|].
  - destruct Hl as (Hlen & Hp & Hnone).
    destruct (IH (from + len) (acc ++ [mk_double_key key from (from + len) tone])) as (ks & to & -> & Hr); [lia|lia|].
    exists (mk_double_key key from (from + len) tone :: ks), to. split; [by rewrite <- app_assoc|].
    cbn [greedy_run start end_ DoublePinyin.key DoublePinyin.tone]. split_and!; [done|lia|lia|done| |done].
    intros e He. apply Hnone. lia.
  - exists [], from. rewrite app_nil_r. split; [done|]. split; [done|]. intros e He. apply Hl. lia.
Qed.

Lemma greedy_run_unique from ks to ks' to' :
  greedy_run from ks to -> greedy_run from ks' to' -> ks = ks' /\ to = to'.
Proof.
  revert from ks'. induction ks as [|k ks IH]; intros from [|k' ks']; cbn [greedy_run].
  - by intros [-> _] [-> _].
  - intros [-> Hn] (_ & He & Hp & _). by rewrite Hn in Hp.
  - intros (_ & He & Hp & _) [-> Hn]. by rewrite Hn in Hp.
  - intros (Hs & He & Hp & Hn & Hr) (Hs' & He' & Hp' & Hn' & Hr').
    assert (end_ k = end_ k') as Hee.
    { destruct (Nat.lt_trichotomy (end_ k) (end_ k')) as [Hlt|[Heq|Hlt]]; [|done|].
      - rewrite Hn in Hp' by lia. done.
      - rewrite Hn' in Hp by lia. done. }
    rewrite <- Hee in Hp', Hr'. destruct (IH _ _ Hr Hr') as [-> ->]. split; [|done]. f_equal.
    rewrite Hp in Hp'. injection Hp' as Hk Ht. destruct k, k'; simpl in *; congruence.
Qed.
End greedy.

Lemma parse_with_options_run p t options input ks to :
  parser_tables p = Some t ->
  parse_with_options p input options = mk_double_parse ks to <->
  greedy_run (option_probe options t) (probe_window input) 0 ks to.
Proof.
  intros Ht. unfold parse_with_options. rewrite Ht.
  destruct (greedy_spec (option_probe options t) (probe_window input) (S (length (probe_window input))) 0 [])
    as (ks' & to' & -> & Hr); [lia|lia|]. cbn [app]. split; [by intros [= <- <-]|].
  intros Hr'. by destruct (greedy_run_unique _ _ _ _ _ _ _ Hr Hr') as [-> ->].
Qed.

(** ** One key *)

(** The keys of a double-pinyin probe are those of the full-pinyin surface. *)
Lemma from_text_surface text key : from_text text = Some key -> index key < option_start.
Proof.
  unfold from_text, from_index. pose proof (map_get_spec FULL_PINYIN_SYLLABLES text) as H1.
  pose proof (map_get_spec INCOMPLETE_PINYIN_KEYS text) as H2.
  assert (length FULL_PINYIN_SYLLABLES + length INCOMPLETE_PINYIN_KEYS = option_start /\
    length FULL_PINYIN_SYLLABLES = FULL_PINYIN_SYLLABLE_COUNT) as [L1 L2] by (split; vm_compute; reflexivity).
  destruct (map_get FULL_PINYIN_SYLLABLES text) as [i|].
  { apply lookup_lt_Some in H1. destruct (_ <=? _); intros [= <-]. cbn [index]. lia. }
  destruct (map_get INCOMPLETE_PINYIN_KEYS text) as [i|]; [|done]. cbn [mbind option_bind].
  apply lookup_lt_Some in H2. destruct (_ <=? _); [done|]. intros H%(inj Some). rewrite <- H. cbn [index]. lia.
Qed.

Lemma lookup_surface spelling key : lookup_pinyin spelling = Some key -> index key < option_start.
Proof.
  unfold lookup_pinyin. destruct (from_text spelling) eqn:E.
  { intros [= <-]. by apply (from_text_surface _ _ E). }
  case_bool_decide; [apply from_text_surface|]. destruct (head spelling); [|done]. cbn [mbind option_bind].
  destruct (_ && _); [apply from_text_surface|done].
Qed.

Lemma fallback_surface input t key : parse_fallback input t = Some key -> index key < option_start.
Proof.
  unfold parse_fallback. intros (table & _ & (text & _ & (i & _ & (row & _ & H)%bind_Some)%bind_Some)%bind_Some)%bind_Some.
  by apply lookup_surface in H.
Qed.

Lemma two_keys_surface a b t key : parse_two_keys a b t = Some key -> index key < option_start.
Proof.
  unfold parse_two_keys. destruct (_ || _); [done|].
  destruct (mjoin _) as [sheng|]; [|apply fallback_surface]. cbv zeta.
  set (sheng' := if bool_decide _ then _ else _). clearbody sheng'.
  destruct (first_syllable sheng' _) as [k|] eqn:E; [|apply fallback_surface]. intros [= <-].
  revert E. induction (omap id _) as [|c cs IH]; [done|]. cbn [first_syllable].
  destruct (lookup_pinyin (sheng' ++ c)) eqn:El; [|done]. intros [= <-]. by apply lookup_surface in El.
Qed.

Lemma incomplete_surface b allow t key : parse_incomplete b allow t = Some key -> index key < option_start.
Proof.
  unfold parse_incomplete. destruct (_ || _); [done|]. destruct (mjoin _); [|done]. cbn [mbind option_bind].
  case_bool_decide; [done|]. apply from_text_surface.
Qed.

Lemma option_start_le : option_start <= SYLLABLE_KEY_COUNT.
Proof. apply Nat.leb_le. vm_compute. reflexivity. Qed.

#[local] Opaque CONTENT_TABLE CHEWING_KEY_TABLE CHEWING_KEYS CONTENT_KEYS FULL_PINYIN_SYLLABLES.

Lemma surface_packed key : index key < option_start -> from_pinyin (key_text key) = Some (chewing_key key).
Proof.
  intros H. assert (index key < SYLLABLE_KEY_COUNT) as Hlt by exact (Nat.lt_le_trans _ _ _ H option_start_le).
  exact (proj1 (proj2 (proj2 (proj2 (key_facts key Hlt))))).
Qed.

Lemma chewing_key_tone key : index key < option_start -> Chewing.with_tone (chewing_key key) 0 = chewing_key key.
Proof.
  intros H%surface_packed. unfold from_pinyin in H. destruct (spelling_key _); [|done]. cbn [mbind option_bind] in H.
  destruct (binary_search_by _ _); [|done]. destruct (CONTENT_KEYS !! _); [|done]. by injection H as <-.
Qed.

(** One double-pinyin key parses alone as it does in a batch. Under any
    option word [parse_one_key] answers exactly where the batch walk's probe
    takes the whole input as one key, with that key's packed form and tone: the
    correction and ambiguity bits it masks, and the different order of its
    tests, are not observable. *)
Theorem one_key_as_in_batch (p : DoublePinyinParser) (options : Z) (input : bytes) :
  parse_one_key p options input =
  (t ← parser_tables p;
   kt ← option_probe options t input;
   Some (Chewing.with_tone (chewing_key kt.1) kt.2)).
Proof.
  unfold parse_one_key, option_probe, probe_one_key, from_bits. cbv zeta.
  rewrite !contains_ldiff by reflexivity.
  destruct (parser_tables p) as [t|]; [|by destruct (_ && _)]. cbn [mbind option_bind].
  destruct (contains options FORCE_TONE && negb (length input =? 3)); [done|].
  destruct input as [|a [|b [|d [|]]]]; [done|..|done].
  - destruct (parse_incomplete a _ t) as [key|] eqn:E; [|done]. apply incomplete_surface in E.
    cbn [mbind option_bind fmap option_fmap option_map fst snd]. by rewrite surface_packed, chewing_key_tone.
  - destruct (parse_two_keys a b t) as [key|] eqn:E; [|done]. apply two_keys_surface in E.
    cbn [mbind option_bind fmap option_fmap option_map fst snd]. by rewrite surface_packed.
  - destruct (contains options USE_TONE); [|done]. cbn [negb]. destruct (tone_digit d); [|done].
    cbn [mbind option_bind]. destruct (parse_two_keys a b t) as [key|] eqn:E; [|done]. apply two_keys_surface in E.
    cbn [mbind option_bind fmap option_fmap option_map fst snd]. by rewrite surface_packed.
Qed.

(** ** What the batch parse answers *)

(** The batch parse is the greedy walk. For a compiled scheme the keys
    and the consumed length are the one sequence that covers the input from its
    start with consecutive keys of one to three bytes, each the longest the
    option word lets start where it does, inside the run of scheme keys and
    tone digits that opens the input, up to a place where none starts; a
    customized scheme parses nothing. *)
Theorem double_parse_greedy (p : DoublePinyinParser) (input : bytes) (options : Z) (r : DoublePinyinParse) :
  parse_with_options p input options = r <->
  match parser_tables p with
  | None => r = DoublePinyinParse_default
  | Some t => greedy_run (option_probe options t) (probe_window input) 0 (keys r) (consumed r)
  end.
Proof.
  destruct (parser_tables p) as [t|] eqn:Et.
  - destruct r as [ks to]. by apply parse_with_options_run.
  - unfold parse_with_options. rewrite Et. by split.
Qed.
