(* ===== verification/DoubleTyping.v ===== *)
(** * DoubleTyping: what the double-pinyin schemes can type

    Every complete syllable but one has a key pair under every compiled
    scheme, and key pairs typed one after another parse back. *)

From Stdlib Require Import ZArith Lia Bool String Strings.Byte.
From stdpp Require Import base list strings.
From S2P Require Import Prelude Options SyllableData Syllables Vocab DoublePinyin DoubleSpec.

(** ** A key pair for every syllable *)

Definition scheme_keys : bytes := str "abcdefghijklmnopqrstuvwxyz;".

(** The key pairs that probe, with the ids they answer. *)
Definition typed_pairs (t : SchemeTables) : list (byte * byte * nat) :=
  omap (fun ab => (fun k => (ab, index k)) <$> parse_two_keys ab.1 ab.2 t)
    (scheme_keys ≫= fun a => (fun b => (a, b)) <$> scheme_keys).

Definition first_pairs (t : SchemeTables) : list (byte * byte) :=
  let typed := typed_pairs t in
  (fun i => default (x61, x61) (fst <$> head (filter (fun x => (x.2 =? i) = true) typed)))
    <$> seq 0 FULL_PINYIN_SYLLABLE_COUNT.

(** The first key pair of each complete syllable, by id. *)
Definition MS_TYPING : list (byte * byte) := Eval vm_compute in
  default [] (first_pairs <$> tables Ms).
Definition ZRM_TYPING : list (byte * byte) := Eval vm_compute in
  default [] (first_pairs <$> tables Zrm).
Definition ZG_TYPING : list (byte * byte) := Eval vm_compute in
  default [] (first_pairs <$> tables Ziguang).
Definition ABC_TYPING : list (byte * byte) := Eval vm_compute in
  default [] (first_pairs <$> tables Abc).
Definition PYJJ_TYPING : list (byte * byte) := Eval vm_compute in
  default [] (first_pairs <$> tables Pyjj).
Definition XHE_TYPING : list (byte * byte) := Eval vm_compute in
  default [] (first_pairs <$> tables Xhe).

Definition typing (s : DoublePinyinScheme) : list (byte * byte) :=
  match s with
  | Zrm => ZRM_TYPING | Ms => MS_TYPING | Ziguang => ZG_TYPING | Abc => ABC_TYPING
  | Pyjj => PYJJ_TYPING | Xhe => XHE_TYPING | Customized => []
  end.

(** The syllable the schemes' tables leave out. *)
Definition untyped : nat := Eval vm_compute in default 0 (map_get FULL_PINYIN_SYLLABLES (str "lo")).

Definition pair_types (t : SchemeTables) (i : nat) (ab : byte * byte) : bool :=
  (i =? untyped) || is_key ab.1 && is_key ab.2 &&
  match parse_two_keys ab.1 ab.2 t with Some k => index k =? i | None => false end.

Definition typing_checked (s : DoublePinyinScheme) : bool :=
  match tables s with
  | None => false
  | Some t => forallb (fun i => match typing s !! i with Some ab => pair_types t i ab | None => false end)
                (seq 0 FULL_PINYIN_SYLLABLE_COUNT)
  end.

Lemma typings_checked :
  forallb typing_checked [Zrm; Ms; Ziguang; Abc; Pyjj; Xhe] = true.
Proof. vm_compute. reflexivity. Qed.

#[local] Opaque FULL_PINYIN_SYLLABLES MS_TYPING ZRM_TYPING ZG_TYPING ABC_TYPING PYJJ_TYPING XHE_TYPING
  FULL_PINYIN_SYLLABLE_COUNT untyped.

(** A syllable the schemes type: complete, on the full-pinyin surface, and not
    [lo]. *)
Definition typable (k : SyllableKey) : Prop :=
  index k < FULL_PINYIN_SYLLABLE_COUNT /\ index k <> untyped.

Lemma typable_pair s t k :
  tables s = Some t -> typable k ->
  exists a b, is_key a = true /\ is_key b = true /\ parse_two_keys a b t = Some k.
Proof.
  intros Ht [Hk Hu]. assert (typing_checked s = true) as Hs.
  { apply (forallb_elem _ _ _ typings_checked). destruct s; try done; by repeat constructor. }
  unfold typing_checked in Hs. rewrite Ht in Hs. apply (forallb_seq _ _ _ Hs) in Hk. cbv beta in Hk.
  destruct (typing s !! index k) as [[a b]|]; [|done]. unfold pair_types in Hk.
  rewrite (proj2 (Nat.eqb_neq _ _) Hu) in Hk. cbn [orb fst snd] in Hk.
  apply andb_true_iff in Hk as [[Ha Hb]%andb_true_iff Hp]. exists a, b. split_and!; [done..|].
  destruct (parse_two_keys a b t) as [[i]|]; [|done]. apply Nat.eqb_eq in Hp. cbn [index] in Hp. subst i. by destruct k.
Qed.

(** ** Typing a text *)

(** The two bytes of each key, at [2 * i]. *)
Definition typed_keys (from : nat) (ks : list SyllableKey) : list DoublePinyinKey :=
  imap (fun i k => mk_double_key k (from + 2 * i) (from + 2 * i + 2) 0) ks.

Lemma typed_keys_cons from k ks :
  typed_keys from (k :: ks) = mk_double_key k from (from + 2) 0 :: typed_keys (from + 2) ks.
Proof.
  unfold typed_keys. cbn [imap]. rewrite Nat.mul_0_r, Nat.add_0_r. f_equal.
  apply imap_ext. intros i x _. unfold compose. f_equal; lia.
Qed.

(** [input] is a key pair for each of [ks]. *)
Inductive types (t : SchemeTables) : bytes -> list SyllableKey -> Prop :=
  | types_nil : types t [] []
  | types_cons a b k input ks :
      is_key a = true -> is_key b = true -> parse_two_keys a b t = Some k ->
      types t input ks -> types t (a :: b :: input) (k :: ks).

Lemma types_length t input ks : types t input ks -> length input = 2 * length ks.
Proof. induction 1; simpl in *; lia. Qed.

Lemma types_window t input ks : types t input ks -> probe_window input = input.
Proof.
  unfold probe_window. induction 1 as [|a b k input ks Ha Hb _ _ IH]; [done|].
  cbn [take_while]. by rewrite Ha, Hb, IH.
Qed.

Lemma types_exist s t ks :
  tables s = Some t -> Forall typable ks -> exists input, types t input ks.
Proof.
  intros Ht. induction 1 as [|k ks Hk _ [input IH]]; [by exists []; constructor|].
  destruct (typable_pair s t k Ht Hk) as (a & b & Ha & Hb & Hp). exists (a :: b :: input). by constructor.
Qed.

Lemma types_run t probe pre input ks :
  types t input ks ->
  (forall a b, probe [a; b] = (fun k => (k, 0%Z)) <$> parse_two_keys a b t) ->
  (forall a b d, probe [a; b; d] = None) ->
  greedy_run probe (pre ++ input) (length pre) (typed_keys (length pre) ks) (length (pre ++ input)).
Proof.
  intros Hty H2 H3. revert pre. induction Hty as [|a b k input ks Ha Hb Hp Hty IH]; intros pre.
  { rewrite app_nil_r. split; [done|]. intros e He. lia. }
  rewrite typed_keys_cons. cbn [greedy_run start end_ DoublePinyin.key DoublePinyin.tone].
  specialize (IH (pre ++ [a; b])). rewrite <- app_assoc, length_app in IH. cbn [length app] in IH.
  split; [done|]. split; [rewrite length_app; simpl; lia|]. split; [|split; [|exact IH]].
  - unfold slice. rewrite drop_app_length. replace (length pre + 2 - length pre) with 2 by lia.
    cbn [take]. by rewrite H2, Hp.
  - intros e He. rewrite length_app in He. cbn [length] in He. assert (e = length pre + 3) as -> by lia.
    unfold slice. rewrite drop_app_length. replace (length pre + 3 - length pre) with 3 by lia.
    destruct input as [|d input]; [simpl in He; lia|]. apply H3.
Qed.

(** C20. Every scheme types every syllable but [lo], and typing is undone by
    parsing. Under each compiled scheme any text of complete full-pinyin
    syllables other than [lo] has an input of two keys a syllable that parses,
    with or without the incomplete keys, back to exactly those syllables, all
    of it consumed. *)
Theorem double_typing_round_trip (s : DoublePinyinScheme) (ks : list SyllableKey) (allow : bool) :
  s <> Customized -> Forall typable ks ->
  exists input, length input = 2 * length ks /\
    parse (with_scheme s) input allow = mk_double_parse (typed_keys 0 ks) (length input).
Proof.
  intros Hs Hks. destruct (tables s) as [t|] eqn:Et; [|by destruct s].
  destruct (types_exist s t ks Et Hks) as [input Hty]. exists input. split; [by apply (types_length t)|].
  unfold parse. apply (parse_with_options_run (with_scheme s) t).
  - unfold parser_tables. cbn [with_scheme scheme suppress_fallback]. by rewrite Et.
  - rewrite (types_window t input ks Hty). apply (types_run t _ [] input ks Hty).
    + intros a b. by destruct allow.
    + intros a b d. by destruct allow.
Qed.

Definition sample_text : list SyllableKey :=
  Eval vm_compute in omap from_text [str "ni"; str "hao"; str "shuang"; str "er"].

Lemma double_typing_round_trip_witness :
  (Xhe <> Customized /\ Forall typable sample_text) /\
  exists input, length input = 2 * length sample_text /\
    parse (with_scheme Xhe) input true = mk_double_parse (typed_keys 0 sample_text) (length input).
Proof.
  assert (Xhe <> Customized /\ Forall typable sample_text) as H.
  { split; [done|]. repeat constructor; cbn [index]; first [apply Nat.ltb_lt|apply Nat.eqb_neq]; vm_compute; reflexivity. }
  split; [exact H|]. destruct H as [H1 H2]. exact (double_typing_round_trip Xhe sample_text true H1 H2).
Defined.
