(* ===== verification/ZhuyinData.v ===== *)
(** * ZhuyinData: the zhuyin keyboards and indexes

    [crates/oxpinyin-core/src/table_data/zhuyin_keyboards.rs],
    [zhuyin_indexes.rs], [zhuyin_tones.rs] and [tone_symbols.rs], row by row:
    the symbol and tone keys of every keyboard; the three indexes from input
    spellings to canonical spelling, pinyin and option bits; the tones each
    syllable takes. *)

From Stdlib Require Import ZArith String Strings.Byte.
From stdpp Require Import base list.
From S2P Require Import Prelude Options.

Definition SymbolTable : Type := list (byte * bytes).
Definition ToneTable : Type := list (byte * Z).

(** Input spelling, canonical spelling, canonical pinyin, option bits. *)
Definition ZhuyinRow : Type := bytes * bytes * bytes * Z.
Definition ZhuyinIndex : Type := list ZhuyinRow.

Local Abbreviation k b s := (b, str s%string).
Local Abbreviation z i c p f := (str i%string, str c%string, str p%string, f).

Definition STANDARD_SYMBOLS : SymbolTable := Eval vm_compute in
  [k x2c "ㄝ"; k x2d "ㄦ"; k x2e "ㄡ"; k x2f "ㄥ"; k x30 "ㄢ"; k x31 "ㄅ"; k x32 "ㄉ"; k x35 "ㄓ";
   k x38 "ㄚ"; k x39 "ㄞ"; k x3b "ㄤ"; k x61 "ㄇ"; k x62 "ㄖ"; k x63 "ㄏ"; k x64 "ㄎ"; k x65 "ㄍ";
   k x66 "ㄑ"; k x67 "ㄕ"; k x68 "ㄘ"; k x69 "ㄛ"; k x6a "ㄨ"; k x6b "ㄜ"; k x6c "ㄠ"; k x6d "ㄩ";
   k x6e "ㄙ"; k x6f "ㄟ"; k x70 "ㄣ"; k x71 "ㄆ"; k x72 "ㄐ"; k x73 "ㄋ"; k x74 "ㄔ"; k x75 "ㄧ";
   k x76 "ㄒ"; k x77 "ㄊ"; k x78 "ㄌ"; k x79 "ㄗ"; k x7a "ㄈ"].

Definition STANDARD_TONES : ToneTable := Eval vm_compute in
  [(x20, 1%Z); (x33, 3%Z); (x34, 4%Z); (x36, 2%Z); (x37, 5%Z)].

Definition IBM_SYMBOLS : SymbolTable := Eval vm_compute in
  [k x2d "ㄏ"; k x30 "ㄎ"; k x31 "ㄅ"; k x32 "ㄆ"; k x33 "ㄇ"; k x34 "ㄈ"; k x35 "ㄉ"; k x36 "ㄊ";
   k x37 "ㄋ"; k x38 "ㄌ"; k x39 "ㄍ"; k x3b "ㄠ"; k x61 "ㄧ"; k x62 "ㄥ"; k x63 "ㄣ"; k x64 "ㄩ";
   k x65 "ㄒ"; k x66 "ㄚ"; k x67 "ㄛ"; k x68 "ㄜ"; k x69 "ㄗ"; k x6a "ㄝ"; k x6b "ㄞ"; k x6c "ㄟ";
   k x6e "ㄦ"; k x6f "ㄘ"; k x70 "ㄙ"; k x71 "ㄐ"; k x72 "ㄓ"; k x73 "ㄨ"; k x74 "ㄔ"; k x75 "ㄖ";
   k x76 "ㄤ"; k x77 "ㄑ"; k x78 "ㄢ"; k x79 "ㄕ"; k x7a "ㄡ"].

Definition IBM_TONES : ToneTable := Eval vm_compute in
  [(x20, 1%Z); (x2c, 3%Z); (x2e, 4%Z); (x2f, 5%Z); (x6d, 2%Z)].

Definition GINYIEH_SYMBOLS : SymbolTable := Eval vm_compute in
  [k x27 "ㄥ"; k x2c "ㄚ"; k x2d "ㄣ"; k x2e "ㄞ"; k x2f "ㄢ"; k x30 "ㄟ"; k x32 "ㄅ"; k x33 "ㄉ";
   k x36 "ㄓ"; k x38 "ㄧ"; k x39 "ㄛ"; k x3b "ㄡ"; k x3d "ㄦ"; k x5b "ㄤ"; k x62 "ㄒ"; k x63 "ㄌ";
   k x64 "ㄋ"; k x65 "ㄊ"; k x66 "ㄎ"; k x67 "ㄑ"; k x68 "ㄕ"; k x69 "ㄨ"; k x6a "ㄘ"; k x6b "ㄩ";
   k x6c "ㄝ"; k x6d "ㄙ"; k x6e "ㄖ"; k x6f "ㄜ"; k x70 "ㄠ"; k x72 "ㄍ"; k x73 "ㄇ"; k x74 "ㄐ";
   k x75 "ㄗ"; k x76 "ㄏ"; k x77 "ㄆ"; k x78 "ㄈ"; k x79 "ㄔ"].

Definition GINYIEH_TONES : ToneTable := Eval vm_compute in
  [(x20, 1%Z); (x31, 5%Z); (x61, 3%Z); (x71, 2%Z); (x7a, 4%Z)].

Definition ETEN_SYMBOLS : SymbolTable := Eval vm_compute in
  [k x27 "ㄘ"; k x2c "ㄓ"; k x2d "ㄥ"; k x2e "ㄔ"; k x2f "ㄕ"; k x30 "ㄤ"; k x37 "ㄑ"; k x38 "ㄢ";
   k x39 "ㄣ"; k x3b "ㄗ"; k x3d "ㄦ"; k x61 "ㄚ"; k x62 "ㄅ"; k x63 "ㄒ"; k x64 "ㄉ"; k x65 "ㄧ";
   k x66 "ㄈ"; k x67 "ㄐ"; k x68 "ㄏ"; k x69 "ㄞ"; k x6a "ㄖ"; k x6b "ㄎ"; k x6c "ㄌ"; k x6d "ㄇ";
   k x6e "ㄋ"; k x6f "ㄛ"; k x70 "ㄆ"; k x71 "ㄟ"; k x72 "ㄜ"; k x73 "ㄙ"; k x74 "ㄊ"; k x75 "ㄩ";
   k x76 "ㄍ"; k x77 "ㄝ"; k x78 "ㄨ"; k x79 "ㄡ"; k x7a "ㄠ"].

Definition ETEN_TONES : ToneTable := Eval vm_compute in
  [(x20, 1%Z); (x31, 5%Z); (x32, 2%Z); (x33, 3%Z); (x34, 4%Z)].

Definition HSU_INITIALS : SymbolTable := Eval vm_compute in
  [k x61 "ㄘ"; k x62 "ㄅ"; k x63 "ㄒ"; k x63 "ㄕ"; k x64 "ㄉ"; k x66 "ㄈ"; k x67 "ㄍ"; k x68 "ㄏ";
   k x6a "ㄐ"; k x6a "ㄓ"; k x6b "ㄎ"; k x6c "ㄌ"; k x6d "ㄇ"; k x6e "ㄋ"; k x70 "ㄆ"; k x72 "ㄖ";
   k x73 "ㄙ"; k x74 "ㄊ"; k x76 "ㄑ"; k x76 "ㄔ"; k x7a "ㄗ"].

Definition HSU_MIDDLES : SymbolTable := Eval vm_compute in
  [k x65 "ㄧ"; k x75 "ㄩ"; k x78 "ㄨ"].

Definition HSU_FINALS : SymbolTable := Eval vm_compute in
  [k x61 "ㄟ"; k x65 "ㄝ"; k x67 "ㄜ"; k x68 "ㄛ"; k x69 "ㄞ"; k x6b "ㄤ"; k x6c "ㄥ"; k x6c "ㄦ";
   k x6d "ㄢ"; k x6e "ㄣ"; k x6f "ㄡ"; k x77 "ㄠ"; k x79 "ㄚ"].

Definition HSU_TONES : ToneTable := Eval vm_compute in
  [(x20, 1%Z); (x64, 2%Z); (x66, 3%Z); (x6a, 4%Z); (x73, 5%Z)].

Definition ETEN26_INITIALS : SymbolTable := Eval vm_compute in
  [k x62 "ㄅ"; k x63 "ㄒ"; k x63 "ㄕ"; k x64 "ㄉ"; k x66 "ㄈ"; k x67 "ㄐ"; k x67 "ㄓ"; k x68 "ㄏ";
   k x6a "ㄖ"; k x6b "ㄎ"; k x6c "ㄌ"; k x6d "ㄇ"; k x6e "ㄋ"; k x70 "ㄆ"; k x71 "ㄗ"; k x73 "ㄙ";
   k x74 "ㄊ"; k x76 "ㄍ"; k x76 "ㄑ"; k x77 "ㄘ"; k x79 "ㄔ"].

Definition ETEN26_MIDDLES : SymbolTable := Eval vm_compute in
  [k x65 "ㄧ"; k x75 "ㄩ"; k x78 "ㄨ"].

Definition ETEN26_FINALS : SymbolTable := Eval vm_compute in
  [k x61 "ㄚ"; k x68 "ㄦ"; k x69 "ㄞ"; k x6c "ㄥ"; k x6d "ㄢ"; k x6e "ㄣ"; k x6f "ㄛ"; k x70 "ㄡ";
   k x71 "ㄟ"; k x72 "ㄜ"; k x74 "ㄤ"; k x77 "ㄝ"; k x7a "ㄠ"].

Definition ETEN26_TONES : ToneTable := Eval vm_compute in
  [(x20, 1%Z); (x64, 5%Z); (x66, 2%Z); (x6a, 3%Z); (x6b, 4%Z)].

Definition HSU_DVORAK_INITIALS : SymbolTable := Eval vm_compute in
  [k x61 "ㄘ"; k x62 "ㄅ"; k x63 "ㄒ"; k x63 "ㄕ"; k x64 "ㄉ"; k x66 "ㄈ"; k x67 "ㄍ"; k x68 "ㄏ";
   k x6a "ㄐ"; k x6a "ㄓ"; k x6b "ㄎ"; k x6c "ㄌ"; k x6d "ㄇ"; k x6e "ㄋ"; k x70 "ㄆ"; k x72 "ㄖ";
   k x73 "ㄙ"; k x74 "ㄊ"; k x76 "ㄑ"; k x76 "ㄔ"; k x7a "ㄗ"].

Definition HSU_DVORAK_MIDDLES : SymbolTable := Eval vm_compute in
  [k x65 "ㄧ"; k x75 "ㄩ"; k x78 "ㄨ"].

Definition HSU_DVORAK_FINALS : SymbolTable := Eval vm_compute in
  [k x61 "ㄟ"; k x65 "ㄝ"; k x67 "ㄜ"; k x68 "ㄛ"; k x69 "ㄞ"; k x6b "ㄤ"; k x6c "ㄥ"; k x6c "ㄦ";
   k x6d "ㄢ"; k x6e "ㄣ"; k x6f "ㄡ"; k x77 "ㄠ"; k x79 "ㄚ"].

Definition HSU_DVORAK_TONES : ToneTable := Eval vm_compute in
  [(x20, 1%Z); (x64, 2%Z); (x66, 3%Z); (x6a, 4%Z); (x73, 5%Z)].

Definition CP26_INITIALS : SymbolTable := Eval vm_compute in
  [k x61 "ㄇ"; k x62 "ㄖ"; k x63 "ㄏ"; k x64 "ㄎ"; k x65 "ㄍ"; k x66 "ㄑ"; k x67 "ㄕ"; k x68 "ㄘ";
   k x6e "ㄙ"; k x71 "ㄅ"; k x71 "ㄆ"; k x72 "ㄐ"; k x73 "ㄋ"; k x74 "ㄓ"; k x74 "ㄔ"; k x76 "ㄒ";
   k x77 "ㄉ"; k x77 "ㄊ"; k x78 "ㄌ"; k x79 "ㄗ"; k x7a "ㄈ"].

Definition CP26_MIDDLES : SymbolTable := Eval vm_compute in
  [k x6a "ㄨ"; k x6d "ㄩ"; k x75 "ㄧ"].

Definition CP26_FINALS : SymbolTable := Eval vm_compute in
  [k x62 "ㄝ"; k x69 "ㄛ"; k x69 "ㄞ"; k x6b "ㄜ"; k x6c "ㄠ"; k x6c "ㄤ"; k x6d "ㄡ"; k x6e "ㄥ";
   k x6f "ㄟ"; k x6f "ㄢ"; k x70 "ㄣ"; k x70 "ㄦ"; k x75 "ㄚ"].

Definition CP26_TONES : ToneTable := Eval vm_compute in
  [(x20, 1%Z); (x64, 4%Z); (x65, 2%Z); (x72, 3%Z); (x79, 5%Z)].

Definition ZHUYIN_PINYIN_MAP : ZhuyinIndex := Eval vm_compute in
  [z "ㄅ" "ㄅ" "b" ZHUYIN_INCOMPLETE; z "ㄅㄚ" "ㄅㄚ" "ba" 0%Z; z "ㄅㄛ" "ㄅㄛ" "bo" 0%Z;
   z "ㄅㄝㄧ" "ㄅㄧㄝ" "bie" ZHUYIN_CORRECT_SHUFFLE; z "ㄅㄞ" "ㄅㄞ" "bai" 0%Z; z "ㄅㄟ" "ㄅㄟ" "bei" 0%Z;
   z "ㄅㄠ" "ㄅㄠ" "bao" 0%Z; z "ㄅㄠㄧ" "ㄅㄧㄠ" "biao" ZHUYIN_CORRECT_SHUFFLE; z "ㄅㄢ" "ㄅㄢ" "ban" 0%Z;
   z "ㄅㄢㄧ" "ㄅㄧㄢ" "bian" ZHUYIN_CORRECT_SHUFFLE; z "ㄅㄣ" "ㄅㄣ" "ben" 0%Z;
   z "ㄅㄣㄧ" "ㄅㄧㄣ" "bin" ZHUYIN_CORRECT_SHUFFLE; z "ㄅㄤ" "ㄅㄤ" "bang" 0%Z; z "ㄅㄥ" "ㄅㄥ" "beng" 0%Z;
   z "ㄅㄥㄧ" "ㄅㄧㄥ" "bing" ZHUYIN_CORRECT_SHUFFLE; z "ㄅㄧ" "ㄅㄧ" "bi" 0%Z; z "ㄅㄧㄝ" "ㄅㄧㄝ" "bie" 0%Z;
   z "ㄅㄧㄠ" "ㄅㄧㄠ" "biao" 0%Z; z "ㄅㄧㄢ" "ㄅㄧㄢ" "bian" 0%Z; z "ㄅㄧㄣ" "ㄅㄧㄣ" "bin" 0%Z;
   z "ㄅㄧㄥ" "ㄅㄧㄥ" "bing" 0%Z; z "ㄅㄨ" "ㄅㄨ" "bu" 0%Z; z "ㄆ" "ㄆ" "p" ZHUYIN_INCOMPLETE;
   z "ㄆㄚ" "ㄆㄚ" "pa" 0%Z; z "ㄆㄛ" "ㄆㄛ" "po" 0%Z; z "ㄆㄝㄧ" "ㄆㄧㄝ" "pie" ZHUYIN_CORRECT_SHUFFLE;
   z "ㄆㄞ" "ㄆㄞ" "pai" 0%Z; z "ㄆㄟ" "ㄆㄟ" "pei" 0%Z; z "ㄆㄠ" "ㄆㄠ" "pao" 0%Z;
   z "ㄆㄠㄧ" "ㄆㄧㄠ" "piao" ZHUYIN_CORRECT_SHUFFLE; z "ㄆㄡ" "ㄆㄡ" "pou" 0%Z; z "ㄆㄢ" "ㄆㄢ" "pan" 0%Z;
   z "ㄆㄢㄧ" "ㄆㄧㄢ" "pian" ZHUYIN_CORRECT_SHUFFLE; z "ㄆㄣ" "ㄆㄣ" "pen" 0%Z;
   z "ㄆㄣㄧ" "ㄆㄧㄣ" "pin" ZHUYIN_CORRECT_SHUFFLE; z "ㄆㄤ" "ㄆㄤ" "pang" 0%Z; z "ㄆㄥ" "ㄆㄥ" "peng" 0%Z;
   z "ㄆㄥㄧ" "ㄆㄧㄥ" "ping" ZHUYIN_CORRECT_SHUFFLE; z "ㄆㄧ" "ㄆㄧ" "pi" 0%Z; z "ㄆㄧㄝ" "ㄆㄧㄝ" "pie" 0%Z;
   z "ㄆㄧㄠ" "ㄆㄧㄠ" "piao" 0%Z; z "ㄆㄧㄢ" "ㄆㄧㄢ" "pian" 0%Z; z "ㄆㄧㄣ" "ㄆㄧㄣ" "pin" 0%Z;
   z "ㄆㄧㄥ" "ㄆㄧㄥ" "ping" 0%Z; z "ㄆㄨ" "ㄆㄨ" "pu" 0%Z; z "ㄇ" "ㄇ" "m" ZHUYIN_INCOMPLETE;
   z "ㄇㄚ" "ㄇㄚ" "ma" 0%Z; z "ㄇㄛ" "ㄇㄛ" "mo" 0%Z; z "ㄇㄜ" "ㄇㄜ" "me" 0%Z;
   z "ㄇㄝㄧ" "ㄇㄧㄝ" "mie" ZHUYIN_CORRECT_SHUFFLE; z "ㄇㄞ" "ㄇㄞ" "mai" 0%Z; z "ㄇㄟ" "ㄇㄟ" "mei" 0%Z;
   z "ㄇㄠ" "ㄇㄠ" "mao" 0%Z; z "ㄇㄠㄧ" "ㄇㄧㄠ" "miao" ZHUYIN_CORRECT_SHUFFLE; z "ㄇㄡ" "ㄇㄡ" "mou" 0%Z;
   z "ㄇㄡㄧ" "ㄇㄧㄡ" "miu" ZHUYIN_CORRECT_SHUFFLE; z "ㄇㄢ" "ㄇㄢ" "man" 0%Z;
   z "ㄇㄢㄧ" "ㄇㄧㄢ" "mian" ZHUYIN_CORRECT_SHUFFLE; z "ㄇㄣ" "ㄇㄣ" "men" 0%Z;
   z "ㄇㄣㄧ" "ㄇㄧㄣ" "min" ZHUYIN_CORRECT_SHUFFLE; z "ㄇㄤ" "ㄇㄤ" "mang" 0%Z; z "ㄇㄥ" "ㄇㄥ" "meng" 0%Z;
   z "ㄇㄥㄧ" "ㄇㄧㄥ" "ming" ZHUYIN_CORRECT_SHUFFLE; z "ㄇㄧ" "ㄇㄧ" "mi" 0%Z; z "ㄇㄧㄝ" "ㄇㄧㄝ" "mie" 0%Z;
   z "ㄇㄧㄠ" "ㄇㄧㄠ" "miao" 0%Z; z "ㄇㄧㄡ" "ㄇㄧㄡ" "miu" 0%Z; z "ㄇㄧㄢ" "ㄇㄧㄢ" "mian" 0%Z;
   z "ㄇㄧㄣ" "ㄇㄧㄣ" "min" 0%Z; z "ㄇㄧㄥ" "ㄇㄧㄥ" "ming" 0%Z; z "ㄇㄨ" "ㄇㄨ" "mu" 0%Z;
   z "ㄈ" "ㄈ" "f" ZHUYIN_INCOMPLETE; z "ㄈㄚ" "ㄈㄚ" "fa" 0%Z; z "ㄈㄛ" "ㄈㄛ" "fo" 0%Z;
   z "ㄈㄜ" "ㄈㄜ" "fe" 0%Z; z "ㄈㄟ" "ㄈㄟ" "fei" 0%Z; z "ㄈㄡ" "ㄈㄡ" "fou" 0%Z; z "ㄈㄢ" "ㄈㄢ" "fan" 0%Z;
   z "ㄈㄣ" "ㄈㄣ" "fen" 0%Z; z "ㄈㄤ" "ㄈㄤ" "fang" 0%Z; z "ㄈㄥ" "ㄈㄥ" "feng" 0%Z; z "ㄈㄨ" "ㄈㄨ" "fu" 0%Z;
   z "ㄉ" "ㄉ" "d" ZHUYIN_INCOMPLETE; z "ㄉㄚ" "ㄉㄚ" "da" 0%Z;
   z "ㄉㄚㄧ" "ㄉㄧㄚ" "dia" ZHUYIN_CORRECT_SHUFFLE; z "ㄉㄛㄨ" "ㄉㄨㄛ" "duo" ZHUYIN_CORRECT_SHUFFLE;
   z "ㄉㄜ" "ㄉㄜ" "de" 0%Z; z "ㄉㄝㄧ" "ㄉㄧㄝ" "die" ZHUYIN_CORRECT_SHUFFLE; z "ㄉㄞ" "ㄉㄞ" "dai" 0%Z;
   z "ㄉㄟ" "ㄉㄟ" "dei" 0%Z; z "ㄉㄟㄨ" "ㄉㄨㄟ" "dui" ZHUYIN_CORRECT_SHUFFLE; z "ㄉㄠ" "ㄉㄠ" "dao" 0%Z;
   z "ㄉㄠㄧ" "ㄉㄧㄠ" "diao" ZHUYIN_CORRECT_SHUFFLE; z "ㄉㄡ" "ㄉㄡ" "dou" 0%Z;
   z "ㄉㄡㄧ" "ㄉㄧㄡ" "diu" ZHUYIN_CORRECT_SHUFFLE; z "ㄉㄢ" "ㄉㄢ" "dan" 0%Z;
   z "ㄉㄢㄧ" "ㄉㄧㄢ" "dian" ZHUYIN_CORRECT_SHUFFLE; z "ㄉㄢㄨ" "ㄉㄨㄢ" "duan" ZHUYIN_CORRECT_SHUFFLE;
   z "ㄉㄣ" "ㄉㄣ" "den" 0%Z; z "ㄉㄣㄧ" "ㄉㄧㄣ" "din" ZHUYIN_CORRECT_SHUFFLE;
   z "ㄉㄣㄨ" "ㄉㄨㄣ" "dun" ZHUYIN_CORRECT_SHUFFLE; z "ㄉㄤ" "ㄉㄤ" "dang" 0%Z; z "ㄉㄥ" "ㄉㄥ" "deng" 0%Z;
   z "ㄉㄥㄧ" "ㄉㄧㄥ" "ding" ZHUYIN_CORRECT_SHUFFLE; z "ㄉㄥㄨ" "ㄉㄨㄥ" "dong" ZHUYIN_CORRECT_SHUFFLE;
   z "ㄉㄧ" "ㄉㄧ" "di" 0%Z; z "ㄉㄧㄚ" "ㄉㄧㄚ" "dia" 0%Z; z "ㄉㄧㄝ" "ㄉㄧㄝ" "die" 0%Z;
   z "ㄉㄧㄠ" "ㄉㄧㄠ" "diao" 0%Z; z "ㄉㄧㄡ" "ㄉㄧㄡ" "diu" 0%Z; z "ㄉㄧㄢ" "ㄉㄧㄢ" "dian" 0%Z;
   z "ㄉㄧㄣ" "ㄉㄧㄣ" "din" 0%Z; z "ㄉㄧㄥ" "ㄉㄧㄥ" "ding" 0%Z; z "ㄉㄨ" "ㄉㄨ" "du" 0%Z;
   z "ㄉㄨㄛ" "ㄉㄨㄛ" "duo" 0%Z; z "ㄉㄨㄟ" "ㄉㄨㄟ" "dui" 0%Z; z "ㄉㄨㄢ" "ㄉㄨㄢ" "duan" 0%Z;
   z "ㄉㄨㄣ" "ㄉㄨㄣ" "dun" 0%Z; z "ㄉㄨㄥ" "ㄉㄨㄥ" "dong" 0%Z; z "ㄊ" "ㄊ" "t" ZHUYIN_INCOMPLETE;
   z "ㄊㄚ" "ㄊㄚ" "ta" 0%Z; z "ㄊㄛㄨ" "ㄊㄨㄛ" "tuo" ZHUYIN_CORRECT_SHUFFLE; z "ㄊㄜ" "ㄊㄜ" "te" 0%Z;
   z "ㄊㄝㄧ" "ㄊㄧㄝ" "tie" ZHUYIN_CORRECT_SHUFFLE; z "ㄊㄞ" "ㄊㄞ" "tai" 0%Z;
   z "ㄊㄟㄨ" "ㄊㄨㄟ" "tui" ZHUYIN_CORRECT_SHUFFLE; z "ㄊㄠ" "ㄊㄠ" "tao" 0%Z;
   z "ㄊㄠㄧ" "ㄊㄧㄠ" "tiao" ZHUYIN_CORRECT_SHUFFLE; z "ㄊㄡ" "ㄊㄡ" "tou" 0%Z; z "ㄊㄢ" "ㄊㄢ" "tan" 0%Z;
   z "ㄊㄢㄧ" "ㄊㄧㄢ" "tian" ZHUYIN_CORRECT_SHUFFLE; z "ㄊㄢㄨ" "ㄊㄨㄢ" "tuan" ZHUYIN_CORRECT_SHUFFLE;
   z "ㄊㄣㄨ" "ㄊㄨㄣ" "tun" ZHUYIN_CORRECT_SHUFFLE; z "ㄊㄤ" "ㄊㄤ" "tang" 0%Z; z "ㄊㄥ" "ㄊㄥ" "teng" 0%Z;
   z "ㄊㄥㄧ" "ㄊㄧㄥ" "ting" ZHUYIN_CORRECT_SHUFFLE; z "ㄊㄥㄨ" "ㄊㄨㄥ" "tong" ZHUYIN_CORRECT_SHUFFLE;
   z "ㄊㄧ" "ㄊㄧ" "ti" 0%Z; z "ㄊㄧㄝ" "ㄊㄧㄝ" "tie" 0%Z; z "ㄊㄧㄠ" "ㄊㄧㄠ" "tiao" 0%Z;
   z "ㄊㄧㄢ" "ㄊㄧㄢ" "tian" 0%Z; z "ㄊㄧㄥ" "ㄊㄧㄥ" "ting" 0%Z; z "ㄊㄨ" "ㄊㄨ" "tu" 0%Z;
   z "ㄊㄨㄛ" "ㄊㄨㄛ" "tuo" 0%Z; z "ㄊㄨㄟ" "ㄊㄨㄟ" "tui" 0%Z; z "ㄊㄨㄢ" "ㄊㄨㄢ" "tuan" 0%Z;
   z "ㄊㄨㄣ" "ㄊㄨㄣ" "tun" 0%Z; z "ㄊㄨㄥ" "ㄊㄨㄥ" "tong" 0%Z; z "ㄋ" "ㄋ" "n" ZHUYIN_INCOMPLETE;
   z "ㄋㄚ" "ㄋㄚ" "na" 0%Z; z "ㄋㄚㄧ" "ㄋㄧㄚ" "nia" ZHUYIN_CORRECT_SHUFFLE;
   z "ㄋㄛㄨ" "ㄋㄨㄛ" "nuo" ZHUYIN_CORRECT_SHUFFLE; z "ㄋㄜ" "ㄋㄜ" "ne" 0%Z;
   z "ㄋㄝㄧ" "ㄋㄧㄝ" "nie" ZHUYIN_CORRECT_SHUFFLE; z "ㄋㄝㄩ" "ㄋㄩㄝ" "nve" ZHUYIN_CORRECT_SHUFFLE;
   z "ㄋㄞ" "ㄋㄞ" "nai" 0%Z; z "ㄋㄟ" "ㄋㄟ" "nei" 0%Z; z "ㄋㄠ" "ㄋㄠ" "nao" 0%Z;
   z "ㄋㄠㄧ" "ㄋㄧㄠ" "niao" ZHUYIN_CORRECT_SHUFFLE; z "ㄋㄡ" "ㄋㄡ" "nou" 0%Z;
   z "ㄋㄡㄧ" "ㄋㄧㄡ" "niu" ZHUYIN_CORRECT_SHUFFLE; z "ㄋㄢ" "ㄋㄢ" "nan" 0%Z;
   z "ㄋㄢㄧ" "ㄋㄧㄢ" "nian" ZHUYIN_CORRECT_SHUFFLE; z "ㄋㄢㄨ" "ㄋㄨㄢ" "nuan" ZHUYIN_CORRECT_SHUFFLE;
   z "ㄋㄣ" "ㄋㄣ" "nen" 0%Z; z "ㄋㄣㄧ" "ㄋㄧㄣ" "nin" ZHUYIN_CORRECT_SHUFFLE;
   z "ㄋㄣㄨ" "ㄋㄨㄣ" "nun" ZHUYIN_CORRECT_SHUFFLE; z "ㄋㄤ" "ㄋㄤ" "nang" 0%Z;
   z "ㄋㄤㄧ" "ㄋㄧㄤ" "niang" ZHUYIN_CORRECT_SHUFFLE; z "ㄋㄥ" "ㄋㄥ" "neng" 0%Z;
   z "ㄋㄥㄧ" "ㄋㄧㄥ" "ning" ZHUYIN_CORRECT_SHUFFLE; z "ㄋㄥㄨ" "ㄋㄨㄥ" "nong" ZHUYIN_CORRECT_SHUFFLE;
   z "ㄋㄧ" "ㄋㄧ" "ni" 0%Z; z "ㄋㄧㄚ" "ㄋㄧㄚ" "nia" 0%Z; z "ㄋㄧㄝ" "ㄋㄧㄝ" "nie" 0%Z;
   z "ㄋㄧㄠ" "ㄋㄧㄠ" "niao" 0%Z; z "ㄋㄧㄡ" "ㄋㄧㄡ" "niu" 0%Z; z "ㄋㄧㄢ" "ㄋㄧㄢ" "nian" 0%Z;
   z "ㄋㄧㄣ" "ㄋㄧㄣ" "nin" 0%Z; z "ㄋㄧㄤ" "ㄋㄧㄤ" "niang" 0%Z; z "ㄋㄧㄥ" "ㄋㄧㄥ" "ning" 0%Z;
   z "ㄋㄨ" "ㄋㄨ" "nu" 0%Z; z "ㄋㄨㄛ" "ㄋㄨㄛ" "nuo" 0%Z; z "ㄋㄨㄢ" "ㄋㄨㄢ" "nuan" 0%Z;
   z "ㄋㄨㄣ" "ㄋㄨㄣ" "nun" 0%Z; z "ㄋㄨㄥ" "ㄋㄨㄥ" "nong" 0%Z; z "ㄋㄩ" "ㄋㄩ" "nv" 0%Z;
   z "ㄋㄩㄝ" "ㄋㄩㄝ" "nve" 0%Z; z "ㄌ" "ㄌ" "l" ZHUYIN_INCOMPLETE; z "ㄌㄚ" "ㄌㄚ" "la" 0%Z;
   z "ㄌㄚㄧ" "ㄌㄧㄚ" "lia" ZHUYIN_CORRECT_SHUFFLE; z "ㄌㄛ" "ㄌㄛ" "lo" 0%Z;
   z "ㄌㄛㄨ" "ㄌㄨㄛ" "luo" ZHUYIN_CORRECT_SHUFFLE; z "ㄌㄜ" "ㄌㄜ" "le" 0%Z;
   z "ㄌㄝㄧ" "ㄌㄧㄝ" "lie" ZHUYIN_CORRECT_SHUFFLE; z "ㄌㄝㄩ" "ㄌㄩㄝ" "lve" ZHUYIN_CORRECT_SHUFFLE;
   z "ㄌㄞ" "ㄌㄞ" "lai" 0%Z; z "ㄌㄟ" "ㄌㄟ" "lei" 0%Z; z "ㄌㄠ" "ㄌㄠ" "lao" 0%Z;
   z "ㄌㄠㄧ" "ㄌㄧㄠ" "liao" ZHUYIN_CORRECT_SHUFFLE; z "ㄌㄡ" "ㄌㄡ" "lou" 0%Z;
   z "ㄌㄡㄧ" "ㄌㄧㄡ" "liu" ZHUYIN_CORRECT_SHUFFLE; z "ㄌㄢ" "ㄌㄢ" "lan" 0%Z;
   z "ㄌㄢㄧ" "ㄌㄧㄢ" "lian" ZHUYIN_CORRECT_SHUFFLE; z "ㄌㄢㄨ" "ㄌㄨㄢ" "luan" ZHUYIN_CORRECT_SHUFFLE;
   z "ㄌㄣ" "ㄌㄣ" "len" 0%Z; z "ㄌㄣㄧ" "ㄌㄧㄣ" "lin" ZHUYIN_CORRECT_SHUFFLE;
   z "ㄌㄣㄨ" "ㄌㄨㄣ" "lun" ZHUYIN_CORRECT_SHUFFLE; z "ㄌㄤ" "ㄌㄤ" "lang" 0%Z;
   z "ㄌㄤㄧ" "ㄌㄧㄤ" "liang" ZHUYIN_CORRECT_SHUFFLE; z "ㄌㄥ" "ㄌㄥ" "leng" 0%Z;
   z "ㄌㄥㄧ" "ㄌㄧㄥ" "ling" ZHUYIN_CORRECT_SHUFFLE; z "ㄌㄥㄨ" "ㄌㄨㄥ" "long" ZHUYIN_CORRECT_SHUFFLE;
   z "ㄌㄧ" "ㄌㄧ" "li" 0%Z; z "ㄌㄧㄚ" "ㄌㄧㄚ" "lia" 0%Z; z "ㄌㄧㄝ" "ㄌㄧㄝ" "lie" 0%Z;
   z "ㄌㄧㄠ" "ㄌㄧㄠ" "liao" 0%Z; z "ㄌㄧㄡ" "ㄌㄧㄡ" "liu" 0%Z; z "ㄌㄧㄢ" "ㄌㄧㄢ" "lian" 0%Z;
   z "ㄌㄧㄣ" "ㄌㄧㄣ" "lin" 0%Z; z "ㄌㄧㄤ" "ㄌㄧㄤ" "liang" 0%Z; z "ㄌㄧㄥ" "ㄌㄧㄥ" "ling" 0%Z;
   z "ㄌㄨ" "ㄌㄨ" "lu" 0%Z; z "ㄌㄨㄛ" "ㄌㄨㄛ" "luo" 0%Z; z "ㄌㄨㄢ" "ㄌㄨㄢ" "luan" 0%Z;
   z "ㄌㄨㄣ" "ㄌㄨㄣ" "lun" 0%Z; z "ㄌㄨㄥ" "ㄌㄨㄥ" "long" 0%Z; z "ㄌㄩ" "ㄌㄩ" "lv" 0%Z;
   z "ㄌㄩㄝ" "ㄌㄩㄝ" "lve" 0%Z; z "ㄍ" "ㄍ" "g" ZHUYIN_INCOMPLETE; z "ㄍㄚ" "ㄍㄚ" "ga" 0%Z;
   z "ㄍㄚㄨ" "ㄍㄨㄚ" "gua" ZHUYIN_CORRECT_SHUFFLE; z "ㄍㄛㄨ" "ㄍㄨㄛ" "guo" ZHUYIN_CORRECT_SHUFFLE;
   z "ㄍㄜ" "ㄍㄜ" "ge" 0%Z; z "ㄍㄞ" "ㄍㄞ" "gai" 0%Z; z "ㄍㄞㄨ" "ㄍㄨㄞ" "guai" ZHUYIN_CORRECT_SHUFFLE;
   z "ㄍㄟ" "ㄍㄟ" "gei" 0%Z; z "ㄍㄟㄨ" "ㄍㄨㄟ" "gui" ZHUYIN_CORRECT_SHUFFLE; z "ㄍㄠ" "ㄍㄠ" "gao" 0%Z;
   z "ㄍㄡ" "ㄍㄡ" "gou" 0%Z; z "ㄍㄢ" "ㄍㄢ" "gan" 0%Z; z "ㄍㄢㄨ" "ㄍㄨㄢ" "guan" ZHUYIN_CORRECT_SHUFFLE;
   z "ㄍㄣ" "ㄍㄣ" "gen" 0%Z; z "ㄍㄣㄨ" "ㄍㄨㄣ" "gun" ZHUYIN_CORRECT_SHUFFLE; z "ㄍㄤ" "ㄍㄤ" "gang" 0%Z;
   z "ㄍㄤㄨ" "ㄍㄨㄤ" "guang" ZHUYIN_CORRECT_SHUFFLE; z "ㄍㄥ" "ㄍㄥ" "geng" 0%Z;
   z "ㄍㄥㄨ" "ㄍㄨㄥ" "gong" ZHUYIN_CORRECT_SHUFFLE; z "ㄍㄨ" "ㄍㄨ" "gu" 0%Z; z "ㄍㄨㄚ" "ㄍㄨㄚ" "gua" 0%Z;
   z "ㄍㄨㄛ" "ㄍㄨㄛ" "guo" 0%Z; z "ㄍㄨㄞ" "ㄍㄨㄞ" "guai" 0%Z; z "ㄍㄨㄟ" "ㄍㄨㄟ" "gui" 0%Z;
   z "ㄍㄨㄢ" "ㄍㄨㄢ" "guan" 0%Z; z "ㄍㄨㄣ" "ㄍㄨㄣ" "gun" 0%Z; z "ㄍㄨㄤ" "ㄍㄨㄤ" "guang" 0%Z;
   z "ㄍㄨㄥ" "ㄍㄨㄥ" "gong" 0%Z; z "ㄎ" "ㄎ" "k" ZHUYIN_INCOMPLETE; z "ㄎㄚ" "ㄎㄚ" "ka" 0%Z;
   z "ㄎㄚㄨ" "ㄎㄨㄚ" "kua" ZHUYIN_CORRECT_SHUFFLE; z "ㄎㄛㄨ" "ㄎㄨㄛ" "kuo" ZHUYIN_CORRECT_SHUFFLE;
   z "ㄎㄜ" "ㄎㄜ" "ke" 0%Z; z "ㄎㄞ" "ㄎㄞ" "kai" 0%Z; z "ㄎㄞㄨ" "ㄎㄨㄞ" "kuai" ZHUYIN_CORRECT_SHUFFLE;
   z "ㄎㄟ" "ㄎㄟ" "kei" 0%Z; z "ㄎㄟㄨ" "ㄎㄨㄟ" "kui" ZHUYIN_CORRECT_SHUFFLE; z "ㄎㄠ" "ㄎㄠ" "kao" 0%Z;
   z "ㄎㄡ" "ㄎㄡ" "kou" 0%Z; z "ㄎㄢ" "ㄎㄢ" "kan" 0%Z; z "ㄎㄢㄨ" "ㄎㄨㄢ" "kuan" ZHUYIN_CORRECT_SHUFFLE;
   z "ㄎㄣ" "ㄎㄣ" "ken" 0%Z; z "ㄎㄣㄨ" "ㄎㄨㄣ" "kun" ZHUYIN_CORRECT_SHUFFLE; z "ㄎㄤ" "ㄎㄤ" "kang" 0%Z;
   z "ㄎㄤㄨ" "ㄎㄨㄤ" "kuang" ZHUYIN_CORRECT_SHUFFLE; z "ㄎㄥ" "ㄎㄥ" "keng" 0%Z;
   z "ㄎㄥㄨ" "ㄎㄨㄥ" "kong" ZHUYIN_CORRECT_SHUFFLE; z "ㄎㄨ" "ㄎㄨ" "ku" 0%Z; z "ㄎㄨㄚ" "ㄎㄨㄚ" "kua" 0%Z;
   z "ㄎㄨㄛ" "ㄎㄨㄛ" "kuo" 0%Z; z "ㄎㄨㄞ" "ㄎㄨㄞ" "kuai" 0%Z; z "ㄎㄨㄟ" "ㄎㄨㄟ" "kui" 0%Z;
   z "ㄎㄨㄢ" "ㄎㄨㄢ" "kuan" 0%Z; z "ㄎㄨㄣ" "ㄎㄨㄣ" "kun" 0%Z; z "ㄎㄨㄤ" "ㄎㄨㄤ" "kuang" 0%Z;
   z "ㄎㄨㄥ" "ㄎㄨㄥ" "kong" 0%Z; z "ㄏ" "ㄏ" "h" ZHUYIN_INCOMPLETE; z "ㄏㄚ" "ㄏㄚ" "ha" 0%Z;
   z "ㄏㄚㄨ" "ㄏㄨㄚ" "hua" ZHUYIN_CORRECT_SHUFFLE; z "ㄏㄛㄨ" "ㄏㄨㄛ" "huo" ZHUYIN_CORRECT_SHUFFLE;
   z "ㄏㄜ" "ㄏㄜ" "he" 0%Z; z "ㄏㄞ" "ㄏㄞ" "hai" 0%Z; z "ㄏㄞㄨ" "ㄏㄨㄞ" "huai" ZHUYIN_CORRECT_SHUFFLE;
   z "ㄏㄟ" "ㄏㄟ" "hei" 0%Z; z "ㄏㄟㄨ" "ㄏㄨㄟ" "hui" ZHUYIN_CORRECT_SHUFFLE; z "ㄏㄠ" "ㄏㄠ" "hao" 0%Z;
   z "ㄏㄡ" "ㄏㄡ" "hou" 0%Z; z "ㄏㄢ" "ㄏㄢ" "han" 0%Z; z "ㄏㄢㄨ" "ㄏㄨㄢ" "huan" ZHUYIN_CORRECT_SHUFFLE;
   z "ㄏㄣ" "ㄏㄣ" "hen" 0%Z; z "ㄏㄣㄨ" "ㄏㄨㄣ" "hun" ZHUYIN_CORRECT_SHUFFLE; z "ㄏㄤ" "ㄏㄤ" "hang" 0%Z;
   z "ㄏㄤㄨ" "ㄏㄨㄤ" "huang" ZHUYIN_CORRECT_SHUFFLE; z "ㄏㄥ" "ㄏㄥ" "heng" 0%Z;
   z "ㄏㄥㄨ" "ㄏㄨㄥ" "hong" ZHUYIN_CORRECT_SHUFFLE; z "ㄏㄨ" "ㄏㄨ" "hu" 0%Z; z "ㄏㄨㄚ" "ㄏㄨㄚ" "hua" 0%Z;
   z "ㄏㄨㄛ" "ㄏㄨㄛ" "huo" 0%Z; z "ㄏㄨㄞ" "ㄏㄨㄞ" "huai" 0%Z; z "ㄏㄨㄟ" "ㄏㄨㄟ" "hui" 0%Z;
   z "ㄏㄨㄢ" "ㄏㄨㄢ" "huan" 0%Z; z "ㄏㄨㄣ" "ㄏㄨㄣ" "hun" 0%Z; z "ㄏㄨㄤ" "ㄏㄨㄤ" "huang" 0%Z;
   z "ㄏㄨㄥ" "ㄏㄨㄥ" "hong" 0%Z; z "ㄐ" "ㄐ" "j" ZHUYIN_INCOMPLETE;
   z "ㄐㄚㄧ" "ㄐㄧㄚ" "jia" ZHUYIN_CORRECT_SHUFFLE; z "ㄐㄝㄧ" "ㄐㄧㄝ" "jie" ZHUYIN_CORRECT_SHUFFLE;
   z "ㄐㄝㄩ" "ㄐㄩㄝ" "jue" ZHUYIN_CORRECT_SHUFFLE; z "ㄐㄠㄧ" "ㄐㄧㄠ" "jiao" ZHUYIN_CORRECT_SHUFFLE;
   z "ㄐㄡㄧ" "ㄐㄧㄡ" "jiu" ZHUYIN_CORRECT_SHUFFLE; z "ㄐㄢㄧ" "ㄐㄧㄢ" "jian" ZHUYIN_CORRECT_SHUFFLE;
   z "ㄐㄢㄩ" "ㄐㄩㄢ" "juan" ZHUYIN_CORRECT_SHUFFLE; z "ㄐㄣㄧ" "ㄐㄧㄣ" "jin" ZHUYIN_CORRECT_SHUFFLE;
   z "ㄐㄣㄩ" "ㄐㄩㄣ" "jun" ZHUYIN_CORRECT_SHUFFLE; z "ㄐㄤㄧ" "ㄐㄧㄤ" "jiang" ZHUYIN_CORRECT_SHUFFLE;
   z "ㄐㄥㄧ" "ㄐㄧㄥ" "jing" ZHUYIN_CORRECT_SHUFFLE; z "ㄐㄥㄩ" "ㄐㄩㄥ" "jiong" ZHUYIN_CORRECT_SHUFFLE;
   z "ㄐㄧ" "ㄐㄧ" "ji" 0%Z; z "ㄐㄧㄚ" "ㄐㄧㄚ" "jia" 0%Z; z "ㄐㄧㄝ" "ㄐㄧㄝ" "jie" 0%Z;
   z "ㄐㄧㄠ" "ㄐㄧㄠ" "jiao" 0%Z; z "ㄐㄧㄡ" "ㄐㄧㄡ" "jiu" 0%Z; z "ㄐㄧㄢ" "ㄐㄧㄢ" "jian" 0%Z;
   z "ㄐㄧㄣ" "ㄐㄧㄣ" "jin" 0%Z; z "ㄐㄧㄤ" "ㄐㄧㄤ" "jiang" 0%Z; z "ㄐㄧㄥ" "ㄐㄧㄥ" "jing" 0%Z;
   z "ㄐㄩ" "ㄐㄩ" "ju" 0%Z; z "ㄐㄩㄝ" "ㄐㄩㄝ" "jue" 0%Z; z "ㄐㄩㄢ" "ㄐㄩㄢ" "juan" 0%Z;
   z "ㄐㄩㄣ" "ㄐㄩㄣ" "jun" 0%Z; z "ㄐㄩㄥ" "ㄐㄩㄥ" "jiong" 0%Z; z "ㄑ" "ㄑ" "q" ZHUYIN_INCOMPLETE;
   z "ㄑㄚㄧ" "ㄑㄧㄚ" "qia" ZHUYIN_CORRECT_SHUFFLE; z "ㄑㄝㄧ" "ㄑㄧㄝ" "qie" ZHUYIN_CORRECT_SHUFFLE;
   z "ㄑㄝㄩ" "ㄑㄩㄝ" "que" ZHUYIN_CORRECT_SHUFFLE; z "ㄑㄠㄧ" "ㄑㄧㄠ" "qiao" ZHUYIN_CORRECT_SHUFFLE;
   z "ㄑㄡㄧ" "ㄑㄧㄡ" "qiu" ZHUYIN_CORRECT_SHUFFLE; z "ㄑㄢㄧ" "ㄑㄧㄢ" "qian" ZHUYIN_CORRECT_SHUFFLE;
   z "ㄑㄢㄩ" "ㄑㄩㄢ" "quan" ZHUYIN_CORRECT_SHUFFLE; z "ㄑㄣㄧ" "ㄑㄧㄣ" "qin" ZHUYIN_CORRECT_SHUFFLE;
   z "ㄑㄣㄩ" "ㄑㄩㄣ" "qun" ZHUYIN_CORRECT_SHUFFLE; z "ㄑㄤㄧ" "ㄑㄧㄤ" "qiang" ZHUYIN_CORRECT_SHUFFLE;
   z "ㄑㄥㄧ" "ㄑㄧㄥ" "qing" ZHUYIN_CORRECT_SHUFFLE; z "ㄑㄥㄩ" "ㄑㄩㄥ" "qiong" ZHUYIN_CORRECT_SHUFFLE;
   z "ㄑㄧ" "ㄑㄧ" "qi" 0%Z; z "ㄑㄧㄚ" "ㄑㄧㄚ" "qia" 0%Z; z "ㄑㄧㄝ" "ㄑㄧㄝ" "qie" 0%Z;
   z "ㄑㄧㄠ" "ㄑㄧㄠ" "qiao" 0%Z; z "ㄑㄧㄡ" "ㄑㄧㄡ" "qiu" 0%Z; z "ㄑㄧㄢ" "ㄑㄧㄢ" "qian" 0%Z;
   z "ㄑㄧㄣ" "ㄑㄧㄣ" "qin" 0%Z; z "ㄑㄧㄤ" "ㄑㄧㄤ" "qiang" 0%Z; z "ㄑㄧㄥ" "ㄑㄧㄥ" "qing" 0%Z;
   z "ㄑㄩ" "ㄑㄩ" "qu" 0%Z; z "ㄑㄩㄝ" "ㄑㄩㄝ" "que" 0%Z; z "ㄑㄩㄢ" "ㄑㄩㄢ" "quan" 0%Z;
   z "ㄑㄩㄣ" "ㄑㄩㄣ" "qun" 0%Z; z "ㄑㄩㄥ" "ㄑㄩㄥ" "qiong" 0%Z; z "ㄒ" "ㄒ" "x" ZHUYIN_INCOMPLETE;
   z "ㄒㄚㄧ" "ㄒㄧㄚ" "xia" ZHUYIN_CORRECT_SHUFFLE; z "ㄒㄝㄧ" "ㄒㄧㄝ" "xie" ZHUYIN_CORRECT_SHUFFLE;
   z "ㄒㄝㄩ" "ㄒㄩㄝ" "xue" ZHUYIN_CORRECT_SHUFFLE; z "ㄒㄠㄧ" "ㄒㄧㄠ" "xiao" ZHUYIN_CORRECT_SHUFFLE;
   z "ㄒㄡㄧ" "ㄒㄧㄡ" "xiu" ZHUYIN_CORRECT_SHUFFLE; z "ㄒㄢㄧ" "ㄒㄧㄢ" "xian" ZHUYIN_CORRECT_SHUFFLE;
   z "ㄒㄢㄩ" "ㄒㄩㄢ" "xuan" ZHUYIN_CORRECT_SHUFFLE; z "ㄒㄣㄧ" "ㄒㄧㄣ" "xin" ZHUYIN_CORRECT_SHUFFLE;
   z "ㄒㄣㄩ" "ㄒㄩㄣ" "xun" ZHUYIN_CORRECT_SHUFFLE; z "ㄒㄤㄧ" "ㄒㄧㄤ" "xiang" ZHUYIN_CORRECT_SHUFFLE;
   z "ㄒㄥㄧ" "ㄒㄧㄥ" "xing" ZHUYIN_CORRECT_SHUFFLE; z "ㄒㄥㄩ" "ㄒㄩㄥ" "xiong" ZHUYIN_CORRECT_SHUFFLE;
   z "ㄒㄧ" "ㄒㄧ" "xi" 0%Z; z "ㄒㄧㄚ" "ㄒㄧㄚ" "xia" 0%Z; z "ㄒㄧㄝ" "ㄒㄧㄝ" "xie" 0%Z;
   z "ㄒㄧㄠ" "ㄒㄧㄠ" "xiao" 0%Z; z "ㄒㄧㄡ" "ㄒㄧㄡ" "xiu" 0%Z; z "ㄒㄧㄢ" "ㄒㄧㄢ" "xian" 0%Z;
   z "ㄒㄧㄣ" "ㄒㄧㄣ" "xin" 0%Z; z "ㄒㄧㄤ" "ㄒㄧㄤ" "xiang" 0%Z; z "ㄒㄧㄥ" "ㄒㄧㄥ" "xing" 0%Z;
   z "ㄒㄩ" "ㄒㄩ" "xu" 0%Z; z "ㄒㄩㄝ" "ㄒㄩㄝ" "xue" 0%Z; z "ㄒㄩㄢ" "ㄒㄩㄢ" "xuan" 0%Z;
   z "ㄒㄩㄣ" "ㄒㄩㄣ" "xun" 0%Z; z "ㄒㄩㄥ" "ㄒㄩㄥ" "xiong" 0%Z; z "ㄓ" "ㄓ" "zhi" 0%Z;
   z "ㄓㄚ" "ㄓㄚ" "zha" 0%Z; z "ㄓㄚㄨ" "ㄓㄨㄚ" "zhua" ZHUYIN_CORRECT_SHUFFLE;
   z "ㄓㄛㄨ" "ㄓㄨㄛ" "zhuo" ZHUYIN_CORRECT_SHUFFLE; z "ㄓㄜ" "ㄓㄜ" "zhe" 0%Z; z "ㄓㄞ" "ㄓㄞ" "zhai" 0%Z;
   z "ㄓㄞㄨ" "ㄓㄨㄞ" "zhuai" ZHUYIN_CORRECT_SHUFFLE; z "ㄓㄟ" "ㄓㄟ" "zhei" 0%Z;
   z "ㄓㄟㄨ" "ㄓㄨㄟ" "zhui" ZHUYIN_CORRECT_SHUFFLE; z "ㄓㄠ" "ㄓㄠ" "zhao" 0%Z; z "ㄓㄡ" "ㄓㄡ" "zhou" 0%Z;
   z "ㄓㄢ" "ㄓㄢ" "zhan" 0%Z; z "ㄓㄢㄨ" "ㄓㄨㄢ" "zhuan" ZHUYIN_CORRECT_SHUFFLE; z "ㄓㄣ" "ㄓㄣ" "zhen" 0%Z;
   z "ㄓㄣㄨ" "ㄓㄨㄣ" "zhun" ZHUYIN_CORRECT_SHUFFLE; z "ㄓㄤ" "ㄓㄤ" "zhang" 0%Z;
   z "ㄓㄤㄨ" "ㄓㄨㄤ" "zhuang" ZHUYIN_CORRECT_SHUFFLE; z "ㄓㄥ" "ㄓㄥ" "zheng" 0%Z;
   z "ㄓㄥㄨ" "ㄓㄨㄥ" "zhong" ZHUYIN_CORRECT_SHUFFLE; z "ㄓㄨ" "ㄓㄨ" "zhu" 0%Z; z "ㄓㄨㄚ" "ㄓㄨㄚ" "zhua" 0%Z;
   z "ㄓㄨㄛ" "ㄓㄨㄛ" "zhuo" 0%Z; z "ㄓㄨㄞ" "ㄓㄨㄞ" "zhuai" 0%Z; z "ㄓㄨㄟ" "ㄓㄨㄟ" "zhui" 0%Z;
   z "ㄓㄨㄢ" "ㄓㄨㄢ" "zhuan" 0%Z; z "ㄓㄨㄣ" "ㄓㄨㄣ" "zhun" 0%Z; z "ㄓㄨㄤ" "ㄓㄨㄤ" "zhuang" 0%Z;
   z "ㄓㄨㄥ" "ㄓㄨㄥ" "zhong" 0%Z; z "ㄔ" "ㄔ" "chi" 0%Z; z "ㄔㄚ" "ㄔㄚ" "cha" 0%Z;
   z "ㄔㄚㄨ" "ㄔㄨㄚ" "chua" ZHUYIN_CORRECT_SHUFFLE; z "ㄔㄛㄨ" "ㄔㄨㄛ" "chuo" ZHUYIN_CORRECT_SHUFFLE;
   z "ㄔㄜ" "ㄔㄜ" "che" 0%Z; z "ㄔㄞ" "ㄔㄞ" "chai" 0%Z; z "ㄔㄞㄨ" "ㄔㄨㄞ" "chuai" ZHUYIN_CORRECT_SHUFFLE;
   z "ㄔㄟㄨ" "ㄔㄨㄟ" "chui" ZHUYIN_CORRECT_SHUFFLE; z "ㄔㄠ" "ㄔㄠ" "chao" 0%Z; z "ㄔㄡ" "ㄔㄡ" "chou" 0%Z;
   z "ㄔㄢ" "ㄔㄢ" "chan" 0%Z; z "ㄔㄢㄨ" "ㄔㄨㄢ" "chuan" ZHUYIN_CORRECT_SHUFFLE; z "ㄔㄣ" "ㄔㄣ" "chen" 0%Z;
   z "ㄔㄣㄨ" "ㄔㄨㄣ" "chun" ZHUYIN_CORRECT_SHUFFLE; z "ㄔㄤ" "ㄔㄤ" "chang" 0%Z;
   z "ㄔㄤㄨ" "ㄔㄨㄤ" "chuang" ZHUYIN_CORRECT_SHUFFLE; z "ㄔㄥ" "ㄔㄥ" "cheng" 0%Z;
   z "ㄔㄥㄨ" "ㄔㄨㄥ" "chong" ZHUYIN_CORRECT_SHUFFLE; z "ㄔㄨ" "ㄔㄨ" "chu" 0%Z; z "ㄔㄨㄚ" "ㄔㄨㄚ" "chua" 0%Z;
   z "ㄔㄨㄛ" "ㄔㄨㄛ" "chuo" 0%Z; z "ㄔㄨㄞ" "ㄔㄨㄞ" "chuai" 0%Z; z "ㄔㄨㄟ" "ㄔㄨㄟ" "chui" 0%Z;
   z "ㄔㄨㄢ" "ㄔㄨㄢ" "chuan" 0%Z; z "ㄔㄨㄣ" "ㄔㄨㄣ" "chun" 0%Z; z "ㄔㄨㄤ" "ㄔㄨㄤ" "chuang" 0%Z;
   z "ㄔㄨㄥ" "ㄔㄨㄥ" "chong" 0%Z; z "ㄕ" "ㄕ" "shi" 0%Z; z "ㄕㄚ" "ㄕㄚ" "sha" 0%Z;
   z "ㄕㄚㄨ" "ㄕㄨㄚ" "shua" ZHUYIN_CORRECT_SHUFFLE; z "ㄕㄛㄨ" "ㄕㄨㄛ" "shuo" ZHUYIN_CORRECT_SHUFFLE;
   z "ㄕㄜ" "ㄕㄜ" "she" 0%Z; z "ㄕㄞ" "ㄕㄞ" "shai" 0%Z; z "ㄕㄞㄨ" "ㄕㄨㄞ" "shuai" ZHUYIN_CORRECT_SHUFFLE;
   z "ㄕㄟ" "ㄕㄟ" "shei" 0%Z; z "ㄕㄟㄨ" "ㄕㄨㄟ" "shui" ZHUYIN_CORRECT_SHUFFLE; z "ㄕㄠ" "ㄕㄠ" "shao" 0%Z;
   z "ㄕㄡ" "ㄕㄡ" "shou" 0%Z; z "ㄕㄢ" "ㄕㄢ" "shan" 0%Z; z "ㄕㄢㄨ" "ㄕㄨㄢ" "shuan" ZHUYIN_CORRECT_SHUFFLE;
   z "ㄕㄣ" "ㄕㄣ" "shen" 0%Z; z "ㄕㄣㄨ" "ㄕㄨㄣ" "shun" ZHUYIN_CORRECT_SHUFFLE; z "ㄕㄤ" "ㄕㄤ" "shang" 0%Z;
   z "ㄕㄤㄨ" "ㄕㄨㄤ" "shuang" ZHUYIN_CORRECT_SHUFFLE; z "ㄕㄥ" "ㄕㄥ" "sheng" 0%Z; z "ㄕㄨ" "ㄕㄨ" "shu" 0%Z;
   z "ㄕㄨㄚ" "ㄕㄨㄚ" "shua" 0%Z; z "ㄕㄨㄛ" "ㄕㄨㄛ" "shuo" 0%Z; z "ㄕㄨㄞ" "ㄕㄨㄞ" "shuai" 0%Z;
   z "ㄕㄨㄟ" "ㄕㄨㄟ" "shui" 0%Z; z "ㄕㄨㄢ" "ㄕㄨㄢ" "shuan" 0%Z; z "ㄕㄨㄣ" "ㄕㄨㄣ" "shun" 0%Z;
   z "ㄕㄨㄤ" "ㄕㄨㄤ" "shuang" 0%Z; z "ㄖ" "ㄖ" "ri" 0%Z; z "ㄖㄚㄨ" "ㄖㄨㄚ" "rua" ZHUYIN_CORRECT_SHUFFLE;
   z "ㄖㄛㄨ" "ㄖㄨㄛ" "ruo" ZHUYIN_CORRECT_SHUFFLE; z "ㄖㄜ" "ㄖㄜ" "re" 0%Z;
   z "ㄖㄟㄨ" "ㄖㄨㄟ" "rui" ZHUYIN_CORRECT_SHUFFLE; z "ㄖㄠ" "ㄖㄠ" "rao" 0%Z; z "ㄖㄡ" "ㄖㄡ" "rou" 0%Z;
   z "ㄖㄢ" "ㄖㄢ" "ran" 0%Z; z "ㄖㄢㄨ" "ㄖㄨㄢ" "ruan" ZHUYIN_CORRECT_SHUFFLE; z "ㄖㄣ" "ㄖㄣ" "ren" 0%Z;
   z "ㄖㄣㄨ" "ㄖㄨㄣ" "run" ZHUYIN_CORRECT_SHUFFLE; z "ㄖㄤ" "ㄖㄤ" "rang" 0%Z; z "ㄖㄥ" "ㄖㄥ" "reng" 0%Z;
   z "ㄖㄥㄨ" "ㄖㄨㄥ" "rong" ZHUYIN_CORRECT_SHUFFLE; z "ㄖㄨ" "ㄖㄨ" "ru" 0%Z; z "ㄖㄨㄚ" "ㄖㄨㄚ" "rua" 0%Z;
   z "ㄖㄨㄛ" "ㄖㄨㄛ" "ruo" 0%Z; z "ㄖㄨㄟ" "ㄖㄨㄟ" "rui" 0%Z; z "ㄖㄨㄢ" "ㄖㄨㄢ" "ruan" 0%Z;
   z "ㄖㄨㄣ" "ㄖㄨㄣ" "run" 0%Z; z "ㄖㄨㄥ" "ㄖㄨㄥ" "rong" 0%Z; z "ㄗ" "ㄗ" "zi" 0%Z; z "ㄗㄚ" "ㄗㄚ" "za" 0%Z;
   z "ㄗㄛㄨ" "ㄗㄨㄛ" "zuo" ZHUYIN_CORRECT_SHUFFLE; z "ㄗㄜ" "ㄗㄜ" "ze" 0%Z; z "ㄗㄞ" "ㄗㄞ" "zai" 0%Z;
   z "ㄗㄟ" "ㄗㄟ" "zei" 0%Z; z "ㄗㄟㄨ" "ㄗㄨㄟ" "zui" ZHUYIN_CORRECT_SHUFFLE; z "ㄗㄠ" "ㄗㄠ" "zao" 0%Z;
   z "ㄗㄡ" "ㄗㄡ" "zou" 0%Z; z "ㄗㄢ" "ㄗㄢ" "zan" 0%Z; z "ㄗㄢㄨ" "ㄗㄨㄢ" "zuan" ZHUYIN_CORRECT_SHUFFLE;
   z "ㄗㄣ" "ㄗㄣ" "zen" 0%Z; z "ㄗㄣㄨ" "ㄗㄨㄣ" "zun" ZHUYIN_CORRECT_SHUFFLE; z "ㄗㄤ" "ㄗㄤ" "zang" 0%Z;
   z "ㄗㄥ" "ㄗㄥ" "zeng" 0%Z; z "ㄗㄥㄨ" "ㄗㄨㄥ" "zong" ZHUYIN_CORRECT_SHUFFLE; z "ㄗㄨ" "ㄗㄨ" "zu" 0%Z;
   z "ㄗㄨㄛ" "ㄗㄨㄛ" "zuo" 0%Z; z "ㄗㄨㄟ" "ㄗㄨㄟ" "zui" 0%Z; z "ㄗㄨㄢ" "ㄗㄨㄢ" "zuan" 0%Z;
   z "ㄗㄨㄣ" "ㄗㄨㄣ" "zun" 0%Z; z "ㄗㄨㄥ" "ㄗㄨㄥ" "zong" 0%Z; z "ㄘ" "ㄘ" "ci" 0%Z; z "ㄘㄚ" "ㄘㄚ" "ca" 0%Z;
   z "ㄘㄛㄨ" "ㄘㄨㄛ" "cuo" ZHUYIN_CORRECT_SHUFFLE; z "ㄘㄜ" "ㄘㄜ" "ce" 0%Z; z "ㄘㄞ" "ㄘㄞ" "cai" 0%Z;
   z "ㄘㄟㄨ" "ㄘㄨㄟ" "cui" ZHUYIN_CORRECT_SHUFFLE; z "ㄘㄠ" "ㄘㄠ" "cao" 0%Z; z "ㄘㄡ" "ㄘㄡ" "cou" 0%Z;
   z "ㄘㄢ" "ㄘㄢ" "can" 0%Z; z "ㄘㄢㄨ" "ㄘㄨㄢ" "cuan" ZHUYIN_CORRECT_SHUFFLE; z "ㄘㄣ" "ㄘㄣ" "cen" 0%Z;
   z "ㄘㄣㄨ" "ㄘㄨㄣ" "cun" ZHUYIN_CORRECT_SHUFFLE; z "ㄘㄤ" "ㄘㄤ" "cang" 0%Z; z "ㄘㄥ" "ㄘㄥ" "ceng" 0%Z;
   z "ㄘㄥㄨ" "ㄘㄨㄥ" "cong" ZHUYIN_CORRECT_SHUFFLE; z "ㄘㄨ" "ㄘㄨ" "cu" 0%Z; z "ㄘㄨㄛ" "ㄘㄨㄛ" "cuo" 0%Z;
   z "ㄘㄨㄟ" "ㄘㄨㄟ" "cui" 0%Z; z "ㄘㄨㄢ" "ㄘㄨㄢ" "cuan" 0%Z; z "ㄘㄨㄣ" "ㄘㄨㄣ" "cun" 0%Z;
   z "ㄘㄨㄥ" "ㄘㄨㄥ" "cong" 0%Z; z "ㄙ" "ㄙ" "si" 0%Z; z "ㄙㄚ" "ㄙㄚ" "sa" 0%Z;
   z "ㄙㄛㄨ" "ㄙㄨㄛ" "suo" ZHUYIN_CORRECT_SHUFFLE; z "ㄙㄜ" "ㄙㄜ" "se" 0%Z; z "ㄙㄞ" "ㄙㄞ" "sai" 0%Z;
   z "ㄙㄟㄨ" "ㄙㄨㄟ" "sui" ZHUYIN_CORRECT_SHUFFLE; z "ㄙㄠ" "ㄙㄠ" "sao" 0%Z; z "ㄙㄡ" "ㄙㄡ" "sou" 0%Z;
   z "ㄙㄢ" "ㄙㄢ" "san" 0%Z; z "ㄙㄢㄨ" "ㄙㄨㄢ" "suan" ZHUYIN_CORRECT_SHUFFLE; z "ㄙㄣ" "ㄙㄣ" "sen" 0%Z;
   z "ㄙㄣㄨ" "ㄙㄨㄣ" "sun" ZHUYIN_CORRECT_SHUFFLE; z "ㄙㄤ" "ㄙㄤ" "sang" 0%Z; z "ㄙㄥ" "ㄙㄥ" "seng" 0%Z;
   z "ㄙㄥㄨ" "ㄙㄨㄥ" "song" ZHUYIN_CORRECT_SHUFFLE; z "ㄙㄨ" "ㄙㄨ" "su" 0%Z; z "ㄙㄨㄛ" "ㄙㄨㄛ" "suo" 0%Z;
   z "ㄙㄨㄟ" "ㄙㄨㄟ" "sui" 0%Z; z "ㄙㄨㄢ" "ㄙㄨㄢ" "suan" 0%Z; z "ㄙㄨㄣ" "ㄙㄨㄣ" "sun" 0%Z;
   z "ㄙㄨㄥ" "ㄙㄨㄥ" "song" 0%Z; z "ㄚ" "ㄚ" "a" 0%Z; z "ㄚㄅ" "ㄅㄚ" "ba" ZHUYIN_CORRECT_SHUFFLE;
   z "ㄚㄆ" "ㄆㄚ" "pa" ZHUYIN_CORRECT_SHUFFLE; z "ㄚㄇ" "ㄇㄚ" "ma" ZHUYIN_CORRECT_SHUFFLE;
   z "ㄚㄈ" "ㄈㄚ" "fa" ZHUYIN_CORRECT_SHUFFLE; z "ㄚㄉ" "ㄉㄚ" "da" ZHUYIN_CORRECT_SHUFFLE;
   z "ㄚㄉㄧ" "ㄉㄧㄚ" "dia" ZHUYIN_CORRECT_SHUFFLE; z "ㄚㄊ" "ㄊㄚ" "ta" ZHUYIN_CORRECT_SHUFFLE;
   z "ㄚㄋ" "ㄋㄚ" "na" ZHUYIN_CORRECT_SHUFFLE; z "ㄚㄋㄧ" "ㄋㄧㄚ" "nia" ZHUYIN_CORRECT_SHUFFLE;
   z "ㄚㄌ" "ㄌㄚ" "la" ZHUYIN_CORRECT_SHUFFLE; z "ㄚㄌㄧ" "ㄌㄧㄚ" "lia" ZHUYIN_CORRECT_SHUFFLE;
   z "ㄚㄍ" "ㄍㄚ" "ga" ZHUYIN_CORRECT_SHUFFLE; z "ㄚㄍㄨ" "ㄍㄨㄚ" "gua" ZHUYIN_CORRECT_SHUFFLE;
   z "ㄚㄎ" "ㄎㄚ" "ka" ZHUYIN_CORRECT_SHUFFLE; z "ㄚㄎㄨ" "ㄎㄨㄚ" "kua" ZHUYIN_CORRECT_SHUFFLE;
   z "ㄚㄏ" "ㄏㄚ" "ha" ZHUYIN_CORRECT_SHUFFLE; z "ㄚㄏㄨ" "ㄏㄨㄚ" "hua" ZHUYIN_CORRECT_SHUFFLE;
   z "ㄚㄐㄧ" "ㄐㄧㄚ" "jia" ZHUYIN_CORRECT_SHUFFLE; z "ㄚㄑㄧ" "ㄑㄧㄚ" "qia" ZHUYIN_CORRECT_SHUFFLE;
   z "ㄚㄒㄧ" "ㄒㄧㄚ" "xia" ZHUYIN_CORRECT_SHUFFLE; z "ㄚㄓ" "ㄓㄚ" "zha" ZHUYIN_CORRECT_SHUFFLE;
   z "ㄚㄓㄨ" "ㄓㄨㄚ" "zhua" ZHUYIN_CORRECT_SHUFFLE; z "ㄚㄔ" "ㄔㄚ" "cha" ZHUYIN_CORRECT_SHUFFLE;
   z "ㄚㄔㄨ" "ㄔㄨㄚ" "chua" ZHUYIN_CORRECT_SHUFFLE; z "ㄚㄕ" "ㄕㄚ" "sha" ZHUYIN_CORRECT_SHUFFLE;
   z "ㄚㄕㄨ" "ㄕㄨㄚ" "shua" ZHUYIN_CORRECT_SHUFFLE; z "ㄚㄖㄨ" "ㄖㄨㄚ" "rua" ZHUYIN_CORRECT_SHUFFLE;
   z "ㄚㄗ" "ㄗㄚ" "za" ZHUYIN_CORRECT_SHUFFLE; z "ㄚㄘ" "ㄘㄚ" "ca" ZHUYIN_CORRECT_SHUFFLE;
   z "ㄚㄙ" "ㄙㄚ" "sa" ZHUYIN_CORRECT_SHUFFLE; z "ㄚㄧ" "ㄧㄚ" "ya" ZHUYIN_CORRECT_SHUFFLE;
   z "ㄚㄧㄉ" "ㄉㄧㄚ" "dia" ZHUYIN_CORRECT_SHUFFLE; z "ㄚㄧㄋ" "ㄋㄧㄚ" "nia" ZHUYIN_CORRECT_SHUFFLE;
   z "ㄚㄧㄌ" "ㄌㄧㄚ" "lia" ZHUYIN_CORRECT_SHUFFLE; z "ㄚㄧㄐ" "ㄐㄧㄚ" "jia" ZHUYIN_CORRECT_SHUFFLE;
   z "ㄚㄧㄑ" "ㄑㄧㄚ" "qia" ZHUYIN_CORRECT_SHUFFLE; z "ㄚㄧㄒ" "ㄒㄧㄚ" "xia" ZHUYIN_CORRECT_SHUFFLE;
   z "ㄚㄨ" "ㄨㄚ" "wa" ZHUYIN_CORRECT_SHUFFLE; z "ㄚㄨㄍ" "ㄍㄨㄚ" "gua" ZHUYIN_CORRECT_SHUFFLE;
   z "ㄚㄨㄎ" "ㄎㄨㄚ" "kua" ZHUYIN_CORRECT_SHUFFLE; z "ㄚㄨㄏ" "ㄏㄨㄚ" "hua" ZHUYIN_CORRECT_SHUFFLE;
   z "ㄚㄨㄓ" "ㄓㄨㄚ" "zhua" ZHUYIN_CORRECT_SHUFFLE; z "ㄚㄨㄔ" "ㄔㄨㄚ" "chua" ZHUYIN_CORRECT_SHUFFLE;
   z "ㄚㄨㄕ" "ㄕㄨㄚ" "shua" ZHUYIN_CORRECT_SHUFFLE; z "ㄚㄨㄖ" "ㄖㄨㄚ" "rua" ZHUYIN_CORRECT_SHUFFLE;
   z "ㄛ" "ㄛ" "o" 0%Z; z "ㄛㄅ" "ㄅㄛ" "bo" ZHUYIN_CORRECT_SHUFFLE;
   z "ㄛㄆ" "ㄆㄛ" "po" ZHUYIN_CORRECT_SHUFFLE; z "ㄛㄇ" "ㄇㄛ" "mo" ZHUYIN_CORRECT_SHUFFLE;
   z "ㄛㄈ" "ㄈㄛ" "fo" ZHUYIN_CORRECT_SHUFFLE; z "ㄛㄉㄨ" "ㄉㄨㄛ" "duo" ZHUYIN_CORRECT_SHUFFLE;
   z "ㄛㄊㄨ" "ㄊㄨㄛ" "tuo" ZHUYIN_CORRECT_SHUFFLE; z "ㄛㄋㄨ" "ㄋㄨㄛ" "nuo" ZHUYIN_CORRECT_SHUFFLE;
   z "ㄛㄌ" "ㄌㄛ" "lo" ZHUYIN_CORRECT_SHUFFLE; z "ㄛㄌㄨ" "ㄌㄨㄛ" "luo" ZHUYIN_CORRECT_SHUFFLE;
   z "ㄛㄍㄨ" "ㄍㄨㄛ" "guo" ZHUYIN_CORRECT_SHUFFLE; z "ㄛㄎㄨ" "ㄎㄨㄛ" "kuo" ZHUYIN_CORRECT_SHUFFLE;
   z "ㄛㄏㄨ" "ㄏㄨㄛ" "huo" ZHUYIN_CORRECT_SHUFFLE; z "ㄛㄓㄨ" "ㄓㄨㄛ" "zhuo" ZHUYIN_CORRECT_SHUFFLE;
   z "ㄛㄔㄨ" "ㄔㄨㄛ" "chuo" ZHUYIN_CORRECT_SHUFFLE; z "ㄛㄕㄨ" "ㄕㄨㄛ" "shuo" ZHUYIN_CORRECT_SHUFFLE;
   z "ㄛㄖㄨ" "ㄖㄨㄛ" "ruo" ZHUYIN_CORRECT_SHUFFLE; z "ㄛㄗㄨ" "ㄗㄨㄛ" "zuo" ZHUYIN_CORRECT_SHUFFLE;
   z "ㄛㄘㄨ" "ㄘㄨㄛ" "cuo" ZHUYIN_CORRECT_SHUFFLE; z "ㄛㄙㄨ" "ㄙㄨㄛ" "suo" ZHUYIN_CORRECT_SHUFFLE;
   z "ㄛㄧ" "ㄧㄛ" "yo" ZHUYIN_CORRECT_SHUFFLE; z "ㄛㄨ" "ㄨㄛ" "wo" ZHUYIN_CORRECT_SHUFFLE;
   z "ㄛㄨㄉ" "ㄉㄨㄛ" "duo" ZHUYIN_CORRECT_SHUFFLE; z "ㄛㄨㄊ" "ㄊㄨㄛ" "tuo" ZHUYIN_CORRECT_SHUFFLE;
   z "ㄛㄨㄋ" "ㄋㄨㄛ" "nuo" ZHUYIN_CORRECT_SHUFFLE; z "ㄛㄨㄌ" "ㄌㄨㄛ" "luo" ZHUYIN_CORRECT_SHUFFLE;
   z "ㄛㄨㄍ" "ㄍㄨㄛ" "guo" ZHUYIN_CORRECT_SHUFFLE; z "ㄛㄨㄎ" "ㄎㄨㄛ" "kuo" ZHUYIN_CORRECT_SHUFFLE;
   z "ㄛㄨㄏ" "ㄏㄨㄛ" "huo" ZHUYIN_CORRECT_SHUFFLE; z "ㄛㄨㄓ" "ㄓㄨㄛ" "zhuo" ZHUYIN_CORRECT_SHUFFLE;
   z "ㄛㄨㄔ" "ㄔㄨㄛ" "chuo" ZHUYIN_CORRECT_SHUFFLE; z "ㄛㄨㄕ" "ㄕㄨㄛ" "shuo" ZHUYIN_CORRECT_SHUFFLE;
   z "ㄛㄨㄖ" "ㄖㄨㄛ" "ruo" ZHUYIN_CORRECT_SHUFFLE; z "ㄛㄨㄗ" "ㄗㄨㄛ" "zuo" ZHUYIN_CORRECT_SHUFFLE;
   z "ㄛㄨㄘ" "ㄘㄨㄛ" "cuo" ZHUYIN_CORRECT_SHUFFLE; z "ㄛㄨㄙ" "ㄙㄨㄛ" "suo" ZHUYIN_CORRECT_SHUFFLE;
   z "ㄜ" "ㄜ" "e" 0%Z; z "ㄜㄇ" "ㄇㄜ" "me" ZHUYIN_CORRECT_SHUFFLE;
   z "ㄜㄈ" "ㄈㄜ" "fe" ZHUYIN_CORRECT_SHUFFLE; z "ㄜㄉ" "ㄉㄜ" "de" ZHUYIN_CORRECT_SHUFFLE;
   z "ㄜㄊ" "ㄊㄜ" "te" ZHUYIN_CORRECT_SHUFFLE; z "ㄜㄋ" "ㄋㄜ" "ne" ZHUYIN_CORRECT_SHUFFLE;
   z "ㄜㄌ" "ㄌㄜ" "le" ZHUYIN_CORRECT_SHUFFLE; z "ㄜㄍ" "ㄍㄜ" "ge" ZHUYIN_CORRECT_SHUFFLE;
   z "ㄜㄎ" "ㄎㄜ" "ke" ZHUYIN_CORRECT_SHUFFLE; z "ㄜㄏ" "ㄏㄜ" "he" ZHUYIN_CORRECT_SHUFFLE;
   z "ㄜㄓ" "ㄓㄜ" "zhe" ZHUYIN_CORRECT_SHUFFLE; z "ㄜㄔ" "ㄔㄜ" "che" ZHUYIN_CORRECT_SHUFFLE;
   z "ㄜㄕ" "ㄕㄜ" "she" ZHUYIN_CORRECT_SHUFFLE; z "ㄜㄖ" "ㄖㄜ" "re" ZHUYIN_CORRECT_SHUFFLE;
   z "ㄜㄗ" "ㄗㄜ" "ze" ZHUYIN_CORRECT_SHUFFLE; z "ㄜㄘ" "ㄘㄜ" "ce" ZHUYIN_CORRECT_SHUFFLE;
   z "ㄜㄙ" "ㄙㄜ" "se" ZHUYIN_CORRECT_SHUFFLE; z "ㄝㄅㄧ" "ㄅㄧㄝ" "bie" ZHUYIN_CORRECT_SHUFFLE;
   z "ㄝㄆㄧ" "ㄆㄧㄝ" "pie" ZHUYIN_CORRECT_SHUFFLE; z "ㄝㄇㄧ" "ㄇㄧㄝ" "mie" ZHUYIN_CORRECT_SHUFFLE;
   z "ㄝㄉㄧ" "ㄉㄧㄝ" "die" ZHUYIN_CORRECT_SHUFFLE; z "ㄝㄊㄧ" "ㄊㄧㄝ" "tie" ZHUYIN_CORRECT_SHUFFLE;
   z "ㄝㄋㄧ" "ㄋㄧㄝ" "nie" ZHUYIN_CORRECT_SHUFFLE; z "ㄝㄋㄩ" "ㄋㄩㄝ" "nve" ZHUYIN_CORRECT_SHUFFLE;
   z "ㄝㄌㄧ" "ㄌㄧㄝ" "lie" ZHUYIN_CORRECT_SHUFFLE; z "ㄝㄌㄩ" "ㄌㄩㄝ" "lve" ZHUYIN_CORRECT_SHUFFLE;
   z "ㄝㄐㄧ" "ㄐㄧㄝ" "jie" ZHUYIN_CORRECT_SHUFFLE; z "ㄝㄐㄩ" "ㄐㄩㄝ" "jue" ZHUYIN_CORRECT_SHUFFLE;
   z "ㄝㄑㄧ" "ㄑㄧㄝ" "qie" ZHUYIN_CORRECT_SHUFFLE; z "ㄝㄑㄩ" "ㄑㄩㄝ" "que" ZHUYIN_CORRECT_SHUFFLE;
   z "ㄝㄒㄧ" "ㄒㄧㄝ" "xie" ZHUYIN_CORRECT_SHUFFLE; z "ㄝㄒㄩ" "ㄒㄩㄝ" "xue" ZHUYIN_CORRECT_SHUFFLE;
   z "ㄝㄧ" "ㄧㄝ" "ye" ZHUYIN_CORRECT_SHUFFLE; z "ㄝㄧㄅ" "ㄅㄧㄝ" "bie" ZHUYIN_CORRECT_SHUFFLE;
   z "ㄝㄧㄆ" "ㄆㄧㄝ" "pie" ZHUYIN_CORRECT_SHUFFLE; z "ㄝㄧㄇ" "ㄇㄧㄝ" "mie" ZHUYIN_CORRECT_SHUFFLE;
   z "ㄝㄧㄉ" "ㄉㄧㄝ" "die" ZHUYIN_CORRECT_SHUFFLE; z "ㄝㄧㄊ" "ㄊㄧㄝ" "tie" ZHUYIN_CORRECT_SHUFFLE;
   z "ㄝㄧㄋ" "ㄋㄧㄝ" "nie" ZHUYIN_CORRECT_SHUFFLE; z "ㄝㄧㄌ" "ㄌㄧㄝ" "lie" ZHUYIN_CORRECT_SHUFFLE;
   z "ㄝㄧㄐ" "ㄐㄧㄝ" "jie" ZHUYIN_CORRECT_SHUFFLE; z "ㄝㄧㄑ" "ㄑㄧㄝ" "qie" ZHUYIN_CORRECT_SHUFFLE;
   z "ㄝㄧㄒ" "ㄒㄧㄝ" "xie" ZHUYIN_CORRECT_SHUFFLE; z "ㄝㄩ" "ㄩㄝ" "yue" ZHUYIN_CORRECT_SHUFFLE;
   z "ㄝㄩㄋ" "ㄋㄩㄝ" "nve" ZHUYIN_CORRECT_SHUFFLE; z "ㄝㄩㄌ" "ㄌㄩㄝ" "lve" ZHUYIN_CORRECT_SHUFFLE;
   z "ㄝㄩㄐ" "ㄐㄩㄝ" "jue" ZHUYIN_CORRECT_SHUFFLE; z "ㄝㄩㄑ" "ㄑㄩㄝ" "que" ZHUYIN_CORRECT_SHUFFLE;
   z "ㄝㄩㄒ" "ㄒㄩㄝ" "xue" ZHUYIN_CORRECT_SHUFFLE; z "ㄞ" "ㄞ" "ai" 0%Z;
   z "ㄞㄅ" "ㄅㄞ" "bai" ZHUYIN_CORRECT_SHUFFLE; z "ㄞㄆ" "ㄆㄞ" "pai" ZHUYIN_CORRECT_SHUFFLE;
   z "ㄞㄇ" "ㄇㄞ" "mai" ZHUYIN_CORRECT_SHUFFLE; z "ㄞㄉ" "ㄉㄞ" "dai" ZHUYIN_CORRECT_SHUFFLE;
   z "ㄞㄊ" "ㄊㄞ" "tai" ZHUYIN_CORRECT_SHUFFLE; z "ㄞㄋ" "ㄋㄞ" "nai" ZHUYIN_CORRECT_SHUFFLE;
   z "ㄞㄌ" "ㄌㄞ" "lai" ZHUYIN_CORRECT_SHUFFLE; z "ㄞㄍ" "ㄍㄞ" "gai" ZHUYIN_CORRECT_SHUFFLE;
   z "ㄞㄍㄨ" "ㄍㄨㄞ" "guai" ZHUYIN_CORRECT_SHUFFLE; z "ㄞㄎ" "ㄎㄞ" "kai" ZHUYIN_CORRECT_SHUFFLE;
   z "ㄞㄎㄨ" "ㄎㄨㄞ" "kuai" ZHUYIN_CORRECT_SHUFFLE; z "ㄞㄏ" "ㄏㄞ" "hai" ZHUYIN_CORRECT_SHUFFLE;
   z "ㄞㄏㄨ" "ㄏㄨㄞ" "huai" ZHUYIN_CORRECT_SHUFFLE; z "ㄞㄓ" "ㄓㄞ" "zhai" ZHUYIN_CORRECT_SHUFFLE;
   z "ㄞㄓㄨ" "ㄓㄨㄞ" "zhuai" ZHUYIN_CORRECT_SHUFFLE; z "ㄞㄔ" "ㄔㄞ" "chai" ZHUYIN_CORRECT_SHUFFLE;
   z "ㄞㄔㄨ" "ㄔㄨㄞ" "chuai" ZHUYIN_CORRECT_SHUFFLE; z "ㄞㄕ" "ㄕㄞ" "shai" ZHUYIN_CORRECT_SHUFFLE;
   z "ㄞㄕㄨ" "ㄕㄨㄞ" "shuai" ZHUYIN_CORRECT_SHUFFLE; z "ㄞㄗ" "ㄗㄞ" "zai" ZHUYIN_CORRECT_SHUFFLE;
   z "ㄞㄘ" "ㄘㄞ" "cai" ZHUYIN_CORRECT_SHUFFLE; z "ㄞㄙ" "ㄙㄞ" "sai" ZHUYIN_CORRECT_SHUFFLE;
   z "ㄞㄧ" "ㄧㄞ" "yai" ZHUYIN_CORRECT_SHUFFLE; z "ㄞㄨ" "ㄨㄞ" "wai" ZHUYIN_CORRECT_SHUFFLE;
   z "ㄞㄨㄍ" "ㄍㄨㄞ" "guai" ZHUYIN_CORRECT_SHUFFLE; z "ㄞㄨㄎ" "ㄎㄨㄞ" "kuai" ZHUYIN_CORRECT_SHUFFLE;
   z "ㄞㄨㄏ" "ㄏㄨㄞ" "huai" ZHUYIN_CORRECT_SHUFFLE; z "ㄞㄨㄓ" "ㄓㄨㄞ" "zhuai" ZHUYIN_CORRECT_SHUFFLE;
   z "ㄞㄨㄔ" "ㄔㄨㄞ" "chuai" ZHUYIN_CORRECT_SHUFFLE; z "ㄞㄨㄕ" "ㄕㄨㄞ" "shuai" ZHUYIN_CORRECT_SHUFFLE;
   z "ㄟ" "ㄟ" "ei" 0%Z; z "ㄟㄅ" "ㄅㄟ" "bei" ZHUYIN_CORRECT_SHUFFLE;
   z "ㄟㄆ" "ㄆㄟ" "pei" ZHUYIN_CORRECT_SHUFFLE; z "ㄟㄇ" "ㄇㄟ" "mei" ZHUYIN_CORRECT_SHUFFLE;
   z "ㄟㄈ" "ㄈㄟ" "fei" ZHUYIN_CORRECT_SHUFFLE; z "ㄟㄉ" "ㄉㄟ" "dei" ZHUYIN_CORRECT_SHUFFLE;
   z "ㄟㄉㄨ" "ㄉㄨㄟ" "dui" ZHUYIN_CORRECT_SHUFFLE; z "ㄟㄊㄨ" "ㄊㄨㄟ" "tui" ZHUYIN_CORRECT_SHUFFLE;
   z "ㄟㄋ" "ㄋㄟ" "nei" ZHUYIN_CORRECT_SHUFFLE; z "ㄟㄌ" "ㄌㄟ" "lei" ZHUYIN_CORRECT_SHUFFLE;
   z "ㄟㄍ" "ㄍㄟ" "gei" ZHUYIN_CORRECT_SHUFFLE; z "ㄟㄍㄨ" "ㄍㄨㄟ" "gui" ZHUYIN_CORRECT_SHUFFLE;
   z "ㄟㄎ" "ㄎㄟ" "kei" ZHUYIN_CORRECT_SHUFFLE; z "ㄟㄎㄨ" "ㄎㄨㄟ" "kui" ZHUYIN_CORRECT_SHUFFLE;
   z "ㄟㄏ" "ㄏㄟ" "hei" ZHUYIN_CORRECT_SHUFFLE; z "ㄟㄏㄨ" "ㄏㄨㄟ" "hui" ZHUYIN_CORRECT_SHUFFLE;
   z "ㄟㄓ" "ㄓㄟ" "zhei" ZHUYIN_CORRECT_SHUFFLE; z "ㄟㄓㄨ" "ㄓㄨㄟ" "zhui" ZHUYIN_CORRECT_SHUFFLE;
   z "ㄟㄔㄨ" "ㄔㄨㄟ" "chui" ZHUYIN_CORRECT_SHUFFLE; z "ㄟㄕ" "ㄕㄟ" "shei" ZHUYIN_CORRECT_SHUFFLE;
   z "ㄟㄕㄨ" "ㄕㄨㄟ" "shui" ZHUYIN_CORRECT_SHUFFLE; z "ㄟㄖㄨ" "ㄖㄨㄟ" "rui" ZHUYIN_CORRECT_SHUFFLE;
   z "ㄟㄗ" "ㄗㄟ" "zei" ZHUYIN_CORRECT_SHUFFLE; z "ㄟㄗㄨ" "ㄗㄨㄟ" "zui" ZHUYIN_CORRECT_SHUFFLE;
   z "ㄟㄘㄨ" "ㄘㄨㄟ" "cui" ZHUYIN_CORRECT_SHUFFLE; z "ㄟㄙㄨ" "ㄙㄨㄟ" "sui" ZHUYIN_CORRECT_SHUFFLE;
   z "ㄟㄨ" "ㄨㄟ" "wei" ZHUYIN_CORRECT_SHUFFLE; z "ㄟㄨㄉ" "ㄉㄨㄟ" "dui" ZHUYIN_CORRECT_SHUFFLE;
   z "ㄟㄨㄊ" "ㄊㄨㄟ" "tui" ZHUYIN_CORRECT_SHUFFLE; z "ㄟㄨㄍ" "ㄍㄨㄟ" "gui" ZHUYIN_CORRECT_SHUFFLE;
   z "ㄟㄨㄎ" "ㄎㄨㄟ" "kui" ZHUYIN_CORRECT_SHUFFLE; z "ㄟㄨㄏ" "ㄏㄨㄟ" "hui" ZHUYIN_CORRECT_SHUFFLE;
   z "ㄟㄨㄓ" "ㄓㄨㄟ" "zhui" ZHUYIN_CORRECT_SHUFFLE; z "ㄟㄨㄔ" "ㄔㄨㄟ" "chui" ZHUYIN_CORRECT_SHUFFLE;
   z "ㄟㄨㄕ" "ㄕㄨㄟ" "shui" ZHUYIN_CORRECT_SHUFFLE; z "ㄟㄨㄖ" "ㄖㄨㄟ" "rui" ZHUYIN_CORRECT_SHUFFLE;
   z "ㄟㄨㄗ" "ㄗㄨㄟ" "zui" ZHUYIN_CORRECT_SHUFFLE; z "ㄟㄨㄘ" "ㄘㄨㄟ" "cui" ZHUYIN_CORRECT_SHUFFLE;
   z "ㄟㄨㄙ" "ㄙㄨㄟ" "sui" ZHUYIN_CORRECT_SHUFFLE; z "ㄠ" "ㄠ" "ao" 0%Z;
   z "ㄠㄅ" "ㄅㄠ" "bao" ZHUYIN_CORRECT_SHUFFLE; z "ㄠㄅㄧ" "ㄅㄧㄠ" "biao" ZHUYIN_CORRECT_SHUFFLE;
   z "ㄠㄆ" "ㄆㄠ" "pao" ZHUYIN_CORRECT_SHUFFLE; z "ㄠㄆㄧ" "ㄆㄧㄠ" "piao" ZHUYIN_CORRECT_SHUFFLE;
   z "ㄠㄇ" "ㄇㄠ" "mao" ZHUYIN_CORRECT_SHUFFLE; z "ㄠㄇㄧ" "ㄇㄧㄠ" "miao" ZHUYIN_CORRECT_SHUFFLE;
   z "ㄠㄉ" "ㄉㄠ" "dao" ZHUYIN_CORRECT_SHUFFLE; z "ㄠㄉㄧ" "ㄉㄧㄠ" "diao" ZHUYIN_CORRECT_SHUFFLE;
   z "ㄠㄊ" "ㄊㄠ" "tao" ZHUYIN_CORRECT_SHUFFLE; z "ㄠㄊㄧ" "ㄊㄧㄠ" "tiao" ZHUYIN_CORRECT_SHUFFLE;
   z "ㄠㄋ" "ㄋㄠ" "nao" ZHUYIN_CORRECT_SHUFFLE; z "ㄠㄋㄧ" "ㄋㄧㄠ" "niao" ZHUYIN_CORRECT_SHUFFLE;
   z "ㄠㄌ" "ㄌㄠ" "lao" ZHUYIN_CORRECT_SHUFFLE; z "ㄠㄌㄧ" "ㄌㄧㄠ" "liao" ZHUYIN_CORRECT_SHUFFLE;
   z "ㄠㄍ" "ㄍㄠ" "gao" ZHUYIN_CORRECT_SHUFFLE; z "ㄠㄎ" "ㄎㄠ" "kao" ZHUYIN_CORRECT_SHUFFLE;
   z "ㄠㄏ" "ㄏㄠ" "hao" ZHUYIN_CORRECT_SHUFFLE; z "ㄠㄐㄧ" "ㄐㄧㄠ" "jiao" ZHUYIN_CORRECT_SHUFFLE;
   z "ㄠㄑㄧ" "ㄑㄧㄠ" "qiao" ZHUYIN_CORRECT_SHUFFLE; z "ㄠㄒㄧ" "ㄒㄧㄠ" "xiao" ZHUYIN_CORRECT_SHUFFLE;
   z "ㄠㄓ" "ㄓㄠ" "zhao" ZHUYIN_CORRECT_SHUFFLE; z "ㄠㄔ" "ㄔㄠ" "chao" ZHUYIN_CORRECT_SHUFFLE;
   z "ㄠㄕ" "ㄕㄠ" "shao" ZHUYIN_CORRECT_SHUFFLE; z "ㄠㄖ" "ㄖㄠ" "rao" ZHUYIN_CORRECT_SHUFFLE;
   z "ㄠㄗ" "ㄗㄠ" "zao" ZHUYIN_CORRECT_SHUFFLE; z "ㄠㄘ" "ㄘㄠ" "cao" ZHUYIN_CORRECT_SHUFFLE;
   z "ㄠㄙ" "ㄙㄠ" "sao" ZHUYIN_CORRECT_SHUFFLE; z "ㄠㄧ" "ㄧㄠ" "yao" ZHUYIN_CORRECT_SHUFFLE;
   z "ㄠㄧㄅ" "ㄅㄧㄠ" "biao" ZHUYIN_CORRECT_SHUFFLE; z "ㄠㄧㄆ" "ㄆㄧㄠ" "piao" ZHUYIN_CORRECT_SHUFFLE;
   z "ㄠㄧㄇ" "ㄇㄧㄠ" "miao" ZHUYIN_CORRECT_SHUFFLE; z "ㄠㄧㄉ" "ㄉㄧㄠ" "diao" ZHUYIN_CORRECT_SHUFFLE;
   z "ㄠㄧㄊ" "ㄊㄧㄠ" "tiao" ZHUYIN_CORRECT_SHUFFLE; z "ㄠㄧㄋ" "ㄋㄧㄠ" "niao" ZHUYIN_CORRECT_SHUFFLE;
   z "ㄠㄧㄌ" "ㄌㄧㄠ" "liao" ZHUYIN_CORRECT_SHUFFLE; z "ㄠㄧㄐ" "ㄐㄧㄠ" "jiao" ZHUYIN_CORRECT_SHUFFLE;
   z "ㄠㄧㄑ" "ㄑㄧㄠ" "qiao" ZHUYIN_CORRECT_SHUFFLE; z "ㄠㄧㄒ" "ㄒㄧㄠ" "xiao" ZHUYIN_CORRECT_SHUFFLE;
   z "ㄡ" "ㄡ" "ou" 0%Z; z "ㄡㄆ" "ㄆㄡ" "pou" ZHUYIN_CORRECT_SHUFFLE;
   z "ㄡㄇ" "ㄇㄡ" "mou" ZHUYIN_CORRECT_SHUFFLE; z "ㄡㄇㄧ" "ㄇㄧㄡ" "miu" ZHUYIN_CORRECT_SHUFFLE;
   z "ㄡㄈ" "ㄈㄡ" "fou" ZHUYIN_CORRECT_SHUFFLE; z "ㄡㄉ" "ㄉㄡ" "dou" ZHUYIN_CORRECT_SHUFFLE;
   z "ㄡㄉㄧ" "ㄉㄧㄡ" "diu" ZHUYIN_CORRECT_SHUFFLE; z "ㄡㄊ" "ㄊㄡ" "tou" ZHUYIN_CORRECT_SHUFFLE;
   z "ㄡㄋ" "ㄋㄡ" "nou" ZHUYIN_CORRECT_SHUFFLE; z "ㄡㄋㄧ" "ㄋㄧㄡ" "niu" ZHUYIN_CORRECT_SHUFFLE;
   z "ㄡㄌ" "ㄌㄡ" "lou" ZHUYIN_CORRECT_SHUFFLE; z "ㄡㄌㄧ" "ㄌㄧㄡ" "liu" ZHUYIN_CORRECT_SHUFFLE;
   z "ㄡㄍ" "ㄍㄡ" "gou" ZHUYIN_CORRECT_SHUFFLE; z "ㄡㄎ" "ㄎㄡ" "kou" ZHUYIN_CORRECT_SHUFFLE;
   z "ㄡㄏ" "ㄏㄡ" "hou" ZHUYIN_CORRECT_SHUFFLE; z "ㄡㄐㄧ" "ㄐㄧㄡ" "jiu" ZHUYIN_CORRECT_SHUFFLE;
   z "ㄡㄑㄧ" "ㄑㄧㄡ" "qiu" ZHUYIN_CORRECT_SHUFFLE; z "ㄡㄒㄧ" "ㄒㄧㄡ" "xiu" ZHUYIN_CORRECT_SHUFFLE;
   z "ㄡㄓ" "ㄓㄡ" "zhou" ZHUYIN_CORRECT_SHUFFLE; z "ㄡㄔ" "ㄔㄡ" "chou" ZHUYIN_CORRECT_SHUFFLE;
   z "ㄡㄕ" "ㄕㄡ" "shou" ZHUYIN_CORRECT_SHUFFLE; z "ㄡㄖ" "ㄖㄡ" "rou" ZHUYIN_CORRECT_SHUFFLE;
   z "ㄡㄗ" "ㄗㄡ" "zou" ZHUYIN_CORRECT_SHUFFLE; z "ㄡㄘ" "ㄘㄡ" "cou" ZHUYIN_CORRECT_SHUFFLE;
   z "ㄡㄙ" "ㄙㄡ" "sou" ZHUYIN_CORRECT_SHUFFLE; z "ㄡㄧ" "ㄧㄡ" "you" ZHUYIN_CORRECT_SHUFFLE;
   z "ㄡㄧㄇ" "ㄇㄧㄡ" "miu" ZHUYIN_CORRECT_SHUFFLE; z "ㄡㄧㄉ" "ㄉㄧㄡ" "diu" ZHUYIN_CORRECT_SHUFFLE;
   z "ㄡㄧㄋ" "ㄋㄧㄡ" "niu" ZHUYIN_CORRECT_SHUFFLE; z "ㄡㄧㄌ" "ㄌㄧㄡ" "liu" ZHUYIN_CORRECT_SHUFFLE;
   z "ㄡㄧㄐ" "ㄐㄧㄡ" "jiu" ZHUYIN_CORRECT_SHUFFLE; z "ㄡㄧㄑ" "ㄑㄧㄡ" "qiu" ZHUYIN_CORRECT_SHUFFLE;
   z "ㄡㄧㄒ" "ㄒㄧㄡ" "xiu" ZHUYIN_CORRECT_SHUFFLE; z "ㄢ" "ㄢ" "an" 0%Z;
   z "ㄢㄅ" "ㄅㄢ" "ban" ZHUYIN_CORRECT_SHUFFLE; z "ㄢㄅㄧ" "ㄅㄧㄢ" "bian" ZHUYIN_CORRECT_SHUFFLE;
   z "ㄢㄆ" "ㄆㄢ" "pan" ZHUYIN_CORRECT_SHUFFLE; z "ㄢㄆㄧ" "ㄆㄧㄢ" "pian" ZHUYIN_CORRECT_SHUFFLE;
   z "ㄢㄇ" "ㄇㄢ" "man" ZHUYIN_CORRECT_SHUFFLE; z "ㄢㄇㄧ" "ㄇㄧㄢ" "mian" ZHUYIN_CORRECT_SHUFFLE;
   z "ㄢㄈ" "ㄈㄢ" "fan" ZHUYIN_CORRECT_SHUFFLE; z "ㄢㄉ" "ㄉㄢ" "dan" ZHUYIN_CORRECT_SHUFFLE;
   z "ㄢㄉㄧ" "ㄉㄧㄢ" "dian" ZHUYIN_CORRECT_SHUFFLE; z "ㄢㄉㄨ" "ㄉㄨㄢ" "duan" ZHUYIN_CORRECT_SHUFFLE;
   z "ㄢㄊ" "ㄊㄢ" "tan" ZHUYIN_CORRECT_SHUFFLE; z "ㄢㄊㄧ" "ㄊㄧㄢ" "tian" ZHUYIN_CORRECT_SHUFFLE;
   z "ㄢㄊㄨ" "ㄊㄨㄢ" "tuan" ZHUYIN_CORRECT_SHUFFLE; z "ㄢㄋ" "ㄋㄢ" "nan" ZHUYIN_CORRECT_SHUFFLE;
   z "ㄢㄋㄧ" "ㄋㄧㄢ" "nian" ZHUYIN_CORRECT_SHUFFLE; z "ㄢㄋㄨ" "ㄋㄨㄢ" "nuan" ZHUYIN_CORRECT_SHUFFLE;
   z "ㄢㄌ" "ㄌㄢ" "lan" ZHUYIN_CORRECT_SHUFFLE; z "ㄢㄌㄧ" "ㄌㄧㄢ" "lian" ZHUYIN_CORRECT_SHUFFLE;
   z "ㄢㄌㄨ" "ㄌㄨㄢ" "luan" ZHUYIN_CORRECT_SHUFFLE; z "ㄢㄍ" "ㄍㄢ" "gan" ZHUYIN_CORRECT_SHUFFLE;
   z "ㄢㄍㄨ" "ㄍㄨㄢ" "guan" ZHUYIN_CORRECT_SHUFFLE; z "ㄢㄎ" "ㄎㄢ" "kan" ZHUYIN_CORRECT_SHUFFLE;
   z "ㄢㄎㄨ" "ㄎㄨㄢ" "kuan" ZHUYIN_CORRECT_SHUFFLE; z "ㄢㄏ" "ㄏㄢ" "han" ZHUYIN_CORRECT_SHUFFLE;
   z "ㄢㄏㄨ" "ㄏㄨㄢ" "huan" ZHUYIN_CORRECT_SHUFFLE; z "ㄢㄐㄧ" "ㄐㄧㄢ" "jian" ZHUYIN_CORRECT_SHUFFLE;
   z "ㄢㄐㄩ" "ㄐㄩㄢ" "juan" ZHUYIN_CORRECT_SHUFFLE; z "ㄢㄑㄧ" "ㄑㄧㄢ" "qian" ZHUYIN_CORRECT_SHUFFLE;
   z "ㄢㄑㄩ" "ㄑㄩㄢ" "quan" ZHUYIN_CORRECT_SHUFFLE; z "ㄢㄒㄧ" "ㄒㄧㄢ" "xian" ZHUYIN_CORRECT_SHUFFLE;
   z "ㄢㄒㄩ" "ㄒㄩㄢ" "xuan" ZHUYIN_CORRECT_SHUFFLE; z "ㄢㄓ" "ㄓㄢ" "zhan" ZHUYIN_CORRECT_SHUFFLE;
   z "ㄢㄓㄨ" "ㄓㄨㄢ" "zhuan" ZHUYIN_CORRECT_SHUFFLE; z "ㄢㄔ" "ㄔㄢ" "chan" ZHUYIN_CORRECT_SHUFFLE;
   z "ㄢㄔㄨ" "ㄔㄨㄢ" "chuan" ZHUYIN_CORRECT_SHUFFLE; z "ㄢㄕ" "ㄕㄢ" "shan" ZHUYIN_CORRECT_SHUFFLE;
   z "ㄢㄕㄨ" "ㄕㄨㄢ" "shuan" ZHUYIN_CORRECT_SHUFFLE; z "ㄢㄖ" "ㄖㄢ" "ran" ZHUYIN_CORRECT_SHUFFLE;
   z "ㄢㄖㄨ" "ㄖㄨㄢ" "ruan" ZHUYIN_CORRECT_SHUFFLE; z "ㄢㄗ" "ㄗㄢ" "zan" ZHUYIN_CORRECT_SHUFFLE;
   z "ㄢㄗㄨ" "ㄗㄨㄢ" "zuan" ZHUYIN_CORRECT_SHUFFLE; z "ㄢㄘ" "ㄘㄢ" "can" ZHUYIN_CORRECT_SHUFFLE;
   z "ㄢㄘㄨ" "ㄘㄨㄢ" "cuan" ZHUYIN_CORRECT_SHUFFLE; z "ㄢㄙ" "ㄙㄢ" "san" ZHUYIN_CORRECT_SHUFFLE;
   z "ㄢㄙㄨ" "ㄙㄨㄢ" "suan" ZHUYIN_CORRECT_SHUFFLE; z "ㄢㄧ" "ㄧㄢ" "yan" ZHUYIN_CORRECT_SHUFFLE;
   z "ㄢㄧㄅ" "ㄅㄧㄢ" "bian" ZHUYIN_CORRECT_SHUFFLE; z "ㄢㄧㄆ" "ㄆㄧㄢ" "pian" ZHUYIN_CORRECT_SHUFFLE;
   z "ㄢㄧㄇ" "ㄇㄧㄢ" "mian" ZHUYIN_CORRECT_SHUFFLE; z "ㄢㄧㄉ" "ㄉㄧㄢ" "dian" ZHUYIN_CORRECT_SHUFFLE;
   z "ㄢㄧㄊ" "ㄊㄧㄢ" "tian" ZHUYIN_CORRECT_SHUFFLE; z "ㄢㄧㄋ" "ㄋㄧㄢ" "nian" ZHUYIN_CORRECT_SHUFFLE;
   z "ㄢㄧㄌ" "ㄌㄧㄢ" "lian" ZHUYIN_CORRECT_SHUFFLE; z "ㄢㄧㄐ" "ㄐㄧㄢ" "jian" ZHUYIN_CORRECT_SHUFFLE;
   z "ㄢㄧㄑ" "ㄑㄧㄢ" "qian" ZHUYIN_CORRECT_SHUFFLE; z "ㄢㄧㄒ" "ㄒㄧㄢ" "xian" ZHUYIN_CORRECT_SHUFFLE;
   z "ㄢㄨ" "ㄨㄢ" "wan" ZHUYIN_CORRECT_SHUFFLE; z "ㄢㄨㄉ" "ㄉㄨㄢ" "duan" ZHUYIN_CORRECT_SHUFFLE;
   z "ㄢㄨㄊ" "ㄊㄨㄢ" "tuan" ZHUYIN_CORRECT_SHUFFLE; z "ㄢㄨㄋ" "ㄋㄨㄢ" "nuan" ZHUYIN_CORRECT_SHUFFLE;
   z "ㄢㄨㄌ" "ㄌㄨㄢ" "luan" ZHUYIN_CORRECT_SHUFFLE; z "ㄢㄨㄍ" "ㄍㄨㄢ" "guan" ZHUYIN_CORRECT_SHUFFLE;
   z "ㄢㄨㄎ" "ㄎㄨㄢ" "kuan" ZHUYIN_CORRECT_SHUFFLE; z "ㄢㄨㄏ" "ㄏㄨㄢ" "huan" ZHUYIN_CORRECT_SHUFFLE;
   z "ㄢㄨㄓ" "ㄓㄨㄢ" "zhuan" ZHUYIN_CORRECT_SHUFFLE; z "ㄢㄨㄔ" "ㄔㄨㄢ" "chuan" ZHUYIN_CORRECT_SHUFFLE;
   z "ㄢㄨㄕ" "ㄕㄨㄢ" "shuan" ZHUYIN_CORRECT_SHUFFLE; z "ㄢㄨㄖ" "ㄖㄨㄢ" "ruan" ZHUYIN_CORRECT_SHUFFLE;
   z "ㄢㄨㄗ" "ㄗㄨㄢ" "zuan" ZHUYIN_CORRECT_SHUFFLE; z "ㄢㄨㄘ" "ㄘㄨㄢ" "cuan" ZHUYIN_CORRECT_SHUFFLE;
   z "ㄢㄨㄙ" "ㄙㄨㄢ" "suan" ZHUYIN_CORRECT_SHUFFLE; z "ㄢㄩ" "ㄩㄢ" "yuan" ZHUYIN_CORRECT_SHUFFLE;
   z "ㄢㄩㄐ" "ㄐㄩㄢ" "juan" ZHUYIN_CORRECT_SHUFFLE; z "ㄢㄩㄑ" "ㄑㄩㄢ" "quan" ZHUYIN_CORRECT_SHUFFLE;
   z "ㄢㄩㄒ" "ㄒㄩㄢ" "xuan" ZHUYIN_CORRECT_SHUFFLE; z "ㄣ" "ㄣ" "en" 0%Z;
   z "ㄣㄅ" "ㄅㄣ" "ben" ZHUYIN_CORRECT_SHUFFLE; z "ㄣㄅㄧ" "ㄅㄧㄣ" "bin" ZHUYIN_CORRECT_SHUFFLE;
   z "ㄣㄆ" "ㄆㄣ" "pen" ZHUYIN_CORRECT_SHUFFLE; z "ㄣㄆㄧ" "ㄆㄧㄣ" "pin" ZHUYIN_CORRECT_SHUFFLE;
   z "ㄣㄇ" "ㄇㄣ" "men" ZHUYIN_CORRECT_SHUFFLE; z "ㄣㄇㄧ" "ㄇㄧㄣ" "min" ZHUYIN_CORRECT_SHUFFLE;
   z "ㄣㄈ" "ㄈㄣ" "fen" ZHUYIN_CORRECT_SHUFFLE; z "ㄣㄉ" "ㄉㄣ" "den" ZHUYIN_CORRECT_SHUFFLE;
   z "ㄣㄉㄧ" "ㄉㄧㄣ" "din" ZHUYIN_CORRECT_SHUFFLE; z "ㄣㄉㄨ" "ㄉㄨㄣ" "dun" ZHUYIN_CORRECT_SHUFFLE;
   z "ㄣㄊㄨ" "ㄊㄨㄣ" "tun" ZHUYIN_CORRECT_SHUFFLE; z "ㄣㄋ" "ㄋㄣ" "nen" ZHUYIN_CORRECT_SHUFFLE;
   z "ㄣㄋㄧ" "ㄋㄧㄣ" "nin" ZHUYIN_CORRECT_SHUFFLE; z "ㄣㄋㄨ" "ㄋㄨㄣ" "nun" ZHUYIN_CORRECT_SHUFFLE;
   z "ㄣㄌ" "ㄌㄣ" "len" ZHUYIN_CORRECT_SHUFFLE; z "ㄣㄌㄧ" "ㄌㄧㄣ" "lin" ZHUYIN_CORRECT_SHUFFLE;
   z "ㄣㄌㄨ" "ㄌㄨㄣ" "lun" ZHUYIN_CORRECT_SHUFFLE; z "ㄣㄍ" "ㄍㄣ" "gen" ZHUYIN_CORRECT_SHUFFLE;
   z "ㄣㄍㄨ" "ㄍㄨㄣ" "gun" ZHUYIN_CORRECT_SHUFFLE; z "ㄣㄎ" "ㄎㄣ" "ken" ZHUYIN_CORRECT_SHUFFLE;
   z "ㄣㄎㄨ" "ㄎㄨㄣ" "kun" ZHUYIN_CORRECT_SHUFFLE; z "ㄣㄏ" "ㄏㄣ" "hen" ZHUYIN_CORRECT_SHUFFLE;
   z "ㄣㄏㄨ" "ㄏㄨㄣ" "hun" ZHUYIN_CORRECT_SHUFFLE; z "ㄣㄐㄧ" "ㄐㄧㄣ" "jin" ZHUYIN_CORRECT_SHUFFLE;
   z "ㄣㄐㄩ" "ㄐㄩㄣ" "jun" ZHUYIN_CORRECT_SHUFFLE; z "ㄣㄑㄧ" "ㄑㄧㄣ" "qin" ZHUYIN_CORRECT_SHUFFLE;
   z "ㄣㄑㄩ" "ㄑㄩㄣ" "qun" ZHUYIN_CORRECT_SHUFFLE; z "ㄣㄒㄧ" "ㄒㄧㄣ" "xin" ZHUYIN_CORRECT_SHUFFLE;
   z "ㄣㄒㄩ" "ㄒㄩㄣ" "xun" ZHUYIN_CORRECT_SHUFFLE; z "ㄣㄓ" "ㄓㄣ" "zhen" ZHUYIN_CORRECT_SHUFFLE;
   z "ㄣㄓㄨ" "ㄓㄨㄣ" "zhun" ZHUYIN_CORRECT_SHUFFLE; z "ㄣㄔ" "ㄔㄣ" "chen" ZHUYIN_CORRECT_SHUFFLE;
   z "ㄣㄔㄨ" "ㄔㄨㄣ" "chun" ZHUYIN_CORRECT_SHUFFLE; z "ㄣㄕ" "ㄕㄣ" "shen" ZHUYIN_CORRECT_SHUFFLE;
   z "ㄣㄕㄨ" "ㄕㄨㄣ" "shun" ZHUYIN_CORRECT_SHUFFLE; z "ㄣㄖ" "ㄖㄣ" "ren" ZHUYIN_CORRECT_SHUFFLE;
   z "ㄣㄖㄨ" "ㄖㄨㄣ" "run" ZHUYIN_CORRECT_SHUFFLE; z "ㄣㄗ" "ㄗㄣ" "zen" ZHUYIN_CORRECT_SHUFFLE;
   z "ㄣㄗㄨ" "ㄗㄨㄣ" "zun" ZHUYIN_CORRECT_SHUFFLE; z "ㄣㄘ" "ㄘㄣ" "cen" ZHUYIN_CORRECT_SHUFFLE;
   z "ㄣㄘㄨ" "ㄘㄨㄣ" "cun" ZHUYIN_CORRECT_SHUFFLE; z "ㄣㄙ" "ㄙㄣ" "sen" ZHUYIN_CORRECT_SHUFFLE;
   z "ㄣㄙㄨ" "ㄙㄨㄣ" "sun" ZHUYIN_CORRECT_SHUFFLE; z "ㄣㄧ" "ㄧㄣ" "yin" ZHUYIN_CORRECT_SHUFFLE;
   z "ㄣㄧㄅ" "ㄅㄧㄣ" "bin" ZHUYIN_CORRECT_SHUFFLE; z "ㄣㄧㄆ" "ㄆㄧㄣ" "pin" ZHUYIN_CORRECT_SHUFFLE;
   z "ㄣㄧㄇ" "ㄇㄧㄣ" "min" ZHUYIN_CORRECT_SHUFFLE; z "ㄣㄧㄉ" "ㄉㄧㄣ" "din" ZHUYIN_CORRECT_SHUFFLE;
   z "ㄣㄧㄋ" "ㄋㄧㄣ" "nin" ZHUYIN_CORRECT_SHUFFLE; z "ㄣㄧㄌ" "ㄌㄧㄣ" "lin" ZHUYIN_CORRECT_SHUFFLE;
   z "ㄣㄧㄐ" "ㄐㄧㄣ" "jin" ZHUYIN_CORRECT_SHUFFLE; z "ㄣㄧㄑ" "ㄑㄧㄣ" "qin" ZHUYIN_CORRECT_SHUFFLE;
   z "ㄣㄧㄒ" "ㄒㄧㄣ" "xin" ZHUYIN_CORRECT_SHUFFLE; z "ㄣㄨ" "ㄨㄣ" "wen" ZHUYIN_CORRECT_SHUFFLE;
   z "ㄣㄨㄉ" "ㄉㄨㄣ" "dun" ZHUYIN_CORRECT_SHUFFLE; z "ㄣㄨㄊ" "ㄊㄨㄣ" "tun" ZHUYIN_CORRECT_SHUFFLE;
   z "ㄣㄨㄋ" "ㄋㄨㄣ" "nun" ZHUYIN_CORRECT_SHUFFLE; z "ㄣㄨㄌ" "ㄌㄨㄣ" "lun" ZHUYIN_CORRECT_SHUFFLE;
   z "ㄣㄨㄍ" "ㄍㄨㄣ" "gun" ZHUYIN_CORRECT_SHUFFLE; z "ㄣㄨㄎ" "ㄎㄨㄣ" "kun" ZHUYIN_CORRECT_SHUFFLE;
   z "ㄣㄨㄏ" "ㄏㄨㄣ" "hun" ZHUYIN_CORRECT_SHUFFLE; z "ㄣㄨㄓ" "ㄓㄨㄣ" "zhun" ZHUYIN_CORRECT_SHUFFLE;
   z "ㄣㄨㄔ" "ㄔㄨㄣ" "chun" ZHUYIN_CORRECT_SHUFFLE; z "ㄣㄨㄕ" "ㄕㄨㄣ" "shun" ZHUYIN_CORRECT_SHUFFLE;
   z "ㄣㄨㄖ" "ㄖㄨㄣ" "run" ZHUYIN_CORRECT_SHUFFLE; z "ㄣㄨㄗ" "ㄗㄨㄣ" "zun" ZHUYIN_CORRECT_SHUFFLE;
   z "ㄣㄨㄘ" "ㄘㄨㄣ" "cun" ZHUYIN_CORRECT_SHUFFLE; z "ㄣㄨㄙ" "ㄙㄨㄣ" "sun" ZHUYIN_CORRECT_SHUFFLE;
   z "ㄣㄩ" "ㄩㄣ" "yun" ZHUYIN_CORRECT_SHUFFLE; z "ㄣㄩㄐ" "ㄐㄩㄣ" "jun" ZHUYIN_CORRECT_SHUFFLE;
   z "ㄣㄩㄑ" "ㄑㄩㄣ" "qun" ZHUYIN_CORRECT_SHUFFLE; z "ㄣㄩㄒ" "ㄒㄩㄣ" "xun" ZHUYIN_CORRECT_SHUFFLE;
   z "ㄤ" "ㄤ" "ang" 0%Z; z "ㄤㄅ" "ㄅㄤ" "bang" ZHUYIN_CORRECT_SHUFFLE;
   z "ㄤㄆ" "ㄆㄤ" "pang" ZHUYIN_CORRECT_SHUFFLE; z "ㄤㄇ" "ㄇㄤ" "mang" ZHUYIN_CORRECT_SHUFFLE;
   z "ㄤㄈ" "ㄈㄤ" "fang" ZHUYIN_CORRECT_SHUFFLE; z "ㄤㄉ" "ㄉㄤ" "dang" ZHUYIN_CORRECT_SHUFFLE;
   z "ㄤㄊ" "ㄊㄤ" "tang" ZHUYIN_CORRECT_SHUFFLE; z "ㄤㄋ" "ㄋㄤ" "nang" ZHUYIN_CORRECT_SHUFFLE;
   z "ㄤㄋㄧ" "ㄋㄧㄤ" "niang" ZHUYIN_CORRECT_SHUFFLE; z "ㄤㄌ" "ㄌㄤ" "lang" ZHUYIN_CORRECT_SHUFFLE;
   z "ㄤㄌㄧ" "ㄌㄧㄤ" "liang" ZHUYIN_CORRECT_SHUFFLE; z "ㄤㄍ" "ㄍㄤ" "gang" ZHUYIN_CORRECT_SHUFFLE;
   z "ㄤㄍㄨ" "ㄍㄨㄤ" "guang" ZHUYIN_CORRECT_SHUFFLE; z "ㄤㄎ" "ㄎㄤ" "kang" ZHUYIN_CORRECT_SHUFFLE;
   z "ㄤㄎㄨ" "ㄎㄨㄤ" "kuang" ZHUYIN_CORRECT_SHUFFLE; z "ㄤㄏ" "ㄏㄤ" "hang" ZHUYIN_CORRECT_SHUFFLE;
   z "ㄤㄏㄨ" "ㄏㄨㄤ" "huang" ZHUYIN_CORRECT_SHUFFLE; z "ㄤㄐㄧ" "ㄐㄧㄤ" "jiang" ZHUYIN_CORRECT_SHUFFLE;
   z "ㄤㄑㄧ" "ㄑㄧㄤ" "qiang" ZHUYIN_CORRECT_SHUFFLE; z "ㄤㄒㄧ" "ㄒㄧㄤ" "xiang" ZHUYIN_CORRECT_SHUFFLE;
   z "ㄤㄓ" "ㄓㄤ" "zhang" ZHUYIN_CORRECT_SHUFFLE; z "ㄤㄓㄨ" "ㄓㄨㄤ" "zhuang" ZHUYIN_CORRECT_SHUFFLE;
   z "ㄤㄔ" "ㄔㄤ" "chang" ZHUYIN_CORRECT_SHUFFLE; z "ㄤㄔㄨ" "ㄔㄨㄤ" "chuang" ZHUYIN_CORRECT_SHUFFLE;
   z "ㄤㄕ" "ㄕㄤ" "shang" ZHUYIN_CORRECT_SHUFFLE; z "ㄤㄕㄨ" "ㄕㄨㄤ" "shuang" ZHUYIN_CORRECT_SHUFFLE;
   z "ㄤㄖ" "ㄖㄤ" "rang" ZHUYIN_CORRECT_SHUFFLE; z "ㄤㄗ" "ㄗㄤ" "zang" ZHUYIN_CORRECT_SHUFFLE;
   z "ㄤㄘ" "ㄘㄤ" "cang" ZHUYIN_CORRECT_SHUFFLE; z "ㄤㄙ" "ㄙㄤ" "sang" ZHUYIN_CORRECT_SHUFFLE;
   z "ㄤㄧ" "ㄧㄤ" "yang" ZHUYIN_CORRECT_SHUFFLE; z "ㄤㄧㄋ" "ㄋㄧㄤ" "niang" ZHUYIN_CORRECT_SHUFFLE;
   z "ㄤㄧㄌ" "ㄌㄧㄤ" "liang" ZHUYIN_CORRECT_SHUFFLE; z "ㄤㄧㄐ" "ㄐㄧㄤ" "jiang" ZHUYIN_CORRECT_SHUFFLE;
   z "ㄤㄧㄑ" "ㄑㄧㄤ" "qiang" ZHUYIN_CORRECT_SHUFFLE; z "ㄤㄧㄒ" "ㄒㄧㄤ" "xiang" ZHUYIN_CORRECT_SHUFFLE;
   z "ㄤㄨ" "ㄨㄤ" "wang" ZHUYIN_CORRECT_SHUFFLE; z "ㄤㄨㄍ" "ㄍㄨㄤ" "guang" ZHUYIN_CORRECT_SHUFFLE;
   z "ㄤㄨㄎ" "ㄎㄨㄤ" "kuang" ZHUYIN_CORRECT_SHUFFLE; z "ㄤㄨㄏ" "ㄏㄨㄤ" "huang" ZHUYIN_CORRECT_SHUFFLE;
   z "ㄤㄨㄓ" "ㄓㄨㄤ" "zhuang" ZHUYIN_CORRECT_SHUFFLE; z "ㄤㄨㄔ" "ㄔㄨㄤ" "chuang" ZHUYIN_CORRECT_SHUFFLE;
   z "ㄤㄨㄕ" "ㄕㄨㄤ" "shuang" ZHUYIN_CORRECT_SHUFFLE; z "ㄥ" "ㄥ" "eng" 0%Z;
   z "ㄥㄅ" "ㄅㄥ" "beng" ZHUYIN_CORRECT_SHUFFLE; z "ㄥㄅㄧ" "ㄅㄧㄥ" "bing" ZHUYIN_CORRECT_SHUFFLE;
   z "ㄥㄆ" "ㄆㄥ" "peng" ZHUYIN_CORRECT_SHUFFLE; z "ㄥㄆㄧ" "ㄆㄧㄥ" "ping" ZHUYIN_CORRECT_SHUFFLE;
   z "ㄥㄇ" "ㄇㄥ" "meng" ZHUYIN_CORRECT_SHUFFLE; z "ㄥㄇㄧ" "ㄇㄧㄥ" "ming" ZHUYIN_CORRECT_SHUFFLE;
   z "ㄥㄈ" "ㄈㄥ" "feng" ZHUYIN_CORRECT_SHUFFLE; z "ㄥㄉ" "ㄉㄥ" "deng" ZHUYIN_CORRECT_SHUFFLE;
   z "ㄥㄉㄧ" "ㄉㄧㄥ" "ding" ZHUYIN_CORRECT_SHUFFLE; z "ㄥㄉㄨ" "ㄉㄨㄥ" "dong" ZHUYIN_CORRECT_SHUFFLE;
   z "ㄥㄊ" "ㄊㄥ" "teng" ZHUYIN_CORRECT_SHUFFLE; z "ㄥㄊㄧ" "ㄊㄧㄥ" "ting" ZHUYIN_CORRECT_SHUFFLE;
   z "ㄥㄊㄨ" "ㄊㄨㄥ" "tong" ZHUYIN_CORRECT_SHUFFLE; z "ㄥㄋ" "ㄋㄥ" "neng" ZHUYIN_CORRECT_SHUFFLE;
   z "ㄥㄋㄧ" "ㄋㄧㄥ" "ning" ZHUYIN_CORRECT_SHUFFLE; z "ㄥㄋㄨ" "ㄋㄨㄥ" "nong" ZHUYIN_CORRECT_SHUFFLE;
   z "ㄥㄌ" "ㄌㄥ" "leng" ZHUYIN_CORRECT_SHUFFLE; z "ㄥㄌㄧ" "ㄌㄧㄥ" "ling" ZHUYIN_CORRECT_SHUFFLE;
   z "ㄥㄌㄨ" "ㄌㄨㄥ" "long" ZHUYIN_CORRECT_SHUFFLE; z "ㄥㄍ" "ㄍㄥ" "geng" ZHUYIN_CORRECT_SHUFFLE;
   z "ㄥㄍㄨ" "ㄍㄨㄥ" "gong" ZHUYIN_CORRECT_SHUFFLE; z "ㄥㄎ" "ㄎㄥ" "keng" ZHUYIN_CORRECT_SHUFFLE;
   z "ㄥㄎㄨ" "ㄎㄨㄥ" "kong" ZHUYIN_CORRECT_SHUFFLE; z "ㄥㄏ" "ㄏㄥ" "heng" ZHUYIN_CORRECT_SHUFFLE;
   z "ㄥㄏㄨ" "ㄏㄨㄥ" "hong" ZHUYIN_CORRECT_SHUFFLE; z "ㄥㄐㄧ" "ㄐㄧㄥ" "jing" ZHUYIN_CORRECT_SHUFFLE;
   z "ㄥㄐㄩ" "ㄐㄩㄥ" "jiong" ZHUYIN_CORRECT_SHUFFLE; z "ㄥㄑㄧ" "ㄑㄧㄥ" "qing" ZHUYIN_CORRECT_SHUFFLE;
   z "ㄥㄑㄩ" "ㄑㄩㄥ" "qiong" ZHUYIN_CORRECT_SHUFFLE; z "ㄥㄒㄧ" "ㄒㄧㄥ" "xing" ZHUYIN_CORRECT_SHUFFLE;
   z "ㄥㄒㄩ" "ㄒㄩㄥ" "xiong" ZHUYIN_CORRECT_SHUFFLE; z "ㄥㄓ" "ㄓㄥ" "zheng" ZHUYIN_CORRECT_SHUFFLE;
   z "ㄥㄓㄨ" "ㄓㄨㄥ" "zhong" ZHUYIN_CORRECT_SHUFFLE; z "ㄥㄔ" "ㄔㄥ" "cheng" ZHUYIN_CORRECT_SHUFFLE;
   z "ㄥㄔㄨ" "ㄔㄨㄥ" "chong" ZHUYIN_CORRECT_SHUFFLE; z "ㄥㄕ" "ㄕㄥ" "sheng" ZHUYIN_CORRECT_SHUFFLE;
   z "ㄥㄖ" "ㄖㄥ" "reng" ZHUYIN_CORRECT_SHUFFLE; z "ㄥㄖㄨ" "ㄖㄨㄥ" "rong" ZHUYIN_CORRECT_SHUFFLE;
   z "ㄥㄗ" "ㄗㄥ" "zeng" ZHUYIN_CORRECT_SHUFFLE; z "ㄥㄗㄨ" "ㄗㄨㄥ" "zong" ZHUYIN_CORRECT_SHUFFLE;
   z "ㄥㄘ" "ㄘㄥ" "ceng" ZHUYIN_CORRECT_SHUFFLE; z "ㄥㄘㄨ" "ㄘㄨㄥ" "cong" ZHUYIN_CORRECT_SHUFFLE;
   z "ㄥㄙ" "ㄙㄥ" "seng" ZHUYIN_CORRECT_SHUFFLE; z "ㄥㄙㄨ" "ㄙㄨㄥ" "song" ZHUYIN_CORRECT_SHUFFLE;
   z "ㄥㄧ" "ㄧㄥ" "ying" ZHUYIN_CORRECT_SHUFFLE; z "ㄥㄧㄅ" "ㄅㄧㄥ" "bing" ZHUYIN_CORRECT_SHUFFLE;
   z "ㄥㄧㄆ" "ㄆㄧㄥ" "ping" ZHUYIN_CORRECT_SHUFFLE; z "ㄥㄧㄇ" "ㄇㄧㄥ" "ming" ZHUYIN_CORRECT_SHUFFLE;
   z "ㄥㄧㄉ" "ㄉㄧㄥ" "ding" ZHUYIN_CORRECT_SHUFFLE; z "ㄥㄧㄊ" "ㄊㄧㄥ" "ting" ZHUYIN_CORRECT_SHUFFLE;
   z "ㄥㄧㄋ" "ㄋㄧㄥ" "ning" ZHUYIN_CORRECT_SHUFFLE; z "ㄥㄧㄌ" "ㄌㄧㄥ" "ling" ZHUYIN_CORRECT_SHUFFLE;
   z "ㄥㄧㄐ" "ㄐㄧㄥ" "jing" ZHUYIN_CORRECT_SHUFFLE; z "ㄥㄧㄑ" "ㄑㄧㄥ" "qing" ZHUYIN_CORRECT_SHUFFLE;
   z "ㄥㄧㄒ" "ㄒㄧㄥ" "xing" ZHUYIN_CORRECT_SHUFFLE; z "ㄥㄨ" "ㄨㄥ" "weng" ZHUYIN_CORRECT_SHUFFLE;
   z "ㄥㄨㄉ" "ㄉㄨㄥ" "dong" ZHUYIN_CORRECT_SHUFFLE; z "ㄥㄨㄊ" "ㄊㄨㄥ" "tong" ZHUYIN_CORRECT_SHUFFLE;
   z "ㄥㄨㄋ" "ㄋㄨㄥ" "nong" ZHUYIN_CORRECT_SHUFFLE; z "ㄥㄨㄌ" "ㄌㄨㄥ" "long" ZHUYIN_CORRECT_SHUFFLE;
   z "ㄥㄨㄍ" "ㄍㄨㄥ" "gong" ZHUYIN_CORRECT_SHUFFLE; z "ㄥㄨㄎ" "ㄎㄨㄥ" "kong" ZHUYIN_CORRECT_SHUFFLE;
   z "ㄥㄨㄏ" "ㄏㄨㄥ" "hong" ZHUYIN_CORRECT_SHUFFLE; z "ㄥㄨㄓ" "ㄓㄨㄥ" "zhong" ZHUYIN_CORRECT_SHUFFLE;
   z "ㄥㄨㄔ" "ㄔㄨㄥ" "chong" ZHUYIN_CORRECT_SHUFFLE; z "ㄥㄨㄖ" "ㄖㄨㄥ" "rong" ZHUYIN_CORRECT_SHUFFLE;
   z "ㄥㄨㄗ" "ㄗㄨㄥ" "zong" ZHUYIN_CORRECT_SHUFFLE; z "ㄥㄨㄘ" "ㄘㄨㄥ" "cong" ZHUYIN_CORRECT_SHUFFLE;
   z "ㄥㄨㄙ" "ㄙㄨㄥ" "song" ZHUYIN_CORRECT_SHUFFLE; z "ㄥㄩ" "ㄩㄥ" "yong" ZHUYIN_CORRECT_SHUFFLE;
   z "ㄥㄩㄐ" "ㄐㄩㄥ" "jiong" ZHUYIN_CORRECT_SHUFFLE; z "ㄥㄩㄑ" "ㄑㄩㄥ" "qiong" ZHUYIN_CORRECT_SHUFFLE;
   z "ㄥㄩㄒ" "ㄒㄩㄥ" "xiong" ZHUYIN_CORRECT_SHUFFLE; z "ㄦ" "ㄦ" "er" 0%Z; z "ㄧ" "ㄧ" "yi" 0%Z;
   z "ㄧㄅ" "ㄅㄧ" "bi" ZHUYIN_CORRECT_SHUFFLE; z "ㄧㄅㄝ" "ㄅㄧㄝ" "bie" ZHUYIN_CORRECT_SHUFFLE;
   z "ㄧㄅㄠ" "ㄅㄧㄠ" "biao" ZHUYIN_CORRECT_SHUFFLE; z "ㄧㄅㄢ" "ㄅㄧㄢ" "bian" ZHUYIN_CORRECT_SHUFFLE;
   z "ㄧㄅㄣ" "ㄅㄧㄣ" "bin" ZHUYIN_CORRECT_SHUFFLE; z "ㄧㄅㄥ" "ㄅㄧㄥ" "bing" ZHUYIN_CORRECT_SHUFFLE;
   z "ㄧㄆ" "ㄆㄧ" "pi" ZHUYIN_CORRECT_SHUFFLE; z "ㄧㄆㄝ" "ㄆㄧㄝ" "pie" ZHUYIN_CORRECT_SHUFFLE;
   z "ㄧㄆㄠ" "ㄆㄧㄠ" "piao" ZHUYIN_CORRECT_SHUFFLE; z "ㄧㄆㄢ" "ㄆㄧㄢ" "pian" ZHUYIN_CORRECT_SHUFFLE;
   z "ㄧㄆㄣ" "ㄆㄧㄣ" "pin" ZHUYIN_CORRECT_SHUFFLE; z "ㄧㄆㄥ" "ㄆㄧㄥ" "ping" ZHUYIN_CORRECT_SHUFFLE;
   z "ㄧㄇ" "ㄇㄧ" "mi" ZHUYIN_CORRECT_SHUFFLE; z "ㄧㄇㄝ" "ㄇㄧㄝ" "mie" ZHUYIN_CORRECT_SHUFFLE;
   z "ㄧㄇㄠ" "ㄇㄧㄠ" "miao" ZHUYIN_CORRECT_SHUFFLE; z "ㄧㄇㄡ" "ㄇㄧㄡ" "miu" ZHUYIN_CORRECT_SHUFFLE;
   z "ㄧㄇㄢ" "ㄇㄧㄢ" "mian" ZHUYIN_CORRECT_SHUFFLE; z "ㄧㄇㄣ" "ㄇㄧㄣ" "min" ZHUYIN_CORRECT_SHUFFLE;
   z "ㄧㄇㄥ" "ㄇㄧㄥ" "ming" ZHUYIN_CORRECT_SHUFFLE; z "ㄧㄉ" "ㄉㄧ" "di" ZHUYIN_CORRECT_SHUFFLE;
   z "ㄧㄉㄚ" "ㄉㄧㄚ" "dia" ZHUYIN_CORRECT_SHUFFLE; z "ㄧㄉㄝ" "ㄉㄧㄝ" "die" ZHUYIN_CORRECT_SHUFFLE;
   z "ㄧㄉㄠ" "ㄉㄧㄠ" "diao" ZHUYIN_CORRECT_SHUFFLE; z "ㄧㄉㄡ" "ㄉㄧㄡ" "diu" ZHUYIN_CORRECT_SHUFFLE;
   z "ㄧㄉㄢ" "ㄉㄧㄢ" "dian" ZHUYIN_CORRECT_SHUFFLE; z "ㄧㄉㄣ" "ㄉㄧㄣ" "din" ZHUYIN_CORRECT_SHUFFLE;
   z "ㄧㄉㄥ" "ㄉㄧㄥ" "ding" ZHUYIN_CORRECT_SHUFFLE; z "ㄧㄊ" "ㄊㄧ" "ti" ZHUYIN_CORRECT_SHUFFLE;
   z "ㄧㄊㄝ" "ㄊㄧㄝ" "tie" ZHUYIN_CORRECT_SHUFFLE; z "ㄧㄊㄠ" "ㄊㄧㄠ" "tiao" ZHUYIN_CORRECT_SHUFFLE;
   z "ㄧㄊㄢ" "ㄊㄧㄢ" "tian" ZHUYIN_CORRECT_SHUFFLE; z "ㄧㄊㄥ" "ㄊㄧㄥ" "ting" ZHUYIN_CORRECT_SHUFFLE;
   z "ㄧㄋ" "ㄋㄧ" "ni" ZHUYIN_CORRECT_SHUFFLE; z "ㄧㄋㄚ" "ㄋㄧㄚ" "nia" ZHUYIN_CORRECT_SHUFFLE;
   z "ㄧㄋㄝ" "ㄋㄧㄝ" "nie" ZHUYIN_CORRECT_SHUFFLE; z "ㄧㄋㄠ" "ㄋㄧㄠ" "niao" ZHUYIN_CORRECT_SHUFFLE;
   z "ㄧㄋㄡ" "ㄋㄧㄡ" "niu" ZHUYIN_CORRECT_SHUFFLE; z "ㄧㄋㄢ" "ㄋㄧㄢ" "nian" ZHUYIN_CORRECT_SHUFFLE;
   z "ㄧㄋㄣ" "ㄋㄧㄣ" "nin" ZHUYIN_CORRECT_SHUFFLE; z "ㄧㄋㄤ" "ㄋㄧㄤ" "niang" ZHUYIN_CORRECT_SHUFFLE;
   z "ㄧㄋㄥ" "ㄋㄧㄥ" "ning" ZHUYIN_CORRECT_SHUFFLE; z "ㄧㄌ" "ㄌㄧ" "li" ZHUYIN_CORRECT_SHUFFLE;
   z "ㄧㄌㄚ" "ㄌㄧㄚ" "lia" ZHUYIN_CORRECT_SHUFFLE; z "ㄧㄌㄝ" "ㄌㄧㄝ" "lie" ZHUYIN_CORRECT_SHUFFLE;
   z "ㄧㄌㄠ" "ㄌㄧㄠ" "liao" ZHUYIN_CORRECT_SHUFFLE; z "ㄧㄌㄡ" "ㄌㄧㄡ" "liu" ZHUYIN_CORRECT_SHUFFLE;
   z "ㄧㄌㄢ" "ㄌㄧㄢ" "lian" ZHUYIN_CORRECT_SHUFFLE; z "ㄧㄌㄣ" "ㄌㄧㄣ" "lin" ZHUYIN_CORRECT_SHUFFLE;
   z "ㄧㄌㄤ" "ㄌㄧㄤ" "liang" ZHUYIN_CORRECT_SHUFFLE; z "ㄧㄌㄥ" "ㄌㄧㄥ" "ling" ZHUYIN_CORRECT_SHUFFLE;
   z "ㄧㄐ" "ㄐㄧ" "ji" ZHUYIN_CORRECT_SHUFFLE; z "ㄧㄐㄚ" "ㄐㄧㄚ" "jia" ZHUYIN_CORRECT_SHUFFLE;
   z "ㄧㄐㄝ" "ㄐㄧㄝ" "jie" ZHUYIN_CORRECT_SHUFFLE; z "ㄧㄐㄠ" "ㄐㄧㄠ" "jiao" ZHUYIN_CORRECT_SHUFFLE;
   z "ㄧㄐㄡ" "ㄐㄧㄡ" "jiu" ZHUYIN_CORRECT_SHUFFLE; z "ㄧㄐㄢ" "ㄐㄧㄢ" "jian" ZHUYIN_CORRECT_SHUFFLE;
   z "ㄧㄐㄣ" "ㄐㄧㄣ" "jin" ZHUYIN_CORRECT_SHUFFLE; z "ㄧㄐㄤ" "ㄐㄧㄤ" "jiang" ZHUYIN_CORRECT_SHUFFLE;
   z "ㄧㄐㄥ" "ㄐㄧㄥ" "jing" ZHUYIN_CORRECT_SHUFFLE; z "ㄧㄑ" "ㄑㄧ" "qi" ZHUYIN_CORRECT_SHUFFLE;
   z "ㄧㄑㄚ" "ㄑㄧㄚ" "qia" ZHUYIN_CORRECT_SHUFFLE; z "ㄧㄑㄝ" "ㄑㄧㄝ" "qie" ZHUYIN_CORRECT_SHUFFLE;
   z "ㄧㄑㄠ" "ㄑㄧㄠ" "qiao" ZHUYIN_CORRECT_SHUFFLE; z "ㄧㄑㄡ" "ㄑㄧㄡ" "qiu" ZHUYIN_CORRECT_SHUFFLE;
   z "ㄧㄑㄢ" "ㄑㄧㄢ" "qian" ZHUYIN_CORRECT_SHUFFLE; z "ㄧㄑㄣ" "ㄑㄧㄣ" "qin" ZHUYIN_CORRECT_SHUFFLE;
   z "ㄧㄑㄤ" "ㄑㄧㄤ" "qiang" ZHUYIN_CORRECT_SHUFFLE; z "ㄧㄑㄥ" "ㄑㄧㄥ" "qing" ZHUYIN_CORRECT_SHUFFLE;
   z "ㄧㄒ" "ㄒㄧ" "xi" ZHUYIN_CORRECT_SHUFFLE; z "ㄧㄒㄚ" "ㄒㄧㄚ" "xia" ZHUYIN_CORRECT_SHUFFLE;
   z "ㄧㄒㄝ" "ㄒㄧㄝ" "xie" ZHUYIN_CORRECT_SHUFFLE; z "ㄧㄒㄠ" "ㄒㄧㄠ" "xiao" ZHUYIN_CORRECT_SHUFFLE;
   z "ㄧㄒㄡ" "ㄒㄧㄡ" "xiu" ZHUYIN_CORRECT_SHUFFLE; z "ㄧㄒㄢ" "ㄒㄧㄢ" "xian" ZHUYIN_CORRECT_SHUFFLE;
   z "ㄧㄒㄣ" "ㄒㄧㄣ" "xin" ZHUYIN_CORRECT_SHUFFLE; z "ㄧㄒㄤ" "ㄒㄧㄤ" "xiang" ZHUYIN_CORRECT_SHUFFLE;
   z "ㄧㄒㄥ" "ㄒㄧㄥ" "xing" ZHUYIN_CORRECT_SHUFFLE; z "ㄧㄚ" "ㄧㄚ" "ya" 0%Z;
   z "ㄧㄚㄉ" "ㄉㄧㄚ" "dia" ZHUYIN_CORRECT_SHUFFLE; z "ㄧㄚㄋ" "ㄋㄧㄚ" "nia" ZHUYIN_CORRECT_SHUFFLE;
   z "ㄧㄚㄌ" "ㄌㄧㄚ" "lia" ZHUYIN_CORRECT_SHUFFLE; z "ㄧㄚㄐ" "ㄐㄧㄚ" "jia" ZHUYIN_CORRECT_SHUFFLE;
   z "ㄧㄚㄑ" "ㄑㄧㄚ" "qia" ZHUYIN_CORRECT_SHUFFLE; z "ㄧㄚㄒ" "ㄒㄧㄚ" "xia" ZHUYIN_CORRECT_SHUFFLE;
   z "ㄧㄛ" "ㄧㄛ" "yo" 0%Z; z "ㄧㄝ" "ㄧㄝ" "ye" 0%Z; z "ㄧㄝㄅ" "ㄅㄧㄝ" "bie" ZHUYIN_CORRECT_SHUFFLE;
   z "ㄧㄝㄆ" "ㄆㄧㄝ" "pie" ZHUYIN_CORRECT_SHUFFLE; z "ㄧㄝㄇ" "ㄇㄧㄝ" "mie" ZHUYIN_CORRECT_SHUFFLE;
   z "ㄧㄝㄉ" "ㄉㄧㄝ" "die" ZHUYIN_CORRECT_SHUFFLE; z "ㄧㄝㄊ" "ㄊㄧㄝ" "tie" ZHUYIN_CORRECT_SHUFFLE;
   z "ㄧㄝㄋ" "ㄋㄧㄝ" "nie" ZHUYIN_CORRECT_SHUFFLE; z "ㄧㄝㄌ" "ㄌㄧㄝ" "lie" ZHUYIN_CORRECT_SHUFFLE;
   z "ㄧㄝㄐ" "ㄐㄧㄝ" "jie" ZHUYIN_CORRECT_SHUFFLE; z "ㄧㄝㄑ" "ㄑㄧㄝ" "qie" ZHUYIN_CORRECT_SHUFFLE;
   z "ㄧㄝㄒ" "ㄒㄧㄝ" "xie" ZHUYIN_CORRECT_SHUFFLE; z "ㄧㄞ" "ㄧㄞ" "yai" 0%Z; z "ㄧㄠ" "ㄧㄠ" "yao" 0%Z;
   z "ㄧㄠㄅ" "ㄅㄧㄠ" "biao" ZHUYIN_CORRECT_SHUFFLE; z "ㄧㄠㄆ" "ㄆㄧㄠ" "piao" ZHUYIN_CORRECT_SHUFFLE;
   z "ㄧㄠㄇ" "ㄇㄧㄠ" "miao" ZHUYIN_CORRECT_SHUFFLE; z "ㄧㄠㄉ" "ㄉㄧㄠ" "diao" ZHUYIN_CORRECT_SHUFFLE;
   z "ㄧㄠㄊ" "ㄊㄧㄠ" "tiao" ZHUYIN_CORRECT_SHUFFLE; z "ㄧㄠㄋ" "ㄋㄧㄠ" "niao" ZHUYIN_CORRECT_SHUFFLE;
   z "ㄧㄠㄌ" "ㄌㄧㄠ" "liao" ZHUYIN_CORRECT_SHUFFLE; z "ㄧㄠㄐ" "ㄐㄧㄠ" "jiao" ZHUYIN_CORRECT_SHUFFLE;
   z "ㄧㄠㄑ" "ㄑㄧㄠ" "qiao" ZHUYIN_CORRECT_SHUFFLE; z "ㄧㄠㄒ" "ㄒㄧㄠ" "xiao" ZHUYIN_CORRECT_SHUFFLE;
   z "ㄧㄡ" "ㄧㄡ" "you" 0%Z; z "ㄧㄡㄇ" "ㄇㄧㄡ" "miu" ZHUYIN_CORRECT_SHUFFLE;
   z "ㄧㄡㄉ" "ㄉㄧㄡ" "diu" ZHUYIN_CORRECT_SHUFFLE; z "ㄧㄡㄋ" "ㄋㄧㄡ" "niu" ZHUYIN_CORRECT_SHUFFLE;
   z "ㄧㄡㄌ" "ㄌㄧㄡ" "liu" ZHUYIN_CORRECT_SHUFFLE; z "ㄧㄡㄐ" "ㄐㄧㄡ" "jiu" ZHUYIN_CORRECT_SHUFFLE;
   z "ㄧㄡㄑ" "ㄑㄧㄡ" "qiu" ZHUYIN_CORRECT_SHUFFLE; z "ㄧㄡㄒ" "ㄒㄧㄡ" "xiu" ZHUYIN_CORRECT_SHUFFLE;
   z "ㄧㄢ" "ㄧㄢ" "yan" 0%Z; z "ㄧㄢㄅ" "ㄅㄧㄢ" "bian" ZHUYIN_CORRECT_SHUFFLE;
   z "ㄧㄢㄆ" "ㄆㄧㄢ" "pian" ZHUYIN_CORRECT_SHUFFLE; z "ㄧㄢㄇ" "ㄇㄧㄢ" "mian" ZHUYIN_CORRECT_SHUFFLE;
   z "ㄧㄢㄉ" "ㄉㄧㄢ" "dian" ZHUYIN_CORRECT_SHUFFLE; z "ㄧㄢㄊ" "ㄊㄧㄢ" "tian" ZHUYIN_CORRECT_SHUFFLE;
   z "ㄧㄢㄋ" "ㄋㄧㄢ" "nian" ZHUYIN_CORRECT_SHUFFLE; z "ㄧㄢㄌ" "ㄌㄧㄢ" "lian" ZHUYIN_CORRECT_SHUFFLE;
   z "ㄧㄢㄐ" "ㄐㄧㄢ" "jian" ZHUYIN_CORRECT_SHUFFLE; z "ㄧㄢㄑ" "ㄑㄧㄢ" "qian" ZHUYIN_CORRECT_SHUFFLE;
   z "ㄧㄢㄒ" "ㄒㄧㄢ" "xian" ZHUYIN_CORRECT_SHUFFLE; z "ㄧㄣ" "ㄧㄣ" "yin" 0%Z;
   z "ㄧㄣㄅ" "ㄅㄧㄣ" "bin" ZHUYIN_CORRECT_SHUFFLE; z "ㄧㄣㄆ" "ㄆㄧㄣ" "pin" ZHUYIN_CORRECT_SHUFFLE;
   z "ㄧㄣㄇ" "ㄇㄧㄣ" "min" ZHUYIN_CORRECT_SHUFFLE; z "ㄧㄣㄉ" "ㄉㄧㄣ" "din" ZHUYIN_CORRECT_SHUFFLE;
   z "ㄧㄣㄋ" "ㄋㄧㄣ" "nin" ZHUYIN_CORRECT_SHUFFLE; z "ㄧㄣㄌ" "ㄌㄧㄣ" "lin" ZHUYIN_CORRECT_SHUFFLE;
   z "ㄧㄣㄐ" "ㄐㄧㄣ" "jin" ZHUYIN_CORRECT_SHUFFLE; z "ㄧㄣㄑ" "ㄑㄧㄣ" "qin" ZHUYIN_CORRECT_SHUFFLE;
   z "ㄧㄣㄒ" "ㄒㄧㄣ" "xin" ZHUYIN_CORRECT_SHUFFLE; z "ㄧㄤ" "ㄧㄤ" "yang" 0%Z;
   z "ㄧㄤㄋ" "ㄋㄧㄤ" "niang" ZHUYIN_CORRECT_SHUFFLE; z "ㄧㄤㄌ" "ㄌㄧㄤ" "liang" ZHUYIN_CORRECT_SHUFFLE;
   z "ㄧㄤㄐ" "ㄐㄧㄤ" "jiang" ZHUYIN_CORRECT_SHUFFLE; z "ㄧㄤㄑ" "ㄑㄧㄤ" "qiang" ZHUYIN_CORRECT_SHUFFLE;
   z "ㄧㄤㄒ" "ㄒㄧㄤ" "xiang" ZHUYIN_CORRECT_SHUFFLE; z "ㄧㄥ" "ㄧㄥ" "ying" 0%Z;
   z "ㄧㄥㄅ" "ㄅㄧㄥ" "bing" ZHUYIN_CORRECT_SHUFFLE; z "ㄧㄥㄆ" "ㄆㄧㄥ" "ping" ZHUYIN_CORRECT_SHUFFLE;
   z "ㄧㄥㄇ" "ㄇㄧㄥ" "ming" ZHUYIN_CORRECT_SHUFFLE; z "ㄧㄥㄉ" "ㄉㄧㄥ" "ding" ZHUYIN_CORRECT_SHUFFLE;
   z "ㄧㄥㄊ" "ㄊㄧㄥ" "ting" ZHUYIN_CORRECT_SHUFFLE; z "ㄧㄥㄋ" "ㄋㄧㄥ" "ning" ZHUYIN_CORRECT_SHUFFLE;
   z "ㄧㄥㄌ" "ㄌㄧㄥ" "ling" ZHUYIN_CORRECT_SHUFFLE; z "ㄧㄥㄐ" "ㄐㄧㄥ" "jing" ZHUYIN_CORRECT_SHUFFLE;
   z "ㄧㄥㄑ" "ㄑㄧㄥ" "qing" ZHUYIN_CORRECT_SHUFFLE; z "ㄧㄥㄒ" "ㄒㄧㄥ" "xing" ZHUYIN_CORRECT_SHUFFLE;
   z "ㄨ" "ㄨ" "wu" 0%Z; z "ㄨㄅ" "ㄅㄨ" "bu" ZHUYIN_CORRECT_SHUFFLE;
   z "ㄨㄆ" "ㄆㄨ" "pu" ZHUYIN_CORRECT_SHUFFLE; z "ㄨㄇ" "ㄇㄨ" "mu" ZHUYIN_CORRECT_SHUFFLE;
   z "ㄨㄈ" "ㄈㄨ" "fu" ZHUYIN_CORRECT_SHUFFLE; z "ㄨㄉ" "ㄉㄨ" "du" ZHUYIN_CORRECT_SHUFFLE;
   z "ㄨㄉㄛ" "ㄉㄨㄛ" "duo" ZHUYIN_CORRECT_SHUFFLE; z "ㄨㄉㄟ" "ㄉㄨㄟ" "dui" ZHUYIN_CORRECT_SHUFFLE;
   z "ㄨㄉㄢ" "ㄉㄨㄢ" "duan" ZHUYIN_CORRECT_SHUFFLE; z "ㄨㄉㄣ" "ㄉㄨㄣ" "dun" ZHUYIN_CORRECT_SHUFFLE;
   z "ㄨㄉㄥ" "ㄉㄨㄥ" "dong" ZHUYIN_CORRECT_SHUFFLE; z "ㄨㄊ" "ㄊㄨ" "tu" ZHUYIN_CORRECT_SHUFFLE;
   z "ㄨㄊㄛ" "ㄊㄨㄛ" "tuo" ZHUYIN_CORRECT_SHUFFLE; z "ㄨㄊㄟ" "ㄊㄨㄟ" "tui" ZHUYIN_CORRECT_SHUFFLE;
   z "ㄨㄊㄢ" "ㄊㄨㄢ" "tuan" ZHUYIN_CORRECT_SHUFFLE; z "ㄨㄊㄣ" "ㄊㄨㄣ" "tun" ZHUYIN_CORRECT_SHUFFLE;
   z "ㄨㄊㄥ" "ㄊㄨㄥ" "tong" ZHUYIN_CORRECT_SHUFFLE; z "ㄨㄋ" "ㄋㄨ" "nu" ZHUYIN_CORRECT_SHUFFLE;
   z "ㄨㄋㄛ" "ㄋㄨㄛ" "nuo" ZHUYIN_CORRECT_SHUFFLE; z "ㄨㄋㄢ" "ㄋㄨㄢ" "nuan" ZHUYIN_CORRECT_SHUFFLE;
   z "ㄨㄋㄣ" "ㄋㄨㄣ" "nun" ZHUYIN_CORRECT_SHUFFLE; z "ㄨㄋㄥ" "ㄋㄨㄥ" "nong" ZHUYIN_CORRECT_SHUFFLE;
   z "ㄨㄌ" "ㄌㄨ" "lu" ZHUYIN_CORRECT_SHUFFLE; z "ㄨㄌㄛ" "ㄌㄨㄛ" "luo" ZHUYIN_CORRECT_SHUFFLE;
   z "ㄨㄌㄢ" "ㄌㄨㄢ" "luan" ZHUYIN_CORRECT_SHUFFLE; z "ㄨㄌㄣ" "ㄌㄨㄣ" "lun" ZHUYIN_CORRECT_SHUFFLE;
   z "ㄨㄌㄥ" "ㄌㄨㄥ" "long" ZHUYIN_CORRECT_SHUFFLE; z "ㄨㄍ" "ㄍㄨ" "gu" ZHUYIN_CORRECT_SHUFFLE;
   z "ㄨㄍㄚ" "ㄍㄨㄚ" "gua" ZHUYIN_CORRECT_SHUFFLE; z "ㄨㄍㄛ" "ㄍㄨㄛ" "guo" ZHUYIN_CORRECT_SHUFFLE;
   z "ㄨㄍㄞ" "ㄍㄨㄞ" "guai" ZHUYIN_CORRECT_SHUFFLE; z "ㄨㄍㄟ" "ㄍㄨㄟ" "gui" ZHUYIN_CORRECT_SHUFFLE;
   z "ㄨㄍㄢ" "ㄍㄨㄢ" "guan" ZHUYIN_CORRECT_SHUFFLE; z "ㄨㄍㄣ" "ㄍㄨㄣ" "gun" ZHUYIN_CORRECT_SHUFFLE;
   z "ㄨㄍㄤ" "ㄍㄨㄤ" "guang" ZHUYIN_CORRECT_SHUFFLE; z "ㄨㄍㄥ" "ㄍㄨㄥ" "gong" ZHUYIN_CORRECT_SHUFFLE;
   z "ㄨㄎ" "ㄎㄨ" "ku" ZHUYIN_CORRECT_SHUFFLE; z "ㄨㄎㄚ" "ㄎㄨㄚ" "kua" ZHUYIN_CORRECT_SHUFFLE;
   z "ㄨㄎㄛ" "ㄎㄨㄛ" "kuo" ZHUYIN_CORRECT_SHUFFLE; z "ㄨㄎㄞ" "ㄎㄨㄞ" "kuai" ZHUYIN_CORRECT_SHUFFLE;
   z "ㄨㄎㄟ" "ㄎㄨㄟ" "kui" ZHUYIN_CORRECT_SHUFFLE; z "ㄨㄎㄢ" "ㄎㄨㄢ" "kuan" ZHUYIN_CORRECT_SHUFFLE;
   z "ㄨㄎㄣ" "ㄎㄨㄣ" "kun" ZHUYIN_CORRECT_SHUFFLE; z "ㄨㄎㄤ" "ㄎㄨㄤ" "kuang" ZHUYIN_CORRECT_SHUFFLE;
   z "ㄨㄎㄥ" "ㄎㄨㄥ" "kong" ZHUYIN_CORRECT_SHUFFLE; z "ㄨㄏ" "ㄏㄨ" "hu" ZHUYIN_CORRECT_SHUFFLE;
   z "ㄨㄏㄚ" "ㄏㄨㄚ" "hua" ZHUYIN_CORRECT_SHUFFLE; z "ㄨㄏㄛ" "ㄏㄨㄛ" "huo" ZHUYIN_CORRECT_SHUFFLE;
   z "ㄨㄏㄞ" "ㄏㄨㄞ" "huai" ZHUYIN_CORRECT_SHUFFLE; z "ㄨㄏㄟ" "ㄏㄨㄟ" "hui" ZHUYIN_CORRECT_SHUFFLE;
   z "ㄨㄏㄢ" "ㄏㄨㄢ" "huan" ZHUYIN_CORRECT_SHUFFLE; z "ㄨㄏㄣ" "ㄏㄨㄣ" "hun" ZHUYIN_CORRECT_SHUFFLE;
   z "ㄨㄏㄤ" "ㄏㄨㄤ" "huang" ZHUYIN_CORRECT_SHUFFLE; z "ㄨㄏㄥ" "ㄏㄨㄥ" "hong" ZHUYIN_CORRECT_SHUFFLE;
   z "ㄨㄓ" "ㄓㄨ" "zhu" ZHUYIN_CORRECT_SHUFFLE; z "ㄨㄓㄚ" "ㄓㄨㄚ" "zhua" ZHUYIN_CORRECT_SHUFFLE;
   z "ㄨㄓㄛ" "ㄓㄨㄛ" "zhuo" ZHUYIN_CORRECT_SHUFFLE; z "ㄨㄓㄞ" "ㄓㄨㄞ" "zhuai" ZHUYIN_CORRECT_SHUFFLE;
   z "ㄨㄓㄟ" "ㄓㄨㄟ" "zhui" ZHUYIN_CORRECT_SHUFFLE; z "ㄨㄓㄢ" "ㄓㄨㄢ" "zhuan" ZHUYIN_CORRECT_SHUFFLE;
   z "ㄨㄓㄣ" "ㄓㄨㄣ" "zhun" ZHUYIN_CORRECT_SHUFFLE; z "ㄨㄓㄤ" "ㄓㄨㄤ" "zhuang" ZHUYIN_CORRECT_SHUFFLE;
   z "ㄨㄓㄥ" "ㄓㄨㄥ" "zhong" ZHUYIN_CORRECT_SHUFFLE; z "ㄨㄔ" "ㄔㄨ" "chu" ZHUYIN_CORRECT_SHUFFLE;
   z "ㄨㄔㄚ" "ㄔㄨㄚ" "chua" ZHUYIN_CORRECT_SHUFFLE; z "ㄨㄔㄛ" "ㄔㄨㄛ" "chuo" ZHUYIN_CORRECT_SHUFFLE;
   z "ㄨㄔㄞ" "ㄔㄨㄞ" "chuai" ZHUYIN_CORRECT_SHUFFLE; z "ㄨㄔㄟ" "ㄔㄨㄟ" "chui" ZHUYIN_CORRECT_SHUFFLE;
   z "ㄨㄔㄢ" "ㄔㄨㄢ" "chuan" ZHUYIN_CORRECT_SHUFFLE; z "ㄨㄔㄣ" "ㄔㄨㄣ" "chun" ZHUYIN_CORRECT_SHUFFLE;
   z "ㄨㄔㄤ" "ㄔㄨㄤ" "chuang" ZHUYIN_CORRECT_SHUFFLE; z "ㄨㄔㄥ" "ㄔㄨㄥ" "chong" ZHUYIN_CORRECT_SHUFFLE;
   z "ㄨㄕ" "ㄕㄨ" "shu" ZHUYIN_CORRECT_SHUFFLE; z "ㄨㄕㄚ" "ㄕㄨㄚ" "shua" ZHUYIN_CORRECT_SHUFFLE;
   z "ㄨㄕㄛ" "ㄕㄨㄛ" "shuo" ZHUYIN_CORRECT_SHUFFLE; z "ㄨㄕㄞ" "ㄕㄨㄞ" "shuai" ZHUYIN_CORRECT_SHUFFLE;
   z "ㄨㄕㄟ" "ㄕㄨㄟ" "shui" ZHUYIN_CORRECT_SHUFFLE; z "ㄨㄕㄢ" "ㄕㄨㄢ" "shuan" ZHUYIN_CORRECT_SHUFFLE;
   z "ㄨㄕㄣ" "ㄕㄨㄣ" "shun" ZHUYIN_CORRECT_SHUFFLE; z "ㄨㄕㄤ" "ㄕㄨㄤ" "shuang" ZHUYIN_CORRECT_SHUFFLE;
   z "ㄨㄖ" "ㄖㄨ" "ru" ZHUYIN_CORRECT_SHUFFLE; z "ㄨㄖㄚ" "ㄖㄨㄚ" "rua" ZHUYIN_CORRECT_SHUFFLE;
   z "ㄨㄖㄛ" "ㄖㄨㄛ" "ruo" ZHUYIN_CORRECT_SHUFFLE; z "ㄨㄖㄟ" "ㄖㄨㄟ" "rui" ZHUYIN_CORRECT_SHUFFLE;
   z "ㄨㄖㄢ" "ㄖㄨㄢ" "ruan" ZHUYIN_CORRECT_SHUFFLE; z "ㄨㄖㄣ" "ㄖㄨㄣ" "run" ZHUYIN_CORRECT_SHUFFLE;
   z "ㄨㄖㄥ" "ㄖㄨㄥ" "rong" ZHUYIN_CORRECT_SHUFFLE; z "ㄨㄗ" "ㄗㄨ" "zu" ZHUYIN_CORRECT_SHUFFLE;
   z "ㄨㄗㄛ" "ㄗㄨㄛ" "zuo" ZHUYIN_CORRECT_SHUFFLE; z "ㄨㄗㄟ" "ㄗㄨㄟ" "zui" ZHUYIN_CORRECT_SHUFFLE;
   z "ㄨㄗㄢ" "ㄗㄨㄢ" "zuan" ZHUYIN_CORRECT_SHUFFLE; z "ㄨㄗㄣ" "ㄗㄨㄣ" "zun" ZHUYIN_CORRECT_SHUFFLE;
   z "ㄨㄗㄥ" "ㄗㄨㄥ" "zong" ZHUYIN_CORRECT_SHUFFLE; z "ㄨㄘ" "ㄘㄨ" "cu" ZHUYIN_CORRECT_SHUFFLE;
   z "ㄨㄘㄛ" "ㄘㄨㄛ" "cuo" ZHUYIN_CORRECT_SHUFFLE; z "ㄨㄘㄟ" "ㄘㄨㄟ" "cui" ZHUYIN_CORRECT_SHUFFLE;
   z "ㄨㄘㄢ" "ㄘㄨㄢ" "cuan" ZHUYIN_CORRECT_SHUFFLE; z "ㄨㄘㄣ" "ㄘㄨㄣ" "cun" ZHUYIN_CORRECT_SHUFFLE;
   z "ㄨㄘㄥ" "ㄘㄨㄥ" "cong" ZHUYIN_CORRECT_SHUFFLE; z "ㄨㄙ" "ㄙㄨ" "su" ZHUYIN_CORRECT_SHUFFLE;
   z "ㄨㄙㄛ" "ㄙㄨㄛ" "suo" ZHUYIN_CORRECT_SHUFFLE; z "ㄨㄙㄟ" "ㄙㄨㄟ" "sui" ZHUYIN_CORRECT_SHUFFLE;
   z "ㄨㄙㄢ" "ㄙㄨㄢ" "suan" ZHUYIN_CORRECT_SHUFFLE; z "ㄨㄙㄣ" "ㄙㄨㄣ" "sun" ZHUYIN_CORRECT_SHUFFLE;
   z "ㄨㄙㄥ" "ㄙㄨㄥ" "song" ZHUYIN_CORRECT_SHUFFLE; z "ㄨㄚ" "ㄨㄚ" "wa" 0%Z;
   z "ㄨㄚㄍ" "ㄍㄨㄚ" "gua" ZHUYIN_CORRECT_SHUFFLE; z "ㄨㄚㄎ" "ㄎㄨㄚ" "kua" ZHUYIN_CORRECT_SHUFFLE;
   z "ㄨㄚㄏ" "ㄏㄨㄚ" "hua" ZHUYIN_CORRECT_SHUFFLE; z "ㄨㄚㄓ" "ㄓㄨㄚ" "zhua" ZHUYIN_CORRECT_SHUFFLE;
   z "ㄨㄚㄔ" "ㄔㄨㄚ" "chua" ZHUYIN_CORRECT_SHUFFLE; z "ㄨㄚㄕ" "ㄕㄨㄚ" "shua" ZHUYIN_CORRECT_SHUFFLE;
   z "ㄨㄚㄖ" "ㄖㄨㄚ" "rua" ZHUYIN_CORRECT_SHUFFLE; z "ㄨㄛ" "ㄨㄛ" "wo" 0%Z;
   z "ㄨㄛㄉ" "ㄉㄨㄛ" "duo" ZHUYIN_CORRECT_SHUFFLE; z "ㄨㄛㄊ" "ㄊㄨㄛ" "tuo" ZHUYIN_CORRECT_SHUFFLE;
   z "ㄨㄛㄋ" "ㄋㄨㄛ" "nuo" ZHUYIN_CORRECT_SHUFFLE; z "ㄨㄛㄌ" "ㄌㄨㄛ" "luo" ZHUYIN_CORRECT_SHUFFLE;
   z "ㄨㄛㄍ" "ㄍㄨㄛ" "guo" ZHUYIN_CORRECT_SHUFFLE; z "ㄨㄛㄎ" "ㄎㄨㄛ" "kuo" ZHUYIN_CORRECT_SHUFFLE;
   z "ㄨㄛㄏ" "ㄏㄨㄛ" "huo" ZHUYIN_CORRECT_SHUFFLE; z "ㄨㄛㄓ" "ㄓㄨㄛ" "zhuo" ZHUYIN_CORRECT_SHUFFLE;
   z "ㄨㄛㄔ" "ㄔㄨㄛ" "chuo" ZHUYIN_CORRECT_SHUFFLE; z "ㄨㄛㄕ" "ㄕㄨㄛ" "shuo" ZHUYIN_CORRECT_SHUFFLE;
   z "ㄨㄛㄖ" "ㄖㄨㄛ" "ruo" ZHUYIN_CORRECT_SHUFFLE; z "ㄨㄛㄗ" "ㄗㄨㄛ" "zuo" ZHUYIN_CORRECT_SHUFFLE;
   z "ㄨㄛㄘ" "ㄘㄨㄛ" "cuo" ZHUYIN_CORRECT_SHUFFLE; z "ㄨㄛㄙ" "ㄙㄨㄛ" "suo" ZHUYIN_CORRECT_SHUFFLE;
   z "ㄨㄞ" "ㄨㄞ" "wai" 0%Z; z "ㄨㄞㄍ" "ㄍㄨㄞ" "guai" ZHUYIN_CORRECT_SHUFFLE;
   z "ㄨㄞㄎ" "ㄎㄨㄞ" "kuai" ZHUYIN_CORRECT_SHUFFLE; z "ㄨㄞㄏ" "ㄏㄨㄞ" "huai" ZHUYIN_CORRECT_SHUFFLE;
   z "ㄨㄞㄓ" "ㄓㄨㄞ" "zhuai" ZHUYIN_CORRECT_SHUFFLE; z "ㄨㄞㄔ" "ㄔㄨㄞ" "chuai" ZHUYIN_CORRECT_SHUFFLE;
   z "ㄨㄞㄕ" "ㄕㄨㄞ" "shuai" ZHUYIN_CORRECT_SHUFFLE; z "ㄨㄟ" "ㄨㄟ" "wei" 0%Z;
   z "ㄨㄟㄉ" "ㄉㄨㄟ" "dui" ZHUYIN_CORRECT_SHUFFLE; z "ㄨㄟㄊ" "ㄊㄨㄟ" "tui" ZHUYIN_CORRECT_SHUFFLE;
   z "ㄨㄟㄍ" "ㄍㄨㄟ" "gui" ZHUYIN_CORRECT_SHUFFLE; z "ㄨㄟㄎ" "ㄎㄨㄟ" "kui" ZHUYIN_CORRECT_SHUFFLE;
   z "ㄨㄟㄏ" "ㄏㄨㄟ" "hui" ZHUYIN_CORRECT_SHUFFLE; z "ㄨㄟㄓ" "ㄓㄨㄟ" "zhui" ZHUYIN_CORRECT_SHUFFLE;
   z "ㄨㄟㄔ" "ㄔㄨㄟ" "chui" ZHUYIN_CORRECT_SHUFFLE; z "ㄨㄟㄕ" "ㄕㄨㄟ" "shui" ZHUYIN_CORRECT_SHUFFLE;
   z "ㄨㄟㄖ" "ㄖㄨㄟ" "rui" ZHUYIN_CORRECT_SHUFFLE; z "ㄨㄟㄗ" "ㄗㄨㄟ" "zui" ZHUYIN_CORRECT_SHUFFLE;
   z "ㄨㄟㄘ" "ㄘㄨㄟ" "cui" ZHUYIN_CORRECT_SHUFFLE; z "ㄨㄟㄙ" "ㄙㄨㄟ" "sui" ZHUYIN_CORRECT_SHUFFLE;
   z "ㄨㄢ" "ㄨㄢ" "wan" 0%Z; z "ㄨㄢㄉ" "ㄉㄨㄢ" "duan" ZHUYIN_CORRECT_SHUFFLE;
   z "ㄨㄢㄊ" "ㄊㄨㄢ" "tuan" ZHUYIN_CORRECT_SHUFFLE; z "ㄨㄢㄋ" "ㄋㄨㄢ" "nuan" ZHUYIN_CORRECT_SHUFFLE;
   z "ㄨㄢㄌ" "ㄌㄨㄢ" "luan" ZHUYIN_CORRECT_SHUFFLE; z "ㄨㄢㄍ" "ㄍㄨㄢ" "guan" ZHUYIN_CORRECT_SHUFFLE;
   z "ㄨㄢㄎ" "ㄎㄨㄢ" "kuan" ZHUYIN_CORRECT_SHUFFLE; z "ㄨㄢㄏ" "ㄏㄨㄢ" "huan" ZHUYIN_CORRECT_SHUFFLE;
   z "ㄨㄢㄓ" "ㄓㄨㄢ" "zhuan" ZHUYIN_CORRECT_SHUFFLE; z "ㄨㄢㄔ" "ㄔㄨㄢ" "chuan" ZHUYIN_CORRECT_SHUFFLE;
   z "ㄨㄢㄕ" "ㄕㄨㄢ" "shuan" ZHUYIN_CORRECT_SHUFFLE; z "ㄨㄢㄖ" "ㄖㄨㄢ" "ruan" ZHUYIN_CORRECT_SHUFFLE;
   z "ㄨㄢㄗ" "ㄗㄨㄢ" "zuan" ZHUYIN_CORRECT_SHUFFLE; z "ㄨㄢㄘ" "ㄘㄨㄢ" "cuan" ZHUYIN_CORRECT_SHUFFLE;
   z "ㄨㄢㄙ" "ㄙㄨㄢ" "suan" ZHUYIN_CORRECT_SHUFFLE; z "ㄨㄣ" "ㄨㄣ" "wen" 0%Z;
   z "ㄨㄣㄉ" "ㄉㄨㄣ" "dun" ZHUYIN_CORRECT_SHUFFLE; z "ㄨㄣㄊ" "ㄊㄨㄣ" "tun" ZHUYIN_CORRECT_SHUFFLE;
   z "ㄨㄣㄋ" "ㄋㄨㄣ" "nun" ZHUYIN_CORRECT_SHUFFLE; z "ㄨㄣㄌ" "ㄌㄨㄣ" "lun" ZHUYIN_CORRECT_SHUFFLE;
   z "ㄨㄣㄍ" "ㄍㄨㄣ" "gun" ZHUYIN_CORRECT_SHUFFLE; z "ㄨㄣㄎ" "ㄎㄨㄣ" "kun" ZHUYIN_CORRECT_SHUFFLE;
   z "ㄨㄣㄏ" "ㄏㄨㄣ" "hun" ZHUYIN_CORRECT_SHUFFLE; z "ㄨㄣㄓ" "ㄓㄨㄣ" "zhun" ZHUYIN_CORRECT_SHUFFLE;
   z "ㄨㄣㄔ" "ㄔㄨㄣ" "chun" ZHUYIN_CORRECT_SHUFFLE; z "ㄨㄣㄕ" "ㄕㄨㄣ" "shun" ZHUYIN_CORRECT_SHUFFLE;
   z "ㄨㄣㄖ" "ㄖㄨㄣ" "run" ZHUYIN_CORRECT_SHUFFLE; z "ㄨㄣㄗ" "ㄗㄨㄣ" "zun" ZHUYIN_CORRECT_SHUFFLE;
   z "ㄨㄣㄘ" "ㄘㄨㄣ" "cun" ZHUYIN_CORRECT_SHUFFLE; z "ㄨㄣㄙ" "ㄙㄨㄣ" "sun" ZHUYIN_CORRECT_SHUFFLE;
   z "ㄨㄤ" "ㄨㄤ" "wang" 0%Z; z "ㄨㄤㄍ" "ㄍㄨㄤ" "guang" ZHUYIN_CORRECT_SHUFFLE;
   z "ㄨㄤㄎ" "ㄎㄨㄤ" "kuang" ZHUYIN_CORRECT_SHUFFLE; z "ㄨㄤㄏ" "ㄏㄨㄤ" "huang" ZHUYIN_CORRECT_SHUFFLE;
   z "ㄨㄤㄓ" "ㄓㄨㄤ" "zhuang" ZHUYIN_CORRECT_SHUFFLE; z "ㄨㄤㄔ" "ㄔㄨㄤ" "chuang" ZHUYIN_CORRECT_SHUFFLE;
   z "ㄨㄤㄕ" "ㄕㄨㄤ" "shuang" ZHUYIN_CORRECT_SHUFFLE; z "ㄨㄥ" "ㄨㄥ" "weng" 0%Z;
   z "ㄨㄥㄉ" "ㄉㄨㄥ" "dong" ZHUYIN_CORRECT_SHUFFLE; z "ㄨㄥㄊ" "ㄊㄨㄥ" "tong" ZHUYIN_CORRECT_SHUFFLE;
   z "ㄨㄥㄋ" "ㄋㄨㄥ" "nong" ZHUYIN_CORRECT_SHUFFLE; z "ㄨㄥㄌ" "ㄌㄨㄥ" "long" ZHUYIN_CORRECT_SHUFFLE;
   z "ㄨㄥㄍ" "ㄍㄨㄥ" "gong" ZHUYIN_CORRECT_SHUFFLE; z "ㄨㄥㄎ" "ㄎㄨㄥ" "kong" ZHUYIN_CORRECT_SHUFFLE;
   z "ㄨㄥㄏ" "ㄏㄨㄥ" "hong" ZHUYIN_CORRECT_SHUFFLE; z "ㄨㄥㄓ" "ㄓㄨㄥ" "zhong" ZHUYIN_CORRECT_SHUFFLE;
   z "ㄨㄥㄔ" "ㄔㄨㄥ" "chong" ZHUYIN_CORRECT_SHUFFLE; z "ㄨㄥㄖ" "ㄖㄨㄥ" "rong" ZHUYIN_CORRECT_SHUFFLE;
   z "ㄨㄥㄗ" "ㄗㄨㄥ" "zong" ZHUYIN_CORRECT_SHUFFLE; z "ㄨㄥㄘ" "ㄘㄨㄥ" "cong" ZHUYIN_CORRECT_SHUFFLE;
   z "ㄨㄥㄙ" "ㄙㄨㄥ" "song" ZHUYIN_CORRECT_SHUFFLE; z "ㄩ" "ㄩ" "yu" 0%Z;
   z "ㄩㄋ" "ㄋㄩ" "nv" ZHUYIN_CORRECT_SHUFFLE; z "ㄩㄋㄝ" "ㄋㄩㄝ" "nve" ZHUYIN_CORRECT_SHUFFLE;
   z "ㄩㄌ" "ㄌㄩ" "lv" ZHUYIN_CORRECT_SHUFFLE; z "ㄩㄌㄝ" "ㄌㄩㄝ" "lve" ZHUYIN_CORRECT_SHUFFLE;
   z "ㄩㄐ" "ㄐㄩ" "ju" ZHUYIN_CORRECT_SHUFFLE; z "ㄩㄐㄝ" "ㄐㄩㄝ" "jue" ZHUYIN_CORRECT_SHUFFLE;
   z "ㄩㄐㄢ" "ㄐㄩㄢ" "juan" ZHUYIN_CORRECT_SHUFFLE; z "ㄩㄐㄣ" "ㄐㄩㄣ" "jun" ZHUYIN_CORRECT_SHUFFLE;
   z "ㄩㄐㄥ" "ㄐㄩㄥ" "jiong" ZHUYIN_CORRECT_SHUFFLE; z "ㄩㄑ" "ㄑㄩ" "qu" ZHUYIN_CORRECT_SHUFFLE;
   z "ㄩㄑㄝ" "ㄑㄩㄝ" "que" ZHUYIN_CORRECT_SHUFFLE; z "ㄩㄑㄢ" "ㄑㄩㄢ" "quan" ZHUYIN_CORRECT_SHUFFLE;
   z "ㄩㄑㄣ" "ㄑㄩㄣ" "qun" ZHUYIN_CORRECT_SHUFFLE; z "ㄩㄑㄥ" "ㄑㄩㄥ" "qiong" ZHUYIN_CORRECT_SHUFFLE;
   z "ㄩㄒ" "ㄒㄩ" "xu" ZHUYIN_CORRECT_SHUFFLE; z "ㄩㄒㄝ" "ㄒㄩㄝ" "xue" ZHUYIN_CORRECT_SHUFFLE;
   z "ㄩㄒㄢ" "ㄒㄩㄢ" "xuan" ZHUYIN_CORRECT_SHUFFLE; z "ㄩㄒㄣ" "ㄒㄩㄣ" "xun" ZHUYIN_CORRECT_SHUFFLE;
   z "ㄩㄒㄥ" "ㄒㄩㄥ" "xiong" ZHUYIN_CORRECT_SHUFFLE; z "ㄩㄝ" "ㄩㄝ" "yue" 0%Z;
   z "ㄩㄝㄋ" "ㄋㄩㄝ" "nve" ZHUYIN_CORRECT_SHUFFLE; z "ㄩㄝㄌ" "ㄌㄩㄝ" "lve" ZHUYIN_CORRECT_SHUFFLE;
   z "ㄩㄝㄐ" "ㄐㄩㄝ" "jue" ZHUYIN_CORRECT_SHUFFLE; z "ㄩㄝㄑ" "ㄑㄩㄝ" "que" ZHUYIN_CORRECT_SHUFFLE;
   z "ㄩㄝㄒ" "ㄒㄩㄝ" "xue" ZHUYIN_CORRECT_SHUFFLE; z "ㄩㄢ" "ㄩㄢ" "yuan" 0%Z;
   z "ㄩㄢㄐ" "ㄐㄩㄢ" "juan" ZHUYIN_CORRECT_SHUFFLE; z "ㄩㄢㄑ" "ㄑㄩㄢ" "quan" ZHUYIN_CORRECT_SHUFFLE;
   z "ㄩㄢㄒ" "ㄒㄩㄢ" "xuan" ZHUYIN_CORRECT_SHUFFLE; z "ㄩㄣ" "ㄩㄣ" "yun" 0%Z;
   z "ㄩㄣㄐ" "ㄐㄩㄣ" "jun" ZHUYIN_CORRECT_SHUFFLE; z "ㄩㄣㄑ" "ㄑㄩㄣ" "qun" ZHUYIN_CORRECT_SHUFFLE;
   z "ㄩㄣㄒ" "ㄒㄩㄣ" "xun" ZHUYIN_CORRECT_SHUFFLE; z "ㄩㄥ" "ㄩㄥ" "yong" 0%Z;
   z "ㄩㄥㄐ" "ㄐㄩㄥ" "jiong" ZHUYIN_CORRECT_SHUFFLE; z "ㄩㄥㄑ" "ㄑㄩㄥ" "qiong" ZHUYIN_CORRECT_SHUFFLE;
   z "ㄩㄥㄒ" "ㄒㄩㄥ" "xiong" ZHUYIN_CORRECT_SHUFFLE; z "ㄫ" "ㄫ" "ng" 0%Z].

Definition HSU_ZHUYIN_INDEX : ZhuyinIndex := Eval vm_compute in
  [z "ㄅ" "ㄅ" "b" ZHUYIN_INCOMPLETE; z "ㄅㄚ" "ㄅㄚ" "ba" 0%Z; z "ㄅㄛ" "ㄅㄛ" "bo" 0%Z;
   z "ㄅㄞ" "ㄅㄞ" "bai" 0%Z; z "ㄅㄟ" "ㄅㄟ" "bei" 0%Z; z "ㄅㄠ" "ㄅㄠ" "bao" 0%Z; z "ㄅㄢ" "ㄅㄢ" "ban" 0%Z;
   z "ㄅㄣ" "ㄅㄣ" "ben" 0%Z; z "ㄅㄤ" "ㄅㄤ" "bang" 0%Z; z "ㄅㄥ" "ㄅㄥ" "beng" 0%Z; z "ㄅㄧ" "ㄅㄧ" "bi" 0%Z;
   z "ㄅㄧㄝ" "ㄅㄧㄝ" "bie" 0%Z; z "ㄅㄧㄠ" "ㄅㄧㄠ" "biao" 0%Z; z "ㄅㄧㄢ" "ㄅㄧㄢ" "bian" 0%Z;
   z "ㄅㄧㄣ" "ㄅㄧㄣ" "bin" 0%Z; z "ㄅㄧㄥ" "ㄅㄧㄥ" "bing" 0%Z; z "ㄅㄨ" "ㄅㄨ" "bu" 0%Z;
   z "ㄆ" "ㄆ" "p" ZHUYIN_INCOMPLETE; z "ㄆㄚ" "ㄆㄚ" "pa" 0%Z; z "ㄆㄛ" "ㄆㄛ" "po" 0%Z;
   z "ㄆㄞ" "ㄆㄞ" "pai" 0%Z; z "ㄆㄟ" "ㄆㄟ" "pei" 0%Z; z "ㄆㄠ" "ㄆㄠ" "pao" 0%Z; z "ㄆㄡ" "ㄆㄡ" "pou" 0%Z;
   z "ㄆㄢ" "ㄆㄢ" "pan" 0%Z; z "ㄆㄣ" "ㄆㄣ" "pen" 0%Z; z "ㄆㄤ" "ㄆㄤ" "pang" 0%Z; z "ㄆㄥ" "ㄆㄥ" "peng" 0%Z;
   z "ㄆㄧ" "ㄆㄧ" "pi" 0%Z; z "ㄆㄧㄝ" "ㄆㄧㄝ" "pie" 0%Z; z "ㄆㄧㄠ" "ㄆㄧㄠ" "piao" 0%Z;
   z "ㄆㄧㄢ" "ㄆㄧㄢ" "pian" 0%Z; z "ㄆㄧㄣ" "ㄆㄧㄣ" "pin" 0%Z; z "ㄆㄧㄥ" "ㄆㄧㄥ" "ping" 0%Z;
   z "ㄆㄨ" "ㄆㄨ" "pu" 0%Z; z "ㄇ" "ㄢ" "an" ZHUYIN_CORRECT_HSU; z "ㄇㄚ" "ㄇㄚ" "ma" 0%Z;
   z "ㄇㄛ" "ㄇㄛ" "mo" 0%Z; z "ㄇㄜ" "ㄇㄜ" "me" 0%Z; z "ㄇㄞ" "ㄇㄞ" "mai" 0%Z; z "ㄇㄟ" "ㄇㄟ" "mei" 0%Z;
   z "ㄇㄠ" "ㄇㄠ" "mao" 0%Z; z "ㄇㄡ" "ㄇㄡ" "mou" 0%Z; z "ㄇㄢ" "ㄇㄢ" "man" 0%Z; z "ㄇㄣ" "ㄇㄣ" "men" 0%Z;
   z "ㄇㄤ" "ㄇㄤ" "mang" 0%Z; z "ㄇㄥ" "ㄇㄥ" "meng" 0%Z; z "ㄇㄧ" "ㄇㄧ" "mi" 0%Z; z "ㄇㄧㄝ" "ㄇㄧㄝ" "mie" 0%Z;
   z "ㄇㄧㄠ" "ㄇㄧㄠ" "miao" 0%Z; z "ㄇㄧㄡ" "ㄇㄧㄡ" "miu" 0%Z; z "ㄇㄧㄢ" "ㄇㄧㄢ" "mian" 0%Z;
   z "ㄇㄧㄣ" "ㄇㄧㄣ" "min" 0%Z; z "ㄇㄧㄥ" "ㄇㄧㄥ" "ming" 0%Z; z "ㄇㄨ" "ㄇㄨ" "mu" 0%Z;
   z "ㄈ" "ㄈ" "f" ZHUYIN_INCOMPLETE; z "ㄈㄚ" "ㄈㄚ" "fa" 0%Z; z "ㄈㄛ" "ㄈㄛ" "fo" 0%Z;
   z "ㄈㄜ" "ㄈㄜ" "fe" 0%Z; z "ㄈㄟ" "ㄈㄟ" "fei" 0%Z; z "ㄈㄡ" "ㄈㄡ" "fou" 0%Z; z "ㄈㄢ" "ㄈㄢ" "fan" 0%Z;
   z "ㄈㄣ" "ㄈㄣ" "fen" 0%Z; z "ㄈㄤ" "ㄈㄤ" "fang" 0%Z; z "ㄈㄥ" "ㄈㄥ" "feng" 0%Z; z "ㄈㄨ" "ㄈㄨ" "fu" 0%Z;
   z "ㄉ" "ㄉ" "d" ZHUYIN_INCOMPLETE; z "ㄉㄚ" "ㄉㄚ" "da" 0%Z; z "ㄉㄜ" "ㄉㄜ" "de" 0%Z;
   z "ㄉㄞ" "ㄉㄞ" "dai" 0%Z; z "ㄉㄟ" "ㄉㄟ" "dei" 0%Z; z "ㄉㄠ" "ㄉㄠ" "dao" 0%Z; z "ㄉㄡ" "ㄉㄡ" "dou" 0%Z;
   z "ㄉㄢ" "ㄉㄢ" "dan" 0%Z; z "ㄉㄣ" "ㄉㄣ" "den" 0%Z; z "ㄉㄤ" "ㄉㄤ" "dang" 0%Z; z "ㄉㄥ" "ㄉㄥ" "deng" 0%Z;
   z "ㄉㄧ" "ㄉㄧ" "di" 0%Z; z "ㄉㄧㄚ" "ㄉㄧㄚ" "dia" 0%Z; z "ㄉㄧㄝ" "ㄉㄧㄝ" "die" 0%Z;
   z "ㄉㄧㄠ" "ㄉㄧㄠ" "diao" 0%Z; z "ㄉㄧㄡ" "ㄉㄧㄡ" "diu" 0%Z; z "ㄉㄧㄢ" "ㄉㄧㄢ" "dian" 0%Z;
   z "ㄉㄧㄣ" "ㄉㄧㄣ" "din" 0%Z; z "ㄉㄧㄥ" "ㄉㄧㄥ" "ding" 0%Z; z "ㄉㄨ" "ㄉㄨ" "du" 0%Z;
   z "ㄉㄨㄛ" "ㄉㄨㄛ" "duo" 0%Z; z "ㄉㄨㄟ" "ㄉㄨㄟ" "dui" 0%Z; z "ㄉㄨㄢ" "ㄉㄨㄢ" "duan" 0%Z;
   z "ㄉㄨㄣ" "ㄉㄨㄣ" "dun" 0%Z; z "ㄉㄨㄥ" "ㄉㄨㄥ" "dong" 0%Z; z "ㄊ" "ㄊ" "t" ZHUYIN_INCOMPLETE;
   z "ㄊㄚ" "ㄊㄚ" "ta" 0%Z; z "ㄊㄜ" "ㄊㄜ" "te" 0%Z; z "ㄊㄞ" "ㄊㄞ" "tai" 0%Z; z "ㄊㄠ" "ㄊㄠ" "tao" 0%Z;
   z "ㄊㄡ" "ㄊㄡ" "tou" 0%Z; z "ㄊㄢ" "ㄊㄢ" "tan" 0%Z; z "ㄊㄤ" "ㄊㄤ" "tang" 0%Z; z "ㄊㄥ" "ㄊㄥ" "teng" 0%Z;
   z "ㄊㄧ" "ㄊㄧ" "ti" 0%Z; z "ㄊㄧㄝ" "ㄊㄧㄝ" "tie" 0%Z; z "ㄊㄧㄠ" "ㄊㄧㄠ" "tiao" 0%Z;
   z "ㄊㄧㄢ" "ㄊㄧㄢ" "tian" 0%Z; z "ㄊㄧㄥ" "ㄊㄧㄥ" "ting" 0%Z; z "ㄊㄨ" "ㄊㄨ" "tu" 0%Z;
   z "ㄊㄨㄛ" "ㄊㄨㄛ" "tuo" 0%Z; z "ㄊㄨㄟ" "ㄊㄨㄟ" "tui" 0%Z; z "ㄊㄨㄢ" "ㄊㄨㄢ" "tuan" 0%Z;
   z "ㄊㄨㄣ" "ㄊㄨㄣ" "tun" 0%Z; z "ㄊㄨㄥ" "ㄊㄨㄥ" "tong" 0%Z; z "ㄋ" "ㄣ" "en" ZHUYIN_CORRECT_HSU;
   z "ㄋㄚ" "ㄋㄚ" "na" 0%Z; z "ㄋㄜ" "ㄋㄜ" "ne" 0%Z; z "ㄋㄞ" "ㄋㄞ" "nai" 0%Z; z "ㄋㄟ" "ㄋㄟ" "nei" 0%Z;
   z "ㄋㄠ" "ㄋㄠ" "nao" 0%Z; z "ㄋㄡ" "ㄋㄡ" "nou" 0%Z; z "ㄋㄢ" "ㄋㄢ" "nan" 0%Z; z "ㄋㄣ" "ㄋㄣ" "nen" 0%Z;
   z "ㄋㄤ" "ㄋㄤ" "nang" 0%Z; z "ㄋㄥ" "ㄋㄥ" "neng" 0%Z; z "ㄋㄧ" "ㄋㄧ" "ni" 0%Z; z "ㄋㄧㄚ" "ㄋㄧㄚ" "nia" 0%Z;
   z "ㄋㄧㄝ" "ㄋㄧㄝ" "nie" 0%Z; z "ㄋㄧㄠ" "ㄋㄧㄠ" "niao" 0%Z; z "ㄋㄧㄡ" "ㄋㄧㄡ" "niu" 0%Z;
   z "ㄋㄧㄢ" "ㄋㄧㄢ" "nian" 0%Z; z "ㄋㄧㄣ" "ㄋㄧㄣ" "nin" 0%Z; z "ㄋㄧㄤ" "ㄋㄧㄤ" "niang" 0%Z;
   z "ㄋㄧㄥ" "ㄋㄧㄥ" "ning" 0%Z; z "ㄋㄨ" "ㄋㄨ" "nu" 0%Z; z "ㄋㄨㄛ" "ㄋㄨㄛ" "nuo" 0%Z;
   z "ㄋㄨㄢ" "ㄋㄨㄢ" "nuan" 0%Z; z "ㄋㄨㄣ" "ㄋㄨㄣ" "nun" 0%Z; z "ㄋㄨㄥ" "ㄋㄨㄥ" "nong" 0%Z;
   z "ㄋㄩ" "ㄋㄩ" "nv" 0%Z; z "ㄋㄩㄝ" "ㄋㄩㄝ" "nve" 0%Z; z "ㄌ" "ㄦ" "er" ZHUYIN_CORRECT_HSU;
   z "ㄌㄚ" "ㄌㄚ" "la" 0%Z; z "ㄌㄛ" "ㄌㄛ" "lo" 0%Z; z "ㄌㄜ" "ㄌㄜ" "le" 0%Z; z "ㄌㄞ" "ㄌㄞ" "lai" 0%Z;
   z "ㄌㄟ" "ㄌㄟ" "lei" 0%Z; z "ㄌㄠ" "ㄌㄠ" "lao" 0%Z; z "ㄌㄡ" "ㄌㄡ" "lou" 0%Z; z "ㄌㄢ" "ㄌㄢ" "lan" 0%Z;
   z "ㄌㄣ" "ㄌㄣ" "len" 0%Z; z "ㄌㄤ" "ㄌㄤ" "lang" 0%Z; z "ㄌㄥ" "ㄌㄥ" "leng" 0%Z; z "ㄌㄧ" "ㄌㄧ" "li" 0%Z;
   z "ㄌㄧㄚ" "ㄌㄧㄚ" "lia" 0%Z; z "ㄌㄧㄝ" "ㄌㄧㄝ" "lie" 0%Z; z "ㄌㄧㄠ" "ㄌㄧㄠ" "liao" 0%Z;
   z "ㄌㄧㄡ" "ㄌㄧㄡ" "liu" 0%Z; z "ㄌㄧㄢ" "ㄌㄧㄢ" "lian" 0%Z; z "ㄌㄧㄣ" "ㄌㄧㄣ" "lin" 0%Z;
   z "ㄌㄧㄤ" "ㄌㄧㄤ" "liang" 0%Z; z "ㄌㄧㄥ" "ㄌㄧㄥ" "ling" 0%Z; z "ㄌㄨ" "ㄌㄨ" "lu" 0%Z;
   z "ㄌㄨㄛ" "ㄌㄨㄛ" "luo" 0%Z; z "ㄌㄨㄢ" "ㄌㄨㄢ" "luan" 0%Z; z "ㄌㄨㄣ" "ㄌㄨㄣ" "lun" 0%Z;
   z "ㄌㄨㄥ" "ㄌㄨㄥ" "long" 0%Z; z "ㄌㄩ" "ㄌㄩ" "lv" 0%Z; z "ㄌㄩㄝ" "ㄌㄩㄝ" "lve" 0%Z;
   z "ㄍ" "ㄜ" "e" ZHUYIN_CORRECT_HSU; z "ㄍㄚ" "ㄍㄚ" "ga" 0%Z; z "ㄍㄜ" "ㄍㄜ" "ge" 0%Z;
   z "ㄍㄞ" "ㄍㄞ" "gai" 0%Z; z "ㄍㄟ" "ㄍㄟ" "gei" 0%Z; z "ㄍㄠ" "ㄍㄠ" "gao" 0%Z; z "ㄍㄡ" "ㄍㄡ" "gou" 0%Z;
   z "ㄍㄢ" "ㄍㄢ" "gan" 0%Z; z "ㄍㄣ" "ㄍㄣ" "gen" 0%Z; z "ㄍㄤ" "ㄍㄤ" "gang" 0%Z; z "ㄍㄥ" "ㄍㄥ" "geng" 0%Z;
   z "ㄍㄧ" "ㄐㄧ" "ji" ZHUYIN_CORRECT_HSU; z "ㄍㄧㄚ" "ㄐㄧㄚ" "jia" ZHUYIN_CORRECT_HSU;
   z "ㄍㄧㄝ" "ㄐㄧㄝ" "jie" ZHUYIN_CORRECT_HSU; z "ㄍㄧㄠ" "ㄐㄧㄠ" "jiao" ZHUYIN_CORRECT_HSU;
   z "ㄍㄧㄡ" "ㄐㄧㄡ" "jiu" ZHUYIN_CORRECT_HSU; z "ㄍㄧㄢ" "ㄐㄧㄢ" "jian" ZHUYIN_CORRECT_HSU;
   z "ㄍㄧㄣ" "ㄐㄧㄣ" "jin" ZHUYIN_CORRECT_HSU; z "ㄍㄧㄤ" "ㄐㄧㄤ" "jiang" ZHUYIN_CORRECT_HSU;
   z "ㄍㄧㄥ" "ㄐㄧㄥ" "jing" ZHUYIN_CORRECT_HSU; z "ㄍㄨ" "ㄍㄨ" "gu" 0%Z; z "ㄍㄨㄚ" "ㄍㄨㄚ" "gua" 0%Z;
   z "ㄍㄨㄛ" "ㄍㄨㄛ" "guo" 0%Z; z "ㄍㄨㄞ" "ㄍㄨㄞ" "guai" 0%Z; z "ㄍㄨㄟ" "ㄍㄨㄟ" "gui" 0%Z;
   z "ㄍㄨㄢ" "ㄍㄨㄢ" "guan" 0%Z; z "ㄍㄨㄣ" "ㄍㄨㄣ" "gun" 0%Z; z "ㄍㄨㄤ" "ㄍㄨㄤ" "guang" 0%Z;
   z "ㄍㄨㄥ" "ㄍㄨㄥ" "gong" 0%Z; z "ㄍㄩ" "ㄐㄩ" "ju" ZHUYIN_CORRECT_HSU;
   z "ㄍㄩㄝ" "ㄐㄩㄝ" "jue" ZHUYIN_CORRECT_HSU; z "ㄍㄩㄢ" "ㄐㄩㄢ" "juan" ZHUYIN_CORRECT_HSU;
   z "ㄍㄩㄣ" "ㄐㄩㄣ" "jun" ZHUYIN_CORRECT_HSU; z "ㄍㄩㄥ" "ㄐㄩㄥ" "jiong" ZHUYIN_CORRECT_HSU;
   z "ㄎ" "ㄤ" "ang" ZHUYIN_CORRECT_HSU; z "ㄎㄚ" "ㄎㄚ" "ka" 0%Z; z "ㄎㄜ" "ㄎㄜ" "ke" 0%Z;
   z "ㄎㄞ" "ㄎㄞ" "kai" 0%Z; z "ㄎㄟ" "ㄎㄟ" "kei" 0%Z; z "ㄎㄠ" "ㄎㄠ" "kao" 0%Z; z "ㄎㄡ" "ㄎㄡ" "kou" 0%Z;
   z "ㄎㄢ" "ㄎㄢ" "kan" 0%Z; z "ㄎㄣ" "ㄎㄣ" "ken" 0%Z; z "ㄎㄤ" "ㄎㄤ" "kang" 0%Z; z "ㄎㄥ" "ㄎㄥ" "keng" 0%Z;
   z "ㄎㄨ" "ㄎㄨ" "ku" 0%Z; z "ㄎㄨㄚ" "ㄎㄨㄚ" "kua" 0%Z; z "ㄎㄨㄛ" "ㄎㄨㄛ" "kuo" 0%Z;
   z "ㄎㄨㄞ" "ㄎㄨㄞ" "kuai" 0%Z; z "ㄎㄨㄟ" "ㄎㄨㄟ" "kui" 0%Z; z "ㄎㄨㄢ" "ㄎㄨㄢ" "kuan" 0%Z;
   z "ㄎㄨㄣ" "ㄎㄨㄣ" "kun" 0%Z; z "ㄎㄨㄤ" "ㄎㄨㄤ" "kuang" 0%Z; z "ㄎㄨㄥ" "ㄎㄨㄥ" "kong" 0%Z;
   z "ㄏ" "ㄛ" "o" ZHUYIN_CORRECT_HSU; z "ㄏㄚ" "ㄏㄚ" "ha" 0%Z; z "ㄏㄜ" "ㄏㄜ" "he" 0%Z;
   z "ㄏㄞ" "ㄏㄞ" "hai" 0%Z; z "ㄏㄟ" "ㄏㄟ" "hei" 0%Z; z "ㄏㄠ" "ㄏㄠ" "hao" 0%Z; z "ㄏㄡ" "ㄏㄡ" "hou" 0%Z;
   z "ㄏㄢ" "ㄏㄢ" "han" 0%Z; z "ㄏㄣ" "ㄏㄣ" "hen" 0%Z; z "ㄏㄤ" "ㄏㄤ" "hang" 0%Z; z "ㄏㄥ" "ㄏㄥ" "heng" 0%Z;
   z "ㄏㄨ" "ㄏㄨ" "hu" 0%Z; z "ㄏㄨㄚ" "ㄏㄨㄚ" "hua" 0%Z; z "ㄏㄨㄛ" "ㄏㄨㄛ" "huo" 0%Z;
   z "ㄏㄨㄞ" "ㄏㄨㄞ" "huai" 0%Z; z "ㄏㄨㄟ" "ㄏㄨㄟ" "hui" 0%Z; z "ㄏㄨㄢ" "ㄏㄨㄢ" "huan" 0%Z;
   z "ㄏㄨㄣ" "ㄏㄨㄣ" "hun" 0%Z; z "ㄏㄨㄤ" "ㄏㄨㄤ" "huang" 0%Z; z "ㄏㄨㄥ" "ㄏㄨㄥ" "hong" 0%Z;
   z "ㄐ" "ㄓ" "zhi" ZHUYIN_CORRECT_HSU; z "ㄐㄚ" "ㄓㄚ" "zha" ZHUYIN_CORRECT_HSU;
   z "ㄐㄜ" "ㄓㄜ" "zhe" ZHUYIN_CORRECT_HSU; z "ㄐㄞ" "ㄓㄞ" "zhai" ZHUYIN_CORRECT_HSU;
   z "ㄐㄟ" "ㄓㄟ" "zhei" ZHUYIN_CORRECT_HSU; z "ㄐㄠ" "ㄓㄠ" "zhao" ZHUYIN_CORRECT_HSU;
   z "ㄐㄡ" "ㄓㄡ" "zhou" ZHUYIN_CORRECT_HSU; z "ㄐㄢ" "ㄓㄢ" "zhan" ZHUYIN_CORRECT_HSU;
   z "ㄐㄣ" "ㄓㄣ" "zhen" ZHUYIN_CORRECT_HSU; z "ㄐㄤ" "ㄓㄤ" "zhang" ZHUYIN_CORRECT_HSU;
   z "ㄐㄥ" "ㄓㄥ" "zheng" ZHUYIN_CORRECT_HSU; z "ㄐㄧ" "ㄐㄧ" "ji" 0%Z; z "ㄐㄧㄚ" "ㄐㄧㄚ" "jia" 0%Z;
   z "ㄐㄧㄝ" "ㄐㄧㄝ" "jie" 0%Z; z "ㄐㄧㄠ" "ㄐㄧㄠ" "jiao" 0%Z; z "ㄐㄧㄡ" "ㄐㄧㄡ" "jiu" 0%Z;
   z "ㄐㄧㄢ" "ㄐㄧㄢ" "jian" 0%Z; z "ㄐㄧㄣ" "ㄐㄧㄣ" "jin" 0%Z; z "ㄐㄧㄤ" "ㄐㄧㄤ" "jiang" 0%Z;
   z "ㄐㄧㄥ" "ㄐㄧㄥ" "jing" 0%Z; z "ㄐㄨ" "ㄓㄨ" "zhu" ZHUYIN_CORRECT_HSU;
   z "ㄐㄨㄚ" "ㄓㄨㄚ" "zhua" ZHUYIN_CORRECT_HSU; z "ㄐㄨㄛ" "ㄓㄨㄛ" "zhuo" ZHUYIN_CORRECT_HSU;
   z "ㄐㄨㄞ" "ㄓㄨㄞ" "zhuai" ZHUYIN_CORRECT_HSU; z "ㄐㄨㄟ" "ㄓㄨㄟ" "zhui" ZHUYIN_CORRECT_HSU;
   z "ㄐㄨㄢ" "ㄓㄨㄢ" "zhuan" ZHUYIN_CORRECT_HSU; z "ㄐㄨㄣ" "ㄓㄨㄣ" "zhun" ZHUYIN_CORRECT_HSU;
   z "ㄐㄨㄤ" "ㄓㄨㄤ" "zhuang" ZHUYIN_CORRECT_HSU; z "ㄐㄨㄥ" "ㄓㄨㄥ" "zhong" ZHUYIN_CORRECT_HSU;
   z "ㄐㄩ" "ㄐㄩ" "ju" 0%Z; z "ㄐㄩㄝ" "ㄐㄩㄝ" "jue" 0%Z; z "ㄐㄩㄢ" "ㄐㄩㄢ" "juan" 0%Z;
   z "ㄐㄩㄣ" "ㄐㄩㄣ" "jun" 0%Z; z "ㄐㄩㄥ" "ㄐㄩㄥ" "jiong" 0%Z; z "ㄑ" "ㄔ" "chi" ZHUYIN_CORRECT_HSU;
   z "ㄑㄚ" "ㄔㄚ" "cha" ZHUYIN_CORRECT_HSU; z "ㄑㄜ" "ㄔㄜ" "che" ZHUYIN_CORRECT_HSU;
   z "ㄑㄞ" "ㄔㄞ" "chai" ZHUYIN_CORRECT_HSU; z "ㄑㄠ" "ㄔㄠ" "chao" ZHUYIN_CORRECT_HSU;
   z "ㄑㄡ" "ㄔㄡ" "chou" ZHUYIN_CORRECT_HSU; z "ㄑㄢ" "ㄔㄢ" "chan" ZHUYIN_CORRECT_HSU;
   z "ㄑㄣ" "ㄔㄣ" "chen" ZHUYIN_CORRECT_HSU; z "ㄑㄤ" "ㄔㄤ" "chang" ZHUYIN_CORRECT_HSU;
   z "ㄑㄥ" "ㄔㄥ" "cheng" ZHUYIN_CORRECT_HSU; z "ㄑㄧ" "ㄑㄧ" "qi" 0%Z; z "ㄑㄧㄚ" "ㄑㄧㄚ" "qia" 0%Z;
   z "ㄑㄧㄝ" "ㄑㄧㄝ" "qie" 0%Z; z "ㄑㄧㄠ" "ㄑㄧㄠ" "qiao" 0%Z; z "ㄑㄧㄡ" "ㄑㄧㄡ" "qiu" 0%Z;
   z "ㄑㄧㄢ" "ㄑㄧㄢ" "qian" 0%Z; z "ㄑㄧㄣ" "ㄑㄧㄣ" "qin" 0%Z; z "ㄑㄧㄤ" "ㄑㄧㄤ" "qiang" 0%Z;
   z "ㄑㄧㄥ" "ㄑㄧㄥ" "qing" 0%Z; z "ㄑㄨ" "ㄔㄨ" "chu" ZHUYIN_CORRECT_HSU;
   z "ㄑㄨㄚ" "ㄔㄨㄚ" "chua" ZHUYIN_CORRECT_HSU; z "ㄑㄨㄛ" "ㄔㄨㄛ" "chuo" ZHUYIN_CORRECT_HSU;
   z "ㄑㄨㄞ" "ㄔㄨㄞ" "chuai" ZHUYIN_CORRECT_HSU; z "ㄑㄨㄟ" "ㄔㄨㄟ" "chui" ZHUYIN_CORRECT_HSU;
   z "ㄑㄨㄢ" "ㄔㄨㄢ" "chuan" ZHUYIN_CORRECT_HSU; z "ㄑㄨㄣ" "ㄔㄨㄣ" "chun" ZHUYIN_CORRECT_HSU;
   z "ㄑㄨㄤ" "ㄔㄨㄤ" "chuang" ZHUYIN_CORRECT_HSU; z "ㄑㄨㄥ" "ㄔㄨㄥ" "chong" ZHUYIN_CORRECT_HSU;
   z "ㄑㄩ" "ㄑㄩ" "qu" 0%Z; z "ㄑㄩㄝ" "ㄑㄩㄝ" "que" 0%Z; z "ㄑㄩㄢ" "ㄑㄩㄢ" "quan" 0%Z;
   z "ㄑㄩㄣ" "ㄑㄩㄣ" "qun" 0%Z; z "ㄑㄩㄥ" "ㄑㄩㄥ" "qiong" 0%Z; z "ㄒ" "ㄕ" "shi" ZHUYIN_CORRECT_HSU;
   z "ㄒㄚ" "ㄕㄚ" "sha" ZHUYIN_CORRECT_HSU; z "ㄒㄜ" "ㄕㄜ" "she" ZHUYIN_CORRECT_HSU;
   z "ㄒㄞ" "ㄕㄞ" "shai" ZHUYIN_CORRECT_HSU; z "ㄒㄟ" "ㄕㄟ" "shei" ZHUYIN_CORRECT_HSU;
   z "ㄒㄠ" "ㄕㄠ" "shao" ZHUYIN_CORRECT_HSU; z "ㄒㄡ" "ㄕㄡ" "shou" ZHUYIN_CORRECT_HSU;
   z "ㄒㄢ" "ㄕㄢ" "shan" ZHUYIN_CORRECT_HSU; z "ㄒㄣ" "ㄕㄣ" "shen" ZHUYIN_CORRECT_HSU;
   z "ㄒㄤ" "ㄕㄤ" "shang" ZHUYIN_CORRECT_HSU; z "ㄒㄥ" "ㄕㄥ" "sheng" ZHUYIN_CORRECT_HSU;
   z "ㄒㄧ" "ㄒㄧ" "xi" 0%Z; z "ㄒㄧㄚ" "ㄒㄧㄚ" "xia" 0%Z; z "ㄒㄧㄝ" "ㄒㄧㄝ" "xie" 0%Z;
   z "ㄒㄧㄠ" "ㄒㄧㄠ" "xiao" 0%Z; z "ㄒㄧㄡ" "ㄒㄧㄡ" "xiu" 0%Z; z "ㄒㄧㄢ" "ㄒㄧㄢ" "xian" 0%Z;
   z "ㄒㄧㄣ" "ㄒㄧㄣ" "xin" 0%Z; z "ㄒㄧㄤ" "ㄒㄧㄤ" "xiang" 0%Z; z "ㄒㄧㄥ" "ㄒㄧㄥ" "xing" 0%Z;
   z "ㄒㄨ" "ㄕㄨ" "shu" ZHUYIN_CORRECT_HSU; z "ㄒㄨㄚ" "ㄕㄨㄚ" "shua" ZHUYIN_CORRECT_HSU;
   z "ㄒㄨㄛ" "ㄕㄨㄛ" "shuo" ZHUYIN_CORRECT_HSU; z "ㄒㄨㄞ" "ㄕㄨㄞ" "shuai" ZHUYIN_CORRECT_HSU;
   z "ㄒㄨㄟ" "ㄕㄨㄟ" "shui" ZHUYIN_CORRECT_HSU; z "ㄒㄨㄢ" "ㄕㄨㄢ" "shuan" ZHUYIN_CORRECT_HSU;
   z "ㄒㄨㄣ" "ㄕㄨㄣ" "shun" ZHUYIN_CORRECT_HSU; z "ㄒㄨㄤ" "ㄕㄨㄤ" "shuang" ZHUYIN_CORRECT_HSU;
   z "ㄒㄩ" "ㄒㄩ" "xu" 0%Z; z "ㄒㄩㄝ" "ㄒㄩㄝ" "xue" 0%Z; z "ㄒㄩㄢ" "ㄒㄩㄢ" "xuan" 0%Z;
   z "ㄒㄩㄣ" "ㄒㄩㄣ" "xun" 0%Z; z "ㄒㄩㄥ" "ㄒㄩㄥ" "xiong" 0%Z; z "ㄓ" "ㄓ" "zhi" 0%Z;
   z "ㄓㄚ" "ㄓㄚ" "zha" 0%Z; z "ㄓㄜ" "ㄓㄜ" "zhe" 0%Z; z "ㄓㄞ" "ㄓㄞ" "zhai" 0%Z; z "ㄓㄟ" "ㄓㄟ" "zhei" 0%Z;
   z "ㄓㄠ" "ㄓㄠ" "zhao" 0%Z; z "ㄓㄡ" "ㄓㄡ" "zhou" 0%Z; z "ㄓㄢ" "ㄓㄢ" "zhan" 0%Z;
   z "ㄓㄣ" "ㄓㄣ" "zhen" 0%Z; z "ㄓㄤ" "ㄓㄤ" "zhang" 0%Z; z "ㄓㄥ" "ㄓㄥ" "zheng" 0%Z;
   z "ㄓㄨ" "ㄓㄨ" "zhu" 0%Z; z "ㄓㄨㄚ" "ㄓㄨㄚ" "zhua" 0%Z; z "ㄓㄨㄛ" "ㄓㄨㄛ" "zhuo" 0%Z;
   z "ㄓㄨㄞ" "ㄓㄨㄞ" "zhuai" 0%Z; z "ㄓㄨㄟ" "ㄓㄨㄟ" "zhui" 0%Z; z "ㄓㄨㄢ" "ㄓㄨㄢ" "zhuan" 0%Z;
   z "ㄓㄨㄣ" "ㄓㄨㄣ" "zhun" 0%Z; z "ㄓㄨㄤ" "ㄓㄨㄤ" "zhuang" 0%Z; z "ㄓㄨㄥ" "ㄓㄨㄥ" "zhong" 0%Z;
   z "ㄔ" "ㄔ" "chi" 0%Z; z "ㄔㄚ" "ㄔㄚ" "cha" 0%Z; z "ㄔㄜ" "ㄔㄜ" "che" 0%Z; z "ㄔㄞ" "ㄔㄞ" "chai" 0%Z;
   z "ㄔㄠ" "ㄔㄠ" "chao" 0%Z; z "ㄔㄡ" "ㄔㄡ" "chou" 0%Z; z "ㄔㄢ" "ㄔㄢ" "chan" 0%Z;
   z "ㄔㄣ" "ㄔㄣ" "chen" 0%Z; z "ㄔㄤ" "ㄔㄤ" "chang" 0%Z; z "ㄔㄥ" "ㄔㄥ" "cheng" 0%Z;
   z "ㄔㄨ" "ㄔㄨ" "chu" 0%Z; z "ㄔㄨㄚ" "ㄔㄨㄚ" "chua" 0%Z; z "ㄔㄨㄛ" "ㄔㄨㄛ" "chuo" 0%Z;
   z "ㄔㄨㄞ" "ㄔㄨㄞ" "chuai" 0%Z; z "ㄔㄨㄟ" "ㄔㄨㄟ" "chui" 0%Z; z "ㄔㄨㄢ" "ㄔㄨㄢ" "chuan" 0%Z;
   z "ㄔㄨㄣ" "ㄔㄨㄣ" "chun" 0%Z; z "ㄔㄨㄤ" "ㄔㄨㄤ" "chuang" 0%Z; z "ㄔㄨㄥ" "ㄔㄨㄥ" "chong" 0%Z;
   z "ㄕ" "ㄕ" "shi" 0%Z; z "ㄕㄚ" "ㄕㄚ" "sha" 0%Z; z "ㄕㄜ" "ㄕㄜ" "she" 0%Z; z "ㄕㄞ" "ㄕㄞ" "shai" 0%Z;
   z "ㄕㄟ" "ㄕㄟ" "shei" 0%Z; z "ㄕㄠ" "ㄕㄠ" "shao" 0%Z; z "ㄕㄡ" "ㄕㄡ" "shou" 0%Z;
   z "ㄕㄢ" "ㄕㄢ" "shan" 0%Z; z "ㄕㄣ" "ㄕㄣ" "shen" 0%Z; z "ㄕㄤ" "ㄕㄤ" "shang" 0%Z;
   z "ㄕㄥ" "ㄕㄥ" "sheng" 0%Z; z "ㄕㄨ" "ㄕㄨ" "shu" 0%Z; z "ㄕㄨㄚ" "ㄕㄨㄚ" "shua" 0%Z;
   z "ㄕㄨㄛ" "ㄕㄨㄛ" "shuo" 0%Z; z "ㄕㄨㄞ" "ㄕㄨㄞ" "shuai" 0%Z; z "ㄕㄨㄟ" "ㄕㄨㄟ" "shui" 0%Z;
   z "ㄕㄨㄢ" "ㄕㄨㄢ" "shuan" 0%Z; z "ㄕㄨㄣ" "ㄕㄨㄣ" "shun" 0%Z; z "ㄕㄨㄤ" "ㄕㄨㄤ" "shuang" 0%Z;
   z "ㄖ" "ㄖ" "ri" 0%Z; z "ㄖㄜ" "ㄖㄜ" "re" 0%Z; z "ㄖㄠ" "ㄖㄠ" "rao" 0%Z; z "ㄖㄡ" "ㄖㄡ" "rou" 0%Z;
   z "ㄖㄢ" "ㄖㄢ" "ran" 0%Z; z "ㄖㄣ" "ㄖㄣ" "ren" 0%Z; z "ㄖㄤ" "ㄖㄤ" "rang" 0%Z; z "ㄖㄥ" "ㄖㄥ" "reng" 0%Z;
   z "ㄖㄨ" "ㄖㄨ" "ru" 0%Z; z "ㄖㄨㄚ" "ㄖㄨㄚ" "rua" 0%Z; z "ㄖㄨㄛ" "ㄖㄨㄛ" "ruo" 0%Z;
   z "ㄖㄨㄟ" "ㄖㄨㄟ" "rui" 0%Z; z "ㄖㄨㄢ" "ㄖㄨㄢ" "ruan" 0%Z; z "ㄖㄨㄣ" "ㄖㄨㄣ" "run" 0%Z;
   z "ㄖㄨㄥ" "ㄖㄨㄥ" "rong" 0%Z; z "ㄗ" "ㄗ" "zi" 0%Z; z "ㄗㄚ" "ㄗㄚ" "za" 0%Z; z "ㄗㄜ" "ㄗㄜ" "ze" 0%Z;
   z "ㄗㄞ" "ㄗㄞ" "zai" 0%Z; z "ㄗㄟ" "ㄗㄟ" "zei" 0%Z; z "ㄗㄠ" "ㄗㄠ" "zao" 0%Z; z "ㄗㄡ" "ㄗㄡ" "zou" 0%Z;
   z "ㄗㄢ" "ㄗㄢ" "zan" 0%Z; z "ㄗㄣ" "ㄗㄣ" "zen" 0%Z; z "ㄗㄤ" "ㄗㄤ" "zang" 0%Z; z "ㄗㄥ" "ㄗㄥ" "zeng" 0%Z;
   z "ㄗㄨ" "ㄗㄨ" "zu" 0%Z; z "ㄗㄨㄛ" "ㄗㄨㄛ" "zuo" 0%Z; z "ㄗㄨㄟ" "ㄗㄨㄟ" "zui" 0%Z;
   z "ㄗㄨㄢ" "ㄗㄨㄢ" "zuan" 0%Z; z "ㄗㄨㄣ" "ㄗㄨㄣ" "zun" 0%Z; z "ㄗㄨㄥ" "ㄗㄨㄥ" "zong" 0%Z;
   z "ㄘ" "ㄘ" "ci" 0%Z; z "ㄘㄚ" "ㄘㄚ" "ca" 0%Z; z "ㄘㄜ" "ㄘㄜ" "ce" 0%Z; z "ㄘㄞ" "ㄘㄞ" "cai" 0%Z;
   z "ㄘㄠ" "ㄘㄠ" "cao" 0%Z; z "ㄘㄡ" "ㄘㄡ" "cou" 0%Z; z "ㄘㄢ" "ㄘㄢ" "can" 0%Z; z "ㄘㄣ" "ㄘㄣ" "cen" 0%Z;
   z "ㄘㄤ" "ㄘㄤ" "cang" 0%Z; z "ㄘㄥ" "ㄘㄥ" "ceng" 0%Z; z "ㄘㄨ" "ㄘㄨ" "cu" 0%Z; z "ㄘㄨㄛ" "ㄘㄨㄛ" "cuo" 0%Z;
   z "ㄘㄨㄟ" "ㄘㄨㄟ" "cui" 0%Z; z "ㄘㄨㄢ" "ㄘㄨㄢ" "cuan" 0%Z; z "ㄘㄨㄣ" "ㄘㄨㄣ" "cun" 0%Z;
   z "ㄘㄨㄥ" "ㄘㄨㄥ" "cong" 0%Z; z "ㄙ" "ㄙ" "si" 0%Z; z "ㄙㄚ" "ㄙㄚ" "sa" 0%Z; z "ㄙㄜ" "ㄙㄜ" "se" 0%Z;
   z "ㄙㄞ" "ㄙㄞ" "sai" 0%Z; z "ㄙㄠ" "ㄙㄠ" "sao" 0%Z; z "ㄙㄡ" "ㄙㄡ" "sou" 0%Z; z "ㄙㄢ" "ㄙㄢ" "san" 0%Z;
   z "ㄙㄣ" "ㄙㄣ" "sen" 0%Z; z "ㄙㄤ" "ㄙㄤ" "sang" 0%Z; z "ㄙㄥ" "ㄙㄥ" "seng" 0%Z; z "ㄙㄨ" "ㄙㄨ" "su" 0%Z;
   z "ㄙㄨㄛ" "ㄙㄨㄛ" "suo" 0%Z; z "ㄙㄨㄟ" "ㄙㄨㄟ" "sui" 0%Z; z "ㄙㄨㄢ" "ㄙㄨㄢ" "suan" 0%Z;
   z "ㄙㄨㄣ" "ㄙㄨㄣ" "sun" 0%Z; z "ㄙㄨㄥ" "ㄙㄨㄥ" "song" 0%Z; z "ㄚ" "ㄚ" "a" 0%Z; z "ㄛ" "ㄛ" "o" 0%Z;
   z "ㄜ" "ㄜ" "e" 0%Z; z "ㄞ" "ㄞ" "ai" 0%Z; z "ㄟ" "ㄟ" "ei" 0%Z; z "ㄠ" "ㄠ" "ao" 0%Z;
   z "ㄡ" "ㄡ" "ou" 0%Z; z "ㄢ" "ㄢ" "an" 0%Z; z "ㄣ" "ㄣ" "en" 0%Z; z "ㄤ" "ㄤ" "ang" 0%Z;
   z "ㄥ" "ㄥ" "eng" 0%Z; z "ㄦ" "ㄦ" "er" 0%Z; z "ㄧ" "ㄧ" "yi" 0%Z; z "ㄧㄚ" "ㄧㄚ" "ya" 0%Z;
   z "ㄧㄛ" "ㄧㄛ" "yo" 0%Z; z "ㄧㄝ" "ㄧㄝ" "ye" 0%Z; z "ㄧㄞ" "ㄧㄞ" "yai" 0%Z; z "ㄧㄠ" "ㄧㄠ" "yao" 0%Z;
   z "ㄧㄡ" "ㄧㄡ" "you" 0%Z; z "ㄧㄢ" "ㄧㄢ" "yan" 0%Z; z "ㄧㄣ" "ㄧㄣ" "yin" 0%Z; z "ㄧㄤ" "ㄧㄤ" "yang" 0%Z;
   z "ㄧㄥ" "ㄧㄥ" "ying" 0%Z; z "ㄨ" "ㄨ" "wu" 0%Z; z "ㄨㄚ" "ㄨㄚ" "wa" 0%Z; z "ㄨㄛ" "ㄨㄛ" "wo" 0%Z;
   z "ㄨㄞ" "ㄨㄞ" "wai" 0%Z; z "ㄨㄟ" "ㄨㄟ" "wei" 0%Z; z "ㄨㄢ" "ㄨㄢ" "wan" 0%Z; z "ㄨㄣ" "ㄨㄣ" "wen" 0%Z;
   z "ㄨㄤ" "ㄨㄤ" "wang" 0%Z; z "ㄨㄥ" "ㄨㄥ" "weng" 0%Z; z "ㄩ" "ㄩ" "yu" 0%Z; z "ㄩㄝ" "ㄩㄝ" "yue" 0%Z;
   z "ㄩㄢ" "ㄩㄢ" "yuan" 0%Z; z "ㄩㄣ" "ㄩㄣ" "yun" 0%Z; z "ㄩㄥ" "ㄩㄥ" "yong" 0%Z; z "ㄫ" "ㄫ" "ng" 0%Z].

Definition ETEN26_ZHUYIN_INDEX : ZhuyinIndex := Eval vm_compute in
  [z "ㄅ" "ㄅ" "b" ZHUYIN_INCOMPLETE; z "ㄅㄚ" "ㄅㄚ" "ba" 0%Z; z "ㄅㄛ" "ㄅㄛ" "bo" 0%Z;
   z "ㄅㄞ" "ㄅㄞ" "bai" 0%Z; z "ㄅㄟ" "ㄅㄟ" "bei" 0%Z; z "ㄅㄠ" "ㄅㄠ" "bao" 0%Z; z "ㄅㄢ" "ㄅㄢ" "ban" 0%Z;
   z "ㄅㄣ" "ㄅㄣ" "ben" 0%Z; z "ㄅㄤ" "ㄅㄤ" "bang" 0%Z; z "ㄅㄥ" "ㄅㄥ" "beng" 0%Z; z "ㄅㄧ" "ㄅㄧ" "bi" 0%Z;
   z "ㄅㄧㄝ" "ㄅㄧㄝ" "bie" 0%Z; z "ㄅㄧㄠ" "ㄅㄧㄠ" "biao" 0%Z; z "ㄅㄧㄢ" "ㄅㄧㄢ" "bian" 0%Z;
   z "ㄅㄧㄣ" "ㄅㄧㄣ" "bin" 0%Z; z "ㄅㄧㄥ" "ㄅㄧㄥ" "bing" 0%Z; z "ㄅㄨ" "ㄅㄨ" "bu" 0%Z;
   z "ㄆ" "ㄡ" "ou" ZHUYIN_CORRECT_ETEN26; z "ㄆㄚ" "ㄆㄚ" "pa" 0%Z; z "ㄆㄛ" "ㄆㄛ" "po" 0%Z;
   z "ㄆㄞ" "ㄆㄞ" "pai" 0%Z; z "ㄆㄟ" "ㄆㄟ" "pei" 0%Z; z "ㄆㄠ" "ㄆㄠ" "pao" 0%Z; z "ㄆㄡ" "ㄆㄡ" "pou" 0%Z;
   z "ㄆㄢ" "ㄆㄢ" "pan" 0%Z; z "ㄆㄣ" "ㄆㄣ" "pen" 0%Z; z "ㄆㄤ" "ㄆㄤ" "pang" 0%Z; z "ㄆㄥ" "ㄆㄥ" "peng" 0%Z;
   z "ㄆㄧ" "ㄆㄧ" "pi" 0%Z; z "ㄆㄧㄝ" "ㄆㄧㄝ" "pie" 0%Z; z "ㄆㄧㄠ" "ㄆㄧㄠ" "piao" 0%Z;
   z "ㄆㄧㄢ" "ㄆㄧㄢ" "pian" 0%Z; z "ㄆㄧㄣ" "ㄆㄧㄣ" "pin" 0%Z; z "ㄆㄧㄥ" "ㄆㄧㄥ" "ping" 0%Z;
   z "ㄆㄨ" "ㄆㄨ" "pu" 0%Z; z "ㄇ" "ㄢ" "an" ZHUYIN_CORRECT_ETEN26; z "ㄇㄚ" "ㄇㄚ" "ma" 0%Z;
   z "ㄇㄛ" "ㄇㄛ" "mo" 0%Z; z "ㄇㄜ" "ㄇㄜ" "me" 0%Z; z "ㄇㄞ" "ㄇㄞ" "mai" 0%Z; z "ㄇㄟ" "ㄇㄟ" "mei" 0%Z;
   z "ㄇㄠ" "ㄇㄠ" "mao" 0%Z; z "ㄇㄡ" "ㄇㄡ" "mou" 0%Z; z "ㄇㄢ" "ㄇㄢ" "man" 0%Z; z "ㄇㄣ" "ㄇㄣ" "men" 0%Z;
   z "ㄇㄤ" "ㄇㄤ" "mang" 0%Z; z "ㄇㄥ" "ㄇㄥ" "meng" 0%Z; z "ㄇㄧ" "ㄇㄧ" "mi" 0%Z; z "ㄇㄧㄝ" "ㄇㄧㄝ" "mie" 0%Z;
   z "ㄇㄧㄠ" "ㄇㄧㄠ" "miao" 0%Z; z "ㄇㄧㄡ" "ㄇㄧㄡ" "miu" 0%Z; z "ㄇㄧㄢ" "ㄇㄧㄢ" "mian" 0%Z;
   z "ㄇㄧㄣ" "ㄇㄧㄣ" "min" 0%Z; z "ㄇㄧㄥ" "ㄇㄧㄥ" "ming" 0%Z; z "ㄇㄨ" "ㄇㄨ" "mu" 0%Z;
   z "ㄈ" "ㄈ" "f" ZHUYIN_INCOMPLETE; z "ㄈㄚ" "ㄈㄚ" "fa" 0%Z; z "ㄈㄛ" "ㄈㄛ" "fo" 0%Z;
   z "ㄈㄜ" "ㄈㄜ" "fe" 0%Z; z "ㄈㄟ" "ㄈㄟ" "fei" 0%Z; z "ㄈㄡ" "ㄈㄡ" "fou" 0%Z; z "ㄈㄢ" "ㄈㄢ" "fan" 0%Z;
   z "ㄈㄣ" "ㄈㄣ" "fen" 0%Z; z "ㄈㄤ" "ㄈㄤ" "fang" 0%Z; z "ㄈㄥ" "ㄈㄥ" "feng" 0%Z; z "ㄈㄨ" "ㄈㄨ" "fu" 0%Z;
   z "ㄉ" "ㄉ" "d" ZHUYIN_INCOMPLETE; z "ㄉㄚ" "ㄉㄚ" "da" 0%Z; z "ㄉㄜ" "ㄉㄜ" "de" 0%Z;
   z "ㄉㄞ" "ㄉㄞ" "dai" 0%Z; z "ㄉㄟ" "ㄉㄟ" "dei" 0%Z; z "ㄉㄠ" "ㄉㄠ" "dao" 0%Z; z "ㄉㄡ" "ㄉㄡ" "dou" 0%Z;
   z "ㄉㄢ" "ㄉㄢ" "dan" 0%Z; z "ㄉㄣ" "ㄉㄣ" "den" 0%Z; z "ㄉㄤ" "ㄉㄤ" "dang" 0%Z; z "ㄉㄥ" "ㄉㄥ" "deng" 0%Z;
   z "ㄉㄧ" "ㄉㄧ" "di" 0%Z; z "ㄉㄧㄚ" "ㄉㄧㄚ" "dia" 0%Z; z "ㄉㄧㄝ" "ㄉㄧㄝ" "die" 0%Z;
   z "ㄉㄧㄠ" "ㄉㄧㄠ" "diao" 0%Z; z "ㄉㄧㄡ" "ㄉㄧㄡ" "diu" 0%Z; z "ㄉㄧㄢ" "ㄉㄧㄢ" "dian" 0%Z;
   z "ㄉㄧㄣ" "ㄉㄧㄣ" "din" 0%Z; z "ㄉㄧㄥ" "ㄉㄧㄥ" "ding" 0%Z; z "ㄉㄨ" "ㄉㄨ" "du" 0%Z;
   z "ㄉㄨㄛ" "ㄉㄨㄛ" "duo" 0%Z; z "ㄉㄨㄟ" "ㄉㄨㄟ" "dui" 0%Z; z "ㄉㄨㄢ" "ㄉㄨㄢ" "duan" 0%Z;
   z "ㄉㄨㄣ" "ㄉㄨㄣ" "dun" 0%Z; z "ㄉㄨㄥ" "ㄉㄨㄥ" "dong" 0%Z; z "ㄊ" "ㄤ" "ang" ZHUYIN_CORRECT_ETEN26;
   z "ㄊㄚ" "ㄊㄚ" "ta" 0%Z; z "ㄊㄜ" "ㄊㄜ" "te" 0%Z; z "ㄊㄞ" "ㄊㄞ" "tai" 0%Z; z "ㄊㄠ" "ㄊㄠ" "tao" 0%Z;
   z "ㄊㄡ" "ㄊㄡ" "tou" 0%Z; z "ㄊㄢ" "ㄊㄢ" "tan" 0%Z; z "ㄊㄤ" "ㄊㄤ" "tang" 0%Z; z "ㄊㄥ" "ㄊㄥ" "teng" 0%Z;
   z "ㄊㄧ" "ㄊㄧ" "ti" 0%Z; z "ㄊㄧㄝ" "ㄊㄧㄝ" "tie" 0%Z; z "ㄊㄧㄠ" "ㄊㄧㄠ" "tiao" 0%Z;
   z "ㄊㄧㄢ" "ㄊㄧㄢ" "tian" 0%Z; z "ㄊㄧㄥ" "ㄊㄧㄥ" "ting" 0%Z; z "ㄊㄨ" "ㄊㄨ" "tu" 0%Z;
   z "ㄊㄨㄛ" "ㄊㄨㄛ" "tuo" 0%Z; z "ㄊㄨㄟ" "ㄊㄨㄟ" "tui" 0%Z; z "ㄊㄨㄢ" "ㄊㄨㄢ" "tuan" 0%Z;
   z "ㄊㄨㄣ" "ㄊㄨㄣ" "tun" 0%Z; z "ㄊㄨㄥ" "ㄊㄨㄥ" "tong" 0%Z; z "ㄋ" "ㄣ" "en" ZHUYIN_CORRECT_ETEN26;
   z "ㄋㄚ" "ㄋㄚ" "na" 0%Z; z "ㄋㄜ" "ㄋㄜ" "ne" 0%Z; z "ㄋㄞ" "ㄋㄞ" "nai" 0%Z; z "ㄋㄟ" "ㄋㄟ" "nei" 0%Z;
   z "ㄋㄠ" "ㄋㄠ" "nao" 0%Z; z "ㄋㄡ" "ㄋㄡ" "nou" 0%Z; z "ㄋㄢ" "ㄋㄢ" "nan" 0%Z; z "ㄋㄣ" "ㄋㄣ" "nen" 0%Z;
   z "ㄋㄤ" "ㄋㄤ" "nang" 0%Z; z "ㄋㄥ" "ㄋㄥ" "neng" 0%Z; z "ㄋㄧ" "ㄋㄧ" "ni" 0%Z; z "ㄋㄧㄚ" "ㄋㄧㄚ" "nia" 0%Z;
   z "ㄋㄧㄝ" "ㄋㄧㄝ" "nie" 0%Z; z "ㄋㄧㄠ" "ㄋㄧㄠ" "niao" 0%Z; z "ㄋㄧㄡ" "ㄋㄧㄡ" "niu" 0%Z;
   z "ㄋㄧㄢ" "ㄋㄧㄢ" "nian" 0%Z; z "ㄋㄧㄣ" "ㄋㄧㄣ" "nin" 0%Z; z "ㄋㄧㄤ" "ㄋㄧㄤ" "niang" 0%Z;
   z "ㄋㄧㄥ" "ㄋㄧㄥ" "ning" 0%Z; z "ㄋㄨ" "ㄋㄨ" "nu" 0%Z; z "ㄋㄨㄛ" "ㄋㄨㄛ" "nuo" 0%Z;
   z "ㄋㄨㄢ" "ㄋㄨㄢ" "nuan" 0%Z; z "ㄋㄨㄣ" "ㄋㄨㄣ" "nun" 0%Z; z "ㄋㄨㄥ" "ㄋㄨㄥ" "nong" 0%Z;
   z "ㄋㄩ" "ㄋㄩ" "nv" 0%Z; z "ㄋㄩㄝ" "ㄋㄩㄝ" "nve" 0%Z; z "ㄌ" "ㄥ" "eng" ZHUYIN_CORRECT_ETEN26;
   z "ㄌㄚ" "ㄌㄚ" "la" 0%Z; z "ㄌㄛ" "ㄌㄛ" "lo" 0%Z; z "ㄌㄜ" "ㄌㄜ" "le" 0%Z; z "ㄌㄞ" "ㄌㄞ" "lai" 0%Z;
   z "ㄌㄟ" "ㄌㄟ" "lei" 0%Z; z "ㄌㄠ" "ㄌㄠ" "lao" 0%Z; z "ㄌㄡ" "ㄌㄡ" "lou" 0%Z; z "ㄌㄢ" "ㄌㄢ" "lan" 0%Z;
   z "ㄌㄣ" "ㄌㄣ" "len" 0%Z; z "ㄌㄤ" "ㄌㄤ" "lang" 0%Z; z "ㄌㄥ" "ㄌㄥ" "leng" 0%Z; z "ㄌㄧ" "ㄌㄧ" "li" 0%Z;
   z "ㄌㄧㄚ" "ㄌㄧㄚ" "lia" 0%Z; z "ㄌㄧㄝ" "ㄌㄧㄝ" "lie" 0%Z; z "ㄌㄧㄠ" "ㄌㄧㄠ" "liao" 0%Z;
   z "ㄌㄧㄡ" "ㄌㄧㄡ" "liu" 0%Z; z "ㄌㄧㄢ" "ㄌㄧㄢ" "lian" 0%Z; z "ㄌㄧㄣ" "ㄌㄧㄣ" "lin" 0%Z;
   z "ㄌㄧㄤ" "ㄌㄧㄤ" "liang" 0%Z; z "ㄌㄧㄥ" "ㄌㄧㄥ" "ling" 0%Z; z "ㄌㄨ" "ㄌㄨ" "lu" 0%Z;
   z "ㄌㄨㄛ" "ㄌㄨㄛ" "luo" 0%Z; z "ㄌㄨㄢ" "ㄌㄨㄢ" "luan" 0%Z; z "ㄌㄨㄣ" "ㄌㄨㄣ" "lun" 0%Z;
   z "ㄌㄨㄥ" "ㄌㄨㄥ" "long" 0%Z; z "ㄌㄩ" "ㄌㄩ" "lv" 0%Z; z "ㄌㄩㄝ" "ㄌㄩㄝ" "lve" 0%Z;
   z "ㄍ" "ㄍ" "g" ZHUYIN_INCOMPLETE; z "ㄍㄚ" "ㄍㄚ" "ga" 0%Z; z "ㄍㄜ" "ㄍㄜ" "ge" 0%Z;
   z "ㄍㄞ" "ㄍㄞ" "gai" 0%Z; z "ㄍㄟ" "ㄍㄟ" "gei" 0%Z; z "ㄍㄠ" "ㄍㄠ" "gao" 0%Z; z "ㄍㄡ" "ㄍㄡ" "gou" 0%Z;
   z "ㄍㄢ" "ㄍㄢ" "gan" 0%Z; z "ㄍㄣ" "ㄍㄣ" "gen" 0%Z; z "ㄍㄤ" "ㄍㄤ" "gang" 0%Z; z "ㄍㄥ" "ㄍㄥ" "geng" 0%Z;
   z "ㄍㄧ" "ㄑㄧ" "qi" ZHUYIN_CORRECT_ETEN26; z "ㄍㄧㄚ" "ㄑㄧㄚ" "qia" ZHUYIN_CORRECT_ETEN26;
   z "ㄍㄧㄝ" "ㄑㄧㄝ" "qie" ZHUYIN_CORRECT_ETEN26; z "ㄍㄧㄠ" "ㄑㄧㄠ" "qiao" ZHUYIN_CORRECT_ETEN26;
   z "ㄍㄧㄡ" "ㄑㄧㄡ" "qiu" ZHUYIN_CORRECT_ETEN26; z "ㄍㄧㄢ" "ㄑㄧㄢ" "qian" ZHUYIN_CORRECT_ETEN26;
   z "ㄍㄧㄣ" "ㄑㄧㄣ" "qin" ZHUYIN_CORRECT_ETEN26; z "ㄍㄧㄤ" "ㄑㄧㄤ" "qiang" ZHUYIN_CORRECT_ETEN26;
   z "ㄍㄧㄥ" "ㄑㄧㄥ" "qing" ZHUYIN_CORRECT_ETEN26; z "ㄍㄨ" "ㄍㄨ" "gu" 0%Z; z "ㄍㄨㄚ" "ㄍㄨㄚ" "gua" 0%Z;
   z "ㄍㄨㄛ" "ㄍㄨㄛ" "guo" 0%Z; z "ㄍㄨㄞ" "ㄍㄨㄞ" "guai" 0%Z; z "ㄍㄨㄟ" "ㄍㄨㄟ" "gui" 0%Z;
   z "ㄍㄨㄢ" "ㄍㄨㄢ" "guan" 0%Z; z "ㄍㄨㄣ" "ㄍㄨㄣ" "gun" 0%Z; z "ㄍㄨㄤ" "ㄍㄨㄤ" "guang" 0%Z;
   z "ㄍㄨㄥ" "ㄍㄨㄥ" "gong" 0%Z; z "ㄍㄩ" "ㄑㄩ" "qu" ZHUYIN_CORRECT_ETEN26;
   z "ㄍㄩㄝ" "ㄑㄩㄝ" "que" ZHUYIN_CORRECT_ETEN26; z "ㄍㄩㄢ" "ㄑㄩㄢ" "quan" ZHUYIN_CORRECT_ETEN26;
   z "ㄍㄩㄣ" "ㄑㄩㄣ" "qun" ZHUYIN_CORRECT_ETEN26; z "ㄍㄩㄥ" "ㄑㄩㄥ" "qiong" ZHUYIN_CORRECT_ETEN26;
   z "ㄎ" "ㄎ" "k" ZHUYIN_INCOMPLETE; z "ㄎㄚ" "ㄎㄚ" "ka" 0%Z; z "ㄎㄜ" "ㄎㄜ" "ke" 0%Z;
   z "ㄎㄞ" "ㄎㄞ" "kai" 0%Z; z "ㄎㄟ" "ㄎㄟ" "kei" 0%Z; z "ㄎㄠ" "ㄎㄠ" "kao" 0%Z; z "ㄎㄡ" "ㄎㄡ" "kou" 0%Z;
   z "ㄎㄢ" "ㄎㄢ" "kan" 0%Z; z "ㄎㄣ" "ㄎㄣ" "ken" 0%Z; z "ㄎㄤ" "ㄎㄤ" "kang" 0%Z; z "ㄎㄥ" "ㄎㄥ" "keng" 0%Z;
   z "ㄎㄨ" "ㄎㄨ" "ku" 0%Z; z "ㄎㄨㄚ" "ㄎㄨㄚ" "kua" 0%Z; z "ㄎㄨㄛ" "ㄎㄨㄛ" "kuo" 0%Z;
   z "ㄎㄨㄞ" "ㄎㄨㄞ" "kuai" 0%Z; z "ㄎㄨㄟ" "ㄎㄨㄟ" "kui" 0%Z; z "ㄎㄨㄢ" "ㄎㄨㄢ" "kuan" 0%Z;
   z "ㄎㄨㄣ" "ㄎㄨㄣ" "kun" 0%Z; z "ㄎㄨㄤ" "ㄎㄨㄤ" "kuang" 0%Z; z "ㄎㄨㄥ" "ㄎㄨㄥ" "kong" 0%Z;
   z "ㄏ" "ㄦ" "er" ZHUYIN_CORRECT_ETEN26; z "ㄏㄚ" "ㄏㄚ" "ha" 0%Z; z "ㄏㄜ" "ㄏㄜ" "he" 0%Z;
   z "ㄏㄞ" "ㄏㄞ" "hai" 0%Z; z "ㄏㄟ" "ㄏㄟ" "hei" 0%Z; z "ㄏㄠ" "ㄏㄠ" "hao" 0%Z; z "ㄏㄡ" "ㄏㄡ" "hou" 0%Z;
   z "ㄏㄢ" "ㄏㄢ" "han" 0%Z; z "ㄏㄣ" "ㄏㄣ" "hen" 0%Z; z "ㄏㄤ" "ㄏㄤ" "hang" 0%Z; z "ㄏㄥ" "ㄏㄥ" "heng" 0%Z;
   z "ㄏㄨ" "ㄏㄨ" "hu" 0%Z; z "ㄏㄨㄚ" "ㄏㄨㄚ" "hua" 0%Z; z "ㄏㄨㄛ" "ㄏㄨㄛ" "huo" 0%Z;
   z "ㄏㄨㄞ" "ㄏㄨㄞ" "huai" 0%Z; z "ㄏㄨㄟ" "ㄏㄨㄟ" "hui" 0%Z; z "ㄏㄨㄢ" "ㄏㄨㄢ" "huan" 0%Z;
   z "ㄏㄨㄣ" "ㄏㄨㄣ" "hun" 0%Z; z "ㄏㄨㄤ" "ㄏㄨㄤ" "huang" 0%Z; z "ㄏㄨㄥ" "ㄏㄨㄥ" "hong" 0%Z;
   z "ㄐ" "ㄓ" "zhi" ZHUYIN_CORRECT_ETEN26; z "ㄐㄚ" "ㄓㄚ" "zha" ZHUYIN_CORRECT_ETEN26;
   z "ㄐㄜ" "ㄓㄜ" "zhe" ZHUYIN_CORRECT_ETEN26; z "ㄐㄞ" "ㄓㄞ" "zhai" ZHUYIN_CORRECT_ETEN26;
   z "ㄐㄟ" "ㄓㄟ" "zhei" ZHUYIN_CORRECT_ETEN26; z "ㄐㄠ" "ㄓㄠ" "zhao" ZHUYIN_CORRECT_ETEN26;
   z "ㄐㄡ" "ㄓㄡ" "zhou" ZHUYIN_CORRECT_ETEN26; z "ㄐㄢ" "ㄓㄢ" "zhan" ZHUYIN_CORRECT_ETEN26;
   z "ㄐㄣ" "ㄓㄣ" "zhen" ZHUYIN_CORRECT_ETEN26; z "ㄐㄤ" "ㄓㄤ" "zhang" ZHUYIN_CORRECT_ETEN26;
   z "ㄐㄥ" "ㄓㄥ" "zheng" ZHUYIN_CORRECT_ETEN26; z "ㄐㄧ" "ㄐㄧ" "ji" 0%Z; z "ㄐㄧㄚ" "ㄐㄧㄚ" "jia" 0%Z;
   z "ㄐㄧㄝ" "ㄐㄧㄝ" "jie" 0%Z; z "ㄐㄧㄠ" "ㄐㄧㄠ" "jiao" 0%Z; z "ㄐㄧㄡ" "ㄐㄧㄡ" "jiu" 0%Z;
   z "ㄐㄧㄢ" "ㄐㄧㄢ" "jian" 0%Z; z "ㄐㄧㄣ" "ㄐㄧㄣ" "jin" 0%Z; z "ㄐㄧㄤ" "ㄐㄧㄤ" "jiang" 0%Z;
   z "ㄐㄧㄥ" "ㄐㄧㄥ" "jing" 0%Z; z "ㄐㄨ" "ㄓㄨ" "zhu" ZHUYIN_CORRECT_ETEN26;
   z "ㄐㄨㄚ" "ㄓㄨㄚ" "zhua" ZHUYIN_CORRECT_ETEN26; z "ㄐㄨㄛ" "ㄓㄨㄛ" "zhuo" ZHUYIN_CORRECT_ETEN26;
   z "ㄐㄨㄞ" "ㄓㄨㄞ" "zhuai" ZHUYIN_CORRECT_ETEN26; z "ㄐㄨㄟ" "ㄓㄨㄟ" "zhui" ZHUYIN_CORRECT_ETEN26;
   z "ㄐㄨㄢ" "ㄓㄨㄢ" "zhuan" ZHUYIN_CORRECT_ETEN26; z "ㄐㄨㄣ" "ㄓㄨㄣ" "zhun" ZHUYIN_CORRECT_ETEN26;
   z "ㄐㄨㄤ" "ㄓㄨㄤ" "zhuang" ZHUYIN_CORRECT_ETEN26; z "ㄐㄨㄥ" "ㄓㄨㄥ" "zhong" ZHUYIN_CORRECT_ETEN26;
   z "ㄐㄩ" "ㄐㄩ" "ju" 0%Z; z "ㄐㄩㄝ" "ㄐㄩㄝ" "jue" 0%Z; z "ㄐㄩㄢ" "ㄐㄩㄢ" "juan" 0%Z;
   z "ㄐㄩㄣ" "ㄐㄩㄣ" "jun" 0%Z; z "ㄐㄩㄥ" "ㄐㄩㄥ" "jiong" 0%Z; z "ㄑ" "ㄑ" "q" ZHUYIN_INCOMPLETE;
   z "ㄑㄧ" "ㄑㄧ" "qi" 0%Z; z "ㄑㄧㄚ" "ㄑㄧㄚ" "qia" 0%Z; z "ㄑㄧㄝ" "ㄑㄧㄝ" "qie" 0%Z;
   z "ㄑㄧㄠ" "ㄑㄧㄠ" "qiao" 0%Z; z "ㄑㄧㄡ" "ㄑㄧㄡ" "qiu" 0%Z; z "ㄑㄧㄢ" "ㄑㄧㄢ" "qian" 0%Z;
   z "ㄑㄧㄣ" "ㄑㄧㄣ" "qin" 0%Z; z "ㄑㄧㄤ" "ㄑㄧㄤ" "qiang" 0%Z; z "ㄑㄧㄥ" "ㄑㄧㄥ" "qing" 0%Z;
   z "ㄑㄩ" "ㄑㄩ" "qu" 0%Z; z "ㄑㄩㄝ" "ㄑㄩㄝ" "que" 0%Z; z "ㄑㄩㄢ" "ㄑㄩㄢ" "quan" 0%Z;
   z "ㄑㄩㄣ" "ㄑㄩㄣ" "qun" 0%Z; z "ㄑㄩㄥ" "ㄑㄩㄥ" "qiong" 0%Z; z "ㄒ" "ㄕ" "shi" ZHUYIN_CORRECT_ETEN26;
   z "ㄒㄚ" "ㄕㄚ" "sha" ZHUYIN_CORRECT_ETEN26; z "ㄒㄜ" "ㄕㄜ" "she" ZHUYIN_CORRECT_ETEN26;
   z "ㄒㄞ" "ㄕㄞ" "shai" ZHUYIN_CORRECT_ETEN26; z "ㄒㄟ" "ㄕㄟ" "shei" ZHUYIN_CORRECT_ETEN26;
   z "ㄒㄠ" "ㄕㄠ" "shao" ZHUYIN_CORRECT_ETEN26; z "ㄒㄡ" "ㄕㄡ" "shou" ZHUYIN_CORRECT_ETEN26;
   z "ㄒㄢ" "ㄕㄢ" "shan" ZHUYIN_CORRECT_ETEN26; z "ㄒㄣ" "ㄕㄣ" "shen" ZHUYIN_CORRECT_ETEN26;
   z "ㄒㄤ" "ㄕㄤ" "shang" ZHUYIN_CORRECT_ETEN26; z "ㄒㄥ" "ㄕㄥ" "sheng" ZHUYIN_CORRECT_ETEN26;
   z "ㄒㄧ" "ㄒㄧ" "xi" 0%Z; z "ㄒㄧㄚ" "ㄒㄧㄚ" "xia" 0%Z; z "ㄒㄧㄝ" "ㄒㄧㄝ" "xie" 0%Z;
   z "ㄒㄧㄠ" "ㄒㄧㄠ" "xiao" 0%Z; z "ㄒㄧㄡ" "ㄒㄧㄡ" "xiu" 0%Z; z "ㄒㄧㄢ" "ㄒㄧㄢ" "xian" 0%Z;
   z "ㄒㄧㄣ" "ㄒㄧㄣ" "xin" 0%Z; z "ㄒㄧㄤ" "ㄒㄧㄤ" "xiang" 0%Z; z "ㄒㄧㄥ" "ㄒㄧㄥ" "xing" 0%Z;
   z "ㄒㄨ" "ㄕㄨ" "shu" ZHUYIN_CORRECT_ETEN26; z "ㄒㄨㄚ" "ㄕㄨㄚ" "shua" ZHUYIN_CORRECT_ETEN26;
   z "ㄒㄨㄛ" "ㄕㄨㄛ" "shuo" ZHUYIN_CORRECT_ETEN26; z "ㄒㄨㄞ" "ㄕㄨㄞ" "shuai" ZHUYIN_CORRECT_ETEN26;
   z "ㄒㄨㄟ" "ㄕㄨㄟ" "shui" ZHUYIN_CORRECT_ETEN26; z "ㄒㄨㄢ" "ㄕㄨㄢ" "shuan" ZHUYIN_CORRECT_ETEN26;
   z "ㄒㄨㄣ" "ㄕㄨㄣ" "shun" ZHUYIN_CORRECT_ETEN26; z "ㄒㄨㄤ" "ㄕㄨㄤ" "shuang" ZHUYIN_CORRECT_ETEN26;
   z "ㄒㄩ" "ㄒㄩ" "xu" 0%Z; z "ㄒㄩㄝ" "ㄒㄩㄝ" "xue" 0%Z; z "ㄒㄩㄢ" "ㄒㄩㄢ" "xuan" 0%Z;
   z "ㄒㄩㄣ" "ㄒㄩㄣ" "xun" 0%Z; z "ㄒㄩㄥ" "ㄒㄩㄥ" "xiong" 0%Z; z "ㄓ" "ㄓ" "zhi" 0%Z;
   z "ㄓㄚ" "ㄓㄚ" "zha" 0%Z; z "ㄓㄜ" "ㄓㄜ" "zhe" 0%Z; z "ㄓㄞ" "ㄓㄞ" "zhai" 0%Z; z "ㄓㄟ" "ㄓㄟ" "zhei" 0%Z;
   z "ㄓㄠ" "ㄓㄠ" "zhao" 0%Z; z "ㄓㄡ" "ㄓㄡ" "zhou" 0%Z; z "ㄓㄢ" "ㄓㄢ" "zhan" 0%Z;
   z "ㄓㄣ" "ㄓㄣ" "zhen" 0%Z; z "ㄓㄤ" "ㄓㄤ" "zhang" 0%Z; z "ㄓㄥ" "ㄓㄥ" "zheng" 0%Z;
   z "ㄓㄨ" "ㄓㄨ" "zhu" 0%Z; z "ㄓㄨㄚ" "ㄓㄨㄚ" "zhua" 0%Z; z "ㄓㄨㄛ" "ㄓㄨㄛ" "zhuo" 0%Z;
   z "ㄓㄨㄞ" "ㄓㄨㄞ" "zhuai" 0%Z; z "ㄓㄨㄟ" "ㄓㄨㄟ" "zhui" 0%Z; z "ㄓㄨㄢ" "ㄓㄨㄢ" "zhuan" 0%Z;
   z "ㄓㄨㄣ" "ㄓㄨㄣ" "zhun" 0%Z; z "ㄓㄨㄤ" "ㄓㄨㄤ" "zhuang" 0%Z; z "ㄓㄨㄥ" "ㄓㄨㄥ" "zhong" 0%Z;
   z "ㄔ" "ㄔ" "chi" 0%Z; z "ㄔㄚ" "ㄔㄚ" "cha" 0%Z; z "ㄔㄜ" "ㄔㄜ" "che" 0%Z; z "ㄔㄞ" "ㄔㄞ" "chai" 0%Z;
   z "ㄔㄠ" "ㄔㄠ" "chao" 0%Z; z "ㄔㄡ" "ㄔㄡ" "chou" 0%Z; z "ㄔㄢ" "ㄔㄢ" "chan" 0%Z;
   z "ㄔㄣ" "ㄔㄣ" "chen" 0%Z; z "ㄔㄤ" "ㄔㄤ" "chang" 0%Z; z "ㄔㄥ" "ㄔㄥ" "cheng" 0%Z;
   z "ㄔㄨ" "ㄔㄨ" "chu" 0%Z; z "ㄔㄨㄚ" "ㄔㄨㄚ" "chua" 0%Z; z "ㄔㄨㄛ" "ㄔㄨㄛ" "chuo" 0%Z;
   z "ㄔㄨㄞ" "ㄔㄨㄞ" "chuai" 0%Z; z "ㄔㄨㄟ" "ㄔㄨㄟ" "chui" 0%Z; z "ㄔㄨㄢ" "ㄔㄨㄢ" "chuan" 0%Z;
   z "ㄔㄨㄣ" "ㄔㄨㄣ" "chun" 0%Z; z "ㄔㄨㄤ" "ㄔㄨㄤ" "chuang" 0%Z; z "ㄔㄨㄥ" "ㄔㄨㄥ" "chong" 0%Z;
   z "ㄕ" "ㄕ" "shi" 0%Z; z "ㄕㄚ" "ㄕㄚ" "sha" 0%Z; z "ㄕㄜ" "ㄕㄜ" "she" 0%Z; z "ㄕㄞ" "ㄕㄞ" "shai" 0%Z;
   z "ㄕㄟ" "ㄕㄟ" "shei" 0%Z; z "ㄕㄠ" "ㄕㄠ" "shao" 0%Z; z "ㄕㄡ" "ㄕㄡ" "shou" 0%Z;
   z "ㄕㄢ" "ㄕㄢ" "shan" 0%Z; z "ㄕㄣ" "ㄕㄣ" "shen" 0%Z; z "ㄕㄤ" "ㄕㄤ" "shang" 0%Z;
   z "ㄕㄥ" "ㄕㄥ" "sheng" 0%Z; z "ㄕㄨ" "ㄕㄨ" "shu" 0%Z; z "ㄕㄨㄚ" "ㄕㄨㄚ" "shua" 0%Z;
   z "ㄕㄨㄛ" "ㄕㄨㄛ" "shuo" 0%Z; z "ㄕㄨㄞ" "ㄕㄨㄞ" "shuai" 0%Z; z "ㄕㄨㄟ" "ㄕㄨㄟ" "shui" 0%Z;
   z "ㄕㄨㄢ" "ㄕㄨㄢ" "shuan" 0%Z; z "ㄕㄨㄣ" "ㄕㄨㄣ" "shun" 0%Z; z "ㄕㄨㄤ" "ㄕㄨㄤ" "shuang" 0%Z;
   z "ㄖ" "ㄖ" "ri" 0%Z; z "ㄖㄜ" "ㄖㄜ" "re" 0%Z; z "ㄖㄠ" "ㄖㄠ" "rao" 0%Z; z "ㄖㄡ" "ㄖㄡ" "rou" 0%Z;
   z "ㄖㄢ" "ㄖㄢ" "ran" 0%Z; z "ㄖㄣ" "ㄖㄣ" "ren" 0%Z; z "ㄖㄤ" "ㄖㄤ" "rang" 0%Z; z "ㄖㄥ" "ㄖㄥ" "reng" 0%Z;
   z "ㄖㄨ" "ㄖㄨ" "ru" 0%Z; z "ㄖㄨㄚ" "ㄖㄨㄚ" "rua" 0%Z; z "ㄖㄨㄛ" "ㄖㄨㄛ" "ruo" 0%Z;
   z "ㄖㄨㄟ" "ㄖㄨㄟ" "rui" 0%Z; z "ㄖㄨㄢ" "ㄖㄨㄢ" "ruan" 0%Z; z "ㄖㄨㄣ" "ㄖㄨㄣ" "run" 0%Z;
   z "ㄖㄨㄥ" "ㄖㄨㄥ" "rong" 0%Z; z "ㄗ" "ㄗ" "zi" 0%Z; z "ㄗㄚ" "ㄗㄚ" "za" 0%Z; z "ㄗㄜ" "ㄗㄜ" "ze" 0%Z;
   z "ㄗㄞ" "ㄗㄞ" "zai" 0%Z; z "ㄗㄟ" "ㄗㄟ" "zei" 0%Z; z "ㄗㄠ" "ㄗㄠ" "zao" 0%Z; z "ㄗㄡ" "ㄗㄡ" "zou" 0%Z;
   z "ㄗㄢ" "ㄗㄢ" "zan" 0%Z; z "ㄗㄣ" "ㄗㄣ" "zen" 0%Z; z "ㄗㄤ" "ㄗㄤ" "zang" 0%Z; z "ㄗㄥ" "ㄗㄥ" "zeng" 0%Z;
   z "ㄗㄨ" "ㄗㄨ" "zu" 0%Z; z "ㄗㄨㄛ" "ㄗㄨㄛ" "zuo" 0%Z; z "ㄗㄨㄟ" "ㄗㄨㄟ" "zui" 0%Z;
   z "ㄗㄨㄢ" "ㄗㄨㄢ" "zuan" 0%Z; z "ㄗㄨㄣ" "ㄗㄨㄣ" "zun" 0%Z; z "ㄗㄨㄥ" "ㄗㄨㄥ" "zong" 0%Z;
   z "ㄘ" "ㄘ" "ci" 0%Z; z "ㄘㄚ" "ㄘㄚ" "ca" 0%Z; z "ㄘㄜ" "ㄘㄜ" "ce" 0%Z; z "ㄘㄞ" "ㄘㄞ" "cai" 0%Z;
   z "ㄘㄠ" "ㄘㄠ" "cao" 0%Z; z "ㄘㄡ" "ㄘㄡ" "cou" 0%Z; z "ㄘㄢ" "ㄘㄢ" "can" 0%Z; z "ㄘㄣ" "ㄘㄣ" "cen" 0%Z;
   z "ㄘㄤ" "ㄘㄤ" "cang" 0%Z; z "ㄘㄥ" "ㄘㄥ" "ceng" 0%Z; z "ㄘㄨ" "ㄘㄨ" "cu" 0%Z; z "ㄘㄨㄛ" "ㄘㄨㄛ" "cuo" 0%Z;
   z "ㄘㄨㄟ" "ㄘㄨㄟ" "cui" 0%Z; z "ㄘㄨㄢ" "ㄘㄨㄢ" "cuan" 0%Z; z "ㄘㄨㄣ" "ㄘㄨㄣ" "cun" 0%Z;
   z "ㄘㄨㄥ" "ㄘㄨㄥ" "cong" 0%Z; z "ㄙ" "ㄙ" "si" 0%Z; z "ㄙㄚ" "ㄙㄚ" "sa" 0%Z; z "ㄙㄜ" "ㄙㄜ" "se" 0%Z;
   z "ㄙㄞ" "ㄙㄞ" "sai" 0%Z; z "ㄙㄠ" "ㄙㄠ" "sao" 0%Z; z "ㄙㄡ" "ㄙㄡ" "sou" 0%Z; z "ㄙㄢ" "ㄙㄢ" "san" 0%Z;
   z "ㄙㄣ" "ㄙㄣ" "sen" 0%Z; z "ㄙㄤ" "ㄙㄤ" "sang" 0%Z; z "ㄙㄥ" "ㄙㄥ" "seng" 0%Z; z "ㄙㄨ" "ㄙㄨ" "su" 0%Z;
   z "ㄙㄨㄛ" "ㄙㄨㄛ" "suo" 0%Z; z "ㄙㄨㄟ" "ㄙㄨㄟ" "sui" 0%Z; z "ㄙㄨㄢ" "ㄙㄨㄢ" "suan" 0%Z;
   z "ㄙㄨㄣ" "ㄙㄨㄣ" "sun" 0%Z; z "ㄙㄨㄥ" "ㄙㄨㄥ" "song" 0%Z; z "ㄚ" "ㄚ" "a" 0%Z; z "ㄛ" "ㄛ" "o" 0%Z;
   z "ㄜ" "ㄜ" "e" 0%Z; z "ㄞ" "ㄞ" "ai" 0%Z; z "ㄟ" "ㄟ" "ei" 0%Z; z "ㄠ" "ㄠ" "ao" 0%Z;
   z "ㄡ" "ㄡ" "ou" 0%Z; z "ㄢ" "ㄢ" "an" 0%Z; z "ㄣ" "ㄣ" "en" 0%Z; z "ㄤ" "ㄤ" "ang" 0%Z;
   z "ㄥ" "ㄥ" "eng" 0%Z; z "ㄦ" "ㄦ" "er" 0%Z; z "ㄧ" "ㄧ" "yi" 0%Z; z "ㄧㄚ" "ㄧㄚ" "ya" 0%Z;
   z "ㄧㄛ" "ㄧㄛ" "yo" 0%Z; z "ㄧㄝ" "ㄧㄝ" "ye" 0%Z; z "ㄧㄞ" "ㄧㄞ" "yai" 0%Z; z "ㄧㄠ" "ㄧㄠ" "yao" 0%Z;
   z "ㄧㄡ" "ㄧㄡ" "you" 0%Z; z "ㄧㄢ" "ㄧㄢ" "yan" 0%Z; z "ㄧㄣ" "ㄧㄣ" "yin" 0%Z; z "ㄧㄤ" "ㄧㄤ" "yang" 0%Z;
   z "ㄧㄥ" "ㄧㄥ" "ying" 0%Z; z "ㄨ" "ㄨ" "wu" 0%Z; z "ㄨㄚ" "ㄨㄚ" "wa" 0%Z; z "ㄨㄛ" "ㄨㄛ" "wo" 0%Z;
   z "ㄨㄞ" "ㄨㄞ" "wai" 0%Z; z "ㄨㄟ" "ㄨㄟ" "wei" 0%Z; z "ㄨㄢ" "ㄨㄢ" "wan" 0%Z; z "ㄨㄣ" "ㄨㄣ" "wen" 0%Z;
   z "ㄨㄤ" "ㄨㄤ" "wang" 0%Z; z "ㄨㄥ" "ㄨㄥ" "weng" 0%Z; z "ㄩ" "ㄩ" "yu" 0%Z; z "ㄩㄝ" "ㄩㄝ" "yue" 0%Z;
   z "ㄩㄢ" "ㄩㄢ" "yuan" 0%Z; z "ㄩㄣ" "ㄩㄣ" "yun" 0%Z; z "ㄩㄥ" "ㄩㄥ" "yong" 0%Z; z "ㄫ" "ㄫ" "ng" 0%Z].

Definition ZHUYIN_PINYIN_COUNT : nat := 1493.
Definition HSU_ZHUYIN_COUNT : nat := 500.
Definition ETEN26_ZHUYIN_COUNT : nat := 482.

Definition VALID_ZHUYIN_TONES : list Z :=
  [63; 63; 31; 31; 31; 63; 31; 27; 27; 31; 59; 27; 31; 31; 27; 27; 31; 27; 27; 63; 63; 27; 31;
   31; 31; 31; 17; 7; 31; 31; 31; 17; 23; 23; 31; 31; 31; 31; 31; 31; 31; 31; 27; 31; 31; 31; 31;
   31; 63; 29; 31; 31; 23; 15; 19; 63; 27; 27; 59; 31; 37; 9; 27; 63; 0; 27; 27; 55; 27; 3; 27;
   27; 63; 27; 27; 27; 63; 31; 19; 27; 31; 31; 31; 63; 31; 31; 31; 5; 31; 31; 63; 27; 27; 27; 27;
   63; 9; 31; 27; 59; 27; 31; 27; 27; 27; 27; 27; 25; 63; 15; 31; 31; 31; 31; 23; 11; 29; 55; 31;
   63; 31; 23; 21; 31; 63; 31; 31; 63; 31; 63; 27; 27; 31; 63; 27; 27; 27; 59; 31; 27; 31; 27;
   27; 27; 27; 31; 27; 31; 25; 11; 27; 27; 27; 27; 27; 11; 31; 31; 27; 25; 63; 29; 29; 63; 31;
   49; 31; 29; 63; 9; 29; 29; 31; 31; 29; 31; 63; 33; 29; 63; 63; 29; 31; 31; 29; 17; 63; 29; 29;
   13; 31; 33; 61; 63; 31; 31; 29; 31; 19; 13; 29; 19; 63; 29; 29; 61; 29; 31; 61; 31; 55; 25;
   17; 29; 29; 29; 21; 25; 23; 13; 29; 31; 0; 61; 29; 29; 9; 29; 25; 17; 15; 31; 55; 31; 31; 31;
   31; 31; 31; 31; 31; 31; 31; 27; 31; 31; 31; 15; 31; 31; 27; 31; 31; 31; 31; 31; 31; 15; 15;
   63; 31; 23; 7; 13; 31; 29; 25; 29; 31; 19; 29; 29; 29; 13; 29; 23; 17; 59; 19; 27; 27; 27; 17;
   3; 3; 27; 31; 27; 23; 27; 31; 27; 63; 31; 27; 27; 59; 31; 31; 5; 63; 31; 63; 31; 63; 27; 27;
   19; 27; 29; 25; 19; 59; 23; 31; 31; 63; 17; 5; 31; 31; 31; 27; 31; 31; 63; 31; 31; 31; 31; 31;
   63; 27; 31; 31; 31; 31; 27; 27; 31; 63; 31; 31; 31; 31; 63; 31; 31; 23; 27; 31; 31; 31; 23;
   63; 31; 63; 31; 63; 31; 31; 31; 35; 31; 31; 31; 31; 19; 31; 15; 59; 31; 27; 31; 29; 5; 25; 19;
   59; 27; 27; 31; 27; 27; 27; 31; 63; 31; 27; 27; 31; 63; 27; 27; 31; 27; 31; 31; 11; 27; 27;
   27; 27; 27; 23; 0; 0; 0; 0; 0; 0; 0; 0; 0; 0; 0; 0; 0; 0; 0; 0; 0; 0; 0; 0; 0; 0; 0; 3; 21;
   11; 17; 0; 0; 0; 0; 5; 0; 5; 17]%Z.

Definition tone_symbol (tone : Z) : bytes :=
  match tone with
  | 1 => str " "
  | 2 => str "ˊ"
  | 3 => str "ˇ"
  | 4 => str "ˋ"
  | 5 => str "˙"
  | _ => []
  end%Z.
