(* ===== verification/Zhuyin.v ===== *)
(** * Zhuyin: the bopomofo keyboards

    [crates/oxpinyin-core/src/scheme.rs], its second half, with
    [zhuyin_map.rs] and [direct.rs]: keystrokes become zhuyin symbols by the
    tables of a keyboard, the symbols a spelling of one of three indexes, and
    the spelling a syllable with a tone. The batch parse takes the longest key
    that probes, one after another, and stops at a tone the syllable does not
    take. *)

From Stdlib Require Import ZArith Lia Bool String Strings.Byte.
From stdpp Require Import base list strings.
From S2P Require Import Prelude ByteOrder Options SyllableData ContentData Chewing Syllables Vocab Graph ZhuyinData Parser.

Inductive ZhuyinScheme : Type :=
  Standard | Hsu | Ibm | Ginyieh | Eten | Eten26 | StandardDvorak | HsuDvorak | DachenCp26.

#[export] Instance ZhuyinScheme_eq_dec : EqDecision ZhuyinScheme.
Proof. solve_decision. Defined.

Record ZhuyinKey : Type := mk_zhuyin_key {
  key : SyllableKey; start : nat; end_ : nat; zhuyin : bytes; tone : Z
}.

Definition display (k : ZhuyinKey) : bytes :=
  zhuyin k ++ (if (2 <=? tone k) && (tone k <=? 5) then tone_symbol (tone k) else [])%Z.

Record ZhuyinParse : Type := mk_zhuyin_parse { keys : list ZhuyinKey; consumed : nat }.

Definition ZhuyinParse_default : ZhuyinParse := mk_zhuyin_parse [] 0.

Definition full_pinyin (p : ZhuyinParse) : bytes := join (str "'") (key_text ∘ key <$> keys p).

(** ** Indexes *)

Definition index_position : ZhuyinIndex -> bytes -> option nat :=
  string_position (fun row : ZhuyinRow => row.1.1.1).

Definition search_zhuyin_index (index : ZhuyinIndex) (zhuyin : bytes) (options : Z)
    : option (SyllableKey * bytes) :=
  position ← index_position index zhuyin;
  row ← index !! position;
  let '(spelling, canonical, pinyin, flags) := row : ZhuyinRow in
  if negb (bool_decide (spelling = zhuyin)) then None
  else if negb (Z.land flags ZHUYIN_INCOMPLETE =? 0)%Z && (Z.land options ZHUYIN_INCOMPLETE =? 0)%Z
  then None
  else
    let corrections := Z.land flags (Z.lor ZHUYIN_CORRECT_ALL PINYIN_AMB_ALL) in
    if negb (corrections =? 0)%Z && negb (Z.land corrections options =? corrections)%Z then None
    else (fun key => (key, canonical)) <$> from_canonical_text pinyin.

Definition zhuyin_for_pinyin (pinyin : bytes) : option bytes :=
  row ← List.find (fun row : ZhuyinRow =>
    bool_decide (row.1.2 = pinyin) && bool_decide (row.1.1.1 = row.1.1.2)) ZHUYIN_PINYIN_MAP;
  Some row.1.1.2.

Definition zhuyin_display_for_pinyin (pinyin : bytes) (tone : Z) : option bytes :=
  spelling ← zhuyin_for_pinyin pinyin;
  Some (if (2 <=? tone) && (tone <=? 5) then spelling ++ tone_symbol tone else spelling)%Z.

(** ** Keyboards *)

Record SimpleTables : Type := mk_simple {
  symbols : SymbolTable; simple_tones : ToneTable; simple_index : ZhuyinIndex
}.

Record DiscreteTables : Type := mk_discrete {
  initials : SymbolTable; middles : SymbolTable; finals : SymbolTable; tones : ToneTable;
  discrete_index : ZhuyinIndex; correction : Z
}.

Record Cp26Tables : Type := mk_cp26 {
  cp26_initials : SymbolTable; cp26_middles : SymbolTable; cp26_finals : SymbolTable;
  cp26_tones : ToneTable
}.

(** [SimpleTables::symbol], [DiscreteTables::first_symbol] and the [tone]s. *)
Definition first_symbol {A} (table : list (byte * A)) (b : byte) : option A :=
  snd <$> List.find (fun row => bool_decide (row.1 = b)) table.

Definition all_symbols (table : SymbolTable) (b : byte) : list bytes :=
  snd <$> filter (fun row => row.1 = b) table.

Definition two_symbols (table : SymbolTable) (b : byte) : option (bytes * option bytes) :=
  match all_symbols table b with
  | [] => None
  | first :: hits => Some (first, head hits)
  end.

Inductive Keyboard : Type :=
  | SimpleKeyboard (tables : SimpleTables)
  | DiscreteKeyboard (tables : DiscreteTables)
  | Cp26Keyboard (tables : Cp26Tables).

Definition simple_tables (s : ZhuyinScheme) : option SimpleTables :=
  match s with
  | Standard => Some (mk_simple STANDARD_SYMBOLS STANDARD_TONES ZHUYIN_PINYIN_MAP)
  | Ibm => Some (mk_simple IBM_SYMBOLS IBM_TONES ZHUYIN_PINYIN_MAP)
  | Ginyieh => Some (mk_simple GINYIEH_SYMBOLS GINYIEH_TONES ZHUYIN_PINYIN_MAP)
  | Eten => Some (mk_simple ETEN_SYMBOLS ETEN_TONES ZHUYIN_PINYIN_MAP)
  | Hsu | Eten26 | StandardDvorak | HsuDvorak | DachenCp26 => None
  end.

Definition discrete_tables (s : ZhuyinScheme) : option DiscreteTables :=
  match s with
  | Hsu => Some (mk_discrete HSU_INITIALS HSU_MIDDLES HSU_FINALS HSU_TONES HSU_ZHUYIN_INDEX ZHUYIN_CORRECT_HSU)
  | Eten26 => Some (mk_discrete ETEN26_INITIALS ETEN26_MIDDLES ETEN26_FINALS ETEN26_TONES
                      ETEN26_ZHUYIN_INDEX ZHUYIN_CORRECT_ETEN26)
  | HsuDvorak => Some (mk_discrete HSU_DVORAK_INITIALS HSU_DVORAK_MIDDLES HSU_DVORAK_FINALS
                         HSU_DVORAK_TONES HSU_ZHUYIN_INDEX ZHUYIN_CORRECT_HSU)
  | Standard | Ibm | Ginyieh | Eten | StandardDvorak | DachenCp26 => None
  end.

Definition cp26_tables (s : ZhuyinScheme) : option Cp26Tables :=
  match s with
  | DachenCp26 => Some (mk_cp26 CP26_INITIALS CP26_MIDDLES CP26_FINALS CP26_TONES)
  | Standard | Hsu | Ibm | Ginyieh | Eten | Eten26 | StandardDvorak | HsuDvorak => None
  end.

Definition keyboard (s : ZhuyinScheme) : option Keyboard :=
  match simple_tables s with
  | Some t => Some (SimpleKeyboard t)
  | None =>
      match discrete_tables s with
      | Some t => Some (DiscreteKeyboard t)
      | None => Cp26Keyboard <$> cp26_tables s
      end
  end.

(** ** The parser *)

Record ZhuyinParser : Type := mk_zhuyin_parser { scheme : ZhuyinScheme }.

Definition new : ZhuyinParser := mk_zhuyin_parser Standard.
Definition with_scheme (s : ZhuyinScheme) : ZhuyinParser := mk_zhuyin_parser s.

Definition set_scheme (p : ZhuyinParser) (s : ZhuyinScheme) : ZhuyinParser * bool :=
  match keyboard s with
  | None => (p, false)
  | Some _ => (mk_zhuyin_parser s, true)
  end.

(** [if use_tone && let Some(tone) = tables.tone(key)]: the mark pushed. *)
Definition tone_mark (use_tone : bool) (tones : ToneTable) (key : byte) : list bytes :=
  if use_tone then match first_symbol tones key with Some tone => [tone_symbol tone] | None => [] end
  else [].

Definition symbols_for (p : ZhuyinParser) (key : byte) (use_tone : bool) : list bytes :=
  match keyboard (scheme p) with
  | Some (SimpleKeyboard t) =>
      match first_symbol (symbols t) key with Some symbol => [symbol] | None => [] end
      ++ tone_mark use_tone (simple_tones t) key
  | Some (DiscreteKeyboard t) =>
      ([initials t; middles t; finals t] ≫= fun table => all_symbols table key)
      ++ tone_mark use_tone (tones t) key
  | Some (Cp26Keyboard t) =>
      ([cp26_initials t; cp26_middles t; cp26_finals t] ≫= fun table => all_symbols table key)
      ++ (if bool_decide (key = x69) then [str "ㄧㄚ"] else [])
      ++ tone_mark use_tone (cp26_tones t) key
  | None => []
  end.

Definition in_scheme (p : ZhuyinParser) (key : byte) (use_tone : bool) : bool :=
  match symbols_for p key use_tone with [] => false | _ => true end.

(** The trailing tone key: the tone and the length before it. *)
Definition strip_tone (input : bytes) (use_tone : bool) (tones : ToneTable) : Z * nat :=
  match (if use_tone then last input ≫= first_symbol tones else None) with
  | Some value => (value, length input - 1)
  | None => (0%Z, length input)
  end.

Definition parse_one_zhuyin_key (input : bytes) (use_tone : bool) (options : Z) (t : SimpleTables)
    : option (SyllableKey * bytes * Z) :=
  let '(tone, symbol_len) := strip_tone input use_tone (simple_tones t) in
  if symbol_len =? 0 then None
  else
    spelled ← mapM (first_symbol (symbols t)) (take symbol_len input);
    hit ← search_zhuyin_index (simple_index t) (concat spelled) options;
    Some (hit.1, hit.2, tone).

(** One positional probe: the symbol and the position after it. *)
Definition probe_slot {A} (table : list (byte * A)) (none : A) (input : bytes) (index : nat) : A * nat :=
  match input !! index ≫= first_symbol table with
  | Some symbol => (symbol, S index)
  | None => (none, index)
  end.

Definition parse_one_discrete_key (input : bytes) (use_tone : bool) (options : Z) (t : DiscreteTables)
    : option (SyllableKey * bytes * Z) :=
  if length input =? 0 then None
  else
    let '(initial, index) := probe_slot (initials t) [] input 0 in
    let '(middle, index) := probe_slot (middles t) [] input index in
    let '(final_, index) := probe_slot (finals t) [] input index in
    let '(tone, index) := if use_tone then probe_slot (tones t) 0%Z input index else (0%Z, index) in
    if negb (index =? length input) then None
    else
      hit ← search_zhuyin_index (discrete_index t) (initial ++ middle ++ final_) options;
      Some (hit.1, hit.2, tone).

(** [count_same_chars]: the run of the first byte. *)
Definition count_same_chars (input : bytes) : nat :=
  match input with
  | [] => 0
  | b :: _ => length (take_while (fun c => bool_decide (c = b)) input)
  end.

(** The row a run of [count] picks. *)
Definition cycle (count : nat) (hits : bytes * option bytes) : bytes :=
  match hits.2 with
  | Some second => if is_multiple_of (count - 1) 2 then hits.1 else second
  | None => hits.1
  end.

(** The keys [u], [m] and [j] of the middle probe: middle and final. *)
Definition middle_special (b : byte) (count : nat) : bytes * bytes :=
  if bool_decide (b = x75) then
    match (count - 1) mod 3 with
    | 0 => (str "ㄧ", [])
    | 1 => ([], str "ㄚ")
    | _ => (str "ㄧ", str "ㄚ")
    end
  else if bool_decide (b = x6d) then
    if is_multiple_of (count - 1) 2 then (str "ㄩ", []) else ([], str "ㄡ")
  else if bool_decide (b = x6a) then (str "ㄨ", [])
  else ([], []).

Definition parse_one_cp26_key (input : bytes) (use_tone : bool) (options : Z) (t : Cp26Tables)
    : option (SyllableKey * bytes * Z) :=
  if length input =? 0 then None
  else
    let '(tone, len) := strip_tone input use_tone (cp26_tones t) in
    if len =? 0 then None
    else
      let input := take len input in
      let run index := count_same_chars (drop index input) in
      let two table index := input !! index ≫= two_symbols table in
      let '(initial, index) :=
        match two (cp26_initials t) 0 with
        | Some hits => (cycle (run 0) hits, run 0)
        | None => ([], 0)
        end in
      let '(middle, final_, index) :=
        match input !! index with
        | Some b =>
            let special := middle_special b (run index) in
            (special.1, special.2,
             match two_symbols (cp26_middles t) b with Some _ => index + run index | None => index end)
        | None => ([], [], index)
        end in
      let '(final_, index) :=
        if (length final_ =? 0) then
          match two (cp26_finals t) index with
          | Some hits => (cycle (run index) hits, index + run index)
          | None => (final_, index)
          end
        else (final_, index) in
      if negb (index =? len) then None
      else
        hit ← search_zhuyin_index ZHUYIN_PINYIN_MAP (initial ++ middle ++ final_) options;
        Some (hit.1, hit.2, tone).

Definition is_valid_zhuyin (key : SyllableKey) (tone : Z) : bool :=
  match VALID_ZHUYIN_TONES !! Vocab.index key with
  | None => false
  | Some mask => (tone <? 8)%Z && negb (Z.land mask (Z.shiftl 1 tone) =? 0)%Z
  end.

Inductive KeyProbe : Type :=
  | ProbeSimple (tables : SimpleTables) (use_tone : bool) (options : Z) (force_tone : bool)
  | ProbeDiscrete (tables : DiscreteTables) (use_tone : bool) (options : Z) (force_tone : bool)
  | ProbeCp26 (tables : Cp26Tables) (use_tone : bool) (options : Z) (force_tone : bool).

(** The toneless match [FORCE_TONE] rejects. *)
Definition reject_toneless (reject : bool) (hit : option (SyllableKey * bytes * Z))
    : option (SyllableKey * bytes * Z) :=
  h ← hit;
  if reject && (h.2 =? CHEWING_ZERO_TONE)%Z then None else Some h.

Definition probe_one_key (probe : KeyProbe) (input : bytes) : option (SyllableKey * bytes * Z) :=
  match probe with
  | ProbeSimple t use_tone options force_tone =>
      reject_toneless (use_tone && force_tone) (parse_one_zhuyin_key input use_tone options t)
  | ProbeDiscrete t use_tone options force_tone =>
      reject_toneless force_tone (parse_one_discrete_key input use_tone options t)
  | ProbeCp26 t use_tone options force_tone =>
      reject_toneless (use_tone && force_tone) (parse_one_cp26_key input use_tone options t)
  end.

(** The keys [take_while] keeps. *)
Definition in_window (p : ZhuyinParser) (k : Keyboard) (use_tone : bool) (b : byte) : bool :=
  let some {A} (o : option A) := match o with Some _ => true | None => false end in
  match k with
  | SimpleKeyboard t => some (first_symbol (symbols t) b) || use_tone && some (first_symbol (simple_tones t) b)
  | DiscreteKeyboard t =>
      existsb (fun table => existsb (fun row => bool_decide (row.1 = b)) table) [initials t; middles t; finals t]
      || use_tone && some (first_symbol (tones t) b)
  | Cp26Keyboard t => in_scheme p b use_tone
  end.

(** The keyboard's keys that open the input, and the probe over them. *)
Definition window_and_probe (p : ZhuyinParser) (k : Keyboard) (input : bytes)
    (use_tone force_tone allow_incomplete : bool) : bytes * KeyProbe :=
  let incomplete := if allow_incomplete then ZHUYIN_INCOMPLETE else 0%Z in
  (take_while (in_window p k use_tone) input,
   match k with
   | SimpleKeyboard t => ProbeSimple t use_tone (Z.lor ZHUYIN_CORRECT_SHUFFLE incomplete) force_tone
   | DiscreteKeyboard t => ProbeDiscrete t use_tone (Z.lor (correction t) incomplete) force_tone
   | Cp26Keyboard t => ProbeCp26 t use_tone incomplete force_tone
   end).

Definition max_key_len (k : Keyboard) : nat := match k with Cp26Keyboard _ => 12 | _ => 4 end.

(** [for len in (1..=try_len).rev()]: the first length that probes. *)
Fixpoint longest_key (probe : bytes -> option (SyllableKey * bytes * Z)) (remaining : bytes) (n : nat)
    : option (SyllableKey * bytes * Z * nat) :=
  match n with
  | O => None
  | S m =>
      match probe (take n remaining) with
      | Some hit => Some (hit, n)
      | None => longest_key probe remaining m
      end
  end.

(** The [while]; a key consumes a byte at least. *)
Fixpoint greedy_keys (fuel max_len : nat) (probe : bytes -> option (SyllableKey * bytes * Z))
    (window : bytes) (parsed_len : nat) (keys : list ZhuyinKey) : ZhuyinParse :=
  match fuel with
  | O => mk_zhuyin_parse keys parsed_len
  | S fuel =>
      if length window <=? parsed_len then mk_zhuyin_parse keys parsed_len
      else
        let remaining := drop parsed_len window in
        match longest_key probe remaining (Nat.min (length remaining) max_len) with
        | None => mk_zhuyin_parse keys parsed_len
        | Some (key, zhuyin, tone, len) =>
            if negb (is_valid_zhuyin key tone) then mk_zhuyin_parse keys parsed_len
            else greedy_keys fuel max_len probe window (parsed_len + len)
                   (keys ++ [mk_zhuyin_key key parsed_len (parsed_len + len) zhuyin tone])
        end
  end.

Definition parse_detailed (p : ZhuyinParser) (input : bytes)
    (use_tone force_tone allow_incomplete : bool) : ZhuyinParse :=
  match keyboard (scheme p) with
  | None => ZhuyinParse_default
  | Some k =>
      let '(window, probe) := window_and_probe p k input use_tone force_tone allow_incomplete in
      greedy_keys (S (length window)) (max_key_len k) (probe_one_key probe) window 0 []
  end.

Definition parse (p : ZhuyinParser) (input : bytes) (use_tone allow_incomplete : bool) : ZhuyinParse :=
  parse_detailed p input use_tone false allow_incomplete.

Definition parse_with_options (p : ZhuyinParser) (input : bytes) (options : Z) : ZhuyinParse :=
  let bits := from_bits options in
  parse_detailed p input (contains bits USE_TONE) (contains bits FORCE_TONE)
    (contains bits ZHUYIN_INCOMPLETE).

Definition zhuyin_parse_one_key (scheme : ZhuyinScheme) (options : Z) (input : bytes) : option ChewingKey :=
  let word := from_bits (Z.ldiff options PINYIN_AMB_ALL) in
  let use_tone := contains word USE_TONE in
  let force_tone := contains word FORCE_TONE in
  k ← keyboard scheme;
  hit ← match k with
        | SimpleKeyboard t =>
            reject_toneless (use_tone && force_tone) (parse_one_zhuyin_key input use_tone (bits word) t)
        | DiscreteKeyboard t =>
            reject_toneless force_tone (parse_one_discrete_key input use_tone (bits word) t)
        | Cp26Keyboard t =>
            reject_toneless (use_tone && force_tone) (parse_one_cp26_key input use_tone (bits word) t)
        end;
  key ← from_pinyin (key_text hit.1.1);
  Some (Chewing.with_tone key hit.2).

Definition parse_one_key (p : ZhuyinParser) (options : Z) (input : bytes) : option ChewingKey :=
  zhuyin_parse_one_key (scheme p) options input.

(** ** Direct input *)

Section direct.
Context {K : Type} (parse_key : nat -> nat -> option K).

Definition separator (b : byte) : bool := bool_decide (b = x20) || bool_decide (b = x27).

(** [direct::parse]: the appended keys with their spans, and the answer. *)
Fixpoint direct_loop (fuel : nat) (input : bytes) (cur : nat) (keys : list (K * (nat * nat)))
    : list (K * (nat * nat)) * nat :=
  match fuel with
  | O => (keys, cur)
  | S fuel =>
      if length input <=? cur then (keys, cur)
      else
        let next := match position separator (drop cur input) with
                    | Some offset => cur + offset | None => length input end in
        match parse_key cur next with
        | None => (keys, cur)
        | Some key =>
            let cur' := match position (fun b => negb (separator b)) (drop next input) with
                        | Some offset => next + offset | None => length input end in
            direct_loop fuel input cur' (keys ++ [(key, (cur, next))])
        end
  end.

Definition direct_parse (input : bytes) : list (K * (nat * nat)) * nat :=
  direct_loop (S (length input)) input 0 [].
End direct.

(** [chars().last()] of a string, as its bytes: the last byte that continues
    no other and what follows. *)
Definition last_char (segment : bytes) : option bytes :=
  let fix go (l : bytes) : bytes :=
    match l with
    | [] => []
    | b :: l => if is_cont b then go l ++ [b] else [b]
    end in
  match segment with [] => None | _ => Some (go (rev segment)) end.

Definition parse_zhuyin_direct_key (segment : bytes) (options : Z) : option (SyllableKey * Z) :=
  let options := Z.ldiff options PINYIN_AMB_ALL in
  last ← last_char segment;
  let '(tone, body) :=
    match (if Z.land options USE_TONE =? 0 then None
           else List.find (fun t => bool_decide (tone_symbol t = last)) [1; 2; 3; 4; 5])%Z with
    | Some found => (found, take (length segment - length last) segment)
    | None => (1%Z, segment)
    end in
  if length body =? 0 then None
  else
    hit ← search_zhuyin_index ZHUYIN_PINYIN_MAP body options;
    Some (hit.1, tone).

Definition parse_zhuyin_direct (input : bytes) (options : Z) : list (SyllableKey * Z) :=
  fst <$> (direct_parse (fun cur next =>
    segment ← subslice input cur next;
    parse_zhuyin_direct_key segment options) input).1.

(** ** The tool's view *)

Record Key : Type := mk_tool_key { tool_key : ChewingKey; span : nat * nat }.

(** [Key::from_syllable]; its [expect] is [None]. *)
Definition from_syllable (key : SyllableKey) (tone : Z) (span : nat * nat) : option Key :=
  chewing ← from_pinyin (key_text key);
  Some (mk_tool_key (Chewing.with_tone chewing tone) span).

Record Parse : Type := mk_tool_parse { tool_consumed : nat; tool_keys : list Key }.

(** [tool::parse_direct]. *)
Definition parse_direct (input : bytes) (options : Z) (zhuyin : bool) : Parse :=
  let r := direct_parse (fun cur next =>
    segment ← subslice input cur next;
    if zhuyin then
      text ← from_utf8 segment;
      hit ← parse_zhuyin_direct_key text options;
      key ← from_pinyin (key_text hit.1);
      Some (Chewing.with_tone key hit.2)
    else Parser.parse_one_key options segment) input in
  mk_tool_parse r.2 ((fun k => mk_tool_key k.1 k.2) <$> r.1).

Example standard_ni_hao :
  full_pinyin (parse new (str "su3cl3") true false) = str "ni'hao".
Proof. vm_compute. reflexivity. Qed.
