(* ===== verification/ZhuyinSpec.v ===== *)
(** * ZhuyinSpec: what the bopomofo parsers answer

    The greedy walk of [Zhuyin] as a relation between the input and its keys,
    with its end; the one-key parse against the walk's probe; the walk of the
    direct parsers. *)

From Stdlib Require Import ZArith Lia Bool String Strings.Byte.
From stdpp Require Import base list strings.
From S2P Require Import Prelude ByteOrder Options SyllableData ContentData Chewing Syllables Vocab ZhuyinData Zhuyin.

(** ** The greedy walk *)

Section greedy.
Context (max_len : nat) (probe : bytes -> option (SyllableKey * bytes * Z)) (window : bytes).

(** No key that starts at [a] ends past [b]. *)
Definition none_longer (a b : nat) : Prop :=
  forall e, b < e <= Nat.min (length window) (a + max_len) -> probe (slice window a e) = None.

(** The longest key at [a] ends at [e]. *)
Definition longest_at (a e : nat) (hit : SyllableKey * bytes * Z) : Prop :=
  a < e <= Nat.min (length window) (a + max_len) /\ probe (slice window a e) = Some hit /\ none_longer a e.

(** Nothing starts at [a], or a key whose syllable does not take its tone. *)
Definition stops (a : nat) : Prop :=
  none_longer a a \/ exists e hit, longest_at a e hit /\ is_valid_zhuyin hit.1.1 hit.2 = false.

(** [ks] are the longest keys from [from] to [to], one after another, each
    with a tone its syllable takes. *)
Fixpoint zhuyin_run (from : nat) (ks : list ZhuyinKey) (to : nat) : Prop :=
  match ks with
  | [] => from = to /\ stops to
  | k :: ks =>
      start k = from /\ longest_at from (end_ k) (key k, zhuyin k, tone k) /\
      is_valid_zhuyin (key k) (tone k) = true /\ zhuyin_run (end_ k) ks to
  end.

Lemma longest_key_spec a n :
  n <= Nat.min (length window - a) max_len ->
  match longest_key probe (drop a window) n with
  | Some (hit, len) =>
      0 < len <= n /\ probe (slice window a (a + len)) = Some hit /\
      forall e, a + len < e <= a + n -> probe (slice window a e) = None
  | None => forall e, a < e <= a + n -> probe (slice window a e) = None
  end.
Proof.
  induction n as [|n IH]; intros Hn; cbn [longest_key]; [intros e; lia|].
  assert (slice window a (a + S n) = take (S n) (drop a window)) as Hs.
  { unfold slice. f_equal. lia. }
  destruct (probe (take (S n) (drop a window))) as [hit|] eqn:E.
  - split; [lia|]. split; [by rewrite Hs|]. intros e. lia.
  - specialize (IH ltac:(lia)). destruct (longest_key _ _ _) as [[hit len]|].
    + destruct IH as (Hl & Hp & Hnone). split; [lia|]. split; [done|]. intros e He.
      destruct (decide (e = a + S n)) as [->|]; [by rewrite Hs|]. apply Hnone. lia.
    + intros e He. destruct (decide (e = a + S n)) as [->|]; [by rewrite Hs|]. apply IH. lia.
Qed.

Lemma greedy_keys_spec fuel from acc :
  from <= length window -> length window - from < fuel ->
  exists ks to, greedy_keys fuel max_len probe window from acc = mk_zhuyin_parse (acc ++ ks) to /\
    zhuyin_run from ks to.
Proof.
  revert from acc. induction fuel as [|fuel IH]; intros from acc Hf Hfuel; [lia|]. cbn [greedy_keys].
  assert (Hend : stops from -> exists ks to,
    mk_zhuyin_parse acc from = mk_zhuyin_parse (acc ++ ks) to /\ zhuyin_run from ks to).
  { intros Hs. exists [], from. by rewrite app_nil_r. }
  destruct (Nat.leb_spec (length window) from) as [Hge|Hlt].
  { apply Hend. left. intros e He. lia. }
  rewrite length_drop.
  pose proof (longest_key_spec from (Nat.min (length window - from) max_len) (le_n _)) as Hl.
  destruct (longest_key _ _ _) as [[[[key zhuyin] tone] len]|].
  2: { apply Hend. left. intros e He. apply Hl. lia. }
  destruct Hl as (Hlen & Hp & Hnone).
  assert (Hat : longest_at from (from + len) (key, zhuyin, tone)).
  { split; [lia|]. split; [done|]. intros e He. apply Hnone. lia. }
  destruct (is_valid_zhuyin key tone) eqn:Ev; cbn [negb].
  - destruct (IH (from + len) (acc ++ [mk_zhuyin_key key from (from + len) zhuyin tone])) as (ks & to & -> & Hr); [lia|lia|].
    exists (mk_zhuyin_key key from (from + len) zhuyin tone :: ks), to. by rewrite <- app_assoc.
  - apply Hend. right. by eexists _, _.
Qed.

Lemma longest_at_unique a e e' hit hit' :
  longest_at a e hit -> longest_at a e' hit' -> e = e' /\ hit = hit'.
Proof.
  intros (He & Hp & Hn) (He' & Hp' & Hn').
  assert (e = e') as ->.
  { destruct (Nat.lt_trichotomy e e') as [Hlt|[Heq|Hlt]]; [|done|].
    - by rewrite Hn in Hp' by lia.
    - by rewrite Hn' in Hp by lia. }
  split; [done|]. congruence.
Qed.

Lemma stops_no_key a e hit : stops a -> longest_at a e hit -> is_valid_zhuyin hit.1.1 hit.2 = false.
Proof.
  intros [Hn|(e' & hit' & Hat & Hv)] Hat'.
  - destruct Hat' as (He & Hp & _). by rewrite Hn in Hp by lia.
  - by destruct (longest_at_unique _ _ _ _ _ Hat Hat') as [_ ->].
Qed.

Lemma zhuyin_run_unique from ks to ks' to' :
  zhuyin_run from ks to -> zhuyin_run from ks' to' -> ks = ks' /\ to = to'.
Proof.
  revert from ks'. induction ks as [|k ks IH]; intros from [|k' ks']; cbn [zhuyin_run].
  - by intros [-> _] [-> _].
  - intros [-> Hn] (_ & Hat & Hv & _). apply (stops_no_key _ _ _ Hn) in Hat. cbn in Hat. congruence.
  - intros (_ & Hat & Hv & _) [-> Hn]. apply (stops_no_key _ _ _ Hn) in Hat. cbn in Hat. congruence.
  - intros (Hs & Hat & _ & Hr) (Hs' & Hat' & _ & Hr').
    destruct (longest_at_unique _ _ _ _ _ Hat Hat') as [Hee Heq]. rewrite <- Hee in Hr'.
    destruct (IH _ _ Hr Hr') as [-> ->]. split; [|done]. f_equal. destruct k, k'; simpl in *; congruence.
Qed.
End greedy.

(** Any fuel past the window's length answers the walk. *)
Lemma greedy_keys_run fuel max_len probe window ks to :
  length window < fuel ->
  greedy_keys fuel max_len probe window 0 [] = mk_zhuyin_parse ks to <->
  zhuyin_run max_len probe window 0 ks to.
Proof.
  intros Hf. destruct (greedy_keys_spec max_len probe window fuel 0 []) as (ks' & to' & -> & Hr); [lia|lia|].
  cbn [app]. split; [by intros [= <- <-]|].
  intros Hr'. by destruct (zhuyin_run_unique _ _ _ _ _ _ _ _ Hr Hr') as [-> ->].
Qed.

(** ** One key *)

(** The index looks at an option word's incomplete and correction bits. *)
Lemma search_options index zhuyin o o' :
  Z.land o ZHUYIN_INCOMPLETE = Z.land o' ZHUYIN_INCOMPLETE ->
  Z.land (Z.lor ZHUYIN_CORRECT_ALL PINYIN_AMB_ALL) o = Z.land (Z.lor ZHUYIN_CORRECT_ALL PINYIN_AMB_ALL) o' ->
  search_zhuyin_index index zhuyin o = search_zhuyin_index index zhuyin o'.
Proof.
  intros Hi Hc. unfold search_zhuyin_index. destruct (index_position index zhuyin) as [p|]; [|done].
  cbn [mbind option_bind]. destruct (index !! p) as [[[[spelling canonical] pinyin] flags]|]; [|done].
  cbn [mbind option_bind]. cbv zeta. by rewrite Hi, <- !Z.land_assoc, Hc.
Qed.

Lemma search_key_index index zhuyin o key canonical :
  search_zhuyin_index index zhuyin o = Some (key, canonical) -> Vocab.index key < SYLLABLE_KEY_COUNT.
Proof.
  unfold search_zhuyin_index. intros (p & _ & ([[[spelling canonical'] pinyin] flags] & _ & H)%bind_Some)%bind_Some.
  destruct (negb _); [done|]. destruct (_ && _); [done|]. cbv zeta in H. destruct (_ && _); [done|].
  apply fmap_Some in H as (k & Hk & [= <- _]). by apply (from_canonical_text_inv pinyin).
Qed.

(** Names the parts of every pair the probes take apart. *)
Ltac split_pairs :=
  repeat match goal with |- context [match ?x with (_, _) => _ end] => destruct x end.

(** The probe under an option word of the caller's. *)
Definition caller_probe (k : Keyboard) (use_tone force_tone : bool) (options : Z) : KeyProbe :=
  match k with
  | SimpleKeyboard t => ProbeSimple t use_tone options force_tone
  | DiscreteKeyboard t => ProbeDiscrete t use_tone options force_tone
  | Cp26Keyboard t => ProbeCp26 t use_tone options force_tone
  end.

(** The correction bit the batch parse forces for a keyboard. *)
Definition own_correction (k : Keyboard) : Z :=
  match k with
  | SimpleKeyboard _ => ZHUYIN_CORRECT_SHUFFLE
  | DiscreteKeyboard t => correction t
  | Cp26Keyboard _ => 0
  end.

Lemma probe_options k use_tone force_tone o o' input :
  Z.land o ZHUYIN_INCOMPLETE = Z.land o' ZHUYIN_INCOMPLETE ->
  Z.land (Z.lor ZHUYIN_CORRECT_ALL PINYIN_AMB_ALL) o = Z.land (Z.lor ZHUYIN_CORRECT_ALL PINYIN_AMB_ALL) o' ->
  probe_one_key (caller_probe k use_tone force_tone o) input
    = probe_one_key (caller_probe k use_tone force_tone o') input.
Proof.
  intros Hi Hc. pose proof (fun index zhuyin => search_options index zhuyin o o' Hi Hc) as Hs.
  destruct k as [t|t|t]; cbn [caller_probe probe_one_key]; f_equal.
  - unfold parse_one_zhuyin_key. destruct (strip_tone _ _ _) as [tone len]. destruct (len =? 0); [done|].
    destruct (mapM _ _); [|done]. cbn [mbind option_bind]. by rewrite Hs.
  - unfold parse_one_discrete_key. destruct (length input =? 0); [done|].
    split_pairs. destruct (negb _); [done|]. by rewrite Hs.
  - unfold parse_one_cp26_key. destruct (length input =? 0); [done|].
    destruct (strip_tone _ _ _) as [tone len]. destruct (len =? 0); [done|]. cbv zeta.
    split_pairs. destruct (negb _); [done|]. by rewrite Hs.
Qed.

Lemma hit_index (o : option (SyllableKey * bytes)) (tone : Z) hit :
  (forall h, o = Some h -> Vocab.index h.1 < SYLLABLE_KEY_COUNT) ->
  (h ← o; Some (h.1, h.2, tone)) = Some hit -> Vocab.index hit.1.1 < SYLLABLE_KEY_COUNT.
Proof. intros Ho (h & Hh & [= <-])%bind_Some. exact (Ho h Hh). Qed.

Lemma probe_index probe input hit :
  probe_one_key probe input = Some hit -> Vocab.index hit.1.1 < SYLLABLE_KEY_COUNT.
Proof.
  assert (Hs : forall index z o h, search_zhuyin_index index z o = Some h -> Vocab.index h.1 < SYLLABLE_KEY_COUNT).
  { intros index z o [key c] H. by apply search_key_index in H. }
  assert (Hr : forall reject o, (forall h, o = Some h -> Vocab.index h.1.1 < SYLLABLE_KEY_COUNT) ->
    reject_toneless reject o = Some hit -> Vocab.index hit.1.1 < SYLLABLE_KEY_COUNT).
  { intros reject o Ho (h & Hh & H)%bind_Some. destruct (_ && _); [done|]. injection H as <-. by apply Ho. }
  destruct probe as [t u o f|t u o f|t u o f]; cbn [probe_one_key]; apply Hr; clear hit Hr; intros hit.
  - unfold parse_one_zhuyin_key. destruct (strip_tone _ _ _) as [tone len]. destruct (len =? 0); [done|].
    intros (l & _ & H)%bind_Some. revert H. apply hit_index. intros h. apply Hs.
  - unfold parse_one_discrete_key. destruct (length input =? 0); [done|].
    split_pairs. destruct (negb _); [done|]. apply hit_index. intros h. apply Hs.
  - unfold parse_one_cp26_key. destruct (length input =? 0); [done|].
    destruct (strip_tone _ _ _) as [tone len]. destruct (len =? 0); [done|]. cbv zeta.
    split_pairs. destruct (negb _); [done|]. apply hit_index. intros h. apply Hs.
Qed.

#[local] Opaque ZHUYIN_PINYIN_MAP HSU_ZHUYIN_INDEX ETEN26_ZHUYIN_INDEX CHEWING_KEYS CONTENT_KEYS.

Lemma one_key_probe s options input :
  zhuyin_parse_one_key s options input =
  (k ← keyboard s;
   hit ← probe_one_key (caller_probe k (contains options USE_TONE) (contains options FORCE_TONE)
           (Z.ldiff options PINYIN_AMB_ALL)) input;
   Some (Chewing.with_tone (chewing_key hit.1.1) hit.2)).
Proof.
  unfold zhuyin_parse_one_key, from_bits, bits. cbv zeta. rewrite !contains_ldiff by reflexivity.
  destruct (keyboard s) as [k|]; [|done]. cbn [mbind option_bind].
  set (p := caller_probe k _ _ _).
  assert (Hp : forall o, o = probe_one_key p input ->
    (hit ← o; key ← from_pinyin (key_text hit.1.1); Some (Chewing.with_tone key hit.2))
    = (hit ← probe_one_key p input; Some (Chewing.with_tone (chewing_key hit.1.1) hit.2))).
  { intros o ->. destruct (probe_one_key p input) as [hit|] eqn:E; [|done]. apply probe_index in E.
    cbn [mbind option_bind]. by destruct (key_facts hit.1.1 E) as (_ & _ & _ & -> & _). }
  apply Hp. by destruct k.
Qed.

Lemma incomplete_bit o : Z.land o ZHUYIN_INCOMPLETE = if Z.testbit o 4 then ZHUYIN_INCOMPLETE else 0%Z.
Proof.
  apply Z.bits_inj'. intros n Hn. rewrite Z.land_spec. change ZHUYIN_INCOMPLETE with (2 ^ 4)%Z.
  destruct (decide (n = 4%Z)) as [->|Hne].
  - rewrite Z.pow2_bits_true by done. rewrite andb_true_r. by destruct (Z.testbit o 4).
  - rewrite Z.pow2_bits_false, andb_false_r by congruence.
    destruct (Z.testbit o 4); [by rewrite Z.pow2_bits_false by congruence|by rewrite Z.bits_0].
Qed.

(** A caller's word with the keyboard's own correction bit asks the index what
    the batch parse's word does. *)
Lemma own_options (own o : Z) :
  Z.land own ZHUYIN_CORRECT_ALL = own -> Z.land o ZHUYIN_CORRECT_ALL = own ->
  let o1 := Z.ldiff o PINYIN_AMB_ALL in
  let o2 := Z.lor own (if contains o ZHUYIN_INCOMPLETE then ZHUYIN_INCOMPLETE else 0%Z) in
  let mask := Z.lor ZHUYIN_CORRECT_ALL PINYIN_AMB_ALL in
  Z.land o1 ZHUYIN_INCOMPLETE = Z.land o2 ZHUYIN_INCOMPLETE /\ Z.land mask o1 = Z.land mask o2.
Proof.
  intros Hown Ho o1 o2 mask.
  assert (Hinc : (if contains o ZHUYIN_INCOMPLETE then ZHUYIN_INCOMPLETE else 0%Z) = Z.land o ZHUYIN_INCOMPLETE).
  { unfold contains. rewrite incomplete_bit. by destruct (Z.testbit o 4). }
  assert (Hd : forall n, (Z.testbit ZHUYIN_CORRECT_ALL n && Z.testbit PINYIN_AMB_ALL n)%bool = false /\
    (Z.testbit ZHUYIN_CORRECT_ALL n && Z.testbit ZHUYIN_INCOMPLETE n)%bool = false /\
    (Z.testbit PINYIN_AMB_ALL n && Z.testbit ZHUYIN_INCOMPLETE n)%bool = false).
  { intros n. rewrite <- !Z.land_spec.
    change (Z.land ZHUYIN_CORRECT_ALL PINYIN_AMB_ALL) with 0%Z.
    change (Z.land ZHUYIN_CORRECT_ALL ZHUYIN_INCOMPLETE) with 0%Z.
    change (Z.land PINYIN_AMB_ALL ZHUYIN_INCOMPLETE) with 0%Z. by rewrite Z.bits_0. }
  unfold o1, o2, mask. rewrite Hinc.
  split; apply Z.bits_inj'; intros n Hn; destruct (Hd n) as (H1 & H2 & H3);
    apply (f_equal (fun z => Z.testbit z n)) in Hown, Ho; rewrite !Z.land_spec in Hown, Ho;
    rewrite !Z.land_spec, ?Z.lor_spec, ?Z.ldiff_spec, ?Z.land_spec; rewrite <- ?Ho in *;
    destruct (Z.testbit o n), (Z.testbit ZHUYIN_CORRECT_ALL n), (Z.testbit PINYIN_AMB_ALL n),
      (Z.testbit ZHUYIN_INCOMPLETE n); done.
Qed.

(** The walk takes the whole input as one key exactly when the probe takes it
    with a tone its syllable has, no byte of it ends the window and it is no
    longer than a key can be. *)
Lemma whole_key max_len probe (in_window : byte -> bool) input k :
  zhuyin_run max_len probe (take_while in_window input) 0 [k] (length input) <->
    input <> [] /\ length input <= max_len /\ forallb in_window input = true /\
    start k = 0 /\ end_ k = length input /\ probe input = Some (key k, zhuyin k, tone k) /\
    is_valid_zhuyin (key k) (tone k) = true.
Proof.
  assert (Hall : forallb in_window input = true -> take_while in_window input = input).
  { induction input as [|b l IH]; [done|]. cbn. intros [-> H]%andb_true_iff. by rewrite IH. }
  assert (Hwhole : length (take_while in_window input) = length input -> forallb in_window input = true).
  { clear Hall. induction input as [|b l IH]; [done|]. cbn. destruct (in_window b); cbn; [|done]. intros H. apply IH. lia. }
  assert (Hle : length (take_while in_window input) <= length input).
  { clear. induction input as [|b l IH]; [done|]. cbn. destruct (in_window b); cbn; lia. }
  assert (Hs : slice input 0 (length input) = input) by (unfold slice; by rewrite drop_0, take_ge by lia).
  cbn [zhuyin_run]. split.
  - intros (Hst & (He & Hp & _) & Hv & Hto & _). rewrite Hto in *.
    assert (Hw : forallb in_window input = true) by (apply Hwhole; lia). rewrite Hall, Hs in Hp by done.
    split; [intros ->; cbn in He; lia|]. split; [lia|]. done.
  - intros (Hne & Hlen & Hw & Hst & Hto & Hp & Hv). rewrite Hall, Hto by done.
    assert (0 < length input) by (destruct input; [done|cbn; lia]).
    split; [done|]. split; [|split; [done|split; [done|left; intros e He; lia]]].
    split; [lia|]. rewrite Hs. split; [done|]. intros e He. lia.
Qed.

(** C35. The batch parse of the zhuyin keyboards ends, on the greedy walk. For
    every keyboard, option and input the loop stops within one turn more than
    the keys that open the input, whatever more it is given, and its keys and
    consumed length are the one walk of consecutive longest keys of at most
    four keystrokes (twelve for CP26), each with a tone its syllable takes, up
    to a place where none starts or the longest has a tone its syllable lacks.
    The one-key parse answers, packed, what the probe of the caller's own option
    word, less its fuzzy bits, makes of the whole input, whether its syllable
    takes the tone or not, and however long it is. A word with exactly the
    correction bits the walk forces probes as the walk does; and the walk then
    takes the whole input as one key exactly when it is not empty, the probe
    takes it with a tone its syllable takes, every byte is in the window and the
    length is at most a key's. *)
Theorem zhuyin_parse_ends (p : ZhuyinParser) (input : bytes) (use_tone force_tone allow : bool) (r : ZhuyinParse) :
  (parse_detailed p input use_tone force_tone allow = r <->
   match keyboard (scheme p) with
   | None => r = ZhuyinParse_default
   | Some k =>
       let '(window, probe) := window_and_probe p k input use_tone force_tone allow in
       zhuyin_run (max_key_len k) (probe_one_key probe) window 0 (keys r) (consumed r) /\
       forall fuel, length window < fuel ->
         greedy_keys fuel (max_key_len k) (probe_one_key probe) window 0 [] = r
   end) /\
  (forall options,
    parse_one_key p options input =
    k ← keyboard (scheme p);
    hit ← probe_one_key (caller_probe k (contains options USE_TONE) (contains options FORCE_TONE)
            (Z.ldiff options PINYIN_AMB_ALL)) input;
    Some (Chewing.with_tone (chewing_key hit.1.1) hit.2)) /\
  forall k options, keyboard (scheme p) = Some k -> Z.land options ZHUYIN_CORRECT_ALL = own_correction k ->
    let use_tone := contains options USE_TONE in
    let probe := (window_and_probe p k input use_tone (contains options FORCE_TONE)
                    (contains options ZHUYIN_INCOMPLETE)).2 in
    parse_one_key p options input =
      (hit ← probe_one_key probe input; Some (Chewing.with_tone (chewing_key hit.1.1) hit.2)) /\
    forall z,
      parse_detailed p input use_tone (contains options FORCE_TONE) (contains options ZHUYIN_INCOMPLETE)
        = mk_zhuyin_parse [z] (length input) <->
      input <> [] /\ length input <= max_key_len k /\ forallb (in_window p k use_tone) input = true /\
      start z = 0 /\ end_ z = length input /\ probe_one_key probe input = Some (key z, zhuyin z, tone z) /\
      is_valid_zhuyin (key z) (tone z) = true.
Proof.
  split; [|split].
  - unfold parse_detailed. destruct (keyboard (scheme p)) as [k|]; [|by split].
    destruct (window_and_probe _ _ _ _ _ _) as [window probe]. destruct r as [ks to]. cbn [keys consumed].
    split.
    + intros Hr. apply greedy_keys_run in Hr; [|lia]. split; [done|]. intros fuel Hf. by apply greedy_keys_run.
    + intros [Hr _]. apply greedy_keys_run; [lia|done].
  - intros options. apply one_key_probe.
  - intros k options Hk Ho. cbv zeta. split.
    + unfold parse_one_key. rewrite one_key_probe, Hk. cbn [mbind option_bind].
      assert (Hown : Z.land (own_correction k) ZHUYIN_CORRECT_ALL = own_correction k).
      { destruct p as [s]. cbn [scheme] in Hk. destruct s; try discriminate Hk; injection Hk as <-; reflexivity. }
      destruct (own_options _ options Hown Ho) as [H1 H2].
      rewrite (probe_options k _ _ _ _ input H1 H2). by destruct k.
    + intros z. unfold parse_detailed. rewrite Hk. unfold window_and_probe. cbn [snd].
      rewrite greedy_keys_run by lia. apply whole_key.
Qed.

(** "su3" is a key either way. ",m3" is one alone, with a tone the walk does not
    let its syllable take; "us3" is one for the walk only, which corrects the
    order of its symbols unasked. *)
Lemma zhuyin_parse_ends_witness :
  let word := Z.lor USE_TONE ZHUYIN_CORRECT_SHUFFLE in
  keyboard (scheme new) = Some (SimpleKeyboard (mk_simple STANDARD_SYMBOLS STANDARD_TONES ZHUYIN_PINYIN_MAP)) /\
  Z.land word ZHUYIN_CORRECT_ALL = ZHUYIN_CORRECT_SHUFFLE /\
  is_Some (parse_one_key new word (str "su3")) /\
  is_Some (parse_one_key new word (str ",m3")) /\
  parse_one_key new USE_TONE (str "us3") = None /\
  keys (parse_detailed new (str ",m3") true false false) = [] /\
  length (keys (parse_detailed new (str "us3") true false false)) = 1 /\
  greedy_keys 100 4 (probe_one_key (ProbeSimple (mk_simple STANDARD_SYMBOLS STANDARD_TONES ZHUYIN_PINYIN_MAP)
      true ZHUYIN_CORRECT_SHUFFLE false)) (str "su3cl3") 0 [] = parse_detailed new (str "su3cl3") true false false.
Proof.
  intros word.
  destruct (zhuyin_parse_ends new (str "su3cl3") true false false (parse_detailed new (str "su3cl3") true false false)) as [Hw _].
  destruct (zhuyin_parse_ends new (str "su3") true false false ZhuyinParse_default) as (_ & _ & Hone).
  destruct (zhuyin_parse_ends new (str ",m3") true false false ZhuyinParse_default) as (_ & Hdeep & _).
  destruct (zhuyin_parse_ends new (str "us3") true false false ZhuyinParse_default) as (_ & Hplain & _).
  split; [reflexivity|]. split; [reflexivity|].
  split; [rewrite (proj1 (Hone _ word eq_refl eq_refl)); vm_compute; by eexists|].
  split; [rewrite Hdeep; vm_compute; by eexists|]. split; [rewrite Hplain; vm_compute; reflexivity|].
  split; [vm_compute; reflexivity|]. split; [vm_compute; reflexivity|].
  apply (proj1 Hw eq_refl). vm_compute. lia.
Defined.
