(* ===== verification/ZhuyinTyping.v ===== *)
(** * ZhuyinTyping: every syllable can be typed

    On the keyboards that give each syllable its tone key, a text has an input
    that parses back to it: the tone key ends a syllable, because no longer
    key can hold one inside. *)

From Stdlib Require Import ZArith Lia Bool String Strings.Byte.
From stdpp Require Import base list strings.
From S2P Require Import Prelude ByteOrder Options SyllableData ContentData Chewing Syllables Vocab ZhuyinData Zhuyin ZhuyinSpec.

(** ** Strokes *)

Section strokes.
Context (max_len : nat) (probe : bytes -> option (SyllableKey * bytes * Z)) (in_window : byte -> bool).

(** The keystrokes of one syllable with its tone, which nothing longer
    continues. *)
Record stroke (typed : bytes) (k : SyllableKey) (t : Z) (c : bytes) : Prop := {
  stroke_length : 0 < length typed <= max_len;
  stroke_window : forallb in_window typed = true;
  stroke_probe : probe typed = Some (k, c, t);
  stroke_valid : is_valid_zhuyin k t = true;
  stroke_end : forall rest, rest <> [] -> probe (typed ++ rest) = None
}.

(** [input], from a position on, is a stroke for each key. *)
Inductive typed_run : nat -> bytes -> list ZhuyinKey -> Prop :=
  | typed_nil from : typed_run from [] []
  | typed_cons from typed k t c input ks :
      stroke typed k t c -> typed_run (from + length typed) input ks ->
      typed_run from (typed ++ input) (mk_zhuyin_key k from (from + length typed) c t :: ks).

Lemma typed_window from input ks : typed_run from input ks -> take_while in_window input = input.
Proof.
  induction 1 as [|from typed k t c input ks Hs _ IH]; [done|].
  pose proof (stroke_window _ _ _ _ Hs) as Hw. clear Hs. induction typed as [|b typed IHt]; [done|].
  cbn [forallb] in Hw. apply andb_true_iff in Hw as [Hb Hw]. cbn [app take_while]. rewrite Hb. f_equal. by apply IHt.
Qed.

Lemma typed_walk pre input ks :
  typed_run (length pre) input ks ->
  zhuyin_run max_len probe (pre ++ input) (length pre) ks (length (pre ++ input)).
Proof.
  intros H. remember (length pre) as from eqn:Hfrom. revert pre Hfrom.
  induction H as [from|from typed k t c input ks Hs _ IH]; intros pre ->.
  { rewrite app_nil_r. split; [done|]. left. intros e He. lia. }
  cbn [zhuyin_run start end_ key zhuyin tone]. pose proof (stroke_length _ _ _ _ Hs) as Hl.
  assert (Hslice : forall e, slice (pre ++ typed ++ input) (length pre) e = take (e - length pre) (typed ++ input)).
  { intros e. unfold slice. by rewrite drop_app_length. }
  split; [done|]. split; [split; [|split]|split; [by apply (stroke_valid _ _ _ _ Hs)|]].
  - rewrite !length_app. lia.
  - rewrite Hslice. replace (length pre + length typed - length pre) with (length typed) by lia.
    rewrite take_app_length. by apply (stroke_probe _ _ _ _ Hs).
  - intros e He. rewrite !length_app in He. rewrite Hslice, take_app_ge by lia.
    apply (stroke_end _ _ _ _ Hs). intros Hz%(f_equal length). rewrite length_take in Hz. simpl in Hz. lia.
  - specialize (IH (pre ++ typed)). rewrite length_app, <- !app_assoc in IH. by apply IH.
Qed.

Lemma typed_exists (typable : SyllableKey * Z -> Prop) ks :
  (forall kt, typable kt -> exists typed c, stroke typed kt.1 kt.2 c /\ zhuyin_for_pinyin (key_text kt.1) = Some c) ->
  Forall typable ks -> forall from, exists input zs, typed_run from input zs /\
    (fun z => (key z, tone z)) <$> zs = ks /\
    Forall (fun z => zhuyin_for_pinyin (key_text (key z)) = Some (zhuyin z)) zs /\
    length input <= max_len * length ks.
Proof.
  intros Hex. induction 1 as [|[k t] ks Hk _ IH]; intros from.
  { exists [], []. split; [constructor|]. simpl. split; [done|]. split; [constructor|lia]. }
  destruct (Hex _ Hk) as (typed & c & Hs & Hc). cbn [fst snd] in *.
  destruct (IH (from + length typed)) as (input & zs & Hr & Hz & Hf & Hl).
  pose proof (stroke_length _ _ _ _ Hs). eexists _, _. split; [by apply typed_cons|].
  rewrite fmap_cons, Hz. split; [done|]. split; [by constructor|]. rewrite length_app. cbn [length]. lia.
Qed.
End strokes.

(** ** A tone key ends a syllable *)

Lemma first_symbol_In {A} (table : list (byte * A)) b x : first_symbol table b = Some x -> (b, x) ∈ table.
Proof.
  unfold first_symbol. intros ([b' x'] & Hf & [= <-])%fmap_Some. apply find_some in Hf as [Hin Hb].
  apply bool_decide_eq_true in Hb. cbn in Hb. subst b'. by apply list_elem_of_In.
Qed.

(** The tone keys spell no symbol of the table. *)
Definition tones_apart {A} (tones : ToneTable) (table : list (byte * A)) : bool :=
  forallb (fun row => negb (existsb (fun s => bool_decide (s.1 = row.1)) table)) tones.

Lemma tones_apart_none {A} tones (table : list (byte * A)) tk t :
  tones_apart tones table = true -> first_symbol tones tk = Some t -> first_symbol table tk = None.
Proof.
  intros Ha Ht%first_symbol_In. destruct (first_symbol table tk) as [x|] eqn:E; [|done].
  apply first_symbol_In in E. apply (forallb_elem _ _ _ Ha) in Ht. cbn [fst] in Ht.
  apply negb_true_iff in Ht. assert (existsb (fun s => bool_decide (s.1 = tk)) table = true); [|congruence].
  apply existsb_exists. exists (tk, x). split; [by apply list_elem_of_In|]. by apply bool_decide_eq_true.
Qed.

Lemma mapM_none {A B} (f : A -> option B) l x r : f x = None -> mapM f (l ++ x :: r) = None.
Proof.
  intros Hx. induction l as [|y l IH]; cbn [app mapM mret mbind option_bind]; [by rewrite Hx|].
  destruct (f y); [|done]. cbn [mbind option_bind]. by rewrite IH.
Qed.

Section simple.
Context (t : SimpleTables) (o : Z) (Hap : tones_apart (simple_tones t) (symbols t) = true).

Lemma simple_tone typed tk tn k c :
  typed <> [] -> first_symbol (simple_tones t) tk = Some tn ->
  parse_one_zhuyin_key typed false o t = Some (k, c, 0%Z) ->
  parse_one_zhuyin_key (typed ++ [tk]) true o t = Some (k, c, tn).
Proof using Type.
  intros Hne Ht. unfold parse_one_zhuyin_key, strip_tone. rewrite last_snoc. cbn [mbind option_bind]. rewrite Ht.
  rewrite length_app. cbn [length]. replace (length typed + 1 - 1) with (length typed) by lia.
  rewrite take_app_length, firstn_all. destruct (length typed =? 0); [done|].
  destruct (mapM _ _); [|done]. cbn [mbind option_bind]. destruct (search_zhuyin_index _ _ _); [|done].
  cbn [mbind option_bind]. by intros [= -> ->].
Qed.

Lemma simple_ends typed tk tn rest :
  first_symbol (simple_tones t) tk = Some tn -> rest <> [] ->
  parse_one_zhuyin_key (typed ++ tk :: rest) true o t = None.
Proof using All.
  intros Ht Hne. unfold parse_one_zhuyin_key. destruct (strip_tone _ _ _) as [tn' len] eqn:E.
  assert (Hlen : S (length typed) <= len).
  { assert (Hr : 0 < length rest) by (destruct rest; [done|simpl; lia]). unfold strip_tone in E.
    destruct (last _ ≫= _); injection E as _ <-; rewrite length_app; cbn [length]; lia. }
  destruct (len =? 0); [done|]. rewrite take_app_ge by lia.
  replace (len - length typed) with (S (len - S (length typed))) by lia. cbn [take].
  rewrite mapM_none; [done|]. by apply (tones_apart_none (simple_tones t) _ _ tn).
Qed.
End simple.

Lemma probe_slot_le {A} (table : list (byte * A)) none input i n tk :
  i <= n -> input !! n = Some tk -> first_symbol table tk = None ->
  (probe_slot table none input i).2 <= n.
Proof.
  intros Hi Hn Ht. unfold probe_slot. destruct (decide (i = n)) as [->|Hne].
  - rewrite Hn. cbn [mbind option_bind]. by rewrite Ht.
  - destruct (_ ≫= _); cbn [snd]; lia.
Qed.

Lemma probe_slot_app {A} (table : list (byte * A)) none typed tk i :
  i < length typed \/ i <= length typed /\ first_symbol table tk = None ->
  probe_slot table none (typed ++ [tk]) i = probe_slot table none typed i.
Proof.
  intros Hi. unfold probe_slot. destruct (decide (i = length typed)) as [->|Hne].
  - destruct Hi as [Hi|[_ Ht]]; [lia|].
    rewrite list_lookup_middle by done. rewrite lookup_ge_None_2 by done. cbn [mbind option_bind]. by rewrite Ht.
  - by rewrite lookup_app_l by lia.
Qed.

Lemma probe_slot_length {A} (table : list (byte * A)) none input i :
  i <= length input -> (probe_slot table none input i).2 <= length input.
Proof.
  intros Hi. unfold probe_slot. destruct (input !! i) as [b|] eqn:E; [|done].
  apply lookup_lt_Some in E. cbn [mbind option_bind]. destruct (first_symbol _ _); cbn [snd]; lia.
Qed.

Section discrete.
Context (t : DiscreteTables) (o : Z).
Context (Hmid : tones_apart (tones t) (middles t) = true) (Hfin : tones_apart (tones t) (finals t) = true).

Lemma discrete_tone typed tk tn k c :
  typed <> [] -> first_symbol (tones t) tk = Some tn ->
  parse_one_discrete_key typed false o t = Some (k, c, 0%Z) ->
  parse_one_discrete_key (typed ++ [tk]) true o t = Some (k, c, tn).
Proof using All.
  intros Hne Ht. assert (Hl : 0 < length typed) by (destruct typed; [done|simpl; lia]).
  pose proof (tones_apart_none _ _ _ _ Hmid Ht) as Hm. pose proof (tones_apart_none _ _ _ _ Hfin Ht) as Hf.
  unfold parse_one_discrete_key. rewrite length_app. cbn [length].
  rewrite (proj2 (Nat.eqb_neq _ _)) by lia. rewrite (proj2 (Nat.eqb_neq (length typed + 1) 0)) by lia.
  rewrite probe_slot_app by (left; lia). pose proof (probe_slot_length (initials t) [] typed 0 ltac:(lia)) as H1.
  destruct (probe_slot (initials t) [] typed 0) as [initial i1]. cbn [snd] in H1.
  rewrite probe_slot_app by (by right). pose proof (probe_slot_length (middles t) [] typed i1 H1) as H2.
  destruct (probe_slot (middles t) [] typed i1) as [middle i2]. cbn [snd] in H2.
  rewrite probe_slot_app by (by right). destruct (probe_slot (finals t) [] typed i2) as [final i3].
  destruct (Nat.eqb_spec i3 (length typed)) as [->|]; [|done]. cbn [negb].
  assert (Htone : probe_slot (tones t) 0%Z (typed ++ [tk]) (length typed) = (tn, length typed + 1)).
  { unfold probe_slot. rewrite list_lookup_middle by done. cbn [mbind option_bind]. rewrite Ht. f_equal. lia. }
  rewrite Htone, Nat.eqb_refl. cbn [negb]. destruct (search_zhuyin_index _ _ _); [|done].
  cbn [mbind option_bind]. by intros [= -> ->].
Qed.

Lemma discrete_ends typed tk tn rest :
  typed <> [] -> first_symbol (tones t) tk = Some tn -> rest <> [] ->
  parse_one_discrete_key (typed ++ tk :: rest) true o t = None.
Proof using All.
  intros Hne Ht Hrest. assert (Hl : 0 < length typed) by (destruct typed; [done|simpl; lia]).
  assert (Hr : 0 < length rest) by (destruct rest; [done|simpl; lia]).
  pose proof (tones_apart_none _ _ _ _ Hmid Ht) as Hm. pose proof (tones_apart_none _ _ _ _ Hfin Ht) as Hf.
  assert (Hn : (typed ++ tk :: rest) !! length typed = Some tk) by by apply list_lookup_middle.
  unfold parse_one_discrete_key. destruct (_ =? 0); [done|].
  assert (H1 : (probe_slot (initials t) [] (typed ++ tk :: rest) 0).2 <= length typed).
  { unfold probe_slot. destruct (_ ≫= _); cbn [snd]; lia. }
  destruct (probe_slot (initials t) [] _ 0) as [initial i1]. cbn [snd] in H1.
  pose proof (probe_slot_le (middles t) [] _ i1 _ tk H1 Hn Hm) as H2.
  destruct (probe_slot (middles t) [] _ i1) as [middle i2]. cbn [snd] in H2.
  pose proof (probe_slot_le (finals t) [] _ i2 _ tk H2 Hn Hf) as H3.
  destruct (probe_slot (finals t) [] _ i2) as [final i3]. cbn [snd] in H3.
  assert (H4 : (probe_slot (tones t) 0%Z (typed ++ tk :: rest) i3).2 <= S i3).
  { unfold probe_slot. destruct (_ ≫= _); cbn [snd]; lia. }
  destruct (probe_slot (tones t) 0%Z _ i3) as [tone i4]. cbn [snd] in H4.
  rewrite (proj2 (Nat.eqb_neq i4 _)); [done|]. rewrite length_app. cbn [length]. lia.
Qed.
End discrete.

(** ** Typing tables *)

Fixpoint symbols_of (text : bytes) : list bytes :=
  match text with a :: b :: c :: text => [a; b; c] :: symbols_of text | _ => [] end.

Definition key_of {A} `{EqDecision A} (table : list (byte * A)) (x : A) : option byte :=
  fst <$> List.find (fun row => bool_decide (row.2 = x)) table.

Fixpoint product {A} (ls : list (list A)) : list (list A) :=
  match ls with [] => [[]] | l :: ls => l ≫= fun x => cons x <$> product ls end.

(** A row whose spelling is its own canonical form, for a complete syllable. *)
Definition plain_row (row : ZhuyinRow) : bool :=
  bool_decide (row.1.1.1 = row.1.1.2) &&
  match from_canonical_text row.1.2 with Some k => bool_decide (completeness k = Complete) | None => false end.

Definition PLAIN_ROWS : ZhuyinIndex := Eval vm_compute in List.filter plain_row ZHUYIN_PINYIN_MAP.

Lemma plain_rows_filter : PLAIN_ROWS = List.filter plain_row ZHUYIN_PINYIN_MAP.
Proof. vm_compute. reflexivity. Qed.

(** The syllables a keyboard has no keys for: no key spells [ng], and two
    finals of the discrete keyboards are first of all initials. *)
Definition untypable (s : ZhuyinScheme) : list bytes :=
  match s with
  | Hsu | HsuDvorak => [str "ng"; str "ei"; str "eng"]
  | Eten26 => [str "ng"; str "ei"]
  | _ => [str "ng"]
  end.

Definition tones_checked (tones : ToneTable) : bool :=
  forallb (fun n => match key_of tones n with
                    | Some b => bool_decide (first_symbol tones b = Some n)
                    | None => false
                    end) [1; 2; 3; 4; 5]%Z.

Definition search_checked (row : ZhuyinRow) : bool :=
  bool_decide (search_zhuyin_index ZHUYIN_PINYIN_MAP row.1.1.1 0
    = (fun k => (k, row.1.1.2)) <$> from_canonical_text row.1.2).

Definition simple_typed (t : SimpleTables) (row : ZhuyinRow) : option bytes :=
  mapM (key_of (symbols t)) (symbols_of row.1.1.1).

Definition simple_row_checked (s : ZhuyinScheme) (t : SimpleTables) (row : ZhuyinRow) : bool :=
  bool_decide (row.1.2 ∈ untypable s) ||
  match simple_typed t row with
  | Some typed => (0 <? length typed) && (length typed <=? 3) &&
      bool_decide (@concat byte <$> mapM (first_symbol (symbols t)) typed = Some row.1.1.1)
  | None => false
  end.

Definition simple_checked (s : ZhuyinScheme) : bool :=
  match simple_tables s with
  | Some t => tones_apart (simple_tones t) (symbols t) && tones_checked (simple_tones t)
              && forallb (simple_row_checked s t) PLAIN_ROWS
  | None => true
  end.

Definition discrete_parses (t : DiscreteTables) (row : ZhuyinRow) (typed : bytes) : bool :=
  bool_decide (parse_one_discrete_key typed false (correction t) t
    = (fun k => (k, row.1.1.2, 0%Z)) <$> from_canonical_text row.1.2).

(** The keystrokes of every plain row, empty for an untypable one. *)
Definition discrete_typing (t : DiscreteTables) (row : ZhuyinRow) : bytes :=
  let keys c := [initials t; middles t; finals t] ≫= fun table => fst <$> filter (fun r => r.2 = c) table in
  default [] (List.find (discrete_parses t row) (product (keys <$> symbols_of row.1.1.1))).

Definition HSU_TYPING : list bytes := Eval vm_compute in
  match discrete_tables Hsu with Some t => discrete_typing t <$> PLAIN_ROWS | None => [] end.
Definition ETEN26_TYPING : list bytes := Eval vm_compute in
  match discrete_tables Eten26 with Some t => discrete_typing t <$> PLAIN_ROWS | None => [] end.

Definition discrete_row_checked (s : ZhuyinScheme) (t : DiscreteTables) (p : ZhuyinRow * bytes) : bool :=
  bool_decide (p.1.1.2 ∈ untypable s) ||
  (0 <? length p.2) && (length p.2 <=? 3) && forallb (in_window (with_scheme s) (DiscreteKeyboard t) true) p.2
  && discrete_parses t p.1 p.2.

Definition discrete_checked (s : ZhuyinScheme) (typing : list bytes) : bool :=
  match discrete_tables s with
  | Some t => tones_apart (tones t) (middles t) && tones_apart (tones t) (finals t) && tones_checked (tones t)
              && (length PLAIN_ROWS =? length typing) && forallb (discrete_row_checked s t) (zip PLAIN_ROWS typing)
  | None => true
  end.

Lemma searches_checked : forallb search_checked PLAIN_ROWS = true.
Proof. vm_compute. reflexivity. Qed.

Lemma simples_checked : forallb simple_checked [Standard; Ibm; Ginyieh; Eten] = true.
Proof. vm_compute. reflexivity. Qed.

Definition typing_of (s : ZhuyinScheme) : list bytes :=
  match s with Eten26 => ETEN26_TYPING | _ => HSU_TYPING end.

Lemma discretes_checked : forallb (fun s => discrete_checked s (typing_of s)) [Hsu; Eten26; HsuDvorak] = true.
Proof. vm_compute. reflexivity. Qed.

#[local] Opaque ZHUYIN_PINYIN_MAP HSU_ZHUYIN_INDEX ETEN26_ZHUYIN_INDEX PLAIN_ROWS HSU_TYPING ETEN26_TYPING
  VALID_ZHUYIN_TONES.

(** ** More options parse more *)

Definition more (o : Z) (allow : bool) : Z := Z.lor o (if allow then ZHUYIN_INCOMPLETE else 0%Z).

Lemma search_more index z o allow r :
  search_zhuyin_index index z o = Some r -> search_zhuyin_index index z (more o allow) = Some r.
Proof.
  unfold more. destruct allow; [|by rewrite Z.lor_0_r]. unfold search_zhuyin_index.
  destruct (index_position index z) as [p|]; [|done]. cbn [mbind option_bind].
  destruct (index !! p) as [[[[spelling canonical] pinyin] flags]|]; [|done]. cbn [mbind option_bind]. cbv zeta.
  destruct (negb _); [done|].
  assert (Hi : (Z.land (Z.lor o ZHUYIN_INCOMPLETE) ZHUYIN_INCOMPLETE =? 0)%Z = false).
  { apply Z.eqb_neq. intros H. apply (f_equal (fun z => Z.testbit z 4)) in H.
    rewrite Z.land_spec, Z.lor_spec in H. change (Z.testbit ZHUYIN_INCOMPLETE 4) with true in H.
    rewrite orb_true_r in H. discriminate H. }
  rewrite Hi, andb_false_r. destruct (_ && _); [done|].
  set (mask := Z.lor ZHUYIN_CORRECT_ALL PINYIN_AMB_ALL).
  assert (Hc : Z.land (Z.land flags mask) (Z.lor o ZHUYIN_INCOMPLETE) = Z.land (Z.land flags mask) o).
  { rewrite Z.land_lor_distr_r, <- (Z.land_assoc flags mask ZHUYIN_INCOMPLETE).
    change (Z.land mask ZHUYIN_INCOMPLETE) with 0%Z. by rewrite Z.land_0_r, Z.lor_0_r. }
  by rewrite Hc.
Qed.

(** What no option is needed for, every word finds. *)
Lemma search_any index z o r :
  search_zhuyin_index index z 0 = Some r -> search_zhuyin_index index z o = Some r.
Proof.
  unfold search_zhuyin_index. destruct (index_position index z) as [p|]; [|done]. cbn [mbind option_bind].
  destruct (index !! p) as [[[[spelling canonical] pinyin] flags]|]; [|done]. cbn [mbind option_bind]. cbv zeta.
  destruct (negb (bool_decide _)); [done|]. rewrite Z.land_0_l, !Z.land_0_r. change (0 =? 0)%Z with true.
  destruct (Z.land flags ZHUYIN_INCOMPLETE =? 0)%Z; [|done]. cbn [negb andb].
  set (corrections := Z.land flags _). rewrite (Z.eqb_sym 0 corrections).
  destruct (corrections =? 0)%Z; done.
Qed.

(** A plain row is found under every word. *)
Lemma plain_search c f k o :
  (c, c, key_text k, f) ∈ PLAIN_ROWS -> from_canonical_text (key_text k) = Some k ->
  search_zhuyin_index ZHUYIN_PINYIN_MAP c o = Some (k, c).
Proof.
  intros Hrow Hk. apply (forallb_elem _ _ _ searches_checked) in Hrow. apply bool_decide_eq_true in Hrow.
  cbn [fst snd] in Hrow. rewrite Hk in Hrow. by apply search_any.
Qed.

Lemma simple_more t input u o allow h :
  parse_one_zhuyin_key input u o t = Some h -> parse_one_zhuyin_key input u (more o allow) t = Some h.
Proof.
  unfold parse_one_zhuyin_key. destruct (strip_tone _ _ _) as [tn len]. destruct (len =? 0); [done|].
  destruct (mapM _ _); [|done]. cbn [mbind option_bind]. intros (r & Hr & H)%bind_Some.
  by rewrite (search_more _ _ _ _ _ Hr).
Qed.

Lemma discrete_more t input u o allow h :
  parse_one_discrete_key input u o t = Some h -> parse_one_discrete_key input u (more o allow) t = Some h.
Proof.
  unfold parse_one_discrete_key. destruct (_ =? 0); [done|]. split_pairs. destruct (negb _); [done|].
  intros (r & Hr & H)%bind_Some. by rewrite (search_more _ _ _ _ _ Hr).
Qed.

(** ** Every typable syllable has a stroke *)

(** A complete syllable with a zhuyin spelling the keyboard has keys for, and
    one of the tones it takes. *)
Definition typable (s : ZhuyinScheme) (kt : SyllableKey * Z) : Prop :=
  Vocab.index kt.1 < SYLLABLE_KEY_COUNT /\ completeness kt.1 = Complete /\
  is_Some (zhuyin_for_pinyin (key_text kt.1)) /\ (key_text kt.1 ∉ untypable s) /\
  (1 <= kt.2 <= 5)%Z /\ is_valid_zhuyin kt.1 kt.2 = true.

Lemma typable_row k :
  Vocab.index k < SYLLABLE_KEY_COUNT -> completeness k = Complete -> is_Some (zhuyin_for_pinyin (key_text k)) ->
  exists c f, (c, c, key_text k, f) ∈ PLAIN_ROWS /\ zhuyin_for_pinyin (key_text k) = Some c /\
    from_canonical_text (key_text k) = Some k.
Proof.
  intros Hi Hc [c Hz]. rewrite Hz. unfold zhuyin_for_pinyin in Hz. apply bind_Some in Hz as (row & Hf & [= Hcr]).
  apply find_some in Hf as [Hin Hb]. apply andb_true_iff in Hb as [Hb1 Hb2].
  apply bool_decide_eq_true in Hb1, Hb2. destruct row as [[[i c'] p] f]. cbn [fst snd] in *. subst i p c'.
  destruct (key_facts k Hi) as (Hk & _). exists c, f. split; [|done].
  rewrite plain_rows_filter. apply list_elem_of_In, filter_In. split; [done|].
  unfold plain_row. cbn [fst snd]. rewrite Hk. by rewrite !bool_decide_true.
Qed.

Lemma tone_key tones t :
  tones_checked tones = true -> (1 <= t <= 5)%Z -> exists tk, first_symbol tones tk = Some t.
Proof.
  intros Hc Ht. assert (Hin : t ∈ [1; 2; 3; 4; 5]%Z).
  { rewrite !elem_of_cons. lia. }
  apply (forallb_elem _ _ _ Hc) in Hin. destruct (key_of tones t) as [tk|]; [|done].
  apply bool_decide_eq_true in Hin. by exists tk.
Qed.

Lemma mapM_window {A B} (f : A -> option B) l r : mapM f l = Some r -> forall x, x ∈ l -> is_Some (f x).
Proof.
  revert r. induction l as [|y l IH]; intros r; cbn [mapM mret mbind option_bind]; [by intros _ x ?%not_elem_of_nil|].
  intros (z & Hz & (k & Hk & _)%bind_Some)%bind_Some x [->|Hx]%elem_of_cons; [by rewrite Hz|]. by eapply IH.
Qed.

#[local] Opaque search_zhuyin_index zhuyin_for_pinyin from_canonical_text SYLLABLE_KEY_COUNT untypable key_text.

Lemma reject_some reject k c t : (t <> 0)%Z -> reject_toneless reject (Some (k, c, t)) = Some (k, c, t).
Proof.
  intros Ht. unfold reject_toneless. cbn [mbind option_bind snd]. rewrite (proj2 (Z.eqb_neq t CHEWING_ZERO_TONE)) by done.
  by rewrite andb_false_r.
Qed.

Lemma snoc_rest {A} (l : list A) x r : (l ++ [x]) ++ r = l ++ x :: r.
Proof. by rewrite <- app_assoc. Qed.

Section scheme.
Context (s : ZhuyinScheme) (force allow : bool).

Lemma simple_stroke t kt :
  simple_tables s = Some t -> simple_checked s = true -> simple_index t = ZHUYIN_PINYIN_MAP -> typable s kt ->
  exists typed c,
    stroke 4 (probe_one_key (ProbeSimple t true (more ZHUYIN_CORRECT_SHUFFLE allow) force))
      (in_window (with_scheme s) (SimpleKeyboard t) true) typed kt.1 kt.2 c /\
    zhuyin_for_pinyin (key_text kt.1) = Some c.
Proof using Type.
  intros Ht Hck Hix (Hi & Hc & Hz & Hun & Htone & Hv). destruct kt as [k tn]. cbn [fst snd] in *.
  unfold simple_checked in Hck. rewrite Ht in Hck. apply andb_true_iff in Hck as [[Hap Htc]%andb_true_iff Hrows].
  destruct (tone_key _ _ Htc Htone) as [tk Htk].
  destruct (typable_row k Hi Hc Hz) as (c & f & Hrow & Hzk & Hk).
  pose proof (plain_search c f k ZHUYIN_CORRECT_SHUFFLE Hrow Hk) as Hsearch.
  apply (forallb_elem _ _ _ Hrows) in Hrow. unfold simple_row_checked in Hrow. cbn [fst snd] in Hrow.
  rewrite bool_decide_false in Hrow by done. cbn [orb] in Hrow.
  destruct (simple_typed t _) as [typed|]; [|discriminate Hrow].
  apply andb_true_iff in Hrow as [[Hl1 Hl2]%andb_true_iff Hsp%bool_decide_eq_true].
  apply Nat.ltb_lt in Hl1. apply Nat.leb_le in Hl2. apply fmap_Some in Hsp as (spelled & Hm & Hcat).
  assert (Hne : typed <> []) by (intros ->; cbn in Hl1; lia).
  assert (Hone : parse_one_zhuyin_key typed false ZHUYIN_CORRECT_SHUFFLE t = Some (k, c, 0%Z)).
  { unfold parse_one_zhuyin_key, strip_tone. rewrite (proj2 (Nat.eqb_neq _ 0)) by lia. rewrite firstn_all, Hm.
    cbn [mbind option_bind]. by rewrite Hix, <- Hcat, Hsearch. }
  exists (typed ++ [tk]), c. split; [|done]. split.
  - rewrite length_app. cbn [length]. lia.
  - rewrite forallb_app. cbn [forallb in_window]. rewrite Htk, !andb_true_r, orb_true_r, andb_true_r.
    apply forallb_forall. intros b Hb%list_elem_of_In. cbn [in_window]. by destruct (mapM_window _ _ _ Hm b Hb) as [x ->].
  - cbn [probe_one_key]. rewrite (simple_tone t _ typed tk tn k c Hne Htk (simple_more _ _ _ _ _ _ Hone)).
    apply reject_some. lia.
  - done.
  - intros rest Hr. cbn [probe_one_key]. by rewrite snoc_rest, (simple_ends t _ Hap typed tk tn rest Htk Hr).
Qed.

Lemma discrete_stroke t kt :
  discrete_tables s = Some t -> discrete_checked s (typing_of s) = true -> typable s kt ->
  exists typed c,
    stroke 4 (probe_one_key (ProbeDiscrete t true (more (correction t) allow) force))
      (in_window (with_scheme s) (DiscreteKeyboard t) true) typed kt.1 kt.2 c /\
    zhuyin_for_pinyin (key_text kt.1) = Some c.
Proof using Type.
  intros Ht Hck (Hi & Hc & Hz & Hun & Htone & Hv). destruct kt as [k tn]. cbn [fst snd] in *.
  unfold discrete_checked in Hck. rewrite Ht in Hck.
  apply andb_true_iff in Hck as [[[[Hmid Hfin]%andb_true_iff Htc]%andb_true_iff Hlen]%andb_true_iff Hrows].
  apply Nat.eqb_eq in Hlen. destruct (tone_key _ _ Htc Htone) as [tk Htk].
  destruct (typable_row k Hi Hc Hz) as (c & f & Hrow & Hzk & Hk).
  apply list_elem_of_lookup in Hrow as [i Hrow].
  destruct (lookup_lt_is_Some_2 (typing_of s) i) as [typed Htyped]; [rewrite <- Hlen; by eapply lookup_lt_Some|].
  assert (Hzip : zip PLAIN_ROWS (typing_of s) !! i = Some ((c, c, key_text k, f), typed)).
  { apply lookup_zip_with_Some. by eexists _, _. }
  apply (forallb_lookup _ _ Hrows) in Hzip. unfold discrete_row_checked in Hzip. cbn [fst snd] in Hzip.
  rewrite bool_decide_false in Hzip by done. cbn [orb] in Hzip.
  apply andb_true_iff in Hzip as [[[Hl1 Hl2]%andb_true_iff Hw]%andb_true_iff Hone%bool_decide_eq_true].
  apply Nat.ltb_lt in Hl1. apply Nat.leb_le in Hl2. cbn [fst snd] in Hone. rewrite Hk in Hone.
  cbn [fmap option_fmap option_map] in Hone. assert (Hne : typed <> []) by (intros ->; cbn in Hl1; lia).
  exists (typed ++ [tk]), c. split; [|done]. split.
  - rewrite length_app. cbn [length]. lia.
  - rewrite forallb_app, Hw. cbn [forallb in_window]. rewrite Htk. by rewrite andb_true_r, orb_true_r.
  - cbn [probe_one_key]. rewrite (discrete_tone t _ Hmid Hfin typed tk tn k c Hne Htk (discrete_more _ _ _ _ _ _ Hone)).
    apply reject_some. lia.
  - done.
  - intros rest Hr. cbn [probe_one_key]. by rewrite snoc_rest, (discrete_ends t _ Hmid Hfin typed tk tn rest Hne Htk Hr).
Qed.
End scheme.

(** C36. Every zhuyin text can be typed. On the four simple and the three
    discrete keyboards any sequence of complete syllables the keyboard has keys
    for, each with one of its tones from first to neutral, has an input of at
    most four keystrokes a syllable that the batch parse takes whole and turns
    back into exactly those syllables and tones under their canonical
    spellings, whether or not incomplete keys are allowed or tones forced. *)
Theorem zhuyin_typing_round_trip (s : ZhuyinScheme) (ks : list (SyllableKey * Z)) (force allow : bool) :
  s <> StandardDvorak -> s <> DachenCp26 -> Forall (typable s) ks ->
  exists input zs,
    parse_detailed (with_scheme s) input true force allow = mk_zhuyin_parse zs (length input) /\
    (fun z => (key z, tone z)) <$> zs = ks /\
    Forall (fun z => zhuyin_for_pinyin (key_text (key z)) = Some (zhuyin z)) zs /\
    length input <= 4 * length ks.
Proof.
  intros Hs1 Hs2 Hks.
  assert (Hrun : forall k probe, keyboard s = Some k -> max_key_len k = 4 ->
    (forall input, window_and_probe (with_scheme s) k input true force allow
       = (take_while (in_window (with_scheme s) k true) input, probe)) ->
    (forall kt, typable s kt -> exists typed c,
       stroke 4 (probe_one_key probe) (in_window (with_scheme s) k true) typed kt.1 kt.2 c /\
       zhuyin_for_pinyin (key_text kt.1) = Some c) ->
    exists input zs,
      parse_detailed (with_scheme s) input true force allow = mk_zhuyin_parse zs (length input) /\
      (fun z => (key z, tone z)) <$> zs = ks /\
      Forall (fun z => zhuyin_for_pinyin (key_text (key z)) = Some (zhuyin z)) zs /\
      length input <= 4 * length ks).
  { intros k probe Hk Hmax Hwp Hex.
    destruct (typed_exists 4 _ _ (typable s) ks Hex Hks 0) as (input & zs & Hr & Hz & Hf & Hl).
    exists input, zs. split; [|done]. unfold parse_detailed. cbn [with_scheme scheme]. rewrite Hk, Hwp.
    rewrite (typed_window _ _ _ 0 input zs Hr), Hmax. apply greedy_keys_run; [lia|].
    exact (typed_walk 4 _ _ [] input zs Hr). }
  destruct s; try done.
  1,3,4,5: eapply Hrun; [reflexivity|reflexivity|by intros|];
    intros kt; eapply simple_stroke; [reflexivity| |reflexivity];
    apply (forallb_elem _ _ _ simples_checked); repeat constructor.
  all: eapply Hrun; [reflexivity|reflexivity|by intros|];
    intros kt; eapply discrete_stroke; [reflexivity|];
    apply (forallb_elem _ _ _ discretes_checked); repeat constructor.
Qed.

Definition zhuyin_sample : list (SyllableKey * Z) := Eval vm_compute in
  omap (fun e => (fun k => (k, e.2)) <$> from_canonical_text e.1) [(str "ni", 3%Z); (str "zhuang", 1%Z); (str "e", 4%Z)].

Lemma zhuyin_typing_round_trip_witness :
  (Hsu <> StandardDvorak /\ Hsu <> DachenCp26 /\ Forall (typable Hsu) zhuyin_sample) /\
  exists input zs, parse_detailed (with_scheme Hsu) input true true false = mk_zhuyin_parse zs (length input) /\
    (fun z => (key z, tone z)) <$> zs = zhuyin_sample.
Proof.
  assert (Hts : Forall (typable Hsu) zhuyin_sample).
  { repeat constructor; cbn [fst snd]; try (apply Nat.ltb_lt; vm_compute; reflexivity); try discriminate;
      try (vm_compute; reflexivity); try (vm_compute; by eexists); by apply (bool_decide_eq_false_1 _); vm_compute. }
  assert (H1 : Hsu <> StandardDvorak) by discriminate. assert (H2 : Hsu <> DachenCp26) by discriminate.
  split; [exact (conj H1 (conj H2 Hts))|].
  destruct (zhuyin_typing_round_trip Hsu zhuyin_sample true false H1 H2 Hts) as (input & zs & Hp & Hz & _).
  exists input, zs. split; [exact Hp|exact Hz].
Defined.

(** The keys of the example, typed by hand. *)
Example hsu_ni_zhuang_e :
  full_pinyin (parse (with_scheme Hsu) (str "nefjxk gj") true false) = str "ni'zhuang'e".
Proof. vm_compute. reflexivity. Qed.
