(* ===== verification/ZhuyinDirect.v ===== *)
(** * ZhuyinDirect: what is shown can be read back

    The walk of the direct parsers ends on every input, and over displayed
    syllables between separators it reads them back. *)

From Stdlib Require Import ZArith Lia Bool String Strings.Byte.
From stdpp Require Import base list strings.
From S2P Require Import Prelude ByteOrder Options SyllableData ContentData Chewing Syllables Vocab ZhuyinData Zhuyin ZhuyinSpec ZhuyinTyping.

(** ** The walk *)

Lemma position_drop_le {A} (p : A -> bool) l m n :
  m <= length l -> position p (drop m l) = Some n -> m + n < length l.
Proof.
  intros Hm Hp. pose proof (position_spec p (drop m l)) as H. rewrite Hp in H.
  destruct H as (x & Hx & _). apply lookup_lt_Some in Hx. rewrite length_drop in Hx. lia.
Qed.

(** The place after a key and the separators behind it. *)
Definition next_key (input : bytes) (next : nat) : nat :=
  match position (fun b => negb (separator b)) (drop next input) with
  | Some offset => next + offset | None => length input end.

Definition key_end (input : bytes) (cur : nat) : nat :=
  match position separator (drop cur input) with
  | Some offset => cur + offset | None => length input end.

(** Every turn moves on. *)
Lemma next_key_after input cur :
  cur < length input -> cur < next_key input (key_end input cur) <= length input.
Proof.
  intros Hc. unfold next_key, key_end. destruct (position separator (drop cur input)) as [n|] eqn:En.
  - pose proof (position_drop_le _ _ _ _ (Nat.lt_le_incl _ _ Hc) En) as Hn.
    destruct (position _ (drop (cur + n) input)) as [m|] eqn:Em; [|lia].
    pose proof (position_drop_le _ _ _ _ (Nat.lt_le_incl _ _ Hn) Em) as Hm. destruct m as [|m]; [|lia].
    pose proof (position_spec separator (drop cur input)) as Hs. rewrite En in Hs. destruct Hs as (x & Hx & Hsx).
    pose proof (position_spec (fun b => negb (separator b)) (drop (cur + n) input)) as Hm'. rewrite Em in Hm'.
    destruct Hm' as (y & Hy & Hsy). rewrite lookup_drop in Hx, Hy. rewrite Nat.add_0_r in Hy.
    rewrite Hx in Hy. injection Hy as ->. by rewrite Hsx in Hsy.
  - rewrite drop_ge by lia. cbn [position]. lia.
Qed.

(** Segments with separators between them, and maybe after the last. *)
Inductive separated : list bytes -> bytes -> Prop :=
  | separated_nil : separated [] []
  | separated_last d seps : forallb separator seps = true -> separated [d] (d ++ seps)
  | separated_cons d seps e es rest :
      seps <> [] -> forallb separator seps = true -> separated (e :: es) rest ->
      separated (d :: e :: es) (d ++ seps ++ rest).

Section walk.
Context {K : Type}.

Lemma direct_loop_step (parse_key : nat -> nat -> option K) fuel input cur ks :
  direct_loop parse_key (S fuel) input cur ks =
  (if length input <=? cur then (ks, cur)
   else match parse_key cur (key_end input cur) with
        | None => (ks, cur)
        | Some key => direct_loop parse_key fuel input (next_key input (key_end input cur))
                        (ks ++ [(key, (cur, key_end input cur))])
        end).
Proof. reflexivity. Qed.

(** Fuel past the bytes left does not matter. *)
Lemma direct_loop_fuel (parse_key : nat -> nat -> option K) input fuel fuel' cur ks :
  length input - cur < fuel -> length input - cur < fuel' ->
  direct_loop parse_key fuel input cur ks = direct_loop parse_key fuel' input cur ks.
Proof.
  revert fuel' cur ks. induction fuel as [|fuel IH]; intros [|fuel'] cur ks H H'; [lia..|].
  rewrite !direct_loop_step. destruct (Nat.leb_spec (length input) cur) as [|Hc]; [done|].
  destruct (parse_key _ _); [|done]. pose proof (next_key_after input cur Hc). apply IH; lia.
Qed.

Lemma position_skip {A} (p : A -> bool) l r :
  forallb (fun x => negb (p x)) l = true -> position p (l ++ r) = (fun n => length l + n) <$> position p r.
Proof.
  induction l as [|x l IH]; cbn [forallb app position length]; [by destruct (position p r)|].
  intros [Hx Hl]%andb_true_iff. apply negb_true_iff in Hx. rewrite Hx, IH by done.
  by destruct (position p r).
Qed.

Lemma position_head {A} (p : A -> bool) x l : p x = true -> position p (x :: l) = Some 0.
Proof. intros H. cbn [position]. by rewrite H. Qed.

(** Where a segment ends and the next begins. *)
Lemma segment_bounds pre d seps rest :
  forallb (fun b => negb (separator b)) d = true -> forallb separator seps = true ->
  (rest = [] \/ seps <> [] /\ exists b r, rest = b :: r /\ separator b = false) ->
  let input := pre ++ d ++ seps ++ rest in
  key_end input (length pre) = length pre + length d /\
  next_key input (length pre + length d) = length pre + length d + length seps.
Proof.
  intros Hd Hs Hrest input. unfold key_end, next_key, input. rewrite drop_app_length. split.
  - rewrite position_skip by done. destruct seps as [|b seps].
    + destruct Hrest as [->|[? _]]; [|done]. cbn. rewrite app_nil_r, length_app. lia.
    + cbn [forallb app] in *. apply andb_true_iff in Hs as [Hb _]. rewrite position_head by done. cbn. lia.
  - rewrite app_assoc, drop_app_ge by (rewrite length_app; lia). rewrite length_app, Nat.sub_diag, drop_0.
    rewrite position_skip.
    2: { apply forallb_forall. intros b Hb. apply (proj1 (forallb_forall _ _) Hs) in Hb. by rewrite Hb. }
    destruct Hrest as [->|(_ & b & r & -> & Hb)].
    + cbn. rewrite app_nil_r, !length_app. lia.
    + rewrite position_head by by rewrite Hb. cbn. lia.
Qed.

Lemma segment_subslice {A} (pre d rest : list A) :
  subslice (pre ++ d ++ rest) (length pre) (length pre + length d) = Some d.
Proof.
  unfold subslice. rewrite decide_True by (rewrite !length_app; lia). rewrite drop_app_length.
  replace (length pre + length d - length pre) with (length d) by lia. by rewrite take_app_length.
Qed.

Lemma slice_middle {A} (pre d rest : list A) :
  slice (pre ++ d ++ rest) (length pre) (length pre + length d) = d.
Proof.
  unfold slice. rewrite drop_app_length. replace (length pre + length d - length pre) with (length d) by lia.
  by rewrite take_app_length.
Qed.

Context (f : bytes -> option K).

(** A segment without separators that reads as a key. *)
Definition reads (segment : bytes) (k : K) : Prop :=
  segment <> [] /\ forallb (fun b => negb (separator b)) segment = true /\ f segment = Some k.

Lemma separated_head d k es input :
  separated (d :: es) input -> reads d k -> exists b r, input = b :: r /\ separator b = false.
Proof.
  intros H (Hne & Hns & _). assert (Hd : exists r, input = d ++ r) by (inversion H; subst; by eexists).
  destruct Hd as (r & ->). destruct d as [|b d]; [done|]. cbn [forallb] in Hns.
  apply andb_true_iff in Hns as [Hb%negb_true_iff _]. by exists b, (d ++ r).
Qed.

Lemma separated_walk pre es hs input acc fuel :
  separated es input -> Forall2 reads es hs -> length input < fuel ->
  exists ks, direct_loop (fun cur next => subslice (pre ++ input) cur next ≫= f) fuel (pre ++ input) (length pre) acc
      = (acc ++ ks, length (pre ++ input)) /\
    fst <$> ks = hs /\ (fun k => slice (pre ++ input) k.2.1 k.2.2) <$> ks = es.
Proof.
  intros H. revert pre hs acc fuel. induction H as [|d seps Hs|d seps e es rest Hne Hs Hrest IH];
    intros pre hs acc [|fuel] Hall Hf; try lia.
  { inversion Hall; subst. exists []. rewrite direct_loop_step, !app_nil_r.
    by rewrite (proj2 (Nat.leb_le _ _)) by lia. }
  all: apply Forall2_cons_inv_l in Hall as (k & hs' & (Hd & Hns & Hk) & Hall & ->);
    assert (0 < length d) by (destruct d; [done|simpl; lia]).
  - inversion Hall; subst.
    destruct (segment_bounds pre d seps [] Hns Hs (or_introl eq_refl)) as [He Hn]. rewrite app_nil_r in He, Hn.
    exists [(k, (length pre, length pre + length d))].
    rewrite direct_loop_step, He. rewrite (proj2 (Nat.leb_gt _ _)) by (rewrite !length_app; lia).
    rewrite segment_subslice. cbn [mbind option_bind]. rewrite Hk, Hn.
    assert (Hdone : forall fuel cur ks, length (pre ++ d ++ seps) <= cur ->
      direct_loop (fun cur next => subslice (pre ++ d ++ seps) cur next ≫= f) fuel (pre ++ d ++ seps) cur ks = (ks, cur)).
    { intros [|fuel'] cur ks Hc; [done|]. rewrite direct_loop_step. by rewrite (proj2 (Nat.leb_le _ _)) by lia. }
    rewrite Hdone by (rewrite !length_app; lia). split; [f_equal; rewrite !length_app; lia|]. split; [done|].
    rewrite list_fmap_singleton. cbn [fst snd]. by rewrite slice_middle.
  - destruct (segment_bounds pre d seps rest Hns Hs) as [He Hn].
    { right. split; [done|]. inversion Hall; subst. by eapply separated_head. }
    rewrite direct_loop_step, He. rewrite (proj2 (Nat.leb_gt _ _)) by (rewrite !length_app; lia).
    rewrite segment_subslice. cbn [mbind option_bind]. rewrite Hk, Hn.
    set (new := (k, (length pre, length pre + length d))).
    destruct (IH (pre ++ d ++ seps) hs' (acc ++ [new]) fuel Hall) as (ks & Hrun & Hks & Hsl); [rewrite !length_app in Hf; lia|].
    rewrite <- !app_assoc in Hrun, Hsl. rewrite !length_app in Hrun. rewrite Nat.add_assoc in Hrun.
    exists (new :: ks). split; [|split].
    + rewrite Hrun. rewrite <- app_assoc. cbn [app]. f_equal. rewrite !length_app. lia.
    + by rewrite fmap_cons, Hks.
    + rewrite fmap_cons, Hsl. cbn [fst snd new]. by rewrite slice_middle.
Qed.
End walk.

(** ** Displayed syllables *)

Definition high (b : byte) : bool := (128 <=? byte_val b)%Z.

Definition marks : list Z := [2; 3; 4; 5]%Z.

Definition body_checked (row : ZhuyinRow) : bool :=
  let c := row.1.1.1 in
  forallb high c && utf8_valid c && forallb (fun t => utf8_valid (c ++ tone_symbol t)) marks &&
  match last_char c with Some l => length l =? 3 | None => false end.

Lemma bodies_checked : forallb body_checked PLAIN_ROWS = true.
Proof. vm_compute. reflexivity. Qed.

Lemma high_no_separator l : forallb high l = true -> forallb (fun b => negb (separator b)) l = true.
Proof.
  intros H. apply forallb_forall. intros b Hb. apply (proj1 (forallb_forall _ _) H) in Hb.
  destruct b; (discriminate Hb || reflexivity).
Qed.

Lemma last_char_mark c t : t ∈ marks -> last_char (c ++ tone_symbol t) = Some (tone_symbol t).
Proof.
  intros Ht. assert (Hm : forall m, m <> [] -> c ++ m <> []) by (intros m Hm [_ ?]%app_nil; done).
  unfold marks in Ht. rewrite !elem_of_cons, elem_of_nil in Ht.
  destruct Ht as [->|[->|[->|[->|[]]]]]; unfold last_char; rewrite rev_app_distr; cbn;
    (destruct (c ++ _) eqn:E; [by apply (Hm _) in E|reflexivity]).
Qed.

Lemma mark_found t : t ∈ marks ->
  List.find (fun t' : Z => bool_decide (tone_symbol t' = tone_symbol t)) [1; 2; 3; 4; 5]%Z = Some t.
Proof.
  unfold marks. rewrite !elem_of_cons, elem_of_nil. intros [->|[->|[->|[->|[]]]]]; reflexivity.
Qed.

Lemma mark_missing l : length l = 3 ->
  List.find (fun t => bool_decide (tone_symbol t = l)) [1; 2; 3; 4; 5]%Z = None.
Proof.
  intros Hl. destruct (List.find _ _) as [t|] eqn:E; [|done].
  apply find_some in E as [Hin Ht%bool_decide_eq_true]. subst l.
  destruct Hin as [<-|[<-|[<-|[<-|[<-|[]]]]]]; discriminate Hl.
Qed.

(** The tone a displayed syllable reads back with. *)
Definition read_tone (t : Z) : Z := (if (2 <=? t) && (t <=? 5) then t else 1)%Z.

Lemma read_tone_mark t : (2 <=? t)%Z && (t <=? 5)%Z = true -> t ∈ marks.
Proof. intros [H1%Z.leb_le H2%Z.leb_le]%andb_true_iff. unfold marks. rewrite !elem_of_cons. lia. Qed.

#[local] Opaque search_zhuyin_index zhuyin_for_pinyin from_canonical_text SYLLABLE_KEY_COUNT key_text
  ZHUYIN_PINYIN_MAP PLAIN_ROWS.

Lemma displayed_reads k t d options :
  Vocab.index k < SYLLABLE_KEY_COUNT -> completeness k = Complete ->
  zhuyin_display_for_pinyin (key_text k) t = Some d -> contains options USE_TONE = true ->
  d <> [] /\ forallb (fun b => negb (separator b)) d = true /\ utf8_valid d = true /\
  parse_zhuyin_direct_key d options = Some (k, read_tone t).
Proof.
  intros Hi Hc Hd Hopt. unfold zhuyin_display_for_pinyin in Hd. apply bind_Some in Hd as (c & Hz & [= Hd]).
  destruct (typable_row k Hi Hc) as (c' & f & Hrow & Hzk & Hk); [by eexists|].
  rewrite Hz in Hzk. injection Hzk as <-.
  assert (Hsearch : forall o, search_zhuyin_index ZHUYIN_PINYIN_MAP c o = Some (k, c)) by (intros o; by apply (plain_search c f)).
  apply (forallb_elem _ _ _ bodies_checked) in Hrow. unfold body_checked in Hrow. cbn [fst snd] in Hrow.
  apply andb_true_iff in Hrow as [[[Hhigh Hu]%andb_true_iff Hum]%andb_true_iff Hlast].
  destruct (last_char c) as [l|] eqn:El; [|discriminate Hlast]. apply Nat.eqb_eq in Hlast.
  assert (Hne : c <> []) by (intros ->; discriminate El).
  assert (Hlen : (length c =? 0) = false) by (by destruct c).
  assert (Htone : (Z.land (Z.ldiff options PINYIN_AMB_ALL) USE_TONE =? 0)%Z = false).
  { rewrite <- (contains_ldiff options PINYIN_AMB_ALL USE_TONE eq_refl) in Hopt. by apply negb_true_iff in Hopt. }
  unfold parse_zhuyin_direct_key, read_tone. cbv zeta. rewrite Htone.
  destruct ((2 <=? t) && (t <=? 5))%Z eqn:Et; subst d.
  - apply read_tone_mark in Et. rewrite last_char_mark by done. cbn [mbind option_bind]. rewrite mark_found by done.
    rewrite length_app. replace (length c + length (tone_symbol t) - length (tone_symbol t)) with (length c) by lia.
    rewrite take_app_length, Hlen, Hsearch. split; [by intros [? _]%app_nil|]. split; [|split; [|done]].
    + apply high_no_separator. rewrite forallb_app, Hhigh. clear -Et. unfold marks in Et.
      rewrite !elem_of_cons, elem_of_nil in Et. destruct Et as [->|[->|[->|[->|[]]]]]; reflexivity.
    + exact (forallb_elem _ _ _ Hum Et).
  - rewrite El. cbn [mbind option_bind]. rewrite mark_missing by done. rewrite Hlen, Hsearch.
    split; [done|]. split; [by apply high_no_separator|done].
Qed.

(** The walk over shown segments, from the start. *)
Lemma shown_walk {K} (f : bytes -> option K) {E} (h : bytes * E -> K) (shown : list (bytes * E)) input :
  separated (fst <$> shown) input -> (forall e, e ∈ shown -> reads f e.1 (h e)) ->
  exists ks, direct_parse (fun cur next => subslice input cur next ≫= f) input = (ks, length input) /\
    fst <$> ks = h <$> shown /\ (fun k => slice input k.2.1 k.2.2) <$> ks = fst <$> shown.
Proof.
  intros Hs Hr. apply (separated_walk f [] (fst <$> shown) (h <$> shown) input [] (S (length input)) Hs); [|lia].
  clear Hs. induction shown as [|e shown IH]; [constructor|]. rewrite !fmap_cons. constructor; [apply Hr; by left|].
  apply IH. intros e' He'. apply Hr. by right.
Qed.

(** C37. What is shown can be read back. A text of displayed complete
    syllables, any separators between them and perhaps behind the last, parses
    under any word that uses tones to exactly those syllables, each with its
    tone, the unmarked ones with the first; the tool's view of it consumes the
    whole text and its spans cut out the displayed syllables. The walk of the
    direct parsers ends on every input whatever its key parser answers. *)
Theorem zhuyin_direct_round_trip (shown : list (bytes * (SyllableKey * Z))) (input : bytes) (options : Z) :
  contains options USE_TONE = true ->
  Forall (fun e => Vocab.index e.2.1 < SYLLABLE_KEY_COUNT /\ completeness e.2.1 = Complete /\
    zhuyin_display_for_pinyin (key_text e.2.1) e.2.2 = Some e.1) shown ->
  separated (fst <$> shown) input ->
  parse_zhuyin_direct input options = (fun e => (e.2.1, read_tone e.2.2)) <$> shown /\
  (let r := parse_direct input options true in
   tool_consumed r = length input /\
   tool_key <$> tool_keys r = (fun e => Chewing.with_tone (chewing_key e.2.1) (read_tone e.2.2)) <$> shown /\
   (fun k => slice input (span k).1 (span k).2) <$> tool_keys r = fst <$> shown) /\
  forall (K : Type) (parse_key : nat -> nat -> option K) text fuel, length text < fuel ->
    direct_loop parse_key fuel text 0 [] = direct_parse parse_key text.
Proof.
  intros Hopt Hshown Hsep. pose proof (fun e He => proj1 (Forall_forall _ _) Hshown e He) as Hall. cbv beta in Hall.
  split; [|split].
  - destruct (shown_walk (fun d => parse_zhuyin_direct_key d options) (fun e => (e.2.1, read_tone e.2.2)) shown input Hsep)
      as (ks & Hrun & Hks & _).
    { intros [d [k t]] He. destruct (Hall _ He) as (Hi & Hc & Hd).
      by destruct (displayed_reads k t d options Hi Hc Hd Hopt) as (H1 & H2 & _ & H4). }
    unfold parse_zhuyin_direct. rewrite Hrun. exact Hks.
  - set (f := fun segment : bytes => text ← from_utf8 segment; hit ← parse_zhuyin_direct_key text options;
      key ← from_pinyin (key_text hit.1); Some (Chewing.with_tone key hit.2)).
    destruct (shown_walk f (fun e => Chewing.with_tone (chewing_key e.2.1) (read_tone e.2.2)) shown input Hsep)
      as (ks & Hrun & Hks & Hsl).
    { intros [d [k t]] He. destruct (Hall _ He) as (Hi & Hc & Hd).
      destruct (displayed_reads k t d options Hi Hc Hd Hopt) as (H1 & H2 & H3 & H4). split; [done|]. split; [done|].
      unfold f, from_utf8. cbn [fst snd]. rewrite H3. cbn [mbind option_bind]. rewrite H4. cbn [mbind option_bind fst snd].
      by destruct (key_facts k Hi) as (_ & _ & _ & -> & _). }
    cbv zeta. unfold parse_direct. fold f. rewrite Hrun. cbn [tool_consumed tool_keys fst snd]. split; [done|].
    rewrite <- Hks, <- Hsl, <- !list_fmap_compose. done.
  - intros K parse_key text fuel Hf. unfold direct_parse. apply direct_loop_fuel; lia.
Qed.

Definition direct_sample : list (bytes * (SyllableKey * Z)) := Eval vm_compute in
  omap (fun e => k ← from_canonical_text e.1; d ← zhuyin_display_for_pinyin e.1 e.2; Some (d, (k, e.2)))
    [(str "ni", 3%Z); (str "zhuang", 0%Z); (str "er", 4%Z)].

Lemma zhuyin_direct_round_trip_witness :
  separated (fst <$> direct_sample) (str "ㄋㄧˇ' ㄓㄨㄤ ㄦˋ'") /\
  parse_zhuyin_direct (str "ㄋㄧˇ' ㄓㄨㄤ ㄦˋ'") USE_TONE = (fun e => (e.2.1, read_tone e.2.2)) <$> direct_sample.
Proof.
  assert (Hopt : contains USE_TONE USE_TONE = true) by (vm_compute; reflexivity).
  assert (Hs : separated (fst <$> direct_sample) (str "ㄋㄧˇ' ㄓㄨㄤ ㄦˋ'")).
  { change (separated [str "ㄋㄧˇ"; str "ㄓㄨㄤ"; str "ㄦˋ"]
      (str "ㄋㄧˇ" ++ str "' " ++ (str "ㄓㄨㄤ" ++ str " " ++ (str "ㄦˋ" ++ str "'")))).
    apply (separated_cons _ (str "' ")); [discriminate|reflexivity|].
    apply (separated_cons _ (str " ")); [discriminate|reflexivity|].
    apply (separated_last _ (str "'")). reflexivity. }
  assert (Hsh : Forall (fun e => Vocab.index e.2.1 < SYLLABLE_KEY_COUNT /\ completeness e.2.1 = Complete /\
    zhuyin_display_for_pinyin (key_text e.2.1) e.2.2 = Some e.1) direct_sample).
  { repeat constructor; cbn [fst snd]; try (apply Nat.ltb_lt; vm_compute; reflexivity); vm_compute; reflexivity. }
  split; [exact Hs|]. exact (proj1 (zhuyin_direct_round_trip direct_sample _ USE_TONE Hopt Hsh Hs)).
Defined.
