(* ===== verification/Ucs4.v ===== *)
(** * Ucs4: a phrase's text

    [crates/oxpinyin-core/src/ucs4.rs]: ordinary text, or the stored UCS-4
    words behind their declared count. A [str] is its characters; its bytes
    are their UTF-8 forms. *)

From Stdlib Require Import ZArith Lia Bool Strings.Byte.
From stdpp Require Import base list.
From S2P Require Import Prelude ByteOrder.

(** ** Characters and comparison *)

(** A Unicode scalar value, and [char::from_u32]. *)
Definition is_char (w : Z) : bool :=
  ((0 <=? w) && (w <? 55296) || (57344 <=? w) && (w <=? 1114111))%Z.

Definition char_from_u32 (w : Z) : option Z := if is_char w then Some w else None.

(** [char::encode_utf8], as byte values. *)
Definition utf8_units (c : Z) : list Z :=
  if (c <? 128)%Z then [c]
  else if (c <? 2048)%Z then [192 + c / 64; 128 + c mod 64]%Z
  else if (c <? 65536)%Z then [224 + c / 4096; 128 + c / 64 mod 64; 128 + c mod 64]%Z
  else [240 + c / 262144; 128 + c / 4096 mod 64; 128 + c / 64 mod 64; 128 + c mod 64]%Z.

Definition as_bytes (text : list Z) : bytes := text ≫= fun c => byte_of <$> utf8_units c.

Definition str_cmp (left right : list Z) : comparison :=
  lex_compare (byte_val <$> as_bytes left) (byte_val <$> as_bytes right).

Definition str_eq (left right : list Z) : bool :=
  bool_decide (as_bytes left = as_bytes right).

(** ** The text *)

Inductive PhraseText : Type :=
  | Scalar (text : list Z)
  | Stored (buffer : list Z).

Definition nonzero (w : Z) : bool := negb (w =? 0)%Z.

Definition scalar_outward (text : list Z) : list Z := take_while nonzero text.

Definition stored_outward (buffer : list Z) : list Z := take_while nonzero (drop 1 buffer).

Definition stored (words : list Z) (length : nat) : PhraseText :=
  Stored (Z.min u32_max (Z.of_nat length) :: words).

Definition from_stored_parts (words : list Z) (length : nat) : PhraseText := stored words length.

(** The loop of [from_stored_words]: the text so far, the raw words once one
    is not a nonzero scalar, whether a zero was met, and the count. *)
Fixpoint from_stored_loop (words : list (option Z)) (text : list Z) (raw : option (list Z))
    (past_zero : bool) (total : nat) : option PhraseText :=
  match words with
  | [] => Some (match raw with Some words => stored words total | None => Scalar text end)
  | None :: _ => None
  | Some word :: rest =>
      let total := usat_add total 1 in
      if negb past_zero && (2147483648 <=? word)%Z then None
      else
        let past_zero := past_zero || (word =? 0)%Z in
        match raw with
        | Some raw => from_stored_loop rest text (Some (raw ++ [word])) past_zero total
        | None =>
            match char_from_u32 word with
            | Some character =>
                if nonzero word then from_stored_loop rest (text ++ [character]) None past_zero total
                else from_stored_loop rest text (Some (text ++ [word])) past_zero total
            | None => from_stored_loop rest text (Some (text ++ [word])) past_zero total
            end
        end
  end.

Definition from_stored_words (words : list (option Z)) : option PhraseText :=
  from_stored_loop words [] None false 0.

Definition from_words (words : list Z) : option PhraseText := from_stored_words (Some <$> words).

Definition as_str (t : PhraseText) : option (list Z) :=
  match t with Scalar text => Some text | Stored _ => None end.

Definition outward_bytes (t : PhraseText) : option bytes :=
  match t with Scalar text => Some (as_bytes text) | Stored _ => None end.

Definition stored_words (t : PhraseText) : option (list Z) :=
  match t with Stored buffer => Some (drop 1 buffer) | Scalar _ => None end.

Definition outward_words (t : PhraseText) : list Z :=
  match t with Stored buffer => stored_outward buffer | Scalar text => text end.

Definition phrase_length (t : PhraseText) : nat :=
  match t with
  | Scalar text => length text
  | Stored buffer =>
      let first := default 0%Z (head buffer) in
      if (first =? 0)%Z then length buffer - 1 else Z.to_nat first
  end.

(** [From<CompactString>]. *)
Definition from_str (text : list Z) : PhraseText :=
  if existsb (fun b => (byte_val b =? 0)%Z) (as_bytes text) then stored text (length text)
  else Scalar text.

Definition skip_chars (t : PhraseText) (count : nat) : PhraseText :=
  match as_str t with
  | Some text => from_str (drop count text)
  | None => stored (drop count (outward_words t)) (phrase_length t - count)
  end.

Definition char_count (t : PhraseText) : option nat :=
  match t with Stored _ => None | Scalar _ => Some (phrase_length t) end.

Definition is_empty (t : PhraseText) : bool :=
  match outward_bytes t with
  | Some bytes => bool_decide (bytes = [])
  | None => bool_decide (head (outward_words t) = None)
  end.

Record PhraseTextConcat : Type := {
  concat_scalar : list Z;
  concat_words : option (list Z);
  concat_length : nat
}.

Definition concat_new : PhraseTextConcat :=
  {| concat_scalar := []; concat_words := None; concat_length := 0 |}.

Definition switch_to_words (c : PhraseTextConcat) : PhraseTextConcat :=
  match concat_words c with
  | None => {| concat_scalar := []; concat_words := Some (concat_scalar c);
               concat_length := concat_length c |}
  | Some _ => c
  end.

Definition extend_words (c : PhraseTextConcat) (part : PhraseText) : PhraseTextConcat :=
  {| concat_scalar := concat_scalar c;
     concat_words := (fun words => words ++ outward_words part) <$> concat_words c;
     concat_length := concat_length c |}.

Definition concat_push (c : PhraseTextConcat) (part : PhraseText) : PhraseTextConcat :=
  let c := {| concat_scalar := concat_scalar c; concat_words := concat_words c;
              concat_length := usat_add (concat_length c) (phrase_length part) |} in
  match part with
  | Stored _ => extend_words (switch_to_words c) part
  | Scalar text =>
      match concat_words c with
      | Some _ => extend_words c part
      | None => {| concat_scalar := concat_scalar c ++ text; concat_words := None;
                   concat_length := concat_length c |}
      end
  end.

Definition concat_finish (c : PhraseTextConcat) : PhraseText :=
  match concat_words c with
  | Some words => from_stored_parts words (concat_length c)
  | None => Scalar (concat_scalar c)
  end.

(** [PartialEq], [PartialEq<str>], [Ord] and [Hash]; a hash is the sequence
    of writes it makes. *)
Definition eq_stored (a b : PhraseText) : bool :=
  match a, b with
  | Stored l, Stored r => bool_decide (stored_outward l = stored_outward r)
  | _, _ => bool_decide (outward_words a = outward_words b)
  end.

Definition text_eq (a b : PhraseText) : bool :=
  match as_str a, as_str b with
  | Some l, Some r => str_eq l r
  | _, _ => eq_stored a b
  end.

Definition eq_str (a : PhraseText) (other : list Z) : bool :=
  let other := scalar_outward other in
  match outward_bytes a with
  | Some bytes => bool_decide (bytes = as_bytes other)
  | None => bool_decide (outward_words a = other)
  end.

Definition text_cmp (a b : PhraseText) : comparison :=
  match as_str a, as_str b with
  | Some l, Some r => str_cmp l r
  | _, _ =>
      match a, b with
      | Stored l, Stored r => lex_compare (stored_outward l) (stored_outward r)
      | _, _ => lex_compare (outward_words a) (outward_words b)
      end
  end.

Definition hash_str (text : list Z) : list bytes := [as_bytes text; [xff]].

Definition hash_words (words : list Z) : list bytes :=
  [le_bytes 8 (Z.of_nat (length words)); words ≫= le32].

Definition hash (t : PhraseText) : list bytes :=
  match t with
  | Scalar text => hash_str text
  | Stored buffer =>
      let words := stored_outward buffer in
      match mapM char_from_u32 words with
      | Some text => hash_str text
      | None => [x01] :: hash_words words
      end
  end.

(** ** Well-formed texts: what the private storage holds *)

Definition text_char (c : Z) : bool := is_char c && nonzero c.

Definition text_ok (t : PhraseText) : Prop :=
  match t with
  | Scalar text => forallb text_char text = true
  | Stored buffer => Forall is_u32 buffer /\ buffer <> []
  end.

(** ** Order *)

(** The bytes of a character are in range. *)
Lemma is_char_range c : is_char c = true -> (0 <= c <= 1114111)%Z.
Proof. unfold is_char. rewrite orb_true_iff, !andb_true_iff, !Z.leb_le, Z.ltb_lt. lia. Qed.

Lemma utf8_units_range c :
  (0 <= c <= 1114111)%Z -> Forall (fun u => 0 <= u < 256)%Z (utf8_units c).
Proof.
  intros H. unfold utf8_units.
  repeat case_match; rewrite ?Z.ltb_lt, ?Z.ltb_ge in *; repeat constructor; div_lia.
Qed.

(** UTF-8 keeps the order of the characters. *)
Lemma utf8_units_lt c d l k :
  (0 <= c)%Z -> (c < d)%Z -> (d <= 1114111)%Z ->
  lex_compare (utf8_units c ++ l) (utf8_units d ++ k) = Lt.
Proof.
  intros Hc Hcd Hd. unfold utf8_units.
  destruct (Z.ltb_spec c 128), (Z.ltb_spec d 128); try lia;
  destruct (Z.ltb_spec c 2048), (Z.ltb_spec d 2048); try lia;
  destruct (Z.ltb_spec c 65536), (Z.ltb_spec d 65536); try lia; cbn [app];
  repeat (apply lex_step; [div_lia|intros ?]); exfalso; div_lia.
Qed.

Lemma as_bytes_values text :
  forallb is_char text = true -> byte_val <$> as_bytes text = text ≫= utf8_units.
Proof.
  intros H. unfold as_bytes. induction text as [|c text IH]; [done|].
  cbn [forallb] in H. apply andb_true_iff in H as [Hc H].
  rewrite !bind_cons, fmap_app, IH by done. f_equal.
  rewrite <- list_fmap_compose.
  pose proof (utf8_units_range c (is_char_range c Hc)) as Hr.
  induction Hr as [|u us Hu _ IHu]; [done|]. rewrite fmap_cons, IHu. f_equal. unfold compose.
  rewrite byte_val_of. by apply Z.mod_small.
Qed.

Lemma utf8_units_cons c : exists u us, utf8_units c = u :: us.
Proof. unfold utf8_units. repeat case_match; eauto. Qed.

Lemma str_cmp_chars l k :
  forallb is_char l = true -> forallb is_char k = true -> str_cmp l k = lex_compare l k.
Proof.
  intros Hl Hk. unfold str_cmp. rewrite !as_bytes_values by done.
  revert k Hk. induction l as [|c l IH]; intros [|d k] Hk.
  - done.
  - rewrite bind_cons. destruct (utf8_units_cons d) as (u & us & ->). done.
  - rewrite bind_cons. destruct (utf8_units_cons c) as (u & us & ->). done.
  - cbn [forallb] in *. apply andb_true_iff in Hl as [Hc%is_char_range Hl].
    apply andb_true_iff in Hk as [Hd%is_char_range Hk].
    rewrite !bind_cons. cbn [lex_compare]. destruct (Z.compare_spec c d) as [->|Hlt|Hgt].
    + rewrite lex_compare_app. by apply IH.
    + apply utf8_units_lt; lia.
    + rewrite lex_compare_antisym, utf8_units_lt by lia. done.
Qed.

Lemma as_bytes_inj l k :
  forallb is_char l = true -> forallb is_char k = true -> as_bytes l = as_bytes k -> l = k.
Proof.
  intros Hl Hk H. apply lex_compare_eq. rewrite <- str_cmp_chars by done.
  unfold str_cmp. rewrite H. apply lex_compare_refl.
Qed.

Lemma str_eq_chars l k :
  forallb is_char l = true -> forallb is_char k = true -> str_eq l k = bool_decide (l = k).
Proof.
  intros Hl Hk. unfold str_eq. apply bool_decide_ext. split; [by apply as_bytes_inj|by intros ->].
Qed.

(** ** Words *)

Lemma take_while_all {A} (p : A -> bool) l : forallb p l = true -> take_while p l = l.
Proof.
  induction l as [|x l IH]; [done|]. cbn. intros [-> H]%andb_true_iff. by rewrite IH.
Qed.

Lemma take_while_idemp {A} (p : A -> bool) l : forallb p (take_while p l) = true.
Proof. induction l as [|x l IH]; [done|]. cbn. destruct (p x) eqn:E; [|done]. cbn. by rewrite E. Qed.

Lemma text_char_split text :
  forallb text_char text = true <-> forallb is_char text = true /\ forallb nonzero text = true.
Proof.
  unfold text_char. induction text as [|c text IH]; [done|]. cbn.
  rewrite !andb_true_iff, IH. tauto.
Qed.

Lemma scalar_ok text : text_ok (Scalar text) -> forallb is_char text = true.
Proof. cbn. by rewrite text_char_split; intros []. Qed.

Lemma mapM_chars words text :
  mapM char_from_u32 words = Some text <-> text = words /\ forallb is_char words = true.
Proof.
  rewrite mapM_Some. split.
  - intros H. induction H as [|w c ws cs Hw _ [-> IH]]; [done|].
    unfold char_from_u32 in Hw. destruct (is_char w) eqn:E; simplify_eq. cbn. by rewrite E.
  - intros [-> H]. induction words as [|w ws IH]; [constructor|]. cbn in H.
    apply andb_true_iff in H as [Hw H]. constructor; [|auto]. unfold char_from_u32. by rewrite Hw.
Qed.

Lemma outward_nonzero t : text_ok t -> forallb nonzero (outward_words t) = true.
Proof.
  destruct t as [text|buffer]; cbn; [by intros [_ ?]%text_char_split|].
  intros _. apply take_while_idemp.
Qed.

(** The two comparisons of a scalar and a stored text read outward words. *)
Lemma text_eq_outward a b :
  text_ok a -> text_ok b -> text_eq a b = bool_decide (outward_words a = outward_words b).
Proof.
  intros Ha Hb. destruct a, b; cbn; try done. by apply str_eq_chars; apply scalar_ok.
Qed.

Lemma text_cmp_outward a b :
  text_ok a -> text_ok b -> text_cmp a b = lex_compare (outward_words a) (outward_words b).
Proof.
  intros Ha Hb. destruct a, b; cbn; try done. by apply str_cmp_chars; apply scalar_ok.
Qed.

(** A hash is a function of the outward words. *)
Definition hash_outward (words : list Z) : list bytes :=
  if forallb is_char words then hash_str words else [x01] :: hash_words words.

Lemma hash_is_outward t : text_ok t -> hash t = hash_outward (outward_words t).
Proof.
  unfold hash_outward. destruct t as [text|buffer]; intros H.
  - cbn [hash outward_words]. by rewrite scalar_ok.
  - cbn [hash outward_words]. destruct (mapM char_from_u32 (stored_outward buffer)) as [text|] eqn:E.
    + apply mapM_chars in E as [-> ->]. done.
    + destruct (forallb is_char (stored_outward buffer)) eqn:Ef; [|done].
      assert (mapM char_from_u32 (stored_outward buffer) = Some (stored_outward buffer)) as E'
        by by apply mapM_chars.
      congruence.
Qed.

(** Whatever mix of representations holds them, two texts compare as
    their code points before the first zero do: [cmp] is the lexicographic
    order on those words although ordinary texts compare as UTF-8 bytes,
    [==] is their equality and so agrees with [cmp], and equal texts make
    the same writes to a hasher. *)
Theorem phrase_text_order (a b : PhraseText) :
  text_ok a -> text_ok b ->
  text_cmp a b = lex_compare (outward_words a) (outward_words b) /\
  (text_eq a b = true <-> outward_words a = outward_words b) /\
  (text_eq a b = true <-> text_cmp a b = Eq) /\
  text_cmp b a = CompOpp (text_cmp a b) /\
  (text_eq a b = true -> hash a = hash b).
Proof.
  intros Ha Hb. rewrite text_eq_outward, bool_decide_eq_true, !text_cmp_outward by done.
  rewrite !hash_is_outward, lex_compare_eq by done.
  repeat split; try done; [apply lex_compare_antisym|by intros ->].
Qed.

Lemma phrase_text_order_witness :
  let a := Scalar [20320; 22909]%Z in
  let b := Stored [3; 20320; 22909; 0]%Z in
  (text_ok a /\ text_ok b) /\ text_eq a b = true /\ text_cmp a b = Eq /\ hash a = hash b.
Proof.
  set (a := Scalar _). set (b := Stored _). cbv zeta.
  assert (Ha : text_ok a) by reflexivity.
  assert (Hb : text_ok b) by (split; [rewrite !Forall_cons, Forall_nil; repeat split; done|done]).
  pose proof (phrase_text_order a b Ha Hb) as (_ & Heq & Hcmp & _ & Hhash).
  assert (He : text_eq a b = true) by (apply Heq; reflexivity).
  split; [by split|]. split; [done|]. split; [by apply Hcmp|by apply Hhash].
Defined.

(** ** Building texts *)

Lemma text_char_word w : text_char w = true <-> char_from_u32 w = Some w /\ nonzero w = true.
Proof.
  unfold text_char, char_from_u32. destruct (is_char w); cbn; [tauto|]. split; [done|by intros []].
Qed.

Lemma char_from_u32_same w c : char_from_u32 w = Some c -> c = w /\ is_char w = true.
Proof. unfold char_from_u32. destruct (is_char w); [by intros [= ->]|done]. Qed.

(** What the loop keeps: the words read so far, as text while every one is a
    nonzero scalar, as raw words from the first that is not. *)
Definition loop_raw (words : list Z) : option (list Z) :=
  if forallb text_char words then None else Some words.

Definition below_cut (words : list Z) : bool :=
  forallb (fun w => w <? 2147483648)%Z (take_while nonzero words).

Definition text_of_words (words : list Z) : PhraseText :=
  if forallb text_char words then Scalar words else stored words (length words).

Lemma below_cut_snoc words w :
  below_cut (words ++ [w]) =
  below_cut words && (negb (forallb nonzero words) || (w <? 2147483648)%Z).
Proof.
  unfold below_cut. induction words as [|x words IH].
  - cbn. unfold nonzero. destruct (Z.eqb_spec w 0) as [->|]; [done|]. cbn. by rewrite andb_true_r.
  - cbn. destruct (nonzero x); [|done]. cbn. rewrite IH. by rewrite andb_assoc.
Qed.

Lemma below_cut_app words rest : below_cut (words ++ rest) = true -> below_cut words = true.
Proof.
  revert words. induction rest as [|w rest IH]; intros words; [by rewrite app_nil_r|].
  rewrite (cons_middle w words rest), app_assoc. intros H%IH.
  rewrite below_cut_snoc in H. by apply andb_true_iff in H as [H _].
Qed.

Lemma from_stored_loop_spec rest words text :
  fits (words ++ rest) ->
  below_cut words = true ->
  (forallb text_char words = true -> text = words) ->
  from_stored_loop (Some <$> rest) text (loop_raw words) (negb (forallb nonzero words))
    (length words) =
  if below_cut (words ++ rest) then Some (text_of_words (words ++ rest)) else None.
Proof.
  revert words text. induction rest as [|w rest IH]; intros words text Hfit Hcut Htext.
  { rewrite app_nil_r, Hcut. cbn. unfold loop_raw, text_of_words.
    destruct (forallb text_char words) eqn:E; [by rewrite Htext|done]. }
  rewrite fmap_cons. cbn [from_stored_loop].
  rewrite (usat_add_fits (words ++ w :: rest)) by (rewrite ?length_app; cbn; done || lia).
  rewrite negb_involutive.
  assert (Happ : words ++ w :: rest = (words ++ [w]) ++ rest) by (by rewrite <- app_assoc).
  assert (Hlen : length words + 1 = length (words ++ [w])) by (rewrite length_app; cbn; lia).
  pose proof (below_cut_snoc words w) as Hsnoc. rewrite Hcut in Hsnoc. cbn [andb] in Hsnoc.
  destruct (forallb nonzero words && (2147483648 <=? w)%Z) eqn:Ecut.
  { apply andb_true_iff in Ecut as [En Ew%Z.leb_le].
    destruct (below_cut (words ++ w :: rest)) eqn:E; [|done].
    rewrite Happ in E. apply below_cut_app in E. rewrite Hsnoc, En in E. cbn in E.
    apply Z.ltb_lt in E. lia. }
  assert (Hcut' : below_cut (words ++ [w]) = true).
  { rewrite Hsnoc. destruct (forallb nonzero words); [|done]. cbn in *.
    apply Z.leb_gt in Ecut. by apply Z.ltb_lt. }
  assert (Hpast : negb (forallb nonzero words) || (w =? 0)%Z
                  = negb (forallb nonzero (words ++ [w]))).
  { rewrite forallb_app. cbn. rewrite andb_true_r, negb_andb. unfold nonzero at 3.
    by rewrite negb_involutive. }
  rewrite Hpast, Hlen, Happ. rewrite Happ in Hfit.
  assert (Hall : forallb text_char (words ++ [w]) = forallb text_char words && text_char w).
  { rewrite forallb_app. cbn. by rewrite andb_true_r. }
  assert (Hraw : loop_raw (words ++ [w]) = if forallb text_char words && text_char w then None
                 else Some (words ++ [w])) by (unfold loop_raw; by rewrite Hall).
  unfold loop_raw at 1. destruct (forallb text_char words) eqn:Ew; cbn [andb] in Hraw.
  - rewrite Htext by done. destruct (text_char w) eqn:Ec.
    + apply text_char_word in Ec as [-> ->]. rewrite <- Hraw. apply IH; auto.
    + rewrite <- Hraw. destruct (char_from_u32 w) as [c|] eqn:E.
      * apply char_from_u32_same in E as [-> E]. unfold text_char in Ec. rewrite E in Ec. cbn in Ec.
        rewrite Ec. apply IH; auto. rewrite Hall. done.
      * apply IH; auto. rewrite Hall. done.
  - rewrite <- Hraw. apply IH; auto. rewrite Hall. done.
Qed.

Lemma from_words_spec words :
  fits words ->
  from_words words = if below_cut words then Some (text_of_words words) else None.
Proof. intros H. by apply (from_stored_loop_spec words []). Qed.

(** ** Concatenation and suffixes *)

Definition concat_parts (parts : list PhraseText) : PhraseText :=
  concat_finish (fold_left concat_push parts concat_new).

Definition is_scalar (t : PhraseText) : bool :=
  match t with Scalar _ => true | Stored _ => false end.

(** What a concatenation holds after some parts. *)
Definition concat_holds (parts : list PhraseText) (c : PhraseTextConcat) : Prop :=
  concat_length c = sum_list_with phrase_length parts /\
  if forallb is_scalar parts
  then concat_words c = None /\ concat_scalar c = (parts ≫= outward_words)
  else concat_words c = Some (parts ≫= outward_words).

Lemma concat_holds_push parts part c :
  (Z.of_nat (sum_list_with phrase_length (parts ++ [part])) <= isize_max)%Z ->
  concat_holds parts c -> concat_holds (parts ++ [part]) (concat_push c part).
Proof.
  unfold concat_holds. rewrite sum_list_with_app, bind_app, bind_singleton, forallb_app.
  cbn [sum_list_with forallb]. rewrite Nat.add_0_r, andb_true_r.
  intros Hfit [Hlen H].
  assert (Hadd : usat_add (concat_length c) (phrase_length part)
                 = sum_list_with phrase_length parts + phrase_length part).
  { rewrite Hlen. unfold usat_add, checked_add. rewrite checked_usize_small by lia. lia. }
  unfold concat_push. destruct (forallb is_scalar parts); cbn [andb].
  - destruct H as [Hw Hs]. rewrite Hw, Hs.
    destruct part; cbn [is_scalar]; (split; [by cbn; rewrite Hw || cbn; rewrite ?Hadd|]);
      cbn; rewrite ?Hw; done.
  - rewrite H. destruct part; cbn; rewrite ?Hadd; (split; [done|]); by rewrite ?H.
Qed.

Lemma concat_holds_all parts :
  (Z.of_nat (sum_list_with phrase_length parts) <= isize_max)%Z ->
  concat_holds parts (fold_left concat_push parts concat_new).
Proof.
  induction parts as [|part parts IH] using rev_ind; intros Hfit; [done|].
  rewrite fold_left_app. apply concat_holds_push; [done|]. apply IH.
  rewrite sum_list_with_app in Hfit. lia.
Qed.

Lemma phrase_length_stored words n :
  (Z.of_nat n <= u32_max)%Z -> (n = 0 -> words = []) ->
  phrase_length (stored words n) = n.
Proof.
  intros Hn H0. cbn. rewrite Z.min_r by done. destruct (Z.eqb_spec (Z.of_nat n) 0) as [E|E]; [|lia].
  rewrite H0 by lia. cbn. lia.
Qed.

Lemma stored_ok words n : Forall is_u32 words -> text_ok (stored words n).
Proof.
  intros H. split; [|done]. constructor; [|done]. width_lia.
Qed.

(** A text of no declared length has no outward words. *)
Lemma phrase_length_zero t :
  text_ok t -> phrase_length t = 0 -> outward_words t = [].
Proof.
  destruct t as [text|[|n words]]; cbn.
  - intros _. apply nil_length_inv.
  - by intros [].
  - intros [[Hn _]%Forall_cons _]. destruct (Z.eqb_spec n 0) as [->|]; [|unfold is_u32 in Hn; lia].
    intros H. destruct words; [done|]. cbn in H. lia.
Qed.

Lemma outward_u32 t : text_ok t -> Forall is_u32 (outward_words t).
Proof.
  destruct t as [text|buffer]; cbn.
  - rewrite text_char_split. intros [H _]. apply Forall_forall. intros c Hc.
    pose proof (forallb_elem _ _ _ H Hc) as Hr%is_char_range. unfold is_u32, u32_size. lia.
  - intros [H _]. unfold stored_outward. apply (Forall_drop _ 1) in H.
    induction H as [|w ws Hw _ IH]; [done|]. cbn. destruct (nonzero w); constructor; auto.
Qed.

Lemma concat_parts_text parts :
  (Z.of_nat (sum_list_with phrase_length parts) <= u32_max)%Z ->
  Forall text_ok parts ->
  text_ok (concat_parts parts) /\
  outward_words (concat_parts parts) = parts ≫= outward_words /\
  phrase_length (concat_parts parts) = sum_list_with phrase_length parts.
Proof.
  intros Hsum Hok. unfold concat_parts.
  pose proof (concat_holds_all parts ltac:(unfold u32_max, u32_size, isize_max in *; lia)) as [Hlen H].
  assert (Hnz : forallb nonzero (parts ≫= outward_words) = true).
  { clear -Hok. induction Hok as [|p ps Hp _ IH]; [done|].
    by rewrite bind_cons, forallb_app, outward_nonzero, IH. }
  unfold concat_finish. destruct (forallb is_scalar parts) eqn:E.
  - destruct H as [-> ->].
    assert (text_ok (Scalar (parts ≫= outward_words))
            /\ length (parts ≫= outward_words) = sum_list_with phrase_length parts) as [Ht Hl].
    { clear -Hok E. induction Hok as [|p ps Hp _ IH]; [done|]. cbn [forallb] in E.
      apply andb_true_iff in E as [Ep E]. destruct p as [text|]; [|done].
      destruct (IH E) as [IH1 IH2]. cbn [text_ok] in *. rewrite bind_cons, forallb_app, length_app.
      cbn [outward_words sum_list_with phrase_length]. by rewrite Hp, IH1, IH2. }
    by rewrite <- Hl.
  - rewrite H, Hlen. unfold from_stored_parts. split; [|split].
    + apply stored_ok. clear -Hok. induction Hok as [|p ps Hp _ IH]; [constructor|].
      rewrite bind_cons. apply Forall_app. split; [by apply outward_u32|done].
    + cbn. unfold stored_outward. cbn [drop]. by apply take_while_all.
    + apply phrase_length_stored; [done|]. intros H0. clear -Hok H0.
      induction Hok as [|p ps Hp _ IH]; [done|]. cbn [sum_list_with] in H0.
      rewrite bind_cons, phrase_length_zero by (done || lia). apply IH. lia.
Qed.

(** [From<CompactString>] keeps a text without a zero as it is. *)
Lemma from_str_scalar text : text_ok (Scalar text) -> from_str text = Scalar text.
Proof.
  intros H. unfold from_str. destruct (existsb _ _) eqn:E; [|done]. exfalso.
  apply existsb_exists in E as (b & Hb%list_elem_of_In & Hz%Z.eqb_eq).
  assert (Hin : (0%Z ∈ (byte_val <$> as_bytes text))) by (rewrite <- Hz; by apply list_elem_of_fmap_2).
  rewrite as_bytes_values in Hin by by apply scalar_ok.
  apply list_elem_of_bind in Hin as (c & Hc & Hmem). cbn in H.
  pose proof (forallb_elem _ _ _ H Hmem) as [Hr%is_char_range Hn]%andb_true_iff.
  unfold nonzero in Hn. apply negb_true_iff, Z.eqb_neq in Hn. revert Hc. unfold utf8_units.
  repeat case_match; rewrite ?Z.ltb_lt, ?Z.ltb_ge in *; rewrite ?elem_of_cons, ?elem_of_nil; div_lia.
Qed.

Lemma take_while_drop {A} (p : A -> bool) l n :
  take_while p (drop n (take_while p l)) = drop n (take_while p l).
Proof.
  apply take_while_all. pose proof (take_while_idemp p l) as H.
  rewrite <- (take_drop n (take_while p l)), forallb_app in H.
  by apply andb_true_iff in H as [_ H].
Qed.

Lemma skip_chars_outward t n :
  text_ok t -> outward_words (skip_chars t n) = drop n (outward_words t).
Proof.
  intros H. destruct t as [text|buffer]; unfold skip_chars; cbn [as_str].
  - rewrite from_str_scalar; [done|]. cbn in *.
    rewrite <- (take_drop n text), forallb_app in H. by apply andb_true_iff in H as [_ H].
  - cbn [outward_words stored]. apply take_while_drop.
Qed.

Lemma skip_chars_text t n :
  text_ok t -> (Z.of_nat (phrase_length t) <= u32_max)%Z ->
  let rest := drop n (outward_words t) in
  text_ok (skip_chars t n) /\ outward_words (skip_chars t n) = rest /\
  phrase_length (skip_chars t n) =
    (if phrase_length t <=? n then length rest else phrase_length t - n) /\
  as_str (skip_chars t n) = drop n <$> as_str t /\
  stored_words (skip_chars t n) = (fun _ => rest) <$> stored_words t.
Proof.
  intros H Hfit. cbv zeta. split; [|split; [by apply skip_chars_outward|]].
  - destruct t as [text|buffer]; unfold skip_chars; cbn [as_str].
    + assert (text_ok (Scalar (drop n text))) as Hd; [|by rewrite from_str_scalar].
      cbn in *. rewrite <- (take_drop n text), forallb_app in H. by apply andb_true_iff in H as [_ H].
    + apply stored_ok, Forall_drop. by apply (outward_u32 (Stored buffer)).
  - destruct t as [text|buffer]; unfold skip_chars; cbn [as_str].
    + rewrite from_str_scalar.
      2: { cbn in *. rewrite <- (take_drop n text), forallb_app in H. by apply andb_true_iff in H as [_ H]. }
      cbn [phrase_length outward_words]. rewrite length_drop. destruct (Nat.leb_spec (length text) n); done.
    + split; [|done]. set (len := phrase_length (Stored buffer)) in *. cbn [phrase_length stored head default].
      rewrite Z.min_r by lia. destruct (Nat.leb_spec len n) as [Hle|Hlt].
      * replace (len - n) with 0 by lia. change (length (drop n (outward_words (Stored buffer))) - 0 = length (drop n (outward_words (Stored buffer)))). lia.
      * rewrite (proj2 (Z.eqb_neq _ _)) by (unfold id; lia). apply Nat2Z.id.
Qed.

Lemma text_of_words_reads words :
  (Z.of_nat (length words) <= u32_max)%Z -> Forall is_u32 words ->
  text_ok (text_of_words words) /\
  outward_words (text_of_words words) = take_while nonzero words /\
  phrase_length (text_of_words words) = length words.
Proof.
  intros Hlen Hu. unfold text_of_words. destruct (forallb text_char words) eqn:E.
  - pose proof E as [_ Hn]%text_char_split. cbn. by rewrite take_while_all.
  - split; [by apply stored_ok|]. split; [done|]. apply phrase_length_stored; [done|].
    apply nil_length_inv.
Qed.

(** C22. Phrase text keeps the stored words. Reading words accepts exactly
    those whose values before the first zero lie below 0x80000000, gives
    ordinary text exactly when every word is a nonzero scalar, and then the
    text answers the words up to the first zero and the full declared
    length; concatenating texts concatenates their outward words and adds
    their lengths. Skipping characters of any such text drops that many
    outward words and takes that many from its length; where nothing is left
    of the length, a stored text counts the words left over. It keeps ordinary
    text ordinary and stores the words left over of the rest. Each of the
    three gives a well-formed text again. *)
Theorem text_words (words : list Z) (parts : list PhraseText) (n : nat) :
  Forall is_u32 words -> (Z.of_nat (length words) <= u32_max)%Z ->
  Forall text_ok parts ->
  (Z.of_nat (sum_list_with phrase_length parts) <= u32_max)%Z ->
  (from_words words = None <-> Exists (fun w => 2147483648 <= w)%Z (take_while nonzero words)) /\
  (forall t, from_words words = Some t ->
     text_ok t /\ outward_words t = take_while nonzero words /\
     phrase_length t = length words /\
     stored_words t = if forallb text_char words then None else Some words) /\
  (let t := concat_parts parts in
   text_ok t /\ outward_words t = parts ≫= outward_words /\
   phrase_length t = sum_list_with phrase_length parts /\
   outward_words (skip_chars t n) = drop n (parts ≫= outward_words)) /\
  (forall t, text_ok t -> (Z.of_nat (phrase_length t) <= u32_max)%Z ->
   let rest := drop n (outward_words t) in
   text_ok (skip_chars t n) /\ outward_words (skip_chars t n) = rest /\
   phrase_length (skip_chars t n) =
     (if phrase_length t <=? n then length rest else phrase_length t - n) /\
   as_str (skip_chars t n) = drop n <$> as_str t /\
   stored_words (skip_chars t n) = (fun _ => rest) <$> stored_words t).
Proof.
  intros Hu Hlen Hok Hsum.
  rewrite from_words_spec by (unfold fits; unfold u32_max, u32_size, isize_max in *; lia).
  split; [|split; [|split]].
  - unfold below_cut. destruct (forallb _ (take_while nonzero words)) eqn:E.
    + split; [done|]. intros (w & Hw & Hge)%Exists_exists.
      pose proof (forallb_elem _ _ _ E Hw) as H%Z.ltb_lt. lia.
    + split; [intros _|done].
      destruct (decide (Exists (fun w => 2147483648 <= w)%Z (take_while nonzero words)))
        as [|Hno%not_Exists_Forall]; [done| |tc_solve].
      assert (forallb (fun w => w <? 2147483648)%Z (take_while nonzero words) = true) as E'; [|congruence].
      apply forallb_forall. intros w Hw%list_elem_of_In. rewrite Forall_forall in Hno.
      specialize (Hno w Hw). cbn in Hno. apply Z.ltb_lt. lia.
  - destruct (below_cut words); [|done]. intros t [= <-].
    pose proof (text_of_words_reads words Hlen Hu) as (? & ? & ?). repeat split; try done.
    unfold text_of_words. by destruct (forallb text_char words).
  - cbv zeta. pose proof (concat_parts_text parts Hsum Hok) as (Ht & Ho & Hl).
    repeat split; try done. by rewrite skip_chars_outward, Ho.
  - intros t. apply skip_chars_text.
Qed.

Lemma text_words_witness :
  let words := [20320; 0; 55296]%Z in
  let parts := [Scalar [22909]%Z; Stored [4; 97; 0; 5]%Z] in
  from_words words <> None /\
  outward_words (concat_parts parts) = [22909; 97]%Z /\ phrase_length (concat_parts parts) = 5 /\
  phrase_length (skip_chars (concat_parts parts) 1) = 4 /\
  stored_words (skip_chars (concat_parts parts) 1) = Some [97%Z].
Proof.
  cbv zeta.
  pose proof (text_words [20320; 0; 55296]%Z [Scalar [22909]%Z; Stored [4; 97; 0; 5]%Z] 1)
    as (H1 & _ & (Ht & Ho & Hl & _) & Hskip).
  - rewrite !Forall_cons, Forall_nil. repeat split; done.
  - done.
  - rewrite !Forall_cons, Forall_nil. split; [done|]. split; [|done].
    split; [|done]. rewrite !Forall_cons, Forall_nil. repeat split; done.
  - done.
  - destruct (Hskip _ Ht) as (_ & _ & Hs & _ & Hw); [rewrite Hl; done|].
    split; [|split; [exact Ho|split; [exact Hl|split; [rewrite Hs, Hl; reflexivity|rewrite Hw, Ho; reflexivity]]]].
    rewrite H1.
    change (take_while nonzero [20320; 0; 55296]%Z) with [20320%Z].
    rewrite Exists_cons, Exists_nil. intros [H|[]]. lia.
Defined.
