(* ===== verification/Constraint.v ===== *)
(** * Constraint: the forced runs of a composition

    [crates/oxpinyin-engine/src/constraint.rs]: one cell per matrix column;
    a [OneStep] forces a token over a span, the interior of the span points
    back at it. [None] as the answer of an operation is a panic (a slice
    range whose start lies past its end, an index out of range). *)

From Stdlib Require Import ZArith Lia Bool.
From stdpp Require Import base list sorting.
From S2P Require Import Prelude Ucs4.

Inductive Cell : Type :=
  | Free
  | OneStep (token : Z) (end_ : nat) (text : PhraseText)
  | NoSearch (start : nat).

Record PhraseSpan : Type := {
  span_start : nat;
  span_token : Z;
  span_text : PhraseText
}.

Record ConstraintStore : Type := { cells : list Cell }.

Definition store_new : ConstraintStore := {| cells := [] |}.

Definition is_free (cell : Cell) : bool := match cell with Free => true | _ => false end.

Definition is_active (s : ConstraintStore) : bool :=
  existsb (fun cell => negb (is_free cell)) (cells s).

Definition clear (s : ConstraintStore) : ConstraintStore := {| cells := [] |}.

Definition cell (s : ConstraintStore) (index : nat) : option Cell := cells s !! index.

Definition cell_count (s : ConstraintStore) : nat := length (cells s).

Definition one_step_token_at (s : ConstraintStore) (index : nat) : option Z :=
  match cell s index with Some (OneStep token _ _) => Some token | _ => None end.

Definition is_one_step_at (s : ConstraintStore) (index : nat) : bool :=
  match cell s index with Some (OneStep _ _ _) => true | _ => false end.

Definition store_resize (s : ConstraintStore) (len : nat) : ConstraintStore :=
  {| cells := resize len Free (cells s) |}.

(** [for cell in &mut self.cells[from..to] { *cell = Cell::None }]. *)
Definition free_range (s : ConstraintStore) (from to : nat) : option ConstraintStore :=
  if decide (from <= to <= length (cells s)) then
    Some {| cells := take from (cells s) ++ replicate (to - from) Free ++ drop to (cells s) |}
  else None.

Definition clear_by_offset (s : ConstraintStore) (index : nat)
    : option (ConstraintStore * bool) :=
  match (match cells s !! index with
         | Some (NoSearch start) => Some start
         | Some (OneStep _ _ _) => Some index
         | _ => None
         end) with
  | None => Some (s, false)
  | Some run_start =>
      match cells s !! run_start with
      | Some (OneStep _ end_ _) =>
          s' ← free_range s run_start (Nat.min end_ (length (cells s)));
          Some (s', true)
      | _ => Some (s, false)
      end
  end.

Fixpoint clear_each (s : ConstraintStore) (indexes : list nat) : option ConstraintStore :=
  match indexes with
  | [] => Some s
  | index :: rest => p ← clear_by_offset s index; clear_each p.1 rest
  end.

(** [self.cells[index] = value]. *)
Definition put_cell (s : ConstraintStore) (index : nat) (value : Cell) : option ConstraintStore :=
  if decide (index < length (cells s)) then Some {| cells := <[index := value]> (cells s) |}
  else None.

Fixpoint put_each (s : ConstraintStore) (indexes : list nat) (value : Cell)
    : option ConstraintStore :=
  match indexes with
  | [] => Some s
  | index :: rest => s ← put_cell s index value; put_each s rest value
  end.

Definition add (s : ConstraintStore) (start end_ : nat) (token : Z) (text : PhraseText)
    : option (ConstraintStore * nat) :=
  if decide (length (cells s) < end_ \/ end_ <= start) then Some (s, 0)
  else
    s ← clear_each s (seq start (end_ - start));
    s ← put_cell s start (OneStep token end_ text);
    s ← put_each s (seq (start + 1) (end_ - (start + 1))) (NoSearch start);
    Some (s, end_ - start).

(** The runs, left to right. *)
Definition run : Type := nat * nat * Z * PhraseText.

Definition run_of (p : nat * Cell) : option run :=
  match p with
  | (start, OneStep token end_ text) => Some (start, end_, token, text)
  | _ => None
  end.

Definition runs (s : ConstraintStore) : list run :=
  omap run_of (imap (fun index cell => (index, cell)) (cells s)).

Section validate.
Context {E : Type} (still_spells : nat -> nat -> Z -> nat -> result bool E).

(** The pass over the gathered forcings. *)
Fixpoint validate_each (s : ConstraintStore) (forcings : list run) (dropped : bool)
    : option (ConstraintStore * result bool E) :=
  match forcings with
  | [] => Some (s, Ok dropped)
  | (index, end_, token, text) :: rest =>
      let spells := still_spells index end_ token (phrase_length text) in
      let overruns := length (cells s) <=? end_ in
      let drop_run :=
        s' ← free_range s index (Nat.min end_ (length (cells s)));
        validate_each s' rest true in
      if overruns then drop_run
      else
        match spells with
        | Err e => Some (s, Err e)
        | Ok true => validate_each s rest dropped
        | Ok false => drop_run
        end
  end.

Definition validate (s : ConstraintStore) (len : nat)
    : option (ConstraintStore * result bool E) :=
  let s := store_resize s len in validate_each s (runs s) false.
End validate.

(** [diff_result]: the loop over the chosen row's phrases. *)
Definition best_token (best : list PhraseSpan) (start : nat) : option Z :=
  span_token <$> List.find (fun candidate => span_start candidate =? start) best.

Fixpoint diff_loop (s : ConstraintStore) (best other : list PhraseSpan) (tail : nat)
    (changed : bool) : option (ConstraintStore * bool) :=
  match other with
  | [] => Some (s, changed)
  | span :: rest =>
      if bool_decide (best_token best (span_start span) = Some (span_token span))
      then diff_loop s best rest tail changed
      else
        let next_pos := match rest with [] => tail | next :: _ => span_start next end in
        p ← add s (span_start span) next_pos (span_token span) (span_text span);
        diff_loop p.1 best rest tail ((0 <? p.2) || changed)
  end.

Definition diff_result (s : ConstraintStore) (best other : list PhraseSpan) (tail : nat)
    : option (ConstraintStore * bool) := diff_loop s best other tail false.

(** ** The invariant: cells and runs describe each other *)

(** The run a cell belongs to. *)
Definition run_start (l : list Cell) (index : nat) : option nat :=
  match l !! index with
  | Some (NoSearch start) => Some start
  | Some (OneStep _ _ _) => Some index
  | _ => None
  end.

Record cells_ok (l : list Cell) : Prop := {
  ok_one_step : forall i t e x, l !! i = Some (OneStep t e x) ->
    i < e /\ forall j, i < j < e -> j < length l -> l !! j = Some (NoSearch i);
  ok_no_search : forall i s, l !! i = Some (NoSearch s) ->
    s < i /\ exists t e x, l !! s = Some (OneStep t e x) /\ i < e
}.

Definition store_ok (s : ConstraintStore) : Prop := cells_ok (cells s).

(** The cells once the runs picked by [dead] are cleared whole. *)
Definition erased (dead : nat -> bool) (start : option nat) (c : Cell) : Cell :=
  match start with Some s => if dead s then Free else c | None => c end.

Definition erase (l : list Cell) (dead : nat -> bool) : list Cell :=
  imap (fun j c => erased dead (run_start l j) c) l.

Lemma length_erase l dead : length (erase l dead) = length l.
Proof. apply length_imap. Qed.

Lemma erase_lookup l dead j :
  erase l dead !! j = erased dead (run_start l j) <$> l !! j.
Proof. unfold erase. by rewrite list_lookup_imap. Qed.

Lemma erase_ext l d1 d2 : (forall s, d1 s = d2 s) -> erase l d1 = erase l d2.
Proof.
  intros H. apply list_eq. intros j. rewrite !erase_lookup. unfold erased.
  destruct (run_start l j); [by rewrite H|done].
Qed.

Lemma erase_nothing l : erase l (fun _ => false) = l.
Proof.
  apply list_eq. intros j. rewrite erase_lookup. unfold erased.
  destruct (l !! j), (run_start l j); done.
Qed.

Section ok_cells.
Context (l : list Cell) (Hok : cells_ok l).

(** A cell belongs to the run whose span covers it. *)
Lemma run_start_spec j s :
  run_start l j = Some s <->
  exists t e x, l !! s = Some (OneStep t e x) /\ s <= j < e /\ j < length l.
Proof using Hok.
  unfold run_start. split.
  - destruct (l !! j) as [[|t e x|s']|] eqn:E; try done; intros [= <-].
    + pose proof (ok_one_step _ Hok _ _ _ _ E) as [Hlt _].
      pose proof (lookup_lt_Some _ _ _ E). exists t, e, x. auto with lia.
    + pose proof (ok_no_search _ Hok _ _ E) as (Hlt & t & e & x & Hs & He).
      pose proof (lookup_lt_Some _ _ _ E). exists t, e, x. auto with lia.
  - intros (t & e & x & Hs & Hj & Hlen). destruct (decide (s = j)) as [->|Hne]; [by rewrite Hs|].
    pose proof (ok_one_step _ Hok _ _ _ _ Hs) as [_ Hin]. rewrite Hin by lia. done.
Qed.

Lemma run_start_self s t e x : l !! s = Some (OneStep t e x) -> run_start l s = Some s.
Proof using Type. intros H. unfold run_start. by rewrite H. Qed.

Lemma erase_lookup_one_step dead j t e x :
  erase l dead !! j = Some (OneStep t e x) <-> l !! j = Some (OneStep t e x) /\ dead j = false.
Proof using Type.
  rewrite erase_lookup. unfold erased, run_start.
  destruct (l !! j) as [[|t' e' x'|s']|]; cbn; [|destruct (dead j) eqn:Ed|destruct (dead s') eqn:Ed|];
    (split; [intros [=]|intros [[=] ?]]; subst; auto; congruence).
Qed.

Lemma erase_lookup_no_search dead j s :
  erase l dead !! j = Some (NoSearch s) <-> l !! j = Some (NoSearch s) /\ dead s = false.
Proof using Type.
  rewrite erase_lookup. unfold erased, run_start.
  destruct (l !! j) as [[|t' e' x'|s']|]; cbn;
    [|destruct (dead j) eqn:Ed|destruct (dead s') eqn:Ed|];
    (split; [intros [=]|intros [[=] ?]]; subst; auto; congruence).
Qed.

Lemma erase_ok dead : cells_ok (erase l dead).
Proof using Hok.
  split.
  - intros i t e x [H Hd]%erase_lookup_one_step.
    destruct (ok_one_step _ Hok _ _ _ _ H) as [Hlt Hin]. split; [done|].
    intros j Hj Hlen. rewrite length_erase in Hlen.
    apply erase_lookup_no_search. auto.
  - intros i s [H Hd]%erase_lookup_no_search.
    destruct (ok_no_search _ Hok _ _ H) as (Hlt & t & e & x & Hs & He). split; [done|].
    exists t, e, x. by rewrite erase_lookup_one_step.
Qed.

Lemma run_start_erase dead j :
  run_start (erase l dead) j =
  match run_start l j with Some s => if dead s then None else Some s | None => None end.
Proof using Type.
  unfold run_start at 1. rewrite erase_lookup. unfold erased, run_start.
  destruct (l !! j) as [[|t e x|s]|]; cbn; [|destruct (dead j)|destruct (dead s)|]; done.
Qed.

Lemma erase_erase d1 d2 : erase (erase l d1) d2 = erase l (fun s => d1 s || d2 s).
Proof using Type.
  apply list_eq. intros j. rewrite erase_lookup, run_start_erase, !erase_lookup.
  destruct (l !! j) as [c|]; [|done]. cbn. f_equal. unfold erased.
  destruct (run_start l j) as [s|]; [|done]. by destruct (d1 s), (d2 s).
Qed.

(** Freeing a run's span, clipped to the array, clears that run. *)
Lemma free_range_run s t e x :
  l !! s = Some (OneStep t e x) ->
  free_range {| cells := l |} s (Nat.min e (length l))
    = Some {| cells := erase l (fun s' => s' =? s) |}.
Proof using Hok.
  intros Hs. pose proof (ok_one_step _ Hok _ _ _ _ Hs) as [Hlt _].
  pose proof (lookup_lt_Some _ _ _ Hs) as Hlen.
  unfold free_range. cbn [cells]. rewrite decide_True by lia. do 2 f_equal.
  set (m := Nat.min e (length l)).
  assert (Hm : m = e /\ e <= length l \/ m = length l /\ length l <= e) by lia.
  apply list_eq. intros j. rewrite erase_lookup.
  destruct (decide (j < s)) as [Hj|Hj]; [|destruct (decide (j < m)) as [Hjm|Hjm]].
  - rewrite lookup_app_l by (rewrite length_take; lia). rewrite lookup_take_lt by lia.
    destruct (l !! j) as [c|]; [|done]. cbn. f_equal. unfold erased.
    destruct (run_start l j) as [s'|] eqn:E; [|done]. apply run_start_spec in E as (? & ? & ? & _ & ? & _).
    rewrite (proj2 (Nat.eqb_neq s' s)) by lia. done.
  - rewrite lookup_app_r, length_take by (rewrite length_take; lia).
    rewrite lookup_app_l by (rewrite length_replicate; lia).
    rewrite lookup_replicate_2 by lia.
    destruct (lookup_lt_is_Some_2 l j) as [c Hc]; [lia|]. rewrite Hc. cbn. f_equal.
    assert (run_start l j = Some s) as -> by (apply run_start_spec; exists t, e, x; repeat split; done || lia).
    unfold erased. by rewrite Nat.eqb_refl.
  - rewrite lookup_app_r, length_take by (rewrite length_take; lia).
    rewrite lookup_app_r, length_replicate by (rewrite length_replicate; lia).
    rewrite lookup_drop. replace (m + _) with j by lia.
    destruct (l !! j) as [c|] eqn:Hc; [|done]. cbn. f_equal. unfold erased.
    destruct (run_start l j) as [s'|] eqn:E; [|done].
    destruct (Nat.eqb_spec s' s) as [->|]; [|done].
    apply run_start_spec in E as (t' & e' & x' & Hs' & Hj' & Hl'). simplify_eq. lia.
Qed.

Lemma clear_by_offset_erase i :
  clear_by_offset {| cells := l |} i =
  Some ({| cells := erase l (fun s => bool_decide (run_start l i = Some s)) |},
        bool_decide (is_Some (run_start l i))).
Proof using Hok.
  unfold clear_by_offset. cbn [cells].
  change (match l !! i with Some (NoSearch start) => Some start | Some (OneStep _ _ _) => Some i
          | _ => None end) with (run_start l i).
  destruct (run_start l i) as [s|] eqn:E.
  - pose proof E as (t & e & x & Hs & _)%run_start_spec. rewrite Hs, (free_range_run s t e x) by done.
    cbn. do 3 f_equal.
    apply erase_ext. intros s'. destruct (Nat.eqb_spec s' s) as [->|];
      [by rewrite bool_decide_true|by rewrite bool_decide_false by congruence].
  - rewrite bool_decide_false by by apply is_Some_None. do 3 f_equal.
    rewrite (erase_ext l _ (fun _ => false)); [by rewrite erase_nothing|done].
Qed.
End ok_cells.

(** Whether some position of a list lies in the run at [s]. *)
Definition hits (l : list Cell) (indexes : list nat) (s : nat) : bool :=
  existsb (fun k => bool_decide (run_start l k = Some s)) indexes.

Lemma clear_each_erase l indexes :
  cells_ok l ->
  clear_each {| cells := l |} indexes = Some {| cells := erase l (hits l indexes) |}.
Proof.
  revert l. induction indexes as [|k rest IH]; intros l Hok; cbn [clear_each].
  { unfold hits. cbn. by rewrite erase_nothing. }
  rewrite (clear_by_offset_erase l Hok). cbn [mbind option_bind fst].
  rewrite IH by by apply erase_ok. rewrite erase_erase. do 2 f_equal. apply erase_ext.
  intros s. unfold hits at 2. cbn [existsb].
  destruct (bool_decide_reflect (run_start l k = Some s)) as [|Hk]; [done|]. cbn.
  clear IH. unfold hits. induction rest as [|k' rest' IHr]; [done|]. cbn [existsb]. f_equal.
  - apply bool_decide_ext. rewrite run_start_erase by done.
    destruct (run_start l k') as [s'|]; [|done]. case_bool_decide; split; intros; simplify_eq; done.
  - done.
Qed.

(** ** Writing a run *)

Definition written (start end_ : nat) (token : Z) (text : PhraseText) (j : nat) (c : Cell) : Cell :=
  if decide (j = start) then OneStep token end_ text
  else if decide (start < j < end_) then NoSearch start else c.

Definition write_run (l : list Cell) (start end_ : nat) (token : Z) (text : PhraseText) : list Cell :=
  imap (written start end_ token text) l.

Lemma put_each_seq l a n v :
  a + n <= length l ->
  put_each {| cells := l |} (seq a n) v
    = Some {| cells := imap (fun j c => if decide (a <= j < a + n) then v else c) l |}.
Proof.
  revert a l. induction n as [|n IH]; intros a l Hlen; cbn [seq put_each].
  - do 2 f_equal. apply list_eq. intros j. rewrite list_lookup_imap.
    destruct (l !! j); [|done]. cbn. by rewrite decide_False by lia.
  - unfold put_cell at 1. cbn [cells]. rewrite decide_True by lia. cbn [mbind option_bind].
    rewrite IH by (rewrite length_insert; lia). do 2 f_equal. apply list_eq. intros j.
    rewrite !list_lookup_imap. destruct (decide (j = a)) as [->|Hne].
    + rewrite list_lookup_insert_eq by lia.
      destruct (lookup_lt_is_Some_2 l a) as [c Hc]; [lia|]. rewrite Hc. cbn.
      by rewrite decide_False, decide_True by lia.
    + rewrite list_lookup_insert_ne by done. destruct (l !! j); [|done]. cbn. f_equal.
      repeat case_decide; done || lia.
Qed.

Lemma write_run_lookup l start end_ token text j :
  write_run l start end_ token text !! j = written start end_ token text j <$> l !! j.
Proof. apply list_lookup_imap. Qed.

Lemma length_write_run l start end_ token text :
  length (write_run l start end_ token text) = length l.
Proof. apply length_imap. Qed.

(** The cells once the runs meeting a span are gone. *)
Definition vacated (l : list Cell) (start end_ : nat) : list Cell :=
  erase l (hits l (seq start (end_ - start))).

Lemma add_spec l start end_ token text :
  cells_ok l -> end_ <= length l -> start < end_ ->
  add {| cells := l |} start end_ token text =
  Some ({| cells := write_run (vacated l start end_) start end_ token text |}, end_ - start).
Proof.
  intros Hok Hlen Hlt. unfold add. cbn [cells]. rewrite decide_False by lia.
  rewrite clear_each_erase by done. cbn [mbind option_bind]. fold (vacated l start end_).
  assert (Hlv : length (vacated l start end_) = length l) by apply length_erase.
  unfold put_cell. cbn [cells]. rewrite decide_True by (rewrite Hlv; lia). cbn [mbind option_bind].
  rewrite put_each_seq by (rewrite length_insert, Hlv; lia). cbn. do 3 f_equal.
  apply list_eq. intros j. rewrite list_lookup_imap, write_run_lookup. unfold written.
  destruct (decide (j = start)) as [->|Hne].
  - rewrite list_lookup_insert_eq by lia.
    destruct (lookup_lt_is_Some_2 (vacated l start end_) start) as [c Hc]; [lia|]. rewrite Hc. cbn.
    by rewrite decide_False by lia.
  - rewrite list_lookup_insert_ne by done. destruct (vacated l start end_ !! j); [|done]. cbn.
    f_equal. repeat case_decide; done || lia.
Qed.

Lemma vacated_free l start end_ j :
  start <= j < end_ -> run_start (vacated l start end_) j = None.
Proof.
  intros Hj. unfold vacated. rewrite run_start_erase.
  destruct (run_start l j) as [s|] eqn:E; [|done].
  assert (hits l (seq start (end_ - start)) s = true) as ->; [|done].
  apply existsb_exists. exists j. split; [apply in_seq; lia|by apply bool_decide_eq_true].
Qed.

Lemma write_run_ok l start end_ token text :
  cells_ok l -> start < end_ ->
  (forall j, start <= j < end_ -> run_start l j = None) ->
  cells_ok (write_run l start end_ token text).
Proof.
  intros Hok Hlt Hfree.
  assert (Hout : forall j s, run_start l j = Some s -> j < start \/ end_ <= j).
  { intros j s Hj. destruct (decide (start <= j < end_)) as [H|]; [|lia].
    rewrite Hfree in Hj by done. done. }
  split.
  - intros i t e x. rewrite write_run_lookup. unfold written.
    destruct (l !! i) as [c|] eqn:Hi; [|done]. cbn. intros [= H].
    destruct (decide (i = start)) as [->|Hne].
    { injection H as -> -> ->. split; [done|]. intros j Hj Hl. rewrite length_write_run in Hl.
      destruct (lookup_lt_is_Some_2 l j Hl) as [c' Hc']. rewrite write_run_lookup, Hc'. cbn.
      unfold written. by rewrite decide_False, decide_True by lia. }
    destruct (decide (start < i < end_)); [done|]. subst c.
    destruct (ok_one_step _ Hok _ _ _ _ Hi) as [Hie Hin]. split; [done|].
    intros j Hj Hl. rewrite length_write_run in Hl. specialize (Hin j Hj Hl).
    rewrite write_run_lookup, Hin. cbn. f_equal. unfold written.
    pose proof (Hout j i ltac:(unfold run_start; by rewrite Hin)).
    by rewrite !decide_False by lia.
  - intros i s. rewrite write_run_lookup. unfold written.
    destruct (l !! i) as [c|] eqn:Hi; [|done]. cbn. intros [= H].
    pose proof (lookup_lt_Some _ _ _ Hi) as Hil.
    destruct (decide (i = start)) as [->|Hne]; [done|].
    destruct (decide (start < i < end_)) as [Hr|Hr].
    { injection H as <-. split; [lia|]. exists token, end_, text. split; [|lia].
      destruct (lookup_lt_is_Some_2 l start) as [c' Hc']; [lia|]. rewrite write_run_lookup, Hc'. cbn.
      unfold written. by rewrite decide_True. }
    subst c. destruct (ok_no_search _ Hok _ _ Hi) as (Hsi & t & e & x & Hs & He).
    split; [done|]. exists t, e, x. split; [|done]. rewrite write_run_lookup, Hs. cbn. f_equal.
    unfold written. pose proof (Hout s s ltac:(by eapply run_start_self)).
    by rewrite !decide_False by lia.
Qed.

(** Every run lies inside the array. *)
Definition whole (l : list Cell) : Prop :=
  forall i t e x, l !! i = Some (OneStep t e x) -> e <= length l.

Lemma resize_lookup l len i c :
  c <> Free -> resize len Free l !! i = Some c <-> i < len /\ l !! i = Some c.
Proof.
  intros Hc. destruct (decide (i < len)) as [Hi|Hi]; [|split; [|lia]].
  - destruct (decide (i < length l)) as [Hl|Hl].
    + rewrite lookup_resize by done. tauto.
    + rewrite lookup_resize_new by lia. rewrite (lookup_ge_None_2 l i) by lia.
      split; [|by intros []]. intros [=]. congruence.
  - intros H%lookup_lt_Some. rewrite length_resize in H. lia.
Qed.

Lemma resize_cells_ok l len :
  cells_ok l -> whole l \/ len <= length l -> cells_ok (resize len Free l).
Proof.
  intros Hok Hw. split.
  - intros i t e x [Hi H]%resize_lookup; [|done].
    destruct (ok_one_step _ Hok _ _ _ _ H) as [Hlt Hin]. split; [done|].
    intros j Hj Hl. rewrite length_resize in Hl. apply resize_lookup; [done|].
    split; [done|]. apply Hin; [done|]. destruct Hw as [Hw|Hw]; [|lia].
    pose proof (Hw _ _ _ _ H). lia.
  - intros i s [Hi H]%resize_lookup; [|done].
    destruct (ok_no_search _ Hok _ _ H) as (Hlt & t & e & x & Hs & He). split; [done|].
    exists t, e, x. split; [|done]. apply resize_lookup; [done|]. split; [lia|done].
Qed.

(** ** Runs *)

Lemma elem_of_runs l s e t x :
  (s, e, t, x) ∈ runs {| cells := l |} <-> l !! s = Some (OneStep t e x).
Proof.
  unfold runs. cbn [cells]. rewrite list_elem_of_omap. split.
  - intros ([j c] & Hin & Hr). apply elem_of_lookup_imap in Hin as (k & c' & [= -> ->] & Hk).
    destruct c'; try done. cbn in Hr. by simplify_eq.
  - intros H. exists (s, OneStep t e x). split; [|done].
    apply elem_of_lookup_imap. eauto.
Qed.

Lemma runs_increase_from k l :
  StronglySorted (fun r r' : run => r.1.1.1 < r'.1.1.1)
    (omap run_of (imap (fun index cell => (k + index, cell)) l)).
Proof.
  revert k. induction l as [|c l IH]; intros k; [constructor|].
  cbn [imap]. cbn [omap list_omap].
  assert (Heq : imap ((fun index cell => (k + index, cell)) ∘ S) l
                = imap (fun index cell => (S k + index, cell)) l).
  { apply imap_ext. intros i x _. cbn. f_equal. lia. }
  rewrite Heq. destruct c; cbn [run_of]; [apply IH| |apply IH].
  constructor; [apply IH|]. apply Forall_forall. intros [[[s e] t] x] Hr.
  apply list_elem_of_omap in Hr as ([j c] & Hin & Hr).
  apply elem_of_lookup_imap in Hin as (m & c' & [= -> ->] & _).
  destruct c'; try done. cbn in Hr. simplify_eq. cbn. lia.
Qed.

Lemma runs_increase s : StronglySorted (fun r r' : run => r.1.1.1 < r'.1.1.1) (runs s).
Proof. apply (runs_increase_from 0). Qed.

Lemma runs_disjoint l s e t x s' e' t' x' :
  cells_ok l -> l !! s = Some (OneStep t e x) -> l !! s' = Some (OneStep t' e' x') ->
  s < s' -> e <= s'.
Proof.
  intros Hok Hs Hs' Hlt. destruct (decide (e <= s')) as [|Hn]; [done|].
  destruct (ok_one_step _ Hok _ _ _ _ Hs) as [_ Hin].
  rewrite (Hin s') in Hs' by (lia || by eapply lookup_lt_Some). done.
Qed.

Lemma runs_erase l dead s e t x :
  (s, e, t, x) ∈ runs {| cells := erase l dead |} <->
  (s, e, t, x) ∈ runs {| cells := l |} /\ dead s = false.
Proof. by rewrite !elem_of_runs, erase_lookup_one_step. Qed.

(** A run survives the clearing of a span exactly when it is disjoint. *)
Lemma hits_spec l start end_ s t e x :
  cells_ok l -> end_ <= length l -> start < end_ -> l !! s = Some (OneStep t e x) ->
  hits l (seq start (end_ - start)) s = false <-> e <= start \/ end_ <= s.
Proof.
  intros Hok Hlen Hlt Hs. unfold hits. split.
  - intros H. destruct (decide (e <= start \/ end_ <= s)) as [|Hn]; [done|].
    destruct (ok_one_step _ Hok _ _ _ _ Hs) as [Hse _].
    assert (Htrue : existsb (fun k => bool_decide (run_start l k = Some s))
                      (seq start (end_ - start)) = true); [|congruence].
    apply existsb_exists. exists (Nat.max start s). split; [apply in_seq; lia|].
    apply bool_decide_eq_true, run_start_spec; [done|]. exists t, e, x. repeat split; done || lia.
  - intros Hd. apply not_true_iff_false. intros (k & Hk%in_seq & H)%existsb_exists.
    apply bool_decide_eq_true, run_start_spec in H as (t' & e' & x' & Hs' & Hk' & _); [|done].
    simplify_eq. lia.
Qed.

Lemma runs_add l start end_ token text s e t x :
  cells_ok l -> end_ <= length l -> start < end_ ->
  (s, e, t, x) ∈ runs {| cells := write_run (vacated l start end_) start end_ token text |} <->
  (s, e, t, x) = (start, end_, token, text) \/
  (s, e, t, x) ∈ runs {| cells := l |} /\ (e <= start \/ end_ <= s).
Proof.
  intros Hok Hlen Hlt. rewrite !elem_of_runs, write_run_lookup. unfold written.
  assert (Hlv : length (vacated l start end_) = length l) by apply length_erase.
  assert (Hv : vacated l start end_ !! s = Some (OneStep t e x) <->
               l !! s = Some (OneStep t e x) /\ (e <= start \/ end_ <= s)).
  { unfold vacated. rewrite erase_lookup_one_step. split; intros [Hs H]; (split; [done|]);
      by apply (hits_spec l start end_ s t e x). }
  destruct (decide (s = start)) as [->|Hne].
  - destruct (lookup_lt_is_Some_2 (vacated l start end_) start) as [c ->]; [lia|]. cbn. split.
    + intros [= -> -> ->]. by left.
    + intros [[= -> -> ->]|[Hs H]]; [done|]. destruct (ok_one_step _ Hok _ _ _ _ Hs). lia.
  - transitivity (vacated l start end_ !! s = Some (OneStep t e x)).
    + destruct (decide (start < s < end_)) as [Hin|Hout].
      * split; [by destruct (vacated l start end_ !! s)|]. intros H%(run_start_self _ _ _ _ _).
        rewrite vacated_free in H by lia. done.
      * destruct (vacated l start end_ !! s); done.
    + rewrite Hv. split; [by right|]. intros [[= -> _ _ _]|H]; done.
Qed.

Lemma write_run_whole l start end_ token text :
  cells_ok l -> whole l -> end_ <= length l -> start < end_ ->
  whole (write_run (vacated l start end_) start end_ token text).
Proof.
  intros Hok Hw Hlen Hlt i t e x H. apply elem_of_runs, runs_add in H as [[= _ -> _ _]|[H _]]; try done.
  - rewrite length_write_run. unfold vacated. by rewrite length_erase.
  - rewrite length_write_run. unfold vacated. rewrite length_erase.
    apply elem_of_runs in H. by eapply Hw.
Qed.

Lemma erase_whole l dead : whole l -> whole (erase l dead).
Proof.
  intros Hw i t e x [H _]%erase_lookup_one_step. rewrite length_erase. by eapply Hw.
Qed.

(** ** The validation pass *)

Section validated.
Context {E : Type} (still_spells : nat -> nat -> Z -> nat -> result bool E).
Context (l : list Cell) (Hok : cells_ok l).

Definition probed (r : run) : result bool E :=
  let '(s, e, t, x) := r in still_spells s e t (phrase_length x).

Definition overruns (r : run) : bool := length l <=? r.1.1.2.

Definition dropped_run (r : run) : bool :=
  overruns r || match probed r with Ok false => true | _ => false end.

(** The first forcing whose probe fails while its span still fits. *)
Fixpoint first_fault (forcings : list run) : option E :=
  match forcings with
  | [] => None
  | r :: rest =>
      if overruns r then first_fault rest
      else match probed r with Err e => Some e | Ok _ => first_fault rest end
  end.

Definition dropped_at (forcings : list run) (s : nat) : bool :=
  existsb (fun r => (r.1.1.1 =? s) && dropped_run r) forcings.

Lemma validate_each_spec forcings dead d :
  StronglySorted (fun r r' : run => r.1.1.1 < r'.1.1.1) forcings ->
  (forall r, r ∈ forcings -> r ∈ runs {| cells := l |} /\ dead r.1.1.1 = false) ->
  match first_fault forcings with
  | None =>
      validate_each still_spells {| cells := erase l dead |} forcings d =
      Some ({| cells := erase l (fun s => dead s || dropped_at forcings s) |},
            Ok (d || existsb dropped_run forcings))
  | Some err => exists dead',
      validate_each still_spells {| cells := erase l dead |} forcings d =
      Some ({| cells := erase l dead' |}, Err err)
  end.
Proof using Hok.
  revert dead d. induction forcings as [|[[[i e] t] x] rest IH]; intros dead d Hsort Hin.
  { cbn [first_fault validate_each existsb]. rewrite orb_false_r.
    rewrite (erase_ext l (fun s => dead s || dropped_at [] s) dead); [done|].
    intros s. apply orb_false_r. }
  apply StronglySorted_inv in Hsort as [Hsort Hlt]. rewrite Forall_forall in Hlt. cbn in Hlt.
  destruct (Hin (i, e, t, x)) as [Hrun Hdead]; [by apply list_elem_of_here|]. cbn in Hdead.
  apply elem_of_runs in Hrun.
  assert (Hrest : forall r, r ∈ rest -> r ∈ runs {| cells := l |} /\ dead r.1.1.1 = false).
  { intros r Hr. apply Hin. by apply list_elem_of_further. }
  assert (Hkeep : forall d', dropped_run (i, e, t, x) = d' ->
    forall s, dead s || dropped_at ((i, e, t, x) :: rest) s
              = (dead s || (d' && (s =? i))) || dropped_at rest s).
  { intros d' <- s. unfold dropped_at. cbn [existsb fst snd]. rewrite (Nat.eqb_sym i s).
    rewrite (andb_comm (s =? i)). by rewrite orb_assoc. }
  assert (Hfree : free_range {| cells := erase l dead |} i (Nat.min e (length (erase l dead)))
                  = Some {| cells := erase l (fun s => dead s || (true && (s =? i))) |}).
  { rewrite (free_range_run (erase l dead) (erase_ok l Hok dead) i t e x)
      by by apply erase_lookup_one_step.
    by rewrite erase_erase. }
  assert (Hdrop : dropped_run (i, e, t, x) = true ->
    match first_fault rest with
    | None =>
        (s' ← free_range {| cells := erase l dead |} i (Nat.min e (length (erase l dead)));
         validate_each still_spells s' rest true) =
        Some ({| cells := erase l (fun s => dead s || dropped_at ((i, e, t, x) :: rest) s) |},
              Ok (d || existsb dropped_run ((i, e, t, x) :: rest)))
    | Some err => exists dead',
        (s' ← free_range {| cells := erase l dead |} i (Nat.min e (length (erase l dead)));
         validate_each still_spells s' rest true) =
        Some ({| cells := erase l dead' |}, Err err)
    end).
  { intros Hd. rewrite Hfree. cbn [mbind option_bind].
    specialize (IH (fun s => dead s || (true && (s =? i))) true Hsort).
    rewrite (erase_ext l _ _ (Hkeep true Hd)).
    assert (Hex : d || existsb dropped_run ((i, e, t, x) :: rest) = true).
    { cbn [existsb]. rewrite Hd. by destruct d. }
    rewrite Hex. destruct (first_fault rest); apply IH.
    - intros r Hr. destruct (Hrest r Hr) as [Hr1 Hr2]. split; [done|]. rewrite Hr2. cbn.
      apply Nat.eqb_neq. specialize (Hlt r Hr). lia.
    - intros r Hr. destruct (Hrest r Hr) as [Hr1 Hr2]. split; [done|]. rewrite Hr2. cbn.
      apply Nat.eqb_neq. specialize (Hlt r Hr). lia. }
  cbn [validate_each first_fault]. cbn [cells]. unfold overruns at 1. cbn [fst snd].
  rewrite length_erase in *. unfold dropped_run, overruns in Hdrop, Hkeep. cbn [fst snd probed] in *.
  destruct (length l <=? e) eqn:Eo; [by apply Hdrop|].
  destruct (still_spells i e t (phrase_length x)) as [[|]|err] eqn:Ep.
  - specialize (IH dead d Hsort Hrest).
    assert (Hex : existsb dropped_run ((i, e, t, x) :: rest) = existsb dropped_run rest).
    { cbn [existsb]. unfold dropped_run at 1, overruns. cbn [fst snd probed]. by rewrite Eo, Ep. }
    destruct (first_fault rest); [done|]. etransitivity; [exact IH|].
    apply (f_equal2 (fun a b => Some ({| cells := a |}, Ok (d || b)))); [|symmetry; exact Hex].
    apply erase_ext. intros s. by rewrite (Hkeep false), ?orb_false_r.
  - by apply Hdrop.
  - by exists dead.
Qed.
End validated.

(** ** No operation panics

    Every [OneStep] ends past its own cell, in any order of operations; a
    slice range then never runs backwards. *)

Definition forward (l : list Cell) : Prop :=
  forall i t e x, l !! i = Some (OneStep t e x) -> i < e.

Lemma forward_new : forward [].
Proof. intros i t e x H. done. Qed.

Lemma free_range_lookup s from to s' i c :
  free_range s from to = Some s' -> c <> Free ->
  cells s' !! i = Some c -> cells s !! i = Some c.
Proof.
  unfold free_range. case_decide as Hr; [|done]. intros [= <-] Hc. cbn [cells].
  destruct (decide (i < from)); [|destruct (decide (i < to))].
  - rewrite lookup_app_l by (rewrite length_take; lia). by rewrite lookup_take_lt by lia.
  - rewrite lookup_app_r, length_take by (rewrite length_take; lia).
    rewrite lookup_app_l by (rewrite length_replicate; lia).
    rewrite lookup_replicate_2 by lia. intros [=]. congruence.
  - rewrite lookup_app_r, length_take by (rewrite length_take; lia).
    rewrite lookup_app_r, length_replicate by (rewrite length_replicate; lia).
    rewrite lookup_drop. by replace (to + _) with i by lia.
Qed.

Lemma free_range_forward s from to s' :
  forward (cells s) -> free_range s from to = Some s' ->
  forward (cells s') /\ length (cells s') = length (cells s).
Proof.
  intros Hf H. split.
  - intros i t e x Hi. eapply Hf, free_range_lookup; [exact H|done|exact Hi].
  - unfold free_range in H. case_decide; [|done]. injection H as <-. cbn [cells].
    rewrite !length_app, length_take, length_replicate, length_drop. lia.
Qed.

Lemma free_range_some s i e :
  i < length (cells s) -> i < e ->
  exists s', free_range s i (Nat.min e (length (cells s))) = Some s'.
Proof. intros. unfold free_range. rewrite decide_True by lia. eauto. Qed.

Lemma clear_by_offset_forward s i :
  forward (cells s) ->
  exists s' b, clear_by_offset s i = Some (s', b) /\ forward (cells s') /\
    length (cells s') = length (cells s).
Proof.
  intros Hf. unfold clear_by_offset.
  destruct (match cells s !! i with Some (NoSearch _) => _ | _ => _ end) as [k|]; [|eauto].
  destruct (cells s !! k) as [[|t e x|]|] eqn:Hk; try by eauto.
  destruct (free_range_some s k e) as [s' Hs'].
  { by eapply lookup_lt_Some. } { by eapply Hf. }
  rewrite Hs'. cbn. pose proof (free_range_forward _ _ _ _ Hf Hs') as []. eauto.
Qed.

Lemma clear_each_forward s indexes :
  forward (cells s) ->
  exists s', clear_each s indexes = Some s' /\ forward (cells s') /\
    length (cells s') = length (cells s).
Proof.
  revert s. induction indexes as [|i rest IH]; intros s Hf; [by exists s|].
  cbn [clear_each]. destruct (clear_by_offset_forward s i Hf) as (s' & b & -> & Hf' & Hl).
  cbn. destruct (IH s' Hf') as (s'' & ? & ? & ?). exists s''. repeat split; done || lia.
Qed.

Lemma add_forward s start end_ token text :
  forward (cells s) ->
  exists s' n, add s start end_ token text = Some (s', n) /\ forward (cells s') /\
    length (cells s') = length (cells s).
Proof.
  intros Hf. unfold add. case_decide as Hr; [by eauto|].
  destruct (clear_each_forward s (seq start (end_ - start)) Hf) as ([l] & -> & Hf' & Hl).
  cbn [cells] in *. cbn [mbind option_bind]. unfold put_cell. cbn [cells].
  rewrite decide_True by lia. cbn [mbind option_bind].
  rewrite put_each_seq by (rewrite length_insert; lia). cbn [mbind option_bind].
  do 2 eexists. split; [done|]. cbn [cells]. split.
  - intros i t e x. rewrite list_lookup_imap. destruct (decide (i = start)) as [->|Hne].
    + rewrite list_lookup_insert_eq by lia. cbn. case_decide; [done|]. intros [= -> -> ->]. lia.
    + rewrite list_lookup_insert_ne by done. destruct (l !! i) as [c|] eqn:Hc; [|done]. cbn.
      case_decide; [done|]. intros [= ->]. by eapply Hf'.
  - by rewrite length_imap, length_insert.
Qed.

Lemma validate_each_forward {E} (probe : nat -> nat -> Z -> nat -> result bool E) s forcings d :
  forward (cells s) ->
  Forall (fun r : run => r.1.1.1 < r.1.1.2 /\ r.1.1.1 < length (cells s)) forcings ->
  exists s' r, validate_each probe s forcings d = Some (s', r) /\ forward (cells s').
Proof.
  revert s d. induction forcings as [|[[[i e] t] x] rest IH]; intros s d Hf Hall; [by eauto|].
  apply Forall_cons in Hall as [[Hie Hi] Hall]. cbn in Hie, Hi. cbn [validate_each].
  assert (Hdrop : exists s' r, (s' ← free_range s i (Nat.min e (length (cells s)));
            validate_each probe s' rest true) = Some (s', r) /\ forward (cells s')).
  { destruct (free_range_some s i e Hi Hie) as [s' Hs']. rewrite Hs'. cbn.
    destruct (free_range_forward _ _ _ _ Hf Hs') as [Hf' Hl]. apply IH; [done|]. by rewrite Hl. }
  destruct (length (cells s) <=? e); [done|].
  destruct (probe i e t (phrase_length x)) as [[|]|err]; [by apply IH|done|by eauto].
Qed.

Lemma validate_forward {E} (probe : nat -> nat -> Z -> nat -> result bool E) s len :
  forward (cells s) ->
  exists s' r, validate probe s len = Some (s', r) /\ forward (cells s').
Proof.
  intros Hf. unfold validate.
  assert (Hf' : forward (cells (store_resize s len))).
  { intros i t e x [_ H]%resize_lookup; [|done]. by eapply Hf. }
  apply validate_each_forward; [done|]. apply Forall_forall. intros [[[i e] t] x] Hr.
  destruct (store_resize s len) as [l]. apply elem_of_runs in Hr. cbn [cells] in *.
  split; [by eapply Hf'|by eapply lookup_lt_Some].
Qed.

Lemma diff_loop_forward s best other tail d :
  forward (cells s) ->
  exists s' b, diff_loop s best other tail d = Some (s', b) /\ forward (cells s').
Proof.
  revert s d. induction other as [|span rest IH]; intros s d Hf; [by eauto|].
  cbn [diff_loop]. case_bool_decide; [by apply IH|].
  set (next := match rest with [] => tail | n :: _ => span_start n end).
  destruct (add_forward s (span_start span) next (span_token span) (span_text span) Hf)
    as (s' & n & -> & Hf' & _). cbn. by apply IH.
Qed.

(** The operations, as a session issues them. *)
Inductive operation : Type :=
  | OpClear
  | OpResize (len : nat)
  | OpAdd (start end_ : nat) (token : Z) (text : PhraseText)
  | OpClearAt (index : nat)
  | OpValidate (probe : nat -> nat -> Z -> nat -> result bool unit) (len : nat)
  | OpDiff (best other : list PhraseSpan) (tail : nat).

Definition apply_op (s : ConstraintStore) (op : operation) : option ConstraintStore :=
  match op with
  | OpClear => Some (clear s)
  | OpResize len => Some (store_resize s len)
  | OpAdd start end_ token text => fst <$> add s start end_ token text
  | OpClearAt index => fst <$> clear_by_offset s index
  | OpValidate probe len => fst <$> validate probe s len
  | OpDiff best other tail => fst <$> diff_result s best other tail
  end.

Fixpoint apply_ops (s : ConstraintStore) (ops : list operation) : option ConstraintStore :=
  match ops with
  | [] => Some s
  | op :: rest => s ← apply_op s op; apply_ops s rest
  end.

Lemma apply_op_forward s op :
  forward (cells s) -> exists s', apply_op s op = Some s' /\ forward (cells s').
Proof.
  intros Hf.
  destruct op as [|len|start end_ token text|index|probe len|best other tail]; cbn [apply_op].
  - eexists. split; [done|apply forward_new].
  - eexists. split; [done|]. intros i t e x [_ H]%resize_lookup; [|done]. by eapply Hf.
  - destruct (add_forward s start end_ token text Hf) as (? & ? & -> & ? & _). cbn. eauto.
  - destruct (clear_by_offset_forward s index Hf) as (? & ? & -> & ? & _). cbn. eauto.
  - destruct (validate_forward probe s len Hf) as (? & ? & -> & ?). cbn. eauto.
  - destruct (diff_loop_forward s best other tail false Hf) as (? & ? & H & ?).
    unfold diff_result. rewrite H. cbn. eauto.
Qed.
