(* ===== verification/ConstraintRuns.v ===== *)
(** * ConstraintRuns: the constraint store as a set of runs

    The store of [Constraint] seen from outside: disjoint forced runs. Every
    operation sequence runs without a panic, and while the array is only
    shrunk by a completed validation each operation does to the runs what
    the session means by it. *)

From Stdlib Require Import ZArith Lia Bool.
From stdpp Require Import base list sorting.
From S2P Require Import Prelude Ucs4 Constraint.

(** Cells and runs describe each other and every run fits the array. *)
Definition settled (s : ConstraintStore) : Prop := cells_ok (cells s) /\ whole (cells s).

(** An operation that does not cut a run and leave it: the array only grows,
    or a validation completes. *)
Definition steady (s : ConstraintStore) (op : operation) : Prop :=
  match op with
  | OpResize len => cell_count s <= len
  | OpValidate probe len => exists s' d, validate probe s len = Some (s', Ok d)
  | _ => True
  end.

Fixpoint steady_ops (s : ConstraintStore) (ops : list operation) : Prop :=
  match ops with
  | [] => True
  | op :: rest => steady s op /\ forall s', apply_op s op = Some s' -> steady_ops s' rest
  end.

Definition run_covers (r : run) (index : nat) : Prop := r.1.1.1 <= index < r.1.1.2.

Definition disjoint_runs (l : list run) : Prop :=
  StronglySorted (fun r r' : run => r.1.1.1 < r.1.1.2 /\ r.1.1.2 <= r'.1.1.1) l.

Lemma settled_new : settled store_new.
Proof. split; [split|]; intros i; by rewrite ?lookup_nil. Qed.

Lemma settled_erase l dead :
  settled {| cells := l |} -> settled {| cells := erase l dead |}.
Proof. intros [Hok Hw]. split; [by apply erase_ok|by apply erase_whole]. Qed.

Lemma settled_add l start end_ token text :
  settled {| cells := l |} -> end_ <= length l -> start < end_ ->
  settled {| cells := write_run (vacated l start end_) start end_ token text |}.
Proof.
  intros [Hok Hw] Hlen Hlt. split; [|by apply write_run_whole].
  apply write_run_ok; [by apply erase_ok|done|]. intros j Hj. by apply vacated_free.
Qed.

(** What a settled store answers to each operation, on cells. *)
Lemma add_settled s start end_ token text :
  settled s ->
  exists s' n, add s start end_ token text = Some (s', n) /\ settled s' /\
    cell_count s' = cell_count s /\
    (n = 0 <-> cell_count s < end_ \/ end_ <= start) /\
    (n = 0 -> s' = s) /\
    (n <> 0 -> n = end_ - start /\ forall r, r ∈ runs s' <->
       r = (start, end_, token, text) \/ (r ∈ runs s /\ (r.1.1.2 <= start \/ end_ <= r.1.1.1))).
Proof.
  intros Hs. unfold cell_count. destruct (decide (length (cells s) < end_ \/ end_ <= start)) as [Hr|Hr].
  - exists s, 0. unfold add. rewrite decide_True by done.
    split; [done|]. split; [done|]. split; [done|]. split; [tauto|]. split; [done|]. by intros [].
  - destruct s as [l]. cbn [cells] in *.
    exists {| cells := write_run (vacated l start end_) start end_ token text |}, (end_ - start).
    split; [apply add_spec; [apply Hs|lia..]|].
    split; [by apply settled_add; [|lia..]|].
    split; [cbn; rewrite length_write_run; apply length_erase|].
    split; [lia|]. split; [lia|]. intros _. split; [done|]. intros [[[i e] t] x].
    destruct Hs as [Hok _]. rewrite runs_add by (done || lia). done.
Qed.

Lemma clear_settled s index :
  settled s ->
  exists s' b, clear_by_offset s index = Some (s', b) /\ settled s' /\
    cell_count s' = cell_count s /\
    (b = true <-> exists r, r ∈ runs s /\ run_covers r index) /\
    (forall r, r ∈ runs s' <-> r ∈ runs s /\ ~ run_covers r index).
Proof.
  destruct s as [l]. intros Hs. pose proof Hs as [Hok Hw]. cbn [cells] in *.
  rewrite clear_by_offset_erase by done. do 2 eexists. split; [done|].
  split; [by apply settled_erase|]. split; [apply length_erase|].
  assert (Hcov : forall s e t x, l !! s = Some (OneStep t e x) ->
            run_start l index = Some s <-> run_covers (s, e, t, x) index).
  { intros s e t x H. rewrite run_start_spec by done. unfold run_covers. cbn. split.
    - intros (t' & e' & x' & H' & Hr & _). by simplify_eq.
    - intros Hr. exists t, e, x. repeat split; [done|lia|lia|]. pose proof (Hw _ _ _ _ H). lia. }
  split.
  - rewrite bool_decide_eq_true. split.
    + intros [s E]. pose proof E as (t & e & x & H & _)%run_start_spec; [|done].
      exists (s, e, t, x). rewrite elem_of_runs. split; [done|]. by apply Hcov.
    + intros ([[[s e] t] x] & H%elem_of_runs & Hr). exists s. by apply (Hcov s e t x).
  - intros [[[s e] t] x]. rewrite runs_erase, !elem_of_runs. split.
    + intros [H Hd]. split; [done|]. rewrite <- (Hcov s e t x H). by apply bool_decide_eq_false in Hd.
    + intros [H Hd]. split; [done|]. apply bool_decide_eq_false. by rewrite (Hcov s e t x H).
Qed.

Lemma resize_settled s len :
  settled s -> cell_count s <= len ->
  settled (store_resize s len) /\ cell_count (store_resize s len) = len /\
  forall r, r ∈ runs (store_resize s len) <-> r ∈ runs s.
Proof.
  destruct s as [l]. intros [Hok Hw] Hlen. unfold cell_count in Hlen. cbn [cells] in *.
  split; [split; [by apply resize_cells_ok; auto|]|split; [apply length_resize|]].
  - cbn. intros i t e x [Hi H]%resize_lookup; [|done]. rewrite length_resize.
    pose proof (Hw _ _ _ _ H). lia.
  - intros [[[s e] t] x]. unfold store_resize. cbn [cells]. rewrite !elem_of_runs.
    rewrite resize_lookup by done. split; [by intros []|]. intros H. split; [|done].
    pose proof (lookup_lt_Some _ _ _ H). lia.
Qed.

(** A completed validation keeps the runs that start in the new array, end
    before its last column and still spell. *)
Definition kept {E} (probe : nat -> nat -> Z -> nat -> result bool E) (len : nat) (r : run) : Prop :=
  r.1.1.1 < len /\ r.1.1.2 < len /\ probed probe r = Ok true.

Lemma first_fault_some {E} (probe : nat -> nat -> Z -> nat -> result bool E) l rs err :
  first_fault probe l rs = Some err ->
  exists r, r ∈ rs /\ r.1.1.2 < length l /\ probed probe r = Err err.
Proof.
  induction rs as [|r rs IH]; [done|]. cbn [first_fault]. unfold overruns at 1.
  intros H. assert (Hrest : first_fault probe l rs = Some err ->
    exists r', r' ∈ r :: rs /\ r'.1.1.2 < length l /\ probed probe r' = Err err).
  { intros (r' & Hin & ?)%IH. exists r'. split; [by apply list_elem_of_further|done]. }
  destruct (length l <=? r.1.1.2) eqn:E1; [by apply Hrest|].
  destruct (probed probe r) eqn:E2; [by apply Hrest|]. injection H as ->.
  exists r. split; [by apply list_elem_of_here|]. split; [by apply Nat.leb_gt|done].
Qed.

Lemma first_fault_none {E} (probe : nat -> nat -> Z -> nat -> result bool E) l rs r :
  first_fault probe l rs = None -> r ∈ rs -> r.1.1.2 < length l -> exists b, probed probe r = Ok b.
Proof.
  induction rs as [|r' rs IH]; [by intros _ ?%not_elem_of_nil|]. cbn [first_fault]. unfold overruns at 1.
  intros H [->|Hin]%elem_of_cons Hlt.
  - rewrite (proj2 (Nat.leb_gt _ _) Hlt) in H. destruct (probed probe r') as [b|]; [by exists b|done].
  - apply IH; [|done|done]. destruct (length l <=? r'.1.1.2); [done|]. by destruct (probed probe r').
Qed.

Lemma validate_settled {E} (probe : nat -> nat -> Z -> nat -> result bool E) s len :
  settled s ->
  exists s', cell_count s' = len /\ cells_ok (cells s') /\
  ((exists err r, validate probe s len = Some (s', Err err) /\
      r ∈ runs s /\ r.1.1.1 < len /\ r.1.1.2 < len /\ probed probe r = Err err) \/
   (exists d, validate probe s len = Some (s', Ok d) /\ settled s' /\
      (forall r, r ∈ runs s' <-> r ∈ runs s /\ kept probe len r) /\
      (d = true <-> exists r, r ∈ runs s /\ r.1.1.1 < len /\ ~ kept probe len r))).
Proof.
  destruct s as [l0]. intros [Hok0 Hw0]. cbn [cells] in *.
  set (l := resize len Free l0).
  assert (Hok : cells_ok l) by (apply resize_cells_ok; auto).
  assert (Hlen : length l = len) by apply length_resize.
  assert (Hruns : forall r, r ∈ runs {| cells := l |} <-> r ∈ runs {| cells := l0 |} /\ r.1.1.1 < len).
  { intros [[[i e] t] x]. rewrite !elem_of_runs. unfold l. rewrite resize_lookup by done. cbn. tauto. }
  pose proof (validate_each_spec probe l Hok (runs {| cells := l |}) (fun _ => false) false
    (runs_increase _) (fun r Hr => conj Hr eq_refl)) as Hspec.
  rewrite erase_nothing in Hspec. unfold validate, store_resize. cbn [cells]. fold l.
  assert (Hdead : forall dead, cell_count {| cells := erase l dead |} = len /\
                               cells_ok (erase l dead)).
  { intros dead. split; [by unfold cell_count; cbn; rewrite length_erase|by apply erase_ok]. }
  destruct (first_fault probe l (runs {| cells := l |})) as [err|] eqn:Ef.
  - destruct Hspec as [dead ->]. exists {| cells := erase l dead |}.
    destruct (Hdead dead). split; [done|]. split; [done|]. left.
    apply first_fault_some in Ef as (r & Hr & Hlt & Hp). apply Hruns in Hr as [Hr Hs].
    exists err, r. rewrite Hlen in Hlt. done.
  - rewrite Hspec. eexists. split; [apply Hdead|]. split; [apply Hdead|]. right.
    eexists. split; [done|].
    assert (Hdrop : forall r, r ∈ runs {| cells := l |} ->
              dropped_run probe l r = false <-> kept probe len r).
    { intros r Hr. pose proof Hr as [_ Hs]%Hruns. unfold dropped_run, overruns, kept. rewrite Hlen.
      pose proof (first_fault_none probe l _ r Ef Hr) as Hp. rewrite Hlen in Hp.
      destruct (Nat.leb_spec len r.1.1.2); cbn; [split; [done|lia]|].
      destruct Hp as [b Hb]; [done|]. rewrite Hb. destruct b; naive_solver. }
    assert (Hat : forall i e t x, (i, e, t, x) ∈ runs {| cells := l |} ->
              dropped_at probe l (runs {| cells := l |}) i = dropped_run probe l (i, e, t, x)).
    { intros i e t x Hr. unfold dropped_at. apply eq_true_iff_eq. rewrite existsb_exists. split.
      - intros ([[[i' e'] t'] x'] & Hr'%list_elem_of_In & [He%Nat.eqb_eq Hd]%andb_true_iff).
        cbn in He. subst i'. rewrite elem_of_runs in Hr, Hr'. by simplify_eq.
      - intros Hd. exists (i, e, t, x). split; [by apply list_elem_of_In|]. by rewrite Nat.eqb_refl. }
    assert (Hmem : forall r, r ∈ runs {| cells := erase l (fun s => false || dropped_at probe l (runs {| cells := l |}) s) |}
              <-> r ∈ runs {| cells := l0 |} /\ kept probe len r).
    { intros [[[i e] t] x]. rewrite runs_erase. cbn [orb]. split.
      - intros [Hr Hd]. rewrite (Hat i e t x) in Hd by done. apply Hdrop in Hd; [|done].
        apply Hruns in Hr as []. done.
      - intros [Hr Hk]. assert (Hr' : (i, e, t, x) ∈ runs {| cells := l |}).
        { apply Hruns. split; [done|apply Hk]. }
        split; [done|]. rewrite (Hat i e t x) by done. by apply Hdrop. }
    split; [split; [apply Hdead|]|split; [exact Hmem|]].
    + cbn [cells]. intros i t e x H. rewrite length_erase, Hlen.
      apply elem_of_runs, Hmem in H as [_ (_ & ? & _)]. cbn in *. lia.
    + cbn [orb]. rewrite existsb_exists. split.
      * intros (r & Hr%list_elem_of_In & Hd). pose proof Hr as [Hr0 Hlt]%Hruns.
        exists r. repeat split; [done|done|]. intros Hk%Hdrop; [|done]. congruence.
      * intros (r & Hr & Hlt & Hk). assert (Hr' : r ∈ runs {| cells := l |}) by by apply Hruns.
        exists r. split; [by apply list_elem_of_In|]. apply not_false_iff_true. by rewrite Hdrop.
Qed.

(** ** The chosen row against the best row *)

(** The span of every phrase of a row: up to the next start, or the tail. *)
Fixpoint row_runs (other : list PhraseSpan) (tail : nat) : list run :=
  match other with
  | [] => []
  | span :: rest =>
      (span_start span, match rest with [] => tail | next :: _ => span_start next end,
       span_token span, span_text span) :: row_runs rest tail
  end.

Definition differs (best : list PhraseSpan) (r : run) : bool :=
  negb (bool_decide (best_token best r.1.1.1 = Some r.1.2)).

Lemma diff_loop_spec s best other tail d :
  settled s -> disjoint_runs (row_runs other tail) ->
  Forall (fun r : run => r.1.1.1 < r.1.1.2 <= cell_count s) (row_runs other tail) ->
  exists s', diff_loop s best other tail d =
    Some (s', d || existsb (differs best) (row_runs other tail)) /\
  settled s' /\ cell_count s' = cell_count s /\
  forall r, r ∈ runs s' <->
    (r ∈ row_runs other tail /\ differs best r = true) \/
    (r ∈ runs s /\ forall r', r' ∈ row_runs other tail -> differs best r' = true ->
       r.1.1.2 <= r'.1.1.1 \/ r'.1.1.2 <= r.1.1.1).
Proof.
  revert s d. induction other as [|span rest IH]; intros s d Hs Hdis Hfit.
  { exists s. cbn. rewrite orb_false_r. split; [done|]. split; [done|]. split; [done|]. intros r. split; intros H; [right|].
    - split; [done|]. intros r' Hr'. by apply not_elem_of_nil in Hr'.
    - destruct H as [[H _]|[? _]]; [by apply not_elem_of_nil in H|done]. }
  cbn [diff_loop row_runs existsb]. cbn [row_runs] in Hdis, Hfit.
  set (next := match rest with [] => tail | n :: _ => span_start n end) in *.
  set (r0 := (span_start span, next, span_token span, span_text span)) in *.
  apply StronglySorted_inv in Hdis as [Hdis Hall]. apply Forall_cons in Hfit as [H0 Hfit].
  rewrite Forall_forall in Hall.
  assert (Hd0 : differs best r0 = negb (bool_decide (best_token best (span_start span)
            = Some (span_token span)))) by done.
  rewrite Hd0. case_bool_decide as Hbest; cbn [negb] in Hd0 |- *.
  - destruct (IH s d Hs Hdis Hfit) as (s' & -> & Hs' & Hc & Hr). exists s'.
    split; [done|]. split; [done|]. split; [done|]. intros r. rewrite Hr.
    setoid_rewrite elem_of_cons. split.
    + intros [[? ?]|[? Hd]]; [left; auto|]. right. split; [done|].
      intros r' [->|Hr'] Hd'; [congruence|by apply Hd].
    + intros [[[->|?] Hd]|[? Hd]]; [congruence|left; auto|]. right. split; [done|]. auto.
  - destruct (add_settled s (span_start span) next (span_token span) (span_text span) Hs)
      as (s1 & n & Ha & Hs1 & Hc1 & Hn & _ & Hr1). rewrite Ha. cbn [mbind option_bind fst snd].
    cbn in H0. assert (Hn0 : n <> 0) by (rewrite Hn; lia).
    destruct (Hr1 Hn0) as [-> Hr]. rewrite (proj2 (Nat.ltb_lt 0 _)) by lia. cbn [orb].
    destruct (IH s1 true Hs1 Hdis) as (s' & -> & Hs' & Hc & Hrest).
    { by rewrite Hc1. }
    exists s'. rewrite orb_true_r. split; [done|]. split; [done|]. split; [lia|].
    intros r. rewrite Hrest, Hr. setoid_rewrite elem_of_cons. split.
    + intros [[? ?]|[[->|[Hin Hdj]] Hd]]; [left; auto| |].
      * left. split; [by left|done].
      * right. split; [done|]. intros r' [->|Hr'] Hd'; [|by apply Hd]. cbn. lia.
    + intros [[[->|?] Hd]|[Hin Hd]]; [right|left; auto|right].
      * split; [by left|]. intros r' Hr' _. specialize (Hall r' Hr'). cbn in *. lia.
      * split; [|auto]. right. split; [done|]. specialize (Hd r0 ltac:(by left)).
        specialize (Hd Hd0). cbn in Hd. lia.
Qed.

(** [diff_result] over a chosen row whose phrases follow each other and
    end inside the array forces exactly the phrases that differ from the best
    row at their position: each keeps its span up to the next phrase or the
    tail, the runs the forced spans meet are gone and the others stay, and
    the answer tells whether any phrase differed. *)
Theorem diff_result_forces (s : ConstraintStore) (best other : list PhraseSpan) (tail : nat) :
  settled s -> disjoint_runs (row_runs other tail) ->
  Forall (fun r : run => r.1.1.1 < r.1.1.2 <= cell_count s) (row_runs other tail) ->
  exists s', diff_result s best other tail =
    Some (s', existsb (differs best) (row_runs other tail)) /\
  settled s' /\
  forall r, r ∈ runs s' <->
    (r ∈ row_runs other tail /\ differs best r = true) \/
    (r ∈ runs s /\ forall r', r' ∈ row_runs other tail -> differs best r' = true ->
       r.1.1.2 <= r'.1.1.1 \/ r'.1.1.2 <= r.1.1.1).
Proof.
  intros Hs Hdis Hfit.
  destruct (diff_loop_spec s best other tail false Hs Hdis Hfit) as (s' & H & Hs' & _ & Hr).
  by exists s'.
Qed.

Lemma settled_resize_new len : settled (store_resize store_new len).
Proof.
  destruct (resize_settled store_new len) as [H _]; [apply settled_new| |done].
  unfold cell_count. cbn. lia.
Qed.

Lemma diff_result_forces_witness :
  let span s t := {| span_start := s; span_token := t; span_text := Scalar [] |} in
  let s := store_resize store_new 6 in
  exists s', diff_result s [span 0 1%Z; span 2 2%Z] [span 0 1%Z; span 2 7%Z; span 4 8%Z] 5
    = Some (s', true).
Proof.
  cbv zeta.
  match goal with |- exists s', diff_result ?s ?b ?o ?t = _ =>
    destruct (diff_result_forces s b o t) as (s' & H & _) end.
  - apply settled_resize_new.
  - cbn [row_runs]. repeat constructor; cbn; lia.
  - cbn [row_runs]. repeat constructor; cbn; lia.
  - exists s'. exact H.
Defined.

(** ** Whole sequences of operations *)

Lemma diff_loop_settled s best other tail d s' b :
  settled s -> diff_loop s best other tail d = Some (s', b) -> settled s'.
Proof.
  revert s d. induction other as [|span rest IH]; intros s d Hs; cbn [diff_loop]; [by intros [= <- _]|].
  case_bool_decide; [by apply IH|].
  set (next := match rest with [] => tail | n :: _ => span_start n end).
  destruct (add_settled s (span_start span) next (span_token span) (span_text span) Hs)
    as (s1 & n & -> & Hs1 & _). cbn. by apply IH.
Qed.

Lemma apply_op_settled s op s' :
  settled s -> steady s op -> apply_op s op = Some s' -> settled s'.
Proof.
  intros Hs Hst. destruct op as [|len|start end_ token text|index|probe len|best other tail];
    cbn [apply_op steady] in *.
  - intros [= <-]. apply settled_new.
  - intros [= <-]. by apply resize_settled.
  - destruct (add_settled s start end_ token text Hs) as (s1 & n & -> & Hs1 & _). by intros [= <-].
  - destruct (clear_settled s index Hs) as (s1 & b & -> & Hs1 & _). by intros [= <-].
  - destruct Hst as (s2 & d & Hv). rewrite Hv. cbn. intros [= <-].
    destruct (validate_settled probe s len Hs) as (s1 & _ & _ & [(err & r & H & _)|(d' & H & Hs1 & _)]);
      rewrite H in Hv; by simplify_eq.
  - unfold diff_result. destruct (diff_loop s best other tail false) as [[s1 b]|] eqn:E; [|done].
    cbn. intros [= <-]. by eapply diff_loop_settled.
Qed.

Lemma settled_disjoint s : settled s -> disjoint_runs (runs s).
Proof.
  destruct s as [l]. intros [Hok _]. cbn in Hok. unfold disjoint_runs.
  assert (Hsub : forall r, r ∈ runs {| cells := l |} -> r ∈ runs {| cells := l |}) by done.
  pose proof (runs_increase {| cells := l |}) as Hinc. revert Hsub Hinc.
  generalize (runs {| cells := l |}) at 1 3 4 as rs.
  induction rs as [|r rs IH]; intros Hsub Hinc; [constructor|].
  apply StronglySorted_inv in Hinc as [Hinc Hlt]. constructor.
  - apply IH; [|done]. intros r' Hr'. apply Hsub. by apply list_elem_of_further.
  - rewrite Forall_forall in *. intros r' Hr'. specialize (Hlt r' Hr').
    assert (H1 : r ∈ runs {| cells := l |}) by (apply Hsub, list_elem_of_here).
    assert (H2 : r' ∈ runs {| cells := l |}) by (by apply Hsub, list_elem_of_further).
    destruct r as [[[s e] t] x], r' as [[[s' e'] t'] x']. apply elem_of_runs in H1, H2. cbn in *.
    split; [by eapply ok_one_step|by eapply runs_disjoint].
Qed.

(** C23. No sequence of operations on a new store panics, whatever spans,
    indexes, lengths, probes and rows it is given. Along a sequence whose
    resizes only grow the array and whose validations complete, the cells and
    the runs describe each other: an interior cell points back at the run
    that covers it, every run is covered by its back-pointers and fits the
    array, and the runs are disjoint and listed left to right. *)
Theorem constraint_invariant (ops : list operation) :
  exists s, apply_ops store_new ops = Some s /\
  (steady_ops store_new ops -> settled s /\ disjoint_runs (runs s)).
Proof.
  assert (H : forall s, forward (cells s) -> exists s', apply_ops s ops = Some s' /\
            (settled s -> steady_ops s ops -> settled s')).
  { induction ops as [|op rest IH]; intros s Hf; [by exists s|]. cbn [apply_ops steady_ops].
    destruct (apply_op_forward s op Hf) as (s1 & H1 & Hf1). rewrite H1. cbn.
    destruct (IH s1 Hf1) as (s2 & H2 & Hset). exists s2. split; [done|].
    intros Hs [Hst Hrest]. apply Hset; [by eapply apply_op_settled|by apply Hrest]. }
  destruct (H store_new forward_new) as (s & Hs & Hset). exists s. split; [done|].
  intros Hst. specialize (Hset settled_new Hst). split; [done|by apply settled_disjoint].
Qed.

(** C24. What each operation does to the runs of a settled store. Adding a
    span that fits replaces the runs it meets by the new one and answers its
    length, otherwise it changes nothing and answers 0. Clearing an index
    removes exactly the run covering it and tells whether there was one.
    Growing keeps every run. Validating keeps exactly the runs that end
    before the last column and still spell and tells whether one was dropped,
    unless the probe of a run that fits fails, whose error it answers. *)
Theorem constraint_operations (s : ConstraintStore) :
  settled s ->
  (forall start end_ token text, exists s' n,
     add s start end_ token text = Some (s', n) /\ settled s' /\
     (n = 0 <-> cell_count s < end_ \/ end_ <= start) /\ (n = 0 -> s' = s) /\
     (n <> 0 -> n = end_ - start /\ forall r, r ∈ runs s' <->
        r = (start, end_, token, text) \/
        (r ∈ runs s /\ (r.1.1.2 <= start \/ end_ <= r.1.1.1)))) /\
  (forall index, exists s' b,
     clear_by_offset s index = Some (s', b) /\ settled s' /\
     (b = true <-> exists r, r ∈ runs s /\ run_covers r index) /\
     (forall r, r ∈ runs s' <-> r ∈ runs s /\ ~ run_covers r index)) /\
  (forall len, cell_count s <= len ->
     settled (store_resize s len) /\ forall r, r ∈ runs (store_resize s len) <-> r ∈ runs s) /\
  (forall E (probe : nat -> nat -> Z -> nat -> result bool E) len, exists s',
     (exists err r, validate probe s len = Some (s', Err err) /\
        r ∈ runs s /\ r.1.1.1 < len /\ r.1.1.2 < len /\ probed probe r = Err err) \/
     (exists d, validate probe s len = Some (s', Ok d) /\ settled s' /\
        (forall r, r ∈ runs s' <-> r ∈ runs s /\ kept probe len r) /\
        (d = true <-> exists r, r ∈ runs s /\ r.1.1.1 < len /\ ~ kept probe len r))).
Proof.
  intros Hs. split; [|split; [|split]].
  - intros start end_ token text.
    destruct (add_settled s start end_ token text Hs) as (s' & n & H1 & H2 & _ & H3 & H4 & H5).
    by exists s', n.
  - intros index. destruct (clear_settled s index Hs) as (s' & b & H1 & H2 & _ & H3 & H4).
    by exists s', b.
  - intros len Hlen. by destruct (resize_settled s len Hs Hlen) as (H1 & _ & H2).
  - intros E probe len. destruct (validate_settled probe s len Hs) as (s' & _ & _ & H). by exists s'.
Qed.

Lemma constraint_operations_witness :
  let s := store_resize store_new 6 in
  settled s /\ exists s', add s 1 4 7%Z (Scalar []) = Some (s', 3) /\ settled s'.
Proof.
  cbv zeta. split; [apply settled_resize_new|].
  destruct (constraint_operations _ (settled_resize_new 6)) as (Hadd & _).
  destruct (Hadd 1 4 7%Z (Scalar [])) as (s' & n & H & Hs & Hn & _ & Hn').
  exists s'. assert (n <> 0) as [-> _]%Hn'; [rewrite Hn; vm_compute; lia|]. by split.
Defined.

(** An array cut below a run's end and grown again is not steady: the run
    keeps its old end over free cells, a later span can overlap it, and
    clearing the first leaves the second without its start. *)
Example cut_and_grown :
  let ops := [OpResize 6; OpAdd 1 5 1%Z (Scalar []); OpResize 3; OpResize 6;
              OpAdd 3 6 2%Z (Scalar [])] in
  (runs <$> apply_ops store_new ops = Some [(1, 5, 1%Z, Scalar []); (3, 6, 2%Z, Scalar [])]) /\
  (cells <$> apply_ops store_new (ops ++ [OpClearAt 1])
   = Some [Free; Free; Free; Free; Free; NoSearch 3]).
Proof. split; reflexivity. Qed.
