(* ===== verification/RowFormat.v ===== *)
(** * RowFormat: the database rows of a data directory

    [crates/oxpinyin-data/src/row_format.rs] and [single_gram.rs]: the bytes
    of the pinyin index, phrase index, bigram and punctuation rows. A [str]
    is its characters; the text of a [DictError::Parse] is left out. *)

From Stdlib Require Import ZArith Lia Bool Strings.Byte.
From stdpp Require Import base list.
From S2P Require Import Prelude Chewing Ucs4 SingleGram.

Inductive DictError : Type :=
  | Parse.

Definition encode_token_key (token : Z) : bytes := le32 token.

Definition push_ucs4 (buf : bytes) (codes : list Z) : bytes := buf ++ (codes ≫= le32).

(** The whole [n]-byte chunks of a value. *)
Definition whole_chunks (n : nat) (value : bytes) : list bytes := (as_chunks n value).1.

(** ** [pinyin_index] *)

Definition item2_stride (phrase_length : nat) : nat :=
  Nat.ldiff (4 + 2 * phrase_length + 3) 3.

Definition pack (key : ChewingKey) : bytes := le_bytes 2 (to_packed key).

Definition encode_complete_key (keys : list ChewingKey) : bytes :=
  keys ≫= fun key => pack (mk_key (initial key) (middle key) (final_ key) 0).

Definition encode_incomplete_key (keys : list ChewingKey) : bytes :=
  keys ≫= fun key => pack (mk_key (initial key) 0 0 0).

Record PinyinIndexItem : Type := {
  item_token : Z;
  item_keys : list ChewingKey
}.

Record PinyinIndexItemView : Type := {
  view_token : Z;
  view_keys : bytes
}.

Definition view_of (key_bytes : nat) (record : bytes) : PinyinIndexItemView :=
  {| view_token := le_value (take 4 record); view_keys := take key_bytes (drop 4 record) |}.

Definition keys_of (v : PinyinIndexItemView) : list ChewingKey :=
  (fun b => from_packed (le_value b)) <$> whole_chunks 2 (view_keys v).

Definition item_views (value : bytes) (phrase_length : nat)
    : result (list PinyinIndexItemView) DictError :=
  match value with
  | [] => Ok (view_of 0 <$> whole_chunks 1 value)
  | _ =>
      if phrase_length =? 0 then Err Parse
      else
        let stride := item2_stride phrase_length in
        if negb (is_multiple_of (length value) stride) then Err Parse
        else Ok (view_of (2 * phrase_length) <$> whole_chunks stride value)
  end.

(** The buffer starts zeroed, so what the copies leave is padding. *)
Definition encode_item (token : Z) (keys : list ChewingKey) : bytes :=
  le32 token ++ (keys ≫= pack) ++
  replicate (item2_stride (length keys) - (4 + 2 * length keys)) x00.

Definition encode_items (items : list PinyinIndexItem) : bytes :=
  items ≫= fun item => encode_item (item_token item) (item_keys item).

Definition decode_items (value : bytes) (phrase_length : nat)
    : result (list PinyinIndexItem) DictError :=
  match item_views value phrase_length with
  | Ok views =>
      Ok ((fun v => {| item_token := view_token v; item_keys := keys_of v |}) <$> views)
  | Err e => Err e
  end.

(** ** [phrase_index] *)

Definition encode_ucs4_key (text : list Z) : bytes := push_ucs4 [] text.

Definition encode_ucs4_key_scalars (codes : list Z) : bytes := push_ucs4 [] codes.

Definition decode_ucs4_key (key : bytes) : option (list Z) :=
  if negb (is_multiple_of (length key) 4) then None
  else mapM (fun chunk => char_from_u32 (le_value chunk)) (whole_chunks 4 key).

Definition encode_tokens (tokens : list Z) : bytes := tokens ≫= le32.

Definition decode_tokens (value : bytes) : result (list Z) DictError :=
  match value with
  | [] => Ok []
  | _ =>
      if negb (is_multiple_of (length value) 4) then Err Parse
      else Ok (le_value <$> whole_chunks 4 value)
  end.

(** ** [bigram] *)

Record BigramRow : Type := {
  row_total_freq : Z;
  row_records : list (Z * Z)
}.

Definition encode_value (row : BigramRow) : bytes :=
  le32 (row_total_freq row) ++ (row_records row ≫= fun p => le32 p.1 ++ le32 p.2).

Definition chunk_record (chunk : bytes) : Z * Z :=
  (le_value (take 4 chunk), le_value (take 4 (drop 4 chunk))).

Definition parse_value (data : bytes) : result BigramRow DictError :=
  if (length data <? 4) || negb (is_multiple_of (length data - 4) 8) then Err Parse
  else
    Ok {| row_total_freq := le_value (take 4 data);
          row_records := chunk_record <$> whole_chunks 8 (drop 4 data) |}.

(** [single_gram.rs]: the same layout, with an error of its own. *)
Inductive SingleGramError : Type :=
  | NoTotal
  | PartialRecord.

Definition encode_single_gram (total : Z) (records : list (Z * Z)) : bytes :=
  le32 total ++ (records ≫= fun p => le32 p.1 ++ le32 p.2).

Definition decode_single_gram (bytes : bytes) : result (Z * list (Z * Z)) SingleGramError :=
  if length bytes <? 4 then Err NoTotal
  else
    let rest := drop 4 bytes in
    if negb (is_multiple_of (length rest) 8) then Err PartialRecord
    else Ok (le_value (take 4 bytes), chunk_record <$> whole_chunks 8 rest).

(** ** [punct] *)

Definition encode_puncts (puncts : list (list Z)) : bytes :=
  puncts ≫= fun punct => push_ucs4 [] punct ++ le32 0.

Definition punct_text (words : list Z) : PhraseText :=
  match mapM (fun word => char_from_u32 word ≫= fun c => if nonzero word then Some c else None)
          words with
  | Some text => from_str text
  | None => from_stored_parts words (length words)
  end.

(** The cursor steps past the run and its terminator, so at most one run per
    word. *)
Fixpoint punct_loop (fuel : nat) (words : list Z) (out : list PhraseText) : list PhraseText :=
  match fuel, words with
  | S fuel, _ :: tail =>
      let run := 1 + length (take_while nonzero tail) in
      punct_loop fuel (drop (run + 1) words) (out ++ [punct_text (take run words)])
  | _, _ => out
  end.

Definition decode_puncts (value : bytes) : list PhraseText :=
  let words := le_value <$> whole_chunks 4 value in
  punct_loop (length words) words [].

(** ** Chunks of equal length *)

Lemma whole_chunks_bind {A} (n : nat) (f : A -> bytes) (l : list A) :
  0 < n -> (forall x, x ∈ l -> length (f x) = n) ->
  whole_chunks n (l ≫= f) = f <$> l /\ length (l ≫= f) = n * length l.
Proof.
  intros Hn Hf.
  assert (Hlen : length (l ≫= f) = n * length l).
  { clear Hn. induction l as [|x l IH]; [by rewrite Nat.mul_0_r|].
    rewrite bind_cons, length_app, IH, Hf by (apply list_elem_of_here || (intros; apply Hf; by right)).
    cbn [length]. lia. }
  split; [|done]. unfold whole_chunks, as_chunks. cbn [fst]. rewrite Hlen.
  rewrite Nat.mul_comm, Nat.div_mul by lia. clear Hlen.
  induction l as [|x l IH]; [done|]. rewrite bind_cons. cbn [length chunks_of fmap list_fmap].
  assert (Hx : length (f x) = n) by apply Hf, list_elem_of_here.
  rewrite take_app_length', drop_app_length' by done. f_equal. apply IH.
  intros y Hy. apply Hf. by apply list_elem_of_further.
Qed.

Lemma chunks_join n k (l : bytes) :
  length l = k * n -> chunks_of k n l ≫= id = l /\ Forall (fun c => length c = n) (chunks_of k n l).
Proof.
  revert l. induction k as [|k IH]; intros l H; cbn [chunks_of].
  { destruct l; [done|]. cbn in H. lia. }
  destruct (IH (drop n l)) as [IH1 IH2]; [rewrite length_drop; lia|].
  rewrite bind_cons, IH1. split; [apply take_drop|]. constructor; [|done]. rewrite length_take. lia.
Qed.

Lemma whole_chunks_join n (l : bytes) :
  0 < n -> is_multiple_of (length l) n = true ->
  whole_chunks n l ≫= id = l /\ Forall (fun c => length c = n) (whole_chunks n l).
Proof.
  intros Hn Hm%Nat.eqb_eq. apply chunks_join. rewrite Nat.mul_comm.
  pose proof (Nat.div_mod_eq (length l) n). lia.
Qed.

Lemma is_multiple_of_mul n k : 0 < n -> is_multiple_of (n * k) n = true.
Proof. intros. apply Nat.eqb_eq. rewrite Nat.mul_comm. apply Nat.Div0.mod_mul. Qed.

(** ** Pinyin index rows *)

Lemma item2_stride_eq n : item2_stride n = (4 + 2 * n + 3) / 4 * 4.
Proof.
  change (item2_stride n) with (Nat.ldiff (4 + 2 * n + 3) (Nat.ones 2)). rewrite Nat.ldiff_ones_r.
  rewrite Nat.shiftl_mul_pow2, Nat.shiftr_div_pow2. done.
Qed.

Lemma item2_stride_bounds n : 4 + 2 * n <= item2_stride n < 8 + 2 * n.
Proof.
  rewrite item2_stride_eq. pose proof (Nat.div_mod_eq (4 + 2 * n + 3) 4).
  pose proof (Nat.mod_upper_bound (4 + 2 * n + 3) 4). lia.
Qed.

Lemma length_pack_keys keys : length (keys ≫= pack) = 2 * length keys.
Proof.
  destruct (whole_chunks_bind 2 pack keys) as [_ H]; [lia| |done].
  intros k _. apply length_le_bytes.
Qed.

Lemma length_encode_item token keys :
  length (encode_item token keys) = item2_stride (length keys).
Proof.
  unfold encode_item. rewrite !length_app, length_le32, length_pack_keys, length_replicate.
  pose proof (item2_stride_bounds (length keys)). lia.
Qed.

Lemma le_value_pack k : le_value (pack k) = to_packed k.
Proof.
  unfold pack. rewrite le_value_bytes. apply Z.mod_small.
  pose proof (to_packed_range k). change (2 ^ (8 * Z.of_nat 2))%Z with 65536%Z. lia.
Qed.

Definition index_item_ok (phrase_length : nat) (item : PinyinIndexItem) : Prop :=
  is_u32 (item_token item) /\ length (item_keys item) = phrase_length /\
  Forall packable (item_keys item).

Lemma view_encode_item n item :
  index_item_ok n item ->
  (fun v => {| item_token := view_token v; item_keys := keys_of v |})
    (view_of (2 * n) (encode_item (item_token item) (item_keys item))) = item.
Proof.
  destruct item as [token keys]. intros (Ht & Hl & Hp). cbn [item_token item_keys] in *.
  unfold view_of, keys_of, encode_item. cbn [view_token view_keys].
  rewrite take_app_length' by (by rewrite length_le32).
  rewrite drop_app_length' by (by rewrite length_le32).
  rewrite take_app_length' by (rewrite length_pack_keys; lia).
  rewrite le_value_le32, wrap32_small by done. f_equal.
  destruct (whole_chunks_bind 2 pack keys) as [-> _]; [lia|intros k _; apply length_le_bytes|].
  rewrite <- list_fmap_compose. rewrite Forall_forall in Hp.
  clear Hl. induction keys as [|k keys IH]; [done|]. rewrite fmap_cons. f_equal.
  - unfold compose. rewrite le_value_pack. apply from_to_packed, Hp, list_elem_of_here.
  - apply IH. intros k' Hk'. apply Hp. by apply list_elem_of_further.
Qed.

Lemma decode_encode_items n items :
  0 < n -> Forall (index_item_ok n) items -> decode_items (encode_items items) n = Ok items.
Proof.
  intros Hn Hok. rewrite Forall_forall in Hok.
  assert (Hlen : forall item, item ∈ items ->
            length (encode_item (item_token item) (item_keys item)) = item2_stride n).
  { intros item Hi. rewrite length_encode_item. by destruct (Hok item Hi) as (_ & -> & _). }
  pose proof (item2_stride_bounds n) as Hs.
  destruct (whole_chunks_bind (item2_stride n)
    (fun item => encode_item (item_token item) (item_keys item)) items) as [Hc Hl]; [lia|done|].
  unfold decode_items, item_views. fold (encode_items items) in Hc, Hl.
  destruct (encode_items items) as [|b value] eqn:E.
  { destruct items; [done|]. cbn [length] in Hl. lia. }
  rewrite <- E in *. clear E b value.
  rewrite (proj2 (Nat.eqb_neq n 0)) by lia. rewrite Hl, is_multiple_of_mul by lia. cbn [negb].
  rewrite Hc, <- !list_fmap_compose. f_equal. clear Hc Hl Hlen.
  induction items as [|item items IH]; [done|]. rewrite fmap_cons. f_equal.
  - apply view_encode_item, Hok, list_elem_of_here.
  - apply IH. intros i Hi. apply Hok. by apply list_elem_of_further.
Qed.

Lemma decode_items_error value n :
  decode_items value n = Err Parse <->
  value <> [] /\ (n = 0 \/ length value mod item2_stride n <> 0).
Proof.
  unfold decode_items, item_views. destruct value as [|b value]; [split; [done|by intros []]|].
  destruct (Nat.eqb_spec n 0) as [->|Hn]; [split; [by split; [|left]|done]|].
  unfold is_multiple_of. destruct (Nat.eqb_spec (length (b :: value) mod item2_stride n) 0) as [E|E];
    cbn [negb].
  - split; [done|]. intros [_ [|]]; done.
  - split; [|done]. intros _. split; [done|by right].
Qed.

(** ** Word rows *)

Lemma whole_words codes : whole_chunks 4 (codes ≫= le32) = le32 <$> codes /\
  length (codes ≫= le32) = 4 * length codes.
Proof. apply whole_chunks_bind; [lia|]. intros c _. apply length_le32. Qed.

Lemma le_values_le32 codes :
  Forall is_u32 codes -> le_value <$> (le32 <$> codes) = codes.
Proof.
  intros H. induction H as [|c codes Hc _ IH]; [done|]. rewrite !fmap_cons, IH.
  by rewrite le_value_le32, wrap32_small.
Qed.

(** The words of a value of whole words are its bytes. *)
Lemma words_bytes value :
  is_multiple_of (length value) 4 = true ->
  (le_value <$> whole_chunks 4 value) ≫= le32 = value /\
  Forall is_u32 (le_value <$> whole_chunks 4 value).
Proof.
  intros H. destruct (whole_chunks_join 4 value) as [Hj Hl]; [lia|done|].
  rewrite <- Hj at 2. clear H Hj. induction Hl as [|c cs Hc _ [IH1 IH2]]; [done|].
  rewrite fmap_cons, !bind_cons. split.
  - by rewrite IH1, le32_value.
  - constructor; [by apply le_value_u32|done].
Qed.

Lemma decode_encode_tokens tokens :
  Forall is_u32 tokens -> decode_tokens (encode_tokens tokens) = Ok tokens.
Proof.
  intros H. unfold decode_tokens, encode_tokens. destruct (whole_words tokens) as [Hc Hl].
  destruct (tokens ≫= le32) as [|b v] eqn:E; [destruct tokens; [done|discriminate]|].
  rewrite <- E in *. rewrite Hl, is_multiple_of_mul by lia. cbn [negb].
  by rewrite Hc, le_values_le32.
Qed.

Lemma decode_tokens_bytes value tokens :
  decode_tokens value = Ok tokens -> encode_tokens tokens = value /\ Forall is_u32 tokens.
Proof.
  unfold decode_tokens, encode_tokens. destruct value as [|b v]; [by intros [= <-]|].
  destruct (is_multiple_of (length (b :: v)) 4) eqn:E; [|done]. cbn [negb]. intros [= <-].
  by apply words_bytes.
Qed.

Lemma mapM_words (codes : list Z) :
  Forall is_u32 codes ->
  mapM (fun chunk => char_from_u32 (le_value chunk)) (le32 <$> codes) = mapM char_from_u32 codes.
Proof.
  intros H. induction H as [|c codes Hc _ IH]; [done|]. rewrite fmap_cons. cbn [mapM].
  by rewrite le_value_le32, wrap32_small, IH.
Qed.

Lemma chars_u32 text : forallb is_char text = true -> Forall is_u32 text.
Proof.
  intros H. apply Forall_forall. intros c Hc.
  pose proof (is_char_range c (forallb_elem _ _ _ H Hc)). unfold is_u32, u32_size. lia.
Qed.

Lemma decode_encode_ucs4 text :
  forallb is_char text = true -> decode_ucs4_key (encode_ucs4_key text) = Some text.
Proof.
  intros H. unfold decode_ucs4_key, encode_ucs4_key, push_ucs4. cbn [app].
  destruct (whole_words text) as [-> ->]. rewrite is_multiple_of_mul by lia. cbn [negb].
  rewrite mapM_words by by apply chars_u32. by apply mapM_chars.
Qed.

Lemma decode_ucs4_bytes key text :
  decode_ucs4_key key = Some text -> encode_ucs4_key text = key /\ forallb is_char text = true.
Proof.
  unfold decode_ucs4_key, encode_ucs4_key, push_ucs4. cbn [app].
  destruct (is_multiple_of (length key) 4) eqn:E; [|done]. cbn [negb].
  destruct (words_bytes key E) as [Hb _]. intros H.
  assert (Hm : mapM char_from_u32 (le_value <$> whole_chunks 4 key) = Some text).
  { rewrite <- H. clear. induction (whole_chunks 4 key) as [|c cs IH]; [done|].
    rewrite fmap_cons. cbn [mapM]. by rewrite IH. }
  apply mapM_chars in Hm as [-> ?]. done.
Qed.

(** ** Bigram rows *)

Lemma encode_value_bytes row :
  encode_value row = encode (row_total_freq row) (row_records row) [].
Proof. unfold encode_value, encode. by rewrite app_nil_r. Qed.

Lemma chunk_record_item it : item_ok it -> chunk_record (item_bytes it) = it.
Proof.
  intros H. change (chunk_record (item_bytes it)) with (record_token (item_bytes it), record_freq (item_bytes it)).
  rewrite record_token_item, record_freq_item by done. by destruct it.
Qed.

Lemma whole_records its :
  Forall item_ok its ->
  chunk_record <$> whole_chunks 8 (its ≫= item_bytes) = its /\
  length (its ≫= item_bytes) = 8 * length its.
Proof.
  intros H. destruct (whole_chunks_bind 8 item_bytes its) as [-> Hl]; [lia|done|]. split; [|done].
  clear Hl. induction H as [|it its Hi _ IH]; [done|]. rewrite !fmap_cons, IH. f_equal.
  by apply chunk_record_item.
Qed.

Lemma parse_encode_value row :
  is_u32 (row_total_freq row) -> Forall item_ok (row_records row) ->
  parse_value (encode_value row) = Ok row.
Proof.
  destruct row as [total its]. cbn [row_total_freq row_records]. intros Ht Hits.
  destruct (whole_records its Hits) as [Hr Hl].
  unfold parse_value, encode_value. cbn [row_total_freq row_records].
  change (its ≫= fun p => le32 p.1 ++ le32 p.2) with (its ≫= item_bytes).
  rewrite length_app, length_le32, Hl.
  rewrite (proj2 (Nat.ltb_ge (4 + 8 * length its) 4)) by lia.
  replace (4 + 8 * length its - 4) with (8 * length its) by lia.
  rewrite is_multiple_of_mul by lia. cbn [orb negb].
  rewrite take_app_length', drop_app_length' by (by rewrite length_le32).
  by rewrite Hr, le_value_le32, wrap32_small.
Qed.

(** A parsed value is the bytes of its row. *)
Lemma parse_value_bytes data row :
  parse_value data = Ok row ->
  encode_value row = data /\ is_u32 (row_total_freq row) /\ Forall item_ok (row_records row).
Proof.
  unfold parse_value. destruct (Nat.ltb_spec (length data) 4) as [|Hlen]; [done|].
  destruct (is_multiple_of (length data - 4) 8) eqn:E; [|done]. cbn [orb negb]. intros [= <-].
  rewrite <- length_drop in E. cbn [row_total_freq row_records].
  apply Nat.eqb_eq in E.
  destruct (items_surj (length (drop 4 data) / 8) (drop 4 data)) as (its & _ & Hok & Hd).
  { pose proof (Nat.div_mod_eq (length (drop 4 data)) 8). lia. }
  destruct (whole_records its Hok) as [Hr _]. rewrite Hd, Hr.
  assert (Ht : length (take 4 data) = 4) by (rewrite length_take; lia).
  split; [|split; [by apply le_value_u32|done]].
  unfold encode_value. cbn [row_total_freq row_records].
  change (its ≫= fun p => le32 p.1 ++ le32 p.2) with (its ≫= item_bytes).
  rewrite <- Hd, le32_value by done. apply take_drop.
Qed.

Lemma decode_single_parse data :
  decode_single_gram data =
  match parse_value data with
  | Ok row => Ok (row_total_freq row, row_records row)
  | Err _ => Err (if length data <? 4 then NoTotal else PartialRecord)
  end.
Proof.
  unfold decode_single_gram, parse_value. rewrite length_drop.
  destruct (length data <? 4); [done|]. cbn [orb].
  by destruct (is_multiple_of (length data - 4) 8).
Qed.

(** ** Punctuation rows *)

Lemma push_punct_words puncts :
  encode_puncts puncts = (puncts ≫= fun p => p ++ [0%Z]) ≫= le32.
Proof.
  unfold encode_puncts, push_ucs4. induction puncts as [|p ps IH]; [done|].
  rewrite !bind_cons, IH, !bind_app. cbn [app]. rewrite bind_singleton. by rewrite <- app_assoc.
Qed.

Lemma take_while_stop {A} (p : A -> bool) l x r :
  forallb p l = true -> p x = false -> take_while p (l ++ x :: r) = l.
Proof.
  intros Hl Hx. induction l as [|y l IH]; cbn; [by rewrite Hx|].
  cbn in Hl. apply andb_true_iff in Hl as [-> Hl]. by rewrite IH.
Qed.

Lemma punct_text_scalar text :
  forallb text_char text = true -> punct_text text = from_str text.
Proof.
  intros H. unfold punct_text.
  assert (mapM (fun word => char_from_u32 word ≫= fun c => if nonzero word then Some c else None)
            text = Some text) as ->; [|done].
  induction text as [|c text IH]; [done|]. cbn [forallb] in H.
  apply andb_true_iff in H as [Hc H]. cbn [mapM].
  apply text_char_word in Hc as [-> Hn]. cbn [mbind option_bind]. rewrite Hn. by rewrite IH.
Qed.

Lemma punct_loop_words fuel puncts out :
  Forall (fun p => p <> [] /\ forallb text_char p = true) puncts ->
  length (puncts ≫= fun p => p ++ [0%Z]) <= fuel ->
  punct_loop fuel (puncts ≫= fun p => p ++ [0%Z]) out = out ++ (from_str <$> puncts).
Proof.
  intros H. revert fuel out. induction H as [|p puncts [Hne Hp] _ IH]; intros fuel out Hf.
  { cbn. rewrite app_nil_r. by destruct fuel. }
  rewrite bind_cons in *. rewrite !length_app in Hf. cbn [length] in Hf.
  destruct p as [|c p]; [done|]. destruct fuel as [|fuel]; [cbn in Hf; lia|].
  set (rest := puncts ≫= fun p => p ++ [0%Z]) in *.
  cbn [app punct_loop]. pose proof Hp as [_ Hn]%text_char_split. cbn [forallb] in Hn.
  apply andb_true_iff in Hn as [_ Hn].
  rewrite <- app_assoc. change ([0%Z] ++ rest) with (0%Z :: rest).
  rewrite take_while_stop by done.
  assert (Htake : take (1 + length p) (c :: p ++ 0%Z :: rest) = c :: p).
  { cbn [Nat.add take]. f_equal. by apply take_app_length'. }
  assert (Hdrop : drop (1 + length p + 1) (c :: p ++ 0%Z :: rest) = rest).
  { replace (1 + length p + 1) with (S (length p + 1)) by lia. cbn [drop].
    rewrite (cons_middle 0%Z p rest), app_assoc. apply drop_app_length'. rewrite length_app. done. }
  rewrite Htake, Hdrop, IH by (cbn in Hf; lia).
  rewrite punct_text_scalar by done. by rewrite fmap_cons, <- app_assoc.
Qed.

Lemma decode_encode_puncts puncts :
  Forall (fun p => p <> [] /\ forallb text_char p = true) puncts ->
  decode_puncts (encode_puncts puncts) = from_str <$> puncts.
Proof.
  intros H. unfold decode_puncts. rewrite push_punct_words.
  assert (Hu : Forall is_u32 (puncts ≫= fun p => p ++ [0%Z])).
  { clear -H. induction H as [|p ps [_ Hp] _ IH]; [constructor|]. rewrite bind_cons.
    apply Forall_app. split; [|done]. apply Forall_app. split.
    - apply chars_u32. by apply text_char_split in Hp as [].
    - rewrite Forall_singleton. done. }
  destruct (whole_words (puncts ≫= fun p => p ++ [0%Z])) as [-> _].
  rewrite le_values_le32 by done. by rewrite punct_loop_words.
Qed.

(** C26. The rows of a data directory decode to what was encoded. The items
    of a pinyin-index row of [n]-syllable phrases come back with their tones,
    and exactly the non-empty values whose length is no multiple of the
    stride, or any for [n = 0], are refused; token rows and UCS-4 keys round
    trip in both directions; a punctuation row gives its texts back. *)
Theorem rows_round_trip (n : nat) (items : list PinyinIndexItem) (value : bytes)
    (tokens text : list Z) (puncts : list (list Z)) :
  0 < n -> Forall (index_item_ok n) items -> Forall is_u32 tokens ->
  forallb is_char text = true ->
  Forall (fun p => p <> [] /\ forallb text_char p = true) puncts ->
  decode_items (encode_items items) n = Ok items /\
  (forall k, decode_items value k = Err Parse <->
     value <> [] /\ (k = 0 \/ length value mod item2_stride k <> 0)) /\
  decode_tokens (encode_tokens tokens) = Ok tokens /\
  (forall ts, decode_tokens value = Ok ts -> encode_tokens ts = value) /\
  decode_ucs4_key (encode_ucs4_key text) = Some text /\
  (forall t, decode_ucs4_key value = Some t -> encode_ucs4_key t = value) /\
  decode_puncts (encode_puncts puncts) = from_str <$> puncts.
Proof.
  intros Hn Hi Ht Hx Hp. split; [by apply decode_encode_items|].
  split; [intros k; apply decode_items_error|]. split; [by apply decode_encode_tokens|].
  split; [by intros ts []%decode_tokens_bytes|]. split; [by apply decode_encode_ucs4|].
  split; [by intros t []%decode_ucs4_bytes|by apply decode_encode_puncts].
Qed.

Lemma rows_round_trip_witness :
  let item := {| item_token := 16777222; item_keys := [mk_key 22 0 3 4; mk_key 1 2 3 0] |} in
  decode_items (encode_items [item]) 2 = Ok [item] /\
  decode_tokens (encode_tokens [7; 9]%Z) = Ok [7; 9]%Z /\
  decode_puncts (encode_puncts [[12290]; [65292]]%Z) = from_str <$> [[12290]; [65292]]%Z.
Proof.
  cbv zeta.
  match goal with |- decode_items (encode_items ?i) _ = _ /\ _ =>
    destruct (rows_round_trip 2 i [] [7; 9]%Z [97]%Z [[12290]; [65292]]%Z)
      as (H1 & _ & H2 & _ & _ & _ & H3) end.
  - lia.
  - rewrite Forall_singleton. split; [done|]. split; [done|].
    cbn [item_keys]. rewrite !Forall_cons, Forall_nil. unfold packable. cbn. lia.
  - rewrite !Forall_cons, Forall_nil. done.
  - done.
  - rewrite !Forall_cons, Forall_nil. done.
  - split; [exact H1|]. split; [exact H2|exact H3].
Defined.

(** Three readers of a bigram value agree. [parse_value] and
    [decode_single_gram] accept exactly the values of four bytes and whole
    records, they give the same total and records, which encode back to the
    value by either encoder, and the total and items are those the bytes
    have for [SingleGram], whose operations read the user's rows. *)
Theorem bigram_readers_agree (data : bytes) :
  fits data ->
  ((exists row, parse_value data = Ok row) <->
     4 <= length data /\ (length data - 4) mod 8 = 0) /\
  (forall row, parse_value data = Ok row ->
     decode_single_gram data = Ok (row_total_freq row, row_records row) /\
     encode_value row = data /\
     encode_single_gram (row_total_freq row) (row_records row) = data /\
     get_total_freq data = Some (row_total_freq row) /\
     retrieve_all data = row_records row) /\
  (forall total records, is_u32 total -> Forall item_ok records ->
     decode_single_gram (encode_single_gram total records) = Ok (total, records)).
Proof.
  intros Hfit. split; [|split].
  - unfold parse_value, is_multiple_of. destruct (Nat.ltb_spec (length data) 4).
    + cbn. split; [by intros []|lia].
    + destruct (Nat.eqb_spec ((length data - 4) mod 8) 0); cbn; [|split; [by intros []|by intros []]].
      split; [done|]. eauto.
  - intros row Hrow. pose proof (parse_value_bytes data row Hrow) as (Hb & Ht & Hits).
    rewrite decode_single_parse, Hrow. split; [done|]. split; [done|]. split; [done|].
    rewrite <- Hb, encode_value_bytes.
    assert (Hok : row_ok (row_total_freq row) (row_records row) []).
    { split; [done|done|cbn; unfold ITEM_LEN; lia|]. by rewrite <- encode_value_bytes, Hb. }
    split; [by apply row_get_total|by apply retrieve_all_row].
  - intros total records Ht Hits.
    change (encode_single_gram total records)
      with (encode_value {| row_total_freq := total; row_records := records |}).
    by rewrite decode_single_parse, parse_encode_value.
Qed.

Lemma bigram_readers_agree_witness :
  let data := le32 5 ++ le32 1 ++ le32 2 ++ le32 9 ++ le32 3 in
  fits data /\ (exists row, parse_value data = Ok row) /\
  decode_single_gram (encode_single_gram 5 [(1, 2); (9, 3)]%Z) = Ok (5, [(1, 2); (9, 3)])%Z.
Proof.
  cbv zeta. set (data := _ ++ _).
  assert (Hfit : fits data) by (unfold fits; vm_compute; discriminate).
  destruct (bigram_readers_agree data Hfit) as (H1 & _ & H3). split; [done|]. split.
  - apply H1. vm_compute. lia.
  - apply H3; [done|]. rewrite !Forall_cons, Forall_nil. done.
Defined.
