(* ===== verification/UserRecords.v ===== *)
(** * UserRecords: the records of a user table

    [crates/oxpinyin-user/src/user_index.rs] and [user_phrase_table.rs] keep
    a loaded database table the same way: one arena of records, a sorted
    vector of their offsets, and an ordered overlay of the records a session
    edited. This file is that storage; the two tables are built on it.

    An offset or length that leaves the arena panics in the source; it is
    [None] here, and [records_ok] is what rules it out. *)

From Stdlib Require Import ZArith Lia Bool Strings.Byte.
From stdpp Require Import base list sorting.
From S2P Require Import Prelude ByteOrder Sorting Ucs4.

(** ** Prefixes *)

(** [slice::starts_with]. *)
Definition starts_with (key prefix : bytes) : bool :=
  bool_decide (take (length prefix) key = prefix).

(** ** Ordered maps and sorting

    A [BTreeMap] is its entries in key order. *)
Abbreviation row := (bytes * bytes)%type.

Fixpoint bt_get (m : list row) (key : bytes) : option bytes :=
  match m with
  | [] => None
  | (k, v) :: m =>
      match bytes_cmp key k with
      | Lt => None
      | Eq => Some v
      | Gt => bt_get m key
      end
  end.

Fixpoint bt_insert (m : list row) (key value : bytes) : list row :=
  match m with
  | [] => [(key, value)]
  | (k, v) :: rest =>
      match bytes_cmp key k with
      | Lt => (key, value) :: m
      | Eq => (key, value) :: rest
      | Gt => (k, v) :: bt_insert rest key value
      end
  end.

(** [BTreeMap::range(from..)]. *)
Fixpoint bt_range (m : list row) (from : bytes) : list row :=
  match m with
  | [] => []
  | (k, v) :: rest => match bytes_cmp k from with Lt => bt_range rest from | _ => m end
  end.

(** ** The storage *)

Definition HEADER : nat := 8.

Record Records : Type := {
  arena : bytes;
  offsets : list Z;
  overlay : list row
}.

Definition records_new : Records := {| arena := []; offsets := []; overlay := [] |}.

(** [u32::try_from(len).unwrap_or(u32::MAX)]. *)
Definition u32_of_len (len : nat) : Z := Z.min (Z.of_nat len) u32_max.

(** One arena record: both lengths, the key, the value. *)
Definition record_bytes (key value : bytes) : bytes :=
  le32 (u32_of_len (length key)) ++ le32 (u32_of_len (length value)) ++ key ++ value.

Definition append_record (st : bytes * list Z) (key value : bytes) : bytes * list Z :=
  (st.1 ++ record_bytes key value, st.2 ++ [u32_of_len (length st.1)]).

Definition len_at (arena : bytes) (at_ : nat) : option nat :=
  Z.to_nat ∘ le_value <$> subslice arena at_ (at_ + 4).

Definition key_at (arena : bytes) (offset : Z) : option bytes :=
  let at_ := Z.to_nat offset in
  len ← len_at arena at_;
  subslice arena (at_ + HEADER) (at_ + HEADER + len).

Definition value_at (arena : bytes) (offset : Z) : option bytes :=
  let at_ := Z.to_nat offset in
  key_len ← len_at arena at_;
  value_len ← len_at arena (at_ + 4);
  subslice arena (at_ + HEADER + key_len) (at_ + HEADER + key_len + value_len).

(** A comparison against the key of an offset. *)
Definition cmp_at (arena : bytes) (offset : Z) (key : bytes) : comparison :=
  bytes_cmp (default [] (key_at arena offset)) key.

Definition push_record (st : Records) (key value : bytes) : Records :=
  let p := append_record (arena st, offsets st) key value in
  {| arena := p.1; offsets := p.2; overlay := overlay st |}.

Definition finish_load (st : Records) : Records :=
  {| arena := arena st;
     offsets := sort_by (fun left right =>
                  cmp_at (arena st) left (default [] (key_at (arena st) right))) (offsets st);
     overlay := overlay st |}.

Definition from_entries (entries : list row) : Records :=
  finish_load (fold_left (fun st e => push_record st e.1 e.2) entries records_new).

Definition arena_record (st : Records) (key : bytes) : option bytes :=
  match binary_search_by (fun offset => cmp_at (arena st) offset key) (offsets st) with
  | inl at_ => offset ← offsets st !! at_; value_at (arena st) offset
  | inr _ => None
  end.

Definition record (st : Records) (key : bytes) : option bytes :=
  match bt_get (overlay st) key with
  | Some value => Some value
  | None => arena_record st key
  end.

Definition is_some {A} (o : option A) : bool := match o with Some _ => true | None => false end.

Definition contains_key (st : Records) (key : bytes) : bool :=
  is_some (bt_get (overlay st) key) || is_some (arena_record st key).

Definition contains_arena_key (st : Records) (key : bytes) : bool :=
  match binary_search_by (fun offset => cmp_at (arena st) offset key) (offsets st) with
  | inl _ => true
  | inr _ => false
  end.

(** [self.overlay.insert(key, value)]. *)
Definition put (st : Records) (key value : bytes) : Records :=
  {| arena := arena st; offsets := offsets st; overlay := bt_insert (overlay st) key value |}.

(** The overlay entries below a key, and the rest. *)
Fixpoint split_below (key : bytes) (m : list row) : list row * list row :=
  match m with
  | (k, v) :: rest =>
      match bytes_cmp k key with
      | Lt => let p := split_below key rest in ((k, v) :: p.1, p.2)
      | _ => ([], m)
      end
  | [] => ([], [])
  end.

(** The order in which [for_each_record] visits. *)
Fixpoint merged_rows (arena : bytes) (offsets : list Z) (overlay : list row) : list row :=
  match offsets with
  | [] => overlay
  | offset :: offsets =>
      let key := default [] (key_at arena offset) in
      let '(below, rest) := split_below key overlay in
      below ++
      match rest with
      | (k, v) :: rest' =>
          if bool_decide (k = key) then (k, v) :: merged_rows arena offsets rest'
          else (key, default [] (value_at arena offset)) :: merged_rows arena offsets rest
      | [] => (key, default [] (value_at arena offset)) :: merged_rows arena offsets []
      end
  end.

Definition visited (st : Records) : list row :=
  merged_rows (arena st) (offsets st) (overlay st).

(** [for_each_record]: a visit changes the caller's state and may stop the
    walk. *)
Fixpoint visit_rows {S E} (visit : S -> bytes -> bytes -> S * result unit E) (s : S)
    (rows : list row) : S * result unit E :=
  match rows with
  | [] => (s, Ok tt)
  | (k, v) :: rows =>
      match visit s k v with
      | (s, Ok _) => visit_rows visit s rows
      | (s, Err e) => (s, Err e)
      end
  end.

Definition for_each_record {S E} (visit : S -> bytes -> bytes -> S * result unit E)
    (st : Records) (s : S) : S * result unit E := visit_rows visit s (visited st).

(** The arena keys from [start] on while they carry the prefix. *)
Definition arena_keys_with (st : Records) (prefix : bytes) : list bytes :=
  let start := partition_point (fun offset =>
    match cmp_at (arena st) offset prefix with Lt => true | _ => false end) (offsets st) in
  take_while (fun key => starts_with key prefix)
    ((fun offset => default [] (key_at (arena st) offset)) <$> drop start (offsets st)).

Definition overlay_keys_with (st : Records) (prefix : bytes) : list bytes :=
  filter (fun key => contains_arena_key st key = false)
    (take_while (fun key => starts_with key prefix) (bt_range (overlay st) prefix).*1).

Definition keys_starting_with (st : Records) (prefix : bytes) : list bytes :=
  sort_by bytes_cmp (arena_keys_with st prefix ++ overlay_keys_with st prefix).

(** [rows]: the arena records with the overlay's edits, the overlay's own
    keys after them, sorted. *)
Definition rows (st : Records) : list row :=
  sort_by (fun left right => bytes_cmp left.1 right.1)
    (((fun offset =>
         let key := default [] (key_at (arena st) offset) in
         (key, default (default [] (value_at (arena st) offset)) (bt_get (overlay st) key)))
       <$> offsets st)
     ++ filter (fun e => contains_arena_key st e.1 = false) (overlay st)).

(** The table's keys, merged and sorted. *)
Definition keys (st : Records) : list bytes :=
  sort_by bytes_cmp
    (((fun offset => default [] (key_at (arena st) offset)) <$> offsets st)
     ++ filter (fun key => contains_arena_key st key = false) (overlay st).*1).

(** ** Ordered rows *)

Definition ordered_rows : list row -> Prop := StronglySorted (fun e e' => bytes_lt e.1 e'.1).

Lemma ordered_above (e : row) l : ordered_rows (e :: l) -> forall e', e' ∈ l -> bytes_lt e.1 e'.1.
Proof. intros [_ H]%StronglySorted_inv e' He'. rewrite Forall_forall in H. by apply H. Qed.

Lemma ordered_tail (e : row) l : ordered_rows (e :: l) -> ordered_rows l.
Proof. by intros [H _]%StronglySorted_inv. Qed.

Lemma ordered_unique l k v v' : ordered_rows l -> (k, v) ∈ l -> (k, v') ∈ l -> v = v'.
Proof.
  induction l as [|e l IH]; intros Ho; [by intros ?%not_elem_of_nil|].
  pose proof (ordered_above e l Ho) as Ha.
  intros [<-|H1]%elem_of_cons [H2|H2]%elem_of_cons.
  - by injection H2.
  - apply Ha in H2. by apply bytes_lt_ne in H2.
  - subst e. apply Ha in H1. by apply bytes_lt_ne in H1.
  - by apply IH; [by eapply ordered_tail| |].
Qed.

Lemma bt_get_spec m key v : ordered_rows m -> bt_get m key = Some v <-> (key, v) ∈ m.
Proof.
  induction m as [|[k w] m IH]; intros Ho; [split; [done|by intros ?%not_elem_of_nil]|].
  pose proof (ordered_above _ _ Ho) as Ha. cbn [fst] in Ha. cbn [bt_get].
  rewrite elem_of_cons. destruct (bytes_cmp_spec key k) as [Hlt| ->|Hgt].
  - split; [done|]. intros [[= -> ->]|Hin]; [by apply bytes_lt_self in Hlt|].
    apply Ha in Hin. cbn in Hin. exfalso. apply (bytes_lt_self key). by transitivity k.
  - split; [by intros [= ->]; left|]. intros [[= ->]|Hin]; [done|].
    apply Ha in Hin. by apply bytes_lt_ne in Hin.
  - rewrite IH by by eapply ordered_tail. split; [by right|].
    intros [[= -> ->]|Hin]; [by apply bytes_lt_self in Hgt|done].
Qed.

Lemma elem_of_bt_insert m key value e :
  ordered_rows m -> e ∈ bt_insert m key value <-> e = (key, value) \/ (e ∈ m /\ e.1 <> key).
Proof.
  induction m as [|[k w] m IH]; intros Ho; cbn [bt_insert].
  { rewrite elem_of_cons, elem_of_nil. tauto. }
  pose proof (ordered_above _ _ Ho) as Ha. cbn [fst] in Ha.
  destruct (bytes_cmp_spec key k) as [Hlt| ->|Hgt].
  - rewrite !elem_of_cons. split; [|tauto]. intros [->|[->|Hin]]; [by left|right..].
    + split; [by left|]. cbn. intros ->. by apply bytes_lt_self in Hlt.
    + split; [by right|]. intros <-. apply Ha in Hin. apply (bytes_lt_self e.1). by transitivity k.
  - rewrite !elem_of_cons. split.
    + intros [->|Hin]; [by left|right]. split; [by right|]. intros He. apply Ha in Hin.
      rewrite He in Hin. by apply bytes_lt_self in Hin.
    + intros [->|[[->|Hin] Hne]]; [by left|done|by right].
  - rewrite !elem_of_cons, IH by by eapply ordered_tail. split; [|tauto].
    intros [->|[->|[Hin Hne]]]; [right|by left|right; split; [by right|done]].
    split; [by left|]. cbn. intros ->. by apply bytes_lt_self in Hgt.
Qed.

Lemma bt_insert_ordered m key value : ordered_rows m -> ordered_rows (bt_insert m key value).
Proof.
  induction m as [|[k w] m IH]; intros Ho; cbn [bt_insert]; [by repeat constructor|].
  pose proof (ordered_above _ _ Ho) as Ha. cbn [fst] in Ha.
  destruct (bytes_cmp_spec key k) as [Hlt| ->|Hgt].
  - constructor; [done|]. apply Forall_forall. intros e [->|Hin]%elem_of_cons; [done|].
    apply Ha in Hin. by transitivity k.
  - constructor; [by eapply ordered_tail|]. by apply Forall_forall.
  - constructor; [by apply IH; eapply ordered_tail|]. apply Forall_forall.
    intros e [->|[Hin _]]%elem_of_bt_insert; [done|by apply Ha|by eapply ordered_tail].
Qed.

(** ** The merged walk *)

Fixpoint merge_rows (base over : list row) : list row :=
  match base with
  | [] => over
  | (key, value) :: base =>
      let '(below, rest) := split_below key over in
      below ++
      match rest with
      | (k, v) :: rest' =>
          if bool_decide (k = key) then (k, v) :: merge_rows base rest'
          else (key, value) :: merge_rows base rest
      | [] => (key, value) :: merge_rows base []
      end
  end.

Definition row_at (arena : bytes) (offset : Z) : row :=
  (default [] (key_at arena offset), default [] (value_at arena offset)).

Lemma merged_rows_merge a offs ov : merged_rows a offs ov = merge_rows (row_at a <$> offs) ov.
Proof.
  revert ov. induction offs as [|o offs IH]; intros ov; [done|].
  rewrite fmap_cons. cbn [merged_rows merge_rows row_at].
  destruct (split_below _ ov) as [below [|[k v] rest]]; rewrite ?IH; [done|].
  case_bool_decide; by rewrite ?IH.
Qed.

Lemma split_below_spec key m below rest :
  ordered_rows m -> split_below key m = (below, rest) ->
  m = below ++ rest /\ (forall e, e ∈ below -> bytes_lt e.1 key) /\
  (forall e, e ∈ rest -> ~ bytes_lt e.1 key).
Proof.
  revert below rest. induction m as [|[k v] m IH]; intros below rest Ho; cbn [split_below].
  { intros [= <- <-]. split; [done|]. split; by intros e ?%not_elem_of_nil. }
  pose proof (ordered_above _ _ Ho) as Ha. cbn [fst] in Ha.
  assert (Hstop : ~ bytes_lt k key -> (below, rest) = ([], (k, v) :: m) ->
    (k, v) :: m = below ++ rest /\ (forall e, e ∈ below -> bytes_lt e.1 key) /\
    (forall e, e ∈ rest -> ~ bytes_lt e.1 key)).
  { intros Hk [= -> ->]. split; [done|]. split; [by intros e ?%not_elem_of_nil|].
    intros e [->|He]%elem_of_cons; [done|]. apply Ha in He. intros H. apply Hk. by transitivity e.1. }
  destruct (bytes_cmp_spec k key) as [Hlt| ->|Hgt].
  - destruct (split_below key m) as [b r] eqn:E. intros [= <- <-].
    destruct (IH b r) as (-> & Hb & Hr); [by eapply ordered_tail|done|].
    split; [done|]. split; [|done]. intros e [->|He]%elem_of_cons; [done|by apply Hb].
  - intros [= <- <-]. apply Hstop; [apply bytes_lt_self|done].
  - intros [= <- <-]. apply Hstop; [|done]. intros H. apply (bytes_lt_self k). by transitivity key.
Qed.

Lemma ordered_rows_app l k :
  ordered_rows (l ++ k) <->
  ordered_rows l /\ ordered_rows k /\ forall e e', e ∈ l -> e' ∈ k -> bytes_lt e.1 e'.1.
Proof. unfold ordered_rows. rewrite StronglySorted_app. tauto. Qed.

(** The walk meets the overlay's rows, and the base's rows whose keys it
    does not hold. *)
Lemma elem_of_merge_rows base over e :
  ordered_rows base -> ordered_rows over ->
  e ∈ merge_rows base over <-> e ∈ over \/ (e ∈ base /\ forall e', e' ∈ over -> e'.1 <> e.1).
Proof.
  revert over. induction base as [|[key value] base IH]; intros over Hb Ho; cbn [merge_rows].
  { rewrite elem_of_nil. tauto. }
  pose proof (ordered_above _ _ Hb) as Ha. cbn [fst] in Ha. apply ordered_tail in Hb.
  destruct (split_below key over) as [below rest] eqn:E.
  destruct (split_below_spec key over below rest Ho E) as (-> & Hlow & Hrest).
  pose proof Ho as (Hob & Hor & Hbr)%ordered_rows_app.
  rewrite elem_of_app.
  assert (Hbase : forall e', e' ∈ base -> forall e'', e'' ∈ below -> e''.1 <> e'.1).
  { intros e' He' e'' He'' Heq. apply Ha in He'. apply Hlow in He''. rewrite Heq in He''.
    apply (bytes_lt_self key). by transitivity e'.1. }
  destruct rest as [|[k v] rest].
  - rewrite elem_of_cons, IH by (done || constructor). setoid_rewrite elem_of_app.
    setoid_rewrite elem_of_nil. setoid_rewrite elem_of_cons. split.
    + intros [?|[->|[[]|[? _]]]]; [tauto|right|right].
      * split; [tauto|]. intros e' [He'|[]]. apply Hlow in He'. by apply bytes_lt_ne in He'.
      * split; [tauto|]. intros e' [He'|[]]. by apply Hbase.
    + intros [[?|[]]|[[->|?] _]]; [tauto|tauto|]. right. right. right. split; [done|]. by intros e' ?.
  - apply ordered_tail in Hor as Hor'. pose proof (ordered_above _ _ Hor) as Har. cbn [fst] in Har.
    case_bool_decide as Hk; [subst k|].
    + rewrite elem_of_cons, IH by done. setoid_rewrite elem_of_app. setoid_rewrite elem_of_cons. split.
      * intros [?|[->|[?|[Hin Hd]]]]; [tauto..|]. right. split; [tauto|].
        intros e' [He'|[->|He']]; [by apply Hbase| |by apply Hd]. cbn. intros Heq.
        apply Ha in Hin. rewrite <- Heq in Hin. by apply bytes_lt_self in Hin.
      * intros [[?|[->|?]]|[[->|Hin] Hd]]; [tauto..| |].
        { exfalso. apply (Hd (key, v)); [tauto|done]. }
        right. right. right. split; [done|]. intros e' He'. apply Hd. tauto.
    + assert (Hkey : bytes_lt key k).
      { destruct (bytes_cmp_spec k key) as [Hlt| ->|]; [|done|done].
        exfalso. by apply (Hrest (k, v) (list_elem_of_here _ _)). }
      rewrite elem_of_cons, IH by done. setoid_rewrite elem_of_app. split.
      * intros [?|[->|[?|[Hin Hd]]]]; [tauto| |tauto|].
        { right. split; [by left|]. intros e' [He'|[->|He']%elem_of_cons].
          - apply Hlow in He'. by apply bytes_lt_ne in He'.
          - done.
          - apply Har in He'. cbn. intros Heq. rewrite Heq in He'.
            apply (bytes_lt_self key). by transitivity k. }
        right. split; [by right|]. intros e' [He'|He']; [by apply Hbase|by apply Hd].
      * intros [[?|?]|[[->|Hin]%elem_of_cons Hd]]; [tauto..| |].
        { tauto. }
        right. right. right. split; [done|]. intros e' He'. apply Hd. tauto.
Qed.

Lemma merge_rows_ordered base over :
  ordered_rows base -> ordered_rows over -> ordered_rows (merge_rows base over).
Proof.
  revert over. induction base as [|[key value] base IH]; intros over Hb Ho; cbn [merge_rows]; [done|].
  pose proof (ordered_above _ _ Hb) as Ha. cbn [fst] in Ha. apply ordered_tail in Hb.
  destruct (split_below key over) as [below rest] eqn:E.
  destruct (split_below_spec key over below rest Ho E) as (-> & Hlow & Hrest).
  pose proof Ho as (Hob & Hor & Hbr)%ordered_rows_app.
  assert (Hcons : forall over' v, ordered_rows over' ->
            (forall e, e ∈ over' -> bytes_lt key e.1) -> ordered_rows (below ++ (key, v) :: merge_rows base over')).
  { intros over' v Ho' Hab. apply ordered_rows_app. split; [done|].
    assert (Hall : forall e, e ∈ merge_rows base over' -> bytes_lt key e.1).
    { intros e [He|[He _]]%elem_of_merge_rows; [by apply Hab|by apply Ha|done|done]. }
    split; [constructor; [by apply IH|by apply Forall_forall]|].
    intros e e' He [->|He']%elem_of_cons; [by apply Hlow|].
    transitivity key; [by apply Hlow|by apply Hall]. }
  destruct rest as [|[k v] rest].
  - apply Hcons; [constructor|]. by intros e ?%not_elem_of_nil.
  - pose proof (ordered_above _ _ Hor) as Har. cbn [fst] in Har. apply ordered_tail in Hor as Hor'.
    case_bool_decide as Hk; [subst k; by apply Hcons|]. apply Hcons; [done|].
    assert (Hkey : bytes_lt key k).
    { destruct (bytes_cmp_spec k key) as [Hlt| ->|]; [|done|done].
      exfalso. by apply (Hrest (k, v) (list_elem_of_here _ _)). }
    intros e [->|He]%elem_of_cons; [done|]. transitivity k; [done|by apply Har].
Qed.

(** ** Well-formed storage *)

Definition arena_rows (st : Records) : list row := row_at (arena st) <$> offsets st.

Record records_ok (st : Records) : Prop := {
  ok_held : forall o, o ∈ offsets st -> exists k v,
    key_at (arena st) o = Some k /\ value_at (arena st) o = Some v;
  ok_base : ordered_rows (arena_rows st);
  ok_overlay : ordered_rows (overlay st)
}.

Lemma records_ok_new : records_ok records_new.
Proof. split; [by intros o ?%not_elem_of_nil|constructor|constructor]. Qed.

Lemma ordered_lookup l i j e e' :
  ordered_rows l -> l !! i = Some e -> l !! j = Some e' -> i < j -> bytes_lt e.1 e'.1.
Proof.
  revert i j. induction l as [|x l IH]; intros i j Ho Hi Hj Hij; [done|].
  destruct j as [|j]; [lia|]. cbn in Hj. destruct i as [|i].
  - injection Hi as ->. eapply ordered_above; [exact Ho|by eapply list_elem_of_lookup_2].
  - apply (IH i j); [by eapply ordered_tail|done|done|lia].
Qed.

Section held.
Context (st : Records) (Hok : records_ok st).

Lemma cmp_ascending key :
  ascending_cmp (fun o => cmp_at (arena st) o key) (offsets st).
Proof using Hok.
  intros i j x y Hij Hx Hy. unfold cmp_at.
  assert (Hlt : bytes_lt (row_at (arena st) x).1 (row_at (arena st) y).1).
  { eapply (ordered_lookup (arena_rows st) i j); [apply Hok|..|done];
      unfold arena_rows; by rewrite list_lookup_fmap, ?Hx, ?Hy. }
  cbn [row_at fst] in Hlt.
  destruct (bytes_cmp_spec (default [] (key_at (arena st) x)) key) as [H1|H1|H1];
  destruct (bytes_cmp_spec (default [] (key_at (arena st) y)) key) as [H2|H2|H2];
    split; intros Hc; try done; exfalso.
  - rewrite H1 in Hlt. apply (bytes_lt_self key). by transitivity (default [] (key_at (arena st) y)).
  - apply (bytes_lt_self key). transitivity (default [] (key_at (arena st) x)); [done|].
    by transitivity (default [] (key_at (arena st) y)).
  - apply (bytes_lt_self key). transitivity (default [] (key_at (arena st) x)); [done|].
    by transitivity (default [] (key_at (arena st) y)).
  - rewrite H2 in Hlt. apply (bytes_lt_self key). by transitivity (default [] (key_at (arena st) x)).
Qed.

Lemma arena_record_spec key v : arena_record st key = Some v <-> (key, v) ∈ arena_rows st.
Proof using Hok.
  unfold arena_record. pose proof (binary_search_by_spec _ _ (cmp_ascending key)) as H.
  destruct (binary_search_by _ _) as [i|i].
  - destruct H as (o & Ho & Hc). rewrite Ho. cbn [mbind option_bind].
    destruct (ok_held st Hok o) as (k & w & Hk & Hw); [by eapply list_elem_of_lookup_2|].
    unfold cmp_at in Hc. rewrite Hk in Hc. cbn in Hc. apply bytes_cmp_eq in Hc as ->. rewrite Hw.
    assert (Hin : (key, w) ∈ arena_rows st).
    { unfold arena_rows. apply list_elem_of_fmap. exists o. unfold row_at. rewrite Hk, Hw.
      split; [done|by eapply list_elem_of_lookup_2]. }
    split; [by intros [= <-]|]. intros Hv. f_equal.
    eapply ordered_unique; [apply Hok|exact Hin|exact Hv].
  - destruct H as [_ H]. split; [done|]. intros (o & Heq & [j Hj]%list_elem_of_lookup)%list_elem_of_fmap.
    specialize (H j o Hj). unfold cmp_at in H. unfold row_at in Heq. injection Heq as Hk _.
    rewrite <- Hk, (proj2 (bytes_cmp_eq key key) eq_refl) in H. by case_decide.
Qed.

Lemma contains_arena_key_spec key :
  contains_arena_key st key = is_some (arena_record st key).
Proof using Hok.
  unfold contains_arena_key, arena_record.
  pose proof (binary_search_by_spec _ _ (cmp_ascending key)) as H.
  destruct (binary_search_by _ _) as [i|i]; [|done].
  destruct H as (o & Ho & _). rewrite Ho. cbn [mbind option_bind].
  destruct (ok_held st Hok o) as (k & w & _ & ->); [by eapply list_elem_of_lookup_2|done].
Qed.

(** The storage is a map: what a key answers is what the walk meets. *)
Lemma record_spec key v : record st key = Some v <-> (key, v) ∈ visited st.
Proof using Hok.
  unfold record, visited. rewrite merged_rows_merge. fold (arena_rows st).
  rewrite elem_of_merge_rows by apply Hok.
  destruct (bt_get (overlay st) key) as [w|] eqn:E.
  - apply bt_get_spec in E; [|apply Hok]. split; [by intros [= <-]; left|].
    intros [H|[_ H]]; [f_equal; exact (ordered_unique _ _ _ _ (ok_overlay st Hok) E H)|].
    by destruct (H _ E).
  - rewrite arena_record_spec. split.
    + intros H. right. split; [done|]. intros [k w] Hin. cbn. intros ->.
      apply bt_get_spec in Hin; [congruence|apply Hok].
    + intros [H|[H _]]; [|done]. apply bt_get_spec in H; [congruence|apply Hok].
Qed.

Lemma visited_ordered : ordered_rows (visited st).
Proof using Hok.
  unfold visited. rewrite merged_rows_merge. apply merge_rows_ordered; apply Hok.
Qed.

Lemma contains_key_spec key : contains_key st key = is_some (record st key).
Proof using Type. unfold contains_key, record. by destruct (bt_get _ _). Qed.

Lemma put_ok key value : records_ok (put st key value).
Proof using Hok. destruct Hok. split; [done|done|by apply bt_insert_ordered]. Qed.

Lemma record_put key value k :
  record (put st key value) k = if decide (k = key) then Some value else record st k.
Proof using Hok.
  assert (Hget : bt_get (bt_insert (overlay st) key value) k
                 = if decide (k = key) then Some value else bt_get (overlay st) k).
  { apply option_eq. intros v. rewrite bt_get_spec by (apply bt_insert_ordered, Hok).
    rewrite elem_of_bt_insert by apply Hok. case_decide as Hk.
    - subst k. split; [intros [[= ->]|[_ H]]; done|]. intros [= ->]. by left.
    - rewrite bt_get_spec by apply Hok. split; [intros [[= -> ->]|[H _]]; done|]. intros H. by right. }
  unfold record, put. cbn [overlay]. rewrite Hget. case_decide; [done|].
  destruct (bt_get (overlay st) k); done.
Qed.
End held.

(** ** Loading *)

Lemma len_at_app a k at_ n : len_at a at_ = Some n -> len_at (a ++ k) at_ = Some n.
Proof.
  unfold len_at. destruct (subslice a at_ (at_ + 4)) as [s|] eqn:E; [|done].
  by rewrite (subslice_app _ _ _ _ _ E).
Qed.

Lemma key_at_app a x o k : key_at a o = Some k -> key_at (a ++ x) o = Some k.
Proof.
  unfold key_at. cbv zeta. destruct (len_at a (Z.to_nat o)) as [n|] eqn:E; [|done].
  rewrite (len_at_app _ _ _ _ E). cbn. apply subslice_app.
Qed.

Lemma value_at_app a x o v : value_at a o = Some v -> value_at (a ++ x) o = Some v.
Proof.
  unfold value_at. cbv zeta. destruct (len_at a (Z.to_nat o)) as [n|] eqn:E; [|done].
  rewrite (len_at_app _ _ _ _ E). cbn.
  destruct (len_at a (Z.to_nat o + 4)) as [m|] eqn:E'; [|done].
  rewrite (len_at_app _ _ _ _ E'). cbn. apply subslice_app.
Qed.

Lemma u32_of_len_fits n : (Z.of_nat n <= u32_max)%Z -> u32_of_len n = Z.of_nat n.
Proof. unfold u32_of_len. lia. Qed.

Lemma length_record_bytes key value :
  length (record_bytes key value) = HEADER + length key + length value.
Proof. unfold record_bytes, HEADER. rewrite !length_app, !length_le32. lia. Qed.

Lemma le32_of_len n :
  (Z.of_nat n <= u32_max)%Z -> Z.to_nat (le_value (le32 (u32_of_len n))) = n.
Proof.
  intros H. rewrite u32_of_len_fits, le_value_le32, wrap32_small by (done || width_lia). lia.
Qed.

(** The record just appended is the one its offset names. *)
Lemma row_at_appended a key value x :
  (Z.of_nat (length (a ++ record_bytes key value)) <= u32_max)%Z ->
  let o := u32_of_len (length a) in
  key_at (a ++ record_bytes key value ++ x) o = Some key /\
  value_at (a ++ record_bytes key value ++ x) o = Some value.
Proof.
  rewrite length_app, length_record_bytes. unfold HEADER. intros Hfit. cbv zeta.
  rewrite u32_of_len_fits by lia. unfold key_at, value_at, len_at. rewrite Nat2Z.id.
  unfold record_bytes at 1 2 3 4 5. unfold HEADER. rewrite <- !app_assoc.
  set (kl := le32 (u32_of_len (length key))). set (vl := le32 (u32_of_len (length value))).
  assert (Hkl : length kl = 4) by apply length_le32. assert (Hvl : length vl = 4) by apply length_le32.
  assert (Hk : subslice (a ++ kl ++ vl ++ key ++ value ++ x) (length a) (length a + 4) = Some kl)
    by (apply subslice_middle; lia).
  assert (Hv : subslice (a ++ kl ++ vl ++ key ++ value ++ x) (length a + 4) (length a + 4 + 4) = Some vl).
  { rewrite (app_assoc a kl). apply subslice_middle; rewrite length_app; lia. }
  rewrite Hk. cbn [fmap option_fmap option_map mbind option_bind compose].
  rewrite Hv. cbn [fmap option_fmap option_map mbind option_bind compose].
  unfold compose.
  assert (Z.to_nat (le_value kl) = length key) as -> by (apply le32_of_len; lia).
  assert (Z.to_nat (le_value vl) = length value) as -> by (apply le32_of_len; lia). split.
  - rewrite (app_assoc a kl), (app_assoc (a ++ kl) vl).
    apply subslice_middle; rewrite !length_app; lia.
  - rewrite (app_assoc a kl), (app_assoc (a ++ kl) vl), (app_assoc ((a ++ kl) ++ vl) key).
    apply subslice_middle; rewrite !length_app; lia.
Qed.

(** ** Sorting by a key *)

Section sort.
Context {A : Type} (f : A -> bytes).
Local Abbreviation cmp := (fun x y => bytes_cmp (f x) (f y)).

Lemma sort_by_strict l :
  NoDup (f <$> l) -> StronglySorted (fun x y => bytes_lt (f x) (f y)) (sort_by cmp l).
Proof.
  induction l as [|x l IH]; intros Hnd; [constructor|]. rewrite fmap_cons in Hnd.
  apply NoDup_cons in Hnd as [Hx Hnd]. specialize (IH Hnd).
  assert (Hin : forall y, y ∈ sort_by cmp l -> f y <> f x).
  { intros y Hy He. rewrite sort_by_perm in Hy. apply Hx. rewrite <- He. by apply list_elem_of_fmap_2. }
  cbn [sort_by foldr]. fold (sort_by cmp l). revert Hin IH. generalize (sort_by cmp l) as k. clear.
  induction k as [|y k IHk]; intros Hin Hs; [by repeat constructor|].
  apply StronglySorted_inv in Hs as [Hs Hy]. cbn [insert_by].
  destruct (bytes_cmp_spec (f x) (f y)) as [Hlt|Heq|Hgt].
  - constructor; [by constructor|]. constructor; [done|].
    eapply Forall_impl; [exact Hy|]. intros z Hz. cbn in *. by transitivity (f y).
  - destruct (Hin y); [by apply list_elem_of_here|done].
  - constructor.
    + apply IHk; [|done]. intros z Hz. apply Hin. by apply list_elem_of_further.
    + rewrite insert_by_perm. by constructor.
Qed.
End sort.

Lemma ordered_keys_nodup l : ordered_rows l -> NoDup l.*1.
Proof.
  induction l as [|e l IH]; intros Ho; [constructor|]. rewrite fmap_cons. constructor.
  - intros (e' & He & Hin)%list_elem_of_fmap. apply (ordered_above _ _ Ho) in Hin.
    rewrite He in Hin. by apply bytes_lt_self in Hin.
  - by eapply IH, ordered_tail.
Qed.

(** ** Loading *)

(** The arena a list of records takes. *)
Definition arena_size (entries : list row) : nat :=
  sum_list_with (fun e => HEADER + length e.1 + length e.2) entries.

(** Offsets that name the given rows, in order. *)
Definition names (p : bytes * list Z) (rows : list row) : Prop :=
  row_at p.1 <$> p.2 = rows /\
  (forall o, o ∈ p.2 -> exists k v, key_at p.1 o = Some k /\ value_at p.1 o = Some v) /\
  length p.1 = arena_size rows.

Lemma names_append p rows key value :
  names p rows -> (Z.of_nat (arena_size (rows ++ [(key, value)])) <= u32_max)%Z ->
  names (append_record p key value) (rows ++ [(key, value)]).
Proof.
  intros (Hrows & Hheld & Hlen) Hfit. destruct p as [a offs]. cbn [fst snd] in *.
  assert (Hsize : length (a ++ record_bytes key value) = arena_size (rows ++ [(key, value)])).
  { unfold arena_size in *. rewrite length_app, length_record_bytes, Hlen, sum_list_with_app. cbn. lia. }
  destruct (row_at_appended a key value []) as [Hk Hv]; [by rewrite Hsize|].
  rewrite app_nil_r in Hk, Hv. unfold append_record, names. cbn [fst snd]. split; [|split; [|done]].
  - rewrite fmap_app. f_equal.
    + rewrite <- Hrows. apply list_fmap_ext. intros i o Ho. unfold row_at.
      destruct (Hheld o) as (k & v & Ek & Ev); [by eapply list_elem_of_lookup_2|].
      by rewrite (key_at_app _ _ _ _ Ek), (value_at_app _ _ _ _ Ev), Ek, Ev.
    + cbn [fmap list_fmap]. unfold row_at. by rewrite Hk, Hv.
  - intros o [Ho|Ho]%elem_of_app.
    + destruct (Hheld o Ho) as (k & v & Ek & Ev). exists k, v.
      by rewrite (key_at_app _ _ _ _ Ek), (value_at_app _ _ _ _ Ev).
    + apply list_elem_of_singleton in Ho as ->. by exists key, value.
Qed.

Lemma arena_size_app l k : arena_size (l ++ k) = arena_size l + arena_size k.
Proof. apply sum_list_with_app. Qed.

(** Appending rows one by one, as the load and the mask walk do. *)
Lemma names_fold entries p rows :
  names p rows -> (Z.of_nat (arena_size (rows ++ entries)) <= u32_max)%Z ->
  names (fold_left (fun p e => append_record p e.1 e.2) entries p) (rows ++ entries).
Proof.
  revert p rows. induction entries as [|[k v] entries IH]; intros p rows Hn Hfit; cbn [fold_left].
  - by rewrite app_nil_r.
  - rewrite cons_middle, app_assoc in Hfit |- *. apply IH; [|done].
    apply names_append; [done|]. rewrite arena_size_app in Hfit. lia.
Qed.

Lemma push_all_fold entries st :
  let st' := fold_left (fun st e => push_record st e.1 e.2) entries st in
  let p := fold_left (fun p e => append_record p e.1 e.2) entries (arena st, offsets st) in
  arena st' = p.1 /\ offsets st' = p.2 /\ overlay st' = overlay st.
Proof.
  revert st. induction entries as [|e entries IH]; intros st; [done|]. cbn [fold_left].
  destruct (IH (push_record st e.1 e.2)) as (-> & -> & ->). done.
Qed.

Lemma names_ok a offs rows ov :
  names (a, offs) rows -> ordered_rows rows -> ordered_rows ov ->
  records_ok {| arena := a; offsets := offs; overlay := ov |}.
Proof.
  intros (Hrows & Hheld & _) Ho Hov. split; [done| |done]. unfold arena_rows. cbn. cbn in Hrows.
  by rewrite Hrows.
Qed.

Lemma finish_load_names a offs rows ov :
  names (a, offs) rows -> NoDup rows.*1 -> ordered_rows ov ->
  let st := finish_load {| arena := a; offsets := offs; overlay := ov |} in
  records_ok st /\ arena_rows st ≡ₚ rows.
Proof.
  intros (Hrows & Hheld & Hlen) Hnd Hov. cbn [fst snd] in *. unfold finish_load. cbn [arena offsets].
  set (key o := default [] (key_at a o)).
  change (fun left right => cmp_at a left (default [] (key_at a right)))
    with (fun left right => bytes_cmp (key left) (key right)).
  set (offs' := sort_by _ offs).
  assert (Hperm : offs' ≡ₚ offs) by apply sort_by_perm.
  assert (Hkeys : key <$> offs = rows.*1).
  { rewrite <- Hrows, <- list_fmap_compose. done. }
  split; [split; [| |done]|].
  - intros o. cbn. rewrite Hperm. apply Hheld.
  - unfold arena_rows, ordered_rows. cbn [arena offsets].
    assert (Hs : StronglySorted (fun x y => bytes_lt (key x) (key y)) offs').
    { apply sort_by_strict. by rewrite Hkeys. }
    clear -Hs. induction Hs as [|o l _ IH Ho]; [constructor|]. rewrite fmap_cons. constructor; [done|].
    apply Forall_fmap. eapply Forall_impl; [exact Ho|]. done.
  - unfold arena_rows. cbn [arena offsets]. rewrite Hperm. by rewrite Hrows.
Qed.

Lemma names_nil : names ([], []) [].
Proof. split; [done|]. split; [by intros o ?%not_elem_of_nil|done]. Qed.

Lemma from_entries_spec entries :
  NoDup entries.*1 -> (Z.of_nat (arena_size entries) <= u32_max)%Z ->
  records_ok (from_entries entries) /\
  forall key v, record (from_entries entries) key = Some v <-> (key, v) ∈ entries.
Proof.
  intros Hnd Hfit. unfold from_entries.
  destruct (push_all_fold entries records_new) as (Ha & Ho & Hov).
  pose proof (names_fold entries ([], []) [] names_nil Hfit) as Hn. cbn [app] in Hn.
  destruct (fold_left (fun st e => push_record st e.1 e.2) entries records_new) as [a offs ov].
  cbn [arena offsets overlay records_new] in *.
  destruct (fold_left (fun p e => append_record p e.1 e.2) entries ([], [])) as [a' offs'].
  cbn [fst snd] in *. subst a' offs' ov.
  destruct (finish_load_names a offs entries [] Hn Hnd) as [Hok Hp]; [constructor|].
  split; [done|]. intros key v. unfold record. cbn [finish_load overlay bt_get].
  rewrite arena_record_spec by done. by rewrite Hp.
Qed.

(** A walk that rebuilds the arena: every row keeps its key and takes a new
    value. *)
Lemma rebuilt_ok (rows : list row) :
  ordered_rows rows -> (Z.of_nat (arena_size rows) <= u32_max)%Z ->
  let p := fold_left (fun p e => append_record p e.1 e.2) rows ([], []) in
  let st := {| arena := p.1; offsets := p.2; overlay := [] |} in
  records_ok st /\ forall key v, record st key = Some v <-> (key, v) ∈ rows.
Proof.
  intros Ho Hfit. pose proof (names_fold rows ([], []) [] names_nil Hfit) as Hn. cbn [app] in Hn.
  cbv zeta. destruct (fold_left _ rows ([], [])) as [a offs]. cbn [fst snd].
  assert (Hok : records_ok {| arena := a; offsets := offs; overlay := [] |})
    by (eapply names_ok; [exact Hn|done|constructor]).
  split; [done|]. intros key v. unfold record. cbn [overlay bt_get].
  rewrite arena_record_spec by done. unfold arena_rows. cbn. destruct Hn as (Hrows & _). cbn in Hrows.
  by rewrite Hrows.
Qed.

(** ** Keys under a prefix *)

Lemma starts_with_app key p : starts_with key p = true <-> exists r, key = p ++ r.
Proof.
  unfold starts_with. rewrite bool_decide_eq_true. split.
  - intros H. exists (drop (length p) key). rewrite <- H at 1. symmetry. apply take_drop.
  - intros [r ->]. by apply take_app_length.
Qed.

Lemma starts_with_ge key p : starts_with key p = true -> ~ bytes_lt key p.
Proof.
  intros [r ->]%starts_with_app. unfold bytes_lt, bytes_cmp. rewrite fmap_app.
  rewrite <- (app_nil_r (byte_val <$> p)) at 2. rewrite lex_compare_app. by destruct r.
Qed.

Lemma starts_with_between k1 k2 p :
  ~ bytes_lt k1 p -> bytes_lt k1 k2 -> starts_with k2 p = true -> starts_with k1 p = true.
Proof.
  intros Hge Hlt [r ->]%starts_with_app. apply starts_with_app. revert k1 Hge Hlt.
  unfold bytes_lt, bytes_cmp. induction p as [|b p IH]; intros k1 Hge Hlt; [by exists k1|].
  destruct k1 as [|c k1]; [by destruct Hge|]. cbn in Hge, Hlt.
  destruct (Z.compare_spec (byte_val c) (byte_val b)) as [Heq|H|H]; [|by destruct Hge|done].
  apply byte_val_inj in Heq as ->. destruct (IH k1 Hge Hlt) as [r' ->]. by exists r'.
Qed.

Lemma prefix_window lo hi p k :
  StronglySorted bytes_lt (lo ++ hi) -> (forall x, x ∈ lo -> bytes_lt x p) ->
  (forall x, x ∈ hi -> ~ bytes_lt x p) ->
  k ∈ take_while (fun key => starts_with key p) hi <-> k ∈ lo ++ hi /\ starts_with k p = true.
Proof.
  intros Hs Hlo Hhi. rewrite elem_of_app.
  assert (Hno : k ∈ lo -> starts_with k p = true -> False).
  { intros Hk Hst. by apply (starts_with_ge k p Hst), Hlo. }
  apply StronglySorted_app in Hs as (_ & _ & Hs).
  assert (Hmain : k ∈ take_while (fun key => starts_with key p) hi <-> k ∈ hi /\ starts_with k p = true).
  { clear Hlo Hno. induction hi as [|x hi IH]; cbn [take_while].
    { rewrite elem_of_nil. tauto. }
    apply StronglySorted_inv in Hs as [Hs Hx]. rewrite Forall_forall in Hx.
    destruct (starts_with x p) eqn:E.
    - rewrite !elem_of_cons, IH; [|done|intros y Hy; apply Hhi; by right].
      split; [intros [->|[? ?]]; tauto|tauto].
    - rewrite elem_of_nil, elem_of_cons. split; [done|]. intros [[->|Hk] Hst]; [congruence|].
      rewrite (starts_with_between x k p) in E; [done|apply Hhi; by left|by apply Hx|done]. }
  rewrite Hmain. tauto.
Qed.

Lemma take_while_sorted {A} (R : A -> A -> Prop) (p : A -> bool) l :
  StronglySorted R l -> StronglySorted R (take_while p l).
Proof.
  induction 1 as [|x l _ IH Hx]; cbn; [constructor|]. destruct (p x); constructor; [done|].
  clear -Hx. induction Hx as [|y l Hy _ IH]; cbn; [done|]. destruct (p y); by constructor.
Qed.

Section prefix.
Context (st : Records) (Hok : records_ok st) (p : bytes).

Lemma arena_keys : (fun o => default [] (key_at (arena st) o)) <$> offsets st = (arena_rows st).*1.
Proof using Type. unfold arena_rows. by rewrite <- list_fmap_compose. Qed.

Lemma ordered_keys l : ordered_rows l -> StronglySorted bytes_lt l.*1.
Proof using Type.
  induction 1 as [|e l _ IH He]; [constructor|]. rewrite fmap_cons. constructor; [done|].
  by apply Forall_fmap.
Qed.

Lemma elem_of_arena_keys_with k :
  k ∈ arena_keys_with st p <-> k ∈ (arena_rows st).*1 /\ starts_with k p = true.
Proof using Hok.
  unfold arena_keys_with. rewrite fmap_drop, arena_keys.
  set (key o := default [] (key_at (arena st) o)).
  set (below o := match cmp_at (arena st) o p with Lt => true | _ => false end).
  set (ks := (arena_rows st).*1).
  pose proof (ordered_keys _ (ok_base st Hok)) as Hsort. fold ks in Hsort.
  assert (Hbelow : forall o, below o = true <-> bytes_lt (key o) p).
  { intros o. unfold below, cmp_at, bytes_lt. fold (key o). by destruct (bytes_cmp (key o) p). }
  assert (Hks : forall j x, ks !! j = Some x -> exists o, offsets st !! j = Some o /\ key o = x).
  { intros j x. unfold ks. rewrite <- arena_keys, list_lookup_fmap, fmap_Some.
    intros (o & Ho & ->). by exists o. }
  assert (Hasc : ascending_cmp (fun o => if below o then Lt else Gt) (offsets st)).
  { intros i j x y Hij Hx Hy.
    assert (Hlt : bytes_lt (key x) (key y)).
    { eapply (ordered_lookup (arena_rows st) i j (row_at (arena st) x) (row_at (arena st) y));
        [apply Hok|..|done]; unfold arena_rows; by rewrite list_lookup_fmap, ?Hx, ?Hy. }
    assert (Hxy : below y = true -> below x = true).
    { rewrite !Hbelow. intros. by transitivity (key y). }
    by destruct (below x), (below y); split; intros; try done; specialize (Hxy eq_refl). }
  pose proof (binary_search_by_spec _ _ Hasc) as Hbs.
  assert (Hn : exists n, partition_point below (offsets st) = n /\
            forall j o, offsets st !! j = Some o -> below o = bool_decide (j < n)).
  { unfold partition_point. destruct (binary_search_by _ _) as [i|i].
    - destruct Hbs as (o & _ & Ho). by destruct (below o).
    - exists i. split; [done|]. intros j o Ho. destruct Hbs as [_ Hbs]. specialize (Hbs j o Ho).
      case_decide; [rewrite bool_decide_true by done|rewrite bool_decide_false by done];
        by destruct (below o). }
  destruct Hn as (n & -> & Hn).
  rewrite <- (take_drop n ks) in Hsort |- * at 2. apply prefix_window; [done|..].
  - intros x [j Hj]%list_elem_of_lookup.
    pose proof (lookup_lt_Some _ _ _ Hj) as Hl. rewrite length_take in Hl.
    rewrite lookup_take_lt in Hj by lia. apply Hks in Hj as (o & Ho & <-).
    apply Hbelow. rewrite (Hn j o Ho). apply bool_decide_eq_true. lia.
  - intros x [j Hj]%list_elem_of_lookup. rewrite lookup_drop in Hj. apply Hks in Hj as (o & Ho & <-).
    intros Hb%Hbelow. rewrite (Hn _ o Ho) in Hb. apply bool_decide_eq_true in Hb. lia.
Qed.

Lemma bt_range_split m :
  ordered_rows m -> exists lo, m = lo ++ bt_range m p /\
  (forall e, e ∈ lo -> bytes_lt e.1 p) /\ (forall e, e ∈ bt_range m p -> ~ bytes_lt e.1 p).
Proof using Type.
  induction m as [|[k v] m IH]; intros Ho; cbn [bt_range].
  { exists []. split; [done|]. split; by intros e ?%not_elem_of_nil. }
  pose proof (ordered_above _ _ Ho) as Ha. cbn [fst] in Ha.
  assert (Hstop : ~ bytes_lt k p -> forall e, e ∈ (k, v) :: m -> ~ bytes_lt e.1 p).
  { intros Hk e [->|He]%elem_of_cons; [done|]. intros He'. apply Hk. apply Ha in He. by transitivity e.1. }
  destruct (bytes_cmp_spec k p) as [Hlt| ->|Hgt].
  - destruct IH as (lo & Hm & Hl & Hr); [by eapply ordered_tail|]. exists ((k, v) :: lo).
    split; [by rewrite Hm at 1|]. split; [|done]. intros e [->|He]%elem_of_cons; [done|by apply Hl].
  - exists []. split; [done|]. split; [by intros e ?%not_elem_of_nil|].
    apply Hstop. apply bytes_lt_self.
  - exists []. split; [done|]. split; [by intros e ?%not_elem_of_nil|]. apply Hstop.
    intros H. apply (bytes_lt_self k). by transitivity p.
Qed.

Lemma elem_of_overlay_keys_with k :
  k ∈ overlay_keys_with st p <->
  k ∈ (overlay st).*1 /\ starts_with k p = true /\ k ∉ (arena_rows st).*1.
Proof using Hok.
  unfold overlay_keys_with. rewrite list_elem_of_filter.
  destruct (bt_range_split (overlay st) (ok_overlay st Hok)) as (lo & Hm & Hlo & Hhi).
  pose proof (ordered_keys _ (ok_overlay st Hok)) as Hs. 
  assert (Hkeys : (overlay st).*1 = lo.*1 ++ (bt_range (overlay st) p).*1) by (by rewrite <- fmap_app, <- Hm).
  rewrite Hkeys in Hs. rewrite (prefix_window lo.*1 _ p k Hs).
  - rewrite <- Hkeys, contains_arena_key_spec by done.
    assert (Ha : is_some (arena_record st k) = false <-> k ∉ (arena_rows st).*1).
    { destruct (arena_record st k) as [v|] eqn:E; cbn.
      - split; [done|]. intros []. apply arena_record_spec in E; [|done].
        apply list_elem_of_fmap. by exists (k, v).
      - split; [|done]. intros _ ([k' v] & -> & Hin)%list_elem_of_fmap. cbn in E.
        apply arena_record_spec in Hin; [congruence|done]. }
    rewrite Ha. tauto.
  - intros x (e & -> & He)%list_elem_of_fmap. by apply Hlo.
  - intros x (e & -> & He)%list_elem_of_fmap. by apply Hhi.
Qed.
End prefix.

(** ** The readers agree *)

Lemma strict_nodup {A} (f : A -> bytes) (l : list A) :
  StronglySorted (fun x y => bytes_lt (f x) (f y)) l -> NoDup l.
Proof.
  induction 1 as [|x l _ IH Hx]; [constructor|]. constructor; [|done].
  intros Hin. rewrite Forall_forall in Hx. apply Hx in Hin. by apply bytes_lt_self in Hin.
Qed.

Lemma strict_eq {A} (f : A -> bytes) (l k : list A) :
  StronglySorted (fun x y => bytes_lt (f x) (f y)) l ->
  StronglySorted (fun x y => bytes_lt (f x) (f y)) k ->
  (forall x, x ∈ l <-> x ∈ k) -> l = k.
Proof.
  intros Hl Hk Hin. eapply StronglySorted_unique_strong; [|exact Hl|exact Hk|].
  - intros x y _ _ H1 H2. cbn in *. exfalso. apply (bytes_lt_self (f x)). by transitivity (f y).
  - apply NoDup_Permutation; [by eapply strict_nodup..|done].
Qed.

Section readers.
Context (st : Records) (Hok : records_ok st).

Lemma is_some_record key : is_some (record st key) = true <-> key ∈ (visited st).*1.
Proof using Hok.
  destruct (record st key) as [v|] eqn:E; cbn.
  - split; [|done]. intros _. apply record_spec in E; [|done]. apply list_elem_of_fmap. by exists (key, v).
  - split; [done|]. intros ([k v] & -> & Hin)%list_elem_of_fmap. apply record_spec in Hin; [|done].
    cbn in E. congruence.
Qed.

(** A key of the table is an arena key or an overlay key the arena lacks. *)
Lemma elem_of_visited_keys key :
  key ∈ (visited st).*1 <->
  key ∈ (arena_rows st).*1 \/ (key ∈ (overlay st).*1 /\ key ∉ (arena_rows st).*1).
Proof using Hok.
  assert (Hv : key ∈ (visited st).*1 <-> key ∈ (overlay st).*1 \/ key ∈ (arena_rows st).*1).
  { unfold visited. rewrite merged_rows_merge. fold (arena_rows st). rewrite !list_elem_of_fmap. split.
    - intros (e & -> & He). rewrite elem_of_merge_rows in He by apply Hok.
      destruct He as [He|[He _]]; [left|right]; by exists e.
    - intros H. destruct (bt_get (overlay st) key) as [v|] eqn:E.
      + exists (key, v). split; [done|]. rewrite elem_of_merge_rows by apply Hok. left.
        by apply bt_get_spec; [apply Hok|].
      + assert (Hno : forall e, e ∈ overlay st -> e.1 <> key).
        { intros [k v] He. cbn. intros ->. apply bt_get_spec in He; [congruence|apply Hok]. }
        destruct H as [(e & -> & He)|(e & -> & He)]; [by destruct (Hno e He)|].
        exists e. split; [done|]. rewrite elem_of_merge_rows by apply Hok. right. done. }
  rewrite Hv. destruct (decide (key ∈ (arena_rows st).*1)); tauto.
Qed.

Lemma keys_visited : keys st = (visited st).*1.
Proof using Hok.
  pose proof (ordered_keys _ (visited_ordered st Hok)) as Hsv.
  assert (Hfilter : forall l : list bytes, NoDup l -> NoDup (filter (fun key => contains_arena_key st key = false) l))
    by (intros; by apply NoDup_filter).
  assert (Hmem : forall key, key ∈ filter (fun key => contains_arena_key st key = false) (overlay st).*1 <->
            key ∈ (overlay st).*1 /\ key ∉ (arena_rows st).*1).
  { intros key. rewrite list_elem_of_filter, contains_arena_key_spec by done.
    assert (is_some (arena_record st key) = false <-> key ∉ (arena_rows st).*1) as ->; [|tauto].
    destruct (arena_record st key) as [v|] eqn:E; cbn.
    - split; [done|]. intros []. apply arena_record_spec in E; [|done].
      apply list_elem_of_fmap. by exists (key, v).
    - split; [|done]. intros _ ([k v] & -> & Hin)%list_elem_of_fmap.
      apply arena_record_spec in Hin; [|done]. cbn in E. congruence. }
  apply (strict_eq id); [|exact Hsv|].
  - unfold keys. rewrite arena_keys. apply (sort_by_strict id). rewrite list_fmap_id.
    apply NoDup_app. split; [apply ordered_keys_nodup, Hok|]. split.
    + intros x Hx Hx'. by apply Hmem in Hx' as [_ ?].
    + apply Hfilter, ordered_keys_nodup, Hok.
  - intros key. unfold keys. rewrite arena_keys, sort_by_perm, elem_of_app, Hmem.
    symmetry. apply elem_of_visited_keys.
Qed.

Lemma keys_starting_visited p :
  keys_starting_with st p = filter (fun key => starts_with key p = true) (visited st).*1.
Proof using Hok.
  pose proof (ordered_keys _ (visited_ordered st Hok)) as Hsv.
  assert (Hmem : forall key, key ∈ arena_keys_with st p ++ overlay_keys_with st p <->
            key ∈ (visited st).*1 /\ starts_with key p = true).
  { intros key. rewrite elem_of_app, elem_of_arena_keys_with, elem_of_overlay_keys_with by done.
    rewrite elem_of_visited_keys. tauto. }
  apply (strict_eq id).
  - unfold keys_starting_with. apply (sort_by_strict id). rewrite list_fmap_id.
    apply NoDup_app. split; [|split].
    + unfold arena_keys_with. rewrite fmap_drop, arena_keys.
      pose proof (ordered_keys _ (ok_base st Hok)) as Hs.
      rewrite <- (take_drop (partition_point (fun o => match cmp_at (arena st) o p with Lt => true | _ => false end)
        (offsets st)) (arena_rows st).*1) in Hs.
      apply StronglySorted_app in Hs as (_ & _ & Hs).
      by apply (strict_nodup id), take_while_sorted.
    + intros x Hx Hx'. apply elem_of_arena_keys_with in Hx as [Hx _]; [|done].
      by apply elem_of_overlay_keys_with in Hx' as (_ & _ & ?).
    + unfold overlay_keys_with. apply NoDup_filter.
      destruct (bt_range_split p (overlay st) (ok_overlay st Hok)) as (lo & Hm & _ & _).
      pose proof (ordered_keys _ (ok_overlay st Hok)) as Hs. rewrite Hm, fmap_app in Hs.
      apply StronglySorted_app in Hs as (_ & _ & Hs).
      by apply (strict_nodup id), take_while_sorted.
  - clear -Hsv. induction Hsv as [|x l _ IH Hx]; [constructor|]. rewrite filter_cons.
    case_decide; [|done]. constructor; [done|]. rewrite Forall_forall in *. intros y Hy.
    apply list_elem_of_filter in Hy as [_ Hy]. by apply Hx.
  - intros key. unfold keys_starting_with. rewrite sort_by_perm, Hmem, list_elem_of_filter. tauto.
Qed.

Lemma rows_visited : rows st = visited st.
Proof using Hok.
  set (over o := (default [] (key_at (arena st) o),
    default (default [] (value_at (arena st) o)) (bt_get (overlay st) (default [] (key_at (arena st) o))))).
  assert (Hk : (over <$> offsets st).*1 = (arena_rows st).*1)
    by (unfold arena_rows; rewrite <- !list_fmap_compose; done).
  assert (Hin : forall key v, (key, v) ∈ over <$> offsets st <->
            key ∈ (arena_rows st).*1 /\ record st key = Some v).
  { intros key v. rewrite list_elem_of_fmap.
    assert (Hone : forall o, o ∈ offsets st ->
      record st (over o).1 = Some (over o).2 /\ (over o).1 ∈ (arena_rows st).*1).
    { intros o Ho. assert (Hr : row_at (arena st) o ∈ arena_rows st) by by apply list_elem_of_fmap_2.
      split.
      - unfold record, over. cbn [fst snd]. destruct (bt_get _ _) as [w|]; [done|]. cbn.
        by apply arena_record_spec.
      - unfold over. cbn [fst]. by apply (list_elem_of_fmap_2 fst) in Hr. }
    split.
    - intros (o & Heq & Ho). apply Hone in Ho as [H1 H2]. rewrite <- Heq in *. done.
    - intros [([k w] & -> & Hw)%list_elem_of_fmap Hr]. cbn in Hr.
      apply list_elem_of_fmap in Hw as (o & Heq & Ho). exists o. split; [|done].
      apply Hone in Ho as [H1 _]. injection Heq as Hkey _.
      assert (Hov : (over o).1 = k) by (by rewrite Hkey). rewrite Hov in H1.
      rewrite (surjective_pairing (over o)), Hov. cbn [fst]. f_equal. congruence. }
  apply (strict_eq fst); [|exact (visited_ordered st Hok)|].
  - unfold rows. fold over. apply (sort_by_strict fst). rewrite fmap_app. apply NoDup_app.
    rewrite Hk. split; [apply ordered_keys_nodup, Hok|]. split.
    + intros x Hx ([k v] & -> & Hf)%list_elem_of_fmap. apply list_elem_of_filter in Hf as [Hf _].
      cbn in Hx, Hf. rewrite contains_arena_key_spec in Hf by done.
      apply list_elem_of_fmap in Hx as ([k' w] & -> & Hw). apply arena_record_spec in Hw; [|done].
      cbn in Hf. by rewrite Hw in Hf.
    + pose proof (ordered_keys_nodup _ (ok_overlay st Hok)) as Hnd. clear -Hnd.
      induction (overlay st) as [|e l IH]; [constructor|]. rewrite fmap_cons in Hnd.
      apply NoDup_cons in Hnd as [He Hnd]. rewrite filter_cons. case_decide; [|by apply IH].
      rewrite fmap_cons. constructor; [|by apply IH]. intros (e' & Heq & Hf)%list_elem_of_fmap.
      apply list_elem_of_filter in Hf as [_ Hf]. apply He. rewrite Heq. by apply list_elem_of_fmap_2.
  - intros [key v]. unfold rows. fold over. rewrite sort_by_perm, elem_of_app, Hin.
    rewrite list_elem_of_filter, contains_arena_key_spec by done. cbn [fst].
    rewrite <- (record_spec st Hok). split.
    + intros [[_ ?]|[Hc Hv]]; [done|]. unfold record.
      by rewrite (proj2 (bt_get_spec _ _ _ (ok_overlay st Hok)) Hv).
    + intros Hr. destruct (arena_record st key) as [w|] eqn:E.
      * left. split; [|done]. apply arena_record_spec in E; [|done]. apply list_elem_of_fmap. by exists (key, w).
      * right. split; [done|]. unfold record in Hr. rewrite E in Hr.
        apply bt_get_spec; [apply Hok|]. by destruct (bt_get _ _).
Qed.
End readers.

(** A walk that keeps every key and writes new values rebuilds a storage of
    the same keys. *)
Lemma length_fold_append (rows : list row) p :
  length (fold_left (fun p e => append_record p e.1 e.2) rows p).1 = length p.1 + arena_size rows.
Proof.
  revert p. induction rows as [|[k v] rows IH]; intros p; [cbn; lia|]. cbn [fold_left]. rewrite IH.
  unfold append_record. cbn [fst snd]. rewrite length_app, length_record_bytes. unfold arena_size. cbn. lia.
Qed.

Lemma rebuilt_walk st (rows : list row) :
  records_ok st -> rows.*1 = (visited st).*1 ->
  let p := fold_left (fun p e => append_record p e.1 e.2) rows ([], []) in
  let st' := {| arena := p.1; offsets := p.2; overlay := [] |} in
  (Z.of_nat (length (arena st')) <= u32_max)%Z ->
  records_ok st' /\ (forall key v, record st' key = Some v <-> (key, v) ∈ rows) /\
  (forall key, is_some (record st' key) = is_some (record st key)).
Proof.
  intros Hok Hkeys p st'. unfold st', p. cbn [arena]. rewrite length_fold_append. cbn [fst length Nat.add].
  intros Hfit.
  assert (Hord : ordered_rows rows).
  { pose proof (ordered_keys _ (visited_ordered st Hok)) as Hs. rewrite <- Hkeys in Hs.
    clear -Hs. induction rows as [|e l IH]; [constructor|]. rewrite fmap_cons in Hs.
    apply StronglySorted_inv in Hs as [Hs He]. rewrite Forall_fmap in He. constructor; [by apply IH|exact He]. }
  destruct (rebuilt_ok rows Hord Hfit) as [Hrok Hrec]. split; [exact Hrok|]. split; [exact Hrec|].
  intros key. apply eq_true_iff_eq. rewrite (is_some_record st Hok), <- Hkeys. split.
  - destruct (record _ key) as [v|] eqn:E; [|done]. intros _. apply Hrec in E.
    apply list_elem_of_fmap. by exists (key, v).
  - intros ([k v] & -> & Hin)%list_elem_of_fmap. apply Hrec in Hin. cbn [fst]. by rewrite Hin.
Qed.

(** A walk whose visits never stop it folds over the rows it meets. *)
Lemma for_each_fold {S E} (step : S -> bytes -> bytes -> S) (st : Records) (s : S) :
  for_each_record (fun s k v => (step s k v, Ok tt : result unit E)) st s
    = (fold_left (fun s e => step s e.1 e.2) (visited st) s, Ok tt).
Proof.
  unfold for_each_record. revert s. induction (visited st) as [|[k v] l IH]; intros s; [done|].
  cbn [visit_rows fold_left]. apply IH.
Qed.

(** C28. The arena, its offset vector and the overlay are one ordered map.
    Loading distinct records, in any order, gives a storage that answers
    exactly them; an edit changes the answer of its key alone; every reader
    sees the same rows: the walk meets each present key once, in byte order,
    with the value a lookup answers, [rows] and [keys] list that walk, and a
    prefix query lists its keys with that prefix. *)
Theorem records_refine (entries : list row) (edits : list row) (prefix : bytes) :
  NoDup entries.*1 -> (Z.of_nat (arena_size entries) <= u32_max)%Z ->
  let st := fold_left (fun st e => put st e.1 e.2) edits (from_entries entries) in
  let answer key := match List.find (fun e => bool_decide (e.1 = key)) (rev edits ++ entries) with
                    | Some e => Some e.2 | None => None end in
  records_ok st /\
  (forall key, record st key = answer key /\ contains_key st key = is_some (answer key)) /\
  ordered_rows (visited st) /\
  (forall key v, (key, v) ∈ visited st <-> answer key = Some v) /\
  (for_each_record (fun acc k v => (acc ++ [(k, v)], Ok tt : result unit Empty_set)) st []
     = (visited st, Ok tt)) /\
  rows st = visited st /\ keys st = (visited st).*1 /\
  keys_starting_with st prefix = filter (fun key => starts_with key prefix = true) (visited st).*1.
Proof.
  intros Hnd Hfit st answer. destruct (from_entries_spec entries Hnd Hfit) as [Hok Hrec].
  assert (H : records_ok st /\ forall key, record st key = answer key).
  { unfold st, answer. clear st answer. induction edits as [|[k v] edits IH] using rev_ind.
    - split; [done|]. intros key. cbn [rev app fold_left]. apply option_eq. intros v.
      rewrite Hrec. clear -Hnd. induction entries as [|[k w] l IH]; [split; [by intros ?%not_elem_of_nil|done]|].
      rewrite fmap_cons in Hnd. apply NoDup_cons in Hnd as [Hk Hnd]. cbn [List.find fst].
      rewrite elem_of_cons. case_bool_decide as He; [subst k|].
      + split; [|by intros [= ->]; left]. intros [[= ->]|Hin]; [done|]. destruct Hk.
        by apply (list_elem_of_fmap_2 fst) in Hin.
      + rewrite <- IH by done. split; [intros [[= -> ->]|?]; done|by right].
    - destruct IH as [IHok IH]. rewrite fold_left_app, rev_app_distr. cbn [fold_left rev app List.find fst snd].
      split; [by apply put_ok|]. intros key. rewrite record_put by done.
      case_decide as Hd; [subst; by rewrite bool_decide_true|]. by rewrite bool_decide_false by congruence. }
  destruct H as [Hst Hans]. split; [done|]. split; [|split; [by apply visited_ordered|]].
  { intros key. by rewrite contains_key_spec, Hans. }
  split; [intros key v; by rewrite <- Hans, record_spec|]. split; [|split; [by apply rows_visited|]].
  - rewrite (for_each_fold (fun acc k v => acc ++ [(k, v)])). f_equal.
    assert (Hf : forall l acc, fold_left (fun acc (e : row) => acc ++ [(e.1, e.2)]) l acc = acc ++ l).
    { induction l as [|[k v] l IH]; intros acc; [by rewrite app_nil_r|]. cbn [fold_left fst snd].
      by rewrite IH, <- app_assoc. }
    apply Hf.
  - split; [by apply keys_visited|by apply keys_starting_visited].
Qed.

Lemma records_refine_witness :
  let entries := [([x02], [x07]); ([x01], []); ([x01; x01], [x09])] in
  NoDup entries.*1 /\
  visited (put (from_entries entries) [x01] [x05]) = [([x01], [x05]); ([x01; x01], [x09]); ([x02], [x07])].
Proof.
  cbv zeta.
  assert (Hnd : NoDup ([([x02], [x07]); ([x01], []); ([x01; x01], [x09])] : list row).*1)
    by (apply (bool_decide_unpack _); vm_compute; exact I).
  split; [done|].
  pose proof (records_refine _ [([x01], [x05])] [] Hnd) as (_ & _ & _ & _ & _ & Hrows & _);
    [vm_compute; discriminate|].
  cbn [fold_left fst snd] in Hrows. rewrite <- Hrows. vm_compute. reflexivity.
Defined.
