(* ===== verification/UserMarkers.v ===== *)
(** * UserMarkers: the empty records below a new key

    [create_prefixes] of [crates/oxpinyin-user/src/user_index.rs], and the
    loop of [UserPhraseTable::add]: a key of [n] words gets an empty record
    for every proper prefix, from the longest down to the first one the table
    holds. The early stop is right because a table is closed under prefixes,
    which the loop keeps. *)

From Stdlib Require Import ZArith Lia Bool Strings.Byte.
From stdpp Require Import base list sorting.
From S2P Require Import Prelude Ucs4 UserRecords.

(** The empty markers below a new key, longest first, up to the first prefix
    the table holds; [width] is the bytes of a word. *)
Fixpoint create_prefixes (st : Records) (key : bytes) (width : nat) (lengths : list nat) : Records :=
  match lengths with
  | [] => st
  | len :: rest =>
      let prefix := take (len * width) key in
      if contains_key st prefix then st
      else create_prefixes (put st prefix []) key width rest
  end.

(** [(1..n).rev()]. *)
Definition descending (n : nat) : list nat := rev (seq 1 (n - 1)).

(** Every prefix of whole words of a key of the table is a key of it. *)
Definition prefix_closed (width : nat) (st : Records) : Prop :=
  forall key n, is_some (record st key) = true -> 1 <= n -> n * width <= length key ->
    is_some (record st (take (n * width) key)) = true.

(** A proper prefix of whole words. *)
Definition proper_prefix (width : nat) (key k : bytes) : bool :=
  existsb (fun m => bool_decide (k = take (m * width) key)) (descending (length key / width)).

Lemma elem_of_descending n m : m ∈ descending n <-> 1 <= m < n.
Proof. unfold descending. rewrite list_elem_of_In, <- in_rev, <- list_elem_of_In, elem_of_seq. lia. Qed.

Lemma descending_S n : 1 <= n -> descending (S n) = n :: descending n.
Proof.
  intros H. unfold descending. replace (S n - 1) with (S (n - 1)) by lia.
  rewrite seq_S, rev_app_distr. cbn. f_equal. lia.
Qed.

Lemma proper_prefix_spec width key k :
  proper_prefix width key k = true <->
  exists m, 1 <= m < length key / width /\ k = take (m * width) key.
Proof.
  unfold proper_prefix. rewrite existsb_exists. setoid_rewrite <- list_elem_of_In.
  setoid_rewrite elem_of_descending. setoid_rewrite bool_decide_eq_true. done.
Qed.

Section markers.
Context (width : nat) (Hwidth : 0 < width).
Context (st : Records) (key value : bytes).
Context (Hok : records_ok st) (Hclosed : prefix_closed width st).
Context (Hnew : record st key = None) (n : nat) (Hlen : length key = n * width).

Local Abbreviation prefix m := (take (m * width) key).

Lemma length_prefix m : m <= n -> length (prefix m) = m * width.
Proof using Hlen Hwidth. intros H. rewrite length_take, Hlen. nia. Qed.

Lemma prefix_prefix j m : j <= m -> take (j * width) (prefix m) = prefix j.
Proof using Type. clear. intros. rewrite take_take. f_equal. nia. Qed.

Lemma prefix_inj m m' : m <= n -> m' <= n -> prefix m = prefix m' -> m = m'.
Proof using Hlen Hwidth.
  intros H H' He. apply (f_equal length) in He. rewrite !length_prefix in He by done. nia.
Qed.

#[local] Instance prefix_dec m k : Decision (exists j, m < j < n /\ k = prefix j).
Proof using Type.
  clear Hwidth Hok Hclosed Hnew Hlen.
  destruct (decide (Exists (fun j => k = prefix j) (seq (S m) (n - S m)))) as [H|H].
  - left. apply Exists_exists in H as (j & Hj%elem_of_seq & ->). exists j. split; [lia|done].
  - right. intros (j & Hj & ->). apply H, Exists_exists. exists j. split; [apply elem_of_seq; lia|done].
Qed.

(** The record of [k] once the markers longer than [m] are in place. *)
Definition marked (m : nat) (k : bytes) : option bytes :=
  if decide (k = key) then Some value
  else match record st k with
       | Some v => Some v
       | None => if decide (exists j, m < j < n /\ k = prefix j) then Some [] else None
       end.

Lemma create_prefixes_from m st' :
  1 <= m <= n -> records_ok st' ->
  (forall k, record st' k = marked (m - 1) k) ->
  (forall j, m - 1 < j < n -> record st (prefix j) = None) ->
  let out := create_prefixes st' key width (descending m) in
  records_ok out /\ forall k, record out k = marked 0 k.
Proof using All.
  revert st'. induction m as [|m IH]; intros st' Hm Hok' Hrec Hfree; [lia|].
  destruct (decide (m = 0)) as [->|Hm0]; [done|].
  rewrite descending_S by lia. cbn [create_prefixes].
  replace (S m - 1) with m in * by lia.
  rewrite contains_key_spec.
  assert (Hkey : prefix m <> key).
  { intros He. apply (f_equal length) in He. rewrite length_prefix, Hlen in He by lia. nia. }
  assert (Hpm : record st' (prefix m) = record st (prefix m)).
  { rewrite Hrec. unfold marked. rewrite decide_False by done.
    destruct (record st (prefix m)); [done|]. rewrite decide_False; [done|].
    intros (j & Hj & He). apply prefix_inj in He; lia. }
  rewrite Hpm. destruct (record st (prefix m)) as [v|] eqn:E; cbn [is_some].
  - split; [done|]. intros k. rewrite Hrec. unfold marked. case_decide; [done|].
    destruct (record st k) eqn:Ek; [done|].
    destruct (decide (exists j, m < j < n /\ k = prefix j)) as [Hj|Hj].
    { rewrite decide_True; [done|]. destruct Hj as (j & ? & ?). exists j. split; [lia|done]. }
    rewrite decide_False; [done|]. intros (j & Hj' & ->). apply Hj. exists j. split; [|done].
    destruct (decide (m < j)); [lia|]. exfalso.
    pose proof (Hclosed (prefix m) j) as Hc. rewrite E, length_prefix in Hc by lia.
    rewrite prefix_prefix in Hc by lia. rewrite Ek in Hc. discriminate Hc; [done|lia|nia].
  - apply IH; [lia|by apply put_ok| |].
    + intros k. rewrite record_put by done. unfold marked. case_decide as Hk.
      * subst k. rewrite decide_False by done. rewrite E. rewrite decide_True; [done|].
        exists m. split; [lia|done].
      * rewrite Hrec. unfold marked. case_decide; [done|]. destruct (record st k); [done|].
        destruct (decide (exists j, m < j < n /\ k = prefix j)) as [Hj|Hj].
        { rewrite decide_True; [done|]. destruct Hj as (j & ? & ?). exists j. split; [lia|done]. }
        rewrite decide_False; [done|]. intros (j & Hj' & ->). apply Hj. exists j. split; [|done].
        destruct (decide (j = m)) as [->|]; [done|lia].
    + intros j Hj. destruct (decide (j = m)) as [->|]; [done|]. apply Hfree. lia.
Qed.

(** A new key with its markers: the key holds its value, its proper prefixes
    are present, and nothing else changes. *)
Lemma create_prefixes_spec :
  1 <= n ->
  let out := create_prefixes (put st key value) key width (descending n) in
  records_ok out /\ prefix_closed width out /\
  forall k, record out k =
    if decide (k = key) then Some value
    else match record st k with
         | Some v => Some v
         | None => if proper_prefix width key k then Some [] else None
         end.
Proof using All.
  intros Hn out.
  destruct (create_prefixes_from n (put st key value)) as [Hok' Hrec]; [lia|by apply put_ok|..].
  { intros k. rewrite record_put by done. unfold marked. case_decide; [done|].
    destruct (record st k); [done|]. rewrite decide_False; [done|]. intros (j & ? & _). lia. }
  { intros j Hj. lia. }
  fold out in Hok', Hrec.
  assert (Hdiv : length key / width = n) by (rewrite Hlen, Nat.div_mul; lia).
  assert (Hpp : forall k, proper_prefix width key k = true <-> exists j, 0 < j < n /\ k = prefix j).
  { intros k. rewrite proper_prefix_spec, Hdiv. split; intros (j & ? & ?); exists j; (split; [lia|done]). }
  assert (Hfinal : forall k, record out k =
    if decide (k = key) then Some value
    else match record st k with
         | Some v => Some v
         | None => if proper_prefix width key k then Some [] else None
         end).
  { intros k. rewrite Hrec. unfold marked. case_decide; [done|]. destruct (record st k); [done|].
    destruct (proper_prefix width key k) eqn:E.
    - apply Hpp in E. by rewrite decide_True.
    - rewrite decide_False; [done|]. rewrite <- Hpp. congruence. }
  split; [done|]. split; [|done]. intros k m Hk Hm Hlk. rewrite Hfinal in Hk |- *.
  destruct (decide (take (m * width) k = key)) as [Hkey|Hkey]; [done|].
  destruct (record st (take (m * width) k)) eqn:Em; [done|].
  destruct (proper_prefix width key (take (m * width) k)) eqn:Ep; [done|]. exfalso.
  assert (Hsub : forall j, 1 <= j <= n -> k = prefix j -> False).
  { intros j Hj ->. rewrite length_prefix in Hlk by lia.
    assert (m <= j) by nia. rewrite prefix_prefix in * by lia.
    destruct (decide (m = n)) as [->|].
    - apply Hkey. apply take_ge. lia.
    - assert (proper_prefix width key (prefix m) = true); [|congruence].
      apply Hpp. exists m. split; [lia|done]. }
  destruct (decide (k = key)) as [->|Hne].
  { apply (Hsub n); [lia|]. symmetry. apply take_ge. lia. }
  destruct (record st k) eqn:Ek.
  - pose proof (Hclosed k m) as Hc. rewrite Ek, Em in Hc. discriminate Hc; done.
  - destruct (proper_prefix width key k) eqn:E; [|done]. apply Hpp in E as (j & Hj & ->).
    apply (Hsub j); [lia|done].
Qed.
End markers.

(** Overwriting the value of a present key keeps the closure. *)
Lemma put_present_closed width st key value :
  records_ok st -> prefix_closed width st -> is_some (record st key) = true ->
  prefix_closed width (put st key value).
Proof.
  intros Hok Hc Hk k n H1 Hn Hl. rewrite record_put in H1 |- * by done.
  destruct (decide (take (n * width) k = key)); [done|]. apply Hc; [|done|done].
  destruct (decide (k = key)); [by subst|done].
Qed.
