(* ===== verification/UserPhraseTable.v ===== *)
(** * UserPhraseTable: the user phrase table

    [crates/oxpinyin-user/src/phrase_table.rs] (the token array of one key)
    and [user_phrase_table.rs] (the table over [UserRecords]). Keys are the
    UCS-4 words of a phrase; every proper prefix of a stored phrase is a key
    too, with an empty array when it is no phrase itself. *)

From Stdlib Require Import ZArith Lia Bool Strings.Byte.
From stdpp Require Import base list sorting.
From S2P Require Import Prelude Ucs4 RowFormat UserRecords UserMarkers.

Definition SEARCH_NONE : Z := 0.
Definition SEARCH_OK : Z := 1.
Definition ERROR_OK : Z := 0.
Definition ERROR_INSERT_ITEM_EXISTS : Z := 1.
Definition ERROR_REMOVE_ITEM_DONOT_EXISTS : Z := 2.

(** The two [StoreError::InvalidInput]s. *)
Inductive TableError : Type :=
  | EmptyText
  | IncompleteToken.

Definition key_ucs4 (words : list Z) : bytes := words ≫= le32.

(** ** The entry of one key *)

Definition validate (value : bytes) : result unit TableError :=
  if negb (is_multiple_of (length value) 4) then Err IncompleteToken else Ok tt.

Definition entry_from_bytes (value : bytes) : result bytes TableError :=
  match validate value with Ok _ => Ok value | Err e => Err e end.

Definition entry_tokens (value : bytes) : list Z := le_value <$> whole_chunks 4 value.

(** The scan of [add_index]: [None] when the token is met, else the index of
    the first greater one. *)
Fixpoint add_scan (tokens : list Z) (index : nat) (token : Z) : option (option nat) :=
  match tokens with
  | [] => Some None
  | existing :: tokens =>
      if (existing =? token)%Z then None
      else if (token <? existing)%Z then Some (Some index)
      else add_scan tokens (S index) token
  end.

Definition entry_add_index (value : bytes) (token : Z) : bytes * Z :=
  match add_scan (entry_tokens value) 0 token with
  | None => (value, ERROR_INSERT_ITEM_EXISTS)
  | Some at_ =>
      let offset := match at_ with Some index => index * 4 | None => length value end in
      (take offset value ++ le32 token ++ drop offset value, ERROR_OK)
  end.

Definition entry_remove_index (value : bytes) (token : Z) : bytes * Z :=
  match position (fun v => (v =? token)%Z) (entry_tokens value) with
  | None => (value, ERROR_REMOVE_ITEM_DONOT_EXISTS)
  | Some index => (take (index * 4) value ++ drop (index * 4 + 4) value, ERROR_OK)
  end.

(** The [while] loop of [mask_out]: every turn drains a token or steps over
    one, so the length bounds the turns. [None] is the slice past the end
    that a partial tail would panic on. *)
Fixpoint entry_mask_loop (fuel : nat) (value : bytes) (offset : nat) (mask masked : Z) : option bytes :=
  match fuel with
  | O => Some value
  | S fuel =>
      if offset <? length value then
        w ← subslice value offset (offset + 4);
        if (Z.land (le_value w) mask =? masked)%Z then
          entry_mask_loop fuel (take offset value ++ drop (offset + 4) value) offset mask masked
        else entry_mask_loop fuel value (offset + 4) mask masked
      else Some value
  end.

Definition entry_mask_out (value : bytes) (mask masked : Z) : option bytes :=
  entry_mask_loop (length value) value 0 mask masked.

(** [set_content]: the chunk grows to the record and keeps a longer tail. *)
Definition entry_set_content (entry value : bytes) : result bytes TableError :=
  match validate value with
  | Err e => Err e
  | Ok _ => Ok (value ++ drop (length value) entry)
  end.

(** [search_tokens]: the enabled tokens, appended, with the flags. *)
Definition search_tokens (value : bytes) (tokens : list Z) (enabled : Z -> bool) : list Z * Z :=
  let found := filter (fun t => enabled t = true) (entry_tokens value) in
  (tokens ++ found, match found with [] => SEARCH_NONE | _ => SEARCH_OK end).

Definition search_bytes (value : bytes) (tokens : list Z) (enabled : Z -> bool)
    : result (list Z * Z) TableError :=
  match validate value with
  | Err e => Err e
  | Ok _ => Ok (search_tokens value tokens enabled)
  end.

(** ** The table *)

Definition table_add (st : Records) (words : list Z) (token : Z) : Records * result Z TableError :=
  let key := key_ucs4 words in
  match key with
  | [] => (st, Err EmptyText)
  | _ =>
      match record st key with
      | Some value =>
          match entry_from_bytes value with
          | Err e => (st, Err e)
          | Ok entry =>
              let p := entry_add_index entry token in (put st key p.1, Ok p.2)
          end
      | None =>
          let p := entry_add_index [] token in
          (create_prefixes (put st key p.1) key 4 (descending (length words)), Ok p.2)
      end
  end.

Definition check_add (st : Records) (words : list Z) : result unit TableError :=
  let key := key_ucs4 words in
  match key with
  | [] => Err EmptyText
  | _ => match record st key with None => Ok tt | Some value => validate value end
  end.

Definition check_mask (st : Records) : result unit TableError :=
  (for_each_record (fun (_ : unit) _ value => (tt, validate value)) st tt).2.

Definition table_remove (st : Records) (words : list Z) (token : Z) : Records * result Z TableError :=
  let key := key_ucs4 words in
  match record st key with
  | None => (st, Ok ERROR_REMOVE_ITEM_DONOT_EXISTS)
  | Some value =>
      match entry_from_bytes value with
      | Err e => (st, Err e)
      | Ok entry => let p := entry_remove_index entry token in (put st key p.1, Ok p.2)
      end
  end.

(** The state of the mask walk: the reused entry of the back ends that keep
    one, the arena being rebuilt, and the error that stopped the masking. *)
Record MaskWalk : Type := {
  reused : bytes;
  rebuilt : bytes * list Z;
  failed : option TableError
}.

(** One visit. [entry_kept] is the back end that keeps one entry across the
    walk (Kyoto Cabinet and tkrzw; Berkeley DB takes a fresh one). A panic of
    the entry's loop leaves the record as it is; [entry_mask_whole] shows a
    validated record has none. *)
Definition mask_visit (entry_kept : bool) (mask masked : Z) (w : MaskWalk) (key value : bytes)
    : MaskWalk * result unit Empty_set :=
  let keep := {| reused := reused w; rebuilt := append_record (rebuilt w) key value; failed := failed w |} in
  match failed w with
  | Some _ => (keep, Ok tt)
  | None =>
      match (if entry_kept then entry_set_content (reused w) value else entry_from_bytes value) with
      | Err e => ({| reused := reused w; rebuilt := append_record (rebuilt w) key value;
                     failed := Some e |}, Ok tt)
      | Ok entry =>
          let out := default entry (entry_mask_out entry mask masked) in
          ({| reused := if entry_kept then out else reused w;
              rebuilt := append_record (rebuilt w) key out; failed := None |}, Ok tt)
      end
  end.

Definition table_mask (entry_kept : bool) (st : Records) (mask masked : Z)
    : Records * result unit TableError :=
  let w := (for_each_record (mask_visit entry_kept mask masked) st
              {| reused := []; rebuilt := ([], []); failed := None |}).1 in
  ({| arena := (rebuilt w).1; offsets := (rebuilt w).2; overlay := [] |},
   match failed w with None => Ok tt | Some e => Err e end).

Definition table_tokens (st : Records) (key : bytes) : result (list Z) TableError :=
  match record st key with
  | None => Ok []
  | Some value =>
      match search_bytes value [] (fun _ => true) with Ok p => Ok p.1 | Err e => Err e end
  end.

(** [Vec::dedup]. *)
Fixpoint dedup (l : list bytes) : list bytes :=
  match l with
  | a :: ((b :: _) as rest) => if bool_decide (a = b) then dedup rest else a :: dedup rest
  | _ => l
  end.

Definition table_keys_starting_with (st : Records) (prefix : bytes) : list bytes :=
  dedup (keys_starting_with st prefix).

Fixpoint suggest_rows (st : Records) (prefix : bytes) (keys : list bytes) (out : list (bytes * list Z))
    : result (list (bytes * list Z)) TableError :=
  match keys with
  | [] => Ok out
  | key :: keys =>
      if length key <=? length prefix then suggest_rows st prefix keys out
      else
        match record st key with
        | None => suggest_rows st prefix keys out
        | Some value =>
            match search_bytes value [] (fun _ => true) with
            | Err e => Err e
            | Ok p => suggest_rows st prefix keys (out ++ [(key, p.1)])
            end
        end
  end.

Definition suggest_after (st : Records) (prefix : bytes)
    : result (list (bytes * list Z)) TableError :=
  if negb (contains_key st prefix) then Ok []
  else suggest_rows st prefix (table_keys_starting_with st prefix) [].
