(* ===== verification/UserPhraseSpec.v ===== *)
(** * UserPhraseSpec: the user phrase table as a map from phrases to token sets

    Entries are ascending token arrays; adding and removing are set
    operations on one phrase's tokens, masking filters every phrase's, and
    the suggestions of a prefix are the stored phrases beyond it. *)

From Stdlib Require Import ZArith Lia Bool Strings.Byte.
From stdpp Require Import base list sorting.
From S2P Require Import Prelude ByteOrder Ucs4 RowFormat UserRecords UserMarkers UserPhraseTable.

(** ** Token arrays *)

Definition enc (tokens : list Z) : bytes := tokens ≫= le32.

Definition ascending : list Z -> Prop := StronglySorted Z.lt.

Lemma length_enc ts : length (enc ts) = 4 * length ts.
Proof. apply whole_words. Qed.

Lemma entry_tokens_enc ts : Forall is_u32 ts -> entry_tokens (enc ts) = ts.
Proof.
  intros H. unfold entry_tokens, enc. destruct (whole_words ts) as [-> _]. by apply le_values_le32.
Qed.

Lemma validate_enc ts : validate (enc ts) = Ok tt.
Proof. unfold validate. rewrite length_enc, is_multiple_of_mul by lia. done. Qed.

Lemma enc_app l k : enc (l ++ k) = enc l ++ enc k.
Proof. apply bind_app. Qed.

Lemma enc_singleton t : enc [t] = le32 t.
Proof. apply bind_singleton. Qed.

Lemma take_enc i l k : i = 4 * length l -> take i (enc (l ++ k)) = enc l.
Proof. intros ->. rewrite enc_app. apply take_app_length'. by rewrite length_enc. Qed.

Lemma drop_enc i l k : i = 4 * length l -> drop i (enc (l ++ k)) = enc k.
Proof. intros ->. rewrite enc_app. apply drop_app_length'. by rewrite length_enc. Qed.

Lemma add_scan_spec ts k t :
  ascending ts ->
  match add_scan ts k t with
  | None => t ∈ ts
  | Some None => forall x, x ∈ ts -> (x < t)%Z
  | Some (Some i) => exists lo hi, ts = lo ++ hi /\ i = k + length lo /\
      (forall x, x ∈ lo -> (x < t)%Z) /\ (forall x, x ∈ hi -> (t < x)%Z)
  end.
Proof.
  revert k. induction ts as [|a ts IH]; intros k Hs; cbn [add_scan].
  { by intros x ?%not_elem_of_nil. }
  apply StronglySorted_inv in Hs as [Hs Ha]. rewrite Forall_forall in Ha.
  destruct (Z.eqb_spec a t) as [->|Hne]; [by apply list_elem_of_here|].
  destruct (Z.ltb_spec t a) as [Hlt|Hge].
  - exists [], (a :: ts). split; [done|]. split; [cbn; lia|]. split; [by intros x ?%not_elem_of_nil|].
    intros x [->|Hx]%elem_of_cons; [done|]. specialize (Ha x Hx). lia.
  - specialize (IH (S k) Hs). destruct (add_scan ts (S k) t) as [[i|]|].
    + destruct IH as (lo & hi & -> & -> & Hlo & Hhi). exists (a :: lo), hi.
      split; [done|]. split; [cbn; lia|]. split; [|done].
      intros x [->|Hx]%elem_of_cons; [lia|by apply Hlo].
    + intros x [->|Hx]%elem_of_cons; [lia|by apply IH].
    + by apply list_elem_of_further.
Qed.

Lemma ascending_insert lo hi t :
  ascending (lo ++ hi) -> (forall x, x ∈ lo -> (x < t)%Z) -> (forall x, x ∈ hi -> (t < x)%Z) ->
  ascending (lo ++ t :: hi).
Proof.
  intros (Hc & Hl & Hh)%StronglySorted_app Hlo Hhi. apply StronglySorted_app.
  split; [|split; [done|]].
  - intros x y Hx [->|Hy]%elem_of_cons; [by apply Hlo|]. specialize (Hlo x Hx). specialize (Hhi y Hy). lia.
  - constructor; [done|]. by apply Forall_forall.
Qed.

(** Adding a token to an ascending array: a set insertion. *)
Lemma token_add_spec ts t :
  ascending ts -> Forall is_u32 ts -> is_u32 t ->
  exists ts', (entry_add_index (enc ts) t).1 = enc ts' /\ ascending ts' /\ Forall is_u32 ts' /\
    (forall x, x ∈ ts' <-> x = t \/ x ∈ ts) /\
    ((entry_add_index (enc ts) t).2 = if bool_decide (t ∈ ts) then ERROR_INSERT_ITEM_EXISTS else ERROR_OK).
Proof.
  intros Hs Hu Ht. unfold entry_add_index. rewrite entry_tokens_enc by done.
  pose proof (add_scan_spec ts 0 t Hs) as Hscan.
  assert (Hat : forall lo hi, ts = lo ++ hi -> (forall x, x ∈ lo -> (x < t)%Z) ->
            (forall x, x ∈ hi -> (t < x)%Z) ->
            exists ts', take (4 * length lo) (enc ts) ++ le32 t ++ drop (4 * length lo) (enc ts) = enc ts' /\
              ascending ts' /\ Forall is_u32 ts' /\ (forall x, x ∈ ts' <-> x = t \/ x ∈ ts) /\
              bool_decide (t ∈ ts) = false).
  { intros lo hi -> Hlo Hhi. exists (lo ++ t :: hi). rewrite take_enc, drop_enc by done.
    split; [by rewrite (cons_middle t lo hi), app_assoc, !enc_app, enc_singleton, <- app_assoc|].
    split; [by apply ascending_insert|]. split.
    { apply Forall_app in Hu as [? ?]. apply Forall_app. split; [done|by constructor]. }
    split; [intros x; rewrite !elem_of_app, elem_of_cons; tauto|].
    apply bool_decide_eq_false. intros [Hx|Hx]%elem_of_app; [specialize (Hlo t Hx)|specialize (Hhi t Hx)]; lia. }
  destruct (add_scan ts 0 t) as [[i|]|]; cbn [fst snd].
  - destruct Hscan as (lo & hi & Heq & -> & Hlo & Hhi).
    replace ((0 + length lo) * 4) with (4 * length lo) by lia.
    destruct (Hat lo hi Heq Hlo Hhi) as (ts' & ? & ? & ? & ? & ->). by exists ts'.
  - rewrite length_enc. destruct (Hat ts []) as (ts' & ? & ? & ? & ? & ->); [by rewrite app_nil_r|done|by intros x ?%not_elem_of_nil|].
    by exists ts'.
  - exists ts. split; [done|]. split; [done|]. split; [done|]. split; [|by rewrite bool_decide_true].
    intros x. split; [by right|]. by intros [->|].
Qed.

(** Removing: the token's only occurrence goes. *)
Lemma token_remove_spec ts t :
  ascending ts -> Forall is_u32 ts ->
  exists ts', (entry_remove_index (enc ts) t).1 = enc ts' /\ ascending ts' /\ Forall is_u32 ts' /\
    (forall x, x ∈ ts' <-> x ∈ ts /\ x <> t) /\
    ((entry_remove_index (enc ts) t).2
     = if bool_decide (t ∈ ts) then ERROR_OK else ERROR_REMOVE_ITEM_DONOT_EXISTS).
Proof.
  intros Hs Hu. unfold entry_remove_index. rewrite entry_tokens_enc by done.
  pose proof (position_spec (fun v => (v =? t)%Z) ts) as Hp.
  destruct (position _ ts) as [i|]; cbn [fst snd].
  - destruct Hp as (x & Hx & Heq%Z.eqb_eq). subst x.
    rewrite <- (take_drop_middle ts i t Hx) in Hs, Hu |- *.
    set (lo := take i ts) in *. set (hi := drop (S i) ts) in *.
    assert (Hlo : length lo = i).
    { unfold lo. rewrite length_take. apply lookup_lt_Some in Hx. lia. }
    exists (lo ++ hi). split; [|split; [|split; [|split]]].
    + rewrite take_enc by lia. rewrite (cons_middle t lo hi), app_assoc.
      rewrite drop_enc by (rewrite length_app; cbn; lia). by rewrite enc_app.
    + apply StronglySorted_app in Hs as (Hc & Hl & Hh). apply StronglySorted_inv in Hh as [Hh _].
      apply StronglySorted_app. split; [|done]. intros x y Hxl Hyh. apply Hc; [done|by right].
    + apply Forall_app in Hu as [Hl Hh]. apply Forall_cons in Hh as [_ Hh]. by apply Forall_app.
    + apply StronglySorted_app in Hs as (Hc & _ & Hh). apply StronglySorted_inv in Hh as [_ Hh].
      rewrite Forall_forall in Hh. intros x. rewrite !elem_of_app, elem_of_cons. split; [|tauto].
      intros [Hxl|Hxh]; (split; [tauto|]).
      * specialize (Hc x t Hxl (list_elem_of_here _ _)). lia.
      * specialize (Hh x Hxh). cbn in Hh. lia.
    + rewrite bool_decide_true; [done|]. apply elem_of_app. right. by left.
  - exists ts. split; [done|]. split; [done|]. split; [done|].
    assert (Hnot : t ∉ ts) by (intros Hin; specialize (Hp t Hin); by rewrite Z.eqb_refl in Hp).
    split; [|by rewrite bool_decide_false]. intros x. split; [|tauto]. intros Hx. split; [done|by intros ->].
Qed.

Lemma entry_mask_loop_spec fuel lo hi mask masked :
  4 * length hi <= fuel -> Forall is_u32 hi ->
  entry_mask_loop fuel (enc (lo ++ hi)) (4 * length lo) mask masked =
  Some (enc (lo ++ filter (fun t => Z.land t mask <> masked) hi)).
Proof.
  revert lo hi. induction fuel as [|fuel IH]; intros lo hi Hf Hu; cbn [entry_mask_loop].
  { destruct hi; [done|cbn in Hf; lia]. }
  rewrite length_enc, length_app. destruct hi as [|t hi].
  { cbn [length]. by rewrite (proj2 (Nat.ltb_ge _ _)) by lia. }
  rewrite (proj2 (Nat.ltb_lt _ _)) by (cbn; lia). apply Forall_cons in Hu as [Ht Hu].
  assert (Hw : subslice (enc (lo ++ t :: hi)) (4 * length lo) (4 * length lo + 4) = Some (le32 t)).
  { rewrite (cons_middle t lo hi), !enc_app, enc_singleton.
    apply subslice_middle; rewrite length_enc, ?length_le32; lia. }
  rewrite Hw. cbn [mbind option_bind]. rewrite le_value_le32, wrap32_small by done.
  destruct (Z.eqb_spec (Z.land t mask) masked) as [He|He].
  - rewrite filter_cons_False by tauto. rewrite take_enc by done.
    rewrite (cons_middle t lo hi), app_assoc, drop_enc by (rewrite length_app; cbn; lia).
    rewrite <- enc_app. apply IH; [cbn in Hf; lia|done].
  - rewrite filter_cons_True by done. rewrite (cons_middle t lo hi), app_assoc.
    replace (4 * length lo + 4) with (4 * length (lo ++ [t])) by (rewrite length_app; cbn; lia).
    rewrite IH by (done || (cbn in Hf; lia)). by rewrite <- app_assoc.
Qed.

(** Masking a whole-token array filters it and never panics. *)
Lemma entry_mask_whole ts mask masked :
  Forall is_u32 ts ->
  entry_mask_out (enc ts) mask masked = Some (enc (filter (fun t => Z.land t mask <> masked) ts)).
Proof.
  intros Hu. unfold entry_mask_out. apply (entry_mask_loop_spec _ []); [|done].
  by rewrite length_enc.
Qed.

(** ** The table *)

Record table_ok (st : Records) : Prop := {
  table_records : records_ok st;
  table_closed : prefix_closed 4 st;
  table_entries : forall key value, record st key = Some value ->
    exists ts, value = enc ts /\ ascending ts /\ Forall is_u32 ts
}.

(** Whether a phrase is a key, and its tokens. *)
Definition present (st : Records) (words : list Z) : Prop :=
  is_some (record st (key_ucs4 words)) = true.

Definition phrase_tokens (st : Records) (words : list Z) : list Z :=
  match record st (key_ucs4 words) with Some value => entry_tokens value | None => [] end.

Lemma key_ucs4_inj ws ws' :
  Forall is_u32 ws -> Forall is_u32 ws' -> key_ucs4 ws = key_ucs4 ws' -> ws = ws'.
Proof.
  intros H H' He. pose proof (decode_encode_tokens ws H) as E.
  pose proof (decode_encode_tokens ws' H') as E'. unfold encode_tokens, key_ucs4 in *.
  rewrite He in E. congruence.
Qed.

Lemma length_key ws : length (key_ucs4 ws) = 4 * length ws.
Proof. apply whole_words. Qed.

Lemma key_nonempty ws : ws <> [] -> exists b k, key_ucs4 ws = b :: k.
Proof. destruct ws as [|w ws]; [done|]. intros _. unfold key_ucs4. rewrite bind_cons. by eexists _, _. Qed.

Lemma take_key ws m : take (m * 4) (key_ucs4 ws) = key_ucs4 (take m ws).
Proof.
  destruct (decide (m <= length ws)) as [Hm|Hm].
  - rewrite <- (take_drop m ws) at 1. apply (take_enc (m * 4)). rewrite length_take. lia.
  - rewrite (take_ge ws) by lia. apply take_ge. rewrite length_key. lia.
Qed.

Lemma prefix_words words ws :
  Forall is_u32 words -> Forall is_u32 ws ->
  proper_prefix 4 (key_ucs4 words) (key_ucs4 ws) = true <->
  exists m, 1 <= m < length words /\ ws = take m words.
Proof.
  intros Hu Hu'. rewrite proper_prefix_spec, length_key.
  replace (4 * length words) with (length words * 4) by lia. rewrite Nat.div_mul by lia.
  split; intros (m & Hm & He); exists m; (split; [done|]).
  - rewrite take_key in He. apply key_ucs4_inj in He; [done|done|by apply Forall_take].
  - by rewrite He, take_key.
Qed.

Lemma entry_of st words :
  table_ok st -> exists ts, ascending ts /\ Forall is_u32 ts /\ phrase_tokens st words = ts /\
    (forall v, record st (key_ucs4 words) = Some v -> v = enc ts).
Proof.
  intros Hok. unfold phrase_tokens. destruct (record st (key_ucs4 words)) as [v|] eqn:E.
  - destruct (table_entries st Hok _ _ E) as (ts & -> & Hs & Hu). exists ts.
    rewrite entry_tokens_enc by done. split; [done|]. split; [done|]. split; [done|]. by intros v [= <-].
  - exists []. split; [constructor|]. split; [constructor|]. done.
Qed.

(** Overwriting one phrase's array. *)
Lemma put_tokens st words ts ws :
  table_ok st -> Forall is_u32 words -> Forall is_u32 ws -> Forall is_u32 ts ->
  phrase_tokens (put st (key_ucs4 words) (enc ts)) ws
    = if decide (ws = words) then ts else phrase_tokens st ws.
Proof.
  intros Hok Hu Hu' Hts. unfold phrase_tokens. rewrite record_put by apply Hok.
  destruct (decide (ws = words)) as [->|Hne].
  - rewrite decide_True by done. by apply entry_tokens_enc.
  - rewrite decide_False; [done|]. intros He. by apply key_ucs4_inj in He.
Qed.

Lemma put_table_ok st words ts :
  table_ok st -> present st words -> ascending ts -> Forall is_u32 ts ->
  table_ok (put st (key_ucs4 words) (enc ts)).
Proof.
  intros Hok Hp Hs Hu. split.
  - by apply put_ok, Hok.
  - by apply put_present_closed; [apply Hok|apply Hok|].
  - intros key value. rewrite record_put by apply Hok. case_decide; [|by apply Hok].
    intros [= <-]. by exists ts.
Qed.

Lemma table_add_spec st words t :
  table_ok st -> words <> [] -> Forall is_u32 words -> is_u32 t ->
  exists st' code, table_add st words t = (st', Ok code) /\ table_ok st' /\
    (code = if bool_decide (t ∈ phrase_tokens st words) then ERROR_INSERT_ITEM_EXISTS else ERROR_OK) /\
    forall ws, Forall is_u32 ws ->
      (forall x, x ∈ phrase_tokens st' ws <-> x ∈ phrase_tokens st ws \/ (ws = words /\ x = t)) /\
      (present st' ws <-> present st ws \/ exists m, 1 <= m <= length words /\ ws = take m words).
Proof.
  intros Hok Hne Hu Ht. destruct (entry_of st words Hok) as (ts & Hs & Hts & Htok & Hval).
  destruct (token_add_spec ts t Hs Hts Ht) as (ts' & Hadd & Hs' & Hts' & Hmem & Hcode).
  assert (Hlen : 1 <= length words) by (destruct words; [done|cbn; lia]).
  unfold table_add. destruct (key_nonempty words Hne) as (b & k & Hbk). rewrite Hbk, <- Hbk. clear b k Hbk.
  destruct (record st (key_ucs4 words)) as [v|] eqn:E.
  - specialize (Hval v eq_refl). subst v. unfold entry_from_bytes. rewrite validate_enc, Hadd, Hcode.
    eexists _, _. split; [done|]. rewrite Htok.
    assert (Hp : present st words) by (unfold present; by rewrite E).
    split; [by apply put_table_ok|]. split; [done|]. intros ws Hws. rewrite put_tokens by done. split.
    + intros x. destruct (decide (ws = words)) as [->|Hd]; [rewrite Hmem, Htok; tauto|]. split; [by left|].
      by intros [?|[? _]].
    + unfold present at 1. rewrite record_put by apply Hok. destruct (decide (key_ucs4 ws = key_ucs4 words)) as [Hd|Hd].
      * apply key_ucs4_inj in Hd; [|done|done]. subst ws. split; [by left|done].
      * split; [by left|]. intros [?|(m & Hm & ->)]; [done|].
        pose proof (table_closed st Hok (key_ucs4 words) m Hp) as Hc.
        rewrite take_key, length_key in Hc. apply Hc; lia.
  - assert (Hnil : ts = []) by (unfold phrase_tokens in Htok; by rewrite E in Htok).
    rewrite Hnil in Hadd, Hcode, Hmem, Htok. change (enc []) with (@nil byte) in Hadd, Hcode. rewrite Hadd, Hcode. rewrite Htok.
    destruct (create_prefixes_spec 4 ltac:(lia) st (key_ucs4 words) (enc ts')
      (table_records st Hok) (table_closed st Hok) E (length words)) as (Hrok & Hrc & Hrec);
      [rewrite length_key; lia|done|].
    set (out := create_prefixes _ _ _ _) in *.
    eexists _, _. split; [done|]. split.
    { split; [done|done|]. intros key value. rewrite Hrec.
      destruct (decide (key = key_ucs4 words)) as [_|_]; [intros [= <-]; by exists ts'|].
      destruct (record st key) as [w|] eqn:Ek; [intros [= <-]; by apply Hok in Ek|].
      destruct (proper_prefix 4 (key_ucs4 words) key); [|done]. intros [= <-]. exists [].
      split; [done|]. split; constructor. }
    split; [done|]. intros ws Hws. split.
    + intros x. unfold phrase_tokens. rewrite Hrec. destruct (decide (ws = words)) as [->|Hd].
      * rewrite decide_True, E by done. rewrite entry_tokens_enc by done. rewrite Hmem. tauto.
      * rewrite decide_False by (intros He; by apply key_ucs4_inj in He).
        destruct (record st (key_ucs4 ws)); [split; [by left|by intros [?|[? _]]]|].
        destruct (proper_prefix 4 (key_ucs4 words) (key_ucs4 ws)); cbn; split; try by left.
        all: by intros [?|[? _]].
    + unfold present at 1. rewrite Hrec. destruct (decide (ws = words)) as [->|Hd].
      * rewrite decide_True by done. split; [|done]. intros _. right. exists (length words).
        split; [lia|]. by rewrite take_ge.
      * rewrite decide_False by (intros He; by apply key_ucs4_inj in He). unfold present.
        destruct (record st (key_ucs4 ws)); [split; [by left|done]|].
        destruct (proper_prefix 4 (key_ucs4 words) (key_ucs4 ws)) eqn:Ep.
        { split; [|done]. intros _. right. apply prefix_words in Ep as (m & Hm & ->); [|done|done].
          exists m. split; [lia|done]. }
        split; [done|]. intros [?|(m & Hm & Heq)]; [done|].
        assert (proper_prefix 4 (key_ucs4 words) (key_ucs4 ws) = true); [|congruence].
        apply prefix_words; [done|done|]. exists m. split; [|done].
        destruct (decide (m = length words)) as [->|]; [|lia]. rewrite take_ge in Heq by lia. done.
Qed.

Lemma table_remove_spec st words t :
  table_ok st -> Forall is_u32 words ->
  exists st' code, table_remove st words t = (st', Ok code) /\ table_ok st' /\
    (code = if bool_decide (t ∈ phrase_tokens st words) then ERROR_OK else ERROR_REMOVE_ITEM_DONOT_EXISTS) /\
    forall ws, Forall is_u32 ws ->
      (forall x, x ∈ phrase_tokens st' ws <-> x ∈ phrase_tokens st ws /\ ~ (ws = words /\ x = t)) /\
      (present st' ws <-> present st ws).
Proof.
  intros Hok Hu. destruct (entry_of st words Hok) as (ts & Hs & Hts & Htok & Hval).
  destruct (token_remove_spec ts t Hs Hts) as (ts' & Hrem & Hs' & Hts' & Hmem & Hcode).
  unfold table_remove. destruct (record st (key_ucs4 words)) as [v|] eqn:E.
  - specialize (Hval v eq_refl). subst v. unfold entry_from_bytes. rewrite validate_enc, Hrem, Hcode.
    eexists _, _. split; [done|]. rewrite Htok.
    assert (Hp : present st words) by (unfold present; by rewrite E).
    split; [by apply put_table_ok|]. split; [done|]. intros ws Hws. rewrite put_tokens by done. split.
    + intros x. destruct (decide (ws = words)) as [->|Hd]; [rewrite Hmem, Htok; tauto|]. tauto.
    + unfold present at 1. rewrite record_put by apply Hok. destruct (decide (key_ucs4 ws = key_ucs4 words)) as [Hd|Hd]; [|done].
      apply key_ucs4_inj in Hd; [|done|done]. by subst ws.
  - assert (Hnil : phrase_tokens st words = []) by (unfold phrase_tokens; by rewrite E).
    eexists _, _. split; [done|]. split; [done|]. rewrite Hnil.
    split; [by rewrite bool_decide_false by apply not_elem_of_nil|]. intros ws Hws. split; [|done].
    intros x. split; [|tauto]. intros Hx. split; [done|]. intros [-> _]. rewrite Hnil in Hx.
    by apply not_elem_of_nil in Hx.
Qed.

(** ** Masking *)

Lemma filter_forall {A} (P Q : A -> Prop) `{forall x, Decision (Q x)} (l : list A) :
  Forall P l -> Forall P (filter Q l).
Proof. rewrite !Forall_forall. intros Hl x [_ Hx]%list_elem_of_filter. by apply Hl. Qed.

Section mask.
Context (entry_kept : bool) (mask masked : Z).

Definition kept_token (t : Z) : Prop := Z.land t mask <> masked.

#[local] Instance kept_token_dec t : Decision (kept_token t).
Proof using Type. unfold kept_token. apply _. Defined.

(** The rows the walk writes, [tail] being the tokens of the entry it keeps. *)
Fixpoint masked_rows (tail : list Z) (rows : list row) : list row :=
  match rows with
  | [] => []
  | (key, value) :: rows =>
      let ts := entry_tokens value in
      let out := filter kept_token (ts ++ if entry_kept then drop (length ts) tail else []) in
      (key, enc out) :: masked_rows (if entry_kept then out else tail) rows
  end.

Definition token_row (e : row) : Prop := exists ts, e.2 = enc ts /\ Forall is_u32 ts.

Lemma mask_visit_whole tail p key ts :
  Forall is_u32 tail -> Forall is_u32 ts ->
  let out := filter kept_token (ts ++ if entry_kept then drop (length ts) tail else []) in
  mask_visit entry_kept mask masked {| reused := enc tail; rebuilt := p; failed := None |} key (enc ts)
    = ({| reused := enc (if entry_kept then out else tail);
          rebuilt := append_record p key (enc out); failed := None |}, Ok tt).
Proof using Type.
  intros Htail Hts. cbv zeta. unfold mask_visit. cbn [failed reused rebuilt].
  unfold entry_set_content, entry_from_bytes. rewrite validate_enc. destruct entry_kept.
  - assert (Hd : enc ts ++ drop (length (enc ts)) (enc tail) = enc (ts ++ drop (length ts) tail)).
    { rewrite enc_app. f_equal. rewrite length_enc.
      destruct (decide (length ts <= length tail)) as [Hl|Hl].
      - rewrite <- (take_drop (length ts) tail) at 1. apply drop_enc. rewrite length_take. lia.
      - rewrite !drop_ge; [done|lia|rewrite length_enc; lia]. }
    rewrite Hd, entry_mask_whole by (apply Forall_app; split; [done|by apply Forall_drop]). done.
  - rewrite app_nil_r, entry_mask_whole by done. done.
Qed.

Lemma mask_walk rows tail p :
  Forall is_u32 tail -> Forall token_row rows ->
  exists r, visit_rows (mask_visit entry_kept mask masked)
      {| reused := enc tail; rebuilt := p; failed := None |} rows
    = ({| reused := r;
          rebuilt := fold_left (fun p e => append_record p e.1 e.2) (masked_rows tail rows) p;
          failed := None |}, Ok tt).
Proof using Type.
  revert tail p. induction rows as [|[k v] rows IH]; intros tail p Htail Hrows; [by eexists|].
  apply Forall_cons in Hrows as [(ts & Hv & Hts) Hrows]. cbn in Hv. subst v.
  cbn [visit_rows masked_rows fold_left fst snd].
  rewrite mask_visit_whole, entry_tokens_enc by done. cbn [fst snd].
  apply IH; [|done]. destruct entry_kept; [|done].
  apply filter_forall, Forall_app. split; [done|by apply Forall_drop].
Qed.

Lemma masked_rows_keys tail rows : (masked_rows tail rows).*1 = rows.*1.
Proof using Type.
  revert tail. induction rows as [|[k v] rows IH]; intros tail; [done|].
  cbn [masked_rows]. rewrite !fmap_cons. cbn [fst]. by rewrite IH.
Qed.

(** Each row keeps its unselected tokens, in order; what the kept entry adds
    is unselected too, and nothing is added without it. *)
Lemma masked_rows_tokens tail rows key v :
  Forall is_u32 tail -> Forall token_row rows -> (key, v) ∈ masked_rows tail rows ->
  exists w extra, (key, w) ∈ rows /\ v = enc (filter kept_token (entry_tokens w) ++ extra) /\
    Forall kept_token extra /\ Forall is_u32 extra /\ (entry_kept = false -> extra = []).
Proof using Type.
  revert tail. induction rows as [|[k w] rows IH]; intros tail Htail Hrows Hin.
  { by apply not_elem_of_nil in Hin. }
  apply Forall_cons in Hrows as [(ts & Hw & Hts) Hrows]. cbn in Hw. subst w.
  cbn [masked_rows] in Hin. rewrite entry_tokens_enc in Hin by done. apply elem_of_cons in Hin as [Heq|Hin].
  - injection Heq as -> ->. exists (enc ts).
    exists (filter kept_token (if entry_kept then drop (length ts) tail else [])).
    rewrite entry_tokens_enc by done. split; [by left|]. split; [by rewrite filter_app|].
    split; [apply Forall_forall; intros x Hx; by apply list_elem_of_filter in Hx as [? _]|].
    split; [|by intros ->]. apply filter_forall. destruct entry_kept; [by apply Forall_drop|done].
  - apply IH in Hin as (w & extra & Hw & ?); [|destruct entry_kept; [|done]|done].
    + exists w, extra. split; [by right|done].
    + apply filter_forall, Forall_app. split; [done|by apply Forall_drop].
Qed.
End mask.

Lemma filter_ascending (P : Z -> Prop) `{forall x, Decision (P x)} ts :
  ascending ts -> ascending (filter P ts).
Proof.
  intros Hs. induction Hs as [|x l _ IH Hx]; [constructor|]. rewrite filter_cons. case_decide; [|done].
  constructor; [done|]. by apply filter_forall.
Qed.

Lemma visited_tokens st : table_ok st -> Forall token_row (visited st).
Proof.
  intros Hok. apply Forall_forall. intros [k v] Hin. apply record_spec in Hin; [|apply Hok].
  apply Hok in Hin as (ts & -> & _ & Hu). by exists ts.
Qed.

(** Masking the table: every phrase stays a key and keeps its unselected
    tokens; the back ends that take a fresh entry keep exactly those. *)
Lemma table_mask_spec entry_kept st mask masked :
  table_ok st ->
  let out := table_mask entry_kept st mask masked in
  (Z.of_nat (length (arena out.1)) <= u32_max)%Z ->
  out.2 = Ok tt /\ records_ok out.1 /\
  (forall key, is_some (record out.1 key) = is_some (record st key)) /\
  (forall words, exists extra,
     phrase_tokens out.1 words
       = filter (fun t => Z.land t mask <> masked) (phrase_tokens st words) ++ extra /\
     Forall (fun t => Z.land t mask <> masked) extra /\ (entry_kept = false -> extra = [])) /\
  (entry_kept = false -> table_ok out.1).
Proof.
  intros Hok out. pose proof (visited_tokens st Hok) as Hrows.
  destruct (mask_walk entry_kept mask masked (visited st) [] ([], []) (Forall_nil_2 _) Hrows) as (r & Hwalk).
  set (rows := masked_rows entry_kept mask masked [] (visited st)) in *.
  pose proof (masked_rows_keys entry_kept mask masked [] (visited st)) as Hkeys. fold rows in Hkeys.
  assert (Hrow : forall key v, (key, v) ∈ rows -> exists w extra, record st key = Some w /\
    v = enc (filter (fun t => Z.land t mask <> masked) (entry_tokens w) ++ extra) /\
    Forall (fun t => Z.land t mask <> masked) extra /\ Forall is_u32 extra /\ (entry_kept = false -> extra = [])).
  { intros key v Hin. apply masked_rows_tokens in Hin as (w & extra & Hw & Heq & H1 & H2 & H3); [|done|done].
    exists w, extra. split; [by apply record_spec; [apply Hok|]|]. done. }
  unfold out, table_mask, for_each_record. change (enc []) with (@nil byte) in Hwalk.
  rewrite Hwalk.
  cbn [fst snd rebuilt failed]. intros Hfit.
  destruct (rebuilt_walk st rows (table_records st Hok) Hkeys Hfit) as (Hrok & Hrec & Hsome).
  set (st' := {| arena := _; offsets := _; overlay := _ |}) in *.
  split; [done|]. split; [exact Hrok|]. split; [exact Hsome|]. split.
  - intros words. specialize (Hsome (key_ucs4 words)). unfold phrase_tokens.
    destruct (record st' (key_ucs4 words)) as [v|] eqn:E.
    + apply Hrec, Hrow in E as (w & extra & Hw & -> & H1 & H2 & H3). rewrite Hw. exists extra.
      split; [|done]. apply entry_tokens_enc, Forall_app. split; [|done]. apply filter_forall.
      destruct (table_entries st Hok _ _ Hw) as (ts & -> & _ & Hu). by rewrite entry_tokens_enc.
    + destruct (record st (key_ucs4 words)); [done|]. exists []. by repeat split.
  - intros Hk. split; [done| |].
    + intros key n. rewrite !Hsome. apply Hok.
    + intros key v E. apply Hrec, Hrow in E as (w & extra & Hw & -> & _ & _ & H3).
      rewrite (H3 Hk), app_nil_r. destruct (table_entries st Hok _ _ Hw) as (ts & -> & Hs & Hu).
      rewrite entry_tokens_enc by done. eexists. split; [done|].
      split; [by apply filter_ascending|by apply filter_forall].
Qed.

(** ** Suggestions *)

Lemma table_tokens_spec st words : table_ok st ->
  table_tokens st (key_ucs4 words) = Ok (phrase_tokens st words).
Proof.
  intros Hok. unfold table_tokens, phrase_tokens. destruct (record st (key_ucs4 words)) as [v|] eqn:E; [|done].
  destruct (table_entries st Hok _ _ E) as (ts & -> & _ & Hu).
  unfold search_bytes, search_tokens. rewrite validate_enc. cbn [fst app]. rewrite filter_all; [done|by apply Forall_forall].
Qed.

Lemma dedup_strict l : StronglySorted bytes_lt l -> dedup l = l.
Proof.
  induction 1 as [|a l Hs IH Ha]; [done|]. destruct l as [|b l]; [done|].
  cbn [dedup] in IH |- *. apply Forall_cons in Ha as [Hab _].
  rewrite bool_decide_false by (by apply bytes_lt_ne). by rewrite IH.
Qed.

Lemma suggest_rows_spec st prefix keys out :
  table_ok st ->
  suggest_rows st prefix keys out
    = Ok (out ++ omap (fun key =>
        if length key <=? length prefix then None
        else match record st key with Some v => Some (key, entry_tokens v) | None => None end) keys).
Proof.
  intros Hok. revert out. induction keys as [|key keys IH]; intros out; cbn [suggest_rows].
  { by rewrite app_nil_r. }
  unfold omap. cbn [list_omap]. fold (omap (M:=list) (A:=bytes) (B:=bytes * list Z)).
  destruct (length key <=? length prefix); [apply IH|].
  destruct (record st key) as [v|] eqn:E; [|apply IH].
  destruct (table_entries st Hok _ _ E) as (ts & -> & _ & Hu).
  unfold search_bytes, search_tokens. rewrite validate_enc. cbn [fst app].
  rewrite filter_all by (by apply Forall_forall). rewrite IH, <- app_assoc. done.
Qed.

(** The suggestions after a phrase are the keys beyond it, each with its
    tokens, in byte order; the lookup that opens the query hides none,
    because the table is closed under prefixes. *)
Lemma suggest_after_spec st words :
  table_ok st -> words <> [] ->
  exists rows, suggest_after st (key_ucs4 words) = Ok rows /\
    StronglySorted (fun e e' => bytes_lt e.1 e'.1) rows /\
    forall ws ts, (key_ucs4 ws, ts) ∈ rows <->
      present st ws /\ (exists r, key_ucs4 ws = key_ucs4 words ++ r /\ r <> []) /\ ts = phrase_tokens st ws.
Proof.
  intros Hok Hne. unfold suggest_after. rewrite contains_key_spec.
  pose proof (ordered_keys _ (visited_ordered st (table_records st Hok))) as Hsv.
  destruct (is_some (record st (key_ucs4 words))) eqn:Hp; cbn [negb].
  - rewrite suggest_rows_spec by done. unfold table_keys_starting_with.
    rewrite keys_starting_visited by apply Hok.
    assert (Hs : StronglySorted bytes_lt
      (filter (fun key => starts_with key (key_ucs4 words) = true) (visited st).*1)).
    { clear -Hsv. induction Hsv as [|x l _ IH Hx]; [constructor|]. rewrite filter_cons.
      case_decide; [|done]. constructor; [done|]. by apply filter_forall. }
    rewrite dedup_strict by done. eexists. split; [done|]. cbn [app]. split.
    + clear -Hs. induction Hs as [|x l _ IH Hx]; [constructor|]. unfold omap. cbn [list_omap].
      destruct (if _ <=? _ then _ else _) as [e|] eqn:E; [|exact IH]. constructor; [exact IH|].
      apply Forall_forall. intros e' (y & Hy & E')%list_elem_of_omap. rewrite Forall_forall in Hx.
      assert (Hkey : forall z f, (if length z <=? length (key_ucs4 words) then None
        else match record st z with Some v => Some (z, entry_tokens v) | None => None end) = Some f -> f.1 = z).
      { intros z f. destruct (length z <=? length (key_ucs4 words)); [done|]. destruct (record st z); [|done]. by intros [= <-]. }
      rewrite (Hkey _ _ E), (Hkey _ _ E'). by apply Hx.
    + intros ws ts. rewrite list_elem_of_omap. unfold phrase_tokens, present. split.
      * intros (key & Hin & E). apply list_elem_of_filter in Hin as [Hst _].
        destruct (Nat.leb_spec (length key) (length (key_ucs4 words))) as [Hl|Hl]; [done|].
        destruct (record st key) as [v|] eqn:Ev; [|done]. injection E as <- <-. rewrite Ev.
        split; [done|]. split; [|done]. apply starts_with_app in Hst as (r & Hr). exists r.
        split; [done|]. intros ->. rewrite Hr, app_nil_r in Hl. lia.
      * intros (Hw & (r & Hr & Hrne) & ->). exists (key_ucs4 ws). split.
        { apply list_elem_of_filter. split; [by apply starts_with_app; exists r|].
          by apply is_some_record; [apply Hok|]. }
        rewrite (proj2 (Nat.leb_gt _ _)); [by destruct (record st (key_ucs4 ws))|].
        rewrite Hr, length_app. destruct r; [done|cbn; lia].
  - exists []. split; [done|]. split; [constructor|]. intros ws ts. split; [by intros ?%not_elem_of_nil|].
    intros (Hw & (r & Hr & _) & _). pose proof (table_closed st Hok (key_ucs4 ws) (length words) Hw) as Hc.
    assert (Hpre : take (length words * 4) (key_ucs4 ws) = key_ucs4 words).
    { rewrite Hr. apply take_app_length'. rewrite length_key. lia. }
    rewrite Hpre, Hp in Hc. discriminate Hc.
    + destruct words; [done|cbn; lia].
    + rewrite Hr, length_app, length_key. lia.
Qed.

Lemma table_ok_new : table_ok records_new.
Proof. split; [apply records_ok_new|done|done]. Qed.

(** The two checks that run before an edit let a well-formed table pass. *)
Lemma checks_pass st words : table_ok st -> words <> [] ->
  check_add st words = Ok tt /\ check_mask st = Ok tt.
Proof.
  intros Hok Hne. split.
  - unfold check_add. destruct (key_nonempty words Hne) as (b & k & ->).
    destruct (record st (b :: k)) as [v|] eqn:E; [|done].
    destruct (table_entries st Hok _ _ E) as (ts & -> & _). apply validate_enc.
  - unfold check_mask, for_each_record. pose proof (visited_tokens st Hok) as Hrows.
    induction Hrows as [|[k v] rows (ts & Hv & _) _ IH]; [done|]. cbn in Hv. subst v.
    cbn [visit_rows]. rewrite validate_enc. exact IH.
Qed.

(** C29. The user phrase table is a map from phrases to ascending token
    sets. Reading a phrase gives its set; adding inserts the token, says
    whether it was there, and makes the phrase and its proper prefixes keys;
    removing deletes that token alone; masking drops every selected token
    and no other one, exactly so on the back ends that take a fresh entry per
    record; and the suggestions of a phrase are the keys beyond it with their
    sets. No operation fails, the checks before an edit pass, and each edit
    keeps the table's invariant. *)
Theorem phrase_table_refines st words t :
  table_ok st -> words <> [] -> Forall is_u32 words -> is_u32 t ->
  table_tokens st (key_ucs4 words) = Ok (phrase_tokens st words) /\
  (check_add st words = Ok tt /\ check_mask st = Ok tt) /\
  (exists st', table_add st words t
       = (st', Ok (if bool_decide (t ∈ phrase_tokens st words) then ERROR_INSERT_ITEM_EXISTS else ERROR_OK)) /\
     table_ok st' /\
     forall ws, Forall is_u32 ws ->
       (forall x, x ∈ phrase_tokens st' ws <-> x ∈ phrase_tokens st ws \/ (ws = words /\ x = t)) /\
       (present st' ws <-> present st ws \/ exists m, 1 <= m <= length words /\ ws = take m words)) /\
  (exists st', table_remove st words t
       = (st', Ok (if bool_decide (t ∈ phrase_tokens st words) then ERROR_OK else ERROR_REMOVE_ITEM_DONOT_EXISTS)) /\
     table_ok st' /\
     forall ws, Forall is_u32 ws ->
       (forall x, x ∈ phrase_tokens st' ws <-> x ∈ phrase_tokens st ws /\ ~ (ws = words /\ x = t)) /\
       (present st' ws <-> present st ws)) /\
  (forall entry_kept mask masked,
     let out := table_mask entry_kept st mask masked in
     (Z.of_nat (length (arena out.1)) <= u32_max)%Z ->
     out.2 = Ok tt /\
     (forall ws, (present out.1 ws <-> present st ws) /\ exists extra,
        phrase_tokens out.1 ws = filter (fun x => Z.land x mask <> masked) (phrase_tokens st ws) ++ extra /\
        Forall (fun x => Z.land x mask <> masked) extra /\ (entry_kept = false -> extra = [])) /\
     (entry_kept = false -> table_ok out.1)) /\
  (exists rows, suggest_after st (key_ucs4 words) = Ok rows /\
     StronglySorted (fun e e' => bytes_lt e.1 e'.1) rows /\
     forall ws ts, (key_ucs4 ws, ts) ∈ rows <->
       present st ws /\ (exists r, key_ucs4 ws = key_ucs4 words ++ r /\ r <> []) /\ ts = phrase_tokens st ws).
Proof.
  intros Hok Hne Hu Ht. split; [by apply table_tokens_spec|]. split; [by apply checks_pass|].
  destruct (table_add_spec st words t Hok Hne Hu Ht) as (sa & ca & Ha & Hoka & -> & Hspa).
  destruct (table_remove_spec st words t Hok Hu) as (sr & cr & Hr & Hokr & -> & Hspr).
  split; [by exists sa|]. split; [by exists sr|]. split; [|by apply suggest_after_spec].
  intros kept mask masked out Hfit.
  destruct (table_mask_spec kept st mask masked Hok Hfit) as (H1 & H2 & H3 & H4 & H5).
  split; [done|]. split; [|done]. intros ws. split; [|apply H4].
  unfold present. by rewrite <- (H3 (key_ucs4 ws)).
Qed.

Lemma phrase_table_refines_witness :
  let words := [20320; 22909]%Z in
  Forall is_u32 words /\ is_u32 16777217 /\
  exists st', table_add records_new words 16777217 = (st', Ok ERROR_OK) /\
    table_ok st' /\ phrase_tokens st' words = [16777217]%Z /\ present st' [20320%Z].
Proof.
  cbv zeta.
  assert (Hu : Forall is_u32 [20320; 22909]%Z) by (repeat constructor; vm_compute; congruence).
  assert (Ht : is_u32 16777217) by (unfold is_u32; vm_compute; split; [discriminate|done]).
  split; [done|]. split; [done|].
  destruct (phrase_table_refines records_new [20320; 22909]%Z 16777217 table_ok_new
    ltac:(done) Hu Ht) as (_ & _ & (st' & Hadd & Hok & _) & _).
  exists st'. split; [exact Hadd|]. split; [exact Hok|].
  assert (Hst : st' = (table_add records_new [20320; 22909]%Z 16777217).1) by (by rewrite Hadd).
  rewrite Hst. split; vm_compute; reflexivity.
Defined.
