(* ===== verification/UserIndex.v ===== *)
(** * UserIndex: the user pinyin index

    [crates/oxpinyin-user/src/user_index.rs] over [UserRecords]: the entry of
    one key, the two projections a reading is stored under, the searches, and
    the per-length entries the Kyoto Cabinet and tkrzw back ends keep between
    operations. [entry_per_length] is [ENTRY_PER_LENGTH]. *)

From Stdlib Require Import ZArith Lia Bool Strings.Byte.
From stdpp Require Import base list.
From S2P Require Import Prelude Chewing Ucs4 RowFormat UserRecords UserMarkers.

Definition MAX_PHRASE_LENGTH : nat := 16.

(** ** The entry of one key *)

(** [Iterator::cmp] by the comparison of the items. *)
Fixpoint cmp_by {A} (cmp : A -> A -> comparison) (l k : list A) : comparison :=
  match l, k with
  | [], [] => Eq
  | [], _ => Lt
  | _, [] => Gt
  | x :: l, y :: k => match cmp x y with Eq => cmp_by cmp l k | c => c end
  end.

Definition cmp_pair (a b : Z * Z) : comparison :=
  match (a.1 ?= b.1)%Z with Eq => (a.2 ?= b.2)%Z | c => c end.

(** The packed words of a record, decoded. *)
Definition record_keys (record : bytes) : list ChewingKey :=
  (fun word => from_packed (le_value word)) <$> whole_chunks 2 (drop 4 record).

Definition compare_keys (keys value : list ChewingKey) : comparison :=
  match cmp_by Z.compare (initial <$> keys) (initial <$> value) with
  | Eq =>
      match cmp_by cmp_pair ((fun k => (middle k, final_ k)) <$> keys)
                            ((fun k => (middle k, final_ k)) <$> value) with
      | Eq => cmp_by Z.compare (tone <$> keys) (tone <$> value)
      | c => c
      end
  | c => c
  end.

Definition compare_record (record : bytes) (value : list ChewingKey) : comparison :=
  compare_keys (take (length value) (record_keys record)) value.

Definition is_lt (c : comparison) : bool := match c with Lt => true | _ => false end.
Definition is_gt (c : comparison) : bool := match c with Gt => true | _ => false end.

Definition search_records (n : nat) (value : bytes) (keys : list ChewingKey) : nat * nat :=
  let records := whole_chunks n value in
  let first := partition_point (fun record => is_lt (compare_record record keys)) records in
  let last := first + partition_point (fun record => negb (is_gt (compare_record record keys)))
                        (drop first records) in
  (first, last).

(** The strides the search is instantiated at. *)
Definition STRIDES : list nat := [8; 12; 16; 20; 24; 28; 32; 36].

Definition equal_range (value : bytes) (len : nat) (keys : list ChewingKey) : nat * nat :=
  if negb (length keys =? len) then (0, 0)
  else if existsb (Nat.eqb (item2_stride len)) STRIDES then search_records (item2_stride len) value keys
  else (0, 0).

Definition count (value : bytes) (len : nat) : nat := length value / item2_stride len.

(** [Entry::token], at an index below [count]. *)
Definition entry_token (value : bytes) (len index : nat) : Z :=
  le_value (take 4 (drop (index * item2_stride len) value)).

(** The loop of [add_index] over the [n] records left: [None] when the item
    exists, else where it goes. *)
Fixpoint add_position (value : bytes) (len n at_ : nat) (token : Z) : option nat :=
  match n with
  | O => Some at_
  | S n =>
      let present := entry_token value len at_ in
      if (present =? token)%Z then None
      else if (token <? present)%Z then Some at_
      else add_position value len n (S at_) token
  end.

Definition entry_add (value : bytes) (len : nat) (keys : list ChewingKey) (token : Z) : bytes * bool :=
  let range := equal_range value len keys in
  match add_position value len (range.2 - range.1) range.1 token with
  | None => (value, false)
  | Some at_ =>
      let offset := at_ * item2_stride len in
      (take offset value ++ encode_item token keys ++ drop offset value, true)
  end.

(** The loop of [remove_index]. *)
Fixpoint remove_position (value : bytes) (len n at_ : nat) (token : Z) : option nat :=
  match n with
  | O => None
  | S n =>
      if (entry_token value len at_ =? token)%Z then Some at_
      else remove_position value len n (S at_) token
  end.

Definition entry_remove (value : bytes) (len : nat) (keys : list ChewingKey) (token : Z) : bytes * bool :=
  let range := equal_range value len keys in
  match remove_position value len (range.2 - range.1) range.1 token with
  | None => (value, false)
  | Some at_ =>
      let offset := at_ * item2_stride len in
      (take offset value ++ drop (offset + item2_stride len) value, true)
  end.

(** [mask_out]: every turn drains a record or steps over one, so the length
    bounds the turns. *)
Fixpoint mask_loop (fuel : nat) (value : bytes) (len at_ : nat) (mask masked : Z) : bytes :=
  match fuel with
  | O => value
  | S fuel =>
      if at_ <? count value len then
        if (Z.land (entry_token value len at_) mask =? masked)%Z then
          let offset := at_ * item2_stride len in
          mask_loop fuel (take offset value ++ drop (offset + item2_stride len) value) len at_ mask masked
        else mask_loop fuel value len (S at_) mask masked
      else value
  end.

Definition entry_mask (value : bytes) (len : nat) (mask masked : Z) : bytes :=
  mask_loop (length value) value len 0 mask masked.

(** ** Keys and matching *)

(** The two keys of a reading, incomplete space first. *)
Definition index_keys (keys : list ChewingKey) : list bytes :=
  [encode_incomplete_key keys; encode_complete_key keys].

Definition incomplete_key (key : ChewingKey) : bool :=
  (middle key =? 0)%Z && (final_ key =? 0)%Z.

Definition query_key (keys : list ChewingKey) : bytes :=
  let incomplete := existsb incomplete_key keys in
  keys ≫= fun key =>
    pack (if incomplete then mk_key (initial key) 0 0 0
          else mk_key (initial key) (middle key) (final_ key) 0).

Definition key_matches_with_tones (query stored : ChewingKey) : bool :=
  (initial query =? initial stored)%Z &&
  (((middle query =? middle stored)%Z && (final_ query =? final_ stored)%Z) ||
   ((middle query =? 0)%Z && (final_ query =? 0)%Z) ||
   ((middle stored =? 0)%Z && (final_ stored =? 0)%Z)) &&
  ((tone query =? tone stored)%Z || (tone query =? 0)%Z || (tone stored =? 0)%Z).

Definition record_matches_with_tones (query : list ChewingKey) (record : bytes) : bool :=
  forallb (fun p => key_matches_with_tones p.2 (from_packed (le_value p.1)))
    (zip (whole_chunks 2 (take (2 * length query) (drop 4 record))) query).

Definition record_token (record : bytes) : Z := le_value (take 4 record).

Definition value_has_reading (value : bytes) (len : nat) (token : Z) (packed : list Z) : bool :=
  match value with
  | [] => false
  | _ =>
      if (len =? 0) || negb (length packed =? len) then false
      else
        is_multiple_of (length value) (item2_stride len) &&
        existsb (fun record => (record_token record =? token)%Z &&
            bool_decide (le_value <$> whole_chunks 2 (take (2 * len) (drop 4 record)) = packed))
          (whole_chunks (item2_stride len) value)
  end.

(** ** The index *)

Inductive Slot : Type :=
  | SlotEmpty
  | SlotRecord (key : bytes)
  | SlotBytes (chunk : bytes).

Record UserIndex : Type := {
  records : Records;
  slots : list Slot
}.

Definition index_new : UserIndex :=
  {| records := records_new; slots := replicate (MAX_PHRASE_LENGTH + 1) SlotEmpty |}.

Definition index_from_entries (entries : list row) : UserIndex :=
  {| records := from_entries entries; slots := slots index_new |}.

Definition set_slot (slots : list Slot) (len : nat) (s : Slot) : list Slot := <[len := s]> slots.

Definition slot_bytes (ix : UserIndex) (len : nat) : bytes :=
  match slots ix !! len with
  | Some (SlotBytes chunk) => chunk
  | Some (SlotRecord key) => default [] (record (records ix) key)
  | _ => []
  end.

Definition length_ok (len : nat) : bool := negb (len =? 0) && (len <=? MAX_PHRASE_LENGTH).

Definition contains_reading (ix : UserIndex) (token : Z) (packed : list Z) : bool :=
  if negb (length_ok (length packed)) then false
  else
    let keys := from_packed <$> packed in
    existsb (fun key =>
        match record (records ix) key with
        | Some value => value_has_reading value (length keys) token packed
        | None => false
        end)
      (index_keys keys).

(** One projection of [add]. *)
Definition add_key (keys : list ChewingKey) (token : Z) (out : UserIndex * bool) (key : bytes)
    : UserIndex * bool :=
  let ix := out.1 in
  let len := length keys in
  if negb (contains_key (records ix) key) then
    let value := (entry_add [] len keys token).1 in
    ({| records := create_prefixes (put (records ix) key value) key 2 (descending (length key / 2));
        slots := slots ix |}, true)
  else
    let p := entry_add (default [] (record (records ix) key)) len keys token in
    ({| records := put (records ix) key p.1; slots := set_slot (slots ix) len (SlotRecord key) |},
     p.2 || out.2).

Definition add (ix : UserIndex) (keys : list ChewingKey) (token : Z) : UserIndex * bool :=
  if negb (length_ok (length keys)) then (ix, false)
  else fold_left (add_key keys token) (index_keys keys) (ix, false).

(** The loop of [remove] over the projections left. *)
Fixpoint remove_each (ix : UserIndex) (projections : list bytes) (keys : list ChewingKey) (token : Z)
    : UserIndex * bool :=
  match projections with
  | [] => (ix, true)
  | key :: rest =>
      match record (records ix) key with
      | None => (ix, false)
      | Some value =>
          let len := length keys in
          let p := entry_remove value len keys token in
          let ix' := {| records := put (records ix) key p.1;
                        slots := set_slot (slots ix) len (SlotRecord key) |} in
          if negb p.2 then (ix', false) else remove_each ix' rest keys token
      end
  end.

Definition remove (ix : UserIndex) (keys : list ChewingKey) (token : Z) : UserIndex * bool :=
  if negb (length_ok (length keys)) then (ix, false)
  else remove_each ix (index_keys keys) keys token.

Definition note_search (entry_per_length : bool) (ix : UserIndex) (keys : list ChewingKey) : UserIndex :=
  let len := length keys in
  if negb entry_per_length || negb (length_ok len) then ix
  else
    let key := query_key keys in
    match record (records ix) key with
    | Some (_ :: _) => {| records := records ix; slots := set_slot (slots ix) len (SlotRecord key) |}
    | _ => ix
    end.

(** [note_suggestion] marks the lengths first and empties them after. *)
Definition suggested_lengths (ix : UserIndex) (prefix : bytes) : list bool :=
  fold_left (fun lengths key =>
      if length key =? length prefix then lengths
      else if length key / 2 <? length lengths then <[length key / 2 := true]> lengths
      else lengths)
    (keys_starting_with (records ix) prefix) (replicate (MAX_PHRASE_LENGTH + 1) false).

Definition empty_seen (slots : list Slot) (lengths : list bool) : list Slot :=
  zip_with (fun (s : Slot) (seen : bool) => if seen then SlotEmpty else s) slots lengths.

Definition note_suggestion (entry_per_length : bool) (ix : UserIndex) (keys : list ChewingKey) : UserIndex :=
  if negb entry_per_length || negb (length_ok (length keys)) then ix
  else
    let prefix := query_key keys in
    if negb (contains_key (records ix) prefix) then ix
    else {| records := records ix; slots := empty_seen (slots ix) (suggested_lengths ix prefix) |}.

(** The mask walk: the chunk of every length and the arena being rebuilt. *)
Record IndexMask : Type := {
  chunks : list bytes;
  rewritten : bytes * list Z
}.

Definition index_visit (entry_per_length : bool) (mask masked : Z) (w : IndexMask) (key value : bytes)
    : IndexMask * result unit Empty_set :=
  let len := length key / 2 in
  if negb (length_ok len) then
    ({| chunks := chunks w; rewritten := append_record (rewritten w) key value |}, Ok tt)
  else if entry_per_length then
    let chunk := default [] (chunks w !! len) in
    let chunk := entry_mask (value ++ drop (length value) chunk) len mask masked in
    ({| chunks := <[len := chunk]> (chunks w); rewritten := append_record (rewritten w) key chunk |}, Ok tt)
  else
    ({| chunks := chunks w;
        rewritten := append_record (rewritten w) key (entry_mask value len mask masked) |}, Ok tt).

Definition chunk_slot (chunk : bytes) : Slot :=
  match chunk with [] => SlotEmpty | _ => SlotBytes chunk end.

Definition index_mask (entry_per_length : bool) (ix : UserIndex) (mask masked : Z) : UserIndex :=
  let chunks0 := [] :: (slot_bytes ix <$> seq 1 MAX_PHRASE_LENGTH) in
  let w := (for_each_record (index_visit entry_per_length mask masked) (records ix)
              {| chunks := chunks0; rewritten := ([], []) |}).1 in
  {| records := {| arena := (rewritten w).1; offsets := (rewritten w).2; overlay := [] |};
     slots := if entry_per_length
              then take 1 (slots ix) ++ (chunk_slot <$> drop 1 (chunks w))
              else slots ix |}.

Definition search (ix : UserIndex) (keys : list ChewingKey) : list Z :=
  let len := length keys in
  if negb (length_ok len) then []
  else
    match record (records ix) (query_key keys) with
    | None => []
    | Some value =>
        match value with
        | [] => []
        | _ =>
            if negb (is_multiple_of (length value) (item2_stride len)) then []
            else
              record_token <$>
                filter (fun record => record_matches_with_tones keys record = true)
                  (whole_chunks (item2_stride len) value)
        end
    end.

Definition has_record (ix : UserIndex) (keys : list ChewingKey) : bool :=
  length_ok (length keys) && contains_key (records ix) (query_key keys).

Definition has_prefix (ix : UserIndex) (keys : list ChewingKey) : bool := has_record ix keys.

(** The tokens one key adds to a suggestion. *)
Definition suggest_key (ix : UserIndex) (prefix : list ChewingKey) (key : bytes) : list Z :=
  if (length key <=? length (query_key prefix)) || negb (is_multiple_of (length key) 2) then []
  else
    match record (records ix) key with
    | None => []
    | Some value =>
        let stride := item2_stride (length key / 2) in
        if negb (is_multiple_of (length value) stride) then []
        else
          record_token <$>
            filter (fun record => record_matches_with_tones prefix record = true)
              (whole_chunks stride value)
    end.

Definition suggest (ix : UserIndex) (prefix : list ChewingKey) : list Z :=
  if negb (has_record ix prefix) then []
  else keys_starting_with (records ix) (query_key prefix) ≫= suggest_key ix prefix.

Definition merge_missing (ix other : UserIndex) : UserIndex :=
  {| records := fold_left (fun st e => if contains_key st e.1 then st else put st e.1 e.2)
                  (rows (records other)) (records ix);
     slots := slots ix |}.

Definition overlong_keys (ix : UserIndex) : list (list Z) :=
  omap (fun offset =>
      let key := default [] (key_at (arena (records ix)) offset) in
      if length key <? 2 then Some []
      else if MAX_PHRASE_LENGTH <? length key / 2 then Some (le_value <$> whole_chunks 2 key)
      else None)
    (offsets (records ix)).
