(* ===== verification/UserIndexSpec.v ===== *)
(** * UserIndexSpec: the user pinyin index as a table of readings

    A key of the index holds the items of the readings it projects, sorted;
    a reading is stored under its incomplete and its complete key. Adding and
    removing change those two sets, a search answers the stored readings that
    match, and the mask walk filters every key. *)

From Stdlib Require Import ZArith Lia Bool Strings.Byte.
From stdpp Require Import base list sorting.
From S2P Require Import Prelude ByteOrder Chewing Ucs4 RowFormat UserRecords UserMarkers UserIndex.

(** ** The order of readings *)

#[export] Instance PinyinIndexItem_eq_dec : EqDecision PinyinIndexItem.
Proof. solve_decision. Defined.

(** A reading as the word list whose lexicographic order the table uses. *)
Definition rime (k : ChewingKey) : list Z := [middle k; final_ k].

Definition exact_key (keys : list ChewingKey) : list Z :=
  (initial <$> keys) ++ (keys ≫= rime) ++ (tone <$> keys).

Lemma cmp_by_lex l k : cmp_by Z.compare l k = lex_compare l k.
Proof. revert k. induction l as [|x l IH]; intros [|y k]; cbn; rewrite ?IH; done. Qed.

Lemma cmp_rimes ks vs :
  cmp_by cmp_pair ((fun k => (middle k, final_ k)) <$> ks) ((fun k => (middle k, final_ k)) <$> vs)
    = lex_compare (ks ≫= rime) (vs ≫= rime).
Proof.
  revert vs. induction ks as [|k ks IH]; intros [|v vs]; try done.
  rewrite !fmap_cons, !bind_cons. cbn [cmp_by]. unfold cmp_pair, rime at 1 3. cbn [fst snd app lex_compare].
  destruct (middle k ?= middle v)%Z; try done. by destruct (final_ k ?= final_ v)%Z.
Qed.

Lemma lex_compare_blocks l l' k k' :
  length l = length l' ->
  lex_compare (l ++ k) (l' ++ k') = match lex_compare l l' with Eq => lex_compare k k' | c => c end.
Proof.
  revert l'. induction l as [|x l IH]; intros [|y l'] H; try done. cbn.
  destruct (x ?= y)%Z; try done. apply IH. by injection H.
Qed.

Lemma length_rimes ks : length (ks ≫= rime) = 2 * length ks.
Proof. induction ks as [|k ks IH]; [done|]. rewrite bind_cons, length_app, IH. cbn. lia. Qed.

Lemma length_exact_key ks : length (exact_key ks) = 4 * length ks.
Proof. unfold exact_key. rewrite !length_app, !length_fmap, length_rimes. lia. Qed.

Lemma compare_keys_lex ks vs :
  length ks = length vs -> compare_keys ks vs = lex_compare (exact_key ks) (exact_key vs).
Proof.
  intros H. unfold compare_keys, exact_key. rewrite lex_compare_blocks by (by rewrite !length_fmap).
  rewrite lex_compare_blocks by (rewrite !length_rimes; lia). by rewrite !cmp_by_lex, cmp_rimes.
Qed.

Lemma exact_key_inj ks vs : length ks = length vs -> exact_key ks = exact_key vs -> ks = vs.
Proof.
  unfold exact_key. intros Hl H.
  apply app_inj_1 in H as [Hi H]; [|by rewrite !length_fmap].
  apply app_inj_1 in H as [Hr Ht]; [|rewrite !length_rimes; lia].
  revert vs Hl Hi Hr Ht. induction ks as [|k ks IH]; intros [|v vs] Hl Hi Hr Ht; try done.
  rewrite !fmap_cons in *. rewrite !bind_cons in Hr. unfold rime at 1 3 in Hr. cbn [app] in Hr.
  injection Hi as ? ?. injection Hr as ? ? ?. injection Ht as ? ?. injection Hl as ?.
  f_equal; [by destruct k, v; cbn in *; subst|by apply IH].
Qed.

(** The rank of an item: its reading, then its token. *)
Definition item_rank (it : PinyinIndexItem) : list Z := exact_key (item_keys it) ++ [item_token it].

Definition item_lt (a b : PinyinIndexItem) : Prop := lex_compare (item_rank a) (item_rank b) = Lt.

Definition sorted_items : list PinyinIndexItem -> Prop := StronglySorted item_lt.

Lemma item_lt_trans a b c : item_lt a b -> item_lt b c -> item_lt a c.
Proof. apply lex_compare_trans. Qed.

Lemma item_lt_self a : ~ item_lt a a.
Proof. unfold item_lt. by rewrite lex_compare_refl. Qed.

Section entry.
Context (n : nat) (Hn : 1 <= n <= MAX_PHRASE_LENGTH).

Abbreviation ok := (Forall (index_item_ok n)).
Abbreviation enc1 := (fun it => encode_item (item_token it) (item_keys it)).

Lemma item_rank_inj a b : index_item_ok n a -> index_item_ok n b -> item_rank a = item_rank b -> a = b.
Proof using Type.
  intros (_ & Ha & _) (_ & Hb & _) H. unfold item_rank in H.
  apply app_inj_1 in H as [Hk Ht]; [|by rewrite !length_exact_key, Ha, Hb].
  apply exact_key_inj in Hk; [|by rewrite Ha, Hb]. destruct a, b. cbn in *. congruence.
Qed.

(** Items of one length compare by reading first. *)
Lemma item_lt_keys a b :
  index_item_ok n a -> index_item_ok n b ->
  item_lt a b <->
  lex_compare (exact_key (item_keys a)) (exact_key (item_keys b)) = Lt \/
  (item_keys a = item_keys b /\ (item_token a < item_token b)%Z).
Proof using Type.
  clear Hn. intros (_ & Ha & _) (_ & Hb & _). unfold item_lt, item_rank.
  rewrite lex_compare_blocks by (by rewrite !length_exact_key, Ha, Hb).
  destruct (lex_compare _ _) eqn:E.
  - apply lex_compare_eq in E. apply exact_key_inj in E; [|by rewrite Ha, Hb]. cbn.
    destruct (Z.compare_spec (item_token a) (item_token b)); split; intros; try done; try (right; split; [done|lia]).
    + destruct H0 as [?|[_ ?]]; [done|lia].
    + destruct H0 as [?|[_ ?]]; [done|lia].
  - split; [by left|done].
  - split; [done|]. intros [?|[He _]]; [done|]. rewrite He, lex_compare_refl in E. done.
Qed.

(** ** Records of items *)

Lemma item_keys_of it : index_item_ok n it -> take n (record_keys (enc1 it)) = item_keys it.
Proof using Type.
  clear Hn. intros (_ & Hl & Hp). unfold record_keys, encode_item.
  rewrite drop_app_length' by (by rewrite length_le32). rewrite Hl.
  assert (Hpad : exists zs, replicate (item2_stride n - (4 + 2 * n)) x00 = (zs : list ChewingKey) ≫= pack).
  { rewrite item2_stride_eq. pose proof (Nat.div_mod_eq (4 + 2 * n + 3) 4).
    pose proof (Nat.mod_upper_bound (4 + 2 * n + 3) 4).
    destruct (decide ((4 + 2 * n + 3) / 4 * 4 = 4 + 2 * n)) as [->|Hne].
    - exists []. by rewrite Nat.sub_diag.
    - exists [ZERO]. replace ((4 + 2 * n + 3) / 4 * 4 - (4 + 2 * n)) with 2 by lia. done. }
  destruct Hpad as (zs & ->). rewrite <- bind_app.
  destruct (whole_chunks_bind 2 pack (item_keys it ++ zs)) as [-> _];
    [lia|intros k _; apply length_le_bytes|].
  rewrite <- list_fmap_compose, fmap_app, take_app_length' by (by rewrite length_fmap).
  rewrite <- (list_fmap_id (item_keys it)) at 2. apply list_fmap_ext. intros i k Hk.
  unfold compose. rewrite le_value_pack. apply from_to_packed. rewrite Forall_forall in Hp.
  apply Hp. by eapply list_elem_of_lookup_2.
Qed.

Lemma compare_item it v :
  index_item_ok n it -> length v = n ->
  compare_record (enc1 it) v = lex_compare (exact_key (item_keys it)) (exact_key v).
Proof using Type.
  clear Hn. intros Hit Hv. unfold compare_record. rewrite Hv, item_keys_of by done.
  apply compare_keys_lex. rewrite Hv. apply Hit.
Qed.

Lemma item_chunks items :
  ok items -> whole_chunks (item2_stride n) (encode_items items) = enc1 <$> items /\
    length (encode_items items) = item2_stride n * length items.
Proof using Type.
  clear Hn. intros Hok. pose proof (item2_stride_bounds n). apply (whole_chunks_bind (item2_stride n)); [lia|].
  intros it Hit. rewrite length_encode_item. rewrite Forall_forall in Hok. by destruct (Hok it Hit) as (_ & -> & _).
Qed.

Lemma encode_items_app l k : encode_items (l ++ k) = encode_items l ++ encode_items k.
Proof using Type. apply bind_app. Qed.

Lemma encode_items_middle lo it hi :
  encode_items (lo ++ it :: hi) = encode_items lo ++ enc1 it ++ encode_items hi.
Proof using Type. unfold encode_items. by rewrite bind_app, bind_cons. Qed.

Lemma length_index_items items : ok items -> length (encode_items items) = length items * item2_stride n.
Proof using Type. clear Hn. intros H. destruct (item_chunks items H) as [_ ->]. lia. Qed.

Lemma count_items items : ok items -> count (encode_items items) n = length items.
Proof using Type.
  clear Hn. intros H. unfold count. rewrite length_index_items by done. apply Nat.div_mul.
  pose proof (item2_stride_bounds n). lia.
Qed.

Lemma take_items lo hi :
  ok lo -> take (length lo * item2_stride n) (encode_items (lo ++ hi)) = encode_items lo.
Proof using Type. clear Hn. intros H. rewrite encode_items_app. apply take_app_length'. by rewrite length_index_items. Qed.

Lemma drop_items lo hi :
  ok lo -> drop (length lo * item2_stride n) (encode_items (lo ++ hi)) = encode_items hi.
Proof using Type. clear Hn. intros H. rewrite encode_items_app. apply drop_app_length'. by rewrite length_index_items. Qed.

Lemma drop_item lo it hi :
  ok (lo ++ it :: hi) ->
  drop (length lo * item2_stride n + item2_stride n) (encode_items (lo ++ it :: hi)) = encode_items hi.
Proof using Type.
  clear Hn. intros [Hlo [Hit Hhi]%Forall_cons]%Forall_app.
  rewrite cons_middle, app_assoc.
  replace (length lo * item2_stride n + item2_stride n) with (length (lo ++ [it]) * item2_stride n)
    by (rewrite length_app; cbn; lia).
  apply drop_items, Forall_app. split; [done|]. by apply Forall_singleton.
Qed.

Lemma token_at lo it hi :
  ok (lo ++ it :: hi) -> entry_token (encode_items (lo ++ it :: hi)) n (length lo) = item_token it.
Proof using Type.
  clear Hn. intros [Hlo [(Ht & _) Hhi]%Forall_cons]%Forall_app. unfold entry_token. rewrite drop_items by done.
  unfold encode_items. rewrite bind_cons. unfold encode_item. rewrite <- app_assoc.
  rewrite take_app_length' by (by rewrite length_le32). by rewrite le_value_le32, wrap32_small.
Qed.

(** ** The two partition searches *)

Lemma partition_point_halves {A B} (f : A -> B) (p : B -> bool) lo hi :
  Forall (fun x => p (f x) = true) lo -> Forall (fun x => p (f x) = false) hi ->
  partition_point p (f <$> (lo ++ hi)) = length lo.
Proof using Type.
  clear Hn n. intros Hlo Hhi. apply partition_point_partitioned. split; [rewrite length_fmap, length_app; lia|].
  intros j x Hx. rewrite list_lookup_fmap in Hx. destruct ((lo ++ hi) !! j) as [y|] eqn:E; [|done].
  injection Hx as <-. rewrite Forall_forall in Hlo, Hhi. apply lookup_app_Some in E as [E|[Hj E]].
  - rewrite Hlo by (by eapply list_elem_of_lookup_2). rewrite bool_decide_true; [done|].
    by apply lookup_lt_Some in E.
  - rewrite Hhi by (by eapply list_elem_of_lookup_2). rewrite bool_decide_false; [done|lia].
Qed.

Lemma sorted_split {A} (R : A -> A -> Prop) (p : A -> bool) l :
  StronglySorted R l -> (forall x y, x ∈ l -> y ∈ l -> R x y -> p y = true -> p x = true) ->
  exists lo hi, l = lo ++ hi /\ Forall (fun x => p x = true) lo /\ Forall (fun x => p x = false) hi.
Proof using Type.
  clear Hn n. induction 1 as [|x l _ IH Hx]; intros Hp; [by exists [], []|].
  destruct (p x) eqn:E.
  - destruct IH as (lo & hi & -> & Hlo & Hhi).
    { intros y z Hy Hz. apply Hp; by apply list_elem_of_further. }
    exists (x :: lo), hi. split; [done|]. split; [by constructor|done].
  - exists [], (x :: l). split; [done|]. split; [constructor|]. constructor; [done|].
    rewrite Forall_forall in Hx |- *. intros y Hy. destruct (p y) eqn:Ey; [|done].
    rewrite <- E. symmetry. apply (Hp x y); [by left|by right|by apply Hx|done].
Qed.

(** The items before a reading, those of it, and those after it. *)
Lemma split_at v items :
  sorted_items items -> ok items -> length v = n ->
  exists lo mid hi, items = lo ++ mid ++ hi /\
    Forall (fun it => lex_compare (exact_key (item_keys it)) (exact_key v) = Lt) lo /\
    Forall (fun it => item_keys it = v) mid /\
    Forall (fun it => lex_compare (exact_key (item_keys it)) (exact_key v) = Gt) hi.
Proof using Type.
  clear Hn. intros Hs Hok Hv. set (cmp it := lex_compare (exact_key (item_keys it)) (exact_key v)).
  rewrite Forall_forall in Hok.
  assert (Hmono : forall x y, x ∈ items -> y ∈ items -> item_lt x y ->
            (cmp y = Lt -> cmp x = Lt) /\ (cmp x = Gt -> cmp y = Gt)).
  { intros x y Hx Hy Hlt. apply item_lt_keys in Hlt; [|by apply Hok..]. unfold cmp.
    destruct Hlt as [Hlt|[-> _]]; [|done]. split.
    - intros H. by eapply lex_compare_trans.
    - intros H. rewrite lex_compare_antisym, CompOpp_iff in H. cbn in H.
      rewrite lex_compare_antisym, CompOpp_iff. cbn. by eapply lex_compare_trans. }
  destruct (sorted_split item_lt (fun it => is_lt (cmp it)) items Hs) as (lo & rest & -> & Hlo & Hrest).
  { intros x y Hx Hy Hlt. destruct (Hmono x y Hx Hy Hlt) as [H _]. destruct (cmp y); try done.
    by rewrite H. }
  apply StronglySorted_app in Hs as (_ & _ & Hs).
  destruct (sorted_split item_lt (fun it => negb (is_gt (cmp it))) rest Hs) as (mid & hi & -> & Hmid & Hhi).
  { intros x y Hx Hy Hlt. destruct (Hmono x y) as [_ H]; [apply elem_of_app; by right..|done|].
    destruct (cmp x); try done. by rewrite H. }
  exists lo, mid, hi. split; [done|]. apply Forall_app in Hrest as [Hr1 Hr2].
  rewrite !Forall_forall in *. split; [|split].
  - intros x Hx. specialize (Hlo x Hx). fold (cmp x). by destruct (cmp x).
  - intros x Hx. specialize (Hmid x Hx). specialize (Hr1 x Hx). cbn in Hmid, Hr1.
    assert (Hc : cmp x = Eq) by (by destruct (cmp x)). apply lex_compare_eq in Hc.
    apply exact_key_inj in Hc; [done|]. rewrite Hv. apply Hok. rewrite !elem_of_app. tauto.
  - intros x Hx. specialize (Hhi x Hx). cbn in Hhi. fold (cmp x). by destruct (cmp x).
Qed.

Lemma stride_found : existsb (Nat.eqb (item2_stride n)) STRIDES = true.
Proof using Hn.
  assert (H : forallb (fun m => existsb (Nat.eqb (item2_stride m)) STRIDES) (seq 1 16) = true)
    by (vm_compute; reflexivity).
  apply (forallb_elem _ _ _ H). apply elem_of_seq. unfold MAX_PHRASE_LENGTH in Hn. lia.
Qed.

Lemma equal_range_spec v lo mid hi :
  ok (lo ++ mid ++ hi) -> length v = n ->
  Forall (fun it => lex_compare (exact_key (item_keys it)) (exact_key v) = Lt) lo ->
  Forall (fun it => item_keys it = v) mid ->
  Forall (fun it => lex_compare (exact_key (item_keys it)) (exact_key v) = Gt) hi ->
  equal_range (encode_items (lo ++ mid ++ hi)) n v = (length lo, length lo + length mid).
Proof using Hn.
  intros Hok Hv Hlo Hmid Hhi. unfold equal_range. rewrite Hv, Nat.eqb_refl. cbn [negb].
  rewrite stride_found. unfold search_records. destruct (item_chunks _ Hok) as [-> _].
  rewrite Forall_forall in Hok.
  assert (Hcmp : forall it, it ∈ lo ++ mid ++ hi ->
    compare_record (enc1 it) v = lex_compare (exact_key (item_keys it)) (exact_key v))
    by (intros; apply compare_item; [by apply Hok|done]).
  assert (Hin : forall it, it ∈ lo \/ it ∈ mid \/ it ∈ hi -> it ∈ lo ++ mid ++ hi)
    by (intros; rewrite !elem_of_app; tauto).
  rewrite Forall_forall in Hlo, Hmid, Hhi.
  rewrite partition_point_halves.
  - rewrite fmap_app, drop_app_length' by (by rewrite length_fmap).
    rewrite partition_point_halves; [done|..]; apply Forall_forall; intros it Hit; rewrite Hcmp by auto.
    + by rewrite (Hmid it Hit), lex_compare_refl.
    + by rewrite (Hhi it Hit).
  - apply Forall_forall. intros it Hit. rewrite Hcmp by auto. by rewrite (Hlo it Hit).
  - apply Forall_forall. intros it [Hit|Hit]%elem_of_app; rewrite Hcmp by auto.
    + by rewrite (Hmid it Hit), lex_compare_refl.
    + by rewrite (Hhi it Hit).
Qed.

(** ** Adding *)

Lemma add_position_spec pre rest hi token :
  ok (pre ++ rest ++ hi) -> StronglySorted (fun a b => (item_token a < item_token b)%Z) rest ->
  match add_position (encode_items (pre ++ rest ++ hi)) n (length rest) (length pre) token with
  | None => exists it, it ∈ rest /\ item_token it = token
  | Some at_ => exists r1 r2, rest = r1 ++ r2 /\ at_ = length pre + length r1 /\
      (forall it, it ∈ r1 -> (item_token it < token)%Z) /\
      (forall it, it ∈ r2 -> (token < item_token it)%Z)
  end.
Proof using Type.
  clear Hn. revert pre. induction rest as [|it rest IH]; intros pre Hok Hs; cbn [add_position length].
  { exists [], []. split; [done|]. split; [cbn; lia|]. split; intros it []%not_elem_of_nil. }
  cbn [app] in Hok |- *. rewrite token_at by done.
  apply StronglySorted_inv in Hs as [Hs Hit]. rewrite Forall_forall in Hit.
  destruct (Z.eqb_spec (item_token it) token) as [He|Hne]; [exists it; split; [by left|done]|].
  destruct (Z.ltb_spec token (item_token it)) as [Hlt|Hge].
  - exists [], (it :: rest). split; [done|]. split; [cbn; lia|]. split; [intros x []%not_elem_of_nil|].
    intros x [->|Hx]%elem_of_cons; [done|]. specialize (Hit x Hx). cbn in Hit. lia.
  - rewrite (cons_middle it pre (rest ++ hi)), app_assoc in Hok |- *. specialize (IH (pre ++ [it]) Hok Hs).
    rewrite length_app in IH. cbn [length] in IH. replace (length pre + 1) with (S (length pre)) in IH by lia.
    destruct (add_position _ _ _ _ _) as [at_|].
    + destruct IH as (r1 & r2 & -> & -> & H1 & H2). exists (it :: r1), r2. split; [done|].
      split; [cbn; lia|]. split; [|done]. intros x [->|Hx]%elem_of_cons; [lia|by apply H1].
    + destruct IH as (x & Hx & Ht). exists x. split; [by right|done].
Qed.

(** Items of one reading, in table order, have ascending tokens. *)
Lemma same_reading_tokens v items :
  sorted_items items -> ok items -> Forall (fun it => item_keys it = v) items ->
  StronglySorted (fun a b => (item_token a < item_token b)%Z) items.
Proof using Type.
  clear Hn. intros Hs Hok Hv. induction Hs as [|x l _ IH Hx]; [constructor|].
  apply Forall_cons in Hok as [Hxok Hok], Hv as [Hxv Hv]. constructor; [by apply IH|].
  rewrite Forall_forall in *. intros y Hy. specialize (Hx y Hy).
  apply item_lt_keys in Hx; [|done|by apply Hok].
  destruct Hx as [Hx|[_ Hx]]; [|done]. by rewrite Hxv, (Hv y Hy), lex_compare_refl in Hx.
Qed.

Lemma sorted_insert a x b :
  sorted_items (a ++ b) -> (forall y, y ∈ a -> item_lt y x) -> (forall y, y ∈ b -> item_lt x y) ->
  sorted_items (a ++ x :: b).
Proof using Type.
  clear Hn. intros (Hc & Ha & Hb)%StronglySorted_app Hax Hxb. apply StronglySorted_app.
  split; [|split; [done|]].
  - intros y z Hy [->|Hz]%elem_of_cons; [by apply Hax|]. by apply Hc.
  - constructor; [done|]. by apply Forall_forall.
Qed.

Lemma entry_add_spec items keys token :
  let it := {| item_token := token; item_keys := keys |} in
  sorted_items items -> ok items -> index_item_ok n it ->
  exists items', entry_add (encode_items items) n keys token
      = (encode_items items', bool_decide (it ∉ items)) /\
    sorted_items items' /\ ok items' /\ (forall x, x ∈ items' <-> x = it \/ x ∈ items).
Proof using Hn.
  intros it Hs Hok Hit. assert (Hlen : length keys = n) by apply Hit.
  destruct (split_at keys items Hs Hok Hlen) as (lo & mid & hi & -> & Hlo & Hmid & Hhi).
  pose proof Hs as (Hcl & Hsl & (Hcm & Hsm & Hsh)%StronglySorted_app)%StronglySorted_app.
  pose proof Hok as [Hokl [Hokm Hokh]%Forall_app]%Forall_app.
  unfold entry_add. rewrite (equal_range_spec keys) by done. cbn [fst snd].
  replace (length lo + length mid - length lo) with (length mid) by lia.
  pose proof (add_position_spec lo mid hi token Hok (same_reading_tokens keys mid Hsm Hokm Hmid)) as Hat.
  rewrite Forall_forall in Hlo, Hmid, Hhi, Hokl, Hokm, Hokh.
  assert (Hin : forall x, x ∈ mid -> x = it <-> item_token x = token).
  { intros x Hx. split; [by intros ->|]. intros Ht. specialize (Hmid x Hx). destruct x. cbn in *. by subst. }
  destruct (add_position _ _ _ _ _) as [at_|].
  - destruct Hat as (r1 & r2 & -> & -> & H1 & H2).
    exists (lo ++ r1 ++ it :: r2 ++ hi).
    assert (Hassoc : lo ++ (r1 ++ r2) ++ hi = (lo ++ r1) ++ r2 ++ hi) by (by rewrite <- !app_assoc).
    assert (Hlt1 : forall y, y ∈ lo ++ r1 -> item_lt y it).
    { intros y [Hy|Hy]%elem_of_app; apply item_lt_keys; auto using elem_of_app.
      - by apply Hokm, elem_of_app; left.
      - right. split; [by apply Hmid, elem_of_app; left|by apply H1]. }
    assert (Hlt2 : forall y, y ∈ r2 ++ hi -> item_lt it y).
    { intros y [Hy|Hy]%elem_of_app; apply item_lt_keys; auto.
      - by apply Hokm, elem_of_app; right.
      - right. split; [symmetry; by apply Hmid, elem_of_app; right|by apply H2].
      - left. specialize (Hhi y Hy). rewrite lex_compare_antisym, CompOpp_iff in Hhi. exact Hhi. }
    split; [|split; [|split]].
    + f_equal.
      * rewrite Hassoc, <- length_app, take_items, drop_items by (by apply Forall_app in Hok as [? ?];
          rewrite Hassoc in *; apply Forall_forall; intros y [Hy|Hy]%elem_of_app; [by apply Hokl|apply Hokm, elem_of_app; by left]).
        by rewrite (app_assoc lo r1), encode_items_middle.
      * symmetry. apply bool_decide_eq_true. rewrite Hassoc, elem_of_app. intros [Hx|Hx].
        -- by apply item_lt_self in Hlt1.
        -- by apply item_lt_self in Hlt2.
    + rewrite (app_assoc lo r1). apply sorted_insert; [by rewrite <- Hassoc|done|done].
    + rewrite Hassoc in Hok. apply Forall_app in Hok as [Ha Hb]. rewrite (app_assoc lo r1).
      apply Forall_app. split; [done|by constructor].
    + intros x. rewrite !elem_of_app, elem_of_cons, elem_of_app. tauto.
  - destruct Hat as (x & Hx & Ht). apply Hin in Ht; [|done]. subst x.
    assert (Hel : it ∈ lo ++ mid ++ hi) by (rewrite !elem_of_app; tauto).
    exists (lo ++ mid ++ hi). split; [|split; [done|split; [done|]]].
    + f_equal. symmetry. apply bool_decide_eq_false. intros H. by apply H.
    + intros x. split; [by right|]. by intros [->|?].
Qed.

(** ** Removing and masking *)

Lemma remove_position_spec pre rest hi token :
  ok (pre ++ rest ++ hi) ->
  match remove_position (encode_items (pre ++ rest ++ hi)) n (length rest) (length pre) token with
  | None => forall it, it ∈ rest -> item_token it <> token
  | Some at_ => exists r1 it r2, rest = r1 ++ it :: r2 /\ at_ = length pre + length r1 /\ item_token it = token
  end.
Proof using Type.
  clear Hn. revert pre. induction rest as [|it rest IH]; intros pre Hok; cbn [remove_position length].
  { by intros it ?%not_elem_of_nil. }
  cbn [app] in Hok |- *. rewrite token_at by done.
  destruct (Z.eqb_spec (item_token it) token) as [He|Hne].
  { exists [], it, rest. split; [done|]. split; [cbn; lia|done]. }
  rewrite (cons_middle it pre (rest ++ hi)), app_assoc in Hok |- *. specialize (IH (pre ++ [it]) Hok).
  rewrite length_app in IH. cbn [length] in IH. replace (length pre + 1) with (S (length pre)) in IH by lia.
  destruct (remove_position _ _ _ _ _) as [at_|].
  - destruct IH as (r1 & x & r2 & -> & -> & Hx). exists (it :: r1), x, r2. split; [done|]. split; [cbn; lia|done].
  - intros x [->|Hx]%elem_of_cons; [done|by apply IH].
Qed.

Lemma sorted_delete a x b :
  sorted_items (a ++ x :: b) ->
  sorted_items (a ++ b) /\ forall y, y ∈ a ++ b <-> y ∈ a ++ x :: b /\ y <> x.
Proof using Type.
  clear Hn. intros (Hc & Ha & Hb)%StronglySorted_app.
  pose proof Hb as [Hb' Hxb]%StronglySorted_inv. split.
  - apply StronglySorted_app. split; [|done]. intros y z Hy Hz. apply Hc; [done|by right].
  - intros y. rewrite !elem_of_app, elem_of_cons. rewrite Forall_forall in Hxb. split; [|tauto].
    intros [Hy|Hy]; (split; [tauto|intros ->]).
    + apply (item_lt_self x). apply Hc; [done|by left].
    + apply (item_lt_self x). by apply Hxb.
Qed.

Lemma entry_remove_spec items keys token :
  let it := {| item_token := token; item_keys := keys |} in
  sorted_items items -> ok items -> length keys = n ->
  exists items', entry_remove (encode_items items) n keys token
      = (encode_items items', bool_decide (it ∈ items)) /\
    sorted_items items' /\ ok items' /\ (forall x, x ∈ items' <-> x ∈ items /\ x <> it).
Proof using Hn.
  intros it Hs Hok Hlen.
  destruct (split_at keys items Hs Hok Hlen) as (lo & mid & hi & -> & Hlo & Hmid & Hhi).
  unfold entry_remove. rewrite (equal_range_spec keys) by done. cbn [fst snd].
  replace (length lo + length mid - length lo) with (length mid) by lia.
  pose proof (remove_position_spec lo mid hi token Hok) as Hat.
  rewrite Forall_forall in Hlo, Hmid, Hhi.
  destruct (remove_position _ _ _ _ _) as [at_|].
  - destruct Hat as (r1 & x & r2 & -> & -> & Ht).
    assert (Hx : x = it).
    { assert (Hk : item_keys x = keys) by (apply Hmid, elem_of_app; right; by left).
      destruct x. cbn in Hk, Ht. by subst. }
    subst x. rewrite <- (app_assoc r1), (app_assoc lo r1) in *. cbn [app] in *. rewrite <- length_app.
    exists ((lo ++ r1) ++ r2 ++ hi). destruct (sorted_delete _ _ _ Hs) as [Hs' Hmem].
    pose proof Hok as [Hoka [Hokx Hokb]%Forall_cons]%Forall_app.
    rewrite take_items, drop_item by done. split; [|split; [done|split; [|done]]].
    + f_equal; [symmetry; apply encode_items_app|]. symmetry. apply bool_decide_eq_true.
      apply elem_of_app. right. by left.
    + by apply Forall_app.
  - assert (Hnot : it ∉ lo ++ mid ++ hi).
    { rewrite !elem_of_app. intros [Hx|[Hx|Hx]].
      - specialize (Hlo it Hx). cbn in Hlo. by rewrite lex_compare_refl in Hlo.
      - by specialize (Hat it Hx).
      - specialize (Hhi it Hx). cbn in Hhi. by rewrite lex_compare_refl in Hhi. }
    exists (lo ++ mid ++ hi). split; [f_equal; symmetry; by apply bool_decide_eq_false|].
    split; [done|]. split; [done|]. intros x. split; [|tauto]. intros Hx. split; [done|by intros ->].
Qed.

Lemma mask_loop_spec fuel lo hi mask masked :
  ok (lo ++ hi) -> length hi <= fuel ->
  mask_loop fuel (encode_items (lo ++ hi)) n (length lo) mask masked
    = encode_items (lo ++ filter (fun it => Z.land (item_token it) mask <> masked) hi).
Proof using Type.
  clear Hn. revert lo hi. induction fuel as [|fuel IH]; intros lo hi Hok Hf; cbn [mask_loop].
  { destruct hi; [done|cbn in Hf; lia]. }
  rewrite count_items by done. rewrite length_app. destruct hi as [|it hi].
  { cbn [length]. by rewrite (proj2 (Nat.ltb_ge _ _)) by lia. }
  rewrite (proj2 (Nat.ltb_lt _ _)) by (cbn; lia). rewrite token_at by done.
  pose proof Hok as [Hlo [Hit Hhi]%Forall_cons]%Forall_app.
  destruct (Z.eqb_spec (Z.land (item_token it) mask) masked) as [He|He].
  - rewrite filter_cons_False by tauto. rewrite take_items, drop_item by done.
    rewrite <- encode_items_app. apply IH; [by apply Forall_app|cbn in Hf; lia].
  - rewrite filter_cons_True by done. rewrite (cons_middle it lo hi), app_assoc in Hok |- *.
    replace (S (length lo)) with (length (lo ++ [it])) by (rewrite length_app; cbn; lia).
    rewrite IH by (done || (cbn in Hf; lia)). by rewrite <- app_assoc.
Qed.

Lemma entry_mask_spec items mask masked :
  ok items ->
  entry_mask (encode_items items) n mask masked
    = encode_items (filter (fun it => Z.land (item_token it) mask <> masked) items).
Proof using Type.
  clear Hn. intros H. apply (mask_loop_spec _ []); [done|]. rewrite length_index_items by done.
  pose proof (item2_stride_bounds n). nia.
Qed.
End entry.

Lemma and_regroup (A B C : Prop) : (A /\ B) /\ C -> A /\ B /\ C.
Proof. tauto. Qed.

(** The items stored under a key. *)
Definition stored (ix : UserIndex) (key : bytes) : list PinyinIndexItem :=
  match record (records ix) key with
  | Some value => match decode_items value (length key / 2) with Ok items => items | Err _ => [] end
  | None => []
  end.

Definition entry_shape (key value : bytes) : Prop :=
  exists n items, length key = 2 * n /\ 1 <= n <= MAX_PHRASE_LENGTH /\
    value = encode_items items /\ Forall (index_item_ok n) items.

Definition slot_ok (len : nat) (s : Slot) : Prop :=
  match s with
  | SlotEmpty => True
  | SlotRecord key => length key = 2 * len
  | SlotBytes chunk => exists items, chunk = encode_items items /\ Forall (index_item_ok len) items
  end.

Definition slots_ok (slots : list Slot) : Prop :=
  length slots = MAX_PHRASE_LENGTH + 1 /\ forall len s, slots !! len = Some s -> slot_ok len s.

(** What every operation keeps, on every back end. *)
Record index_shape (ix : UserIndex) : Prop := {
  shape_records : records_ok (records ix);
  shape_closed : prefix_closed 2 (records ix);
  shape_entries : forall key value, record (records ix) key = Some value -> entry_shape key value;
  shape_slots : slots_ok (slots ix)
}.

(** And what a table has that no mask of a kept entry has disturbed. *)
Record index_ok (ix : UserIndex) : Prop := {
  ok_shape : index_shape ix;
  ok_sorted : forall key, sorted_items (stored ix key);
  ok_projected : forall key it, it ∈ stored ix key -> key ∈ index_keys (item_keys it)
}.

Lemma stored_entry ix key value :
  index_shape ix -> record (records ix) key = Some value ->
  exists n, length key = 2 * n /\ 1 <= n <= MAX_PHRASE_LENGTH /\
    value = encode_items (stored ix key) /\ Forall (index_item_ok n) (stored ix key).
Proof.
  intros Hok E. destruct (shape_entries ix Hok _ _ E) as (n & items & Hl & Hn & -> & Hitems).
  exists n. unfold stored. rewrite E, Hl. replace (2 * n / 2) with n by (rewrite Nat.mul_comm, Nat.div_mul; lia).
  rewrite decode_encode_items by (lia || done). done.
Qed.

Lemma stored_none ix key : record (records ix) key = None -> stored ix key = [].
Proof. unfold stored. by intros ->. Qed.

Lemma stored_encoded ix key n items :
  record (records ix) key = Some (encode_items items) -> length key = 2 * n -> 1 <= n ->
  Forall (index_item_ok n) items -> stored ix key = items.
Proof.
  intros E Hl Hn Hitems. unfold stored. rewrite E, Hl.
  replace (2 * n / 2) with n by (rewrite Nat.mul_comm, Nat.div_mul; lia).
  by rewrite decode_encode_items by (lia || done).
Qed.

Lemma stored_items ix key n :
  index_shape ix -> length key = 2 * n -> Forall (index_item_ok n) (stored ix key).
Proof.
  intros Hok Hl. destruct (record (records ix) key) as [v|] eqn:E.
  - destruct (stored_entry ix key v Hok E) as (m & Hm & _ & _ & H). by replace n with m by lia.
  - by rewrite stored_none.
Qed.

Lemma slots_ok_set slots len s :
  slots_ok slots -> slot_ok len s -> slots_ok (set_slot slots len s).
Proof.
  intros [Hl Hs] H. unfold set_slot. split; [by rewrite length_insert|]. intros len' s' Hlk.
  apply list_lookup_insert_Some in Hlk as [(<- & <- & _)|[_ Hlk]]; [done|by apply Hs].
Qed.

(** One key given new items; the other keys keep theirs, or become empty
    markers below it. *)
Lemma update_ok ix recs' slots' key items n :
  index_ok ix -> records_ok recs' -> prefix_closed 2 recs' -> slots_ok slots' ->
  length key = 2 * n -> 1 <= n <= MAX_PHRASE_LENGTH ->
  record recs' key = Some (encode_items items) ->
  (forall k, k <> key -> record recs' k = record (records ix) k \/
     (record (records ix) k = None /\ record recs' k = Some [] /\ exists m, 1 <= m < n /\ k = take (m * 2) key)) ->
  Forall (index_item_ok n) items -> sorted_items items ->
  (forall it, it ∈ items -> key ∈ index_keys (item_keys it)) ->
  let out := {| records := recs'; slots := slots' |} in
  index_ok out /\ forall k, stored out k = if decide (k = key) then items else stored ix k.
Proof.
  intros Hok Hr Hc Hslots Hl Hn Hkey Hother Hitems Hsorted Hproj out.
  assert (Hst : forall k, stored out k = if decide (k = key) then items else stored ix k).
  { intros k. destruct (decide (k = key)) as [->|Hne]; [by apply (stored_encoded out key n); [|lia..|]|].
    unfold stored, out. cbn [records].
    destruct (Hother k Hne) as [->|(Hnone & -> & _)]; [done|]. by rewrite Hnone. }
  split; [|done]. split.
  - split; [done|done| |done]. intros k v E. change (records out) with recs' in E.
    destruct (decide (k = key)) as [->|Hne].
    { rewrite Hkey in E. injection E as <-. by exists n, items. }
    destruct (Hother k Hne) as [He|(_ & He & m & Hm & ->)]; rewrite He in E.
    + by apply (shape_entries ix (ok_shape ix Hok)).
    + injection E as <-. exists m, []. split; [rewrite length_take; lia|]. split; [lia|]. done.
  - intros k. rewrite Hst. case_decide; [done|apply Hok].
  - intros k it. rewrite Hst. case_decide; [subst; apply Hproj|apply Hok].
Qed.

(** ** Keys *)

Lemma length_pack_bind {A} (f : A -> ChewingKey) (l : list A) :
  length (l ≫= fun k => pack (f k)) = 2 * length l.
Proof. induction l as [|x l IH]; [done|]. rewrite bind_cons, length_app, IH. cbn [length]. unfold pack.
  rewrite length_le_bytes. lia. Qed.

Lemma length_index_key keys key : key ∈ index_keys keys -> length key = 2 * length keys.
Proof.
  unfold index_keys. rewrite !elem_of_cons. intros [->|[->|[]%not_elem_of_nil]]; apply length_pack_bind.
Qed.

Lemma length_query_key keys : length (query_key keys) = 2 * length keys.
Proof. apply length_pack_bind. Qed.

Lemma query_key_index keys : query_key keys ∈ index_keys keys.
Proof. unfold query_key, index_keys. destruct (existsb _ _); [left|right; left]. Qed.

Lemma length_ok_spec len : length_ok len = true <-> 1 <= len <= MAX_PHRASE_LENGTH.
Proof.
  unfold length_ok. rewrite andb_true_iff, negb_true_iff, Nat.eqb_neq, Nat.leb_le. lia.
Qed.

(** ** Adding and removing *)

Section reading.
Context (keys : list ChewingKey) (token : Z).
Context (Hlen : 1 <= length keys <= MAX_PHRASE_LENGTH).
Context (Hit : index_item_ok (length keys) {| item_token := token; item_keys := keys |}).

Abbreviation it := {| item_token := token; item_keys := keys |}.

Lemma add_key_spec ix b key :
  index_ok ix -> key ∈ index_keys keys ->
  let out := add_key keys token (ix, b) key in
  index_ok out.1 /\
  (forall k x, x ∈ stored out.1 k <-> x ∈ stored ix k \/ (k = key /\ x = it)) /\
  out.2 = (b || bool_decide (it ∉ stored ix key)).
Proof using Hlen Hit.
  intros Hok Hkey. pose proof (ok_shape ix Hok) as Hsh.
  pose proof (length_index_key keys key Hkey) as Hl.
  pose proof (stored_items ix key (length keys) Hsh Hl) as Hitems.
  destruct (entry_add_spec (length keys) Hlen (stored ix key) keys token (ok_sorted ix Hok key) Hitems Hit)
    as (items' & Hadd & Hs' & Hok' & Hmem).
  assert (Hproj : forall x, x ∈ items' -> key ∈ index_keys (item_keys x)).
  { intros x [->|Hx]%Hmem; [done|]. by apply (ok_projected ix Hok). }
  assert (Hfinal : forall recs' slots', index_ok {| records := recs'; slots := slots' |} /\
      (forall k, stored {| records := recs'; slots := slots' |} k
                 = if decide (k = key) then items' else stored ix k) ->
      index_ok {| records := recs'; slots := slots' |} /\
      forall k x, x ∈ stored {| records := recs'; slots := slots' |} k
                  <-> x ∈ stored ix k \/ (k = key /\ x = it)).
  { intros recs' slots' [H1 H2]. split; [done|]. intros k x. rewrite H2.
    destruct (decide (k = key)) as [->|Hne]; [rewrite Hmem|]; tauto. }
  unfold add_key. cbn [fst snd]. rewrite contains_key_spec by apply Hsh.
  destruct (record (records ix) key) as [v|] eqn:E; cbn [is_some negb].
  - destruct (stored_entry ix key v Hsh E) as (n & _ & _ & Hv & _). change (default [] (Some v)) with v.
    rewrite Hv, Hadd. cbn [fst snd]. rewrite orb_comm. apply and_regroup. split; [|done].
    apply Hfinal. apply (update_ok ix _ _ key items' (length keys)); try done.
    + apply put_ok, Hsh.
    + apply put_present_closed; [apply Hsh|apply Hsh|by rewrite E].
    + apply slots_ok_set; [apply Hsh|done].
    + rewrite record_put by apply Hsh. by rewrite decide_True.
    + intros k Hk. left. rewrite record_put by apply Hsh. by rewrite decide_False.
  - rewrite (stored_none ix key E) in Hadd. change (encode_items []) with (@nil byte) in Hadd.
    rewrite Hadd. cbn [fst snd]. apply and_regroup. split.
    2: { rewrite (stored_none ix key E), bool_decide_true by apply not_elem_of_nil. by rewrite orb_true_r. }
    apply Hfinal. replace (length key / 2) with (length keys) by (rewrite Hl, Nat.mul_comm, Nat.div_mul; lia).
    destruct (create_prefixes_spec 2 ltac:(lia) (records ix) key (encode_items items')
      (shape_records ix Hsh) (shape_closed ix Hsh) E (length keys)) as (Hr & Hc & Hrec); [lia|lia|].
    apply (update_ok ix _ _ key items' (length keys)); try done.
    + apply Hsh.
    + rewrite Hrec. by rewrite decide_True.
    + intros k Hk. rewrite Hrec, decide_False by done.
      destruct (record (records ix) k) as [w|]; [by left|].
      destruct (proper_prefix 2 key k) eqn:Ep; [|by left]. right. split; [done|]. split; [done|].
      apply proper_prefix_spec in Ep as (m & Hm & ->). exists m. split; [|done].
      rewrite Hl, Nat.mul_comm, Nat.div_mul in Hm; lia.
Qed.

Lemma index_add_spec ix :
  index_ok ix ->
  let out := add ix keys token in
  index_ok out.1 /\
  (forall k x, x ∈ stored out.1 k <-> x ∈ stored ix k \/ (k ∈ index_keys keys /\ x = it)) /\
  (out.2 = true <-> exists k, k ∈ index_keys keys /\ it ∉ stored ix k).
Proof using Hlen Hit.
  intros Hok. unfold add. rewrite (proj2 (length_ok_spec _) Hlen). cbn [negb].
  unfold index_keys. set (inc := encode_incomplete_key keys). set (com := encode_complete_key keys).
  cbn [fold_left].
  destruct (add_key_spec ix false inc Hok) as (Hok1 & Hst1 & Hb1); [by left|].
  destruct (add_key keys token (ix, false) inc) as [ix1 b1]. cbn [fst snd orb] in *.
  destruct (add_key_spec ix1 b1 com Hok1) as (Hok2 & Hst2 & Hb2); [right; by left|].
  split; [done|]. split.
  - intros k x. rewrite Hst2, Hst1, !elem_of_cons, elem_of_nil. tauto.
  - rewrite Hb2, Hb1, orb_true_iff, !bool_decide_eq_true, Hst1. split.
    + intros [H|H]; [exists inc; split; [by left|done]|exists com; split; [right; by left|tauto]].
    + intros (k & Hk & Hno). rewrite !elem_of_cons, elem_of_nil in Hk.
      destruct Hk as [->|[->|[]]]; [by left|]. destruct (decide (inc = com)) as [He|He].
      * left. by rewrite He.
      * right. intros [?|[? _]]; [done|by subst].
Qed.

Lemma remove_key_spec ix key value :
  index_ok ix -> key ∈ index_keys keys -> record (records ix) key = Some value ->
  let p := entry_remove value (length keys) keys token in
  let out := {| records := put (records ix) key p.1;
                slots := set_slot (slots ix) (length keys) (SlotRecord key) |} in
  index_ok out /\
  (forall k x, x ∈ stored out k <-> x ∈ stored ix k /\ ~ (k = key /\ x = it)) /\
  p.2 = bool_decide (it ∈ stored ix key).
Proof using Hlen Hit.
  intros Hok Hkey E. pose proof (ok_shape ix Hok) as Hsh.
  pose proof (length_index_key keys key Hkey) as Hl.
  pose proof (stored_items ix key (length keys) Hsh Hl) as Hitems.
  destruct (entry_remove_spec (length keys) Hlen (stored ix key) keys token (ok_sorted ix Hok key) Hitems eq_refl)
    as (items' & Hrem & Hs' & Hok' & Hmem).
  destruct (stored_entry ix key value Hsh E) as (n & _ & _ & Hv & _). cbv zeta.
  rewrite Hv, Hrem. cbn [fst snd]. apply and_regroup. split; [|done].
  destruct (update_ok ix (put (records ix) key (encode_items items'))
    (set_slot (slots ix) (length keys) (SlotRecord key)) key items' (length keys)) as [H1 H2]; try done.
  - apply put_ok, Hsh.
  - apply put_present_closed; [apply Hsh|apply Hsh|by rewrite E].
  - apply slots_ok_set; [apply Hsh|done].
  - rewrite record_put by apply Hsh. by rewrite decide_True.
  - intros k Hk. left. rewrite record_put by apply Hsh. by rewrite decide_False.
  - intros x [Hx _]%Hmem. by apply (ok_projected ix Hok).
  - split; [done|]. intros k x. rewrite H2. destruct (decide (k = key)) as [->|Hne]; [rewrite Hmem|]; tauto.
Qed.

(** Removing goes on to the complete key only when the incomplete one held
    the reading. *)
Lemma remove_spec ix :
  index_ok ix ->
  let out := remove ix keys token in
  let inc := encode_incomplete_key keys in let com := encode_complete_key keys in
  index_ok out.1 /\
  (forall k x, x ∈ stored out.1 k <->
     x ∈ stored ix k /\ ~ (x = it /\ (k = inc \/ (k = com /\ it ∈ stored ix inc)))) /\
  (out.2 = true <-> it ∈ stored ix inc /\ it ∈ stored ix com /\ inc <> com).
Proof using Hlen Hit.
  intros Hok. unfold remove. rewrite (proj2 (length_ok_spec _) Hlen). cbn [negb].
  unfold index_keys. set (inc := encode_incomplete_key keys). set (com := encode_complete_key keys).
  cbv zeta. cbn [remove_each].
  destruct (record (records ix) inc) as [v|] eqn:E.
  2: { cbn [fst snd]. assert (Hno : forall x, x ∉ stored ix inc)
         by (intros x; rewrite (stored_none ix inc E); apply not_elem_of_nil).
       split; [done|]. split; [|split; [done|intros [H _]; by apply Hno in H]].
       intros k x. split; [|tauto]. intros Hx. split; [done|]. intros [_ [Hk|[_ Hin]]].
       - rewrite Hk in Hx. by apply Hno in Hx.
       - by apply Hno in Hin. }
  destruct (remove_key_spec ix inc v Hok) as (Hok1 & Hst1 & Hb1); [by left|done|].
  rewrite Hb1. set (ix1 := {| records := put _ _ _; slots := _ |}) in *.
  destruct (decide (it ∈ stored ix inc)) as [Hin|Hin].
  2: { rewrite bool_decide_false by done. cbn [negb fst snd]. split; [done|]. split; [|split; [done|tauto]].
       intros k x. rewrite Hst1. tauto. }
  rewrite bool_decide_true by done. cbn [negb].
  destruct (record (records ix1) com) as [v'|] eqn:E'.
  2: { cbn [fst snd]. pose proof (stored_none ix1 com E') as Hno. split; [done|]. split.
       - intros k x. rewrite Hst1. split; [|tauto]. intros [Hx Hne]. split; [done|]. intros [-> [->|[-> _]]]; [tauto|].
         assert (it ∈ stored ix1 com) by (by apply Hst1). rewrite Hno in *. by eapply not_elem_of_nil.
       - split; [done|]. intros (_ & Hc & Hne). assert (it ∈ stored ix1 com) as H.
         { apply Hst1. split; [done|]. intros [? _]. congruence. }
         rewrite Hno in H. by apply not_elem_of_nil in H. }
  destruct (remove_key_spec ix1 com v' Hok1) as (Hok2 & Hst2 & Hb2); [right; by left|done|].
  rewrite Hb2. set (ix2 := {| records := put (records ix1) _ _; slots := _ |}) in *.
  assert (Hst : forall k x, x ∈ stored ix2 k <->
     x ∈ stored ix k /\ ~ (x = it /\ (k = inc \/ (k = com /\ it ∈ stored ix inc)))).
  { intros k x. rewrite Hst2, Hst1. tauto. }
  assert (Hcom : it ∈ stored ix1 com <-> it ∈ stored ix com /\ inc <> com).
  { rewrite Hst1. split; intros [H1 H2]; (split; [done|]); [intros He; apply H2; by split|]. intros [He _]. congruence. }
  case_bool_decide as Hd; cbn [negb fst snd]; (split; [done|]); (split; [done|]); split; try done; tauto.
Qed.
End reading.

(** ** Reading *)

(** A query matches a stored reading of its length or longer. *)
Definition matches (query keys : list ChewingKey) : bool :=
  forallb (fun p => key_matches_with_tones p.2 p.1) (zip keys query).

Definition matched (query : list ChewingKey) (items : list PinyinIndexItem) : list Z :=
  item_token <$> filter (fun it => matches query (item_keys it) = true) items.

Section items.
Context (n : nat).

Lemma item_words m it :
  index_item_ok n it -> m <= n ->
  whole_chunks 2 (take (2 * m) (drop 4 (encode_item (item_token it) (item_keys it))))
    = pack <$> take m (item_keys it).
Proof.
  intros (_ & Hl & _) Hm. unfold encode_item. rewrite drop_app_length' by (by rewrite length_le32).
  rewrite take_app_le by (rewrite length_pack_keys; lia).
  rewrite <- (take_drop m (item_keys it)) at 1. rewrite bind_app.
  rewrite take_app_length' by (rewrite length_pack_keys, length_take; lia).
  apply whole_chunks_bind; [lia|]. intros k _. apply length_le_bytes.
Qed.

Lemma matches_item query it :
  index_item_ok n it -> length query <= n ->
  record_matches_with_tones query (encode_item (item_token it) (item_keys it)) = matches query (item_keys it).
Proof.
  intros Hit Hq. unfold record_matches_with_tones, matches. rewrite item_words by done.
  destruct Hit as (_ & Hl & Hp). rewrite <- Hl in Hq. clear Hl.
  revert query Hq. induction (item_keys it) as [|k ks IH]; intros [|q query] Hq; try done.
  apply Forall_cons in Hp as [Hk Hp]. cbn [length take] in *. rewrite fmap_cons. cbn [zip zip_with forallb fst snd].
  rewrite le_value_pack, from_to_packed by done. f_equal. apply IH; [done|lia].
Qed.

Lemma matched_records query items :
  Forall (index_item_ok n) items -> length query <= n ->
  record_token <$> filter (fun record => record_matches_with_tones query record = true)
      (whole_chunks (item2_stride n) (encode_items items))
    = matched query items.
Proof.
  intros Hitems Hq. destruct (item_chunks n items Hitems) as [-> _]. unfold matched.
  induction Hitems as [|it items Hit _ IH]; [done|]. rewrite fmap_cons, !filter_cons.
  rewrite matches_item by done. case_decide; [|done]. rewrite !fmap_cons, IH. f_equal.
  unfold record_token, encode_item. rewrite take_app_length' by (by rewrite length_le32).
  destruct Hit as (Ht & _). by rewrite le_value_le32, wrap32_small.
Qed.

Lemma whole_stride items :
  Forall (index_item_ok n) items ->
  is_multiple_of (length (encode_items items)) (item2_stride n) = true.
Proof.
  intros H. destruct (item_chunks n items H) as [_ ->]. pose proof (item2_stride_bounds n).
  apply is_multiple_of_mul. lia.
Qed.

Lemma reading_in keys token items :
  Forall (index_item_ok n) items -> length keys = n -> 0 < n -> Forall packable keys ->
  value_has_reading (encode_items items) n token (to_packed <$> keys) = true
    <-> {| item_token := token; item_keys := keys |} ∈ items.
Proof.
  intros Hitems Hl Hn Hp. unfold value_has_reading. rewrite length_fmap, Hl, Nat.eqb_refl.
  rewrite (proj2 (Nat.eqb_neq n 0)) by lia. cbn [orb negb]. rewrite whole_stride by done.
  destruct (item_chunks n items Hitems) as [-> Hlen]. cbn [andb].
  assert (Hex : existsb (fun record => (record_token record =? token)%Z &&
            bool_decide (le_value <$> whole_chunks 2 (take (2 * n) (drop 4 record)) = to_packed <$> keys))
          ((fun it => encode_item (item_token it) (item_keys it)) <$> items) = true
      <-> {| item_token := token; item_keys := keys |} ∈ items).
  { clear Hlen. induction Hitems as [|it items Hit _ IH]; [split; [done|by intros ?%not_elem_of_nil]|].
    rewrite fmap_cons. cbn [existsb]. rewrite orb_true_iff, IH, elem_of_cons.
    assert (H : (record_token (encode_item (item_token it) (item_keys it)) =? token)%Z = true /\
      le_value <$> whole_chunks 2 (take (2 * n) (drop 4 (encode_item (item_token it) (item_keys it))))
        = to_packed <$> keys <-> {| item_token := token; item_keys := keys |} = it);
      [|rewrite andb_true_iff, bool_decide_eq_true; tauto].
    rewrite item_words by (done || lia). destruct Hit as (Ht & Hk & Hpk).
    rewrite take_ge by lia. rewrite <- list_fmap_compose.
    assert (Hpacks : (le_value ∘ pack <$> item_keys it) = to_packed <$> item_keys it)
      by (apply list_fmap_ext; intros; apply le_value_pack).
    rewrite Hpacks, Z.eqb_eq. unfold record_token, encode_item.
    rewrite take_app_length' by (by rewrite length_le32). rewrite le_value_le32, wrap32_small by done.
    split; [|by intros <-]. intros [<- He]. destruct it as [t ks]. cbn in *. f_equal.
    clear -He Hp Hpk. revert ks He Hpk. induction Hp as [|k keys Hk Hp IH]; intros [|k' ks] He Hpk; try done.
    apply Forall_cons in Hpk as [Hk' Hpk]. rewrite !fmap_cons in He. injection He as He1 He2. f_equal.
    - rewrite <- (from_to_packed k), <- (from_to_packed k') by done. by rewrite He1.
    - by apply IH. }
  rewrite <- Hex. destruct items as [|it items]; [done|].
  destruct (encode_items (it :: items)) as [|b v]; [|done].
  cbn [length] in Hlen. pose proof (item2_stride_bounds n). lia.
Qed.
End items.

Lemma search_spec ix query :
  index_shape ix -> length_ok (length query) = true ->
  search ix query = matched query (stored ix (query_key query)).
Proof.
  intros Hsh Hq. unfold search. rewrite Hq. cbn [negb].
  destruct (record (records ix) (query_key query)) as [v|] eqn:E; [|by rewrite stored_none].
  destruct (stored_entry ix _ v Hsh E) as (n & Hl & Hn & Hv & Hitems). rewrite length_query_key in Hl.
  replace (length query) with n by lia. rewrite Hv, whole_stride by done. cbn [negb].
  rewrite matched_records by (done || lia).
  destruct (item_chunks n _ Hitems) as [_ Hlen]. pose proof (item2_stride_bounds n).
  destruct (encode_items (stored ix (query_key query))) as [|b w]; [|done].
  destruct (stored ix (query_key query)); [done|cbn [length] in Hlen; lia].
Qed.

(** A suggestion lists the keys beyond the query's, each with its matching
    readings; that the query's own key must be present hides none. *)
Lemma suggest_spec ix query :
  index_shape ix -> length_ok (length query) = true ->
  suggest ix query =
    filter (fun key => starts_with key (query_key query) = true /\ length (query_key query) < length key)
           (visited (records ix)).*1
      ≫= fun key => matched query (stored ix key).
Proof.
  intros Hsh Hq. unfold suggest, has_record. rewrite Hq. cbn [andb].
  rewrite contains_key_spec by apply Hsh. set (P := query_key query).
  assert (Hkey : forall key, key ∈ (visited (records ix)).*1 -> is_some (record (records ix) key) = true)
    by (intros key Hk; by apply is_some_record; [apply Hsh|]).
  assert (Hone : forall key, is_some (record (records ix) key) = true ->
    suggest_key ix query key = if decide (length P < length key) then matched query (stored ix key) else []).
  { intros key Hk. destruct (record (records ix) key) as [v|] eqn:E; [|done].
    destruct (stored_entry ix key v Hsh E) as (n & Hl & Hn & Hv & Hitems).
    unfold suggest_key. fold P. case_decide as Hd.
    - rewrite (proj2 (Nat.leb_gt _ _)) by lia. rewrite Hl at 1. rewrite is_multiple_of_mul by lia. cbn [orb negb].
      rewrite E, Hl. replace (2 * n / 2) with n by (rewrite Nat.mul_comm, Nat.div_mul; lia).
      rewrite Hv, whole_stride by done. cbn [negb]. apply matched_records; [done|].
      unfold P in Hd. rewrite length_query_key in Hd. lia.
    - by rewrite (proj2 (Nat.leb_le _ _)) by lia. }
  destruct (is_some (record (records ix) P)) eqn:Hp; cbn [negb].
  - rewrite keys_starting_visited by apply Hsh.
    induction ((visited (records ix)).*1) as [|key l IH]; [done|].
    assert (Hl : forall key, key ∈ l -> is_some (record (records ix) key) = true)
      by (intros; apply Hkey; by right).
    rewrite !filter_cons. destruct (decide (starts_with key P = true)) as [Hs|Hs].
    + rewrite bind_cons, IH by done. rewrite Hone by (apply Hkey; by left).
      destruct (decide (length P < length key)); [rewrite decide_True, bind_cons by done|rewrite decide_False by tauto]; done.
    + rewrite IH by done. by rewrite decide_False by tauto.
  - symmetry. assert (filter (fun key => starts_with key P = true /\ length P < length key)
      (visited (records ix)).*1 = []) as ->; [|done].
    apply filter_none, Forall_forall. intros key Hk [Hs Hlt]. apply starts_with_app in Hs as (r & ->).
    pose proof (shape_closed ix Hsh (P ++ r) (length query) (Hkey _ Hk)) as Hc.
    assert (HP : length P = length query * 2) by (unfold P; rewrite length_query_key; lia).
    rewrite take_app_length' in Hc by lia. rewrite Hp in Hc. apply length_ok_spec in Hq.
    discriminate Hc; [lia|]. rewrite length_app. lia.
Qed.

Lemma contains_reading_spec ix keys token :
  index_shape ix -> length_ok (length keys) = true -> Forall packable keys ->
  contains_reading ix token (to_packed <$> keys) = true
    <-> exists key, key ∈ index_keys keys /\ {| item_token := token; item_keys := keys |} ∈ stored ix key.
Proof.
  intros Hsh Hq Hp. unfold contains_reading. rewrite length_fmap, Hq. cbn [negb].
  assert (Hkeys : from_packed <$> (to_packed <$> keys) = keys).
  { rewrite <- list_fmap_compose. rewrite <- (list_fmap_id keys) at 2. apply list_fmap_ext.
    intros i k Hk. apply from_to_packed. rewrite Forall_forall in Hp. apply Hp. by eapply list_elem_of_lookup_2. }
  rewrite Hkeys, existsb_exists. apply exist_proper. intros key. rewrite <- list_elem_of_In.
  apply length_ok_spec in Hq.
  split; intros [Hk H]; (split; [done|]); pose proof (length_index_key _ _ Hk) as Hl.
  - destruct (record (records ix) key) as [v|] eqn:E; [|done].
    destruct (stored_entry ix key v Hsh E) as (n & Hl' & Hn & Hv & Hitems). rewrite Hv in H.
    replace n with (length keys) in * by lia. apply (reading_in (length keys)) in H; done || lia.
  - destruct (record (records ix) key) as [v|] eqn:E.
    + destruct (stored_entry ix key v Hsh E) as (n & Hl' & Hn & Hv & Hitems). rewrite Hv.
      replace n with (length keys) in * by lia. apply (reading_in (length keys)); done || lia.
    + rewrite (stored_none ix key E) in H. by apply not_elem_of_nil in H.
Qed.

(** ** The mask walk *)

Section mask.
Context (entry_per_length : bool) (mask masked : Z).

Definition unselected (it : PinyinIndexItem) : Prop := Z.land (item_token it) mask <> masked.

#[local] Instance unselected_dec it : Decision (unselected it).
Proof. unfold unselected. apply _. Defined.

Definition chunks_ok (chunks : list bytes) : Prop :=
  length chunks = MAX_PHRASE_LENGTH + 1 /\
  forall len chunk, 1 <= len -> chunks !! len = Some chunk ->
    exists items, chunk = encode_items items /\ Forall (index_item_ok len) items.

(** What the walk makes of a row: its unselected items, then what the kept
    entry leaves behind them. *)
Definition masked_row (e e' : row) : Prop :=
  e'.1 = e.1 /\ exists n items extra, length e.1 = 2 * n /\ 1 <= n <= MAX_PHRASE_LENGTH /\
    e.2 = encode_items items /\ Forall (index_item_ok n) items /\
    e'.2 = encode_items (filter unselected items ++ extra) /\
    Forall (index_item_ok n) extra /\ Forall unselected extra /\ (entry_per_length = false -> extra = []).

Lemma drop_whole n items tail :
  Forall (index_item_ok n) items -> Forall (index_item_ok n) tail ->
  encode_items items ++ drop (length (encode_items items)) (encode_items tail)
    = encode_items (items ++ drop (length items) tail).
Proof.
  intros Hi Ht. unfold encode_items at 4. rewrite bind_app. f_equal.
  rewrite (length_index_items n items Hi). destruct (decide (length items <= length tail)) as [Hl|Hl].
  - rewrite <- (take_drop (length items) tail) at 1.
    replace (length items) with (length (take (length items) tail)) at 1 by (rewrite length_take; lia).
    apply drop_items. by apply Forall_take.
  - rewrite !drop_ge; [done|lia|]. rewrite (length_index_items n tail Ht). pose proof (item2_stride_bounds n). nia.
Qed.

Lemma filter_ok {A} (P Q : A -> Prop) `{forall x, Decision (Q x)} (l : list A) :
  Forall P l -> Forall P (filter Q l).
Proof. rewrite !Forall_forall. intros Hl x [_ Hx]%list_elem_of_filter. by apply Hl. Qed.

Lemma filter_holds {A} (Q : A -> Prop) `{forall x, Decision (Q x)} (l : list A) : Forall Q (filter Q l).
Proof. apply Forall_forall. intros x Hx. by apply list_elem_of_filter in Hx as [? _]. Qed.

Lemma index_visit_spec w key value :
  chunks_ok (chunks w) -> entry_shape key value ->
  exists w' value', index_visit entry_per_length mask masked w key value = (w', Ok tt) /\
    chunks_ok (chunks w') /\ rewritten w' = append_record (rewritten w) key value' /\
    masked_row (key, value) (key, value').
Proof.
  intros [Hcl Hc] (n & items & Hl & Hn & -> & Hitems). unfold index_visit.
  replace (length key / 2) with n by (rewrite Hl, Nat.mul_comm, Nat.div_mul; lia).
  rewrite (proj2 (length_ok_spec n)) by done. cbn [negb]. destruct entry_per_length eqn:Ek.
  - destruct (lookup_lt_is_Some_2 (chunks w) n) as [chunk Hchunk]; [lia|].
    destruct (Hc n chunk (proj1 Hn) Hchunk) as (tail & -> & Htail). rewrite Hchunk.
    change (default [] (Some (encode_items tail))) with (encode_items tail).
    rewrite (drop_whole n) by done.
    assert (Hdrop : Forall (index_item_ok n) (drop (length items) tail)) by by apply Forall_drop.
    rewrite (entry_mask_spec n) by (by apply Forall_app). fold unselected. rewrite filter_app.
    eexists _, _. split; [done|]. cbn [chunks rewritten]. split; [|split; [done|]].
    + split; [by rewrite length_insert|]. intros len chunk Hlen Hlk.
      apply list_lookup_insert_Some in Hlk as [(<- & <- & _)|[_ Hlk]]; [|by apply Hc].
      eexists. split; [done|]. apply Forall_app. split; by apply filter_ok.
    + split; [done|]. exists n, items, (filter unselected (drop (length items) tail)). cbn [fst snd].
      do 5 (split; [done|]). split; [by apply filter_ok|]. split; [apply filter_holds|congruence].
  - rewrite (entry_mask_spec n) by done. fold unselected. eexists _, _. split; [done|]. cbn [chunks rewritten].
    split; [done|]. split; [done|]. split; [done|]. exists n, items, []. cbn [fst snd].
    do 4 (split; [done|]). split; [by rewrite app_nil_r|]. done.
Qed.

Lemma index_walk rows w :
  chunks_ok (chunks w) -> Forall (fun e => entry_shape e.1 e.2) rows ->
  exists w' rows', visit_rows (index_visit entry_per_length mask masked) w rows = (w', Ok tt) /\
    chunks_ok (chunks w') /\ Forall2 masked_row rows rows' /\
    rewritten w' = fold_left (fun p e => append_record p e.1 e.2) rows' (rewritten w).
Proof.
  revert w. induction rows as [|[k v] rows IH]; intros w Hc Hrows; [by exists w, []|].
  apply Forall_cons in Hrows as [Hkv Hrows]. cbn [fst snd] in Hkv.
  destruct (index_visit_spec w k v Hc Hkv) as (w1 & v' & Hv & Hc1 & Hr & Hm).
  destruct (IH w1 Hc1 Hrows) as (w' & rows' & Hw & Hc' & Hf & Hr').
  exists w', ((k, v') :: rows'). cbn [visit_rows fold_left fst snd]. rewrite Hv. split; [done|].
  split; [done|]. split; [by constructor|]. by rewrite Hr', Hr.
Qed.

(** *** Exactly what it keeps

    [K] is what the kept entry of every length holds. *)
Definition kept_row (K : nat -> list PinyinIndexItem) (n : nat) (items : list PinyinIndexItem) : list PinyinIndexItem :=
  filter unselected (items ++ if entry_per_length then drop (length items) (K n) else []).

Definition kept_after (K : nat -> list PinyinIndexItem) (n : nat) (items : list PinyinIndexItem) (m : nat)
    : list PinyinIndexItem :=
  if entry_per_length && (m =? n) then kept_row K n items else K m.

(** The rows of these keys have gone by. *)
Definition kept_upto (held : bytes -> list PinyinIndexItem) (keys : list bytes) (K : nat -> list PinyinIndexItem)
    : nat -> list PinyinIndexItem :=
  fold_left (fun K key => kept_after K (length key / 2) (held key)) keys K.

Definition keeps (K : nat -> list PinyinIndexItem) (chunks : list bytes) : Prop :=
  forall n, 1 <= n <= MAX_PHRASE_LENGTH -> chunks !! n = Some (encode_items (K n)) /\ Forall (index_item_ok n) (K n).

Lemma index_visit_items w K key n items :
  keeps K (chunks w) -> length key = 2 * n -> 1 <= n <= MAX_PHRASE_LENGTH -> Forall (index_item_ok n) items ->
  exists w', index_visit entry_per_length mask masked w key (encode_items items) = (w', Ok tt) /\
    keeps (kept_after K n items) (chunks w') /\
    rewritten w' = append_record (rewritten w) key (encode_items (kept_row K n items)).
Proof.
  intros HK Hl Hn Hitems. destruct (HK n Hn) as [Hchunk Htail]. unfold index_visit, kept_after, kept_row.
  replace (length key / 2) with n by (rewrite Hl, Nat.mul_comm, Nat.div_mul; lia).
  rewrite (proj2 (length_ok_spec n)) by done. cbn [negb]. destruct entry_per_length.
  - rewrite Hchunk. change (default [] (Some (encode_items (K n)))) with (encode_items (K n)).
    rewrite (drop_whole n) by done.
    assert (Hall : Forall (index_item_ok n) (items ++ drop (length items) (K n)))
      by (apply Forall_app; split; [done|by apply Forall_drop]).
    rewrite (entry_mask_spec n) by done. eexists. split; [done|]. cbn [chunks rewritten andb]. split; [|done].
    intros m Hm. destruct (Nat.eqb_spec m n) as [->|Hne].
    + rewrite list_lookup_insert_eq by by eapply lookup_lt_Some. split; [done|by apply filter_ok].
    + rewrite list_lookup_insert_ne by done. by apply HK.
  - rewrite (entry_mask_spec n), app_nil_r by done. eexists. split; [done|]. done.
Qed.

Lemma kept_upto_ok held K keys n :
  (forall key, key ∈ keys -> Forall (index_item_ok (length key / 2)) (held key)) ->
  Forall (index_item_ok n) (K n) -> Forall (index_item_ok n) (kept_upto held keys K n).
Proof.
  revert K. induction keys as [|key keys IH]; intros K Hheld HK; [done|]. apply IH; [intros; apply Hheld; by right|].
  unfold kept_after. destruct entry_per_length eqn:E; cbn [andb]; [|done].
  destruct (Nat.eqb_spec n (length key / 2)) as [->|]; [|done].
  unfold kept_row. rewrite E. apply filter_ok, Forall_app. split; [apply Hheld; by left|by apply Forall_drop].
Qed.

Lemma index_walk_items held rows w K :
  keeps K (chunks w) ->
  Forall (fun e => exists n, length e.1 = 2 * n /\ 1 <= n <= MAX_PHRASE_LENGTH /\
    e.2 = encode_items (held e.1) /\ Forall (index_item_ok n) (held e.1)) rows ->
  exists w' rows', visit_rows (index_visit entry_per_length mask masked) w rows = (w', Ok tt) /\
    keeps (kept_upto held rows.*1 K) (chunks w') /\ rows'.*1 = rows.*1 /\
    rewritten w' = fold_left (fun p e => append_record p e.1 e.2) rows' (rewritten w) /\
    forall before key after, rows.*1 = before ++ key :: after ->
      (key, encode_items (kept_row (kept_upto held before K) (length key / 2) (held key))) ∈ rows'.
Proof.
  revert w K. induction rows as [|[k v] rows IH]; intros w K HK Hrows.
  { exists w, []. do 4 (split; [done|]). by intros [] key after. }
  apply Forall_cons in Hrows as [(n & Hl & Hn & Hv0 & Hitems) Hrows]. cbn [fst snd] in *. subst v.
  destruct (index_visit_items w K k n (held k) HK Hl Hn Hitems) as (w1 & Hv & HK1 & Hr).
  assert (Hdiv : length k / 2 = n) by (rewrite Hl, Nat.mul_comm, Nat.div_mul; lia).
  destruct (IH w1 _ HK1 Hrows) as (w' & rows' & Hw & HK' & Hkeys & Hr' & Hin).
  exists w', ((k, encode_items (kept_row K n (held k))) :: rows').
  cbn [visit_rows]. rewrite Hv. split; [done|]. rewrite !fmap_cons. cbn [fst snd]. rewrite <- Hdiv in HK', Hin.
  split; [exact HK'|]. split; [by rewrite Hkeys|]. split; [cbn [fold_left fst snd]; by rewrite Hr', Hr|].
  intros [|k' before] key after E; injection E as -> E.
  - unfold kept_upto. cbn [fold_left]. rewrite Hdiv. left.
  - right. by apply (Hin before key after).
Qed.
End mask.

Lemma slot_bytes_ok ix len :
  index_shape ix -> 1 <= len <= MAX_PHRASE_LENGTH ->
  exists items, slot_bytes ix len = encode_items items /\ Forall (index_item_ok len) items.
Proof.
  intros Hsh Hlen. destruct (shape_slots ix Hsh) as [_ Hs]. unfold slot_bytes.
  destruct (slots ix !! len) as [[|key|chunk]|] eqn:E; [by exists []| | |by exists []].
  - specialize (Hs len _ E). cbn in Hs. destruct (record (records ix) key) as [v|] eqn:Er; [|by exists []].
    destruct (stored_entry ix key v Hsh Er) as (n & Hl & _ & -> & Hitems). exists (stored ix key).
    split; [done|]. by replace len with n by lia.
  - apply (Hs len _ E).
Qed.

Lemma chunks_start ix : index_shape ix -> chunks_ok ([] :: (slot_bytes ix <$> seq 1 MAX_PHRASE_LENGTH)).
Proof.
  intros Hsh. split; [by cbn [length]; rewrite length_fmap, length_seq|]. intros [|len] chunk Hlen Hlk; [lia|].
  change (_ !! S len) with ((slot_bytes ix <$> seq 1 MAX_PHRASE_LENGTH) !! len) in Hlk.
  rewrite list_lookup_fmap in Hlk. apply fmap_Some in Hlk as (m & Hm & ->). apply lookup_seq in Hm as [-> Hm].
  replace (1 + len) with (S len) by lia. apply slot_bytes_ok; [done|lia].
Qed.

Lemma chunk_slots_ok slots chunks :
  slots_ok slots -> chunks_ok chunks -> slots_ok (take 1 slots ++ (chunk_slot <$> drop 1 chunks)).
Proof.
  intros [Hl Hs] [Hcl Hc]. destruct slots as [|s0 slots]; [done|]. destruct chunks as [|c0 chunks]; [done|].
  change (slots_ok (s0 :: (chunk_slot <$> chunks))).
  split; [cbn [length] in *; rewrite length_fmap; lia|].
  intros [|len] s Hlk; [by apply (Hs 0)|]. change (_ !! S len) with ((chunk_slot <$> chunks) !! len) in Hlk.
  rewrite list_lookup_fmap in Hlk. apply fmap_Some in Hlk as (chunk & Hchunk & ->).
  destruct chunk as [|b chunk]; [done|]. apply (Hc (S len)); [lia|done].
Qed.

Lemma visited_shape ix : index_shape ix -> Forall (fun e => entry_shape e.1 e.2) (visited (records ix)).
Proof.
  intros Hsh. apply Forall_forall. intros [k v] Hin. apply (shape_entries ix Hsh).
  by apply record_spec; [apply Hsh|].
Qed.

Lemma masked_keys epl mask masked rows rows' :
  Forall2 (masked_row epl mask masked) rows rows' -> rows'.*1 = rows.*1.
Proof. induction 1 as [|e e' rows rows' [He _] _ IH]; [done|]. by rewrite !fmap_cons, IH, He. Qed.

Lemma index_mask_spec epl ix mask masked :
  index_shape ix ->
  let out := index_mask epl ix mask masked in
  (Z.of_nat (length (arena (records out))) <= u32_max)%Z ->
  index_shape out /\
  (forall key, exists extra,
     stored out key = filter (fun it => Z.land (item_token it) mask <> masked) (stored ix key) ++ extra /\
     Forall (fun it => Z.land (item_token it) mask <> masked) extra /\ (epl = false -> extra = [])) /\
  (epl = false -> index_ok ix -> index_ok out).
Proof.
  intros Hsh out.
  destruct (index_walk epl mask masked (visited (records ix))
    {| chunks := [] :: (slot_bytes ix <$> seq 1 MAX_PHRASE_LENGTH); rewritten := ([], []) |})
    as (w & rows & Hwalk & Hchunks & Hrows & Hre); [by apply chunks_start|by apply visited_shape|].
  unfold out, index_mask, for_each_record. rewrite Hwalk. cbn [fst records]. rewrite Hre. cbn [rewritten].
  pose proof (masked_keys _ _ _ _ _ Hrows) as Hkeys. intros Hfit.
  destruct (rebuilt_walk (records ix) rows (shape_records ix Hsh) Hkeys Hfit) as (Hr & Hrec & Hsome).
  set (recs' := {| arena := _; offsets := _; overlay := _ |}) in *.
  set (out' := {| records := recs'; slots := _ |}).
  assert (Hrow : forall key v', record recs' key = Some v' -> exists v, record (records ix) key = Some v /\
    masked_row epl mask masked (key, v) (key, v')).
  { intros key v' Hin. apply Hrec in Hin. apply list_elem_of_lookup in Hin as (i & Hi).
    destruct (Forall2_lookup_r _ _ _ _ _ Hrows Hi) as ([k v] & Hi' & Hm). destruct Hm as [Hk Hm]. cbn in Hk. subst k.
    exists v. split; [|by split]. apply record_spec; [apply Hsh|]. by eapply list_elem_of_lookup_2. }
  assert (Hst : forall key, exists extra,
     stored out' key = filter (fun it => Z.land (item_token it) mask <> masked) (stored ix key) ++ extra /\
     Forall (fun it => Z.land (item_token it) mask <> masked) extra /\ (epl = false -> extra = [])).
  { intros key. destruct (record recs' key) as [v'|] eqn:E.
    - destruct (Hrow key v' E) as (v & Ev & _ & n & items & extra & Hl & Hn & Hv & Hi & Hv' & He & Hu & Hx).
      cbn [fst snd] in *. exists extra. split; [|done].
      rewrite (stored_encoded ix key n items) by (by rewrite ?Ev, ?Hv || lia || done).
      apply (stored_encoded out' key n); [exact (eq_trans E (f_equal Some Hv'))|done|lia|].
      apply Forall_app. split; [by apply filter_ok|done].
    - specialize (Hsome key). rewrite E in Hsome. destruct (record (records ix) key) eqn:E'; [done|].
      exists []. rewrite !stored_none by done. done. }
  assert (Hshape : index_shape out').
  { split; [done| | |].
    - intros key m. change (records out') with recs'. rewrite !Hsome. apply Hsh.
    - intros key v' E. apply Hrow in E as (v & Ev & _ & n & items & extra & Hl & Hn & Hv & Hi & Hv' & He & _).
      exists n, (filter (unselected mask masked) items ++ extra). cbn [fst snd] in *.
      split; [done|]. split; [done|]. split; [done|]. apply Forall_app. split; [by apply filter_ok|done].
    - cbn [slots out']. destruct epl; [|apply Hsh]. apply chunk_slots_ok; [apply Hsh|done]. }
  split; [done|]. split; [done|]. intros Hepl Hok. split; [done| |].
  - intros key. destruct (Hst key) as (extra & -> & _ & Hx). rewrite (Hx Hepl), app_nil_r.
    clear -Hok. pose proof (ok_sorted ix Hok key) as Hs. induction Hs as [|x l _ IH Hx]; [constructor|].
    rewrite filter_cons. case_decide; [|done]. constructor; [done|by apply filter_ok].
  - intros key it. destruct (Hst key) as (extra & -> & _ & Hx). rewrite (Hx Hepl), app_nil_r.
    intros [_ Hin]%list_elem_of_filter. by apply (ok_projected ix Hok).
Qed.

(** What the slot of a length would load. *)
Definition slot_items (ix : UserIndex) (n : nat) : list PinyinIndexItem :=
  match decode_items (slot_bytes ix n) n with Ok items => items | Err _ => [] end.

Lemma slots_kept ix : index_shape ix -> keeps (slot_items ix) ([] :: (slot_bytes ix <$> seq 1 MAX_PHRASE_LENGTH)).
Proof.
  intros Hsh n Hn. destruct (slot_bytes_ok ix n Hsh Hn) as (items & Hb & Hitems).
  assert (slot_items ix n = items) as -> by (unfold slot_items; rewrite Hb, decode_encode_items by (done || lia); done).
  split; [|done]. destruct n as [|n]; [lia|].
  change (_ !! S n) with ((slot_bytes ix <$> seq 1 MAX_PHRASE_LENGTH) !! n).
  rewrite list_lookup_fmap, lookup_seq_lt by lia. cbn [fmap option_fmap option_map]. by rewrite <- Hb.
Qed.

Lemma index_mask_exact epl ix mask masked :
  index_shape ix ->
  let out := index_mask epl ix mask masked in
  let kept keys := kept_upto epl mask masked (stored ix) keys (slot_items ix) in
  (Z.of_nat (length (arena (records out))) <= u32_max)%Z ->
  (forall key, is_some (record (records out) key) = is_some (record (records ix) key)) /\
  (forall before key after, (visited (records ix)).*1 = before ++ key :: after ->
     stored out key = kept_row epl mask masked (kept before) (length key / 2) (stored ix key)) /\
  (forall n, slots out !! n =
     if epl && (1 <=? n) && (n <=? MAX_PHRASE_LENGTH)
     then Some (chunk_slot (encode_items (kept (visited (records ix)).*1 n))) else slots ix !! n).
Proof.
  intros Hsh out kept.
  assert (Hshape : Forall (fun e => exists n, length e.1 = 2 * n /\ 1 <= n <= MAX_PHRASE_LENGTH /\
    e.2 = encode_items (stored ix e.1) /\ Forall (index_item_ok n) (stored ix e.1)) (visited (records ix))).
  { apply Forall_forall. intros [k v] Hin. cbn [fst snd]. apply stored_entry; [done|].
    by apply record_spec; [apply Hsh|]. }
  destruct (index_walk_items epl mask masked (stored ix) (visited (records ix))
    {| chunks := [] :: (slot_bytes ix <$> seq 1 MAX_PHRASE_LENGTH); rewritten := ([], []) |} (slot_items ix))
    as (w & rows & Hwalk & HK & Hkeys & Hre & Hin); [by apply slots_kept|done|].
  destruct (index_walk epl mask masked (visited (records ix))
    {| chunks := [] :: (slot_bytes ix <$> seq 1 MAX_PHRASE_LENGTH); rewritten := ([], []) |})
    as (w1 & rows1 & Hwalk1 & [Hcl _] & _); [by apply chunks_start|by apply visited_shape|].
  assert (w1 = w) as -> by congruence. clear Hwalk1 rows1.
  unfold out, index_mask, for_each_record. rewrite Hwalk. cbn [fst records slots]. rewrite Hre. cbn [rewritten].
  intros Hfit. destruct (rebuilt_walk (records ix) rows (shape_records ix Hsh) Hkeys Hfit) as (Hr & Hrec & Hsome).
  split; [exact Hsome|]. split.
  - intros before key after E. pose proof (Hin before key after E) as Hrow. apply Hrec in Hrow.
    assert (Hheld : forall k, k ∈ before ++ key :: after -> exists n, length k = 2 * n /\ 1 <= n <= MAX_PHRASE_LENGTH /\
      Forall (index_item_ok n) (stored ix k)).
    { rewrite <- E. intros k ([k' v] & -> & Hkv)%list_elem_of_fmap.
      rewrite Forall_forall in Hshape. destruct (Hshape _ Hkv) as (n & ? & ? & _ & ?). by exists n. }
    destruct (Hheld key) as (n & Hl & Hn & Hitems); [rewrite elem_of_app, elem_of_cons; auto|].
    eapply stored_encoded; [exact Hrow|exact Hl|lia|].
    replace (length key / 2) with n by (rewrite Hl, Nat.mul_comm, Nat.div_mul; lia).
    apply filter_ok, Forall_app. split; [done|]. destruct epl; [|done]. apply Forall_drop, kept_upto_ok.
    + intros k Hk. destruct (Hheld k) as (m & Hm & _ & H'); [rewrite elem_of_app; by left|].
      by rewrite Hm, Nat.mul_comm, Nat.div_mul.
    + by apply (slots_kept ix Hsh).
  - intros n. destruct epl; [|done]. cbn [andb]. destruct (shape_slots ix Hsh) as [Hsl _].
    destruct (slots ix) as [|s0 ss]; [done|]. destruct (chunks w) as [|c0 cs] eqn:Ew; [done|].
    destruct n as [|n]; [done|]. transitivity ((chunk_slot <$> cs) !! n); [done|]. rewrite list_lookup_fmap.
    change (1 <=? S n) with true. cbn [andb].
    destruct (Nat.leb_spec (S n) MAX_PHRASE_LENGTH) as [Hle|Hgt].
    + destruct (HK (S n) ltac:(lia)) as [Hc _]. change (cs !! n = Some (encode_items (kept (visited (records ix)).*1 (S n)))) in Hc.
      by rewrite Hc.
    + cbn [length] in Hsl, Hcl. transitivity (ss !! n); [|done]. by rewrite !lookup_ge_None_2 by lia.
Qed.

(** ** The notes and the merge *)

Lemma note_search_ok epl ix keys : index_ok ix -> index_ok (note_search epl ix keys) /\
  records (note_search epl ix keys) = records ix.
Proof.
  intros Hok. unfold note_search. destruct (negb epl || _); [done|].
  destruct (record (records ix) (query_key keys)) as [[|b v]|]; [done| |done]. split; [|done].
  pose proof (ok_shape ix Hok) as Hsh. split; [|apply Hok|apply Hok]. split; try apply Hsh.
  apply slots_ok_set; [apply Hsh|]. apply length_query_key.
Qed.

Lemma note_suggestion_ok epl ix keys : index_ok ix -> index_ok (note_suggestion epl ix keys) /\
  records (note_suggestion epl ix keys) = records ix.
Proof.
  intros Hok. unfold note_suggestion. destruct (negb epl || _); [done|].
  destruct (negb (contains_key _ _)); [done|]. split; [|done].
  pose proof (ok_shape ix Hok) as Hsh. split; [|apply Hok|apply Hok]. split; try apply Hsh.
  destruct (shape_slots ix Hsh) as [Hl Hs].
  assert (Hlen : length (suggested_lengths ix (query_key keys)) = MAX_PHRASE_LENGTH + 1).
  { unfold suggested_lengths.
    assert (H : forall (l : list bytes) (acc : list bool), length (fold_left (fun lengths key =>
        if length key =? length (query_key keys) then lengths
        else if length key / 2 <? length lengths then <[length key / 2 := true]> lengths else lengths) l acc)
      = length acc); [|by rewrite H, length_replicate].
    induction l as [|k l IH]; intros acc; [done|]. cbn [fold_left]. rewrite IH.
    repeat case_match; rewrite ?length_insert; done. }
  cbn [slots]. unfold empty_seen. split; [rewrite length_zip_with, Hl, Hlen; lia|].
  intros len s Hlk. apply lookup_zip_with_Some in Hlk as (s0 & seen & -> & Hlk & _).
  destruct seen; [done|by apply Hs].
Qed.

(** A hit of a search on a row with items keeps the row in its length's slot. *)
Lemma note_search_slots epl ix keys :
  index_shape ix -> length_ok (length keys) = true ->
  slots (note_search epl ix keys) =
    if epl && negb (bool_decide (stored ix (query_key keys) = []))
    then <[length keys := SlotRecord (query_key keys)]> (slots ix) else slots ix.
Proof.
  intros Hsh Hl. unfold note_search. rewrite Hl. destruct epl; [|done]. cbn [negb orb andb].
  destruct (record (records ix) (query_key keys)) as [v|] eqn:E.
  2: { by rewrite stored_none, bool_decide_eq_true_2. }
  destruct (stored_entry ix _ v Hsh E) as (n & _ & _ & Hv & Hitems).
  destruct (item_chunks n _ Hitems) as [_ Hlen]. pose proof (item2_stride_bounds n). rewrite <- Hv in Hlen.
  destruct v as [|b v]; case_bool_decide as Hs; [done|..|done].
  - destruct (stored ix (query_key keys)); [done|]. cbn [length] in Hlen. lia.
  - rewrite Hs in Hlen. cbn [length] in Hlen. lia.
Qed.

(** A suggestion empties the slot of every length with a row beyond. *)
Definition row_beyond (ix : UserIndex) (prefix : bytes) (n : nat) : Prop :=
  exists key, is_some (record (records ix) key) = true /\ starts_with key prefix = true /\
    length key = 2 * n /\ length prefix < 2 * n.

Lemma marked_lengths (prefix : bytes) n l (acc : list bool) :
  fold_left (fun lengths key =>
      if length key =? length prefix then lengths
      else if length key / 2 <? length lengths then <[length key / 2 := true]> lengths else lengths) l acc !! n
  = (fun seen => seen || existsb (fun key : bytes => negb (length key =? length prefix) && (length key / 2 =? n)) l)
    <$> acc !! n.
Proof.
  revert acc. induction l as [|key l IH]; intros acc; cbn [fold_left existsb].
  { destruct (acc !! n); [|done]. cbn. by rewrite orb_false_r. }
  rewrite IH. destruct (length key =? length prefix); [done|]. cbn [negb andb].
  destruct (Nat.eqb_spec (length key / 2) n) as [<-|Hne]; destruct (Nat.ltb_spec (length key / 2) (length acc)) as [Hl|Hl].
  - rewrite list_lookup_insert_eq by done. destruct (lookup_lt_is_Some_2 acc _ Hl) as [x ->]. cbn. by rewrite orb_true_r.
  - by rewrite lookup_ge_None_2.
  - by rewrite list_lookup_insert_ne.
  - done.
Qed.

Lemma note_suggestion_slots epl ix keys n :
  index_shape ix -> length_ok (length keys) = true ->
  let out := note_suggestion epl ix keys in
  (epl = true -> row_beyond ix (query_key keys) n -> slots out !! n = Some SlotEmpty) /\
  (epl = false \/ ~ row_beyond ix (query_key keys) n -> slots out !! n = slots ix !! n).
Proof.
  intros Hsh Hq. cbv zeta. unfold note_suggestion. rewrite Hq. destruct epl; [|by split]. cbn [negb orb].
  rewrite contains_key_spec by apply Hsh. apply length_ok_spec in Hq. pose proof (length_query_key keys) as HP.
  set (P := query_key keys) in *.
  assert (Hb : row_beyond ix P n -> is_some (record (records ix) P) = true /\ n < MAX_PHRASE_LENGTH + 1).
  { intros (key & Hk & (r & ->)%starts_with_app & Hl & Hlt). split.
    - pose proof (shape_closed ix Hsh (P ++ r) (length keys) Hk) as Hc.
      rewrite take_app_length' in Hc by lia. apply Hc; lia.
    - destruct (record (records ix) (P ++ r)) as [v|] eqn:E; [|done].
      destruct (shape_entries ix Hsh _ v E) as (m & items & Hm & ? & _). lia. }
  destruct (is_some (record (records ix) P)) eqn:E; cbn [negb].
  2: { split; [intros _ [? _]%Hb; done|done]. }
  cbn [slots]. destruct (shape_slots ix Hsh) as [Hsl _].
  set (beyond := existsb (fun key : bytes => negb (length key =? length P) && (length key / 2 =? n))
                   (filter (fun key => starts_with key P = true) (visited (records ix)).*1)).
  assert (Hlk : empty_seen (slots ix) (suggested_lengths ix P) !! n =
    (fun s => if beyond then SlotEmpty else s) <$> slots ix !! n).
  { unfold empty_seen, suggested_lengths. rewrite lookup_zip_with, marked_lengths, keys_starting_visited by apply Hsh.
    fold beyond. destruct (slots ix !! n) as [s|] eqn:Es; [|done]. apply lookup_lt_Some in Es. rewrite Hsl in Es.
    by rewrite lookup_replicate_2. }
  assert (Hbeyond : beyond = true <-> row_beyond ix P n).
  { unfold beyond. rewrite existsb_exists. split.
    - intros (key & [Hs Hin]%list_elem_of_In%list_elem_of_filter & [Hl%negb_true_iff%Nat.eqb_neq Hd%Nat.eqb_eq]%andb_true_iff).
      apply is_some_record in Hin; [|apply Hsh]. destruct (record (records ix) key) as [v|] eqn:Ev; [|done].
      destruct (shape_entries ix Hsh _ v Ev) as (m & items & Hm & ? & _).
      rewrite Hm, Nat.mul_comm, Nat.div_mul in Hd by lia. subst m.
      exists key. rewrite Ev. split; [done|]. split; [done|]. split; [done|].
      apply starts_with_app in Hs as (r & ->). rewrite length_app in *. lia.
    - intros (key & Hk & Hs & Hl & Hlt). exists key. split.
      + apply list_elem_of_In, list_elem_of_filter. split; [done|]. by apply is_some_record; [apply Hsh|].
      + rewrite (proj2 (Nat.eqb_neq _ _)) by lia. rewrite Hl, Nat.mul_comm, Nat.div_mul by lia. apply Nat.eqb_refl. }
  rewrite Hlk. split.
  - intros _ Hr. pose proof (proj2 (Hb Hr)) as Hn. rewrite <- Hsl in Hn. apply lookup_lt_is_Some_2 in Hn as [s ->].
    by rewrite (proj2 Hbeyond Hr).
  - intros [?|Hr]; [done|]. destruct beyond; [by destruct (Hr (proj1 Hbeyond eq_refl))|]. by destruct (slots ix !! n).
Qed.

(** What the slots hold after an edit: the row last edited that was there. *)
Lemma add_key_slots keys token ix b key :
  index_shape ix -> key ∈ index_keys keys -> length_ok (length keys) = true ->
  let out := (add_key keys token (ix, b) key).1 in
  slots out = (if is_some (record (records ix) key) then <[length keys := SlotRecord key]> (slots ix) else slots ix) /\
  forall k, length k = length key ->
    is_some (record (records out) k) = bool_decide (k = key) || is_some (record (records ix) k).
Proof.
  intros Hsh Hkey Hq. apply length_ok_spec in Hq. pose proof (length_index_key keys key Hkey) as Hl.
  unfold add_key. cbn [fst snd]. rewrite contains_key_spec by apply Hsh.
  destruct (record (records ix) key) as [v|] eqn:E; cbn [is_some negb fst slots records]; (split; [done|]); intros k Hk.
  - rewrite record_put by apply Hsh. case_decide; [by rewrite bool_decide_eq_true_2|by rewrite bool_decide_eq_false_2].
  - replace (length key / 2) with (length keys) by (rewrite Hl, Nat.mul_comm, Nat.div_mul; lia).
    destruct (create_prefixes_spec 2 ltac:(lia) (records ix) key (entry_add [] (length keys) keys token).1
      (shape_records ix Hsh) (shape_closed ix Hsh) E (length keys)) as (_ & _ & ->); [lia|lia|].
    case_decide as Hd; [by rewrite bool_decide_eq_true_2|]. rewrite bool_decide_eq_false_2 by done.
    destruct (record (records ix) k); [done|]. destruct (proper_prefix 2 key k) eqn:Ep; [|done].
    apply proper_prefix_spec in Ep as (m & Hm & ->). rewrite length_take in Hk.
    rewrite Hl, Nat.mul_comm, Nat.div_mul in Hm by lia. lia.
Qed.

Section edit_slots.
Context (keys : list ChewingKey) (token : Z) (ix : UserIndex).
Context (Hlen : 1 <= length keys <= MAX_PHRASE_LENGTH).
Context (Hit : index_item_ok (length keys) {| item_token := token; item_keys := keys |}).
Context (Hok : index_ok ix).

Local Abbreviation inc := (encode_incomplete_key keys).
Local Abbreviation com := (encode_complete_key keys).
Local Abbreviation present key := (is_some (record (records ix) key)).
Local Abbreviation keep key := (<[length keys := SlotRecord key]> (slots ix)).

Lemma add_slots :
  slots (add ix keys token).1 =
    if bool_decide (inc = com) || present com then keep com else if present inc then keep inc else slots ix.
Proof using Hlen Hit Hok.
  pose proof (proj2 (length_ok_spec _) Hlen) as Hq.
  assert (Hi : inc ∈ index_keys keys) by left. assert (Hc : com ∈ index_keys keys) by (right; left).
  unfold add. rewrite Hq. cbn [negb index_keys fold_left].
  destruct (add_key_slots keys token ix false inc (ok_shape ix Hok) Hi Hq) as [Hs1 Hr1].
  destruct (add_key_spec keys token Hlen Hit ix false inc Hok Hi) as [Hok1 _].
  destruct (add_key keys token (ix, false) inc) as [ix1 b1]. cbn [fst] in *.
  destruct (add_key_slots keys token ix1 b1 com (ok_shape ix1 Hok1) Hc Hq) as [-> _].
  rewrite Hr1 by (rewrite !(length_index_key keys) by done; done).
  rewrite (bool_decide_ext (com = inc) (inc = com)) by done. rewrite Hs1.
  destruct (bool_decide (inc = com) || present com); [|done].
  destruct (present inc); [by rewrite list_insert_insert_eq|done].
Qed.

Lemma remove_slots :
  slots (remove ix keys token).1 =
    if present inc
    then keep (if bool_decide ({| item_token := token; item_keys := keys |} ∈ stored ix inc) && present com then com else inc)
    else slots ix.
Proof using Hlen Hit Hok.
  unfold remove. rewrite (proj2 (length_ok_spec _) Hlen). cbn [negb index_keys remove_each].
  destruct (record (records ix) inc) as [v|] eqn:E; [|done]. cbn [is_some].
  destruct (remove_key_spec keys token Hlen Hit ix inc v Hok ltac:(left) E) as (_ & _ & Hb). rewrite Hb.
  case_bool_decide as Hin; cbn [negb andb]; [|done].
  cbn [records]. rewrite record_put by apply Hok. case_decide as Hd.
  - rewrite Hd, E. cbn [is_some]. destruct (negb _); cbn [fst slots]; apply list_insert_insert_eq.
  - destruct (record (records ix) com) as [v'|]; cbn [is_some]; [|done].
    destruct (negb _); cbn [fst slots]; apply list_insert_insert_eq.
Qed.
End edit_slots.

Lemma merged_records (l : list row) st :
  records_ok st -> NoDup l.*1 ->
  let st' := fold_left (fun st e => if contains_key st e.1 then st else put st e.1 e.2) l st in
  records_ok st' /\ forall k v, record st' k = Some v <->
    record st k = Some v \/ (record st k = None /\ (k, v) ∈ l).
Proof.
  revert st. induction l as [|[key value] l IH]; intros st Hok Hnd; cbn [fold_left].
  { split; [done|]. intros k v. split; [by left|]. intros [?|[_ []%not_elem_of_nil]]; done. }
  rewrite fmap_cons in Hnd. apply NoDup_cons in Hnd as [Hkey Hnd]. cbn [fst snd] in *.
  rewrite contains_key_spec by done.
  assert (Hnot : forall v, (key, v) ∉ l) by (intros v Hin; apply Hkey, list_elem_of_fmap; by exists (key, v)).
  destruct (record st key) as [w|] eqn:E; cbn [is_some].
  - destruct (IH st Hok Hnd) as [H1 H2]. split; [done|]. intros k v. rewrite H2, elem_of_cons.
    split; [intros [?|[? ?]]; auto|]. intros [?|[Hn [[= -> ->]|?]]]; [by left|congruence|by right].
  - destruct (IH (put st key value) (put_ok st Hok key value) Hnd) as [H1 H2]. split; [done|]. intros k v.
    rewrite H2, record_put, elem_of_cons by done. destruct (decide (k = key)) as [->|Hne].
    + rewrite E. split.
      * intros [[= <-]|[? _]]; [right; split; [done|by left]|done].
      * intros [?|[_ [[= ->]|Hin]]]; [done|by left|by apply Hnot in Hin].
    + split; [intros [?|[? ?]]; auto|]. intros [?|[Hn [[= -> ->]|?]]]; [by left|done|by right].
Qed.

Lemma merge_missing_spec ix other :
  index_ok ix -> index_ok other ->
  index_ok (merge_missing ix other) /\
  forall key, stored (merge_missing ix other) key
    = if is_some (record (records ix) key) then stored ix key else stored other key.
Proof.
  intros Hok Hoo. pose proof (ok_shape ix Hok) as Hsh. pose proof (ok_shape other Hoo) as Hso.
  destruct (merged_records (rows (records other)) (records ix)) as [Hr Hrec]; [apply Hsh| |].
  { rewrite rows_visited by apply Hso. apply ordered_keys_nodup, visited_ordered, Hso. }
  set (recs' := fold_left _ _ _) in *.
  assert (Hrec' : forall key, record recs' key
    = match record (records ix) key with Some v => Some v | None => record (records other) key end).
  { intros key. apply option_eq. intros v. rewrite Hrec, rows_visited, <- record_spec by apply Hso.
    destruct (record (records ix) key); [split; [intros [?|[? _]]; done|by left]|].
    split; [intros [?|[_ ?]]; done|by right]. }
  assert (Hst : forall key, stored (merge_missing ix other) key
    = if is_some (record (records ix) key) then stored ix key else stored other key).
  { intros key. unfold stored. change (records (merge_missing ix other)) with recs'. rewrite Hrec'.
    by destruct (record (records ix) key). }
  split; [|done]. split.
  - split; [done| | |apply Hsh]; change (records (merge_missing ix other)) with recs'.
    + intros key m. rewrite !Hrec'. intros Hk Hm Hl.
      pose proof (shape_closed ix Hsh key m) as Hc. pose proof (shape_closed other Hso key m) as Hc'.
      destruct (record (records ix) (take (m * 2) key)); [done|].
      destruct (record (records ix) key); [|by apply Hc']. by specialize (Hc eq_refl Hm Hl).
    + intros key v. rewrite Hrec'. destruct (record (records ix) key) as [w|] eqn:E.
      * intros [= <-]. by apply (shape_entries ix Hsh).
      * apply (shape_entries other Hso).
  - intros key. rewrite Hst. destruct (is_some _); [apply Hok|apply Hoo].
  - intros key it. rewrite Hst. destruct (is_some _); [apply Hok|apply Hoo].
Qed.

Lemma no_overlong ix : index_shape ix -> overlong_keys ix = [].
Proof.
  intros Hsh. unfold overlong_keys.
  assert (H : forall o, o ∈ offsets (records ix) -> exists n,
    length (default [] (key_at (arena (records ix)) o)) = 2 * n /\ 1 <= n <= MAX_PHRASE_LENGTH).
  { intros o Ho. apply (list_elem_of_fmap_2 (row_at (arena (records ix)))) in Ho.
    apply (list_elem_of_fmap_2 fst) in Ho. unfold row_at in Ho at 1. cbn [fst] in Ho.
    fold (arena_rows (records ix)) in Ho. set (key := default [] _) in *.
    assert (Hk : is_some (record (records ix) key) = true).
    { apply is_some_record; [apply Hsh|]. apply elem_of_visited_keys; [apply Hsh|by left]. }
    destruct (record (records ix) key) as [v|] eqn:E; [|done].
    destruct (shape_entries ix Hsh key v E) as (n & _ & Hl & Hn & _). by exists n. }
  induction (offsets (records ix)) as [|o l IH]; [done|]. unfold omap. cbn [list_omap].
  destruct (H o) as (n & Hl & Hn); [by left|]. cbv zeta. rewrite Hl.
  rewrite (proj2 (Nat.ltb_ge _ _)) by lia.
  replace (2 * n / 2) with n by (rewrite Nat.mul_comm, Nat.div_mul; lia).
  rewrite (proj2 (Nat.ltb_ge _ _)) by lia. apply IH. intros o' Ho'. apply H. by right.
Qed.

(** The over-long keys of a loaded table: in key order, those without a whole
    word or of more than the longest phrase. *)
Definition over_long (key : bytes) : Prop := length key < 2 \/ MAX_PHRASE_LENGTH < length key / 2.

Definition words_of (key : bytes) (words : list Z) : Prop :=
  exists odd, key = (words ≫= le_bytes 2) ++ odd /\ length odd < 2 /\ Forall (fun w => 0 <= w < 65536)%Z words.

Lemma chunks_of_take {A} k n (l : list A) : chunks_of k n l = chunks_of k n (take (k * n) l).
Proof.
  revert l. induction k as [|k IH]; intros l; [done|]. cbn [chunks_of Nat.mul].
  rewrite take_take, Nat.min_l by lia. f_equal. rewrite IH. by rewrite skipn_firstn_comm, Nat.add_sub_swap, Nat.sub_diag.
Qed.

Lemma key_words key : words_of key (le_value <$> whole_chunks 2 key).
Proof.
  set (k := length key / 2). pose proof (Nat.div_mod_eq (length key) 2) as Hd.
  pose proof (Nat.mod_upper_bound (length key) 2 ltac:(lia)) as Hm.
  assert (Hw : whole_chunks 2 key = chunks_of k 2 (take (k * 2) key)).
  { unfold whole_chunks, as_chunks. cbn [fst]. apply chunks_of_take. }
  destruct (chunks_join 2 k (take (k * 2) key)) as [Hj Hc]; [rewrite length_take; lia|]. rewrite <- Hw in Hj, Hc.
  exists (drop (k * 2) key). split; [|split].
  - rewrite <- (take_drop (k * 2) key) at 1. f_equal. rewrite <- Hj at 1. clear -Hc.
    induction Hc as [|c l Hc _ IH]; [done|]. rewrite fmap_cons, !bind_cons, IH. f_equal. rewrite <- Hc.
    symmetry. apply le_bytes_value.
  - rewrite length_drop. lia.
  - clear -Hc. apply Forall_fmap. eapply Forall_impl; [exact Hc|]. intros c Hl. cbn.
    pose proof (le_value_range c) as Hr. by rewrite Hl in Hr.
Qed.

#[local] Instance over_long_dec key : Decision (over_long key).
Proof. unfold over_long. apply _. Defined.

Lemma overlong_arena ix :
  Forall2 words_of (filter over_long (arena_rows (records ix)).*1) (overlong_keys ix).
Proof.
  unfold overlong_keys. rewrite <- arena_keys. induction (offsets (records ix)) as [|o l IH]; [constructor|].
  rewrite fmap_cons, filter_cons. unfold omap. cbn [list_omap]. set (key := default [] (key_at _ o)).
  destruct (Nat.ltb_spec (length key) 2) as [Hs|Hs].
  { rewrite decide_True by (by left). constructor; [|apply IH]. exists key. split; [done|]. split; [done|constructor]. }
  destruct (Nat.ltb_spec MAX_PHRASE_LENGTH (length key / 2)) as [Hb|Hb].
  - rewrite decide_True by (by right). constructor; [apply key_words|apply IH].
  - rewrite decide_False by (unfold over_long; lia). apply IH.
Qed.

Lemma from_entries_rows loaded :
  NoDup loaded.*1 -> (Z.of_nat (arena_size loaded) <= u32_max)%Z ->
  records_ok (from_entries loaded) /\ arena_rows (from_entries loaded) ≡ₚ loaded.
Proof.
  intros Hnd Hfit. destruct (from_entries_spec loaded Hnd Hfit) as [Hok Hrec]. split; [done|].
  apply NoDup_Permutation.
  - apply (NoDup_fmap_1 fst). apply ordered_keys_nodup, Hok.
  - by apply (NoDup_fmap_1 fst).
  - intros [k v]. rewrite <- arena_record_spec, <- Hrec by done. unfold record.
    assert (overlay (from_entries loaded) = []) as ->; [|done].
    apply (push_all_fold loaded records_new).
Qed.

Lemma overlong_loaded loaded sorted :
  sorted ≡ₚ loaded -> ordered_rows sorted -> (Z.of_nat (arena_size loaded) <= u32_max)%Z ->
  Forall2 words_of (filter over_long sorted.*1) (overlong_keys (index_from_entries loaded)).
Proof.
  intros Hp Hs Hfit.
  assert (Hnd : NoDup loaded.*1) by (rewrite <- Hp; by apply ordered_keys_nodup).
  destruct (from_entries_rows loaded Hnd Hfit) as [Hok Hrows].
  replace sorted with (arena_rows (records (index_from_entries loaded))); [apply overlong_arena|].
  apply (StronglySorted_unique_strong (fun e e' => bytes_lt e.1 e'.1)).
  - intros e e' _ _ Hlt Hgt. destruct (bytes_lt_self e.1). by transitivity e'.1.
  - apply Hok.
  - exact Hs.
  - by rewrite Hrows, Hp.
Qed.

(** No operation is made with no or too many syllables. *)
Lemma no_operation ix token (keys : list ChewingKey) epl :
  length_ok (length keys) = false ->
  add ix keys token = (ix, false) /\ remove ix keys token = (ix, false) /\
  contains_reading ix token (to_packed <$> keys) = false /\ search ix keys = [] /\ suggest ix keys = [] /\
  note_search epl ix keys = ix /\ note_suggestion epl ix keys = ix.
Proof.
  intros H. unfold add, remove, contains_reading, search, suggest, has_record, note_search, note_suggestion.
  rewrite length_fmap, H, !orb_true_r. done.
Qed.

Lemma matches_self keys : matches keys keys = true.
Proof.
  unfold matches. induction keys as [|k keys IH]; [done|]. cbn [zip zip_with forallb fst snd].
  rewrite IH, andb_true_r. unfold key_matches_with_tones. by rewrite !Z.eqb_refl.
Qed.

Lemma index_ok_new : index_ok index_new.
Proof.
  assert (Hnone : forall key, stored index_new key = []) by done.
  split; [split; [apply records_ok_new|done|done|]|intros key; rewrite Hnone; constructor|].
  - split; [done|]. intros len s Hs. cbn [slots index_new] in Hs.
    apply lookup_replicate in Hs as [-> _]. done.
  - intros key it. rewrite Hnone. by intros ?%not_elem_of_nil.
Qed.

(** C30. The user pinyin index is a table of readings, and per-length slots that
    hold what a back end keeps of the last row it loaded. Adding a reading
    stores it under its incomplete and its complete key and nothing else, says
    whether either lacked it, and the reading's own search then finds the token;
    removing takes it from the incomplete key and, if it was there, from the
    complete one, and succeeds exactly when it was under both and the two
    differ; either leaves in the slot of its length the row it edited last among
    those that were there. Membership asks either key; a search answers the
    stored readings that match with tones, in table order; suggestions are those
    of the keys beyond, whatever the presence test in front. A mask keeps the
    rows and the unselected readings of every key in order, exactly those where
    no entry is kept between records; where one is, they are followed by the
    unselected readings the entry of their length still holds past their number,
    an entry that starts as what the slot holds, takes what every row of its
    length keeps, and is left in the slot. The
    note of a search puts its row in the slot of its length when the row has
    readings, the note of a suggestion empties the slots of exactly the lengths
    with a row beyond it; neither touches a record, and neither does anything
    where no entry is kept. A merge adds the keys that are missing. A key of no
    or of too many syllables changes and answers nothing. The over-long keys of
    a loaded table are its rows without a whole word and those of more than 16,
    word by word and in key order, and a well-formed index has none. Every edit
    but the kept-entry mask keeps the sorted table, and that one its shape. *)
Theorem index_refines (ix : UserIndex) (keys : list ChewingKey) (token : Z) :
  index_ok ix -> length_ok (length keys) = true -> Forall packable keys -> is_u32 token ->
  let it := {| item_token := token; item_keys := keys |} in
  let inc := encode_incomplete_key keys in
  let com := encode_complete_key keys in
  let present key := is_some (record (records ix) key) in
  let slot key := <[length keys := SlotRecord key]> (slots ix) in
  (let out := add ix keys token in
   index_ok out.1 /\
   (forall k x, x ∈ stored out.1 k <-> x ∈ stored ix k \/ (k ∈ [inc; com] /\ x = it)) /\
   (out.2 = true <-> exists k, k ∈ [inc; com] /\ it ∉ stored ix k) /\
   token ∈ search out.1 keys /\
   slots out.1 = if bool_decide (inc = com) || present com then slot com else if present inc then slot inc else slots ix) /\
  (let out := remove ix keys token in
   index_ok out.1 /\
   (forall k x, x ∈ stored out.1 k <->
      x ∈ stored ix k /\ ~ (x = it /\ (k = inc \/ (k = com /\ it ∈ stored ix inc)))) /\
   (out.2 = true <-> it ∈ stored ix inc /\ it ∈ stored ix com /\ inc <> com) /\
   slots out.1 =
     if present inc then slot (if bool_decide (it ∈ stored ix inc) && present com then com else inc) else slots ix) /\
  (contains_reading ix token (to_packed <$> keys) = true
     <-> exists k, k ∈ [inc; com] /\ it ∈ stored ix k) /\
  search ix keys = matched keys (stored ix (query_key keys)) /\
  suggest ix keys =
    (filter (fun key => starts_with key (query_key keys) = true /\ length (query_key keys) < length key)
            (visited (records ix)).*1
       ≫= fun key => matched keys (stored ix key)) /\
  (forall epl mask masked,
     let out := index_mask epl ix mask masked in
     let kept keys := kept_upto epl mask masked (stored ix) keys (slot_items ix) in
     (Z.of_nat (length (arena (records out))) <= u32_max)%Z ->
     index_shape out /\
     (forall key, exists extra,
        stored out key = filter (fun it => Z.land (item_token it) mask <> masked) (stored ix key) ++ extra /\
        Forall (fun it => Z.land (item_token it) mask <> masked) extra /\ (epl = false -> extra = [])) /\
     (epl = false -> index_ok out) /\
     (forall key, is_some (record (records out) key) = present key) /\
     (forall before key after, (visited (records ix)).*1 = before ++ key :: after ->
        stored out key = kept_row epl mask masked (kept before) (length key / 2) (stored ix key)) /\
     (forall n, slots out !! n =
        if epl && (1 <=? n) && (n <=? MAX_PHRASE_LENGTH)
        then Some (chunk_slot (encode_items (kept (visited (records ix)).*1 n))) else slots ix !! n)) /\
  (forall epl, index_ok (note_search epl ix keys) /\ records (note_search epl ix keys) = records ix /\
     slots (note_search epl ix keys) =
       (if epl && negb (bool_decide (stored ix (query_key keys) = [])) then slot (query_key keys) else slots ix) /\
     index_ok (note_suggestion epl ix keys) /\ records (note_suggestion epl ix keys) = records ix /\
     forall n, let row_beyond := row_beyond ix (query_key keys) n in
       (epl = true -> row_beyond -> slots (note_suggestion epl ix keys) !! n = Some SlotEmpty) /\
       (epl = false \/ ~ row_beyond -> slots (note_suggestion epl ix keys) !! n = slots ix !! n)) /\
  (forall other, index_ok other -> index_ok (merge_missing ix other) /\ slots (merge_missing ix other) = slots ix /\
     forall key, stored (merge_missing ix other) key
       = if present key then stored ix key else stored other key) /\
  (forall (keys : list ChewingKey) epl, length_ok (length keys) = false ->
     add ix keys token = (ix, false) /\ remove ix keys token = (ix, false) /\
     contains_reading ix token (to_packed <$> keys) = false /\ search ix keys = [] /\ suggest ix keys = [] /\
     note_search epl ix keys = ix /\ note_suggestion epl ix keys = ix) /\
  overlong_keys ix = [] /\
  (forall loaded sorted, sorted ≡ₚ loaded -> ordered_rows sorted -> (Z.of_nat (arena_size loaded) <= u32_max)%Z ->
     Forall2 words_of (filter over_long sorted.*1) (overlong_keys (index_from_entries loaded))).
Proof.
  intros Hok Hlen Hp Ht it inc com present slot. pose proof (ok_shape ix Hok) as Hsh.
  pose proof (proj1 (length_ok_spec _) Hlen) as Hl.
  assert (Hit : index_item_ok (length keys) it) by done.
  destruct (index_add_spec keys token Hl Hit ix Hok) as (Ha1 & Ha2 & Ha3).
  destruct (remove_spec keys token Hl Hit ix Hok) as (Hr1 & Hr2 & Hr3).
  split; [split; [done|split; [exact Ha2|split; [exact Ha3|split; [|by apply add_slots]]]]|].
  { rewrite search_spec by (done || apply Ha1). apply list_elem_of_fmap. exists it. split; [done|].
    apply list_elem_of_filter. split; [apply matches_self|]. apply Ha2. right.
    split; [apply query_key_index|done]. }
  split; [split; [done|split; [exact Hr2|split; [exact Hr3|by apply remove_slots]]]|].
  split; [by apply contains_reading_spec|]. split; [by apply search_spec|]. split; [by apply suggest_spec|]. split.
  { intros epl mask masked out kept Hfit. destruct (index_mask_spec epl ix mask masked Hsh Hfit) as (H1 & H2 & H3).
    do 2 (split; [done|]). split; [intros He; by apply H3|]. by apply index_mask_exact. }
  split; [|split; [|split; [intros keys' epl; apply no_operation|split; [by apply no_overlong|apply overlong_loaded]]]].
  - intros epl. destruct (note_search_ok epl ix keys Hok), (note_suggestion_ok epl ix keys Hok).
    do 2 (split; [done|]). split; [by apply note_search_slots|]. do 2 (split; [done|]).
    intros n. by apply note_suggestion_slots.
  - intros other Ho. destruct (merge_missing_spec ix other Hok Ho). done.
Qed.

Lemma index_refines_witness :
  let keys := [mk_key 14 0 4 3; mk_key 11 0 9 3] in
  let ix := (add index_new keys 67108865).1 in
  length_ok (length keys) = true /\ Forall packable keys /\ is_u32 67108865 /\
  67108865%Z ∈ search ix keys /\
  suggest ix [mk_key 14 0 4 0] = [67108865%Z] /\
  slots (note_search true index_new keys) = slots index_new /\
  slots (note_search true ix keys) !! 2 = Some (SlotRecord (query_key keys)) /\
  slots (note_suggestion true (note_search true ix keys) [mk_key 14 0 4 0]) !! 2 = Some SlotEmpty /\
  overlong_keys (index_from_entries [(le_bytes 2 5, []); ([x01], [])]) = [[]].
Proof.
  cbv zeta.
  assert (Hp : Forall packable [mk_key 14 0 4 3; mk_key 11 0 9 3])
    by (repeat constructor; vm_compute; congruence).
  assert (Ht : is_u32 67108865) by (vm_compute; split; congruence).
  destruct (index_refines index_new [mk_key 14 0 4 3; mk_key 11 0 9 3] 67108865 index_ok_new eq_refl Hp Ht)
    as ((_ & _ & _ & H & _) & _ & _ & _ & _ & _ & Hnotes & _).
  do 3 (split; [done|]). split; [exact H|]. split; [vm_compute; reflexivity|].
  split; [exact (proj1 (proj2 (proj2 (Hnotes true))))|].
  split; [vm_compute; reflexivity|]. split; vm_compute; reflexivity.
Defined.
