(* ===== verification/UserTraining.v ===== *)
(** * UserTraining: what a selection does to the user bigram

    [crates/oxpinyin-user/src/seed.rs] and the gram half of [store.rs]: the
    seeds, one training or predicted step on a gram, the steps on the session's
    container, its counts, and the mask over its grams. The container is the
    trait [UserBigramDb] of [oxpinyin-store/src/lib.rs]; the phrase arena's
    [add_unigram_frequency] is a parameter that may refuse. *)

From Stdlib Require Import ZArith Lia Bool Strings.Byte.
From stdpp Require Import base list.
From S2P Require Import Prelude SingleGram UserRecords.

(** ** Seeds *)

Definition INITIAL_SEED : Z := 23 * 3.
Definition EXPAND_FACTOR : Z := 2.
Definition CEILING_SEED : Z := 23 * 15 * 64.
Definition UNIGRAM_FACTOR : Z := 7.

Definition training_seed (prev_count : option Z) : Z :=
  match prev_count with
  | None => INITIAL_SEED
  | Some freq => Z.min (wrap32 (Z.max (wrap32 freq) INITIAL_SEED * EXPAND_FACTOR)) CEILING_SEED
  end.

Definition predicted_seed : Z := INITIAL_SEED.

(** [u64::saturating_mul]. *)
Definition unigram_delta (seed : Z) : Z := Z.min (seed * UNIGRAM_FACTOR) (u64_size - 1).

(** ** One step on a gram *)

(** The errors these operations can answer; [Backend] stands for
    [Store(StoreError)]. *)
Inductive UserStoreError : Type :=
  | ShortUserBigramValue
  | PartialUserBigramTail
  | NonTokenUserBigramKey
  | ResidualUserBigramGram
  | TrainingSetFreqMiss
  | FailedUserBigramStore
  | UnigramTotalOverflow
  | Decode
  | Backend.

Definition trained_gram (row : option bytes) (cur : Z) : result (Z * option bytes) UserStoreError :=
  let gram := default new_gram row in
  match get_total_freq gram with
  | None => Err ShortUserBigramValue
  | Some total =>
      let entry :=
        match get_freq gram cur with
        | Some freq => Ok (gram, freq, training_seed (Some freq))
        | None =>
            let p := insert_freq gram cur 0 in
            if p.2 then Ok (p.1, 0%Z, INITIAL_SEED) else Err Decode
        end in
      match entry with
      | Err e => Err e
      | Ok (gram, freq, seed) =>
          let seed32 := wrap32 seed in
          if (0 <? seed32)%Z && (total +₃₂ seed32 <? total)%Z%M then Ok (seed, None)
          else
            let gram := set_total_freq gram (total +₃₂ seed32)%M in
            let p := set_freq gram cur (freq +₃₂ seed32)%M in
            if p.2 then Ok (seed, Some p.1) else Err TrainingSetFreqMiss
      end
  end.

Definition predicted_gram (row : option bytes) (cur : Z) : result bytes UserStoreError :=
  let seed := wrap32 predicted_seed in
  let gram := default new_gram row in
  match get_total_freq gram with
  | None => Err ShortUserBigramValue
  | Some total =>
      let p := match get_freq gram cur with
               | None => insert_freq gram cur seed
               | Some freq => set_freq gram cur (freq +₃₂ seed)%M
               end in
      if negb p.2 then Err Decode else Ok (set_total_freq p.1 (total +₃₂ seed)%M)
  end.

(** ** The container *)

(** [UserBigramDb]: point reads and writes by a key's bytes, the walk of the
    keys with [None] for one that is not four bytes, and the failed container
    of a back end that has one. *)
Class UserBigramDb (C : Type) : Type := {
  db_get : C -> bytes -> option bytes;
  db_store : C -> bytes -> bytes -> C * bool;
  db_remove : C -> bytes -> C;
  db_keys : C -> list (option bytes);
  is_failed : C -> bool
}.

Section store.
Context {C U : Type} `{UserBigramDb C}.
Context (arena_add_unigram : U -> Z -> Z -> U * bool).

(** [ContainerGrams]. *)
Definition grams_keys (db : C) : list (option Z) := map (option_map le_value) (db_keys db).

Definition container_gram (db : C) (prev : Z) : option bytes := db_get db (le32 prev).

Definition grams_store (db : C) (prev : Z) (gram : bytes) : C * bool := db_store db (le32 prev) gram.

Definition grams_remove (db : C) (prev : Z) : C := db_remove db (le32 prev).

(** The mask over the keys collected before it; the second answer tells
    whether a key remains. *)
Fixpoint mask_grams_over (db : C) (keys : list (option Z)) (mask value : Z) (remaining : bool)
    : C * result bool UserStoreError :=
  match keys with
  | [] => (db, Ok remaining)
  | None :: keys => mask_grams_over db keys mask value true
  | Some prev :: keys =>
      if (Z.land prev mask =? value)%Z then
        mask_grams_over (grams_remove db prev) keys mask value remaining
      else
        match container_gram db prev with
        | None => mask_grams_over db keys mask value remaining
        | Some gram =>
            let p := mask_out gram mask value in
            if (p.2 =? 0)%Z then mask_grams_over db keys mask value true
            else if get_length p.1 =? 0 then
              mask_grams_over (grams_remove db prev) keys mask value remaining
            else
              let q := grams_store db prev p.1 in
              if q.2 then mask_grams_over q.1 keys mask value true else (q.1, Err Backend)
        end
  end.

Fixpoint gram_mask_fault_each (db : C) (keys : list Z) (mask value : Z) : option UserStoreError :=
  match keys with
  | [] => None
  | prev :: keys =>
      if (Z.land prev mask =? value)%Z then gram_mask_fault_each db keys mask value
      else
        match container_gram db prev with
        | None => gram_mask_fault_each db keys mask value
        | Some gram =>
            if length gram <? TOTAL_LEN then Some ShortUserBigramValue
            else if has_partial_tail gram then Some PartialUserBigramTail
            else
              let p := mask_out gram mask value in
              if (0 <? p.2)%Z && (get_length p.1 =? 0) &&
                 negb (bool_decide (get_total_freq p.1 = Some 0%Z))
              then Some ResidualUserBigramGram
              else gram_mask_fault_each db keys mask value
        end
  end.

Definition gram_mask_fault_over (db : C) (keys : list (option Z)) (mask value : Z)
    : option UserStoreError :=
  if existsb (fun key => match key with None => true | Some _ => false end) keys
  then Some NonTokenUserBigramKey
  else gram_mask_fault_each db (omap id keys) mask value.

Definition has_residual_bigram_gram (db : C) (mask value : Z) : bool :=
  match gram_mask_fault_over db (grams_keys db) mask value with
  | Some ResidualUserBigramGram => true
  | _ => false
  end.

(** ** The session's bigram state *)

Inductive SeedPolicy : Type :=
  | Training
  | Predicted.

Record BigramState : Type := {
  bigram_db : C;
  phrases : U;
  has_user_data : bool;
  write_generation : Z
}.

Definition bigram_row (s : BigramState) (prev : Z) : option bytes :=
  if negb (has_user_data s) then None else container_gram (bigram_db s) prev.

Definition bigram_count (s : BigramState) (prev cur : Z) : Z :=
  default 0%Z (bigram_row s prev ≫= fun gram => get_freq gram cur).

Definition bigram_total (s : BigramState) (prev : Z) : Z :=
  default 0%Z (bigram_row s prev ≫= get_total_freq).

Definition has_short_bigram_value_for (s : BigramState) (token : Z) : bool :=
  match bigram_row s token with Some value => length value <? TOTAL_LEN | None => false end.

Definition has_non_token_bigram_key (s : BigramState) : bool :=
  existsb (fun key => match key with None => true | Some _ => false end) (grams_keys (bigram_db s)).

Definition has_empty_bigram_gram_for (s : BigramState) (token : Z) : bool :=
  match bigram_row s token with
  | Some value =>
      (get_length value =? 0) &&
      match get_total_freq value with Some total => negb (total =? 0)%Z | None => false end
  | None => false
  end.

Definition has_oob_bigram_value_for (s : BigramState) (token : Z) : bool :=
  match bigram_row s token with Some value => has_partial_tail value | None => false end.

(** The generation is an [AtomicU64]. *)
Definition mark_committed_write (s : BigramState) (data : bool) : BigramState :=
  {| bigram_db := bigram_db s; phrases := phrases s; has_user_data := data;
     write_generation := (write_generation s + 1) mod u64_size |}.

Definition store_gram (s : BigramState) (prev : Z) (gram : bytes) : BigramState * bool :=
  let q := grams_store (bigram_db s) prev gram in
  ({| bigram_db := q.1; phrases := phrases s; has_user_data := has_user_data s;
      write_generation := write_generation s |}, q.2).

Definition add_unigram (s : BigramState) (token delta : Z) : BigramState * bool :=
  let q := arena_add_unigram (phrases s) token delta in
  ({| bigram_db := bigram_db s; phrases := q.1; has_user_data := has_user_data s;
      write_generation := write_generation s |}, q.2).

(** [u32::try_from], or the largest. *)
Definition clamp32 (n : Z) : Z := Z.min n u32_max.

(** The step of [update] once the row is whole: the unigram add, the store,
    the commit and the answer. *)
Definition commit_step (s : BigramState) (last cur : Z) (policy : SeedPolicy) (seed : Z)
    (gram : option bytes) : BigramState * result Z UserStoreError :=
  let a := add_unigram s cur (clamp32 (unigram_delta seed)) in
  let accepted := match policy with Predicted => a.2 | Training => true end in
  let st := match gram with
            | Some gram => if accepted then store_gram a.1 last gram else (a.1, true)
            | None => (a.1, true)
            end in
  let s := mark_committed_write st.1 true in
  let answer := if negb accepted then Err UnigramTotalOverflow else Ok seed in
  if st.2 then (s, answer)
  else if is_failed (bigram_db s) then
    match policy with Training => (s, Err FailedUserBigramStore) | Predicted => (s, answer) end
  else (s, Err Backend).

Definition update (s : BigramState) (last cur : Z) (policy : SeedPolicy)
    : BigramState * result Z UserStoreError :=
  let row := container_gram (bigram_db s) last in
  if match row with Some gram => has_partial_tail gram | None => false end
  then (s, Err PartialUserBigramTail)
  else if match row with Some gram => length gram <? TOTAL_LEN | None => false end then
    match policy with
    | Training => (s, Err ShortUserBigramValue)
    | Predicted =>
        let a := add_unigram s cur (clamp32 (unigram_delta predicted_seed)) in
        let s := mark_committed_write a.1 true in
        if negb a.2 then (s, Err UnigramTotalOverflow) else (s, Err ShortUserBigramValue)
    end
  else
    match policy with
    | Training =>
        match trained_gram row cur with
        | Err e => (s, Err e)
        | Ok p => commit_step s last cur policy p.1 p.2
        end
    | Predicted =>
        match predicted_gram row cur with
        | Err e => (s, Err e)
        | Ok gram => commit_step s last cur policy predicted_seed (Some gram)
        end
    end.

Definition observe_predicted_prefix (s : BigramState) (cur : Z) : BigramState * result Z UserStoreError :=
  let a := add_unigram s cur (wrap32 (unigram_delta predicted_seed)) in
  (mark_committed_write a.1 true,
   if negb a.2 then Err UnigramTotalOverflow else Ok predicted_seed).

Definition set_bigram_count (s : BigramState) (prev cur count : Z)
    : BigramState * result unit UserStoreError :=
  let gram := match container_gram (bigram_db s) prev with
              | Some gram => if TOTAL_LEN <=? length gram then gram else new_gram
              | None => new_gram
              end in
  let count32 := clamp32 count in
  let total := default 0%Z (get_total_freq gram) in
  let old := get_freq gram cur in
  let p := match old with
           | Some _ => set_freq gram cur count32
           | None => insert_freq gram cur count32
           end in
  if negb p.2 then (s, Err Decode)
  else
    let new_total := Z.min (Z.max 0 (total - default 0%Z old) + count32) u32_max in
    let st := store_gram s prev (set_total_freq p.1 new_total) in
    if st.2 then (mark_committed_write st.1 true, Ok tt) else (st.1, Err Backend).

(** ** The check of a training call *)

(** [FailedStore] is the source's [FailedUserBigramStore], a name the errors
    have too. *)
Inductive TrainingFault : Type :=
  | ShortValue (prev : Z)
  | PartialTail (prev : Z)
  | SetFreqMiss (prev : Z)
  | FailedStore (prev : Z).

(** The map of replayed grams is the list of its inserts, latest first. *)
Record TrainingCheck : Type := {
  replayed : list (Z * option bytes);
  fault : option TrainingFault
}.

Definition check_new : TrainingCheck := {| replayed := []; fault := None |}.

Definition replayed_row (check : TrainingCheck) (prev : Z) : option (option bytes) :=
  snd <$> List.find (fun e => (e.1 =? prev)%Z) (replayed check).

Definition check_training_step_with (s : BigramState) (check : TrainingCheck) (prev cur : Z)
    : TrainingCheck * result unit UserStoreError :=
  let faulty f := {| replayed := replayed check; fault := Some f |} in
  if is_failed (bigram_db s) then (faulty (FailedStore prev), Err FailedUserBigramStore)
  else
    let row := match replayed_row check prev with Some row => row | None => bigram_row s prev end in
    let malformed :=
      match row with
      | Some gram =>
          if length gram <? TOTAL_LEN then Some (ShortValue prev, ShortUserBigramValue)
          else if has_partial_tail gram then Some (PartialTail prev, PartialUserBigramTail)
          else None
      | None => None
      end in
    match malformed with
    | Some p => (faulty p.1, Err p.2)
    | None =>
        match trained_gram row cur with
        | Ok p => ({| replayed := (prev, match p.2 with Some g => Some g | None => row end) :: replayed check;
                      fault := fault check |}, Ok tt)
        | Err TrainingSetFreqMiss => (faulty (SetFreqMiss prev), Err TrainingSetFreqMiss)
        | Err e => (check, Err e)
        end
    end.
End store.
