(* ===== verification/UserTrainingSpec.v ===== *)
(** * UserTrainingSpec: training keeps a gram's books

    A gram whose total is the sum of its frequencies takes a training step
    without wrapping: the guard on the total protects every frequency too.
    Repeating a selection raises its count until the guard or the seed stops
    it, and a training call that passes its check stores what the check
    replayed. *)

From Stdlib Require Import ZArith Lia Bool Strings.Byte.
From stdpp Require Import base list gmap sorting.
From S2P Require Import Prelude SingleGram GramSpec UserTraining.

(** ** Grams whose total is the sum of their frequencies *)

Definition gram_holds (g : bytes) (t : Z) (m : gmap Z Z) : Prop :=
  gram_rel g (t, m) /\ map_freq_sum m = t.

Definition row_holds (row : option bytes) (t : Z) (m : gmap Z Z) : Prop :=
  gram_holds (default new_gram row) t m.

Definition room (row : option bytes) : Prop :=
  (Z.of_nat (length (default new_gram row)) + 16 <= isize_max)%Z.

Lemma freq_sum_cons it its : freq_sum (it :: its) = (it.2 + freq_sum its)%Z.
Proof. done. Qed.

Lemma map_freq_sum_insert_new m k v :
  m !! k = None -> map_freq_sum (<[k:=v]> m) = (map_freq_sum m + v)%Z.
Proof.
  intros H. unfold map_freq_sum. rewrite (freq_sum_perm _ _ (map_to_list_insert m k v H)), freq_sum_cons.
  cbn [snd]. lia.
Qed.

Lemma map_freq_sum_delete m k : (map_freq_sum (delete k m) = map_freq_sum m - default 0 (m !! k))%Z.
Proof.
  destruct (m !! k) as [c|] eqn:E.
  - pose proof (map_freq_sum_insert_new (delete k m) k c (lookup_delete_eq m k)) as H.
    rewrite insert_delete_id in H by done. change (default 0%Z (Some c)) with c. lia.
  - rewrite delete_id by done. change (default 0%Z None) with 0%Z. lia.
Qed.

Lemma map_freq_sum_insert m k v :
  map_freq_sum (<[k:=v]> m) = (map_freq_sum m - default 0 (m !! k) + v)%Z.
Proof.
  rewrite <- insert_delete_eq, map_freq_sum_insert_new, map_freq_sum_delete by apply lookup_delete_eq. lia.
Qed.

Lemma gram_rel_u32 g t m : gram_rel g (t, m) -> is_u32 t /\ forall k f, m !! k = Some f -> is_u32 f.
Proof.
  intros (its & _ & [Ht Hits _ _] & Hord & Hm). cbn [fst snd] in *. split; [done|]. intros k f Hk.
  assert (Hin : (k, f) ∈ map_to_list m) by by apply elem_of_map_to_list.
  rewrite Hm, row_map_perm in Hin by done. rewrite Forall_forall in Hits. by apply Hits in Hin as [_ ?].
Qed.

Lemma map_freq_sum_nonneg m : (forall k f, m !! k = Some f -> is_u32 f) -> (0 <= map_freq_sum m)%Z.
Proof.
  induction m as [|k f m Hk IH] using map_ind; intros H; [done|].
  rewrite map_freq_sum_insert_new by done.
  assert (is_u32 f) by (apply (H k); apply lookup_insert_eq).
  assert (0 <= map_freq_sum m)%Z; [|unfold is_u32 in *; lia].
  apply IH. intros k' f' Hk'. apply (H k'). rewrite lookup_insert_ne; [done|]. intros ->. congruence.
Qed.

(** No frequency exceeds the total. *)
Lemma freq_le_total g t m k f : gram_holds g t m -> m !! k = Some f -> (0 <= f <= t)%Z.
Proof.
  intros [Hrel Hsum] Hk. destruct (gram_rel_u32 g t m Hrel) as [_ Hu]. pose proof (Hu k f Hk).
  rewrite <- Hsum, <- (insert_delete_id m k f Hk), map_freq_sum_insert_new by apply lookup_delete_eq.
  assert (0 <= map_freq_sum (delete k m))%Z; [|unfold is_u32 in *; lia].
  apply map_freq_sum_nonneg. intros k' f' Hk'. apply lookup_delete_Some in Hk' as [_ Hk']. by apply (Hu k').
Qed.

Lemma new_gram_holds : gram_holds new_gram 0 ∅.
Proof. split; [apply gram_rel_new|done]. Qed.

Section step.
Context (g : bytes) (t : Z) (m : gmap Z Z).
Context (Hrel : gram_rel g (t, m)) (Hroom : (Z.of_nat (length g) + 8 <= isize_max)%Z).

Lemma rel_total : get_total_freq g = Some t.
Proof using All.
  destruct (gram_step_sim GetTotal g (t, m) Hrel I Hroom) as [_ H].
  unfold gram_step, byte_store, spec_store in H. cbn [snd] in H. congruence.
Qed.

Lemma rel_freq k : is_u32 k -> get_freq g k = m !! k.
Proof using All.
  intros Hk. destruct (gram_step_sim (GetFreq k) g (t, m) Hrel Hk Hroom) as [_ H].
  unfold gram_step, byte_store, spec_store in H. cbn [snd] in H. congruence.
Qed.

Lemma rel_set_total t' : is_u32 t' -> gram_rel (set_total_freq g t') (t', m).
Proof using All. intros Ht. apply (gram_step_sim (SetTotal t') g (t, m) Hrel Ht Hroom). Qed.

Lemma rel_insert k v : is_u32 k -> is_u32 v -> m !! k = None ->
  exists g', insert_freq g k v = (g', true) /\ gram_rel g' (t, <[k:=v]> m).
Proof using All.
  intros Hk Hv Hn. destruct (gram_step_sim (InsertFreq k v) g (t, m) Hrel (conj Hk Hv) Hroom) as [H1 H2].
  unfold gram_step, byte_store, spec_store in H1, H2. rewrite Hn in H1, H2.
  destruct (insert_freq g k v) as [g' b]. cbn [fst snd] in *. exists g'. split; [congruence|done].
Qed.

Lemma rel_set k v : is_u32 k -> is_u32 v -> is_Some (m !! k) ->
  exists g', set_freq g k v = (g', true) /\ gram_rel g' (t, <[k:=v]> m).
Proof using All.
  intros Hk Hv [f Hf]. destruct (gram_step_sim (SetFreq k v) g (t, m) Hrel (conj Hk Hv) Hroom) as [H1 H2].
  unfold gram_step, byte_store, spec_store in H1, H2. rewrite Hf in H1, H2.
  destruct (set_freq g k v) as [g' b]. cbn [fst snd] in *. exists g'. split; [congruence|done].
Qed.
End step.

Lemma rel_length_insert g t m g' t' k v :
  gram_rel g (t, m) -> gram_rel g' (t', <[k:=v]> m) -> length g' <= length g + 8.
Proof.
  intros H H'. rewrite (gram_rel_length _ _ H), (gram_rel_length _ _ H'). cbn [snd].
  rewrite map_size_insert. destruct (m !! k); cbn; lia.
Qed.

(** ** Seeds *)

Lemma training_seed_range f :
  is_u32 f -> (0 <= training_seed (Some f) <= CEILING_SEED)%Z /\
    ((f < 2147483648)%Z -> training_seed (Some f) = Z.min (2 * Z.max f INITIAL_SEED) CEILING_SEED) /\
    (training_seed (Some f) = 0%Z <-> f = 2147483648%Z).
Proof.
  intros Hf. unfold training_seed, is_u32 in *. rewrite (wrap32_small f) by done.
  change INITIAL_SEED with 69%Z. change CEILING_SEED with 22080%Z. change EXPAND_FACTOR with 2%Z.
  unfold wrap32. change u32_size with 4294967296%Z in *.
  destruct (Z.max_spec f 69) as [[? ->]|[? ->]]; [change (69 * 2 mod 4294967296)%Z with 138%Z; lia|].
  destruct (decide (f < 2147483648)%Z) as [H1|H1].
  - rewrite Z.mod_small by lia. lia.
  - replace (f * 2)%Z with (2 * f - 4294967296 + 1 * 4294967296)%Z by lia.
    rewrite Z.mod_add, Z.mod_small by lia. lia.
Qed.

Definition seed_of (m : gmap Z Z) (cur : Z) : Z := training_seed (m !! cur).

Definition frequency (m : gmap Z Z) (cur : Z) : Z := default 0%Z (m !! cur).

(** The step would carry the total past its width. *)
Definition refused (t seed : Z) : Prop := (0 < seed /\ u32_size <= t + seed)%Z.

#[local] Instance refused_dec t seed : Decision (refused t seed).
Proof. unfold refused. apply _. Defined.

Lemma seed_of_range g t m cur : gram_holds g t m -> (0 <= seed_of m cur <= CEILING_SEED)%Z.
Proof.
  intros Hg. unfold seed_of. destruct (m !! cur) as [f|] eqn:E; [|done].
  destruct (gram_rel_u32 g t m (proj1 Hg)) as [_ Hu]. by apply training_seed_range, (Hu cur).
Qed.

Lemma seed_floor g t m cur :
  gram_holds g t m -> (frequency m cur < 2147483648)%Z -> (INITIAL_SEED <= seed_of m cur)%Z.
Proof.
  intros Hg Hf. unfold seed_of, frequency in *. destruct (m !! cur) as [f|] eqn:E; [|done].
  destruct (gram_rel_u32 g t m (proj1 Hg)) as [_ Hu]. change (default 0%Z (Some f)) with f in Hf.
  destruct (training_seed_range f (Hu cur f E)) as (_ & Hs & _). rewrite Hs by done.
  change INITIAL_SEED with 69%Z. change CEILING_SEED with 22080%Z. lia.
Qed.

Lemma holds_insert g t m cur v :
  gram_rel g (t, <[cur:=v]> m) -> t = (map_freq_sum m - frequency m cur + v)%Z ->
  gram_holds g t (<[cur:=v]> m).
Proof. intros H ->. split; [done|]. apply map_freq_sum_insert. Qed.

Lemma wrap32_fits z : (0 <= z < u32_size)%Z -> wrap32 z = z.
Proof. apply wrap32_small. Qed.

Lemma frequency_le g t m cur : gram_holds g t m -> (0 <= frequency m cur <= t)%Z.
Proof.
  intros Hg. unfold frequency. destruct (m !! cur) as [f|] eqn:E; [by apply (freq_le_total g t m cur)|].
  destruct Hg as [Hrel _]. destruct (gram_rel_u32 g t m Hrel) as [Ht _]. unfold is_u32 in Ht.
  change (default 0%Z None) with 0%Z. lia.
Qed.

(** The last writes of a step, on the gram that holds the pair. *)
Lemma set_pair g t m cur seed :
  gram_rel g (t, m) -> (Z.of_nat (length g) + 8 <= isize_max)%Z -> is_u32 cur -> is_Some (m !! cur) ->
  is_u32 (t + seed) -> is_u32 (frequency m cur + seed) ->
  exists g', set_freq (set_total_freq g (t + seed)) cur (frequency m cur + seed) = (g', true) /\
    gram_rel g' ((t + seed)%Z, <[cur := (frequency m cur + seed)%Z]> m).
Proof.
  intros Hrel Hroom Hcur Hm Ht Hf.
  pose proof (rel_set_total g t m Hrel Hroom _ Ht) as Hrel'.
  assert (Hlen : length (set_total_freq g (t + seed)) = length g).
  { rewrite (gram_rel_length _ _ Hrel), (gram_rel_length _ _ Hrel'). done. }
  apply (rel_set _ _ m Hrel'); [by rewrite Hlen|done..].
Qed.

Lemma trained_gram_spec row t m cur :
  row_holds row t m -> room row -> is_u32 cur ->
  let seed := seed_of m cur in
  if decide (refused t seed) then trained_gram row cur = Ok (seed, None)
  else exists g', trained_gram row cur = Ok (seed, Some g') /\
         gram_holds g' (t + seed) (<[cur := (frequency m cur + seed)%Z]> m).
Proof.
  intros Hrow Hroom Hcur seed. pose proof (seed_of_range _ t m cur Hrow) as Hseed. fold seed in Hseed.
  assert (Hc : (CEILING_SEED < u32_size)%Z) by done.
  unfold row_holds, room in *. set (g := default new_gram row) in *. pose proof Hrow as [Hrel Hsum].
  assert (Hroom8 : (Z.of_nat (length g) + 8 <= isize_max)%Z) by lia.
  destruct (gram_rel_u32 g t m Hrel) as [Ht Hu]. pose proof (frequency_le g t m cur Hrow) as Hfle.
  assert (Hs32 : wrap32 seed = seed).
  { apply wrap32_fits. lia. }
  unfold trained_gram. fold g. rewrite (rel_total g t m Hrel Hroom8).
  rewrite (rel_freq g t m Hrel Hroom8 cur Hcur).
  assert (Hguard : forall (x y : result (Z * option bytes) UserStoreError),
    (if (0 <? seed)%Z && (wrapping_add32 t seed <? t)%Z then x else y)
    = if decide (refused t seed) then x else y).
  { intros x y. unfold refused, wrapping_add32, is_u32 in *.
    destruct (decide (0 < seed /\ u32_size <= t + seed)%Z) as [[H1 H2]|Hno].
    - replace (t + seed)%Z with (t + seed - u32_size + 1 * u32_size)%Z by lia.
      unfold wrap32. rewrite Z.mod_add by done. rewrite Z.mod_small by lia.
      rewrite (proj2 (Z.ltb_lt _ _)) by lia. rewrite (proj2 (Z.ltb_lt _ _)) by lia.
      done.
    - destruct (Z.ltb_spec 0 seed); [|done]. rewrite wrap32_fits by lia.
      by rewrite (proj2 (Z.ltb_ge _ _)) by lia. }
  destruct (decide (refused t seed)) as [Href|Hacc].
  all: assert (Hadd : ~ refused t seed -> is_u32 (t + seed) /\ is_u32 (frequency m cur + seed))
    by (unfold refused, is_u32 in *; destruct (decide (0 < seed)%Z); lia).
  - destruct (m !! cur) as [f|] eqn:E.
    + change (training_seed (Some f)) with (training_seed (Some f)).
      assert (Hsd : training_seed (Some f) = seed) by (unfold seed, seed_of; by rewrite E).
      rewrite Hsd, Hs32, Hguard. done.
    + assert (Hsd : INITIAL_SEED = seed) by (unfold seed, seed_of; by rewrite E).
      destruct (rel_insert g t m Hrel Hroom8 cur 0) as (g1 & -> & _); [done|done|done|]. cbn [fst snd].
      rewrite Hsd, Hs32, Hguard. done.
  - specialize (Hadd Hacc) as [Ha1 Ha2].
    assert (Hw1 : wrapping_add32 t seed = (t + seed)%Z) by (by apply wrap32_fits).
    assert (Hw2 : wrapping_add32 (frequency m cur) seed = (frequency m cur + seed)%Z) by (by apply wrap32_fits).
    destruct (m !! cur) as [f|] eqn:E.
    + assert (Hsd : training_seed (Some f) = seed) by (unfold seed, seed_of; by rewrite E).
      assert (Hf : f = frequency m cur) by (unfold frequency; by rewrite E).
      rewrite Hsd, Hs32, Hguard, Hf, Hw1, Hw2.
      destruct (set_pair g t m cur seed) as (g' & -> & Hg'); [done|done|done|by rewrite E|done|done|].
      exists g'. split; [done|]. apply holds_insert; [done|lia].
    + assert (Hsd : INITIAL_SEED = seed) by (unfold seed, seed_of; by rewrite E).
      assert (Hf : frequency m cur = 0%Z) by (unfold frequency; by rewrite E).
      destruct (rel_insert g t m Hrel Hroom8 cur 0) as (g1 & -> & Hg1); [done|done|done|]. cbn [fst snd].
      rewrite Hf in Hw2. rewrite Hsd, Hs32, Hguard, Hw1, Hw2.
      pose proof (rel_length_insert _ _ _ _ _ _ _ Hrel Hg1) as Hl1.
      assert (Hf1 : frequency (<[cur:=0%Z]> m) cur = 0%Z) by (unfold frequency; by rewrite lookup_insert_eq).
      destruct (set_pair g1 t (<[cur:=0%Z]> m) cur seed) as (g' & Hset & Hg');
        [done|lia|done|rewrite lookup_insert_eq; by eexists|done|by rewrite Hf1, <- Hf|].
      rewrite Hf1 in Hset, Hg'. rewrite Hset. exists g'. split; [done|]. rewrite Hf.
      rewrite insert_insert_eq in Hg'. apply holds_insert; [done|]. rewrite Hf. lia.
Qed.

Lemma predicted_gram_spec row t m cur :
  row_holds row t m -> room row -> is_u32 cur ->
  exists g', predicted_gram row cur = Ok g' /\
    gram_rel g' (wrap32 (t + predicted_seed), <[cur := wrap32 (frequency m cur + predicted_seed)]> m).
Proof.
  intros Hrow Hroom Hcur. unfold row_holds, room in *. set (g := default new_gram row) in *.
  pose proof Hrow as [Hrel _]. assert (Hroom8 : (Z.of_nat (length g) + 8 <= isize_max)%Z) by lia.
  unfold predicted_gram. fold g. rewrite (rel_total g t m Hrel Hroom8), (rel_freq g t m Hrel Hroom8 cur Hcur).
  change (wrap32 predicted_seed) with predicted_seed.
  assert (Hp : exists g1, match m !! cur with
       | Some freq => set_freq g cur (wrapping_add32 freq predicted_seed)
       | None => insert_freq g cur predicted_seed end = (g1, true) /\
       gram_rel g1 (t, <[cur := wrap32 (frequency m cur + predicted_seed)]> m)).
  { unfold frequency. destruct (m !! cur) as [f|] eqn:E.
    - apply (rel_set g t m Hrel Hroom8); [done|apply wrap32_range|by rewrite E].
    - by apply (rel_insert g t m Hrel Hroom8). }
  destruct Hp as (g1 & -> & Hg1). cbn [fst snd negb]. eexists. split; [done|].
  pose proof (rel_length_insert _ _ _ _ _ _ _ Hrel Hg1). apply (rel_set_total g1 t); [done|lia|apply wrap32_range].
Qed.

(** ** Repeating a selection *)

(** What the container holds after a training step. *)
Definition train_row (row : option bytes) (cur : Z) : option bytes :=
  match trained_gram row cur with Ok (_, Some g) => Some g | _ => row end.

Fixpoint trains (n : nat) (row : option bytes) (cur : Z) : option bytes :=
  match n with O => row | S n => trains n (train_row row cur) cur end.

Definition count_of (row : option bytes) (cur : Z) : Z := default 0%Z (get_freq (default new_gram row) cur).

Lemma count_of_holds row t m cur :
  row_holds row t m -> room row -> is_u32 cur -> count_of row cur = frequency m cur.
Proof.
  intros [Hrel _] Hroom Hcur. unfold count_of, room in *. rewrite (rel_freq _ t m Hrel) by (done || lia). done.
Qed.

Lemma train_row_spec row t m cur :
  row_holds row t m -> room row -> is_u32 cur ->
  let seed := seed_of m cur in
  (refused t seed /\ train_row row cur = row) \/
  (~ refused t seed /\ row_holds (train_row row cur) (t + seed) (<[cur := (frequency m cur + seed)%Z]> m)).
Proof.
  intros Hrow Hroom Hcur seed. pose proof (trained_gram_spec row t m cur Hrow Hroom Hcur) as H.
  cbv zeta in H. fold seed in H. unfold train_row. destruct (decide (refused t seed)).
  - left. by rewrite H.
  - right. destruct H as (g' & -> & Hg'). done.
Qed.

(** From the second step on a row keeps its length. *)
Definition long_room (row : option bytes) (m : gmap Z Z) (cur : Z) : Prop :=
  (Z.of_nat (length (default new_gram row)) + (if decide (is_Some (m !! cur)) then 16 else 24) <= isize_max)%Z.

Lemma long_room_room row m cur : long_room row m cur -> room row.
Proof. unfold long_room, room. case_decide; lia. Qed.

Lemma long_room_step row t m cur t' v row' :
  row_holds row t m -> row_holds row' t' (<[cur:=v]> m) -> long_room row m cur ->
  long_room row' (<[cur:=v]> m) cur.
Proof.
  intros [H _] [H' _] Hl. unfold long_room in *.
  rewrite decide_True by (rewrite lookup_insert_eq; by eexists).
  rewrite (gram_rel_length _ _ H) in Hl. rewrite (gram_rel_length _ _ H'). cbn [snd] in *.
  rewrite map_size_insert. destruct (m !! cur) as [f|] eqn:E.
  - rewrite decide_True in Hl by by eexists. cbn. lia.
  - rewrite decide_False in Hl by (by intros [? ?]). cbn. lia.
Qed.

(** No further training changes the row. *)
Definition settled (row : option bytes) (cur t : Z) (m : gmap Z Z) : Prop :=
  forall j, row_holds (trains j row cur) t m.

Lemma refused_settled row t m cur :
  row_holds row t m -> room row -> is_u32 cur -> refused t (seed_of m cur) -> settled row cur t m.
Proof.
  intros Hrow Hroom Hcur Href j. assert (Heq : trains j row cur = row); [|by rewrite Heq].
  destruct (train_row_spec row t m cur Hrow Hroom Hcur) as [[_ Ht]|[Hn _]]; [|done].
  induction j as [|j IH]; [done|]. cbn [trains]. by rewrite Ht.
Qed.

Lemma zero_seed_settled row t m cur :
  row_holds row t m -> long_room row m cur -> is_u32 cur -> is_Some (m !! cur) -> seed_of m cur = 0%Z ->
  settled row cur t m.
Proof.
  intros Hrow Hroom Hcur [f Hf] Hs j. revert row Hrow Hroom.
  induction j as [|j IH]; intros row Hrow Hroom; [done|]. cbn [trains].
  destruct (train_row_spec row t m cur Hrow (long_room_room _ _ _ Hroom) Hcur) as [[[H _] _]|[_ H]]; [lia|].
  pose proof (long_room_step _ _ _ _ _ _ _ Hrow H Hroom) as Hr. cbv zeta in H, Hr. rewrite Hs in H, Hr.
  replace (<[cur:=(frequency m cur + 0)%Z]> m) with m in H, Hr.
  - rewrite Z.add_0_r in H. by apply IH.
  - unfold frequency. rewrite Hf. change (default 0%Z (Some f)) with f.
    rewrite Z.add_0_r. symmetry. by apply insert_id.
Qed.

Lemma seed_of_zero row t m cur :
  row_holds row t m -> seed_of m cur = 0%Z -> m !! cur = Some 2147483648%Z.
Proof.
  intros [Hrel _] Hs. unfold seed_of in Hs. destruct (m !! cur) as [f|] eqn:E; [|done].
  destruct (gram_rel_u32 _ t m Hrel) as [_ Hu]. by apply (training_seed_range f (Hu cur f E)) in Hs as ->.
Qed.

(** Where repetition ends, and the way there. *)
Definition ends_at (row : option bytes) (m : gmap Z Z) (cur : Z) (n : nat) (t' : Z) (m' : gmap Z Z) : Prop :=
  settled (trains n row cur) cur t' m' /\
  (refused t' (seed_of m' cur) \/ frequency m' cur = 2147483648%Z) /\
  (forall k, k <> cur -> m' !! k = m !! k) /\
  (forall i, i < n -> (count_of (trains i row cur) cur < count_of (trains (S i) row cur) cur)%Z).

Lemma trains_end fuel row t m cur :
  row_holds row t m -> long_room row m cur -> is_u32 cur -> (u32_size - t <= Z.of_nat fuel)%Z ->
  exists n t' m', ends_at row m cur n t' m'.
Proof.
  revert row t m. induction fuel as [|fuel IH]; intros row t m Hrow Hlong Hcur Hfuel.
  { destruct Hrow as [Hrel _]. destruct (gram_rel_u32 _ t m Hrel) as [Ht _]. unfold is_u32 in Ht. lia. }
  pose proof (long_room_room _ _ _ Hlong) as Hroom.
  pose proof (seed_of_range _ t m cur Hrow) as Hseed.
  destruct (train_row_spec row t m cur Hrow Hroom Hcur) as [[Href _]|[Hacc Hstep]].
  { exists 0, t, m. split; [by apply refused_settled|]. split; [by left|]. split; [done|]. lia. }
  destruct (decide (seed_of m cur = 0%Z)) as [Hz|Hnz].
  { pose proof (seed_of_zero row t m cur Hrow Hz) as Hf. exists 0, t, m.
    split; [apply zero_seed_settled; [done|done|done|by rewrite Hf|done]|].
    split; [right; unfold frequency; by rewrite Hf|]. split; [done|]. lia. }
  pose proof (long_room_step _ _ _ _ _ _ _ Hrow Hstep Hlong) as Hlong'.
  destruct (IH _ _ _ Hstep Hlong' Hcur) as (n & t' & m' & Hset & Hend & Hother & Hmono); [lia|].
  exists (S n), t', m'. split; [exact Hset|]. split; [exact Hend|]. split.
  - intros k Hk. rewrite Hother by done. by apply lookup_insert_ne.
  - intros [|i] Hi; [|apply (Hmono i); lia]. cbn [trains].
    rewrite (count_of_holds row t m cur Hrow Hroom Hcur).
    rewrite (count_of_holds _ _ _ cur Hstep (long_room_room _ _ _ Hlong') Hcur).
    unfold frequency at 2. rewrite lookup_insert_eq. change (default 0%Z (Some ?x)) with x.
    cbn [default]. unfold from_option, id. lia.
Qed.

Lemma others_bound m cur k f :
  (forall k f, m !! k = Some f -> is_u32 f) -> k <> cur -> m !! k = Some f ->
  (f <= map_freq_sum m - frequency m cur)%Z.
Proof.
  intros Hu Hk Hf. pose proof (map_freq_sum_delete m cur) as Hd. fold (frequency m cur) in Hd.
  rewrite <- Hd. assert (Hkd : delete cur m !! k = Some f) by (by rewrite lookup_delete_ne).
  pose proof (map_freq_sum_insert_new (delete k (delete cur m)) k f (lookup_delete_eq _ k)) as H.
  rewrite insert_delete_id in H by done.
  assert (0 <= map_freq_sum (delete k (delete cur m)))%Z; [|lia].
  apply map_freq_sum_nonneg. intros k' f' Hk'. apply lookup_delete_Some in Hk' as [_ Hk'].
  apply lookup_delete_Some in Hk' as [_ Hk']. by apply (Hu k').
Qed.

(** C32. Learning wins in the end. Repeating one selection on a row whose
    total is the sum of its frequencies raises the selected count at every
    step and comes, after finitely many, to a row no further step changes:
    the next total would not fit, or the count is exactly [2^31], whose
    doubling is no seed. The other counts are untouched, so unless they add
    up to nearly [2^31] the selection then outranks each of them. *)
Theorem training_settles (row : option bytes) (t : Z) (m : gmap Z Z) (cur : Z) :
  row_holds row t m -> (Z.of_nat (length (default new_gram row)) + 24 <= isize_max)%Z -> is_u32 cur ->
  exists n t' m', ends_at row m cur n t' m' /\
    forall k f, k <> cur -> m !! k = Some f ->
      (map_freq_sum m - frequency m cur < 2147483648 - CEILING_SEED)%Z -> (f < frequency m' cur)%Z.
Proof.
  intros Hrow Hroom Hcur.
  destruct (trains_end (Z.to_nat u32_size) row t m cur) as (n & t' & m' & He);
    [done|unfold long_room; case_decide; lia|done| |].
  { destruct Hrow as [Hrel _]. destruct (gram_rel_u32 _ t m Hrel) as [Ht _]. unfold is_u32 in Ht. lia. }
  exists n, t', m'. split; [done|]. destruct He as (Hset & Hend & Hother & _). specialize (Hset 0). cbn [trains] in Hset.
  intros k f Hk Hf Hsmall. destruct Hset as [Hrel' Hsum']. destruct (gram_rel_u32 _ t' m' Hrel') as [Ht' Hu'].
  assert (Hrest : (map_freq_sum m' - frequency m' cur = map_freq_sum m - frequency m cur)%Z).
  { assert (Hd : delete cur m' = delete cur m).
    { apply map_eq. intros i. destruct (decide (i = cur)) as [->|Hi]; [by rewrite !lookup_delete_eq|].
      rewrite !lookup_delete_ne by done. by apply Hother. }
    unfold frequency. by rewrite <- !map_freq_sum_delete, Hd. }
  assert (Hf' : m' !! k = Some f) by (by rewrite Hother).
  pose proof (others_bound m' cur k f Hu' Hk Hf') as Hb.
  assert (Hcase : (u32_size <= t' + CEILING_SEED)%Z \/ frequency m' cur = 2147483648%Z).
  { destruct Hend as [[_ H]|H]; [left|by right].
    pose proof (seed_of_range _ t' m' cur (conj Hrel' Hsum')). lia. }
  change u32_size with 4294967296%Z in *. change CEILING_SEED with 22080%Z in *.
  destruct Hcase; lia.
Qed.

Lemma training_settles_witness :
  row_holds None 0 ∅ /\ is_u32 7 /\
  exists n t' m', ends_at None ∅ 7 n t' m' /\ (69 <= frequency m' 7)%Z.
Proof.
  assert (Hrow : row_holds None 0 ∅) by apply new_gram_holds.
  assert (Hcur : is_u32 7) by (vm_compute; split; congruence).
  split; [exact Hrow|]. split; [exact Hcur|].
  destruct (training_settles None 0 ∅ 7 Hrow ltac:(vm_compute; discriminate) Hcur) as (n & t' & m' & He & _).
  exists n, t', m'. split; [exact He|]. destruct He as (Hset & Hend & Hother & _).
  destruct (Hset 0) as [Hrel Hsum]. pose proof (frequency_le _ t' m' 7 (conj Hrel Hsum)) as Hf.
  destruct Hend as [[_ H]|H]; [|rewrite H; lia].
  destruct (decide (69 <= frequency m' 7)%Z) as [|Hno]; [done|exfalso].
  assert (Hm : forall k, k <> 7%Z -> m' !! k = None) by (intros k Hk; by rewrite Hother).
  assert (Hs : map_freq_sum m' = frequency m' 7).
  { unfold frequency. destruct (m' !! 7%Z) as [c|] eqn:E.
    - assert (He : m' = {[7%Z := c]}).
      { apply map_eq. intros i. destruct (decide (i = 7%Z)) as [->|Hi]; [by rewrite lookup_singleton_eq|].
        rewrite lookup_singleton_ne by done. by apply Hm. }
      rewrite He. unfold map_freq_sum. rewrite map_to_list_singleton. unfold freq_sum. cbn.
      change (default 0%Z (Some c)) with c. lia.
    - assert (He : m' = ∅); [|by rewrite He].
      apply map_eq. intros i. rewrite lookup_empty. destruct (decide (i = 7%Z)) as [->|Hi]; [done|by apply Hm]. }
  pose proof (seed_of_range _ t' m' 7 (conj Hrel Hsum)).
  change u32_size with 4294967296%Z in *. change CEILING_SEED with 22080%Z in *. lia.
Defined.
