(* ===== verification/UserBigramSpec.v ===== *)
(** * UserBigramSpec: training steps on the session's container

    Over any container that keeps the laws of the trait: what one training,
    predicted or overwritten count does to the state, and that a training
    call succeeds exactly when its check of the whole call does. *)

From Stdlib Require Import ZArith Lia Bool Strings.Byte.
From stdpp Require Import base list gmap countable sorting.
From S2P Require Import Prelude SingleGram GramSpec UserRecords UserTraining UserTrainingSpec.

(** ** The laws of the container *)

Class UserBigramLaws (C : Type) `{UserBigramDb C} : Prop := {
  store_answer (db : C) k v : (db_store db k v).2 = negb (is_failed db);
  get_store (db : C) k v k' : is_failed db = false ->
    db_get (db_store db k v).1 k' = if decide (k' = k) then Some v else db_get db k';
  failed_store (db : C) k v : is_failed db = true -> (db_store db k v).1 = db;
  failed_get (db : C) k : is_failed db = true -> db_get db k = None;
  store_failed (db : C) k v : is_failed (db_store db k v).1 = is_failed db;
  get_remove (db : C) k k' : db_get (db_remove db k) k' = if decide (k' = k) then None else db_get db k';
  remove_failed (db : C) k : is_failed (db_remove db k) = is_failed db;
  keys_get (db : C) k : Some k ∈ db_keys db <-> length k = 4 /\ is_Some (db_get db k);
  keys_nodup (db : C) : NoDup (omap id (db_keys db));
  keys_foreign (db : C) : None ∈ db_keys db <-> exists k, length k <> 4 /\ is_Some (db_get db k)
}.

(** A container in memory, and the failed one. *)
#[export] Instance byte_countable : Countable byte.
Proof. refine (inj_countable Byte.to_N Byte.of_N _). by intros []. Defined.

Record MemoryDb : Type := { memory : gmap bytes bytes; memory_failed : bool }.

#[export] Instance memory_db : UserBigramDb MemoryDb := {
  db_get db k := if memory_failed db then None else memory db !! k;
  db_store db k v :=
    if memory_failed db then (db, false)
    else ({| memory := <[k:=v]> (memory db); memory_failed := false |}, true);
  db_remove db k := {| memory := delete k (memory db); memory_failed := memory_failed db |};
  db_keys db :=
    if memory_failed db then []
    else (fun e => if decide (length e.1 = 4) then Some e.1 else None) <$> map_to_list (memory db);
  is_failed db := memory_failed db
}.

Lemma four_byte_keys_nodup (l : list (bytes * bytes)) :
  NoDup l.*1 -> NoDup (omap id ((fun e => if decide (length e.1 = 4) then Some e.1 else None) <$> l)).
Proof.
  intros Hnd. rewrite omap_fmap. induction l as [|[k v] l IH]; [constructor|].
  rewrite fmap_cons in Hnd. apply NoDup_cons in Hnd as [Hk Hnd]. unfold omap. cbn [list_omap fst].
  unfold compose, id at 1. case_decide; [|by apply IH]. constructor; [|by apply IH].
  intros ([k' v'] & Hin & Heq)%list_elem_of_omap. cbn in Heq. case_decide; [|done].
  injection Heq as ->. apply Hk. by apply (list_elem_of_fmap_2 fst) in Hin.
Qed.

#[export] Instance memory_laws : UserBigramLaws MemoryDb.
Proof.
  split; intros [mm f]; cbn -[lookup insert delete map_to_list decide].
  - by destruct f.
  - intros k v k' ->. cbn. case_decide as Hd; [subst; apply lookup_insert_eq|by apply lookup_insert_ne].
  - by intros k v ->.
  - by intros k ->.
  - by destruct f.
  - intros k k'. destruct f; [by case_decide|]. case_decide as Hd; [subst; apply lookup_delete_eq|by apply lookup_delete_ne].
  - done.
  - intros k. destruct f; [split; [by intros ?%not_elem_of_nil|by intros [_ [? ?]]]|].
    rewrite list_elem_of_fmap. split.
    + intros ([k' v] & He & Hin). apply elem_of_map_to_list in Hin. cbn in He. case_decide; [|done].
      injection He as ->. split; [done|]. by eexists.
    + intros [Hk [v Hv]]. exists (k, v). cbn. rewrite decide_True by done. split; [done|].
      by apply elem_of_map_to_list.
  - destruct f; [constructor|]. apply four_byte_keys_nodup, NoDup_fst_map_to_list.
  - destruct f; [split; [by intros ?%not_elem_of_nil|by intros (k & _ & [? ?])]|].
    rewrite list_elem_of_fmap. split.
    + intros ([k v] & He & Hin). apply elem_of_map_to_list in Hin. cbn in He. case_decide; [done|].
      exists k. split; [done|]. by eexists.
    + intros (k & Hk & [v Hv]). exists (k, v). cbn. rewrite decide_False by done. split; [done|].
      by apply elem_of_map_to_list.
Qed.

Lemma le32_inj a b : is_u32 a -> is_u32 b -> le32 a = le32 b -> a = b.
Proof.
  intros Ha Hb H. rewrite <- (wrap32_small a Ha), <- (wrap32_small b Hb), <- !le_value_le32. by rewrite H.
Qed.

Section session.
Context {C U : Type} `{UserBigramDb C} {laws : UserBigramLaws C}.
Context (arena_add_unigram : U -> Z -> Z -> U * bool).

Abbreviation state := (@BigramState C U).
Abbreviation gram s prev := (container_gram (bigram_db s) prev).

Lemma gram_store (db : C) prev g prev' :
  is_failed db = false -> is_u32 prev -> is_u32 prev' ->
  container_gram (grams_store db prev g).1 prev' = if decide (prev' = prev) then Some g else container_gram db prev'.
Proof using laws.
  intros Hf Hp Hp'. unfold container_gram, grams_store. rewrite get_store by done.
  destruct (decide (prev' = prev)) as [->|Hne]; [by rewrite decide_True|].
  rewrite decide_False; [done|]. intros He. by apply le32_inj in He.
Qed.

(** ** A training call and its check *)

(** The gate in front of the reads is closed only over an empty container. *)
Definition gate_ok (s : state) : Prop :=
  has_user_data s = false -> forall prev, gram s prev = None.

Fixpoint check_steps (s : state) (check : TrainingCheck) (steps : list (Z * Z))
    : TrainingCheck * result unit UserStoreError :=
  match steps with
  | [] => (check, Ok tt)
  | (prev, cur) :: steps =>
      let p := check_training_step_with s check prev cur in
      match p.2 with Ok _ => check_steps s p.1 steps | Err e => (p.1, Err e) end
  end.

Fixpoint train_steps (s : state) (steps : list (Z * Z)) : state * result (list Z) UserStoreError :=
  match steps with
  | [] => (s, Ok [])
  | (prev, cur) :: steps =>
      let p := update arena_add_unigram s prev cur Training in
      match p.2 with
      | Err e => (p.1, Err e)
      | Ok seed =>
          let q := train_steps p.1 steps in
          (q.1, match q.2 with Ok seeds => Ok (seed :: seeds) | Err e => Err e end)
      end
  end.

Definition outcome {A} (r : result A UserStoreError) : result unit UserStoreError :=
  match r with Ok _ => Ok tt | Err e => Err e end.

(** What the replay and the training agree on. *)
Definition agrees (s0 : state) (check : TrainingCheck) (s : state) : Prop :=
  is_failed (bigram_db s) = is_failed (bigram_db s0) /\
  forall prev, is_u32 prev ->
    gram s prev = match replayed_row check prev with Some row => row | None => gram s0 prev end.

Lemma fresh_trained cur : is_u32 cur ->
  exists g, trained_gram None cur = Ok (INITIAL_SEED, Some g).
Proof using Type.
  intros Hcur. pose proof (trained_gram_spec None 0 ∅ cur new_gram_holds) as Hs.
  cbv zeta in Hs. specialize (Hs ltac:(vm_compute; discriminate) Hcur).
  change (seed_of ∅ cur) with INITIAL_SEED in Hs.
  rewrite decide_False in Hs by (intros [_ Hs']; vm_compute in Hs'; by apply Hs').
  destruct Hs as (g & Hg & _). by exists g.
Qed.

Lemma replayed_cons check prev row prev' :
  replayed_row {| replayed := (prev, row) :: replayed check; fault := fault check |} prev'
    = if decide (prev' = prev) then Some row else replayed_row check prev'.
Proof using Type.
  unfold replayed_row. cbn [replayed List.find fst]. destruct (Z.eqb_spec prev prev') as [->|Hne].
  - by rewrite decide_True.
  - by rewrite decide_False by congruence.
Qed.

Lemma short_no_tail g : (length g <? TOTAL_LEN) = true -> has_partial_tail g = false.
Proof using Type.
  intros Hs%Nat.ltb_lt. unfold has_partial_tail. by rewrite bool_decide_false by lia.
Qed.

(** A committed step: what the container then holds. *)
Lemma commit_training s prev cur seed g :
  is_u32 prev -> is_failed (bigram_db s) = false ->
  let out := commit_step arena_add_unigram s prev cur Training seed g in
  out.2 = Ok seed /\ is_failed (bigram_db out.1) = false /\
  phrases out.1 = (arena_add_unigram (phrases s) cur (clamp32 (unigram_delta seed))).1 /\
  has_user_data out.1 = true /\ write_generation out.1 = ((write_generation s + 1) mod u64_size)%Z /\
  forall prev', is_u32 prev' ->
    gram out.1 prev' = match g with
                       | Some g => if decide (prev' = prev) then Some g else gram s prev'
                       | None => gram s prev'
                       end.
Proof using All.
  intros Hp Hf. unfold commit_step, store_gram, add_unigram, mark_committed_write. cbn [fst snd bigram_db phrases write_generation has_user_data].
  destruct g as [g|]; cbn [fst snd bigram_db phrases write_generation has_user_data negb].
  - pose proof (store_answer (bigram_db s) (le32 prev) g) as Ha. unfold grams_store. rewrite Ha, Hf. cbn [negb fst snd bigram_db].
    split; [done|]. split; [cbn [bigram_db]; rewrite store_failed; exact Hf|]. split; [done|]. split; [done|]. split; [done|].
    intros prev' Hp'. cbn [bigram_db]. by apply gram_store.
  - repeat (split; [done|]). done.
Qed.

Lemma check_step_agrees s0 check s prev cur :
  gate_ok s0 -> agrees s0 check s -> is_u32 prev -> is_u32 cur ->
  let c := check_training_step_with s0 check prev cur in
  let u := update arena_add_unigram s prev cur Training in
  c.2 = outcome u.2 /\ (outcome u.2 = Ok tt -> agrees s0 c.1 u.1).
Proof using All.
  intros Hgate [Hfail Hagree] Hp Hcur c u. unfold c, u, check_training_step_with, update.
  assert (Hrow : match replayed_row check prev with Some row => row | None => bigram_row s0 prev end = gram s prev).
  { rewrite Hagree by done. destruct (replayed_row check prev); [done|]. unfold bigram_row.
    destruct (has_user_data s0) eqn:E; [done|]. cbn [negb]. symmetry. by apply Hgate. }
  rewrite Hrow. clear Hrow. rewrite <- Hfail.
  destruct (is_failed (bigram_db s)) eqn:Ef; cbn [fst snd].
  { assert (Hnone : gram s prev = None) by (unfold container_gram; by apply failed_get).
    rewrite Hnone. destruct (fresh_trained cur Hcur) as (g & ->). cbn [fst snd].
    unfold commit_step, store_gram, add_unigram, mark_committed_write.
    cbn [fst snd bigram_db phrases has_user_data write_generation negb]. unfold grams_store.
    rewrite store_answer, Ef. cbn [negb bigram_db]. rewrite store_failed, Ef. done. }
  assert (Hstep : forall row, gram s prev = row ->
    match row with Some g => has_partial_tail g | None => false end = false ->
    match row with Some g => length g <? TOTAL_LEN | None => false end = false ->
    let c := match trained_gram row cur with
             | Ok p => ({| replayed := (prev, match p.2 with Some g => Some g | None => row end) :: replayed check;
                           fault := fault check |}, Ok tt)
             | Err TrainingSetFreqMiss =>
                 ({| replayed := replayed check; fault := Some (SetFreqMiss prev) |}, Err TrainingSetFreqMiss)
             | Err e => (check, Err e)
             end in
    let u := match trained_gram row cur with
             | Err e => (s, Err e)
             | Ok p => commit_step arena_add_unigram s prev cur Training p.1 p.2
             end in
    c.2 = outcome u.2 /\ (outcome u.2 = Ok tt -> agrees s0 c.1 u.1)).
  { intros row Hg _ _. cbv zeta. destruct (trained_gram row cur) as [[seed g]|e]; [|by destruct e].
    cbn [fst snd]. destruct (commit_training s prev cur seed g Hp Ef) as (Ho & Hf' & _ & _ & _ & Hc).
    rewrite Ho. split; [done|]. intros _. split; [by rewrite Hf', <- Hfail|].
    intros prev' Hp'. rewrite Hc, replayed_cons by done.
    destruct g as [g|]; case_decide as Hd; try done; try by apply Hagree. by subst. }
  destruct (gram s prev) as [g|] eqn:Eg; cbn [fst snd].
  - destruct (length g <? TOTAL_LEN) eqn:Es.
    { by rewrite (short_no_tail g Es). }
    destruct (has_partial_tail g) eqn:Et; [done|]. apply (Hstep (Some g)); done.
  - apply (Hstep None); done.
Qed.

Lemma check_steps_agree s0 check s steps :
  gate_ok s0 -> agrees s0 check s -> Forall (fun e => is_u32 e.1 /\ is_u32 e.2) steps ->
  let c := check_steps s0 check steps in
  let u := train_steps s steps in
  c.2 = outcome u.2 /\ (c.2 = Ok tt -> agrees s0 c.1 u.1).
Proof using All.
  intros Hgate. revert check s. induction steps as [|[prev cur] steps IH]; intros check s Hagree Hsteps; [done|].
  apply Forall_cons in Hsteps as [[Hp Hcur] Hsteps]. cbn [fst snd] in Hp, Hcur. cbn [check_steps train_steps].
  destruct (check_step_agrees s0 check s prev cur Hgate Hagree Hp Hcur) as [Hc Hnext].
  destruct (check_training_step_with s0 check prev cur) as [check' rc].
  destruct (update arena_add_unigram s prev cur Training) as [s' [seed|e]]; cbn [fst snd outcome] in *; subst rc.
  - destruct (IH check' s' (Hnext eq_refl) Hsteps) as [Hc' Hn'].
    destruct (check_steps s0 check' steps) as [check'' rc'].
    destruct (train_steps s' steps) as [s'' [seeds|e]]; cbn [fst snd outcome] in *; done.
  - split; [done|]. intros [=].
Qed.

Lemma trained_errors row cur e :
  (length (default new_gram row) <? TOTAL_LEN) = false -> trained_gram row cur = Err e ->
  e = Decode \/ e = TrainingSetFreqMiss.
Proof using Type.
  intros Hl%Nat.ltb_ge. unfold trained_gram, get_total_freq. rewrite decide_True by done.
  destruct (get_freq _ cur) as [f|].
  - destruct (_ && _)%bool; [done|]. destruct (set_freq _ _ _).2; [done|]. intros [= <-]. by right.
  - destruct (insert_freq _ _ _).2; [|intros [= <-]; by left].
    destruct (_ && _)%bool; [done|]. destruct (set_freq _ _ _).2; [done|]. intros [= <-]. by right.
Qed.

Lemma check_fault (s : state) c prev cur c' e :
  check_training_step_with s c prev cur = (c', Err e) -> e <> Decode ->
  fault c' = Some (ShortValue prev) \/ fault c' = Some (PartialTail prev) \/
  fault c' = Some (SetFreqMiss prev) \/ fault c' = Some (FailedStore prev).
Proof using Type.
  intros E Hne. unfold check_training_step_with in E.
  destruct (is_failed (bigram_db s)); [injection E as <- _; tauto|].
  set (row := match replayed_row c prev with Some row => row | None => bigram_row s prev end) in *.
  assert (Hcase : (length (default new_gram row) <? TOTAL_LEN) = false \/
    exists p, match row with
      | Some gram =>
          if length gram <? TOTAL_LEN then Some (ShortValue prev, ShortUserBigramValue)
          else if has_partial_tail gram then Some (PartialTail prev, PartialUserBigramTail) else None
      | None => None end = Some p /\ (p.1 = ShortValue prev \/ p.1 = PartialTail prev)).
  { destruct row as [g|]; [|by left]. change (default new_gram (Some g)) with g.
    destruct (length g <? TOTAL_LEN); [|by left]. right. eexists. split; [done|by left]. }
  destruct (match row with Some gram => _ | None => None end) as [p|] eqn:Em.
  - injection E as <- _. cbn [fault]. destruct row as [g|]; [|done].
    destruct (length g <? TOTAL_LEN); [injection Em as <-; tauto|].
    destruct (has_partial_tail g); [injection Em as <-; tauto|done].
  - destruct Hcase as [Hl|(p & Hp & _)]; [|done].
    destruct (trained_gram row cur) as [p|e'] eqn:Et; [done|].
    destruct (trained_errors row cur e' Hl Et) as [->| ->]; injection E as <- <-; [done|tauto].
Qed.

(** C33. The check of a training call decides it. Replaying the steps on
    copies answers exactly what running them answers, error for error, on
    any stored bytes, failed container included; when it passes, every step
    is stored, and each predecessor then holds the gram the replay left for
    it, the others what they held; when it fails, the fault it records names
    the step's predecessor. The check itself stores nothing. *)
Theorem checked_training (s : state) (steps : list (Z * Z)) :
  gate_ok s -> Forall (fun e => is_u32 e.1 /\ is_u32 e.2) steps ->
  let check := check_steps s check_new steps in
  let run := train_steps s steps in
  check.2 = outcome run.2 /\
  (check.2 = Ok tt -> forall prev, is_u32 prev ->
     gram run.1 prev = match replayed_row check.1 prev with Some row => row | None => gram s prev end) /\
  (forall e, check.2 = Err e -> e <> Decode -> exists prev cur, (prev, cur) ∈ steps /\
     (fault check.1 = Some (ShortValue prev) \/ fault check.1 = Some (PartialTail prev) \/
      fault check.1 = Some (SetFreqMiss prev) \/ fault check.1 = Some (FailedStore prev))).
Proof using All.
  intros Hgate Hsteps check run.
  destruct (check_steps_agree s check_new s steps Hgate) as [H1 H2]; [by split|done|].
  split; [done|]. split; [intros Hok; by apply H2|]. unfold check. clear Hsteps check run H1 H2.
  generalize check_new as c. induction steps as [|[prev cur] steps IH]; intros c e He Hne; [done|].
  cbn [check_steps] in He |- *. destruct (check_training_step_with s c prev cur) as [c' [[]|e']] eqn:E; cbn [fst snd] in *.
  - destruct (IH c' e He Hne) as (p & q & Hin & Hf). exists p, q. split; [by right|done].
  - injection He as ->. exists prev, cur. split; [by left|]. by eapply check_fault.
Qed.

(** ** The mask over the container *)

Lemma map_freq_sum_filter (P : Z * Z -> bool) m :
  map_freq_sum m = (map_freq_sum (filter (fun it => P it = true) m) + map_freq_sum (filter (fun it => P it = false) m))%Z.
Proof using Type.
  induction m as [|k f m Hk IH] using map_ind; [done|].
  rewrite map_freq_sum_insert_new by done. destruct (P (k, f)) eqn:E.
  - rewrite map_filter_insert_True by done. rewrite map_filter_insert_False by congruence.
    rewrite delete_id by done. rewrite map_freq_sum_insert_new; [lia|].
    apply map_lookup_filter_None. by left.
  - rewrite map_filter_insert_False by congruence. rewrite map_filter_insert_True by done.
    rewrite delete_id by done. rewrite map_freq_sum_insert_new; [lia|].
    apply map_lookup_filter_None. by left.
Qed.

Definition kept (mask value : Z) (m : gmap Z Z) : gmap Z Z := filter (fun it => masked mask value it = false) m.

Lemma mask_holds g t m mask value :
  gram_holds g t m -> (Z.of_nat (length g) <= u32_max)%Z -> is_u32 mask -> is_u32 value ->
  let p := mask_out g mask value in
  gram_holds p.1 (map_freq_sum (kept mask value m)) (kept mask value m) /\
  (p.2 = 0%Z <-> kept mask value m = m) /\ length p.1 <= length g /\
  (get_length p.1 = 0 <-> kept mask value m = ∅).
Proof using Type.
  intros [Hrel Hsum] Hlen Hm Hv p. set (gone := filter (fun it => masked mask value it = true) m).
  assert (Hroom : (Z.of_nat (length g) + 8 <= isize_max)%Z) by (assert (u32_max + 8 <= isize_max)%Z by (vm_compute; discriminate); lia).
  destruct (gram_step_sim (MaskOut mask value) g (t, m) Hrel (conj Hm Hv) Hroom) as [H1 H2].
  unfold gram_step, byte_store, spec_store in H1, H2. fold p in H1, H2. destruct p as [g' n]. cbn [fst snd] in *.
  fold gone in H1, H2. fold (kept mask value m) in H1.
  destruct (gram_rel_u32 g t m Hrel) as [Ht Hu].
  pose proof (map_freq_sum_filter (masked mask value) m) as Hsplit. fold gone in Hsplit. fold (kept mask value m) in Hsplit.
  assert (Hgone : (0 <= map_freq_sum gone)%Z).
  { apply map_freq_sum_nonneg. intros k f [Hk _]%map_lookup_filter_Some. by apply (Hu k). }
  assert (Hkept : (0 <= map_freq_sum (kept mask value m))%Z).
  { apply map_freq_sum_nonneg. intros k f [Hk _]%map_lookup_filter_Some. by apply (Hu k). }
  rewrite wrap32_fits in H1 by (unfold is_u32 in Ht; lia).
  replace (t - map_freq_sum gone)%Z with (map_freq_sum (kept mask value m)) in H1 by lia.
  assert (Hsz : size gone <= size m) by (apply map_subseteq_size, map_filter_subseteq).
  pose proof (gram_rel_length _ _ Hrel) as Hl. pose proof (gram_rel_length _ _ H1) as Hl'. cbn [snd] in Hl, Hl'.
  assert (Hn : n = Z.of_nat (size gone)).
  { injection H2 as ->. apply wrap32_fits. unfold u32_max in Hlen. lia. }
  split; [by split|]. split; [|split].
  - rewrite Hn. split.
    + intros Hz. assert (He : gone = ∅) by (apply map_size_empty_inv; lia).
      apply map_eq. intros k. apply option_eq. intros f. unfold kept. rewrite map_lookup_filter_Some.
      split; [by intros [? _]|]. intros Hk. split; [done|]. destruct (masked mask value (k, f)) eqn:E; [|done].
      assert (Hin : gone !! k = Some f) by (by apply map_lookup_filter_Some).
      by rewrite He, lookup_empty in Hin.
    + intros Hk. assert (He : gone = ∅); [|by rewrite He, map_size_empty].
      apply map_eq. intros k. rewrite lookup_empty. apply map_lookup_filter_None. right. intros f Hf Hmk.
      rewrite <- Hk in Hf. apply map_lookup_filter_Some in Hf as [_ Hf]. congruence.
  - rewrite Hl, Hl'. assert (size (kept mask value m) <= size m) by (apply map_subseteq_size, map_filter_subseteq). lia.
  - unfold get_length, TOTAL_LEN, ITEM_LEN. rewrite Hl'.
    replace (4 + 8 * size (kept mask value m) - 4) with (size (kept mask value m) * 8) by lia.
    rewrite Nat.div_mul by lia. apply map_size_empty_iff.
Qed.

Section mask.
Context (mask value : Z).

Definition selected (prev : Z) : bool := (Z.land prev mask =? value)%Z.

(** What the mask leaves under a key, for any stored bytes. *)
Definition masked_gram (db : C) (prev : Z) : option bytes :=
  if selected prev then None
  else match container_gram db prev with
       | None => None
       | Some g =>
           let p := mask_out g mask value in
           if (p.2 =? 0)%Z then Some g else if get_length p.1 =? 0 then None else Some p.1
       end.

Definition holds_row {A} (o : option A) : bool := match o with Some _ => true | None => false end.

Lemma gram_remove (db : C) prev prev' :
  is_u32 prev -> is_u32 prev' ->
  container_gram (grams_remove db prev) prev' = if decide (prev' = prev) then None else container_gram db prev'.
Proof using laws.
  intros Hp Hp'. unfold container_gram, grams_remove. rewrite get_remove.
  destruct (decide (prev' = prev)) as [->|Hne]; [by rewrite decide_True|].
  rewrite decide_False; [done|]. intros He. by apply le32_inj in He.
Qed.

Lemma mask_over_spec (db : C) ks remaining :
  is_failed db = false -> Forall is_u32 ks -> NoDup ks ->
  exists db', mask_grams_over db (Some <$> ks) mask value remaining
      = (db', Ok (remaining || existsb (fun prev => holds_row (masked_gram db prev)) ks)) /\
    is_failed db' = false /\
    forall prev, is_u32 prev ->
      container_gram db' prev = if decide (prev ∈ ks) then masked_gram db prev else container_gram db prev.
Proof using laws.
  revert db remaining. induction ks as [|k ks IH]; intros db remaining Hf Hu Hnd.
  { exists db. cbn. rewrite orb_false_r. split; [done|]. split; [done|]. intros prev _.
    by rewrite decide_False by apply not_elem_of_nil. }
  apply Forall_cons in Hu as [Hk Hu]. apply NoDup_cons in Hnd as [Hkn Hnd].
  assert (Hstep : forall db1 rem1, is_failed db1 = false ->
    (forall prev, is_u32 prev -> container_gram db1 prev
       = if decide (prev = k) then masked_gram db k else container_gram db prev) ->
    rem1 = (remaining || holds_row (masked_gram db k)) ->
    exists db', mask_grams_over db1 (Some <$> ks) mask value rem1
      = (db', Ok (remaining || existsb (fun prev => holds_row (masked_gram db prev)) (k :: ks))) /\
    is_failed db' = false /\
    forall prev, is_u32 prev ->
      container_gram db' prev = if decide (prev ∈ k :: ks) then masked_gram db prev else container_gram db prev).
  { intros db1 rem1 Hf1 Hg1 ->. destruct (IH db1 (remaining || holds_row (masked_gram db k)) Hf1 Hu Hnd)
      as (db' & -> & Hf' & Hg').
    assert (Hsame : forall prev, prev ∈ ks -> masked_gram db1 prev = masked_gram db prev).
    { intros prev Hin. unfold masked_gram. rewrite Forall_forall in Hu. rewrite Hg1 by by apply Hu.
      rewrite decide_False; [done|]. by intros ->. }
    exists db'. split; [|split; [done|]].
    - cbn [existsb]. rewrite orb_assoc. do 3 f_equal. clear -Hsame. induction ks as [|x ks IH]; [done|].
      cbn [existsb]. rewrite Hsame by by left. f_equal. apply IH. intros y Hy. apply Hsame. by right.
    - intros prev Hp. rewrite Hg' by done. destruct (decide (prev ∈ ks)) as [Hin|Hin].
      + rewrite decide_True by by right. by apply Hsame.
      + rewrite Hg1 by done. destruct (decide (prev = k)) as [->|Hne].
        * by rewrite decide_True by by left.
        * rewrite decide_False; [done|]. by intros [?|?]%elem_of_cons. }
  rewrite fmap_cons. cbn [mask_grams_over].
  assert (Hmk : masked_gram db k = masked_gram db k) by done. unfold masked_gram at 2, selected in Hmk.
  destruct (Z.land k mask =? value)%Z.
  { apply Hstep; [unfold grams_remove; by rewrite remove_failed| |by rewrite Hmk, orb_false_r].
    intros prev Hp. rewrite Hmk. by apply gram_remove. }
  destruct (container_gram db k) as [g|] eqn:Eg.
  2: { apply Hstep; [done| |by rewrite Hmk, orb_false_r]. intros prev Hp. rewrite Hmk.
       destruct (decide (prev = k)) as [->|]; done. }
  cbv zeta in Hmk. destruct (mask_out g mask value) as [g' n]. cbn [fst snd] in *.
  destruct (n =? 0)%Z.
  { apply Hstep; [done| |by rewrite Hmk, orb_true_r]. intros prev Hp. rewrite Hmk.
    destruct (decide (prev = k)) as [->|]; done. }
  destruct (get_length g' =? 0).
  { apply Hstep; [unfold grams_remove; by rewrite remove_failed| |by rewrite Hmk, orb_false_r].
    intros prev Hp. rewrite Hmk. by apply gram_remove. }
  unfold grams_store at 1. rewrite store_answer, Hf. cbn [negb].
  apply Hstep; [unfold grams_store; by rewrite store_failed| |by rewrite Hmk, orb_true_r].
  intros prev Hp. rewrite Hmk. by apply gram_store.
Qed.

End mask.

(** The keys of a container without foreign ones. *)
Lemma grams_keys_tokens (db : C) :
  (forall k, is_Some (db_get db k) -> length k = 4) ->
  exists ks, grams_keys db = Some <$> ks /\ Forall is_u32 ks /\ NoDup ks /\
    forall prev, is_u32 prev -> prev ∈ ks <-> is_Some (container_gram db prev).
Proof using laws.
  intros Hfour. exists (le_value <$> omap id (db_keys db)). pose proof (keys_nodup db) as Hnd.
  assert (Hsome : forall o, o ∈ db_keys db -> exists k, o = Some k /\ length k = 4 /\ is_Some (db_get db k)).
  { intros [k|] Ho; [exists k; split; [done|]; by apply (keys_get db)|].
    apply keys_foreign in Ho as (k & Hk & Hg). by apply Hfour in Hg. }
  split; [|split; [|split]].
  - unfold grams_keys. clear Hnd. induction (db_keys db) as [|o l IH]; [done|].
    destruct (Hsome o) as (k & -> & _); [by left|]. cbn [map option_map].
    change (omap id (Some k :: l)) with (k :: omap id l). rewrite !fmap_cons. f_equal.
    apply IH. intros o' Ho'. apply Hsome. by right.
  - apply Forall_forall. intros prev (k & -> & Hk)%list_elem_of_fmap.
    apply list_elem_of_omap in Hk as (o & Ho & Heq). unfold id in Heq. subst o.
    apply le_value_u32. by destruct (Hsome _ Ho) as (k' & [= <-] & -> & _).
  - apply NoDup_fmap_2_strong; [|done]. intros k k' Hk Hk' He.
    apply list_elem_of_omap in Hk as (o & Ho & Heq), Hk' as (o' & Ho' & Heq'). unfold id in Heq, Heq'. subst o o'.
    destruct (Hsome _ Ho) as (k1 & [= <-] & Hl & _), (Hsome _ Ho') as (k2 & [= <-] & Hl' & _).
    rewrite <- (le32_value k Hl), <- (le32_value k' Hl'). by rewrite He.
  - intros prev Hp. rewrite list_elem_of_fmap. unfold container_gram. split.
    + intros (k & -> & Hk). apply list_elem_of_omap in Hk as (o & Ho & Heq). unfold id in Heq. subst o.
      destruct (Hsome _ Ho) as (k1 & [= <-] & Hl & Hg). by rewrite le32_value.
    + intros Hg. exists (le32 prev). rewrite le_value_le32, wrap32_small by done. split; [done|].
      apply list_elem_of_omap. exists (Some (le32 prev)). split; [|done]. apply keys_get. split; [|done].
      apply length_le32.
Qed.

(** A container of four-byte keys whose grams' totals are the sums of their
    frequencies. *)
Record sound_container (db : C) : Prop := {
  sound_keys : forall k, is_Some (db_get db k) -> length k = 4;
  sound_grams : forall prev g, is_u32 prev -> container_gram db prev = Some g ->
    (exists t m, gram_holds g t m) /\ (Z.of_nat (length g) <= u32_max)%Z
}.

Lemma holds_length g t m : gram_holds g t m -> length g = 4 + 8 * size m.
Proof using Type. intros [Hr _]. by apply gram_rel_length in Hr. Qed.

Lemma mask_no_fault (db : C) ks mask value :
  sound_container db -> Forall is_u32 ks -> is_u32 mask -> is_u32 value ->
  gram_mask_fault_each db ks mask value = None.
Proof using Type.
  intros Hs Hu Hm Hv. induction Hu as [|prev ks Hp _ IH]; [done|]. cbn [gram_mask_fault_each].
  destruct (Z.land prev mask =? value)%Z; [done|].
  destruct (container_gram db prev) as [g|] eqn:E; [|done].
  destruct (sound_grams db Hs prev g Hp E) as ((t & m & Hg) & Hlen).
  pose proof (holds_length g t m Hg) as Hl.
  rewrite (proj2 (Nat.ltb_ge _ _)) by (unfold TOTAL_LEN; lia).
  assert (Ht : has_partial_tail g = false).
  { unfold has_partial_tail, TOTAL_LEN, ITEM_LEN. rewrite Hl. replace (4 + 8 * size m - 4) with (size m * 8) by lia.
    rewrite Nat.Div0.mod_mul. cbn [Nat.eqb negb]. apply andb_false_r. }
  rewrite Ht. destruct (mask_holds g t m mask value Hg Hlen Hm Hv) as (Hg' & _ & Hl' & Hz).
  destruct (mask_out g mask value) as [g' n]. cbn [fst snd] in *.
  assert (Hroom : (Z.of_nat (length g') + 8 <= isize_max)%Z)
    by (assert (u32_max + 8 <= isize_max)%Z by (vm_compute; discriminate); lia).
  destruct (get_length g' =? 0) eqn:E0; [|by rewrite andb_false_r].
  apply Nat.eqb_eq, Hz in E0. rewrite E0 in Hg'.
  rewrite (rel_total g' _ _ (proj1 Hg') Hroom). rewrite bool_decide_true by done.
  by rewrite andb_false_r.
Qed.

Lemma collected_keys ks :
  existsb (fun key => match key with None => true | Some _ => false end) (Some <$> ks) = false /\
  omap id (Some <$> ks) = (ks : list Z).
Proof using Type.
  induction ks as [|k ks [IH1 IH2]]; [done|]. rewrite fmap_cons. split; [exact IH1|].
  unfold omap in *. cbn [list_omap id]. by f_equal.
Qed.

(** C34. A token mask over the container is exact. On a container of
    four-byte keys whose totals are the sums of their counts, the check of the
    mask finds no fault and the mask succeeds; afterwards no selected
    predecessor has a row, every other row is what the mask leaves of its
    entries, with the total again their sum, or is gone when nothing was left,
    and the answer says whether any row remains. *)
Theorem container_mask (db : C) mask value :
  sound_container db -> is_failed db = false -> is_u32 mask -> is_u32 value ->
  gram_mask_fault_over db (grams_keys db) mask value = None /\
  exists db' remaining, mask_grams_over db (grams_keys db) mask value false = (db', Ok remaining) /\
    (remaining = true <-> exists prev, is_u32 prev /\ is_Some (container_gram db' prev)) /\
    forall prev, is_u32 prev ->
      match container_gram db' prev with
      | None => selected mask value prev = true \/ container_gram db prev = None \/
          exists t m, row_holds (container_gram db prev) t m /\ kept mask value m = ∅
      | Some g' => selected mask value prev = false /\ exists t m, row_holds (container_gram db prev) t m /\
          gram_holds g' (map_freq_sum (kept mask value m)) (kept mask value m)
      end.
Proof using laws.
  intros Hs Hf Hm Hv. destruct (grams_keys_tokens db (sound_keys db Hs)) as (ks & -> & Hu & Hnd & Hks).
  destruct (collected_keys ks) as [Hc1 Hc2]. split.
  { unfold gram_mask_fault_over. rewrite Hc1, Hc2. by apply mask_no_fault. }
  destruct (mask_over_spec mask value db ks false Hf Hu Hnd) as (db' & Hrun & Hf' & Hg'). cbn [orb] in Hrun.
  exists db', (existsb (fun prev => holds_row (masked_gram mask value db prev)) ks). split; [done|].
  assert (Hall : forall prev, is_u32 prev -> container_gram db' prev = masked_gram mask value db prev).
  { intros prev Hp. rewrite Hg' by done. destruct (decide (prev ∈ ks)) as [|Hno]; [done|].
    rewrite Hks in Hno by done. unfold masked_gram. destruct (container_gram db prev); [by destruct Hno|].
    by destruct (selected mask value prev). }
  split.
  - rewrite existsb_exists. split.
    + intros (prev & Hin & Hh). apply list_elem_of_In in Hin. rewrite Forall_forall in Hu. exists prev.
      split; [by apply Hu|]. rewrite Hall by by apply Hu. destruct (masked_gram mask value db prev); [by eexists|done].
    + intros (prev & Hp & Hs'). rewrite Hall in Hs' by done. exists prev. split.
      * apply list_elem_of_In, Hks; [done|]. unfold masked_gram in Hs'.
        destruct (selected mask value prev); [by destruct Hs'|].
        destruct (container_gram db prev); [by eexists|by destruct Hs'].
      * by destruct Hs' as [g ->].
  - intros prev Hp. rewrite Hall by done. unfold masked_gram.
    destruct (selected mask value prev) eqn:Es; [by left|].
    destruct (container_gram db prev) as [g|] eqn:E; [|right; by left].
    destruct (sound_grams db Hs prev g Hp E) as ((t & m & Hg) & Hlen).
    destruct (mask_holds g t m mask value Hg Hlen Hm Hv) as (Hm1 & Hm2 & _ & Hm4).
    destruct (mask_out g mask value) as [g' n]. cbn [fst snd] in *.
    destruct (Z.eqb_spec n 0) as [Hn|Hn].
    { split; [done|]. exists t, m. split; [exact Hg|]. apply Hm2 in Hn. rewrite Hn.
      by rewrite (proj2 Hg : map_freq_sum m = t). }
    destruct (Nat.eqb_spec (get_length g') 0) as [Hz|Hz].
    + right; right. exists t, m. split; [exact Hg|]. by apply Hm4.
    + split; [done|]. exists t, m. split; [exact Hg|done].
Qed.

(** ** The books after a step *)

Lemma commit_predicted (s : state) prev cur seed g :
  is_u32 prev -> is_failed (bigram_db s) = false ->
  let add := arena_add_unigram (phrases s) cur (clamp32 (unigram_delta seed)) in
  let out := commit_step arena_add_unigram s prev cur Predicted seed (Some g) in
  out.2 = (if add.2 then Ok seed else Err UnigramTotalOverflow) /\
  phrases out.1 = add.1 /\ has_user_data out.1 = true /\
  write_generation out.1 = ((write_generation s + 1) mod u64_size)%Z /\
  forall prev', is_u32 prev' ->
    gram out.1 prev' = if add.2 then if decide (prev' = prev) then Some g else gram s prev' else gram s prev'.
Proof using All.
  intros Hp Hf add out. unfold out, commit_step, store_gram, add_unigram, mark_committed_write. fold add.
  cbn [fst snd bigram_db phrases write_generation has_user_data].
  destruct add as [u [|]]; cbn [fst snd bigram_db phrases write_generation has_user_data negb].
  - pose proof (store_answer (bigram_db s) (le32 prev) g) as Ha. unfold grams_store. rewrite Ha, Hf.
    cbn [negb fst snd bigram_db phrases write_generation has_user_data].
    repeat (split; [done|]). intros prev' Hp'. by apply gram_store.
  - repeat (split; [done|]). done.
Qed.

Lemma sum_room row t m : row_holds row t m -> room row ->
  match row with Some g => has_partial_tail g | None => false end = false /\
  match row with Some g => length g <? TOTAL_LEN | None => false end = false.
Proof using Type.
  intros Hrow _. destruct row as [g|]; [|done]. unfold row_holds in Hrow. change (default new_gram (Some g)) with g in Hrow.
  pose proof (holds_length g t m Hrow) as Hl. split; [|apply Nat.ltb_ge; unfold TOTAL_LEN; lia].
  unfold has_partial_tail, TOTAL_LEN, ITEM_LEN. rewrite Hl. replace (4 + 8 * size m - 4) with (size m * 8) by lia.
  rewrite Nat.Div0.mod_mul. apply andb_false_r.
Qed.

(** The overwritten count of [set_bigram_count]. *)
Lemma set_count_spec (s : state) prev cur count t m :
  is_failed (bigram_db s) = false -> is_u32 prev -> is_u32 cur -> is_u32 count ->
  row_holds (gram s prev) t m -> room (gram s prev) ->
  let out := set_bigram_count s prev cur count in
  let t' := Z.min (t - frequency m cur + count) u32_max in
  out.2 = Ok tt /\ phrases out.1 = phrases s /\ has_user_data out.1 = true /\
  (exists g', gram out.1 prev = Some g' /\ gram_rel g' (t', <[cur := count]> m)) /\
  forall prev', is_u32 prev' -> prev' <> prev -> gram out.1 prev' = gram s prev'.
Proof using All.
  intros Hf Hp Hcur Hc Hrow Hroom. pose proof (sum_room _ t m Hrow) as [_ Hlen]; [done|].
  unfold set_bigram_count.
  replace (match gram s prev with Some gram => if TOTAL_LEN <=? length gram then gram else new_gram | None => new_gram end)
    with (default new_gram (gram s prev)).
  2: { destruct (gram s prev) as [g|]; [|done]. apply Nat.ltb_ge, Nat.leb_le in Hlen. by rewrite Hlen. }
  unfold row_holds, room in *. set (g := default new_gram (gram s prev)) in *. pose proof Hrow as [Hrel _].
  assert (Hroom8 : (Z.of_nat (length g) + 8 <= isize_max)%Z) by lia.
  assert (Hcl : clamp32 count = count) by (unfold clamp32, u32_max, is_u32 in *; lia).
  rewrite Hcl, (rel_total g t m Hrel Hroom8), (rel_freq g t m Hrel Hroom8 cur Hcur).
  assert (Hp1 : exists g1, match m !! cur with Some _ => set_freq g cur count | None => insert_freq g cur count end
      = (g1, true) /\ gram_rel g1 (t, <[cur:=count]> m)).
  { destruct (m !! cur) as [f|] eqn:E;
      [apply (rel_set g t m Hrel Hroom8); [done|done|by rewrite E]|by apply (rel_insert g t m Hrel Hroom8)]. }
  destruct Hp1 as (g1 & -> & Hg1). cbn [fst snd negb].
  pose proof (frequency_le g t m cur Hrow) as Hle. unfold frequency in *.
  change (default 0%Z (Some t)) with t.
  rewrite Z.max_r by lia. set (t' := Z.min _ u32_max). unfold store_gram.
  assert (Ha : forall x, (grams_store (bigram_db s) prev x).2 = true).
  { intros x. unfold grams_store. by rewrite store_answer, Hf. }
  rewrite Ha. unfold mark_committed_write. cbn [fst snd bigram_db phrases has_user_data].
  repeat (split; [done|]). split.
  - exists (set_total_freq g1 t'). split; [by rewrite gram_store, decide_True by done|].
    pose proof (rel_length_insert _ _ _ _ _ _ _ Hrel Hg1). apply (rel_set_total g1 t); [done|lia|].
    unfold t', u32_max, is_u32 in *. lia.
  - intros prev' Hp' Hne. by rewrite gram_store, decide_False by done.
Qed.

(** C31. The books of a session balance. Over a container that keeps the
    laws of its trait and a row whose total is the sum of its counts: the
    seed lies between 0 and 22080, at least 69 below [2^31], and the unigram
    delta is exactly seven times the seed; a training step answers the seed,
    adds the delta, opens the read gate, bumps the generation, leaves the
    other rows, and either leaves the row too, because the total would not
    fit in 32 bits, or adds the seed to the count and to the total, which
    still fits and is still the sum; a predicted step stores nothing when the
    arena refuses its add, and keeps the books when the total has room; an
    overwritten count corrects the total, up to the width. *)
Theorem training_books (s : state) (last cur count t : Z) (m : gmap Z Z) :
  is_failed (bigram_db s) = false -> is_u32 last -> is_u32 cur -> is_u32 count ->
  row_holds (gram s last) t m -> room (gram s last) ->
  let seed := seed_of m cur in
  let trained := update arena_add_unigram s last cur Training in
  let predicted := update arena_add_unigram s last cur Predicted in
  let overwritten := set_bigram_count s last cur count in
  ((0 <= seed <= 22080)%Z /\ ((frequency m cur < 2 ^ 31)%Z -> (69 <= seed)%Z) /\ unigram_delta seed = (7 * seed)%Z) /\
  (trained.2 = Ok seed /\ phrases trained.1 = (arena_add_unigram (phrases s) cur (7 * seed)).1 /\
   has_user_data trained.1 = true /\ write_generation trained.1 = ((write_generation s + 1) mod u64_size)%Z /\
   (forall prev, is_u32 prev -> prev <> last -> gram trained.1 prev = gram s prev) /\
   (if decide (t + seed < u32_size)%Z
    then row_holds (gram trained.1 last) (t + seed) (<[cur := (frequency m cur + seed)%Z]> m)
    else gram trained.1 last = gram s last)) /\
  (let add := arena_add_unigram (phrases s) cur 483 in
   phrases predicted.1 = add.1 /\
   predicted.2 = (if add.2 then Ok 69%Z else Err UnigramTotalOverflow) /\
   (forall prev, is_u32 prev -> prev <> last \/ add.2 = false -> gram predicted.1 prev = gram s prev) /\
   (add.2 = true -> (t + 69 < u32_size)%Z ->
      row_holds (gram predicted.1 last) (t + 69) (<[cur := (frequency m cur + 69)%Z]> m))) /\
  (overwritten.2 = Ok tt /\ phrases overwritten.1 = phrases s /\
   (forall prev, is_u32 prev -> prev <> last -> gram overwritten.1 prev = gram s prev) /\
   ((t - frequency m cur + count < u32_size)%Z ->
      row_holds (gram overwritten.1 last) (t - frequency m cur + count) (<[cur := count]> m))).
Proof using All.
  intros Hf Hl Hcur Hc Hrow Hroom seed trained predicted overwritten.
  pose proof (seed_of_range _ t m cur Hrow) as Hseed. fold seed in Hseed. change CEILING_SEED with 22080%Z in Hseed.
  destruct (sum_room _ t m Hrow Hroom) as [Htail Hshort].
  assert (Hdelta : unigram_delta seed = (7 * seed)%Z) by (unfold unigram_delta, UNIGRAM_FACTOR; change u64_size with 18446744073709551616%Z; lia).
  assert (Hclamp : clamp32 (7 * seed) = (7 * seed)%Z) by (unfold clamp32; change u32_max with 4294967295%Z; lia).
  pose proof (frequency_le _ t m cur Hrow) as Hle.
  split; [|split; [|split]].
  - split; [done|]. split; [|done]. by apply (seed_floor (default new_gram (gram s last)) t m cur).
  - unfold trained, update. rewrite Htail, Hshort.
    pose proof (trained_gram_spec _ t m cur Hrow Hroom Hcur) as Ht. cbv zeta in Ht. fold seed in Ht.
    destruct (decide (t + seed < u32_size)%Z) as [Hfit|Hfit].
    + rewrite decide_False in Ht by (unfold refused; lia). destruct Ht as (g' & -> & Hg'). cbn [fst snd].
      destruct (commit_training s last cur seed (Some g') Hl Hf) as (H1 & _ & H3 & H4 & H5 & H6).
      rewrite Hdelta, Hclamp in H3. do 4 (split; [done|]). split.
      * intros prev Hp Hne. by rewrite H6, decide_False by done.
      * rewrite H6, decide_True by done. exact Hg'.
    + destruct (gram_rel_u32 _ t m (proj1 Hrow)) as [Ht32 _].
      rewrite decide_True in Ht by (unfold refused, is_u32 in *; lia). rewrite Ht. cbn [fst snd].
      destruct (commit_training s last cur seed None Hl Hf) as (H1 & _ & H3 & H4 & H5 & H6).
      rewrite Hdelta, Hclamp in H3. do 4 (split; [done|]). split; [|by apply H6].
      intros prev Hp Hne. by apply H6.
  - cbv zeta. unfold predicted, update. rewrite Htail, Hshort.
    destruct (predicted_gram_spec _ t m cur Hrow Hroom Hcur) as (g' & -> & Hg').
    destruct (commit_predicted s last cur predicted_seed g' Hl Hf) as (H1 & H2 & _ & _ & H5).
    change (clamp32 (unigram_delta predicted_seed)) with 483%Z in *. change predicted_seed with 69%Z in *.
    split; [done|]. split; [done|]. split.
    + intros prev Hp Hcase. rewrite H5 by done. destruct (arena_add_unigram (phrases s) cur 483).2; [|done].
      destruct Hcase as [Hne|]; [|done]. by rewrite decide_False.
    + intros Hadd Hfit. rewrite H5, Hadd, decide_True by done.
      rewrite !wrap32_fits in Hg' by lia. pose proof (proj2 Hrow) as Hsum. apply holds_insert; [done|lia].
  - destruct (set_count_spec s last cur count t m Hf Hl Hcur Hc Hrow Hroom) as (H1 & H2 & _ & (g' & Hg & Hrel) & H5).
    split; [done|]. split; [done|]. split; [done|]. intros Hfit. unfold overwritten. rewrite Hg.
    rewrite Z.min_l in Hrel by (unfold u32_max; change u32_size with 4294967296%Z in *; lia).
    pose proof (proj2 Hrow) as Hsum. apply holds_insert; [done|lia].
Qed.
End session.

(** ** In memory *)

Definition memory_session : BigramState (C := MemoryDb) (U := unit) :=
  {| bigram_db := {| memory := ∅; memory_failed := false |}; phrases := tt;
     has_user_data := false; write_generation := 0 |}.

Definition memory_add (u : unit) (_ _ : Z) : unit * bool := (u, true).

Lemma training_books_witness :
  row_holds (container_gram (bigram_db memory_session) 5) 0 ∅ /\
  (update memory_add memory_session 5 7 Training).2 = Ok 69%Z /\
  row_holds (container_gram (bigram_db (update memory_add memory_session 5 7 Training).1) 5) 69 {[7%Z := 69%Z]}.
Proof.
  assert (Hrow : row_holds (container_gram (bigram_db memory_session) 5) 0 ∅) by apply new_gram_holds.
  assert (Hn : forall n, (0 <= n < 100)%Z -> is_u32 n) by (intros n ?; unfold is_u32, u32_size; lia).
  split; [exact Hrow|].
  assert (Hf : is_failed (bigram_db memory_session) = false) by reflexivity.
  assert (Hroom : room (container_gram (bigram_db memory_session) 5)) by (vm_compute; discriminate).
  destruct (training_books memory_add memory_session 5 7 9 0 ∅ Hf (Hn 5%Z ltac:(lia)) (Hn 7%Z ltac:(lia))
    (Hn 9%Z ltac:(lia)) Hrow Hroom) as (_ & (Hok & _ & _ & _ & _ & Hrow') & _).
  split; [exact Hok|]. rewrite decide_True in Hrow' by done. exact Hrow'.
Defined.

Lemma checked_training_witness :
  let steps := [(5, 7); (7, 5); (5, 7)]%Z in
  gate_ok memory_session /\ Forall (fun e => is_u32 e.1 /\ is_u32 e.2) steps /\
  (train_steps memory_add memory_session steps).2 = Ok [69; 69; 138]%Z /\
  (check_steps memory_session check_new steps).2 = Ok tt /\
  replayed_row (check_steps memory_session check_new steps).1 5
    = Some (container_gram (bigram_db (train_steps memory_add memory_session steps).1) 5).
Proof.
  intros steps.
  assert (Hgate : gate_ok memory_session) by (intros _ prev; apply lookup_empty).
  assert (Hn : forall n, (0 <= n < 100)%Z -> is_u32 n) by (intros n ?; unfold is_u32, u32_size; lia).
  assert (Hsteps : Forall (fun e => is_u32 e.1 /\ is_u32 e.2) steps).
  { repeat (constructor; [split; apply Hn; cbn; lia|]). constructor. }
  destruct (checked_training memory_add memory_session steps Hgate Hsteps) as (Hc & Hg & _).
  assert (Hrun : (train_steps memory_add memory_session steps).2 = Ok [69; 69; 138]%Z) by (vm_compute; reflexivity).
  rewrite Hrun in Hc. cbn [outcome] in Hc. split; [exact Hgate|]. split; [exact Hsteps|].
  split; [exact Hrun|]. split; [exact Hc|]. rewrite (Hg Hc 5%Z (Hn 5%Z ltac:(lia))). vm_compute. reflexivity.
Defined.

(** A predecessor with one word of each library, and one inside the mask. *)
Definition masked_row : bytes := default new_gram (train_row (train_row None 7) 16777225).

Definition masked_memory : MemoryDb :=
  {| memory := <[le32 5 := masked_row]> {[le32 16777226 := masked_row]}; memory_failed := false |}.

Lemma masked_row_holds : gram_holds masked_row 138 {[7%Z := 69%Z; 16777225%Z := 69%Z]}.
Proof.
  assert (Hu : forall n, (0 <= n < 4294967296)%Z -> is_u32 n) by (intros n ?; unfold is_u32; done).
  assert (Hr0 : room None) by (vm_compute; discriminate).
  destruct (train_row_spec None 0 ∅ 7 new_gram_holds Hr0 (Hu 7%Z ltac:(lia))) as [[[_ Href] _]|[_ H1]];
    [vm_compute in Href; by destruct Href|].
  assert (Hr1 : room (train_row None 7)) by (vm_compute; discriminate).
  destruct (train_row_spec _ _ _ 16777225 H1 Hr1 (Hu 16777225%Z ltac:(lia))) as [[[_ Href] _]|[_ H2]];
    [vm_compute in Href; by destruct Href|].
  unfold row_holds in H2. cbv zeta in H2. rewrite insert_insert_ne in H2 by done. exact H2.
Qed.

Lemma masked_memory_sound : sound_container masked_memory.
Proof.
  assert (Hall : forall k v, memory masked_memory !! k = Some v -> length k = 4 /\ v = masked_row).
  { intros k v Hk. unfold masked_memory in Hk. cbn [memory] in Hk. apply lookup_insert_Some in Hk as [[<- <-]|[_ Hk]]; [done|].
    by apply lookup_singleton_Some in Hk as [<- <-]. }
  split.
  - intros k [v Hk]. by apply (Hall k v).
  - intros prev g _ Hg. apply Hall in Hg as [_ ->]. split; [eexists _, _; apply masked_row_holds|].
    vm_compute. discriminate.
Qed.

Lemma container_mask_witness :
  sound_container masked_memory /\
  gram_mask_fault_over masked_memory (grams_keys masked_memory) 4278190080 16777216 = None /\
  exists db', mask_grams_over masked_memory (grams_keys masked_memory) 4278190080 16777216 false = (db', Ok true) /\
    container_gram db' 16777226 = None.
Proof.
  split; [exact masked_memory_sound|].
  assert (Hu : forall n, (0 <= n < 4294967296)%Z -> is_u32 n) by (intros n ?; unfold is_u32; done).
  assert (Hf : is_failed masked_memory = false) by reflexivity.
  destruct (container_mask masked_memory 4278190080 16777216 masked_memory_sound Hf (Hu 4278190080%Z ltac:(lia))
    (Hu 16777216%Z ltac:(lia))) as (Hfault & db' & remaining & Hrun & _ & Hrows).
  split; [exact Hfault|]. exists db'. specialize (Hrows 16777226%Z (Hu 16777226%Z ltac:(lia))).
  assert (Hr : remaining = true) by (apply (f_equal snd) in Hrun; vm_compute in Hrun; congruence).
  rewrite <- Hr. split; [exact Hrun|]. destruct (container_gram db' 16777226); [|reflexivity].
  destruct Hrows as [Hsel _]. vm_compute in Hsel. discriminate Hsel.
Defined.
