(* ===== verification/ChunkFormat.v ===== *)
(** * ChunkFormat: phrase items and library chunks

    [crates/oxpinyin-data/src/chunk_format.rs], [chunk_write.rs] and
    [read_chunk_payload] of [user_files.rs]: one phrase item in its wire form,
    the sub-index of a library (total, offset array, entry area) and the
    memory chunk that frames it, written and read.

    A code word, key or frequency is a [Z] of its width. The texts of the
    errors are constructors. [u32] additions of [build_chunk] wrap, as they do
    in a release build. *)

From Stdlib Require Import ZArith Lia Bool Strings.Byte.
From stdpp Require Import base list sorting.
From S2P Require Import Prelude RowFormat.

#[local] Open Scope result_scope.

(** ** [chunk_format.rs] *)

Definition PHRASE_MASK : Z := 16777215.
Definition SEPARATOR : byte := "#"%byte.
Definition CHUNK_HEADER_SIZE : nat := 8.
Definition INDEX_ONE : nat := 17.
Definition FIRST_ITEM_OFFSET : nat := 8.
Definition ITEM_HEADER_SIZE : nat := 6.
Definition CHEWING_KEY_SIZE : nat := 2.

Definition chunk_checksum (payload : bytes) : Z :=
  let aligned := Nat.ldiff (length payload) 3 in
  let checksum := fold_left (fun checksum word => Z.lxor checksum (le_value word))
                    (whole_chunks 4 (take aligned payload)) 0%Z in
  (fold_left (fun st b => (Z.lxor st.1 (wrap32 (Z.shiftl (byte_val b) st.2)), st.2 + 8)%Z)
     (drop aligned payload) (checksum, 0%Z)).1.

Inductive ChunkFrameError : Type :=
  | PayloadTooLong (length : nat).

Definition u32_from_len (n : nat) : option Z :=
  if (Z.of_nat n <=? u32_max)%Z then Some (Z.of_nat n) else None.

Definition build_memory_chunk (payload : bytes) : result bytes ChunkFrameError :=
  try length_ := ok_or (u32_from_len (length payload)) (PayloadTooLong (length payload)) in
  Ok (le32 length_ ++ le32 (chunk_checksum payload) ++ payload).

(** [slice[at..at + bytes.len()].copy_from_slice(bytes)] and
    [copy_within]: outside the slice they panic. *)
Definition write_at (l : bytes) (at_ : nat) (b : bytes) : option bytes :=
  if at_ + length b <=? length l then Some (take at_ l ++ b ++ drop (at_ + length b) l) else None.

(** [None] is a panic. *)
Definition build_memory_chunk_owned (payload : bytes) : option (result bytes ChunkFrameError) :=
  match u32_from_len (length payload) with
  | None => Some (Err (PayloadTooLong (length payload)))
  | Some length_ =>
      let checksum := chunk_checksum payload in
      let end_ := length payload in
      let payload := resize (end_ + CHUNK_HEADER_SIZE) x00 payload in
      payload ← write_at payload CHUNK_HEADER_SIZE (take end_ payload);
      payload ← write_at payload 0 (le32 length_);
      payload ← write_at payload 4 (le32 checksum);
      Some (Ok payload)
  end.

(** [read_chunk_payload] of [user_files.rs]. *)
Inductive ChunkReadError : Type :=
  | ShortHeader
  | TruncatedPayload
  | ChecksumMismatch.

Definition read_chunk_payload (file : bytes) : result bytes ChunkReadError :=
  try header := ok_or (subslice file 0 CHUNK_HEADER_SIZE) ShortHeader in
  let length_ := le_value (slice header 0 4) in
  let checksum := le_value (slice header 4 8) in
  if negb (length_ =? wrap32 (Z.of_nat (length file - CHUNK_HEADER_SIZE)))%Z then Err TruncatedPayload
  else
    try end_ := ok_or (checked_add CHUNK_HEADER_SIZE (Z.to_nat length_)) TruncatedPayload in
    try payload := ok_or (subslice file CHUNK_HEADER_SIZE end_) TruncatedPayload in
    if negb (chunk_checksum payload =? checksum)%Z then Err ChecksumMismatch else Ok payload.

(** ** [chunk_write.rs]: one item *)

Record ChunkItem : Type := {
  phrase : list Z;
  unigram : Z;
  prons : list (list Z * Z)
}.

(** The messages [decode_phrase_item] and [validate_phrase_item] share. *)
Inductive PhraseItemFault : Type :=
  | NoLengthByte
  | NoCountByte
  | NoUnigram
  | TextTruncated
  | KeysTruncated
  | FreqTruncated.

Inductive ChunkWriteError : Type :=
  | SlotExceedsMask (slot : Z)
  | SlotsNotAscending (slot prev : Z)
  | PhraseLengthOutOfRange (slot : Z) (n : nat)
  | PronunciationCount (slot : Z) (n : nat)
  | OffsetOverflow (slot : Z)
  | KeyRun (slot : Z) (keys n : nat)
  | TotalOverflow
  | Frame (error : ChunkFrameError)
  | ItemPhraseLength (n : nat)
  | ItemPronunciations (n : nat)
  | ItemKeyRun (keys n : nat)
  | ItemFault (fault : PhraseItemFault)
  | SubShortHeader
  | NoLeadSeparator
  | IndexOneMismatch (index : nat)
  | NoOffsetSeparator
  | NoEntrySeparator
  | PastPayloadEnd
  | NoOffsetArray
  | NoEntryArea
  | SlotOffsetOutOfRange (slot : nat)
  | SlotItem (slot : nat) (error : ChunkWriteError).

Definition u8_max : nat := 255.

Definition word_at (b : bytes) (at_ : nat) : option Z := le_value <$> subslice b at_ (at_ + 4).

(** The bytes of the readings, then of a whole item. *)
Definition prons_wire (l : list (list Z * Z)) : bytes :=
  l ≫= fun p => (p.1 ≫= le_bytes 2) ++ le32 p.2.

Definition item_wire (item : ChunkItem) : bytes :=
  [byte_of (Z.of_nat (length (phrase item))); byte_of (Z.of_nat (length (prons item)))] ++
  le32 (unigram item) ++ (phrase item ≫= le32) ++ prons_wire (prons item).

Definition encode_phrase_item (item : ChunkItem) : result bytes ChunkWriteError :=
  let phrase_length := length (phrase item) in
  if (phrase_length =? 0) || (u8_max <? phrase_length) then Err (ItemPhraseLength phrase_length)
  else if u8_max <? length (prons item) then Err (ItemPronunciations (length (prons item)))
  else
    match List.find (fun p => negb (length p.1 =? phrase_length)) (prons item) with
    | Some p => Err (ItemKeyRun (length p.1) phrase_length)
    | None => Ok (item_wire item)
    end.

Definition validate_phrase_item (b : bytes) : result unit PhraseItemFault :=
  try length_ := ok_or (head b) NoLengthByte in
  try n := ok_or (b !! 1) NoCountByte in
  let length_ := Z.to_nat (byte_val length_) in
  let n := Z.to_nat (byte_val n) in
  if length b <? ITEM_HEADER_SIZE then Err NoUnigram
  else
    let text_end := ITEM_HEADER_SIZE + 4 * length_ in
    if length b <? text_end then Err TextTruncated
    else
      let keys := CHEWING_KEY_SIZE * length_ in
      let row := keys + 4 in
      let remaining := length b - text_end in
      if remaining <? n * row
      then Err (if remaining mod row <? keys then KeysTruncated else FreqTruncated)
      else Ok tt.

Fixpoint decode_prons (n phrase_length : nat) (b : bytes) (offset : nat)
    : result (list (list Z * Z)) ChunkWriteError :=
  match n with
  | O => Ok []
  | S n =>
      let keys_end := offset + CHEWING_KEY_SIZE * phrase_length in
      try keys_area := ok_or (subslice b offset keys_end) (ItemFault KeysTruncated) in
      let keys := le_value <$> whole_chunks 2 keys_area in
      try freq := ok_or (word_at b keys_end) (ItemFault FreqTruncated) in
      try rest := decode_prons n phrase_length b (keys_end + 4) in
      Ok ((keys, freq) :: rest)
  end.

Definition decode_phrase_item (b : bytes) : result ChunkItem ChunkWriteError :=
  try length_ := ok_or (head b) (ItemFault NoLengthByte) in
  try n := ok_or (b !! 1) (ItemFault NoCountByte) in
  let phrase_length := Z.to_nat (byte_val length_) in
  let n_prons := Z.to_nat (byte_val n) in
  try unigram := ok_or (word_at b 2) (ItemFault NoUnigram) in
  let phrase_end := 6 + 4 * phrase_length in
  try phrase_area := ok_or (subslice b 6 phrase_end) (ItemFault TextTruncated) in
  let phrase := le_value <$> whole_chunks 4 phrase_area in
  try prons := decode_prons n_prons phrase_length b phrase_end in
  Ok {| phrase := phrase; unigram := unigram; prons := prons |}.

(** ** [chunk_write.rs]: a library *)

Record ChunkState : Type := {
  entry_area : bytes;
  slot_offsets : list Z;
  total_freq : Z;
  last_slot : option Z
}.

Definition chunk_start : ChunkState :=
  {| entry_area := []; slot_offsets := []; total_freq := 0; last_slot := None |}.

(** One turn of the loop of [build_chunk]. *)
Definition chunk_step (st : ChunkState) (slot : Z) (item : ChunkItem) : result ChunkState ChunkWriteError :=
  if (PHRASE_MASK <? slot)%Z then Err (SlotExceedsMask slot)
  else
    match last_slot st ≫= (fun p => if (slot <=? p)%Z then Some p else None) with
    | Some prev => Err (SlotsNotAscending slot prev)
    | None =>
        let phrase_len := length (phrase item) in
        if (phrase_len =? 0) || (u8_max <? phrase_len)
        then Err (PhraseLengthOutOfRange slot phrase_len)
        else if u8_max <? length (prons item)
        then Err (PronunciationCount slot (length (prons item)))
        else
          let content := if (length (entry_area st) =? 0)
                         then resize FIRST_ITEM_OFFSET x00 (entry_area st) else entry_area st in
          try offset := ok_or (u32_from_len (length content)) (OffsetOverflow slot) in
          let offsets := resize (Z.to_nat slot + 1) 0%Z (slot_offsets st) in
          let offsets := <[Z.to_nat slot := offset]> offsets in
          match List.find (fun p => negb (length p.1 =? phrase_len)) (prons item) with
          | Some p => Err (KeyRun slot (length p.1) phrase_len)
          | None =>
              Ok {| entry_area := content ++ item_wire item;
                    slot_offsets := offsets;
                    total_freq := (total_freq st + unigram item)%Z;
                    last_slot := Some slot |}
          end
    end.

Fixpoint chunk_loop (st : ChunkState) (items : list (Z * ChunkItem)) : result ChunkState ChunkWriteError :=
  match items with
  | [] => Ok st
  | (slot, item) :: items =>
      try st := chunk_step st slot item in
      chunk_loop st items
  end.

(** Header, offset array and entry area between their separators. *)
Definition chunk_payload (total : Z) (offsets : list Z) (content : bytes) : bytes :=
  let index_two := wrap32 (Z.of_nat INDEX_ONE + default u32_max (u32_from_len (length offsets * 4)) + 1) in
  let index_three := wrap32 (index_two + default u32_max (u32_from_len (length content)) + 1) in
  le32 total ++ le32 (Z.of_nat INDEX_ONE) ++ le32 index_two ++ le32 index_three ++
  [SEPARATOR] ++ (offsets ≫= le32) ++ [SEPARATOR] ++ content ++ [SEPARATOR].

Definition build_chunk (items : list (Z * ChunkItem)) : result bytes ChunkWriteError :=
  try st := chunk_loop chunk_start items in
  if (u32_max <? total_freq st)%Z then Err TotalOverflow
  else
    match build_memory_chunk (chunk_payload (total_freq st) (slot_offsets st) (entry_area st)) with
    | Ok file => Ok file
    | Err e => Err (Frame e)
    end.

Definition sub_phrase_index_sections (payload : bytes) : result (Z * bytes * bytes) ChunkWriteError :=
  try header := ok_or (subslice payload 0 16) SubShortHeader in
  let u32_at offset := le_value (slice header offset (offset + 4)) in
  let total := u32_at 0 in
  let index_one := Z.to_nat (u32_at 4) in
  let index_two := Z.to_nat (u32_at 8) in
  let index_three := Z.to_nat (u32_at 12) in
  let separated index :=
    (if index =? 0 then None else payload !! (index - 1)) ≫=
    fun b => if bool_decide (b = SEPARATOR) then Some b else None in
  if negb (bool_decide (payload !! (INDEX_ONE - 1) = Some SEPARATOR)) then Err NoLeadSeparator
  else if negb (index_one =? INDEX_ONE) then Err (IndexOneMismatch index_one)
  else
    try lead := ok_or (separated index_two) NoOffsetSeparator in
    try tail_ := ok_or (separated index_three) NoEntrySeparator in
    if length payload <? index_three then Err PastPayloadEnd
    else
      try offset_array := ok_or (subslice payload index_one (index_two - 1)) NoOffsetArray in
      try area := ok_or (subslice payload index_two (index_three - 1)) NoEntryArea in
      Ok (total, offset_array, area).

(** [bytes.get(from..)]. *)
Definition get_from (b : bytes) (from : nat) : option bytes := subslice b from (length b).

Fixpoint decode_slots (slot : nat) (words : list bytes) (area : bytes)
    : result (list (Z * ChunkItem)) ChunkWriteError :=
  match words with
  | [] => Ok []
  | window :: words =>
      let offset := Z.to_nat (le_value window) in
      if offset =? 0 then decode_slots (S slot) words area
      else
        try b := ok_or (get_from area offset) (SlotOffsetOutOfRange slot) in
        match decode_phrase_item b with
        | Err e => Err (SlotItem slot e)
        | Ok item =>
            try items := decode_slots (S slot) words area in
            Ok ((default u32_max (u32_from_len slot), item) :: items)
        end
  end.

Definition decode_sub_phrase_index (payload : bytes) : result (Z * list (Z * ChunkItem)) ChunkWriteError :=
  try sections := sub_phrase_index_sections payload in
  try items := decode_slots 0 (whole_chunks 4 sections.1.2) sections.2 in
  Ok (sections.1.1, items).

(** ** Words of a fixed width *)

Definition is_u16 (z : Z) : Prop := (0 <= z < 65536)%Z.

Lemma words_of_bytes n (b : bytes) :
  0 < n -> is_multiple_of (length b) n = true ->
  (le_value <$> whole_chunks n b) ≫= le_bytes n = b /\
  Forall (fun w => 0 <= w < 2 ^ (8 * Z.of_nat n))%Z (le_value <$> whole_chunks n b) /\
  length b = n * length (whole_chunks n b).
Proof.
  intros Hn H. destruct (whole_chunks_join n b) as [Hj Hl]; [lia|done|].
  rewrite <- Hj at 2 4. clear H Hj. induction Hl as [|c cs Hc _ (IH1 & IH2 & IH3)].
  { split; [done|]. split; [constructor|]. cbn. lia. }
  rewrite fmap_cons, !bind_cons. split.
  { rewrite IH1. f_equal. rewrite <- Hc. apply le_bytes_value. }
  split; [constructor; [|done]|].
  - pose proof (le_value_range c) as Hr. by rewrite Hc in Hr.
  - rewrite length_app, IH3. cbn [length]. unfold id. lia.
Qed.

Lemma bytes_of_words n (l : list Z) :
  0 < n -> Forall (fun w => 0 <= w < 2 ^ (8 * Z.of_nat n))%Z l ->
  le_value <$> whole_chunks n (l ≫= le_bytes n) = l /\ length (l ≫= le_bytes n) = n * length l.
Proof.
  intros Hn Hl. destruct (whole_chunks_bind n (le_bytes n) l) as [-> Hlen]; [done| |].
  { intros w _. apply length_le_bytes. }
  split; [|done]. clear Hlen. induction Hl as [|w l Hw _ IH]; [done|].
  rewrite !fmap_cons, IH. f_equal. rewrite le_value_bytes. by apply Z.mod_small.
Qed.

Lemma length_words16 (l : list Z) : length (l ≫= le_bytes 2) = 2 * length l.
Proof. destruct (whole_chunks_bind 2 (le_bytes 2) l); [lia|intros; apply length_le_bytes|done]. Qed.

Lemma length_words32 (l : list Z) : length (l ≫= le32) = 4 * length l.
Proof. apply whole_words. Qed.
#[export] Hint Rewrite length_words16 length_words32 : machine.

Lemma le32_word z : is_u32 z -> le_value (le32 z) = z.
Proof. intros H. by rewrite le_value_le32, wrap32_small. Qed.

Lemma byte_of_count n : n <= u8_max -> Z.to_nat (byte_val (byte_of (Z.of_nat n))) = n.
Proof. unfold u8_max. intros H. rewrite byte_val_of, Z.mod_small by lia. lia. Qed.

Lemma byte_count b : Z.to_nat (byte_val b) <= u8_max /\ byte_of (Z.of_nat (Z.to_nat (byte_val b))) = b.
Proof.
  pose proof (byte_val_range b). unfold u8_max. split; [lia|].
  rewrite Z2Nat.id by lia. apply byte_of_val.
Qed.

Lemma word_at_in (b : bytes) at_ :
  at_ + 4 <= length b -> exists w, word_at b at_ = Some w /\ is_u32 w /\ slice b at_ (at_ + 4) = le32 w.
Proof.
  intros H. unfold word_at, slice. rewrite subslice_in by lia.
  set (t := take (at_ + 4 - at_) (drop at_ b)).
  assert (Ht : length t = 4) by (unfold t; rewrite length_take, length_drop; lia).
  exists (le_value t). split; [done|]. split; [by apply le_value_u32|]. by rewrite le32_value.
Qed.

Lemma word_at_out (b : bytes) at_ : length b < at_ + 4 -> word_at b at_ = None.
Proof. intros H. unfold word_at, subslice. by rewrite decide_False by lia. Qed.

Lemma word_at_middle (l r : bytes) w at_ :
  is_u32 w -> at_ = length l -> word_at (l ++ le32 w ++ r) at_ = Some w.
Proof.
  intros Hw ->. unfold word_at. rewrite (subslice_middle l (le32 w) r) by (rewrite ?length_le32; lia).
  cbn [fmap option_fmap option_map]. by rewrite le32_word.
Qed.

(** Cutting a list at two points. *)
Lemma slice_split {A} (b : list A) i j k :
  i <= j <= k -> slice b i k = slice b i j ++ slice b j k.
Proof.
  intros H. unfold slice. replace (k - i) with (j - i + (k - j)) by lia.
  rewrite <- take_take_drop. f_equal. rewrite drop_drop. do 2 f_equal. lia.
Qed.

Lemma length_slice {A} (b : list A) i j : i <= j <= length b -> length (slice b i j) = j - i.
Proof. intros H. unfold slice. rewrite length_take, length_drop. lia. Qed.

Lemma subslice_slice {A} (b : list A) i j : i <= j <= length b -> subslice b i j = Some (slice b i j).
Proof. apply subslice_in. Qed.

Lemma subslice_out {A} (b : list A) i j : length b < j -> subslice b i j = None.
Proof. intros H. unfold subslice. by rewrite decide_False by lia. Qed.

(** ** The items of the wire form *)

Definition pron_ok (n : nat) (p : list Z * Z) : Prop :=
  length p.1 = n /\ Forall is_u16 p.1 /\ is_u32 p.2.

(** The values a [ChunkItem] takes in the wire form: every count a byte,
    every reading as long as the phrase. *)
Definition chunk_item_ok (item : ChunkItem) : Prop :=
  length (phrase item) <= u8_max /\ length (prons item) <= u8_max /\
  Forall is_u32 (phrase item) /\ is_u32 (unigram item) /\
  Forall (pron_ok (length (phrase item))) (prons item).

Definition row_size (phrase_length : nat) : nat := CHEWING_KEY_SIZE * phrase_length + 4.

Definition item_size (item : ChunkItem) : nat :=
  ITEM_HEADER_SIZE + 4 * length (phrase item) + length (prons item) * row_size (length (phrase item)).

Lemma length_prons_wire n l :
  Forall (fun p => length p.1 = n) l -> length (prons_wire l) = length l * row_size n.
Proof.
  unfold prons_wire. induction 1 as [|p l Hp _ IH]; [done|]. rewrite bind_cons, !length_app, IH.
  autorewrite with machine. cbn [length]. unfold row_size, CHEWING_KEY_SIZE. lia.
Qed.

Lemma pron_lengths n l : Forall (pron_ok n) l -> Forall (fun p => length p.1 = n) l.
Proof. intros H. apply (Forall_impl _ _ _ H). by intros p (? & _). Qed.

Lemma length_item_wire item : chunk_item_ok item -> length (item_wire item) = item_size item.
Proof.
  intros (_ & _ & _ & _ & H%pron_lengths). unfold item_wire. rewrite !length_app.
  rewrite (length_prons_wire (length (phrase item))) by done.
  autorewrite with machine. unfold item_size, ITEM_HEADER_SIZE. cbn [length]. lia.
Qed.

Lemma decode_prons_wire n l (pre post : bytes) :
  Forall (pron_ok n) l ->
  decode_prons (length l) n (pre ++ prons_wire l ++ post) (length pre) = Ok l.
Proof.
  intros H. revert pre. induction H as [|p l (Hn & Hk & Hf) _ IH]; intros pre; [done|].
  cbn [length decode_prons]. unfold prons_wire. rewrite bind_cons. fold (prons_wire l).
  unfold CHEWING_KEY_SIZE. rewrite <- !app_assoc.
  rewrite (subslice_middle pre (p.1 ≫= le_bytes 2)) by (autorewrite with machine; lia).
  cbn [ok_or]. rewrite (app_assoc pre).
  rewrite word_at_middle by (done || (rewrite length_app; autorewrite with machine; lia)).
  cbn [ok_or]. destruct (bytes_of_words 2 p.1) as [-> _]; [lia|done|].
  rewrite (app_assoc _ (le32 p.2)).
  specialize (IH ((pre ++ (p.1 ≫= le_bytes 2)) ++ le32 p.2)).
  rewrite !length_app in IH. autorewrite with machine in IH.
  replace (length pre + 2 * n + 4) with (length pre + 2 * length p.1 + 4) by lia.
  rewrite IH. by destruct p.
Qed.

(** What [decode_prons] reads, or the run it misses first. *)
Lemma decode_prons_spec n len (b : bytes) offset :
  offset <= length b ->
  if length b - offset <? n * row_size len
  then decode_prons n len b offset =
    Err (ItemFault (if (length b - offset) mod row_size len <? 2 * len then KeysTruncated else FreqTruncated))
  else exists l, decode_prons n len b offset = Ok l /\ length l = n /\ Forall (pron_ok len) l /\
    slice b offset (offset + n * row_size len) = prons_wire l.
Proof.
  revert offset. induction n as [|n IH]; intros offset Ho.
  { rewrite (proj2 (Nat.ltb_ge _ _)) by lia. exists []. split; [done|]. split; [done|].
    split; [constructor|]. unfold slice. by replace (offset + 0 * row_size len - offset) with 0 by lia. }
  cbn [decode_prons]. unfold CHEWING_KEY_SIZE.
  assert (Hrow : row_size len = 2 * len + 4) by done.
  destruct (decide (offset + 2 * len <= length b)) as [Hk|Hk].
  2:{ rewrite subslice_out by lia. rewrite (proj2 (Nat.ltb_lt _ _)) by lia. cbn [ok_or].
      rewrite Nat.mod_small, (proj2 (Nat.ltb_lt _ _)) by lia. done. }
  rewrite subslice_slice by lia. cbn [ok_or].
  destruct (decide (offset + 2 * len + 4 <= length b)) as [Hf|Hf].
  2:{ rewrite word_at_out by lia. rewrite (proj2 (Nat.ltb_lt _ _)) by lia. cbn [ok_or].
      rewrite Nat.mod_small, (proj2 (Nat.ltb_ge _ _)) by lia. done. }
  destruct (word_at_in b (offset + 2 * len)) as (f & -> & Hfu & Hfs); [lia|]. cbn [ok_or].
  specialize (IH (offset + 2 * len + 4) Hf).
  assert (Hkeys : length (slice b offset (offset + 2 * len)) = 2 * len) by (rewrite length_slice; lia).
  destruct (words_of_bytes 2 (slice b offset (offset + 2 * len))) as (Hw & Hr & Hl);
    [lia|rewrite Hkeys; apply is_multiple_of_mul; lia|].
  destruct (length b - (offset + 2 * len + 4) <? n * row_size len) eqn:E.
  - apply Nat.ltb_lt in E. rewrite (proj2 (Nat.ltb_lt _ _)) by lia. rewrite IH.
    replace (length b - offset) with (length b - (offset + 2 * len + 4) + 1 * row_size len) by lia.
    by rewrite Nat.Div0.mod_add.
  - apply Nat.ltb_ge in E. destruct IH as (l & -> & Hn & Hok & Hs).
    rewrite (proj2 (Nat.ltb_ge _ _)) by lia. eexists. split; [done|].
    split; [cbn; lia|]. split.
    { constructor; [|done]. split; [|done]. cbn [fst]. rewrite length_fmap. lia. }
    unfold prons_wire. rewrite bind_cons. fold (prons_wire l). cbn [fst snd]. rewrite Hw, <- Hfs, <- Hs.
    replace (offset + S n * row_size len) with (offset + 2 * len + 4 + n * row_size len) by lia.
    rewrite (slice_split b offset (offset + 2 * len)) by lia.
    rewrite (slice_split b (offset + 2 * len) (offset + 2 * len + 4)) by lia. by rewrite app_assoc.
Qed.

(** ** Items: writer, validator and decoder *)

Lemma decode_item_wire item rest :
  chunk_item_ok item -> decode_phrase_item (item_wire item ++ rest) = Ok item.
Proof.
  intros (Hl & Hn & Hp & Hu & Hr). unfold decode_phrase_item, item_wire.
  set (c1 := byte_of (Z.of_nat (length (phrase item)))).
  set (c2 := byte_of (Z.of_nat (length (prons item)))).
  assert (E1 : Z.to_nat (byte_val c1) = length (phrase item)) by (by apply byte_of_count).
  assert (E2 : Z.to_nat (byte_val c2) = length (prons item)) by (by apply byte_of_count).
  rewrite <- !app_assoc. clearbody c1 c2. cbn [head app lookup list_lookup ok_or].
  rewrite E1, E2. change (c1 :: c2 :: ?x) with ([c1; c2] ++ x).
  rewrite word_at_middle by done. cbn [ok_or]. rewrite (app_assoc [c1; c2]).
  rewrite (subslice_middle _ (phrase item ≫= le32))
    by (rewrite ?length_app; autorewrite with machine; cbn [length]; lia). cbn [ok_or].
  destruct (bytes_of_words 4 (phrase item)) as [Hw _]; [lia|done|].
  fold le32 in Hw. change (le_bytes 4) with le32 in Hw. rewrite Hw.
  rewrite (app_assoc ([c1; c2] ++ le32 (unigram item))).
  pose proof (decode_prons_wire (length (phrase item)) (prons item)
    (([c1; c2] ++ le32 (unigram item)) ++ (phrase item ≫= le32)) rest Hr) as Hd.
  rewrite !length_app in Hd. autorewrite with machine in Hd. cbn [length] in Hd.
  replace (6 + 4 * length (phrase item)) with (2 + 4 + 4 * length (phrase item)) by lia.
  rewrite Hd. by destruct item.
Qed.

Lemma item_wire_inj item item' rest rest' :
  chunk_item_ok item -> chunk_item_ok item' ->
  item_wire item ++ rest = item_wire item' ++ rest' -> item = item' /\ rest = rest'.
Proof.
  intros H H' E. pose proof (decode_item_wire item rest H) as D. rewrite E in D.
  rewrite decode_item_wire in D by done. injection D as <-. by apply app_inv_head in E.
Qed.

(** The bytes of a whole item, one field after the other. *)
Lemma decode_item_bytes (b : bytes) (c1 c2 : byte) (w : Z) (ps : list (list Z * Z)) :
  let len := Z.to_nat (byte_val c1) in
  let area := slice b 6 (6 + 4 * len) in
  let item := {| phrase := le_value <$> whole_chunks 4 area; unigram := w; prons := ps |} in
  length ps = Z.to_nat (byte_val c2) -> Forall (pron_ok len) ps -> is_u32 w ->
  6 + 4 * len <= length b ->
  chunk_item_ok item /\ item_wire item = [c1; c2] ++ le32 w ++ area ++ prons_wire ps.
Proof.
  intros len area item Hn Hps Hw Hb.
  assert (Ha : length area = 4 * len) by (unfold area; rewrite length_slice; lia).
  destruct (words_of_bytes 4 area) as (E1 & E2 & E3);
    [lia|rewrite Ha; apply is_multiple_of_mul; lia|].
  assert (Elen : length (phrase item) = len) by (unfold item; cbn [phrase]; rewrite length_fmap; lia).
  destruct (byte_count c1) as [B1 B1']. destruct (byte_count c2) as [B2 B2']. split.
  - unfold chunk_item_ok. rewrite Elen. unfold item. cbn [phrase unigram prons]. rewrite Hn.
    split; [done|]. split; [done|]. split; [done|]. by split.
  - unfold item_wire. rewrite Elen. unfold item. cbn [phrase unigram prons]. rewrite Hn.
    unfold len at 1. rewrite B1', B2'. do 3 f_equal. by change le32 with (le_bytes 4) at 1; rewrite E1.
Qed.

Lemma validate_decode (b : bytes) :
  match validate_phrase_item b with
  | Err f => decode_phrase_item b = Err (ItemFault f)
  | Ok _ => exists item rest, chunk_item_ok item /\ b = item_wire item ++ rest /\ decode_phrase_item b = Ok item
  end.
Proof.
  unfold validate_phrase_item, decode_phrase_item. destruct b as [|c1 [|c2 tl]] eqn:Eb; [done|done|].
  cbn [head lookup list_lookup ok_or]. rewrite <- Eb.
  set (len := Z.to_nat (byte_val c1)). set (n := Z.to_nat (byte_val c2)).
  unfold ITEM_HEADER_SIZE, CHEWING_KEY_SIZE.
  destruct (length b <? 6) eqn:E6.
  { apply Nat.ltb_lt in E6. by rewrite word_at_out by lia. }
  apply Nat.ltb_ge in E6. destruct (word_at_in b 2) as (w & -> & Hw & Hws); [lia|].
  cbn [ok_or]. destruct (length b <? 6 + 4 * len) eqn:Et.
  { apply Nat.ltb_lt in Et. by rewrite subslice_out by lia. }
  apply Nat.ltb_ge in Et. rewrite subslice_slice by lia. cbn [ok_or].
  pose proof (decode_prons_spec n len b (6 + 4 * len) Et) as Hd. unfold row_size, CHEWING_KEY_SIZE in Hd.
  destruct (length b - (6 + 4 * len) <? n * (2 * len + 4)) eqn:En; [by rewrite Hd|].
  apply Nat.ltb_ge in En. destruct Hd as (ps & -> & Hn & Hps & Hs).
  destruct (decode_item_bytes b c1 c2 w ps) as [Hok Hwire]; [done|done|done|done|].
  eexists _, (drop (6 + 4 * len + n * (2 * len + 4)) b). split; [exact Hok|]. split; [|done].
  rewrite Hwire. fold len. rewrite <- Hws, <- Hs.
  replace [c1; c2] with (slice b 0 2) by (by rewrite Eb).
  rewrite !app_assoc, <- slice_split, <- slice_split, <- slice_split by lia.
  unfold slice. rewrite Nat.sub_0_r. cbn [drop]. by rewrite take_drop.
Qed.

Lemma validate_item_wire item rest : chunk_item_ok item -> validate_phrase_item (item_wire item ++ rest) = Ok tt.
Proof.
  intros H. pose proof (validate_decode (item_wire item ++ rest)) as V.
  rewrite decode_item_wire in V by done.
  by destruct (validate_phrase_item (item_wire item ++ rest)) as [[]|].
Qed.

(** The types of the fields of a [ChunkItem]. *)
Definition item_typed (item : ChunkItem) : Prop :=
  Forall is_u32 (phrase item) /\ is_u32 (unigram item) /\
  Forall (fun p => Forall is_u16 p.1 /\ is_u32 p.2) (prons item).

Lemma find_key_run n (l : list (list Z * Z)) :
  List.find (fun p => negb (length p.1 =? n)) l = None <-> Forall (fun p => length p.1 = n) l.
Proof.
  induction l as [|p l IH]; [done|]. cbn [List.find]. rewrite Forall_cons, <- IH.
  destruct (length p.1 =? n) eqn:E; cbn [negb].
  - apply Nat.eqb_eq in E. by intuition.
  - apply Nat.eqb_neq in E. by intuition.
Qed.

Lemma item_ok_typed item :
  item_typed item -> length (phrase item) <= u8_max -> length (prons item) <= u8_max ->
  Forall (fun p => length p.1 = length (phrase item)) (prons item) -> chunk_item_ok item.
Proof.
  intros (Hp & Hu & Ht) Hl Hn Hk. unfold chunk_item_ok. do 4 (split; [done|]).
  rewrite Forall_forall in *. intros p Hin. split; [by apply Hk|by apply Ht].
Qed.

Lemma encode_item_ok item b :
  encode_phrase_item item = Ok b ->
  0 < length (phrase item) <= u8_max /\ length (prons item) <= u8_max /\
  Forall (fun p => length p.1 = length (phrase item)) (prons item) /\ b = item_wire item.
Proof.
  unfold encode_phrase_item. destruct (length (phrase item) =? 0) eqn:E0; [done|].
  destruct (u8_max <? length (phrase item)) eqn:E1; [done|]. cbn [orb].
  destruct (u8_max <? length (prons item)) eqn:E2; [done|].
  destruct (List.find _ _) eqn:Ef; [done|]. intros [= <-].
  apply Nat.eqb_neq in E0. apply Nat.ltb_ge in E1, E2. apply find_key_run in Ef.
  split; [lia|]. by split.
Qed.

Lemma encode_item_wire item :
  chunk_item_ok item -> phrase item <> [] -> encode_phrase_item item = Ok (item_wire item).
Proof.
  intros (Hl & Hn & _ & _ & Hp%pron_lengths) Hne. unfold encode_phrase_item.
  assert (0 < length (phrase item)) by (destruct (phrase item); [done|cbn; lia]).
  rewrite (proj2 (Nat.eqb_neq _ _)), (proj2 (Nat.ltb_ge _ _)), (proj2 (Nat.ltb_ge _ _)) by lia.
  by rewrite (proj2 (find_key_run _ _)).
Qed.

(** ** The frame *)

Lemma lxor_u32 a b : is_u32 a -> is_u32 b -> is_u32 (Z.lxor a b).
Proof.
  intros Ha Hb. unfold is_u32. split; [apply Z.lxor_nonneg; unfold is_u32 in *; lia|].
  replace (Z.lxor a b) with ((Z.lxor a b) mod u32_size)%Z; [apply Z.mod_pos_bound; done|].
  change u32_size with (2 ^ 32)%Z in *. rewrite <- Z.land_ones by lia.
  apply Z.bits_inj_iff. intros i. destruct (decide (i < 0)%Z); [by rewrite !Z.testbit_neg_r by lia|].
  rewrite Z.land_spec, Z.testbit_ones_nonneg, !Z.lxor_spec by lia.
  destruct (Z.ltb_spec i 32); [by rewrite andb_true_r|]. rewrite andb_false_r.
  assert (Hbit : forall z, is_u32 z -> Z.testbit z i = false).
  { intros z [Hz1 Hz2]. change u32_size with (2 ^ 32)%Z in Hz2.
    rewrite <- (Z.mod_small z (2 ^ 32)) by lia. apply Z.mod_pow2_bits_high; lia. }
  by rewrite !Hbit.
Qed.

(** A fold keeps what each of its turns keeps. *)
Lemma fold_left_invariant {A B} (P : A -> Prop) (Q : B -> Prop) (f : A -> B -> A) l a :
  (forall a b, P a -> Q b -> P (f a b)) -> Forall Q l -> P a -> P (fold_left f l a).
Proof. intros Hf H. revert a. induction H as [|b l Hb _ IH]; intros a Ha; [done|]. cbn. eauto. Qed.

Lemma chunk_checksum_range payload : is_u32 (chunk_checksum payload).
Proof.
  unfold chunk_checksum. cbv zeta.
  apply (fold_left_invariant (fun st => is_u32 st.1) (fun _ => True)).
  { intros st b H _. apply lxor_u32; [done|apply wrap32_range]. }
  { by apply Forall_true. }
  cbn [fst]. set (aligned := Nat.ldiff (length payload) 3).
  apply (fold_left_invariant is_u32 (fun w => length w = 4)); [| |done].
  - intros c w Hc Hw. apply lxor_u32; [done|by apply le_value_u32].
  - destruct (whole_chunks_join 4 (take aligned payload)) as [_ H]; [lia| |done].
    rewrite length_take. apply Nat.eqb_eq.
    assert (aligned = length payload / 4 * 4) as ->.
    { unfold aligned. change 3 with (Nat.ones 2). rewrite Nat.ldiff_ones_r.
      by rewrite Nat.shiftl_mul_pow2, Nat.shiftr_div_pow2. }
    pose proof (Nat.div_mod_eq (length payload) 4). rewrite Nat.min_l by lia. apply Nat.Div0.mod_mul.
Qed.

Definition framed (payload : bytes) : bytes :=
  le32 (Z.of_nat (length payload)) ++ le32 (chunk_checksum payload) ++ payload.

Lemma u32_from_len_fits n : (Z.of_nat n <= u32_max)%Z -> u32_from_len n = Some (Z.of_nat n).
Proof. intros H. unfold u32_from_len. by rewrite (proj2 (Z.leb_le _ _)). Qed.

Lemma u32_from_len_some n z : u32_from_len n = Some z -> z = Z.of_nat n /\ (Z.of_nat n <= u32_max)%Z.
Proof. unfold u32_from_len. destruct (Z.leb_spec (Z.of_nat n) u32_max); [|done]. by intros [= <-]. Qed.

Lemma is_u32_len n : (Z.of_nat n <= u32_max)%Z -> is_u32 (Z.of_nat n).
Proof. unfold is_u32, u32_max. lia. Qed.

Lemma build_memory_chunk_ok payload file :
  build_memory_chunk payload = Ok file <->
  (Z.of_nat (length payload) <= u32_max)%Z /\ file = framed payload.
Proof.
  unfold build_memory_chunk, framed. split.
  - destruct (u32_from_len _) as [z|] eqn:E; [|done]. intros [= <-].
    apply u32_from_len_some in E as [-> ?]. done.
  - intros [H ->]. by rewrite u32_from_len_fits.
Qed.

Lemma checked_add_u32 a b : a <= 8 -> (Z.of_nat b <= u32_max)%Z -> checked_add a b = Some (a + b).
Proof.
  intros Ha Hb. unfold checked_add. rewrite checked_usize_small; [f_equal; lia|].
  assert (u32_max + 8 <= isize_max)%Z by (vm_compute; discriminate). lia.
Qed.

Lemma slice_front {A} (l r : list A) n : n = length l -> slice (l ++ r) 0 n = l.
Proof. intros ->. unfold slice. rewrite Nat.sub_0_r. change (drop 0 (l ++ r)) with (l ++ r). by rewrite take_app_length. Qed.

Lemma read_framed payload :
  (Z.of_nat (length payload) <= u32_max)%Z -> read_chunk_payload (framed payload) = Ok payload.
Proof.
  intros H. unfold read_chunk_payload, framed, CHUNK_HEADER_SIZE.
  set (a := le32 (Z.of_nat (length payload))). set (c := le32 (chunk_checksum payload)).
  assert (Ha : length a = 4) by apply length_le32. assert (Hc : length c = 4) by apply length_le32.
  rewrite (app_assoc a c). rewrite subslice_slice by (rewrite !length_app; lia). cbn [ok_or].
  rewrite slice_front by (rewrite length_app; lia). rewrite slice_front by lia.
  replace (slice (a ++ c) 4 8) with c.
  2:{ unfold slice. rewrite drop_app_length' by lia. by rewrite take_ge by lia. }
  assert (le_value a = Z.of_nat (length payload)) as -> by (by apply le32_word, is_u32_len).
  assert (le_value c = chunk_checksum payload) as -> by apply le32_word, chunk_checksum_range.
  rewrite !length_app, Ha, Hc. replace (4 + 4 + length payload - 8) with (length payload) by lia.
  rewrite wrap32_small, Z.eqb_refl by (by apply is_u32_len). cbn [negb]. rewrite Nat2Z.id.
  rewrite checked_add_u32 by (done || lia). cbn [ok_or].
  rewrite <- (app_nil_r payload) at 1.
  rewrite (subslice_middle (a ++ c) payload) by (rewrite length_app; lia). cbn [ok_or].
  by rewrite Z.eqb_refl.
Qed.

Lemma write_at_middle (l m r b : bytes) at_ :
  at_ = length l -> length b = length m -> write_at (l ++ m ++ r) at_ b = Some (l ++ b ++ r).
Proof.
  intros -> Hb. unfold write_at. rewrite (proj2 (Nat.leb_le _ _)) by (rewrite !length_app; lia).
  rewrite take_app_length, (app_assoc l m), drop_app_length' by (rewrite length_app; lia). done.
Qed.

Lemma write_at_front (m r b : bytes) : length b = length m -> write_at (m ++ r) 0 b = Some (b ++ r).
Proof. exact (write_at_middle [] m r b 0 eq_refl). Qed.

Lemma build_owned payload :
  build_memory_chunk_owned payload = Some (build_memory_chunk payload).
Proof.
  unfold build_memory_chunk_owned, build_memory_chunk, CHUNK_HEADER_SIZE.
  destruct (u32_from_len (length payload)) as [z|]; [|done]. cbn [ok_or].
  rewrite resize_ge by lia. replace (length payload + 8 - length payload) with 8 by lia.
  rewrite take_app_length.
  set (c := le32 (chunk_checksum payload)). assert (Hc : length c = 4) by apply length_le32.
  assert (Hz : length (le32 z) = 4) by apply length_le32.
  set (w := payload ++ replicate 8 x00).
  assert (Hw : length w = length payload + 8) by (unfold w; rewrite length_app, length_replicate; done).
  rewrite <- (take_drop 8 w), <- (app_nil_r (drop 8 w)).
  rewrite write_at_middle by (rewrite ?length_take, ?length_drop; lia). cbn [mbind option_bind].
  rewrite app_nil_r.
  rewrite <- (take_drop 4 (take 8 w)), <- app_assoc.
  rewrite write_at_front by (rewrite !length_take; lia). cbn [mbind option_bind].
  rewrite (write_at_middle (le32 z)) by (rewrite ?length_drop, ?length_take; lia). done.
Qed.

(** ** The layout of a library

    The offset array and the entry area of the items of a library, in slot
    order: the items from byte 8 on, one after the other. *)
Fixpoint slot_array (next at_ : nat) (items : list (Z * ChunkItem)) : list Z :=
  match items with
  | [] => []
  | (slot, item) :: items =>
      replicate (Z.to_nat slot - next) 0%Z ++ [Z.of_nat at_] ++
      slot_array (S (Z.to_nat slot)) (at_ + item_size item) items
  end.

Definition bodies (items : list (Z * ChunkItem)) : bytes := items ≫= fun e => item_wire e.2.

Definition content_of (items : list (Z * ChunkItem)) : bytes :=
  match items with [] => [] | _ => replicate FIRST_ITEM_OFFSET x00 ++ bodies items end.

Definition sizes (items : list (Z * ChunkItem)) : nat := sum_list_with (fun e => item_size e.2) items.
Definition unigrams (items : list (Z * ChunkItem)) : Z :=
  foldr (fun e total => (unigram e.2 + total)%Z) 0%Z items.

Definition slot_end (items : list (Z * ChunkItem)) : nat :=
  match last items with Some e => S (Z.to_nat e.1) | None => 0 end.

Definition slot_ok (e : Z * ChunkItem) : Prop :=
  (0 <= e.1 <= PHRASE_MASK)%Z /\ chunk_item_ok e.2.

Abbreviation ascending items := (StronglySorted Z.lt items.*1).

Definition layout_ok (items : list (Z * ChunkItem)) : Prop := Forall slot_ok items /\ ascending items.

(** The size of the payload a library takes. *)
Definition payload_size (items : list (Z * ChunkItem)) : nat :=
  INDEX_ONE + 4 * slot_end items + 1 + length (content_of items) + 1.

Lemma length_bodies items : Forall slot_ok items -> length (bodies items) = sizes items.
Proof.
  unfold bodies, sizes. induction 1 as [|e items [_ He] _ IH]; [done|].
  rewrite bind_cons, length_app, IH, length_item_wire by done. done.
Qed.

Lemma length_content items :
  Forall slot_ok items -> length (content_of items) = match items with [] => 0 | _ => 8 + sizes items end.
Proof.
  intros H. unfold content_of. destruct items as [|e items]; [done|].
  by rewrite length_app, length_replicate, length_bodies.
Qed.

Lemma bodies_app l k : bodies (l ++ k) = bodies l ++ bodies k.
Proof. apply bind_app. Qed.

Lemma sizes_app l k : sizes (l ++ k) = sizes l + sizes k.
Proof. apply sum_list_with_app. Qed.

Lemma unigrams_app l k : unigrams (l ++ k) = (unigrams l + unigrams k)%Z.
Proof. unfold unigrams. induction l as [|e l IH]; [done|]. cbn [app foldr]. rewrite IH. lia. Qed.

Lemma slot_end_snoc l e : slot_end (l ++ [e]) = S (Z.to_nat e.1).
Proof. unfold slot_end. by rewrite last_snoc. Qed.

Lemma ascending_cons {A} (e : Z * A) l :
  ascending (e :: l) <-> ascending l /\ Forall (fun p => (e.1 < p.1)%Z) l.
Proof.
  rewrite fmap_cons. split.
  - intros H. apply StronglySorted_inv in H as [H1 H2]. split; [done|]. by rewrite Forall_fmap in H2.
  - intros [H1 H2]. apply SSorted_cons; [done|]. by rewrite Forall_fmap.
Qed.

Lemma ascending_snoc {A} (l : list (Z * A)) e :
  ascending (l ++ [e]) <-> ascending l /\ Forall (fun p => (p.1 < e.1)%Z) l.
Proof.
  induction l as [|p l IH]; [split; intros; [split|]; repeat constructor|].
  change ((p :: l) ++ [e]) with (p :: (l ++ [e])).
  rewrite !ascending_cons, IH, Forall_app, !Forall_cons, Forall_nil. tauto.
Qed.

Lemma ascending_last {A} (l : list (Z * A)) e : ascending (l ++ [e]) -> Forall (fun p => (p.1 <= e.1)%Z) (l ++ [e]).
Proof.
  intros [_ H]%ascending_snoc. rewrite Forall_app, Forall_singleton. split; [|lia].
  apply (Forall_impl _ _ _ H). intros. cbn in *. lia.
Qed.

Lemma slot_array_snoc next at_ l s item :
  Forall slot_ok l -> ascending (l ++ [(s, item)]) -> Forall (fun p => next <= Z.to_nat p.1) l ->
  slot_array next at_ (l ++ [(s, item)]) =
  slot_array next at_ l ++ replicate (Z.to_nat s - (next + length (slot_array next at_ l))) 0%Z ++
  [Z.of_nat (at_ + sizes l)] /\
  (l <> [] -> next + length (slot_array next at_ l) = slot_end l).
Proof.
  revert next at_. induction l as [|p l IH]; intros next at_ Hok Ha Hn.
  { cbn. split; [|done]. rewrite !Nat.add_0_r. done. }
  inversion_clear Hok as [|? ? Hp Hok']. inversion_clear Hn as [|? ? Hpn Hn'].
  change ((p :: l) ++ [(s, item)]) with (p :: (l ++ [(s, item)])) in *.
  apply ascending_cons in Ha as [Ha1 Ha2].
  assert (Hnext : Forall (fun q => S (Z.to_nat p.1) <= Z.to_nat q.1) l).
  { rewrite Forall_app in Ha2. destruct Ha2 as [Ha2 _]. rewrite Forall_forall in *. intros q Hq.
    specialize (Ha2 q Hq). destruct Hp as [Hp _]. cbn in *. lia. }
  destruct p as [t it]. cbn [app slot_array fst] in *.
  destruct (IH (S (Z.to_nat t)) (at_ + item_size it) Hok' Ha1 Hnext) as [IH1 IH2].
  rewrite IH1. rewrite !length_app, length_replicate. cbn [length]. split.
  - rewrite <- !app_assoc. cbn [app]. do 4 f_equal; [f_equal; lia|].
    unfold sizes. cbn. do 2 f_equal. lia.
  - intros _. destruct l as [|q l].
    { cbn. unfold slot_end. cbn. lia. }
    unfold slot_end in *. rewrite last_cons_cons. rewrite <- IH2 by done. lia.
Qed.

(** ** What [build_chunk] writes *)

Definition chunk_items_ok (items : list (Z * ChunkItem)) : Prop :=
  layout_ok items /\ Forall (fun e => phrase e.2 <> []) items.

Definition chunk_holds (st : ChunkState) (items : list (Z * ChunkItem)) : Prop :=
  chunk_items_ok items /\ entry_area st = content_of items /\ slot_offsets st = slot_array 0 8 items /\
  total_freq st = unigrams items /\ last_slot st = fst <$> last items.

(** The slot and the fields have their types. *)
Definition entry_typed (e : Z * ChunkItem) : Prop := is_u32 e.1 /\ item_typed e.2.

Lemma chunk_start_holds : chunk_holds chunk_start [].
Proof. repeat split; constructor. Qed.

Lemma last_below (l : list (Z * ChunkItem)) s :
  ascending l ->
  (fst <$> last l) ≫= (fun p => if (s <=? p)%Z then Some p else None) = None <->
  Forall (fun p => (p.1 < s)%Z) l.
Proof.
  intros Ha. destruct l as [|e l _] using rev_ind; [split; [constructor|done]|].
  rewrite last_snoc. cbn [fmap option_fmap option_map mbind option_bind].
  destruct (Z.leb_spec s e.1) as [Hs|Hs].
  - split; [done|]. rewrite Forall_app, Forall_cons. intros (_ & H & _). lia.
  - split; [|done]. intros _. apply (Forall_impl _ _ _ (ascending_last l e Ha)). intros. cbn in *. lia.
Qed.

Lemma content_snoc l e :
  content_of (l ++ [e]) = (if length (content_of l) =? 0 then replicate 8 x00 else content_of l) ++ item_wire e.2.
Proof.
  unfold content_of at 1. rewrite bodies_app. unfold bodies at 2. cbn [mbind list_bind]. rewrite app_nil_r.
  destruct l as [|d l]; [done|]. cbn [app]. unfold content_of. rewrite length_app. cbn [length replicate].
  unfold FIRST_ITEM_OFFSET. cbn [length replicate Nat.add Nat.eqb]. by rewrite app_assoc.
Qed.

Lemma slot_array_length l : layout_ok l -> length (slot_array 0 8 l) = slot_end l.
Proof.
  intros [H1 H2]. destruct l as [|e l _] using rev_ind; [done|]. destruct e as [s item].
  rewrite Forall_app in H1. destruct H1 as [H1 _].
  assert (H3 : Forall (fun p : Z * ChunkItem => 0 <= Z.to_nat p.1) l)
    by (rewrite Forall_forall; intros; lia).
  destruct (slot_array_snoc 0 8 l s item H1 H2 H3) as [-> Hlen].
  rewrite !length_app, length_replicate, slot_end_snoc. cbn [length fst].
  destruct l as [|d l _] using rev_ind; [cbn; lia|].
  rewrite Nat.add_0_l in Hlen. rewrite Hlen by (by destruct l). rewrite slot_end_snoc.
  apply ascending_snoc in H2 as [_ H2]. rewrite Forall_app, Forall_cons in H2. destruct H2 as (_ & H2 & _).
  cbn in H2. rewrite Forall_app, Forall_cons in H1. destruct H1 as (_ & [H1 _] & _). lia.
Qed.

(** One item appended: the array takes its offset, after the gap. *)
Lemma slot_array_append l s item :
  layout_ok (l ++ [(s, item)]) ->
  <[Z.to_nat s := Z.of_nat (8 + sizes l)]> (resize (Z.to_nat s + 1) 0%Z (slot_array 0 8 l)) =
  slot_array 0 8 (l ++ [(s, item)]).
Proof.
  intros H. pose proof (slot_array_length (l ++ [(s, item)]) H) as Hfull. destruct H as [H1 H2].
  rewrite slot_end_snoc in Hfull. cbn [fst] in Hfull.
  rewrite Forall_app in H1. destruct H1 as [H1 _].
  assert (H3 : Forall (fun p : Z * ChunkItem => 0 <= Z.to_nat p.1) l)
    by (rewrite Forall_forall; intros; lia).
  destruct (slot_array_snoc 0 8 l s item H1 H2 H3) as [E _]. rewrite E in *. clear E.
  rewrite !length_app, length_replicate in Hfull. cbn [length] in Hfull. rewrite Nat.add_0_l in *.
  set (a := slot_array 0 8 l) in *. rewrite resize_ge by lia.
  replace (Z.to_nat s + 1 - length a) with (Z.to_nat s - length a + 1) by lia.
  rewrite replicate_add, app_assoc. cbn [replicate].
  rewrite insert_app_r_alt by (rewrite length_app, length_replicate; lia).
  rewrite length_app, length_replicate.
  replace (Z.to_nat s - (length a + (Z.to_nat s - length a))) with 0 by lia. cbn. by rewrite <- app_assoc.
Qed.

Lemma chunk_step_spec st l slot item :
  chunk_holds st l -> entry_typed (slot, item) ->
  match chunk_step st slot item with
  | Ok st' => chunk_holds st' (l ++ [(slot, item)])
  | Err _ => (Z.of_nat (length (content_of l)) <= u32_max)%Z -> ~ chunk_items_ok (l ++ [(slot, item)])
  end.
Proof.
  intros (([Hok Ha] & Hne) & He & Ho & Ht & Hl) [Hs Hty]. unfold chunk_step.
  assert (Hsplit : chunk_items_ok (l ++ [(slot, item)]) <->
    (slot <= PHRASE_MASK)%Z /\ Forall (fun p => (p.1 < slot)%Z) l /\ chunk_item_ok item /\ phrase item <> []).
  { unfold chunk_items_ok, layout_ok. rewrite ascending_snoc, !Forall_app, !Forall_cons, !Forall_nil.
    unfold slot_ok at 2. cbn [fst snd]. unfold is_u32 in Hs. cbn in Hs. intuition lia. }
  destruct (Z.ltb_spec PHRASE_MASK slot) as [Hm|Hm]; [intros _ (? & _)%Hsplit; lia|].
  rewrite Hl. pose proof (last_below l slot Ha) as Hlast.
  destruct (_ ≫= _) eqn:El; [intros _ (_ & ?%Hlast & _)%Hsplit; done|]. pose proof (proj1 Hlast eq_refl) as Hbelow.
  clear Hlast El.
  destruct ((length (phrase item) =? 0) || (u8_max <? length (phrase item))) eqn:Ep.
  { intros _ (_ & _ & (Hlen & _) & Hne')%Hsplit. apply orb_true_iff in Ep as [Ep|Ep].
    - apply Nat.eqb_eq in Ep. by destruct (phrase item).
    - apply Nat.ltb_lt in Ep. lia. }
  apply orb_false_iff in Ep as [Ep1%Nat.eqb_neq Ep2%Nat.ltb_ge].
  destruct (u8_max <? length (prons item)) eqn:En.
  { intros _ (_ & _ & (_ & Hn & _) & _)%Hsplit. apply Nat.ltb_lt in En. lia. }
  apply Nat.ltb_ge in En. rewrite He.
  set (content := if length (content_of l) =? 0 then _ else content_of l).
  assert (Hcontent : content = (if length (content_of l) =? 0 then replicate 8 x00 else content_of l) /\
                     length content = 8 + sizes l).
  { unfold content. rewrite length_content by done. destruct l as [|e l]; [done|]. cbn [Nat.eqb Nat.add].
    split; [done|]. by rewrite length_content. }
  destruct Hcontent as [Hcontent Hclen].
  destruct (u32_from_len (length content)) as [offset|] eqn:Eo; cbn [ok_or].
  2:{ intros Hfit _. rewrite u32_from_len_fits in Eo; [done|].
      rewrite length_content in Hfit by done. rewrite Hclen. destruct l; [done|done]. }
  apply u32_from_len_some in Eo as [-> _].
  destruct (List.find _ _) eqn:Ef.
  { intros _ (_ & _ & (_ & _ & _ & _ & Hr%pron_lengths) & _)%Hsplit.
    apply find_key_run in Hr. congruence. }
  apply find_key_run in Ef.
  assert (Hnew : chunk_items_ok (l ++ [(slot, item)])).
  { apply Hsplit. do 2 (split; [done|]). split; [by apply item_ok_typed|]. by destruct (phrase item). }
  split; [done|]. cbn [entry_area slot_offsets total_freq last_slot].
  split; [by rewrite content_snoc, Hcontent|]. split; [rewrite Ho, Hclen; apply slot_array_append, Hnew|].
  split; [rewrite unigrams_app, Ht; cbn; lia|]. by rewrite last_snoc.
Qed.

Lemma chunk_items_prefix l k : chunk_items_ok (l ++ k) -> chunk_items_ok l.
Proof.
  induction k as [|e k IH] using rev_ind; [by rewrite app_nil_r|]. rewrite app_assoc. intros [[H1 H2] H3].
  apply IH. rewrite Forall_app in H1, H3. apply ascending_snoc in H2 as [H2 _].
  split; [split|]; [apply H1|done|apply H3].
Qed.

Lemma content_prefix l k : chunk_items_ok (l ++ k) -> length (content_of l) <= length (content_of (l ++ k)).
Proof.
  intros [[H _] _]. rewrite (length_content (l ++ k)) by done. rewrite Forall_app in H.
  rewrite length_content by apply H. rewrite sizes_app. destruct l; cbn [app]; lia.
Qed.

Lemma chunk_loop_spec items st l :
  chunk_holds st l -> Forall entry_typed items ->
  match chunk_loop st items with
  | Ok st' => chunk_holds st' (l ++ items)
  | Err _ => (Z.of_nat (length (content_of (l ++ items))) <= u32_max)%Z -> ~ chunk_items_ok (l ++ items)
  end.
Proof.
  intros Hst Ht. revert st l Hst. induction Ht as [|[slot item] items He Ht IH]; intros st l Hst; cbn [chunk_loop].
  { by rewrite app_nil_r. }
  pose proof (chunk_step_spec st l slot item Hst He) as Hstep.
  replace (l ++ (slot, item) :: items) with ((l ++ [(slot, item)]) ++ items) by (by rewrite <- app_assoc).
  destruct (chunk_step st slot item) as [st'|e]; [by apply IH|].
  intros Hfit Hok. pose proof (chunk_items_prefix _ _ Hok) as Hok1.
  apply content_prefix in Hok. apply Hstep; [|done].
  pose proof (content_prefix l [(slot, item)] Hok1). lia.
Qed.

Lemma length_chunk_payload total offsets content :
  length (chunk_payload total offsets content) = INDEX_ONE + 4 * length offsets + 1 + length content + 1.
Proof. unfold chunk_payload, INDEX_ONE. rewrite !length_app. autorewrite with machine. cbn [length]. lia. Qed.

(** The payload of a library. *)
Definition library_payload (items : list (Z * ChunkItem)) : bytes :=
  chunk_payload (wrap32 (unigrams items)) (slot_array 0 8 items) (content_of items).

Lemma length_library_payload items :
  layout_ok items -> length (library_payload items) = payload_size items.
Proof. intros H. unfold library_payload. by rewrite length_chunk_payload, slot_array_length. Qed.

Lemma unigrams_nonneg items : Forall slot_ok items -> (0 <= unigrams items)%Z.
Proof.
  induction 1 as [|e items [_ (_ & _ & _ & He & _)] _ IH]; [done|]. unfold unigrams in *. cbn [foldr].
  unfold is_u32 in He. lia.
Qed.

Lemma build_chunk_spec items file :
  Forall entry_typed items ->
  build_chunk items = Ok file <->
  chunk_items_ok items /\ (unigrams items <= u32_max)%Z /\ (Z.of_nat (payload_size items) <= u32_max)%Z /\
  file = framed (library_payload items).
Proof.
  intros Ht. unfold build_chunk. pose proof (chunk_loop_spec items chunk_start [] chunk_start_holds Ht) as H.
  cbn [app] in H. destruct (chunk_loop chunk_start items) as [st|e].
  2:{ split; [done|]. intros (Hok & _ & Hs & _). exfalso. apply H; [|done].
      unfold payload_size, INDEX_ONE in Hs. lia. }
  destruct H as (Hok & Hc & Ho & Hu & _). rewrite Hc, Ho, Hu.
  pose proof (unigrams_nonneg items (proj1 (proj1 Hok))) as Hnn.
  destruct (Z.ltb_spec u32_max (unigrams items)) as [Hm|Hm]; [split; [done|]; intros (_ & ? & _); lia|].
  assert (Hpay : chunk_payload (unigrams items) (slot_array 0 8 items) (content_of items) = library_payload items).
  { unfold library_payload. rewrite wrap32_small; [done|]. unfold is_u32, u32_max in *. lia. }
  rewrite Hpay. pose proof (build_memory_chunk_ok (library_payload items)) as Hb.
  rewrite length_library_payload in Hb by apply Hok.
  destruct (build_memory_chunk _) as [f|e].
  - destruct (proj1 (Hb f) eq_refl) as [H1 ->]. split; [by intros [= <-]|]. by intros (_ & _ & _ & ->).
  - split; [done|]. intros (_ & _ & H1 & ->).
    destruct (Hb (framed (library_payload items))) as [_ H2]. by discriminate (H2 (conj H1 eq_refl)).
Qed.

(** ** Reading a library *)

Lemma wrap32_len n : (Z.of_nat n <= u32_max)%Z -> wrap32 (Z.of_nat n) = Z.of_nat n.
Proof. intros H. by apply wrap32_small, is_u32_len. Qed.

Lemma slice_at {A} (l m r : list A) i j : i = length l -> j = i + length m -> slice (l ++ m ++ r) i j = m.
Proof.
  intros -> ->. unfold slice. rewrite drop_app_length.
  replace (length l + length m - length l) with (length m) by lia. by rewrite take_app_length.
Qed.

Lemma payload_header total offsets content :
  let two := INDEX_ONE + 4 * length offsets + 1 in
  let three := two + length content + 1 in
  is_u32 total -> (Z.of_nat three <= u32_max)%Z ->
  exists body, chunk_payload total offsets content =
    le32 total ++ le32 17 ++ le32 (Z.of_nat two) ++ le32 (Z.of_nat three) ++ body /\
  chunk_payload total offsets content =
    (le32 total ++ le32 17 ++ le32 (Z.of_nat two) ++ le32 (Z.of_nat three) ++ [SEPARATOR]) ++
    (offsets ≫= le32) ++ [SEPARATOR] ++ content ++ [SEPARATOR].
Proof.
  intros two three Ht Hfit. unfold chunk_payload.
  rewrite (u32_from_len_fits (length offsets * 4)) by (unfold two, three, INDEX_ONE in *; lia).
  rewrite (u32_from_len_fits (length content)) by (unfold two, three, INDEX_ONE in *; lia). cbn [from_option id].
  replace (Z.of_nat INDEX_ONE + Z.of_nat (length offsets * 4) + 1)%Z with (Z.of_nat two)
    by (unfold two, INDEX_ONE; lia).
  rewrite (wrap32_len two) by (unfold three in *; lia).
  replace (Z.of_nat two + Z.of_nat (length content) + 1)%Z with (Z.of_nat three) by (unfold three; lia).
  rewrite (wrap32_len three) by done. change (Z.of_nat INDEX_ONE) with 17%Z.
  eexists. split; [done|]. rewrite <- !app_assoc. done.
Qed.

Lemma chunk_sections total offsets content :
  is_u32 total -> (Z.of_nat (length (chunk_payload total offsets content)) <= u32_max)%Z ->
  sub_phrase_index_sections (chunk_payload total offsets content) = Ok (total, offsets ≫= le32, content).
Proof.
  intros Ht Hfit. pose proof (length_chunk_payload total offsets content) as Hlen. rewrite Hlen in Hfit.
  destruct (payload_header total offsets content Ht Hfit) as (body & Hb & Hp).
  unfold sub_phrase_index_sections. set (p := chunk_payload total offsets content) in *.
  set (two := INDEX_ONE + 4 * length offsets + 1) in *. set (three := two + length content + 1) in *.
  set (h := le32 total ++ le32 17 ++ le32 (Z.of_nat two) ++ le32 (Z.of_nat three)).
  assert (Hh : length h = 16) by (unfold h; by rewrite !length_app, !length_le32).
  assert (Eh : p = [] ++ h ++ body) by (rewrite Hb; unfold h; by rewrite <- !app_assoc).
  assert (subslice p 0 16 = Some h) as -> by (rewrite Eh; by apply subslice_middle).
  cbn [ok_or]. 
  assert (slice h 0 (0 + 4) = le32 total) as -> by (by apply (slice_at [] (le32 total))).
  assert (slice h 4 (4 + 4) = le32 17) as -> by (by apply (slice_at (le32 total) (le32 17))).
  assert (slice h 8 (8 + 4) = le32 (Z.of_nat two)) as ->.
  { unfold h. rewrite (app_assoc (le32 total)). by apply slice_at; rewrite ?length_app, !length_le32. }
  assert (slice h 12 (12 + 4) = le32 (Z.of_nat three)) as ->.
  { unfold h. rewrite (app_assoc (le32 total)), (app_assoc (_ ++ _)), <- (app_nil_r (le32 (Z.of_nat three))).
    by apply slice_at; rewrite ?length_app, !length_le32. }
  rewrite !le32_word by (done || (apply is_u32_len; unfold three in *; lia)).
  rewrite !Nat2Z.id. change (Z.to_nat 17) with INDEX_ONE.
  set (h17 := h ++ [SEPARATOR]). assert (Hh17 : length h17 = 17) by (unfold h17; rewrite length_app, Hh; done).
  set (o := offsets ≫= le32) in *. assert (Ho : length o = 4 * length offsets) by apply length_words32.
  assert (Ep : p = h17 ++ o ++ [SEPARATOR] ++ content ++ [SEPARATOR]).
  { rewrite Hp. unfold h17, h. by rewrite <- !app_assoc. }
  assert (L16 : p !! (INDEX_ONE - 1) = Some SEPARATOR).
  { rewrite Ep. unfold h17. rewrite <- app_assoc. by apply list_lookup_middle. }
  assert (L2 : p !! (two - 1) = Some SEPARATOR).
  { rewrite Ep, app_assoc. apply list_lookup_middle. rewrite length_app. unfold two, INDEX_ONE. lia. }
  assert (L3 : p !! (three - 1) = Some SEPARATOR).
  { rewrite Ep, !app_assoc. apply list_lookup_middle. rewrite !length_app. cbn [length].
    unfold three, two, INDEX_ONE. lia. }
  rewrite L16, bool_decide_true by done. cbn [negb]. rewrite Nat.eqb_refl. cbn [negb].
  rewrite (proj2 (Nat.eqb_neq two 0)), (proj2 (Nat.eqb_neq three 0)) by (unfold three, two, INDEX_ONE; lia).
  rewrite L2, L3. cbn [mbind option_bind]. rewrite bool_decide_true by done. cbn [ok_or].
  rewrite (proj2 (Nat.ltb_ge _ _)) by (rewrite Hlen; unfold three, two; lia).
  rewrite Ep, (subslice_middle h17 o) by (unfold two, INDEX_ONE; lia). cbn [ok_or].
  rewrite (app_assoc h17), (app_assoc (h17 ++ o)).
  rewrite (subslice_middle ((h17 ++ o) ++ [SEPARATOR]) content)
    by (rewrite !length_app; cbn [length]; unfold three, two, INDEX_ONE; lia). done.
Qed.

Lemma decode_slots_gap n next words area :
  decode_slots next ((le32 <$> replicate n 0%Z) ++ words) area = decode_slots (next + n) words area.
Proof.
  revert next. induction n as [|n IH]; intros next; [by rewrite Nat.add_0_r|].
  cbn [replicate]. rewrite fmap_cons. cbn [app decode_slots]. rewrite le32_word by (by vm_compute).
  change (Z.to_nat 0 =? 0) with true. cbv iota. rewrite IH. f_equal. lia.
Qed.

Lemma layout_tail e items :
  layout_ok (e :: items) -> layout_ok items /\ Forall (fun p => (e.1 < p.1)%Z) items /\ slot_ok e.
Proof.
  intros [[He H1]%Forall_cons H2]. apply ascending_cons in H2 as [H2 H3]. split; [by split|]. by split.
Qed.

Lemma layout_next e items :
  layout_ok (e :: items) -> Forall (fun p => S (Z.to_nat e.1) <= Z.to_nat p.1) items.
Proof.
  intros (_ & H & [He _])%layout_tail. apply (Forall_impl _ _ _ H). intros p Hp. cbn in *. lia.
Qed.

Lemma get_from_app (pre post : bytes) n : n = length pre -> get_from (pre ++ post) n = Some post.
Proof.
  intros ->. unfold get_from. rewrite <- (app_nil_r post) at 1.
  apply subslice_middle; rewrite ?length_app; cbn; lia.
Qed.

Lemma decode_slots_array items next (pre post : bytes) :
  layout_ok items -> Forall (fun p => next <= Z.to_nat p.1) items -> 0 < length pre ->
  (Z.of_nat (length (pre ++ bodies items)) <= u32_max)%Z ->
  decode_slots next (le32 <$> slot_array next (length pre) items) (pre ++ bodies items ++ post) = Ok items.
Proof.
  revert next pre. induction items as [|[slot item] items IH]; intros next pre Hok Hn Hpre Hfit; [done|].
  cbn [slot_array]. rewrite !fmap_app, decode_slots_gap. apply Forall_cons in Hn as [Hn _]. cbn [fst] in Hn.
  pose proof (layout_next _ _ Hok) as Hnext. apply layout_tail in Hok as (Hok & _ & Hslot & Hitem).
  cbn [fst snd] in *.
  replace (next + (Z.to_nat slot - next)) with (Z.to_nat slot) by lia.
  change (bodies ((slot, item) :: items)) with (item_wire item ++ bodies items) in *.
  rewrite app_assoc, length_app in Hfit.
  assert (Hw : length (pre ++ item_wire item) = length pre + item_size item)
    by (by rewrite length_app, length_item_wire).
  change ((le32 <$> [Z.of_nat (length pre)]) ++ ?x) with (le32 (Z.of_nat (length pre)) :: x).
  cbn [decode_slots]. rewrite le32_word, Nat2Z.id by (apply is_u32_len; lia).
  rewrite (proj2 (Nat.eqb_neq _ _)) by lia. rewrite (get_from_app pre) by done. cbn [ok_or].
  rewrite <- app_assoc, decode_item_wire by done. rewrite (app_assoc pre), <- Hw.
  rewrite IH; [| done | done | lia | rewrite length_app; lia].
  rewrite u32_from_len_fits by (unfold PHRASE_MASK in *; unfold u32_max; change u32_size with 4294967296%Z; lia).
  cbn [from_option id]. rewrite Z2Nat.id by lia. done.
Qed.

Lemma decode_library items :
  layout_ok items -> (Z.of_nat (payload_size items) <= u32_max)%Z ->
  decode_sub_phrase_index (library_payload items) = Ok (wrap32 (unigrams items), items).
Proof.
  intros Hok Hfit. unfold decode_sub_phrase_index, library_payload.
  rewrite chunk_sections; [|apply wrap32_range|].
  2:{ fold (library_payload items). by rewrite length_library_payload. }
  cbn [fst snd]. destruct (whole_words (slot_array 0 8 items)) as [-> _].
  destruct items as [|e items]; [done|].
  pose proof (decode_slots_array (e :: items) 0 (replicate 8 x00) [] Hok) as H.
  rewrite app_nil_r in H. cbn [content_of]. unfold FIRST_ITEM_OFFSET.
  change (length (replicate 8 x00)) with 8 in H. rewrite H; [done| | lia |].
  - rewrite Forall_forall. intros. lia.
  - unfold payload_size, INDEX_ONE in Hfit. cbn [content_of] in Hfit. unfold FIRST_ITEM_OFFSET in Hfit. lia.
Qed.

(** The offsets the array holds. *)
Lemma slot_array_lookup items next at_ slot o :
  layout_ok items -> Forall (fun p => next <= Z.to_nat p.1) items -> 0 < at_ ->
  (next <= slot /\ slot_array next at_ items !! (slot - next) = Some o /\ o <> 0%Z) <->
  exists pre item post, items = pre ++ (Z.of_nat slot, item) :: post /\ o = Z.of_nat (at_ + sizes pre).
Proof.
  revert next at_. induction items as [|[s it] items IH]; intros next at_ Hok Hn Hat.
  { split; [by intros (_ & ? & _)|]. intros (pre & item & post & E & _). by destruct pre. }
  pose proof (layout_next _ _ Hok) as Hnext. apply layout_tail in Hok as (Hok & Hlt & Hslot & Hitem).
  apply Forall_cons in Hn as [Hs Hn]. cbn [fst snd] in *. specialize (IH (S (Z.to_nat s)) (at_ + item_size it) Hok Hnext).
  cbn [slot_array]. split.
  - intros (Hle & Hl & Ho). destruct (decide (slot < Z.to_nat s)) as [Hc|Hc].
    { rewrite lookup_app_l in Hl by (rewrite length_replicate; lia).
      apply lookup_replicate in Hl as [-> _]. done. }
    rewrite lookup_app_r in Hl by (rewrite length_replicate; lia). rewrite length_replicate in Hl.
    destruct (decide (slot = Z.to_nat s)) as [->|Hc'].
    { replace (Z.to_nat s - next - (Z.to_nat s - next)) with 0 in Hl by lia. injection Hl as <-.
      exists [], it, items. cbn [sizes sum_list_with app]. split; [|f_equal; unfold sizes; cbn; lia].
      by rewrite Z2Nat.id by lia. }
    replace (slot - next - (Z.to_nat s - next)) with (S (slot - S (Z.to_nat s))) in Hl by lia.
    cbn [app lookup list_lookup] in Hl.
    destruct IH as [IH _]; [lia|]. destruct IH as (pre & item & post & -> & ->); [split; [lia|done]|].
    exists ((s, it) :: pre), item, post. split; [done|]. unfold sizes. cbn. lia.
  - intros (pre & item & post & E & ->). destruct pre as [|d pre]; cbn [app] in E.
    { injection E as -> -> ->. rewrite Nat2Z.id in *. split; [done|]. split; [|unfold sizes; cbn; lia].
      rewrite lookup_app_r by (rewrite length_replicate; lia). rewrite length_replicate.
      replace (slot - next - (slot - next)) with 0 by lia. unfold sizes. cbn. f_equal. lia. }
    injection E as <- E. destruct IH as [_ IH]; [lia|].
    destruct IH as (IH1 & IH2 & IH3); [exists pre, item, post; split; [done|]; unfold sizes; cbn; lia|].
    split; [lia|]. rewrite lookup_app_r by (rewrite length_replicate; lia). rewrite length_replicate.
    replace (slot - next - (Z.to_nat s - next)) with (S (slot - S (Z.to_nat s))) by lia.
    by split.
Qed.

(** ** A decoded library, slot by slot *)

Definition slot_item (area : bytes) (offset : Z) : option ChunkItem :=
  if (offset =? 0)%Z then None
  else
    b ← get_from area (Z.to_nat offset);
    match decode_phrase_item b with Ok item => Some item | Err _ => None end.

Definition slot_at (words : list bytes) (area : bytes) (i : nat) : option ChunkItem :=
  w ← words !! i; slot_item area (le_value w).

Lemma offset_zero z : (0 <= z)%Z -> (Z.to_nat z =? 0) = (z =? 0)%Z.
Proof. intros H. apply eq_true_iff_eq. rewrite Nat.eqb_eq, Z.eqb_eq. lia. Qed.

Lemma decode_slots_ok k words area items :
  decode_slots k words area = Ok items ->
  items = omap (fun i => (fun item => (default u32_max (u32_from_len i), item)) <$>
                         slot_at words area (i - k)) (seq k (length words)) /\
  Forall (fun w => le_value w <> 0%Z -> is_Some (slot_item area (le_value w))) words.
Proof.
  revert k items. induction words as [|w words IH]; intros k items; cbn [decode_slots].
  { intros [= <-]. split; [done|constructor]. }
  rewrite offset_zero by (pose proof (le_value_range w); lia).
  assert (Htail : forall tl,
    tl = omap (fun i => (fun item => (default u32_max (u32_from_len i), item)) <$>
           slot_at words area (i - S k)) (seq (S k) (length words)) ->
    omap (fun i => (fun item => (default u32_max (u32_from_len i), item)) <$>
           slot_at (w :: words) area (i - k)) (seq k (length (w :: words))) =
    match slot_item area (le_value w) with
    | Some item => [(default u32_max (u32_from_len k), item)]
    | None => []
    end ++ tl).
  { intros tl ->. cbn [length seq omap list_omap]. rewrite Nat.sub_diag. unfold slot_at at 1.
    cbn [lookup list_lookup mbind option_bind].
    assert (forall A (x : option A) l, match x with Some y => y :: l | None => l end =
              match x with Some y => [y] | None => [] end ++ l) as -> by (by intros A [] l).
    f_equal; [by destruct (slot_item area (le_value w))|].
    apply omap_ext_in. intros i Hi%elem_of_seq. unfold slot_at.
    replace (i - k) with (S (i - S k)) by lia. done. }
  unfold slot_item in Htail |- *. destruct (Z.eqb_spec (le_value w) 0) as [Hz|Hz].
  - intros H. destruct (IH (S k) items H) as [H1 H2]. split; [by rewrite (Htail items H1)|].
    constructor; [intros; lia|done].
  - destruct (get_from area (Z.to_nat (le_value w))) as [b|] eqn:Eb; cbn [ok_or]; [|done].
    destruct (decode_phrase_item b) as [item|] eqn:Ed; [|done].
    destruct (decode_slots (S k) words area) as [tl|] eqn:Et; [|done]. intros [= <-].
    destruct (IH (S k) tl Et) as [H1 H2]. rewrite (Htail tl H1). cbn [mbind option_bind]. rewrite Ed.
    split; [done|]. constructor; [|done]. intros _. rewrite (proj2 (Z.eqb_neq _ _)) by done.
    rewrite Eb. cbn [mbind option_bind]. rewrite Ed. by eexists.
Qed.

(** ** The sections of a payload *)

(** What the four words and three separators of an accepted payload say. *)
Record sections_of (p : bytes) (total : Z) (two three : nat) : Prop := {
  word_total : word_at p 0 = Some total;
  word_one : word_at p 4 = Some 17%Z;
  word_two : word_at p 8 = Some (Z.of_nat two);
  word_three : word_at p 12 = Some (Z.of_nat three);
  lead_separator : p !! 16 = Some SEPARATOR;
  offset_separator : p !! (two - 1) = Some SEPARATOR;
  entry_separator : p !! (three - 1) = Some SEPARATOR;
  sections_order : 17 < two /\ two < three <= length p
}.

Lemma slice_slice {A} (l : list A) n i j : i <= j <= n -> slice (slice l 0 n) i j = slice l i j.
Proof.
  intros H. apply list_eq. intros k. unfold slice. rewrite Nat.sub_0_r. change (drop 0 l) with l.
  destruct (decide (k < j - i)).
  - rewrite !lookup_take_lt, !lookup_drop by lia. rewrite lookup_take_lt by lia. done.
  - by rewrite !lookup_take_ge by lia.
Qed.

Lemma word_at_slice (p : bytes) i : i + 4 <= length p -> word_at p i = Some (le_value (slice p i (i + 4))).
Proof. intros H. unfold word_at. by rewrite subslice_slice by lia. Qed.

Lemma sections_inv p total offs area :
  sub_phrase_index_sections p = Ok (total, offs, area) ->
  exists two three, sections_of p total two three /\
    offs = slice p 17 (two - 1) /\ area = slice p two (three - 1).
Proof.
  unfold sub_phrase_index_sections. destruct (subslice p 0 16) as [header|] eqn:Eh; [|done]. cbn [ok_or].
  assert (Hp : 16 <= length p).
  { unfold subslice in Eh. case_decide; [lia|done]. }
  rewrite subslice_slice in Eh by lia. injection Eh as <-.
  destruct (bool_decide (p !! (INDEX_ONE - 1) = Some SEPARATOR)) eqn:E1; cbn [negb]; [|done].
  apply bool_decide_eq_true in E1.
  assert (W : forall i, i + 4 <= 16 -> word_at p i = Some (le_value (slice (slice p 0 16) i (i + 4)))).
  { intros i Hi. rewrite slice_slice by lia. apply word_at_slice. lia. }
  pose proof (W 0) as W0. pose proof (W 4) as W4. pose proof (W 8) as W8. pose proof (W 12) as W12. clear W.
  set (w0 := le_value (slice (slice p 0 16) 0 (0 + 4))) in *.
  set (w1 := le_value (slice (slice p 0 16) 4 (4 + 4))) in *.
  set (w2 := le_value (slice (slice p 0 16) 8 (8 + 4))) in *.
  set (w3 := le_value (slice (slice p 0 16) 12 (12 + 4))) in *.
  assert (P1 : (0 <= w1)%Z) by (unfold w1; apply le_value_range).
  assert (P2 : (0 <= w2)%Z) by (unfold w2; apply le_value_range).
  assert (P3 : (0 <= w3)%Z) by (unfold w3; apply le_value_range).
  clearbody w0 w1 w2 w3.
  destruct (Nat.eqb_spec (Z.to_nat w1) INDEX_ONE) as [E17|]; cbn [negb]; [|done]. unfold INDEX_ONE in E17.
  assert (S : forall w b, (if Z.to_nat w =? 0 then None else p !! (Z.to_nat w - 1)) ≫=
     (fun b => if bool_decide (b = SEPARATOR) then Some b else None) = Some b -> p !! (Z.to_nat w - 1) = Some SEPARATOR).
  { intros w b. destruct (Z.to_nat w =? 0); [done|]. destruct (p !! (Z.to_nat w - 1)) as [c|]; [|done].
    cbn [mbind option_bind]. destruct (bool_decide (c = SEPARATOR)) eqn:E; [|done].
    apply bool_decide_eq_true in E. by subst c. }
  destruct (_ ≫= _) as [b2|] eqn:E2; cbn [ok_or]; [|done]. apply S in E2.
  destruct ((if Z.to_nat w3 =? 0 then _ else _) ≫= _) as [b3|] eqn:E3; cbn [ok_or]; [|done]. apply S in E3.
  destruct (Nat.ltb_spec (length p) (Z.to_nat w3)) as [|H3]; [done|].
  destruct (subslice p (Z.to_nat w1) (Z.to_nat w2 - 1)) as [o|] eqn:Eo; cbn [ok_or]; [|done].
  destruct (subslice p (Z.to_nat w2) (Z.to_nat w3 - 1)) as [a|] eqn:Ea; cbn [ok_or]; [|done].
  intros [= <- <- <-]. unfold subslice in Eo, Ea. case_decide as Ho; [|done]. case_decide as Ha; [|done].
  injection Eo as <-. injection Ea as <-. rewrite E17 in *.
  exists (Z.to_nat w2), (Z.to_nat w3). split; [|by unfold slice].
  split; [apply W0; lia| |rewrite W8 by lia; f_equal; lia|rewrite W12 by lia; f_equal; lia|exact E1|exact E2|exact E3|lia].
  rewrite W4 by lia. f_equal. lia.
Qed.

(** ** Words of a section, by index *)

Lemma chunks_of_lookup {A} k n (l : list A) i :
  i < k -> chunks_of k n l !! i = Some (take n (drop (i * n) l)).
Proof.
  revert k l. induction i as [|i IH]; intros [|k] l H; try lia; cbn [chunks_of lookup list_lookup]; [done|].
  rewrite IH by lia. by rewrite drop_drop.
Qed.

Lemma whole_chunks_lookup n (l : bytes) i :
  i < length l / n -> whole_chunks n l !! i = Some (slice l (n * i) (n * i + n)).
Proof.
  intros H. unfold whole_chunks, as_chunks. cbn [fst]. rewrite chunks_of_lookup by done.
  unfold slice. replace (n * i + n - n * i) with n by lia. by rewrite Nat.mul_comm.
Qed.

Lemma length_whole_chunks n (l : bytes) : length (whole_chunks n l) = length l / n.
Proof.
  unfold whole_chunks, as_chunks. cbn [fst]. generalize (length l / n). intros k. revert l.
  induction k as [|k IH]; intros l; [done|]. cbn [chunks_of length]. by rewrite IH.
Qed.

Lemma slice_of_slice {A} (l : list A) a b i j : i <= j -> a + j <= b -> slice (slice l a b) i j = slice l (a + i) (a + j).
Proof.
  intros H1 H2. apply list_eq. intros k. unfold slice.
  replace (a + j - (a + i)) with (j - i) by lia. destruct (decide (k < j - i)).
  - rewrite !lookup_take_lt, !lookup_drop by lia. rewrite lookup_take_lt, lookup_drop by lia. f_equal. lia.
  - by rewrite !lookup_take_ge by lia.
Qed.
