(* ===== verification/PhraseLibrary.v ===== *)
(** * PhraseLibrary: reading one library

    [crates/oxpinyin-data/src/phrase_library.rs]: the view of an item in place
    and the per-library phrase index over the payload of a chunk. Opening and
    mapping a file is file access; a mapping is the bytes mapped.

    [usize] additions are checked where the source checks them. *)

From Stdlib Require Import ZArith Lia Bool Strings.Byte.
From stdpp Require Import base list sorting.
From S2P Require Import Prelude Ucs4 RowFormat ChunkFormat.

#[local] Open Scope result_scope.

Definition u32_at (b : bytes) (offset : nat) : option Z :=
  end_ ← checked_add offset 4;
  le_value <$> subslice b offset end_.

(** ** The view of one item *)

Record PronunciationView : Type := {
  view_keys : bytes;
  view_freq : Z
}.

Record PhraseItemView : Type := {
  view_bytes : bytes
}.

Definition byte_len (o : option byte) : nat :=
  match o with Some b => Z.to_nat (byte_val b) | None => 0 end.

Definition view_phrase_length (v : PhraseItemView) : nat := byte_len (head (view_bytes v)).

Definition n_pronunciations (v : PhraseItemView) : nat := byte_len (view_bytes v !! 1).

Definition view_unigram (v : PhraseItemView) : Z := default 0%Z (u32_at (view_bytes v) 2).

Definition total_size (v : PhraseItemView) : option nat :=
  let length_ := view_phrase_length v in
  keys ← checked_mul CHEWING_KEY_SIZE length_;
  row ← checked_add keys 4;
  per_pron ← checked_mul row (n_pronunciations v);
  start ← checked_add ITEM_HEADER_SIZE (4 * length_);
  checked_add start per_pron.

Definition view_from_bytes (b : bytes) : option PhraseItemView :=
  match validate_phrase_item b with
  | Err _ => None
  | Ok _ =>
      size ← total_size {| view_bytes := b |};
      item ← subslice b 0 size;
      Some {| view_bytes := item |}
  end.

Definition phrase_codes (v : PhraseItemView) : list (option Z) :=
  (fun index =>
     offset ← checked_add ITEM_HEADER_SIZE (4 * index);
     u32_at (view_bytes v) offset) <$> seq 0 (view_phrase_length v).

Definition phrase_chars (v : PhraseItemView) : list (option Z) :=
  (fun code => code ≫= char_from_u32) <$> phrase_codes v.

Definition phrase_text (v : PhraseItemView) : option PhraseText := from_stored_words (phrase_codes v).

Definition checked_sub (a b : nat) : option nat := if b <=? a then Some (a - b) else None.

Definition pronunciation (v : PhraseItemView) (index : nat) : option PronunciationView :=
  if n_pronunciations v <=? index then None
  else
    keys_size ← checked_mul CHEWING_KEY_SIZE (view_phrase_length v);
    stride ← checked_add keys_size 4;
    base ← checked_add ITEM_HEADER_SIZE (4 * view_phrase_length v);
    skip ← checked_mul index stride;
    start ← checked_add base skip;
    to_freq ← checked_sub stride 4;
    freq_start ← checked_add start to_freq;
    keys_end ← checked_add start (CHEWING_KEY_SIZE * view_phrase_length v);
    keys ← subslice (view_bytes v) start keys_end;
    freq ← u32_at (view_bytes v) freq_start;
    Some {| view_keys := keys; view_freq := freq |}.

Definition pronunciations (v : PhraseItemView) : list PronunciationView :=
  (fun index => default {| view_keys := []; view_freq := 0 |} (pronunciation v index)) <$>
  seq 0 (n_pronunciations v).

(** ** The library *)

Inductive LibraryBytes : Type :=
  | Mapped (b : bytes)
  | Owned (b : bytes).

Definition library_slice (f : LibraryBytes) : bytes :=
  match f with Mapped b | Owned b => b end.

Record PhraseLibrary : Type := {
  file : option LibraryBytes;
  payload_range : nat * nat;
  library_total : Z;
  offsets_range : nat * nat;
  content_range : nat * nat;
  layout_failed : bool;
  item_total_cell : option Z;
  detached_range_end : option Z
}.

Definition PhraseLibrary_empty (total : Z) : PhraseLibrary :=
  {| file := None; payload_range := (0, 0); library_total := total; offsets_range := (0, 0);
     content_range := (0, 0); layout_failed := true; item_total_cell := None;
     detached_range_end := None |}.

Definition PhraseLibrary_compact (l : PhraseLibrary) : PhraseLibrary :=
  if layout_failed l
  then {| file := file l; payload_range := payload_range l; library_total := 0;
          offsets_range := offsets_range l; content_range := content_range l;
          layout_failed := layout_failed l; item_total_cell := item_total_cell l;
          detached_range_end := detached_range_end l |}
  else l.

(** The [LibraryError::Format] refusals of the layout. *)
Inductive LayoutRefusal : Type :=
  | PayloadTooShort
  | OffsetSeparatorOutOfBounds
  | EntrySeparatorOutOfBounds
  | SectionsOutOfOrder
  | OffsetArrayNotWords.

Definition library_from_bytes (f : LibraryBytes) (payload : nat * nat) : result PhraseLibrary LayoutRefusal :=
  let payload_bytes := slice (library_slice f) payload.1 payload.2 in
  let total_freq := default 0%Z (u32_at payload_bytes 0) in
  let layout := {| file := Some f; payload_range := payload; library_total := total_freq;
                   offsets_range := (0, 0); content_range := (0, 0); layout_failed := true;
                   item_total_cell := None; detached_range_end := None |} in
  if (length payload_bytes <? INDEX_ONE) ||
     negb (bool_decide (payload_bytes !! (INDEX_ONE - 1) = Some SEPARATOR)) then Ok layout
  else
    try one := ok_or (u32_at payload_bytes 4) PayloadTooShort in
    try two := ok_or (u32_at payload_bytes 8) PayloadTooShort in
    try three := ok_or (u32_at payload_bytes 12) PayloadTooShort in
    let index_one := Z.to_nat one in
    let index_two := Z.to_nat two in
    let index_three := Z.to_nat three in
    let inside index := at_ ← checked_sub index 1; if at_ <? length payload_bytes then Some at_ else None in
    try second := ok_or (inside index_two) OffsetSeparatorOutOfBounds in
    if negb (bool_decide (payload_bytes !! second = Some SEPARATOR)) then Ok layout
    else
      try third := ok_or (inside index_three) EntrySeparatorOutOfBounds in
      if negb (bool_decide (payload_bytes !! third = Some SEPARATOR)) then Ok layout
      else if (index_two <=? index_one) || (index_three <=? index_two) then Err SectionsOutOfOrder
      else if negb (is_multiple_of (index_two - index_one - 1) 4) then Err OffsetArrayNotWords
      else
        Ok {| file := Some f; payload_range := payload; library_total := total_freq;
              offsets_range := (index_one, index_two - 1); content_range := (index_two, index_three - 1);
              layout_failed := false; item_total_cell := None; detached_range_end := None |}.

Definition from_payload (payload : bytes) : result PhraseLibrary LayoutRefusal :=
  library_from_bytes (Owned payload) (0, length payload).

Definition library_payload_bytes (l : PhraseLibrary) : bytes :=
  default [] (subslice (match file l with Some f => library_slice f | None => [] end)
                (payload_range l).1 (payload_range l).2).

(** The loop of [token_range]: trailing empty slots trimmed. *)
Fixpoint trim_range (payload : bytes) (start : nat) (end_ : nat) : nat :=
  match end_ with
  | O => 0
  | S n =>
      if 1 <? end_ then
        match u32_at payload (start + 4 * (end_ - 1)) with
        | Some offset => if (offset =? 0)%Z then trim_range payload start n else end_
        | None => trim_range payload start n
        end
      else end_
  end.

Definition token_range (l : PhraseLibrary) : Z * Z :=
  match detached_range_end l with
  | Some range_end => (1, range_end)%Z
  | None =>
      let slots := ((offsets_range l).2 - (offsets_range l).1) / 4 in
      let end_ := trim_range (library_payload_bytes l) (offsets_range l).1 slots in
      (1%Z, default u32_max (u32_from_len (Nat.max end_ 1)))
  end.

Definition has_items (l : PhraseLibrary) : bool := (content_range l).1 <? (content_range l).2.

Definition slot_offset (l : PhraseLibrary) (slot : nat) : option Z :=
  at_ ← checked_mul slot 4;
  start ← checked_add at_ (offsets_range l).1;
  end_ ← checked_add start 4;
  if (offsets_range l).2 <? end_ then None else u32_at (library_payload_bytes l) start.

Definition content_bytes (l : PhraseLibrary) : option bytes :=
  subslice (library_payload_bytes l) (content_range l).1 (content_range l).2.

Definition item_at_slot (l : PhraseLibrary) (slot : nat) : option PhraseItemView :=
  offset ← slot_offset l slot;
  if (offset =? 0)%Z then None
  else
    let offset := Z.to_nat offset in
    content ← content_bytes l;
    item_bytes ← get_from content offset;
    total ← total_size {| view_bytes := item_bytes |};
    end_ ← checked_add offset total;
    if length content <? end_ then None
    else
      item ← subslice content offset (offset + total);
      Some {| view_bytes := item |}.

Definition masked_slot (token : Z) : nat := Z.to_nat (Z.land token PHRASE_MASK).

Definition library_item (l : PhraseLibrary) (token : Z) : option PhraseItemView :=
  item_at_slot l (masked_slot token).

Definition pronunciation_count (l : PhraseLibrary) (token : Z) : option Z :=
  offset ← slot_offset l (masked_slot token);
  if (offset =? 0)%Z then None
  else
    let offset := Z.to_nat offset in
    content ← content_bytes l;
    _ ← content !! offset;
    at_ ← checked_add offset 1;
    byte_val <$> content !! at_.

Definition content_offset (l : PhraseLibrary) (token : Z) : option Z :=
  offset ← slot_offset l (masked_slot token);
  if (offset =? 0)%Z then None else Some offset.

Definition slot_offset_word (l : PhraseLibrary) (slot : Z) : option Z := slot_offset l (Z.to_nat slot).

Definition library_items (l : PhraseLibrary) : list (Z * PhraseItemView) :=
  omap (fun slot => (fun item => (default u32_max (u32_from_len slot), item)) <$> item_at_slot l slot)
    (seq 0 (((offsets_range l).2 - (offsets_range l).1) / 4)).

Definition original_item_count (l : PhraseLibrary) : nat := length (library_items l).

(** The sum is computed once and kept. *)
Definition item_total (l : PhraseLibrary) : Z * PhraseLibrary :=
  let total := match item_total_cell l with
               | Some total => total
               | None => fold_left (fun total e => (total +₃₂ view_unigram e.2)%M)
                           (filter (fun e => (1 <= e.1)%Z) (library_items l)) 0%Z
               end in
  (total, {| file := file l; payload_range := payload_range l; library_total := library_total l;
             offsets_range := offsets_range l; content_range := content_range l;
             layout_failed := layout_failed l; item_total_cell := Some total;
             detached_range_end := detached_range_end l |}).

(** ** The live mapping *)

Record PhraseContent : Type := {
  mapping : bytes;
  live_offsets : nat * nat;
  live_area : nat * nat
}.

Definition area_slice (c : PhraseContent) : bytes := slice (mapping c) (live_area c).1 (live_area c).2.

Definition offsets_slice (c : PhraseContent) : bytes := slice (mapping c) (live_offsets c).1 (live_offsets c).2.

Definition is_detached (l : PhraseLibrary) : bool :=
  match detached_range_end l with Some _ => true | None => false end.

Definition take_live_content (l : PhraseLibrary) : option PhraseContent * PhraseLibrary :=
  if is_detached l then (None, l)
  else
    match file l with
    | Some (Mapped b) =>
        (Some {| mapping := b;
                 live_offsets := ((payload_range l).1 + (offsets_range l).1, (payload_range l).1 + (offsets_range l).2);
                 live_area := ((payload_range l).1 + (content_range l).1, (payload_range l).1 + (content_range l).2) |},
         {| file := None; payload_range := payload_range l; library_total := library_total l;
            offsets_range := offsets_range l; content_range := content_range l;
            layout_failed := layout_failed l; item_total_cell := item_total_cell l;
            detached_range_end := Some (token_range l).2 |})
    | _ => (None, l)
    end.

(** ** The view of a wire form *)

Lemma checked_add_small a b : (Z.of_nat (a + b) <= u32_max + 8)%Z -> checked_add a b = Some (a + b).
Proof.
  intros H. unfold checked_add. rewrite checked_usize_small; [f_equal; lia|].
  assert (u32_max + 8 <= isize_max)%Z by (vm_compute; discriminate). lia.
Qed.

Lemma checked_mul_small a b : (Z.of_nat (a * b) <= u32_max + 8)%Z -> checked_mul a b = Some (a * b).
Proof.
  intros H. unfold checked_mul. rewrite checked_usize_small; [f_equal; lia|].
  assert (u32_max + 8 <= isize_max)%Z by (vm_compute; discriminate). lia.
Qed.

(** Discharges the checks of small sums and products. *)
Ltac checked_ops :=
  repeat (first [rewrite checked_add_small by lia | rewrite checked_mul_small by lia]; cbn [mbind option_bind]).

(** The largest item: 255 words and 255 readings. *)
Definition item_max : nat := ITEM_HEADER_SIZE + 4 * u8_max + u8_max * row_size u8_max.

Lemma item_max_value : Z.of_nat item_max = 132096%Z.
Proof. done. Qed.

Lemma item_size_bound item : chunk_item_ok item -> item_size item <= item_max.
Proof.
  intros (Hl & Hn & _). unfold item_size, item_max.
  assert (row_size (length (phrase item)) <= row_size u8_max) by (unfold row_size, CHEWING_KEY_SIZE; lia).
  pose proof (Nat.mul_le_mono _ _ _ _ Hn H). lia.
Qed.

Definition view_of (item : ChunkItem) : PhraseItemView := {| view_bytes := item_wire item |}.

(** The size a header names, of any bytes; a missing byte counts as zero. *)
Definition header_size (b : bytes) : nat :=
  ITEM_HEADER_SIZE + 4 * byte_len (head b) + byte_len (b !! 1) * row_size (byte_len (head b)).

Lemma byte_len_bound o : byte_len o <= u8_max.
Proof. destruct o as [b|]; [apply byte_count|cbn; lia]. Qed.

Lemma header_size_bound b : header_size b <= item_max.
Proof.
  unfold header_size, item_max. pose proof (byte_len_bound (head b)) as Hl.
  pose proof (byte_len_bound (b !! 1)) as Hn.
  assert (row_size (byte_len (head b)) <= row_size u8_max) by (unfold row_size, CHEWING_KEY_SIZE; lia).
  pose proof (Nat.mul_le_mono _ _ _ _ Hn H). lia.
Qed.

Lemma total_size_header b : total_size {| view_bytes := b |} = Some (header_size b).
Proof.
  pose proof (header_size_bound b) as Hb. unfold header_size in Hb |- *.
  unfold total_size, view_phrase_length, n_pronunciations. cbn [view_bytes].
  pose proof (byte_len_bound (head b)) as Hl. pose proof (byte_len_bound (b !! 1)) as Hn.
  pose proof item_max_value. unfold row_size, CHEWING_KEY_SIZE, ITEM_HEADER_SIZE, u8_max in *.
  assert (132096 <= u32_max)%Z by (vm_compute; discriminate).
  set (n := byte_len (head b)) in *. set (k := byte_len (b !! 1)) in *.
  checked_ops. f_equal. lia.
Qed.

Lemma header_size_wire item rest :
  chunk_item_ok item -> header_size (item_wire item ++ rest) = item_size item.
Proof.
  intros (Hl & Hn & _). unfold header_size, item_wire, byte_len.
  cbn [head app lookup list_lookup]. by rewrite !byte_of_count.
Qed.

Lemma validate_size b : (exists u, validate_phrase_item b = Ok u) <-> header_size b <= length b.
Proof.
  unfold validate_phrase_item, header_size, row_size, byte_len, ITEM_HEADER_SIZE.
  destruct b as [|c1 [|c2 tl]] eqn:Eb; [split; [by intros [? ?]|cbn; lia]..|].
  cbn [head lookup list_lookup ok_or]. rewrite <- Eb.
  set (len := Z.to_nat (byte_val c1)). set (n := Z.to_nat (byte_val c2)).
  destruct (Nat.ltb_spec (length b) 6) as [H6|H6]; [split; [by intros [? ?]|lia]|].
  destruct (Nat.ltb_spec (length b) (6 + 4 * len)) as [Ht|Ht]; [split; [by intros [? ?]|lia]|].
  destruct (Nat.ltb_spec (length b - (6 + 4 * len)) (n * (CHEWING_KEY_SIZE * len + 4))) as [Hr|Hr];
    [split; [by intros [? ?]|lia]|].
  split; [lia|]. by eexists.
Qed.

(** A view is the bytes its header names, when they are there. *)
Lemma view_from_bytes_size b :
  view_from_bytes b =
  if header_size b <=? length b then Some {| view_bytes := take (header_size b) b |} else None.
Proof.
  unfold view_from_bytes. pose proof (validate_size b) as H. destruct (validate_phrase_item b) as [u|f].
  - assert (Hs : header_size b <= length b) by (apply H; by eexists).
    rewrite total_size_header, (proj2 (Nat.leb_le _ _)) by done. cbn [mbind option_bind].
    rewrite subslice_slice by lia. cbn [mbind option_bind]. unfold slice. by rewrite Nat.sub_0_r.
  - rewrite (proj2 (Nat.leb_gt _ _)); [done|]. apply Nat.nle_gt. intros Hs.
    apply H in Hs as [? ?]. done.
Qed.

Lemma view_from_wire item rest :
  chunk_item_ok item -> view_from_bytes (item_wire item ++ rest) = Some (view_of item).
Proof.
  intros H. unfold view_from_bytes. rewrite validate_item_wire, total_size_header, header_size_wire by done.
  cbn [mbind option_bind]. rewrite <- length_item_wire by done.
  change (item_wire item ++ rest) with ([] ++ item_wire item ++ rest). by rewrite subslice_middle.
Qed.

(** The view is refused exactly where the decoder is. *)
Lemma view_from_bytes_spec b :
  match decode_phrase_item b with
  | Ok item => view_from_bytes b = Some (view_of item) /\ chunk_item_ok item
  | Err _ => view_from_bytes b = None
  end.
Proof.
  pose proof (validate_decode b) as H. destruct (validate_phrase_item b) as [u|f] eqn:E.
  - destruct H as (item & rest & Hok & -> & ->). split; [by apply view_from_wire|done].
  - rewrite H. unfold view_from_bytes. by rewrite E.
Qed.

Section view_of.
Context (item : ChunkItem) (item_good : chunk_item_ok item).

Lemma view_phrase_length_of : view_phrase_length (view_of item) = length (phrase item).
Proof using item_good. destruct item_good as (Hl & _). by apply byte_of_count. Qed.

Lemma n_pronunciations_of : n_pronunciations (view_of item) = length (prons item).
Proof using item_good. destruct item_good as (_ & Hn & _). by apply byte_of_count. Qed.

Lemma u32_at_word (b : bytes) at_ : at_ <= item_max -> u32_at b at_ = word_at b at_.
Proof using.
  intros H. unfold u32_at, word_at. rewrite checked_add_small; [done|]. pose proof item_max_value.
  assert (132096 + 4 <= u32_max)%Z by (vm_compute; discriminate). lia.
Qed.

Lemma view_unigram_of : view_unigram (view_of item) = unigram item.
Proof using item_good.
  destruct item_good as (_ & _ & _ & Hu & _). unfold view_unigram. rewrite u32_at_word by (pose proof item_max_value; lia).
  unfold view_of, item_wire. cbn [view_bytes]. by rewrite word_at_middle.
Qed.

(** The bytes before reading [i]: the header, the text, [i] rows. *)
Lemma wire_pron i p :
  prons item !! i = Some p ->
  exists pre post, item_wire item = pre ++ (p.1 ≫= le_bytes 2) ++ le32 p.2 ++ post /\
    length pre = ITEM_HEADER_SIZE + 4 * length (phrase item) + i * row_size (length (phrase item)).
Proof using item_good.
  intros Hi. destruct item_good as (_ & _ & _ & _ & Hr).
  pose proof (take_drop_middle _ _ _ Hi) as E. unfold item_wire.
  eexists ((([byte_of (Z.of_nat (length (phrase item))); byte_of (Z.of_nat (length (prons item)))] ++
           le32 (unigram item)) ++ (phrase item ≫= le32)) ++ prons_wire (take i (prons item))),
          (prons_wire (drop (S i) (prons item))). split.
  - rewrite <- E at 2. unfold prons_wire. rewrite bind_app, bind_cons, <- !app_assoc. done.
  - rewrite !length_app, (length_prons_wire (length (phrase item))).
    2:{ apply Forall_take. by apply pron_lengths. }
    autorewrite with machine. rewrite length_take. cbn [length].
    apply lookup_lt_Some in Hi. rewrite Nat.min_l by lia. unfold ITEM_HEADER_SIZE. lia.
Qed.

Lemma pronunciation_of i p :
  prons item !! i = Some p ->
  pronunciation (view_of item) i = Some {| view_keys := p.1 ≫= le_bytes 2; view_freq := p.2 |}.
Proof using item_good.
  intros Hi. destruct (wire_pron i p Hi) as (pre & post & E & Hpre).
  pose proof (item_size_bound item item_good) as Hmax.
  assert (Hp : length p.1 = length (phrase item) /\ is_u32 p.2).
  { destruct item_good as (_ & _ & _ & _ & Hr). rewrite Forall_lookup in Hr.
    destruct (Hr i p Hi) as (? & _ & ?). done. }
  destruct Hp as [Hp Hf]. pose proof (lookup_lt_Some _ _ _ Hi) as Hlt.
  unfold pronunciation. rewrite n_pronunciations_of, view_phrase_length_of.
  rewrite (proj2 (Nat.leb_gt _ _)) by done.
  assert (132096 <= u32_max)%Z by (vm_compute; discriminate).
  assert (Hin : ITEM_HEADER_SIZE + 4 * length (phrase item) + i * row_size (length (phrase item)) +
                row_size (length (phrase item)) <= item_max).
  { unfold item_size in Hmax. nia. }
  pose proof item_max_value. unfold row_size, CHEWING_KEY_SIZE, ITEM_HEADER_SIZE in *.
  set (n := length (phrase item)) in *.
  checked_ops. unfold checked_sub at 1. rewrite (proj2 (Nat.leb_le _ _)) by lia.
  cbn [mbind option_bind]. checked_ops.
  unfold view_of. cbn [view_bytes]. rewrite E.
  rewrite (subslice_middle pre (p.1 ≫= le_bytes 2)) by (autorewrite with machine; lia).
  cbn [mbind option_bind]. rewrite u32_at_word by (pose proof item_max_value; lia). rewrite (app_assoc pre).
  rewrite word_at_middle by (done || (rewrite length_app; autorewrite with machine; lia)). done.
Qed.

Lemma pronunciations_of :
  pronunciations (view_of item) =
  (fun p => {| view_keys := p.1 ≫= le_bytes 2; view_freq := p.2 |}) <$> prons item.
Proof using item_good.
  unfold pronunciations. rewrite n_pronunciations_of. apply list_eq. intros i.
  rewrite !list_lookup_fmap. destruct (prons item !! i) as [p|] eqn:E.
  - rewrite lookup_seq_lt by (by eapply lookup_lt_Some). cbn [fmap option_fmap option_map Nat.add].
    by rewrite (pronunciation_of i p E).
  - rewrite lookup_seq_ge by (by apply lookup_ge_None). done.
Qed.

Lemma phrase_codes_of : phrase_codes (view_of item) = Some <$> phrase item.
Proof using item_good.
  unfold phrase_codes. rewrite view_phrase_length_of. apply list_eq. intros i.
  rewrite !list_lookup_fmap. destruct (phrase item !! i) as [w|] eqn:E.
  2:{ rewrite lookup_seq_ge by (by apply lookup_ge_None). done. }
  pose proof (lookup_lt_Some _ _ _ E) as Hlt. rewrite lookup_seq_lt by done.
  cbn [fmap option_fmap option_map]. f_equal. unfold ITEM_HEADER_SIZE. rewrite Nat.add_0_l.
  destruct item_good as (Hl & _ & Hw & _). unfold u8_max in Hl. rewrite Forall_lookup in Hw.
  assert (132096 <= u32_max)%Z by (vm_compute; discriminate).
  rewrite checked_add_small by lia. cbn [mbind option_bind]. rewrite u32_at_word by (pose proof item_max_value; lia).
  unfold view_of, item_wire. cbn [view_bytes].
  set (c := byte_of (Z.of_nat (length (phrase item)))). set (d := byte_of _). clearbody c d.
  rewrite <- (take_drop_middle _ _ _ E), bind_app, bind_cons, <- !app_assoc.
  rewrite (app_assoc [c; d]), (app_assoc ([c; d] ++ _)).
  apply word_at_middle; [by eapply Hw|].
  rewrite !length_app. autorewrite with machine. rewrite length_take. cbn [length]. lia.
Qed.
End view_of.

(** ** An attached library *)

Definition attached (p : bytes) (total : Z) (two three : nat) : PhraseLibrary :=
  {| file := Some (Owned p); payload_range := (0, length p); library_total := total;
     offsets_range := (17, two - 1); content_range := (two, three - 1);
     layout_failed := false; item_total_cell := None; detached_range_end := None |}.

Lemma from_payload_sections p total two three :
  sections_of p total two three ->
  from_payload p = if is_multiple_of (two - 1 - 17) 4 then Ok (attached p total two three)
                   else Err OffsetArrayNotWords.
Proof.
  intros [W0 W1 W2 W3 S1 S2 S3 [O1 O2]]. unfold from_payload, library_from_bytes.
  cbn [library_slice fst snd]. assert (slice p 0 (length p) = p) as ->.
  { unfold slice. rewrite Nat.sub_0_r. change (drop 0 p) with p. by apply take_ge. }
  rewrite !u32_at_word by (pose proof item_max_value; lia). rewrite W0, W1, W2, W3.
  rewrite (proj2 (Nat.ltb_ge _ _)) by (unfold INDEX_ONE; lia).
  change (INDEX_ONE - 1) with 16. rewrite S1, bool_decide_true by done. cbn [orb negb ok_or from_option id].
  rewrite !Nat2Z.id. unfold checked_sub. rewrite !(proj2 (Nat.leb_le 1 _)) by lia. cbn [mbind option_bind].
  rewrite !(proj2 (Nat.ltb_lt _ _)) by lia. cbn [ok_or]. rewrite S2, S3, bool_decide_true by done. cbn [negb].
  rewrite (proj2 (Nat.leb_gt _ _)) by lia. rewrite (proj2 (Nat.leb_gt _ _)) by lia. cbn [orb].
  change (Z.to_nat 17) with 17. replace (two - 17 - 1) with (two - 1 - 17) by lia.
  by destruct (is_multiple_of (two - 1 - 17) 4).
Qed.

Lemma checked_add_some a b c : checked_add a b = Some c -> c = a + b.
Proof. unfold checked_add, checked_usize. destruct (_ <=? _)%Z; [|done]. intros [= <-]. lia. Qed.

Lemma checked_mul_some a b c : checked_mul a b = Some c -> c = a * b.
Proof. unfold checked_mul, checked_usize. destruct (_ <=? _)%Z; [|done]. intros [= <-]. lia. Qed.

Section attached.
Context (p : bytes) (total : Z) (two three : nat).
Context (sections : sections_of p total two three).
Context (fits : (Z.of_nat (length p) <= u32_max)%Z).

Abbreviation offs := (slice p 17 (two - 1)).
Abbreviation area := (slice p two (three - 1)).
Abbreviation lib := (attached p total two three).

Lemma attached_payload : library_payload_bytes lib = p.
Proof using Type.
  unfold library_payload_bytes, attached. cbn [file payload_range library_slice fst snd].
  rewrite subslice_slice by lia. unfold slice. rewrite Nat.sub_0_r. change (drop 0 p) with p.
  by apply take_ge.
Qed.

Lemma attached_content : content_bytes lib = Some area.
Proof using sections.
  pose proof (sections_order _ _ _ _ sections) as [O1 O2].
  unfold content_bytes. rewrite attached_payload. cbn [content_range attached fst snd].
  by rewrite subslice_slice by lia.
Qed.

Lemma length_offs : length offs = two - 1 - 17.
Proof using sections. pose proof (sections_order _ _ _ _ sections) as [O1 O2]. rewrite length_slice; lia. Qed.

Lemma u32_at_slice at_ :
  at_ + 4 <= length p -> u32_at p at_ = Some (le_value (slice p at_ (at_ + 4))).
Proof using fits.
  intros H. unfold u32_at. rewrite checked_add_small by lia. cbn [mbind option_bind].
  by rewrite subslice_slice by lia.
Qed.

Lemma attached_slot_offset slot :
  slot_offset lib slot = le_value <$> whole_chunks 4 offs !! slot.
Proof using sections fits.
  pose proof length_offs as Hlen. pose proof (sections_order _ _ _ _ sections) as [O1 O2].
  unfold slot_offset. cbn [offsets_range attached fst snd]. rewrite attached_payload.
  destruct (decide (slot < length offs / 4)) as [Hs|Hs].
  - pose proof (Nat.Div0.mul_div_le (length offs) 4).
    rewrite whole_chunks_lookup by done. checked_ops. 
    rewrite (proj2 (Nat.ltb_ge _ _)) by lia. rewrite u32_at_slice by lia. cbn [fmap option_fmap option_map].
    do 2 f_equal. rewrite slice_of_slice by lia. f_equal; lia.
  - rewrite (proj2 (lookup_ge_None (whole_chunks 4 offs) slot)) by (rewrite length_whole_chunks; lia).
    assert (length offs < slot * 4 + 4).
    { pose proof (Nat.div_mod_eq (length offs) 4). pose proof (Nat.mod_upper_bound (length offs) 4). lia. }
    destruct (checked_mul slot 4) as [a|] eqn:Ea; [|done]. apply checked_mul_some in Ea.
    cbn [mbind option_bind].
    destruct (checked_add a 17) as [b|] eqn:Eb; [|done]. apply checked_add_some in Eb.
    cbn [mbind option_bind].
    destruct (checked_add b 4) as [c|] eqn:Ec; [|done]. apply checked_add_some in Ec.
    cbn [mbind option_bind]. by rewrite (proj2 (Nat.ltb_lt _ _)) by lia.
Qed.

Lemma attached_item slot :
  item_at_slot lib slot = view_of <$> slot_at (whole_chunks 4 offs) area slot.
Proof using sections fits.
  unfold item_at_slot, slot_at. rewrite attached_slot_offset, attached_content.
  destruct (whole_chunks 4 offs !! slot) as [w|] eqn:Ew; [|done].
  cbn [fmap option_fmap option_map mbind option_bind]. unfold slot_item.
  destruct (Z.eqb_spec (le_value w) 0) as [Hz|Hz]; [done|].
  set (o := Z.to_nat (le_value w)).
  destruct (get_from area o) as [b|] eqn:Eb; [|done]. cbn [mbind option_bind].
  rewrite total_size_header. cbn [mbind option_bind].
  assert (Hb : b = drop o area /\ o <= length area).
  { unfold get_from, subslice in Eb. case_decide as Ho; [|done]. injection Eb as <-.
    split; [|lia]. apply take_ge. rewrite length_drop. lia. }
  destruct Hb as [-> Ho]. pose proof (header_size_bound (drop o area)) as Hmax.
  assert (Ha : length area <= length p)
    by (pose proof (sections_order _ _ _ _ sections) as [O1 O2]; rewrite length_slice; lia).
  assert (Hmax' : (Z.of_nat (header_size (drop o area)) <= 132096)%Z) by (pose proof item_max_value; lia).
  assert (checked_add o (header_size (drop o area)) = Some (o + header_size (drop o area))) as ->.
  { unfold checked_add. rewrite checked_usize_small; [f_equal; lia|].
    assert (u32_max + 132096 <= isize_max)%Z by (vm_compute; discriminate). lia. }
  cbn [mbind option_bind].
  pose proof (view_from_bytes_spec (drop o area)) as Hv. rewrite view_from_bytes_size in Hv.
  rewrite length_drop in Hv.
  destruct (decide (o + header_size (drop o area) <= length area)) as [Hin|Hin].
  - rewrite (proj2 (Nat.ltb_ge _ _)) by lia. rewrite (proj2 (Nat.leb_le _ _)) in Hv by lia.
    rewrite subslice_slice by lia. cbn [mbind option_bind].
    destruct (decode_phrase_item (drop o area)) as [item|]; [|done]. destruct Hv as [[= Hv] _].
    cbn [fmap option_fmap option_map]. f_equal. unfold view_of. f_equal. rewrite <- Hv.
    unfold slice. f_equal. lia.
  - rewrite (proj2 (Nat.ltb_lt _ _)) by lia. rewrite (proj2 (Nat.leb_gt _ _)) in Hv by lia.
    destruct (decode_phrase_item (drop o area)) as [item|]; [|done]. by destruct Hv.
Qed.

Lemma attached_items items :
  decode_slots 0 (whole_chunks 4 offs) area = Ok items ->
  library_items lib = (fun e => (e.1, view_of e.2)) <$> items.
Proof using sections fits.
  intros H. apply decode_slots_ok in H as [-> _]. unfold library_items.
  cbn [offsets_range attached fst snd]. rewrite <- length_offs, length_whole_chunks.
  induction (seq 0 (length offs / 4)) as [|i l IH]; [done|]. cbn [omap list_omap].
  rewrite attached_item, Nat.sub_0_r. destruct (slot_at _ _ i) as [item|];
    cbn [fmap option_fmap option_map]; [|exact IH]. rewrite fmap_cons. cbn [fst snd]. by f_equal.
Qed.
End attached.

(** The trimmed end: the last slot below it has an offset, none above does. *)
Lemma trim_range_spec payload start n :
  let e := trim_range payload start n in
  e <= n /\ (0 < n -> 0 < e) /\
  (1 < e -> exists o, u32_at payload (start + 4 * (e - 1)) = Some o /\ o <> 0%Z) /\
  (forall i, e <= i < n -> forall o, u32_at payload (start + 4 * i) = Some o -> o = 0%Z).
Proof.
  induction n as [|n IH]; cbv zeta in *; cbn [trim_range]; [repeat split; lia|].
  destruct (Nat.ltb_spec 1 (S n)) as [H1|H1]; [|repeat split; lia].
  replace (S n - 1) with n by lia. destruct IH as (I1 & I2 & I3 & I4).
  assert (Hstep : (forall o, u32_at payload (start + 4 * n) = Some o -> o = 0%Z) ->
    forall i, trim_range payload start n <= i < S n -> forall o, u32_at payload (start + 4 * i) = Some o -> o = 0%Z).
  { intros Hz i Hi. destruct (decide (i = n)) as [->|]; [done|]. apply I4. lia. }
  destruct (u32_at payload (start + 4 * n)) as [o|] eqn:Eo.
  - destruct (Z.eqb_spec o 0) as [->|Ho].
    + split; [lia|]. split; [lia|]. split; [done|]. apply Hstep. by intros ? [= <-].
    + split; [lia|]. split; [lia|]. split; [|intros; lia]. intros _. exists o.
      by replace (S n - 1) with n by lia.
  - split; [lia|]. split; [lia|]. split; [done|]. by apply Hstep.
Qed.

Section attached_range.
Context (p : bytes) (total : Z) (two three : nat).
Context (sections : sections_of p total two three).
Context (fits : (Z.of_nat (length p) <= u32_max)%Z).

Lemma attached_word slot :
  slot < (two - 1 - 17) / 4 ->
  exists w, whole_chunks 4 (slice p 17 (two - 1)) !! slot = Some w /\ u32_at p (17 + 4 * slot) = Some (le_value w).
Proof using sections fits.
  intros Hs. pose proof (length_offs p total two three sections) as Hlen.
  pose proof (Nat.Div0.mul_div_le (two - 1 - 17) 4). pose proof (sections_order _ _ _ _ sections) as [O1 O2].
  rewrite whole_chunks_lookup by (by rewrite Hlen). eexists. split; [done|].
  rewrite (u32_at_slice p fits) by lia. do 2 f_equal. rewrite slice_of_slice by lia. f_equal; lia.
Qed.

Lemma attached_token_range :
  exists e, token_range (attached p total two three) = (1%Z, Z.of_nat e) /\ 1 <= e /\
    (1 < e -> exists w, whole_chunks 4 (slice p 17 (two - 1)) !! (e - 1) = Some w /\ le_value w <> 0%Z) /\
    (forall i w, e <= i -> whole_chunks 4 (slice p 17 (two - 1)) !! i = Some w -> le_value w = 0%Z).
Proof using sections fits.
  unfold token_range. cbn [detached_range_end offsets_range attached fst snd].
  rewrite attached_payload. set (n := (two - 1 - 17) / 4).
  destruct (trim_range_spec p 17 n) as (T1 & T2 & T3 & T4). set (e := trim_range p 17 n) in *.
  assert (Hn : 4 * n <= two) by (pose proof (Nat.Div0.mul_div_le (two - 1 - 17) 4); unfold n; lia).
  pose proof (sections_order _ _ _ _ sections) as [O1 O2].
  exists (Nat.max e 1). split.
  { rewrite u32_from_len_fits by lia. done. }
  split; [lia|]. split.
  - intros He. replace (Nat.max e 1) with e by lia. destruct T3 as (o & Ho & Hz); [lia|].
    destruct (attached_word (e - 1)) as (w & Hw & Hu); [fold n; lia|]. exists w. split; [done|]. congruence.
  - intros i w Hi Hw. assert (Hin : i < n).
    { apply lookup_lt_Some in Hw. rewrite length_whole_chunks, (length_offs p total two three sections) in Hw. done. }
    destruct (attached_word i Hin) as (w' & Hw' & Hu). replace w' with w in * by congruence.
    apply (T4 i); [lia|done].
Qed.

Lemma elem_of_attached_items slot v :
  (slot, v) ∈ library_items (attached p total two three) <->
  exists i, slot = Z.of_nat i /\ item_at_slot (attached p total two three) i = Some v.
Proof using sections fits.
  assert (Hlt : forall i v, item_at_slot (attached p total two three) i = Some v -> i < (two - 1 - 17) / 4).
  { intros i x. rewrite (attached_item p total two three sections fits). unfold slot_at.
    destruct (whole_chunks 4 _ !! i) as [w|] eqn:E; [|done]. intros _. apply lookup_lt_Some in E.
    by rewrite length_whole_chunks, (length_offs p total two three sections) in E. }
  assert (Hmax : (Z.of_nat ((two - 1 - 17) / 4) <= u32_max)%Z).
  { pose proof (sections_order _ _ _ _ sections) as [O1 O2]. pose proof (Nat.Div0.mul_div_le (two - 1 - 17) 4). lia. }
  unfold library_items. cbn [offsets_range attached fst snd]. rewrite list_elem_of_omap. split.
  - intros (i & Hi%elem_of_seq & E). destruct (item_at_slot _ i) as [x|] eqn:Ex; [|done].
    cbn [fmap option_fmap option_map] in E. rewrite u32_from_len_fits in E by lia.
    injection E as <- <-. by exists i.
  - intros (i & -> & E). pose proof (Hlt _ _ E). exists i. split; [apply elem_of_seq; lia|]. rewrite E.
    cbn [fmap option_fmap option_map]. by rewrite u32_from_len_fits by lia.
Qed.
End attached_range.

(** ** The chunk round trip *)

(** What the accessors of a view of [item] read. *)
Definition reads_item (v : PhraseItemView) (item : ChunkItem) : Prop :=
  view_phrase_length v = length (phrase item) /\ n_pronunciations v = length (prons item) /\
  view_unigram v = unigram item /\ phrase_codes v = Some <$> phrase item /\
  pronunciations v =
    (fun p => {| view_keys := p.1 ≫= le_bytes 2; view_freq := p.2 |}) <$> prons item.

Lemma view_of_reads item : chunk_item_ok item -> reads_item (view_of item) item.
Proof.
  intros H. split; [by apply view_phrase_length_of|]. split; [by apply n_pronunciations_of|].
  split; [by apply view_unigram_of|]. split; [by apply phrase_codes_of|]. by apply pronunciations_of.
Qed.

Lemma library_sections items :
  layout_ok items -> (Z.of_nat (payload_size items) <= u32_max)%Z ->
  exists two three, sections_of (library_payload items) (wrap32 (unigrams items)) two three /\
    slot_array 0 8 items ≫= le32 = slice (library_payload items) 17 (two - 1) /\
    content_of items = slice (library_payload items) two (three - 1).
Proof.
  intros Hok Hfit. apply sections_inv. unfold library_payload. apply chunk_sections; [apply wrap32_range|].
  fold (library_payload items). by rewrite length_library_payload.
Qed.

(** The array ends in an offset. *)
Lemma last_word_nonzero items :
  layout_ok items -> (Z.of_nat (payload_size items) <= u32_max)%Z -> 1 < slot_end items ->
  exists w, (le32 <$> slot_array 0 8 items) !! (slot_end items - 1) = Some w /\ le_value w <> 0%Z.
Proof.
  intros Hok Hfit H1. destruct items as [|d l _] using rev_ind; [cbn in H1; lia|].
  rewrite slot_end_snoc in *. destruct d as [s item]. cbn [fst] in *.
  destruct (slot_array_lookup (l ++ [(s, item)]) 0 8 (Z.to_nat s) (Z.of_nat (8 + sizes l)) Hok) as [_ H2];
    [rewrite Forall_forall; intros; lia|lia|].
  destruct Hok as [Hok _]. pose proof Hok as Hs. rewrite Forall_app, Forall_cons in Hs.
  destruct Hs as (_ & [Hs _] & _). cbn [fst] in Hs.
  destruct H2 as (_ & H2 & _); [exists l, item, []; split; [|done]; by rewrite Z2Nat.id by lia|].
  rewrite Nat.sub_0_r in *. replace (S (Z.to_nat s) - 1) with (Z.to_nat s) by lia.
  rewrite list_lookup_fmap, H2. eexists. split; [done|]. rewrite le32_word; [lia|].
  apply is_u32_len. unfold payload_size, INDEX_ONE in Hfit. rewrite length_content, sizes_app in Hfit by done.
  destruct (l ++ [(s, item)]) eqn:E; [by destruct l|]. lia.
Qed.

Lemma library_reader items :
  layout_ok items -> (Z.of_nat (payload_size items) <= u32_max)%Z ->
  exists l, from_payload (library_payload items) = Ok l /\ layout_failed l = false /\
    library_total l = wrap32 (unigrams items) /\
    library_items l = (fun e => (e.1, view_of e.2)) <$> items /\
    (forall token v, library_item l token = Some v <->
      exists item, (Z.land token PHRASE_MASK, item) ∈ items /\ v = view_of item) /\
    token_range l = (1%Z, Z.of_nat (Nat.max (slot_end items) 1)).
Proof.
  intros Hok Hfit. destruct (library_sections items Hok Hfit) as (two & three & Hs & Ho & Hc).
  set (p := library_payload items) in *.
  assert (Hp : (Z.of_nat (length p) <= u32_max)%Z) by (unfold p; by rewrite length_library_payload).
  pose proof (length_offs _ _ _ _ Hs) as Hlen. rewrite <- Ho, length_words32 in Hlen.
  pose proof (from_payload_sections _ _ _ _ Hs) as Hfrom. rewrite <- Hlen, is_multiple_of_mul in Hfrom by lia.
  exists (attached p (wrap32 (unigrams items)) two three). split; [exact Hfrom|].
  split; [done|]. split; [done|].
  assert (Hitems : library_items (attached p (wrap32 (unigrams items)) two three) =
                   (fun e => (e.1, view_of e.2)) <$> items).
  { apply (attached_items _ _ _ _ Hs Hp).
    pose proof (decode_library items Hok Hfit) as Hd. unfold decode_sub_phrase_index in Hd.
    unfold library_payload in Hd at 1. rewrite chunk_sections in Hd; [|apply wrap32_range|exact Hp].
    cbn [fst snd] in Hd. rewrite <- Ho, <- Hc.
    destruct (decode_slots 0 _ _) as [l|]; [|done]. by injection Hd as ->. }
  split; [done|]. split.
  - intros token v. unfold library_item, masked_slot.
    assert (Hz : (0 <= Z.land token PHRASE_MASK)%Z) by (apply Z.land_nonneg; by right).
    pose proof (elem_of_attached_items _ _ _ _ Hs Hp (Z.land token PHRASE_MASK) v) as He.
    rewrite Hitems in He. rewrite list_elem_of_fmap in He. split.
    + intros Hv. destruct (proj2 He) as ([s item] & [= E1 E2] & Hin).
      { exists (Z.to_nat (Z.land token PHRASE_MASK)). split; [lia|done]. }
      exists item. by subst.
    + intros (item & Hin & ->). destruct (proj1 He) as (i & E & Hv).
      { by exists (Z.land token PHRASE_MASK, item). }
      rewrite E, Nat2Z.id. done.
  - destruct (attached_token_range _ _ _ _ Hs Hp) as (e & -> & E1 & E2 & E3). do 2 f_equal.
    rewrite <- Ho in E2, E3. destruct (whole_words (slot_array 0 8 items)) as [Hw _]. rewrite Hw in E2, E3.
    assert (Hwords : forall i w, (le32 <$> slot_array 0 8 items) !! i = Some w -> le_value w <> 0%Z ->
                     i < slot_end items).
    { intros i w Hi _. apply lookup_lt_Some in Hi. by rewrite length_fmap, slot_array_length in Hi. }
    pose proof (last_word_nonzero items Hok Hfit) as Hlast.
    destruct (decide (1 < slot_end items)) as [Hse|Hse].
    + destruct (Hlast Hse) as (w & Hw1 & Hw2). destruct (decide (e < slot_end items)) as [He|He].
      { exfalso. apply Hw2. apply (E3 (slot_end items - 1)); [lia|done]. }
      destruct (decide (1 < e)) as [He1|He1]; [|lia]. destruct (E2 He1) as (w' & Hw' & Hz').
      apply Hwords in Hw'; [lia|done].
    + destruct (decide (1 < e)) as [He1|He1]; [|lia]. destruct (E2 He1) as (w' & Hw' & Hz').
      apply Hwords in Hw'; [lia|done].
Qed.

(** C38. Phrase items and library chunks: [build_chunk] writes exactly the
    libraries with ascending slots up to [PHRASE_MASK], non-empty phrases,
    counts that fit a byte, readings as long as their phrase, and a total and
    payload of 32 bits. The file it writes reads back, through
    [read_chunk_payload], [decode_sub_phrase_index] and [PhraseLibrary], to
    the same items, total, tokens and range; and one item's encoder, decoder,
    validator and view agree on every byte string, trailing bytes and
    truncations included, with the same diagnostic. *)
Theorem chunk_round_trip items :
  Forall entry_typed items ->
  ((exists file, build_chunk items = Ok file) <->
   chunk_items_ok items /\ (unigrams items <= u32_max)%Z /\ (Z.of_nat (payload_size items) <= u32_max)%Z) /\
  (forall file, build_chunk items = Ok file -> exists payload l,
     read_chunk_payload file = Ok payload /\
     decode_sub_phrase_index payload = Ok (unigrams items, items) /\
     from_payload payload = Ok l /\ layout_failed l = false /\ library_total l = unigrams items /\
     library_items l = (fun e => (e.1, view_of e.2)) <$> items /\
     (forall token v, library_item l token = Some v <->
        exists item, (Z.land token PHRASE_MASK, item) ∈ items /\ v = view_of item) /\
     token_range l = (1%Z, Z.of_nat (Nat.max (slot_end items) 1)) /\
     Forall (fun e => encode_phrase_item e.2 = Ok (item_wire e.2) /\ reads_item (view_of e.2) e.2) items) /\
  (forall b, match decode_phrase_item b with
             | Ok item => validate_phrase_item b = Ok tt /\ view_from_bytes b = Some (view_of item) /\
                          exists rest, b = item_wire item ++ rest
             | Err e => exists f, e = ItemFault f /\ validate_phrase_item b = Err f /\ view_from_bytes b = None
             end).
Proof.
  intros Ht. split; [|split].
  - split.
    + intros [file H]. apply build_chunk_spec in H as (? & ? & ? & _); done.
    + intros (H1 & H2 & H3). eexists. by apply build_chunk_spec.
  - intros file H. apply build_chunk_spec in H as ([Hok Hne] & Hu & Hfit & ->); [|done].
    pose proof (unigrams_nonneg items (proj1 Hok)) as Hnn.
    assert (Hw : wrap32 (unigrams items) = unigrams items)
      by (apply wrap32_small; unfold is_u32, u32_max in *; lia).
    destruct (library_reader items Hok Hfit) as (l & L1 & L2 & L3 & L4 & L5 & L6).
    exists (library_payload items), l. rewrite Hw in L3.
    split; [apply read_framed; by rewrite length_library_payload|].
    split; [rewrite decode_library by done; by rewrite Hw|].
    do 6 (split; [done|]). destruct Hok as [Hok _]. rewrite Forall_forall in *. intros e He.
    destruct (Hok e He) as [_ Hi]. split; [apply encode_item_wire; auto|by apply view_of_reads].
  - intros b. pose proof (validate_decode b) as Hv. pose proof (view_from_bytes_spec b) as Hs.
    destruct (validate_phrase_item b) as [[]|f].
    + destruct Hv as (item & rest & _ & Hb & Hd). rewrite Hd in *. split; [done|]. split; [apply Hs|]. by exists rest.
    + rewrite Hv in *. by exists f.
Qed.

(** One item in the wire form: the text U+4F60, unigram 3, one reading. *)
Definition sample_item : ChunkItem :=
  {| phrase := [20320%Z]; unigram := 3; prons := [([4660%Z], 7%Z)] |}.

Example sample_wire :
  item_wire sample_item = [x01; x01; x03; x00; x00; x00; x60; x4f; x00; x00; x34; x12; x07; x00; x00; x00].
Proof. reflexivity. Qed.

(** The vectors the source pins for the checksum and the frame. *)
Example checksum_vectors :
  chunk_checksum [] = 0%Z /\ chunk_checksum [x01; x00; x00; x00; x02; x00; x00; x00] = 3%Z /\
  chunk_checksum [x01; x02; x03] = 197121%Z /\ chunk_checksum [x00; x00; x00; x00; x09] = 9%Z /\
  build_memory_chunk [x01; x02; x03] = Ok [x03; x00; x00; x00; x01; x02; x03; x00; x01; x02; x03].
Proof. vm_compute. repeat split. Qed.

Lemma chunk_round_trip_witness :
  exists file, build_chunk [(1%Z, sample_item); (5%Z, sample_item)] = Ok file /\
  exists payload l, read_chunk_payload file = Ok payload /\
    decode_sub_phrase_index payload = Ok (6%Z, [(1%Z, sample_item); (5%Z, sample_item)]) /\
    from_payload payload = Ok l /\ token_range l = (1, 6)%Z.
Proof.
  assert (H : Forall entry_typed [(1%Z, sample_item); (5%Z, sample_item)])
    by (repeat constructor; vm_compute; discriminate).
  destruct (chunk_round_trip [(1%Z, sample_item); (5%Z, sample_item)] H) as (_ & H2 & _).
  eexists. split; [vm_compute; reflexivity|].
  match goal with |- exists payload l, read_chunk_payload ?f = _ /\ _ =>
    destruct (H2 f) as (payload & l & E1 & E2 & E3 & _ & _ & _ & _ & E4 & _); [vm_compute; reflexivity|] end.
  exists payload, l. split; [exact E1|]. split; [exact E2|]. split; [exact E3|]. exact E4.
Defined.
