(* ===== verification/UserLibrary.v ===== *)
(** * UserLibrary: a session's phrase library

    [crates/oxpinyin-user/src/user_library.rs]: the owned sub-index of one
    library, with the packed item bodies in one arena, an offset word for each slot
    and a running total. Every operation of [Slots] and [UserLibrary] is here,
    with [pronunciation_matches] of [store_libpinyin.rs].

    An operation that indexes or copies outside the arena panics: it is
    [None] here. A [BTreeMap] is its entries in key order. A dense vector has
    at most 2^32 slots, so [slot as u32] is the index, and the lengths of
    vectors are far from where [saturating_mul] and [saturating_add] saturate. *)

From Stdlib Require Import ZArith Lia Bool Strings.Byte.
From stdpp Require Import base list sorting.
From S2P Require Import Prelude Chewing RowFormat ChunkFormat PhraseLibrary.

#[local] Open Scope result_scope.

(** ** [Slots] *)

Abbreviation slot_map := (list (Z * Z)).

Definition bmap_get (m : slot_map) (k : Z) : option Z :=
  snd <$> List.find (fun e => (e.1 =? k)%Z) m.

Definition bmap_remove (m : slot_map) (k : Z) : slot_map := filter (fun e => e.1 <> k) m.

Definition bmap_insert (m : slot_map) (k v : Z) : slot_map :=
  filter (fun e => (e.1 < k)%Z) m ++ [(k, v)] ++ filter (fun e => (k < e.1)%Z) m.

Inductive Slots : Type :=
  | Dense (offsets : list Z)
  | Sparse (offsets : slot_map).

Definition Slots_default : Slots := Dense [].

(** [offsets.iter().enumerate().filter(..).map(..)]. *)
Definition dense_entries (offsets : list Z) : slot_map :=
  filter (fun e => e.2 <> 0%Z) (imap (fun slot offset => (Z.of_nat slot, offset)) offsets).

Definition entries (s : Slots) : slot_map :=
  match s with
  | Dense offsets => dense_entries offsets
  | Sparse offsets => offsets
  end.

Definition slots_set (s : Slots) (slot offset : Z) : Slots :=
  let s :=
    match s with
    | Dense offsets =>
        if negb (offset =? 0)%Z && (length offsets * 4 + 256 <? Z.to_nat slot)
        then Sparse (dense_entries offsets) else s
    | Sparse _ => s
    end in
  match s with
  | Dense offsets =>
      let offsets := if negb (offset =? 0)%Z
                     then resize (Nat.max (length offsets) (Z.to_nat slot + 1)) 0%Z offsets else offsets in
      match offsets !! Z.to_nat slot with
      | Some _ => Dense (<[Z.to_nat slot := offset]> offsets)
      | None => Dense offsets
      end
  | Sparse offsets =>
      if (offset =? 0)%Z then Sparse (bmap_remove offsets slot) else Sparse (bmap_insert offsets slot offset)
  end.

Definition slots_offset (s : Slots) (slot : Z) : option Z :=
  offset ← match s with
           | Dense offsets => offsets !! Z.to_nat slot
           | Sparse offsets => bmap_get offsets slot
           end;
  if (offset =? 0)%Z then None else Some offset.

(** ** [UserLibrary] *)

Record UserLibrary : Type := {
  total : Z;
  slots : Slots;
  content : bytes;
  headers_only : bool
}.

Definition UserLibrary_default : UserLibrary :=
  {| total := 0; slots := Slots_default; content := []; headers_only := false |}.

Definition empty_with_total (total : Z) : UserLibrary :=
  {| total := total; slots := Slots_default; content := []; headers_only := false |}.

Definition OFFSET_MODULUS : Z := 4294967296.
Definition COPY_LIMIT : Z := 2147483648.

Definition append_offset (content_len : nat) : Z :=
  let offset := wrap32 (Z.of_nat content_len mod OFFSET_MODULUS) in
  if (offset =? 0)%Z then 8 else offset.

(** [rposition] of the last slot in use. *)
Definition rposition {A} (p : A -> bool) (l : list A) : option nat :=
  (fun i => length l - 1 - i) <$> position p (rev l).

Definition token_end (l : UserLibrary) : Z :=
  if headers_only l then 1
  else
    match match slots l with
          | Dense offsets => Z.of_nat <$> rposition (fun offset => negb (offset =? 0)%Z) offsets
          | Sparse offsets => fst <$> last offsets
          end with
    | None => 1
    | Some last => Z.max (Z.min (last + 1) u32_max) 1
    end.

Definition item (l : UserLibrary) (slot : Z) : option PhraseItemView :=
  if headers_only l then None
  else
    offset ← slots_offset (slots l) slot;
    b ← get_from (content l) (Z.to_nat offset);
    view_from_bytes b.

Definition items (l : UserLibrary) : list (Z * PhraseItemView) :=
  omap (fun e => view ← item l e.1; Some (e.1, view)) (entries (slots l)).

Definition is_empty (l : UserLibrary) : bool :=
  match entries (slots l) with [] => true | _ => false end.

Definition pronunciation_count (l : UserLibrary) (slot : Z) : option Z :=
  offset ← slots_offset (slots l) slot;
  byte_val <$> content l !! (Z.to_nat offset + 1).

(** ** Replacing and removing bodies *)

Inductive LibraryFault : Type :=
  | SlotPastMask
  | InvalidBody
  | MissingPhrase
  | ReadingLengthDiffers.

Record Replacement : Type := {
  rep_slot : Z;
  rep_offset : Z;
  rep_length : nat;
  rep_unigram : Z;
  removes_old : bool
}.

Record PreparedReplacement : Type := {
  prepared_bytes : bytes;
  prepared_change : Replacement
}.

Definition placement (l : UserLibrary) (slot : Z) (view : PhraseItemView) : Replacement :=
  {| rep_slot := slot;
     rep_offset := if headers_only l then 8 else append_offset (length (content l));
     rep_length := length (view_bytes view);
     rep_unigram := view_unigram view;
     removes_old := true |}.

Definition replacement (l : UserLibrary) (slot : Z) (b : bytes) : result Replacement LibraryFault :=
  if (PHRASE_MASK <? slot)%Z then Err SlotPastMask
  else
    try view := ok_or (view_from_bytes b) InvalidBody in
    Ok (placement l slot view).

(** The removal [apply_replacement] and [remove_body] share. *)
Definition drop_item (l : UserLibrary) (slot : Z) (view : PhraseItemView) : UserLibrary :=
  {| total := (total l -₃₂ view_unigram view)%M; slots := slots_set (slots l) slot 0;
     content := content l; headers_only := headers_only l |}.

Definition apply_replacement (l : UserLibrary) (change : Replacement) (b : bytes) : option UserLibrary :=
  let l := if headers_only l then UserLibrary_default else l in
  let slot := rep_slot change in
  b ← subslice b 0 (rep_length change);
  let l := if removes_old change
           then match item l slot with Some view => drop_item l slot view | None => l end
           else l in
  let content_ := if length (content l) <? 8 then resize 8 x00 (content l) else content l in
  let start := Z.to_nat (rep_offset change) in
  let end_ := start + length b in
  let content_ := if length content_ <? end_ then resize end_ x00 content_ else content_ in
  content_ ← write_at content_ start b;
  Some {| total := (total l +₃₂ rep_unigram change)%M;
          slots := slots_set (slots l) slot (rep_offset change);
          content := content_; headers_only := headers_only l |}.

Definition replace (l : UserLibrary) (slot : Z) (b : bytes) : option (UserLibrary * result unit LibraryFault) :=
  match replacement l slot b with
  | Err e => Some (l, Err e)
  | Ok change => l ← apply_replacement l change b; Some (l, Ok tt)
  end.

Definition prepare_add (l : UserLibrary) (slot : Z) (b : bytes) : result PreparedReplacement LibraryFault :=
  try change := replacement l slot b in
  Ok {| prepared_bytes := b;
        prepared_change := {| rep_slot := rep_slot change; rep_offset := rep_offset change;
                              rep_length := rep_length change; rep_unigram := rep_unigram change;
                              removes_old := false |} |}.

Definition prepared_apply (p : PreparedReplacement) (l : UserLibrary) : option UserLibrary :=
  apply_replacement l (prepared_change p) (prepared_bytes p).

Definition remove_body (l : UserLibrary) (slot : Z) : UserLibrary * bool :=
  match item l slot with
  | None => (l, false)
  | Some view => (drop_item l slot view, true)
  end.

Definition remove (l : UserLibrary) (slot : Z) : UserLibrary * bool := remove_body l slot.

Definition remove_matching (l : UserLibrary) (selected : Z -> bool) : UserLibrary :=
  let slots_ := omap (fun e => if selected e.1 then Some e.1 else None) (items l) in
  fold_left (fun l slot => (remove_body l slot).1) slots_ l.

(** ** Frequencies and readings *)

Definition increment_unigram (l : UserLibrary) (slot delta : Z) : option (UserLibrary * bool) :=
  match item l slot with
  | None => Some (l, false)
  | Some view =>
      let unigram_ := (view_unigram view +₃₂ delta)%M in
      match slots_offset (slots l) slot with
      | None => Some (l, false)
      | Some offset =>
          content_ ← write_at (content l) (Z.to_nat offset + 2) (le32 unigram_);
          Some ({| total := (total l +₃₂ delta)%M; slots := slots l; content := content_;
                   headers_only := headers_only l |}, true)
      end
  end.

(** [u32::checked_add]. *)
Definition checked_add32 (a b : Z) : option Z := if (a + b <=? u32_max)%Z then Some (a + b)%Z else None.

Definition accepts (total delta : Z) : bool :=
  match checked_add32 total delta with Some _ => true | None => false end.

(** A stored key and a query agree up to the top bit. *)
Definition key_matches (stored : bytes) (keys : list Z) : bool :=
  forallb (fun p => Z.land p.1 32767 =? Z.land p.2 32767)%Z
    (zip (le_value <$> whole_chunks 2 stored) keys).

(** The first matching reading: its index, its frequency, and whether the
    running total takes [delta]. *)
Fixpoint matched_reading (readings : list PronunciationView) (keys : list Z) (delta : Z) (i : nat) (total : Z)
    : option (nat * Z * bool) :=
  match readings with
  | [] => None
  | reading :: readings =>
      let total := (total +₃₂ view_freq reading)%M in
      if key_matches (view_keys reading) keys
      then Some (i, view_freq reading, accepts total delta)
      else matched_reading readings keys delta (S i) total
  end.

(** Where reading [i] keeps its frequency, from the start of the item. *)
Definition freq_position (len i : nat) : nat := 6 + 4 * len + i * (2 * len + 4) + 2 * len.

(** The item with one more reading; the count byte wraps. *)
Definition with_reading (b : bytes) (keys : list Z) (delta : Z) : option bytes :=
  count ← b !! 1;
  let count := byte_of (byte_val count + 1) in
  let b := <[1 := count]> b in
  Some (if (byte_val count =? 0)%Z
        then take (6 + length keys * 4) b
        else b ++ (keys ≫= le_bytes 2) ++ le32 delta).

Definition add_reading (l : UserLibrary) (slot : Z) (keys : list Z) (delta : Z)
    : option (UserLibrary * result unit LibraryFault) :=
  match item l slot with
  | None => Some (l, Err MissingPhrase)
  | Some view =>
      if negb (view_phrase_length view =? length keys) then Some (l, Err ReadingLengthDiffers)
      else
        match matched_reading (pronunciations view) keys delta 0 0 with
        | Some (i, frequency, accepted) =>
            if accepted then
              match slots_offset (slots l) slot with
              | None => Some (l, Err MissingPhrase)
              | Some offset =>
                  content_ ← write_at (content l) (Z.to_nat offset + freq_position (length keys) i)
                               (le32 (frequency +₃₂ delta)%M);
                  Some ({| total := total l; slots := slots l; content := content_;
                           headers_only := headers_only l |}, Ok tt)
              end
            else Some (l, Ok tt)
        | None =>
            b ← with_reading (view_bytes view) keys delta;
            replace l slot b
        end
  end.

Definition merged_reading (view : PhraseItemView) (keys : list Z) (delta : Z)
    : option (result bytes LibraryFault) :=
  if negb (view_phrase_length view =? length keys) then Some (Err ReadingLengthDiffers)
  else
    match matched_reading (pronunciations view) keys delta 0 0 with
    | Some (i, frequency, accepted) =>
        if accepted then
          b ← write_at (view_bytes view) (freq_position (length keys) i) (le32 (frequency +₃₂ delta)%M);
          Some (Ok b)
        else Some (Ok (view_bytes view))
    | None => b ← with_reading (view_bytes view) keys delta; Some (Ok b)
    end.

(** [pronunciation_matches] of [store_libpinyin.rs]. *)
Definition pronunciation_matches (reading : list ChewingKey) (packed : list Z) : bool :=
  (length reading =? length packed) &&
  forallb (fun p =>
    let query := p.1 in
    let stored := from_packed p.2 in
    (initial query =? initial stored)%Z &&
    (((middle query =? middle stored)%Z && (final_ query =? final_ stored)%Z)
     || ((middle query =? 0)%Z && (final_ query =? 0)%Z)
     || ((middle stored =? 0)%Z && (final_ stored =? 0)%Z)) &&
    ((tone query =? tone stored)%Z || (tone query =? 0)%Z || (tone stored =? 0)%Z))
    (zip reading packed).

(** The inner loop of [train]: [n] readings from [i] on. *)
Fixpoint train_rows (n i start len : nat) (query : list ChewingKey) (delta total : Z) (content_ : bytes)
    : option bytes :=
  match n with
  | O => Some content_
  | S n =>
      let position_ := start + i * (2 * len + 4) in
      let frequency := position_ + 2 * len in
      word ← subslice content_ frequency (frequency + 4);
      let freq := le_value word in
      let total := (total +₃₂ freq)%M in
      keys ← subslice content_ position_ frequency;
      if negb (pronunciation_matches query (le_value <$> whole_chunks 2 keys))
      then train_rows n (S i) start len query delta total content_
      else
        match checked_add32 total delta with
        | None => Some content_
        | Some next =>
            content_ ← write_at content_ frequency (le32 (freq +₃₂ delta)%M);
            train_rows n (S i) start len query delta next content_
        end
  end.

Fixpoint train_readings (readings : list (list ChewingKey)) (count start len : nat) (delta : Z)
    (content_ : bytes) : option bytes :=
  match readings with
  | [] => Some content_
  | query :: readings =>
      if negb (length query =? len) then train_readings readings count start len delta content_
      else
        content_ ← train_rows count 0 start len query delta 0 content_;
        train_readings readings count start len delta content_
  end.

Definition train (l : UserLibrary) (slot : Z) (readings : list (list ChewingKey)) (delta : Z)
    : option UserLibrary :=
  match slots_offset (slots l) slot with
  | None => Some l
  | Some offset =>
      match item l slot with
      | None => Some l
      | Some view =>
          let len := view_phrase_length view in
          content_ ← train_readings readings (n_pronunciations view) (Z.to_nat offset + 6 + 4 * len) len
                       delta (content l);
          Some {| total := total l; slots := slots l; content := content_; headers_only := headers_only l |}
      end
  end.

(** ** Compaction *)

Fixpoint compact_loop (compacted : UserLibrary) (l : list (Z * PhraseItemView)) : option UserLibrary :=
  match l with
  | [] => Some compacted
  | (slot, view) :: l =>
      let change := placement compacted slot view in
      compacted ← apply_replacement compacted change (view_bytes view);
      compact_loop compacted l
  end.

Definition compacted (l : UserLibrary) : option UserLibrary :=
  let count := length (entries (slots l)) in
  let fresh := if count * 4 + 256 <? Z.to_nat (token_end l)
               then {| total := 0; slots := Sparse []; content := []; headers_only := false |}
               else UserLibrary_default in
  compact_loop fresh (items l).

Definition compact (l : UserLibrary) : option UserLibrary := compacted l.

(** ** Loading *)

(** The validation loop of [load_payload]: the number of items, or the first
    slot that does not read. *)
Fixpoint validate_slots (slot : nat) (words : list bytes) (area : bytes) (count : nat)
    : result nat ChunkWriteError :=
  match words with
  | [] => Ok count
  | word :: words =>
      let offset := le_value word in
      if (offset =? 0)%Z then validate_slots (S slot) words area count
      else
        try b := ok_or (get_from area (Z.to_nat offset)) (SlotOffsetOutOfRange slot) in
        match validate_phrase_item b with
        | Err f => Err (SlotItem slot (ItemFault f))
        | Ok _ =>
            let count := match view_from_bytes b with Some _ => S count | None => count end in
            validate_slots (S slot) words area count
        end
  end.

Definition load_payload (payload : bytes) : result UserLibrary ChunkWriteError :=
  try sections := sub_phrase_index_sections payload in
  let offsets := sections.1.2 in
  let area := sections.2 in
  try count := validate_slots 0 (whole_chunks 4 offsets) area 0 in
  let words := le_value <$> whole_chunks 4 offsets in
  let slots_ := if length offsets / 4 <=? count * 4 + 256 then Dense words
                else Sparse (dense_entries words) in
  Ok {| total := sections.1.1; slots := slots_; content := area; headers_only := false |}.

Definition load_headers_payload (payload : bytes) : result UserLibrary ChunkWriteError :=
  try sections := sub_phrase_index_sections payload in
  Ok {| total := 0; slots := Dense (le_value <$> whole_chunks 4 sections.1.2); content := sections.2;
        headers_only := true |}.

(** ** Storing *)

Definition compacted_content_len (l : UserLibrary) : nat :=
  fold_left (fun len e => len + length (view_bytes e.2)) (items l) 8.

Definition store_copy_is_unsafe (l : UserLibrary) : bool :=
  negb (is_empty l) && (COPY_LIMIT <=? Z.of_nat (compacted_content_len l))%Z.

Inductive StoreFault : Type :=
  | IntConversion
  | OffsetArrayTooLarge
  | ArenaTooLarge
  | StoredSlotPastMask (slot : Z)
  | StoreFrame (error : ChunkFrameError).

(** The loop of [store]: offsets into the array, bodies at the end. *)
Fixpoint store_loop (l : list (Z * PhraseItemView)) (index_two : nat) (payload : bytes) (sum : Z)
    : option (result (bytes * Z) StoreFault) :=
  match l with
  | [] => Some (Ok (payload, sum))
  | (slot, view) :: l =>
      if (PHRASE_MASK <? slot)%Z then Some (Err (StoredSlotPastMask slot))
      else
        match u32_from_len (length payload - index_two) with
        | None => Some (Err IntConversion)
        | Some offset =>
            payload ← write_at payload (17 + Z.to_nat slot * 4) (le32 offset);
            store_loop l index_two (payload ++ view_bytes view) (sum +₃₂ view_unigram view)%M
        end
  end.

Definition store (l : UserLibrary) : option (result bytes StoreFault) :=
  let slots_ := if is_empty l then 0 else Z.to_nat (token_end l) in
  match u32_from_len (slots_ * 4) with
  | None => Some (Err IntConversion)
  | Some array =>
      match checked_add32 18 array with
      | None => Some (Err OffsetArrayTooLarge)
      | Some index_two =>
          match u32_from_len (if is_empty l then 0 else compacted_content_len l) with
          | None => Some (Err IntConversion)
          | Some content_len =>
              match checked_add32 index_two content_len ≫= (fun end_ => checked_add32 end_ 1) with
              | None => Some (Err ArenaTooLarge)
              | Some index_three =>
                  let two := Z.to_nat index_two in
                  payload ← write_at (replicate two x00) 4 (le32 17);
                  payload ← write_at payload 8 (le32 index_two);
                  payload ← write_at payload 12 (le32 index_three);
                  payload ← write_at payload 16 [SEPARATOR];
                  payload ← write_at payload (two - 1) [SEPARATOR];
                  let payload := if negb (is_empty l) then payload ++ replicate 8 x00 else payload in
                  stored ← store_loop (items l) two payload 0;
                  match stored with
                  | Err e => Some (Err e)
                  | Ok (payload, sum) =>
                      payload ← write_at payload 0 (le32 sum);
                      framed ← build_memory_chunk_owned (payload ++ [SEPARATOR]);
                      match framed with
                      | Ok file => Some (Ok file)
                      | Err e => Some (Err (StoreFrame e))
                      end
                  end
              end
          end
      end
  end.
