(* ===== verification/UserLibraryBodies.v ===== *)
(** * UserLibraryBodies: the slots and the bodies of a user library

    The lemmas on the sparse slot array and on the bodies in the arena: how
    each is read, replaced, moved and compacted. *)

From Stdlib Require Import ZArith Lia Bool Strings.Byte.
From stdpp Require Import base list sorting gmap.
From S2P Require Import Prelude Chewing RowFormat ChunkFormat PhraseLibrary UserLibrary.

(** ** Ascending lists of pairs *)

Lemma ascending_elem {A} (l : list (Z * A)) k v v' : ascending l -> (k, v) ∈ l -> (k, v') ∈ l -> v = v'.
Proof.
  induction l as [|e l IH]; [by intros _ ?%not_elem_of_nil|]. rewrite ascending_cons, Forall_forall.
  intros [Ha Hlt] H1 H2. apply elem_of_cons in H1 as [<-|H1]; apply elem_of_cons in H2 as [E|H2].
  - by injection E.
  - specialize (Hlt _ H2). cbn in Hlt. lia.
  - subst e. specialize (Hlt _ H1). cbn in Hlt. lia.
  - by apply IH.
Qed.

(** Ascending lists with the same pairs are equal. *)
Lemma ascending_ext {A} (l k : list (Z * A)) : ascending l -> ascending k -> (forall e, e ∈ l <-> e ∈ k) -> l = k.
Proof.
  revert k. induction l as [|e l IH]; intros [|d k] Hl Hk H; [done| | |].
  - exfalso. apply (not_elem_of_nil d), H. left.
  - exfalso. apply (not_elem_of_nil e), H. left.
  - apply ascending_cons in Hl as [Hl Hel]. apply ascending_cons in Hk as [Hk Hdk].
    rewrite Forall_forall in Hel, Hdk.
    assert (e = d) as <-.
    { destruct (proj1 (elem_of_cons k e d) (proj1 (H e) (list_elem_of_here _ _))) as [|H1]; [done|].
      destruct (proj1 (elem_of_cons l d e) (proj2 (H d) (list_elem_of_here _ _))) as [|H2]; [done|].
      specialize (Hel _ H2). specialize (Hdk _ H1). lia. }
    f_equal. apply IH; [done|done|]. intros x. specialize (H x). rewrite !elem_of_cons in H.
    split; intros Hx; (destruct (proj1 H (or_intror Hx)) || destruct (proj2 H (or_intror Hx))); try done; subst x.
    + specialize (Hel _ Hx). lia.
    + specialize (Hdk _ Hx). lia.
Qed.

Lemma ascending_filter {A} (P : Z * A -> Prop) `{!forall e, Decision (P e)} l :
  ascending l -> ascending (filter P l).
Proof.
  induction l as [|e l IH]; [done|]. rewrite ascending_cons. intros [Ha Hlt]. rewrite filter_cons.
  case_decide; [|by apply IH]. apply ascending_cons. split; [by apply IH|].
  rewrite Forall_forall in *. intros x [_ Hx]%list_elem_of_filter. by apply Hlt.
Qed.

Lemma ascending_app {A} (l k : list (Z * A)) :
  ascending l -> ascending k -> (forall e d, e ∈ l -> d ∈ k -> (e.1 < d.1)%Z) -> ascending (l ++ k).
Proof.
  intros Hl Hk H. induction l as [|e l IH]; [done|]. apply ascending_cons in Hl as [Hl Hlt].
  change ((e :: l) ++ k) with (e :: (l ++ k)). apply ascending_cons. split.
  - apply IH; [done|]. intros x y Hx. apply H. by right.
  - rewrite Forall_app. split; [done|]. rewrite Forall_forall. intros y Hy. apply H; [left|done].
Qed.

(** ** The map operations *)

Lemma bmap_get_spec m k v : ascending m -> bmap_get m k = Some v <-> (k, v) ∈ m.
Proof.
  intros Hm. unfold bmap_get. induction m as [|[j w] m IH]; [split; [done|by intros ?%not_elem_of_nil]|].
  cbn [List.find fst]. apply ascending_cons in Hm as [Hm Hlt]. rewrite elem_of_cons.
  destruct (Z.eqb_spec j k) as [->|Hne].
  - cbn. split; [intros [= ->]; by left|]. intros [[= ->]|Hin]; [done|].
    rewrite Forall_forall in Hlt. specialize (Hlt _ Hin). cbn in Hlt. lia.
  - rewrite IH by done. split; [by right|]. intros [[= ? ?]|]; done.
Qed.

Lemma elem_of_bmap_remove m k e : e ∈ bmap_remove m k <-> e.1 <> k /\ e ∈ m.
Proof. unfold bmap_remove. by rewrite list_elem_of_filter. Qed.

Lemma elem_of_bmap_insert m k v e :
  e ∈ bmap_insert m k v <-> e = (k, v) \/ (e.1 <> k /\ e ∈ m).
Proof.
  unfold bmap_insert. rewrite !elem_of_app, !list_elem_of_filter, list_elem_of_singleton. split.
  - intros [[? ?]|[?|[? ?]]]; [right; split; [lia|done]|by left|right; split; [lia|done]].
  - intros [->|[Hne Hin]]; [tauto|]. destruct (Z.lt_trichotomy e.1 k) as [|[|]]; tauto.
Qed.

Lemma bmap_remove_ascending m k : ascending m -> ascending (bmap_remove m k).
Proof. apply ascending_filter. Qed.

Lemma bmap_insert_ascending m k v : ascending m -> ascending (bmap_insert m k v).
Proof.
  intros Hm. unfold bmap_insert.
  apply ascending_app; [by apply ascending_filter| |].
  - apply ascending_app; [repeat constructor|by apply ascending_filter|].
    intros e d He%list_elem_of_singleton [Hd _]%list_elem_of_filter. by subst e.
  - intros e d [He _]%list_elem_of_filter. rewrite elem_of_app, list_elem_of_singleton, list_elem_of_filter.
    intros [->|[Hd _]]; cbn in *; lia.
Qed.

(** ** The dense vector *)

Lemma elem_of_dense offsets k o :
  (k, o) ∈ dense_entries offsets <-> (0 <= k)%Z /\ o <> 0%Z /\ offsets !! Z.to_nat k = Some o.
Proof.
  unfold dense_entries. rewrite list_elem_of_filter, list_elem_of_lookup. cbn [snd]. split.
  - intros (Ho & i & Hi). rewrite list_lookup_imap in Hi.
    destruct (offsets !! i) as [w|] eqn:E; [|done]. injection Hi as <- <-. rewrite Nat2Z.id. split; [lia|]. done.
  - intros (Hk & Ho & Hi). split; [done|]. exists (Z.to_nat k). rewrite list_lookup_imap, Hi.
    cbn. by rewrite Z2Nat.id.
Qed.

Lemma dense_snoc offsets o :
  dense_entries (offsets ++ [o]) =
  dense_entries offsets ++ (if (o =? 0)%Z then [] else [(Z.of_nat (length offsets), o)]).
Proof.
  unfold dense_entries. rewrite imap_app, filter_app. f_equal.
  match goal with |- context [imap ?f [o]] => change (imap f [o]) with [f 0 o] end.
  unfold compose. rewrite Nat.add_0_r, filter_cons. cbn [snd]. case_decide as H; destruct (Z.eqb_spec o 0); done.
Qed.

Lemma dense_ascending offsets : ascending (dense_entries offsets).
Proof.
  induction offsets as [|o l IH] using rev_ind; [constructor|]. rewrite dense_snoc.
  destruct (o =? 0)%Z; [by rewrite app_nil_r|]. apply ascending_snoc. split; [done|].
  rewrite Forall_forall. intros [k v] (Hk & _ & Hl)%elem_of_dense. apply lookup_lt_Some in Hl. cbn. lia.
Qed.

Lemma position_cons {A} (p : A -> bool) x l :
  position p (x :: l) = if p x then Some 0 else S <$> position p l.
Proof. cbn. by destruct (p x), (position p l). Qed.

Lemma rposition_dense offsets :
  Z.of_nat <$> rposition (fun offset => negb (offset =? 0)%Z) offsets = fst <$> last (dense_entries offsets).
Proof.
  unfold rposition. induction offsets as [|o l IH] using rev_ind; [done|].
  rewrite rev_app_distr, dense_snoc. cbn [rev app]. rewrite position_cons, length_app. cbn [length].
  destruct (o =? 0)%Z; cbn [negb].
  - rewrite app_nil_r, <- IH. destruct (position _ (rev l)) as [i|]; [|done]. cbn. do 2 f_equal. lia.
  - rewrite last_snoc. cbn. do 2 f_equal. lia.
Qed.

(** ** Slots *)

Definition slots_ok (s : Slots) : Prop :=
  match s with
  | Dense _ => True
  | Sparse m => ascending m /\ Forall (fun e => 0 <= e.1 /\ e.2 <> 0)%Z m
  end.

Lemma entries_ascending s : slots_ok s -> ascending (entries s).
Proof. destruct s; [intros _; apply dense_ascending|by intros []]. Qed.

Lemma entries_nonzero s k o : slots_ok s -> (k, o) ∈ entries s -> (0 <= k)%Z /\ o <> 0%Z.
Proof.
  destruct s as [l|m]; cbn.
  - by intros _ (? & ? & _)%elem_of_dense.
  - intros [_ H] Hin. rewrite Forall_forall in H. by apply (H _ Hin).
Qed.

Lemma slots_offset_spec s k o :
  slots_ok s -> (0 <= k)%Z -> slots_offset s k = Some o <-> (k, o) ∈ entries s.
Proof.
  intros Hs Hk. unfold slots_offset. destruct s as [l|m]; cbn [entries].
  - rewrite elem_of_dense. destruct (l !! Z.to_nat k) as [w|]; cbn; [|naive_solver].
    destruct (Z.eqb_spec w 0); naive_solver.
  - rewrite <- bmap_get_spec by apply Hs. destruct (bmap_get m k) as [w|] eqn:E; cbn; [|done].
    apply bmap_get_spec in E; [|apply Hs]. pose proof (entries_nonzero (Sparse m) k w Hs E) as [_ Hw].
    by rewrite (proj2 (Z.eqb_neq w 0)).
Qed.

Lemma slots_offset_none s k :
  slots_ok s -> (0 <= k)%Z -> (forall o, (k, o) ∉ entries s) -> slots_offset s k = None.
Proof.
  intros Hs Hk H. destruct (slots_offset s k) as [o|] eqn:E; [|done].
  apply slots_offset_spec in E; [|done|done]. by destruct (H o).
Qed.

(** Setting an offset, zero included, in either representation. *)
Lemma entries_set s slot offset :
  slots_ok s -> (0 <= slot)%Z ->
  slots_ok (slots_set s slot offset) /\
  forall k o, (k, o) ∈ entries (slots_set s slot offset) <->
    (k = slot /\ o = offset /\ offset <> 0%Z) \/ (k <> slot /\ (k, o) ∈ entries s).
Proof.
  intros Hs Hslot.
  assert (Hsparse : forall m, slots_ok (Sparse m) ->
    let s' := if (offset =? 0)%Z then Sparse (bmap_remove m slot) else Sparse (bmap_insert m slot offset) in
    slots_ok s' /\ forall k o, (k, o) ∈ entries s' <->
      (k = slot /\ o = offset /\ offset <> 0%Z) \/ (k <> slot /\ (k, o) ∈ m)).
  { intros m [Ha Hm] s'. subst s'. rewrite Forall_forall in Hm. destruct (Z.eqb_spec offset 0) as [->|Hne].
    - split; [split; [by apply bmap_remove_ascending|]|].
      + rewrite Forall_forall. intros e [_ He]%elem_of_bmap_remove. by apply Hm.
      + intros k o. cbn [entries]. rewrite elem_of_bmap_remove. cbn. tauto.
    - split; [split; [by apply bmap_insert_ascending|]|].
      + rewrite Forall_forall. intros e [->|[_ He]]%elem_of_bmap_insert; [done|by apply Hm].
      + intros k o. cbn [entries]. rewrite elem_of_bmap_insert. cbn. split.
        * intros [[= -> ->]|?]; tauto.
        * intros [(-> & -> & _)|?]; tauto. }
  unfold slots_set. destruct s as [l|m]; [|by apply Hsparse].
  destruct (negb (offset =? 0)%Z && (length l * 4 + 256 <? Z.to_nat slot)) eqn:E.
  { apply Hsparse. split; [apply dense_ascending|]. rewrite Forall_forall.
    intros [k o] (? & ? & _)%elem_of_dense. done. }
  cbn [entries slots_ok]. clear Hsparse E Hs. destruct (Z.eqb_spec offset 0) as [->|Hne]; cbn [negb].
  - destruct (l !! Z.to_nat slot) as [w|] eqn:Ew; (split; [done|]); intros k o; cbn [entries];
      rewrite !elem_of_dense.
    + rewrite list_lookup_insert. case_decide as Hd.
      * split; [naive_solver|]. intros [?|(? & ? & ? & ?)]; [naive_solver|]. destruct Hd. lia.
      * split; [|naive_solver]. intros (? & ? & Hk). right. split; [|done]. intros ->. apply Hd.
        split; [done|]. by apply lookup_lt_Some in Hk.
    + split; [|naive_solver]. intros (? & ? & Hk). right. split; [|done]. intros ->. congruence.
  - set (l' := resize _ 0%Z l).
    assert (Hl' : forall k o, o <> 0%Z -> l' !! k = Some o <-> l !! k = Some o).
    { intros k o Ho. unfold l'. destruct (decide (k < length l)) as [Hk|Hk].
      - rewrite lookup_resize by lia. done.
      - rewrite (proj2 (lookup_ge_None l k)) by lia.
        rewrite resize_ge by lia. rewrite lookup_app_r by lia. split; [|done].
        intros [-> _]%lookup_replicate. done. }
    assert (Hlen : Z.to_nat slot < length l') by (unfold l'; rewrite length_resize; lia).
    destruct (lookup_lt_is_Some_2 _ _ Hlen) as [w Hw]. rewrite Hw. split; [done|].
    intros k o. cbn [entries]. rewrite !elem_of_dense, list_lookup_insert. case_decide as Hd.
    + split; [intros (? & ? & [= <-]); left; split; [lia|done]|].
      intros [(-> & -> & ?)|(? & ? & _)]; [done|]. destruct Hd. lia.
    + split.
      * intros (? & Ho & Hk%Hl'); [|done]. right. split; [|done]. intros ->. by apply Hd.
      * intros [(-> & -> & _)|(? & ? & Ho & Hk)]; [by destruct Hd|]. do 2 (split; [done|]). by apply Hl'.
Qed.

(** ** Bytes written in place *)

Lemma lookup_slice {A} (l : list A) a b i : i < b - a -> slice l a b !! i = l !! (a + i).
Proof. intros H. unfold slice. by rewrite lookup_take_lt, lookup_drop. Qed.

Lemma slice_eq {A} (l k : list A) a n :
  a + length k <= length l -> n = a + length k ->
  slice l a n = k <-> (forall i, i < length k -> l !! (a + i) = k !! i).
Proof.
  intros H ->. split.
  - intros E i Hi. rewrite <- (lookup_slice l a (a + length k)) by lia. by rewrite E.
  - intros Hi. apply list_eq_same_length with (length k); [done|rewrite length_slice; lia|].
    intros i x y Hlt. rewrite lookup_slice, Hi by lia. congruence.
Qed.

Lemma write_at_spec (c : bytes) a b :
  a + length b <= length c ->
  exists c', write_at c a b = Some c' /\ length c' = length c /\
    forall i, c' !! i = if decide (a <= i < a + length b) then b !! (i - a) else c !! i.
Proof.
  intros H. unfold write_at. rewrite (proj2 (Nat.leb_le _ _)) by done. eexists. split; [done|].
  assert (Ht : length (take a c) = a) by (rewrite length_take; lia).
  split; [rewrite !length_app, Ht, length_drop; lia|]. intros i. case_decide as Hi.
  - rewrite lookup_app_r, Ht by lia. by rewrite lookup_app_l by lia.
  - destruct (decide (i < a)).
    + rewrite lookup_app_l by lia. by rewrite lookup_take_lt by lia.
    + rewrite lookup_app_r, Ht by lia. rewrite lookup_app_r by lia. rewrite lookup_drop. f_equal. lia.
Qed.

Lemma write_at_some (c : bytes) a b c' : write_at c a b = Some c' -> a + length b <= length c.
Proof. unfold write_at. destruct (Nat.leb_spec (a + length b) (length c)); [done|done]. Qed.

(** [c'] is [c] outside the [n] bytes from [o] on. *)
Definition same_outside (c c' : bytes) (o n : nat) : Prop :=
  length c' = length c /\ forall i, i < o \/ o + n <= i -> c' !! i = c !! i.

Lemma same_outside_refl c o n : same_outside c c o n.
Proof. done. Qed.

Lemma same_outside_trans c c' c'' o n : same_outside c c' o n -> same_outside c' c'' o n -> same_outside c c'' o n.
Proof. intros [L1 H1] [L2 H2]. split; [congruence|]. intros i Hi. by rewrite H2, H1. Qed.

(** ** Bodies *)

Definition body_at (c : bytes) (o : nat) (it : ChunkItem) : Prop :=
  0 < o /\ o + item_size it <= length c /\ slice c o (o + item_size it) = item_wire it.

Lemma body_at_length c o it : body_at c o it -> length (item_wire it) = item_size it.
Proof. intros (_ & H & <-). rewrite length_slice; lia. Qed.

Lemma body_at_lookup c o it i : body_at c o it -> i < item_size it -> c !! (o + i) = item_wire it !! i.
Proof. intros (_ & _ & <-) Hi. by rewrite lookup_slice by lia. Qed.

Lemma body_at_intro c o it :
  chunk_item_ok it -> 0 < o -> o + item_size it <= length c ->
  (forall i, i < item_size it -> c !! (o + i) = item_wire it !! i) -> body_at c o it.
Proof.
  intros Hok Ho Hl H. split; [done|]. split; [done|]. rewrite <- (length_item_wire it Hok) in *.
  by apply slice_eq.
Qed.

Lemma body_at_outside c c' o n o' it :
  chunk_item_ok it -> same_outside c c' o n -> o + n <= o' \/ o' + item_size it <= o -> body_at c o' it -> body_at c' o' it.
Proof.
  intros Hok [Hl Hs] Hd Hb. pose proof Hb as (H1 & H2 & _). apply body_at_intro; [done|done|lia|].
  intros i Hi. rewrite Hs by lia. by apply body_at_lookup.
Qed.

(** A write inside the body is the same write on the wire form. *)
Lemma body_at_poke c o it it' d b :
  chunk_item_ok it' -> item_size it' = item_size it -> body_at c o it ->
  write_at (item_wire it) d b = Some (item_wire it') ->
  exists c', write_at c (o + d) b = Some c' /\ body_at c' o it' /\ same_outside c c' o (item_size it).
Proof.
  intros Hok' Hsize Hb Hw. pose proof (body_at_length _ _ _ Hb) as Hlen. pose proof Hb as (H1 & H2 & _).
  pose proof (write_at_some _ _ _ _ Hw) as Hd. rewrite Hlen in Hd.
  destruct (write_at_spec (item_wire it) d b) as (w & Ew & _ & Hwl); [lia|].
  rewrite Hw in Ew. injection Ew as <-.
  destruct (write_at_spec c (o + d) b) as (c' & -> & Hl & Hc); [lia|]. exists c'. split; [done|]. split.
  - apply body_at_intro; [done|done|lia|]. intros i Hi. rewrite Hc, Hwl.
    repeat case_decide; try lia; [f_equal; lia|]. apply (body_at_lookup c o it); [done|lia].
  - split; [done|]. intros i Hi. rewrite Hc. case_decide; [lia|done].
Qed.

Lemma body_at_get c o it : body_at c o it -> exists rest, get_from c o = Some (item_wire it ++ rest).
Proof.
  intros (_ & H & E). exists (drop (o + item_size it) c). unfold get_from. rewrite subslice_slice by lia.
  rewrite (slice_split c o (o + item_size it)) by lia. rewrite E. do 2 f_equal. unfold slice.
  apply take_ge. by rewrite length_drop.
Qed.

Lemma body_at_subslice c o it d n :
  body_at c o it -> d + n <= item_size it -> subslice c (o + d) (o + d + n) = subslice (item_wire it) d (d + n).
Proof.
  intros Hb Hd. pose proof (body_at_length _ _ _ Hb) as Hlen. destruct Hb as (_ & H & E).
  rewrite !subslice_slice by lia. f_equal. rewrite <- E, slice_of_slice by lia. f_equal; lia.
Qed.

(** ** Fields written in place *)

Definition with_unigram (it : ChunkItem) (u : Z) : ChunkItem :=
  {| phrase := phrase it; unigram := u; prons := prons it |}.

Definition with_prons (it : ChunkItem) (l : list (list Z * Z)) : ChunkItem :=
  {| phrase := phrase it; unigram := unigram it; prons := l |}.

Definition set_freq (it : ChunkItem) (i : nat) (f : Z) : ChunkItem :=
  with_prons it (alter (fun p => (p.1, f)) i (prons it)).

Lemma with_unigram_ok it u : chunk_item_ok it -> is_u32 u -> chunk_item_ok (with_unigram it u).
Proof. by intros (? & ? & ? & _ & ?) Hu. Qed.

Lemma with_prons_ok it l :
  chunk_item_ok it -> length l <= u8_max -> Forall (pron_ok (length (phrase it))) l -> chunk_item_ok (with_prons it l).
Proof. by intros (? & _ & ? & ? & _) Hl Hf. Qed.

Lemma set_freq_ok it i f : chunk_item_ok it -> is_u32 f -> chunk_item_ok (set_freq it i f).
Proof.
  intros Hok Hf. apply with_prons_ok; [done|rewrite length_alter; apply Hok|].
  destruct Hok as (_ & _ & _ & _ & Hr). apply Forall_alter; [done|]. by intros p _ (? & ? & _).
Qed.

Lemma set_freq_size it i f : item_size (set_freq it i f) = item_size it.
Proof. unfold item_size, set_freq. cbn [phrase prons with_prons]. by rewrite length_alter. Qed.

Lemma unigram_poke it u : write_at (item_wire it) 2 (le32 u) = Some (item_wire (with_unigram it u)).
Proof.
  unfold item_wire, with_unigram. cbn [phrase unigram prons].
  apply write_at_middle; [done|by rewrite !length_le32].
Qed.

Lemma alter_split {A} (f : A -> A) i (l : list A) x :
  l !! i = Some x -> alter f i l = take i l ++ f x :: drop (S i) l.
Proof.
  intros H. pose proof (lookup_lt_Some _ _ _ H). rewrite <- (take_drop_middle l i x H) at 1.
  rewrite alter_app_r_alt by (rewrite length_take; lia). rewrite length_take.
  by replace (i - i `min` length l) with 0 by lia.
Qed.

(** The item with the frequency of reading [i] set, around its four bytes. *)
Lemma wire_set_freq it i p :
  chunk_item_ok it -> prons it !! i = Some p ->
  exists pre post, length pre = 6 + 4 * length (phrase it) + i * (2 * length (phrase it) + 4) /\
    item_wire it = pre ++ (p.1 ≫= le_bytes 2) ++ le32 p.2 ++ post /\
    forall f, item_wire (set_freq it i f) = pre ++ (p.1 ≫= le_bytes 2) ++ le32 f ++ post.
Proof.
  intros Hok Hi. destruct Hok as (_ & _ & _ & _ & Hr). pose proof (lookup_lt_Some _ _ _ Hi) as Hlt.
  exists ((([byte_of (Z.of_nat (length (phrase it))); byte_of (Z.of_nat (length (prons it)))] ++
             le32 (unigram it)) ++ (phrase it ≫= le32)) ++ prons_wire (take i (prons it))),
         (prons_wire (drop (S i) (prons it))).
  assert (Hpre : length (prons_wire (take i (prons it))) = i * row_size (length (phrase it))).
  { rewrite (length_prons_wire (length (phrase it))), length_take, Nat.min_l; [done|lia|].
    apply Forall_take. by apply pron_lengths. }
  assert (Hset : forall f, prons_wire (alter (fun p => (p.1, f)) i (prons it)) =
    prons_wire (take i (prons it)) ++ (p.1 ≫= le_bytes 2) ++ le32 f ++ prons_wire (drop (S i) (prons it))).
  { intros f. unfold prons_wire. rewrite (alter_split _ _ _ _ Hi), bind_app, bind_cons. cbn [fst snd].
    by rewrite <- app_assoc. }
  split; [|split].
  - rewrite !length_app, Hpre. autorewrite with machine. cbn [length]. unfold row_size, CHEWING_KEY_SIZE. lia.
  - unfold item_wire. rewrite <- !app_assoc. do 3 f_equal. specialize (Hset p.2).
    replace (alter (fun q => (q.1, p.2)) i (prons it)) with (prons it) in Hset; [done|].
    rewrite (alter_split _ _ _ _ Hi). rewrite <- (take_drop_middle _ _ _ Hi) at 1. by destruct p.
  - intros f. unfold item_wire, set_freq. cbn [phrase unigram prons with_prons].
    rewrite length_alter, Hset, <- !app_assoc. done.
Qed.

(** ** Adding a reading *)

Definition same_reading (stored keys : list Z) : bool :=
  forallb (fun p => Z.land p.1 32767 =? Z.land p.2 32767)%Z (zip stored keys).

(** The readings after [keys] took [delta]: the first matching one adds it,
    unless the frequencies up to it would pass 32 bits; [None] is no match. *)
Fixpoint merge_prons (l : list (list Z * Z)) (keys : list Z) (delta total : Z) : option (list (list Z * Z)) :=
  match l with
  | [] => None
  | p :: l =>
      let total := wrap32 (total + p.2) in
      if same_reading p.1 keys
      then Some ((p.1, if (total + delta <=? u32_max)%Z then wrap32 (p.2 + delta) else p.2) :: l)
      else cons p <$> merge_prons l keys delta total
  end.

(** A 256th reading wraps the count: none is left. *)
Definition grown_prons (l : list (list Z * Z)) (keys : list Z) (delta : Z) : list (list Z * Z) :=
  if length l =? u8_max then [] else l ++ [(keys, delta)].

Definition add_reading_to (it : ChunkItem) (keys : list Z) (delta : Z) : ChunkItem :=
  with_prons it (default (grown_prons (prons it) keys delta) (merge_prons (prons it) keys delta 0)).

Definition views (l : list (list Z * Z)) : list PronunciationView :=
  (fun p => {| view_keys := p.1 ≫= le_bytes 2; view_freq := p.2 |}) <$> l.

Lemma words16_back (l : list Z) : Forall is_u16 l -> le_value <$> whole_chunks 2 (l ≫= le_bytes 2) = l.
Proof. intros H. apply bytes_of_words; [lia|done]. Qed.

Lemma matched_reading_spec n l keys delta i total :
  Forall (pron_ok n) l ->
  match matched_reading (views l) keys delta i total with
  | Some (j, f, accepted) => exists k p, j = i + k /\ l !! k = Some p /\ f = p.2 /\
      merge_prons l keys delta total = Some (if accepted then alter (fun q => (q.1, wrap32 (f + delta))) k l else l)
  | None => merge_prons l keys delta total = None
  end.
Proof.
  intros H. revert i total. induction H as [|p l (Hn & Hk & Hf) _ IH]; intros i total; [done|].
  unfold views. rewrite fmap_cons. fold (views l). cbn [matched_reading merge_prons view_freq view_keys].
  unfold key_matches. rewrite words16_back by done. fold (same_reading p.1 keys).
  unfold wrapping_add32. destruct (same_reading p.1 keys).
  - exists 0, p. split; [lia|]. do 2 (split; [done|]). unfold accepts, checked_add32.
    destruct (wrap32 (total + p.2) + delta <=? u32_max)%Z; [done|]. by destruct p.
  - specialize (IH (S i) (wrap32 (total + p.2))).
    destruct (matched_reading (views l) keys delta (S i) _) as [[[j f] accepted]|].
    + destruct IH as (k & q & -> & Hq & -> & ->). exists (S k), q. split; [lia|]. do 2 (split; [done|]).
      by destruct accepted.
    + by rewrite IH.
Qed.

Lemma grown_wire it keys delta :
  chunk_item_ok it -> length keys = length (phrase it) ->
  with_reading (item_wire it) keys delta = Some (item_wire (with_prons it (grown_prons (prons it) keys delta))).
Proof.
  intros (Hl & Hn & _) Hk. unfold with_reading, item_wire, grown_prons. cbn [phrase unigram prons with_prons].
  cbn [app lookup list_lookup mbind option_bind]. f_equal.
  set (c := byte_of (Z.of_nat (length (phrase it)))). set (d := byte_of (Z.of_nat (length (prons it)))).
  assert (Hd : byte_val d = Z.of_nat (length (prons it))).
  { unfold d. rewrite byte_val_of, Z.mod_small; [done|]. unfold u8_max in Hn. lia. }
  rewrite Hd. change (<[1:=?x]> (c :: d :: ?r)) with (c :: x :: r). unfold u8_max in *.
  rewrite byte_val_of. destruct (Nat.eqb_spec (length (prons it)) 255) as [E|E].
  - rewrite E. change ((Z.of_nat 255 + 1) mod 256 =? 0)%Z with true. cbv iota.
    cbn [length prons_wire mbind list_bind]. rewrite app_nil_r, Hk.
    change (c :: ?x :: le32 ?u ++ ?t ++ ?r) with ([c; x] ++ le32 u ++ t ++ r).
    rewrite !app_assoc. rewrite take_app_length'; [done|].
    rewrite !length_app. autorewrite with machine. cbn [length]. lia.
  - rewrite Z.mod_small by lia. rewrite (proj2 (Z.eqb_neq _ _)) by lia. rewrite length_app. cbn [length].
    replace (Z.of_nat (length (prons it)) + 1)%Z with (Z.of_nat (length (prons it) + 1)) by lia.
    unfold prons_wire. rewrite bind_app, bind_cons. cbn [mbind list_bind fst snd app].
    rewrite app_nil_r, <- !app_assoc. done.
Qed.

Lemma freq_poke it i p f :
  chunk_item_ok it -> prons it !! i = Some p ->
  write_at (item_wire it) (freq_position (length (phrase it)) i) (le32 f) = Some (item_wire (set_freq it i f)).
Proof.
  intros Hok Hi. destruct (wire_set_freq it i p Hok Hi) as (pre & post & Hpre & E & Hset).
  assert (Hp : length p.1 = length (phrase it)).
  { destruct Hok as (_ & _ & _ & _ & Hr). rewrite Forall_lookup in Hr. by apply (Hr i p Hi). }
  rewrite E, Hset, !(app_assoc pre). apply write_at_middle; [|by rewrite !length_le32].
  unfold freq_position. rewrite length_app. autorewrite with machine. lia.
Qed.

Lemma merge_prons_ok n l keys delta total l' :
  Forall (pron_ok n) l -> merge_prons l keys delta total = Some l' -> Forall (pron_ok n) l' /\ length l' = length l.
Proof.
  intros H. revert total l'. induction H as [|p l Hp Hl IH]; intros total l'; [done|]. cbn [merge_prons].
  destruct (same_reading p.1 keys).
  - intros [= <-]. split; [|done]. constructor; [|done]. destruct Hp as (? & ? & ?). split; [done|].
    split; [done|]. cbn [snd]. destruct (_ <=? _)%Z; [apply wrap32_range|done].
  - destruct (merge_prons l keys delta _) as [k|] eqn:E; [|done]. intros [= <-].
    destruct (IH _ _ E) as [H1 H2]. split; [by constructor|]. cbn. by rewrite H2.
Qed.

Lemma add_reading_to_ok it keys delta :
  chunk_item_ok it -> length keys = length (phrase it) -> Forall is_u16 keys -> is_u32 delta ->
  chunk_item_ok (add_reading_to it keys delta).
Proof.
  intros Hok Hk Hu Hd. pose proof Hok as (_ & Hn & _ & _ & Hr). unfold add_reading_to.
  destruct (merge_prons (prons it) keys delta 0) as [l|] eqn:E; cbn [from_option id].
  - destruct (merge_prons_ok _ _ _ _ _ _ Hr E) as [H1 H2]. apply with_prons_ok; [done|lia|done].
  - unfold grown_prons. destruct (Nat.eqb_spec (length (prons it)) u8_max); [by apply with_prons_ok; [| cbn; lia|constructor]|].
    apply with_prons_ok; [done|rewrite length_app; cbn; lia|].
    rewrite Forall_app. split; [done|]. apply Forall_singleton. split; [done|]. by split.
Qed.

(** [merged_reading] is [add_reading_to] on the bytes. *)
Lemma merged_reading_spec it keys delta :
  chunk_item_ok it ->
  merged_reading (view_of it) keys delta =
  Some (if length (phrase it) =? length keys then Ok (item_wire (add_reading_to it keys delta))
        else Err ReadingLengthDiffers).
Proof.
  intros Hok. unfold merged_reading. rewrite view_phrase_length_of by done.
  destruct (Nat.eqb_spec (length (phrase it)) (length keys)) as [Hk|]; cbn [negb]; [|done].
  rewrite pronunciations_of by done. fold (views (prons it)). pose proof Hok as (_ & _ & _ & _ & Hr).
  pose proof (matched_reading_spec _ (prons it) keys delta 0 0 Hr) as Hm. unfold add_reading_to.
  destruct (matched_reading (views (prons it)) keys delta 0 0) as [[[i f] accepted]|].
  - destruct Hm as (k & p & -> & Hp & -> & ->). cbn [from_option id Nat.add]. destruct accepted.
    + rewrite <- Hk. cbn [view_bytes view_of]. unfold wrapping_add32. rewrite (freq_poke it k p) by done. done.
    + by destruct it.
  - rewrite Hm. cbn [from_option id view_bytes view_of]. by rewrite grown_wire.
Qed.

(** ** Training the readings *)

(** The readings after one query: each match takes [delta], in order, until
    the running total would pass 32 bits. *)
Fixpoint train_prons (l : list (list Z * Z)) (query : list ChewingKey) (delta total : Z) : list (list Z * Z) :=
  match l with
  | [] => []
  | p :: l =>
      let total := wrap32 (total + p.2) in
      if negb (pronunciation_matches query p.1) then p :: train_prons l query delta total
      else if (total + delta <=? u32_max)%Z
      then (p.1, wrap32 (p.2 + delta)) :: train_prons l query delta (total + delta)%Z
      else p :: l
  end.

Fixpoint train_item (it : ChunkItem) (readings : list (list ChewingKey)) (delta : Z) : ChunkItem :=
  match readings with
  | [] => it
  | query :: readings =>
      train_item (if length query =? length (phrase it)
                  then with_prons it (train_prons (prons it) query delta 0) else it) readings delta
  end.

Lemma train_prons_ok n l query delta total :
  Forall (pron_ok n) l -> Forall (pron_ok n) (train_prons l query delta total) /\
  length (train_prons l query delta total) = length l.
Proof.
  intros H. revert total. induction H as [|p l Hp Hl IH]; intros total; [done|]. cbn [train_prons].
  destruct (pronunciation_matches query p.1); cbn [negb].
  - destruct (_ <=? _)%Z; [|split; [by constructor|done]].
    destruct (IH (wrap32 (total + p.2) + delta)%Z) as [H1 H2]. split; [|cbn; by rewrite H2].
    constructor; [|done]. destruct Hp as (? & ? & ?). split; [done|]. split; [done|]. apply wrap32_range.
  - destruct (IH (wrap32 (total + p.2))) as [H1 H2]. split; [by constructor|cbn; by rewrite H2].
Qed.

Lemma with_train_ok it i query delta total :
  chunk_item_ok it ->
  let it' := with_prons it (take i (prons it) ++ train_prons (drop i (prons it)) query delta total) in
  chunk_item_ok it' /\ item_size it' = item_size it.
Proof.
  intros Hok it'. pose proof Hok as (_ & Hn & _ & _ & Hr).
  destruct (train_prons_ok (length (phrase it)) (drop i (prons it)) query delta total) as [H1 H2];
    [by apply Forall_drop|].
  assert (Hlen : length (take i (prons it) ++ train_prons (drop i (prons it)) query delta total) = length (prons it)).
  { rewrite length_app, H2, length_take, length_drop. lia. }
  split.
  - apply with_prons_ok; [done|by rewrite Hlen|]. rewrite Forall_app. split; [by apply Forall_take|done].
  - unfold item_size, it'. cbn [phrase prons with_prons]. by rewrite Hlen.
Qed.

(** The words of reading [i], where the loop reads them. *)
Lemma body_reading c o it i p :
  chunk_item_ok it -> body_at c o it -> prons it !! i = Some p ->
  let len := length (phrase it) in
  let position_ := o + 6 + 4 * len + i * (2 * len + 4) in
  let frequency := position_ + 2 * len in
  subslice c position_ frequency = Some (p.1 ≫= le_bytes 2) /\
  subslice c frequency (frequency + 4) = Some (le32 p.2) /\
  forall f, is_u32 f -> exists c', write_at c frequency (le32 f) = Some c' /\
    body_at c' o (set_freq it i f) /\ same_outside c c' o (item_size it).
Proof.
  intros Hok Hb Hi len position_ frequency.
  destruct (wire_set_freq it i p Hok Hi) as (pre & post & Hpre & E & Hset). fold len in Hpre.
  assert (Hp : length p.1 = len).
  { destruct Hok as (_ & _ & _ & _ & Hr). rewrite Forall_lookup in Hr. by apply (Hr i p Hi). }
  pose proof (body_at_length _ _ _ Hb) as Hlen. rewrite E in Hlen.
  rewrite !length_app in Hlen. autorewrite with machine in Hlen.
  assert (Hpos : position_ = o + length pre) by (unfold position_; lia).
  assert (Hfreq : frequency = o + (length pre + 2 * len)) by (unfold frequency; lia).
  split; [|split].
  - replace frequency with (o + length pre + 2 * len) by lia. rewrite Hpos.
    rewrite (body_at_subslice c o it) by (done || lia). rewrite E.
    apply subslice_middle; [done|autorewrite with machine; lia].
  - rewrite Hfreq, (body_at_subslice c o it) by (done || lia). rewrite E, (app_assoc pre).
    apply subslice_middle; rewrite ?length_app; autorewrite with machine; lia.
  - intros f Hf. rewrite Hfreq.
    replace (length pre + 2 * len) with (freq_position len i) by (unfold freq_position; lia).
    apply body_at_poke; [by apply set_freq_ok|by apply set_freq_size|done|]. by apply (freq_poke it i p).
Qed.

Lemma train_rows_spec n i c o it query delta total :
  chunk_item_ok it -> body_at c o it -> i + n = length (prons it) ->
  let len := length (phrase it) in
  exists c', train_rows n i (o + 6 + 4 * len) len query delta total c = Some c' /\
    body_at c' o (with_prons it (take i (prons it) ++ train_prons (drop i (prons it)) query delta total)) /\
    same_outside c c' o (item_size it).
Proof.
  revert i c it total. induction n as [|n IH]; intros i c it total Hok Hb Hn len; cbn [train_rows].
  { exists c. split; [done|]. split; [|done]. rewrite take_ge, drop_ge by lia. cbn [train_prons].
    rewrite app_nil_r. by destruct it. }
  destruct (lookup_lt_is_Some_2 (prons it) i) as [p Hp]; [lia|].
  destruct (body_reading c o it i p Hok Hb Hp) as (Hkeys & Hfreq & Hwrite). fold len in Hkeys, Hfreq, Hwrite.
  cbv zeta. rewrite Hfreq, Hkeys. cbn [mbind option_bind].
  pose proof Hok as (_ & _ & _ & _ & Hr). rewrite Forall_lookup in Hr. destruct (Hr i p Hp) as (_ & Hku & Hfu).
  rewrite le32_word, words16_back by done.
  assert (Hdrop : drop i (prons it) = p :: drop (S i) (prons it)) by (by apply drop_S).
  rewrite Hdrop. cbn [train_prons]. unfold wrapping_add32.
  destruct (pronunciation_matches query p.1); cbn [negb].
  - unfold checked_add32. destruct (wrap32 (total + p.2) + delta <=? u32_max)%Z.
    + destruct (Hwrite (wrap32 (p.2 + delta)) (wrap32_range _)) as (c' & Hw & Hb' & Hs).
      rewrite Hw. cbn [mbind option_bind].
      set (it' := set_freq it i (wrap32 (p.2 + delta))) in *.
      destruct (IH (S i) c' it' (wrap32 (total + p.2) + delta)%Z) as (c'' & Ht & Hb'' & Hs'');
        [by apply set_freq_ok, wrap32_range|done|unfold it', set_freq; cbn; rewrite length_alter; lia|].
      exists c''. split; [exact Ht|]. unfold it' in Hs''. rewrite set_freq_size in Hs''. split; [|by eapply same_outside_trans].
      pose proof (lookup_lt_Some _ _ _ Hp) as Hlt. revert Hb''.
      replace (prons it') with (take i (prons it) ++ (p.1, wrap32 (p.2 + delta)) :: drop (S i) (prons it))
        by (symmetry; exact (alter_split _ _ _ _ Hp)).
      rewrite cons_middle, app_assoc.
      rewrite take_app_length', drop_app_length' by (rewrite length_app, length_take; cbn; lia).
      rewrite <- app_assoc. done.
    + exists c. split; [done|]. split; [|done]. rewrite take_drop_middle by done. by destruct it.
  - destruct (IH (S i) c it (wrap32 (total + p.2))) as (c' & Ht & Hb' & Hs); [done|done|lia|].
    exists c'. split; [exact Ht|]. split; [|done]. revert Hb'.
    rewrite (take_S_r _ _ _ Hp), <- app_assoc. done.
Qed.

Lemma train_readings_spec readings c o it delta :
  chunk_item_ok it -> body_at c o it ->
  let len := length (phrase it) in
  exists c', train_readings readings (length (prons it)) (o + 6 + 4 * len) len delta c = Some c' /\
    body_at c' o (train_item it readings delta) /\ same_outside c c' o (item_size it) /\
    chunk_item_ok (train_item it readings delta) /\ item_size (train_item it readings delta) = item_size it.
Proof.
  revert c it. induction readings as [|query readings IH]; intros c it Hok Hb len; cbn [train_readings train_item].
  { by exists c. }
  fold len. destruct (length query =? len); cbn [negb]; [|by apply IH].
  destruct (train_rows_spec (length (prons it)) 0 c o it query delta 0 Hok Hb eq_refl) as (c' & Ht & Hb' & Hs).
  fold len in Ht. rewrite Ht. cbn [mbind option_bind]. rewrite take_0, drop_0 in Hb'. cbn [app] in Hb'.
  destruct (with_train_ok it 0 query delta 0 Hok) as [Hok' Hsize]. rewrite take_0, drop_0 in Hok', Hsize. cbn [app] in Hok', Hsize.
  destruct (IH c' _ Hok' Hb') as (c'' & Ht' & Hb'' & Hs' & Hok'' & Hsize').
  cbn [phrase prons with_prons] in Ht'. fold len in Ht'.
  destruct (train_prons_ok len (prons it) query delta 0) as [_ Hlen]; [apply Hok|]. rewrite Hlen in Ht'.
  exists c''. split; [exact Ht'|]. split; [done|]. rewrite Hsize in *.
  split; [by eapply same_outside_trans|]. split; [done|congruence].
Qed.
