(* ===== verification/UserLibraryStore.v ===== *)
(** * UserLibraryStore: the items a user library holds, and its file

    The relation between a library and the map of items it stands for, that
    the operations keep it, and that a stored library loads as the same map. *)

From Stdlib Require Import ZArith Lia Bool Strings.Byte.
From stdpp Require Import base list sorting gmap.
From S2P Require Import Prelude Chewing RowFormat ChunkFormat PhraseLibrary UserLibrary UserLibraryBodies.

(** ** The items of a map, in slot order *)

Definition slot_le (a b : Z * ChunkItem) : Prop := (a.1 <= b.1)%Z.
#[export] Instance slot_le_dec a b : Decision (slot_le a b) := Z_le_dec a.1 b.1.
#[export] Instance slot_le_trans : Transitive slot_le.
Proof. intros a b c. unfold slot_le. lia. Qed.
#[export] Instance slot_le_total : Total slot_le.
Proof. intros a b. unfold slot_le. lia. Qed.

Definition item_list (m : gmap Z ChunkItem) : list (Z * ChunkItem) := merge_sort slot_le (map_to_list m).

Lemma item_list_perm m : item_list m ≡ₚ map_to_list m.
Proof. apply merge_sort_Permutation. Qed.

Lemma elem_of_item_list m k it : (k, it) ∈ item_list m <-> m !! k = Some it.
Proof. rewrite item_list_perm. apply elem_of_map_to_list. Qed.

Lemma weakly_ascending {A} (l : list (Z * A)) :
  StronglySorted (fun a b => a.1 <= b.1)%Z l -> NoDup l.*1 -> ascending l.
Proof.
  induction l as [|e l IH]; [constructor|]. intros [Hs Hle]%StronglySorted_inv. rewrite fmap_cons, NoDup_cons.
  intros [Hn Hd]. apply ascending_cons. split; [by apply IH|]. rewrite Forall_forall in *. intros x Hx.
  specialize (Hle x Hx). assert (e.1 <> x.1); [|lia]. intros E. apply Hn. rewrite E.
  by apply list_elem_of_fmap_2.
Qed.

Lemma item_list_ascending m : ascending (item_list m).
Proof.
  apply weakly_ascending.
  - apply Sorted_StronglySorted; [intros a b c; lia|]. apply (Sorted_merge_sort slot_le).
  - rewrite item_list_perm. apply NoDup_fst_map_to_list.
Qed.

Lemma item_list_map m : list_to_map (item_list m) = m.
Proof.
  rewrite <- (list_to_map_to_list m) at 2. apply list_to_map_proper; [|apply item_list_perm].
  rewrite item_list_perm. apply NoDup_fst_map_to_list.
Qed.

Lemma item_list_unique m l : ascending l -> (forall k it, (k, it) ∈ l <-> m !! k = Some it) -> l = item_list m.
Proof.
  intros Ha H. apply ascending_ext; [done|apply item_list_ascending|].
  intros [k it]. by rewrite H, elem_of_item_list.
Qed.

Lemma item_list_nil m : item_list m = [] <-> m = ∅.
Proof.
  split; [|intros ->; done]. intros H. apply map_eq. intros k. rewrite lookup_empty.
  destruct (m !! k) as [it|] eqn:E; [|done]. apply elem_of_item_list in E. rewrite H in E.
  by apply not_elem_of_nil in E.
Qed.

Lemma ascending_nodup {A} (l : list (Z * A)) : ascending l -> NoDup l.*1.
Proof.
  induction l as [|e l IH]; [constructor|]. rewrite ascending_cons, fmap_cons, Forall_forall.
  intros [Ha Hlt]. constructor; [|by apply IH]. intros (x & E & Hx)%list_elem_of_fmap.
  specialize (Hlt x Hx). lia.
Qed.

(** ** Holding *)

Record holds (l : UserLibrary) (t : Z) (m : gmap Z ChunkItem) : Prop := {
  holds_headers : headers_only l = false;
  holds_total : total l = t;
  holds_u32 : is_u32 t;
  holds_slots : slots_ok (slots l);
  holds_used : forall k o, (k, o) ∈ entries (slots l) -> is_Some (m !! k);
  holds_items : forall k it, m !! k = Some it ->
    (0 <= k <= PHRASE_MASK)%Z /\ chunk_item_ok it /\
    exists o, (k, Z.of_nat o) ∈ entries (slots l) /\ body_at (content l) o it;
  holds_disjoint : forall k1 k2 o1 o2 it1 it2, k1 <> k2 -> m !! k1 = Some it1 -> m !! k2 = Some it2 ->
    (k1, Z.of_nat o1) ∈ entries (slots l) -> (k2, Z.of_nat o2) ∈ entries (slots l) ->
    o1 + item_size it1 <= o2 \/ o2 + item_size it2 <= o1
}.

Lemma holds_empty t : is_u32 t -> holds (empty_with_total t) t ∅.
Proof.
  intros Ht. split; try done.
  intros k o H. by apply not_elem_of_nil in H.
Qed.

(** Where the body of a held item is. *)
Lemma holds_offset l t m k it :
  holds l t m -> m !! k = Some it ->
  exists o, slots_offset (slots l) k = Some (Z.of_nat o) /\ (k, Z.of_nat o) ∈ entries (slots l) /\
    body_at (content l) o it /\ chunk_item_ok it /\ (0 <= k <= PHRASE_MASK)%Z.
Proof.
  intros Hh Hk. destruct (holds_items _ _ _ Hh k it Hk) as (Hr & Hok & o & Hin & Hb). exists o.
  split; [apply slots_offset_spec; [by eapply holds_slots|lia|done]|done].
Qed.

Lemma holds_no_offset l t m k :
  holds l t m -> (0 <= k)%Z -> m !! k = None -> slots_offset (slots l) k = None.
Proof.
  intros Hh Hk Hm. apply slots_offset_none; [by eapply holds_slots|done|].
  intros o [x Hx]%(holds_used _ _ _ Hh). congruence.
Qed.

Lemma holds_item l t m k : holds l t m -> (0 <= k)%Z -> item l k = view_of <$> m !! k.
Proof.
  intros Hh Hk. unfold item. rewrite (holds_headers _ _ _ Hh). destruct (m !! k) as [it|] eqn:E.
  - destruct (holds_offset _ _ _ _ _ Hh E) as (o & -> & _ & Hb & Hok & _). cbn [mbind option_bind].
    rewrite Nat2Z.id. destruct (body_at_get _ _ _ Hb) as [rest ->]. cbn [mbind option_bind].
    by rewrite view_from_wire.
  - by rewrite (holds_no_offset _ _ _ _ Hh Hk E).
Qed.

Lemma ascending_omap {A B} (f : Z * A -> option (Z * B)) (l : list (Z * A)) :
  (forall e d, f e = Some d -> d.1 = e.1) -> ascending l -> ascending (omap f l).
Proof.
  intros Hf. induction l as [|e l IH]; [done|]. rewrite ascending_cons, Forall_forall. intros [Ha Hlt].
  cbn [omap list_omap]. destruct (f e) as [d|] eqn:E; [|by apply IH]. apply ascending_cons.
  split; [by apply IH|]. rewrite Forall_forall. intros x (y & Hy & Ey)%list_elem_of_omap.
  rewrite (Hf _ _ E), (Hf _ _ Ey). by apply Hlt.
Qed.

Lemma holds_item_list l t m :
  holds l t m -> items l = (fun e => (e.1, view_of e.2)) <$> item_list m.
Proof.
  intros Hh. pose proof (holds_slots _ _ _ Hh) as Hs. apply ascending_ext.
  - apply ascending_omap; [|by apply entries_ascending]. intros e d.
    destruct (item l e.1); [|done]. by intros [= <-].
  - rewrite <- list_fmap_compose. exact (item_list_ascending m).
  - intros [k v]. unfold items. rewrite list_elem_of_omap, list_elem_of_fmap. split.
    + intros ([j o] & Hin & E). destruct (entries_nonzero _ _ _ Hs Hin) as [Hj _]. cbn [fst] in E.
      rewrite (holds_item _ _ _ _ Hh Hj) in E. destruct (m !! j) as [it|] eqn:Ej; [|done].
      cbn in E. injection E as <- <-. exists (j, it). split; [done|]. by apply elem_of_item_list.
    + intros ([j it] & [= -> ->] & Hj%elem_of_item_list).
      destruct (holds_offset _ _ _ _ _ Hh Hj) as (o & _ & Hin & _ & _ & Hr).
      exists (j, Z.of_nat o). split; [done|]. cbn [fst]. rewrite (holds_item _ _ _ _ Hh) by lia. by rewrite Hj.
Qed.

Lemma holds_layout l t m : holds l t m -> layout_ok (item_list m).
Proof.
  intros Hh. split; [|apply item_list_ascending]. rewrite Forall_forall. intros [k it] Hk%elem_of_item_list.
  destruct (holds_items _ _ _ Hh k it Hk) as (? & ? & _). by split.
Qed.

(** ** Removing *)

Lemma holds_drop l t m k it :
  holds l t m -> m !! k = Some it -> holds (drop_item l k (view_of it)) (wrap32 (t - unigram it)) (delete k m).
Proof.
  intros Hh Hk. destruct (holds_offset _ _ _ _ _ Hh Hk) as (_ & _ & _ & _ & Hok & Hr).
  destruct (entries_set (slots l) k 0 (holds_slots _ _ _ Hh)) as [Hs He]; [lia|].
  assert (He' : forall j o, (j, o) ∈ entries (slots_set (slots l) k 0) <-> j <> k /\ (j, o) ∈ entries (slots l)).
  { intros j o. rewrite He. split; [|by right]. by intros [(_ & _ & ?)|]. }
  unfold drop_item. rewrite view_unigram_of by done. split; cbn [headers_only total slots content].
  - by apply (holds_headers _ _ _ Hh).
  - by rewrite (holds_total _ _ _ Hh).
  - apply wrap32_range.
  - done.
  - intros j o [Hne Hin]%He'. rewrite lookup_delete_ne by done. by apply (holds_used _ _ _ Hh j o).
  - intros j x [Hne Hj]%lookup_delete_Some. destruct (holds_items _ _ _ Hh j x Hj) as (? & ? & o & ? & ?).
    split; [done|]. split; [done|]. exists o. split; [|done]. by apply He'.
  - intros k1 k2 o1 o2 it1 it2 Hne [_ H1]%lookup_delete_Some [_ H2]%lookup_delete_Some [_ E1]%He' [_ E2]%He'.
    by apply (holds_disjoint _ _ _ Hh k1 k2).
Qed.

Lemma remove_body_spec l t m k :
  holds l t m -> (0 <= k)%Z ->
  match m !! k with
  | Some it => (remove_body l k).2 = true /\ holds (remove_body l k).1 (wrap32 (t - unigram it)) (delete k m)
  | None => remove_body l k = (l, false)
  end.
Proof.
  intros Hh Hk. unfold remove_body. rewrite (holds_item _ _ _ _ Hh Hk).
  destruct (m !! k) as [it|] eqn:E; [|done]. cbn [fmap option_fmap option_map fst snd].
  split; [done|]. by apply holds_drop.
Qed.

(** ** Updating a body in place *)

Lemma holds_update l t m k it it' o c' t' :
  holds l t m -> m !! k = Some it -> (k, Z.of_nat o) ∈ entries (slots l) ->
  chunk_item_ok it' -> item_size it' = item_size it -> body_at c' o it' ->
  same_outside (content l) c' o (item_size it) -> is_u32 t' ->
  holds {| total := t'; slots := slots l; content := c'; headers_only := headers_only l |} t' (<[k := it']> m).
Proof.
  intros Hh Hk Ho Hok' Hsize Hb Hout Ht. pose proof (holds_slots _ _ _ Hh) as Hs.
  assert (Hold : forall j x, <[k:=it']> m !! j = Some x -> exists y, m !! j = Some y /\ item_size y = item_size x).
  { intros j x. rewrite lookup_insert. case_decide as Hj; [intros [= <-]; subst; by exists it|]. by exists x. }
  split; cbn [headers_only total slots content]; [by apply (holds_headers _ _ _ Hh)|done|done|done| | |].
  - intros j p Hin. destruct (holds_used _ _ _ Hh j p Hin) as [x Hx]. rewrite lookup_insert.
    case_decide; by eexists.
  - intros j x. rewrite lookup_insert. case_decide as Hj.
    + intros [= <-]. subst j. destruct (holds_items _ _ _ Hh k it Hk) as (? & _). split; [done|]. split; [done|].
      by exists o.
    + intros Hx. destruct (holds_items _ _ _ Hh j x Hx) as (? & Hokx & p & Hp & Hbp). split; [done|]. split; [done|].
      exists p. split; [done|]. apply (body_at_outside (content l) c' o (item_size it)); [done|done| |done].
      by apply (holds_disjoint _ _ _ Hh k j o p it x).
  - intros k1 k2 o1 o2 it1 it2 Hne (y1 & H1 & <-)%Hold (y2 & H2 & <-)%Hold. by apply (holds_disjoint _ _ _ Hh k1 k2).
Qed.

(** ** Adding a body *)

Lemma append_offset_spec n :
  (Z.of_nat n <= u32_max)%Z -> append_offset n = Z.of_nat (if n =? 0 then 8 else n).
Proof.
  intros H. unfold append_offset, OFFSET_MODULUS. change 4294967296%Z with u32_size.
  fold (wrap32 (Z.of_nat n)). rewrite !wrap32_len by (rewrite ?wrap32_len; done).
  destruct (Nat.eqb_spec n 0) as [->|Hn]; [done|]. by rewrite (proj2 (Z.eqb_neq _ _)) by lia.
Qed.

(** The writes of [apply_replacement]: [b] at [start], past every earlier byte. *)
Lemma append_body (c : bytes) start (b : bytes) :
  start = (if length c =? 0 then 8 else length c) ->
  let c8 := if length c <? 8 then resize 8 x00 c else c in
  let end_ := start + length b in
  let grown := if length c8 <? end_ then resize end_ x00 c8 else c8 in
  exists c', write_at grown start b = Some c' /\
    length c <= length c' <= Nat.max 8 (length c) + length b /\
    (forall i, i < length c -> c' !! i = c !! i) /\
    (forall i, i < length b -> c' !! (start + i) = b !! i) /\ start + length b <= length c'.
Proof.
  intros Hstart c8 end_ grown.
  assert (H8 : length c8 = Nat.max 8 (length c) /\ forall i, i < length c -> c8 !! i = c !! i).
  { unfold c8. destruct (Nat.ltb_spec (length c) 8); [|split; [lia|done]].
    split; [rewrite length_resize; lia|]. intros i Hi. rewrite resize_ge, lookup_app_l by lia. done. }
  destruct H8 as [L8 E8].
  assert (Hg : length grown = Nat.max end_ (Nat.max 8 (length c)) /\ forall i, i < length c -> grown !! i = c !! i).
  { unfold grown. destruct (Nat.ltb_spec (length c8) end_); [|split; [lia|done]].
    split; [rewrite length_resize; lia|]. intros i Hi. rewrite resize_ge, lookup_app_l by lia. by apply E8. }
  destruct Hg as [Lg Eg].
  assert (Hge : length c <= start) by (subst start; destruct (Nat.eqb_spec (length c) 0); lia).
  assert (Hle : start <= Nat.max 8 (length c)) by (subst start; destruct (Nat.eqb_spec (length c) 0); lia).
  destruct (write_at_spec grown start b) as (c' & -> & Hl & Hc); [unfold end_ in Lg; lia|].
  exists c'. split; [done|]. split; [unfold end_ in *; lia|]. split; [|split; [|unfold end_ in *; lia]].
  - intros i Hi. rewrite Hc. case_decide; [lia|]. by apply Eg.
  - intros i Hi. rewrite Hc. case_decide; [|lia]. f_equal. lia.
Qed.

Lemma holds_put l t m k it c' start :
  holds l t m -> (0 <= k <= PHRASE_MASK)%Z -> chunk_item_ok it ->
  start = (if length (content l) =? 0 then 8 else length (content l)) ->
  length (content l) <= length c' -> (forall i, i < length (content l) -> c' !! i = content l !! i) ->
  (forall i, i < item_size it -> c' !! (start + i) = item_wire it !! i) -> start + item_size it <= length c' ->
  holds {| total := wrap32 (t + unigram it); slots := slots_set (slots l) k (Z.of_nat start);
           content := c'; headers_only := headers_only l |}
        (wrap32 (t + unigram it)) (<[k := it]> m).
Proof.
  intros Hh Hk Hok Hstart Hlen Hold Hnew Hend.
  assert (Hpos : 0 < start /\ length (content l) <= start)
    by (subst start; destruct (Nat.eqb_spec (length (content l)) 0); lia).
  destruct (entries_set (slots l) k (Z.of_nat start) (holds_slots _ _ _ Hh)) as [Hs He]; [lia|].
  assert (Hbelow : forall j x o, m !! j = Some x -> (j, Z.of_nat o) ∈ entries (slots l) -> o + item_size x <= start).
  { intros j x o Hj Ho. destruct (holds_items _ _ _ Hh j x Hj) as (_ & _ & p & Hp & (_ & Hb & _)).
    assert (o = p) as ->; [|lia]. apply Nat2Z.inj.
    by apply (ascending_elem (entries (slots l)) j); [apply entries_ascending, (holds_slots _ _ _ Hh)| |]. }
  split; cbn [headers_only total slots content]; [by apply (holds_headers _ _ _ Hh)|done|apply wrap32_range|done| | |].
  - intros j o Hin. apply He in Hin. rewrite lookup_insert. case_decide; [by eexists|].
    destruct Hin as [(-> & _)|[_ Hin]]; [done|]. by apply (holds_used _ _ _ Hh j o).
  - intros j x. rewrite lookup_insert. case_decide as Hj.
    + intros [= <-]. subst j. split; [done|]. split; [done|]. exists start. split; [apply He; left; lia|].
      apply body_at_intro; [done|lia|done|done].
    + intros Hx. destruct (holds_items _ _ _ Hh j x Hx) as (? & Hokx & o & Ho & Hb). split; [done|]. split; [done|].
      exists o. split; [apply He; by right|]. destruct Hb as (B1 & B2 & B3).
      apply body_at_intro; [done|done|lia|]. intros i Hi. rewrite Hold by lia.
      apply (body_at_lookup (content l) o x); [by split|done].
  - intros k1 k2 o1 o2 it1 it2 Hne H1 H2 E1 E2. apply He in E1, E2. rewrite lookup_insert in H1, H2.
    clear Hstart. destruct (decide (k = k1)) as [<-|N1], (decide (k = k2)) as [<-|N2]; [done| | |];
      rewrite ?decide_True, ?decide_False in H1 by done; rewrite ?decide_True, ?decide_False in H2 by done.
    + injection H1 as <-. destruct E1 as [(_ & E1 & _)|[]]; [|done]. destruct E2 as [[]|[_ E2]]; [done|].
      right. apply Nat2Z.inj in E1. subst o1. by eapply Hbelow.
    + injection H2 as <-. destruct E2 as [(_ & E2 & _)|[]]; [|done]. destruct E1 as [[]|[_ E1]]; [done|].
      left. apply Nat2Z.inj in E2. subst o2. by eapply Hbelow.
    + destruct E1 as [[]|[_ E1]]; [done|]. destruct E2 as [[]|[_ E2]]; [done|].
      by apply (holds_disjoint _ _ _ Hh k1 k2).
Qed.

(** What the total loses when the old item of the slot is removed first. *)
Definition old_unigram (removes : bool) (m : gmap Z ChunkItem) (k : Z) (t : Z) : Z :=
  if removes then match m !! k with Some it => wrap32 (t - unigram it) | None => t end else t.

Lemma apply_spec l t m k it rest removes :
  holds l t m -> (0 <= k <= PHRASE_MASK)%Z -> chunk_item_ok it -> (Z.of_nat (length (content l)) <= u32_max)%Z ->
  let change := placement l k (view_of it) in
  exists l', apply_replacement l {| rep_slot := rep_slot change; rep_offset := rep_offset change;
                                    rep_length := rep_length change; rep_unigram := rep_unigram change;
                                    removes_old := removes |} (item_wire it ++ rest) = Some l' /\
    holds l' (wrap32 (old_unigram removes m k t + unigram it)) (<[k := it]> m) /\
    length (content l') <= Nat.max 8 (length (content l)) + item_size it.
Proof.
  intros Hh Hk Hok Hfit change. unfold apply_replacement, change, placement.
  cbn [rep_slot rep_offset rep_length rep_unigram removes_old].
  rewrite (holds_headers _ _ _ Hh). cbn [view_bytes view_of].
  change (item_wire it ++ rest) with ([] ++ item_wire it ++ rest).
  rewrite subslice_middle by done. cbn [mbind option_bind]. rewrite append_offset_spec by done. rewrite Nat2Z.id.
  rewrite view_unigram_of by done.
  set (start := if length (content l) =? 0 then 8 else length (content l)).
  set (l1 := if removes then _ else l).
  assert (H1 : exists m1, holds l1 (old_unigram removes m k t) m1 /\ content l1 = content l /\
                          <[k:=it]> m1 = <[k:=it]> m).
  { unfold l1, old_unigram. destruct removes; [|by exists m].
    rewrite (holds_item _ _ _ _ Hh) by lia. destruct (m !! k) as [old|] eqn:E; cbn [fmap option_fmap option_map].
    - exists (delete k m). split; [by apply holds_drop|]. split; [done|]. apply insert_delete_eq.
    - by exists m. }
  destruct H1 as (m1 & H1 & Hc & Hm). rewrite Hc.
  destruct (append_body (content l) start (item_wire it) eq_refl) as (c' & -> & Hl & Hold & Hnew & Hend).
  rewrite length_item_wire in Hl, Hnew, Hend by done. cbn [mbind option_bind].
  eexists. split; [done|]. cbn [content]. split; [|lia]. rewrite (holds_total _ _ _ H1), <- Hm.
  unfold wrapping_add32. apply holds_put; rewrite ?Hc; try done. lia.
Qed.

Lemma replace_ok l t m k it rest :
  holds l t m -> (0 <= k <= PHRASE_MASK)%Z -> chunk_item_ok it -> (Z.of_nat (length (content l)) <= u32_max)%Z ->
  exists l', replace l k (item_wire it ++ rest) = Some (l', Ok tt) /\
    holds l' (wrap32 (old_unigram true m k t + unigram it)) (<[k := it]> m) /\
    length (content l') <= Nat.max 8 (length (content l)) + item_size it.
Proof.
  intros Hh Hk Hok Hfit. destruct (apply_spec l t m k it rest true Hh Hk Hok Hfit) as (l' & E & H1 & H2).
  unfold replace, replacement. rewrite (proj2 (Z.ltb_ge _ _)), view_from_wire by (done || lia). cbn [ok_or].
  exists l'. split; [|done]. cbv zeta in E. unfold placement in *.
  cbn [rep_slot rep_offset rep_length rep_unigram] in E. by rewrite E.
Qed.

(** ** Compaction *)

Lemma compact_loop_spec its l t m :
  holds l t m -> Forall slot_ok its -> NoDup its.*1 -> (forall e, e ∈ its -> m !! e.1 = None) ->
  (Z.of_nat (Nat.max 8 (length (content l)) + sizes its) <= u32_max)%Z ->
  exists l', compact_loop l ((fun e => (e.1, view_of e.2)) <$> its) = Some l' /\
    holds l' (wrap32 (t + unigrams its)) (list_to_map its ∪ m) /\
    length (content l') <= Nat.max 8 (length (content l)) + sizes its.
Proof.
  revert l t m. induction its as [|[k it] its IH]; intros l t m Hh Hok Hnd Hfresh Hfit.
  { exists l. split; [done|]. split; [|unfold sizes; cbn; lia].
    change (list_to_map []) with (∅ : gmap Z ChunkItem).
    rewrite (left_id_L ∅ (∪)). replace (t + unigrams [])%Z with t by (unfold unigrams; cbn; lia).
    rewrite wrap32_small by apply (holds_u32 _ _ _ Hh). done. }
  apply Forall_cons in Hok as [[Hk Hit] Hok]. cbn [fst snd] in *.
  rewrite fmap_cons, NoDup_cons in Hnd. destruct Hnd as [Hnk Hnd]. cbn [fst] in Hnk.
  rewrite fmap_cons. cbn [compact_loop fst snd].
  assert (Hmk : m !! k = None) by (apply (Hfresh (k, it)); left).
  unfold sizes in Hfit. cbn [sum_list_with snd] in Hfit. fold (sizes its) in Hfit.
  destruct (apply_spec l t m k it [] true Hh Hk Hit) as (l1 & E & H1 & H2); [lia|]. rewrite app_nil_r in E.
  unfold old_unigram in H1. rewrite Hmk in H1. cbv zeta in E.
  change (view_bytes (view_of it)) with (item_wire it).
  replace (placement l k (view_of it)) with
    {| rep_slot := rep_slot (placement l k (view_of it)); rep_offset := rep_offset (placement l k (view_of it));
       rep_length := rep_length (placement l k (view_of it)); rep_unigram := rep_unigram (placement l k (view_of it));
       removes_old := true |} by done.
  rewrite E. cbn [mbind option_bind].
  destruct (IH l1 _ _ H1 Hok Hnd) as (l' & E' & H3 & H4).
  { intros e He. rewrite lookup_insert_ne; [by apply Hfresh; right|]. intros Ek.
    apply Hnk. rewrite Ek. by apply list_elem_of_fmap_2. }
  { lia. }
  exists l'. split; [exact E'|]. split; [|unfold sizes; cbn [sum_list_with snd]; fold (sizes its); lia].
  rewrite wrap32_add_l in H3. unfold unigrams. cbn [foldr snd]. fold (unigrams its).
  replace (t + (unigram it + unigrams its))%Z with (t + unigram it + unigrams its)%Z by lia.
  rewrite list_to_map_cons, <- insert_union_l, insert_union_r; [done|].
  apply not_elem_of_list_to_map_1. done.
Qed.

(** Bodies that do not overlap fit in the arena together. *)
Lemma disjoint_sum (l : list (nat * nat)) n :
  Forall (fun p => p.1 + p.2 <= n) l ->
  (forall i j p q, i <> j -> l !! i = Some p -> l !! j = Some q -> p.1 + p.2 <= q.1 \/ q.1 + q.2 <= p.1) ->
  sum_list_with snd l <= n.
Proof.
  intros Hn Hd. set (cells := l ≫= fun p => seq p.1 p.2).
  assert (Hlen : length cells = sum_list_with snd l).
  { unfold cells. clear. induction l as [|p l IH]; [done|]. rewrite bind_cons, length_app, length_seq, IH. done. }
  rewrite <- Hlen, <- (length_seq n 0). apply NoDup_incl_length.
  - apply NoDup_ListNoDup. unfold cells. clear Hlen cells Hn. induction l as [|p l IH]; [constructor|].
    rewrite bind_cons. apply NoDup_app. split; [apply NoDup_seq|]. split.
    + intros x Hx%elem_of_seq (q & Hx' & Hq)%list_elem_of_bind. apply elem_of_seq in Hx'.
      apply list_elem_of_lookup in Hq as [j Hj]. destruct (Hd 0 (S j) p q); [lia|done|done|lia|lia].
    + apply IH. intros i j q r Hij Hi Hj. apply (Hd (S i) (S j)); [lia|done|done].
  - intros x Hx%list_elem_of_In. apply list_elem_of_In. apply elem_of_seq.
    apply list_elem_of_bind in Hx as (p & Hx%elem_of_seq & Hp). rewrite Forall_forall in Hn.
    specialize (Hn p Hp). lia.
Qed.

Lemma holds_sizes l t m : holds l t m -> sizes (item_list m) <= length (content l).
Proof.
  intros Hh. pose proof (holds_layout _ _ _ Hh) as [_ Ha].
  set (at_ := fun e : Z * ChunkItem => (match slots_offset (slots l) e.1 with Some o => Z.to_nat o | None => 0 end, item_size e.2)).
  assert (Hs : sizes (item_list m) = sum_list_with snd (at_ <$> item_list m)).
  { unfold sizes. clear. induction (item_list m) as [|e its IH]; [done|]. rewrite fmap_cons.
    cbn [sum_list_with]. by rewrite IH. }
  assert (Hat : forall e, e ∈ item_list m -> exists o, at_ e = (o, item_size e.2) /\ m !! e.1 = Some e.2 /\
             (e.1, Z.of_nat o) ∈ entries (slots l) /\ body_at (content l) o e.2).
  { intros [k it] He%elem_of_item_list. destruct (holds_offset _ _ _ _ _ Hh He) as (o & E & Hin & Hb & _).
    exists o. unfold at_. cbn [fst snd]. rewrite E, Nat2Z.id. done. }
  rewrite Hs. apply disjoint_sum.
  - rewrite Forall_fmap, Forall_forall. intros e He. destruct (Hat e He) as (o & E & _ & _ & (_ & Hb & _)).
    unfold compose. by rewrite E.
  - intros i j p q Hij Hi Hj. rewrite list_lookup_fmap in Hi, Hj.
    destruct (item_list m !! i) as [e|] eqn:Ei; [|done]. destruct (item_list m !! j) as [d|] eqn:Ej; [|done].
    injection Hi as <-. injection Hj as <-.
    destruct (Hat e) as (o1 & -> & M1 & N1 & _); [by eapply list_elem_of_lookup_2|].
    destruct (Hat d) as (o2 & -> & M2 & N2 & _); [by eapply list_elem_of_lookup_2|]. cbn [fst snd].
    apply (holds_disjoint _ _ _ Hh e.1 d.1); [|done..]. intros E. apply Hij.
    apply (NoDup_lookup (item_list m).*1 i j e.1); [by apply ascending_nodup| |];
      rewrite list_lookup_fmap; [by rewrite Ei|by rewrite Ej, E].
Qed.

Lemma compacted_spec l t m :
  holds l t m -> (Z.of_nat (8 + length (content l)) <= u32_max)%Z ->
  exists l', compact l = Some l' /\ holds l' (wrap32 (unigrams (item_list m))) m /\
    length (content l') <= 8 + length (content l).
Proof.
  intros Hh Hfit. pose proof (holds_sizes _ _ _ Hh) as Hsz. pose proof (holds_layout _ _ _ Hh) as [Hok Ha].
  unfold compact, compacted. rewrite (holds_item_list _ _ _ Hh).
  set (fresh := if _ <? _ then _ else UserLibrary_default).
  assert (H0 : holds fresh 0 ∅ /\ content fresh = []).
  { unfold fresh. destruct (_ <? _); (split; [|done]); [|by apply holds_empty].
    split; first [done|split; constructor|by intros k o H%not_elem_of_nil]. }
  destruct H0 as [H0 Hc].
  destruct (compact_loop_spec (item_list m) fresh 0 ∅ H0 Hok) as (l' & E & H1 & H2);
    [by apply ascending_nodup|done|rewrite Hc; cbn; lia|].
  exists l'. split; [exact E|]. rewrite item_list_map, (right_id_L ∅ (∪)), Z.add_0_l in H1.
  split; [done|]. rewrite Hc in H2. cbn [length] in H2. lia.
Qed.

(** ** What the slots say of the items *)

Lemma ascending_keys {A B} (l : list (Z * A)) (k : list (Z * B)) :
  ascending l -> ascending k -> (forall x, x ∈ l.*1 <-> x ∈ k.*1) -> l.*1 = k.*1.
Proof.
  intros Hl Hk H.
  assert (E : (fun x => (x, tt)) <$> l.*1 = (fun x => (x, tt)) <$> k.*1).
  { apply ascending_ext.
    - rewrite <- list_fmap_compose. unfold compose. cbn. by rewrite list_fmap_id.
    - rewrite <- list_fmap_compose. unfold compose. cbn. by rewrite list_fmap_id.
    - intros [x []]. rewrite !list_elem_of_fmap.
      split; intros (y & [= ->] & Hy); exists y; (split; [done|]); by apply H. }
  apply (f_equal (fmap fst)) in E. rewrite <- !list_fmap_compose in E. exact E.
Qed.

Section held.
Context (l : UserLibrary) (t : Z) (m : gmap Z ChunkItem).
Context (held : holds l t m).

Abbreviation its := (item_list m).

Lemma held_keys : (entries (slots l)).*1 = its.*1.
Proof using held.
  apply ascending_keys; [apply entries_ascending, (holds_slots _ _ _ held)|apply item_list_ascending|].
  intros k. rewrite !list_elem_of_fmap. split.
  - intros ([j o] & -> & Hin). destruct (holds_used _ _ _ held _ _ Hin) as [it Hit].
    exists (j, it). split; [done|]. by apply elem_of_item_list.
  - intros ([j it] & -> & Hin%elem_of_item_list).
    destruct (holds_items _ _ _ held _ _ Hin) as (_ & _ & o & Ho & _). by exists (j, Z.of_nat o).
Qed.

Lemma held_empty : is_empty l = match its with [] => true | _ => false end.
Proof using held.
  pose proof held_keys as H. unfold is_empty. by destruct (entries (slots l)), its.
Qed.

Lemma held_token_end : token_end l = Z.of_nat (Nat.max (slot_end its) 1).
Proof using held.
  unfold token_end. rewrite (holds_headers _ _ _ held).
  assert (E : match slots l with
              | Dense offsets => Z.of_nat <$> rposition (fun offset => negb (offset =? 0)%Z) offsets
              | Sparse offsets => fst <$> last offsets
              end = fst <$> last its).
  { rewrite <- fmap_last, <- held_keys, fmap_last. destruct (slots l); [apply rposition_dense|done]. }
  rewrite E. unfold slot_end. destruct (last its) as [e|] eqn:El; [|done]. cbn [fmap option_fmap option_map].
  apply last_Some_elem_of in El. destruct e as [k it]. apply elem_of_item_list in El.
  destruct (holds_items _ _ _ held _ _ El) as (Hk & _). cbn [fst]. unfold PHRASE_MASK in Hk.
  assert (16777216 <= u32_max)%Z by (vm_compute; discriminate). lia.
Qed.

Lemma held_content_len : compacted_content_len l = 8 + sizes its.
Proof using held.
  unfold compacted_content_len. rewrite (holds_item_list _ _ _ held).
  pose proof (proj1 (holds_layout _ _ _ held)) as Hok. generalize 8. induction Hok as [|e k [_ He] _ IH]; intros n.
  { cbn. unfold sizes. cbn. lia. }
  rewrite fmap_cons. cbn [fold_left snd view_bytes view_of]. rewrite IH, length_item_wire by done.
  unfold sizes. cbn. lia.
Qed.
End held.

(** ** The loop of [store] *)

Lemma slot_array_grow l s it :
  layout_ok (l ++ [(s, it)]) ->
  length (slot_array 0 8 l) <= Z.to_nat s /\
  slot_array 0 8 (l ++ [(s, it)]) =
  slot_array 0 8 l ++ replicate (Z.to_nat s - length (slot_array 0 8 l)) 0%Z ++ [Z.of_nat (8 + sizes l)].
Proof.
  intros H. pose proof (slot_array_length (l ++ [(s, it)]) H) as Hfull. destruct H as [H1 H2].
  rewrite slot_end_snoc in Hfull. cbn [fst] in Hfull. rewrite Forall_app in H1. destruct H1 as [H1 _].
  assert (H3 : Forall (fun p : Z * ChunkItem => 0 <= Z.to_nat p.1) l)
    by (rewrite Forall_forall; intros; lia).
  destruct (slot_array_snoc 0 8 l s it H1 H2 H3) as [E _]. rewrite Nat.add_0_l in E. split; [|exact E].
  rewrite E, !length_app, length_replicate in Hfull. cbn [length] in Hfull. lia.
Qed.

(** The payload after the items [done_] of [n] slots, under the header [h]. *)
Definition stored_so_far (h : bytes) (n : nat) (done_ : list (Z * ChunkItem)) : bytes :=
  h ++ ((slot_array 0 8 done_ ++ replicate (n - length (slot_array 0 8 done_)) 0%Z) ≫= le32) ++
  [SEPARATOR] ++ replicate 8 x00 ++ bodies done_.

Lemma length_stored h n l :
  length h = 17 -> Forall slot_ok l -> length (slot_array 0 8 l) <= n ->
  length (stored_so_far h n l) = 18 + 4 * n + 8 + sizes l.
Proof.
  intros Hh Hok Hn. unfold stored_so_far. rewrite !length_app, length_words32, length_app, !length_replicate.
  rewrite length_bodies, Hh by done. cbn [length]. lia.
Qed.

Lemma stored_step h n l s it :
  length h = 17 -> layout_ok (l ++ [(s, it)]) -> Z.to_nat s < n ->
  write_at (stored_so_far h n l) (17 + Z.to_nat s * 4) (le32 (Z.of_nat (8 + sizes l))) =
    Some (take (length (stored_so_far h n l)) (stored_so_far h n (l ++ [(s, it)]))) /\
  stored_so_far h n (l ++ [(s, it)]) =
    take (length (stored_so_far h n l)) (stored_so_far h n (l ++ [(s, it)])) ++ item_wire it.
Proof.
  intros Hh Hok Hs. destruct (slot_array_grow l s it Hok) as [Hle E].
  set (sa := slot_array 0 8 l) in *. set (gap := replicate (Z.to_nat s - length sa) 0%Z) in *.
  assert (Hsplit : replicate (n - length sa) 0%Z = gap ++ [0%Z] ++ replicate (n - Z.to_nat s - 1) 0%Z).
  { unfold gap. change [0%Z] with (replicate 1 0%Z). rewrite <- !replicate_add. f_equal. lia. }
  assert (Hnew : stored_so_far h n (l ++ [(s, it)]) =
    ((h ++ ((sa ++ gap) ≫= le32)) ++ le32 (Z.of_nat (8 + sizes l)) ++
     ((replicate (n - Z.to_nat s - 1) 0%Z ≫= le32) ++ [SEPARATOR] ++ replicate 8 x00 ++ bodies l)) ++ item_wire it).
  { unfold stored_so_far. rewrite E, !length_app. unfold gap at 2. rewrite length_replicate. cbn [length].
    replace (n - (length sa + (Z.to_nat s - length sa + 1))) with (n - Z.to_nat s - 1) by lia.
    rewrite bodies_app. change (bodies [(s, it)]) with (item_wire it ++ []). rewrite app_nil_r.
    rewrite !bind_app, <- !app_assoc. cbn [mbind list_bind]. by rewrite app_nil_r. }
  assert (Hold : stored_so_far h n l =
    (h ++ ((sa ++ gap) ≫= le32)) ++ le32 0 ++
     ((replicate (n - Z.to_nat s - 1) 0%Z ≫= le32) ++ [SEPARATOR] ++ replicate 8 x00 ++ bodies l)).
  { unfold stored_so_far. fold sa. rewrite Hsplit, !bind_app, <- !app_assoc. cbn [mbind list_bind].
    by rewrite app_nil_r. }
  assert (Hgap : length (h ++ ((sa ++ gap) ≫= le32)) = 17 + Z.to_nat s * 4).
  { rewrite length_app, length_words32, length_app, Hh. unfold gap. rewrite length_replicate. lia. }
  assert (Htake : take (length (stored_so_far h n l)) (stored_so_far h n (l ++ [(s, it)])) =
    (h ++ ((sa ++ gap) ≫= le32)) ++ le32 (Z.of_nat (8 + sizes l)) ++
     ((replicate (n - Z.to_nat s - 1) 0%Z ≫= le32) ++ [SEPARATOR] ++ replicate 8 x00 ++ bodies l)).
  { rewrite Hnew. apply take_app_length'. rewrite Hold, !length_app, !length_le32. done. }
  rewrite Htake. split; [|exact Hnew]. rewrite Hold.
  apply write_at_middle; [by rewrite Hgap|by rewrite !length_le32].
Qed.

Lemma store_loop_spec h n rest done_ sum :
  length h = 17 -> layout_ok (done_ ++ rest) -> slot_end (done_ ++ rest) <= n ->
  length (slot_array 0 8 done_) <= n ->
  (Z.of_nat (8 + sizes (done_ ++ rest)) <= u32_max)%Z -> is_u32 sum ->
  store_loop ((fun e => (e.1, view_of e.2)) <$> rest) (18 + 4 * n) (stored_so_far h n done_) sum =
  Some (Ok (stored_so_far h n (done_ ++ rest), wrap32 (sum + unigrams rest))).
Proof.
  intros Hh. revert done_ sum. induction rest as [|[s it] rest IH]; intros done_ sum Hok Hn Hd Hfit Hsum.
  { rewrite app_nil_r. cbn. unfold unigrams. cbn. by rewrite Z.add_0_r, wrap32_small. }
  rewrite fmap_cons. cbn [store_loop fst snd].
  replace (done_ ++ (s, it) :: rest) with ((done_ ++ [(s, it)]) ++ rest) in * by (by rewrite <- app_assoc).
  assert (Hok1 : layout_ok (done_ ++ [(s, it)])).
  { clear -Hok. destruct Hok as [H1 H2]. split; [by apply Forall_app in H1 as [? _]|].
    rewrite fmap_app in H2. by apply StronglySorted_app_1_l in H2. }
  assert (Hit : (0 <= s <= PHRASE_MASK)%Z /\ chunk_item_ok it).
  { destruct Hok1 as [H1 _]. rewrite Forall_app, Forall_singleton in H1. apply H1. }
  assert (Hs : S (Z.to_nat s) <= n).
  { assert (S (Z.to_nat s) <= slot_end ((done_ ++ [(s, it)]) ++ rest)); [|lia].
    destruct rest as [|e rest _] using rev_ind; [by rewrite app_nil_r, slot_end_snoc|].
    rewrite app_assoc, slot_end_snoc. destruct Hok as [Hok1' Hok2]. rewrite app_assoc in Hok2.
    apply ascending_snoc in Hok2 as [_ Hlt]. rewrite Forall_forall in Hlt.
    specialize (Hlt (s, it)). cbn [fst] in Hlt. assert (s < e.1)%Z; [|lia].
    apply Hlt. rewrite !elem_of_app, list_elem_of_singleton. by left; right. }
  destruct Hit as [Hk Hit]. rewrite (proj2 (Z.ltb_ge _ _)) by lia.
  assert (Hdone : Forall slot_ok done_) by (destruct Hok1 as [H1 _]; by apply Forall_app in H1 as [? _]).
  rewrite length_stored by done. replace (18 + 4 * n + 8 + sizes done_ - (18 + 4 * n)) with (8 + sizes done_) by lia.
  rewrite !sizes_app in Hfit. rewrite u32_from_len_fits by lia.
  destruct (stored_step h n done_ s it Hh Hok1) as [-> E]; [lia|]. cbn [mbind option_bind].
  cbn [view_bytes view_of]. rewrite <- E, view_unigram_of by done. unfold wrapping_add32.
  rewrite IH; [|done|done| |rewrite !sizes_app; lia|apply wrap32_range].
  - unfold unigrams. cbn [foldr snd]. rewrite wrap32_add_l. do 4 f_equal. lia.
  - rewrite slot_array_length, slot_end_snoc by done. cbn [fst]. lia.
Qed.

(** ** [store] *)

(** The header and separators [store] writes into its zeroed buffer. *)
Lemma store_header n (index_two index_three : Z) :
  let two := 18 + 4 * n in
  (p ← write_at (replicate two x00) 4 (le32 17);
   p ← write_at p 8 (le32 index_two);
   p ← write_at p 12 (le32 index_three);
   p ← write_at p 16 [SEPARATOR];
   write_at p (two - 1) [SEPARATOR]) =
  Some ((replicate 4 x00 ++ le32 17 ++ le32 index_two ++ le32 index_three ++ [SEPARATOR]) ++
        (replicate n 0%Z ≫= le32) ++ [SEPARATOR]).
Proof.
  intros two. set (z4 := replicate 4 x00).
  assert (Hz : replicate n 0%Z ≫= le32 = replicate (4 * n) x00).
  { induction n as [|k IH]; [done|]. cbn [replicate]. rewrite bind_cons, IH.
    replace (4 * S k) with (4 + 4 * k) by lia. by rewrite replicate_add. }
  assert (H0 : replicate two x00 = z4 ++ z4 ++ (z4 ++ z4 ++ [x00] ++ replicate (4 * n) x00 ++ [x00])).
  { unfold two, z4. change [x00] with (replicate 1 x00). rewrite <- !replicate_add. f_equal. lia. }
  rewrite H0, Hz. set (tl := replicate (4 * n) x00).
  assert (L : forall z, length (le32 z) = 4) by apply length_le32.
  rewrite write_at_middle by (done || by rewrite L). cbn [mbind option_bind].
  rewrite (app_assoc z4), write_at_middle by (rewrite ?length_app, ?L; done). cbn [mbind option_bind].
  rewrite <- (app_assoc z4), (app_assoc (le32 17)), (app_assoc z4).
  rewrite write_at_middle by (rewrite ?length_app, ?L; done). cbn [mbind option_bind].
  rewrite <- (app_assoc z4), <- (app_assoc (le32 17)).
  replace (z4 ++ le32 17 ++ le32 index_two ++ le32 index_three ++ [x00] ++ tl ++ [x00]) with
    ((z4 ++ le32 17 ++ le32 index_two ++ le32 index_three) ++ [x00] ++ tl ++ [x00]) by (by rewrite <- !app_assoc).
  rewrite write_at_middle by (rewrite ?length_app, ?L; done). cbn [mbind option_bind].
  replace ((z4 ++ le32 17 ++ le32 index_two ++ le32 index_three) ++ [SEPARATOR] ++ tl ++ [x00]) with
    (((z4 ++ le32 17 ++ le32 index_two ++ le32 index_three ++ [SEPARATOR]) ++ tl) ++ [x00] ++ [])
    by (by rewrite <- !app_assoc).
  rewrite write_at_middle; [by rewrite <- !app_assoc| |done].
  rewrite !length_app, !L. unfold tl, z4, two. rewrite !length_replicate. cbn [length]. lia.
Qed.

Lemma checked_add32_fits a b n : (a + b = Z.of_nat n)%Z -> (Z.of_nat n <= u32_max)%Z -> checked_add32 a b = Some (Z.of_nat n).
Proof. intros E H. unfold checked_add32. rewrite E. by rewrite (proj2 (Z.leb_le _ _)). Qed.

Lemma store_spec l t m :
  holds l t m -> (Z.of_nat (payload_size (item_list m)) <= u32_max)%Z ->
  store l = Some (Ok (framed (library_payload (item_list m)))).
Proof.
  intros Hh Hfit. pose proof (holds_layout _ _ _ Hh) as Hok. set (its := item_list m) in *.
  pose proof (length_library_payload its Hok) as Hlen. pose proof (slot_array_length its Hok) as Harr.
  set (n := slot_end its) in *. set (two := 18 + 4 * n). set (three := two + length (content_of its) + 1).
  assert (Hsize : payload_size its = three) by (unfold payload_size, INDEX_ONE, three, two; fold n; lia).
  rewrite Hsize in Hfit, Hlen.
  assert (Hn : (if is_empty l then 0 else Z.to_nat (token_end l)) = n).
  { rewrite (held_empty _ _ _ Hh), (held_token_end _ _ _ Hh). fold its n. rewrite Nat2Z.id.
    unfold n. destruct its as [|e k] using rev_ind; [done|]. rewrite slot_end_snoc.
    destruct (k ++ [e]) eqn:E; [by destruct k|]. lia. }
  assert (Hc : (if is_empty l then 0 else compacted_content_len l) = length (content_of its)).
  { rewrite (held_empty _ _ _ Hh), (held_content_len _ _ _ Hh), length_content by apply Hok.
    fold its. by destruct its. }
  unfold store. cbv zeta. rewrite Hn, Hc.
  rewrite u32_from_len_fits by (unfold three, two in *; lia).
  rewrite (checked_add32_fits 18 _ two) by (unfold three, two in *; lia).
  rewrite u32_from_len_fits by (unfold three in *; lia).
  rewrite (checked_add32_fits (Z.of_nat two) _ (two + length (content_of its))) by (unfold three in *; lia).
  cbn [mbind option_bind]. rewrite (checked_add32_fits _ 1 three) by (unfold three in *; lia).
  rewrite Nat2Z.id. pose proof (store_header n (Z.of_nat two) (Z.of_nat three)) as Hhead.
  cbv zeta in Hhead. fold two in Hhead. 
  set (h' := le32 17 ++ le32 (Z.of_nat two) ++ le32 (Z.of_nat three) ++ [SEPARATOR]) in *.
  set (h := replicate 4 x00 ++ h') in *.
  assert (Hhl : length h = 17) by (unfold h, h'; by rewrite !length_app, !length_le32).
  destruct (write_at (replicate two x00) 4 (le32 17)) as [p1|]; [|done]. cbn [mbind option_bind] in Hhead |- *.
  destruct (write_at p1 8 _) as [p2|]; [|done]. cbn [mbind option_bind] in Hhead |- *.
  destruct (write_at p2 12 _) as [p3|]; [|done]. cbn [mbind option_bind] in Hhead |- *.
  destruct (write_at p3 16 _) as [p4|]; [|done]. cbn [mbind option_bind] in Hhead |- *.
  rewrite Hhead. cbn [mbind option_bind].
  assert (Hloop : store_loop (items l) two
      (if negb (is_empty l) then (h ++ (replicate n 0%Z ≫= le32) ++ [SEPARATOR]) ++ replicate 8 x00
       else h ++ (replicate n 0%Z ≫= le32) ++ [SEPARATOR]) 0 =
    Some (Ok (h ++ (slot_array 0 8 its ≫= le32) ++ [SEPARATOR] ++ content_of its, wrap32 (unigrams its)))).
  { rewrite (held_empty _ _ _ Hh), (holds_item_list _ _ _ Hh). fold its.
    destruct (decide (its = [])) as [Ee|Hne].
    { unfold n. rewrite Ee. reflexivity. }
    assert (match its with [] => true | _ => false end = false) as -> by (by destruct its). cbn [negb].
    assert (P0 : stored_so_far h n [] = (h ++ (replicate n 0%Z ≫= le32) ++ [SEPARATOR]) ++ replicate 8 x00).
    { unfold stored_so_far. change (bodies []) with (@nil byte). change (slot_array 0 8 []) with (@nil Z).
      cbn [length]. by rewrite Nat.sub_0_r, app_nil_r, app_nil_l, <- !app_assoc. }
    assert (P1 : stored_so_far h n its = h ++ (slot_array 0 8 its ≫= le32) ++ [SEPARATOR] ++ content_of its).
    { unfold stored_so_far. rewrite Harr, Nat.sub_diag. change (replicate 0 0%Z) with (@nil Z).
      rewrite app_nil_r. unfold content_of. by destruct its. }
    pose proof (store_loop_spec h n its [] 0 Hhl Hok) as Hs. rewrite app_nil_l, P0, P1 in Hs. fold two in Hs.
    rewrite Hs; [done|unfold n; lia|cbn; lia| |done].
    unfold three in Hfit. rewrite length_content in Hfit by apply Hok. destruct its; [done|lia]. }
  rewrite Hloop. cbn [mbind option_bind]. unfold h. rewrite <- app_assoc.
  rewrite write_at_front by (by rewrite length_le32). cbn [mbind option_bind].
  rewrite build_owned.
  assert (E : (le32 (wrap32 (unigrams its)) ++ h' ++ (slot_array 0 8 its ≫= le32) ++ [SEPARATOR] ++ content_of its) ++
              [SEPARATOR] = library_payload its).
  { unfold library_payload. destruct (payload_header (wrap32 (unigrams its)) (slot_array 0 8 its) (content_of its))
      as (body & _ & E); [apply wrap32_range| |].
    - rewrite Harr. unfold INDEX_ONE. unfold three, two in Hfit. lia.
    - rewrite E, Harr. unfold INDEX_ONE.
      replace (17 + 4 * n + 1) with two by (unfold two; lia). fold three. unfold h'. by rewrite <- !app_assoc. }
  rewrite E. pose proof (build_memory_chunk_ok (library_payload its) (framed (library_payload its))) as [_ Hb].
  rewrite Hb by (split; [lia|done]). done.
Qed.

(** ** [load_payload] *)

Lemma validate_slots_spec slot words area count :
  match decode_slots slot words area with
  | Ok items => validate_slots slot words area count = Ok (count + length items)
  | Err e => validate_slots slot words area count = Err e
  end.
Proof.
  revert slot count. induction words as [|w words IH]; intros slot count; cbn [decode_slots validate_slots].
  { f_equal. cbn. lia. }
  rewrite offset_zero by (pose proof (le_value_range w); lia).
  destruct (le_value w =? 0)%Z; [apply IH|].
  destruct (get_from area (Z.to_nat (le_value w))) as [b|]; cbn [ok_or]; [|done].
  pose proof (validate_decode b) as Hv. pose proof (view_from_bytes_spec b) as Hs.
  destruct (validate_phrase_item b) as [u|f].
  - destruct Hv as (item & rest & _ & _ & Hd). rewrite Hd in *. destruct Hs as [-> _].
    specialize (IH (S slot) (S count)). destruct (decode_slots (S slot) words area) as [its|e]; [|done].
    rewrite IH. cbn [length]. f_equal. lia.
  - by rewrite Hv.
Qed.

(** [load_payload] refuses what the decoder refuses, with its error, and
    otherwise keeps the stored total and the arena as it is. *)
Lemma load_payload_decodes payload :
  match decode_sub_phrase_index payload with
  | Err e => load_payload payload = Err e
  | Ok (t, its) => exists l offs, load_payload payload = Ok l /\ total l = t /\ headers_only l = false /\
      sub_phrase_index_sections payload = Ok (t, offs, content l) /\
      entries (slots l) = dense_entries (le_value <$> whole_chunks 4 offs) /\ slots_ok (slots l)
  end.
Proof.
  unfold decode_sub_phrase_index, load_payload.
  destruct (sub_phrase_index_sections payload) as [[[t offs] area]|e]; [|done]. cbn [fst snd].
  pose proof (validate_slots_spec 0 (whole_chunks 4 offs) area 0) as Hv.
  destruct (decode_slots 0 (whole_chunks 4 offs) area) as [its|e]; [|by rewrite Hv]. rewrite Hv.
  eexists _, offs. split; [done|]. cbn [total headers_only content slots]. do 3 (split; [done|]).
  destruct (_ <=? _); cbn [entries slots_ok]; [done|]. split; [done|].
  split; [apply dense_ascending|]. rewrite Forall_forall. by intros [k o] (? & ? & _)%elem_of_dense.
Qed.

(** Two items of a list lie apart. *)
Lemma layout_apart (its : list (Z * ChunkItem)) pre1 e1 post1 pre2 e2 post2 :
  its = pre1 ++ e1 :: post1 -> its = pre2 ++ e2 :: post2 -> e1.1 <> e2.1 ->
  sizes pre1 + item_size e1.2 <= sizes pre2 \/ sizes pre2 + item_size e2.2 <= sizes pre1.
Proof.
  intros E1 E2 Hne. revert pre2 its E1 E2. induction pre1 as [|d pre1 IH]; intros [|d2 pre2] its E1 E2; subst its.
  - cbn in E2. by injection E2 as -> _.
  - cbn [app] in E2. injection E2 as -> _. left. unfold sizes. cbn [sum_list_with]. lia.
  - cbn [app] in E2. injection E2 as <- _. right. unfold sizes. cbn [sum_list_with]. lia.
  - cbn [app] in E2. injection E2 as -> E2. destruct (IH pre2 _ eq_refl E2) as [H|H]; unfold sizes in *; cbn [sum_list_with]; lia.
Qed.

Lemma load_library its :
  layout_ok its -> (Z.of_nat (payload_size its) <= u32_max)%Z ->
  exists l, load_payload (library_payload its) = Ok l /\
    holds l (wrap32 (unigrams its)) (list_to_map its) /\ content l = content_of its.
Proof.
  intros Hok Hfit. pose proof (load_payload_decodes (library_payload its)) as Hl.
  rewrite decode_library in Hl by done. destruct Hl as (l & offs & El & Ht & Hh & Hs & He & Hso).
  unfold library_payload in Hs. rewrite chunk_sections in Hs;
    [|apply wrap32_range|fold (library_payload its); by rewrite length_library_payload].
  injection Hs as Ho Hc. exists l. split; [done|]. split; [|done].
  rewrite <- Ho in He. destruct (whole_words (slot_array 0 8 its)) as [Hw _]. rewrite Hw in He. clear Hw Ho offs.
  destruct Hok as [Hit Ha].
  assert (Hmap : forall k it, list_to_map (M := gmap Z ChunkItem) its !! k = Some it <-> (k, it) ∈ its).
  { intros k it. rewrite elem_of_list_to_map; [done|by apply ascending_nodup]. }
  assert (Hlen : (Z.of_nat (8 + sizes its) <= u32_max)%Z \/ its = []).
  { unfold payload_size, INDEX_ONE in Hfit. rewrite length_content in Hfit by done.
    destruct its; [by right|left; lia]. }
  assert (Hsa : le_value <$> (le32 <$> slot_array 0 8 its) = slot_array 0 8 its).
  { apply le_values_le32. rewrite Forall_forall. intros o Hin. apply list_elem_of_lookup in Hin as [i Hi].
    destruct (decide (o = 0%Z)) as [->|Hne]; [done|].
    destruct (slot_array_lookup its 0 8 i o (conj Hit Ha)) as [H1 _]; [rewrite Forall_forall; intros; lia|lia|].
    destruct H1 as (pre & it & post & E & ->); [rewrite Nat.sub_0_r; split; [lia|done]|].
    apply is_u32_len. rewrite E, sizes_app in Hlen. destruct Hlen as [Hlen|Hlen]; [lia|by destruct pre]. }
  rewrite Hsa in He. clear Hsa.
  assert (Hent : forall k o, (k, o) ∈ entries (slots l) <->
     exists pre it post, its = pre ++ (k, it) :: post /\ o = Z.of_nat (8 + sizes pre)).
  { intros k o. rewrite He, elem_of_dense.
    destruct (slot_array_lookup its 0 8 (Z.to_nat k) o (conj Hit Ha)) as [H1 H2];
      [rewrite Forall_forall; intros; lia|lia|]. rewrite Nat.sub_0_r in H1, H2. split.
    - intros (Hk & Hne & Hi). rewrite <- (Z2Nat.id k Hk). apply H1. split; [lia|done].
    - intros (pre & it & post & E & ->). assert (0 <= k)%Z.
      { rewrite E, Forall_app, Forall_cons in Hit. destruct Hit as (_ & [? _] & _). cbn in *. lia. }
      rewrite Z2Nat.id in H2 by done. destruct H2 as (_ & ? & ?); [by exists pre, it, post|]. done. }
  split; [done|done|apply wrap32_range|done| | |].
  - intros k o (pre & it & post & E & _)%Hent. exists it. apply Hmap. rewrite E, elem_of_app, elem_of_cons. by right; left.
  - intros k it Hk%Hmap. pose proof Hk as (pre & post & E)%list_elem_of_split.
    rewrite Forall_forall in Hit. destruct (Hit _ Hk) as [Hr Hokit]. cbn [fst snd] in *.
    split; [done|]. split; [done|]. exists (8 + sizes pre). split; [apply Hent; by exists pre, it, post|].
    assert (Hpre : Forall slot_ok pre /\ Forall slot_ok post).
    { rewrite !Forall_forall. split; intros x Hx; apply Hit; rewrite E, elem_of_app, elem_of_cons; auto. }
    assert (Ec : content l = (replicate 8 x00 ++ bodies pre) ++ item_wire it ++ bodies post).
    { rewrite <- Hc. unfold content_of. destruct its as [|d its'] eqn:Ed; [by destruct pre|].
      rewrite E, bodies_app. unfold FIRST_ITEM_OFFSET. by rewrite <- app_assoc. }
    assert (Hlp : length (replicate 8 x00 ++ bodies pre) = 8 + sizes pre)
      by (rewrite length_app, length_replicate, length_bodies by apply Hpre; done).
    split; [lia|]. rewrite Ec. rewrite <- (length_item_wire it) by done. split.
    + rewrite length_app, Hlp, length_app. lia.
    + apply slice_at; [done|lia].
  - intros k1 k2 o1 o2 it1 it2 Hne H1%Hmap H2%Hmap (pre1 & x1 & post1 & E1 & F1)%Hent (pre2 & x2 & post2 & E2 & F2)%Hent.
    assert (x1 = it1 /\ x2 = it2) as [-> ->].
    { split; (eapply (ascending_elem its); [done| |done]);
        [rewrite E1|rewrite E2]; rewrite elem_of_app, elem_of_cons; by right; left. }
    apply Nat2Z.inj in F1, F2. subst o1 o2.
    destruct (layout_apart its _ _ _ _ _ _ E1 E2 Hne) as [?|?]; cbn [snd] in *; lia.
Qed.

(** A stored library reads back as one that holds the same items. *)
Definition reload (l : UserLibrary) : option UserLibrary :=
  match store l with
  | Some (Ok file) =>
      match read_chunk_payload file with
      | Ok payload => match load_payload payload with Ok l => Some l | Err _ => None end
      | Err _ => None
      end
  | _ => None
  end.

Lemma reload_spec l t m :
  holds l t m -> (Z.of_nat (payload_size (item_list m)) <= u32_max)%Z ->
  exists l', reload l = Some l' /\ holds l' (wrap32 (unigrams (item_list m))) m /\
    content l' = content_of (item_list m).
Proof.
  intros Hh Hfit. pose proof (holds_layout _ _ _ Hh) as Hok. unfold reload.
  rewrite (store_spec l t m Hh Hfit), read_framed by (by rewrite length_library_payload).
  destruct (load_library (item_list m) Hok Hfit) as (l' & -> & H & Hc). exists l'. rewrite item_list_map in H. done.
Qed.
