(* ===== verification/UserLibrarySpec.v ===== *)
(** * UserLibrarySpec: a library is a map of phrase items

    The operations of a session's phrase library as steps on one library, the
    same operations on a total and a finite map of items, and the refinement
    between them: answers, errors and stored files included. *)

From Stdlib Require Import ZArith Lia Bool Strings.Byte.
From stdpp Require Import base list sorting gmap.
From S2P Require Import Prelude Chewing RowFormat ChunkFormat PhraseLibrary UserLibrary UserLibraryBodies UserLibraryStore.

#[local] Open Scope result_scope.

(** ** Operations *)

Inductive lib_op : Type :=
  | OpReplace (slot : Z) (b : bytes)
  | OpAdd (slot : Z) (b : bytes)
  | OpRemove (slot : Z)
  | OpRemoveMatching (selected : Z -> bool)
  | OpIncrement (slot delta : Z)
  | OpAddReading (slot : Z) (keys : list Z) (delta : Z)
  | OpTrain (slot : Z) (readings : list (list ChewingKey)) (delta : Z)
  | OpCompact
  | OpReload
  | OpItem (slot : Z)
  | OpItems
  | OpCount (slot : Z)
  | OpTokenEnd
  | OpIsEmpty
  | OpTotal.

Inductive answer : Type :=
  | ADone
  | ABool (b : bool)
  | AResult (r : result unit LibraryFault)
  | AView (v : option PhraseItemView)
  | AViews (l : list (Z * PhraseItemView))
  | ACount (n : option Z)
  | AZ (z : Z).

(** [None] is a panic, or a file that does not read back. [OpAdd] prepares
    and applies; [OpReload] stores, reads the frame and loads. *)
Definition run_op (l : UserLibrary) (op : lib_op) : option (UserLibrary * answer) :=
  match op with
  | OpReplace slot b => r ← replace l slot b; Some (r.1, AResult r.2)
  | OpAdd slot b =>
      match prepare_add l slot b with
      | Err e => Some (l, AResult (Err e))
      | Ok prepared => l ← prepared_apply prepared l; Some (l, AResult (Ok tt))
      end
  | OpRemove slot => let r := remove l slot in Some (r.1, ABool r.2)
  | OpRemoveMatching selected => Some (remove_matching l selected, ADone)
  | OpIncrement slot delta => r ← increment_unigram l slot delta; Some (r.1, ABool r.2)
  | OpAddReading slot keys delta => r ← add_reading l slot keys delta; Some (r.1, AResult r.2)
  | OpTrain slot readings delta => l ← train l slot readings delta; Some (l, ADone)
  | OpCompact => l ← compact l; Some (l, ADone)
  | OpReload => l ← reload l; Some (l, ADone)
  | OpItem slot => Some (l, AView (item l slot))
  | OpItems => Some (l, AViews (items l))
  | OpCount slot => Some (l, ACount (pronunciation_count l slot))
  | OpTokenEnd => Some (l, AZ (token_end l))
  | OpIsEmpty => Some (l, ABool (is_empty l))
  | OpTotal => Some (l, AZ (total l))
  end.

Fixpoint run_ops (l : UserLibrary) (ops : list lib_op) : option (UserLibrary * list answer) :=
  match ops with
  | [] => Some (l, [])
  | op :: ops =>
      r ← run_op l op;
      rs ← run_ops r.1 ops;
      Some (rs.1, r.2 :: rs.2)
  end.

(** ** The map *)

Abbreviation lib_state := (Z * gmap Z ChunkItem)%type.

Definition put_item (removes : bool) (st : lib_state) (slot : Z) (b : bytes) : lib_state * answer :=
  if (PHRASE_MASK <? slot)%Z then (st, AResult (Err SlotPastMask))
  else
    match decode_phrase_item b with
    | Err _ => (st, AResult (Err InvalidBody))
    | Ok it => ((wrap32 (old_unigram removes st.2 slot st.1 + unigram it), <[slot := it]> st.2), AResult (Ok tt))
    end.

Definition spec_op (st : lib_state) (op : lib_op) : lib_state * answer :=
  let t := st.1 in
  let m := st.2 in
  match op with
  | OpReplace slot b => put_item true st slot b
  | OpAdd slot b => put_item false st slot b
  | OpRemove slot =>
      match m !! slot with
      | Some it => ((wrap32 (t - unigram it), delete slot m), ABool true)
      | None => (st, ABool false)
      end
  | OpRemoveMatching selected =>
      ((wrap32 (t - unigrams (filter (fun e => selected e.1 = true) (item_list m))),
        filter (fun e => selected e.1 = false) m), ADone)
  | OpIncrement slot delta =>
      match m !! slot with
      | Some it => ((wrap32 (t + delta), <[slot := with_unigram it (wrap32 (unigram it + delta))]> m), ABool true)
      | None => (st, ABool false)
      end
  | OpAddReading slot keys delta =>
      match m !! slot with
      | None => (st, AResult (Err MissingPhrase))
      | Some it =>
          if length (phrase it) =? length keys
          then ((t, <[slot := add_reading_to it keys delta]> m), AResult (Ok tt))
          else (st, AResult (Err ReadingLengthDiffers))
      end
  | OpTrain slot readings delta =>
      match m !! slot with
      | Some it => ((t, <[slot := train_item it readings delta]> m), ADone)
      | None => (st, ADone)
      end
  | OpCompact | OpReload => ((wrap32 (unigrams (item_list m)), m), ADone)
  | OpItem slot => (st, AView (view_of <$> m !! slot))
  | OpItems => (st, AViews ((fun e => (e.1, view_of e.2)) <$> item_list m))
  | OpCount slot => (st, ACount ((fun it => Z.of_nat (length (prons it))) <$> m !! slot))
  | OpTokenEnd => (st, AZ (Z.of_nat (Nat.max (slot_end (item_list m)) 1)))
  | OpIsEmpty => (st, ABool (bool_decide (m = ∅)))
  | OpTotal => (st, AZ t)
  end.

Fixpoint spec_ops (st : lib_state) (ops : list lib_op) : lib_state * list answer :=
  match ops with
  | [] => (st, [])
  | op :: ops =>
      let r := spec_op st op in
      let rs := spec_ops r.1 ops in
      (rs.1, r.2 :: rs.2)
  end.

(** The arguments have their types. *)
Definition op_typed (op : lib_op) : Prop :=
  match op with
  | OpReplace slot _ | OpAdd slot _ | OpRemove slot | OpItem slot | OpCount slot => is_u32 slot
  | OpIncrement slot _ | OpTrain slot _ _ => is_u32 slot
  | OpAddReading slot keys delta => is_u32 slot /\ Forall is_u16 keys /\ is_u32 delta
  | _ => True
  end.

(** The most one operation adds to the arena. *)
Definition op_growth : nat := 8 + item_max.

(** The payload of a full offset array, apart from its bodies. *)
Definition payload_room : Z := 30 + 4 * (PHRASE_MASK + 1).

(** What one step owes the specification. *)
Definition step_refines (l : UserLibrary) (st : lib_state) (op : lib_op) : Prop :=
  exists l', run_op l op = Some (l', (spec_op st op).2) /\
    holds l' (spec_op st op).1.1 (spec_op st op).1.2 /\
    length (content l') <= length (content l) + op_growth.

(** ** Each operation *)

Lemma count_byte it : chunk_item_ok it -> byte_val <$> item_wire it !! 1 = Some (Z.of_nat (length (prons it))).
Proof.
  intros (_ & Hn & _). unfold item_wire. cbn [app lookup list_lookup fmap option_fmap option_map]. f_equal.
  rewrite byte_val_of, Z.mod_small; [done|]. unfold u8_max in Hn. lia.
Qed.

Section step.
Context (l : UserLibrary) (t : Z) (m : gmap Z ChunkItem).
Context (held : holds l t m).
Context (room : (Z.of_nat (length (content l) + op_growth) + payload_room <= u32_max)%Z).

Lemma room_content : (Z.of_nat (8 + length (content l)) <= u32_max)%Z.
Proof using room. unfold op_growth, payload_room, PHRASE_MASK in room. lia. Qed.

Lemma put_step removes k b :
  is_u32 k ->
  exists l', match replacement l k b with
             | Err e => Some (l, AResult (Err e))
             | Ok change =>
                 l ← apply_replacement l {| rep_slot := rep_slot change; rep_offset := rep_offset change;
                        rep_length := rep_length change; rep_unigram := rep_unigram change;
                        removes_old := removes |} b;
                 Some (l, AResult (Ok tt))
             end = Some (l', (put_item removes (t, m) k b).2) /\
    holds l' (put_item removes (t, m) k b).1.1 (put_item removes (t, m) k b).1.2 /\
    length (content l') <= length (content l) + op_growth.
Proof using held room.
  intros Hk. unfold replacement, put_item. cbn [fst snd].
  destruct (Z.ltb_spec PHRASE_MASK k) as [|Hle]; [by exists l; repeat (split; [done|]); unfold op_growth; cbn [fst snd]; (done || lia)|].
  pose proof (view_from_bytes_spec b) as Hv. pose proof (validate_decode b) as Hd.
  destruct (decode_phrase_item b) as [it|e] eqn:Eb.
  - destruct Hv as [-> Hok]. cbn [ok_or].
    destruct (validate_phrase_item b) as [u|f]; [|done].
    destruct Hd as (it' & rest & _ & Eb' & [= <-]). subst b. 
    destruct (apply_spec l t m k it rest removes held) as (l' & E & H1 & H2);
      [unfold is_u32 in Hk; lia|done|pose proof room_content; lia|].
    cbv zeta in E. rewrite E. exists l'. split; [done|]. split; [done|].
    pose proof (item_size_bound it Hok). unfold op_growth. lia.
  - rewrite Hv. cbn [ok_or]. exists l. split; [done|]. split; [done|]. lia.
Qed.

Lemma replace_step k b : is_u32 k -> step_refines l (t, m) (OpReplace k b).
Proof using held room.
  intros Hk. destruct (put_step true k b Hk) as (l' & E & H). exists l'. split; [|exact H].
  cbn [run_op spec_op]. rewrite <- E. unfold replace.
  destruct (replacement l k b) as [change|e] eqn:Er; [|done]. 
  unfold replacement in Er. destruct (_ <? _)%Z; [done|]. destruct (view_from_bytes b) as [v|]; [|done].
  cbn [ok_or] in Er. injection Er as <-. unfold placement. cbn [rep_slot rep_offset rep_length rep_unigram].
  by destruct (apply_replacement l _ b).
Qed.

Lemma add_step k b : is_u32 k -> step_refines l (t, m) (OpAdd k b).
Proof using held room.
  intros Hk. destruct (put_step false k b Hk) as (l' & E & H). exists l'. split; [|exact H].
  cbn [run_op spec_op]. rewrite <- E. unfold prepare_add, prepared_apply. by destruct (replacement l k b).
Qed.

Lemma remove_step k : is_u32 k -> step_refines l (t, m) (OpRemove k).
Proof using All.
  intros [Hk _]. unfold step_refines. cbn [run_op spec_op fst snd]. unfold remove.
  pose proof (remove_body_spec l t m k held Hk) as H. destruct (m !! k) as [it|] eqn:E.
  - destruct H as [-> H]. eexists. split; [done|]. split; [exact H|].
    unfold remove_body. destruct (item l k); cbn [fst content drop_item]; lia.
  - rewrite H. exists l. split; [done|]. split; [done|]. lia.
Qed.

Lemma count_answer k :
  is_u32 k -> pronunciation_count l k = (fun it => Z.of_nat (length (prons it))) <$> m !! k.
Proof using All.
  intros [Hk _]. unfold pronunciation_count. destruct (m !! k) as [it|] eqn:E.
  - destruct (holds_offset _ _ _ _ _ held E) as (o & -> & _ & Hb & Hok & _). cbn [mbind option_bind].
    rewrite Nat2Z.id, (body_at_lookup _ _ _ 1 Hb); [by apply count_byte|].
    unfold item_size, ITEM_HEADER_SIZE. lia.
  - by rewrite (holds_no_offset _ _ _ _ held Hk E).
Qed.

Lemma read_step op :
  op_typed op -> match op with OpItem _ | OpItems | OpCount _ | OpTokenEnd | OpIsEmpty | OpTotal => True | _ => False end ->
  step_refines l (t, m) op.
Proof using All.
  intros Hty Hop. exists l. split; [|destruct op; done || (split; [exact held|lia])].
  destruct op; try done; cbn [run_op spec_op fst snd]; do 3 f_equal.
  - destruct Hty as [Hk _]. by apply (holds_item l t m).
  - by apply (holds_item_list l t m).
  - by apply count_answer.
  - by apply (held_token_end l t m).
  - rewrite (held_empty l t m held). destruct (item_list m) eqn:E.
    + apply item_list_nil in E. by rewrite bool_decide_true.
    + rewrite bool_decide_false; [done|]. intros Hm. apply item_list_nil in Hm. by rewrite Hm in E.
  - by apply (holds_total l t m).
Qed.

Lemma increment_step k delta : is_u32 k -> step_refines l (t, m) (OpIncrement k delta).
Proof using All.
  intros [Hk _]. unfold step_refines. cbn [run_op spec_op fst snd]. unfold increment_unigram.
  rewrite (holds_item l t m k held Hk). destruct (m !! k) as [it|] eqn:E; cbn [fmap option_fmap option_map].
  2:{ exists l. split; [done|]. split; [done|]. lia. }
  destruct (holds_offset _ _ _ _ _ held E) as (o & -> & Ho & Hb & Hok & _). rewrite Nat2Z.id.
  rewrite view_unigram_of by done. unfold wrapping_add32. set (u := wrap32 (unigram it + delta)).
  assert (Hok' : chunk_item_ok (with_unigram it u)) by (apply with_unigram_ok; [done|apply wrap32_range]).
  destruct (body_at_poke (content l) o it (with_unigram it u) 2 (le32 u) Hok' eq_refl Hb (unigram_poke it u))
    as (c' & -> & Hb' & Hs). cbn [mbind option_bind fst snd]. eexists. split; [done|].
  rewrite (holds_total _ _ _ held). split; [|destruct Hs as [Hs _]; cbn [content]; lia].
  apply (holds_update l t m k it (with_unigram it u) o); try done. apply wrap32_range.
Qed.

Lemma train_step k readings delta : is_u32 k -> step_refines l (t, m) (OpTrain k readings delta).
Proof using All.
  intros [Hk _]. unfold step_refines. cbn [run_op spec_op fst snd]. unfold train.
  rewrite (holds_item l t m k held Hk). destruct (m !! k) as [it|] eqn:E.
  2:{ exists l. rewrite (holds_no_offset _ _ _ _ held Hk E). split; [done|]. split; [done|]. lia. }
  destruct (holds_offset _ _ _ _ _ held E) as (o & -> & Ho & Hb & Hok & _). cbn [fmap option_fmap option_map].
  rewrite Nat2Z.id, view_phrase_length_of, n_pronunciations_of by done.
  destruct (train_readings_spec readings (content l) o it delta Hok Hb) as (c' & -> & Hb' & Hs & Hok' & Hsize).
  cbn [mbind option_bind]. eexists. split; [done|]. rewrite (holds_total _ _ _ held).
  split; [|destruct Hs as [Hs _]; cbn [content]; lia].
  apply (holds_update l t m k it (train_item it readings delta) o); try done. apply (holds_u32 _ _ _ held).
Qed.

Lemma add_reading_step k keys delta :
  op_typed (OpAddReading k keys delta) -> step_refines l (t, m) (OpAddReading k keys delta).
Proof using All.
  intros ([Hk _] & Hkeys & Hdelta). unfold step_refines. cbn [run_op spec_op fst snd]. unfold add_reading.
  rewrite (holds_item l t m k held Hk). destruct (m !! k) as [it|] eqn:E; cbn [fmap option_fmap option_map].
  2:{ exists l. split; [done|]. split; [done|]. lia. }
  destruct (holds_offset _ _ _ _ _ held E) as (o & -> & Ho & Hb & Hok & Hr).
  rewrite view_phrase_length_of by done.
  destruct (Nat.eqb_spec (length (phrase it)) (length keys)) as [Hlen|Hlen]; cbn [negb].
  2:{ exists l. split; [done|]. split; [done|]. lia. }
  rewrite pronunciations_of by done. fold (views (prons it)).
  pose proof (add_reading_to_ok it keys delta Hok (eq_sym Hlen) Hkeys Hdelta) as Hok'.
  pose proof Hok as (_ & _ & _ & Hu & Hrows).
  pose proof (matched_reading_spec _ (prons it) keys delta 0 0 Hrows) as Hm.
  unfold add_reading_to in *.
  destruct (matched_reading (views (prons it)) keys delta 0 0) as [[[i f] accepted]|].
  - destruct Hm as (j & p & -> & Hp & -> & Hm). rewrite Hm in *. cbn [from_option id Nat.add] in *.
    destruct accepted.
    + rewrite Nat2Z.id, <- Hlen. unfold wrapping_add32. set (f := wrap32 (p.2 + delta)) in *.
      fold (set_freq it j f) in *.
      destruct (body_at_poke (content l) o it (set_freq it j f) _ _ Hok' (set_freq_size it j f) Hb
                  (freq_poke it j p f Hok Hp)) as (c' & -> & Hb' & Hs).
      cbn [mbind option_bind fst snd]. eexists. split; [done|]. rewrite (holds_total _ _ _ held).
      split; [|destruct Hs as [Hs _]; cbn [content]; lia].
      apply (holds_update l t m k it (set_freq it j f) o); try done; [apply set_freq_size|apply (holds_u32 _ _ _ held)].
    + exists l. split; [done|]. split; [|lia]. replace (with_prons it (prons it)) with it by (by destruct it).
      by rewrite insert_id.
  - rewrite Hm in *. cbn [from_option id view_bytes view_of] in *. rewrite grown_wire by done.
    cbn [mbind option_bind]. set (it' := with_prons it (grown_prons (prons it) keys delta)) in *.
    destruct (replace_ok l t m k it' [] held Hr Hok') as (l' & Ereplace & H1 & H2);
      [pose proof room_content; lia|]. rewrite app_nil_r in Ereplace. rewrite Ereplace.
    exists l'. split; [done|]. pose proof (item_size_bound it' Hok'). split; [|unfold op_growth; lia].
    unfold old_unigram in H1. rewrite E in H1. change (unigram it') with (unigram it) in H1.
    rewrite wrap32_add_l in H1. replace (t - unigram it + unigram it)%Z with t in H1 by lia.
    by rewrite (wrap32_small t) in H1 by apply (holds_u32 _ _ _ held).
Qed.

Lemma compact_step : step_refines l (t, m) OpCompact.
Proof using All.
  destruct (compacted_spec l t m held) as (l' & E & H1 & H2); [exact room_content|].
  exists l'. cbn [run_op spec_op fst snd]. rewrite E. split; [done|]. split; [done|]. unfold op_growth. lia.
Qed.

Lemma payload_size_room : (Z.of_nat (payload_size (item_list m)) <= u32_max)%Z.
Proof using All.
  pose proof (holds_sizes l t m held) as Hs. pose proof (holds_layout l t m held) as [Hok _].
  unfold payload_size, INDEX_ONE. rewrite length_content by done.
  assert (slot_end (item_list m) <= Z.to_nat (PHRASE_MASK + 1)).
  { unfold slot_end. destruct (last (item_list m)) as [e|] eqn:El; [|lia].
    apply last_Some_elem_of in El. rewrite Forall_forall in Hok. destruct (Hok e El) as [Hk _]. lia. }
  unfold payload_room, op_growth in room. unfold PHRASE_MASK in *. destruct (item_list m); lia.
Qed.

Lemma reload_step : step_refines l (t, m) OpReload.
Proof using All.
  destruct (reload_spec l t m held payload_size_room) as (l' & E & H1 & H2).
  exists l'. cbn [run_op spec_op fst snd]. rewrite E. split; [done|]. split; [done|].
  rewrite H2, length_content by apply (holds_layout l t m held). pose proof (holds_sizes l t m held).
  unfold op_growth. destruct (item_list m); lia.
Qed.
End step.

(** ** Removing the matching slots *)

Lemma remove_each_spec its l t m :
  holds l t m -> NoDup its.*1 -> (forall e, e ∈ its -> m !! e.1 = Some e.2) -> Forall (fun e => 0 <= e.1)%Z its ->
  let l' := fold_left (fun l slot => (remove_body l slot).1) its.*1 l in
  holds l' (wrap32 (t - unigrams its)) (filter (fun e => e.1 ∉ its.*1) m) /\ content l' = content l.
Proof.
  revert l t m. induction its as [|[k it] its IH]; intros l t m Hh Hnd Hin Hk.
  { cbn [fmap list_fmap fold_left]. split; [|done]. unfold unigrams. cbn [foldr].
    rewrite Z.sub_0_r, wrap32_small by apply (holds_u32 _ _ _ Hh).
    rewrite map_filter_id; [done|]. intros j x _. apply not_elem_of_nil. }
  rewrite fmap_cons, NoDup_cons in Hnd. destruct Hnd as [Hnk Hnd]. cbn [fst] in Hnk.
  apply Forall_cons in Hk as [Hk0 Hk]. cbn [fst] in Hk0. rewrite fmap_cons. cbn [fold_left fst].
  pose proof (remove_body_spec l t m k Hh Hk0) as Hr. pose proof (Hin (k, it) (list_elem_of_here _ _)) as Hmk.
  cbn [fst snd] in Hmk. rewrite Hmk in Hr. destruct Hr as [_ Hr].
  assert (Hc : content (remove_body l k).1 = content l) by (unfold remove_body; by destruct (item l k)).
  destruct (IH _ _ _ Hr Hnd) as [H1 H2]; [|done|].
  { intros e He. rewrite lookup_delete_ne; [by apply Hin; right|]. intros Ek. apply Hnk. rewrite Ek.
    by apply list_elem_of_fmap_2. }
  cbv zeta in H1, H2. split; [|by rewrite H2, Hc]. unfold unigrams. cbn [foldr snd]. fold (unigrams its).
  rewrite wrap32_sub_l in H1. replace (t - (unigram it + unigrams its))%Z with (t - unigram it - unigrams its)%Z by lia.
  replace (filter (fun e => e.1 ∉ k :: its.*1) m) with (filter (fun e => e.1 ∉ its.*1) (delete k m)); [done|].
  apply map_eq. intros j. apply option_eq. intros x. rewrite !map_lookup_filter_Some, lookup_delete_Some. cbn [fst].
  rewrite not_elem_of_cons. intuition congruence.
Qed.

Lemma remove_matching_step l t m selected :
  holds l t m -> step_refines l (t, m) (OpRemoveMatching selected).
Proof.
  intros Hh. unfold step_refines. cbn [run_op spec_op fst snd]. unfold remove_matching.
  set (its := filter (fun e => selected e.1 = true) (item_list m)).
  assert (E : omap (fun e => if selected e.1 then Some e.1 else None) (items l) = its.*1).
  { rewrite (holds_item_list _ _ _ Hh). unfold its. clear. induction (item_list m) as [|e k IH]; [done|].
    rewrite fmap_cons, filter_cons. cbn [omap list_omap fst]. destruct (selected e.1) eqn:Es.
    - rewrite decide_True, fmap_cons by done. f_equal. exact IH.
    - rewrite decide_False by done. exact IH. }
  rewrite E.
  assert (Hits : forall k it, (k, it) ∈ its <-> selected k = true /\ m !! k = Some it).
  { intros k it. unfold its. by rewrite list_elem_of_filter, elem_of_item_list. }
  destruct (remove_each_spec its l t m Hh) as [H1 H2].
  - apply ascending_nodup, ascending_filter, item_list_ascending.
  - intros [k it] Hin. by apply Hits in Hin as [_ Hin].
  - rewrite Forall_forall. intros [k it] [_ Hin]%Hits. destruct (holds_items _ _ _ Hh k it Hin) as (? & _). cbn. lia.
  - eexists. split; [done|]. split; [|rewrite H2; lia]. cbv zeta in H1.
    replace (filter (fun e => selected e.1 = false) m) with (filter (fun e => e.1 ∉ its.*1) m); [exact H1|].
    apply map_filter_ext. intros k it Hk. cbn [fst]. rewrite list_elem_of_fmap. split.
    + intros Hn. apply not_true_is_false. intros Hs. apply Hn. exists (k, it). split; [done|]. by apply Hits.
    + intros Hs ([j x] & -> & [Hj _]%Hits). cbn in *. congruence.
Qed.

Lemma step_ok l t m op :
  holds l t m -> op_typed op -> (Z.of_nat (length (content l) + op_growth) + payload_room <= u32_max)%Z ->
  step_refines l (t, m) op.
Proof.
  intros Hh Hty Hroom. destruct op.
  - by apply replace_step.
  - by apply add_step.
  - by apply remove_step.
  - by apply remove_matching_step.
  - by apply increment_step.
  - by apply add_reading_step.
  - by apply train_step.
  - by apply compact_step.
  - by apply reload_step.
  - by apply read_step.
  - by apply read_step.
  - by apply read_step.
  - by apply read_step.
  - by apply read_step.
  - by apply read_step.
Qed.

Lemma ops_refine ops l t m :
  holds l t m -> Forall op_typed ops ->
  (Z.of_nat (length (content l) + length ops * op_growth) + payload_room <= u32_max)%Z ->
  exists l', run_ops l ops = Some (l', (spec_ops (t, m) ops).2) /\
    holds l' (spec_ops (t, m) ops).1.1 (spec_ops (t, m) ops).1.2.
Proof.
  intros Hh Hty. revert l t m Hh. induction Hty as [|op ops Hop _ IH]; intros l t m Hh Hroom.
  { by exists l. }
  cbn [length] in Hroom. destruct (step_ok l t m op Hh Hop) as (l1 & E & H1 & Hlen); [lia|].
  cbn [run_ops spec_ops]. rewrite E. cbn [mbind option_bind fst snd].
  destruct (spec_op (t, m) op) as [[t1 m1] a]. cbn [fst snd] in *.
  destruct (IH l1 t1 m1 H1) as (l2 & E2 & H2); [lia|]. rewrite E2. cbn [mbind option_bind fst snd]. by exists l2.
Qed.

Lemma item_ok_is_typed it : chunk_item_ok it -> item_typed it.
Proof.
  intros (_ & _ & Hp & Hu & Hr). split; [done|]. split; [done|].
  apply (Forall_impl _ _ _ Hr). by intros p (_ & ? & ?).
Qed.

(** The stored file is the writer's own. *)
Lemma store_build_chunk l t m :
  holds l t m -> (Z.of_nat (payload_size (item_list m)) <= u32_max)%Z ->
  Forall (fun e => phrase e.2 <> []) (item_list m) -> (unigrams (item_list m) <= u32_max)%Z ->
  exists file, store l = Some (Ok file) /\ build_chunk (item_list m) = Ok file.
Proof.
  intros Hh Hfit Hne Hu. exists (framed (library_payload (item_list m))).
  split; [by apply (store_spec l t m)|]. pose proof (holds_layout _ _ _ Hh) as Hok.
  apply build_chunk_spec; [|done]. destruct Hok as [Hok _]. apply (Forall_impl _ _ _ Hok).
  intros e [Hs Hi]. split; [|by apply item_ok_is_typed]. unfold PHRASE_MASK in Hs.
  unfold is_u32. change u32_size with 4294967296%Z. lia.
Qed.

(** A library of headers holds no item, and a body put into it starts afresh. *)
Lemma headers_only_fresh l slot b :
  headers_only l = true ->
  item l slot = None /\ items l = [] /\ token_end l = 1%Z /\
  replace l slot b = (r ← replace UserLibrary_default slot b;
                      Some (match r.2 with Ok _ => r.1 | Err _ => l end, r.2)).
Proof.
  intros Hh. assert (Hi : forall k, item l k = None) by (intros k; unfold item; by rewrite Hh).
  split; [done|]. split; [|split].
  - unfold items. induction (entries (slots l)) as [|e k IH]; [done|]. cbn. rewrite Hi. exact IH.
  - unfold token_end. by rewrite Hh.
  - unfold replace, replacement, placement. destruct (PHRASE_MASK <? slot)%Z; [done|].
    destruct (view_from_bytes b) as [v|]; [|done]. cbn [ok_or]. rewrite Hh. cbn [headers_only UserLibrary_default].
    change (append_offset (length (content UserLibrary_default))) with 8%Z.
    unfold apply_replacement. rewrite Hh. cbn [headers_only UserLibrary_default].
    cbn [rep_slot rep_offset rep_length rep_unigram removes_old].
    destruct (subslice b 0 _) as [w|]; [|done]. cbn [mbind option_bind].
    by destruct (write_at _ _ _).
Qed.

(** C39. The user's phrase library is a finite map of phrase items with a
    wrapping total. From any library that holds a map, every sequence of
    replacing, adding, removing, counting, adding readings, training,
    compacting, storing and loading, and reading back runs without a panic
    and gives exactly the answers and the map of the specification, while
    the arena stays below 32 bits. An empty library and every loaded library
    hold a map; the loader refuses what the decoder refuses; what is stored
    is the file [build_chunk] writes; a library of headers holds nothing and
    starts afresh. *)
Theorem library_refines :
  (forall ops l t m, holds l t m -> Forall op_typed ops ->
     (Z.of_nat (length (content l) + length ops * op_growth) + payload_room <= u32_max)%Z ->
     exists l', run_ops l ops = Some (l', (spec_ops (t, m) ops).2) /\
       holds l' (spec_ops (t, m) ops).1.1 (spec_ops (t, m) ops).1.2) /\
  (forall t, is_u32 t -> holds (empty_with_total t) t ∅) /\
  (forall its, layout_ok its -> (Z.of_nat (payload_size its) <= u32_max)%Z ->
     exists l, load_payload (library_payload its) = Ok l /\ holds l (wrap32 (unigrams its)) (list_to_map its)) /\
  (forall payload, match decode_sub_phrase_index payload with
     | Err e => load_payload payload = Err e
     | Ok (t, _) => exists l, load_payload payload = Ok l /\ total l = t
     end) /\
  (forall l t m, holds l t m -> (Z.of_nat (payload_size (item_list m)) <= u32_max)%Z ->
     Forall (fun e => phrase e.2 <> []) (item_list m) -> (unigrams (item_list m) <= u32_max)%Z ->
     exists file, store l = Some (Ok file) /\ build_chunk (item_list m) = Ok file) /\
  (forall l slot b, headers_only l = true ->
     item l slot = None /\ items l = [] /\ token_end l = 1%Z /\
     replace l slot b = (r ← replace UserLibrary_default slot b;
                         Some (match r.2 with Ok _ => r.1 | Err _ => l end, r.2))).
Proof.
  split; [exact ops_refine|]. split; [exact holds_empty|]. split; [|split; [|split]].
  - intros its Hok Hfit. destruct (load_library its Hok Hfit) as (l & ? & ? & _). by exists l.
  - intros payload. pose proof (load_payload_decodes payload) as H.
    destruct (decode_sub_phrase_index payload) as [[t its]|e]; [|done].
    destruct H as (l & _ & ? & ? & _). by exists l.
  - exact store_build_chunk.
  - exact headers_only_fresh.
Qed.

(** A session on one library: the same reading twice, another, a compaction,
    a store and load, and the answers. *)
Definition sample_ops : list lib_op :=
  [OpReplace 1 (item_wire sample_item); OpAddReading 1 [4660%Z] 5; OpAddReading 1 [22%Z] 2;
   OpIncrement 1 4; OpReplace 3 (item_wire sample_item ++ [x00]); OpRemove 3; OpReplace 16777216 []; OpReplace 2 [x01];
   OpCompact; OpReload; OpTokenEnd; OpCount 1; OpTotal].

Example sample_answers :
  snd <$> run_ops UserLibrary_default sample_ops =
  Some [AResult (Ok tt); AResult (Ok tt); AResult (Ok tt); ABool true; AResult (Ok tt); ABool true;
        AResult (Err SlotPastMask); AResult (Err InvalidBody); ADone; ADone; AZ 2; ACount (Some 2%Z); AZ 7].
Proof. vm_compute. reflexivity. Qed.

Lemma library_refines_witness :
  Forall op_typed sample_ops /\
  exists l', run_ops UserLibrary_default sample_ops = Some (l', (spec_ops (0%Z, ∅) sample_ops).2) /\
    holds l' (spec_ops (0%Z, ∅) sample_ops).1.1 (spec_ops (0%Z, ∅) sample_ops).1.2.
Proof.
  assert (Hty : Forall op_typed sample_ops) by (repeat constructor; vm_compute; discriminate).
  assert (Hh : holds UserLibrary_default 0 ∅).
  { split; first [done|by intros k o H%not_elem_of_nil|by vm_compute]. }
  assert (Hroom : (Z.of_nat (length (content UserLibrary_default) + length sample_ops * op_growth) + payload_room <= u32_max)%Z)
    by (vm_compute; discriminate).
  split; [exact Hty|]. destruct library_refines as [H _]. exact (H sample_ops UserLibrary_default 0%Z ∅ Hh Hty Hroom).
Defined.
