(* ===== verification/Float.v ===== *)
(** * Float: IEEE single and double precision as the decoder uses them

    [f32] and [f64] are the standard library's [spec_float] at 24 and 53 bits
    of precision, rounding to nearest even; a NaN has no payload. The
    logarithms are the platform's and stay parameters of what uses them. Here
    are the conversions, [partial_cmp], and the order of
    [crates/oxpinyin-engine/src/nbest.rs], with the keys that show it total. *)

From Stdlib Require Import ZArith Lia Bool SpecFloat.
From stdpp Require Import base list.
From S2P Require Import Prelude ByteOrder.

Definition f32 : Type := spec_float.
Definition f64 : Type := spec_float.

Definition f32_sub : f32 -> f32 -> f32 := SFsub 24 128.
Definition f32_mul : f32 -> f32 -> f32 := SFmul 24 128.
Definition f32_div : f32 -> f32 -> f32 := SFdiv 24 128.
Definition f64_add : f64 -> f64 -> f64 := SFadd 53 1024.
Definition f64_mul : f64 -> f64 -> f64 := SFmul 53 1024.

(** A value rounded to a format. *)
Definition round_to (prec emax : Z) (x : spec_float) : spec_float :=
  match x with
  | S754_finite s m e => binary_normalize prec emax (cond_Zopp s (Zpos m)) e s
  | x => x
  end.

(** [f64::from] of an [f32], and [as f32] of an [f64]. *)
Definition f64_from (x : f32) : f64 := round_to 53 1024 x.
Definition f64_as_f32 (x : f64) : f32 := round_to 24 128 x.

(** [as f32] of an unsigned integer. *)
Definition int_as_f32 (n : Z) : f32 := binary_normalize 24 128 n 0 false.

Definition f32_zero : f32 := S754_zero false.
Definition f32_one : f32 := int_as_f32 1.

(** [f32::EPSILON], 2^-23. *)
Definition F32_EPSILON : f32 := binary_normalize 24 128 1 (-23) false.

Definition is_nan (x : spec_float) : bool := match x with S754_nan => true | _ => false end.

(** [partial_cmp] and [<]. *)
Definition partial_cmp (x y : spec_float) : option comparison := SFcompare x y.
Definition float_lt (x y : spec_float) : bool := SFltb x y.

(** [ordered_poss_compare]: best first, NaN last. *)
Definition ordered_poss_compare (left right : f32) : comparison :=
  match is_nan left, is_nan right with
  | true, true => Eq
  | true, false => Gt
  | false, true => Lt
  | false, false => default Eq (partial_cmp right left)
  end.

(** ** The order is lexicographic in three integers *)

Definition poss_key (x : spec_float) : list Z :=
  match x with
  | S754_infinity false => [-2; 0; 0]
  | S754_finite false m e => [-1; -e; - Zpos m]
  | S754_zero _ => [0; 0; 0]
  | S754_finite true m e => [1; e; Zpos m]
  | S754_infinity true => [2; 0; 0]
  | S754_nan => [3; 0; 0]
  end%Z.

Lemma length_poss_key x : length (poss_key x) = 3.
Proof. by destruct x as [|[]| |[]]. Qed.

Lemma ordered_poss_compare_key x y :
  ordered_poss_compare x y = lex_compare (poss_key x) (poss_key y).
Proof.
  unfold ordered_poss_compare.
  destruct x as [s|[]| |[] m e], y as [s'|[]| |[] m' e']; try reflexivity;
    cbn [is_nan partial_cmp SFcompare from_option id poss_key lex_compare].
  - change (1 ?= 1)%Z with Eq. cbn iota. change (Zpos m ?= Zpos m')%Z with (m ?= m')%positive.
    rewrite (Z.compare_antisym e e'). destruct (e ?= e')%Z; cbn; [|done|done].
    change (PosDef.Pos.compare_cont Eq m' m) with (m' ?= m)%positive.
    rewrite (Pos.compare_antisym m m'). by destruct (m ?= m')%positive.
  - change (-1 ?= -1)%Z with Eq. cbn iota. rewrite !Z.compare_opp.
    change (Zpos m' ?= Zpos m)%Z with (m' ?= m)%positive.
    destruct (e' ?= e)%Z; [|done|done]. change (PosDef.Pos.compare_cont Eq m' m) with (m' ?= m)%positive.
    by destruct (m' ?= m)%positive.
Qed.
