(* ===== verification/Models.v ===== *)
(** * Models: what the decoder asks of a dictionary and a language model

    The traits [Dictionary] and [LanguageModel] of
    [crates/oxpinyin-core/src/lib.rs] as far as the engine calls them, with
    the bodies the dictionary trait gives its own methods, [PhraseEntry] of
    [vocab.rs], [SentenceFacts] of [sentence_facts.rs] and [EngineError] of
    [crates/oxpinyin-engine/src/error.rs]. A method on [&self] with a memo or
    facts beside it answers their new value too. *)

From Stdlib Require Import ZArith Lia Bool Strings.Byte.
From stdpp Require Import base list gmap.
From S2P Require Import Prelude SingleGram MergedGram Ranges Chewing Vocab Ucs4 Graph Kbest Float.

(** ** Data *)

Record PhraseEntry : Type := mk_phrase_entry {
  entry_token : Z;
  entry_text : PhraseText;
  entry_pronunciation : option (Z * Z);
  live_unigram : option Z
}.

Definition entry_new (token : Z) (text : PhraseText) : PhraseEntry := mk_phrase_entry token text None None.

Definition with_pronunciation_possibility (e : PhraseEntry) (matched total : Z) : PhraseEntry :=
  mk_phrase_entry (entry_token e) (entry_text e) (Some (matched, total)) (live_unigram e).

Record TrellisItem : Type := mk_item {
  item_chars : Z;
  item_pronunciation : option (Z * Z)
}.

Definition phrase_index_item (e : PhraseEntry) : TrellisItem :=
  {| item_chars := Z.min (Z.of_nat (phrase_length (entry_text e))) u32_max;
     item_pronunciation := entry_pronunciation e |}.

Definition PronunciationRows : Type := list (list ChewingKey * Z).

Inductive PhraseItemRead : Type :=
  | Unsupported
  | NoItem
  | Item (rows : PronunciationRows).

Record TokenFacts : Type := {
  facts_chars : Z;
  facts_unigram : Z;
  facts_pronunciations : Z;
  facts_flags : Z;
  facts_offset : nat;
  facts_len : nat
}.

Record SentenceFacts : Type := {
  facts_generation : option Z;
  facts_disabled : bool;
  facts_tokens : gmap Z (option TokenFacts);
  facts_bytes : bytes;
  facts_total : option Z
}.

Definition SentenceFacts_default : SentenceFacts :=
  {| facts_generation := None; facts_disabled := false; facts_tokens := ∅;
     facts_bytes := []; facts_total := None |}.

(** [SentenceFacts::validate]. *)
Definition facts_validate (f : SentenceFacts) (generation : Z) : SentenceFacts * bool :=
  if facts_disabled f then (f, false)
  else if (generation =? u64_max)%Z
          || match facts_generation f with Some seen => negb (seen =? generation)%Z | None => false end
  then ({| facts_generation := facts_generation f; facts_disabled := true; facts_tokens := ∅;
           facts_bytes := []; facts_total := None |}, false)
  else ({| facts_generation := Some generation; facts_disabled := false;
           facts_tokens := facts_tokens f; facts_bytes := facts_bytes f;
           facts_total := facts_total f |}, true).

(** The pieces of a step's probability before its logarithm. *)
Record NbestStepCosts : Type := mk_costs {
  blended : option f64;
  unigram_cost : option f64;
  unigram_lambda : f32
}.

Inductive NbestSuccessors : Type :=
  | Row (gram : MergedGram)
  | Miss.

(** ** Errors *)

Inductive ScoringError : Type :=
  | DictionaryError (message : bytes)
  | LanguageModelError (message : bytes).

Inductive TrainingSpanFault : Type :=
  | PastMatrixEnd
  | EmptyStartColumn
  | EndEmptyColumn.

Inductive EngineError : Type :=
  | CandidateIndexOutOfRange (index len : nat)
  | LookupOffsetPastSeparator (offset normalized : nat)
  | LookupOffsetOutOfRange (offset len : nat)
  | LookupOffsetInsideCharacter (offset len : nat)
  | SelectionAnchorBeforeComposition (anchor composition : nat)
  | ZeroKeyOffsetCheck (offset : nat)
  | MatrixColumnAssert (offset : nat)
  | StaleTrainingConstraint (position : nat)
  | UnsafeTrainingPredecessor (token : Z)
  | ShortTrainingPredecessor (token : Z)
  | ShortLookupPredecessor (token : Z)
  | UnsafeLookupPredecessor (token : Z)
  | ReadAfterCheck (token : Z)
  | EngineTrainingSetFreqMiss (token : Z)
  | EngineFailedUserBigramStore (token : Z)
  | StaleTrainingSpan (position : nat) (fault : TrainingSpanFault)
  | OverlongUserIndexKey (syllables : nat)
  | TonedIncompleteKey
  | ReduceTokensCount (count : nat)
  | UserModel (message : bytes)
  | Graph_ (error : GraphError)
  | Decode_ (error : DecodeError)
  | Scoring (error : ScoringError).

(** [EngineError::check_toned_incomplete]. *)
Definition check_toned_incomplete (keys : list SyllableKey) (tones : list Z)
    : result unit EngineError :=
  match position (fun key => bool_decide (completeness key = Partial)) keys with
  | Some index =>
      match tones !! index with
      | Some tone => if (tone =? 0)%Z then Ok tt else Err TonedIncompleteKey
      | None => Ok tt
      end
  | None => Ok tt
  end.

Definition lookup_gram (token : Z) (fault : GramFault) : EngineError :=
  match fault with
  | Short => ShortLookupPredecessor token
  | OverRead => UnsafeLookupPredecessor token
  end.

(** ** The traits *)

(** The errors of a dictionary are only ever printed: they are their text. *)
Class Dictionary (D : Type) : Type := {
  PathMemo : Type;
  memo_default : PathMemo;
  lookup : D -> list SyllableKey -> result (list PhraseEntry) bytes;
  trellis_ranges_continued : D -> list SyllableKey -> list Z -> PhraseIndexRanges unit ->
    result (PhraseIndexRanges unit * bool) bytes;
  trellis_item : D -> list SyllableKey -> list Z -> Z -> result (option TrellisItem) bytes;
  trellis_item_with_facts : D -> list SyllableKey -> list Z -> Z -> PathMemo -> SentenceFacts ->
    result (option TrellisItem * PathMemo * SentenceFacts) bytes;
  trellis_text : D -> list SyllableKey -> list Z -> Z -> result (option PhraseText) bytes;
  trellis_text_with_facts : D -> list SyllableKey -> list Z -> Z -> SentenceFacts ->
    result (option PhraseText * SentenceFacts) bytes;
  handles_partial_keys : D -> bool;
  tokens_for_ucs4 : D -> list Z -> list Z;
  phrase_item_pronunciations : D -> Z -> result PhraseItemRead bytes
}.
Arguments PathMemo D {_}.

Class LanguageModel (L : Type) : Type := {
  ModelError : Type;
  model_message : ModelError -> bytes;
  is_read_after_check : L -> ModelError -> bool;
  score : L -> list Z -> Z -> Z -> result Z ModelError;
  begin_successor_span : L -> NbestStepRow -> NbestStepRow;
  nbest_successors_in_row : L -> Z -> NbestStepRow ->
    result (option NbestSuccessors * NbestStepRow) ModelError;
  nbest_item_costs_with_facts : L -> Z -> Z -> option (Z * Z) -> NbestStepRow -> SentenceFacts ->
    result (NbestStepCosts * NbestStepRow * SentenceFacts) ModelError
}.
Arguments ModelError L {_}.

(** What the traits' documentation promises: a search adds ranges that stand
    for filled items, and a read through a memo or the facts answers what the
    plain read does. The memos and facts a dictionary may be handed are those
    that came from the defaults through its own calls and the model's. *)
Class DecoderLaws (D L : Type) `{Dictionary D, LanguageModel L} (d : D) (l : L) : Type := {
  memo_ok : list SyllableKey -> list Z -> PathMemo D -> Prop;
  facts_ok : SentenceFacts -> Prop;
  memo_default_ok : forall keys tones, memo_ok keys tones memo_default;
  facts_default_ok : facts_ok SentenceFacts_default;
  ranges_law : forall keys tones ranges more,
    trellis_ranges_continued d keys tones new_ranges = Ok (ranges, more) ->
    exists items, represents ranges items /\ Forall (fun it => is_u32 it.1) items;
  item_law : forall keys tones token memo facts item memo' facts',
    memo_ok keys tones memo -> facts_ok facts ->
    trellis_item_with_facts d keys tones token memo facts = Ok (item, memo', facts') ->
    trellis_item d keys tones token = Ok item /\ memo_ok keys tones memo' /\ facts_ok facts';
  text_law : forall keys tones token facts text facts',
    facts_ok facts -> trellis_text_with_facts d keys tones token facts = Ok (text, facts') ->
    trellis_text d keys tones token = Ok text /\ facts_ok facts';
  costs_law : forall prev token item row facts costs row' facts',
    facts_ok facts ->
    nbest_item_costs_with_facts l prev token item row facts = Ok (costs, row', facts') ->
    facts_ok facts'
}.

(** [EngineError::row_read]. *)
Definition row_read {L} `{LanguageModel L} (model : L) (token : Z) (error : ModelError L) : EngineError :=
  if is_read_after_check model error then ReadAfterCheck token
  else Scoring (LanguageModelError (model_message error)).

(** ** The bodies [Dictionary] gives its methods *)

Section defaults.
Context {D : Type} (lookup_ : D -> list SyllableKey -> result (list PhraseEntry) bytes).
Context (prefix_exists : D -> list SyllableKey -> result bool bytes).

Definition trellis_records (d : D) (syllables : list SyllableKey) (_tones : list Z)
    : result (list PhraseEntry) bytes :=
  lookup_ d syllables.

Definition trellis_ranges (d : D) (syllables : list SyllableKey) (tones : list Z)
    (ranges : PhraseIndexRanges unit) : result (PhraseIndexRanges unit) bytes :=
  match trellis_records d syllables tones with
  | Err e => Err e
  | Ok entries => Ok (convert ranges ((fun e => (entry_token e, Some tt)) <$> entries))
  end.

Definition default_ranges_continued (d : D) (syllables : list SyllableKey) (tones : list Z)
    (ranges : PhraseIndexRanges unit) : result (PhraseIndexRanges unit * bool) bytes :=
  match trellis_ranges d syllables tones ranges with
  | Err e => Err e
  | Ok ranges =>
      match prefix_exists d syllables with
      | Err e => Err e
      | Ok continued => Ok (ranges, continued)
      end
  end.

(** [iter().rev().find(...)]: the last entry for the token. *)
Definition last_entry (entries : list PhraseEntry) (token : Z) : option PhraseEntry :=
  List.find (fun e => (entry_token e =? token)%Z) (rev entries).

Definition default_item (d : D) (syllables : list SyllableKey) (tones : list Z) (token : Z)
    : result (option TrellisItem) bytes :=
  match trellis_records d syllables tones with
  | Err e => Err e
  | Ok entries => Ok (phrase_index_item <$> last_entry entries token)
  end.

Definition default_item_on_path {M} (d : D) (syllables : list SyllableKey) (tones : list Z)
    (token : Z) (_memo : M) : result (option TrellisItem) bytes :=
  default_item d syllables tones token.

Definition default_item_with_facts {M} (d : D) (syllables : list SyllableKey) (tones : list Z)
    (token : Z) (memo : M) (facts : SentenceFacts)
    : result (option TrellisItem * M * SentenceFacts) bytes :=
  match default_item_on_path d syllables tones token memo with
  | Err e => Err e
  | Ok item => Ok (item, memo, facts)
  end.

Definition default_text (d : D) (syllables : list SyllableKey) (tones : list Z) (token : Z)
    : result (option PhraseText) bytes :=
  match trellis_records d syllables tones with
  | Err e => Err e
  | Ok entries => Ok (entry_text <$> last_entry entries token)
  end.

Definition default_text_with_facts (d : D) (syllables : list SyllableKey) (tones : list Z)
    (token : Z) (facts : SentenceFacts) : result (option PhraseText * SentenceFacts) bytes :=
  match default_text d syllables tones token with
  | Err e => Err e
  | Ok text => Ok (text, facts)
  end.
End defaults.

(** [tokens_for_ucs4] over [tokens_for_text]: only an all-scalar span. *)
Definition default_tokens_for_ucs4 (tokens_for_text : list Z -> list Z) (ucs4 : list Z) : list Z :=
  match mapM char_from_u32 ucs4 with
  | None => []
  | Some text => tokens_for_text text
  end.
