(* ===== verification/Cost.v ===== *)
(** * Cost: the fixed-point costs of the fallback scorer

    [crates/oxpinyin-core/src/cost.rs]: a cost is a negative base-2 logarithm
    at a thousand units a bit, an [i64]; probabilities outside (0, 1] have
    three values of their own. [f64::log2] is the platform's: a parameter.
    [reduce_ratio] shrinks a 128-bit ratio by one shift. *)

From Stdlib Require Import ZArith Lia Bool SpecFloat.
From stdpp Require Import base list.
From S2P Require Import Prelude ByteOrder Float.

Definition COST_PER_BIT : Z := 1000%Z.
Definition UNKNOWN_COST : Z := (40 * COST_PER_BIT)%Z.
Definition NAN_COST : Z := i64_min.
Definition POS_INF_COST : Z := i64_max.
Definition NEG_INF_COST : Z := (i64_min + 1)%Z.

(** ** [f64] methods *)

Definition f64_sub : f64 -> f64 -> f64 := SFsub 53 1024.

(** [as f64] of an integer. *)
Definition int_as_f64 (n : Z) : f64 := binary_normalize 53 1024 n 0 false.

(** The integer nearest to [m * 2^e], halves away from zero. *)
Definition nearest_integer (m : positive) (e : Z) : Z :=
  if (0 <=? e)%Z then Z.shiftl (Zpos m) e
  else
    let d := (2 ^ (- e))%Z in
    if (d <=? 2 * (Zpos m mod d))%Z then (Zpos m / d + 1)%Z else (Zpos m / d)%Z.

(** [f64::round]: an integer again fits the format; zero keeps the sign. *)
Definition f64_round (x : f64) : f64 :=
  match x with
  | S754_finite s m e => binary_normalize 53 1024 (cond_Zopp s (nearest_integer m e)) 0 s
  | x => x
  end.

(** [as i64]: towards zero, saturating, a NaN is 0. *)
Definition f64_as_i64 (x : f64) : Z :=
  match x with
  | S754_zero _ | S754_nan => 0
  | S754_infinity s => if s then i64_min else i64_max
  | S754_finite s m e =>
      clamp_i64 (cond_Zopp s (if (0 <=? e)%Z then Z.shiftl (Zpos m) e else Zpos m / 2 ^ (- e)))
  end%Z.

Definition is_finite (x : spec_float) : bool :=
  match x with S754_zero _ | S754_finite _ _ _ => true | _ => false end.

Definition is_infinite (x : spec_float) : bool :=
  match x with S754_infinity _ => true | _ => false end.

(** [f64::clamp]: a NaN is answered. *)
Definition f64_clamp (x lo hi : f64) : f64 :=
  let x := if float_lt x lo then lo else x in if float_lt hi x then hi else x.

(** ** Costs *)

Section log.
Context (log2 : f64 -> f64).

Definition cost_of_probability (x : f64) : Z :=
  if is_nan x || float_lt x (S754_zero false) then NAN_COST
  else if SFeqb x (S754_zero false) then POS_INF_COST
  else if is_infinite x then NEG_INF_COST
  else
    let scaled := f64_round (f64_mul (SFopp (log2 x)) (int_as_f64 COST_PER_BIT)) in
    let limit := int_as_f64 (POS_INF_COST - 1) in
    f64_as_i64 (f64_clamp scaled (SFopp limit) limit).

Definition bits_to_cost (bits : f64) : Z :=
  let scaled := f64_round (f64_mul bits (int_as_f64 COST_PER_BIT)) in
  if negb (is_finite scaled) || SFleb (int_as_f64 UNKNOWN_COST) scaled then UNKNOWN_COST
  else f64_as_i64 scaled.

(** [log2] of a [u64]. *)
Definition log2_u64 (value : Z) : f64 := log2 (int_as_f64 value).

Definition surprisal (count total : Z) : Z :=
  if (count =? 0)%Z || (total =? 0)%Z then UNKNOWN_COST
  else
    let count := Z.min count total in
    if (count =? total)%Z then 0%Z else bits_to_cost (f64_sub (log2_u64 total) (log2_u64 count)).
End log.

(** ** Ratios *)

Definition u128_size : Z := (2 ^ 128)%Z.
Definition is_u128 (z : Z) : Prop := (0 <= z < u128_size)%Z.

(** [128 - leading_zeros]. *)
Definition bit_length (z : Z) : Z := if (z =? 0)%Z then 0%Z else (Z.log2 z + 1)%Z.

(** [u64::try_from(..).unwrap_or(u64::MAX)]. *)
Definition u64_or_max (z : Z) : Z := if (z <=? u64_max)%Z then z else u64_max.

Definition reduce_ratio (numerator denominator : Z) : Z * Z :=
  let excess := Z.max 0 (bit_length (Z.lor numerator denominator) - 63) in
  (u64_or_max (Z.shiftr numerator excess), u64_or_max (Z.shiftr denominator excess)).

(** ** What holds of them *)

(** The reference: halve both until each is below 2^63. *)
Fixpoint halve_ratio (fuel : nat) (n d : Z) : Z * Z :=
  match fuel with
  | O => (n, d)
  | S fuel =>
      if (2 ^ 63 <=? n)%Z || (2 ^ 63 <=? d)%Z then halve_ratio fuel (Z.shiftr n 1) (Z.shiftr d 1)
      else (n, d)
  end.

Lemma bit_length_spec z b : (0 <= z)%Z -> (0 <= b)%Z -> (bit_length z <= b)%Z <-> (z < 2 ^ b)%Z.
Proof.
  intros Hz Hb. unfold bit_length. destruct (Z.eqb_spec z 0) as [->|Hne].
  - split; [intros; apply Z.pow_pos_nonneg; lia|lia].
  - rewrite (Z.log2_lt_pow2 z b) by lia. lia.
Qed.

Lemma lor_lt_pow2 a b k :
  (0 <= a)%Z -> (0 <= b)%Z -> (0 <= k)%Z -> (Z.lor a b < 2 ^ k)%Z <-> (a < 2 ^ k)%Z /\ (b < 2 ^ k)%Z.
Proof.
  intros Ha Hb Hk. pose proof (proj2 (Z.lor_nonneg a b) (conj Ha Hb)) as Hab.
  rewrite <- !bit_length_spec by done. unfold bit_length.
  pose proof (Z.log2_lor a b Ha Hb) as Hl.
  destruct (Z.eqb_spec (Z.lor a b) 0) as [Hz|Hz].
  { apply Z.lor_eq_0_iff in Hz as [-> ->]. cbn. lia. }
  pose proof (Z.log2_nonneg a). pose proof (Z.log2_nonneg b). rewrite Hl.
  destruct (Z.eqb_spec a 0) as [->|], (Z.eqb_spec b 0) as [->|]; cbn [Z.log2] in *; try lia.
  by rewrite Z.lor_0_l in Hz.
Qed.

Lemma halve_ratio_shift fuel n d :
  (0 <= n)%Z -> (0 <= d)%Z -> (bit_length (Z.lor n d) <= 63 + Z.of_nat fuel)%Z ->
  halve_ratio fuel n d =
    (let k := Z.max 0 (bit_length (Z.lor n d) - 63) in (Z.shiftr n k, Z.shiftr d k)).
Proof.
  revert n d. induction fuel as [|fuel IH]; intros n d Hn Hd Hf; cbn [halve_ratio].
  { rewrite Z.max_l by lia. by rewrite !Z.shiftr_0_r. }
  pose proof (proj2 (Z.lor_nonneg n d) (conj Hn Hd)) as Hnd.
  pose proof (bit_length_spec (Z.lor n d) 63 Hnd ltac:(lia)) as H63.
  rewrite (lor_lt_pow2 n d 63) in H63 by lia.
  destruct (Z.leb_spec (2 ^ 63) n), (Z.leb_spec (2 ^ 63) d); cbn [orb].
  4: { rewrite Z.max_l by lia. by rewrite !Z.shiftr_0_r. }
  all: assert (bit_length (Z.lor (Z.shiftr n 1) (Z.shiftr d 1)) = bit_length (Z.lor n d) - 1)%Z as Hb
    by (rewrite <- Z.shiftr_lor; assert (64 <= bit_length (Z.lor n d))%Z by lia;
        revert H1; unfold bit_length; destruct (Z.eqb_spec (Z.lor n d) 0); [lia|]; intros H1;
        rewrite Z.log2_shiftr by lia; rewrite Z.max_r by lia;
        destruct (Z.eqb_spec (Z.shiftr (Z.lor n d) 1) 0) as [Hs|]; [|lia];
        apply Z.shiftr_eq_0_iff in Hs; lia).
  all: rewrite IH by (try apply Z.shiftr_nonneg; lia); rewrite Hb; cbv zeta;
    rewrite !Z.shiftr_shiftr by lia; do 2 f_equal; lia.
Qed.

Lemma halve_ratio_bound fuel n d :
  (0 <= n)%Z -> (0 <= d)%Z -> (bit_length (Z.lor n d) <= 63 + Z.of_nat fuel)%Z ->
  (0 <= (halve_ratio fuel n d).1 < 2 ^ 63)%Z /\ (0 <= (halve_ratio fuel n d).2 < 2 ^ 63)%Z.
Proof.
  revert n d. induction fuel as [|fuel IH]; intros n d Hn Hd Hf; cbn [halve_ratio fst snd].
  - pose proof (proj2 (Z.lor_nonneg n d) (conj Hn Hd)) as Hnd.
    apply (bit_length_spec _ 63 Hnd ltac:(lia)), lor_lt_pow2 in Hf; lia.
  - destruct (Z.leb_spec (2 ^ 63) n), (Z.leb_spec (2 ^ 63) d); cbn [orb fst snd]; [..|lia];
      (apply IH; [apply Z.shiftr_nonneg; lia..|]; rewrite <- Z.shiftr_lor;
       pose proof (proj2 (Z.lor_nonneg n d) (conj Hn Hd)) as Hnd;
       apply bit_length_spec; [apply Z.shiftr_nonneg; lia|lia|];
       apply (bit_length_spec _ _ Hnd) in Hf; [|lia]; rewrite Z.shiftr_div_pow2 by lia;
       apply Z.div_lt_upper_bound; [lia|];
       replace (63 + Z.of_nat (S fuel))%Z with (1 + (63 + Z.of_nat fuel))%Z in Hf by lia;
       rewrite Z.pow_add_r in Hf; lia).
Qed.

(** One shift by the excess bits is the halving loop, and both halves fit. *)
Theorem reduce_ratio_halves n d :
  is_u128 n -> is_u128 d ->
  reduce_ratio n d = halve_ratio 65 n d /\
  ((reduce_ratio n d).1 < 2 ^ 63)%Z /\ ((reduce_ratio n d).2 < 2 ^ 63)%Z.
Proof.
  unfold is_u128, u128_size. intros Hn Hd.
  assert (bit_length (Z.lor n d) <= 63 + Z.of_nat 65)%Z as Hf
    by (apply bit_length_spec; [apply Z.lor_nonneg; lia|lia|apply lor_lt_pow2; lia]).
  pose proof (halve_ratio_bound 65 n d ltac:(lia) ltac:(lia) Hf) as [Hb1 Hb2].
  pose proof (halve_ratio_shift 65 n d ltac:(lia) ltac:(lia) Hf) as Hs. cbv zeta in Hs.
  rewrite Hs in Hb1, Hb2. cbn [fst snd] in Hb1, Hb2.
  assert (forall z, (0 <= z < 2 ^ 63)%Z -> u64_or_max z = z) as Hid.
  { intros z Hz. unfold u64_or_max. rewrite (proj2 (Z.leb_le _ _)); [done|width_lia]. }
  unfold reduce_ratio. rewrite !Hid, Hs by done. split; [done|]. split; [apply Hb1|apply Hb2].
Qed.

Section log_laws.
Context (log2 : f64 -> f64).

(** The three values of their own, and the ends of a surprisal. *)
Theorem cost_of_probability_outside (x : f64) :
  (is_nan x = true \/ float_lt x (S754_zero false) = true -> cost_of_probability log2 x = NAN_COST) /\
  (forall s, x = S754_zero s -> cost_of_probability log2 x = POS_INF_COST) /\
  (x = S754_infinity false -> cost_of_probability log2 x = NEG_INF_COST).
Proof.
  unfold cost_of_probability. repeat split.
  - intros [-> | ->]; [done|by rewrite orb_true_r].
  - by intros [] ->.
  - by intros ->.
Qed.

Theorem surprisal_ends count total :
  (0 <= count)%Z -> (0 <= total)%Z ->
  (count = 0%Z \/ total = 0%Z -> surprisal log2 count total = UNKNOWN_COST) /\
  ((0 < total <= count)%Z -> surprisal log2 count total = 0%Z).
Proof.
  intros Hc Ht. unfold surprisal. split.
  - intros [-> | ->]; [done|]. by rewrite orb_true_r.
  - intros H. rewrite (proj2 (Z.eqb_neq count 0)), (proj2 (Z.eqb_neq total 0)) by lia. cbn [orb].
    rewrite Z.min_r by lia. by rewrite Z.eqb_refl.
Qed.
End log_laws.
