(* ===== verification/Scoring.v ===== *)
(** * Scoring: the log-linear scorer

    [crates/oxpinyin-core/src/scoring.rs]: the complete keys an initial-only
    key stands for, the expansion of a key sequence, the cost of a phrase
    after a history and of an edge of the graph, and the ranked phrases of a
    key sequence. Dictionary and language model are the classes of [Models]. *)

From Stdlib Require Import ZArith Lia Bool Strings.Byte.
From stdpp Require Import base list.
From S2P Require Import Prelude SyllableData Syllables Vocab Ucs4 Graph Kbest Float Models Cost.

Definition WEIGHT_SCALE : Z := 100%Z.

Record ScoringConfig : Type := mk_config {
  lm_weight : Z;
  exact_penalty : Z;
  segmentation_penalty : Z;
  incomplete_penalty : Z;
  phrase_key_bonus : Z;
  expansion_limit : nat
}.

Definition ScoringConfig_default : ScoringConfig :=
  {| lm_weight := WEIGHT_SCALE; exact_penalty := 0; segmentation_penalty := 750;
     incomplete_penalty := 999; phrase_key_bonus := 1000; expansion_limit := 64 |}.

Definition edge_penalty (c : ScoringConfig) (kind : EdgeKind) : Z :=
  match kind with
  | Exact => exact_penalty c
  | Segmentation => segmentation_penalty c
  | Incomplete => incomplete_penalty c
  end.

Definition coverage_bonus (c : ScoringConfig) (keys : nat) : Z :=
  let extra := if keys =? 0 then 0%Z else (Z.of_nat keys - 1)%Z in
  sat_mul64 (phrase_key_bonus c) extra.

(** Rust's division rounds towards zero. *)
Definition weigh (c : ScoringConfig) (model_cost : Z) : Z :=
  Z.quot (sat_mul64 model_cost (lm_weight c)) WEIGHT_SCALE.

(** ** Expansion of incomplete keys *)

Definition completions (key : SyllableKey) : list SyllableKey :=
  if decide (completeness key = Complete) then [key]
  else
    let initial := key_text key in
    omap from_text
      (filter (fun syllable => phonetic_initial syllable = Some initial)
        (filter (fun syllable => starts_with syllable initial = true) FULL_PINYIN_SYLLABLES)).

(** The loop over the keys: the choices of each, while their product stays
    within the limit. *)
Fixpoint alternatives_loop (limit product : nat) (keys : list SyllableKey)
    : option (list (list SyllableKey)) :=
  match keys with
  | [] => Some []
  | key :: keys =>
      let choices := completions key in
      if decide (choices = []) then None
      else
        match checked_mul product (length choices) with
        | Some product =>
            if product <=? limit then cons choices <$> alternatives_loop limit product keys else None
        | None => None
        end
  end.

Definition extend_sequences (sequences : list (list SyllableKey)) (choices : list SyllableKey)
    : list (list SyllableKey) :=
  sequences ≫= fun prefix => (fun choice => prefix ++ [choice]) <$> choices.

Definition expand_keys (keys : list SyllableKey) (limit : nat) : list (list SyllableKey) :=
  if limit <? 1 then []
  else
    match alternatives_loop limit 1 keys with
    | None => []
    | Some alternatives => fold_left extend_sequences alternatives [[]]
    end.

(** ** The scorer *)

Section scorer.
Context {D L : Type} `{Dictionary D, LanguageModel L}.
Local Open Scope result_scope.

Record Scorer : Type := mk_scorer {
  config : ScoringConfig; dictionary : D; model : L; key_costs : list Z
}.

Definition model_score (l : L) (history : list Z) (token cost : Z) : result Z ScoringError :=
  map_err (fun e => LanguageModelError (model_message e)) (score l history token cost).

Definition dictionary_lookup (d : D) (keys : list SyllableKey) : result (list PhraseEntry) ScoringError :=
  map_err DictionaryError (lookup d keys).

(** The cheapest of the entries, from [best]. *)
Definition cheapest (l : L) (entries : list PhraseEntry) (best : Z) : result Z ScoringError :=
  fold_result (fun best entry =>
    try cost := model_score l [] (entry_token entry) 0 in Ok (Z.min best cost)) entries best.

Definition push_key_cost (d : D) (l : L) (key_costs : list Z) (index : nat)
    : result (list Z) ScoringError :=
  match from_index index with
  | None => Ok (key_costs ++ [UNKNOWN_COST])
  | Some key =>
      try entries := dictionary_lookup d [key] in
      try best := cheapest l entries UNKNOWN_COST in
      Ok (key_costs ++ [best])
  end.

Definition key_cost_table (d : D) (l : L) : result (list Z) ScoringError :=
  fold_result (push_key_cost d l) (seq 0 SYLLABLE_KEY_COUNT) [].

Definition with_key_costs (c : ScoringConfig) (d : D) (l : L) (key_costs : list Z) : Scorer :=
  mk_scorer c d l key_costs.

Definition new (c : ScoringConfig) (d : D) (l : L) : result Scorer ScoringError :=
  try key_costs := key_cost_table d l in Ok (with_key_costs c d l key_costs).

Definition key_cost (s : Scorer) (key : SyllableKey) : Z :=
  default UNKNOWN_COST (key_costs s !! index key).

Definition phrase_cost (s : Scorer) (history : list Z) (entry : PhraseEntry) (keys : nat)
    (kinds : list EdgeKind) : result Z ScoringError :=
  let structural :=
    fold_left (fun total kind => sat_add64 total (edge_penalty (config s) kind)) kinds 0%Z in
  try combined := model_score (model s) history (entry_token entry) structural in
  Ok (sat_sub64 (weigh (config s) combined) (coverage_bonus (config s) keys)).

(** An entry joins the ranking unless one with its text is there. *)
Definition rank_entry (s : Scorer) (history : list Z) (keys : nat) (kinds : list EdgeKind)
    (ranked : list (PhraseEntry * Z)) (entry : PhraseEntry)
    : result (list (PhraseEntry * Z)) ScoringError :=
  try cost := phrase_cost s history entry keys kinds in
  if existsb (fun seen => text_eq (entry_text seen.1) (entry_text entry)) ranked then Ok ranked
  else Ok (ranked ++ [(entry, cost)]).

Definition rank_sequence (s : Scorer) (history : list Z) (keys : nat) (kinds : list EdgeKind)
    (ranked : list (PhraseEntry * Z)) (sequence : list SyllableKey)
    : result (list (PhraseEntry * Z)) ScoringError :=
  try entries := dictionary_lookup (dictionary s) sequence in
  fold_result (rank_entry s history keys kinds) entries ranked.

Definition rank_phrases (s : Scorer) (history : list Z) (keys : list SyllableKey)
    (kinds : list EdgeKind) : result (list (PhraseEntry * Z)) ScoringError :=
  try ranked := fold_result (rank_sequence s history (length keys) kinds)
                  (expand_keys keys (expansion_limit (config s))) [] in
  Ok (sort_by_key snd ranked).

(** The [EdgeCost] of a scorer. *)
Definition edge_cost (s : Scorer) : EdgeCost := fun _ e =>
  sat_add64 (default UNKNOWN_COST (key_costs s !! index (key e)))
    (edge_penalty (config s) (kind e)).
End scorer.
Arguments Scorer : clear implicits.
