(* ===== verification/ScoringSpec.v ===== *)
(** * ScoringSpec: what the scorer ranks

    The expansion of a key sequence is the product of what its keys stand for,
    or nothing past the limit; the ranking holds every text the dictionary
    offers for an expanded sequence once, at the cost of its first offer,
    cheapest first. *)

From Stdlib Require Import ZArith Lia Bool Strings.Byte.
From stdpp Require Import base list sorting.
From S2P Require Import Prelude SyllableData Syllables Vocab Ucs4 Graph Kbest KbestSweep Float Models Cost Scoring.

(** ** Completions *)

(** What a key stands for: a complete key for itself, an initial for every
    full syllable whose phonetic initial it is. *)
Definition stands_for (key k : SyllableKey) : Prop :=
  match completeness key with
  | Complete => k = key
  | Partial => exists s, s ∈ FULL_PINYIN_SYLLABLES /\ phonetic_initial s = Some (key_text key) /\
      from_text s = Some k
  end.

Lemma syllable_initial_prefix text i : syllable_initial text = Some i -> starts_with text i = true.
Proof.
  unfold syllable_initial.
  assert (forall l best, (forall b, best = Some b -> starts_with text b = true) ->
    Forall (fun key => starts_with text key = true) l ->
    forall i, fold_left (fun best key => match best with
      | Some b => if length b <=? length key then Some key else best
      | None => Some key end) l best = Some i -> starts_with text i = true) as H.
  { induction l as [|key l IH]; intros best Hb Hl; [exact Hb|].
    apply Forall_cons in Hl as [Hk Hl]. cbn [fold_left]. apply IH; [|done].
    intros b. destruct best as [b'|]; [|by intros [= <-]].
    destruct (_ <=? _); [by intros [= <-]|]. apply Hb. }
  apply H; [done|]. apply Forall_forall. by intros key [Hk _]%list_elem_of_filter.
Qed.

Lemma phonetic_initial_prefix text i : phonetic_initial text = Some i -> starts_with text i = true.
Proof. unfold phonetic_initial. case_bool_decide; [done|]. apply syllable_initial_prefix. Qed.

Lemma completions_stand key k : k ∈ completions key <-> stands_for key k.
Proof.
  unfold completions, stands_for. destruct (completeness key); case_decide; try done.
  - by rewrite list_elem_of_singleton.
  - rewrite list_elem_of_omap. split.
    + intros (s & Hs & Hk). apply list_elem_of_filter in Hs as [Hi Hs].
      apply list_elem_of_filter in Hs as [_ Hs]. eauto.
    + intros (s & Hs & Hi & Hk). exists s. split; [|done].
      apply list_elem_of_filter. split; [done|]. apply list_elem_of_filter. split; [|done].
      by apply phonetic_initial_prefix.
Qed.

Lemma full_syllables_nodup : NoDup FULL_PINYIN_SYLLABLES.
Proof. apply (bool_decide_unpack (NoDup FULL_PINYIN_SYLLABLES)). vm_compute. exact I. Qed.


Lemma completions_nodup key : NoDup (completions key).
Proof.
  unfold completions. case_decide; [apply NoDup_singleton|].
  apply NoDup_omap_inj; [|by apply NoDup_filter, NoDup_filter, full_syllables_nodup].
  intros x y z Hx Hy. do 2 apply list_elem_of_filter in Hx as [_ Hx].
  do 2 apply list_elem_of_filter in Hy as [_ Hy]. unfold from_text.
  pose proof (map_get_spec FULL_PINYIN_SYLLABLES x) as H1.
  pose proof (map_get_spec FULL_PINYIN_SYLLABLES y) as H2.
  destruct (map_get FULL_PINYIN_SYLLABLES x) as [i|]; [|done].
  destruct (map_get FULL_PINYIN_SYLLABLES y) as [j|]; [|done]. unfold from_index.
  destruct (_ <=? i), (_ <=? j); try done. intros [= <-] [= ->]. congruence.
Qed.

(** ** Expansion *)

(** The sequences that take one element of each list, in order. *)
Fixpoint choices_of {A} (ls : list (list A)) : list (list A) :=
  match ls with
  | [] => [[]]
  | l :: ls => l ≫= fun x => cons x <$> choices_of ls
  end.

Definition choices_count {A} (ls : list (list A)) : nat := foldr (fun l n => length l * n) 1 ls.

Lemma elem_of_choices {A} (ls : list (list A)) xs : xs ∈ choices_of ls <-> Forall2 (fun x l => x ∈ l) xs ls.
Proof.
  revert xs. induction ls as [|l ls IH]; intros xs; cbn [choices_of].
  - rewrite list_elem_of_singleton. split; [by intros ->|by inversion 1].
  - rewrite list_elem_of_bind. setoid_rewrite list_elem_of_fmap. split.
    + intros (x & (ys & -> & Hys%IH) & Hx). by constructor.
    + intros H. inversion H as [|x ? ys ? Hx Hys]; subst. exists x. split; [|done].
      exists ys. split; [done|by apply IH].
Qed.

Lemma length_choices {A} (ls : list (list A)) : length (choices_of ls) = choices_count ls.
Proof.
  induction ls as [|l ls IH]; [done|].
  change (choices_count (l :: ls)) with (length l * choices_count ls). cbn [choices_of].
  rewrite <- IH. clear IH. induction l as [|x l IHl]; [done|].
  rewrite bind_cons, length_app, length_fmap, IHl. cbn [length]. lia.
Qed.

Lemma choices_nodup {A} (ls : list (list A)) : Forall NoDup ls -> NoDup (choices_of ls).
Proof.
  induction 1 as [|l ls Hl _ IH]; cbn [choices_of]; [apply NoDup_singleton|].
  induction Hl as [|x l Hx _ IHl]; [constructor|]. rewrite bind_cons. apply NoDup_app. split; [|split; [|done]].
  - apply NoDup_fmap_2; [|done]. intros ?? [=]; done.
  - intros xs (ys & -> & _)%list_elem_of_fmap (y & Hxs & Hy)%list_elem_of_bind.
    apply list_elem_of_fmap in Hxs as (zs & [= -> _] & _). done.
Qed.

Lemma extend_choices (ls : list (list SyllableKey)) seqs :
  fold_left extend_sequences ls seqs = seqs ≫= fun p => app p <$> choices_of ls.
Proof.
  revert seqs. induction ls as [|l ls IH]; intros seqs; cbn [fold_left choices_of].
  - induction seqs as [|p seqs IHs]; [done|]. rewrite bind_cons, <- IHs. cbn. by rewrite app_nil_r.
  - rewrite IH. unfold extend_sequences. rewrite bind_bind. apply list_bind_ext; [|done].
    intros p. unfold compose. rewrite list_fmap_bind. rewrite fmap_bind.
    apply list_bind_ext; [|done]. intros x. rewrite <- list_fmap_compose.
    apply list_fmap_ext. intros _ q _. unfold compose. by rewrite <- app_assoc.
Qed.

Lemma checked_mul_limit a b limit :
  (Z.of_nat limit <= usize_max)%Z ->
  match checked_mul a b with
  | Some p => p = a * b
  | None => limit < a * b
  end.
Proof.
  intros Hl. unfold checked_mul, checked_usize. destruct (Z.leb_spec (Z.of_nat a * Z.of_nat b) usize_max); lia.
Qed.

Lemma alternatives_loop_spec limit product keys :
  (Z.of_nat limit <= usize_max)%Z -> 1 <= product ->
  match alternatives_loop limit product keys with
  | Some ls => ls = completions <$> keys /\ (keys <> [] -> product * choices_count ls <= limit)
  | None => choices_of (completions <$> keys) = [] \/
      limit < product * choices_count (completions <$> keys)
  end.
Proof.
  intros Hl. revert product. induction keys as [|key keys IH]; intros product Hp; [done|].
  cbn [alternatives_loop]. case_decide as Hc; [left; cbn; by rewrite Hc|].
  assert (1 <= length (completions key)) by (destruct (completions key); [done|cbn; lia]).
  pose proof (checked_mul_limit product (length (completions key)) limit Hl) as Hm.
  set (n := choices_count (completions <$> keys)).
  assert (choices_count (completions <$> key :: keys) = length (completions key) * n) as Hn by done.
  assert (choices_of (completions <$> keys) = [] \/ 1 <= n) as Hz.
  { unfold n. rewrite <- length_choices. destruct (choices_of _); [by left|right; cbn; lia]. }
  assert (choices_of (completions <$> keys) = [] -> choices_of (completions <$> key :: keys) = []) as Hnil.
  { intros E. cbn. rewrite E. clear. by induction (completions key). }
  rewrite Hn. destruct (checked_mul _ _) as [p|]; [|destruct Hz; [left; auto|right; nia]].
  subst p. destruct (Nat.leb_spec (product * length (completions key)) limit);
    [|destruct Hz; [left; auto|right; nia]].
  specialize (IH (product * length (completions key)) ltac:(nia)).
  destruct (alternatives_loop _ _ keys) as [ls|]; cbn [fmap option_fmap option_map].
  - destruct IH as [-> IH]. split; [done|]. intros _. rewrite <- fmap_cons, Hn. fold n in IH.
    destruct keys as [|k keys]; [unfold n; cbn; lia|]. specialize (IH ltac:(done)). lia.
  - fold n in IH. destruct IH as [IH|IH]; [left; auto|right; lia].
Qed.

(** [expand_keys] is the product of the completions, or nothing past the limit. *)
Theorem expand_keys_choices keys limit :
  (Z.of_nat limit <= usize_max)%Z ->
  expand_keys keys limit =
    if decide (1 <= limit /\ choices_count (completions <$> keys) <= limit)
    then choices_of (completions <$> keys) else [].
Proof.
  intros Hl. unfold expand_keys. destruct (Nat.ltb_spec limit 1).
  { by rewrite decide_False by lia. }
  pose proof (alternatives_loop_spec limit 1 keys Hl ltac:(lia)) as H0.
  destruct (alternatives_loop limit 1 keys) as [ls|].
  - destruct H0 as [-> H0]. rewrite extend_choices. rewrite decide_True.
    + cbn. rewrite app_nil_r. clear. induction (choices_of _) as [|c l IH]; [done|]. cbn. by f_equal.
    + split; [done|]. destruct keys; [cbn; lia|]. specialize (H0 ltac:(done)). lia.
  - case_decide as Hd; [|done]. destruct H0 as [->|H0]; [done|lia].
Qed.

Corollary expand_keys_elem keys limit ks :
  (Z.of_nat limit <= usize_max)%Z -> 1 <= limit -> choices_count (completions <$> keys) <= limit ->
  ks ∈ expand_keys keys limit <-> Forall2 stands_for keys ks.
Proof.
  intros Hl H1 Hc. rewrite expand_keys_choices, decide_True by done. rewrite elem_of_choices.
  rewrite Forall2_fmap_r. split.
  - intros H. apply Forall2_flip. eapply Forall2_impl; [exact H|]. intros k key. apply completions_stand.
  - intros H. apply Forall2_flip in H. eapply Forall2_impl; [exact H|]. intros k key. apply completions_stand.
Qed.

Corollary expand_keys_nodup keys limit :
  (Z.of_nat limit <= usize_max)%Z -> NoDup (expand_keys keys limit).
Proof.
  intros Hl. rewrite expand_keys_choices by done. case_decide; [|constructor].
  apply choices_nodup, Forall_fmap, Forall_forall. intros key _. apply completions_nodup.
Qed.

(** ** Ranking *)

Lemma text_eq_sym a b : text_eq a b = text_eq b a.
Proof.
  unfold text_eq, eq_stored, str_eq.
  destruct (as_str a), (as_str b), a, b; apply bool_decide_ext; split; congruence.
Qed.

(** A fold that stops at errors keeps what its steps keep. *)
Lemma fold_result_ok {S A Er} (I : list A -> S -> Prop) (f : S -> A -> result S Er) l s s' :
  I [] s ->
  (forall seen x rest s s', l = seen ++ x :: rest -> I seen s -> f s x = Ok s' -> I (seen ++ [x]) s') ->
  fold_result f l s = Ok s' -> I l s'.
Proof.
  intros Hs Hstep. assert (forall rest seen s, l = seen ++ rest -> I seen s ->
    fold_result f rest s = Ok s' -> I l s') as H; [|by apply (H l [])].
  clear s Hs. induction rest as [|x rest IH]; intros seen s Hl Hs; cbn [fold_result].
  - intros [= <-]. rewrite app_nil_r in Hl. by subst.
  - destruct (f s x) as [s1|] eqn:Hf; [|done]. apply (IH (seen ++ [x])).
    + by rewrite <- app_assoc.
    + by eapply Hstep.
Qed.

Section ranking.
Context {D L : Type} `{Dictionary D, LanguageModel L}.
Context (s : Scorer D L) (history : list Z) (keys : nat) (kinds : list EdgeKind).

(** What the dictionary offers for some of the sequences. *)
Definition offered (sequences : list (list SyllableKey)) (e : PhraseEntry) : Prop :=
  exists sequence entries, sequence ∈ sequences /\ lookup (dictionary s) sequence = Ok entries /\ e ∈ entries.

(** The ranking holds each of the offered texts once, at its cost. *)
Record ranking (offer : PhraseEntry -> Prop) (ranked : list (PhraseEntry * Z)) : Prop := {
  ranking_offered e c : (e, c) ∈ ranked -> offer e /\ phrase_cost s history e keys kinds = Ok c;
  ranking_complete e : offer e ->
    exists e' c, (e', c) ∈ ranked /\ text_eq (entry_text e') (entry_text e) = true;
  ranking_distinct : NoDup ranked /\ forall a b, a ∈ ranked -> b ∈ ranked -> a <> b ->
    text_eq (entry_text a.1) (entry_text b.1) = false
}.

Lemma ranking_equiv (P Q : PhraseEntry -> Prop) ranked :
  (forall e, P e <-> Q e) -> ranking P ranked -> ranking Q ranked.
Proof using Type.
  intros HPQ [H1 H2 H3]. split; [|intros e He; by apply H2, HPQ|done].
  intros e c Hec. destruct (H1 e c Hec). split; [by apply HPQ|done].
Qed.

Lemma text_eq_refl a : text_eq a a = true.
Proof using Type.
  unfold text_eq, eq_stored, str_eq. destruct (as_str a), a; by apply bool_decide_eq_true.
Qed.

Lemma rank_entry_ranking offer ranked e ranked' :
  ranking offer ranked -> rank_entry s history keys kinds ranked e = Ok ranked' ->
  ranking (fun x => offer x \/ x = e) ranked'.
Proof using Type.
  intros [H1 H2 [Hnd H3]]. unfold rank_entry.
  destruct (phrase_cost s history e keys kinds) as [c|] eqn:Hc; [|done].
  destruct (existsb _ ranked) eqn:Hex.
  - intros [= <-]. split; [|intros x [Hx| ->]; [by apply H2|]|done].
    + intros x cx Hx. destruct (H1 x cx Hx). auto.
    + apply existsb_exists in Hex as ([e' c'] & Hin%list_elem_of_In & Ht). eauto.
  - assert (forall a, a ∈ ranked -> text_eq (entry_text a.1) (entry_text e) = false) as Hne.
    { intros a Ha. apply not_true_is_false. intros Ht. rewrite <- not_true_iff_false in Hex.
      apply Hex, existsb_exists. exists a. by split; [apply list_elem_of_In|]. }
    intros [= <-]. split.
    + intros x cx [Hx|Hx]%elem_of_app; [destruct (H1 x cx Hx); auto|].
      apply list_elem_of_singleton in Hx as [= -> ->]. auto.
    + intros x [Hx| ->].
      * destruct (H2 x Hx) as (e' & c' & Hin & Ht). exists e', c'. split; [|done]. apply elem_of_app. by left.
      * exists e, c. split; [apply elem_of_app; right; by apply list_elem_of_singleton|apply text_eq_refl].
    + split.
      * apply NoDup_app. split; [done|]. split; [|apply NoDup_singleton].
        intros a Ha ->%list_elem_of_singleton. specialize (Hne _ Ha). cbn in Hne.
        by rewrite text_eq_refl in Hne.
      * intros a b [Ha|Ha]%elem_of_app [Hb|Hb]%elem_of_app Hab.
        -- by apply H3.
        -- apply list_elem_of_singleton in Hb as ->. by apply Hne.
        -- apply list_elem_of_singleton in Ha as ->. rewrite text_eq_sym. by apply Hne.
        -- apply list_elem_of_singleton in Ha as ->, Hb as ->. done.
Qed.

Lemma rank_sequence_ranking sequences ranked sequence ranked' :
  ranking (offered sequences) ranked -> rank_sequence s history keys kinds ranked sequence = Ok ranked' ->
  ranking (offered (sequences ++ [sequence])) ranked'.
Proof using Type.
  intros Hr. unfold rank_sequence, dictionary_lookup, map_err.
  destruct (lookup (dictionary s) sequence) as [entries|] eqn:Hl; [|done]. intros Hf.
  apply (fold_result_ok (fun seen => ranking (fun e => offered sequences e \/ e ∈ seen))) in Hf.
  - eapply ranking_equiv; [|exact Hf]. intros e. split.
    + intros [(q & es & Hq & He)|He].
      * exists q, es. split; [apply elem_of_app; by left|done].
      * exists sequence, entries. split; [apply elem_of_app; right; by apply list_elem_of_singleton|done].
    + intros (q & es & [Hq|Hq]%elem_of_app & He & Hin); [left; by exists q, es|].
      apply list_elem_of_singleton in Hq as ->. right. congruence.
  - eapply ranking_equiv; [|exact Hr]. intros e. rewrite elem_of_nil. tauto.
  - intros seen e rest r r' _ Hseen He. eapply ranking_equiv; [|by eapply rank_entry_ranking].
    intros x. cbn. rewrite elem_of_app, list_elem_of_singleton. tauto.
Qed.

Lemma ranking_perm offer ranked ranked' : ranked' ≡ₚ ranked -> ranking offer ranked -> ranking offer ranked'.
Proof using Type.
  intros Hp [H1 H2 [H3 H4]]. split; [|intros e He; destruct (H2 e He) as (e' & c & Hin & Ht); exists e', c; by rewrite Hp|split].
  - intros e c. rewrite Hp. apply H1.
  - by rewrite Hp.
  - intros a b. rewrite !Hp. apply H4.
Qed.
End ranking.

(** [rank_phrases]: every text the dictionary offers for an expanded sequence
    once, cheapest first, each entry at its cost after the history. *)
Theorem rank_phrases_ranking {D L : Type} `{Dictionary D, LanguageModel L} (s : Scorer D L) history keys kinds ranked :
  rank_phrases s history keys kinds = Ok ranked ->
  StronglySorted (fun a b => a.2 <= b.2)%Z ranked /\
  ranking s history (length keys) kinds (offered s (expand_keys keys (expansion_limit (config s)))) ranked.
Proof.
  unfold rank_phrases. destruct (fold_result _ _ _) as [r|] eqn:Hf; [|done]. intros [= <-]. split.
  - apply (sort_by_key_sorted snd).
  - eapply ranking_perm; [apply sort_by_key_perm|]. revert Hf.
    apply (fold_result_ok (fun seen => ranking s history (length keys) kinds (offered s seen))).
    + split; [by intros e c ?%elem_of_nil|intros e (q & es & []%elem_of_nil & _)|].
      split; [constructor|by intros a b ?%elem_of_nil].
    + intros seen q rest r1 r2 _. apply rank_sequence_ranking.
Qed.

(** The ranking answers whenever the dictionary and the model do. *)
Theorem rank_phrases_total {D L : Type} `{Dictionary D, LanguageModel L} (s : Scorer D L) history keys kinds :
  (forall sequence, exists entries, lookup (dictionary s) sequence = Ok entries) ->
  (forall token cost, exists c, score (model s) history token cost = Ok c) ->
  exists ranked, rank_phrases s history keys kinds = Ok ranked.
Proof.
  intros Hl Hs. unfold rank_phrases.
  assert (forall A (f : list (PhraseEntry * Z) -> A -> result (list (PhraseEntry * Z)) ScoringError),
    (forall r x, exists r', f r x = Ok r') -> forall l r, exists r', fold_result f l r = Ok r') as Hfold.
  { intros A f Hf l. induction l as [|x l IH]; intros r; cbn; [eauto|].
    destruct (Hf r x) as [r' ->]. apply IH. }
  edestruct (Hfold _ (rank_sequence s history (length keys) kinds)) as [r ->]; [|eauto].
  intros r sequence. unfold rank_sequence, dictionary_lookup. destruct (Hl sequence) as [entries ->]. cbn.
  apply Hfold. intros r' e. unfold rank_entry, phrase_cost, model_score.
  destruct (Hs (entry_token e)
    (fold_left (fun total kind => sat_add64 total (edge_penalty (config s) kind)) kinds 0%Z)) as [c ->].
  cbn. destruct (existsb _ _); eauto.
Qed.

(** The key costs are those of the cheapest phrase each key spells. *)
Lemma cheapest_spec {L : Type} `{LanguageModel L} (l : L) entries best c :
  cheapest l entries best = Ok c ->
  (c <= best)%Z /\
  (c = best \/ exists e, e ∈ entries /\ score l [] (entry_token e) 0 = Ok c) /\
  (forall e c', e ∈ entries -> score l [] (entry_token e) 0 = Ok c' -> (c <= c')%Z).
Proof.
  unfold cheapest. intros Hf.
  apply (fold_result_ok (fun seen c => (c <= best)%Z /\
    (c = best \/ exists e, e ∈ seen /\ score l [] (entry_token e) 0 = Ok c) /\
    (forall e c', e ∈ seen -> score l [] (entry_token e) 0 = Ok c' -> (c <= c')%Z))) in Hf; [done|..].
  - split; [lia|]. split; [by left|]. by intros e c' ?%elem_of_nil.
  - intros seen e rest b b' _ (Hb & Hwit & Hmin). unfold model_score, map_err.
    destruct (score l [] (entry_token e) 0) as [ce|] eqn:He; [|done]. intros [= <-]. split; [lia|]. split.
    + destruct (Z.min_spec b ce) as [[_ ->]|[_ ->]].
      * destruct Hwit as [->|(e' & Hin & Hc)]; [by left|]. right. exists e'. split; [apply elem_of_app; by left|done].
      * right. exists e. split; [apply elem_of_app; right; by apply list_elem_of_singleton|done].
    + intros e' c' [Hin|Hin]%elem_of_app Hc'.
      * specialize (Hmin e' c' Hin Hc'). lia.
      * apply list_elem_of_singleton in Hin as ->. replace c' with ce by congruence. lia.
Qed.

Theorem key_cost_table_cheapest {D L : Type} `{Dictionary D, LanguageModel L} (d : D) (l : L) costs :
  key_cost_table d l = Ok costs ->
  length costs = SYLLABLE_KEY_COUNT /\
  forall key c, index key < SYLLABLE_KEY_COUNT -> costs !! index key = Some c ->
    exists entries, lookup d [key] = Ok entries /\ cheapest l entries UNKNOWN_COST = Ok c.
Proof.
  unfold key_cost_table. intros Hf.
  apply (fold_result_ok (fun seen costs => length costs = length seen /\
    forall key c, index key < SYLLABLE_KEY_COUNT -> costs !! index key = Some c ->
      exists entries, lookup d [key] = Ok entries /\ cheapest l entries UNKNOWN_COST = Ok c)) in Hf.
  - by rewrite length_seq in Hf.
  - split; [done|]. by intros key c _ ?.
  - intros seen i rest cs cs' Hl [Hlen Hcs] Hp.
    assert (i = length cs /\ i < SYLLABLE_KEY_COUNT) as [-> Hi].
    { assert (seq 0 SYLLABLE_KEY_COUNT !! length seen = Some i) as [Hi Hb]%lookup_seq
        by (by rewrite Hl, lookup_app_r, Nat.sub_diag by lia). lia. }
    unfold push_key_cost, from_index in Hp. rewrite (proj2 (Nat.leb_gt _ _)) in Hp by done.
    unfold dictionary_lookup, map_err in Hp.
    destruct (lookup d [mk_syllable (length cs)]) as [es|] eqn:Hes; [|done].
    destruct (cheapest l es UNKNOWN_COST) as [b|] eqn:Hb; [|done]. injection Hp as <-.
    rewrite !length_app, Hlen. split; [done|]. intros key c Hk [Hc|[Hge Hc]]%lookup_app_Some; [by apply Hcs|].
    destruct key as [j]. cbn in *. apply list_lookup_singleton_Some in Hc as [Hj ->].
    replace j with (length cs) by lia. eauto.
Qed.
