(* ===== verification/Ranking.v ===== *)
(** * Ranking: candidates, their order and their deduplication

    [crates/oxpinyin-engine/src/candidate.rs] and the ranking half of
    [session/mod.rs]: the rows a session offers, the guarded wrapping order of
    their frequencies, the permutation by swaps, the two deduplications by
    text and the order of a scanned window. A hash map keyed by text is the
    association list its [Eq] makes of it. *)

From Stdlib Require Import ZArith Lia Bool Strings.Byte SpecFloat.
From stdpp Require Import base list gmap.
From S2P Require Import Prelude ByteOrder Sorting SingleGram MergedGram Options Ucs4 Float Models.

(** ** The wrapping order of frequencies *)

(** [as i32] of a [u32]. *)
Definition as_i32 (z : Z) : Z := if (z <? 2 ^ 31)%Z then z else (z - u32_size)%Z.

Definition frequency_compare (left right : Z) : comparison :=
  (as_i32 (right -₃₂ left)%M ?= 0)%Z.

Definition tournament (maximum frequency : Z) : Z :=
  match frequency_compare frequency maximum with Lt => frequency | _ => maximum end.

Definition frequency_order_is_consistent (frequencies : list Z) : bool :=
  match frequencies with
  | [] => true
  | first :: rest =>
      let maximum := fold_left tournament rest first in
      forallb (fun frequency => (maximum -₃₂ frequency)%M <? 2 ^ 31)%Z (first :: rest)
  end.

(** [slice::chunk_by]: the maximal runs whose neighbours are the same. *)
Fixpoint chunk_by {A} (same : A -> A -> bool) (l : list A) : list (list A) :=
  match l with
  | [] => []
  | x :: l =>
      match chunk_by same l with
      | (y :: g) :: gs => if same x y then (x :: y :: g) :: gs else [x] :: (y :: g) :: gs
      | gs => [x] :: gs
      end
  end.

Section rank.
Context {T : Type} (key : T -> nat * Z * Z).

Definition leading_compare (left right : T) : comparison :=
  match (key right).1.1 ?= (key left).1.1 with
  | Eq => ((key right).1.2 ?= (key left).1.2)%Z
  | c => c
  end.

Definition same_leading (left right : T) : bool := bool_decide ((key left).1 = (key right).1).

Definition group_compare (consistent : bool) (left right : T) : comparison :=
  if consistent then frequency_compare (key left).2 (key right).2
  else ((key right).2 ?= (key left).2)%Z.

Definition sort_group (group : list T) : list T :=
  sort_by (group_compare (frequency_order_is_consistent ((fun row => (key row).2) <$> group))) group.

Definition rank_by_frequency (items : list T) : list T :=
  concat (sort_group <$> chunk_by same_leading (sort_by leading_compare items)).
End rank.

(** ** Candidates *)

Inductive CandidateKind : Type := Phrase | Addon | Sentence | Fallback.

#[export] Instance CandidateKind_eq_dec : EqDecision CandidateKind.
Proof. solve_decision. Defined.

Record Candidate : Type := mk_candidate {
  cand_text : PhraseText;
  cand_cost : Z;
  cand_token : option Z;
  consumed_keys : Z;
  consumed_bytes : Z;
  nbest_rank : Z;
  span_start : Z;
  cand_kind : CandidateKind;
  cand_live_unigram : option Z
}.

(** [u8::MAX]. *)
Definition NO_ROW : Z := 255%Z.

Definition narrow (count : nat) : Z := Z.min (Z.of_nat count) u32_max.

Definition candidate_new (text : PhraseText) (kind : CandidateKind) (keys bytes : nat) (cost : Z)
    (token : option Z) (nbest_index : option Z) : Candidate :=
  {| cand_text := text; cand_cost := cost; cand_token := token;
     consumed_keys := narrow keys; consumed_bytes := narrow bytes;
     nbest_rank := match nbest_index with
                   | Some rank => if (rank =? NO_ROW)%Z then NO_ROW else rank
                   | None => NO_ROW
                   end;
     span_start := 0; cand_kind := kind; cand_live_unigram := None |}.

Definition with_live_unigram (c : Candidate) (live : option Z) : Candidate :=
  {| cand_text := cand_text c; cand_cost := cand_cost c; cand_token := cand_token c;
     consumed_keys := consumed_keys c; consumed_bytes := consumed_bytes c;
     nbest_rank := nbest_rank c; span_start := span_start c; cand_kind := cand_kind c;
     cand_live_unigram := live |}.

Definition set_span_start (c : Candidate) (start : nat) : Candidate :=
  {| cand_text := cand_text c; cand_cost := cand_cost c; cand_token := cand_token c;
     consumed_keys := consumed_keys c; consumed_bytes := consumed_bytes c;
     nbest_rank := nbest_rank c; span_start := narrow start; cand_kind := cand_kind c;
     cand_live_unigram := cand_live_unigram c |}.

Definition cand_phrase_length (c : Candidate) : nat := phrase_length (cand_text c).

Definition nbest_index (c : Candidate) : Z := if (nbest_rank c =? NO_ROW)%Z then 0%Z else nbest_rank c.

Definition nbest_row (c : Candidate) : option Z :=
  if (nbest_rank c =? NO_ROW)%Z then None else Some (nbest_rank c).

Definition append_scan_entries (entries : list PhraseEntry) (keys end_ : nat) (kind : CandidateKind)
    (into : list Candidate) : list Candidate :=
  into ++ ((fun entry =>
    with_live_unigram
      (candidate_new (entry_text entry) kind keys end_ 0 (Some (entry_token entry)) None)
      (live_unigram entry)) <$> entries).

(** ** Frequencies *)

Definition f32_add : f32 -> f32 -> f32 := SFadd 24 128.

(** [as u32] of an [f32]: towards zero, saturating, a NaN is 0. *)
Definition f32_as_u32 (x : f32) : Z :=
  match x with
  | S754_infinity false => u32_max
  | S754_finite false m e =>
      Z.min u32_max (if (0 <=? e)%Z then Z.shiftl (Zpos m) e else Zpos m / 2 ^ (- e))%Z
  | _ => 0%Z
  end.

(** [0.1_f32] and [256.0 * 256.0 * 256.0]. *)
Definition BIGRAM_FREQUENCY_DISCOUNT_F32 : f32 := f32_div (int_as_f32 1) (int_as_f32 10).
Definition AMPLIFY_SCALE_F32 : f32 := f32_mul (f32_mul (int_as_f32 256) (int_as_f32 256)) (int_as_f32 256).

Definition amplified_frequency_with_bigram (unigram total : Z) (bigram_poss lambda : f32) : Z :=
  if (total =? 0)%Z then 0%Z
  else
    let possibility :=
      f32_add (f32_mul (f32_mul lambda bigram_poss) BIGRAM_FREQUENCY_DISCOUNT_F32)
        (f32_div (f32_mul (f32_sub f32_one lambda) (int_as_f32 unigram)) (int_as_f32 total)) in
    f32_as_u32 (f32_mul possibility AMPLIFY_SCALE_F32).

Definition amplified_frequency (unigram total : Z) (lambda : f32) : Z :=
  amplified_frequency_with_bigram unigram total f32_zero lambda.

Definition dynamic_adjust_bigram_possibility (options : OptionBits) (gram : option MergedGram) (token : Z)
    : result f32 GramFault :=
  if negb (has_dynamic_adjust options) then Ok f32_zero
  else
    match gram with
    | None => Ok f32_zero
    | Some row =>
        (try total := MergedGram.total row in
         try freq := MergedGram.get_freq row token in
         if (total =? 0)%Z then Ok f32_zero
         else Ok (f32_div (int_as_f32 (default 0%Z freq)) (int_as_f32 total)))%result
    end.

(** ** Rank keys *)

Inductive CandidateRanking : Type := SortWord | LengthThenFrequency.

Record RankKey : Type := mk_rank_key {
  rank_length : nat; pinyin_span : Z; frequency : Z; m_freq : Z
}.

Definition SORT_BY_PHRASE_LENGTH : Z := 4%Z.
Definition SORT_BY_PINYIN_LENGTH : Z := 8%Z.
Definition SORT_BY_FREQUENCY : Z := 16%Z.
Definition SORT_WITHOUT_SENTENCE_CANDIDATE : Z := 1%Z.
Definition SORT_WITHOUT_LONGER_CANDIDATE : Z := 2%Z.

Definition has_sort (sort_word bit : Z) : bool := negb (Z.land sort_word bit =? 0)%Z.

Definition for_sort_word (phrase_length span : nat) (freq sort_word : Z) : RankKey :=
  {| rank_length := if has_sort sort_word SORT_BY_PHRASE_LENGTH then phrase_length else 0;
     pinyin_span := if has_sort sort_word SORT_BY_PINYIN_LENGTH then (Z.of_nat span mod 256)%Z else 0%Z;
     frequency := if has_sort sort_word SORT_BY_FREQUENCY then freq else 0%Z;
     m_freq := freq |}.

(** ** The permutation by swaps *)

(** Where the displaced element went: the stored indexes grow, so the walk
    takes at most [i] hops. *)
Fixpoint follow {K} (fuel : nat) (keys : list (K * nat)) (i index : nat) : nat :=
  match fuel with
  | O => index
  | S fuel =>
      if index <? i
      then follow fuel keys i (default 0 (snd <$> keys !! index)) else index
  end.

Definition place_step {A K} (st : list A * list (K * nat)) (i : nat) : list A * list (K * nat) :=
  let '(candidates, keys) := st in
  let index := follow i keys i (default 0 (snd <$> keys !! i)) in
  (swap candidates i index, alter (fun k => (k.1, index)) i keys).

Definition place_all {A K} (candidates : list A) (keys : list (K * nat)) : list A * list (K * nat) :=
  fold_left place_step (seq 0 (length keys)) (candidates, keys).

Definition rank_candidates {A} (candidates : list A) (keys : list (RankKey * nat))
    : list A * list (RankKey * nat) :=
  place_all candidates
    (rank_by_frequency (fun k => (rank_length k.1, pinyin_span k.1, frequency k.1)) keys).

(** ** Deduplication *)

(** The occupied or vacant entry of a text. *)
Definition text_entry (survivor : list (PhraseText * nat)) (text : PhraseText) : option nat :=
  snd <$> List.find (fun e => text_eq e.1 text) survivor.

Definition set_survivor (survivor : list (PhraseText * nat)) (text : PhraseText) (index : nat)
    : list (PhraseText * nat) :=
  (fun e => if text_eq e.1 text then (e.1, index) else e) <$> survivor.

Definition dedup_step (keys : list (RankKey * nat)) (st : list bool * list (PhraseText * nat))
    (row : nat * (RankKey * nat) * Candidate) : list bool * list (PhraseText * nat) :=
  let '(keep, survivor) := st in
  let '(index, (key, _), candidate) := row in
  match text_entry survivor (cand_text candidate) with
  | None => (keep, survivor ++ [(cand_text candidate, index)])
  | Some held =>
      if (default 0%Z ((m_freq ∘ fst) <$> keys !! held) <? m_freq key)%Z
      then (<[held := false]> keep, set_survivor survivor (cand_text candidate) index)
      else (<[index := false]> keep, survivor)
  end.

(** [retain] of the rows a mask keeps. *)
Definition retain_mask {A} (keep : list bool) (l : list A) : list A :=
  fst <$> filter (fun x => x.2 = true) (zip l keep).

Definition dedup_ranked_by_text (ranked : list Candidate) (keys : list (RankKey * nat)) : list Candidate :=
  let rows := zip (zip (seq 0 (length ranked)) keys) ranked in
  let '(keep, _) := fold_left (dedup_step keys) rows (replicate (length ranked) true, []) in
  retain_mask keep ranked.

Definition keep_first_step (st : list bool * list PhraseText) (candidate : Candidate)
    : list bool * list PhraseText :=
  let '(keep, seen) := st in
  if existsb (fun text => text_eq text (cand_text candidate)) seen
  then (keep ++ [false], seen)
  else (keep ++ [true], seen ++ [cand_text candidate]).

Definition dedup_by_text_keep_first (candidates : list Candidate) : list Candidate :=
  let '(keep, _) := fold_left keep_first_step candidates ([], []) in
  retain_mask keep candidates.

(** ** The order of a window *)

Fixpoint strictly_increasing_from (previous : option Z) (window : list Candidate) : bool :=
  match window with
  | [] => true
  | candidate :: window =>
      match cand_token candidate with
      | None => false
      | Some token =>
          match previous with
          | Some p => if (token <=? p)%Z then false else strictly_increasing_from (Some token) window
          | None => strictly_increasing_from (Some token) window
          end
      end
  end.

Definition window_tokens_are_strictly_increasing (window : list Candidate) : bool :=
  strictly_increasing_from None window.

Definition token_library (c : Candidate) : Z :=
  match cand_token c with Some token => Z.shiftr token 24 | None => u32_max end.

(** One turn of the compaction: a row whose token was seen is passed over. *)
Definition compact_window (st : list Candidate * gset Z * nat) (read : nat)
    : list Candidate * gset Z * nat :=
  let '(into, seen, write) := st in
  match into !! read ≫= cand_token with
  | Some token =>
      if decide (token ∈ seen) then (into, seen, write)
      else (swap into write read, {[token]} ∪ seen, S write)
  | None => (swap into write read, seen, S write)
  end.

Definition sort_dedup_window_tail (into : list Candidate) (start : nat) : list Candidate :=
  let into := take start into
    ++ sort_by (fun l r => (token_library l ?= token_library r)%Z) (drop start into) in
  let '(into, _, write) :=
    fold_left compact_window (seq start (length into - start)) (into, ∅, start) in
  take write into.

Definition order_window_tail (into : list Candidate) (start : nat) : list Candidate :=
  if window_tokens_are_strictly_increasing (drop start into) then into
  else sort_dedup_window_tail into start.

Definition flush_window_batch (batch into : list Candidate) : list Candidate :=
  order_window_tail (into ++ batch) (length into).

(** ** The ranked list of a refresh *)

Definition rank_keys (rank_word : Z) (collected : list Candidate) (frequencies : list Z)
    : list (RankKey * nat) :=
  (fun row => let '(index, (candidate, freq)) := row in
    (for_sort_word (cand_phrase_length candidate) (Z.to_nat (consumed_bytes candidate)) freq rank_word,
     index))
  <$> zip (seq 0 (length collected)) (zip collected frequencies).

(** The rows ranked, the LONGER row put first, then one row a text. *)
Definition ranked_rows (rank_word : Z) (collected : list Candidate) (frequencies : list Z)
    (longer : option (RankKey * Candidate)) : list Candidate :=
  let '(collected, keys) := rank_candidates collected (rank_keys rank_word collected frequencies) in
  match longer with
  | Some (key, row) => dedup_ranked_by_text (row :: collected) ((key, 0) :: keys)
  | None => dedup_ranked_by_text collected keys
  end.

(** [prepend_nbest_rows]: the sentences first, then one row a text. *)
Definition prepend_rows (sort_word : Z) (rows collected : list Candidate) : list Candidate :=
  if bool_decide (rows = []) || has_sort sort_word SORT_WITHOUT_SENTENCE_CANDIDATE then collected
  else dedup_by_text_keep_first (rows ++ collected).
