(* ===== verification/RankingSpec.v ===== *)
(** * RankingSpec: the order of candidates

    The guard of [frequency_order_is_consistent] is exact: it passes a list
    exactly when the wrapping comparison orders it. So every ranking is the one
    stable sort of its rows, the swaps apply it, and the deduplications keep
    one row of each text. *)

From Stdlib Require Import ZArith Lia Bool Strings.Byte.
From stdpp Require Import base list gmap sorting.
From S2P Require Import Prelude ByteOrder Sorting Ucs4 Float Models Ranking.

(** ** The guard *)

Definition cmp_antisym (l : list Z) : Prop :=
  forall x y, x ∈ l -> y ∈ l -> frequency_compare y x = CompOpp (frequency_compare x y).

Definition cmp_transitive (l : list Z) : Prop :=
  forall x y z, x ∈ l -> y ∈ l -> z ∈ l ->
    frequency_compare x y <> Gt -> frequency_compare y z <> Gt -> frequency_compare x z <> Gt.

(** How far a frequency is behind another on the circle. *)
Definition behind (maximum frequency : Z) : Z := (maximum -₃₂ frequency)%M.

Lemma behind_range m f : (0 <= behind m f < u32_size)%Z.
Proof. apply wrap32_range. Qed.

(** Unfold the circle, then decide. *)
Ltac circle_lia :=
  unfold behind, as_i32, is_u32, wrapping_sub32, wrap32, u32_size in *;
  change (2 ^ 32)%Z with 4294967296%Z in *; change (2 ^ 31)%Z with 2147483648%Z in *;
  repeat match goal with |- context [(?a <? ?b)%Z] => destruct (Z.ltb_spec a b) end;
  div_lia.

(** Within half a circle of [m] the comparison is that of the distances. *)
Lemma frequency_compare_behind m x y :
  (behind m x < 2 ^ 31)%Z -> (behind m y < 2 ^ 31)%Z ->
  frequency_compare x y = (behind m x ?= behind m y)%Z.
Proof.
  intros Hx Hy. unfold frequency_compare. rewrite (Z.compare_sub (behind m x)). f_equal. circle_lia.
Qed.

Lemma frequency_compare_view x y :
  match frequency_compare x y with
  | Eq => behind y x = 0%Z
  | Gt => (0 < behind y x < 2 ^ 31)%Z
  | Lt => (2 ^ 31 <= behind y x)%Z
  end.
Proof.
  unfold frequency_compare. fold (behind y x). pose proof (behind_range y x).
  destruct (Z.compare_spec (as_i32 (behind y x)) 0) as [H1|H1|H1]; revert H1; unfold as_i32;
    destruct (Z.ltb_spec (behind y x) (2 ^ 31)); unfold u32_size in *; lia.
Qed.

Lemma frequency_compare_refl x : frequency_compare x x = Eq.
Proof. unfold frequency_compare. replace (as_i32 (x -₃₂ x)%M) with 0%Z; [done|circle_lia]. Qed.

Lemma behind_half x y : (2 ^ 31 <= behind y x)%Z -> (behind x y <= 2 ^ 31)%Z.
Proof. circle_lia. Qed.

(** The winner of the tournament is not behind any frequency. *)
Lemma tournament_wins l rest first :
  cmp_antisym l -> cmp_transitive l -> first ∈ l -> Forall (fun f => f ∈ l) rest ->
  let m := fold_left tournament rest first in
  m ∈ l /\ forall f, f ∈ first :: rest -> frequency_compare m f <> Gt.
Proof.
  intros Ha Ht Hf Hr.
  assert (forall seen, first ∈ seen -> (forall f, f ∈ seen -> f ∈ l /\ frequency_compare first f <> Gt) ->
    let m := fold_left tournament rest first in
    m ∈ l /\ forall f, f ∈ seen ++ rest -> frequency_compare m f <> Gt) as H.
  { clear Hf. revert first. induction Hr as [|x rest Hx _ IH]; intros first seen Hin Hseen m.
    { rewrite app_nil_r. split; [by apply Hseen|]. intros f Hf. by apply Hseen. }
    subst m. cbn [fold_left]. rewrite cons_middle, app_assoc.
    destruct (Hseen first Hin) as [Hfl _].
    assert (forall f, f ∈ seen ++ [x] -> f ∈ l /\ frequency_compare (tournament first x) f <> Gt) as Hnew.
    { intros f [Hf|Hf]%elem_of_app.
      - destruct (Hseen f Hf) as [Hfl' Hff]. split; [done|]. unfold tournament.
        destruct (frequency_compare x first) eqn:E; try done.
        apply (Ht x first f); [done..|by rewrite E|done].
      - apply list_elem_of_singleton in Hf as ->. split; [done|]. unfold tournament.
        destruct (frequency_compare x first) eqn:E.
        + rewrite (Ha x first), E by done. done.
        + by rewrite frequency_compare_refl.
        + rewrite (Ha x first), E by done. done. }
    apply IH; [|done]. unfold tournament. destruct (frequency_compare x first);
      apply elem_of_app; [by left|right; by apply list_elem_of_singleton|by left]. }
  apply (H [first]); [apply list_elem_of_here|].
  intros f ->%list_elem_of_singleton. by rewrite frequency_compare_refl.
Qed.

Lemma guard_within l :
  frequency_order_is_consistent l = true -> exists m, forall x, x ∈ l -> (behind m x < 2 ^ 31)%Z.
Proof.
  destruct l as [|first rest]; [exists 0%Z; by intros x ?%elem_of_nil|].
  intros H. exists (fold_left tournament rest first). intros x Hx.
  by apply (forallb_elem _ _ _ H), Z.ltb_lt in Hx.
Qed.

Lemma guard_distance l :
  frequency_order_is_consistent l = true ->
  exists m, forall x y, x ∈ l -> y ∈ l -> frequency_compare x y = (behind m x ?= behind m y)%Z.
Proof.
  intros [m H]%guard_within. exists m. intros x y Hx Hy. by apply frequency_compare_behind; apply H.
Qed.

(** C18. The guard passes a list of frequencies exactly when the wrapping
    comparison is a consistent order on it: antisymmetric and transitive over
    all its elements. It then is the order of the distances behind one
    frequency, so the standard library's sort is never handed an inconsistent
    comparison. *)
Theorem frequency_guard_exact l :
  (frequency_order_is_consistent l = true <-> cmp_antisym l /\ cmp_transitive l) /\
  (frequency_order_is_consistent l = true ->
    exists m, forall x y, x ∈ l -> y ∈ l -> frequency_compare x y = (behind m x ?= behind m y)%Z).
Proof.
  split; [|apply guard_distance]. split.
  - intros [m H]%guard_distance. split.
    + intros x y Hx Hy. rewrite !H by done. apply Z.compare_antisym.
    + intros x y z Hx Hy Hz. rewrite !H by done. rewrite !Z.compare_le_iff. lia.
  - intros [Ha Ht]. destruct l as [|first rest]; [done|].
    destruct (tournament_wins (first :: rest) rest first Ha Ht) as [Hin Hwin].
    { apply list_elem_of_here. }
    { apply Forall_forall. intros f. apply list_elem_of_further. }
    unfold frequency_order_is_consistent. apply List.forallb_forall. intros f Hf%list_elem_of_In.
    apply Z.ltb_lt. fold (behind (fold_left tournament rest first) f).
    set (m := fold_left tournament rest first) in *. specialize (Hwin f Hf).
    pose proof (frequency_compare_view m f) as Hv. pose proof (frequency_compare_view f m) as Hv'.
    rewrite (Ha m f Hin Hf) in Hv'.
    destruct (frequency_compare m f); [|cbn in Hv'; apply Hv'|done].
    cbn in Hv'. rewrite Hv'. done.
Qed.

Lemma frequency_guard_exact_witness :
  exists m, forall x y, x ∈ [5; 4294967290; 7]%Z -> y ∈ [5; 4294967290; 7]%Z ->
    frequency_compare x y = (behind m x ?= behind m y)%Z.
Proof. apply (proj2 (frequency_guard_exact [5; 4294967290; 7]%Z)). vm_compute. reflexivity. Defined.

(** ** The ranking is one stable sort *)

Section ranked.
Context {T : Type} (key : T -> nat * Z * Z).

Definition lead (x : T) : list Z := [- Z.of_nat (key x).1.1; - (key x).1.2]%Z.

Lemma leading_compare_lead x y : leading_compare key x y = lex_compare (lead x) (lead y).
Proof using Type.
  unfold leading_compare, lead. destruct (key x) as [[a b] c], (key y) as [[a' b'] c'].
  cbn -[Z.opp Z.compare Nat.compare]. rewrite !Z.compare_opp, Nat2Z.inj_compare.
  destruct (a' ?= a); [|done|done]. by destruct (b' ?= b)%Z.
Qed.

Lemma lead_eq x y : lead x = lead y <-> (key x).1 = (key y).1.
Proof using Type.
  unfold lead. destruct (key x) as [[a b] c], (key y) as [[a' b'] c']. cbn. split; [|congruence].
  intros [= H1 H2]. f_equal; lia.
Qed.

Definition group_frequencies (items : list T) (x : T) : list Z :=
  (fun y => (key y).2) <$> filter (fun y => (key y).1 = (key x).1) items.

(** Length and span first, both descending; then the frequencies of the rows
    that share them, by the wrapping order where it is one and downwards
    where it is not. *)
Definition rank_compare (items : list T) (x y : T) : comparison :=
  match leading_compare key x y with
  | Eq => group_compare key (frequency_order_is_consistent (group_frequencies items x)) x y
  | c => c
  end.

(** The groups: runs of one leading key, in strictly ascending order. *)
Record groups_ok (gs : list (list T)) : Prop := {
  groups_uniform g : g ∈ gs -> forall x y, x ∈ g -> y ∈ g -> (key x).1 = (key y).1;
  groups_apart : StronglySorted (fun g g' => forall x y, x ∈ g -> y ∈ g' -> lex_compare (lead x) (lead y) = Lt) gs
}.

Lemma chunk_by_head (same : T -> T -> bool) x l : exists g gs, chunk_by same (x :: l) = (x :: g) :: gs.
Proof using Type.
  cbn. destruct (chunk_by same l) as [|[|y g] gs]; [by eexists _, _..|]. destruct (same x y); by eexists _, _.
Qed.

Lemma chunk_by_concat (same : T -> T -> bool) l : concat (chunk_by same l) = l.
Proof using Type.
  induction l as [|x l IH]; [done|]. cbn.
  destruct (chunk_by same l) as [|[|y g] gs]; cbn in *; [by rewrite <- IH..|].
  destruct (same x y); cbn; by rewrite <- IH.
Qed.

Lemma chunk_by_groups l : StronglySorted (le_key lead) l -> groups_ok (chunk_by (same_leading key) l).
Proof using Type.
  induction 1 as [|x l Hl IH Hx]; [split; [by intros g ?%elem_of_nil|constructor]|].
  destruct l as [|y l].
  { cbn. split; [|by repeat constructor]. intros g ->%list_elem_of_singleton a b.
    by intros ->%list_elem_of_singleton ->%list_elem_of_singleton. }
  destruct (chunk_by_head (same_leading key) y l) as (g & gs & E).
  assert (concat ((y :: g) :: gs) = y :: l) as Hc by (rewrite <- E; apply chunk_by_concat).
  change (chunk_by (same_leading key) (x :: y :: l)) with
    (match chunk_by (same_leading key) (y :: l) with
     | (y :: g) :: gs => if same_leading key x y then (x :: y :: g) :: gs else [x] :: (y :: g) :: gs
     | gs => [x] :: gs end). rewrite E in *. destruct IH as [Hu Hs].
  destruct (same_leading key x y) eqn:Hsame.
  - apply bool_decide_eq_true in Hsame. split.
    + intros g' [->|Hg']%elem_of_cons; [|apply Hu; by apply list_elem_of_further].
      assert (forall z, z ∈ x :: y :: g -> (key z).1 = (key y).1) as Hz.
      { intros z [->|Hz]%elem_of_cons; [done|]. apply (Hu (y :: g)); [apply list_elem_of_here|done|apply list_elem_of_here]. }
      intros a b Ha Hb. by rewrite (Hz a), (Hz b).
    + inversion Hs as [|? ? Hs' Hall]; subst. constructor; [done|]. rewrite Forall_forall in Hall |- *.
      intros g' Hg' a b [->|Ha]%elem_of_cons Hb; [|by apply (Hall g')].
      rewrite (proj2 (lead_eq x y) Hsame). apply (Hall g'); [done|apply list_elem_of_here|done].
  - apply bool_decide_eq_false in Hsame. split.
    + intros g' [->|Hg']%elem_of_cons; [|by apply Hu]. intros a b.
      by intros ->%list_elem_of_singleton ->%list_elem_of_singleton.
    + constructor; [done|]. apply Forall_forall. intros g' Hg' a b ->%list_elem_of_singleton Hb.
      assert (b ∈ y :: l) as Hbl.
      { rewrite <- Hc. apply elem_of_concat. by exists g'. }
      assert (le_key lead x y) as Hxy by (rewrite Forall_forall in Hx; apply Hx, list_elem_of_here).
      assert (lex_compare (lead x) (lead y) = Lt) as Hlt.
      { unfold le_key in Hxy. destruct (lex_compare (lead x) (lead y)) eqn:Ec; [|done|done].
        apply lex_compare_eq, lead_eq in Ec. done. }
      apply elem_of_cons in Hbl as [->|Hbl]; [done|]. inversion Hl as [|? ? _ Hall]; subst.
      rewrite Forall_forall in Hall. specialize (Hall b Hbl). unfold le_key in Hall.
      destruct (lex_compare (lead y) (lead b)) eqn:Ec; [|by eapply lex_compare_trans|done].
      apply lex_compare_eq in Ec. by rewrite <- Ec.
Qed.

Lemma group_filter gs g x :
  groups_ok gs -> g ∈ gs -> x ∈ g -> filter (fun y => (key y).1 = (key x).1) (concat gs) = g.
Proof using Type.
  intros [Hu Hs]. revert g. induction Hs as [|g0 gs Hs IH Hall]; intros g Hg Hx; [by apply elem_of_nil in Hg|].
  cbn [concat]. rewrite filter_app. rewrite Forall_forall in Hall.
  apply elem_of_cons in Hg as [->|Hg].
  - rewrite filter_all; [rewrite filter_none; [by rewrite app_nil_r|]|].
    + apply Forall_forall. intros y (g' & Hg' & Hy)%elem_of_concat Hk.
      specialize (Hall g' Hg' x y Hx Hy). apply lead_eq in Hk.
      by rewrite Hk, lex_compare_refl in Hall.
    + apply Forall_forall. intros y Hy. apply (Hu g0); [apply list_elem_of_here|done..].
  - rewrite filter_none; [apply IH; [intros; eapply Hu; [by apply list_elem_of_further|..]; done|done|done]|].
    apply Forall_forall. intros y Hy Hk. specialize (Hall g Hg y x Hy Hx). apply lead_eq in Hk.
    by rewrite Hk, lex_compare_refl in Hall.
Qed.

(** In a group the comparison is that of one integer of the frequency. *)
Lemma group_compare_key g :
  exists h : Z -> Z, forall x y, x ∈ g -> y ∈ g ->
    group_compare key (frequency_order_is_consistent ((fun row => (key row).2) <$> g)) x y =
    lex_compare [h (key x).2] [h (key y).2].
Proof using Type.
  assert (forall a b : Z, lex_compare [a] [b] = (a ?= b)%Z) as Hone.
  { intros a b. cbn. by destruct (a ?= b)%Z. }
  unfold group_compare. destruct (frequency_order_is_consistent _) eqn:Hc.
  - apply guard_distance in Hc as [m Hm]. exists (behind m). intros x y Hx Hy. rewrite Hone.
    apply Hm; apply list_elem_of_fmap; eauto.
  - exists Z.opp. intros x y _ _. by rewrite Hone, Z.compare_opp.
Qed.

Lemma sort_group_spec g :
  sort_group key g ≡ₚ g /\
  StronglySorted (fun x y =>
    group_compare key (frequency_order_is_consistent ((fun row => (key row).2) <$> g)) x y <> Gt)
    (sort_group key g) /\
  forall k, filter (fun y => key y = k) (sort_group key g) = filter (fun y => key y = k) g.
Proof using Type.
  unfold sort_group. destruct (group_compare_key g) as [h Hh].
  set (cmp := group_compare key _) in *. set (cmp' := fun x y => lex_compare [h (key x).2] [h (key y).2]).
  rewrite (sort_by_ext_in cmp cmp') by done. split; [apply sort_by_perm|]. split.
  - eapply StronglySorted_impl_elem; [|apply (sort_by_sorted cmp' (fun x => [h (key x).2])); done].
    cbn. intros x y Hx Hy. rewrite sort_by_perm in Hx, Hy. rewrite Hh by done. done.
  - intros k. rewrite <- (filter_filter_imp _ (fun y => [h (key y).2] = [h k.2]))
      by (intros y ->; done).
    rewrite (sort_by_stable cmp' (fun x => [h (key x).2])) by done.
    apply filter_filter_imp. by intros y ->.
Qed.

Lemma filter_lead items x :
  filter (fun y => (key y).1 = (key x).1) (sort_by (leading_compare key) items) =
  filter (fun y => (key y).1 = (key x).1) items.
Proof using Type.
  transitivity (filter (fun y => lead y = lead x) items).
  - rewrite <- (sort_by_stable (leading_compare key) lead) by apply leading_compare_lead.
    apply filter_ext_in. intros y _. by rewrite lead_eq.
  - apply filter_ext_in. intros y _. by rewrite lead_eq.
Qed.

(** [rank_by_frequency] is the stable sort by [rank_compare]: those three
    facts leave one list. *)
Lemma rank_by_frequency_sorts items :
  rank_by_frequency key items ≡ₚ items /\
  StronglySorted (fun x y => rank_compare items x y <> Gt) (rank_by_frequency key items) /\
  forall k, filter (fun y => key y = k) (rank_by_frequency key items) = filter (fun y => key y = k) items.
Proof using Type.
  unfold rank_by_frequency. set (s := sort_by (leading_compare key) items).
  set (gs := chunk_by (same_leading key) s).
  assert (groups_ok gs) as Hgs
    by (apply chunk_by_groups, (sort_by_sorted _ lead), leading_compare_lead).
  assert (concat gs = s) as Hc by apply chunk_by_concat.
  assert (concat (sort_group key <$> gs) ≡ₚ s) as Hp.
  { rewrite <- Hc. clear. induction gs as [|g gs IH]; [done|]. cbn. rewrite IH.
    by rewrite (proj1 (sort_group_spec g)). }
  split; [|split].
  - rewrite Hp. apply sort_by_perm.
  - apply StronglySorted_concat.
    + apply Forall_fmap, Forall_forall. intros g Hg. cbn.
      destruct (sort_group_spec g) as (Hpg & Hsg & _).
      eapply StronglySorted_impl_elem; [|exact Hsg]. cbn. intros x y Hx Hy. rewrite Hpg in Hx, Hy.
      assert (group_frequencies items x = (fun row => (key row).2) <$> g) as Hf.
      { unfold group_frequencies. f_equal. rewrite <- filter_lead. fold s. rewrite <- Hc.
        by apply group_filter. }
      unfold rank_compare. rewrite leading_compare_lead, Hf.
      rewrite (proj2 (lead_eq x y)) by (by apply (groups_uniform _ Hgs g)).
      by rewrite lex_compare_refl.
    + destruct Hgs as [_ Hs]. clear -Hs. induction Hs as [|g gs Hs IH Hall]; cbn; constructor; [done|].
      rewrite Forall_forall in Hall. apply Forall_fmap, Forall_forall. intros g' Hg' x y Hx Hy.
      cbn in Hy. rewrite (proj1 (sort_group_spec g)) in Hx. rewrite (proj1 (sort_group_spec g')) in Hy.
      unfold rank_compare. by rewrite leading_compare_lead, (Hall g' Hg' x y Hx Hy).
  - intros k. transitivity (filter (fun y => key y = k) s).
    + rewrite <- Hc. clear. induction gs as [|g gs IH]; [done|]. cbn. rewrite !filter_app, IH.
      by rewrite (proj2 (proj2 (sort_group_spec g))).
    + rewrite <- (filter_filter_imp _ (fun y => lead y = [- Z.of_nat k.1.1; - k.1.2]%Z)) by (intros y <-; done).
      unfold s. rewrite (sort_by_stable _ lead) by apply leading_compare_lead.
      apply filter_filter_imp. by intros y <-.
Qed.
End ranked.

(** ** The swaps apply the order *)

Section placing.
Context {A K : Type} (c0 : list A) (keys : list (K * nat)) (n : nat).
Hypothesis length_c0 : length c0 = n.
Hypothesis keys_perm : snd <$> keys ≡ₚ seq 0 n.

(** Where an element was displaced to by the swaps before [i]. *)
Inductive chain (i : nat) (ks : list (K * nat)) : nat -> nat -> Prop :=
  | chain_here x : i <= x -> chain i ks x x
  | chain_hop x x' y : x < i -> snd <$> ks !! x = Some x' -> x < x' -> chain i ks x' y -> chain i ks x y.

Lemma follow_chain i ks x y fuel : chain i ks x y -> i - x <= fuel -> follow fuel ks i x = y.
Proof using All.
  intros H. revert fuel. induction H as [x Hx|x x' y Hx Hq Hlt _ IH]; intros fuel Hf.
  - destruct fuel as [|fuel]; [done|]. cbn [follow]. by rewrite (proj2 (Nat.ltb_ge _ _)).
  - destruct fuel as [|fuel]; [lia|]. cbn [follow]. rewrite (proj2 (Nat.ltb_lt _ _)) by done.
    rewrite Hq. cbn [default from_option id]. apply IH. lia.
Qed.

Record placed (i : nat) (cs : list A) (ks : list (K * nat)) (F : nat -> nat) : Prop := {
  placed_length : length cs = n /\ length ks = n;
  placed_fst : fst <$> ks = fst <$> keys;
  placed_rest k : i <= k -> ks !! k = keys !! k;
  placed_chain k p : i <= k -> snd <$> keys !! k = Some p -> chain i ks p (F k) /\ i <= F k < n;
  placed_value k p : i <= k -> snd <$> keys !! k = Some p -> cs !! F k = c0 !! p;
  placed_inj k k' : i <= k < n -> i <= k' < n -> F k = F k' -> k = k';
  placed_done j p : j < i -> snd <$> keys !! j = Some p -> cs !! j = c0 !! p
}.

Lemma keys_length : length keys = n.
Proof using All. apply Permutation_length in keys_perm. by rewrite length_fmap, length_seq in keys_perm. Qed.

Lemma keys_index k : k < n -> exists p, snd <$> keys !! k = Some p /\ p < n.
Proof using All.
  intros Hk. destruct (lookup_lt_is_Some_2 keys k) as [x Hx]; [by rewrite keys_length|]. exists x.2.
  rewrite Hx. split; [done|]. assert (x.2 ∈ snd <$> keys) as Hin
    by (apply list_elem_of_fmap; exists x; split; [done|by apply (list_elem_of_lookup_2 _ k)]).
  rewrite keys_perm in Hin. apply elem_of_seq in Hin. lia.
Qed.

Lemma chain_weaken i ks ks' x y :
  chain i ks x y -> (forall j, j < i -> ks' !! j = ks !! j) -> y <> i -> chain (S i) ks' x y.
Proof using All.
  intros H Hk Hy. induction H as [x Hx|x x' y Hx Hq Hlt _ IH]; [apply chain_here; lia|].
  apply (chain_hop _ _ x x'); [lia|by rewrite Hk|done|by apply IH].
Qed.

Lemma chain_through i ks ks' x y :
  chain i ks x i -> (forall j, j < i -> ks' !! j = ks !! j) ->
  snd <$> ks' !! i = Some y -> i < y -> chain (S i) ks' x y.
Proof using All.
  intros H Hk Hy Hlt. remember i as z eqn:Hz in H at 2. revert Hz.
  induction H as [x Hx|x x' z Hx Hq Hxx _ IH]; intros Hz.
  - subst x. apply (chain_hop _ _ i y); [lia|done|done|]. apply chain_here. lia.
  - apply (chain_hop _ _ x x'); [lia|by rewrite Hk|done|by apply IH].
Qed.

Lemma placed_step i cs ks F :
  i < n -> placed i cs ks F -> exists F', placed (S i) (place_step (cs, ks) i).1 (place_step (cs, ks) i).2 F'.
Proof using All.
  intros Hi H. destruct (keys_index i Hi) as (p & Hp & Hpn).
  destruct (placed_chain _ _ _ _ H i p ltac:(lia) Hp) as [Hch HFi].
  pose proof (placed_value _ _ _ _ H i p ltac:(lia) Hp) as HvFi.
  unfold place_step. cbn [fst snd]. rewrite (placed_rest _ _ _ _ H i) by lia. rewrite Hp. cbn [default from_option id].
  rewrite (follow_chain i ks p (F i)) by (done || lia).
  set (ks' := alter _ i ks). destruct (placed_length _ _ _ _ H) as [Hlc Hlk].
  destruct (lookup_lt_is_Some_2 cs i) as [xi Hxi]; [lia|].
  destruct (lookup_lt_is_Some_2 cs (F i)) as [xf Hxf]; [lia|].
  assert (forall j, j <> i -> ks' !! j = ks !! j) as Hks by (intros; by apply list_lookup_alter_ne).
  assert (snd <$> ks' !! i = Some (F i)) as Hksi.
  { unfold ks'. rewrite list_lookup_alter_eq. destruct (lookup_lt_is_Some_2 ks i) as [y Hy]; [lia|]. by rewrite Hy. }
  exists (fun k => if decide (F k = i) then F i else F k). split.
  - rewrite length_swap. unfold ks'. by rewrite length_alter.
  - rewrite <- (placed_fst _ _ _ _ H). unfold ks'. apply list_eq. intros j. rewrite !list_lookup_fmap.
    destruct (decide (j = i)) as [->|]; [|by rewrite list_lookup_alter_ne].
    rewrite list_lookup_alter_eq. by destruct (ks !! i).
  - intros k Hk. rewrite Hks by lia. apply (placed_rest _ _ _ _ H). lia.
  - intros k q Hk Hq. destruct (placed_chain _ _ _ _ H k q ltac:(lia) Hq) as [Hck HFk].
    assert (k < n) as Hkn. { destruct (keys !! k) eqn:E; [|done]. apply lookup_lt_Some in E. by rewrite keys_length in E. }
    case_decide as HF.
    + assert (F i <> i) by (intros E; pose proof (placed_inj _ _ _ _ H i k ltac:(lia) ltac:(lia) ltac:(congruence)); lia).
      split; [|lia]. rewrite HF in Hck. eapply chain_through; [exact Hck| |exact Hksi|lia]. intros. apply Hks. lia.
    + split; [|lia]. eapply chain_weaken; [exact Hck| |done]. intros. apply Hks. lia.
  - intros k q Hk Hq. assert (k < n) as Hkn.
    { destruct (keys !! k) eqn:E; [|done]. apply lookup_lt_Some in E. by rewrite keys_length in E. }
    pose proof (placed_value _ _ _ _ H k q ltac:(lia) Hq) as Hv. rewrite (swap_lookup _ _ _ _ _ _ Hxi Hxf).
    destruct (decide (F k = i)) as [HF|HF].
    + assert (F i <> i) by (intros E; pose proof (placed_inj _ _ _ _ H i k ltac:(lia) ltac:(lia) ltac:(congruence)); lia).
      rewrite decide_False, decide_True by done. by rewrite <- Hv, HF.
    + rewrite decide_False by done. rewrite decide_False; [done|].
      intros E. pose proof (placed_inj _ _ _ _ H k i ltac:(lia) ltac:(lia) E). lia.
  - intros k k' Hk Hk' E.
    assert (forall a b, S i <= a < n -> F a = i -> F b = F i -> S i <= b < n -> False) as Hx.
    { intros a b Ha Hai Hbi Hb. pose proof (placed_inj _ _ _ _ H b i ltac:(lia) ltac:(lia) Hbi). lia. }
    do 2 case_decide; [|by destruct (Hx k k')|by destruct (Hx k' k)|];
      apply (placed_inj _ _ _ _ H); try lia; congruence.
  - intros j q Hj Hq. rewrite (swap_lookup _ _ _ _ _ _ Hxi Hxf). destruct (decide (j = i)) as [->|].
    + rewrite Hq in Hp. injection Hp as ->. by rewrite <- Hxf.
    + rewrite decide_False by lia. apply (placed_done _ _ _ _ H); [lia|done].
Qed.
End placing.

Lemma place_all_applies {A K} (c0 : list A) (keys : list (K * nat)) :
  snd <$> keys ≡ₚ seq 0 (length c0) ->
  let r := place_all c0 keys in
  length r.1 = length c0 /\ fst <$> r.2 = fst <$> keys /\
  forall j p, snd <$> keys !! j = Some p -> r.1 !! j = c0 !! p.
Proof.
  intros Hp. set (n := length c0) in *.
  assert (length keys = n) as Hlen by (apply Permutation_length in Hp; by rewrite length_fmap, length_seq in Hp).
  assert (forall m, m <= n -> exists F, placed c0 keys n m
    (fold_left place_step (seq 0 m) (c0, keys)).1 (fold_left place_step (seq 0 m) (c0, keys)).2 F) as H.
  { induction m as [|m IH]; intros Hm.
    - exists (fun k => default 0 (snd <$> keys !! k)). cbn [seq fold_left fst snd]. split; [done..| | | |].
      + intros k p _ Hk. rewrite Hk. cbn. split; [by apply chain_here; lia|].
        destruct (keys !! k) as [x|] eqn:E; [|done]. injection Hk as <-. split; [lia|].
        assert (x.2 ∈ snd <$> keys) as Hin
          by (apply list_elem_of_fmap; exists x; split; [done|by apply (list_elem_of_lookup_2 _ k)]).
        rewrite Hp in Hin. apply elem_of_seq in Hin. lia.
      + intros k p _ Hk. by rewrite Hk.
      + intros k k' [_ Hk] [_ Hk'].
        destruct (lookup_lt_is_Some_2 keys k) as [x Hx]; [lia|].
        destruct (lookup_lt_is_Some_2 keys k') as [y Hy]; [lia|]. rewrite Hx, Hy. cbn. intros E.
        assert (NoDup (snd <$> keys)) as Hnd by (rewrite Hp; apply NoDup_seq).
        apply (NoDup_lookup _ _ _ x.2 Hnd); rewrite list_lookup_fmap, ?Hx, ?Hy; cbn; congruence.
      + intros; lia.
    - destruct (IH ltac:(lia)) as [F HF]. rewrite seq_S, fold_left_app. cbn [fold_left Nat.add].
      destruct (fold_left place_step (seq 0 m) (c0, keys)) as [cs ks]. by eapply placed_step. }
  destruct (H n ltac:(lia)) as [F HF]. unfold place_all. rewrite Hlen.
  destruct (fold_left place_step (seq 0 n) (c0, keys)) as [cs ks]. cbn [fst snd] in *.
  split; [apply (placed_length _ _ _ _ _ _ _ HF)|]. split; [apply (placed_fst _ _ _ _ _ _ _ HF)|].
  intros j p Hj. apply (placed_done _ _ _ _ _ _ _ HF); [|done].
  destruct (keys !! j) eqn:E; [|done]. apply lookup_lt_Some in E. lia.
Qed.

(** ** One row a text *)

Section dedup.
Context (rows : list (RankKey * Candidate)).
Hypothesis texts_ok : Forall (fun r => text_ok (cand_text r.2)) rows.

Definition words_of (c : Candidate) : list Z := outward_words (cand_text c).

(** Row [i] has the largest frequency of its text, and is the first with it. *)
Definition survives (i : nat) : Prop :=
  exists x, rows !! i = Some x /\
    forall j y, rows !! j = Some y -> words_of y.2 = words_of x.2 ->
      (j < i -> (m_freq y.1 < m_freq x.1)%Z) /\ (i < j -> (m_freq y.1 <= m_freq x.1)%Z).

(** The same among the rows before [m]. *)
Definition survives_in (m i : nat) : Prop :=
  i < m /\ exists x, rows !! i = Some x /\
    forall j y, j < m -> rows !! j = Some y -> words_of y.2 = words_of x.2 ->
      (j < i -> (m_freq y.1 < m_freq x.1)%Z) /\ (i < j -> (m_freq y.1 <= m_freq x.1)%Z).

Lemma rows_text_eq i j x y :
  rows !! i = Some x -> rows !! j = Some y ->
  text_eq (cand_text x.2) (cand_text y.2) = bool_decide (words_of x.2 = words_of y.2).
Proof using texts_ok.
  intros Hx Hy. rewrite Forall_lookup in texts_ok. apply text_eq_outward; eauto.
Qed.

Lemma survives_in_succ m j :
  j < m -> survives_in (S m) j <->
  survives_in m j /\ forall x y, rows !! j = Some x -> rows !! m = Some y ->
    words_of y.2 = words_of x.2 -> (m_freq y.1 <= m_freq x.1)%Z.
Proof using Type.
  intros Hj. split.
  - intros [_ (x & Hx & H)]. split.
    + split; [done|]. exists x. split; [done|]. intros k y Hk. apply H. lia.
    + intros x' y Hx' Hy Hw. replace x' with x in * by congruence. apply (H m y); [lia|done|done|lia].
  - intros [[_ (x & Hx & H)] Hm]. split; [lia|]. exists x. split; [done|]. intros k y Hk Hy Hw.
    destruct (decide (k = m)) as [->|]; [|apply H; [lia|done|done]].
    split; [lia|]. intros _. by apply Hm.
Qed.

Lemma survives_in_best m i x j y :
  survives_in m i -> rows !! i = Some x -> j < m -> rows !! j = Some y -> words_of y.2 = words_of x.2 ->
  (m_freq y.1 <= m_freq x.1)%Z.
Proof using Type.
  intros [_ (x' & Hx' & H)] Hx Hj Hy Hw. replace x' with x in * by congruence.
  destruct (H j y Hj Hy Hw) as [H1 H2]. destruct (lt_eq_lt_dec j i) as [[Hlt| ->]|Hgt].
  - specialize (H1 Hlt). lia.
  - replace y with x by congruence. lia.
  - by apply H2.
Qed.

Lemma survives_in_unique m i j x y :
  survives_in m i -> survives_in m j -> rows !! i = Some x -> rows !! j = Some y ->
  words_of y.2 = words_of x.2 -> i = j.
Proof using Type.
  intros Hi Hj Hx Hy Hw. pose proof (survives_in_best _ _ _ _ _ Hi Hx (proj1 Hj) Hy Hw) as H1.
  destruct Hi as [Hi (x' & Hx' & H)], Hj as [Hj (y' & Hy' & H')].
  replace x' with x in * by congruence. replace y' with y in * by congruence.
  destruct (lt_eq_lt_dec i j) as [[Hlt|]|Hgt]; [|done|].
  - pose proof (proj1 (H' i x Hi Hx (eq_sym Hw)) Hlt). lia.
  - pose proof (proj1 (H j y Hj Hy Hw) Hgt). pose proof (proj2 (H' i x Hi Hx (eq_sym Hw)) Hgt). lia.
Qed.

Record dedup_inv (m : nat) (keep : list bool) (survivor : list (PhraseText * nat)) : Prop := {
  inv_keep_length : length keep = length rows;
  inv_keep j : j < length rows -> keep !! j = Some true <-> (j < m -> survives_in m j);
  inv_entry e : e ∈ survivor -> survives_in m e.2 /\ text_ok e.1 /\
    forall x, rows !! e.2 = Some x -> words_of x.2 = outward_words e.1;
  inv_present j x : j < m -> rows !! j = Some x ->
    exists e, e ∈ survivor /\ outward_words e.1 = words_of x.2
}.

Lemma text_entry_spec survivor text :
  Forall (fun e => text_ok e.1) survivor -> text_ok text ->
  match text_entry survivor text with
  | Some i => exists e, e ∈ survivor /\ e.2 = i /\ outward_words e.1 = outward_words text
  | None => forall e, e ∈ survivor -> outward_words e.1 <> outward_words text
  end.
Proof using Type.
  intros Hs Ht. unfold text_entry. induction Hs as [|e survivor He Hs IH]; cbn [List.find fmap option_fmap option_map].
  { by intros e ?%elem_of_nil. }
  rewrite text_eq_outward by done. case_bool_decide as Hw.
  - exists e. split; [apply list_elem_of_here|done].
  - destruct (snd <$> List.find _ survivor) as [i|].
    + destruct IH as (e' & Hin & H). exists e'. split; [by apply list_elem_of_further|done].
    + intros e' [->|Hin]%elem_of_cons; [done|by apply IH].
Qed.

Lemma elem_of_set_survivor survivor text i e :
  Forall (fun e => text_ok e.1) survivor -> text_ok text ->
  e ∈ set_survivor survivor text i <->
  exists e', e' ∈ survivor /\ e.1 = e'.1 /\
    e.2 = if decide (outward_words e'.1 = outward_words text) then i else e'.2.
Proof using Type.
  intros Hs Ht. unfold set_survivor. rewrite list_elem_of_fmap. rewrite Forall_forall in Hs. split.
  - intros (e' & -> & Hin). exists e'. split; [done|]. rewrite text_eq_outward by auto.
    case_bool_decide; case_decide; done.
  - intros (e' & Hin & H1 & H2). exists e'. split; [|done]. rewrite text_eq_outward by auto.
    destruct e as [t j], e' as [t' j']. cbn in *. subst. case_bool_decide; case_decide; done.
Qed.

(** A row whose text has not been seen. *)
Lemma dedup_new m x keep survivor :
  rows !! m = Some x -> dedup_inv m keep survivor ->
  (forall e, e ∈ survivor -> outward_words e.1 <> words_of x.2) ->
  dedup_inv (S m) keep (survivor ++ [(cand_text x.2, m)]).
Proof using texts_ok.
  intros Hx [Hl Hk He Hp] Hnew.
  assert (forall j y, j < m -> rows !! j = Some y -> words_of y.2 <> words_of x.2) as Hne.
  { intros j y Hj Hy E. destruct (Hp j y Hj Hy) as (e & Hin & Hw). apply (Hnew e Hin). congruence. }
  assert (forall j, j < m -> survives_in (S m) j <-> survives_in m j) as Hs.
  { intros j Hj. rewrite survives_in_succ by done. split; [by intros [? _]|]. intros H. split; [done|].
    intros y x' Hy Hx' E. replace x' with x in * by congruence. by destruct (Hne j y Hj Hy). }
  assert (survives_in (S m) m) as Hm.
  { split; [lia|]. exists x. split; [done|]. intros j y Hj Hy E. destruct (decide (j = m)); [lia|].
    by destruct (Hne j y ltac:(lia) Hy). }
  assert (text_ok (cand_text x.2)) as Hok by (rewrite Forall_lookup in texts_ok; eauto).
  split; [done| | |].
  - intros j Hj. rewrite (Hk j Hj). destruct (decide (j = m)) as [->|].
    + split; [intros _ _; done|intros _; lia].
    + split; intros H Hj'; (apply Hs; [lia|]) || apply Hs; try apply H; lia.
  - intros e [Hin|Hin]%elem_of_app.
    + destruct (He e Hin) as (H1 & H2 & H3). split; [|done]. apply Hs; [apply H1|done].
    + apply list_elem_of_singleton in Hin as ->. cbn. split; [done|]. split; [done|].
      intros x' Hx'. replace x' with x by congruence. done.
  - intros j y Hj Hy. destruct (decide (j = m)) as [->|].
    + exists (cand_text x.2, m). split; [apply elem_of_app; right; by apply list_elem_of_singleton|].
      replace y with x by congruence. done.
    + destruct (Hp j y ltac:(lia) Hy) as (e & Hin & Hw). exists e. split; [apply elem_of_app; by left|done].
Qed.

(** A row that beats the one held for its text. *)
Lemma dedup_beats m x held y keep survivor :
  rows !! m = Some x -> rows !! held = Some y -> survives_in m held -> words_of y.2 = words_of x.2 ->
  (m_freq y.1 < m_freq x.1)%Z -> dedup_inv m keep survivor ->
  dedup_inv (S m) (<[held := false]> keep) (set_survivor survivor (cand_text x.2) m).
Proof using texts_ok.
  intros Hx Hy Hheld Hwy Hlt [Hl Hk He Hp].
  assert (text_ok (cand_text x.2)) as Hok by (rewrite Forall_lookup in texts_ok; eauto).
  assert (Forall (fun e => text_ok e.1) survivor) as Hoks
    by (apply Forall_forall; intros e Hin; apply (He e Hin)).
  assert (m < length rows) as Hm by by apply lookup_lt_Some in Hx.
  assert (survives_in (S m) m) as Hsm.
  { split; [lia|]. exists x. split; [done|]. intros j z Hj Hz E. split; [|lia]. intros Hjm.
    pose proof (survives_in_best _ _ _ _ _ Hheld Hy Hjm Hz ltac:(congruence)). lia. }
  assert (forall j, j < m -> survives_in (S m) j <-> survives_in m j /\ j <> held) as Hs.
  { intros j Hj. rewrite survives_in_succ by done. split.
    - intros [H1 H2]. split; [done|]. intros ->. specialize (H2 y x Hy Hx ltac:(congruence)). lia.
    - intros [H1 H2]. split; [done|]. intros z x' Hz Hx' E. replace x' with x in * by congruence.
      destruct H2. apply (survives_in_unique m j held z y); [done..|congruence]. }
  split; [by rewrite length_insert| | |].
  - intros j Hj. destruct (decide (j = held)) as [->|Hne].
    + rewrite list_lookup_insert_eq by lia. split; [done|]. intros H.
      destruct Hheld as [Hh _]. specialize (H ltac:(lia)). apply Hs in H as [_ ?]; [done|done].
    + rewrite list_lookup_insert_ne, (Hk j Hj) by done. destruct (decide (j = m)) as [->|].
      * split; [intros _ _; done|intros _; lia].
      * split; intros H Hj'.
        -- apply Hs; [lia|]. split; [apply H; lia|done].
        -- apply Hs; [lia|]. apply H. lia.
  - intros e Hin. apply elem_of_set_survivor in Hin as (e' & Hin & H1 & H2); [|done..].
    destruct (He e' Hin) as (Hs' & Hok' & Hw'). rewrite H1, H2. case_decide as E.
    + split; [done|]. split; [done|]. intros x' Hx'. replace x' with x by congruence. by symmetry.
    + split; [|done]. apply Hs; [apply Hs'|]. split; [done|]. intros E'. apply E.
      rewrite <- (Hw' y) by by rewrite E'. done.
  - intros j z Hj Hz.
    assert (exists e, e ∈ survivor /\ outward_words e.1 = words_of z.2) as (e & Hin & Hw).
    { destruct (decide (j = m)) as [->|]; [|apply (Hp j); [lia|done]].
      replace z with x by congruence. destruct Hheld as [Hh _].
      destruct (Hp held y Hh Hy) as (e & Hin & Hw). exists e. split; [done|congruence]. }
    exists (e.1, if decide (outward_words e.1 = outward_words (cand_text x.2)) then m else e.2).
    split; [|done]. apply elem_of_set_survivor; [done..|]. by exists e.
Qed.

(** A row that does not beat it. *)
Lemma dedup_loses m x held y keep survivor :
  rows !! m = Some x -> rows !! held = Some y -> survives_in m held -> words_of y.2 = words_of x.2 ->
  (m_freq x.1 <= m_freq y.1)%Z -> dedup_inv m keep survivor ->
  dedup_inv (S m) (<[m := false]> keep) survivor.
Proof using Type.
  intros Hx Hy Hheld Hwy Hle [Hl Hk He Hp].
  assert (m < length rows) as Hm by by apply lookup_lt_Some in Hx.
  assert (forall j, j < m -> survives_in (S m) j <-> survives_in m j) as Hs.
  { intros j Hj. rewrite survives_in_succ by done. split; [by intros [? _]|]. intros H. split; [done|].
    intros z x' Hz Hx' E. replace x' with x in * by congruence.
    assert (j = held) as -> by (apply (survives_in_unique m j held z y); [done..|congruence]).
    replace z with y by congruence. done. }
  split; [by rewrite length_insert| | |].
  - intros j Hj. destruct (decide (j = m)) as [->|Hne].
    + rewrite list_lookup_insert_eq by lia. split; [done|]. intros H.
      destruct (H ltac:(lia)) as [_ (x' & Hx' & Hb)]. replace x' with x in * by congruence.
      destruct Hheld as [Hh _]. pose proof (proj1 (Hb held y ltac:(lia) Hy Hwy) Hh). lia.
    + rewrite list_lookup_insert_ne, (Hk j Hj) by done.
      split; intros H Hj'; apply Hs; try apply H; lia.
  - intros e Hin. destruct (He e Hin) as (H1 & H2). split; [|done]. apply Hs; [apply H1|done].
  - intros j z Hj Hz. destruct (decide (j = m)) as [->|]; [|apply (Hp j); [lia|done]].
    replace z with x by congruence. destruct Hheld as [Hh _].
    destruct (Hp held y Hh Hy) as (e & Hin & Hw). exists e. split; [done|congruence].
Qed.
End dedup.

Lemma retain_mask_index {A} (keep : list bool) (l : list A) :
  length keep = length l ->
  retain_mask keep l = omap (fun i => l !! i) (filter (fun i => keep !! i = Some true) (seq 0 (length l))).
Proof.
  unfold retain_mask. revert keep. induction l as [|x l IH]; intros [|b keep] Hl; try done.
  cbn [zip zip_with length seq]. rewrite !filter_cons. cbn [lookup list_lookup snd].
  assert (fst <$> filter (fun y : A * bool => y.2 = true) (zip l keep) =
    omap (fun i => (x :: l) !! i) (filter (fun i => (b :: keep) !! i = Some true) (seq 1 (length l)))) as E.
  { rewrite IH by (injection Hl; done). rewrite <- fmap_S_seq. rewrite filter_fmap_comp, omap_fmap. done. }
  destruct b; cbn [fmap list_fmap omap list_omap lookup list_lookup].
  - rewrite decide_True by done. rewrite decide_True by done. cbn. by rewrite E.
  - rewrite !decide_False by done. exact E.
Qed.

(** [dedup_ranked_by_text] keeps exactly the surviving rows, in order. *)
Lemma dedup_ranked_survivors (ranked : list Candidate) (keys : list (RankKey * nat)) :
  length keys = length ranked -> Forall (fun c => text_ok (cand_text c)) ranked ->
  exists idx, StronglySorted lt idx /\
    (forall i, i ∈ idx <-> survives (zip (fst <$> keys) ranked) i) /\
    (forall c, c ∈ ranked -> exists i d, i ∈ idx /\ ranked !! i = Some d /\ words_of d = words_of c) /\
    NoDup (words_of <$> omap (fun i => ranked !! i) idx) /\
    dedup_ranked_by_text ranked keys = omap (fun i => ranked !! i) idx.
Proof.
  intros Hl Hok. set (rows := zip (fst <$> keys) ranked).
  assert (length rows = length ranked) as Hlr by (unfold rows; rewrite length_zip_with, length_fmap; lia).
  assert (Forall (fun r => text_ok (cand_text r.2)) rows) as Hrok.
  { apply Forall_forall. intros r [i Hi]%list_elem_of_lookup. unfold rows in Hi.
    rewrite lookup_zip_with in Hi. apply bind_Some in Hi as (k & Hk & Hi).
    apply bind_Some in Hi as (c & Hc & [= <-]). cbn. rewrite Forall_lookup in Hok. eauto. }
  set (all := zip (zip (seq 0 (length ranked)) keys) ranked).
  assert (length all = length ranked) as Hla
    by (unfold all; rewrite !length_zip_with, length_seq; lia).
  assert (forall m, m <= length ranked ->
    let st := fold_left (dedup_step keys) (take m all) (replicate (length ranked) true, []) in
    dedup_inv rows m st.1 st.2) as Hinv.
  { induction m as [|m IH]; intros Hm.
    - rewrite take_0. cbn [fold_left]. cbv zeta. split; cbn [fst snd].
      + by rewrite length_replicate.
      + intros j Hj. rewrite lookup_replicate_2 by lia. split; [lia|done].
      + by intros e ?%elem_of_nil.
      + lia.
    - destruct (lookup_lt_is_Some_2 keys m) as [k Hk]; [lia|].
      destruct (lookup_lt_is_Some_2 ranked m) as [c Hc]; [lia|].
      assert (all !! m = Some (m, k, c)) as Ha.
      { unfold all. rewrite !lookup_zip_with, lookup_seq_lt by lia. cbn. by rewrite Hk, Hc. }
      assert (rows !! m = Some (k.1, c)) as Hr.
      { unfold rows. rewrite lookup_zip_with, list_lookup_fmap, Hk. cbn. by rewrite Hc. }
      rewrite (take_S_r all m (m, k, c)) by done. rewrite fold_left_app. cbn [fold_left].
      specialize (IH ltac:(lia)). cbv zeta in IH |- *.
      destruct (fold_left (dedup_step keys) (take m all) _) as [keep survivor]. cbn [fst snd] in IH.
      unfold dedup_step. destruct k as [k ki]. cbn [fst] in Hr.
      assert (Forall (fun e => text_ok e.1) survivor) as Hoks
        by (apply Forall_forall; intros e Hin; apply (inv_entry _ _ _ _ IH e Hin)).
      assert (text_ok (cand_text c)) as Hokc by (rewrite Forall_lookup in Hok; eauto).
      pose proof (text_entry_spec survivor (cand_text c) Hoks Hokc) as Hte.
      destruct (text_entry survivor (cand_text c)) as [held|].
      2: { apply (dedup_new rows Hrok m (k, c)); done. }
      destruct Hte as (e & Hin & <- & Hw). destruct (inv_entry _ _ _ _ IH e Hin) as (Hs & _ & Hwe).
      destruct Hs as [Hlt (y & Hy & Hbest)].
      assert (survives_in rows m e.2) as Hs by (split; [done|by exists y]).
      assert ((m_freq ∘ fst) <$> keys !! e.2 = Some (m_freq y.1)) as Hky.
      { unfold rows in Hy. rewrite lookup_zip_with in Hy. apply bind_Some in Hy as (ky & Hky & Hy).
        apply bind_Some in Hy as (cy & _ & [= <-]). rewrite list_lookup_fmap in Hky.
        destruct (keys !! e.2) as [k'|]; [|done]. cbn in *. congruence. }
      rewrite Hky. cbn [default from_option id].
      assert (words_of y.2 = words_of c) as Hwy by (rewrite (Hwe y Hy); done).
      destruct (Z.ltb_spec (m_freq y.1) (m_freq k)); cbn [fst snd].
      + apply (dedup_beats rows Hrok m (k, c) e.2 y); done.
      + apply (dedup_loses rows m (k, c) e.2 y); done. }
  specialize (Hinv (length ranked) ltac:(lia)). rewrite take_ge in Hinv by lia.
  unfold dedup_ranked_by_text. fold all.
  destruct (fold_left (dedup_step keys) all _) as [keep survivor]. cbn [fst snd] in Hinv. cbv zeta in Hinv.
  exists (filter (fun i => keep !! i = Some true) (seq 0 (length ranked))).
  assert (forall i c, ranked !! i = Some c -> exists k, rows !! i = Some (k, c)) as Hrow.
  { intros i c Hc. apply lookup_lt_Some in Hc as Hi.
    destruct (lookup_lt_is_Some_2 keys i) as [k Hk]; [lia|]. exists k.1.
    unfold rows. rewrite lookup_zip_with, list_lookup_fmap, Hk. cbn. by rewrite Hc. }
  assert (forall i k c, rows !! i = Some (k, c) -> ranked !! i = Some c) as Hcol.
  { intros i k c Hi. unfold rows in Hi. rewrite lookup_zip_with in Hi.
    apply bind_Some in Hi as (k' & _ & Hi). apply bind_Some in Hi as (c' & Hc & [= _ <-]). done. }
  assert (forall i, survives rows i <-> survives_in rows (length ranked) i) as Hsurv.
  { intros i. split.
    - intros (x & Hx & H). apply lookup_lt_Some in Hx as Hi. split; [lia|]. exists x. split; [done|].
      intros j y _ Hy. by apply H.
    - intros [_ (x & Hx & H)]. exists x. split; [done|]. intros j y Hy. apply H; [|done].
      apply lookup_lt_Some in Hy. lia. }
  set (idx := filter _ _). assert (forall i, i ∈ idx <-> survives rows i) as Hidx.
  { intros i. unfold idx. rewrite list_elem_of_filter, elem_of_seq, Hsurv. split.
    - intros [Hk [_ Hi]]. exact (proj1 (inv_keep _ _ _ _ Hinv i ltac:(lia)) Hk Hi).
    - intros H. assert (i < length ranked) as Hi by apply H. split; [|lia].
      apply (inv_keep _ _ _ _ Hinv i ltac:(lia)). by intros _. }
  split; [apply filter_seq_sorted|]. split; [done|]. split; [|split].
  - intros c [i Hc]%list_elem_of_lookup. destruct (Hrow i c Hc) as [k Hi]. apply lookup_lt_Some in Hc as Hl'.
    destruct (inv_present _ _ _ _ Hinv i (k, c) Hl' Hi) as (e & Hin & Hw).
    destruct (inv_entry _ _ _ _ Hinv e Hin) as (Hs & _ & Hwe). pose proof Hs as [_ ([k' d] & Hd & _)].
    exists e.2, d. split; [by apply Hidx, Hsurv|]. split; [by eapply Hcol|]. specialize (Hwe _ Hd). cbn in Hwe, Hw. congruence.
  - assert (words_of <$> omap (fun i => ranked !! i) idx = omap (fun i => words_of <$> ranked !! i) idx) as ->.
    { clear. induction idx as [|i idx IH]; [done|]. cbn. destruct (ranked !! i); cbn; by rewrite ?fmap_cons, IH. }
    apply NoDup_omap_inj; [|apply NoDup_filter, NoDup_seq].
    intros i j w Hi%Hidx%Hsurv Hj%Hidx%Hsurv Hwi Hwj.
    destruct (ranked !! i) as [c|] eqn:Hc; [|done]. destruct (ranked !! j) as [d|] eqn:Hd; [|done].
    injection Hwi as Hwi. injection Hwj as Hwj.
    destruct (Hrow i c Hc) as [k Hki]. destruct (Hrow j d Hd) as [k' Hkj].
    apply (survives_in_unique rows _ i j (k, c) (k', d) Hi Hj Hki Hkj). cbn. congruence.
  - apply retain_mask_index. rewrite (inv_keep_length _ _ _ _ Hinv). done.
Qed.

(** ** The ranked rows of a refresh *)

Definition rank_fields (k : RankKey) : nat * Z * Z := (rank_length k, pinyin_span k, frequency k).

Definition keyed_rows (rank_word : Z) (collected : list Candidate) (frequencies : list Z)
    : list (RankKey * Candidate) :=
  (fun row => (for_sort_word (cand_phrase_length row.1) (Z.to_nat (consumed_bytes row.1)) row.2 rank_word,
               row.1)) <$> zip collected frequencies.

(** The rows in rank order, each under its key. *)
Definition rank_ordered (rows ranked : list (RankKey * Candidate)) : Prop :=
  ranked ≡ₚ rows /\
  StronglySorted (fun x y => rank_compare (rank_fields ∘ fst) rows x y <> Gt) ranked /\
  forall t, filter (fun x => rank_fields x.1 = t) ranked = filter (fun x => rank_fields x.1 = t) rows.

Lemma rank_compare_fmap {S T} (g : S -> T) (key : T -> nat * Z * Z) (items : list S) x y :
  rank_compare key (g <$> items) (g x) (g y) = rank_compare (key ∘ g) items x y.
Proof.
  unfold rank_compare, group_frequencies, leading_compare. cbn.
  rewrite filter_fmap_comp, <- list_fmap_compose. done.
Qed.

Lemma rank_candidates_ordered rank_word collected frequencies :
  length frequencies = length collected ->
  let r := rank_candidates collected (rank_keys rank_word collected frequencies) in
  length r.1 = length collected /\ length r.2 = length collected /\
  rank_ordered (keyed_rows rank_word collected frequencies) (zip (fst <$> r.2) r.1).
Proof.
  intros Hl. destruct collected as [|c0 collected']; [repeat split; constructor|].
  set (collected := c0 :: collected') in *. set (keys := rank_keys rank_word collected frequencies).
  set (K := fun k : RankKey * nat => (rank_length k.1, pinyin_span k.1, frequency k.1)).
  destruct (rank_by_frequency_sorts K keys) as (Hp & Hs & Hst).
  unfold rank_candidates. fold K. set (P := rank_by_frequency K keys) in *.
  assert (snd <$> keys = seq 0 (length collected)) as Hsnd.
  { unfold keys, rank_keys. apply list_eq. intros i. rewrite !list_lookup_fmap, !lookup_zip_with.
    destruct (decide (i < length collected)) as [Hi|Hi].
    - rewrite lookup_seq_lt by done. destruct (lookup_lt_is_Some_2 collected i Hi) as [c Hc].
      destruct (lookup_lt_is_Some_2 frequencies i) as [f Hf]; [lia|]. by rewrite Hc, Hf.
    - rewrite lookup_seq_ge by lia. done. }
  assert (snd <$> P ≡ₚ seq 0 (length collected)) as HpP by (by rewrite Hp, Hsnd).
  destruct (place_all_applies collected P HpP) as (Hlc & Hfst & Hval). cbv zeta.
  set (r := place_all collected P) in *.
  assert (length P = length collected) as HlP
    by (apply Permutation_length in HpP; by rewrite length_fmap, length_seq in HpP).
  assert (length r.2 = length collected) as Hl2 by (rewrite <- (length_fmap fst), Hfst, length_fmap; done).
  split; [done|]. split; [done|].
  set (g := fun k : RankKey * nat => (k.1, default c0 (collected !! k.2))).
  assert (zip (fst <$> r.2) r.1 = g <$> P) as ->.
  { rewrite Hfst. apply list_eq. intros i. rewrite lookup_zip_with, !list_lookup_fmap.
    destruct (P !! i) as [k|] eqn:Hk; [|done].
    cbn [mbind option_bind fmap option_fmap option_map fst]. rewrite (Hval i k.2) by (by rewrite Hk).
    destruct (lookup_lt_is_Some_2 collected k.2) as [c Hc].
    { assert (k.2 ∈ snd <$> P) as Hin
        by (apply list_elem_of_fmap; exists k; split; [done|by apply (list_elem_of_lookup_2 _ i)]).
      rewrite HpP in Hin. apply elem_of_seq in Hin. lia. }
    unfold g. by rewrite Hc. }
  assert (keyed_rows rank_word collected frequencies = g <$> keys) as ->.
  { unfold keyed_rows, keys, rank_keys. apply list_eq. intros i.
    rewrite !list_lookup_fmap, !lookup_zip_with. destruct (decide (i < length collected)) as [Hi|Hi].
    - rewrite lookup_seq_lt by done. destruct (lookup_lt_is_Some_2 collected i Hi) as [c Hc].
      destruct (lookup_lt_is_Some_2 frequencies i) as [f Hf]; [lia|].
      rewrite Hc, Hf. cbn [mbind option_bind fmap option_fmap option_map Nat.add fst snd]. unfold g. cbn [fst snd]. by rewrite Hc.
    - rewrite lookup_seq_ge by lia. rewrite (lookup_ge_None_2 collected) by lia. done. }
  split; [by rewrite Hp|]. split.
  - eapply StronglySorted_fmap; [|exact Hs]. intros x y. cbn. by rewrite rank_compare_fmap.
  - intros t. rewrite !filter_fmap_comp. f_equal. apply Hst.
Qed.

(** C5. The rows a refresh offers. The collected rows are put in the one
    stable order of their keys: phrase length and span, descending, as far as
    the sort word enables them, then the guarded frequency of their group. The
    LONGER row goes first. Then each text is kept once, as its first row of
    largest frequency, and the rows kept stay in order. *)
Theorem refreshed_rows rank_word collected frequencies longer :
  length frequencies = length collected ->
  Forall (fun c => text_ok (cand_text c)) (option_list (snd <$> longer) ++ collected) ->
  exists ranked idx,
    let all := option_list longer ++ ranked in
    let shown := ranked_rows rank_word collected frequencies longer in
    rank_ordered (keyed_rows rank_word collected frequencies) ranked /\
    StronglySorted lt idx /\ (forall i, i ∈ idx <-> survives all i) /\
    shown = omap (fun i => snd <$> all !! i) idx /\
    NoDup (words_of <$> shown) /\
    (forall c, c ∈ option_list (snd <$> longer) ++ collected ->
       exists d, d ∈ shown /\ words_of d = words_of c).
Proof.
  intros Hl Hok. destruct (rank_candidates_ordered rank_word collected frequencies Hl) as (L1 & L2 & Hr).
  unfold ranked_rows. set (r := rank_candidates collected _) in *.
  assert (r.1 ≡ₚ collected) as Hp.
  { destruct Hr as [Hr _]. apply (fmap_Permutation snd) in Hr.
    rewrite snd_zip in Hr by (rewrite length_fmap; lia). rewrite Hr. unfold keyed_rows.
    rewrite <- list_fmap_compose. cbn. change (snd ∘ _) with (@fst Candidate Z).
    rewrite fst_zip by lia. done. }
  destruct r as [cs ks]. cbn [fst snd] in *. set (ranked := zip (fst <$> ks) cs) in *.
  set (keys := match longer with Some (key, _) => (key, 0) :: ks | None => ks end).
  set (shown := option_list (snd <$> longer) ++ cs).
  assert (length keys = length shown) as HL
    by (unfold keys, shown; destruct longer as [[key row]|]; cbn; lia).
  assert (zip (fst <$> keys) shown = option_list longer ++ ranked) as Hz
    by (unfold keys, shown; by destruct longer as [[key row]|]).
  destruct (dedup_ranked_survivors shown keys HL) as (idx & Hs & Hi & Hc & Hn & He).
  { unfold shown. by rewrite Hp. }
  assert ((match longer with
           | Some (key, row) => dedup_ranked_by_text (row :: cs) ((key, 0) :: ks)
           | None => dedup_ranked_by_text cs ks
           end) = omap (fun i => shown !! i) idx) as ->
    by (rewrite <- He; unfold keys, shown; by destruct longer as [[key row]|]).
  exists ranked, idx. rewrite Hz in Hi.
  assert (forall i, shown !! i = snd <$> (option_list longer ++ ranked) !! i) as Hsh.
  { intros i. rewrite <- Hz, <- list_lookup_fmap, snd_zip by (rewrite length_fmap; lia). done. }
  split; [done|]. split; [done|]. split; [done|]. split; [|split; [done|]].
  - apply omap_ext_in. intros i _. apply Hsh.
  - intros c Hin. destruct (Hc c) as (i & d & Hii & Hd & Hw); [unfold shown; by rewrite Hp|].
    exists d. split; [|done]. apply list_elem_of_omap. by exists i.
Qed.

Lemma refreshed_rows_witness :
  let row (c token : Z) := candidate_new (Scalar [c]) Phrase 1 2 0 (Some token) None in
  let collected := [row 20320 1; row 22909 2; row 20320 3]%Z in
  let shown := ranked_rows 28 collected [3; 5; 4]%Z None in
  cand_token <$> shown = [Some 2; Some 3]%Z /\
  NoDup (words_of <$> shown) /\ forall c, c ∈ collected -> exists d, d ∈ shown /\ words_of d = words_of c.
Proof.
  intros row collected shown. split; [vm_compute; reflexivity|].
  destruct (refreshed_rows 28 collected [3; 5; 4]%Z None eq_refl) as (ranked & idx & H).
  { repeat constructor. }
  cbv zeta in H. destruct H as (_ & _ & _ & _ & Hn & Hc). split; [exact Hn|exact Hc].
Defined.

(** [dedup_by_text_keep_first] keeps the first row of each text. *)
Lemma keep_first_survivors (candidates : list Candidate) :
  Forall (fun c => text_ok (cand_text c)) candidates ->
  dedup_by_text_keep_first candidates =
    omap (fun i => candidates !! i)
      (filter (fun i => words_of <$> candidates !! i ∉ (fun c => Some (words_of c)) <$> take i candidates)
         (seq 0 (length candidates))).
Proof.
  intros Hok.
  assert (forall m, m <= length candidates ->
    let st := fold_left keep_first_step (take m candidates) ([], []) in
    length st.1 = m /\ Forall text_ok st.2 /\
    (forall w, w ∈ outward_words <$> st.2 <-> w ∈ words_of <$> take m candidates) /\
    forall i, i < m -> st.1 !! i = Some true <->
      words_of <$> candidates !! i ∉ (fun c => Some (words_of c)) <$> take i candidates) as Hinv.
  { induction m as [|m IH]; intros Hm; cbv zeta.
    { rewrite take_0. cbn. split; [done|]. split; [constructor|]. split; [done|lia]. }
    destruct (lookup_lt_is_Some_2 candidates m) as [c Hc]; [lia|].
    rewrite (take_S_r _ _ _ Hc), fold_left_app. cbn [fold_left]. specialize (IH ltac:(lia)). cbv zeta in IH.
    destruct (fold_left keep_first_step (take m candidates) _) as [keep seen]. cbn [fst snd] in IH.
    destruct IH as (Hlen & Hseen & Hw & Hk). unfold keep_first_step.
    assert (text_ok (cand_text c)) as Hokc by (rewrite Forall_lookup in Hok; eauto).
    assert (existsb (fun text => text_eq text (cand_text c)) seen = true <->
      words_of c ∈ words_of <$> take m candidates) as Hex.
    { rewrite existsb_exists, <- Hw, list_elem_of_fmap. rewrite Forall_forall in Hseen. split.
      - intros (t & Ht%list_elem_of_In & E). exists t. split; [|done].
        rewrite text_eq_outward in E by auto. by apply bool_decide_eq_true in E.
      - intros (t & E & Ht). exists t. split; [by apply list_elem_of_In|].
        rewrite text_eq_outward by auto. by apply bool_decide_eq_true. }
    assert (words_of <$> candidates !! m ∉ (fun c => Some (words_of c)) <$> take m candidates <->
      words_of c ∉ words_of <$> take m candidates) as Hopt.
    { rewrite Hc. cbn. rewrite !list_elem_of_fmap. split; intros H (d & E & Hd); apply H; exists d; split; congruence. }
    destruct (existsb _ seen) eqn:E; cbn [fst snd].
    - split; [rewrite length_app; cbn; lia|]. split; [done|]. split.
      { intros w. rewrite Hw, fmap_app, elem_of_app. split; [by left|]. intros [Hin|Hin]; [done|].
        apply list_elem_of_singleton in Hin as ->. by apply Hex. }
      intros i Hi. destruct (decide (i = m)) as [->|].
      + rewrite lookup_app_r, Hlen, Nat.sub_diag, Hopt by lia. cbn. split; [done|].
        intros Hn. by destruct Hn; apply Hex.
      + rewrite lookup_app_l by lia. apply Hk. lia.
    - split; [rewrite length_app; cbn; lia|]. split; [by apply Forall_app; split; [|constructor]|]. split.
      { intros w. rewrite !fmap_app, !elem_of_app, Hw. done. }
      intros i Hi. destruct (decide (i = m)) as [->|].
      + rewrite lookup_app_r, Hlen, Nat.sub_diag, Hopt by lia. cbn. split; [|done].
        intros _ Hin%Hex. done.
      + rewrite lookup_app_l by lia. apply Hk. lia. }
  specialize (Hinv (length candidates) ltac:(lia)). rewrite take_ge in Hinv by lia.
  unfold dedup_by_text_keep_first. cbv zeta in Hinv.
  destruct (fold_left keep_first_step candidates ([], [])) as [keep seen].
  destruct Hinv as (Hlen & _ & _ & Hk). rewrite retain_mask_index by done. f_equal.
  apply filter_ext_in. intros i Hi%elem_of_seq. apply Hk. lia.
Qed.
