(* ===== verification/Trellis.v ===== *)
(** * Trellis: the hypotheses of a sentence decode

    The first half of [crates/oxpinyin-engine/src/nbest.rs]: a value is one
    hypothesis, a node keeps the best values that end on one token, a step
    holds the nodes of one position in creation order, the trellis one step
    per position. The penalty of a character is [1.2_f32.ln()], the
    platform's, and a parameter. *)

From Stdlib Require Import ZArith Lia Bool Strings.Byte.
From stdpp Require Import base list gmap.
From S2P Require Import Prelude Sorting Float Vocab Ucs4 Models.

Definition NSTORE : nat := 2.
Definition NBEST_ROWS : nat := 3.

Record NbestShape : Type := mk_shape { nstore : nat; nbest : nat }.

Definition PINYIN : NbestShape := {| nstore := NSTORE; nbest := NBEST_ROWS |}.
Definition ZHUYIN : NbestShape := {| nstore := 1; nbest := 1 |}.

Definition NBEAM : nat := 32.
Definition SENTENCE_START : Z := 1.
Definition SEED_STEP : Z := u32_max.

Record Value : Type := mk_value {
  v_token : Z;
  v_prev : Z;
  v_from : Z;
  v_sub : Z;
  v_length : Z;
  v_keys : Z;
  v_poss : f32
}.

Definition value_seed (token : Z) : Value :=
  {| v_token := token; v_prev := 0; v_from := SEED_STEP; v_sub := 0; v_length := 0; v_keys := 0;
     v_poss := f32_zero |}.

Record BeamEntry : Type := mk_beam {
  b_value : Value;
  b_slot : Z;
  b_batch : nat
}.

(** [[Value; NSTORE]] with its count. *)
Record Node : Type := mk_node { n_len : nat; n_front : Value; n_back : Value }.

Definition EMPTY_NODE : Node :=
  {| n_len := 0; n_front := value_seed 0; n_back := value_seed 0 |}.

Definition node_values (n : Node) : list Value :=
  default [] (subslice [n_front n; n_back n] 0 (n_len n)).

Record Step : Type := mk_step { s_index : gmap Z Z; s_nodes : list Node }.

Definition Step_default : Step := {| s_index := ∅; s_nodes := [] |}.

Definition node_at (s : Step) (token : Z) : option Node :=
  index ← s_index s !! token; s_nodes s !! Z.to_nat index.

(** The slot of a token's node, appended when it is new; [None] when the
    count does not fit. *)
Definition node_slot (s : Step) (token : Z) : Step * option nat :=
  match s_index s !! token with
  | Some index => (s, Some (Z.to_nat index))
  | None =>
      let count := length (s_nodes s) in
      if (Z.of_nat count <=? u32_max)%Z
      then ({| s_index := <[token := Z.of_nat count]> (s_index s);
               s_nodes := s_nodes s ++ [EMPTY_NODE] |}, Some count)
      else (s, None)
  end.

(** What is done with [node_mut(token)]. *)
Definition with_node (s : Step) (token : Z) (f : Node -> Node) : Step :=
  match node_slot s token with
  | (s, Some index) => {| s_index := s_index s; s_nodes := alter f index (s_nodes s) |}
  | (s, None) => s
  end.

Record Trellis : Type := mk_trellis {
  t_shape : NbestShape;
  t_steps : list Step;
  t_texts : gmap Z (Z * Z);
  t_text_keys : list SyllableKey;
  t_text_tones : list Z
}.

Definition set_steps (t : Trellis) (steps : list Step) : Trellis :=
  {| t_shape := t_shape t; t_steps := steps; t_texts := t_texts t;
     t_text_keys := t_text_keys t; t_text_tones := t_text_tones t |}.

Definition seed_node (token : Z) : Node :=
  {| n_len := 1; n_front := value_seed token; n_back := value_seed 0 |}.

Definition seed_step (s : Step) (token : Z) : Step := with_node s token (fun _ => seed_node token).

(** [vec![Step::default(); bound + 1]] has a first step. *)
Definition with_seeds (bound : nat) (seeds : list Z) (shape : NbestShape) : Trellis :=
  {| t_shape := shape;
     t_steps := fold_left seed_step seeds Step_default :: replicate bound Step_default;
     t_texts := ∅; t_text_keys := []; t_text_tones := [] |}.

Section penalty.
Context (long_sentence_penalty : f32).

Definition adjusted_poss (v : Value) : f32 :=
  f32_sub (v_poss v) (f32_mul (int_as_f32 (v_length v)) long_sentence_penalty).

Definition zhuyin_loses_to (left right : Value) : bool :=
  ((v_length left =? v_length right)%Z && float_lt (v_poss left) (v_poss right))
  || (v_length right <? v_length left)%Z.

Definition node_loses_to (left right : Value) (nstore : nat) : bool :=
  if nstore =? 1 then zhuyin_loses_to left right
  else match ordered_poss_compare (adjusted_poss left) (adjusted_poss right) with
       | Gt => true | _ => false end.

(** [Ordering::then_with]. *)
Definition then_with (c d : comparison) : comparison := match c with Eq => d | c => c end.

Definition selection_compare (nstore : nat) (left right : BeamEntry) : comparison :=
  if nstore =? 1 then
    then_with
      (then_with (v_length (b_value left) ?= v_length (b_value right))%Z
         (ordered_poss_compare (v_poss (b_value left)) (v_poss (b_value right))))
      (b_batch left ?= b_batch right)
  else
    then_with
      (ordered_poss_compare (adjusted_poss (b_value left)) (adjusted_poss (b_value right)))
      (b_batch left ?= b_batch right).

Definition select_top (values : list BeamEntry) (count nstore : nat) : list BeamEntry :=
  let count := Nat.min count (length values) in
  if count =? 0 then []
  else
    let values :=
      if count <? length values
      then take count (select_nth_unstable_by (selection_compare nstore) (count - 1) values)
      else values in
    sort_by (selection_compare nstore) values.

Definition tail_merge (values : list Value) : list Value :=
  sort_by (fun left right => ordered_poss_compare (v_poss left) (v_poss right)) values.

(** [Node::keep]. *)
Definition keep (n : Node) (value : Value) (nstore : nat) : Node :=
  match n_len n with
  | 0 => {| n_len := 1; n_front := value; n_back := n_back n |}
  | 1 =>
      if nstore =? NSTORE then
        if node_loses_to (n_front n) value nstore
        then {| n_len := 2; n_front := value; n_back := n_front n |}
        else {| n_len := 2; n_front := n_front n; n_back := value |}
      else if node_loses_to (n_front n) value nstore
      then {| n_len := 1; n_front := value; n_back := n_back n |}
      else n
  | _ =>
      if node_loses_to (n_front n) value nstore
      then {| n_len := n_len n; n_front := value; n_back := n_back n |}
      else n
  end.

Definition insert (t : Trellis) (position : nat) (value : Value) : Trellis :=
  set_steps t
    (alter (fun s => with_node s (v_token value) (fun n => keep n value (nstore (t_shape t))))
       position (t_steps t)).

(** The values of a step: creation order, physical slots, batch positions. *)
Definition node_entries (n : Node) : list (Value * Z) := imap (fun i v => (v, Z.of_nat i)) (node_values n).

Definition step_entries (s : Step) : list BeamEntry :=
  imap (fun i '(v, slot) => {| b_value := v; b_slot := slot; b_batch := i |})
    (s_nodes s ≫= node_entries).

Definition candidates (t : Trellis) (position : nat) : list BeamEntry :=
  match t_steps t !! position with Some step => step_entries step | None => [] end.

Definition beam (t : Trellis) (position : nat) : list BeamEntry :=
  select_top (candidates t position) NBEAM (nstore (t_shape t)).

Definition tails (t : Trellis) : list Value :=
  let position := length (t_steps t) - 1 in
  tail_merge
    (b_value <$> select_top (candidates t position) (nbest (t_shape t)) (nstore (t_shape t))).

(** The predecessor a value records. *)
Definition predecessor (t : Trellis) (v : Value) : option Value :=
  step ← t_steps t !! Z.to_nat (v_from v);
  node ← node_at step (v_prev v);
  node_values node !! Z.to_nat (v_sub v).

(** The loop of [extract], newest span first. *)
Fixpoint extract_loop (fuel : nat) (t : Trellis) (current : Value) : list (nat * Z) :=
  match fuel with
  | O => []
  | S fuel =>
      if (v_from current =? SEED_STEP)%Z then []
      else
        (Z.to_nat (v_from current), v_token current)
          :: match predecessor t current with
             | Some next => extract_loop fuel t next
             | None => []
             end
  end.

(** Positions only fall along the links of a decode. *)
Definition extract (t : Trellis) (tail : Value) : list (nat * Z) :=
  rev (extract_loop (S (length (t_steps t))) t tail).
End penalty.

(** ** The texts of a result *)

Section texts.
Context {D : Type} `{Dictionary D}.

(** [token_text]. *)
Definition token_text (t : Trellis) (dictionary : D) (cache : gmap Z (option PhraseText)) (token : Z)
    (facts : SentenceFacts) : result (option PhraseText * gmap Z (option PhraseText) * SentenceFacts) EngineError :=
  match cache !! token with
  | Some text => Ok (text, cache, facts)
  | None =>
      match (match t_texts t !! token with
             | Some (offset, len) =>
                 let offset := Z.to_nat offset in
                 let end_ := offset + Z.to_nat len in
                 match subslice (t_text_keys t) offset end_, subslice (t_text_tones t) offset end_ with
                 | Some keys, Some tones => trellis_text_with_facts dictionary keys tones token facts
                 | _, _ => Ok (None, facts)
                 end
             | None => Ok (None, facts)
             end) with
      | Err e => Err (Scoring (DictionaryError e))
      | Ok (text, facts) => Ok (text, <[token := text]> cache, facts)
      end
  end.

(** The loop of [text]: [None] at the first token without one. *)
Fixpoint text_loop (t : Trellis) (dictionary : D) (spans : list (nat * Z)) (text : PhraseTextConcat)
    (cache : gmap Z (option PhraseText)) (facts : SentenceFacts)
    : result (option PhraseText * gmap Z (option PhraseText) * SentenceFacts) EngineError :=
  match spans with
  | [] => Ok (Some (concat_finish text), cache, facts)
  | (_, token) :: spans =>
      match token_text t dictionary cache token facts with
      | Err e => Err e
      | Ok (None, cache, facts) => Ok (None, cache, facts)
      | Ok (Some part, cache, facts) =>
          text_loop t dictionary spans (concat_push text part) cache facts
      end
  end.

Definition spans_text (t : Trellis) (dictionary : D) (cache : gmap Z (option PhraseText)) (spans : list (nat * Z))
    (facts : SentenceFacts) : result (option PhraseText * gmap Z (option PhraseText) * SentenceFacts) EngineError :=
  text_loop t dictionary spans concat_new cache facts.
End texts.
