(* ===== verification/ScanMatrix.v ===== *)
(** * ScanMatrix: the key columns of a parse

    [ScanKey] of [crates/oxpinyin-engine/src/session/mod.rs], [ParsedMatrix]
    of [session/matrix.rs] and the readings of a span of
    [session/selection.rs]: real keys by the position they start at, and the
    positions a zero key steps over. *)

From Stdlib Require Import ZArith Lia Bool Strings.Byte.
From stdpp Require Import base list.
From S2P Require Import Prelude Chewing Vocab.

Definition MAX_PHRASE_LENGTH : nat := 16.
Definition SCAN_EXPANSION_LIMIT : nat := Z.to_nat 4096.

Record ScanKey : Type := mk_scan {
  sk_key : SyllableKey;
  sk_from : nat;
  sk_to : nat;
  sk_start : nat;
  sk_crosses : bool;
  sk_tone : Z
}.

Record ParsedMatrix : Type := mk_matrix {
  pm_columns : list (list ScanKey);
  pm_zeros : list bool;
  pm_bound : nat
}.

(** [zeros.iter_mut().take(hi).skip(lo)] set. *)
Definition set_zeros (zeros : list bool) (lo hi : nat) : list bool :=
  imap (fun i z => if (lo <=? i) && (i <? hi) then true else z) zeros.

Definition least (l : list nat) : option nat :=
  match l with [] => None | x :: l => Some (fold_left Nat.min l x) end.

(** One turn of the loop of [from_scan]: columns, zeros, the furthest end. *)
Definition place_key (first : option nat) (bound : nat) (physical : bool)
    (st : list (list ScanKey) * list bool * nat) (key : ScanKey)
    : list (list ScanKey) * list bool * nat :=
  let '(columns, zeros, last_end) := st in
  let crossing := physical && sk_crosses key in
  let zeros :=
    if crossing && match first with Some start => start <=? sk_from key | None => false end
    then set_zeros zeros (sk_from key) (Nat.min (sk_start key) bound) else zeros in
  let from := if crossing then sk_start key else sk_from key in
  let raw := {| sk_key := sk_key key; sk_from := from; sk_to := sk_to key; sk_start := from;
                sk_crosses := false; sk_tone := sk_tone key |} in
  (alter (fun column => column ++ [raw]) from columns, zeros, Nat.max last_end (sk_to raw)).

Definition from_scan (scan : list (list ScanKey)) (bound : nat) (physical : bool) : ParsedMatrix :=
  let first := least (sk_start <$> concat scan) in
  let '(columns, zeros, last_end) :=
    fold_left (place_key first bound physical) (concat scan)
      (replicate (bound + 1) [], replicate (bound + 1) false, 0) in
  let zeros := if physical then set_zeros zeros last_end (bound + 1) else zeros in
  let zeros := match first with Some _ => <[bound := true]> zeros | None => zeros end in
  {| pm_columns := columns; pm_zeros := zeros; pm_bound := bound |}.

Definition column_is_empty (matrix : list (list ScanKey)) (zeros : list bool) (offset : nat) : bool :=
  match matrix !! offset with Some (_ :: _) => false | _ => true end
  && negb (default false (zeros !! offset)).

(** ** The readings of a span *)

(** [TrainingReadings]: frames and keys have their last element first. *)
Record TrainingReadings : Type := mk_readings {
  tr_frames : list (nat * nat);
  tr_keys : list ChewingKey;
  tr_yielded : bool
}.

Section readings.
Context (matrix : list (list ScanKey)) (input : bytes) (end_ length_ : nat).

Definition readings_new (start : nat) : TrainingReadings :=
  {| tr_frames := [(start, 0)]; tr_keys := []; tr_yielded := false |}.

Definition backtrack (r : TrainingReadings) : TrainingReadings :=
  match tr_frames r with
  | [] => r
  | [_] => {| tr_frames := []; tr_keys := tr_keys r; tr_yielded := tr_yielded r |}
  | _ :: frames => {| tr_frames := frames; tr_keys := tail (tr_keys r); tr_yielded := tr_yielded r |}
  end.

Definition separator_hop (position : nat) : bool :=
  (position <? end_) && bool_decide (input !! position = Some "'"%byte)
  && match matrix !! position with Some [] => true | _ => false end.

Definition reading_key (edge : ScanKey) : ChewingKey :=
  with_tone (chewing_key (sk_key edge)) (sk_tone edge).

(** One turn of the loop of [next]: done with an answer, or the next state. *)
Definition reading_turn (r : TrainingReadings)
    : option (option (list ChewingKey)) * TrainingReadings :=
  match tr_frames r with
  | [] => (Some None, r)
  | (position, index) :: frames =>
      if (position =? end_) && (length (tr_keys r) =? length_) then
        (Some (Some (rev (tr_keys r))),
         {| tr_frames := tr_frames r; tr_keys := tr_keys r; tr_yielded := true |})
      else if separator_hop position then
        (None, {| tr_frames := (S position, index) :: frames; tr_keys := tr_keys r;
                  tr_yielded := tr_yielded r |})
      else if (end_ <=? position) || (length_ <=? length (tr_keys r)) then (None, backtrack r)
      else
        match matrix !! position ≫= (fun column => column !! index) with
        | None => (None, backtrack r)
        | Some edge =>
            let frames := (position, S index) :: frames in
            if sk_to edge <=? position
            then (None, {| tr_frames := frames; tr_keys := tr_keys r; tr_yielded := tr_yielded r |})
            else (None, {| tr_frames := (sk_to edge, 0) :: frames;
                           tr_keys := reading_key edge :: tr_keys r; tr_yielded := tr_yielded r |})
        end
  end.

Fixpoint reading_loop (fuel : nat) (r : TrainingReadings) : option (list ChewingKey) * TrainingReadings :=
  match fuel with
  | O => (None, r)
  | S fuel =>
      match reading_turn r with
      | (Some answer, r) => (answer, r)
      | (None, r) => reading_loop fuel r
      end
  end.

(** [next]. *)
Definition reading_next (fuel : nat) (r : TrainingReadings) : option (list ChewingKey) * TrainingReadings :=
  let r := if tr_yielded r
           then backtrack {| tr_frames := tr_frames r; tr_keys := tr_keys r; tr_yielded := false |}
           else r in
  reading_loop fuel r.

(** Every reading the iterator yields, in order, by a number of turns. *)
Fixpoint readings_turns (fuel : nat) (r : TrainingReadings) : list (list ChewingKey) :=
  match fuel with
  | O => []
  | S fuel =>
      match reading_turn r with
      | (Some None, _) => []
      | (Some (Some reading), r) =>
          reading
            :: readings_turns fuel
                 (backtrack {| tr_frames := tr_frames r; tr_keys := tr_keys r; tr_yielded := false |})
      | (None, r) => readings_turns fuel r
      end
  end.
End readings.
