(* ===== verification/MatrixBuild.v ===== *)
(** * MatrixBuild: the key columns of a parse, built

    The scan-matrix half of [crates/oxpinyin-engine/src/session/mod.rs] and
    its tables, [session/split_tables.rs]: the selected parse placed in
    columns, the resplit and divided passes, the fuzzy alternates and the
    collapse of identical paths. [None] is a panic on an index out of range. *)

From Stdlib Require Import ZArith Lia Bool String Strings.Byte.
From stdpp Require Import base list.
From S2P Require Import Prelude Options Chewing Vocab Graph Sorting ScanMatrix.

(** ** The tables *)

Local Abbreviation r4 a b c d := (str a%string, str b%string, str c%string, str d%string).
Local Abbreviation r3 a b c := (str a%string, str b%string, str c%string).

Definition RESPLIT_TABLE : list (bytes * bytes * bytes * bytes) := Eval vm_compute in
  [r4 "a" "nan" "an" "an"; r4 "an" "gang" "ang" "ang"; r4 "ba" "nan" "ban" "an";
   r4 "ca" "nan" "can" "an"; r4 "chan" "gan" "chang" "an"; r4 "chan" "ge" "chang" "e";
   r4 "che" "nai" "chen" "ai"; r4 "chen" "gan" "cheng" "an"; r4 "chu" "nan" "chun" "an";
   r4 "dan" "gan" "dang" "an"; r4 "e" "nai" "en" "ai"; r4 "e" "nen" "en" "en";
   r4 "fa" "nan" "fan" "an"; r4 "fan" "gai" "fang" "ai"; r4 "fan" "gan" "fang" "an";
   r4 "fan" "ge" "fang" "e"; r4 "ga" "nai" "gan" "ai"; r4 "ga" "nen" "gan" "en";
   r4 "gan" "gao" "gang" "ao"; r4 "guan" "gan" "guang" "an"; r4 "hu" "nan" "hun" "an";
   r4 "huan" "gan" "huang" "an"; r4 "ji" "ne" "jin" "e"; r4 "ji" "nou" "jin" "ou";
   r4 "jia" "nai" "jian" "ai"; r4 "jia" "nan" "jian" "an"; r4 "jia" "nao" "jian" "ao";
   r4 "jia" "ne" "jian" "e"; r4 "jia" "nou" "jian" "ou"; r4 "jian" "gan" "jiang" "an";
   r4 "jin" "gai" "jing" "ai"; r4 "jin" "gan" "jing" "an"; r4 "jin" "ge" "jing" "e";
   r4 "kuan" "gao" "kuang" "ao"; r4 "li" "nan" "lin" "an"; r4 "lia" "nai" "lian" "ai";
   r4 "lia" "ne" "lian" "e"; r4 "lian" "gan" "liang" "an"; r4 "ma" "ne" "man" "e";
   r4 "men" "gen" "meng" "en"; r4 "min" "gan" "ming" "an"; r4 "min" "ge" "ming" "e";
   r4 "na" "nai" "nan" "ai"; r4 "na" "nan" "nan" "an"; r4 "na" "nao" "nan" "ao";
   r4 "na" "nou" "nan" "ou"; r4 "nin" "gan" "ning" "an"; r4 "pa" "nan" "pan" "an";
   r4 "pen" "gan" "peng" "an"; r4 "pin" "gan" "ping" "an"; r4 "qi" "nai" "qin" "ai";
   r4 "qi" "nan" "qin" "an"; r4 "qia" "nan" "qian" "an"; r4 "qia" "ne" "qian" "e";
   r4 "qin" "gai" "qing" "ai"; r4 "qin" "gan" "qing" "an"; r4 "qu" "na" "qun" "a";
   r4 "re" "nai" "ren" "ai"; r4 "re" "nan" "ren" "an"; r4 "san" "gou" "sang" "ou";
   r4 "shan" "gan" "shang" "an"; r4 "she" "nai" "shen" "ai"; r4 "she" "nao" "shen" "ao";
   r4 "wa" "nan" "wan" "an"; r4 "wa" "ne" "wan" "e"; r4 "wa" "nou" "wan" "ou";
   r4 "wen" "gan" "weng" "an"; r4 "xi" "nai" "xin" "ai"; r4 "xi" "nan" "xin" "an";
   r4 "xia" "nai" "xian" "ai"; r4 "xia" "nan" "xian" "an"; r4 "xia" "ne" "xian" "e";
   r4 "xian" "gai" "xiang" "ai"; r4 "xian" "gan" "xiang" "an"; r4 "xian" "ge" "xiang" "e";
   r4 "xin" "gai" "xing" "ai"; r4 "xin" "gan" "xing" "an"; r4 "ya" "nan" "yan" "an";
   r4 "yi" "nan" "yin" "an"; r4 "yi" "ne" "yin" "e"; r4 "zhan" "gai" "zhang" "ai";
   r4 "zhe" "nai" "zhen" "ai"; r4 "zhe" "nan" "zhen" "an"; r4 "zhen" "gan" "zheng" "an";
   r4 "zhua" "nan" "zhuan" "an"].

Definition DIVIDED_TABLE : list (bytes * bytes * bytes) := Eval vm_compute in
  [r3 "bian" "bi" "an"; r3 "bie" "bi" "e"; r3 "dian" "di" "an"; r3 "jian" "ji" "an";
   r3 "jiang" "ji" "ang"; r3 "jie" "ji" "e"; r3 "jue" "ju" "e"; r3 "kuai" "ku" "ai";
   r3 "lian" "li" "an"; r3 "liang" "li" "ang"; r3 "liao" "li" "ao"; r3 "luan" "lu" "an";
   r3 "qian" "qi" "an"; r3 "qie" "qi" "e"; r3 "shuan" "shu" "an"; r3 "tian" "ti" "an";
   r3 "tuan" "tu" "an"; r3 "xian" "xi" "an"; r3 "yuan" "yu" "an"; r3 "zuan" "zu" "an"].

Definition resplit_row (first second : bytes) : option (bytes * bytes) :=
  (fun row => (row.1.2, row.2))
    <$> List.find (fun row => bool_decide (row.1.1.1 = first) && bool_decide (row.1.1.2 = second))
          RESPLIT_TABLE.

Definition divided_row (syllable : bytes) : option (bytes * bytes) :=
  (fun row => (row.1.2, row.2)) <$> List.find (fun row => bool_decide (row.1.1 = syllable)) DIVIDED_TABLE.

(** ** Columns *)

Definition scan_from_edge (e : Edge) : ScanKey :=
  {| sk_key := Graph.key e; sk_from := from e; sk_to := to e; sk_start := syllable_start e;
     sk_crosses := crosses_separator e; sk_tone := Graph.tone e |}.

(** [columns[i].push(key)]. *)
Definition push_at (columns : list (list ScanKey)) (i : nat) (key : ScanKey)
    : option (list (list ScanKey)) :=
  column ← columns !! i; Some (<[i := column ++ [key]]> columns).

(** A [for] loop whose body can panic. *)
Fixpoint for_each {A S} (l : list A) (body : S -> A -> option S) (s : S) : option S :=
  match l with
  | [] => Some s
  | x :: l => s ← body s x; for_each l body s
  end.

Definition left_half (key : ScanKey) (split : nat) (left_key : SyllableKey) : ScanKey :=
  {| sk_key := left_key; sk_from := sk_from key; sk_to := split; sk_start := sk_start key;
     sk_crosses := sk_crosses key; sk_tone := sk_tone key |}.

Definition right_half (split end_ : nat) (right_key : SyllableKey) : ScanKey :=
  {| sk_key := right_key; sk_from := split; sk_to := end_; sk_start := split;
     sk_crosses := false; sk_tone := 0 |}.

Definition append_split (columns : list (list ScanKey)) (key : ScanKey) (end_ : nat) (left_ right_ : bytes)
    : option (list (list ScanKey)) :=
  match from_text left_, from_text right_ with
  | Some left_key, Some right_key =>
      let split := sk_start key + length left_ in
      if length columns <=? split then Some columns
      else
        columns ← push_at columns (sk_from key) (left_half key split left_key);
        push_at columns split (right_half split end_ right_key)
  | _, _ => Some columns
  end.

(** ** The passes *)

Definition resplit_next (key : ScanKey) (columns : list (list ScanKey)) (next_key : ScanKey)
    : option (list (list ScanKey)) :=
  if sk_crosses next_key || negb (sk_tone key =? 0)%Z || negb (sk_tone next_key =? 0)%Z
  then Some columns
  else
    match resplit_row (key_text (sk_key key)) (key_text (sk_key next_key)) with
    | None => Some columns
    | Some (left_, right_) => append_split columns key (sk_to next_key) left_ right_
    end.

Definition resplit_key (columns : list (list ScanKey)) (key : ScanKey) : option (list (list ScanKey)) :=
  match columns !! sk_to key with
  | None => Some columns
  | Some next_keys => for_each next_keys (resplit_next key) columns
  end.

Definition resplit_column (columns : list (list ScanKey)) (index : nat) : option (list (list ScanKey)) :=
  keys ← columns !! index; for_each keys resplit_key columns.

Definition resplit_step (columns : list (list ScanKey)) : option (list (list ScanKey)) :=
  for_each (seq 0 (length columns - 1)) resplit_column columns.

Definition divide_key (columns : list (list ScanKey)) (key : ScanKey) : option (list (list ScanKey)) :=
  if negb (sk_tone key =? 0)%Z then Some columns
  else
    match divided_row (key_text (sk_key key)) with
    | None => Some columns
    | Some (left_, right_) => append_split columns key (sk_to key) left_ right_
    end.

Definition divide_column (columns : list (list ScanKey)) (index : nat) : option (list (list ScanKey)) :=
  keys ← columns !! index; for_each keys divide_key columns.

Definition inner_split_step (columns : list (list ScanKey)) : option (list (list ScanKey)) :=
  for_each (seq 0 (length columns)) divide_column columns.

Definition fuzzy_key (position : nat) (key : ScanKey) (alternate : SyllableKey) : ScanKey :=
  {| sk_key := alternate; sk_from := position; sk_to := sk_to key; sk_start := sk_start key;
     sk_crosses := sk_crosses key; sk_tone := sk_tone key |}.

Definition fuzzy_additions (columns : list (list ScanKey)) (options : OptionBits) : list ScanKey :=
  concat (imap (fun position keys =>
    keys ≫= fun key => fuzzy_key position key <$> fuzzy_alternatives (sk_key key) options) columns).

Definition same_path (a b : ScanKey) : bool :=
  bool_decide (sk_key a = sk_key b) && (sk_to a =? sk_to b) && (sk_tone a =? sk_tone b)%Z.

Definition keep_step (st : list ScanKey * nat) (index : nat) : list ScanKey * nat :=
  let '(column, kept) := st in
  match column !! index with
  | None => st
  | Some key =>
      if existsb (fun earlier => same_path earlier key) (take kept column) then st
      else (swap column kept index, S kept)
  end.

Definition keep_first (column : list ScanKey) : list ScanKey :=
  let '(column, kept) := fold_left keep_step (seq 0 (length column)) (column, 0) in take kept column.

Definition keep_first_in_column (columns : list (list ScanKey)) : list (list ScanKey) :=
  keep_first <$> columns.

Definition extend_matrix (columns : list (list ScanKey)) (options : OptionBits) (divided : bool)
    : option (list (list ScanKey)) :=
  columns ← (if divided && has_resplit_table options then resplit_step columns else Some columns);
  columns ← (if divided && has_divided_table options then inner_split_step columns else Some columns);
  columns ← for_each (fuzzy_additions columns options) (fun columns key => push_at columns (sk_from key) key) columns;
  Some (keep_first_in_column columns).

Definition build_scan_matrix_over (graph : SegmentGraph) (selected_edges : list Edge)
    (options : OptionBits) (divided : bool) : option (list (list ScanKey)) :=
  columns ← for_each (scan_from_edge <$> selected_edges) (fun columns key => push_at columns (sk_from key) key)
    (replicate (consumed graph + 1) []);
  extend_matrix columns options divided.

Definition build_scan_matrix (graph : SegmentGraph) (options : OptionBits) (divided : bool)
    : option (list (list ScanKey)) :=
  build_scan_matrix_over graph (fewest_keys graph (has_incomplete options)) options divided.
