(* ===== verification/MatrixBuildSpec.v ===== *)
(** * MatrixBuildSpec: what the key columns of a parse hold

    The keys the passes of [MatrixBuild] add are described by what they are
    made of, whatever order the passes meet them in: a part of a selected key
    and the next key resplit, a key divided, a fuzzy alternate. *)

From Stdlib Require Import ZArith Lia Bool String Strings.Byte.
From stdpp Require Import base list strings.
From S2P Require Import Prelude Options SyllableData Syllables Chewing Vocab Graph GraphBuild GraphPaths Sorting ScanMatrix MatrixBuild.

(** ** Columns that grow *)

Definition in_column (columns : list (list ScanKey)) (p : nat) (k : ScanKey) : Prop :=
  k ∈ default [] (columns !! p).

(** The keys of [P] are added, each to its own column. *)
Definition adds (P : ScanKey -> Prop) (columns columns' : list (list ScanKey)) : Prop :=
  length columns' = length columns /\
  forall p k, in_column columns' p k <-> in_column columns p k \/ (sk_from k = p /\ P k).

Lemma adds_none columns : adds (fun _ => False) columns columns.
Proof. split; [done|]. tauto. Qed.

Lemma adds_trans P Q c1 c2 c3 : adds P c1 c2 -> adds Q c2 c3 -> adds (fun k => P k \/ Q k) c1 c3.
Proof. intros [L1 H1] [L2 H2]. split; [congruence|]. intros p k. rewrite H2, H1. tauto. Qed.

Lemma adds_ext P Q c1 c2 : (forall k, P k <-> Q k) -> adds P c1 c2 -> adds Q c1 c2.
Proof. intros H [L1 H1]. split; [done|]. intros p k. by rewrite H1, H. Qed.

Lemma push_adds columns i key :
  i < length columns -> sk_from key = i ->
  exists columns', push_at columns i key = Some columns' /\ adds (fun k => k = key) columns columns'.
Proof.
  intros Hi Hf. destruct (lookup_lt_is_Some_2 columns i Hi) as [column Hc]. unfold push_at. rewrite Hc.
  eexists. split; [reflexivity|]. split; [by rewrite length_insert|]. intros p k. unfold in_column.
  destruct (decide (p = i)) as [->|Hp].
  - rewrite list_lookup_insert_eq, Hc by done. cbn. rewrite elem_of_app, list_elem_of_singleton.
    intuition congruence.
  - rewrite list_lookup_insert_ne by done. intuition congruence.
Qed.

(** A loop of additions, each decided under an invariant it keeps. *)
Lemma for_each_adds {A} (I : list (list ScanKey) -> Prop) (P : A -> ScanKey -> Prop) (body : _ -> A -> _)
    (l : list A) columns :
  I columns ->
  (forall x c, x ∈ l -> I c -> exists c', body c x = Some c' /\ I c' /\ adds (P x) c c') ->
  exists columns', for_each l body columns = Some columns' /\ I columns' /\
    adds (fun k => exists x, x ∈ l /\ P x k) columns columns'.
Proof.
  revert columns. induction l as [|x l IH]; intros columns HI Hb.
  { exists columns. split; [done|]. split; [done|]. apply (adds_ext (fun _ => False)); [|apply adds_none].
    intros k. split; [done|]. by intros (? & []%not_elem_of_nil & _). }
  destruct (Hb x columns) as (c & Hx & HIc & Ha); [by left|done|].
  destruct (IH c) as (c' & Hl & HIc' & Ha'); [done|intros; apply Hb; [by right|done]|].
  exists c'. cbn [for_each]. rewrite Hx. split; [done|]. split; [done|].
  apply (adds_ext (fun k => P x k \/ exists y, y ∈ l /\ P y k)); [|by eapply adds_trans].
  intros k. split.
  - intros [H|(y & Hy & H)]; [exists x; split; [by left|done]|exists y; split; [by right|done]].
  - intros (y & [->|Hy]%elem_of_cons & H); [by left|right; eauto].
Qed.

(** ** Splits *)

Section passes.
(** [n] is the last column. *)
Context (n : nat).

Definition fits_in (k : ScanKey) : Prop := sk_from k <= sk_start k < sk_to k /\ sk_to k <= n.

(** The parts a key splits into when its text is [lt ++ rt], give or take what
    the next key lends it. *)
Definition splits (k : ScanKey) (end_ : nat) (lt rt : bytes) (l r : ScanKey) : Prop :=
  exists lk rk, from_text lt = Some lk /\ from_text rt = Some rk /\
    l = left_half k (sk_start k + length lt) lk /\ r = right_half (sk_start k + length lt) end_ rk.

Lemma append_split_adds columns k end_ lt rt :
  length columns = S n -> fits_in k -> sk_start k + length lt <= n -> lt <> [] ->
  exists columns', append_split columns k end_ lt rt = Some columns' /\
    adds (fun x => exists l r, splits k end_ lt rt l r /\ (x = l \/ x = r)) columns columns'.
Proof.
  intros Hl [Hk Hkn] Hs Hne. unfold append_split.
  destruct (from_text lt) as [lk|] eqn:El.
  2: { exists columns. split; [done|]. apply (adds_ext (fun _ => False)); [|apply adds_none].
       intros k'. split; [done|]. intros (? & ? & (? & ? & E & _) & _). congruence. }
  destruct (from_text rt) as [rk|] eqn:Er.
  2: { exists columns. split; [done|]. apply (adds_ext (fun _ => False)); [|apply adds_none].
       intros k'. split; [done|]. intros (? & ? & (? & ? & _ & E & _) & _). congruence. }
  rewrite (proj2 (Nat.leb_gt _ _)) by lia.
  destruct (push_adds columns (sk_from k) (left_half k (sk_start k + length lt) lk)) as (c1 & -> & H1);
    [lia|done|]. cbn [mbind option_bind].
  destruct (push_adds c1 (sk_start k + length lt) (right_half (sk_start k + length lt) end_ rk)) as (c2 & -> & H2);
    [destruct H1 as [-> _]; lia|done|].
  exists c2. split; [done|]. eapply adds_ext; [|eapply adds_trans; [exact H1|exact H2]].
  intros x. cbn. split.
  - intros Hx. eexists _, _. split; [|exact Hx]. exists lk, rk. done.
  - intros (l & r & (lk' & rk' & E1 & E2 & -> & ->) & Hx). congruence.
Qed.

(** ** The rows of the tables *)

(** Texts a key can have while it spans a byte less. *)
Definition short_words : list bytes := [str "zhua"; str "an"; str "ang"].

Definition split_words : list bytes :=
  ((fun row => row.1.1.1) <$> RESPLIT_TABLE) ++ ((fun row => row.1.1.2) <$> RESPLIT_TABLE)
    ++ ((fun row => row.1.1) <$> DIVIDED_TABLE).

Definition is_short (t : bytes) : bool := bool_decide (t ∈ short_words).

Definition resplit_ok (row : bytes * bytes * bytes * bytes) : bool :=
  let '(a, b, l, r) := row in
  (length l =? S (length a)) && (length l + length r =? length a + length b) && (2 <=? length b)
  && negb (is_short b) && (if is_short a then (3 <=? length b) && is_short r else true)
  && negb (length r =? 0).

Definition divided_ok (row : bytes * bytes * bytes) : bool :=
  let '(t, l, r) := row in
  (length l + length r =? length t) && negb (length l =? 0) && negb (length r =? 0)
  && negb (is_short t) && match divided_row r with Some _ => false | None => true end.

Lemma tables_ok : forallb resplit_ok RESPLIT_TABLE && forallb divided_ok DIVIDED_TABLE = true.
Proof. vm_compute. reflexivity. Qed.

Lemma resplit_row_facts a b lt rt :
  resplit_row a b = Some (lt, rt) ->
  a ∈ split_words /\ b ∈ split_words /\ length lt = S (length a) /\
  length lt + length rt = length a + length b /\ 2 <= length b /\ (b ∉ short_words) /\
  (a ∈ short_words -> 3 <= length b /\ rt ∈ short_words) /\ lt <> [] /\ rt <> [].
Proof.
  unfold resplit_row. destruct (List.find _ RESPLIT_TABLE) as [row|] eqn:E; [|done]. intros [= <- <-].
  apply List.find_some in E as [Hin%list_elem_of_In Hab].
  apply andb_true_iff in Hab as [<-%bool_decide_eq_true <-%bool_decide_eq_true].
  pose proof tables_ok as [H _]%andb_true_iff. pose proof (forallb_elem _ _ _ H Hin) as Hr. clear H.
  split. { apply elem_of_app. left. apply list_elem_of_fmap. by exists row. }
  split. { apply elem_of_app. right. apply elem_of_app. left. apply list_elem_of_fmap. by exists row. }
  destruct row as [[[a b] l] r]. cbn [fst snd]. cbn [resplit_ok] in Hr. unfold is_short in Hr.
  rewrite !andb_true_iff, !negb_true_iff, !Nat.eqb_eq, Nat.leb_le, Nat.eqb_neq, bool_decide_eq_false in Hr.
  destruct Hr as (((((H1 & H2) & H3) & H4) & H5) & H6). split_and!; try done.
  - intros Ha. rewrite bool_decide_true, andb_true_iff, Nat.leb_le, bool_decide_eq_true in H5 by done. done.
  - by intros ->.
  - by intros ->.
Qed.

Lemma divided_row_facts t lt rt :
  divided_row t = Some (lt, rt) ->
  t ∈ split_words /\ length lt + length rt = length t /\ (t ∉ short_words) /\ lt <> [] /\ rt <> [] /\
  divided_row rt = None.
Proof.
  unfold divided_row at 1. destruct (List.find _ DIVIDED_TABLE) as [row|] eqn:E; [|done]. intros [= <- <-].
  apply List.find_some in E as [Hin%list_elem_of_In <-%bool_decide_eq_true].
  pose proof tables_ok as [_ H]%andb_true_iff. pose proof (forallb_elem _ _ _ H Hin) as Hr. clear H.
  split. { apply elem_of_app. right. apply elem_of_app. right. apply list_elem_of_fmap. by exists row. }
  destruct row as [[t l] r]. cbn [fst snd]. cbn [divided_ok] in Hr. unfold is_short in Hr.
  rewrite !andb_true_iff, !negb_true_iff, !Nat.eqb_eq, !Nat.eqb_neq, bool_decide_eq_false in Hr.
  destruct Hr as ((((H1 & H2) & H3) & H4) & H5). split_and!; try done.
  - by intros ->.
  - by intros ->.
  - by destruct (divided_row r).
Qed.

Lemma from_text_spells t k : from_text t = Some k -> key_text k = t.
Proof.
  intros H. apply from_canonical_text_inv. unfold from_text in H. unfold from_canonical_text.
  destruct (map_get FULL_PINYIN_SYLLABLES t); [done|]. by destruct (map_get INCOMPLETE_PINYIN_KEYS t).
Qed.

(** ** The selected parse *)

Context (selected : ScanKey -> Prop).

Definition text_of (k : ScanKey) : bytes := key_text (sk_key k).

Definition spans_text (k : ScanKey) : Prop :=
  sk_to k - sk_start k = length (text_of k) \/
  (text_of k ∈ short_words /\ S (sk_to k - sk_start k) = length (text_of k)).

Hypothesis selected_fits : forall k, selected k -> fits_in k.
Hypothesis selected_starts : forall k, selected k -> sk_crosses k = false -> sk_start k = sk_from k.
Hypothesis selected_apart : forall k e, selected k -> selected e -> ~ (sk_from e < sk_to k < sk_to e).
Hypothesis selected_spells : forall k,
  selected k -> sk_tone k = 0%Z -> text_of k ∈ split_words -> spans_text k.

(** ** Resplitting *)

Definition resplits (k e l r : ScanKey) : Prop :=
  selected e /\ sk_from e = sk_to k /\ sk_crosses e = false /\ sk_tone k = 0%Z /\ sk_tone e = 0%Z /\
  exists lt rt, resplit_row (text_of k) (text_of e) = Some (lt, rt) /\ splits k (sk_to e) lt rt l r.

(** What a key resplits again from: a selected key, or the later half of
    another resplit. *)
Inductive primary : ScanKey -> Prop :=
  | primary_selected k : selected k -> primary k
  | primary_right k e l r : primary k -> resplits k e l r -> primary r.

Definition tabled_spans (k : ScanKey) : Prop :=
  sk_tone k = 0%Z -> text_of k ∈ split_words -> spans_text k.

Lemma resplits_facts k e l r :
  fits_in k -> tabled_spans k -> resplits k e l r ->
  sk_to k < sk_from r < sk_to e /\ fits_in l /\ fits_in r /\ sk_to r = sk_to e /\
  spans_text l /\ spans_text r /\ sk_from l = sk_from k.
Proof using All.
  intros [Hk Hkn] Hsp (He & Hfrom & Hx & Hk0 & He0 & lt & rt & Hrow & lk & rk & El & Er & -> & ->).
  apply resplit_row_facts in Hrow as (Ha & Hb & Hl & Hlr & H2 & Hns & Hsh & Hl0 & Hr0).
  destruct (selected_fits e He) as [_ Hen]. pose proof (selected_starts e He Hx) as Hes.
  assert (sk_to e = sk_to k + length (text_of e)) as Hto.
  { destruct (selected_spells e He He0 Hb) as [E|[E _]]; [|done].
    destruct (selected_fits e He). lia. }
  assert (length (text_of k) = sk_to k - sk_start k \/
    (length (text_of k) = S (sk_to k - sk_start k) /\ 3 <= length (text_of e) /\ rt ∈ short_words)) as Hspan.
  { destruct (Hsp Hk0 Ha) as [E|[E1 E2]]; [by left|right]. destruct (Hsh E1). split; [done|]. done. }
  assert (length rt <> 0) as Hrl by by destruct rt.
  unfold fits_in, spans_text, left_half, right_half, text_of. cbn [sk_from sk_to sk_start sk_key].
  rewrite (from_text_spells _ _ El), (from_text_spells _ _ Er).
  split_and!; try lia. destruct Hspan as [E|(E & _ & E')]; [left; lia|right; split; [done|lia]].
Qed.

Lemma primary_facts k :
  primary k -> fits_in k /\ tabled_spans k /\ exists s, selected s /\ sk_to k = sk_to s.
Proof using All.
  induction 1 as [k Hk|k e l r Hk (Hf & Hs & _) Hr].
  { split; [by apply selected_fits|]. split; [by intros H0 Ht; apply selected_spells|]. by exists k. }
  pose proof (resplits_facts k e l r Hf Hs Hr) as (_ & _ & H1 & H2 & _ & H3 & _).
  split; [done|]. split; [by intros _ _|]. exists e. split; [apply Hr|done].
Qed.

(** The later half of a resplit starts inside the next key, where no selected
    key ends. *)
Lemma resplit_inside k e l r s :
  primary k -> resplits k e l r -> selected s -> sk_from r <> sk_to s.
Proof using All.
  intros (Hf & Hs & _)%primary_facts Hr Hsel E.
  pose proof (resplits_facts k e l r Hf Hs Hr) as (H1 & _).
  destruct Hr as (He & Hfrom & _). apply (selected_apart s e Hsel He). lia.
Qed.

Definition halved (i : nat) (x : ScanKey) : Prop :=
  exists k e l r, primary k /\ sk_from k < i /\ resplits k e l r /\ (x = l \/ x = r).

Definition resplit_inv (i : nat) (c : list (list ScanKey)) : Prop :=
  length c = S n /\ forall p k, in_column c p k <-> sk_from k = p /\ (selected k \/ halved i k).

(** The columns later keys look for their next key in. *)
Definition next_inv (i : nat) (c : list (list ScanKey)) : Prop :=
  length c = S n /\
  forall s k, selected s -> i < sk_to s ->
    in_column c (sk_to s) k <-> sk_from k = sk_to s /\ selected k.

Lemma next_inv_adds i P c c' :
  next_inv i c -> adds P c c' ->
  (forall k, P k -> sk_from k = i \/ forall s, selected s -> sk_from k <> sk_to s) -> next_inv i c'.
Proof using All.
  intros [Hl H] [Hl' Ha] HP. split; [lia|]. intros s k Hs Hi. rewrite Ha, H by done.
  split; [|by left]. intros [?|[Hf Hk]]; [done|]. exfalso. apply HP in Hk as [?|Hn]; [lia|]. by apply (Hn s).
Qed.

Lemma resplit_next_adds i x e c :
  primary x -> sk_from x = i -> selected e -> sk_from e = sk_to x -> next_inv i c ->
  exists c', resplit_next x c e = Some c' /\ next_inv i c' /\
    adds (fun k => exists l r, resplits x e l r /\ (k = l \/ k = r)) c c'.
Proof using All.
  intros Hx Hi He Hfrom HI. destruct (primary_facts x Hx) as (Hf & Hsp & _).
  assert (forall (P : Prop), P -> (forall l r, resplits x e l r -> False) ->
    P /\ next_inv i c /\ adds (fun k => exists l r, resplits x e l r /\ (k = l \/ k = r)) c c) as Hnone.
  { intros P HP Hno. split; [done|]. split; [done|]. apply (adds_ext (fun _ => False)); [|apply adds_none].
    intros k. split; [done|]. intros (l & r & H & _). by apply (Hno l r). }
  unfold resplit_next. destruct (_ || _) eqn:E.
  { exists c. apply Hnone; [done|]. intros l r (_ & _ & Hc & H1 & H2 & _). by rewrite Hc, H1, H2 in E. }
  rewrite !orb_false_iff, !negb_false_iff, !Z.eqb_eq in E. destruct E as [[Hc Hx0] He0].
  destruct (resplit_row _ _) as [[lt rt]|] eqn:Er.
  2: { exists c. apply Hnone; [done|]. intros l r (_ & _ & _ & _ & _ & ? & ? & H & _). unfold text_of in H. congruence. }
  assert (forall l r, resplits x e l r <-> splits x (sk_to e) lt rt l r) as Heq.
  { intros l r. unfold resplits. change (key_text (sk_key x)) with (text_of x) in Er.
    change (key_text (sk_key e)) with (text_of e) in Er. split.
    - intros (_ & _ & _ & _ & _ & ? & ? & E & H). congruence.
    - intros H. split_and!; try done. eauto. }
  destruct (from_text lt) as [lk|] eqn:El; [destruct (from_text rt) as [rk|] eqn:Erk|].
  2,3: exists c; apply Hnone; [unfold append_split; by rewrite El, ?Erk|];
       intros l r (? & ? & ? & ? & _)%Heq; congruence.
  pose proof (resplit_row_facts _ _ _ _ Er) as (_ & _ & _ & _ & _ & _ & _ & Hne & _).
  assert (resplits x e (left_half x (sk_start x + length lt) lk) (right_half (sk_start x + length lt) (sk_to e) rk)) as Hr
    by (apply Heq; exists lk, rk; done).
  pose proof (resplits_facts _ _ _ _ Hf Hsp Hr) as (H1 & _). cbn [right_half sk_from] in H1.
  destruct (selected_fits e He) as [_ Hen].
  destruct (append_split_adds c x (sk_to e) lt rt) as (c' & Hc' & Ha); [apply HI|done|lia|done|].
  exists c'. split; [done|].
  assert (adds (fun k => exists l r, resplits x e l r /\ (k = l \/ k = r)) c c') as Ha'.
  { eapply adds_ext; [|exact Ha]. intros k. by setoid_rewrite Heq. }
  split; [|done]. eapply next_inv_adds; [done|exact Ha'|]. intros k (l & r & Hlr & [->| ->]).
  - left. pose proof (resplits_facts _ _ _ _ Hf Hsp Hlr) as (_ & _ & _ & _ & _ & _ & E). lia.
  - right. intros s Hs. by apply (resplit_inside x e l r s).
Qed.

Lemma resplit_key_adds i x c :
  primary x -> sk_from x = i -> next_inv i c ->
  exists c', resplit_key c x = Some c' /\ next_inv i c' /\
    adds (fun k => exists e l r, resplits x e l r /\ (k = l \/ k = r)) c c'.
Proof using All.
  intros Hx Hi HI. destruct (primary_facts x Hx) as ([Hf Hn] & _ & s & Hs & Hto).
  unfold resplit_key. destruct (lookup_lt_is_Some_2 c (sk_to x)) as [next Hnext]; [destruct HI; lia|].
  rewrite Hnext.
  assert (forall e, e ∈ next <-> sk_from e = sk_to x /\ selected e) as Hin.
  { intros e. destruct HI as [_ H]. specialize (H s e Hs ltac:(lia)). rewrite <- Hto in H.
    rewrite <- H. unfold in_column. by rewrite Hnext. }
  destruct (for_each_adds (next_inv i) (fun e k => exists l r, resplits x e l r /\ (k = l \/ k = r))
    (resplit_next x) next c HI) as (c' & Hc & HI' & Ha).
  { intros e c0 [He Hse]%Hin Hc0. by apply resplit_next_adds. }
  exists c'. split; [done|]. split; [done|]. eapply adds_ext; [|exact Ha]. intros k. split.
  - intros (e & _ & l & r & H). eauto.
  - intros (e & l & r & H & Hk). exists e. split; [apply Hin; split; apply H|eauto].
Qed.

Lemma for_each_seq {A} (J : nat -> A -> Prop) (body : A -> nat -> option A) m i s :
  J i s -> (forall j s, i <= j < i + m -> J j s -> exists s', body s j = Some s' /\ J (S j) s') ->
  exists s', for_each (seq i m) body s = Some s' /\ J (i + m) s'.
Proof using.
  revert i s. induction m as [|m IH]; intros i s HJ Hb.
  { exists s. split; [done|]. by rewrite Nat.add_0_r. }
  destruct (Hb i s) as (s1 & H1 & HJ1); [lia|done|]. cbn [seq for_each]. rewrite H1. cbn [mbind option_bind].
  destruct (IH (S i) s1 HJ1) as (s2 & H2 & HJ2); [intros; apply Hb; [lia|done]|].
  exists s2. split; [done|]. by replace (i + S m) with (S i + m) by lia.
Qed.

Lemma resplit_column_inv i c :
  i < n -> resplit_inv i c -> exists c', resplit_column c i = Some c' /\ resplit_inv (S i) c'.
Proof using All.
  intros Hi [Hl HJ]. unfold resplit_column.
  destruct (lookup_lt_is_Some_2 c i) as [keys Hkeys]; [lia|]. rewrite Hkeys. cbn [mbind option_bind].
  assert (forall x, x ∈ keys <-> sk_from x = i /\ primary x) as Hin.
  { intros x. transitivity (in_column c i x); [unfold in_column; by rewrite Hkeys|]. rewrite HJ.
    split.
    - intros [Hx [Hs|(k & e & l & r & Hk & Hlt & Hr & Hx')]]; (split; [done|]); [by constructor|].
      pose proof (primary_facts k Hk) as (Hf & Hs & _).
      pose proof (resplits_facts k e l r Hf Hs Hr) as (_ & _ & _ & _ & _ & _ & E).
      destruct Hx' as [-> | ->]; [lia|by apply (primary_right k e l r)].
    - intros [Hx Hp]. split; [done|]. destruct Hp as [x Hs|k e l r Hk Hr]; [by left|right].
      exists k, e, l, r. split_and!; try done; [|by right].
      pose proof (primary_facts k Hk) as (Hf & Hs & _).
      pose proof (resplits_facts k e l r Hf Hs Hr) as (E & _). destruct Hf. lia. }
  destruct (for_each_adds (next_inv i)
    (fun x k => exists e l r, resplits x e l r /\ (k = l \/ k = r)) resplit_key keys c) as (c' & Hc & _ & Hl' & Ha).
  { split; [done|]. intros s k Hs Hlt. rewrite HJ. split; [|tauto].
    intros [Hf [Hk|(x & e & l & r & Hx & Hxi & Hr & Hk)]]; [done|]. exfalso.
    pose proof (primary_facts x Hx) as (Hfx & Hsx & _).
    pose proof (resplits_facts x e l r Hfx Hsx Hr) as (_ & _ & _ & _ & _ & _ & E).
    destruct Hk as [-> | ->]; [lia|]. by apply (resplit_inside x e l r s). }
  { intros x c0 [Hx Hp]%Hin Hc0. by apply resplit_key_adds. }
  exists c'. split; [done|]. split; [lia|]. intros p k. rewrite Ha, HJ. split.
  - intros [[Hf [Hk|(x & e & l & r & Hx & Hxi & Hr)]]|[Hf (x & [Hxi Hx]%Hin & e & l & r & Hr)]].
    + by split; [|left].
    + split; [done|right]. exists x, e, l, r. split_and!; try apply Hr; [done|lia].
    + split; [done|right]. exists x, e, l, r. split_and!; try apply Hr; [done|lia].
  - intros [Hf [Hk|(x & e & l & r & Hx & Hxi & Hr & Hk)]]; [left; by split; [|left]|].
    destruct (decide (sk_from x = i)) as [E|E].
    + right. split; [done|]. exists x. split; [by apply Hin|]. eauto.
    + left. split; [done|right]. exists x, e, l, r. split_and!; try done. lia.
Qed.

Definition resplit_keys (x : ScanKey) : Prop :=
  selected x \/ exists k e l r, primary k /\ resplits k e l r /\ (x = l \/ x = r).

(** The columns that hold exactly the keys of a set, each in its own. *)
Definition hold (M : ScanKey -> Prop) (c : list (list ScanKey)) : Prop :=
  length c = S n /\ forall p k, in_column c p k <-> sk_from k = p /\ M k.

Lemma resplit_step_holds c :
  hold selected c -> exists c', resplit_step c = Some c' /\ hold resplit_keys c'.
Proof using All.
  intros [Hl Hc]. unfold resplit_step. rewrite Hl. cbn [Nat.sub]. rewrite Nat.sub_0_r.
  destruct (for_each_seq resplit_inv resplit_column n 0 c) as (c' & H & Hl' & HJ).
  - split; [done|]. intros p k. rewrite Hc. split; [intros []; auto|].
    intros [Hf [Hk|(x & e & l & r & _ & Hlt & _)]]; [done|lia].
  - intros j s Hj. apply resplit_column_inv. lia.
  - exists c'. split; [done|]. split; [done|]. intros p k. rewrite HJ. unfold resplit_keys, halved. split.
    + intros [Hf [Hk|(x & e & l & r & Hx & _ & Hr)]]; (split; [done|]); [by left|right; eauto 10].
    + intros [Hf [Hk|(x & e & l & r & Hx & Hr)]]; (split; [done|]); [by left|right].
      exists x, e, l, r. split_and!; try apply Hr; [done|]. destruct (primary_facts x Hx) as ([? ?] & _). lia.
Qed.

Lemma resplit_keys_facts x :
  resplit_keys x -> fits_in x /\ tabled_spans x.
Proof using All.
  intros [Hs|(k & e & l & r & Hk & Hr & Hx)].
  { split; [by apply selected_fits|by intros ? ?; apply selected_spells]. }
  destruct (primary_facts k Hk) as (Hf & Hsp & _).
  pose proof (resplits_facts k e l r Hf Hsp Hr) as (_ & H1 & H2 & _ & H3 & H4 & _).
  destruct Hx as [-> | ->]; (split; [done|by intros _ _]).
Qed.

(** ** Dividing *)

Definition divides (k l r : ScanKey) : Prop :=
  sk_tone k = 0%Z /\
  exists lt rt, divided_row (text_of k) = Some (lt, rt) /\ splits k (sk_to k) lt rt l r.

Definition divided_keys (M : ScanKey -> Prop) (x : ScanKey) : Prop :=
  M x \/ exists k l r, M k /\ divides k l r /\ (x = l \/ x = r).

Lemma divides_facts k l r :
  fits_in k -> tabled_spans k -> divides k l r ->
  sk_from l = sk_from k /\ sk_from k < sk_from r /\ fits_in l /\ fits_in r /\
  divided_row (text_of r) = None.
Proof using.
  intros [Hf Hn] Hsp (H0 & lt & rt & Hrow & lk & rk & El & Er & -> & ->).
  apply divided_row_facts in Hrow as (Ht & Hl & Hns & Hl0 & Hr0 & Hno).
  destruct (Hsp H0 Ht) as [E|[E _]]; [|done].
  assert (length lt <> 0) as Hll by by destruct lt. assert (length rt <> 0) as Hrl by by destruct rt.
  unfold fits_in, text_of, left_half, right_half. cbn [sk_from sk_to sk_start sk_key].
  rewrite (from_text_spells _ _ Er). split_and!; done || lia.
Qed.

Section dividing.
Context (M : ScanKey -> Prop) (M_facts : forall k, M k -> fits_in k /\ tabled_spans k).

Lemma divide_key_adds c k :
  length c = S n -> fits_in k -> tabled_spans k ->
  exists c', divide_key c k = Some c' /\ length c' = S n /\
    adds (fun x => exists l r, divides k l r /\ (x = l \/ x = r)) c c'.
Proof using.
  intros Hl Hf Hsp. unfold divide_key.
  assert (forall (P : Prop), P -> (forall l r, divides k l r -> False) ->
    P /\ length c = S n /\ adds (fun x => exists l r, divides k l r /\ (x = l \/ x = r)) c c) as Hnone.
  { intros P HP Hno. split; [done|]. split; [done|]. apply (adds_ext (fun _ => False)); [|apply adds_none].
    intros x. split; [done|]. intros (l & r & H & _). by apply (Hno l r). }
  destruct (Z.eqb_spec (sk_tone k) 0) as [H0|H0]; cbn [negb].
  2: { exists c. apply Hnone; [done|]. by intros l r [? _]. }
  change (key_text (sk_key k)) with (text_of k).
  destruct (divided_row (text_of k)) as [[lt rt]|] eqn:E.
  2: { exists c. apply Hnone; [done|]. intros l r (_ & ? & ? & E' & _). congruence. }
  pose proof (divided_row_facts _ _ _ E) as (Ht & Hlr & Hns & Hl0 & Hr0 & _).
  destruct (Hsp H0 Ht) as [Es|[Es _]]; [|done]. destruct Hf as [Hf Hn].
  assert (length rt <> 0) as Hrl by by destruct rt.
  destruct (append_split_adds c k (sk_to k) lt rt) as (c' & Hc & Ha); [done|done|lia|done|].
  exists c'. split; [done|]. split; [by destruct Ha as [-> _]|]. eapply adds_ext; [|exact Ha].
  intros x. unfold divides. split.
  - intros (l & r & H & Hx). exists l, r. split; [|done]. split; [done|]. eauto.
  - intros (l & r & (_ & lt' & rt' & E' & H) & Hx). exists l, r. split; [congruence|done].
Qed.

Definition divide_inv (i : nat) (c : list (list ScanKey)) : Prop :=
  length c = S n /\
  forall p x, in_column c p x <-> sk_from x = p /\
    (M x \/ exists k l r, M k /\ sk_from k < i /\ divides k l r /\ (x = l \/ x = r)).

Lemma divide_column_inv i c :
  i < S n -> divide_inv i c -> exists c', divide_column c i = Some c' /\ divide_inv (S i) c'.
Proof using M_facts.
  intros Hi [Hl HJ]. unfold divide_column.
  destruct (lookup_lt_is_Some_2 c i) as [keys Hkeys]; [lia|]. rewrite Hkeys. cbn [mbind option_bind].
  assert (forall x, x ∈ keys <-> sk_from x = i /\
    (M x \/ exists k l, M k /\ sk_from k < i /\ divides k l x)) as Hin.
  { intros x. transitivity (in_column c i x); [unfold in_column; by rewrite Hkeys|]. rewrite HJ. split.
    - intros [Hx [Hm|(k & l & r & Hk & Hlt & Hd & Hlr)]]; (split; [done|]); [by left|].
      destruct (M_facts k Hk) as [Hf Hs]. pose proof (divides_facts k l r Hf Hs Hd) as (E & _).
      destruct Hlr as [-> | ->]; [lia|]. right. eauto.
    - intros [Hx [Hm|(k & l & Hk & Hlt & Hd)]]; (split; [done|]); [by left|right]. exists k, l, x. auto 10. }
  destruct (for_each_adds (fun c => length c = S n)
    (fun k x => exists l r, divides k l r /\ (x = l \/ x = r)) divide_key keys c) as (c' & Hc & Hl' & _ & Ha).
  { done. }
  { intros k c0 [_ Hk]%Hin Hc0. destruct Hk as [Hk|(k0 & l0 & Hk0 & _ & Hd)].
    - apply divide_key_adds; [done|by apply M_facts..].
    - destruct (M_facts k0 Hk0) as [Hf0 Hs0]. pose proof (divides_facts _ _ _ Hf0 Hs0 Hd) as (_ & _ & _ & Hf & Hno).
      apply divide_key_adds; [done|done|]. intros _ Ht.
      destruct Hd as (H0 & lt & rt & Hrow & lk & rk & El & Er & _ & ->).
      apply divided_row_facts in Hrow as (Ht0 & Hlen & Hns & _ & _ & _).
      destruct (Hs0 H0 Ht0) as [E|[E _]]; [|done].
      left. unfold text_of, right_half in *. cbn [sk_to sk_start sk_key] in *.
      rewrite (from_text_spells _ _ Er). destruct Hf0. lia. }
  exists c'. split; [done|]. split; [done|]. intros p x. rewrite Ha, HJ. split.
  - intros [[Hf [Hm|(k & l & r & Hk & Hlt & Hd)]]|[Hf (k & [Hki Hk]%Hin & l & r & Hd & Hx)]]; (split; [done|]).
    + by left.
    + right. exists k, l, r. split; [done|]. split; [lia|done].
    + right. destruct Hk as [Hk|(k0 & l0 & Hk0 & _ & Hd0)].
      * exists k, l, r. split_and!; try done. lia.
      * exfalso. destruct (M_facts k0 Hk0) as [Hf0 Hs0].
        pose proof (divides_facts _ _ _ Hf0 Hs0 Hd0) as (_ & _ & _ & _ & Hno).
        destruct Hd as (_ & ? & ? & E & _). congruence.
  - intros [Hf [Hm|(k & l & r & Hk & Hlt & Hd & Hx)]]; [left; by split; [|left]|].
    destruct (decide (sk_from k = i)) as [E|E].
    + right. split; [done|]. exists k. split; [apply Hin; by split; [|left]|eauto].
    + left. split; [done|right]. exists k, l, r. split_and!; try done. lia.
Qed.

Lemma inner_split_holds c :
  hold M c -> exists c', inner_split_step c = Some c' /\ hold (divided_keys M) c'.
Proof using M_facts.
  intros [Hl Hc]. unfold inner_split_step. rewrite Hl.
  destruct (for_each_seq divide_inv divide_column (S n) 0 c) as (c' & H & Hl' & HJ).
  - split; [done|]. intros p k. rewrite Hc. split; [intros []; auto|].
    intros [Hf [Hk|(x & l & r & _ & Hlt & _)]]; [done|lia].
  - intros j s Hj. apply divide_column_inv. lia.
  - exists c'. split; [done|]. split; [done|]. intros p k. rewrite HJ. unfold divided_keys. split.
    + intros [Hf [Hk|(x & l & r & Hx & _ & Hr)]]; (split; [done|]); [by left|right; eauto 10].
    + intros [Hf [Hk|(x & l & r & Hx & Hr)]]; (split; [done|]); [by left|right].
      exists x, l, r. split; [done|]. split; [|done]. destruct (M_facts x Hx) as [[? ?] _]. lia.
Qed.

Lemma divided_keys_fit x : divided_keys M x -> fits_in x.
Proof using M_facts.
  intros [Hm|(k & l & r & Hk & Hd & Hx)]; [by apply M_facts|]. destruct (M_facts k Hk) as [Hf Hs].
  pose proof (divides_facts k l r Hf Hs Hd) as (_ & _ & H1 & H2 & _). by destruct Hx as [-> | ->].
Qed.
End dividing.

(** ** Fuzzy alternates and the collapse *)

Definition with_fuzzy (options : OptionBits) (M : ScanKey -> Prop) (x : ScanKey) : Prop :=
  M x \/ exists k alternate, M k /\ alternate ∈ fuzzy_alternatives (sk_key k) options /\
            x = fuzzy_key (sk_from k) k alternate.

Lemma fuzzy_additions_elem c options x :
  x ∈ fuzzy_additions c options <->
  exists p k alternate, in_column c p k /\ alternate ∈ fuzzy_alternatives (sk_key k) options /\
    x = fuzzy_key p k alternate.
Proof using.
  unfold fuzzy_additions. rewrite elem_of_concat. split.
  - intros (l & (p & keys & -> & Hp)%elem_of_lookup_imap & Hx).
    apply list_elem_of_bind in Hx as (k & (alt & -> & Ha)%list_elem_of_fmap & Hk).
    exists p, k, alt. split_and!; [|done|done]. unfold in_column. by rewrite Hp.
  - intros (p & k & alt & Hin & Ha & ->). unfold in_column in Hin.
    destruct (c !! p) as [keys|] eqn:Hp; [|by apply not_elem_of_nil in Hin].
    eexists. split; [apply elem_of_lookup_imap; by exists p, keys|].
    apply list_elem_of_bind. exists k. split; [|done]. apply list_elem_of_fmap. eauto.
Qed.

Lemma place_all_holds (l : list ScanKey) M c :
  hold M c -> (forall k, k ∈ l -> sk_from k <= n) ->
  exists c', for_each l (fun c k => push_at c (sk_from k) k) c = Some c' /\ hold (fun k => M k \/ k ∈ l) c'.
Proof using.
  intros [Hl Hc] Hlt.
  destruct (for_each_adds (fun c => length c = S n) (fun x k => k = x)
    (fun c k => push_at c (sk_from k) k) l c) as (c' & H & _ & Hl' & Ha).
  - done.
  - intros k c0 Hk Hc0. destruct (push_adds c0 (sk_from k) k) as (c1 & H1 & Ha); [specialize (Hlt k Hk); lia|done|].
    exists c1. split; [done|]. split; [by destruct Ha; lia|done].
  - exists c'. split; [done|]. split; [lia|]. intros p k. rewrite Ha, Hc. split.
    + intros [[? ?]|[? (x & Hx & ->)]]; auto.
    + intros [? [?|?]]; [by left|right]. split; [done|]. by exists k.
Qed.

Lemma fuzzy_holds M c options :
  hold M c -> (forall k, M k -> fits_in k) ->
  exists c', for_each (fuzzy_additions c options) (fun c k => push_at c (sk_from k) k) c = Some c' /\
    hold (with_fuzzy options M) c'.
Proof using.
  intros Hh Hfit. pose proof Hh as [Hl Hc].
  destruct (place_all_holds (fuzzy_additions c options) M c Hh) as (c' & H & Hl' & Hc').
  { intros x (p & k & alt & [<- Hk]%Hc & _ & ->)%fuzzy_additions_elem. cbn. destruct (Hfit k Hk). lia. }
  exists c'. split; [done|]. split; [done|]. intros p x. rewrite Hc'. unfold with_fuzzy.
  rewrite fuzzy_additions_elem. split; (intros [Hf [Hm|(a & b & Hab)]]; split; [done|by left|done|right]).
  - destruct Hab as (alt & [<- Hk]%Hc & Ha & ->). eauto 10.
  - destruct Hab as (Hk & Ha & ->). exists (sk_from a), a, b. split; [by apply Hc|done].
Qed.
End passes.

(** What tells two paths of a column apart. *)
Definition path_of (k : ScanKey) : SyllableKey * nat * Z := (sk_key k, sk_to k, sk_tone k).

Lemma same_path_spec a b : same_path a b = true <-> path_of a = path_of b.
Proof.
  unfold same_path, path_of. rewrite !andb_true_iff, bool_decide_eq_true, Nat.eqb_eq, Z.eqb_eq.
  split; [intros [[-> ->] ->]; done|by intros [= -> -> ->]].
Qed.

(** [keep_first_in_column] keeps the first key of each path, in order. *)
Lemma keep_first_paths (column : list ScanKey) :
  keep_first column = firsts path_of column.
Proof.
  unfold firsts.
  set (B := fun i => path_of <$> column !! i ∉ (fun k => Some (path_of k)) <$> take i column).
  assert (forall m, m <= length column ->
    let st := fold_left keep_step (seq 0 m) (column, 0) in
    length st.1 = length column /\ drop m st.1 = drop m column /\ st.2 <= m /\
    take st.2 st.1 = omap (fun i => column !! i) (filter B (seq 0 m)) /\
    (forall p, p ∈ path_of <$> take st.2 st.1 <-> p ∈ path_of <$> take m column)) as Hinv.
  { induction m as [|m IH]; intros Hm; cbv zeta; [cbn; split_and!; try done; lia|].
    rewrite seq_S, Nat.add_0_l, fold_left_app, filter_app, omap_app. cbn [fold_left].
    specialize (IH ltac:(lia)). cbv zeta in IH.
    destruct (fold_left keep_step (seq 0 m) (column, 0)) as [col kept]. cbn [fst snd] in IH.
    destruct IH as (Hl & Hd & Hk & Ht & Hp). destruct (lookup_lt_is_Some_2 column m) as [x Hx]; [lia|].
    assert (col !! m = Some x) as Hcx.
    { pose proof (f_equal (fun l => l !! 0) Hd) as E. cbn in E. rewrite !lookup_drop, Nat.add_0_r in E. congruence. }
    unfold keep_step. rewrite Hcx.
    assert (existsb (fun earlier => same_path earlier x) (take kept col) = true <-> ~ B m) as Hex.
    { assert (B m <-> path_of x ∉ path_of <$> take m column) as HB.
      { unfold B. rewrite Hx. cbn [fmap option_fmap option_map]. rewrite !list_elem_of_fmap.
        split; intros Hn (k & E & Hk1); apply Hn; exists k; split; congruence. }
      assert (existsb (fun earlier => same_path earlier x) (take kept col) = true <->
        path_of x ∈ path_of <$> take m column) as ->.
      { rewrite existsb_exists, <- Hp, list_elem_of_fmap. split.
        - intros (k & Hk1%list_elem_of_In & E%same_path_spec). by exists k.
        - intros (k & E & Hk1). exists k. split; [by apply list_elem_of_In|by apply same_path_spec]. }
      rewrite HB. split; [auto|]. apply dec_stable. }
    rewrite (take_S_r _ _ _ Hx), fmap_app.
    assert (drop (S m) col = drop (S m) column) as Hd'
      by (replace (S m) with (m + 1) by lia; by rewrite <- !drop_drop, Hd).
    destruct (existsb _ _) eqn:E.
    - cbn [fst snd]. rewrite filter_cons_False, filter_nil by by apply Hex. cbn [omap list_omap]. rewrite app_nil_r.
      split_and!; try done; [lia|]. intros p. rewrite elem_of_app, Hp. split; [by left|].
      intros [?|Hs]; [done|]. apply list_elem_of_singleton in Hs as ->.
      assert (path_of x ∈ path_of <$> take kept col) as Hi%Hp; [|done].
      apply existsb_exists in E as (k & Hk1%list_elem_of_In & E%same_path_spec). apply list_elem_of_fmap. by exists k.
    - destruct (compact_keep col column kept m x) as [H1 H2]; [done..|]. cbn [fst snd].
      assert (B m) as HB. { apply dec_stable. intros Hn%Hex. congruence. }
      rewrite filter_cons_True, filter_nil by done. cbn [omap list_omap]. rewrite Hx, H1, Ht.
      split_and!; [by rewrite length_swap|done|lia|done|]. intros p. rewrite fmap_app, !elem_of_app, <- Ht, Hp. done. }
  specialize (Hinv (length column) ltac:(lia)). cbv zeta in Hinv. unfold keep_first.
  destruct (fold_left keep_step _ _) as [col kept]. apply Hinv.
Qed.

(** ** The selected parse of a graph *)

Lemma split_word_suffix t :
  t ∈ split_words -> t <> str "shua" /\
  Forall (fun s => ends_with t s = false) [str "iu"; str "ui"; str "un"; str "ong"].
Proof.
  assert (forallb (fun t => negb (bool_decide (t = str "shua"))
    && forallb (fun s => negb (ends_with t s)) [str "iu"; str "ui"; str "un"; str "ong"]) split_words = true) as H
    by (vm_compute; reflexivity).
  intros Ht. pose proof (forallb_elem _ _ _ H Ht) as Hs. clear H.
  apply andb_true_iff in Hs as [H1%negb_true_iff%bool_decide_eq_false H2]. split; [done|].
  apply Forall_forall. intros s Hs%list_elem_of_In. rewrite List.forallb_forall in H2.
  by apply negb_true_iff, H2.
Qed.

Lemma alias_span options t c :
  alias options t c -> c ∈ split_words -> length t = length c \/ (c = str "zhua" /\ length t = 3).
Proof.
  intros Ha Hc. apply split_word_suffix in Hc as [Hsh Hs].
  assert (forall stem s, s ∈ [str "iu"; str "ui"; str "un"; str "ong"] -> c <> stem ++ s) as Hno.
  { intros stem s Hin ->. rewrite Forall_forall in Hs. specialize (Hs s Hin).
    rewrite (proj2 (ends_with_spec _ _)) in Hs by eauto. done. }
  destruct Ha as [bit wrong fixed stem Hb Ho Hst|b rest|stem Ho Hst| |]; [|by left|..|by destruct Hsh|by right].
  - unfold suffix_rules in Hb. repeat (apply elem_of_cons in Hb as [Hb|Hb]; [injection Hb as -> -> ->|]).
    + left. by rewrite !length_app.
    + left. by rewrite !length_app.
    + exfalso. by apply (Hno stem (str "iu")); [do 0 apply list_elem_of_further; apply list_elem_of_here|].
    + exfalso. by apply (Hno stem (str "ui")); [do 1 apply list_elem_of_further; apply list_elem_of_here|].
    + exfalso. by apply (Hno stem (str "un")); [do 2 apply list_elem_of_further; apply list_elem_of_here|].
    + left. by rewrite !length_app.
    + by apply not_elem_of_nil in Hb.
  - exfalso. by apply (Hno stem (str "ong")); [do 3 apply list_elem_of_further; apply list_elem_of_here|].
Qed.

Lemma tone_split_plain text use force core :
  x00 ∉ text -> tone_split text use force = Some (core, 0%Z) -> core = text.
Proof.
  intros H0. unfold tone_split.
  assert (position (fun b => bool_decide (b = x00)) text = None) as Hp.
  { pose proof (position_spec (fun b => bool_decide (b = x00)) text) as H.
    destruct (position _ text) as [i|]; [|done]. destruct H as (b & Hi & Hb%bool_decide_eq_true).
    subst b. by apply list_elem_of_lookup_2 in Hi. }
  destruct (last text) as [digit|].
  - destruct (in_range 49 53 digit && use) eqn:E.
    + apply andb_true_iff in E as [E _]. unfold in_range in E. apply andb_true_iff in E as [E%Z.leb_le _].
      destruct (force && _); [done|]. destruct (_ && _); [|done]. intros H. injection H as _ H. lia.
    + clear E. destruct force; [done|]. cbn [andb]. rewrite Hp. cbn [default from_option id]. rewrite firstn_all.
      destruct (_ && _); [|done]. by intros [= ->].
  - destruct force; [done|]. cbn [andb]. rewrite Hp. cbn [default from_option id]. rewrite firstn_all.
    destruct (_ && _); [|done]. by intros [= ->].
Qed.

Lemma spelled_span text options key d :
  key_for_spelling text options = Some (key, d) -> key_text key ∈ split_words ->
  length text = length (key_text key) \/ (key_text key = str "zhua" /\ length text = 3).
Proof.
  unfold key_for_spelling, from_utf8. destruct (utf8_valid text); [|done]. cbn [mbind option_bind].
  unfold from_option_text_with_distance. destruct (from_text text) as [k|] eqn:E.
  { intros [= -> <-] _. left. by rewrite (from_text_spells _ _ E). }
  destruct (option_alias_canonical text options) as [c|] eqn:Ec; [|done]. cbn [mbind option_bind].
  apply option_alias_sound in Ec as [Ha _].
  destruct (from_canonical_text c) as [k|] eqn:Ek; [|done]. intros [= <- <-].
  apply from_canonical_text_inv in Ek as [_ ->]. by apply (alias_span options).
Qed.

Lemma edge_spells input options node s e :
  x00 ∉ input -> span_edge input options node s e -> Graph.tone e = 0%Z ->
  text_of (scan_from_edge e) ∈ split_words -> spans_text (scan_from_edge e).
Proof.
  intros H0 (len & k & t & d & Hl & Hp & ->) Ht Hw. cbn [Graph.tone] in Ht. subst t.
  pose proof (parse_span_fits _ _ _ _ _ Hp) as Hfit. unfold parse_span in Hp.
  destruct (Nat.ltb_spec (Nat.min (MAX_SYLLABLE_LEN + 1) (length input - s)) len) as [|Hle]; [done|].
  destruct (tone_split _ _ _) as [[core t]|] eqn:Et; [|done]. cbn [mbind option_bind] in Hp.
  destruct (key_for_spelling core options) as [[k' d']|] eqn:Ek; [|done]. cbn [mbind option_bind] in Hp.
  injection Hp as -> -> ->. apply tone_split_plain in Et as ->.
  2: { intros Hin. apply H0. apply list_elem_of_In in Hin. apply list_elem_of_In.
       rewrite <- (take_drop s input). apply List.in_or_app. right.
       rewrite <- (take_drop len (drop s input)). apply List.in_or_app. by left. }
  unfold spans_text, text_of, scan_from_edge in *. cbn [sk_key sk_to sk_start Graph.key to syllable_start] in *.
  assert (length (take len (drop s input)) = len) as Hlen by (rewrite length_take, length_drop; lia).
  destruct (spelled_span _ _ _ _ Ek Hw) as [E|[E E3]]; [left; lia|right].
  rewrite E. split; [by left|]. replace (s + len - s) with 3 by lia. done.
Qed.

(** Two edges of a path meet in at most a position. *)
Lemma path_apart (E : nat -> list Edge) a b p e k :
  (forall m x, x ∈ E m -> from x = m /\ m < to x) -> path E a b p -> e ∈ p -> k ∈ p ->
  a <= from e /\ from e < to e <= b /\ (e = k \/ to e <= from k \/ to k <= from e).
Proof.
  intros Hfwd. revert a e k. induction p as [|x p IH]; intros a e k Hp He Hk; [by apply not_elem_of_nil in He|].
  destruct Hp as [Hx Hp]. destruct (Hfwd _ _ Hx) as [<- Hlt].
  assert (forall y, y ∈ p -> to x <= from y /\ from y < to y <= b) as Hrest
    by (intros y Hy; destruct (IH _ _ _ Hp Hy Hy); tauto).
  assert (to x <= b) as Hb by (apply (path_le E) in Hp; [lia|apply Hfwd]).
  apply elem_of_cons in He as [->|He], Hk as [->|Hk]; [by auto| |..].
  - specialize (Hrest k Hk). split_and!; try lia; auto; right; left; lia.
  - specialize (Hrest e He). split_and!; try lia; auto; right; right; lia.
  - destruct (IH _ _ _ Hp He Hk) as (H1 & H2 & H3). split_and!; try lia. done.
Qed.

Definition selected_of (edges : list Edge) (k : ScanKey) : Prop := k ∈ scan_from_edge <$> edges.

Lemma selected_path_facts g allow n p :
  (forall m e, e ∈ outgoing g m -> from e = m /\ m <= syllable_start e < to e) ->
  path (usable g allow) 0 n p -> n <= consumed g ->
  (forall k, selected_of p k -> fits_in (consumed g) k) /\
  (forall k, selected_of p k -> sk_crosses k = false -> sk_start k = sk_from k) /\
  (forall k e, selected_of p k -> selected_of p e -> ~ (sk_from e < sk_to k < sk_to e)).
Proof.
  intros Hfwd Hp Hn.
  assert (forall m x, x ∈ usable g allow m -> from x = m /\ m < to x) as Hfwd'
    by (intros m x Hx%usable_outgoing%Hfwd; lia).
  assert (forall e, e ∈ p -> from e <= syllable_start e < to e) as Hin.
  { intros e He. apply list_elem_of_split in He as (l1 & l2 & ->). apply path_app in Hp as (c & _ & He & _).
    apply usable_outgoing, Hfwd in He. lia. }
  split_and!.
  - intros k (e & -> & He)%list_elem_of_fmap. pose proof (Hin e He).
    destruct (path_apart _ _ _ _ e e Hfwd' Hp He He). unfold fits_in, scan_from_edge. cbn. lia.
  - intros k (e & -> & He)%list_elem_of_fmap. pose proof (Hin e He).
    unfold scan_from_edge, crosses_separator. cbn [sk_crosses sk_start sk_from]. intros Hx%Nat.ltb_ge. lia.
  - intros k' e' (k & -> & Hk)%list_elem_of_fmap (e & -> & He)%list_elem_of_fmap.
    unfold scan_from_edge. cbn [sk_from sk_to].
    pose proof (Hin k Hk). destruct (path_apart _ _ _ _ e k Hfwd' Hp He Hk) as (_ & _ & [->|[|]]); lia.
Qed.

Lemma built_path_bound input options g allow n p :
  build_with_options input options = Ok g -> path (usable g allow) 0 n p -> n <= consumed g.
Proof.
  intros Hb Hp. apply (built_consumed input options g n Hb).
  by apply (path_walk input (usable g allow) _ _ p (usable_outgoing g allow)).
Qed.

Lemma built_selected input options g allow :
  build_with_options input options = Ok g ->
  exists n, path (usable g allow) 0 n (fewest_keys g allow) /\ n <= consumed g /\
    (forall m e, e ∈ outgoing g m -> from e = m /\ m <= syllable_start e < to e).
Proof.
  intros Hb. assert (forall m e, e ∈ outgoing g m -> from e = m /\ m <= syllable_start e < to e) as Hfwd
    by (intros m e He; apply (built_edge input options) in He; [tauto|done]).
  destruct (fewest_keys_best g allow) as (n & Hp & _).
  - intros m e He%Hfwd. lia.
  - intros m p. by apply (built_path_bound input options).
  - exists n. split_and!; [done| |done]. by eapply built_path_bound.
Qed.

Lemma exact_selected input segments g allow :
  build_exact input segments = Ok g ->
  exists n, path (usable g allow) 0 n (fewest_keys g allow) /\ n <= consumed g /\
    (forall m e, e ∈ outgoing g m -> from e = m /\ m <= syllable_start e < to e).
Proof.
  intros Hb. destruct (exact_paths input segments g allow Hb) as (Hfwd & _ & Hbound).
  destruct (fewest_keys_best g allow) as (n & Hp & _); [|done|].
  - intros m e He%Hfwd. lia.
  - exists n. split; [done|]. split; [by eapply Hbound|]. done.
Qed.

(** The keys the columns of a matrix are to hold. *)
Definition matrix_keys (selected : ScanKey -> Prop) (options : OptionBits) (divided : bool) : ScanKey -> Prop :=
  let resplit := if divided && has_resplit_table options then resplit_keys selected else selected in
  with_fuzzy options (if divided && has_divided_table options then divided_keys resplit else resplit).

Lemma extend_matrix_holds n selected options divided c :
  (forall k, selected k -> fits_in n k) ->
  (forall k, selected k -> sk_crosses k = false -> sk_start k = sk_from k) ->
  (forall k e, selected k -> selected e -> ~ (sk_from e < sk_to k < sk_to e)) ->
  (divided = true -> forall k, selected k -> tabled_spans k) ->
  hold n selected c ->
  exists c', extend_matrix c options divided = Some (keep_first_in_column c') /\
    hold n (matrix_keys selected options divided) c' /\
    forall k, matrix_keys selected options divided k -> fits_in n k.
Proof.
  intros Hf Hst Hap Hsp Hh. unfold extend_matrix, matrix_keys.
  set (M1 := if divided && has_resplit_table options then resplit_keys selected else selected).
  assert (exists c1, (if divided && has_resplit_table options then resplit_step c else Some c) = Some c1 /\
    hold n M1 c1 /\ (forall k, M1 k -> fits_in n k) /\ (divided = true -> forall k, M1 k -> tabled_spans k))
    as (c1 & -> & H1 & F1 & T1).
  { unfold M1. destruct divided; [destruct (has_resplit_table options)|]; cbn [andb]; [|by exists c..].
    destruct (resplit_step_holds n selected Hf Hst Hap (Hsp eq_refl) c Hh) as (c1 & E & H).
    exists c1. split; [done|]. split; [done|].
    pose proof (resplit_keys_facts n selected Hf Hst Hap (Hsp eq_refl)) as Hk. split; [|intros _]; intros k; apply Hk. }
  cbn [mbind option_bind]. clearbody M1.
  set (M2 := if divided && has_divided_table options then divided_keys M1 else M1).
  assert (exists c2, (if divided && has_divided_table options then inner_split_step c1 else Some c1) = Some c2 /\
    hold n M2 c2 /\ (forall k, M2 k -> fits_in n k)) as (c2 & -> & H2 & F2).
  { unfold M2. destruct divided; [destruct (has_divided_table options)|]; cbn [andb]; [|by exists c1..].
    assert (forall k, M1 k -> fits_in n k /\ tabled_spans k) as HM by (intros k Hk; split; auto).
    destruct (inner_split_holds n M1 HM c1 H1) as (c2 & E & H). exists c2. split; [done|]. split; [done|].
    by apply divided_keys_fit. }
  cbn [mbind option_bind]. clearbody M2.
  destruct (fuzzy_holds n M2 c2 options H2 F2) as (c3 & -> & H3). cbn [mbind option_bind].
  exists c3. split; [done|]. split; [done|]. intros k [Hk|(k0 & alt & Hk0 & _ & ->)]; [by apply F2|].
  apply F2 in Hk0. exact Hk0.
Qed.

(** The matrix of a parse holds a key for every path its rules make, once,
    and nothing else. *)
Lemma scan_matrix_holds g options divided selected_edges selected :
  selected = selected_of selected_edges ->
  (forall k, selected k -> fits_in (consumed g) k) ->
  (forall k, selected k -> sk_crosses k = false -> sk_start k = sk_from k) ->
  (forall k e, selected k -> selected e -> ~ (sk_from e < sk_to k < sk_to e)) ->
  (divided = true -> forall k, selected k -> tabled_spans k) ->
  exists columns, build_scan_matrix_over g selected_edges options divided = Some columns /\
    length columns = consumed g + 1 /\
    (forall p column, columns !! p = Some column -> NoDup (path_of <$> column) /\
       forall k, k ∈ column -> sk_from k = p /\ fits_in (consumed g) k /\ matrix_keys selected options divided k) /\
    forall k, matrix_keys selected options divided k ->
      exists k', in_column columns (sk_from k) k' /\ path_of k' = path_of k.
Proof.
  intros -> Hf Hst Hap Hsp. unfold build_scan_matrix_over. set (n := consumed g) in *.
  destruct (place_all_holds n (scan_from_edge <$> selected_edges) (fun _ => False) (replicate (n + 1) []))
    as (c & -> & Hh).
  { split; [rewrite length_replicate; lia|]. intros p k. unfold in_column.
    split; [|tauto]. destruct (replicate _ _ !! p) as [l|] eqn:E; [|by intros ?%not_elem_of_nil].
    apply lookup_replicate in E as [-> _]. by intros ?%not_elem_of_nil. }
  { intros k [Hk Hn]%Hf. lia. }
  cbn [mbind option_bind].
  destruct (extend_matrix_holds n (selected_of selected_edges) options divided c Hf Hst Hap Hsp) as (c' & -> & [Hl Hh'] & Hfit).
  { destruct Hh as [Hl Hh]. split; [done|]. intros p k. rewrite Hh. unfold selected_of. tauto. }
  exists (keep_first_in_column c'). unfold keep_first_in_column. split; [done|].
  split; [rewrite length_fmap; lia|]. split.
  - intros p column Hp. rewrite list_lookup_fmap in Hp. destruct (c' !! p) as [l|] eqn:E; [|done].
    injection Hp as <-. rewrite keep_first_paths. split; [apply firsts_NoDup|].
    intros k Hk%firsts_elem. specialize (Hh' p k). unfold in_column in Hh'. rewrite E in Hh'.
    apply Hh' in Hk as [<- Hk]. split; [done|]. split; [by apply Hfit|done].
  - intros k Hk. assert (in_column c' (sk_from k) k) as Hin by by apply Hh'.
    unfold in_column in *. rewrite list_lookup_fmap. destruct (c' !! sk_from k) as [l|]; [|by apply not_elem_of_nil in Hin].
    cbn in *. rewrite keep_first_paths. by apply firsts_cover.
Qed.

(** On what a parse makes, the facts of [scan_matrix_holds] hold. *)
Lemma parsed_scan_matrix input options segments g divided :
  (build_with_options input options = Ok g /\ x00 ∉ input) \/
  (build_exact input segments = Ok g /\ divided = false) ->
  let selected := selected_of (fewest_keys g (has_incomplete options)) in
  exists columns, build_scan_matrix g options divided = Some columns /\
    length columns = consumed g + 1 /\
    (forall p column, columns !! p = Some column -> NoDup (path_of <$> column) /\
       forall k, k ∈ column -> sk_from k = p /\ fits_in (consumed g) k /\ matrix_keys selected options divided k) /\
    forall k, matrix_keys selected options divided k ->
      exists k', in_column columns (sk_from k) k' /\ path_of k' = path_of k.
Proof.
  intros Hg selected. set (p := fewest_keys g (has_incomplete options)) in *.
  assert (exists n, path (usable g (has_incomplete options)) 0 n p /\ n <= consumed g /\
    (forall m e, e ∈ outgoing g m -> from e = m /\ m <= syllable_start e < to e)) as (n & Hp & Hn & Hfwd).
  { destruct Hg as [[Hb _]|[Hb _]]; [by eapply built_selected|by eapply exact_selected]. }
  destruct (selected_path_facts g _ n p Hfwd Hp Hn) as (Hf & Hst & Hap).
  apply (scan_matrix_holds g options divided p selected); [done..|].
  intros Hd. destruct Hg as [[Hb H0]|[_ ->]]; [|done]. intros k (e & -> & He)%list_elem_of_fmap Ht Hw.
  apply list_elem_of_split in He as (l1 & l2 & Ep). rewrite Ep in Hp. apply path_app in Hp as (m & _ & He & _).
  apply usable_outgoing, (built_edge input options) in He as (_ & _ & _ & s & _ & Hs); [|done].
  pose proof Hs as (? & ? & ? & ? & _ & _ & Es). by eapply edge_spells.
Qed.

(** C8. The key columns of a parse. On a graph built from text without NUL, or
    from exact segments without the split tables, the build answers and panics
    on no index, with one column for each position up to what the graph
    consumed. A column holds every key at its own position, each key of it
    inside the input and each (key, end, tone) once, and the columns hold
    exactly these paths: the selected fewest keys, the halves the split tables
    add to them and to halves of one another, and the fuzzy alternates of
    all of these under the options. *)
Theorem scan_matrix_exact input options segments g divided :
  (build_with_options input options = Ok g /\ x00 ∉ input) \/
  (build_exact input segments = Ok g /\ divided = false) ->
  let selected := selected_of (fewest_keys g (has_incomplete options)) in
  exists columns, build_scan_matrix g options divided = Some columns /\
    length columns = consumed g + 1 /\
    (forall p column, columns !! p = Some column -> NoDup (path_of <$> column) /\
       forall k, k ∈ column -> sk_from k = p /\ fits_in (consumed g) k /\ matrix_keys selected options divided k) /\
    forall k, matrix_keys selected options divided k ->
      exists k', in_column columns (sk_from k) k' /\ path_of k' = path_of k.
Proof. apply parsed_scan_matrix. Qed.

Definition sample_options : OptionBits :=
  Z.lor (Z.lor PINYIN_INCOMPLETE USE_DIVIDED_TABLE) (Z.lor USE_RESPLIT_TABLE PINYIN_AMB_AN_ANG).

Lemma scan_matrix_exact_witness :
  exists g columns, build_with_options (str "jinganxian") sample_options = Ok g /\
    build_scan_matrix g sample_options true = Some columns /\
    ((fun column : list ScanKey => (fun k => (text_of k, sk_to k)) <$> column) <$> columns !! 6) =
      Some [(str "xian", 10); (str "xi", 8); (str "xiang", 10)] /\
    forall p column, columns !! p = Some column -> NoDup (path_of <$> column).
Proof.
  destruct (build_with_options (str "jinganxian") sample_options) as [g|] eqn:E;
    [|exfalso; vm_compute in E; discriminate].
  destruct (scan_matrix_exact (str "jinganxian") sample_options [] g true) as (columns & Hc & _ & Hcol & _).
  { left. split; [exact E|]. assert (negb (bool_decide (x00 ∈ str "jinganxian")) = true) as H by (vm_compute; reflexivity).
    by apply negb_true_iff, bool_decide_eq_false in H. }
  exists g, columns. split; [reflexivity|]. split; [exact Hc|]. split; [|intros p column Hp; apply (Hcol p column Hp)].
  vm_compute in E. injection E as <-. vm_compute in Hc. injection Hc as <-. vm_compute. reflexivity.
Defined.
