(* ===== verification/WindowScan.v ===== *)
(** * WindowScan: the expanding window over a retained parse

    [collect_window_scan], [scan_parsed_paths], [search_scan_path] and
    [lookup_and_append] of [crates/oxpinyin-engine/src/session/lookup.rs],
    with what they ask of a dictionary and the bodies the trait [Dictionary]
    of [crates/oxpinyin-core/src/lib.rs] gives those methods. A buffer a
    method fills is part of its answer. *)

From Stdlib Require Import ZArith Lia Bool Strings.Byte.
From stdpp Require Import base list gmap.
From S2P Require Import Prelude Vocab Ucs4 Graph Models Scoring Sorting Ranking ScanMatrix.
#[local] Open Scope result_scope.

(** ** What the scan asks of a dictionary *)

(** [candidate_search_into] answers the entries, whether an item could not be
    read, and whether a stored phrase goes on from the keys. *)
Class CandidateDictionary (D : Type) `{Dictionary D} : Type := {
  candidate_search : D -> list SyllableKey -> list Z -> result (option (list PhraseEntry * bool * bool)) bytes;
  lookup_candidates : D -> list SyllableKey -> result (list PhraseEntry * bool) bytes;
  toned_records : D -> list SyllableKey -> list Z -> result (list PhraseEntry) bytes;
  lookup_addon_candidates : D -> list SyllableKey -> result (list PhraseEntry) bytes;
  phrase_prefix_exists : D -> list SyllableKey -> result bool bytes;
  phrase_prefix_exists_addon : D -> list SyllableKey -> result bool bytes
}.

Section defaults.
Context {D : Type} (lookup_ lookup_addon : D -> list SyllableKey -> result (list PhraseEntry) bytes).

Definition default_lookup_into (d : D) (syllables : list SyllableKey) : result (list PhraseEntry) bytes :=
  lookup_ d syllables.

Definition default_lookup_into_flagged (d : D) (syllables : list SyllableKey)
    : result (list PhraseEntry * bool) bytes :=
  try entries := default_lookup_into d syllables in Ok (entries, false).

Definition default_lookup_candidates (d : D) (syllables : list SyllableKey)
    : result (list PhraseEntry * bool) bytes :=
  default_lookup_into_flagged d syllables.

Definition default_candidate_search (_ : D) (_ : list SyllableKey) (_ : list Z)
    : result (option (list PhraseEntry * bool * bool)) bytes :=
  Ok None.

Definition default_lookup_addon_into (d : D) (syllables : list SyllableKey) : result (list PhraseEntry) bytes :=
  lookup_addon d syllables.

Definition default_lookup_addon_candidates (d : D) (syllables : list SyllableKey)
    : result (list PhraseEntry) bytes :=
  default_lookup_addon_into d syllables.
End defaults.

Definition default_lookup_addon {D} (_ : D) (_ : list SyllableKey) : result (list PhraseEntry) bytes := Ok [].
Definition default_prefix_exists {D} (_ : D) (_ : list SyllableKey) : result bool bytes := Ok true.
Definition default_prefix_exists_addon {D} (_ : D) (_ : list SyllableKey) : result bool bytes := Ok false.

(** ** The search of one key path *)

(** What a search fills: the rows of both facades and the two flags. *)
Record ScanBuf : Type := mk_scan_buf {
  system : list Candidate;
  addon : list Candidate;
  continued : bool;
  unreadable : bool
}.

Definition set_continued (b : ScanBuf) (c : bool) : ScanBuf :=
  {| system := system b; addon := addon b; continued := continued b || c; unreadable := unreadable b |}.

Definition set_unreadable (b : ScanBuf) (u : bool) : ScanBuf :=
  {| system := system b; addon := addon b; continued := continued b; unreadable := unreadable b || u |}.

Definition push_system (b : ScanBuf) (entries : list PhraseEntry) (keys end_ : nat) : ScanBuf :=
  {| system := append_scan_entries entries keys end_ Phrase (system b); addon := addon b;
     continued := continued b; unreadable := unreadable b |}.

Definition push_addon (b : ScanBuf) (entries : list PhraseEntry) (keys end_ : nat) : ScanBuf :=
  {| system := system b; addon := append_scan_entries entries keys end_ Addon (addon b);
     continued := continued b; unreadable := unreadable b |}.

Definition from_dictionary {A} (r : result A bytes) : result A EngineError :=
  map_err (fun error => Scoring (DictionaryError error)) r.

Section scan.
Context {D : Type} `{CandidateDictionary D} (dictionary : D).

Definition token_found (toned : list Z) (token : Z) : bool :=
  match binary_search_by (fun t => (t ?= token)%Z) toned with inl _ => true | inr _ => false end.

(** The entries of a lookup whose tokens a toned search answers too. *)
Definition toned_entries (sequence : list SyllableKey) (tones : list Z) (entries : list PhraseEntry)
    : result (list PhraseEntry) EngineError :=
  if existsb (fun tone => negb (tone =? 0)%Z) tones then
    try records := from_dictionary (toned_records dictionary sequence tones) in
    let toned := sort_by Z.compare (entry_token <$> records) in
    Ok (filter (fun entry => token_found toned (entry_token entry) = true) entries)
  else Ok entries.

Definition lookup_and_append (sequence : list SyllableKey) (tones : list Z) (end_ : nat) (b : ScanBuf)
    : result (ScanBuf * bool) EngineError :=
  try '(entries, failed) := from_dictionary (lookup_candidates dictionary sequence) in
  try entries := toned_entries sequence tones entries in
  let b := push_system b entries (length sequence) end_ in
  try entries := from_dictionary (lookup_addon_candidates dictionary sequence) in
  Ok (push_addon b entries (length sequence) end_, failed).

(** The lookups of a path's completions, in turn. *)
Fixpoint lookup_each (sequences : list (list SyllableKey)) (tones : list Z) (end_ : nat) (b : ScanBuf)
    : result ScanBuf EngineError :=
  match sequences with
  | [] => Ok b
  | sequence :: sequences =>
      try '(b, failed) := lookup_and_append sequence tones end_ b in
      lookup_each sequences tones end_ (set_unreadable b failed)
  end.

Definition search_scan_path (explicit : bool) (span_base : nat) (path : list SyllableKey) (tones : list Z)
    (end_ : nat) (b : ScanBuf) : result ScanBuf EngineError :=
  let end_ := end_ - span_base in
  try checked := (if explicit then check_toned_incomplete path tones else Ok tt) in
  try found := from_dictionary (candidate_search dictionary path tones) in
  match found with
  | Some (entries, failed_item, extends) =>
      let b := set_continued (set_unreadable b failed_item) extends in
      let b := push_system b entries (length path) end_ in
      try entries := from_dictionary (lookup_addon_candidates dictionary path) in
      let b := push_addon b entries (length path) end_ in
      try extends := from_dictionary (phrase_prefix_exists_addon dictionary path) in
      Ok (set_continued b extends)
  | None =>
      let has_incomplete := existsb (fun key => bool_decide (completeness key = Partial)) path in
      let sequences :=
        if has_incomplete && negb (handles_partial_keys dictionary)
        then expand_keys path SCAN_EXPANSION_LIMIT else [path] in
      try b := lookup_each sequences tones end_ b in
      try can_extend := from_dictionary (phrase_prefix_exists dictionary path) in
      try addon_extend := from_dictionary (phrase_prefix_exists_addon dictionary path) in
      Ok (set_continued b (can_extend || addon_extend))
  end.

(** ** The key paths of a window *)

Section paths.
Context (explicit : bool) (span_base : nat) (matrix : ParsedMatrix) (end_ : nat).

(** [fuel] bounds the calls; the path is the keys pushed, first one first. *)
Fixpoint scan_parsed_paths (fuel : nat) (node : nat) (path : list ScanKey) (b : ScanBuf)
    : result ScanBuf EngineError :=
  match fuel with
  | O => Ok b
  | S fuel =>
      if match pm_columns matrix !! end_ with Some (_ :: _) => false | _ => true end
         && negb (default false (pm_zeros matrix !! end_))
      then Ok b
      else if (node <? end_) && default false (pm_zeros matrix !! node)
      then scan_parsed_paths fuel (node + 1) path b
      else
        (fix each (column : list ScanKey) (b : ScanBuf) : result ScanBuf EngineError :=
           match column with
           | [] => Ok b
           | key :: column =>
               if end_ <? sk_to key then each column (set_continued b true)
               else
                 let path := path ++ [key] in
                 try b :=
                   (if sk_to key =? end_
                    then search_scan_path explicit span_base (sk_key <$> path) (sk_tone <$> path) end_ b
                    else if length path <? MAX_PHRASE_LENGTH
                    then scan_parsed_paths fuel (sk_to key) path b
                    else Ok b) in
                 each column b
           end) (default [] (pm_columns matrix !! node)) b
  end.

(** Enough calls for any matrix: each key pushed leaves fewer to push, and
    between two keys only separators are stepped over. *)
Definition scan_fuel : nat := (MAX_PHRASE_LENGTH + 1) * (end_ + 2).
End paths.

(** ** The window *)

Section window.
Context (explicit : bool) (matrix : ParsedMatrix) (input : bytes) (anchor : nat).

(** The [while] that skips separators: the end of the run from [end_]. *)
Fixpoint skip_separators (fuel : nat) (bound end_ : nat) : nat :=
  match fuel with
  | O => end_
  | S fuel =>
      if (end_ <=? bound) && bool_decide (input !! (end_ - 1) = Some apostrophe)
      then skip_separators fuel bound (S end_) else end_
  end.

(** One turn: the window [anchor, anchor + end_) searched and put in order. *)
Definition scan_one (end_ : nat) (into : list Candidate) (failed : bool)
    : result (list Candidate * bool * bool) EngineError :=
  let continued0 :=
    match pm_columns matrix !! (anchor + end_) with Some (_ :: _) => false | _ => true end in
  try b := scan_parsed_paths explicit anchor matrix (anchor + end_) (scan_fuel (anchor + end_)) anchor []
             {| system := into; addon := []; continued := continued0; unreadable := failed |} in
  let into := flush_window_batch (addon b) (order_window_tail (system b) (length into)) in
  Ok (into, continued b, unreadable b).

Fixpoint scan_windows (fuel : nat) (bound end_ : nat) (into : list Candidate) (failed : bool)
    : result (list Candidate * bool) EngineError :=
  match fuel with
  | O => Ok (into, failed)
  | S fuel =>
      if end_ <=? bound then
        try '(rows, continued, failed) := scan_one end_ into failed in
        if negb continued && negb (length rows =? length into) then Ok (rows, failed)
        else scan_windows fuel bound (skip_separators (bound - end_) bound (S end_)) rows failed
      else Ok (into, failed)
  end.
End window.

(** [input] is what remains from the anchor; [len] is the whole input's length. *)
Definition collect_window_scan (explicit : bool) (parse : option ParsedMatrix) (len : nat) (input : bytes)
    (into : list Candidate) : result (list Candidate * bool) EngineError :=
  match parse with
  | None => Ok (into, false)
  | Some retained =>
      let anchor := len - length input in
      let bound := pm_bound retained - anchor in
      scan_windows explicit retained input anchor (S bound) bound 1 into false
  end.
End scan.
