(* ===== verification/WindowScanSpec.v ===== *)
(** * WindowScanSpec: what the expanding window collects

    The order a window is put in is one stable sort and one first of each
    token, and the check that skips it changes nothing. The recursive scan is
    a search of the key paths of the matrix, and the window loop collects what
    the dictionary offers for them, window by window. *)

From Stdlib Require Import ZArith Lia Bool Strings.Byte.
From stdpp Require Import base list gmap sorting.
From S2P Require Import Prelude ByteOrder Sorting Vocab Ucs4 Graph Models Scoring Ranking RankingSpec ScanMatrix WindowScan.

(** ** The order of a window *)

Definition by_library (l r : Candidate) : comparison := (token_library l ?= token_library r)%Z.

(** The rows of a window by library, in the order they were found, each token
    once. *)
Definition window_order (rows : list Candidate) : list Candidate :=
  firsts cand_token (sort_by by_library rows).

Lemma by_library_key x y :
  by_library x y = lex_compare [token_library x] [token_library y].
Proof. unfold by_library. cbn. by destruct (_ ?= _)%Z. Qed.

Lemma strictly_increasing_sorted previous rows :
  strictly_increasing_from previous rows = true ->
  exists tokens, cand_token <$> rows = Some <$> tokens /\ StronglySorted Z.lt tokens /\
    forall p t, previous = Some p -> t ∈ tokens -> (p < t)%Z.
Proof.
  revert previous. induction rows as [|c rows IH]; intros previous; cbn [strictly_increasing_from].
  { intros _. exists []. split; [done|]. split; [constructor|]. by intros p t _ ?%not_elem_of_nil. }
  destruct (cand_token c) as [token|] eqn:Hc; [|done]. intros H.
  assert ((forall p, previous = Some p -> (p < token)%Z) /\ strictly_increasing_from (Some token) rows = true) as [Hp Hr].
  { destruct previous as [p|]; [|by split].
    destruct (Z.leb_spec token p); [done|]. split; [|done]. intros q [= ->]. done. }
  destruct (IH _ Hr) as (tokens & Ht & Hs & Hlt). exists (token :: tokens).
  split; [by rewrite !fmap_cons, Hc, Ht|]. split.
  - constructor; [done|]. apply Forall_forall. intros t Hin. by apply (Hlt token).
  - intros p t Hprev [->|Hin]%elem_of_cons; [by apply Hp|].
    specialize (Hp p Hprev). specialize (Hlt token t eq_refl Hin). lia.
Qed.

Lemma token_library_mono s t : (s < t)%Z -> (Z.shiftr s 24 <= Z.shiftr t 24)%Z.
Proof. intros H. rewrite !Z.shiftr_div_pow2 by lia. apply Z.div_le_mono; lia. Qed.

(** The check that skips the sort is right to. *)
Lemma window_order_increasing rows :
  window_tokens_are_strictly_increasing rows = true -> window_order rows = rows.
Proof.
  intros (tokens & Ht & Hs & _)%strictly_increasing_sorted. unfold window_order.
  assert (StronglySorted (fun x y => by_library x y <> Gt) rows) as Hlib.
  { clear - Ht Hs. revert tokens Ht Hs. induction rows as [|c rows IH]; intros tokens Ht Hs; [constructor|].
    destruct tokens as [|t tokens]; [done|]. rewrite !fmap_cons in Ht. injection Ht as Hc Ht.
    apply StronglySorted_inv in Hs as [Hs Hlt]. constructor; [by eapply IH|].
    apply Forall_forall. intros d Hd. unfold by_library, token_library. rewrite Hc.
    assert (cand_token d ∈ cand_token <$> rows) as Hin by by apply list_elem_of_fmap_2.
    rewrite Ht in Hin. apply list_elem_of_fmap in Hin as (t' & -> & Hin).
    rewrite Forall_forall in Hlt. specialize (Hlt t' Hin). apply token_library_mono in Hlt.
    intros E. apply Z.compare_gt_iff in E. lia. }
  rewrite sort_by_id by done. apply firsts_id. rewrite Ht.
  apply NoDup_fmap_2; [by intros ? ? [= ->]|]. clear - Hs.
  induction Hs as [|t l Hs IH Hlt]; constructor; [|done]. intros Hin.
  rewrite Forall_forall in Hlt. specialize (Hlt t Hin). lia.
Qed.

(** The compaction keeps the first row of each token. *)
Lemma sort_dedup_window into start :
  start <= length into -> Forall (fun c => is_Some (cand_token c)) (drop start into) ->
  sort_dedup_window_tail into start = take start into ++ window_order (drop start into).
Proof.
  intros Hst Htok. unfold sort_dedup_window_tail, window_order. fold by_library.
  set (T := sort_by by_library (drop start into)).
  assert (length T = length into - start) as HT
    by (unfold T; rewrite (Permutation_length (sort_by_perm by_library _)), length_drop; done).
  set (l0 := take start into ++ T).
  assert (length l0 = length into) as Hl0 by (unfold l0; rewrite length_app, length_take; lia).
  rewrite Hl0. set (P := fun i => cand_token <$> T !! i ∉ (fun x => Some (cand_token x)) <$> take i T).
  assert (forall m, m <= length T ->
    let st := fold_left compact_window (seq start m) (l0, ∅, start) in
    length st.1.1 = length l0 /\ drop (start + m) st.1.1 = drop (start + m) l0 /\
    start <= st.2 <= start + m /\
    take st.2 st.1.1 = take start into ++ omap (fun i => T !! i) (filter P (seq 0 m)) /\
    forall t, t ∈ st.1.2 <-> Some t ∈ cand_token <$> take m T) as Hinv.
  { induction m as [|m IH]; intros Hm; cbv zeta.
    { cbn. rewrite app_nil_r, Nat.add_0_r. split_and!; try done.
      - unfold l0. rewrite take_app_le by (rewrite length_take; lia). by rewrite take_take, Nat.min_id.
      - intros t. rewrite take_0. cbn. split; [set_solver|by intros ?%not_elem_of_nil]. }
    rewrite !seq_S, fold_left_app, filter_app, omap_app. cbn [fold_left]. specialize (IH ltac:(lia)). cbv zeta in IH.
    destruct (fold_left compact_window (seq start m) (l0, ∅, start)) as [[col seen] write].
    cbn [fst snd] in IH. destruct IH as (Hl & Hd & Hw & Ht & Hseen).
    destruct (lookup_lt_is_Some_2 T m) as [x Hx]; [lia|].
    assert (l0 !! (start + m) = Some x) as Hl0x.
    { unfold l0. rewrite lookup_app_r by (rewrite length_take; lia).
      rewrite length_take. by replace (start + m - start `min` length into) with m by lia. }
    assert (col !! (start + m) = Some x) as Hcx.
    { pose proof (f_equal (fun l => l !! 0) Hd) as E. cbn in E. rewrite !lookup_drop, Nat.add_0_r in E. congruence. }
    assert (x ∈ T) as HxT by by eapply list_elem_of_lookup_2.
    assert (is_Some (cand_token x)) as [t Htx].
    { rewrite Forall_forall in Htok. apply Htok. unfold T in HxT. by rewrite sort_by_perm in HxT. }
    unfold compact_window. rewrite Hcx. cbn [mbind option_bind]. rewrite Htx, (take_S_r _ _ _ Hx), fmap_app.
    cbn [Nat.add].
    assert (P m <-> t ∉ seen) as HP.
    { unfold P. rewrite Hseen, Hx. cbn [fmap option_fmap option_map]. rewrite !list_elem_of_fmap.
      split; intros Hn (y & E & Hy); apply Hn; exists y; split; congruence. }
    assert (forall c : list Candidate, length c = length l0 -> drop (start + m) c = drop (start + m) l0 ->
      drop (start + S m) c = drop (start + S m) l0) as Hdrop.
    { intros c Hc E. replace (start + S m) with (start + m + 1) by lia. by rewrite <- !(drop_drop _ 1 (start + m)), E. }
    case_decide as Hin; cbn [fst snd].
    - rewrite filter_cons_False, filter_nil by (rewrite HP; auto). cbn [omap list_omap]. rewrite app_nil_r.
      split_and!; try done; [by apply Hdrop|lia|lia|]. intros s. rewrite elem_of_app, <- Hseen.
      split; [by left|]. intros [?|Hs]; [done|]. apply list_elem_of_singleton in Hs. congruence.
    - destruct (compact_keep col l0 write (start + m) x) as [H1 H2]; [lia|done..|].
      rewrite filter_cons_True, filter_nil by by apply HP. cbn [omap list_omap]. rewrite Hx, H1, Ht, <- app_assoc.
      split_and!; [by rewrite length_swap|by replace (start + S m) with (S (start + m)) by lia|lia|lia|done|].
      intros s. rewrite elem_of_union, elem_of_singleton, elem_of_app, <- Hseen.
      split; [intros [->|?]; [right; by apply list_elem_of_singleton|by left]|].
      intros [?|Hs]; [by right|]. apply list_elem_of_singleton in Hs. left. congruence. }
  specialize (Hinv (length T) ltac:(lia)). cbv zeta in Hinv. rewrite <- HT.
  destruct (fold_left compact_window _ _) as [[col seen] write]. apply Hinv.
Qed.

Lemma order_window into start :
  start <= length into -> Forall (fun c => is_Some (cand_token c)) (drop start into) ->
  order_window_tail into start = take start into ++ window_order (drop start into).
Proof.
  intros Hst Htok. unfold order_window_tail. destruct (window_tokens_are_strictly_increasing _) eqn:E.
  - by rewrite window_order_increasing, take_drop.
  - by apply sort_dedup_window.
Qed.

Lemma flush_window batch into :
  Forall (fun c => is_Some (cand_token c)) batch ->
  flush_window_batch batch into = into ++ window_order batch.
Proof.
  intros Hb. unfold flush_window_batch. rewrite order_window.
  - by rewrite take_app_length, drop_app_length.
  - rewrite length_app. lia.
  - by rewrite drop_app_length.
Qed.

(** What the order of a window keeps. *)
Lemma window_order_spec rows :
  (forall c, c ∈ window_order rows -> c ∈ rows) /\
  (forall c, c ∈ rows -> exists d, d ∈ window_order rows /\ cand_token d = cand_token c) /\
  NoDup (cand_token <$> window_order rows) /\
  (rows = [] <-> window_order rows = []).
Proof.
  unfold window_order. assert (forall c, c ∈ sort_by by_library rows <-> c ∈ rows) as Hp
    by (intros c; by rewrite sort_by_perm).
  assert (forall c, c ∈ rows -> exists d, d ∈ firsts cand_token (sort_by by_library rows) /\ cand_token d = cand_token c) as Hc
    by (intros c Hc; apply firsts_cover; by apply Hp).
  split_and!; [intros c Hin%firsts_elem; by apply Hp|done|apply firsts_NoDup|].
  split; [by intros ->|]. intros E. destruct rows as [|c rows]; [done|].
  destruct (Hc c) as (d & Hd & _); [left|]. rewrite E in Hd. by apply not_elem_of_nil in Hd.
Qed.

(** ** The rows of a key path *)

Section scan.
Context {D : Type} `{CandidateDictionary D} (d : D).
Local Open Scope result_scope.

Definition empty_buf : ScanBuf := {| system := []; addon := []; continued := false; unreadable := false |}.

Definition buf_app (a b : ScanBuf) : ScanBuf :=
  {| system := system a ++ system b; addon := addon a ++ addon b;
     continued := continued a || continued b; unreadable := unreadable a || unreadable b |}.

Lemma buf_app_nil b : buf_app b empty_buf = b.
Proof. destruct b. unfold buf_app. cbn. by rewrite !app_nil_r, !orb_false_r. Qed.

Lemma buf_app_assoc a b c : buf_app a (buf_app b c) = buf_app (buf_app a b) c.
Proof. unfold buf_app. cbn. by rewrite !app_assoc, !orb_assoc. Qed.

Definition then_app (b : ScanBuf) (r : result ScanBuf EngineError) : result ScanBuf EngineError :=
  try c := r in Ok (buf_app b c).

Lemma then_app_app a b r : then_app (buf_app a b) r = then_app a (then_app b r).
Proof. destruct r; [|done]. cbn. by rewrite buf_app_assoc. Qed.

Lemma push_system_app b c entries keys end_ :
  push_system (buf_app b c) entries keys end_ = buf_app b (push_system c entries keys end_).
Proof. unfold push_system, buf_app, append_scan_entries. cbn. by rewrite app_assoc. Qed.

Lemma push_addon_app b c entries keys end_ :
  push_addon (buf_app b c) entries keys end_ = buf_app b (push_addon c entries keys end_).
Proof. unfold push_addon, buf_app, append_scan_entries. cbn. by rewrite app_assoc. Qed.

Lemma set_continued_app b c x : set_continued (buf_app b c) x = buf_app b (set_continued c x).
Proof. unfold set_continued, buf_app. cbn. by rewrite orb_assoc. Qed.

Lemma set_unreadable_app b c x : set_unreadable (buf_app b c) x = buf_app b (set_unreadable c x).
Proof. unfold set_unreadable, buf_app. cbn. by rewrite orb_assoc. Qed.

Lemma lookup_and_append_app sequence tones end_ b c :
  lookup_and_append d sequence tones end_ (buf_app b c) =
    (try r := lookup_and_append d sequence tones end_ c in Ok (buf_app b r.1, r.2)).
Proof.
  unfold lookup_and_append. destruct (from_dictionary (lookup_candidates _ _)) as [[entries failed]|]; [|done].
  destruct (toned_entries d sequence tones entries); [|done].
  destruct (from_dictionary (lookup_addon_candidates _ _)); [|done].
  cbn. by rewrite push_system_app, push_addon_app.
Qed.

Lemma lookup_each_app sequences tones end_ b c :
  lookup_each d sequences tones end_ (buf_app b c) = then_app b (lookup_each d sequences tones end_ c).
Proof.
  revert c. induction sequences as [|sequence sequences IH]; intros c; [done|]. cbn [lookup_each].
  rewrite lookup_and_append_app. destruct (lookup_and_append d sequence tones end_ c) as [[r failed]|]; [|done].
  cbn [fst snd]. by rewrite set_unreadable_app, IH.
Qed.

(** A search adds to its buffer what it finds in an empty one. *)
Lemma search_scan_path_app explicit base keys tones end_ b c :
  search_scan_path d explicit base keys tones end_ (buf_app b c) =
    then_app b (search_scan_path d explicit base keys tones end_ c).
Proof.
  unfold search_scan_path. destruct (if explicit then _ else _); [|done].
  destruct (from_dictionary (candidate_search d keys tones)) as [[[[entries failed] extends]|]|]; [| |done].
  - destruct (from_dictionary (lookup_addon_candidates d keys)); [|done].
    destruct (from_dictionary (phrase_prefix_exists_addon d keys)); [|done].
    cbn. by rewrite set_unreadable_app, set_continued_app, push_system_app, push_addon_app, set_continued_app.
  - rewrite lookup_each_app. destruct (lookup_each _ _ _ _ _); [|done]. cbn [then_app].
    destruct (from_dictionary (phrase_prefix_exists d keys)); [|done].
    destruct (from_dictionary (phrase_prefix_exists_addon d keys)); [|done].
    cbn. by rewrite set_continued_app.
Qed.

(** The key sequences looked up for a path: itself, or its completions for a
    dictionary that does not take initial-only keys. *)
Definition sequences_of (keys : list SyllableKey) : list (list SyllableKey) :=
  if existsb (fun key => bool_decide (completeness key = Partial)) keys && negb (handles_partial_keys d)
  then expand_keys keys SCAN_EXPANSION_LIMIT else [keys].

(** A toned path keeps the entries the toned search answers too. *)
Definition tone_kept (sequence : list SyllableKey) (tones : list Z) (e : PhraseEntry) : Prop :=
  existsb (fun tone => negb (tone =? 0)%Z) tones = true ->
  exists records, toned_records d sequence tones = Ok records /\ entry_token e ∈ entry_token <$> records.

(** The entries of either facade a dictionary offers for typed keys, and how
    many keys each stands for. *)
Inductive offers (keys : list SyllableKey) (tones : list Z) : CandidateKind -> nat -> PhraseEntry -> Prop :=
  | offers_search entries failed more e :
      candidate_search d keys tones = Ok (Some (entries, failed, more)) -> e ∈ entries ->
      offers keys tones Phrase (length keys) e
  | offers_search_addon found entries e :
      candidate_search d keys tones = Ok (Some found) ->
      lookup_addon_candidates d keys = Ok entries -> e ∈ entries -> offers keys tones Addon (length keys) e
  | offers_lookup sequence entries failed e :
      candidate_search d keys tones = Ok None -> sequence ∈ sequences_of keys ->
      lookup_candidates d sequence = Ok (entries, failed) -> e ∈ entries -> tone_kept sequence tones e ->
      offers keys tones Phrase (length sequence) e
  | offers_lookup_addon sequence entries e :
      candidate_search d keys tones = Ok None -> sequence ∈ sequences_of keys ->
      lookup_addon_candidates d sequence = Ok entries -> e ∈ entries ->
      offers keys tones Addon (length sequence) e.

Definition scan_row (kind : CandidateKind) (keys end_ : nat) (e : PhraseEntry) : Candidate :=
  with_live_unigram (candidate_new (entry_text e) kind keys end_ 0 (Some (entry_token e)) None)
    (live_unigram e).

Definition rows_of (kind : CandidateKind) (b : ScanBuf) : list Candidate :=
  match kind with Addon => addon b | _ => system b end.

Lemma from_dictionary_ok {A} (r : result A bytes) a : from_dictionary r = Ok a -> r = Ok a.
Proof. destruct r; cbn; congruence. Qed.

Lemma token_found_spec tokens token :
  token_found (sort_by Z.compare tokens) token = true <-> token ∈ tokens.
Proof.
  unfold token_found. set (l := sort_by Z.compare tokens). rewrite <- (sort_by_perm Z.compare tokens). fold l.
  assert (StronglySorted Z.le l) as Hs.
  { assert (forall x y, Z.compare x y = lex_compare [x] [y]) as Hk by (intros; cbn; by destruct (_ ?= _)%Z).
    eapply StronglySorted_impl_elem; [|apply (sort_by_sorted Z.compare (fun x => [x]) Hk)].
    intros x y _ _. unfold le_key. by rewrite <- Hk. }
  pose proof (binary_search_by_spec (fun t => (t ?= token)%Z) l) as Hb.
  destruct (binary_search_by _ l) as [i|i].
  - destruct Hb as (x & Hi & Hx%Z.compare_eq); [|split; [intros _; subst; by eapply list_elem_of_lookup_2|done]].
    intros i' j x y Hij Hx Hy. assert (x <= y)%Z by (eapply (StronglySorted_lookup_lt Z.le); eauto).
    rewrite !Z.compare_lt_iff, !Z.compare_gt_iff. lia.
  - destruct Hb as [_ Hb].
    { intros i' j x y Hij Hx Hy. assert (x <= y)%Z by (eapply (StronglySorted_lookup_lt Z.le); eauto).
      rewrite !Z.compare_lt_iff, !Z.compare_gt_iff. lia. }
    split; [done|]. intros [j Hj]%list_elem_of_lookup. specialize (Hb j token Hj).
    rewrite Z.compare_refl in Hb. by destruct (decide (j < i)).
Qed.

Lemma toned_entries_elem sequence tones entries kept e :
  toned_entries d sequence tones entries = Ok kept -> e ∈ kept <-> e ∈ entries /\ tone_kept sequence tones e.
Proof.
  unfold toned_entries, tone_kept. destruct (existsb _ tones); [|intros [= <-]; naive_solver].
  destruct (from_dictionary _) as [records|] eqn:E; [|done]. apply from_dictionary_ok in E.
  intros [= <-]. rewrite list_elem_of_filter, token_found_spec. split.
  - intros [Ht He]. split; [done|]. eauto.
  - intros [He Ht]. split; [|done]. destruct (Ht eq_refl) as (r & Er & Hin). congruence.
Qed.

Lemma lookup_and_append_rows sequence tones end_ b b' failed :
  lookup_and_append d sequence tones end_ b = Ok (b', failed) ->
  exists entries entries' addons fl,
    lookup_candidates d sequence = Ok (entries, fl) /\
    (forall e, e ∈ entries' <-> e ∈ entries /\ tone_kept sequence tones e) /\
    lookup_addon_candidates d sequence = Ok addons /\
    system b' = system b ++ (scan_row Phrase (length sequence) end_ <$> entries') /\
    addon b' = addon b ++ (scan_row Addon (length sequence) end_ <$> addons).
Proof.
  unfold lookup_and_append.
  destruct (from_dictionary (lookup_candidates d sequence)) as [[entries fl]|] eqn:E1; [|done].
  destruct (toned_entries d sequence tones entries) as [entries'|] eqn:E2; [|done].
  destruct (from_dictionary (lookup_addon_candidates d sequence)) as [addons|] eqn:E3; [|done].
  apply from_dictionary_ok in E1, E3. intros [= <- <-]. exists entries, entries', addons, fl.
  split_and!; try done. intros e. by apply toned_entries_elem.
Qed.

Lemma lookup_each_rows sequences tones end_ b b' :
  lookup_each d sequences tones end_ b = Ok b' ->
  (forall c, c ∈ system b' <-> c ∈ system b \/ exists sequence entries failed e,
     sequence ∈ sequences /\ lookup_candidates d sequence = Ok (entries, failed) /\ e ∈ entries /\
     tone_kept sequence tones e /\ c = scan_row Phrase (length sequence) end_ e) /\
  (forall c, c ∈ addon b' <-> c ∈ addon b \/ exists sequence entries e,
     sequence ∈ sequences /\ lookup_addon_candidates d sequence = Ok entries /\ e ∈ entries /\
     c = scan_row Addon (length sequence) end_ e).
Proof.
  revert b. induction sequences as [|s sequences IH]; intros b.
  { intros [= ->]. split; intros c; (split; [by left|]);
      [intros [?|(? & ? & ? & ? & []%not_elem_of_nil & _)]|intros [?|(? & ? & ? & []%not_elem_of_nil & _)]]; done. }
  cbn [lookup_each]. destruct (lookup_and_append d s tones end_ b) as [[b1 failed]|] eqn:E; [|done].
  intros Hr. destruct (IH _ Hr) as [IH1 IH2]. cbn [set_unreadable system addon] in IH1, IH2.
  destruct (lookup_and_append_rows _ _ _ _ _ _ E) as (en & en' & ad & fl & H1 & H2 & H3 & Hs & Ha). rewrite Hs in IH1. rewrite Ha in IH2.
  split; intros c; rewrite ?IH1, ?IH2, elem_of_app, list_elem_of_fmap; split.
  - intros [[?|(e & -> & He)]|(q & en1 & f1 & e & Hq & Hrest)]; [by left|right..].
    + apply H2 in He as [He Ht]. exists s, en, fl, e. split_and!; try done. by left.
    + exists q, en1, f1, e. split; [by right|done].
  - intros [?|(q & en1 & f1 & e & [->|Hq]%elem_of_cons & E1 & He & Ht & ->)]; [by left; left| |right; eauto 10].
    left. right. exists e. split; [done|]. apply H2. split; [congruence|done].
  - intros [[?|(e & -> & He)]|(q & en1 & e & Hq & Hrest)]; [by left|right..].
    + exists s, ad, e. split_and!; try done. by left.
    + exists q, en1, e. split; [by right|done].
  - intros [?|(q & en1 & e & [->|Hq]%elem_of_cons & E1 & He & ->)]; [by left; left| |right; eauto 10].
    left. right. exists e. split; [done|congruence].
Qed.

(** A search finds the rows of the entries offered, and no other. *)
Lemma search_scan_path_rows explicit base keys tones end_ b :
  search_scan_path d explicit base keys tones end_ empty_buf = Ok b ->
  forall kind c, kind = Phrase \/ kind = Addon ->
    c ∈ rows_of kind b <-> exists n e, offers keys tones kind n e /\ c = scan_row kind n (end_ - base) e.
Proof.
  unfold search_scan_path. destruct (if explicit then _ else _); [|done].
  destruct (from_dictionary (candidate_search d keys tones)) as [[[[entries failed] extends]|]|] eqn:Es; [| |done];
    apply from_dictionary_ok in Es.
  - destruct (from_dictionary (lookup_addon_candidates d keys)) as [addons|] eqn:Ea; [|done].
    destruct (from_dictionary (phrase_prefix_exists_addon d keys)); [|done].
    apply from_dictionary_ok in Ea. intros [= <-] kind c Hkind.
    destruct Hkind as [-> | ->]; cbn [rows_of set_continued push_addon push_system set_unreadable system addon empty_buf].
    + unfold append_scan_entries. cbn [app]. rewrite list_elem_of_fmap. split.
      * intros (e & -> & He). exists (length keys), e. split; [by eapply offers_search|done].
      * intros (n & e & Ho & ->). inversion Ho; subst; [|congruence]. exists e. split; [done|congruence].
    + unfold append_scan_entries. cbn [app]. rewrite list_elem_of_fmap. split.
      * intros (e & -> & He). exists (length keys), e. split; [by eapply offers_search_addon|done].
      * intros (n & e & Ho & ->). inversion Ho; subst; [|congruence]. exists e. split; [done|congruence].
  - fold (sequences_of keys). destruct (lookup_each _ _ _ _ _) as [b1|] eqn:El; [|done].
    destruct (from_dictionary (phrase_prefix_exists d keys)); [|done].
    destruct (from_dictionary (phrase_prefix_exists_addon d keys)); [|done]. intros [= <-] kind c Hkind.
    apply lookup_each_rows in El as [E1 E2]. cbn [empty_buf system addon] in E1, E2.
    destruct Hkind as [-> | ->]; cbn [rows_of set_continued system addon]; rewrite ?E1, ?E2; split.
    + intros [[]%not_elem_of_nil|(s & en & f & e & Hs & H1 & He & Ht & ->)].
      exists (length s), e. split; [by eapply offers_lookup|done].
    + intros (n & e & Ho & ->). inversion Ho; subst; [congruence|]. right. eauto 10.
    + intros [[]%not_elem_of_nil|(s & en & e & Hs & H1 & He & ->)].
      exists (length s), e. split; [by eapply offers_lookup_addon|done].
    + intros (n & e & Ho & ->). inversion Ho; subst; [congruence|]. right. eauto 10.
Qed.

(** ** The key paths of a span *)

Section span.
Context (explicit : bool) (base : nat) (matrix : ParsedMatrix) (end_ : nat).

Definition zero_hop (node : nat) : Prop := node < end_ /\ default false (pm_zeros matrix !! node) = true.

Definition column_at (node : nat) : list ScanKey := default [] (pm_columns matrix !! node).

(** The key paths from a position to the end: separators are stepped over,
    and a key never starts where one can be. *)
Inductive scan_path : nat -> list ScanKey -> Prop :=
  | scan_path_zero node keys : zero_hop node -> scan_path (node + 1) keys -> scan_path node keys
  | scan_path_last node key :
      ~ zero_hop node -> key ∈ column_at node -> sk_to key = end_ -> scan_path node [key]
  | scan_path_key node key keys :
      ~ zero_hop node -> key ∈ column_at node -> sk_to key < end_ -> scan_path (sk_to key) keys ->
      scan_path node (key :: keys).

Lemma scan_path_nonempty node keys : scan_path node keys -> keys <> [].
Proof using. by induction 1. Qed.

(** What the walk meets, in order: a key past the end, or a path to search. *)
Fixpoint events (fuel node : nat) (path : list ScanKey) : list (option (list ScanKey)) :=
  match fuel with
  | O => []
  | S fuel =>
      if (node <? end_) && default false (pm_zeros matrix !! node) then events fuel (node + 1) path
      else column_at node ≫= fun key =>
        if end_ <? sk_to key then [None]
        else if sk_to key =? end_ then [Some (path ++ [key])]
        else if length (path ++ [key]) <? MAX_PHRASE_LENGTH then events fuel (sk_to key) (path ++ [key])
        else []
  end.

Definition search_path (path : list ScanKey) (b : ScanBuf) : result ScanBuf EngineError :=
  search_scan_path d explicit base (sk_key <$> path) (sk_tone <$> path) end_ b.

Definition visit_one (event : option (list ScanKey)) (b : ScanBuf) : result ScanBuf EngineError :=
  match event with None => Ok (set_continued b true) | Some path => search_path path b end.

Fixpoint visit (evs : list (option (list ScanKey))) (b : ScanBuf) : result ScanBuf EngineError :=
  match evs with
  | [] => Ok b
  | event :: evs => try b := visit_one event b in visit evs b
  end.

Lemma visit_app evs evs' b : visit (evs ++ evs') b = (try b := visit evs b in visit evs' b).
Proof using. revert b. induction evs as [|ev evs IH]; intros b; [done|]. cbn. by destruct (visit_one ev b). Qed.

Definition open_end : bool :=
  match column_at end_ with [] => default false (pm_zeros matrix !! end_) | _ => true end.

Lemma scan_closed fuel node path b :
  open_end = false -> scan_parsed_paths d explicit base matrix end_ fuel node path b = Ok b.
Proof using.
  unfold open_end, column_at. destruct fuel; [done|]. cbn [scan_parsed_paths].
  destruct (pm_columns matrix !! end_) as [[|k column]|]; cbn; try done; by intros ->.
Qed.

(** The recursion searches the paths one after the other. *)
Lemma scan_visits fuel node path b :
  open_end = true ->
  scan_parsed_paths d explicit base matrix end_ fuel node path b = visit (events fuel node path) b.
Proof using.
  intros Ho. revert node path b. induction fuel as [|fuel IH]; intros node path b; [done|].
  cbn [scan_parsed_paths events].
  assert ((match pm_columns matrix !! end_ with Some (_ :: _) => false | _ => true end)
          && negb (default false (pm_zeros matrix !! end_)) = false) as ->.
  { unfold open_end, column_at in Ho. destruct (pm_columns matrix !! end_) as [[|k column]|]; cbn in *; by rewrite ?Ho. }
  destruct ((node <? end_) && default false (pm_zeros matrix !! node)); [apply IH|].
  change (default [] (pm_columns matrix !! node)) with (column_at node).
  generalize (column_at node) as column. intros column. revert b.
  induction column as [|key column IHc]; intros b; [done|]. rewrite bind_cons, visit_app.
  destruct (end_ <? sk_to key); [cbn [visit visit_one]; apply IHc|].
  destruct (sk_to key =? end_).
  { cbn [visit visit_one]. unfold search_path. destruct (search_scan_path _ _ _ _ _ _ _); [apply IHc|done]. }
  destruct (length (path ++ [key]) <? MAX_PHRASE_LENGTH); [|apply IHc].
  rewrite IH. destruct (visit _ b); [apply IHc|done].
Qed.

Lemma zero_hop_spec node :
  (node <? end_) && default false (pm_zeros matrix !! node) = true <-> zero_hop node.
Proof using. unfold zero_hop. by rewrite andb_true_iff, Nat.ltb_lt. Qed.

Lemma fewer_calls fuel node to len :
  len < MAX_PHRASE_LENGTH -> to <= end_ ->
  (MAX_PHRASE_LENGTH - len) * (end_ + 2) + (end_ - node) < S fuel ->
  (MAX_PHRASE_LENGTH - (len + 1)) * (end_ + 2) + (end_ - to) < fuel.
Proof using.
  intros Hl Ht Hf. replace (MAX_PHRASE_LENGTH - len) with (S (MAX_PHRASE_LENGTH - (len + 1))) in Hf by lia.
  rewrite Nat.mul_succ_l in Hf. lia.
Qed.

(** Enough fuel meets exactly the paths within the phrase length. *)
Lemma events_paths fuel node path :
  (MAX_PHRASE_LENGTH - length path) * (end_ + 2) + (end_ - node) < fuel -> length path < MAX_PHRASE_LENGTH ->
  forall q, Some q ∈ events fuel node path <->
    exists p, q = path ++ p /\ scan_path node p /\ length q <= MAX_PHRASE_LENGTH.
Proof using.
  revert node path. induction fuel as [|fuel IH]; intros node path Hf Hl q; [lia|]. cbn [events].
  destruct ((node <? end_) && default false (pm_zeros matrix !! node)) eqn:Ez.
  { apply zero_hop_spec in Ez. rewrite IH by (destruct Ez; lia). split.
    - intros (p & -> & Hp & Hle). exists p. split_and!; try done. by constructor.
    - intros (p & -> & Hp & Hle). exists p. split_and!; try done.
      by inversion Hp; subst; try (exfalso; by match goal with H : ~ _ |- _ => apply H end). }
  assert (~ zero_hop node) as Hz by (rewrite <- zero_hop_spec; congruence).
  rewrite list_elem_of_bind. split.
  - intros (key & Hq & Hkey). destruct (Nat.ltb_spec end_ (sk_to key)) as [|Hle].
    { apply list_elem_of_singleton in Hq. done. }
    destruct (Nat.eqb_spec (sk_to key) end_) as [He|Hne].
    { apply list_elem_of_singleton in Hq as [= ->]. exists [key]. split; [done|].
      split; [by apply scan_path_last|]. rewrite length_app. cbn. lia. }
    destruct (Nat.ltb_spec (length (path ++ [key])) MAX_PHRASE_LENGTH) as [Hlt|]; [|by apply not_elem_of_nil in Hq].
    rewrite length_app in Hlt. cbn in Hlt. apply IH in Hq as (p & -> & Hp & Hl'); [| |by rewrite length_app].
    2: { rewrite length_app. by apply (fewer_calls _ node). }
    exists (key :: p). rewrite <- app_assoc in Hl' |- *. split; [done|]. split; [|done].
    apply scan_path_key; [done|done|lia|done].
  - intros (p & -> & Hp & Hle). inversion Hp as [|? key ? Hkey Hto|? key keys ? Hkey Hto Hp']; subst; [done|..].
    + exists key. split; [|done]. rewrite (proj2 (Nat.ltb_ge _ _)), (proj2 (Nat.eqb_eq _ _)) by lia. by left.
    + exists key. split; [|done]. rewrite (proj2 (Nat.ltb_ge _ _)) by lia. rewrite (proj2 (Nat.eqb_neq _ _)) by lia.
      rewrite length_app in Hle. cbn in Hle. pose proof (scan_path_nonempty _ _ Hp') as Hne.
      assert (length keys <> 0) by by destruct keys.
      rewrite (proj2 (Nat.ltb_lt _ _)) by (rewrite length_app; cbn; lia).
      apply IH; [|rewrite length_app; cbn; lia|].
      * rewrite length_app. apply (fewer_calls _ node); [done|lia|done].
      * exists keys. rewrite <- app_assoc. split; [done|]. split; [done|]. rewrite length_app. cbn. lia.
Qed.

Lemma visit_shift evs b : visit evs b = then_app b (visit evs empty_buf).
Proof using.
  revert b. induction evs as [|ev evs IH]; intros b; [cbn; by rewrite buf_app_nil|]. cbn [visit].
  assert (visit_one ev b = then_app b (visit_one ev empty_buf)) as ->.
  { destruct ev as [path|]; cbn [visit_one]; unfold search_path.
    - by rewrite <- search_scan_path_app, buf_app_nil.
    - unfold then_app. by rewrite <- set_continued_app, buf_app_nil. }
  destruct (visit_one ev empty_buf) as [c|]; [|done]. cbn [then_app].
  rewrite (IH (buf_app b c)), (IH c). apply then_app_app.
Qed.

Lemma rows_of_app kind a b : rows_of kind (buf_app a b) = rows_of kind a ++ rows_of kind b.
Proof using. by destruct kind. Qed.

(** The rows of a visit are those of its paths; an error is one of theirs. *)
Lemma visit_rows evs :
  match visit evs empty_buf with
  | Ok b => forall kind c, kind = Phrase \/ kind = Addon ->
      c ∈ rows_of kind b <-> exists path n e, Some path ∈ evs /\
        offers (sk_key <$> path) (sk_tone <$> path) kind n e /\ c = scan_row kind n (end_ - base) e
  | Err error => exists path, Some path ∈ evs /\ search_path path empty_buf = Err error
  end.
Proof using.
  induction evs as [|ev evs IH].
  { intros kind c Hk. split; [destruct Hk as [-> | ->]; by intros ?%not_elem_of_nil|].
    by intros (? & ? & ? & []%not_elem_of_nil & _). }
  cbn [visit]. destruct ev as [path|]; cbn [visit_one].
  - destruct (search_path path empty_buf) as [c|error] eqn:E.
    2: { exists path. split; [by left|done]. }
    rewrite visit_shift. destruct (visit evs empty_buf) as [b|error]; cbn [then_app].
    + intros kind x Hk. rewrite rows_of_app, elem_of_app, (IH kind x Hk).
      unfold search_path in E. rewrite (search_scan_path_rows _ _ _ _ _ _ E kind x Hk). split.
      * intros [(n & e & Ho & ->)|(p & n & e & Hp & Hrest)].
        -- exists path, n, e. split; [by left|done].
        -- exists p, n, e. split; [by right|done].
      * intros (p & n & e & [[= ->]|Hp]%elem_of_cons & Hrest); [by left; eauto|right; eauto 10].
    + destruct IH as (p & Hp & Hs). exists p. split; [by right|done].
  - rewrite visit_shift. destruct (visit evs empty_buf) as [b|error]; cbn [then_app].
    + intros kind x Hk. rewrite rows_of_app, elem_of_app, (IH kind x Hk). split.
      * intros [Hx|(p & n & e & Hp & Hrest)]; [destruct Hk as [-> | ->]; by apply not_elem_of_nil in Hx|].
        exists p, n, e. split; [by right|done].
      * intros (p & n & e & [|Hp]%elem_of_cons & Hrest); [done|right; eauto 10].
    + destruct IH as (p & Hp & Hs). exists p. split; [by right|done].
Qed.
End span.

(** ** The windows *)

Section windows.
Context (explicit : bool) (matrix : ParsedMatrix) (input : bytes) (anchor : nat).

(** The search of the window [anchor, anchor + e). *)
Definition window_search (e : nat) : result ScanBuf EngineError :=
  scan_parsed_paths d explicit anchor matrix (anchor + e) (scan_fuel (anchor + e)) anchor []
    {| system := []; addon := []; unreadable := false;
       continued := match pm_columns matrix !! (anchor + e) with Some (_ :: _) => false | _ => true end |}.

Definition window_rows (b : ScanBuf) : list Candidate := window_order (system b) ++ window_order (addon b).

(** What a window can show: a row for each entry offered for a key path of
    the matrix over it. *)
Definition found (e : nat) (kind : CandidateKind) (c : Candidate) : Prop :=
  open_end matrix (anchor + e) = true /\
  exists path n entry, scan_path matrix (anchor + e) anchor path /\ length path <= MAX_PHRASE_LENGTH /\
    offers (sk_key <$> path) (sk_tone <$> path) kind n entry /\ c = scan_row kind n e entry.

Lemma scan_shift fuel end_ node path b :
  scan_parsed_paths d explicit anchor matrix end_ fuel node path b =
    then_app b (scan_parsed_paths d explicit anchor matrix end_ fuel node path empty_buf).
Proof using.
  destruct (open_end matrix end_) eqn:E.
  - rewrite !scan_visits by done. apply visit_shift.
  - rewrite !scan_closed by done. cbn. by rewrite buf_app_nil.
Qed.

Lemma window_search_rows e :
  match window_search e with
  | Ok b => forall kind c, kind = Phrase \/ kind = Addon -> c ∈ rows_of kind b <-> found e kind c
  | Err error => exists path, scan_path matrix (anchor + e) anchor path /\ length path <= MAX_PHRASE_LENGTH /\
      search_path explicit anchor (anchor + e) path empty_buf = Err error
  end.
Proof using.
  unfold window_search, found. rewrite scan_shift. destruct (open_end matrix (anchor + e)) eqn:Eo.
  2: { rewrite scan_closed by done. cbn [then_app]. intros kind c Hk. rewrite rows_of_app. split; [|by intros [? _]].
       destruct Hk as [-> | ->]; by intros ?%not_elem_of_nil. }
  rewrite scan_visits by done. pose proof (visit_rows explicit anchor (anchor + e)
    (events matrix (anchor + e) (scan_fuel (anchor + e)) anchor [])) as Hv.
  assert (forall q, Some q ∈ events matrix (anchor + e) (scan_fuel (anchor + e)) anchor [] <->
    scan_path matrix (anchor + e) anchor q /\ length q <= MAX_PHRASE_LENGTH) as Hev.
  { intros q. rewrite events_paths; [|unfold scan_fuel, MAX_PHRASE_LENGTH; cbn [length]; lia|unfold MAX_PHRASE_LENGTH; cbn; lia].
    split; [by intros (p & -> & ?)|intros [? ?]; by exists q]. }
  destruct (visit _ _ _ _ empty_buf) as [b|error]; cbn [then_app].
  - intros kind c Hk. rewrite rows_of_app, elem_of_app, (Hv kind c Hk). split.
    + intros [Hx|(p & n & en & [Hp Hle]%Hev & Ho & ->)]; [destruct Hk as [-> | ->]; by apply not_elem_of_nil in Hx|].
      split; [done|]. exists p, n, en. split_and!; try done. f_equal. lia.
    + intros (_ & p & n & en & Hp & Hle & Ho & ->). right. exists p, n, en. split_and!; [by apply Hev|done|].
      f_equal. lia.
  - destruct Hv as (p & [Hp Hle]%Hev & Hs). by exists p.
Qed.

Lemma found_token e kind c : found e kind c -> is_Some (cand_token c).
Proof using. intros (_ & p & n & en & _ & _ & _ & ->). by eexists. Qed.

(** A turn appends the rows of its window. *)
Lemma scan_one_rows e into failed :
  scan_one d explicit matrix anchor e into failed =
    (try b := window_search e in Ok (into ++ window_rows b, continued b, failed || unreadable b)).
Proof using.
  unfold scan_one. set (c0 := match pm_columns matrix !! (anchor + e) with Some (_ :: _) => false | _ => true end).
  replace {| system := into; addon := []; continued := c0; unreadable := failed |} with
    (buf_app {| system := into; addon := []; continued := false; unreadable := failed |}
       {| system := []; addon := []; continued := c0; unreadable := false |})
    by (unfold buf_app; cbn; by rewrite app_nil_r, orb_false_r).
  rewrite scan_shift, then_app_app, <- scan_shift.
  pose proof (window_search_rows e) as Hr. unfold window_search in *. fold c0 in Hr |- *.
  destruct (scan_parsed_paths _ _ _ _ _ _ _ _ _) as [b|]; [|done]. cbn [then_app buf_app system addon continued unreadable].
  assert (forall kind, kind = Phrase \/ kind = Addon -> Forall (fun c => is_Some (cand_token c)) (rows_of kind b)) as Htok.
  { intros kind Hk. apply Forall_forall. intros c Hc%(Hr kind c Hk). by eapply found_token. }
  rewrite order_window.
  - rewrite take_app_length, drop_app_length, flush_window by (apply (Htok Addon); by right).
    unfold window_rows. by rewrite app_assoc.
  - rewrite length_app. lia.
  - rewrite drop_app_length. apply (Htok Phrase). by left.
Qed.

(** The loop ends with a window that found rows and does not go on. *)
Definition stops (b : ScanBuf) : bool :=
  negb (continued b) && negb ((length (system b) =? 0) && (length (addon b) =? 0)).

Lemma window_rows_empty b : (length (window_rows b) =? 0) = (length (system b) =? 0) && (length (addon b) =? 0).
Proof using.
  unfold window_rows. rewrite length_app.
  destruct (window_order_spec (system b)) as (_ & _ & _ & Hs).
  destruct (window_order_spec (addon b)) as (_ & _ & _ & Ha).
  destruct (system b) as [|x l].
  - rewrite (proj1 Hs) by done. destruct (addon b) as [|y k]; [by rewrite (proj1 Ha)|].
    destruct (window_order (y :: k)); [by destruct (proj2 Ha eq_refl)|done].
  - destruct (window_order (x :: l)); [by destruct (proj2 Hs eq_refl)|done].
Qed.

Definition at_separator (e : nat) : Prop := input !! (e - 1) = Some apostrophe.

(** The ends the loop widens to from one: those past no separator. *)
Definition next_ends (bound e : nat) : list nat :=
  filter (fun e => ~ at_separator e) (seq (S e) (bound - e)).

Lemma skip_separators_next fuel bound e :
  bound < e + fuel ->
  filter (fun e => ~ at_separator e) (seq e (S bound - e)) =
    let e' := skip_separators input fuel bound e in
    if e' <=? bound then e' :: next_ends bound e' else [].
Proof using.
  revert e. induction fuel as [|fuel IH]; intros e He; cbv zeta.
  { cbn [skip_separators]. replace (S bound - e) with 0 by lia. by rewrite (proj2 (Nat.leb_gt _ _)) by lia. }
  cbn [skip_separators]. destruct (Nat.leb_spec e bound) as [Hle|Hgt].
  2: { cbn [andb]. replace (S bound - e) with 0 by lia. by rewrite (proj2 (Nat.leb_gt _ _)) by lia. }
  cbn [andb]. replace (S bound - e) with (S (bound - e)) by lia. cbn [seq]. rewrite filter_cons.
  case_bool_decide as Ha.
  - rewrite decide_False by (intros Hn; by apply Hn). specialize (IH (S e) ltac:(lia)). cbv zeta in IH.
    by rewrite <- IH.
  - rewrite decide_True by done. by rewrite (proj2 (Nat.leb_le _ _)) by lia.
Qed.

Lemma skip_separators_le fuel bound e : e <= skip_separators input fuel bound e.
Proof using.
  revert e. induction fuel as [|fuel IH]; intros e; [done|]. cbn [skip_separators].
  destruct (_ && _); [|done]. specialize (IH (S e)). lia.
Qed.

Lemma scan_windows_run fuel bound e into failed :
  e <= bound -> bound < e + fuel ->
  match scan_windows d explicit matrix input anchor fuel bound e into failed with
  | Ok (rows, failed') => exists ends rest bufs,
      e :: next_ends bound e = ends ++ rest /\ Forall2 (fun e b => window_search e = Ok b) ends bufs /\
      rows = into ++ concat (window_rows <$> bufs) /\ failed' = failed || existsb unreadable bufs /\
      Forall (fun b => stops b = false) (removelast bufs) /\
      (rest = [] \/ exists b, last bufs = Some b /\ stops b = true)
  | Err error => exists e', e' ∈ e :: next_ends bound e /\ window_search e' = Err error
  end.
Proof using.
  revert e into failed. induction fuel as [|fuel IH]; intros e into failed Hle Hf; [lia|].
  cbn [scan_windows]. rewrite (proj2 (Nat.leb_le _ _)) by done. rewrite scan_one_rows.
  destruct (window_search e) as [b|error] eqn:Eb.
  2: { exists e. split; [by left|done]. }
  assert (negb (length (into ++ window_rows b) =? length into) =
    negb ((length (system b) =? 0) && (length (addon b) =? 0))) as ->.
  { rewrite <- window_rows_empty, length_app. f_equal. apply eq_iff_eq_true. rewrite !Nat.eqb_eq. lia. }
  fold (stops b). destruct (stops b) eqn:Es.
  { exists [e], (next_ends bound e), [b]. split_and!; [done|by repeat constructor| | |constructor|right; by exists b].
    - cbn. by rewrite app_nil_r.
    - cbn. by rewrite orb_false_r. }
  pose proof (skip_separators_next (bound - e) bound (S e) ltac:(lia)) as Hskip. cbv zeta in Hskip.
  replace (S bound - S e) with (bound - e) in Hskip by lia. fold (next_ends bound e) in Hskip.
  set (e' := skip_separators input (bound - e) bound (S e)) in *.
  assert (S e <= e') as He' by apply skip_separators_le.
  destruct (Nat.leb_spec e' bound) as [Hb|Hb].
  - specialize (IH e' (into ++ window_rows b) (failed || unreadable b) Hb ltac:(lia)). rewrite <- Hskip in IH.
    destruct (scan_windows _ _ _ _ _ fuel bound e' _ _) as [[rows failed']|error].
    + destruct IH as (ends & rest & bufs & H1 & H2 & -> & -> & H3 & H4).
      exists (e :: ends), rest, (b :: bufs). split_and!; [cbn; by rewrite H1|by constructor| | | |].
      * cbn. by rewrite app_assoc.
      * cbn. by rewrite orb_assoc.
      * destruct bufs; [constructor|]. by constructor.
      * destruct H4 as [->|(x & Hx & Hs)]; [by left|right]. exists x. split; [|done]. by destruct bufs.
    + destruct IH as (x & Hx & Hs). exists x. split; [by right|done].
  - assert (scan_windows d explicit matrix input anchor fuel bound e' (into ++ window_rows b) (failed || unreadable b) =
      Ok (into ++ window_rows b, failed || unreadable b)) as ->.
    { destruct fuel; [done|]. cbn [scan_windows]. by rewrite (proj2 (Nat.leb_gt _ _)) by lia. }
    exists [e], [], [b]. rewrite Hskip. split_and!; [done|by repeat constructor| | |constructor|by left].
    + cbn. by rewrite app_nil_r.
    + cbn. by rewrite orb_false_r.
Qed.
End windows.

#[export] Instance at_separator_dec input e : Decision (at_separator input e).
Proof using. unfold at_separator. apply _. Defined.

(** The ends of the windows after an anchor: the first byte's, and those past
    no separator. *)
Definition window_ends (input : bytes) (bound : nat) : list nat :=
  filter (fun e => e = 1 \/ ~ at_separator input e) (seq 1 bound).

Lemma window_ends_cons input bound :
  1 <= bound -> window_ends input bound = 1 :: next_ends input bound 1.
Proof using.
  intros Hb. unfold window_ends, next_ends. destruct bound as [|bound]; [lia|]. cbn [seq].
  rewrite filter_cons_True by by left. f_equal. replace (S bound - 1) with bound by lia.
  assert (Forall (fun e => e <> 1) (seq 2 bound)) as Hne by (apply Forall_seq; lia).
  induction Hne as [|e l He Hl IH]; [done|]. rewrite !filter_cons, IH.
  repeat case_decide; naive_solver.
Qed.

(** C13. The collection over a retained parse is a sequence of windows from
    the anchor, over ends one after the other, none of them past a separator
    but the first: each shows exactly the entries the dictionary offers for
    the key paths of the matrix over it, its system rows and then its addon
    rows, each by library and each token once; the rows are appended to those
    at hand; the flag tells whether a window met an item that could not be
    read. A window before the last found nothing or goes on, and the last one
    is the last end or found rows and does not go on. An error is the error of
    the search of one key path of one of these windows. *)
Theorem collected_windows explicit matrix len input into :
  let anchor := len - length input in
  let all := window_ends input (pm_bound matrix - anchor) in
  match collect_window_scan d explicit (Some matrix) len input into with
  | Ok (rows, failed) => exists ends rest bufs,
      all = ends ++ rest /\
      Forall2 (fun e b => window_search explicit matrix anchor e = Ok b /\
        forall kind c, kind = Phrase \/ kind = Addon -> c ∈ rows_of kind b <-> found matrix anchor e kind c) ends bufs /\
      rows = into ++ concat ((fun b => window_order (system b) ++ window_order (addon b)) <$> bufs) /\
      failed = existsb unreadable bufs /\
      Forall (fun b => stops b = false) (removelast bufs) /\
      (rest = [] \/ exists b, last bufs = Some b /\ stops b = true)
  | Err error => exists e path, e ∈ all /\ scan_path matrix (anchor + e) anchor path /\
      length path <= MAX_PHRASE_LENGTH /\ search_path explicit anchor (anchor + e) path empty_buf = Err error
  end.
Proof using.
  cbv zeta. cbn [collect_window_scan]. set (anchor := len - length input). set (bound := pm_bound matrix - anchor).
  destruct (Nat.eq_dec bound 0) as [->|Hb].
  { cbn. exists [], [], []. split_and!; [done|constructor|by rewrite app_nil_r|done|constructor|by left]. }
  rewrite window_ends_cons by lia.
  pose proof (scan_windows_run explicit matrix input anchor (S bound) bound 1 into false ltac:(lia) ltac:(lia)) as Hrun.
  destruct (scan_windows _ _ _ _ _ _ _ _ _ _) as [[rows failed]|error].
  - destruct Hrun as (ends & rest & bufs & H1 & H2 & H3 & H4 & H5). exists ends, rest, bufs.
    split_and!; [done| |done|done|apply H5|apply H5]. apply (Forall2_impl _ _ _ _ H2). intros e b Hs.
    split; [done|]. pose proof (window_search_rows explicit matrix anchor e) as Hr. by rewrite Hs in Hr.
  - destruct Hrun as (e & He & Hs). pose proof (window_search_rows explicit matrix anchor e) as Hr.
    rewrite Hs in Hr. destruct Hr as (path & ?). by exists e, path.
Qed.
End scan.
