(* ===== verification/TableDictionary.v ===== *)
(** * TableDictionary: a dictionary that is a list of entries

    A concrete [Dictionary] and [CandidateDictionary], with the bodies the
    trait gives its methods over a lookup by exact keys. The theorems that
    quantify over dictionaries are tried on it. *)

From Stdlib Require Import ZArith Bool Strings.String.
From stdpp Require Import base list.
From S2P Require Import Prelude Vocab Ucs4 Models ScanMatrix WindowScan.

Definition table : Type := list (list SyllableKey * PhraseEntry).

Definition table_lookup (d : table) (keys : list SyllableKey) : result (list PhraseEntry) bytes :=
  Ok (omap (fun p => if decide (p.1 = keys) then Some p.2 else None) d).

Definition table_continues (d : table) (keys : list SyllableKey) : result bool bytes :=
  Ok (existsb (fun p => bool_decide (take (length keys) p.1 = keys) && (length keys <? length p.1)) d).

Definition table_tokens (d : table) (text : list Z) : list Z :=
  (fun p => entry_token p.2) <$> filter (fun p => outward_words (entry_text p.2) = text) d.

#[export] Instance table_dictionary : Dictionary table := {
  PathMemo := unit;
  memo_default := tt;
  lookup := table_lookup;
  trellis_ranges_continued := default_ranges_continued table_lookup table_continues;
  trellis_item := default_item table_lookup;
  trellis_item_with_facts := default_item_with_facts table_lookup;
  trellis_text := default_text table_lookup;
  trellis_text_with_facts := default_text_with_facts table_lookup;
  handles_partial_keys := fun _ => false;
  tokens_for_ucs4 := fun d => default_tokens_for_ucs4 (table_tokens d);
  phrase_item_pronunciations := fun _ _ => Ok Unsupported
}.

#[export] Instance table_candidates : CandidateDictionary table := {
  candidate_search := default_candidate_search;
  lookup_candidates := default_lookup_candidates table_lookup;
  toned_records := trellis_records table_lookup;
  lookup_addon_candidates := default_lookup_addon_candidates default_lookup_addon;
  phrase_prefix_exists := table_continues;
  phrase_prefix_exists_addon := default_prefix_exists_addon
}.

Definition key_of (s : string) : SyllableKey := default (mk_syllable 0) (from_text (str s)).
Definition scan_of (s : string) (from to : nat) : ScanKey :=
  {| sk_key := key_of s; sk_from := from; sk_to := to; sk_start := from; sk_crosses := false; sk_tone := 0 |}.
Definition char_text (c : Z) : PhraseText := from_str [c].

(** [nihao]: two characters, or one phrase of two. *)
Definition sample_table : table :=
  [([key_of "ni"], entry_new 16777217 (from_str [20320%Z]));
   ([key_of "ni"], entry_new 16777218 (from_str [23612%Z]));
   ([key_of "hao"], entry_new 16777219 (from_str [22909%Z]));
   ([key_of "ni"; key_of "hao"], entry_new 16777220 (from_str [20320%Z; 22909%Z]))].
