(* ===== verification/Cursor.v ===== *)
(** * Cursor: positions over the keys of a parse

    [crates/oxpinyin-engine/src/cursor.rs] and the two offset checks of
    [session/mod.rs]: the columns of a parse read out of its ordered key
    spans, the lookup offset of a cursor, and the moves by a word. [None] is a
    panic on an index out of range. *)

From Stdlib Require Import ZArith Lia Bool Strings.Byte.
From stdpp Require Import base list.
From S2P Require Import Prelude Options Chewing Vocab Graph Models Sorting ScanMatrix MatrixBuild.

(** ** Spans *)

(** [span] panics past the last key. *)
Class KeySpans (K : Type) : Type := {
  span_count : K -> nat;
  span : K -> nat -> option (nat * nat)
}.

#[export] Instance pair_spans : KeySpans (list (nat * nat)) := {
  span_count := length;
  span spans index := spans !! index
}.

Record MatrixKey : Type := from_chewing { mk_key : ChewingKey; mk_start : nat; mk_end : nat }.

#[export] Instance MatrixKey_eq_dec : EqDecision MatrixKey.
Proof. solve_decision. Defined.

Definition matrix_key (key : SyllableKey) (tone : Z) (start end_ : nat) : MatrixKey :=
  from_chewing (with_tone (chewing_key key) tone) start end_.

Definition mk_tone (k : MatrixKey) : Z := Chewing.tone (mk_key k).
Definition mk_span (k : MatrixKey) : nat * nat := (mk_start k, mk_end k).

#[export] Instance matrix_key_spans : KeySpans (list MatrixKey) := {
  span_count := length;
  span keys index := mk_span <$> keys !! index
}.

Section spans.
Context {K : Type} `{KeySpans K} (spans : K).

(** The loop of [first_at_or_after]; the width of [low, high) is enough fuel. *)
Fixpoint partition_point (fuel position low high : nat) : option nat :=
  match fuel with
  | O => Some low
  | S fuel =>
      if low <? high then
        let middle := low + (high - low) / 2 in
        start ← fst <$> span spans middle;
        if start <? position then partition_point fuel position (middle + 1) high
        else partition_point fuel position low middle
      else Some low
  end.

Definition first_at_or_after (position : nat) : option nat :=
  partition_point (span_count spans) position 0 (span_count spans).

(** ** Columns *)

(** The keys of a column are the indexes [col_low, col_high). *)
Record Column : Type := { col_low : nat; col_high : nat; col_zero : option nat }.

Definition no_keys (c : Column) : bool := col_high c <=? col_low c.
Definition col_size (c : Column) : nat := (col_high c - col_low c) + if col_zero c then 1 else 0.
Definition col_is_empty (c : Column) : bool := no_keys c && bool_decide (col_zero c = None).
Definition lone_zero (c : Column) : bool := no_keys c && bool_decide (col_zero c <> None).

Definition first_end (c : Column) : option (option nat) :=
  if no_keys c then Some (col_zero c)
  else end_ ← snd <$> span spans (col_low c); Some (Some end_).

Fixpoint any_ends (low count end_ : nat) : option bool :=
  match count with
  | O => Some false
  | S count => e ← snd <$> span spans low; if e =? end_ then Some true else any_ends (low + 1) count end_
  end.

Definition ends_with (c : Column) (end_ : nat) : option bool :=
  found ← any_ends (col_low c) (col_high c - col_low c) end_;
  Some (found || bool_decide (col_zero c = Some end_)).

Definition leading_separators (input : bytes) : nat :=
  length (take_while (fun b => bool_decide (b = apostrophe)) input).

Record Columns : Type := { cols_input : bytes; cols_parsed : nat; cols_separators : bool; leading_run : nat }.

Definition columns_new (input : bytes) (parsed_len : nat) (separators : bool) : Columns :=
  {| cols_input := input; cols_parsed := Nat.min parsed_len (length input); cols_separators := separators;
     leading_run := if separators then leading_separators input else 0 |}.

Definition zero_end (cs : Columns) (position : nat) : option (option nat) :=
  if length (cols_input cs) =? 0 then Some None
  else if cols_parsed cs <=? position then Some (Some (position + 1))
  else if negb (cols_separators cs) then Some None
  else
    b ← cols_input cs !! position;
    Some (if bool_decide (b = apostrophe) && ((leading_run cs <=? position) || (span_count spans =? 0))
          then Some (position + 1) else None).

(** [get]: [Some None] past the input. *)
Definition cols_get (cs : Columns) (position : nat) : option (option Column) :=
  if length (cols_input cs) <? position then Some None
  else
    low ← first_at_or_after position;
    high ← first_at_or_after (position + 1);
    zero ← zero_end cs position;
    Some (Some {| col_low := low; col_high := high; col_zero := zero |}).

Definition cols_at (cs : Columns) (position : nat) : option Column :=
  column ← cols_get cs position;
  Some (default {| col_low := 0; col_high := 0; col_zero := None |} column).

(** ** The checks and the walks *)

Definition check (cs : Columns) (offset : nat) : option (result unit EngineError) :=
  if 0 <? offset then
    column ← cols_get cs (offset - 1);
    Some (if match column with Some c => lone_zero c | None => false end
          then Err (ZeroKeyOffsetCheck offset) else Ok tt)
  else Some (Ok tt).

(** The loop of [zero_start_walk] from [index] down. *)
Fixpoint zero_walk (cs : Columns) (index offset : nat) : option nat :=
  match index with
  | O => Some offset
  | S i => c ← cols_at cs index; if lone_zero c then zero_walk cs i index else Some offset
  end.

Definition zero_start_walk (cs : Columns) (offset : nat) : option nat := zero_walk cs (offset - 1) offset.

Definition range_check (input_len offset : nat) : result unit EngineError :=
  if input_len <? offset then Err (LookupOffsetOutOfRange offset input_len) else Ok tt.

(** [?] on a step that can also panic. *)
Definition and_then {A B} (r : option (result A EngineError)) (f : A -> option (result B EngineError))
    : option (result B EngineError) :=
  x ← r; match x with Ok a => f a | Err e => Some (Err e) end.

(** The walk back over empty columns. *)
Fixpoint back_to_key (cs : Columns) (offset : nat) : option nat :=
  match offset with
  | O => Some 0
  | S o => c ← cols_at cs offset; if col_is_empty c then back_to_key cs o else Some offset
  end.

Definition lookup_offset_over_spans (input : bytes) (parsed_len : nat) (separators : bool) (cursor : nat)
    : option (result nat EngineError) :=
  let cs := columns_new input parsed_len separators in
  offset ← back_to_key cs (Nat.min cursor (Nat.min parsed_len (length input)));
  offset ← zero_start_walk cs offset;
  and_then (check cs offset) (fun _ => Some (Ok offset)).

(** The walk back to the column a key ends at the offset from. *)
Fixpoint back_to_start (cs : Columns) (offset left_ : nat) : option nat :=
  match left_ with
  | O => Some 0
  | S l =>
      c ← cols_at cs left_; found ← ends_with c offset;
      if found : bool then Some left_ else back_to_start cs offset l
  end.

Definition left_word_offset_over_spans (input : bytes) (parsed_len : nat) (separators : bool) (offset : nat)
    : option (result nat EngineError) :=
  let cs := columns_new input parsed_len separators in
  and_then (Some (range_check (length input) offset)) (fun _ =>
  and_then (check cs offset) (fun _ =>
    left_ ← back_to_start cs offset (offset - 1);
    left_ ← zero_start_walk cs left_;
    and_then (check cs left_) (fun _ => Some (Ok left_)))).

(** The skip over lone zero columns; what is left before the last column is
    enough fuel. *)
Fixpoint skip_zeros (cs : Columns) (fuel size index : nat) : option nat :=
  match fuel with
  | O => Some index
  | S fuel =>
      if index + 1 <? size then
        c ← cols_at cs index;
        if negb (col_size c =? 1) then Some index
        else if lone_zero c then skip_zeros cs fuel size (index + 1) else Some index
      else Some index
  end.

Definition right_word_offset_over_spans (input : bytes) (parsed_len : nat) (separators : bool) (offset : nat)
    : option (result (option nat) EngineError) :=
  let cs := columns_new input parsed_len separators in
  and_then (Some (range_check (length input) offset)) (fun _ =>
  and_then (check cs offset) (fun _ =>
    right_ ← skip_zeros cs (length input) (length input + 1) offset;
    c ← cols_at cs right_;
    end_ ← first_end c;
    match end_ with
    | None => Some (Ok None)
    | Some end_ => and_then (check cs end_) (fun _ => Some (Ok (Some end_)))
    end)).
End spans.

(** ** Over an input of its own *)

Definition in_column_order (keys : list MatrixKey) : list MatrixKey :=
  let starts := mk_start <$> keys in
  if forallb (fun i => default 0 (starts !! i) <=? default 0 (starts !! S i)) (seq 0 (length keys - 1))
  then keys else sort_by (fun a b => mk_start a ?= mk_start b) keys.

Definition matrix_keys (input : bytes) (options : OptionBits)
    : option (result (list MatrixKey * nat) EngineError) :=
  match build_with_options input options with
  | Err error => Some (Err (Graph_ error))
  | Ok graph =>
      matrix ← build_scan_matrix graph options true;
      Some (Ok (in_column_order
        ((fun k => matrix_key (sk_key k) (sk_tone k) (sk_start k) (sk_to k)) <$> concat matrix), consumed graph))
  end.

Definition matrix_spans (input : bytes) (options : OptionBits)
    : option (result (list (nat * nat) * nat) EngineError) :=
  and_then (matrix_keys input options) (fun '(keys, parsed) => Some (Ok (mk_span <$> keys, parsed))).

Definition lookup_offset_for_cursor (input : bytes) (options : OptionBits) (cursor : nat)
    : option (result nat EngineError) :=
  and_then (matrix_spans input options)
    (fun '(spans, parsed) => lookup_offset_over_spans spans input parsed true cursor).

Definition left_word_offset (input : bytes) (options : OptionBits) (offset : nat)
    : option (result nat EngineError) :=
  and_then (matrix_spans input options)
    (fun '(spans, parsed) => left_word_offset_over_spans spans input parsed true offset).

Definition right_word_offset (input : bytes) (options : OptionBits) (offset : nat)
    : option (result (option nat) EngineError) :=
  and_then (matrix_spans input options)
    (fun '(spans, parsed) => right_word_offset_over_spans spans input parsed true offset).

(** ** The offset laws of a buffer *)

Definition check_lookup_offset_range (len offset : nat) : result nat EngineError :=
  if len <? offset then Err (LookupOffsetOutOfRange offset len) else Ok offset.

(** The loop back over separators from [index]. *)
Fixpoint separators_back (input : bytes) (index normalized : nat) : nat :=
  match index with
  | O => normalized
  | S i => if bool_decide (input !! index = Some apostrophe) then separators_back input i index else normalized
  end.

Definition normalize_lookup_offset (input : bytes) (offset : nat) : result nat EngineError :=
  match check_lookup_offset_range (length input) offset with
  | Err e => Err e
  | Ok _ =>
      let normalized := separators_back input (offset - 1) offset in
      let leading := leading_separators input in
      if (normalized <=? leading) && bool_decide (input !! leading <> None) then Ok offset
      else if (0 <? normalized) && bool_decide (input !! (normalized - 1) = Some apostrophe)
      then Err (LookupOffsetPastSeparator offset normalized)
      else Ok normalized
  end.
