(* ===== verification/CursorSpec.v ===== *)
(** * CursorSpec: what the columns of a parse hold, and where the moves end

    The spans of a parse come in column order, so the binary searches of
    [Cursor] cut out exactly the keys of a position. The moves are then
    described over the positions alone: which of them hold keys, which hold a
    lone zero key, which nothing. *)

From Stdlib Require Import ZArith Lia Bool Strings.String Strings.Byte.
From stdpp Require Import base list sorting.
From S2P Require Import Prelude ByteOrder Options Chewing Vocab Graph GraphBuild Models Sorting ScanMatrix MatrixBuild MatrixBuildSpec Cursor.

(** ** The binary search *)

Definition starts_sorted (l : list (nat * nat)) : Prop := StronglySorted (fun a b => a.1 <= b.1) l.

(** What an implementation of [KeySpans] promises. *)
Definition spans_are {K} `{KeySpans K} (spans : K) (l : list (nat * nat)) : Prop :=
  span_count spans = length l /\ forall i, span spans i = l !! i.

Lemma pair_spans_are (l : list (nat * nat)) : spans_are l l.
Proof. done. Qed.

Lemma matrix_spans_are (keys : list MatrixKey) : spans_are keys (mk_span <$> keys).
Proof. split; [by rewrite length_fmap|]. intros i. by rewrite list_lookup_fmap. Qed.

Section spans.
Context {K : Type} `{KeySpans K} (spans : K) (l : list (nat * nat)).
Context (Hspans : spans_are spans l) (Hsorted : starts_sorted l).

Lemma sorted_starts i j a b : i <= j -> l !! i = Some a -> l !! j = Some b -> a.1 <= b.1.
Proof using Hsorted.
  intros Hij Ha Hb. destruct (Nat.eq_dec i j) as [->|]; [rewrite Ha in Hb; by injection Hb as ->|].
  refine (StronglySorted_lookup_lt _ _ i j a b Hsorted _ Ha Hb). lia.
Qed.

Lemma partition_point_spec position fuel low high :
  low <= high <= length l -> high - low <= fuel ->
  (forall i s, l !! i = Some s -> i < low -> s.1 < position) ->
  (forall i s, l !! i = Some s -> high <= i -> position <= s.1) ->
  exists k, partition_point spans fuel position low high = Some k /\ k <= length l /\
    forall i s, l !! i = Some s -> s.1 < position <-> i < k.
Proof using Hspans Hsorted.
  revert low high. induction fuel as [|fuel IH]; intros low high Hb Hf Hlo Hhi; cbn [partition_point].
  { exists low. split; [done|]. split; [lia|]. intros i s Hs. specialize (Hlo i s Hs). specialize (Hhi i s Hs). lia. }
  destruct (Nat.ltb_spec low high) as [Hlt|].
  2: { exists low. split; [done|]. split; [lia|]. intros i s Hs. specialize (Hlo i s Hs). specialize (Hhi i s Hs). lia. }
  set (middle := low + (high - low) / 2).
  assert (low <= middle < high) as Hm
    by (unfold middle; pose proof (Nat.div_lt_upper_bound (high - low) 2 (high - low)); lia).
  destruct (lookup_lt_is_Some_2 l middle) as [m Hl]; [lia|]. rewrite (proj2 Hspans), Hl. cbn [fmap option_fmap option_map mbind option_bind].
  destruct (Nat.ltb_spec m.1 position) as [Hp|Hp].
  - apply IH; [lia|lia| |done]. intros i s Hs Hi. pose proof (sorted_starts i middle s m ltac:(lia) Hs Hl). lia.
  - apply IH; [lia|lia|done|]. intros i s Hs Hi. pose proof (sorted_starts middle i m s Hi Hl Hs). lia.
Qed.

Lemma first_at_or_after_spec position :
  exists k, first_at_or_after spans position = Some k /\ k <= length l /\
    forall i s, l !! i = Some s -> s.1 < position <-> i < k.
Proof using Hspans Hsorted.
  unfold first_at_or_after. rewrite (proj1 Hspans). apply partition_point_spec; try lia.
  intros i s Hs%lookup_lt_Some. lia.
Qed.

(** ** The columns *)

Context (input : bytes) (parsed_len : nat) (separators : bool).

(** The spans that start at a position, in order. *)
Definition keys_at (p : nat) : list (nat * nat) := filter (fun s => s.1 = p) l.

(** The positions that hold a zero key: those of the tail, and the separators
    the parse went over. *)
Definition zero_at (p : nat) : bool :=
  negb (length input =? 0) && (p <=? length input)
  && ((Nat.min parsed_len (length input) <=? p)
      || separators && bool_decide (input !! p = Some apostrophe)
         && ((leading_separators input <=? p) || bool_decide (l = []))).

Definition lone (p : nat) : bool := bool_decide (keys_at p = []) && zero_at p.
Definition vacant (p : nat) : bool := bool_decide (keys_at p = []) && negb (zero_at p).

Definition cut (c : Column) : list (nat * nat) := take (col_high c - col_low c) (drop (col_low c) l).

Lemma filter_cut {A} (P : A -> Prop) `{!forall x, Decision (P x)} (m : list A) low high :
  high <= length m -> (forall i x, m !! i = Some x -> P x <-> low <= i < high) ->
  filter P m = take (high - low) (drop low m).
Proof using.
  clear. revert low high. induction m as [|x m IH]; intros low high Hh HP; [by rewrite drop_nil, take_nil|].
  assert (P x <-> low <= 0 < high) as Hx by by apply (HP 0 x).
  destruct low as [|low].
  - destruct high as [|high].
    + rewrite filter_cons_False by (rewrite Hx; lia). rewrite (IH 0 0); [done|lia|].
      intros i y Hy. rewrite (HP (S i) y Hy). lia.
    + rewrite filter_cons_True by (apply Hx; lia). cbn. f_equal. rewrite (IH 0 high); [by rewrite Nat.sub_0_r|cbn in Hh; lia|].
      intros i y Hy. rewrite (HP (S i) y Hy). lia.
  - rewrite filter_cons_False by (rewrite Hx; lia). cbn [drop]. rewrite (IH low (high - 1)).
    + f_equal. lia.
    + cbn in Hh. lia.
    + intros i y Hy. rewrite (HP (S i) y Hy). lia.
Qed.

(** The column the code reads is the one of the position. *)
Definition column_of (c : Column) (p : nat) : Prop :=
  cut c = keys_at p /\ col_low c <= col_high c <= length l /\
  col_zero c = if zero_at p then Some (p + 1) else None.

Lemma zero_end_spec p :
  p <= length input ->
  zero_end spans (columns_new input parsed_len separators) p = Some (if zero_at p then Some (p + 1) else None).
Proof using Hspans.
  intros Hp. unfold zero_end, zero_at. cbn [cols_input cols_parsed cols_separators leading_run columns_new].
  rewrite (proj2 (Nat.leb_le _ _) Hp).
  destruct (Nat.eqb_spec (length input) 0) as [|Hne]; [done|].
  destruct (Nat.leb_spec (Nat.min parsed_len (length input)) p) as [|Hlt]; [done|].
  destruct separators; [|done]. cbn [negb].
  destruct (lookup_lt_is_Some_2 input p) as [b Hb]; [lia|]. rewrite Hb. cbn [mbind option_bind].
  assert (bool_decide (l = []) = (span_count spans =? 0)) as ->.
  { rewrite (proj1 Hspans). apply eq_iff_eq_true. by rewrite bool_decide_eq_true, Nat.eqb_eq, length_zero_iff_nil. }
  rewrite (bool_decide_ext (Some b = Some apostrophe) (b = apostrophe)) by naive_solver. done.
Qed.

Lemma cols_get_spec p :
  p <= length input ->
  exists c, cols_get spans (columns_new input parsed_len separators) p = Some (Some c) /\ column_of c p.
Proof using Hspans Hsorted.
  intros Hp. unfold cols_get. rewrite (proj2 (Nat.ltb_ge _ _)) by done.
  destruct (first_at_or_after_spec p) as (low & -> & Hl & Hlow).
  destruct (first_at_or_after_spec (p + 1)) as (high & -> & Hh & Hhigh).
  rewrite zero_end_spec by done. cbn [mbind option_bind].
  eexists. split; [reflexivity|]. unfold column_of, cut. cbn [col_low col_high col_zero].
  split; [|split; [|done]].
  - symmetry. apply filter_cut; [done|]. intros i s Hs. specialize (Hlow i s Hs). specialize (Hhigh i s Hs). lia.
  - split; [|done]. destruct (Nat.le_gt_cases low high) as [|Hgt]; [done|].
    destruct (lookup_lt_is_Some_2 l high) as [s Hs]; [lia|].
    specialize (Hlow high s Hs). specialize (Hhigh high s Hs). lia.
Qed.

Lemma cols_get_past p :
  length input < p -> cols_get spans (columns_new input parsed_len separators) p = Some None.
Proof using. intros Hp. unfold cols_get. by rewrite (proj2 (Nat.ltb_lt _ _)) by done. Qed.

Lemma no_keys_spec c p : column_of c p -> no_keys c = bool_decide (keys_at p = []).
Proof using.
  intros (<- & Hb & _). unfold no_keys, cut. apply eq_iff_eq_true.
  rewrite Nat.leb_le, bool_decide_eq_true, <- length_zero_iff_nil, length_take, length_drop. lia.
Qed.

Lemma column_flags c p : column_of c p -> lone_zero c = lone p /\ col_is_empty c = vacant p.
Proof using.
  intros Hc. unfold lone_zero, col_is_empty, lone, vacant. rewrite (no_keys_spec c p Hc).
  destruct Hc as (_ & _ & ->). by destruct (zero_at p).
Qed.

Lemma cut_lookup c i : i < col_high c - col_low c -> cut c !! i = l !! (col_low c + i).
Proof using. intros Hi. unfold cut. by rewrite lookup_take_lt, lookup_drop. Qed.

Lemma first_end_spec c p :
  column_of c p ->
  first_end spans c = Some (match keys_at p with s :: _ => Some s.2 | [] => if zero_at p then Some (p + 1) else None end).
Proof using Hspans.
  intros Hc. unfold first_end. rewrite (no_keys_spec c p Hc).
  destruct Hc as (Hcut & Hb & ->). destruct (keys_at p) as [|s ss] eqn:E; [done|].
  assert (cut c !! 0 = Some s) as Hs by by rewrite Hcut.
  assert (0 < col_high c - col_low c) as Hlt by (apply lookup_lt_Some in Hs; unfold cut in Hs; rewrite length_take in Hs; lia).
  rewrite cut_lookup, Nat.add_0_r in Hs by done. rewrite (proj2 Hspans), Hs. done.
Qed.

Lemma any_ends_spec count low end_ :
  low + count <= length l ->
  any_ends spans low count end_ = Some (existsb (fun s => s.2 =? end_) (take count (drop low l))).
Proof using Hspans.
  revert low. induction count as [|count IH]; intros low Hb; [done|]. cbn [any_ends].
  destruct (lookup_lt_is_Some_2 l low) as [s Hs]; [lia|]. rewrite (proj2 Hspans), Hs.
  cbn [fmap option_fmap option_map mbind option_bind]. rewrite (drop_S l s low Hs). cbn [take existsb].
  destruct (_ =? _); [done|]. rewrite IH by lia. by rewrite Nat.add_1_r.
Qed.

Lemma column_ends_with c p end_ :
  column_of c p ->
  ends_with spans c end_ = Some (existsb (fun s => s.2 =? end_) (keys_at p) || (zero_at p && (p + 1 =? end_))).
Proof using Hspans.
  intros (Hcut & Hb & Hz). unfold ends_with. rewrite any_ends_spec by lia. fold (cut c). rewrite Hcut, Hz.
  cbn [mbind option_bind]. do 2 f_equal. destruct (zero_at p); [|by rewrite bool_decide_eq_false_2 by done].
  cbn [andb]. apply eq_iff_eq_true. rewrite bool_decide_eq_true, Nat.eqb_eq. naive_solver.
Qed.

(** ** The moves *)

Local Abbreviation cs := (columns_new input parsed_len separators).

(** What a step to a position answers: one past a lone zero key is refused. *)
Definition checked {A} (p : nat) (a : A) : result A EngineError :=
  if (0 <? p) && lone (p - 1) then Err (ZeroKeyOffsetCheck p) else Ok a.

Lemma check_spec p :
  check spans cs p = Some (checked p tt).
Proof using Hspans Hsorted.
  unfold check, checked. destruct (Nat.ltb_spec 0 p) as [Hp|]; [|done]. cbn [andb].
  destruct (Nat.le_gt_cases (p - 1) (length input)) as [Hle|Hgt].
  - destruct (cols_get_spec (p - 1) Hle) as (c & -> & Hc). cbn [mbind option_bind].
    by rewrite (proj1 (column_flags c _ Hc)).
  - rewrite cols_get_past by done. cbn [mbind option_bind].
    assert (lone (p - 1) = false) as ->; [|done].
    unfold lone, zero_at. rewrite (proj2 (Nat.leb_gt _ _) Hgt), andb_false_r. cbn [andb]. apply andb_false_r.
Qed.

Lemma cols_at_spec p : p <= length input -> exists c, cols_at spans cs p = Some c /\ column_of c p.
Proof using Hspans Hsorted.
  intros Hp. destruct (cols_get_spec p Hp) as (c & E & Hc). exists c. unfold cols_at. by rewrite E.
Qed.

(** [z] starts the run of lone zero keys before [p]; position zero is never
    stepped over. *)
Definition run_start (p z : nat) : Prop :=
  z <= p /\ (z = 0 -> p = 0) /\ (forall q, z <= q < p -> lone q = true) /\ (z <= 1 \/ lone (z - 1) = false).

Lemma zero_start_walk_spec p :
  p <= S (length input) -> exists z, zero_start_walk spans cs p = Some z /\ run_start p z.
Proof using Hspans Hsorted.
  unfold zero_start_walk. destruct p as [|p].
  { intros _. exists 0. split; [done|]. split_and!; [done|done|intros q Hq; lia|left; lia]. }
  replace (S p - 1) with p by lia. induction p as [|p IH]; intros Hp; cbn [zero_walk].
  { exists 1. split; [done|]. split_and!; [done|done|intros q Hq; lia|by left]. }
  destruct (cols_at_spec (S p)) as (c & -> & Hc); [lia|]. cbn [mbind option_bind].
  rewrite (proj1 (column_flags c _ Hc)). destruct (lone (S p)) eqn:El.
  - destruct IH as (z & -> & Hz & H0 & Hrun & Hend); [lia|]. exists z. split; [done|].
    split; [lia|]. split; [intros E; by apply H0 in E|]. split; [|done]. intros q Hq.
    destruct (Nat.eq_dec q (S p)) as [->|]; [done|]. apply Hrun. lia.
  - exists (S (S p)). split; [done|]. split_and!; [done|done|intros q Hq; lia|]. right. by replace (S (S p) - 1) with (S p) by lia.
Qed.

Lemma back_to_key_spec p :
  p <= length input ->
  exists k, back_to_key spans cs p = Some k /\ k <= p /\ (k = 0 \/ vacant k = false) /\
    forall q, k < q <= p -> vacant q = true.
Proof using Hspans Hsorted.
  induction p as [|p IH]; intros Hp; cbn [back_to_key].
  { exists 0. split_and!; [done|done|by left|lia]. }
  destruct (cols_at_spec (S p) Hp) as (c & -> & Hc). cbn [mbind option_bind].
  rewrite (proj2 (column_flags c _ Hc)). destruct (vacant (S p)) eqn:Ev.
  - destruct IH as (k & -> & Hk & Hor & Hv); [lia|]. exists k. split_and!; [done|lia|done|].
    intros q Hq. destruct (Nat.eq_dec q (S p)) as [->|]; [done|]. apply Hv. lia.
  - exists (S p). split_and!; [done|done|by right|lia].
Qed.

(** A key of the column, or its zero key, ends at [e]. *)
Definition ends_at (p e : nat) : bool := existsb (fun s => s.2 =? e) (keys_at p) || (zero_at p && (p + 1 =? e)).

Lemma back_to_start_spec offset m :
  m <= length input ->
  exists k, back_to_start spans cs offset m = Some k /\ k <= m /\ (k = 0 \/ ends_at k offset = true) /\
    forall q, k < q <= m -> ends_at q offset = false.
Proof using Hspans Hsorted.
  induction m as [|m IH]; intros Hm; cbn [back_to_start].
  { exists 0. split_and!; [done|done|by left|lia]. }
  destruct (cols_at_spec (S m) Hm) as (c & -> & Hc). cbn [mbind option_bind].
  rewrite (column_ends_with c _ offset Hc). fold (ends_at (S m) offset). cbn [mbind option_bind].
  destruct (ends_at (S m) offset) eqn:Ee.
  - exists (S m). split_and!; [done|done|by right|lia].
  - destruct IH as (k & -> & Hk & Hor & Hv); [lia|]. exists k. split_and!; [done|lia|done|].
    intros q Hq. destruct (Nat.eq_dec q (S m)) as [->|]; [done|]. apply Hv. lia.
Qed.

Lemma skip_zeros_spec fuel p :
  p <= length input -> length input - p <= fuel ->
  exists r, skip_zeros spans cs fuel (length input + 1) p = Some r /\ p <= r <= length input /\
    (forall q, p <= q < r -> lone q = true) /\ (r = length input \/ lone r = false).
Proof using Hspans Hsorted.
  revert p. induction fuel as [|fuel IH]; intros p Hp Hf; cbn [skip_zeros].
  { exists p. split; [done|]. split; [lia|]. split; [lia|left; lia]. }
  destruct (Nat.ltb_spec (p + 1) (length input + 1)) as [Hlt|]; [|exists p; split_and!; [done|lia|lia|lia|left; lia]].
  destruct (cols_at_spec p Hp) as (c & -> & Hc). cbn [mbind option_bind].
  pose proof (proj1 (column_flags c p Hc)) as Hlone.
  destruct (lone p) eqn:El.
  - assert (col_size c = 1) as ->.
    { unfold lone_zero, no_keys in Hlone. apply andb_true_iff in Hlone as [Hk%Nat.leb_le Hz%bool_decide_eq_true].
      unfold col_size. destruct (col_zero c); [lia|done]. }
    cbn [Nat.eqb negb]. rewrite Hlone. destruct (IH (p + 1)) as (r & -> & Hr & Hl & Hend); [lia..|].
    exists r. split; [done|]. split; [lia|]. split; [|done]. intros q Hq.
    destruct (Nat.eq_dec q p) as [->|]; [done|]. apply Hl. lia.
  - exists p. destruct (negb _); [|rewrite Hlone]; split_and!; try done; try lia; by right.
Qed.

(** The end of the first key of a column. *)
Definition end_of (p : nat) : option nat :=
  match keys_at p with s :: _ => Some s.2 | [] => if zero_at p then Some (p + 1) else None end.

(** Each law answers, or refuses. *)
Lemma laws_answer offset :
  is_Some (lookup_offset_over_spans spans input parsed_len separators offset) /\
  is_Some (left_word_offset_over_spans spans input parsed_len separators offset) /\
  is_Some (right_word_offset_over_spans spans input parsed_len separators offset).
Proof using Hspans Hsorted.
  assert (forall p, check spans cs p = Some (checked p tt)) as Hcheck by apply check_spec. split_and!.
  - unfold lookup_offset_over_spans.
    destruct (back_to_key_spec (Nat.min offset (Nat.min parsed_len (length input)))) as (k & -> & Hk & _); [lia|].
    cbn [mbind option_bind]. destruct (zero_start_walk_spec k) as (z & -> & _); [lia|]. cbn [mbind option_bind].
    rewrite Hcheck. by destruct (checked z tt).
  - unfold left_word_offset_over_spans, range_check, and_then.
    destruct (Nat.ltb_spec (length input) offset); [done|]. cbn [mbind option_bind]. rewrite Hcheck. cbn [mbind option_bind].
    destruct (checked offset tt); [|done].
    destruct (back_to_start_spec offset (offset - 1)) as (k & -> & Hk & _); [lia|]. cbn [mbind option_bind].
    destruct (zero_start_walk_spec k) as (z & -> & _); [lia|]. cbn [mbind option_bind].
    rewrite Hcheck. by destruct (checked z tt).
  - unfold right_word_offset_over_spans, range_check, and_then.
    destruct (Nat.ltb_spec (length input) offset); [done|]. cbn [mbind option_bind]. rewrite Hcheck. cbn [mbind option_bind].
    destruct (checked offset tt); [|done].
    destruct (skip_zeros_spec (length input) offset) as (r & -> & Hr & _); [lia..|]. cbn [mbind option_bind].
    destruct (cols_at_spec r) as (c & -> & Hc); [lia|]. cbn [mbind option_bind].
    rewrite (first_end_spec c r Hc). cbn [mbind option_bind].
    destruct (match keys_at r with [] => _ | _ :: _ => _ end) as [e|]; [|done]. rewrite Hcheck. by destruct (checked e tt).
Qed.

(** C21. Where the offset of a cursor and the two moves by a word end, over
    any keys in column order. None of them panics. The offset of a cursor is
    the start of the run of lone zero keys before the last position up to it,
    and to the parsed length, that is not vacant. A move is refused past the
    input and right after a lone zero key; the left one goes to the start of
    the run before the last earlier position a key from which ends at the
    offset, or before the first position; the right one skips lone zero keys
    and answers where the first key from there ends, nothing where no key is.
    A target right after a lone zero key is refused too. *)
Theorem cursor_moves offset :
  let n := Nat.min offset (Nat.min parsed_len (length input)) in
  (exists k z, k <= n /\ (k = 0 \/ vacant k = false) /\ (forall q, k < q <= n -> vacant q = true) /\ run_start k z /\
     lookup_offset_over_spans spans input parsed_len separators offset = Some (checked z z)) /\
  match range_check (length input) offset, checked offset tt with
  | Err e, _ | Ok _, Err e =>
      left_word_offset_over_spans spans input parsed_len separators offset = Some (Err e) /\
      right_word_offset_over_spans spans input parsed_len separators offset = Some (Err e)
  | Ok _, Ok _ =>
      (exists k z, k <= offset - 1 /\ (k = 0 \/ ends_at k offset = true) /\
         (forall q, k < q < offset -> ends_at q offset = false) /\ run_start k z /\
         left_word_offset_over_spans spans input parsed_len separators offset = Some (checked z z)) /\
      (exists r, offset <= r <= length input /\ (forall q, offset <= q < r -> lone q = true) /\
         (r = length input \/ lone r = false) /\
         right_word_offset_over_spans spans input parsed_len separators offset =
           Some (match end_of r with None => Ok None | Some e => checked e (Some e) end))
  end.
Proof using Hspans Hsorted.
  cbv zeta. split.
  - unfold lookup_offset_over_spans. destruct (back_to_key_spec (Nat.min offset (Nat.min parsed_len (length input))))
      as (k & -> & Hk & Hor & Hv); [lia|]. cbn [mbind option_bind].
    destruct (zero_start_walk_spec k) as (z & -> & Hz); [lia|]. cbn [mbind option_bind].
    exists k, z. split_and!; [done..|]. rewrite check_spec. unfold checked. by destruct (_ && _).
  - unfold left_word_offset_over_spans, right_word_offset_over_spans, range_check.
    destruct (Nat.ltb_spec (length input) offset) as [|Hle]; [done|]. unfold and_then. cbn [mbind option_bind].
    rewrite check_spec. cbn [mbind option_bind].
    destruct (checked offset tt) as [[]|e] eqn:Ec; [|done]. split.
    + destruct (back_to_start_spec offset (offset - 1)) as (k & -> & Hk & Hor & Hv); [lia|]. cbn [mbind option_bind].
      destruct (zero_start_walk_spec k) as (z & -> & Hz); [lia|]. cbn [mbind option_bind].
      exists k, z. split_and!; [done|done|intros q Hq; apply Hv; lia|done|].
      rewrite check_spec. unfold checked. by destruct (_ && _).
    + destruct (skip_zeros_spec (length input) offset) as (r & -> & Hr & Hl & Hend); [done|lia|]. cbn [mbind option_bind].
      exists r. split_and!; [lia|lia|done|done|].
      destruct (cols_at_spec r) as (c & -> & Hc); [lia|]. cbn [mbind option_bind].
      rewrite (first_end_spec c r Hc). fold (end_of r). cbn [mbind option_bind].
      destruct (end_of r) as [e|]; [|done]. rewrite check_spec. unfold checked. by destruct (_ && _).
Qed.
End spans.

(** ** The keys of an input *)

Lemma mk_start_compare (a b : MatrixKey) :
  (mk_start a ?= mk_start b) = lex_compare [Z.of_nat (mk_start a)] [Z.of_nat (mk_start b)].
Proof. cbn. rewrite Nat2Z.inj_compare. by destruct (mk_start a ?= mk_start b). Qed.

(** The check before the sort changes nothing. *)
Lemma in_column_order_sort keys :
  in_column_order keys = sort_by (fun a b => mk_start a ?= mk_start b) keys.
Proof.
  unfold in_column_order. destruct (forallb _ _) eqn:E; [|done]. symmetry. apply sort_by_id.
  rewrite forallb_forall in E.
  assert (forall i a b, keys !! i = Some a -> keys !! S i = Some b -> mk_start a <= mk_start b) as Hadj.
  { intros i a b Ha Hb. specialize (E i). rewrite !list_lookup_fmap, Ha, Hb in E. apply Nat.leb_le, E.
    apply in_seq. apply lookup_lt_Some in Hb. lia. }
  clear E. assert (StronglySorted (fun a b => mk_start a <= mk_start b) keys) as Hs.
  { apply Sorted_StronglySorted; [intros a b c; lia|].
    induction keys as [|a keys IH]; constructor.
    - apply IH. intros i x y Hx Hy. by apply (Hadj (S i)).
    - destruct keys as [|b keys]; constructor. by apply (Hadj 0). }
  clear Hadj. induction Hs as [|a keys Hs IH Ha]; constructor; [done|].
  apply (Forall_impl _ _ _ Ha). intros b Hb Hg%Nat.compare_gt_iff. lia.
Qed.

Lemma in_column_order_spec keys :
  in_column_order keys ≡ₚ keys /\ starts_sorted (mk_span <$> in_column_order keys).
Proof.
  rewrite in_column_order_sort. split; [by apply sort_by_perm|].
  pose proof (sort_by_sorted _ _ mk_start_compare keys) as Hs. unfold starts_sorted.
  induction Hs as [|a l Hs IH Ha]; constructor; [done|].
  apply Forall_fmap, (Forall_impl _ _ _ Ha). intros b Hb. cbn.
  unfold le_key in Hb. rewrite <- mk_start_compare in Hb. apply Nat.compare_le_iff. intros Hg. by apply Hb.
Qed.

Lemma built_consumed_le input options g :
  build_with_options input options = Ok g -> consumed g <= length input.
Proof. intros (_ & _ & _ & _ & _ & _ & _ & Hc)%build_inv. cbn in Hc. lia. Qed.

(** A parse of text without NUL has its keys, in column order, each of them
    inside what the graph consumed. *)
Lemma matrix_keys_spec input options g :
  build_with_options input options = Ok g -> x00 ∉ input ->
  exists keys matrix, matrix_keys input options = Some (Ok (keys, consumed g)) /\
    build_scan_matrix g options true = Some matrix /\
    keys ≡ₚ (fun k => matrix_key (sk_key k) (sk_tone k) (sk_start k) (sk_to k)) <$> concat matrix /\
    starts_sorted (mk_span <$> keys) /\
    forall k, k ∈ keys -> mk_start k < mk_end k <= consumed g.
Proof.
  intros Hg H0. destruct (parsed_scan_matrix input options [] g true) as (matrix & Hm & _ & Hcol & _); [by left|].
  unfold matrix_keys. rewrite Hg, Hm. cbn [mbind option_bind].
  set (keys := (fun k => matrix_key (sk_key k) (sk_tone k) (sk_start k) (sk_to k)) <$> concat matrix).
  destruct (in_column_order_spec keys) as [Hp Hs]. exists (in_column_order keys), matrix. split_and!; try done.
  intros k Hk. rewrite Hp in Hk. apply list_elem_of_fmap in Hk as (sk & -> & Hk).
  apply list_elem_of_In, in_concat in Hk as (column & Hc & Hk).
  apply list_elem_of_In in Hc, Hk. apply list_elem_of_lookup in Hc as (p & Hc).
  destruct (Hcol p column Hc) as [_ Hin]. destruct (Hin sk Hk) as (_ & Hf & _). unfold fits_in in Hf. cbn. lia.
Qed.

(** [ni'hao]: left of the end is the apostrophe before [hao], and from there
    the right move is refused nowhere. *)
Lemma cursor_moves_witness :
  let spans := [(0, 2); (3, 6)] in
  left_word_offset_over_spans spans (str "ni'hao") 6 true 6 = Some (Ok 2) /\
  right_word_offset_over_spans spans (str "ni'hao") 6 true 2 = Some (Ok (Some 6)) /\
  (exists k z, k <= 5 /\ run_start spans (str "ni'hao") 6 true k z /\
     left_word_offset_over_spans spans (str "ni'hao") 6 true 6 = Some (checked spans (str "ni'hao") 6 true z z)).
Proof.
  cbv zeta. split; [vm_compute; reflexivity|]. split; [vm_compute; reflexivity|].
  assert (starts_sorted [(0, 2); (3, 6)]) as Hs.
  { constructor; [constructor; [constructor|constructor]|]. constructor; [cbn; lia|constructor]. }
  destruct (cursor_moves [(0, 2); (3, 6)] _ (pair_spans_are _) Hs (str "ni'hao") 6 true 6) as [_ H].
  vm_compute range_check in H. destruct H as [(k & z & Hk & _ & _ & Hr & E) _]. exists k, z. split; [exact Hk|]. split; [exact Hr|exact E].
Defined.
