(* ===== verification/CharOffset.v ===== *)
(** * CharOffset: characters under an offset, and the keys of a phrase

    [crates/oxpinyin-engine/src/char_offset.rs] with [reading_matches] of
    [nbest.rs]: the columns of a parse built one by one, the search of how
    many characters of a phrase lie before an offset, and the walk over the
    key paths a phrase can be remembered under. A closure that changes what
    it captured takes and returns it. [None] is a panic on an index, or a
    recursion that does not end. *)

From Stdlib Require Import ZArith Lia Bool SpecFloat Strings.Byte.
From stdpp Require Import base list.
From S2P Require Import Prelude Float Chewing Vocab Graph Ucs4 Models Scoring ScanMatrix MatrixBuild WindowScan Cursor.
#[local] Open Scope result_scope.

(** ** Columns *)

Record KeyColumn : Type := { kc_real : list MatrixKey; kc_zero : option nat }.

Definition no_column : KeyColumn := {| kc_real := []; kc_zero := None |}.
Definition push_real (k : MatrixKey) (c : KeyColumn) : KeyColumn :=
  {| kc_real := kc_real c ++ [k]; kc_zero := kc_zero c |}.
Definition set_zero (position : nat) (c : KeyColumn) : KeyColumn :=
  {| kc_real := kc_real c; kc_zero := Some (position + 1) |}.

Definition kc_lone_zero (c : KeyColumn) : bool := bool_decide (kc_real c = []) && bool_decide (kc_zero c <> None).
Definition kc_empty (c : KeyColumn) : bool := bool_decide (kc_real c = []) && bool_decide (kc_zero c = None).

(** A key past the columns is left out. *)
Definition place_key (columns : list KeyColumn) (k : MatrixKey) : list KeyColumn :=
  alter (push_real k) (mk_start k) columns.

Definition mark_separator (input : bytes) (leading_run : nat) (keyless : bool) (columns : list KeyColumn)
    (position : nat) : option (list KeyColumn) :=
  b ← input !! position;
  if bool_decide (b = apostrophe) && ((leading_run <=? position) || keyless)
  then if position <? length columns then Some (alter (set_zero position) position columns) else None
  else Some columns.

Definition build_columns (input : bytes) (parsed_len : nat) (keys : list MatrixKey) (separators : bool)
    : option (list KeyColumn) :=
  let bound := length input in
  let columns := fold_left place_key keys (replicate (bound + 1) no_column) in
  let parsed := Nat.min parsed_len bound in
  columns ← (if separators
             then for_each (seq 0 parsed)
                    (mark_separator input (leading_separators input) (bool_decide (keys = []))) columns
             else Some columns);
  Some (imap (fun position c => if parsed <=? position then set_zero position c else c) columns).

(** ** A key a phrase pronounces *)

Definition key_matches (q s : ChewingKey) : bool :=
  (initial q =? initial s)%Z
  && (((middle q =? middle s)%Z && (final_ q =? final_ s)%Z) || ((middle q =? 0)%Z && (final_ q =? 0)%Z)
      || ((middle s =? 0)%Z && (final_ s =? 0)%Z))
  && ((Chewing.tone q =? Chewing.tone s)%Z || (Chewing.tone q =? 0)%Z || (Chewing.tone s =? 0)%Z).

Definition reading_matches (query stored : list ChewingKey) : bool :=
  (length query =? length stored) && forallb (fun '(q, s) => key_matches q s) (zip query stored).

Definition sum_freq (rows : list (list ChewingKey * Z)) : Z :=
  fold_left (fun sum row => (sum +₃₂ row.2)%M) rows 0%Z.

Definition entry_keeps (token : Z) (entry : PhraseEntry) : bool :=
  (entry_token entry =? token)%Z
  && match entry_pronunciation entry with Some (0%Z, _) => false | _ => true end.

Section dictionary.
Context {D : Type} `{Dictionary D} (dictionary : D).

(** The lookups of a key's completions, until one keeps the token. *)
Fixpoint any_keeps (token : Z) (sequences : list (list SyllableKey)) : result bool EngineError :=
  match sequences with
  | [] => Ok false
  | sequence :: sequences =>
      try entries := from_dictionary (lookup dictionary sequence) in
      if existsb (entry_keeps token) entries then Ok true else any_keeps token sequences
  end.

Definition pronounces (key : MatrixKey) (token : Z) : result bool EngineError :=
  match from_chewing_key (mk_key key) with
  | None => Ok false
  | Some syllable =>
      try read := from_dictionary (phrase_item_pronunciations dictionary token) in
      match read with
      | Item rows =>
          let total := sum_freq rows in
          let matched := sum_freq (filter (fun row => reading_matches [mk_key key] row.1 = true) rows) in
          Ok (negb (total =? 0)%Z && SFleb F32_EPSILON (f32_div (int_as_f32 matched) (int_as_f32 total)))
      | NoItem => Ok false
      | Unsupported =>
          if bool_decide (completeness syllable = Partial)
          then any_keeps token (expand_keys [syllable] SCAN_EXPANSION_LIMIT)
          else
            try entries := from_dictionary (lookup dictionary [syllable]) in
            Ok (existsb (entry_keeps token) entries)
      end
  end.

Definition key_pronounced_by (key : MatrixKey) (token : Z) : result bool EngineError := pronounces key token.

(** ** The characters before an offset *)

(** The loop over the keys of a column; [go] goes on from the end of one. *)
Fixpoint walk_keys (go : nat -> nat -> option (result (option nat) EngineError)) (tokens : list Z)
    (offset length_ : nat) (keys : list MatrixKey) : option (result (option nat) EngineError) :=
  match keys with
  | [] => Some (Ok None)
  | key :: keys =>
      match tokens !! length_ with
      | None => walk_keys go tokens offset length_ keys
      | Some token =>
          match pronounces key token with
          | Err e => Some (Err e)
          | Ok false => walk_keys go tokens offset length_ keys
          | Ok true =>
              if offset <? mk_end key then Some (Ok (Some length_))
              else
                found ← go (mk_end key) (length_ + 1);
                match found with
                | Ok None => walk_keys go tokens offset length_ keys
                | found => Some found
                end
          end
      end
  end.

Fixpoint walk (columns : list KeyColumn) (tokens : list Z) (offset : nat) (fuel start length_ : nat)
    : option (result (option nat) EngineError) :=
  match fuel with
  | O => None
  | S fuel =>
      if offset <? start then Some (Ok (Some length_))
      else
        match columns !! start with
        | None => Some (Err (MatrixColumnAssert start))
        | Some column =>
            if kc_empty column then Some (Err (MatrixColumnAssert start))
            else
              match kc_zero column with
              | Some zero_end =>
                  if bool_decide (kc_real column <> []) then Some (Err (MatrixColumnAssert start))
                  else walk columns tokens offset fuel zero_end length_
              | None => walk_keys (walk columns tokens offset fuel) tokens offset length_ (kc_real column)
              end
        end
  end.

(** The first token of each character, or what ends the search of them. *)
Fixpoint first_tokens (words : list Z) : result (option (list Z)) EngineError :=
  match words with
  | [] => Ok (Some [])
  | word :: words =>
      let found := tokens_for_ucs4 dictionary [word] in
      if 4 <? length found then Err (ReduceTokensCount (length found))
      else
        match found with
        | [] => Ok None
        | token :: _ => try tokens := first_tokens words in Ok ((cons token) <$> tokens)
        end
  end.

Definition character_offset_with_walk_over_keys (input : bytes) (parsed_len : nat) (keys : list MatrixKey)
    (separators : bool) (phrase : PhraseText) (offset : nat) : option (result (option nat * bool) EngineError) :=
  if bool_decide (input = []) || bool_decide (keys = []) then Some (Ok (None, false))
  else if length input <? offset then Some (Err (LookupOffsetOutOfRange offset (length input)))
  else
    (columns ← build_columns input parsed_len keys separators;
     if (0 <? offset) && match columns !! (offset - 1) with Some c => kc_lone_zero c | None => false end
     then Some (Err (ZeroKeyOffsetCheck offset))
     else if is_empty phrase then Some (Ok (None, false))
     else
       match first_tokens (outward_words phrase) with
       | Err e => Some (Err e)
       | Ok None => Some (Ok (None, false))
       | Ok (Some tokens) =>
           found ← walk columns tokens offset (offset + 2) 0 0;
           Some (try count := found in Ok (count, true))
       end)%stdpp.

Definition character_offset_over_keys (input : bytes) (parsed_len : nat) (keys : list MatrixKey)
    (separators : bool) (phrase : PhraseText) (offset : nat) : option (result (option nat) EngineError) :=
  found ← character_offset_with_walk_over_keys input parsed_len keys separators phrase offset;
  Some (try '(count, _) := found in Ok count).
End dictionary.

(** ** The key paths of a phrase *)

Record MatrixColumns : Type := { mc_columns : list KeyColumn; mc_end : nat }.

Definition matrix_columns (input : bytes) (parsed_len : nat) (keys : list MatrixKey) (separators : bool)
    : option (option MatrixColumns) :=
  if bool_decide (input = []) || bool_decide (keys = []) then Some None
  else
    columns ← build_columns input parsed_len keys separators;
    Some (Some {| mc_columns := columns; mc_end := Nat.min parsed_len (length input) |}).

Section remember.
Context {St E : Type} (pronounces : St -> MatrixKey -> nat -> St * result bool E)
  (add : St -> list MatrixKey -> St * result bool E) (columns : MatrixColumns) (phrase_length : nat).

(** The loop over the keys of a column, and what it gathered. *)
Fixpoint remember_keys (go : nat -> list MatrixKey -> St -> option (St * result bool E)) (path : list MatrixKey)
    (last : bool -> St -> option (St * result bool E)) (keys : list MatrixKey) (answer : bool) (s : St)
    : option (St * result bool E) :=
  match keys with
  | [] => last answer s
  | key :: keys =>
      if phrase_length <=? length path then Some (s, Ok false)
      else
        match pronounces s key (length path) with
        | (s, Err e) => Some (s, Err e)
        | (s, Ok false) => remember_keys go path last keys answer s
        | (s, Ok true) =>
            found ← go (mk_end key) (path ++ [key]) s;
            match found with
            | (s, Err e) => Some (s, Err e)
            | (s, Ok found) => remember_keys go path last keys (found || answer) s
            end
        end
  end.

Fixpoint remember_recur (fuel start : nat) (path : list MatrixKey) (s : St) : option (St * result bool E) :=
  match fuel with
  | O => None
  | S fuel =>
      if mc_end columns <? start then Some (s, Ok false)
      else if start =? mc_end columns then
        if negb (length path =? phrase_length) || (length path =? 0) then Some (s, Ok false)
        else Some (add s path)
      else
        match mc_columns columns !! start with
        | None => Some (s, Ok false)
        | Some column =>
            if kc_empty column then Some (s, Ok false)
            else
              remember_keys (remember_recur fuel) path
                (fun answer s =>
                   match kc_zero column with
                   | None => Some (s, Ok answer)
                   | Some zero_end =>
                       if bool_decide (kc_real column <> []) then Some (s, Ok false)
                       else remember_recur fuel zero_end path s
                   end) (kc_real column) false s
        end
  end.

Definition remember_walk (s : St) : option (St * result bool E) :=
  remember_recur (mc_end columns + 2) 0 [] s.
End remember.
