(* ===== verification/CharOffsetSpec.v ===== *)
(** * CharOffsetSpec: the built columns, and what the walks over them find

    The columns [CharOffset] builds are the ones [Cursor] reads by binary
    search. The search for a character offset is a reachability question over
    them, and the walk that remembers a phrase is the run of a list of tests
    and calls planned from the columns alone. *)

From Stdlib Require Import ZArith Lia Bool Strings.String Strings.Byte.
From stdpp Require Import base list sorting relations.
From S2P Require Import Prelude ByteOrder Options Chewing Vocab Graph Ucs4 Models Scoring ScanMatrix MatrixBuild MatrixBuildSpec WindowScan TableDictionary Cursor CursorSpec CharOffset.

(** ** The built columns *)

Section columns.
Context (input : bytes) (parsed_len : nat) (keys : list MatrixKey) (separators : bool).
Context (Hinput : input <> []).

Local Abbreviation spans := (mk_span <$> keys).
Local Abbreviation starting p := (filter (fun k => mk_start k = p) keys).

Lemma place_keys_lookup ks columns p :
  fold_left place_key ks columns !! p =
    (fun c => {| kc_real := kc_real c ++ filter (fun k => mk_start k = p) ks; kc_zero := kc_zero c |}) <$> columns !! p.
Proof using.
  revert columns. induction ks as [|k ks IH]; intros columns; cbn [fold_left].
  { destruct (columns !! p) as [[r z]|]; [|done]. cbn. by rewrite app_nil_r. }
  rewrite IH. unfold place_key. rewrite list_lookup_alter, filter_cons. case_decide as Hp; [|done]. rewrite Hp.
  destruct (columns !! p) as [c|]; [|done]. cbn. by rewrite <- app_assoc.
Qed.

(** The separators that get a zero key. *)
Definition separator_at (p : nat) : bool :=
  bool_decide (input !! p = Some apostrophe) && ((leading_separators input <=? p) || bool_decide (keys = [])).

Lemma mark_separators_lookup columns m :
  length columns = length input + 1 -> m <= length input ->
  exists columns', for_each (seq 0 m)
      (mark_separator input (leading_separators input) (bool_decide (keys = []))) columns = Some columns' /\
    length columns' = length columns /\
    forall p, columns' !! p = (fun c => if (p <? m) && separator_at p then set_zero p c else c) <$> columns !! p.
Proof using.
  intros Hlen Hm.
  destruct (for_each_seq (fun k cs => length cs = length columns /\
      forall p, cs !! p = (fun c => if (p <? k) && separator_at p then set_zero p c else c) <$> columns !! p)
    (mark_separator input (leading_separators input) (bool_decide (keys = []))) m 0 columns)
    as (cs & E & Hl & Hcs).
  - split; [done|]. intros p. cbn. by destruct (columns !! p).
  - intros k cs Hk [Hl Hcs]. unfold mark_separator. destruct (lookup_lt_is_Some_2 input k) as [b Hb]; [lia|].
    rewrite Hb. cbn [mbind option_bind].
    assert (bool_decide (b = apostrophe) && ((leading_separators input <=? k) || bool_decide (keys = [])) = separator_at k) as ->.
    { unfold separator_at. rewrite Hb. f_equal. apply bool_decide_ext. naive_solver. }
    destruct (separator_at k) eqn:Es.
    + rewrite (proj2 (Nat.ltb_lt _ _)) by lia. eexists. split; [done|]. split; [by rewrite length_alter|].
      intros p. rewrite list_lookup_alter, !Hcs. destruct (decide (k = p)) as [<-|Hne].
      * rewrite (proj2 (Nat.ltb_ge k k)), (proj2 (Nat.ltb_lt k (S k))), Es by lia. cbn [andb].
        by destruct (columns !! k).
      * destruct (Nat.ltb_spec p k), (Nat.ltb_spec p (S k)); try lia; done.
    + exists cs. split; [done|]. split; [done|]. intros p. rewrite Hcs.
      destruct (Nat.eq_dec p k) as [->|Hne]; [by rewrite Es, !andb_false_r|].
      destruct (Nat.ltb_spec p k), (Nat.ltb_spec p (S k)); try lia; done.
  - exists cs. done.
Qed.

Lemma build_columns_spec :
  exists columns, build_columns input parsed_len keys separators = Some columns /\
    length columns = length input + 1 /\
    forall p, p <= length input -> columns !! p =
      Some {| kc_real := starting p;
              kc_zero := if zero_at spans input parsed_len separators p then Some (p + 1) else None |}.
Proof using Hinput.
  unfold build_columns. set (columns0 := fold_left place_key keys (replicate (length input + 1) no_column)).
  assert (forall p, columns0 !! p = (fun c => {| kc_real := kc_real c ++ starting p; kc_zero := kc_zero c |}) <$>
    replicate (length input + 1) no_column !! p) as H0 by (intros p; apply place_keys_lookup).
  assert (length columns0 = length input + 1) as Hlen.
  { unfold columns0. rewrite <- (length_replicate (length input + 1) no_column) at 2.
    generalize (replicate (length input + 1) no_column). clear. induction keys as [|k ks IH]; intros cs; [done|].
    cbn [fold_left]. rewrite IH. apply length_alter. }
  set (parsed := Nat.min parsed_len (length input)).
  destruct (mark_separators_lookup columns0 parsed Hlen) as (marked & Em & Hl & Hmk); [lia|].
  rewrite Em. exists (imap (fun position c => if parsed <=? position then set_zero position c else c)
    (if separators then marked else columns0)).
  split; [by destruct separators|]. split; [rewrite length_imap; by destruct separators; lia|].
  intros p Hp. rewrite list_lookup_imap.
  assert (columns0 !! p = Some {| kc_real := starting p; kc_zero := None |}) as Hc0
    by (rewrite H0, lookup_replicate_2 by lia; done).
  assert (length input <> 0) as Hne by by destruct input.
  unfold zero_at. rewrite (proj2 (Nat.eqb_neq _ _) Hne), (proj2 (Nat.leb_le _ _) Hp). cbn [negb andb]. fold parsed.
  assert (bool_decide (spans = []) = bool_decide (keys = [])) as ->
    by (apply bool_decide_ext; by destruct keys).
  destruct separators.
  - rewrite Hmk, Hc0. cbn [fmap option_fmap option_map andb]. fold (separator_at p).
    destruct (Nat.leb_spec parsed p); cbn [orb].
    + rewrite (proj2 (Nat.ltb_ge _ _)) by lia. done.
    + rewrite (proj2 (Nat.ltb_lt _ _)) by lia. cbn [andb]. by destruct (separator_at p).
  - rewrite Hc0. cbn [fmap option_fmap option_map andb]. by destruct (parsed <=? p).
Qed.
End columns.

Lemma starting_spans (keys : list MatrixKey) p :
  mk_span <$> filter (fun k => mk_start k = p) keys = filter (fun s => s.1 = p) (mk_span <$> keys).
Proof.
  induction keys as [|k keys IH]; [done|]. rewrite fmap_cons, !filter_cons. cbn [mk_span fst].
  case_decide; [rewrite fmap_cons|]; by rewrite IH.
Qed.

(** C27. The columns of an input, twice. On text without NUL, the keys of the
    parse answer in column order, each inside what the parse consumed; the
    columns built from them one by one and those cut out of them by binary
    search have, at every position up to the end of the input, the same keys
    in the same order and the same zero key. *)
Theorem parsed_columns input options g :
  build_with_options input options = Ok g -> x00 ∉ input -> input <> [] ->
  exists keys columns, matrix_keys input options = Some (Ok (keys, consumed g)) /\
    (forall k, k ∈ keys -> mk_start k < mk_end k <= consumed g) /\
    build_columns input (consumed g) keys true = Some columns /\ length columns = length input + 1 /\
    forall p column, columns !! p = Some column ->
      exists c, cols_get keys (columns_new input (consumed g) true) p = Some (Some c) /\
        mk_span <$> kc_real column = cut (mk_span <$> keys) c /\ kc_zero column = col_zero c.
Proof.
  intros Hg H0 Hne. destruct (matrix_keys_spec input options g Hg H0) as (keys & matrix & Hk & _ & _ & Hs & Hf).
  destruct (build_columns_spec input (consumed g) keys true Hne) as (columns & Hc & Hl & Hat).
  exists keys, columns. split_and!; try done. intros p column Hp.
  assert (p <= length input) as Hle by (apply lookup_lt_Some in Hp; lia).
  rewrite Hat in Hp by done. injection Hp as <-.
  destruct (cols_get_spec keys _ (matrix_spans_are keys) Hs input (consumed g) true p Hle) as (c & Hget & Hcut & _ & Hz).
  exists c. split; [done|]. cbn [kc_real kc_zero]. rewrite Hcut, Hz. split; [apply starting_spans|done].
Qed.

(** ** The search of a character offset *)

Section walk.
Context {D : Type} `{Dictionary D} (d : D) (columns : list KeyColumn) (tokens : list Z) (offset : nat).

(** One step of the search, from a position with so many characters read: over
    a lone zero key, or over a key the next token is read as. The character
    of a key that ends past the offset does not count. *)
Inductive walk_step : nat * nat -> nat * nat -> Prop :=
  | walk_zero start n column z :
      start <= offset -> columns !! start = Some column -> kc_real column = [] -> kc_zero column = Some z ->
      walk_step (start, n) (z, n)
  | walk_key start n column key token :
      start <= offset -> columns !! start = Some column -> kc_zero column = None ->
      key ∈ kc_real column -> tokens !! n = Some token -> pronounces d key token = Ok true ->
      walk_step (start, n) (mk_end key, if offset <? mk_end key then n else S n).

(** What ends the search with an error at a position. *)
Inductive walk_fault : nat * nat -> EngineError -> Prop :=
  | fault_column start n :
      start <= offset ->
      (forall column, columns !! start = Some column -> (kc_real column = [] <-> kc_zero column = None)) ->
      walk_fault (start, n) (MatrixColumnAssert start)
  | fault_key start n column key token e :
      start <= offset -> columns !! start = Some column -> key ∈ kc_real column -> tokens !! n = Some token ->
      pronounces d key token = Err e -> walk_fault (start, n) e.

Definition found_from (s : nat * nat) (r : option (result (option nat) EngineError)) : Prop :=
  match r with
  | None => False
  | Some (Ok (Some n)) => exists p, offset < p /\ rtc walk_step s (p, n)
  | Some (Ok None) => forall p n, offset < p -> ~ rtc walk_step s (p, n)
  | Some (Err e) => exists t, rtc walk_step s t /\ walk_fault t e
  end.

Context (Hforward : forall p column, columns !! p = Some column ->
  (forall k, k ∈ kc_real column -> p < mk_end k) /\ forall z, kc_zero column = Some z -> p < z).

Lemma found_step s t r : walk_step s t -> (forall u, walk_step s u -> u = t) -> s.1 <= offset ->
  found_from t r -> found_from s r.
Proof using.
  intros Hst Hu Hs. destruct r as [[[n|]|e]|]; cbn; [..|done].
  - intros (p & Hp & Hr). exists p. split; [done|]. by eapply rtc_l.
  - intros Hnone p n Hp Hr. apply (Hnone p n Hp). inversion Hr as [|? u ? Hsu Hut]; subst.
    + cbn in Hs. lia.
    + by rewrite <- (Hu u Hsu).
  - intros (u & Hr & Hf). exists u. split; [|done]. by eapply rtc_l.
Qed.

(** The loop over a column is right when the calls it makes are. *)
Lemma walk_keys_spec go start n column keys :
  start <= offset -> columns !! start = Some column -> kc_zero column = None ->
  (forall k, k ∈ keys -> k ∈ kc_real column) ->
  (forall k m, k ∈ kc_real column -> mk_end k <= offset -> found_from (mk_end k, m) (go (mk_end k) m)) ->
  match walk_keys d go tokens offset n keys with
  | Some (Ok None) => forall k token p m, k ∈ keys -> tokens !! n = Some token -> pronounces d k token = Ok true ->
      offset < p -> ~ rtc walk_step (mk_end k, if offset <? mk_end k then n else S n) (p, m)
  | r => found_from (start, n) r
  end.
Proof using.
  intros Hle Ec Ez Hin Hgo. induction keys as [|k ks IH]; cbn [walk_keys]; [by intros ? ? ? ? ?%not_elem_of_nil|].
  specialize (IH (fun k' H' => Hin k' (list_elem_of_further _ _ _ H'))).
  destruct (tokens !! n) as [token|] eqn:Et.
  2: { destruct (walk_keys d go tokens offset n ks) as [[[m|]|e]|]; try done. }
  assert (k ∈ kc_real column) as Hk by (apply Hin; left).
  destruct (pronounces d k token) as [[|]|e] eqn:Ep.
  - pose proof (walk_key start n column k token Hle Ec Ez Hk Et Ep) as Hstep.
    destruct (Nat.ltb_spec offset (mk_end k)) as [Hlt|Hge].
    { exists (mk_end k). split; [done|]. by apply rtc_once. }
    rewrite Nat.add_1_r. specialize (Hgo k (S n) Hk Hge).
    destruct (go (mk_end k) (S n)) as [[[m|]|e]|]; cbn [mbind option_bind]; [..|done].
    + destruct Hgo as (p & Hp & Hr'). exists p. split; [done|]. by eapply rtc_l.
    + destruct (walk_keys d go tokens offset n ks) as [[[m|]|e]|]; [done| |done|done].
      intros k' token' p m [->|Hk']%elem_of_cons Ht Hp' Hp; [|by apply (IH k' token')].
      rewrite (proj2 (Nat.ltb_ge _ _)) by done. by apply Hgo.
    + destruct Hgo as (t & Hr' & Hf'). exists t. split; [|done]. by eapply rtc_l.
  - destruct (walk_keys d go tokens offset n ks) as [[[m|]|e]|]; [done| |done|done].
    intros k' token' p m [->|Hk']%elem_of_cons Ht Hp' Hp; [|by apply (IH k' token')].
    injection Ht as <-. by rewrite Ep in Hp'.
  - exists (start, n). split; [apply rtc_refl|]. by eapply fault_key.
Qed.

Lemma walk_spec fuel start n :
  S offset < fuel + start -> 0 < fuel -> found_from (start, n) (walk d columns tokens offset fuel start n).
Proof using Hforward.
  revert start n. induction fuel as [|fuel IH]; intros start n Hf Hpos; [lia|]. cbn [walk].
  destruct (Nat.ltb_spec offset start) as [|Hle]; [by exists start; split; [done|apply rtc_refl]|].
  assert ((forall column, columns !! start = Some column -> (kc_real column = [] <-> kc_zero column = None)) ->
    found_from (start, n) (Some (Err (MatrixColumnAssert start)))) as Hfault
    by (intros Hc; exists (start, n); split; [apply rtc_refl|by apply fault_column]).
  destruct (columns !! start) as [column|] eqn:Ec; [|by apply Hfault].
  destruct (Hforward start column Ec) as [Hfk Hfz]. unfold kc_empty.
  destruct (kc_zero column) as [z|] eqn:Ez.
  - rewrite (bool_decide_eq_false_2 (Some z = None)), andb_false_r by done.
    case_bool_decide as Hr; [apply Hfault; by intros c [= <-]; rewrite Ez|].
    apply (found_step _ (z, n)); [by eapply walk_zero| |done|apply IH; specialize (Hfz z eq_refl); lia].
    intros u Hu. by inversion Hu; subst; simplify_eq.
  - rewrite (bool_decide_eq_true_2 (None = None)), andb_true_r by done.
    case_bool_decide as Hr; [apply Hfault; by intros c [= <-]; rewrite Ez|].
    pose proof (walk_keys_spec (walk d columns tokens offset fuel) start n column (kc_real column) Hle Ec Ez (fun k Hk => Hk)) as Hks.
    destruct (walk_keys _ _ _ _ _ _) as [[[m|]|e]|]; [apply Hks| |apply Hks|apply Hks];
      try (intros k m' Hk Hke; apply IH; specialize (Hfk k Hk); lia).
    intros p m Hp Hr'. inversion Hr' as [|? u ? Hsu Hut]; subst; [lia|].
    inversion Hsu; subst; simplify_eq. eapply Hks; [|done..].
    intros k m' Hk Hke; apply IH; specialize (Hfk k Hk); lia.
Qed.
End walk.

(** Keys that end after they start leave columns that lead forward. *)
Lemma built_columns_forward input parsed_len keys separators columns :
  input <> [] -> (forall k, k ∈ keys -> mk_start k < mk_end k) ->
  build_columns input parsed_len keys separators = Some columns ->
  length columns = length input + 1 /\
  forall p column, columns !! p = Some column ->
    (forall k, k ∈ kc_real column -> p < mk_end k) /\ forall z, kc_zero column = Some z -> p < z.
Proof.
  intros Hne Hk Hb. destruct (build_columns_spec input parsed_len keys separators Hne) as (cs & E & Hl & Hat).
  rewrite E in Hb. injection Hb as <-. split; [done|]. intros p column Hp.
  rewrite Hat in Hp by (apply lookup_lt_Some in Hp; lia). injection Hp as <-. cbn [kc_real kc_zero]. split.
  - intros k [<- Hin]%list_elem_of_filter. by apply Hk.
  - destruct (zero_at _ _ _ _ _); [|done]. intros z [= <-]. lia.
Qed.

Section offsets.
Context {D : Type} `{Dictionary D} (d : D).

(** The first token each character is listed under. *)
Definition tokens_of (words tokens : list Z) : Prop :=
  Forall2 (fun word token => head (tokens_for_ucs4 d [word]) = Some token /\ length (tokens_for_ucs4 d [word]) <= 4) words tokens.

Lemma first_tokens_spec words :
  match first_tokens d words with
  | Ok (Some tokens) => tokens_of words tokens
  | Ok None => exists word, word ∈ words /\ tokens_for_ucs4 d [word] = []
  | Err e => exists word, word ∈ words /\ 4 < length (tokens_for_ucs4 d [word]) /\
      e = ReduceTokensCount (length (tokens_for_ucs4 d [word]))
  end.
Proof using.
  induction words as [|word words IH]; [constructor|]. cbn [first_tokens].
  destruct (Nat.ltb_spec 4 (length (tokens_for_ucs4 d [word]))) as [Hlt|Hle]; [exists word; split_and!; [left|done..]|].
  destruct (tokens_for_ucs4 d [word]) as [|token rest] eqn:E; [exists word; split; [left|done]|].
  destruct (first_tokens d words) as [[tokens|]|e]; cbn.
  - constructor; [by rewrite E|done].
  - destruct IH as (w & Hw & ?). exists w. split; [by right|done].
  - destruct IH as (w & Hw & ?). exists w. split; [by right|done].
Qed.

(** The search answers, or is refused. *)
Lemma offset_answers input parsed_len keys separators phrase offset :
  (forall k, k ∈ keys -> mk_start k < mk_end k) ->
  is_Some (character_offset_with_walk_over_keys d input parsed_len keys separators phrase offset).
Proof using.
  intros Hk. unfold character_offset_with_walk_over_keys. destruct (bool_decide (input = []) || _) eqn:E; [done|].
  apply orb_false_iff in E as [Hin%bool_decide_eq_false _]. destruct (length input <? offset); [done|].
  destruct (build_columns_spec input parsed_len keys separators Hin) as (columns & Hb & _).
  rewrite Hb. cbn [mbind option_bind].
  destruct (built_columns_forward _ _ _ _ _ Hin Hk Hb) as [_ Hfwd].
  destruct ((0 <? offset) && _); [done|]. destruct (is_empty phrase); [done|].
  destruct (first_tokens d (outward_words phrase)) as [[tokens|]|e]; [|done..].
  pose proof (walk_spec d columns tokens offset Hfwd (offset + 2) 0 0 ltac:(lia) ltac:(lia)) as Hw.
  by destruct (walk d columns tokens offset (offset + 2) 0 0).
Qed.

(** C19. The characters of a phrase before an offset. With keys that end after
    they start the search always answers. When it searches, it counts the
    keys of a walk over the columns from the first position past the offset,
    each key but the one across the offset read as the next character of the
    phrase, and finds nothing only when no such walk exists; it does not search where there is no
    key or no character, or a character no phrase lists; it is refused past
    the input, right after a lone zero key, for a character listed more than
    four times, and where a walk meets a column it cannot leave or a key whose
    pronunciation cannot be read. *)
Theorem character_offset_found input parsed_len keys separators phrase offset :
  (forall k, k ∈ keys -> mk_start k < mk_end k) ->
  exists answer, character_offset_with_walk_over_keys d input parsed_len keys separators phrase offset = Some answer /\
  match answer with
  | Ok (count, true) => exists columns tokens,
      build_columns input parsed_len keys separators = Some columns /\ tokens_of (outward_words phrase) tokens /\
      match count with
      | Some n => exists p, offset < p /\ rtc (walk_step d columns tokens offset) (0, 0) (p, n)
      | None => forall p n, offset < p -> ~ rtc (walk_step d columns tokens offset) (0, 0) (p, n)
      end
  | Ok (count, false) => count = None /\
      (input = [] \/ keys = [] \/ is_empty phrase = true \/
       exists word, word ∈ outward_words phrase /\ tokens_for_ucs4 d [word] = [])
  | Err e =>
      (length input < offset /\ e = LookupOffsetOutOfRange offset (length input)) \/
      (exists columns column, build_columns input parsed_len keys separators = Some columns /\ 0 < offset /\
         columns !! (offset - 1) = Some column /\ kc_lone_zero column = true /\ e = ZeroKeyOffsetCheck offset) \/
      (exists word, word ∈ outward_words phrase /\ 4 < length (tokens_for_ucs4 d [word]) /\
         e = ReduceTokensCount (length (tokens_for_ucs4 d [word]))) \/
      (exists columns tokens s, build_columns input parsed_len keys separators = Some columns /\
         tokens_of (outward_words phrase) tokens /\
         rtc (walk_step d columns tokens offset) (0, 0) s /\ walk_fault d columns tokens offset s e)
  end.
Proof using.
  intros Hk. unfold character_offset_with_walk_over_keys.
  destruct (bool_decide (input = []) || bool_decide (keys = [])) eqn:Enone.
  { apply orb_true_iff in Enone as [E%bool_decide_eq_true|E%bool_decide_eq_true]; (exists (Ok (None, false)); split; [done|]; cbn; auto). }
  apply orb_false_iff in Enone as [Hin%bool_decide_eq_false _].
  destruct (Nat.ltb_spec (length input) offset) as [Hlt|Hle]; [eexists; split; [done|]; by left|].
  destruct (build_columns_spec input parsed_len keys separators Hin) as (columns & Hb & _).
  rewrite Hb. cbn [mbind option_bind].
  destruct (built_columns_forward _ _ _ _ _ Hin Hk Hb) as [Hl Hfwd].
  destruct ((0 <? offset) && _) eqn:Ez.
  { apply andb_true_iff in Ez as [H0%Nat.ltb_lt Ez].
    destruct (columns !! (offset - 1)) as [column|] eqn:Ec; [|done]. eexists. split; [done|].
    right; left. exists columns, column. done. }
  destruct (is_empty phrase) eqn:Ee; [exists (Ok (None, false)); split; [done|]; cbn; auto|].
  pose proof (first_tokens_spec (outward_words phrase)) as Ht.
  destruct (first_tokens d (outward_words phrase)) as [[tokens|]|e].
  - pose proof (walk_spec d columns tokens offset Hfwd (offset + 2) 0 0 ltac:(lia) ltac:(lia)) as Hw.
    destruct (walk d columns tokens offset (offset + 2) 0 0) as [[count|e]|]; [..|done]; cbn [mbind option_bind];
      eexists; (split; [done|]).
    + exists columns, tokens. split_and!; [done..|]. by destruct count.
    + destruct Hw as (s & Hr & Hf). do 3 right. by exists columns, tokens, s.
  - exists (Ok (None, false)). split; [done|]. cbn. auto.
  - exists (Err e). split; [done|]. cbn. auto.
Qed.
End offsets.

(** ** The key paths of a phrase *)

Section plan.
Context (columns : MatrixColumns) (phrase_length : nat).

(** What a walk may do, planned before anything is asked: test a key after a
    path of chosen keys, or call for a whole path; [kept] says that no column
    on it holds a zero key beside its keys. *)
Inductive move : Type :=
  | Ask (path : list MatrixKey) (key : MatrixKey)
  | Call (path : list MatrixKey) (kept : bool).

(** The ways through the columns: from a position with so many keys chosen,
    the keys at these places of their columns lead to another position. *)
Inductive leads : nat -> nat -> list Z -> list MatrixKey -> bool -> nat -> Prop :=
  | leads_here start i : leads start i [] [] true start
  | leads_zero start i column z route path kept stop :
      start < mc_end columns -> mc_columns columns !! start = Some column ->
      kc_real column = [] -> kc_zero column = Some z -> leads z i route path kept stop ->
      leads start i route path kept stop
  | leads_key start i column place key route path kept stop :
      start < mc_end columns -> mc_columns columns !! start = Some column -> i < phrase_length ->
      kc_real column !! place = Some key -> leads (mk_end key) (S i) route path kept stop ->
      leads start i (Z.of_nat place :: route) (key :: path) (kept && bool_decide (kc_zero column = None)) stop.

(** The moves of a walk from a position: to test every key the ways reach
    with room for it, to call for every way to the end of the parse that
    chooses as many keys as the phrase has characters. *)
Inductive planned (start i : nat) : list Z * move -> Prop :=
  | planned_ask route path kept stop column place key :
      leads start i route path kept stop -> stop < mc_end columns -> mc_columns columns !! stop = Some column ->
      i + length path < phrase_length -> kc_real column !! place = Some key ->
      planned start i (route ++ [Z.of_nat place], Ask path key)
  | planned_call route path kept :
      leads start i route path kept (mc_end columns) -> i + length path = phrase_length -> i + length path <> 0 ->
      planned start i (route, Call path kept).

(** Depth first: a smaller place first, a path before what goes on from it,
    the test of its last key before the call. *)
Definition precedes (x y : list Z * move) : Prop :=
  lex_compare x.1 y.1 = Lt \/ x.1 = y.1 /\ match x.2, y.2 with Ask _ _, Call _ _ => True | _, _ => False end.

Section play.
Context {St E : Type} (pronounces : St -> MatrixKey -> nat -> St * result bool E)
  (add : St -> list MatrixKey -> St * result bool E).

Definition skipped (refused : option (list Z)) (route : list Z) : bool :=
  match refused with Some r => bool_decide (r `prefix_of` route) | None => false end.

(** The moves in turn, each made on the state the ones before it left: behind
    a refused key every move is skipped, an error ends the walk, the answers
    of the calls that are kept are joined. *)
Fixpoint play (refused : option (list Z)) (moves : list (list Z * move)) (s : St) (answer : bool) : St * result bool E :=
  match moves with
  | [] => (s, Ok answer)
  | (route, m) :: moves =>
      if skipped refused route then play refused moves s answer
      else
        match m with
        | Ask path key =>
            match pronounces s key (length path) with
            | (s, Err e) => (s, Err e)
            | (s, Ok accepted) => play (if accepted then None else Some route) moves s answer
            end
        | Call path kept =>
            match add s path with
            | (s, Err e) => (s, Err e)
            | (s, Ok added) => play refused moves s (kept && added || answer)
            end
        end
  end.

Lemma play_skip r behind moves s answer :
  Forall (fun x => r `prefix_of` x.1) behind ->
  play (Some r) (behind ++ moves) s answer = play (Some r) moves s answer.
Proof using.
  induction 1 as [|[route m] behind Hr _ IH]; [done|]. cbn [app play skipped fst]. by rewrite bool_decide_eq_true_2.
Qed.

(** A refused key is forgotten past what is behind it. *)
Lemma play_past r moves s answer :
  Forall (fun x => ~ r `prefix_of` x.1) moves -> play (Some r) moves s answer = play None moves s answer.
Proof using.
  intros Hm. revert s answer. induction Hm as [|[route m] moves Hr _ IH]; intros s answer; [done|].
  cbn [play skipped fst] in *. rewrite bool_decide_eq_false_2 by done. destruct m as [path key|path kept].
  - by destruct (pronounces s key (length path)) as [s' []].
  - destruct (add s path) as [s' [added|e]]; [apply IH|done].
Qed.

Lemma play_app refused moves later s answer :
  (forall x y, x ∈ moves -> y ∈ later -> ~ x.1 `prefix_of` y.1) ->
  (forall r, refused = Some r -> Forall (fun y => ~ r `prefix_of` y.1) later) ->
  play refused (moves ++ later) s answer =
    match play refused moves s answer with (s, Ok a) => play None later s a | r => r end.
Proof using.
  revert refused s answer. induction moves as [|[route m] moves IH]; intros refused s answer Hall Hr.
  - cbn. destruct refused as [r|]; [|done]. by apply play_past, Hr.
  - cbn [app play]. assert (forall x y, x ∈ moves -> y ∈ later -> ~ x.1 `prefix_of` y.1) as Hall' by (intros x y ?; apply Hall; by right).
    destruct (skipped refused route); [by apply IH|]. destruct m as [path key|path kept].
    + destruct (pronounces s key (length path)) as [s' [accepted|e]]; [|done]. apply IH; [done|].
      destruct accepted; [done|]. intros r [= <-]. apply Forall_forall. intros y Hy. apply (Hall (route, Ask path key) y); [by left|done].
    + destruct (add s path) as [s' [added|e]]; [by apply IH|done].
Qed.
End play.

(** A move as it is made behind a path. *)
Definition lift (route : list Z) (path : list MatrixKey) (kept : bool) (x : list Z * move) : list Z * move :=
  (route ++ x.1, match x.2 with Ask p key => Ask (path ++ p) key | Call p k => Call (path ++ p) (kept && k) end).

Lemma lift_lift route path kept route' path' kept' (moves : list (list Z * move)) :
  lift route path kept <$> (lift route' path' kept' <$> moves) = lift (route ++ route') (path ++ path') (kept && kept') <$> moves.
Proof using.
  rewrite <- list_fmap_compose. apply list_fmap_ext. intros _ [r []] _; unfold lift; cbn; by rewrite <- !app_assoc, ?andb_assoc.
Qed.

Lemma lift_none (moves : list (list Z * move)) : lift [] [] true <$> moves = moves.
Proof using. induction moves as [|[r []] moves IH]; cbn; [done|..]; by rewrite IH. Qed.

(** The moves from a position in their order. *)
Fixpoint key_moves (go : nat -> list (list Z * move)) (kept : bool) (place : nat) (keys : list MatrixKey)
    : list (list Z * move) :=
  match keys with
  | [] => []
  | key :: keys =>
      ([Z.of_nat place], Ask [] key)
      :: (lift [Z.of_nat place] [key] kept <$> go (mk_end key)) ++ key_moves go kept (S place) keys
  end.

Fixpoint moves_from (fuel start i : nat) : list (list Z * move) :=
  match fuel with
  | O => []
  | S fuel =>
      if start <? mc_end columns then
        match mc_columns columns !! start with
        | None => []
        | Some column =>
            if bool_decide (kc_real column = []) then
              match kc_zero column with Some z => moves_from fuel z i | None => [] end
            else if phrase_length <=? i then []
            else key_moves (fun end_ => moves_from fuel end_ (S i)) (bool_decide (kc_zero column = None)) 0 (kc_real column)
        end
      else if (start =? mc_end columns) && (i =? phrase_length) && negb (i =? 0) then [([], Call [] true)] else []
  end.

Lemma key_moves_routes go kept place keys x :
  x ∈ key_moves go kept place keys -> exists m r, x.1 = Z.of_nat m :: r /\ place <= m.
Proof using.
  revert place. induction keys as [|key keys IH]; intros place; cbn; [by intros ?%not_elem_of_nil|].
  rewrite elem_of_cons, elem_of_app. intros [->|[(y & -> & _)%list_elem_of_fmap|Hx]]; cbn.
  - by exists place, [].
  - by exists place, y.1.
  - destruct (IH _ Hx) as (m & r & E & ?). exists m, r. split; [done|lia].
Qed.

Lemma key_moves_later route path c go kept place keys y :
  y ∈ (lift route path c <$> key_moves go kept (S place) keys) -> ~ route ++ [Z.of_nat place] `prefix_of` y.1.
Proof using.
  intros (x & -> & (m & r & E & Hm)%key_moves_routes)%list_elem_of_fmap. unfold lift. cbn [fst]. rewrite E.
  intros Hp%prefix_app_inv. apply prefix_cons_inv_1 in Hp. lia.
Qed.

Lemma lift_prefix route path kept (moves : list (list Z * move)) : Forall (fun x => route `prefix_of` x.1) (lift route path kept <$> moves).
Proof using. apply Forall_fmap, Forall_forall. intros x _. by apply prefix_app_r. Qed.

(** *** The walk plays its moves *)

Context (Hforward : forall p column, mc_columns columns !! p = Some column ->
  (forall k, k ∈ kc_real column -> p < mk_end k) /\ forall z, kc_zero column = Some z -> p < z).

Section walk.
Context {St E : Type} (pronounces : St -> MatrixKey -> nat -> St * result bool E)
  (add : St -> list MatrixKey -> St * result bool E).

Local Abbreviation recur := (remember_recur pronounces add columns phrase_length).
Local Abbreviation run := (play pronounces add).

(** A walk that answers does as its moves do, from any answer so far. *)
Definition plays (walked : option (St * result bool E)) (played : bool -> St * result bool E) (kept answer : bool) : Prop :=
  exists s r, walked = Some (s, r) /\
    played answer = (s, match r with Ok found => Ok (kept && found || answer) | Err e => Err e end).

Lemma keys_play fuel path route u c last keys place answer found s :
  length path < phrase_length ->
  (forall a s, last a s = Some (s, Ok (a && u))) ->
  (forall k route c answer s, k ∈ keys ->
     plays (recur fuel (mk_end k) (path ++ [k]) s)
       (run None (lift route (path ++ [k]) c <$> moves_from fuel (mk_end k) (S (length path))) s) c answer) ->
  exists s' r,
    remember_keys pronounces phrase_length (recur fuel) path last keys found s = Some (s', r) /\
    run None (lift route path c <$> key_moves (fun end_ => moves_from fuel end_ (S (length path))) u place keys) s
      (c && (found && u) || answer) =
      (s', match r with Ok found => Ok (c && found || answer) | Err e => Err e end).
Proof using.
  intros Hlt Hlast. revert place found s. induction keys as [|k ks IH]; intros place found s Hgo.
  { exists s, (Ok (found && u)). cbn. by rewrite Hlast. }
  cbn [remember_keys key_moves]. rewrite (proj2 (Nat.leb_gt _ _)) by done.
  rewrite fmap_cons, fmap_app, lift_lift. cbn [play skipped lift fst snd]. rewrite app_nil_r.
  destruct (pronounces s k (length path)) as [s1 [[|]|e]].
  - rewrite play_app; [|intros x y Hx Hy Hxy|done].
    + destruct (Hgo k (route ++ [Z.of_nat place]) (c && u) (c && (found && u) || answer) s1) as (s2 & r & Er & Ep); [by left|].
      rewrite Er, Ep. cbn [mbind option_bind]. destruct r as [sub|e]; [|by exists s2, (Err e)].
      destruct (IH (S place) (sub || found) s2) as (s3 & r & Er' & Ep'); [intros; apply Hgo; by right|].
      exists s3, r. split; [done|]. rewrite <- Ep'. f_equal. by destruct c, u, sub, found, answer.
    + apply key_moves_later in Hy as []. etrans; [|exact Hxy].
      pose proof (lift_prefix (route ++ [Z.of_nat place]) (path ++ [k]) (c && u) (moves_from fuel (mk_end k) (S (length path)))) as Hl.
      rewrite Forall_forall in Hl. by apply Hl.
  - rewrite play_skip by apply lift_prefix. rewrite play_past.
    + destruct (IH (S place) found s1) as (s3 & r & Er' & Ep'); [intros; apply Hgo; by right|]. by exists s3, r.
    + apply Forall_forall. intros y. apply key_moves_later.
  - by exists s1, (Err e).
Qed.

Lemma recur_plays fuel start path route c answer s :
  S (mc_end columns) < fuel + start -> 0 < fuel ->
  plays (recur fuel start path s) (run None (lift route path c <$> moves_from fuel start (length path)) s) c answer.
Proof using Hforward.
  revert start path route c answer s. induction fuel as [|fuel IH]; intros start path route c answer s Hf Hpos; [lia|].
  cbn [remember_recur moves_from]. destruct (Nat.ltb_spec (mc_end columns) start) as [Hgt|Hle].
  { rewrite (proj2 (Nat.ltb_ge _ _)), (proj2 (Nat.eqb_neq _ _)) by lia. exists s, (Ok false). by rewrite andb_false_r. }
  destruct (Nat.eqb_spec start (mc_end columns)) as [->|Hne].
  { rewrite Nat.ltb_irrefl. cbn [andb]. destruct (_ =? phrase_length), (_ =? 0); cbn [negb orb andb];
      try (exists s, (Ok false); by rewrite andb_false_r).
    unfold plays. cbn [fmap list_fmap lift fst snd play skipped]. rewrite app_nil_r, andb_true_r.
    destruct (add s path) as [s' [b|e]]; by eexists _, _. }
  rewrite (proj2 (Nat.ltb_lt _ _)) by lia.
  destruct (mc_columns columns !! start) as [column|] eqn:Ec; [|exists s, (Ok false); by rewrite andb_false_r].
  destruct (Hforward start column Ec) as [Hfk Hfz]. unfold kc_empty. case_bool_decide as Er; cbn [andb].
  - rewrite Er. destruct (kc_zero column) as [z|] eqn:Ez.
    + rewrite bool_decide_eq_false_2 by done. cbn [remember_keys]. rewrite bool_decide_eq_false_2 by (intros Hn; by apply Hn).
      apply IH; specialize (Hfz z eq_refl); lia.
    + rewrite bool_decide_eq_true_2 by done. exists s, (Ok false). by rewrite andb_false_r.
  - destruct (Nat.leb_spec phrase_length (length path)) as [Hfull|Hroom].
    { destruct (kc_real column) as [|k ks]; [done|]. cbn [remember_keys]. rewrite (proj2 (Nat.leb_le _ _)) by done.
      exists s, (Ok false). by rewrite andb_false_r. }
    set (u := bool_decide (kc_zero column = None)).
    destruct (keys_play fuel path route u c (fun answer s =>
      match kc_zero column with
      | None => Some (s, Ok answer)
      | Some zero_end => if bool_decide (kc_real column <> []) then Some (s, Ok false) else recur fuel zero_end path s
      end) (kc_real column) 0 answer false s Hroom) as (s' & r & Er' & Ep).
    + intros a t. unfold u. destruct (kc_zero column).
      * rewrite (bool_decide_eq_true_2 _ Er), bool_decide_eq_false_2 by done. by rewrite andb_false_r.
      * rewrite bool_decide_eq_true_2 by done. by rewrite andb_true_r.
    + intros k route' c' answer' t Hk. specialize (Hfk k Hk).
      pose proof (IH (mk_end k) (path ++ [k]) route' c' answer' t) as Hsub. rewrite length_app, Nat.add_1_r in Hsub.
      apply Hsub; lia.
    + exists s', r. split; [exact Er'|]. rewrite <- Ep. by rewrite andb_false_r.
Qed.

Lemma walk_plays s :
  remember_walk pronounces add columns phrase_length s =
    Some (run None (moves_from (mc_end columns + 2) 0 0) s false).
Proof using Hforward.
  destruct (recur_plays (mc_end columns + 2) 0 [] [] true false s) as (s' & r & Ew & Ep); [lia..|].
  rewrite lift_none in Ep. cbn [length] in Ep. unfold remember_walk. rewrite Ew, Ep. by destruct r as [[]|].
Qed.
End walk.

(** *** They are the planned ones *)

Lemma planned_step start i x :
  planned start i x <->
    start = mc_end columns /\ i = phrase_length /\ i <> 0 /\ x = ([], Call [] true) \/
    start < mc_end columns /\ exists column, mc_columns columns !! start = Some column /\
      (kc_real column = [] /\ (exists z, kc_zero column = Some z /\ planned z i x) \/
       i < phrase_length /\ exists place key, kc_real column !! place = Some key /\
         (x = ([Z.of_nat place], Ask [] key) \/
          exists y, planned (mk_end key) (S i) y /\
            x = lift [Z.of_nat place] [key] (bool_decide (kc_zero column = None)) y)).
Proof using.
  split.
  - destruct 1 as [route path kept stop column place key Hl Hs Hc Hr Hk|route path kept Hl Hn H0].
    + destruct Hl as [start i|start i column' z route path kept stop Hst Hc' Er Ez Hl
        |start i column' place' key' route path kept stop Hst Hc' Hi Hk' Hl]; right; split; try done.
      * exists column. split; [done|]. cbn in Hr. right. split; [lia|]. exists place, key. split; [done|by left].
      * exists column'. split; [done|]. left. split; [done|]. exists z. split; [done|]. by eapply planned_ask.
      * exists column'. split; [done|]. right. split; [done|]. exists place', key'. split; [done|]. right.
        exists (route ++ [Z.of_nat place], Ask path key). split; [|done]. cbn in Hr. eapply planned_ask; [done..|lia|done].
    + remember (mc_end columns) as stop eqn:Es. destruct Hl as [start i|start i column' z route path kept stop Hst Hc' Er Ez Hl
        |start i column' place' key' route path kept stop Hst Hc' Hi Hk' Hl]; subst.
      * left. cbn in Hn. split; [done|]. rewrite Nat.add_0_r in *. done.
      * right. split; [done|]. exists column'. split; [done|]. left. split; [done|]. exists z. split; [done|]. by eapply planned_call.
      * right. split; [done|]. exists column'. split; [done|]. right. split; [done|]. exists place', key'. split; [done|]. right.
        exists (route, Call path kept). split; [|unfold lift; cbn; by rewrite andb_comm]. cbn in *. eapply planned_call; [done|lia..].
  - intros [(-> & -> & H0 & ->)|(Hst & column & Hc & [(Er & z & Ez & Hx)|(Hi & place & key & Hk & [->|(y & Hy & ->)])])].
    + apply (planned_call _ _ [] []); [constructor|cbn; lia..].
    + destruct Hx as [route path kept stop column' place key Hl|route path kept Hl].
      * eapply planned_ask; [by eapply leads_zero|done..].
      * eapply planned_call; [by eapply leads_zero|done..].
    + apply (planned_ask _ _ [] [] true start column place key); [constructor|done|done|cbn; lia|done].
    + destruct Hy as [route path kept stop column' place' key' Hl Hs Hc' Hr Hk'|route path kept Hl Hn H0]; unfold lift; cbn.
      * eapply (planned_ask _ _ (Z.of_nat place :: route)); [by eapply leads_key|done|done|cbn; lia|done].
      * rewrite andb_comm. eapply (planned_call _ _ (Z.of_nat place :: route)); [by eapply leads_key|cbn; lia..].
Qed.

Lemma key_moves_elem go u first keys x :
  x ∈ key_moves go u first keys <->
    exists place key, keys !! place = Some key /\
      (x = ([Z.of_nat (first + place)], Ask [] key) \/
       exists y, y ∈ go (mk_end key) /\ x = lift [Z.of_nat (first + place)] [key] u y).
Proof using.
  revert first. induction keys as [|key keys IH]; intros first; cbn [key_moves].
  { split; [by intros ?%not_elem_of_nil|by intros (? & ? & ? & _)]. }
  rewrite elem_of_cons, elem_of_app, IH, list_elem_of_fmap. split.
  - intros [->|[(y & -> & Hy)|(place & k & Hk & Hx)]].
    + exists 0, key. rewrite Nat.add_0_r. auto.
    + exists 0, key. rewrite Nat.add_0_r. eauto.
    + exists (S place), k. by rewrite Nat.add_succ_r.
  - intros ([|place] & k & Hk & Hx); cbn in Hk.
    + injection Hk as ->. rewrite Nat.add_0_r in Hx. destruct Hx as [->|(y & Hy & ->)]; eauto.
    + rewrite Nat.add_succ_r in Hx. right. right. exists place, k. done.
Qed.

Lemma moves_planned fuel start i x :
  S (mc_end columns) < fuel + start -> 0 < fuel -> x ∈ moves_from fuel start i <-> planned start i x.
Proof using Hforward.
  revert start i x. induction fuel as [|fuel IH]; intros start i x Hf Hpos; [lia|].
  rewrite planned_step. cbn [moves_from]. destruct (Nat.ltb_spec start (mc_end columns)) as [Hlt|Hge].
  2: { destruct (Nat.eqb_spec start (mc_end columns)), (Nat.eqb_spec i phrase_length), (Nat.eqb_spec i 0); cbn [andb negb];
         rewrite ?list_elem_of_singleton;
         (split; [intros H'; try (by apply not_elem_of_nil in H'); by left|intros [(? & ? & ? & ?)|(? & _)]; [done|lia]]). }
  destruct (mc_columns columns !! start) as [column|] eqn:Ec.
  2: { split; [by intros ?%not_elem_of_nil|intros [(? & _)|(_ & ? & ? & _)]; [lia|done]]. }
  destruct (Hforward start column Ec) as [Hfk Hfz]. case_bool_decide as Er.
  - transitivity (exists z, kc_zero column = Some z /\ planned z i x).
    + destruct (kc_zero column) as [z|] eqn:Ez.
      * rewrite IH by (specialize (Hfz z eq_refl); lia). split; [eauto|]. by intros (? & [= <-] & ?).
      * split; [by intros ?%not_elem_of_nil|by intros (? & ? & _)].
    + split; [intros Hz; right; split; [done|]; exists column; auto|].
      intros [(? & _)|(_ & ? & [= <-] & [(_ & Hz)|(_ & place & key & Hk & _)])]; [lia|done|]. by rewrite Er in Hk.
  - destruct (Nat.leb_spec phrase_length i) as [Hfull|Hroom].
    { split; [by intros ?%not_elem_of_nil|]. intros [(? & _)|(_ & ? & [= <-] & [(? & _)|(? & _)])]; [lia|done|lia]. }
    rewrite key_moves_elem. split.
    + intros (place & key & Hk & Hx). right. split; [done|]. exists column. split; [done|]. right. split; [done|].
      exists place, key. split; [done|]. destruct Hx as [->|(y & Hy & ->)]; [by left|right]. exists y.
      split; [|done]. apply IH in Hy; [done|..]; specialize (Hfk key (list_elem_of_lookup_2 _ _ _ Hk)); lia.
    + intros [(? & _)|(_ & ? & [= <-] & [(? & _)|(_ & place & key & Hk & Hx)])]; [lia|done|].
      exists place, key. split; [done|]. destruct Hx as [->|(y & Hy & ->)]; [by left|right]. exists y. split; [|done].
      apply IH; [..|done]; specialize (Hfk key (list_elem_of_lookup_2 _ _ _ Hk)); lia.
Qed.

(** *** In their order *)

Lemma lift_precedes route path c x y : precedes x y -> precedes (lift route path c x) (lift route path c y).
Proof using.
  destruct x as [r m], y as [r' m']. unfold precedes, lift. cbn. rewrite lex_compare_app.
  intros [Hlt|[-> Hm]]; [by left|right]. split; [done|]. by destruct m, m'.
Qed.

Lemma moves_here fuel start i x : x ∈ moves_from fuel start i -> x.1 = [] -> exists path kept, x.2 = Call path kept.
Proof using.
  revert start i. induction fuel as [|fuel IH]; intros start i; cbn [moves_from]; [by intros ?%not_elem_of_nil|].
  destruct (start <? _); [|destruct (_ && _); [|by intros ?%not_elem_of_nil]; intros ->%list_elem_of_singleton; eauto].
  destruct (mc_columns columns !! start) as [column|]; [|by intros ?%not_elem_of_nil].
  case_bool_decide; [destruct (kc_zero column); [apply IH|by intros ?%not_elem_of_nil]|].
  destruct (_ <=? _); [by intros ?%not_elem_of_nil|]. by intros (m & r & -> & _)%key_moves_routes.
Qed.

Lemma key_moves_ordered go u place keys :
  (forall p x, x ∈ go p -> x.1 = [] -> exists path kept, x.2 = Call path kept) ->
  (forall p, StronglySorted precedes (go p)) -> StronglySorted precedes (key_moves go u place keys).
Proof using.
  intros Hhere Hgo. revert place. induction keys as [|key keys IH]; intros place; cbn [key_moves]; [constructor|].
  assert (forall x r, x ∈ key_moves go u (S place) keys -> lex_compare (Z.of_nat place :: r) x.1 = Lt) as Hlater.
  { intros x r (m & r' & -> & ?)%key_moves_routes. apply lex_step; lia. }
  rewrite StronglySorted_cons, StronglySorted_app. split_and!; [apply Forall_app; split|..].
  - apply Forall_fmap, Forall_forall. intros y Hy. destruct y as [[|z r] m]; [right|by left; cbn; rewrite Z.compare_refl].
    destruct (Hhere _ _ Hy eq_refl) as (path & kept & Em). cbn in Em. by subst m.
  - apply Forall_forall. intros x Hx. left. by apply Hlater.
  - intros x y (x' & -> & _)%list_elem_of_fmap Hy. left. by apply Hlater.
  - apply (StronglySorted_fmap _ precedes); [intros x y; apply lift_precedes|apply Hgo].
  - apply IH.
Qed.

Lemma moves_ordered fuel start i : StronglySorted precedes (moves_from fuel start i).
Proof using.
  revert start i. induction fuel as [|fuel IH]; intros start i; cbn [moves_from]; [constructor|].
  destruct (start <? _); [|destruct (_ && _); repeat constructor].
  destruct (mc_columns columns !! start) as [column|]; [|constructor].
  case_bool_decide; [destruct (kc_zero column); [apply IH|constructor]|].
  destruct (_ <=? _); [constructor|]. apply key_moves_ordered; [|intros; apply IH]. intros p x. apply moves_here.
Qed.
End plan.

(** C7. The walk that remembers a phrase, for a test and a call of any state and
    any error: what the test answers may change with the calls made before it.
    With keys that end after they start it always answers, and it is the run of
    a list of moves that the columns and the length of the phrase fix, each move
    made on the state the ones before it left. They are a test of every key a
    way of chosen keys leads to with a character left for it, and a call for
    every way of as many keys as the phrase has characters from the first
    position to the end of the parse; and nothing else. Each is made at most
    once, in depth-first order, the call for a path before the next branch. A
    key its test refuses skips the moves behind it, the first error ends the
    run, and the answer is whether a call said so for a path no column of which
    holds a zero key beside its keys. *)
Theorem remember_calls input parsed_len keys separators columns phrase_length :
  (forall k, k ∈ keys -> mk_start k < mk_end k) ->
  matrix_columns input parsed_len keys separators = Some (Some columns) ->
  exists moves,
    (forall St E (pronounces : St -> MatrixKey -> nat -> St * result bool E)
        (add : St -> list MatrixKey -> St * result bool E) s,
       remember_walk pronounces add columns phrase_length s = Some (play pronounces add None moves s false)) /\
    (forall x, x ∈ moves <-> planned columns phrase_length 0 0 x) /\
    StronglySorted precedes moves.
Proof.
  intros Hk Hm. unfold matrix_columns in Hm.
  destruct (bool_decide (input = []) || _) eqn:Enone; [done|].
  apply orb_false_iff in Enone as [Hin%bool_decide_eq_false _].
  destruct (build_columns input parsed_len keys separators) as [cs|] eqn:Eb; [|done].
  injection Hm as <-. destruct (built_columns_forward _ _ _ _ _ Hin Hk Eb) as [_ Hfwd].
  set (columns := {| mc_columns := cs; mc_end := Nat.min parsed_len (length input) |}) in *.
  exists (moves_from columns phrase_length (mc_end columns + 2) 0 0). split_and!.
  - intros St E pronounces add s. by apply walk_plays.
  - intros x. apply moves_planned; [exact Hfwd|lia..].
  - apply moves_ordered.
Qed.
Definition sample_keys : list MatrixKey := [matrix_key (key_of "ni") 0 0 2; matrix_key (key_of "hao") 0 3 6].

Lemma character_offset_found_witness :
  character_offset_with_walk_over_keys sample_table (str "ni'hao") 6 sample_keys true (from_str [20320; 22909]%Z) 6 =
    Some (Ok (Some 2, true)) /\
  exists columns tokens p, 6 < p /\ rtc (walk_step sample_table columns tokens 6) (0, 0) (p, 2).
Proof.
  assert (character_offset_with_walk_over_keys sample_table (str "ni'hao") 6 sample_keys true
    (from_str [20320; 22909]%Z) 6 = Some (Ok (Some 2, true))) as E by (vm_compute; reflexivity).
  split; [exact E|].
  destruct (character_offset_found sample_table (str "ni'hao") 6 sample_keys true (from_str [20320; 22909]%Z) 6)
    as (answer & E' & Ha).
  - intros k [->|[->|[]%not_elem_of_nil]%elem_of_cons]%elem_of_cons; cbn; lia.
  - rewrite E in E'. injection E' as <-. destruct Ha as (columns & tokens & _ & _ & p & Hp). by exists columns, tokens, p.
Defined.

(** "fangan" divides into two pairs of syllables. A test that accepts every key
    lets both be remembered; one that refuses every key after the first call
    leaves one. *)
Definition divided_keys : list MatrixKey :=
  [matrix_key (key_of "fan") 0 0 3; matrix_key (key_of "fang") 0 0 4;
   matrix_key (key_of "gan") 0 3 6; matrix_key (key_of "an") 0 4 6].

Lemma remember_calls_witness :
  exists columns moves, matrix_columns (str "fangan") 6 divided_keys true = Some (Some columns) /\
    play (E := unit) (fun s _ _ => (s, Ok true)) (fun s path => (s ++ [length path], Ok true)) None moves [] false =
      ([2; 2], Ok true) /\
    play (E := unit) (fun s _ _ => (s, Ok (bool_decide (s = [])))) (fun s path => (s ++ [length path], Ok true)) None moves
      [] false = ([2], Ok true) /\
    (forall x, x ∈ moves <-> planned columns 2 0 0 x) /\ StronglySorted precedes moves.
Proof.
  destruct (matrix_columns (str "fangan") 6 divided_keys true) as [[columns|]|] eqn:E; [|vm_compute in E; discriminate..].
  destruct (remember_calls (str "fangan") 6 divided_keys true columns 2) as (moves & Hs & Hin & Hsorted); [|exact E|].
  { apply Forall_forall. repeat constructor; cbn; lia. }
  exists columns, moves. split; [reflexivity|].
  vm_compute in E. injection E as <-. split; [|split; [|by split]].
  - match goal with |- play ?p ?a None moves ?s false = _ => specialize (Hs _ _ p a s) end.
    vm_compute remember_walk in Hs. injection Hs as Hs. symmetry. exact Hs.
  - match goal with |- play ?p ?a None moves ?s false = _ => specialize (Hs _ _ p a s) end.
    vm_compute remember_walk in Hs. injection Hs as Hs. symmetry. exact Hs.
Defined.

Lemma parsed_columns_witness :
  exists g keys columns, build_with_options (str "ni'hao") PINYIN_INCOMPLETE = Ok g /\
    matrix_keys (str "ni'hao") PINYIN_INCOMPLETE = Some (Ok (keys, consumed g)) /\
    build_columns (str "ni'hao") (consumed g) keys true = Some columns /\
    (length ∘ kc_real <$> columns) = [1; 0; 0; 1; 0; 0; 0].
Proof.
  destruct (build_with_options (str "ni'hao") PINYIN_INCOMPLETE) as [g|] eqn:E; [|exfalso; vm_compute in E; discriminate].
  destruct (parsed_columns (str "ni'hao") PINYIN_INCOMPLETE g E) as (keys & columns & Hk & _ & Hc & _).
  - intros H. apply (bool_decide_eq_true_2 _) in H. vm_compute in H. discriminate.
  - discriminate.
  - exists g, keys, columns. split; [reflexivity|]. split; [exact Hk|]. split; [exact Hc|].
    vm_compute in E. injection E as <-. vm_compute in Hk. injection Hk as <-. vm_compute in Hc. injection Hc as <-.
    vm_compute. reflexivity.
Defined.
