(* ===== verification/Nbest.v ===== *)
(** * Nbest: the sentence decode

    The second half of [crates/oxpinyin-engine/src/nbest.rs]: the searches of
    the spans of a parse, the pricing of the tokens they range, the steps they
    take in the trellis and the rows read back from it. The dictionary and
    the model are the interfaces of [Models]; the logarithms are parameters.
    What the code shares behind references (the once-cells of a span's slots,
    the memos of its paths, the facts of the guess) is a state passed along;
    the address of a slot's cell is the slot's index. The byte buffer every
    search reuses is left out: its contents are unspecified. *)

From Stdlib Require Import ZArith Lia Bool Strings.Byte.
From stdpp Require Import base list gmap.
From S2P Require Import Prelude SingleGram MergedGram Ranges Vocab Ucs4 Graph Constraint Float Models Trellis ScanMatrix.
#[local] Open Scope result_scope.

Definition usize_as_u32 (n : nat) : Z := slot_of n.

Definition sat_add32 (a b : Z) : Z := Z.min (a + b) u32_max.

(** ** Spans, paths and slots *)

Record SpanEntry : Type := mk_span_entry {
  se_token : Z;
  se_path : Z;
  se_keys : Z;
  se_chars : Z;
  se_pronunciation : option (Z * Z)
}.

Record LazySlot : Type := mk_lazy { ls_path : Z; ls_cell : nat }.

Record SpanPaths : Type := mk_paths {
  sp_keys : list SyllableKey;
  sp_tones : list Z;
  sp_bounds : list (Z * Z)
}.

Definition SpanPaths_default : SpanPaths := mk_paths [] [] [].

Definition paths_push (p : SpanPaths) (keys : list SyllableKey) (tones : list Z) : SpanPaths * Z :=
  (mk_paths (sp_keys p ++ keys) (sp_tones p ++ tones)
     (sp_bounds p ++ [(usize_as_u32 (length (sp_keys p)), usize_as_u32 (length keys))]),
   usize_as_u32 (length (sp_bounds p))).

Definition path (p : SpanPaths) (id : Z) : list SyllableKey * list Z :=
  match sp_bounds p !! Z.to_nat id with
  | None => ([], [])
  | Some (offset, len) =>
      let offset := Z.to_nat offset in
      let end_ := offset + Z.to_nat len in
      (default [] (subslice (sp_keys p) offset end_), default [] (subslice (sp_tones p) offset end_))
  end.

(** The ranges of the slots, each slot at its own address. *)
Definition addressed (r : PhraseIndexRanges LazySlot) : PhraseIndexRanges LazySlot :=
  mk_ranges (libraries r)
    (imap (fun i slot => (fun s => mk_lazy (ls_path s) i) <$> slot) (slots r)).

Section decode.
Context {D L : Type} `{Dictionary D} `{LanguageModel L}.
Context (dictionary : D) (model : L) (ln : f64 -> f64) (long_sentence_penalty : f32).

Definition dictionary_error (message : bytes) : EngineError := Scoring (DictionaryError message).

Record SpanRanges : Type := mk_span_ranges {
  sr_ranges : PhraseIndexRanges LazySlot;
  sr_paths : SpanPaths;
  sr_memos : list (PathMemo D)
}.

Definition SpanRanges_default : SpanRanges := mk_span_ranges new_ranges SpanPaths_default [].

Definition push_path (r : SpanRanges) (keys : list SyllableKey) (tones : list Z) : SpanRanges * Z :=
  let '(paths, id) := paths_push (sr_paths r) keys tones in
  (mk_span_ranges (sr_ranges r) paths (sr_memos r ++ [memo_default]), id).

(** ** The search of a span *)

Section search.
Context (columns : list (list ScanKey)) (zeros : list bool).

Definition zero_at (position : nat) : bool := default false (zeros !! position).

(** The leaf of a path: the ranges the dictionary finds for it. *)
Definition search_leaf (keys : list SyllableKey) (tones : list Z) (into : SpanRanges) (continued : bool)
    : result (SpanRanges * bool) EngineError :=
  if MAX_PHRASE_LENGTH <? length keys then Ok (into, continued)
  else if length keys =? 0 then Ok (into, true)
  else
    try checked := check_toned_incomplete keys tones in
    try '(found, more) :=
      map_err dictionary_error (trellis_ranges_continued dictionary keys tones new_ranges) in
    let '(into, id) := push_path into keys tones in
    let ranges := (append_from (sr_ranges into) found (fun _ => mk_lazy id 0)).1 in
    Ok (mk_span_ranges (addressed ranges) (sr_paths into) (sr_memos into), continued || more).

Fixpoint walk_view (fuel : nat) (end_ start : nat) (keys : list SyllableKey) (tones : list Z)
    (into : SpanRanges) (continued : bool) : result (SpanRanges * bool) EngineError :=
  match fuel with
  | O => Ok (into, continued)
  | S fuel =>
      if end_ <? start then Ok (into, continued)
      else if start =? end_ then search_leaf keys tones into continued
      else if zero_at start then walk_view fuel end_ (start + 1) keys tones into continued
      else
        (fix each (column : list ScanKey) (into : SpanRanges) (continued : bool)
            : result (SpanRanges * bool) EngineError :=
           match column with
           | [] => Ok (into, continued)
           | key :: column =>
               if end_ <? sk_to key then each column into true
               else if sk_to key <=? start then each column into continued
               else
                 let keys := keys ++ [sk_key key] in
                 let tones := tones ++ [sk_tone key] in
                 try '(into, continued) :=
                   (if length keys <=? MAX_PHRASE_LENGTH
                    then walk_view fuel end_ (sk_to key) keys tones into continued
                    else Ok (into, continued)) in
                 each column into continued
           end) (default [] (columns !! start)) into continued
  end.

(** [GenerationView::search]. *)
Definition search (start end_ : nat) (into : SpanRanges) : result (SpanRanges * bool) EngineError :=
  match columns !! start with
  | None => Ok (into, false)
  | Some column =>
      if (length column =? 0) && negb (zero_at start) then Ok (into, false)
      else if (end_ + 1 <? length columns) && column_is_empty columns zeros end_ then Ok (into, true)
      else walk_view (S (end_ - start)) end_ start [] [] into false
  end.
End search.

(** ** Pricing *)

(** The cells of the slots, the memos of the paths and the guess's facts. *)
Record Memory : Type := mk_memory {
  m_cells : list (option (option SpanEntry));
  m_memos : list (PathMemo D);
  m_facts : SentenceFacts
}.

Section pricing.
Context (ranges : PhraseIndexRanges LazySlot) (paths : SpanPaths).

(** The dictionary's read, through the memo of the path if it has one. *)
Definition read_item (m : Memory) (keys : list SyllableKey) (tones : list Z) (index : nat) (token : Z)
    : result (option TrellisItem * list (PathMemo D) * SentenceFacts) bytes :=
  match m_memos m !! index with
  | Some memo =>
      try '(item, memo, facts) := trellis_item_with_facts dictionary keys tones token memo (m_facts m) in
      Ok (item, <[index := memo]> (m_memos m), facts)
  | None =>
      try item := trellis_item dictionary keys tones token in
      Ok (item, m_memos m, m_facts m)
  end.

Definition item_entry (token path : Z) (keys : list SyllableKey) (item : TrellisItem) : SpanEntry :=
  {| se_token := token; se_path := path; se_keys := usize_as_u32 (length keys);
     se_chars := item_chars item; se_pronunciation := item_pronunciation item |}.

Definition price (m : Memory) (slot : LazySlot) (token : Z)
    : result (option SpanEntry * Memory) EngineError :=
  match m_cells m !! ls_cell slot with
  | Some (Some priced) => Ok (priced, m)
  | _ =>
      let '(keys, tones) := path paths (ls_path slot) in
      try '(item, memos, facts) :=
        map_err dictionary_error (read_item m keys tones (Z.to_nat (ls_path slot)) token) in
      let entry := item_entry token (ls_path slot) keys <$> item in
      Ok (entry, mk_memory (<[ls_cell slot := Some entry]> (m_cells m)) memos facts)
  end.

Fixpoint first_priced_in (walk : list (Z * LazySlot)) (m : Memory) (token : Z)
    : result (option SpanEntry * Memory) EngineError :=
  match walk with
  | [] => Ok (None, m)
  | (ranged, slot) :: walk =>
      if (ranged =? token)%Z then
        try '(priced, m) := price m slot token in
        match priced with
        | Some entry => Ok (Some entry, m)
        | None => first_priced_in walk m token
        end
      else first_priced_in walk m token
  end.

Definition first_priced (m : Memory) (token : Z) : result (option SpanEntry * Memory) EngineError :=
  first_priced_in (walk_tokens ranges) m token.
End pricing.

(** ** Steps *)

Inductive Branch : Type :=
  | Bigram (item : option (Z * Z))
  | Unigram.

(** What a span's steps change: the memory, the predecessors' rows, the
    trellis. *)
Record Walk : Type := mk_walk {
  w_memory : Memory;
  w_rows : gmap Z NbestStepRow;
  w_trellis : Trellis
}.

Definition set_memory (w : Walk) (m : Memory) : Walk := mk_walk m (w_rows w) (w_trellis w).

(** [rows.entry(token).or_default()]. *)
Definition row_of (w : Walk) (token : Z) : NbestStepRow := default NbestStepRow_default (w_rows w !! token).

Definition set_row (w : Walk) (token : Z) (row : NbestStepRow) : Walk :=
  mk_walk (w_memory w) (<[token := row]> (w_rows w)) (w_trellis w).

Definition set_facts (m : Memory) (facts : SentenceFacts) : Memory :=
  mk_memory (m_cells m) (m_memos m) facts.

Definition pronunciation_of (entry : SpanEntry) : f32 :=
  match se_pronunciation entry with
  | None => f32_one
  | Some (matched, total) =>
      if (total =? 0)%Z then f32_zero else f32_div (int_as_f32 matched) (int_as_f32 total)
  end.

Definition branch_item (branch : Branch) : option (Z * Z) :=
  match branch with Bigram item => item | Unigram => None end.

Definition branch_probability (branch : Branch) (step : NbestStepCosts) (pronunciation : f32) : option f64 :=
  match branch with
  | Bigram _ => (fun s => f64_mul s (f64_from pronunciation)) <$> blended step
  | Unigram =>
      (fun elem => f64_mul (f64_mul elem (f64_from pronunciation)) (f64_from (unigram_lambda step)))
        <$> unigram_cost step
  end.

(** The first step to price a token names the path its text is read on. *)
Definition note_text (t : Trellis) (paths : SpanPaths) (entry : SpanEntry) : Trellis :=
  match t_texts t !! se_token entry with
  | Some _ => t
  | None =>
      let '(keys, tones) := path paths (se_path entry) in
      {| t_shape := t_shape t; t_steps := t_steps t;
         t_texts := <[se_token entry := (usize_as_u32 (length (t_text_keys t)), usize_as_u32 (length keys))]>
                      (t_texts t);
         t_text_keys := t_text_keys t ++ keys; t_text_tones := t_text_tones t ++ tones |}
  end.

(** The value a step writes. *)
Definition step_value (entry : SpanEntry) (from : Z) (predecessor : BeamEntry) (probability : f64) : Value :=
  let v := b_value predecessor in
  {| v_token := se_token entry; v_prev := v_token v; v_from := from; v_sub := b_slot predecessor;
     v_length := sat_add32 (v_length v) (se_chars entry);
     v_keys := sat_add32 (v_keys v) (se_keys entry);
     v_poss := f64_as_f32 (f64_add (f64_from (v_poss v)) (ln probability)) |}.

Definition expand_one (paths : SpanPaths) (start end_ : nat) (entry : SpanEntry) (predecessor : BeamEntry)
    (branch : Branch) (w : Walk) : result Walk EngineError :=
  let prev := v_token (b_value predecessor) in
  try '(step, row, facts) :=
    map_err (row_read model prev)
      (nbest_item_costs_with_facts model prev (se_token entry) (branch_item branch)
         (row_of w prev) (m_facts (w_memory w))) in
  let w := set_row (set_memory w (set_facts (w_memory w) facts)) prev row in
  let pronunciation := pronunciation_of entry in
  if float_lt pronunciation F32_EPSILON then Ok w
  else
    match branch_probability branch step pronunciation with
    | None => Ok w
    | Some probability =>
        let t := note_text (w_trellis w) paths entry in
        if (Z.of_nat start <? SEED_STEP)%Z then
          Ok (mk_walk (w_memory w) (w_rows w)
                (insert long_sentence_penalty t end_
                   (step_value entry (Z.of_nat start) predecessor probability)))
        else Err (Graph_ (InputTooLong (Z.of_nat start) MAX_GRAPH_POSITION))
    end.

(** ** The steps of one span *)

Section expand.
Context (ranges : PhraseIndexRanges LazySlot) (paths : SpanPaths) (start end_ : nat).
Context (one_step : option Z).

Definition eligible (entry : SpanEntry) : bool :=
  match se_pronunciation entry with Some (matched, _) => negb (matched =? 0)%Z | None => true end.

Definition eligible_entry (entry : option SpanEntry) : option SpanEntry :=
  match entry with Some e => if eligible e then Some e else None | None => None end.

(** The entries of a forced token that step, with its one item. *)
Fixpoint select_forced (walk : list (Z * LazySlot)) (token : Z) (item : Z * Z) (m : Memory)
    : result (list (SpanEntry * (Z * Z)) * Memory) EngineError :=
  match walk with
  | [] => Ok ([], m)
  | (ranged, slot) :: walk =>
      if negb (ranged =? token)%Z then select_forced walk token item m
      else
        try '(priced, m) := price paths m slot ranged in
        try '(selected, m) := select_forced walk token item m in
        Ok (match eligible_entry priced with
            | Some entry => (entry, item) :: selected
            | None => selected
            end, m)
  end.

(** The entries the items of a row step on: the range's own, else the first
    of the span that spells the token. *)
Fixpoint select_items (range : PhraseIndexRange) (items : list (Z * Z)) (total : Z) (m : Memory)
    : result (list (SpanEntry * (Z * Z)) * Memory) EngineError :=
  match items with
  | [] => Ok ([], m)
  | (token, freq) :: items =>
      try '(own, m) :=
        match entry ranges range token with
        | Some slot => price paths m slot token
        | None => Ok (None, m)
        end in
      try '(found, m) :=
        match own with
        | Some entry => Ok (Some entry, m)
        | None => first_priced ranges paths m token
        end in
      try '(selected, m) := select_items range items total m in
      Ok (match eligible_entry found with
          | Some entry => (entry, (freq, total)) :: selected
          | None => selected
          end, m)
  end.

Fixpoint select_ranges (prev : Z) (gram : MergedGram) (rs : list PhraseIndexRange) (m : Memory)
    : result (list (SpanEntry * (Z * Z)) * Memory) EngineError :=
  match rs with
  | [] => Ok ([], m)
  | range :: rs =>
      let '(items, found) := search_into gram (first range) (last range) [] in
      try searched := map_err (lookup_gram prev) found in
      try '(selected, m) :=
        match items with
        | [] => Ok ([], m)
        | _ =>
            try total := map_err (lookup_gram prev) (total gram) in
            select_items range items total m
        end in
      try '(others, m) := select_ranges prev gram rs m in
      Ok (selected ++ others, m)
  end.

(** What a predecessor's row selects; [None] when the model has no row
    traversal. *)
Definition select_steps (prev : Z) (successors : option NbestSuccessors) (m : Memory)
    : result (option (list (SpanEntry * (Z * Z))) * Memory) EngineError :=
  match successors with
  | None => Ok (None, m)
  | Some Miss => Ok (Some [], m)
  | Some (Row gram) =>
      match fault gram with
      | Some fault => Err (lookup_gram prev fault)
      | None =>
          match one_step with
          | Some token =>
              try freq := map_err (lookup_gram prev) (get_freq gram token) in
              match freq with
              | None => Ok (Some [], m)
              | Some freq =>
                  try total := map_err (lookup_gram prev) (total gram) in
                  try '(selected, m) := select_forced (walk_tokens ranges) token (freq, total) m in
                  Ok (Some selected, m)
              end
          | None =>
              try '(selected, m) := select_ranges prev gram (iter ranges) m in
              Ok (Some selected, m)
          end
      end
  end.

Fixpoint expand_selected (selected : list (SpanEntry * (Z * Z))) (predecessor : BeamEntry) (w : Walk)
    : result Walk EngineError :=
  match selected with
  | [] => Ok w
  | (entry, item) :: selected =>
      try w := expand_one paths start end_ entry predecessor (Bigram (Some item)) w in
      expand_selected selected predecessor w
  end.

(** Every ranged token that prices, on one branch. *)
Fixpoint expand_walk (walk : list (Z * LazySlot)) (predecessor : BeamEntry) (branch : Branch) (w : Walk)
    : result Walk EngineError :=
  match walk with
  | [] => Ok w
  | (token, slot) :: walk =>
      try '(priced, m) := price paths (w_memory w) slot token in
      let w := set_memory w m in
      try w :=
        match eligible_entry priced with
        | Some entry => expand_one paths start end_ entry predecessor branch w
        | None => Ok w
        end in
      expand_walk walk predecessor branch w
  end.

Definition expand_predecessor (predecessor : BeamEntry) (w : Walk) : result Walk EngineError :=
  let prev := v_token (b_value predecessor) in
  let row := begin_successor_span model (row_of w prev) in
  try '(successors, row) := map_err (row_read model prev) (nbest_successors_in_row model prev row) in
  let w := set_row w prev row in
  try '(selected, m) := select_steps prev successors (w_memory w) in
  let w := set_memory w m in
  match selected with
  | Some selected => expand_selected selected predecessor w
  | None => expand_walk (walk_tokens ranges) predecessor (Bigram None) w
  end.

Fixpoint expand_beam (beam : list BeamEntry) (w : Walk) : result Walk EngineError :=
  match beam with
  | [] => Ok w
  | predecessor :: beam =>
      try w := expand_predecessor predecessor w in
      expand_beam beam w
  end.

Definition expand_entries (beam : list BeamEntry) (w : Walk) : result Walk EngineError :=
  if match one_step with None => length (iter ranges) =? 0 | Some _ => false end then Ok w
  else
    try w := expand_beam beam w in
    match beam with
    | [] => Ok w
    | predecessor :: _ => expand_walk (walk_tokens ranges) predecessor Unigram w
    end.
End expand.

(** ** The walk over the positions *)

Definition cell_at (constraints : option ConstraintStore) (position : nat) : option Cell :=
  store ← constraints; Constraint.cell store position.

Definition no_search (constraints : option ConstraintStore) (position : nat) : bool :=
  match cell_at constraints position with Some (NoSearch _) => true | _ => false end.

Section positions.
Context (columns : list (list ScanKey)) (zeros : list bool) (bound : nat).
Context (constraints : option ConstraintStore).

(** A search's cells are fresh: none of its slots is priced. *)
Definition fresh_memory (found : SpanRanges) (facts : SentenceFacts) : Memory :=
  mk_memory (replicate (length (slots (sr_ranges found))) None) (sr_memos found) facts.

(** What a position's steps keep between spans. *)
Record Spans : Type := mk_spans {
  sp_facts : SentenceFacts;
  sp_rows : gmap Z NbestStepRow;
  sp_trellis : Trellis
}.

Definition expand_span (found : SpanRanges) (position end_ : nat) (beam : list BeamEntry) (s : Spans)
    : result Spans EngineError :=
  try w := expand_entries (sr_ranges found) (sr_paths found) position end_ None beam
             (mk_walk (fresh_memory found (sp_facts s)) (sp_rows s) (sp_trellis s)) in
  Ok (mk_spans (m_facts (w_memory w)) (w_rows w) (w_trellis w)).

(** The loop of [widen_free_span] over the ends left. *)
Fixpoint widen_loop (ends : list nat) (position : nat) (beam : list BeamEntry) (s : Spans)
    : result Spans EngineError :=
  match ends with
  | [] => Ok s
  | end_ :: ends =>
      if no_search constraints end_ then Ok s
      else
        try '(found, widening) := search columns zeros position end_ SpanRanges_default in
        try s := expand_span found position end_ beam s in
        if widening : bool then widen_loop ends position beam s else Ok s
  end.

Definition widen_free_span (position : nat) (beam : list BeamEntry) (s : Spans) : result Spans EngineError :=
  widen_loop (seq (position + 1) (bound - position)) position beam s.

(** The forced entry, in ranges of its own whose slot is already priced. *)
Definition forced_ranges (entry : option SpanEntry) : PhraseIndexRanges LazySlot :=
  convert new_ranges
    match entry with Some e => [(se_token e, Some (mk_lazy (se_path e) 0))] | None => [] end.

Definition forced_memory (entry : option SpanEntry) (m : Memory) : Memory :=
  mk_memory match entry with Some e => [Some (Some e)] | None => [] end (m_memos m) (m_facts m).

Definition force_span (position end_ : nat) (token : Z) (beam : list BeamEntry) (s : Spans)
    : result Spans EngineError :=
  if (position <? end_) && (end_ <=? bound) then
    try '(found, continued) := search columns zeros position end_ SpanRanges_default in
    try '(entry, m) :=
      first_priced (sr_ranges found) (sr_paths found) (fresh_memory found (sp_facts s)) token in
    if length (iter (sr_ranges found)) =? 0 then Ok (mk_spans (m_facts m) (sp_rows s) (sp_trellis s))
    else
      try w := expand_entries (forced_ranges entry) (sr_paths found) position end_ (Some token) beam
                 (mk_walk (forced_memory entry m) (sp_rows s) (sp_trellis s)) in
      Ok (mk_spans (m_facts (w_memory w)) (w_rows w) (w_trellis w))
  else Ok s.

(** One turn of the loop: the rows live for one position. *)
Definition decode_step (position : nat) (st : SentenceFacts * Trellis)
    : result (SentenceFacts * Trellis) EngineError :=
  let '(facts, t) := st in
  if no_search constraints position then Ok st
  else
    match beam long_sentence_penalty t position with
    | [] => Ok st
    | beam =>
        let s := mk_spans facts ∅ t in
        try s :=
          match cell_at constraints position with
          | Some (OneStep token end_ _) => force_span position end_ token beam s
          | _ => widen_free_span position beam s
          end in
        Ok (sp_facts s, sp_trellis s)
    end.

Fixpoint decode_loop (positions : list nat) (st : SentenceFacts * Trellis)
    : result (SentenceFacts * Trellis) EngineError :=
  match positions with
  | [] => Ok st
  | position :: positions =>
      try st := decode_step position st in
      decode_loop positions st
  end.
End positions.

(** ** The rows *)

Record NbestRow : Type := mk_row {
  row_text : PhraseText;
  row_tokens : list Z;
  row_spans : list PhraseSpan;
  row_keys : Z;
  row_span : nat;
  row_cost : Z;
  row_poss : option f32
}.

Definition phrase_span (cache : gmap Z (option PhraseText)) (span : nat * Z) : option PhraseSpan :=
  text ← cache !! span.2;
  text ← text;
  Some {| span_start := span.1; span_token := span.2; span_text := text |}.

Fixpoint rows_loop (tails : list Value) (bound : nat) (t : Trellis) (cache : gmap Z (option PhraseText))
    (facts : SentenceFacts) : result (list NbestRow) EngineError :=
  match tails with
  | [] => Ok []
  | tail :: tails =>
      let spans := extract t tail in
      try '(text, cache, facts) := spans_text t dictionary cache spans facts in
      try rows := rows_loop tails bound t cache facts in
      match text with
      | None => Ok rows
      | Some text =>
          if is_empty text then Ok rows
          else
            match mapM (phrase_span cache) spans with
            | None => Ok rows
            | Some spans =>
                Ok ({| row_text := text; row_tokens := span_token <$> spans; row_spans := spans;
                       row_keys := v_keys tail; row_span := bound; row_cost := 0;
                       row_poss := Some (v_poss tail) |} :: rows)
            end
      end
  end.

Record GenerationInput : Type := mk_input {
  gi_matrix : list (list ScanKey);
  gi_bound : nat;
  gi_physical : bool;
  gi_topology : option ParsedMatrix
}.

Definition generation_view (input : GenerationInput) : ParsedMatrix :=
  match gi_topology input with
  | Some topology => topology
  | None => from_scan (gi_matrix input) (gi_bound input) (gi_physical input)
  end.

(** The trellis a decode leaves. *)
Definition decode_trellis (input : GenerationInput) (seeds : list Z)
    (constraints : option ConstraintStore) (shape : NbestShape)
    : result (SentenceFacts * Trellis) EngineError :=
  let view := generation_view input in
  decode_loop (pm_columns view) (pm_zeros view) (gi_bound input) constraints (seq 0 (gi_bound input))
    (SentenceFacts_default, with_seeds (gi_bound input) seeds shape).

Definition nbest_sentences_with_seeds_generation (input : GenerationInput) (seeds : list Z)
    (constraints : option ConstraintStore) (shape : NbestShape) : result (list NbestRow) EngineError :=
  try '(facts, t) := decode_trellis input seeds constraints shape in
  rows_loop (tails long_sentence_penalty t) (gi_bound input) t ∅ facts.

Definition nbest_sentences_generation (input : GenerationInput) (history : list Z)
    (constraints : option ConstraintStore) (shape : NbestShape) : result (list NbestRow) EngineError :=
  let seed := match constraints with
              | Some _ => SENTENCE_START
              | None => default SENTENCE_START (List.last (Some <$> history) None)
              end in
  nbest_sentences_with_seeds_generation input [seed] constraints shape.
End decode.
