(* ===== verification/NbestWalk.v ===== *)
(** * NbestWalk: the trellis, the search of a span and the steps of a decode

    The beams of the trellis and what they keep, that the search of a span
    meets every key path over it, and that each step the decoder takes is
    priced and inserted as the search found it. *)

From Stdlib Require Import ZArith Lia Bool Strings.Byte.
From stdpp Require Import base list gmap sorting.
From S2P Require Import Prelude ByteOrder Sorting MergedGram Ranges Vocab Graph Ucs4 Constraint Float Models Trellis ScanMatrix Nbest.

(** ** Selection *)

Section selection.
Context (penalty : f32).

(** What selection orders by: a list of integers, compared in order. *)
Definition selection_key (nstore : nat) (b : BeamEntry) : list Z :=
  (if nstore =? 1 then v_length (b_value b) :: poss_key (v_poss (b_value b))
   else poss_key (adjusted_poss penalty (b_value b)))
  ++ [Z.of_nat (b_batch b)].

Lemma then_with_lex l l' k k' :
  length l = length l' ->
  then_with (lex_compare l l') (lex_compare k k') = lex_compare (l ++ k) (l' ++ k').
Proof.
  revert l'. induction l as [|x l IH]; intros [|y l'] [=]; [done|].
  cbn [lex_compare app]. destruct (x ?= y)%Z; [by apply IH|done|done].
Qed.

Lemma nat_compare_lex i j : (i ?= j) = lex_compare [Z.of_nat i] [Z.of_nat j].
Proof. cbn [lex_compare]. rewrite Nat2Z.inj_compare. by destruct (i ?= j). Qed.

Lemma selection_compare_key nstore b c :
  selection_compare penalty nstore b c = lex_compare (selection_key nstore b) (selection_key nstore c).
Proof.
  unfold selection_compare, selection_key. rewrite nat_compare_lex, !ordered_poss_compare_key.
  destruct (nstore =? 1).
  - rewrite <- then_with_lex by (cbn; by rewrite !length_poss_key). f_equal. cbn.
    by destruct (_ ?= _)%Z.
  - by rewrite then_with_lex by (by rewrite !length_poss_key).
Qed.

(** [b] is selected no later than [c]. *)
Definition no_later (nstore : nat) (b c : BeamEntry) : Prop :=
  selection_compare penalty nstore b c <> Gt.

Lemma no_later_le nstore b c : no_later nstore b c <-> le_key (selection_key nstore) b c.
Proof. unfold no_later, le_key. by rewrite selection_compare_key. Qed.

Lemma no_later_trans nstore b c d : no_later nstore b c -> no_later nstore c d -> no_later nstore b d.
Proof. rewrite !no_later_le. apply le_key_trans. Qed.

Lemma selection_key_batch nstore b c :
  selection_key nstore b = selection_key nstore c -> b_batch b = b_batch c.
Proof. unfold selection_key. intros [_ [= H]]%app_inj_2; [lia|done]. Qed.

Lemma selection_keys_distinct nstore l :
  NoDup (b_batch <$> l) -> NoDup (selection_key nstore <$> l).
Proof.
  induction l as [|b l IH]; [constructor|]. rewrite !fmap_cons, !NoDup_cons. intros [Hb Hl].
  split; [|by apply IH]. intros (c & Hk & Hc)%list_elem_of_fmap. destruct Hb.
  apply list_elem_of_fmap. exists c. split; [|done]. by apply (selection_key_batch nstore).
Qed.

Lemma select_top_take l count nstore :
  NoDup (b_batch <$> l) ->
  select_top penalty l count nstore = take count (sort_by (selection_compare penalty nstore) l).
Proof.
  intros Hn. unfold select_top. pose proof (selection_compare_key nstore) as Hk.
  assert (length (sort_by (selection_compare penalty nstore) l) = length l) as Hlen
    by (by rewrite sort_by_perm).
  destruct (Nat.min count (length l) =? 0) eqn:E0.
  { apply Nat.eqb_eq in E0. destruct (decide (count = 0)) as [->|]; [by rewrite take_0|].
    assert (length l = 0) by lia. symmetry. apply length_zero_iff_nil.
    rewrite length_take. lia. }
  apply Nat.eqb_neq in E0. destruct (_ <? length l) eqn:E1.
  - apply Nat.ltb_lt in E1. replace (Nat.min count (length l)) with count by lia.
    assert (S (count - 1) = count) as Hc by lia.
    pose proof (select_sorted (selection_compare penalty nstore) (selection_key nstore) Hk (count - 1) l
      (select_nth_unstable_by (selection_compare penalty nstore) (count - 1) l)) as H.
    rewrite Hc in H. apply H.
    + by apply selection_keys_distinct.
    + by apply (select_nth_selects _ _ Hk).
    + lia.
    + by apply sort_by_sorted.
    + apply sort_by_perm.
  - apply Nat.ltb_ge in E1. rewrite take_ge; [done|lia].
Qed.
End selection.

Lemma select_top_subset penalty l count nstore b :
  b ∈ select_top penalty l count nstore -> b ∈ l.
Proof.
  unfold select_top. destruct (_ =? 0); [intros []%not_elem_of_nil|].
  rewrite sort_by_perm. destruct (_ <? _); [|done].
  intros Hb%elem_of_take. destruct Hb as (i & Hi & _). apply list_elem_of_lookup_2 in Hi.
  unfold select_nth_unstable_by in Hi. by rewrite sort_by_perm in Hi.
Qed.

Lemma length_select_top penalty l count nstore : length (select_top penalty l count nstore) <= count.
Proof.
  unfold select_top. destruct (_ =? 0) eqn:E; [cbn; lia|]. rewrite sort_by_perm.
  destruct (_ <? _) eqn:E'; [rewrite length_take; lia|]. apply Nat.ltb_ge in E'. lia.
Qed.

(** ** Nodes *)

Definition holds (n : Node) (v : Value) : Prop := v ∈ node_values n.

Record node_ok (token : Z) (n : Node) : Prop := {
  node_len : n_len n <= 2;
  node_token : forall v, holds n v -> v_token v = token
}.

Lemma node_values_take n : n_len n <= 2 -> node_values n = take (n_len n) [n_front n; n_back n].
Proof. intros H. unfold node_values. rewrite subslice_in by (cbn; lia). cbn [default from_option id]. by rewrite drop_0, Nat.sub_0_r. Qed.

Lemma keep_len penalty n value ns : n_len n <= 2 -> n_len (keep penalty n value ns) <= 2.
Proof.
  destruct n as [len f b]. cbn [n_len]. intros H.
  destruct len as [|[|len]]; cbn [keep n_len]; repeat case_match; cbn; lia.
Qed.

Lemma holds_keep penalty n value ns v :
  n_len n <= 2 -> holds (keep penalty n value ns) v -> v = value \/ holds n v.
Proof.
  intros Hlen. unfold holds. rewrite !node_values_take by (done || by apply keep_len). revert Hlen.
  destruct n as [len f b]. cbn [n_len]. intros Hlen.
  destruct len as [|[|[|len]]]; [| | |lia]; cbn [keep n_len n_front n_back];
    repeat case_match; cbn [n_len n_front n_back take]; rewrite ?elem_of_cons, ?elem_of_nil; tauto.
Qed.

Lemma keep_ok penalty token n value ns :
  node_ok token n -> v_token value = token -> node_ok token (keep penalty n value ns).
Proof.
  intros [Hl Ht] Hv. split; [by apply keep_len|].
  intros v [->|H]%holds_keep; [done|by apply Ht|done].
Qed.

Lemma empty_node_ok token : node_ok token EMPTY_NODE.
Proof. split; [cbn; lia|]. intros v H. cbn in H. by apply not_elem_of_nil in H. Qed.

Lemma seed_node_ok token : node_ok token (seed_node token).
Proof. split; [cbn; lia|]. intros v H. cbn in H. by apply list_elem_of_singleton in H as ->. Qed.

(** ** Steps *)

(** The index and the nodes name each other. *)
Record step_wf (s : Step) : Prop := {
  wf_index : forall token i, s_index s !! token = Some i ->
    (0 <= i)%Z /\ exists n, s_nodes s !! Z.to_nat i = Some n /\ node_ok token n;
  wf_node : forall i n, s_nodes s !! i = Some n -> exists token, s_index s !! token = Some (Z.of_nat i);
  wf_inj : forall token token' i, s_index s !! token = Some i -> s_index s !! token' = Some i -> token = token'
}.

Definition step_holds (s : Step) (v : Value) : Prop := exists n, n ∈ s_nodes s /\ holds n v.

Lemma step_default_wf : step_wf Step_default.
Proof.
  split; [intros token i H; cbn in H; by rewrite lookup_empty in H
         |intros i n H; discriminate|intros token token' i H; cbn in H; by rewrite lookup_empty in H].
Qed.

Lemma wf_node_at s i n v :
  step_wf s -> s_nodes s !! i = Some n -> holds n v ->
  s_index s !! v_token v = Some (Z.of_nat i) /\ node_at s (v_token v) = Some n.
Proof.
  intros Hwf Hn Hv. destruct (wf_node s Hwf i n Hn) as (token & Htok).
  destruct (wf_index s Hwf token _ Htok) as (_ & n' & Hn' & Hok). rewrite Nat2Z.id in Hn'. simplify_eq.
  rewrite (node_token _ _ Hok v Hv). split; [done|]. unfold node_at. rewrite Htok. cbn.
  by rewrite Nat2Z.id.
Qed.

Lemma node_slot_wf s token :
  step_wf s ->
  let '(s', slot) := node_slot s token in
  step_wf s' /\ (forall v, step_holds s' v -> step_holds s v) /\
  (forall i, slot = Some i -> s_index s' !! token = Some (Z.of_nat i)).
Proof.
  intros Hwf. unfold node_slot. destruct (s_index s !! token) as [i|] eqn:Ei.
  { destruct (wf_index s Hwf _ _ Ei) as (Hi & _). split; [done|split; [done|]].
    intros j [= <-]. by rewrite Z2Nat.id. }
  destruct (_ <=? u32_max)%Z; [|done]. split_and!.
  - split; cbn [s_index s_nodes].
    + intros tok i. destruct (decide (tok = token)) as [->|Hne].
      * rewrite lookup_insert_eq. intros [= <-]. split; [lia|]. exists EMPTY_NODE.
        rewrite Nat2Z.id, lookup_app_r, Nat.sub_diag by lia. split; [done|apply empty_node_ok].
      * rewrite lookup_insert_ne by done. intros H. destruct (wf_index s Hwf _ _ H) as (H0 & n & Hn & Hok).
        split; [done|]. exists n. split; [by apply lookup_app_l_Some|done].
    + intros i n [Hn|[Hlen Hn]]%lookup_app_Some.
      * destruct (wf_node s Hwf i n Hn) as (tok & Htok). exists tok.
        rewrite lookup_insert_ne; [done|]. intros <-. congruence.
      * apply list_lookup_singleton_Some in Hn as [Hn _]. exists token.
        rewrite lookup_insert_eq. f_equal. lia.
    + intros tok tok' i. assert (forall tok, s_index s !! tok = Some (Z.of_nat (length (s_nodes s))) -> False) as Hfresh.
      { intros t Ht. destruct (wf_index s Hwf _ _ Ht) as (_ & n & Hn & _).
        rewrite Nat2Z.id in Hn. apply lookup_lt_Some in Hn. lia. }
      rewrite !lookup_insert. repeat case_decide; intros; simplify_eq; try done;
        [by edestruct Hfresh|by edestruct Hfresh|by eapply (wf_inj s Hwf)].
  - intros v (n & Hn & Hv). cbn [s_nodes] in Hn.
    apply elem_of_app in Hn as [Hn|Hn%list_elem_of_singleton]; [by exists n|].
    subst n. cbn in Hv. by apply not_elem_of_nil in Hv.
  - intros i [= <-]. cbn. by rewrite lookup_insert_eq.
Qed.

(** A change that keeps a node to its token keeps the step. *)
Lemma with_node_wf s token f :
  step_wf s -> (forall n, node_ok token n -> node_ok token (f n)) -> step_wf (with_node s token f).
Proof.
  intros Hwf Hf. unfold with_node. pose proof (node_slot_wf s token Hwf) as H.
  destruct (node_slot s token) as [s' [i|]]; destruct H as (Hwf' & _ & Hi); [|done].
  specialize (Hi i eq_refl). split; cbn [s_index s_nodes].
  - intros tok j Hj. destruct (wf_index s' Hwf' _ _ Hj) as (H0 & n & Hn & Hok). split; [done|].
    destruct (decide (Z.to_nat j = i)) as [<-|Hne].
    + exists (f n). rewrite list_lookup_alter_eq, Hn. split; [done|].
      rewrite <- (Z2Nat.id j) in Hj by done. rewrite (wf_inj s' Hwf' _ _ _ Hj Hi) in Hok |- *. by apply Hf.
    + exists n. by rewrite list_lookup_alter_ne.
  - intros j n Hn.
    assert (exists n', s_nodes s' !! j = Some n') as (n' & Hn').
    { apply lookup_lt_is_Some. apply lookup_lt_Some in Hn. by rewrite length_alter in Hn. }
    by apply (wf_node s' Hwf' j n').
  - apply (wf_inj s' Hwf').
Qed.

Lemma with_node_holds s token f v :
  step_wf s -> step_holds (with_node s token f) v ->
  step_holds s v \/ exists n, node_ok token n /\ holds (f n) v /\ forall u, holds n u -> step_holds s u.
Proof.
  intros Hwf. unfold with_node. pose proof (node_slot_wf s token Hwf) as H.
  destruct (node_slot s token) as [s' [i|]]; destruct H as (Hwf' & Hold & Hi); [|by auto].
  specialize (Hi i eq_refl). intros (n & (j & Hj)%list_elem_of_lookup & Hv). cbn [s_nodes] in Hj.
  destruct (decide (j = i)) as [->|Hne].
  - destruct (wf_index s' Hwf' _ _ Hi) as (_ & n' & Hn' & Hok). rewrite Nat2Z.id in Hn'.
    rewrite list_lookup_alter_eq, Hn' in Hj. cbn in Hj. simplify_eq. right. exists n'. split; [done|].
    split; [done|]. intros u Hu. apply Hold. exists n'. split; [|done]. by eapply list_elem_of_lookup_2.
  - rewrite list_lookup_alter_ne in Hj by done. left. apply Hold. exists n. split; [|done].
    by eapply list_elem_of_lookup_2.
Qed.

(** ** The trellis *)

Definition trellis_wf (t : Trellis) : Prop := forall p s, t_steps t !! p = Some s -> step_wf s.

Definition values_at (t : Trellis) (p : nat) (v : Value) : Prop :=
  exists s, t_steps t !! p = Some s /\ step_holds s v.

Lemma seed_steps_spec seeds s :
  step_wf s ->
  step_wf (fold_left seed_step seeds s) /\
  forall v, step_holds (fold_left seed_step seeds s) v ->
    step_holds s v \/ exists token, token ∈ seeds /\ v = value_seed token.
Proof.
  revert s. induction seeds as [|token seeds IH]; intros s Hs; [by auto|]. cbn [fold_left].
  assert (step_wf (seed_step s token)) as Hs'.
  { apply with_node_wf; [done|]. intros n _. apply seed_node_ok. }
  destruct (IH _ Hs') as [Hwf Hv]. split; [done|]. intros v Hin.
  destruct (Hv v Hin) as [H|(tok & Htok & ->)].
  - apply with_node_holds in H as [H|(n & _ & H & _)]; [by left| |done].
    cbn in H. apply list_elem_of_singleton in H as ->. right. exists token. split; [left|done].
  - right. exists tok. split; [by right|done].
Qed.

Lemma with_seeds_spec bound seeds shape :
  let t := with_seeds bound seeds shape in
  trellis_wf t /\ length (t_steps t) = bound + 1 /\
  forall p v, values_at t p v -> p = 0 /\ exists token, token ∈ seeds /\ v = value_seed token.
Proof.
  cbn zeta. destruct (seed_steps_spec seeds Step_default step_default_wf) as [Hwf Hv].
  assert (forall p s, t_steps (with_seeds bound seeds shape) !! p = Some s ->
    p = 0 /\ s = fold_left seed_step seeds Step_default \/ s = Step_default) as Hsteps.
  { intros [|p] s H; cbn in H; [left; by simplify_eq|right]. by apply lookup_replicate in H as [-> _]. }
  split_and!.
  - intros p s H. destruct (Hsteps p s H) as [[_ ->]| ->]; [done|apply step_default_wf].
  - cbn. rewrite length_replicate. lia.
  - intros p v (s & Hs & Hin). destruct (Hsteps p s Hs) as [[-> ->]| ->].
    + destruct (Hv v Hin) as [(n & Hn & _)|H]; [|done]. by apply not_elem_of_nil in Hn.
    + destruct Hin as (n & Hn & _). by apply not_elem_of_nil in Hn.
Qed.

Section insert.
Context (penalty : f32).

Lemma insert_wf t p v : trellis_wf t -> trellis_wf (insert penalty t p v).
Proof.
  intros Hwf q s Hs. cbn [insert set_steps t_steps] in Hs.
  destruct (decide (p = q)) as [->|Hne].
  - rewrite list_lookup_alter_eq in Hs. destruct (t_steps t !! q) as [s0|] eqn:E; [|done].
    cbn in Hs. simplify_eq. apply with_node_wf; [by apply (Hwf q)|]. intros n Hn. by apply keep_ok.
  - rewrite list_lookup_alter_ne in Hs by done. by apply (Hwf q).
Qed.

Lemma insert_other t p q v : p <> q -> t_steps (insert penalty t p v) !! q = t_steps t !! q.
Proof. intros. cbn. by rewrite list_lookup_alter_ne. Qed.

Lemma length_insert t p v : length (t_steps (insert penalty t p v)) = length (t_steps t).
Proof. cbn. apply length_alter. Qed.

Lemma insert_values t p value q v :
  trellis_wf t -> values_at (insert penalty t p value) q v ->
  (q = p /\ v = value) \/ values_at t q v.
Proof.
  intros Hwf (s & Hs & Hv). destruct (decide (p = q)) as [->|Hne].
  - cbn in Hs. rewrite list_lookup_alter_eq in Hs. destruct (t_steps t !! q) as [s0|] eqn:E; [|done].
    cbn in Hs. simplify_eq.
    apply with_node_holds in Hv as [Hv|(n & Hn & Hv & Hold)]; [right; by exists s0| |by apply (Hwf q)].
    apply holds_keep in Hv as [->|Hv]; [by left| |by apply (node_len _ _ Hn)].
    right. exists s0. split; [done|]. by apply Hold.
  - rewrite insert_other in Hs by done. right. by exists s.
Qed.
End insert.

(** ** The candidates of a step *)

(** Where a beam entry's value lives. *)
Definition entry_in (t : Trellis) (p : nat) (b : BeamEntry) : Prop :=
  exists s n, t_steps t !! p = Some s /\ node_at s (v_token (b_value b)) = Some n /\
    (0 <= b_slot b)%Z /\ node_values n !! Z.to_nat (b_slot b) = Some (b_value b) /\ step_holds s (b_value b).

Lemma elem_of_step_entries s b :
  b ∈ step_entries s -> exists n, n ∈ s_nodes s /\ (0 <= b_slot b)%Z /\
    node_values n !! Z.to_nat (b_slot b) = Some (b_value b).
Proof.
  unfold step_entries. intros (i & [v slot] & -> & Hv)%elem_of_lookup_imap. cbn.
  apply list_elem_of_lookup_2, list_elem_of_bind in Hv as (n & Hv & Hn).
  apply elem_of_lookup_imap in Hv as (j & v' & [= -> ->] & Hj). exists n.
  rewrite Nat2Z.id. split; [done|]. split; [lia|done].
Qed.

Lemma candidates_in t p b : trellis_wf t -> b ∈ candidates t p -> entry_in t p b.
Proof.
  intros Hwf. unfold candidates. destruct (t_steps t !! p) as [s|] eqn:E; [|by intros []%not_elem_of_nil].
  intros (n & (i & Hi)%list_elem_of_lookup & H0 & Hv)%elem_of_step_entries.
  assert (holds n (b_value b)) as Hh by (by eapply list_elem_of_lookup_2).
  destruct (wf_node_at s i n _ (Hwf p s E) Hi Hh) as [_ Hn].
  exists s, n. split_and!; [done|done|done|done|]. exists n. split; [by eapply list_elem_of_lookup_2|done].
Qed.

Lemma candidates_batches t p : NoDup (b_batch <$> candidates t p).
Proof.
  unfold candidates. destruct (t_steps t !! p) as [s|]; [|constructor]. unfold step_entries.
  assert (forall l : list (Value * Z), b_batch <$> imap
    (fun i '(v, slot) => {| b_value := v; b_slot := slot; b_batch := i |}) l = seq 0 (length l)) as ->.
  { intros l. apply list_eq. intros i. rewrite list_lookup_fmap, list_lookup_imap.
    destruct (l !! i) as [[v slot]|] eqn:E; cbn.
    - symmetry. apply lookup_seq. apply lookup_lt_Some in E. lia.
    - symmetry. apply lookup_ge_None. rewrite length_seq. by apply lookup_ge_None in E. }
  apply NoDup_ListNoDup, seq_NoDup.
Qed.

Lemma beam_entry_in penalty t p b : trellis_wf t -> b ∈ beam penalty t p -> entry_in t p b.
Proof. intros Hwf Hb%select_top_subset. by apply candidates_in. Qed.

Lemma tails_values penalty t v :
  trellis_wf t -> v ∈ tails penalty t -> values_at t (length (t_steps t) - 1) v.
Proof.
  intros Hwf. unfold tails, tail_merge. rewrite sort_by_perm.
  intros (b & -> & Hb)%list_elem_of_fmap. apply select_top_subset, candidates_in in Hb; [|done].
  destruct Hb as (s & n & Hs & _ & _ & _ & Hh). by exists s.
Qed.

Lemma length_tails penalty t : length (tails penalty t) <= nbest (t_shape t).
Proof. unfold tails, tail_merge. rewrite sort_by_perm, length_fmap. apply length_select_top. Qed.

#[local] Open Scope result_scope.

(** ** Paths *)

Definition path_at (p : SpanPaths) (id : Z) (keys : list SyllableKey) (tones : list Z) : Prop :=
  exists offset len, sp_bounds p !! Z.to_nat id = Some (offset, len) /\
    subslice (sp_keys p) (Z.to_nat offset) (Z.to_nat offset + Z.to_nat len) = Some keys /\
    subslice (sp_tones p) (Z.to_nat offset) (Z.to_nat offset + Z.to_nat len) = Some tones.

Lemma path_at_path p id keys tones : path_at p id keys tones -> path p id = (keys, tones).
Proof. intros (o & l & Hb & Hk & Ht). unfold path. by rewrite Hb, Hk, Ht. Qed.

Definition paths_size (p : SpanPaths) : nat := length (sp_keys p) + length (sp_bounds p).

Definition paths_ok (p : SpanPaths) : Prop := length (sp_keys p) = length (sp_tones p).

Lemma paths_push_spec p keys tones p' id :
  paths_push p keys tones = (p', id) -> paths_ok p -> length keys = length tones ->
  (Z.of_nat (paths_size p') <= u32_max)%Z ->
  paths_ok p' /\ id = Z.of_nat (length (sp_bounds p)) /\ path_at p' id keys tones /\
  forall id0 keys0 tones0, path_at p id0 keys0 tones0 -> path_at p' id0 keys0 tones0.
Proof.
  unfold paths_push, paths_ok, paths_size. intros [= <- <-] Hok Hlen Hfit.
  cbn [sp_keys sp_tones sp_bounds] in *. rewrite !length_app in Hfit. cbn [length] in Hfit.
  assert (forall n, (Z.of_nat n <= u32_max)%Z -> usize_as_u32 n = Z.of_nat n) as Hu
    by (intros; unfold usize_as_u32, slot_of; lia).
  split; [rewrite !length_app; lia|]. split; [by apply Hu; lia|]. split.
  - unfold path_at. rewrite !Hu by lia. exists (Z.of_nat (length (sp_keys p))), (Z.of_nat (length keys)).
    cbn [sp_keys sp_tones sp_bounds]. rewrite !Nat2Z.id. split_and!.
    + by rewrite lookup_app_r, Nat.sub_diag by lia.
    + pose proof (subslice_middle (sp_keys p) keys [] (length (sp_keys p)) _ eq_refl eq_refl) as H.
      by rewrite app_nil_r in H.
    + pose proof (subslice_middle (sp_tones p) tones [] (length (sp_tones p)) _ eq_refl eq_refl) as H.
      rewrite app_nil_r in H. by rewrite Hok, Hlen.
  - intros id0 k0 t0 (o & l & Hb & Hk & Ht). exists o, l. cbn [sp_keys sp_tones sp_bounds].
    split_and!; [by apply lookup_app_l_Some|by apply subslice_app..].
Qed.

(** ** Slots at their addresses *)

Definition address (i : nat) (it : Z * option LazySlot) : Z * option LazySlot :=
  (it.1, (fun s => mk_lazy (ls_path s) i) <$> it.2).

Lemma represents_retag {E F} (r : PhraseIndexRanges E) (its : list (Z * option E)) (k : list (Z * option F)) :
  represents r its -> k.*1 = its.*1 -> represents (mk_ranges (libraries r) k.*2) k.
Proof.
  intros [Hs Hn Hr] Hk. split; [done|done|]. intros lib rs Hrs. destruct (Hr lib rs Hrs) as [Hok Hc].
  split.
  - apply (Forall_impl _ _ _ Hok). intros rg [H1 H2 H3 H4]. split; [done|done|done|]. by rewrite Hk.
  - rewrite Hc. unfold lib_indexes. rewrite <- (length_fmap fst its), <- Hk, length_fmap.
    reflexivity.
Qed.

Lemma addressed_represents r its :
  represents r its -> represents (addressed r) (imap address its).
Proof.
  intros Hr. assert (slots (addressed r) = (imap address its).*2) as Hs.
  { cbn. rewrite (rep_slots _ _ Hr), fmap_imap, imap_fmap. reflexivity. }
  pose proof (represents_retag r its (imap address its) Hr) as H.
  destruct r as [libs sl]. unfold addressed in *. cbn [libraries slots] in *. rewrite Hs. apply H.
  rewrite fmap_imap. clear. induction its as [|it its IH] using rev_ind; [done|].
  rewrite imap_app, IH, fmap_app. done.
Qed.

Section laws.
Context {D L : Type} `{DL : DecoderLaws D L d l}.
Context (columns : list (list ScanKey)) (zeros : list bool).

(** A walk of keys through the matrix from [p], and what it offers. *)
Inductive key_path (p : nat) : nat -> list ScanKey -> Prop :=
  | path_nil : key_path p p []
  | path_zero q keys : key_path p q keys -> zero_at zeros q = true -> key_path p (q + 1) keys
  | path_key q keys column key :
      key_path p q keys -> zero_at zeros q = false -> columns !! q = Some column -> key ∈ column ->
      q < sk_to key -> key_path p (sk_to key) (keys ++ [key]).

Lemma key_path_length p q keys : key_path p q keys -> p + length keys <= q.
Proof. induction 1; rewrite ?length_app; cbn; lia. Qed.

(** The dictionary ranges [token] for the keys of a path from [p] to [q]. *)
Definition offered (p q : nat) (keys : list SyllableKey) (tones : list Z) (token : Z) : Prop :=
  exists path, key_path p q path /\ 0 < length path <= MAX_PHRASE_LENGTH /\
    keys = sk_key <$> path /\ tones = sk_tone <$> path /\
    exists ranges more, trellis_ranges_continued d keys tones new_ranges = Ok (ranges, more) /\
      token ∈ (walk_tokens ranges).*1.

Definition span_size (r : @SpanRanges D _) : nat := length (slots (sr_ranges r)) + paths_size (sr_paths r).

Definition span_fits (r : SpanRanges) : Prop := (Z.of_nat (span_size r) <= u32_max)%Z.

(** Every slot found from [p] to [q] stands for an offered token. *)
Record span_ok (p q : nat) (r : @SpanRanges D _) : Prop := {
  span_paths : paths_ok (sr_paths r);
  span_memos : sr_memos r = replicate (length (sp_bounds (sr_paths r))) memo_default;
  span_items : exists its, represents (sr_ranges r) its /\ forall i token slot,
    its !! i = Some (token, Some slot) ->
    ls_cell slot = i /\ is_u32 token /\ exists keys tones,
      path_at (sr_paths r) (ls_path slot) keys tones /\ offered p q keys tones token
}.

Lemma span_ok_default p q : span_ok p q SpanRanges_default.
Proof. split; [done|done|]. exists []. split; [apply represents_new|]. intros i token slot. by rewrite lookup_nil. Qed.

Lemma by_library_token {E} (its : list (Z * option E)) i token e :
  its !! i = Some (token, Some e) -> token ∈ (by_library its).*1.
Proof.
  intros Hi. apply list_elem_of_fmap. exists (token, e). split; [done|]. unfold by_library.
  apply list_elem_of_bind. exists (phrase_index_library token). split.
  - apply list_elem_of_omap. exists (token, Some e). split; [|done].
    apply list_elem_of_filter. split; [done|]. by eapply list_elem_of_lookup_2.
  - apply elem_of_seq. pose proof (phrase_index_library_lt token). lia.
Qed.

(** One leaf adds a path and the slots of what it offers. *)
Lemma leaf_ok p q path into continued into' continued' :
  search_leaf d (sk_key <$> path) (sk_tone <$> path) into continued = Ok (into', continued') ->
  key_path p q path ->
  span_size into <= span_size into' /\
  (span_fits into' -> span_ok p q into -> span_ok p q into').
Proof using DL.
  intros Hleaf Hpath. unfold search_leaf in Hleaf. rewrite length_fmap in Hleaf.
  destruct (MAX_PHRASE_LENGTH <? length path) eqn:Emax; [by simplify_eq|].
  destruct (length path =? 0) eqn:Ezero; [by simplify_eq|].
  apply Nat.ltb_ge in Emax. apply Nat.eqb_neq in Ezero.
  destruct (check_toned_incomplete _ _) as [checked|]; [|done].
  destruct (trellis_ranges_continued _ _ _ _) as [[found more]|e] eqn:Efound; [|done].
  cbn [map_err] in Hleaf. unfold push_path in Hleaf.
  destruct (paths_push (sr_paths into) (sk_key <$> path) (sk_tone <$> path)) as [paths id] eqn:Epush.
  injection Hleaf as Hinto _.
  assert (sr_ranges into' = addressed (append_from (sr_ranges into) found (fun _ => mk_lazy id 0)).1) as Hr'
    by (by rewrite <- Hinto).
  assert (sr_paths into' = paths) as Hp' by (by rewrite <- Hinto).
  assert (sr_memos into' = sr_memos into ++ [memo_default]) as Hm' by (by rewrite <- Hinto).
  clear Hinto.
  destruct (ranges_law _ _ _ _ Efound) as (k & Hk & Hu).
  assert (length (slots found) = length k) as Hlk by (by rewrite (rep_slots _ _ Hk), length_fmap).
  assert (span_size into + length k < span_size into') as Hgrow.
  { unfold span_size, paths_size. rewrite Hr', Hp'. cbn [addressed slots]. rewrite length_imap.
    cbn [append_from fst slots]. rewrite length_app, length_fmap, Hlk.
    injection Epush as <- _. cbn [sp_keys sp_bounds]. rewrite !length_app. cbn. lia. }
  split; [lia|]. intros Hfit [Hp Hm (its & Hits & Hin)]. unfold span_fits in Hfit.
  assert (length (slots (sr_ranges into)) = length its) as Hli by (by rewrite (rep_slots _ _ Hits), length_fmap).
  destruct (paths_push_spec _ _ _ _ _ Epush Hp) as (Hok' & Hid & Hat & Hold).
  { by rewrite !length_fmap. }
  { unfold span_size in Hfit. rewrite Hp' in Hfit. lia. }
  split; rewrite ?Hp', ?Hm', ?Hr'; [done| |].
  { rewrite Hm. injection Epush as <- _. cbn [sp_bounds]. rewrite length_app, Nat.add_1_r, replicate_S_end. done. }
  set (f := λ _ : unit, mk_lazy id 0). exists (imap address (its ++ (map_entry f <$> k))). split.
  { apply addressed_represents, append_represents; [|done|done].
    unfold span_size in Hgrow at 1. lia. }
  intros i token slot. rewrite list_lookup_imap. intros (it & Hit & Haddr)%fmap_Some.
  destruct it as [tok [s|]]; [|done]. unfold address in Haddr. cbn in Haddr. injection Haddr as -> ->.
  cbn [ls_cell ls_path]. split; [done|]. apply lookup_app_Some in Hit as [Hit|[_ Hit]].
  - destruct (Hin _ _ _ Hit) as (_ & Htok & keys & tones & Hpk & Hoff). split; [done|].
    exists keys, tones. split; [by apply Hold|done].
  - apply list_lookup_fmap_Some in Hit as ([tok' e] & Heq & Hke). unfold map_entry in Heq. cbn in Heq.
    destruct e as [[]|]; [|done]. injection Heq as -> ->.
    rewrite Forall_forall in Hu. split.
    { apply (Hu (tok', Some tt)). by eapply list_elem_of_lookup_2. }
    exists (sk_key <$> path), (sk_tone <$> path). split; [done|].
    exists path. split_and!; [done|lia|done|done|done|]. exists found, more. split; [done|].
    rewrite (walk_tokens_by_library _ _ Hk). by eapply by_library_token.
Qed.

(** The relation a walk keeps between the spans before and after it. *)
Definition grows (p q : nat) (r r' : @SpanRanges D _) : Prop :=
  span_size r <= span_size r' /\ (span_fits r' -> span_ok p q r -> span_ok p q r').

Lemma walk_grows_trans p q r r' r'' : grows p q r r' -> grows p q r' r'' -> grows p q r r''.
Proof.
  intros [H1 H2] [H3 H4]. split; [lia|]. intros Hf Hr. apply H4; [done|]. apply H2; [|done].
  unfold span_fits in *. lia.
Qed.

Lemma walk_grows_refl p q r : grows p q r r.
Proof. by split. Qed.

Lemma walk_view_grows p q fuel start path into continued into' continued' :
  walk_view d columns zeros fuel q start (sk_key <$> path) (sk_tone <$> path) into continued
    = Ok (into', continued') ->
  key_path p start path -> grows p q into into'.
Proof using DL.
  revert start path into continued into' continued'.
  induction fuel as [|fuel IH]; intros start path into continued into' continued'; cbn [walk_view].
  { intros [= <- <-] _. apply walk_grows_refl. }
  destruct (q <? start); [intros [= <- <-] _; apply walk_grows_refl|].
  destruct (start =? q) eqn:Eq; [apply Nat.eqb_eq in Eq as <-; apply leaf_ok|].
  destruct (zero_at zeros start) eqn:Ez.
  { intros Hw Hp. eapply IH; [exact Hw|]. by apply path_zero. }
  intros Hw Hp.
  assert (forall key, key ∈ default [] (columns !! start) -> exists column, columns !! start = Some column /\ key ∈ column)
    as Hcol by (destruct (columns !! start); [naive_solver|by intros key []%not_elem_of_nil]).
  revert Hw Hcol. generalize (default [] (columns !! start)) as column. intros column.
  revert into continued. induction column as [|key column IHc]; intros into continued Hw Hcol.
  { injection Hw as <- <-. apply walk_grows_refl. }
  assert (forall key, key ∈ column -> exists column, columns !! start = Some column /\ key ∈ column) as Hcol'
    by (intros k Hk; apply Hcol; by right).
  destruct (q <? sk_to key); [by eapply IHc|].
  destruct (sk_to key <=? start) eqn:Eto; [by eapply IHc|]. apply Nat.leb_gt in Eto.
  destruct (_ <=? MAX_PHRASE_LENGTH); [|by eapply IHc].
  change [sk_key key] with (sk_key <$> [key]) in Hw. change [sk_tone key] with (sk_tone <$> [key]) in Hw.
  rewrite <- !fmap_app in Hw.
  destruct (walk_view d columns zeros fuel q (sk_to key) _ _ into continued) as [[mid c]|e] eqn:Em; [|done].
  apply (walk_grows_trans _ _ _ mid).
  - eapply IH; [exact Em|]. destruct (Hcol key (list_elem_of_here _ _)) as (col & Hc & Hk).
    by apply (path_key p start path col key).
  - by eapply IHc.
Qed.

(** What a search answers, when it fits. *)
Lemma search_ok p q into continued :
  search d columns zeros p q SpanRanges_default = Ok (into, continued) -> span_fits into -> span_ok p q into.
Proof using DL.
  unfold search. destruct (columns !! p) as [column|]; [|intros [= <- _] _; apply span_ok_default].
  destruct (_ && _); [intros [= <- _] _; apply span_ok_default|].
  destruct (_ && _); [intros [= <- _] _; apply span_ok_default|].
  intros Hw Hf. destruct (walk_view_grows p q _ p [] _ _ _ _ Hw (path_nil p)) as [_ Hg].
  apply Hg; [done|apply span_ok_default].
Qed.
End laws.

(** ** The fuel of a walk is its width *)

Section fuel.
Context {D : Type} `{Dictionary D} (d : D) (columns : list (list ScanKey)) (zeros : list bool).

Lemma walk_view_fuel q fuel fuel' start keys tones (into : @SpanRanges D _) continued :
  q - start < fuel -> q - start < fuel' ->
  walk_view d columns zeros fuel q start keys tones into continued =
  walk_view d columns zeros fuel' q start keys tones into continued.
Proof.
  revert fuel' start keys tones into continued.
  induction fuel as [|fuel IH]; intros [|fuel'] start keys tones into continued H1 H2; [lia..|].
  cbn [walk_view]. destruct (q <? start) eqn:E1; [done|]. destruct (start =? q) eqn:E2; [done|].
  apply Nat.ltb_ge in E1. apply Nat.eqb_neq in E2.
  destruct (zero_at zeros start); [apply IH; lia|].
  generalize (default [] (columns !! start)) as column. intros column.
  revert into continued. induction column as [|key column IHc]; intros into continued; [done|].
  destruct (q <? sk_to key) eqn:E3; [apply IHc|].
  destruct (sk_to key <=? start) eqn:E4; [apply IHc|]. apply Nat.leb_gt in E4.
  destruct (_ <=? MAX_PHRASE_LENGTH); [|apply IHc]. rewrite (IH fuel') by lia.
  destruct (walk_view _ _ _ fuel' _ _ _ _ _ _) as [[mid c]|e]; [apply IHc|done].
Qed.
End fuel.

#[local] Open Scope result_scope.

Section walk.
Context {D L : Type} `{DL : DecoderLaws D L d l}.
Context (ln : f64 -> f64) (penalty : f32).
Context (columns : list (list ScanKey)) (zeros : list bool) (bound : nat).
Context (constraints : option ConstraintStore).

#[local] Abbreviation offered := (offered (d:=d) columns zeros).

(** ** One step of a sentence *)

(** The dictionary reads an item for a token it offers for a path. *)
Definition spelled (p q : nat) (e : SpanEntry) : Prop :=
  exists keys tones item, offered p q keys tones (se_token e) /\
    trellis_item d keys tones (se_token e) = Ok (Some item) /\
    se_keys e = Z.of_nat (length keys) /\ se_chars e = item_chars item /\
    se_pronunciation e = item_pronunciation item.

(** The probability the model gives a branch of a step. *)
Definition priced (prev : Z) (e : SpanEntry) (branch : Branch) (probability : f64) : Prop :=
  exists row facts costs row' facts',
    nbest_item_costs_with_facts l prev (se_token e) (branch_item branch) row facts = Ok (costs, row', facts') /\
    float_lt (pronunciation_of e) F32_EPSILON = false /\
    branch_probability branch costs (pronunciation_of e) = Some probability.

(** The forced runs a step respects: none starts inside one, one that starts
    on one takes it whole, the others meet no inside of one. *)
Definition allowed (p q : nat) (token : Z) : Prop :=
  no_search constraints p = false /\
  match cell_at constraints p with
  | Some (OneStep forced end_ _) => token = forced /\ q = end_
  | _ => forall i, p < i <= q -> no_search constraints i = false
  end.

(** [v] at [q] is a step from [u] at [p]. *)
Definition steps_to (p q : nat) (u v : Value) : Prop :=
  p < q <= bound /\ (Z.of_nat p < SEED_STEP)%Z /\ exists e branch probability slot batch,
    spelled p q e /\ eligible e = true /\ allowed p q (se_token e) /\
    priced (v_token u) e branch probability /\
    v = step_value ln e (Z.of_nat p) (mk_beam u slot batch) probability.

(** ** Texts *)

Definition texts_fit (t : Trellis) : Prop := (Z.of_nat (length (t_text_keys t)) <= u32_max)%Z.

(** A token's text is read over a path that offered it. *)
Record texts_ok (t : Trellis) : Prop := {
  texts_same : length (t_text_keys t) = length (t_text_tones t);
  texts_path : forall token offset len, t_texts t !! token = Some (offset, len) ->
    exists p q keys tones, offered p q keys tones token /\
      subslice (t_text_keys t) (Z.to_nat offset) (Z.to_nat offset + Z.to_nat len) = Some keys /\
      subslice (t_text_tones t) (Z.to_nat offset) (Z.to_nat offset + Z.to_nat len) = Some tones
}.

(** ** What steps from a position may change *)

Record extends (p : nat) (t t' : Trellis) : Prop := {
  ext_len : length (t_steps t') = length (t_steps t);
  ext_shape : t_shape t' = t_shape t;
  ext_wf : trellis_wf t -> trellis_wf t';
  ext_past : forall q, q <= p -> t_steps t' !! q = t_steps t !! q;
  ext_values : trellis_wf t -> forall q v, values_at t' q v ->
    values_at t q v \/
    (is_Some (t_texts t' !! v_token v) /\ v_from v = Z.of_nat p /\ exists b, entry_in t p b /\
       steps_to p q (b_value b) v /\ v_prev v = v_token (b_value b) /\ v_sub v = b_slot b);
  ext_named : forall token, is_Some (t_texts t !! token) -> is_Some (t_texts t' !! token);
  ext_size : length (t_text_keys t) <= length (t_text_keys t');
  ext_texts : texts_fit t' -> texts_ok t -> texts_ok t'
}.

Lemma extends_refl p t : extends p t t.
Proof. split; auto. Qed.

Lemma entry_in_past p t t' b : t_steps t' !! p = t_steps t !! p -> entry_in t' p b -> entry_in t p b.
Proof. intros Hp (s & n & Hs & Hr). exists s, n. by rewrite <- Hp. Qed.

Lemma extends_trans p t t' t'' : extends p t t' -> extends p t' t'' -> extends p t t''.
Proof.
  intros [L1 S1 W1 P1 V1 N1 Z1 T1] [L2 S2 W2 P2 V2 N2 Z2 T2]. split; try congruence; auto.
  - intros q Hq. by rewrite P2, P1.
  - intros Hwf q v Hv. destruct (V2 (W1 Hwf) q v Hv) as [Hv'|(Hn & Hf & b & Hb & Hr)].
    + destruct (V1 Hwf q v Hv') as [H1|(Hn & Hr)]; [by left|right]. split; [by apply N2|done].
    + right. split; [done|]. split; [done|]. exists b. split; [|done].
      by apply (entry_in_past p t t'); [apply P1|].
  - lia.
  - intros Hf Ht. apply T2; [done|]. apply T1; [|done]. unfold texts_fit in *. lia.
Qed.

(** ** Entries, cells and memos *)

(** A priced slot: the entry, with the path it was priced on. *)
Definition entry_ok (paths : SpanPaths) (p q : nat) (e : SpanEntry) : Prop :=
  is_u32 (se_token e) /\ exists keys tones item, path_at paths (se_path e) keys tones /\
    offered p q keys tones (se_token e) /\
    trellis_item d keys tones (se_token e) = Ok (Some item) /\
    se_keys e = Z.of_nat (length keys) /\ se_chars e = item_chars item /\
    se_pronunciation e = item_pronunciation item.

Lemma entry_ok_spelled paths p q e : entry_ok paths p q e -> spelled p q e.
Proof. intros (_ & keys & tones & item & _ & H1). by exists keys, tones, item. Qed.

Lemma offered_length p q keys tones token :
  offered p q keys tones token -> 0 < length keys <= MAX_PHRASE_LENGTH /\ length tones = length keys.
Proof. intros (path & _ & Hl & -> & -> & _). by rewrite !length_fmap. Qed.

(** What the slots of a span stand for. *)
Definition slots_ok (its : list (Z * option LazySlot)) (paths : SpanPaths) (p q : nat) : Prop :=
  forall i token slot, its !! i = Some (token, Some slot) ->
    ls_cell slot = i /\ is_u32 token /\ exists keys tones,
      path_at paths (ls_path slot) keys tones /\ offered p q keys tones token.

Definition slot_at (its : list (Z * option LazySlot)) (token : Z) (slot : LazySlot) : Prop :=
  its !! ls_cell slot = Some (token, Some slot).

Record memory_ok (its : list (Z * option LazySlot)) (paths : SpanPaths) (p q : nat)
    (m : @Memory D _) : Prop := {
  mem_cells : forall i e token slot, m_cells m !! i = Some (Some (Some e)) ->
    its !! i = Some (token, Some slot) -> se_token e = token /\ entry_ok paths p q e;
  mem_memos : forall i memo keys tones, m_memos m !! i = Some memo ->
    path_at paths (Z.of_nat i) keys tones -> memo_ok keys tones memo;
  mem_facts : facts_ok (m_facts m)
}.

Lemma path_at_fun paths id keys tones keys' tones' :
  path_at paths id keys tones -> path_at paths id keys' tones' -> keys = keys' /\ tones = tones'.
Proof. intros (o & n & Hb & Hk & Ht) (o' & n' & Hb' & Hk' & Ht'). by simplify_eq. Qed.

Lemma read_item_ok its paths p q m id keys tones token item memos facts :
  memory_ok its paths p q m -> path_at paths id keys tones ->
  read_item d m keys tones (Z.to_nat id) token = Ok (item, memos, facts) ->
  trellis_item d keys tones token = Ok item /\ facts_ok facts /\
  forall i memo ks ts, memos !! i = Some memo -> path_at paths (Z.of_nat i) ks ts -> memo_ok ks ts memo.
Proof using DL.
  intros Hm Hpath. unfold read_item.
  assert (path_at paths (Z.of_nat (Z.to_nat id)) keys tones) as Hpath'.
  { destruct Hpath as (o & n & Hp). exists o, n. by rewrite Nat2Z.id. }
  destruct (m_memos m !! Z.to_nat id) as [memo|] eqn:Ememo.
  - destruct (trellis_item_with_facts _ _ _ _ _ _) as [[[it memo'] facts']|e] eqn:E; [|done].
    intros [= -> <- ->].
    pose proof (mem_memos _ _ _ _ _ Hm _ _ _ _ Ememo Hpath') as Hmemo.
    destruct (item_law _ _ _ _ _ _ _ _ Hmemo (mem_facts _ _ _ _ _ Hm) E) as (Hitem & Hmemo' & Hf').
    split; [done|]. split; [done|]. intros i memo0 ks ts Hi Hp.
    apply list_lookup_insert_Some in Hi as [(<- & <- & _)|[_ Hi]].
    + by destruct (path_at_fun _ _ _ _ _ _ Hp Hpath') as [-> ->].
    + by apply (mem_memos _ _ _ _ _ Hm i).
  - destruct (trellis_item d keys tones token) as [it|e] eqn:E; [|done].
    intros [= -> <- <-]. split; [done|]. split; [by apply Hm|by apply (mem_memos _ _ _ _ _ Hm)].
Qed.

Lemma price_ok its paths p q m slot token r m' :
  slots_ok its paths p q -> memory_ok its paths p q m -> slot_at its token slot ->
  price d paths m slot token = Ok (r, m') ->
  memory_ok its paths p q m' /\ forall e, r = Some e -> se_token e = token /\ entry_ok paths p q e.
Proof using DL.
  intros Hslots Hm Hslot.
  destruct (Hslots _ _ _ Hslot) as (_ & Htok & keys & tones & Hpath & Hoff).
  assert (forall r m', (try '(item, memos, facts) :=
      map_err dictionary_error (read_item d m keys tones (Z.to_nat (ls_path slot)) token) in
      let entry := item_entry token (ls_path slot) keys <$> item in
      Ok (entry, mk_memory (<[ls_cell slot := Some entry]> (m_cells m)) memos facts)) = Ok (r, m') ->
    memory_ok its paths p q m' /\ forall e, r = Some e -> se_token e = token /\ entry_ok paths p q e) as Hread.
  { clear r m'. intros r m'. destruct (read_item _ _ _ _ _ _) as [[[item memos] facts]|e] eqn:E; [|done].
    destruct (read_item_ok _ _ _ _ _ _ _ _ _ _ _ _ Hm Hpath E) as (Hitem & Hf & Hmem).
    intros [= <- <-].
    assert (forall e, item_entry token (ls_path slot) keys <$> item = Some e ->
      se_token e = token /\ entry_ok paths p q e) as He.
    { intros e (it & -> & ->)%fmap_Some. split; [done|]. split; [done|]. exists keys, tones, it.
      destruct (offered_length _ _ _ _ _ Hoff) as [[_ Hl] _]. unfold MAX_PHRASE_LENGTH in Hl.
      split_and!; try done. unfold item_entry, usize_as_u32, slot_of. cbn. apply Z.min_l. width_lia. }
    split; [|done]. split; [|done|done]. cbn [m_cells]. intros i e tok s Hi Hits.
    apply list_lookup_insert_Some in Hi as [(<- & [= Hi] & _)|[_ Hi]].
    - unfold slot_at in Hslot. rewrite Hslot in Hits. injection Hits as <- <-. by apply He.
    - by apply (mem_cells _ _ _ _ _ Hm i e tok s). }
  unfold price. rewrite (path_at_path _ _ _ _ Hpath).
  destruct (m_cells m !! ls_cell slot) as [[pr|]|] eqn:Ec; [|by apply Hread|by apply Hread].
  intros [= <- <-]. split; [done|]. intros e ->. by apply (mem_cells _ _ _ _ _ Hm _ e token slot Ec).
Qed.

(** ** One step *)

Record good (its : list (Z * option LazySlot)) (paths : SpanPaths) (p q : nat) (w : @Walk D _) : Prop := {
  good_memory : memory_ok its paths p q (w_memory w);
  good_wf : trellis_wf (w_trellis w)
}.

(** What an operation from [p] leaves of a good walk. *)
Definition proceeds its paths (p q : nat) (w w' : @Walk D _) : Prop :=
  good its paths p q w' /\ extends p (w_trellis w) (w_trellis w').

Lemma proceeds_trans its paths p q w w' w'' :
  proceeds its paths p q w w' -> proceeds its paths p q w' w'' -> proceeds its paths p q w w''.
Proof. intros [_ H1] [H2 H3]. split; [done|]. by eapply extends_trans. Qed.

Lemma proceeds_memory its paths p q w m :
  good its paths p q w -> memory_ok its paths p q m -> proceeds its paths p q w (set_memory w m).
Proof. intros [_ Hw] Hm. split; [by split|apply extends_refl]. Qed.

Lemma note_text_extends paths p q t e :
  entry_ok paths p q e -> extends p t (note_text t paths e) /\ is_Some (t_texts (note_text t paths e) !! se_token e).
Proof.
  intros (_ & keys & tones & item & Hpath & Hoff & _). unfold note_text.
  destruct (t_texts t !! se_token e) as [x|] eqn:E; [split; [apply extends_refl|by rewrite E]|].
  rewrite (path_at_path _ _ _ _ Hpath). cbn [t_texts]. split; [|by rewrite lookup_insert_eq].
  split; cbn [t_steps t_shape t_texts t_text_keys t_text_tones]; auto.
  - intros token Hs. destruct (decide (token = se_token e)) as [->|]; [by rewrite lookup_insert_eq|].
    by rewrite lookup_insert_ne.
  - rewrite length_app. lia.
  - unfold texts_fit. cbn [t_text_keys]. rewrite length_app. intros Hfit [Hs Hp].
    destruct (offered_length _ _ _ _ _ Hoff) as [_ Hl].
    split; cbn [t_texts t_text_keys t_text_tones]; [rewrite !length_app; lia|].
    assert (forall n, (Z.of_nat n <= u32_max)%Z -> usize_as_u32 n = Z.of_nat n) as Hu
      by (intros; unfold usize_as_u32, slot_of; lia).
    intros token o n. destruct (decide (token = se_token e)) as [->|Hne].
    + rewrite lookup_insert_eq, !Hu by lia. intros [= <- <-]. exists p, q, keys, tones.
      rewrite !Nat2Z.id. split; [done|]. split.
      * pose proof (subslice_middle (t_text_keys t) keys [] _ _ eq_refl eq_refl) as H1. by rewrite app_nil_r in H1.
      * pose proof (subslice_middle (t_text_tones t) tones [] _ _ eq_refl eq_refl) as H1. rewrite app_nil_r in H1.
        by rewrite Hs, <- Hl.
    + rewrite lookup_insert_ne by done. intros H1. destruct (Hp _ _ _ H1) as (p' & q' & k' & t' & Hoff' & Hk & Ht).
      exists p', q', k', t'. split; [done|]. split; by apply subslice_app.
Qed.

Lemma insert_extends p q t v b e branch probability :
  p < q <= bound -> (Z.of_nat p < SEED_STEP)%Z -> is_Some (t_texts t !! v_token v) ->
  spelled p q e -> eligible e = true -> allowed p q (se_token e) ->
  priced (v_token (b_value b)) e branch probability -> entry_in t p b ->
  v = step_value ln e (Z.of_nat p) b probability ->
  extends p t (insert penalty t q v).
Proof.
  intros Hpq Hp Hn Hs He Ha Hpr Hb ->. split; auto.
  - apply length_insert.
  - apply insert_wf.
  - intros i Hi. apply insert_other. lia.
  - intros Hwf i v Hv. apply insert_values in Hv as [[-> ->]|Hv]; [right|by left|done].
    split; [done|]. split; [done|]. exists b. split; [done|]. split; [|done].
    split; [done|]. split; [done|]. exists e, branch, probability, (b_slot b), (b_batch b).
    by split_and!.
  - intros _ [H1 H2]. by split.
Qed.

Lemma expand_one_ok its paths p q e b branch w w' :
  expand_one l ln penalty paths p q e b branch w = Ok w' ->
  good its paths p q w -> entry_ok paths p q e -> eligible e = true -> entry_in (w_trellis w) p b ->
  p < q <= bound -> allowed p q (se_token e) -> proceeds its paths p q w w'.
Proof using DL.
  intros Hw [Hm Hwf] He Hel Hb Hpq Ha. unfold expand_one in Hw.
  destruct (nbest_item_costs_with_facts _ _ _ _ _ _) as [[[costs row'] facts']|err] eqn:Ec; [|done].
  cbn [map_err] in Hw. cbn zeta in Hw.
  set (w1 := set_row (set_memory w (set_facts (w_memory w) facts')) (v_token (b_value b)) row') in Hw.
  assert (good its paths p q w1) as Hg1.
  { split; [|done]. destruct Hm as [H1 H2 H3]. split; [done|done|]. by eapply costs_law. }
  destruct (float_lt _ _) eqn:Elt.
  { injection Hw as <-. split; [done|apply extends_refl]. }
  destruct (branch_probability _ _ _) as [probability|] eqn:Ep.
  2: { injection Hw as <-. split; [done|apply extends_refl]. }
  destruct (Z.of_nat p <? SEED_STEP)%Z eqn:Es; [|done]. apply Z.ltb_lt in Es. injection Hw as <-.
  destruct (note_text_extends paths p q (w_trellis w) e He) as [Hn Hsome].
  cbn [w1 set_row set_memory w_trellis w_memory] in *.
  assert (extends p (note_text (w_trellis w) paths e)
    (insert penalty (note_text (w_trellis w) paths e) q (step_value ln e (Z.of_nat p) b probability))) as Hi.
  { apply (insert_extends p q _ _ b e branch probability); try done.
    - by eapply entry_ok_spelled.
    - by exists (row_of w (v_token (b_value b))), (m_facts (w_memory w)), costs, row', facts'.
    - apply (entry_in_past p _ (w_trellis w)); [|done]. symmetry. by apply (ext_past _ _ _ Hn). }
  pose proof (extends_trans _ _ _ _ Hn Hi) as Hx. split; [|done]. split; [apply Hg1|].
  by apply (ext_wf _ _ _ Hx).
Qed.

(** ** The steps of a span *)

Section span.
Context (its : list (Z * option LazySlot)) (ranges : PhraseIndexRanges LazySlot) (paths : SpanPaths).
Context (p q : nat).
Hypothesis Hranges : represents ranges its.
Hypothesis Hslots : slots_ok its paths p q.
Hypothesis Hallowed : forall i token slot, its !! i = Some (token, Some slot) -> allowed p q token.
Hypothesis Hpq : p < q <= bound.

Definition step_entry (e : SpanEntry) : Prop :=
  entry_ok paths p q e /\ eligible e = true /\ allowed p q (se_token e).

Lemma walk_slot token slot : (token, slot) ∈ walk_tokens ranges -> slot_at its token slot.
Proof using Hranges Hslots.
  rewrite (walk_tokens_by_library _ _ Hranges). unfold by_library.
  intros (lib & Hin & _)%list_elem_of_bind.
  apply list_elem_of_omap in Hin as ([tok [s|]] & Hin & Hf); [|done].
  unfold filled in Hf. cbn in Hf. injection Hf as -> ->.
  apply list_elem_of_filter in Hin as [_ (i & Hi)%list_elem_of_lookup].
  unfold slot_at. by destruct (Hslots _ _ _ Hi) as (-> & _).
Qed.

Lemma entry_slot range token slot :
  range ∈ iter ranges -> entry ranges range token = Some slot -> slot_at its token slot.
Proof using Hranges Hslots Hpq.
  intros Hr. pose proof (iter_ok _ _ Hranges) as Hok. rewrite Forall_forall in Hok.
  destruct (Hok _ Hr) as [Ho Hu Hs Ht]. unfold entry.
  destruct ((token <? first range)%Z) eqn:E1; [done|]. destruct ((last range <? token)%Z) eqn:E2; [done|].
  apply Z.ltb_ge in E1, E2. cbn [orb].
  specialize (Ht (Z.to_nat (token - first range)) ltac:(lia)).
  assert (checked_add (Z.to_nat (Ranges.slot range)) (Z.to_nat (token - first range)) =
    Some (Z.to_nat (Ranges.slot range) + Z.to_nat (token - first range))) as ->.
  { unfold checked_add. rewrite checked_usize_small by (unfold isize_max; width_lia). f_equal. lia. }
  cbn [mbind option_bind]. rewrite (rep_slots _ _ Hranges), list_lookup_fmap.
  rewrite list_lookup_fmap in Ht.
  destruct (its !! (Z.to_nat (Ranges.slot range) + Z.to_nat (token - first range))) as [[tok e]|] eqn:E; [|done].
  cbn in Ht |- *. injection Ht as ->. intros ->. unfold slot_at.
  destruct (Hslots _ _ _ E) as (-> & _). rewrite E. do 2 f_equal. lia.
Qed.

Lemma price_step m slot token r m' :
  memory_ok its paths p q m -> slot_at its token slot -> price d paths m slot token = Ok (r, m') ->
  memory_ok its paths p q m' /\
  (forall e, r = Some e -> se_token e = token /\ entry_ok paths p q e) /\
  forall e, eligible_entry r = Some e -> step_entry e.
Proof using All.
  intros Hm Hs Hp. destruct (price_ok _ _ _ _ _ _ _ _ _ Hslots Hm Hs Hp) as [Hm' He].
  split; [done|]. split; [done|]. intros e. destruct r as [e'|]; [|done]. cbn.
  destruct (eligible e') eqn:El; [|done]. intros [= ->]. destruct (He e eq_refl) as [Ht Hok].
  split; [done|]. split; [done|]. rewrite Ht. by eapply Hallowed.
Qed.

Lemma first_priced_ok m token r m' :
  memory_ok its paths p q m -> first_priced d ranges paths m token = Ok (r, m') ->
  memory_ok its paths p q m' /\
  forall e, r = Some e -> se_token e = token /\ entry_ok paths p q e /\ exists slot, slot_at its token slot.
Proof using DL Hranges Hslots Hpq.
  unfold first_priced. pose proof walk_slot as Hw. revert Hw. generalize (walk_tokens ranges) as walk.
  intros walk. revert m. induction walk as [|[ranged slot] walk IH]; intros m Hw Hm; cbn [first_priced_in].
  { by intros [= <- <-]. }
  assert (forall t s, (t, s) ∈ walk -> slot_at its t s) as Hw' by (intros t s Hin; apply Hw; by right).
  destruct (ranged =? token)%Z eqn:Et; [|by apply IH]. apply Z.eqb_eq in Et as ->.
  destruct (price d paths m slot token) as [[pr m1]|e] eqn:Ep; [|done].
  pose proof (Hw _ _ (list_elem_of_here _ _)) as Hs.
  destruct (price_ok _ _ _ _ _ _ _ _ _ Hslots Hm Hs Ep) as (Hm1 & H1).
  destruct pr as [e|]; [|by apply IH]. intros [= <- <-]. split; [done|]. intros e' [= <-].
  destruct (H1 e eq_refl) as [H2 H3]. split; [done|]. split; [done|]. by exists slot.
Qed.

Lemma first_priced_step m token r m' :
  memory_ok its paths p q m -> first_priced d ranges paths m token = Ok (r, m') ->
  memory_ok its paths p q m' /\ forall e, eligible_entry r = Some e -> step_entry e.
Proof using All.
  intros Hm Hf. destruct (first_priced_ok _ _ _ _ Hm Hf) as [Hm' He]. split; [done|].
  intros e. destruct r as [e'|]; [|done]. cbn. destruct (eligible e') eqn:El; [|done]. intros [= ->].
  destruct (He e eq_refl) as (Ht & Hok & slot & Hs). split; [done|]. split; [done|]. rewrite Ht. by eapply Hallowed.
Qed.

Lemma select_forced_ok walk token item m selected m' :
  (forall t s, (t, s) ∈ walk -> slot_at its t s) -> memory_ok its paths p q m ->
  select_forced d paths walk token item m = Ok (selected, m') ->
  memory_ok its paths p q m' /\ Forall (fun s => step_entry s.1) selected.
Proof using All.
  revert m selected m'. induction walk as [|[ranged slot] walk IH]; intros m selected m' Hw Hm; cbn [select_forced].
  { intros [= <- <-]. by split; [|constructor]. }
  assert (forall t s, (t, s) ∈ walk -> slot_at its t s) as Hw' by (intros t s Hin; apply Hw; by right).
  destruct (negb _); [by apply IH|].
  destruct (price d paths m slot ranged) as [[pr m1]|e] eqn:Ep; [|done].
  destruct (price_step _ _ _ _ _ Hm (Hw _ _ (list_elem_of_here _ _)) Ep) as (Hm1 & _ & H2).
  destruct (select_forced d paths walk token item m1) as [[sel m2]|e] eqn:Es; [|done].
  destruct (IH _ _ _ Hw' Hm1 Es) as [Hm2 Hsel]. intros [= <- <-]. split; [done|].
  destruct (eligible_entry pr) as [e|]; [constructor; [by apply H2|done]|done].
Qed.

Lemma select_items_ok range items total m selected m' :
  range ∈ iter ranges -> memory_ok its paths p q m ->
  select_items d ranges paths range items total m = Ok (selected, m') ->
  memory_ok its paths p q m' /\ Forall (fun s => step_entry s.1) selected.
Proof using All.
  intros Hr. revert m selected m'. induction items as [|[token freq] items IH]; intros m selected m' Hm;
    cbn [select_items].
  { intros [= <- <-]. by split; [|constructor]. }
  destruct (match entry ranges range token with Some slot => _ | None => _ end) as [[own m1]|e] eqn:Eo; [|done].
  assert (memory_ok its paths p q m1 /\ forall e, eligible_entry own = Some e -> step_entry e) as [Hm1 Ho].
  { destruct (entry ranges range token) as [slot|] eqn:Es; [|by simplify_eq].
    destruct (price_step _ _ _ _ _ Hm (entry_slot _ _ _ Hr Es) Eo) as (H1 & _ & H2). done. }
  destruct (match own with Some _ => _ | None => _ end) as [[found m2]|e] eqn:Ef; [|done].
  assert (memory_ok its paths p q m2 /\ forall e, eligible_entry found = Some e -> step_entry e) as [Hm2 Hf].
  { destruct own as [e|]; [by simplify_eq|]. by apply (first_priced_step _ _ _ _ Hm1 Ef). }
  destruct (select_items d ranges paths range items total m2) as [[sel m3]|e] eqn:Es; [|done].
  destruct (IH _ _ _ Hm2 Es) as [Hm3 Hsel]. intros [= <- <-]. split; [done|].
  destruct (eligible_entry found) as [e|]; [constructor; [by apply Hf|done]|done].
Qed.

Lemma select_ranges_ok prev gram rs m selected m' :
  rs ⊆ iter ranges -> memory_ok its paths p q m ->
  select_ranges d ranges paths prev gram rs m = Ok (selected, m') ->
  memory_ok its paths p q m' /\ Forall (fun s => step_entry s.1) selected.
Proof using All.
  revert m selected m'. induction rs as [|range rs IH]; intros m selected m' Hrs Hm; cbn [select_ranges].
  { intros [= <- <-]. by split; [|constructor]. }
  destruct (search_into gram (first range) (last range) []) as [items found].
  destruct (map_err _ found) as [searched|e]; [|done].
  destruct (match items with [] => _ | _ => _ end) as [[sel m1]|e] eqn:Ei; [|done].
  assert (memory_ok its paths p q m1 /\ Forall (fun s => step_entry s.1) sel) as [Hm1 Hsel].
  { destruct items as [|item items]; [by simplify_eq; split; [|constructor]|].
    destruct (map_err _ (total gram)) as [tot|e]; [|done].
    apply (select_items_ok range _ _ _ _ _ ltac:(apply Hrs; left) Hm Ei). }
  destruct (select_ranges d ranges paths prev gram rs m1) as [[sel' m2]|e] eqn:Es; [|done].
  destruct (IH _ _ _ ltac:(set_solver) Hm1 Es) as [Hm2 Hsel']. intros [= <- <-]. split; [done|].
  by apply Forall_app.
Qed.

Lemma select_steps_ok one_step prev successors m selected m' :
  memory_ok its paths p q m -> select_steps d ranges paths one_step prev successors m = Ok (selected, m') ->
  memory_ok its paths p q m' /\ forall sel, selected = Some sel -> Forall (fun s => step_entry s.1) sel.
Proof using All.
  intros Hm. unfold select_steps. destruct successors as [[gram|]|].
  - destruct (fault gram); [done|]. destruct one_step as [token|].
    + destruct (map_err _ (get_freq gram token)) as [[freq|]|e]; [| |done].
      * destruct (map_err _ (total gram)) as [tot|e]; [|done].
        destruct (select_forced _ _ _ _ _ _) as [[sel m1]|e] eqn:Es; [|done]. intros [= <- <-].
        destruct (select_forced_ok _ _ _ _ _ _ walk_slot Hm Es) as [H1 H2]. split; [done|]. by intros ? [= <-].
      * intros [= <- <-]. split; [done|]. intros ? [= <-]. constructor.
    + destruct (select_ranges _ _ _ _ _ _ _) as [[sel m1]|e] eqn:Es; [|done]. intros [= <- <-].
      destruct (select_ranges_ok _ _ _ _ _ _ (reflexivity _) Hm Es) as [H1 H2]. split; [done|]. by intros ? [= <-].
  - intros [= <- <-]. split; [done|]. intros ? [= <-]. constructor.
  - intros [= <- <-]. by split.
Qed.

(** ** Expansion *)

Definition beam_in (t : Trellis) (beam : list BeamEntry) : Prop := forall b, b ∈ beam -> entry_in t p b.

Lemma beam_in_extends t t' beam : extends p t t' -> beam_in t beam -> beam_in t' beam.
Proof using Type.
  intros Hx Hb b Hin. apply (entry_in_past p _ t); [|by apply Hb]. symmetry. by apply (ext_past _ _ _ Hx).
Qed.

Lemma step_entry_ok e b branch w w' :
  expand_one l ln penalty paths p q e b branch w = Ok w' -> good its paths p q w -> step_entry e ->
  entry_in (w_trellis w) p b -> proceeds its paths p q w w'.
Proof using All. intros Hw Hg (H1 & H2 & H3) Hb. by eapply expand_one_ok. Qed.

Lemma expand_selected_ok selected b w w' :
  expand_selected l ln penalty paths p q selected b w = Ok w' -> good its paths p q w ->
  Forall (fun s => step_entry s.1) selected -> entry_in (w_trellis w) p b -> proceeds its paths p q w w'.
Proof using All.
  revert w. induction selected as [|[e item] selected IH]; intros w; cbn [expand_selected].
  { intros [= <-] Hg _ _. split; [done|apply extends_refl]. }
  destruct (expand_one _ _ _ _ _ _ _ _ _ _) as [w1|err] eqn:E1; [|done].
  intros Hw Hg [He Hs]%Forall_cons Hb. pose proof (step_entry_ok _ _ _ _ _ E1 Hg He Hb) as [Hg1 Hx1].
  eapply proceeds_trans; [by split|]. apply IH; [done|done|done|].
  apply (entry_in_past p _ (w_trellis w)); [|done]. symmetry. by apply (ext_past _ _ _ Hx1).
Qed.

Lemma expand_walk_ok walk b branch w w' :
  expand_walk d l ln penalty paths p q walk b branch w = Ok w' -> good its paths p q w ->
  (forall t s, (t, s) ∈ walk -> slot_at its t s) -> entry_in (w_trellis w) p b -> proceeds its paths p q w w'.
Proof using All.
  revert w. induction walk as [|[token slot] walk IH]; intros w; cbn [expand_walk].
  { intros [= <-] Hg _ _. split; [done|apply extends_refl]. }
  destruct (price d paths (w_memory w) slot token) as [[pr m]|err] eqn:Ep; [|done].
  intros Hw Hg Hslot Hb.
  destruct (price_step _ _ _ _ _ (good_memory _ _ _ _ _ Hg) (Hslot _ _ (list_elem_of_here _ _)) Ep) as (Hm & _ & He).
  pose proof (proceeds_memory _ _ _ _ _ _ Hg Hm) as [Hg1 Hx1].
  destruct (match eligible_entry pr with Some _ => _ | None => _ end) as [w2|err] eqn:E2; [|done].
  assert (proceeds its paths p q (set_memory w m) w2) as [Hg2 Hx2].
  { destruct (eligible_entry pr) as [e|] eqn:Ee.
    - apply (step_entry_ok _ _ _ _ _ E2 Hg1 (He e eq_refl)). done.
    - injection E2 as <-. split; [done|apply extends_refl]. }
  eapply proceeds_trans; [split; [done|exact (extends_trans _ _ _ _ Hx1 Hx2)]|].
  apply IH; [done|done|intros t s Hin; apply Hslot; by right|].
  apply (entry_in_past p _ (w_trellis w)); [|done]. symmetry.
  by apply (ext_past _ _ _ (extends_trans _ _ _ _ Hx1 Hx2)).
Qed.

Lemma expand_predecessor_ok one_step b w w' :
  expand_predecessor d l ln penalty ranges paths p q one_step b w = Ok w' -> good its paths p q w ->
  entry_in (w_trellis w) p b -> proceeds its paths p q w w'.
Proof using All.
  unfold expand_predecessor. cbn zeta. intros Hw Hg Hb.
  destruct (nbest_successors_in_row _ _ _) as [[successors row]|err]; [|done]. cbn [map_err] in Hw.
  set (w1 := set_row w (v_token (b_value b)) row) in Hw.
  assert (good its paths p q w1) as Hg1 by (destruct Hg as [H1 H2]; by split).
  destruct (select_steps _ _ _ _ _ _ _) as [[selected m]|err] eqn:Es; [|done].
  destruct (select_steps_ok _ _ _ _ _ _ (good_memory _ _ _ _ _ Hg1) Es) as [Hm Hsel].
  pose proof (proceeds_memory _ _ _ _ _ _ Hg1 Hm) as Hp2. pose proof Hp2 as [Hg2 _].
  eapply (proceeds_trans _ _ _ _ w (set_memory w1 m)); [destruct Hp2 as [H1 H2]; by split|].
  destruct selected as [selected|].
  - apply (expand_selected_ok _ _ _ _ Hw Hg2); [by apply Hsel|done].
  - apply (expand_walk_ok _ _ _ _ _ Hw Hg2 walk_slot). done.
Qed.

Lemma expand_beam_ok one_step beam w w' :
  expand_beam d l ln penalty ranges paths p q one_step beam w = Ok w' -> good its paths p q w ->
  beam_in (w_trellis w) beam -> proceeds its paths p q w w'.
Proof using All.
  revert w. induction beam as [|b beam IH]; intros w; cbn [expand_beam].
  { intros [= <-] Hg _. split; [done|apply extends_refl]. }
  destruct (expand_predecessor _ _ _ _ _ _ _ _ _ _ _) as [w1|err] eqn:E1; [|done]. intros Hw Hg Hb.
  pose proof (expand_predecessor_ok _ _ _ _ E1 Hg (Hb _ (list_elem_of_here _ _))) as [Hg1 Hx1].
  eapply proceeds_trans; [by split|]. apply IH; [done|done|].
  apply (beam_in_extends _ _ _ Hx1). intros b' Hin. apply Hb. by right.
Qed.

(** All the steps of a span. *)
Lemma expand_entries_ok one_step beam w w' :
  expand_entries d l ln penalty ranges paths p q one_step beam w = Ok w' -> good its paths p q w ->
  beam_in (w_trellis w) beam -> proceeds its paths p q w w'.
Proof using All.
  unfold expand_entries. intros Hw Hg Hb.
  destruct (match one_step with None => _ | Some _ => _ end).
  { injection Hw as <-. split; [done|apply extends_refl]. }
  destruct (expand_beam _ _ _ _ _ _ _ _ _ _ _) as [w1|err] eqn:E1; [|done].
  pose proof (expand_beam_ok _ _ _ _ E1 Hg Hb) as Hp1. destruct beam as [|b beam]; [by injection Hw as <-|].
  eapply proceeds_trans; [exact Hp1|]. destruct Hp1 as [Hg1 Hx1].
  apply (expand_walk_ok _ _ _ _ _ Hw Hg1 walk_slot). apply (beam_in_extends _ _ _ Hx1 Hb). left.
Qed.
End span.
End walk.
