(* ===== verification/NbestSpec.v ===== *)
(** * NbestSpec: what a sentence decode answers

    The invariant of the decode loop: every value the trellis holds is linked,
    step by step, to a seed at the first position, through nodes the rest of
    the decode leaves alone. So the rows read back are whole sentences. *)

From Stdlib Require Import ZArith Lia Bool String Strings.Byte.
From stdpp Require Import base list gmap sorting.
From S2P Require Import Prelude ByteOrder Sorting MergedGram Ranges Vocab Ucs4 Graph Constraint ConstraintRuns Float Models Trellis NbestWalk ScanMatrix TableDictionary Nbest.
#[local] Open Scope result_scope.

Section decode.
Context {D L : Type} `{DL : DecoderLaws D L d l}.
Context (ln : f64 -> f64) (penalty : f32).
Context (columns : list (list ScanKey)) (zeros : list bool) (bound : nat).
Context (constraints : option ConstraintStore) (seeds : list Z) (shape : NbestShape).

#[local] Abbreviation steps_to := (steps_to (d:=d) (l:=l) ln columns zeros bound constraints).
#[local] Abbreviation extends := (extends (d:=d) (l:=l) ln columns zeros bound constraints).
#[local] Abbreviation allowed := (allowed constraints).

(** The searches of the parse stay below the widths of their indexes. *)
Definition spans_fit : Prop := forall p q r continued, p < q <= bound ->
  search d columns zeros p q SpanRanges_default = Ok (r, continued) -> span_fits r.

(** A sentence up to a position: its last value, its steps in order. *)
Inductive derives : nat -> Value -> list (nat * nat * Z) -> Prop :=
  | derives_seed token : token ∈ seeds -> derives 0 (value_seed token) []
  | derives_step p q u v steps :
      derives p u steps -> steps_to p q u v -> derives q v (steps ++ [(p, q, v_token v)]).

(** The same, with every predecessor where the trellis finds it, at
    positions before [pos]. *)
Inductive linked (t : Trellis) (pos : nat) : nat -> Value -> list (nat * nat * Z) -> Prop :=
  | linked_seed token : token ∈ seeds -> linked t pos 0 (value_seed token) []
  | linked_step p q u v steps :
      linked t pos p u steps -> p < pos -> v_from v = Z.of_nat p -> predecessor t v = Some u ->
      steps_to p q u v -> linked t pos q v (steps ++ [(p, q, v_token v)]).

Lemma linked_derives t pos q v steps : linked t pos q v steps -> derives q v steps.
Proof. induction 1; by econstructor. Qed.

Lemma predecessor_past t t' p v :
  v_from v = Z.of_nat p -> t_steps t' !! p = t_steps t !! p -> predecessor t' v = predecessor t v.
Proof. intros Hf Hp. unfold predecessor. by rewrite Hf, Nat2Z.id, Hp. Qed.

Lemma linked_past t t' pos pos' q v steps :
  pos <= pos' -> (forall p, p < pos -> t_steps t' !! p = t_steps t !! p) ->
  linked t pos q v steps -> linked t' pos' q v steps.
Proof.
  intros Hpos Hpast. induction 1 as [token Htok|p q u v steps _ IH Hp Hf Hpr Hs]; [by constructor|].
  econstructor; [exact IH|lia|done| |done]. rewrite <- Hpr. apply (predecessor_past _ _ p); [done|by apply Hpast].
Qed.

Lemma extract_linked t pos q v steps fuel :
  linked t pos q v steps -> length steps < fuel ->
  extract_loop fuel t v = rev ((fun s => (s.1.1, s.2)) <$> steps).
Proof.
  intros Hl. revert fuel. induction Hl as [token _|p q u v steps _ IH _ Hf Hpr Hs]; intros fuel Hfuel.
  - destruct fuel; [lia|]. done.
  - rewrite length_app in Hfuel. cbn in Hfuel. destruct fuel as [|fuel]; [lia|]. cbn [extract_loop].
    destruct Hs as (_ & Hseed & _). rewrite Hf, (proj2 (Z.eqb_neq _ _)) by (unfold SEED_STEP in *; lia).
    rewrite Hpr, IH by lia. rewrite fmap_app, rev_app_distr. cbn. by rewrite Nat2Z.id.
Qed.

Lemma derives_length q v steps : derives q v steps -> length steps <= q.
Proof. induction 1 as [|p q u v steps _ IH (Hpq & _)]; [done|]. rewrite length_app. cbn. lia. Qed.

(** ** The invariant *)

Record decode_ok (pos : nat) (t : Trellis) : Prop := {
  dec_len : length (t_steps t) = bound + 1;
  dec_shape : t_shape t = shape;
  dec_wf : trellis_wf t;
  dec_linked : forall q v, values_at t q v -> exists steps, linked t pos q v steps;
  dec_named : forall q v, values_at t q v -> q = 0 \/ is_Some (t_texts t !! v_token v);
  dec_texts : texts_fit t -> texts_ok (d:=d) columns zeros t
}.

Lemma seeds_ok : decode_ok 0 (with_seeds bound seeds shape).
Proof.
  destruct (with_seeds_spec bound seeds shape) as (Hwf & Hlen & Hv).
  split; [done|done|done| | |].
  - intros q v Hq. destruct (Hv q v Hq) as (-> & token & Htok & ->). exists []. by constructor.
  - intros q v Hq. left. by apply (Hv q v Hq).
  - intros _. split; [done|]. intros token o n. cbn. by rewrite lookup_empty.
Qed.

Lemma decode_extends pos t t' : decode_ok pos t -> extends pos t t' -> decode_ok (S pos) t'.
Proof.
  intros [Hl Hs Hw Hk Hn Ht] Hx. split.
  - by rewrite (ext_len _ _ _ _ _ _ _ _ Hx).
  - by rewrite (ext_shape _ _ _ _ _ _ _ _ Hx).
  - by apply (ext_wf _ _ _ _ _ _ _ _ Hx).
  - assert (forall q v steps, linked t pos q v steps -> linked t' (S pos) q v steps) as Hlift.
    { intros q v steps. apply linked_past; [lia|]. intros p Hp. apply (ext_past _ _ _ _ _ _ _ _ Hx). lia. }
    intros q v Hv. destruct (ext_values _ _ _ _ _ _ _ _ Hx Hw q v Hv) as [Hv'|(_ & Hf & b & Hb & Hs' & Hp & Hsub)].
    + destruct (Hk q v Hv') as (steps & Hst). exists steps. by apply Hlift.
    + destruct Hb as (s & n & Hst & Hn' & _ & Hval & Hh).
      destruct (Hk pos (b_value b) ltac:(by exists s)) as (steps & Hsteps).
      exists (steps ++ [(pos, q, v_token v)]). eapply linked_step; [by apply Hlift|lia|done| |done].
      unfold predecessor. rewrite Hf, Nat2Z.id, (ext_past _ _ _ _ _ _ _ _ Hx) by lia.
      rewrite Hst. cbn. rewrite Hp, Hn'. cbn. by rewrite Hsub.
  - intros q v Hv. destruct (ext_values _ _ _ _ _ _ _ _ Hx Hw q v Hv) as [Hv'|(Hn' & _)]; [|by right].
    destruct (Hn q v Hv') as [->|Hsome]; [by left|right]. by apply (ext_named _ _ _ _ _ _ _ _ Hx).
  - intros Hf. apply (ext_texts _ _ _ _ _ _ _ _ Hx Hf). apply Ht. unfold texts_fit in *.
    pose proof (ext_size _ _ _ _ _ _ _ _ Hx). lia.
Qed.

(** ** One position *)

Lemma found_ok p q r continued :
  spans_fit -> p < q <= bound -> search d columns zeros p q SpanRanges_default = Ok (r, continued) ->
  exists its, represents (sr_ranges r) its /\ slots_ok (d:=d) columns zeros its (sr_paths r) p q /\
    forall facts, facts_ok facts -> memory_ok (d:=d) (l:=l) columns zeros its (sr_paths r) p q (fresh_memory r facts).
Proof using DL.
  intros Hfit Hpq Hs. pose proof (search_ok columns zeros p q r continued Hs (Hfit _ _ _ _ Hpq Hs)) as [Hp Hm Hits].
  destruct Hits as (its & Hr & Hits). exists its. split; [done|]. split; [done|]. intros facts Hf. split; cbn.
  - intros i e token slot Hi. by apply lookup_replicate in Hi as [? _].
  - intros i memo keys tones Hi _. rewrite Hm in Hi. apply lookup_replicate in Hi as [-> _]. apply memo_default_ok.
  - done.
Qed.

Lemma expand_span_ok p q found continued beam s s' :
  spans_fit -> p < q <= bound -> (forall token, allowed p q token) ->
  search d columns zeros p q SpanRanges_default = Ok (found, continued) ->
  expand_span d l ln penalty found p q beam s = Ok s' ->
  facts_ok (sp_facts s) -> trellis_wf (sp_trellis s) -> beam_in p (sp_trellis s) beam ->
  facts_ok (sp_facts s') /\ extends p (sp_trellis s) (sp_trellis s').
Proof using DL.
  intros Hfit Hpq Ha Hs He Hf Hwf Hb. destruct (found_ok _ _ _ _ Hfit Hpq Hs) as (its & Hr & Hslots & Hmem).
  unfold expand_span in He.
  destruct (expand_entries _ _ _ _ _ _ _ _ _ _ _) as [w|err] eqn:Ew; [|done]. injection He as <-.
  destruct (expand_entries_ok ln penalty columns zeros bound constraints its _ _ p q Hr Hslots
    (fun _ token _ _ => Ha token) Hpq _ _ _ _ Ew) as [Hg Hx].
  - split; [by apply Hmem|done].
  - done.
  - split; [|done]. apply Hg.
Qed.

Lemma widen_ok p beam k n s s' :
  spans_fit -> p < k -> k + n = bound + 1 ->
  (forall token q, p < q -> (forall i, p < i <= q -> no_search constraints i = false) -> allowed p q token) ->
  (forall i, p < i < k -> no_search constraints i = false) ->
  widen_loop d l ln penalty columns zeros constraints (seq k n) p beam s = Ok s' ->
  facts_ok (sp_facts s) -> trellis_wf (sp_trellis s) -> beam_in p (sp_trellis s) beam ->
  facts_ok (sp_facts s') /\ extends p (sp_trellis s) (sp_trellis s').
Proof using DL.
  intros Hfit. revert k s. induction n as [|n IH]; intros k s Hk Hn Ha Hfree; cbn [seq widen_loop].
  { intros [= <-] Hf Hwf Hb. split; [done|apply extends_refl]. }
  destruct (no_search constraints k) eqn:Ek.
  { intros [= <-] Hf Hwf Hb. split; [done|apply extends_refl]. }
  destruct (search _ _ _ _ _ _) as [[found widening]|err] eqn:Es; [|done].
  destruct (expand_span _ _ _ _ _ _ _ _ _) as [s1|err] eqn:Ee; [|done]. intros Hw Hf Hwf Hb.
  assert (forall i, p < i <= k -> no_search constraints i = false) as Hfree'.
  { intros i Hi. destruct (decide (i = k)) as [->|]; [done|]. apply Hfree. lia. }
  destruct (expand_span_ok p k found widening beam s s1 Hfit ltac:(lia)
    (fun token => Ha token k Hk Hfree') Es Ee Hf Hwf Hb) as [Hf1 Hx1].
  destruct widening; [|by injection Hw as <-].
  destruct (IH (S k) s1) as [Hf2 Hx2]; [lia|lia|done| |done|done| | |].
  - intros i Hi. apply Hfree'. lia.
  - by apply (ext_wf _ _ _ _ _ _ _ _ Hx1).
  - intros b Hin. apply (entry_in_past p _ (sp_trellis s)); [symmetry; by apply (ext_past _ _ _ _ _ _ _ _ Hx1)|by apply Hb].
  - split; [done|]. by eapply extends_trans.
Qed.

(** A forced span: the one slot of the forced entry is priced already. *)
Lemma force_ok p q token text beam s s' :
  spans_fit -> no_search constraints p = false -> cell_at constraints p = Some (OneStep token q text) ->
  force_span d l ln penalty columns zeros bound p q token beam s = Ok s' ->
  facts_ok (sp_facts s) -> trellis_wf (sp_trellis s) -> beam_in p (sp_trellis s) beam ->
  facts_ok (sp_facts s') /\ extends p (sp_trellis s) (sp_trellis s').
Proof using DL.
  intros Hfit Hno Hcell. unfold force_span.
  destruct (_ && _) eqn:Epq; [|intros [= <-] Hf _ _; split; [done|apply extends_refl]].
  apply andb_true_iff in Epq as [E1%Nat.ltb_lt E2%Nat.leb_le]. assert (p < q <= bound) as Hpq by lia.
  destruct (search _ _ _ _ _ _) as [[found continued]|err] eqn:Es; [|done].
  destruct (first_priced _ _ _ _ _) as [[entry m]|err] eqn:Ef; [|done]. intros He Hf Hwf Hb.
  destruct (found_ok _ _ _ _ Hfit Hpq Es) as (its & Hr & Hslots & Hmem).
  pose proof (first_priced_ok columns zeros bound its _ _ p q Hr Hslots Hpq _ _ _ _ (Hmem _ Hf) Ef)
    as [Hm Hentry].
  destruct (_ =? 0).
  { injection He as <-. split; [by apply Hm|apply extends_refl]. }
  destruct (expand_entries _ _ _ _ _ _ _ _ _ _ _) as [w|err] eqn:Ew; [|done]. injection He as <-.
  set (fits_ := match entry with Some e => [(se_token e, Some (mk_lazy (se_path e) 0))] | None => [] end).
  assert (forall i tok slot, fits_ !! i = Some (tok, Some slot) -> i = 0 /\ exists e, entry = Some e /\
    tok = se_token e /\ slot = mk_lazy (se_path e) 0) as Hone.
  { intros i tok slot Hi. unfold fits_ in Hi. destruct entry as [e|]; [|discriminate].
    apply list_lookup_singleton_Some in Hi as [-> [= <- <-]]. split; [done|]. by exists e. }
  assert (represents (forced_ranges entry) fits_) as Hr'.
  { apply (convert_represents new_ranges _ []); [| |apply represents_new].
    - unfold fits_. destruct entry as [e|]; [|done]. apply Forall_singleton. cbn.
      destruct (Hentry e eq_refl) as (_ & (Hu & _) & _). exact Hu.
    - unfold fits_. destruct entry; cbn; width_lia. }
  destruct (expand_entries_ok ln penalty columns zeros bound constraints fits_ (forced_ranges entry)
    (sr_paths found) p q Hr') with (one_step := Some token) (beam := beam)
    (w := mk_walk (forced_memory entry m) (sp_rows s) (sp_trellis s)) (w' := w) as [Hg Hx]; try done.
  - intros i tok slot Hi. destruct (Hone _ _ _ Hi) as (-> & e & -> & -> & ->). cbn. split; [done|].
    destruct (Hentry e eq_refl) as (_ & (Hu & keys & tones & item & Hp & Ho & _) & _). split; [done|]. by exists keys, tones.
  - intros i tok slot Hi. destruct (Hone _ _ _ Hi) as (-> & e & -> & -> & _).
    split; [done|]. rewrite Hcell. by destruct (Hentry e eq_refl) as (-> & _).
  - split; [|done]. destruct Hm as [Hc Hmm Hff]. split; [|done|done]. cbn [forced_memory m_cells].
    intros i e tok slot Hi Hits. destruct (Hone _ _ _ Hits) as (-> & e' & -> & -> & _). cbn in Hi.
    injection Hi as <-. by destruct (Hentry e' eq_refl) as (_ & Hok & _).
  - split; [apply Hg|done].
Qed.

Lemma decode_step_ok p facts t facts' t' :
  spans_fit -> p < bound ->
  decode_step d l ln penalty columns zeros bound constraints p (facts, t) = Ok (facts', t') ->
  facts_ok facts -> trellis_wf t -> facts_ok facts' /\ extends p t t'.
Proof using DL.
  intros Hfit Hp. unfold decode_step.
  destruct (no_search constraints p) eqn:Eno; [intros [= <- <-] Hf _; split; [done|apply extends_refl]|].
  destruct (beam penalty t p) as [|b bs] eqn:Eb; [intros [= <- <-] Hf _; split; [done|apply extends_refl]|].
  rewrite <- Eb. intros Hs Hf Hwf.
  destruct (match cell_at constraints p with Some _ => _ | None => _ end) as [s|err] eqn:Es; [|done].
  injection Hs as <- <-.
  assert (beam_in p t (beam penalty t p)) as Hbeam by (intros b' Hb'; by eapply beam_entry_in).
  assert (forall c, cell_at constraints p = c -> (forall tok e x, c <> Some (OneStep tok e x)) ->
    widen_free_span d l ln penalty columns zeros bound constraints p (beam penalty t p) (mk_spans facts ∅ t) = Ok s ->
    facts_ok (sp_facts s) /\ extends p t (sp_trellis s)) as Hfree.
  { intros c Hc Hne Hw. apply (widen_ok p _ (p + 1) (bound - p) _ _ Hfit ltac:(lia) ltac:(lia)) in Hw; [done| |lia|done..].
    intros token q _ Hi. split; [done|]. rewrite Hc. destruct c as [[|tok e x|]|]; [exact Hi|by destruct (Hne tok e x)|exact Hi|exact Hi]. }
  destruct (cell_at constraints p) as [[|tok e x|]|] eqn:Ec.
  - apply (Hfree _ eq_refl); [intros; congruence|exact Es].
  - by apply (force_ok p e tok x _ _ _ Hfit Eno Ec Es).
  - apply (Hfree _ eq_refl); [intros; congruence|exact Es].
  - apply (Hfree _ eq_refl); [intros; congruence|exact Es].
Qed.

Lemma decode_loop_ok n k st facts' t' :
  spans_fit -> k + n = bound -> facts_ok st.1 -> decode_ok k st.2 ->
  decode_loop d l ln penalty columns zeros bound constraints (seq k n) st = Ok (facts', t') ->
  facts_ok facts' /\ decode_ok bound t'.
Proof using DL.
  intros Hfit. revert k st. induction n as [|n IH]; intros k [facts t] Hk Hf Ht; cbn [seq decode_loop].
  { intros [= <- <-]. by replace bound with k by lia. }
  destruct (decode_step _ _ _ _ _ _ _ _ _ _) as [[facts1 t1]|err] eqn:Es; [|done].
  destruct (decode_step_ok k _ _ _ _ Hfit ltac:(lia) Es Hf (dec_wf _ _ Ht)) as [Hf1 Hx1].
  apply IH; [lia|done|]. by eapply decode_extends.
Qed.

(** ** Forced runs *)

(** A run with an inside is a step of every sentence that gets past its
    start. *)
Lemma derives_forced st s e token text q v steps :
  constraints = Some st -> store_ok st -> (s, e, token, text) ∈ runs st ->
  s + 1 < e -> s + 1 < length (cells st) ->
  derives q v steps -> s < q -> (s, e, token) ∈ steps.
Proof.
  intros Hc Hok Hrun%elem_of_runs Hse Hlen Hd Hs.
  assert (cells st !! (s + 1) = Some (NoSearch s)) as Hin.
  { apply (ok_one_step _ Hok s token e text Hrun); lia. }
  assert (forall i, cell_at constraints i = cells st !! i) as Hcell by (intros i; by rewrite Hc).
  induction Hd as [token' _|p q u v steps _ IH Hst]; [lia|].
  apply elem_of_app. destruct (decide (s < p)) as [Hlt|Hge]; [left; by apply IH|right].
  apply list_elem_of_singleton.
  destruct Hst as (Hpq & _ & en & branch & pr & slot & batch & _ & _ & [Hno Hall] & _ & ->).
  rewrite Hcell in Hall. destruct (decide (p = s)) as [->|Hne].
  - rewrite Hrun in Hall. destruct Hall as [Ht ->]. cbn. by rewrite Ht.
  - destruct (cells st !! p) as [[|t' e' x'|s']|] eqn:Ep.
    2: { destruct Hall as [_ ->]. destruct (ok_one_step _ Hok p t' e' x' Ep) as [_ Hins].
         rewrite (Hins s) in Hrun; [done|lia|lia]. }
    all: specialize (Hall (s + 1) ltac:(lia)); unfold no_search in Hall; rewrite Hcell, Hin in Hall; done.
Qed.

(** ** Texts *)

(** The text the dictionary reads for a token over a path it offered it on. *)
Definition named (token : Z) (text : PhraseText) : Prop :=
  exists p q keys tones, offered (d:=d) columns zeros p q keys tones token /\
    trellis_text d keys tones token = Ok (Some text).

Definition cache_ok (cache : gmap Z (option PhraseText)) : Prop :=
  forall token text, cache !! token = Some (Some text) -> named token text.

Lemma token_text_ok t cache token facts r cache' facts' :
  texts_ok (d:=d) columns zeros t -> facts_ok facts -> cache_ok cache ->
  token_text t d cache token facts = Ok (r, cache', facts') ->
  facts_ok facts' /\ cache_ok cache' /\ cache ⊆ cache' /\ cache' !! token = Some r.
Proof using DL.
  intros Ht Hf Hc. unfold token_text. destruct (cache !! token) as [text|] eqn:Ec.
  { by intros [= <- <- <-]. }
  assert (forall r facts', facts_ok facts' -> (forall text, r = Some text -> named token text) ->
    facts_ok facts' /\ cache_ok (<[token := r]> cache) /\ cache ⊆ <[token := r]> cache /\
    <[token := r]> cache !! token = Some r) as Hdone.
  { intros r0 f0 Hf0 Hr0. split; [done|]. split; [|split; [by apply insert_subseteq|by rewrite lookup_insert_eq]].
    intros tok text. destruct (decide (tok = token)) as [->|Hne].
    - rewrite lookup_insert_eq. intros [= ->]. by apply Hr0.
    - rewrite lookup_insert_ne by done. apply Hc. }
  destruct (t_texts t !! token) as [[offset len]|] eqn:Et.
  - destruct (texts_path _ _ _ Ht _ _ _ Et) as (p & q & keys & tones & Hoff & Hk & Hto). rewrite Hk, Hto.
    destruct (trellis_text_with_facts _ _ _ _ _) as [[text f]|e] eqn:Ex; [|done]. intros [= <- <- <-].
    destruct (text_law _ _ _ _ _ _ Hf Ex) as [Hx Hf']. apply Hdone; [done|].
    intros text' ->. by exists p, q, keys, tones.
  - intros [= <- <- <-]. by apply Hdone.
Qed.

Lemma text_loop_ok t spans text cache facts r cache' facts' :
  texts_ok (d:=d) columns zeros t -> facts_ok facts -> cache_ok cache ->
  text_loop t d spans text cache facts = Ok (r, cache', facts') ->
  facts_ok facts' /\ cache_ok cache' /\ cache ⊆ cache' /\
  forall whole, r = Some whole -> exists parts,
    Forall2 (fun span part => cache' !! span.2 = Some (Some part)) spans parts /\
    whole = concat_finish (fold_left concat_push parts text).
Proof using DL.
  intros Ht. revert text cache facts. induction spans as [|[start token] spans IH]; intros text cache facts Hf Hc;
    cbn [text_loop].
  { intros [= <- <- <-]. split; [done|]. split; [done|]. split; [done|]. intros whole [= <-].
    exists []. by split; [constructor|]. }
  destruct (token_text _ _ _ _ _) as [[[part cache1] facts1]|e] eqn:E1; [|done].
  destruct (token_text_ok _ _ _ _ _ _ _ Ht Hf Hc E1) as (Hf1 & Hc1 & Hsub1 & Hpart).
  destruct part as [part|]; [|by intros [= <- <- <-]].
  intros Hloop. destruct (IH _ _ _ Hf1 Hc1 Hloop) as (Hf2 & Hc2 & Hsub2 & Hw).
  split; [done|]. split; [done|]. split; [by etrans|]. intros whole Hwh.
  destruct (Hw whole Hwh) as (parts & Hparts & ->). exists (part :: parts). split; [|done].
  constructor; [|done]. cbn. by eapply lookup_weaken.
Qed.

(** ** Rows *)

(** A whole sentence: from a seed to the bound, with its texts and score. *)
Definition sentence (row : NbestRow) (steps : list (nat * nat * Z)) : Prop :=
  exists v, derives bound v steps /\
    (fun s => (span_start s, span_token s)) <$> row_spans row = (fun s => (s.1.1, s.2)) <$> steps /\
    row_tokens row = snd <$> steps /\
    Forall (fun s => named (span_token s) (span_text s)) (row_spans row) /\
    row_text row = concat_parts (span_text <$> row_spans row) /\ is_empty (row_text row) = false /\
    row_keys row = v_keys v /\ row_poss row = Some (v_poss v) /\ row_span row = bound /\ row_cost row = 0%Z.

Lemma phrase_spans cache spans parts phrase_spans :
  Forall2 (fun span part => cache !! span.2 = Some (Some part)) spans parts ->
  mapM (phrase_span cache) spans = Some phrase_spans ->
  (fun s => (span_start s, span_token s)) <$> phrase_spans = spans /\
  span_text <$> phrase_spans = parts /\
  Forall (fun s => cache !! span_token s = Some (Some (span_text s))) phrase_spans.
Proof.
  intros Hp Hm%mapM_Some. revert parts Hp. induction Hm as [|[start token] s spans ss Hs _ IH]; intros parts Hp.
  { apply Forall2_nil_inv_l in Hp as ->. by split; [|split; [|constructor]]. }
  apply Forall2_cons_inv_l in Hp as (part & parts' & Hpart & Hp & ->).
  destruct (IH _ Hp) as (H1 & H2 & H3). unfold phrase_span in Hs. cbn [fst snd] in *.
  rewrite Hpart in Hs. cbn in Hs. injection Hs as <-. rewrite !fmap_cons, H1, H2. split; [done|].
  split; [done|]. by constructor.
Qed.

Lemma rows_loop_ok t tails cache facts rows :
  decode_ok bound t -> texts_fit t -> (forall v, v ∈ tails -> values_at t bound v) ->
  facts_ok facts -> cache_ok cache -> rows_loop d tails bound t cache facts = Ok rows ->
  Forall (fun row => exists steps, sentence row steps) rows /\ sublist (row_poss <$> rows) ((fun v => Some (v_poss v)) <$> tails).
Proof using DL.
  intros Ht Hfit. pose proof (dec_texts _ _ Ht Hfit) as Htx. revert cache facts rows.
  induction tails as [|v tails IH]; intros cache facts rows Hv Hf Hc; cbn [rows_loop].
  { intros [= <-]. split; [constructor|constructor]. }
  destruct (spans_text _ _ _ _ _) as [[[text cache1] facts1]|e] eqn:E1; [|done].
  destruct (text_loop_ok _ _ _ _ _ _ _ _ Htx Hf Hc E1) as (Hf1 & Hc1 & _ & Hwhole).
  destruct (rows_loop _ _ _ _ _ _) as [rest|e] eqn:E2; [|done].
  destruct (IH cache1 facts1 rest (fun u Hu => Hv u (list_elem_of_further _ _ _ Hu)) Hf1 Hc1 E2) as [Hrest Hsub].
  assert (Forall (fun row => exists steps, sentence row steps) rest /\ sublist (row_poss <$> rest) ((fun v => Some (v_poss v)) <$> (v :: tails))) as Hskip
    by (split; [done|by constructor]).
  destruct text as [text|]; [|by intros [= <-]].
  destruct (is_empty text) eqn:Ee; [by intros [= <-]|].
  destruct (mapM _ _) as [ss|] eqn:Em; [|by intros [= <-]]. intros [= <-].
  destruct (Hwhole text eq_refl) as (parts & Hparts & Htext).
  destruct (phrase_spans _ _ _ _ Hparts Em) as (Hspans & Htexts & Hcache).
  split; [|by constructor]. constructor; [|done].
  destruct (dec_linked _ _ Ht bound v (Hv v (list_elem_of_here _ _))) as (steps & Hl).
  assert (extract t v = (fun s => (s.1.1, s.2)) <$> steps) as Hex.
  { unfold extract. rewrite (extract_linked t bound bound v steps) by
      (done || (pose proof (derives_length _ _ _ (linked_derives _ _ _ _ _ Hl)); rewrite (dec_len _ _ Ht); lia)).
    apply rev_involutive. }
  rewrite Hex in Hspans. exists steps, v. cbn [row_text row_spans row_tokens row_keys row_poss row_span row_cost].
  split_and!; try done; [by eapply linked_derives| | |].
  - assert (snd <$> ((fun s => (span_start s, span_token s)) <$> ss) = span_token <$> ss) as <-
      by (rewrite <- list_fmap_compose; by apply list_fmap_ext).
    rewrite Hspans, <- list_fmap_compose. by apply list_fmap_ext.
  - apply (Forall_impl _ _ _ Hcache). intros s. apply Hc1.
  - by rewrite Htexts.
Qed.
End decode.

(** ** C40 *)

Lemma sorted_sublist {A} (R : A -> A -> Prop) (l k : list A) :
  sublist l k -> StronglySorted R k -> StronglySorted R l.
Proof.
  induction 1 as [|x l k Hs IH|x l k _ IH]; intros Hk; [constructor| |].
  - apply StronglySorted_inv in Hk as [Hk Hx]. constructor; [by apply IH|].
    rewrite Forall_forall in Hx |- *. intros y Hy. apply Hx. by eapply elem_of_sublist.
  - apply IH. by apply StronglySorted_inv in Hk as [Hk _].
Qed.

(** A row's score is no worse than a later row's. *)
Definition no_worse (r r' : option f32) : Prop :=
  forall x y, r = Some x -> r' = Some y -> ordered_poss_compare x y <> Gt.

Lemma tails_sorted penalty t : StronglySorted no_worse ((fun v => Some (v_poss v)) <$> tails penalty t).
Proof.
  pose proof (sort_by_sorted (fun u v => ordered_poss_compare (v_poss u) (v_poss v))
    (fun v => poss_key (v_poss v)) (fun u v => ordered_poss_compare_key _ _)
    (b_value <$> select_top penalty (candidates t (length (t_steps t) - 1)) (nbest (t_shape t)) (nstore (t_shape t))))
    as Hs.
  change (sort_by _ _) with (tails penalty t) in Hs.
  induction Hs as [|v vs _ IH Hv]; [constructor|]. rewrite fmap_cons. constructor; [done|].
  apply Forall_fmap, (Forall_impl _ _ _ Hv). intros u Hu x y [= <-] [= <-]. cbn in Hu |- *.
  by rewrite ordered_poss_compare_key.
Qed.

(** C40. Every row a sentence decode answers is a whole sentence: phrases
    one after another from position zero to the bound, each offered by the
    dictionary for the keys of a matrix path over its span, with a readable
    item of nonzero possibility, respecting the forced runs, scored step by
    step by the model from a seed, its text the dictionary's texts joined.
    Every forced run with an inside is one of its steps. There are at most as
    many rows as the shape asks for, best first. *)
Theorem decoded_sentences {D L} `{DL : DecoderLaws D L d l} (ln : f64 -> f64) (penalty : f32)
    (input : GenerationInput) (seeds : list Z) (constraints : option ConstraintStore) (shape : NbestShape)
    (rows : list NbestRow) :
  let view := generation_view input in
  let bound := gi_bound input in
  spans_fit (d:=d) (pm_columns view) (pm_zeros view) bound ->
  (forall facts t, decode_trellis d l ln penalty input seeds constraints shape = Ok (facts, t) -> texts_fit t) ->
  nbest_sentences_with_seeds_generation d l ln penalty input seeds constraints shape = Ok rows ->
  length rows <= nbest shape /\ StronglySorted no_worse (row_poss <$> rows) /\
  Forall (fun row => exists steps,
    sentence (d:=d) (l:=l) ln (pm_columns view) (pm_zeros view) bound constraints seeds row steps /\
    forall st s e token text, constraints = Some st -> store_ok st -> (s, e, token, text) ∈ runs st ->
      s + 1 < e -> s + 1 < length (cells st) -> s < bound -> (s, e, token) ∈ steps) rows.
Proof.
  intros view bound Hspans Htexts. unfold nbest_sentences_with_seeds_generation.
  destruct (decode_trellis _ _ _ _ _ _ _ _) as [[facts t]|err] eqn:Et; [|done]. intros Hrows.
  specialize (Htexts facts t eq_refl).
  assert (facts_ok facts /\ decode_ok (d:=d) (l:=l) ln (pm_columns view) (pm_zeros view) bound constraints seeds
    shape bound t) as [Hf Ht].
  { apply (decode_loop_ok (d:=d) (l:=l) ln penalty (pm_columns view) (pm_zeros view) bound constraints seeds shape
      bound 0 (SentenceFacts_default, with_seeds bound seeds shape)); [done|lia|apply facts_default_ok| |done].
    apply seeds_ok. }
  destruct (rows_loop_ok ln (pm_columns view) (pm_zeros view) bound constraints seeds shape t (tails penalty t) ∅
    facts rows Ht Htexts) as [Hall Hsub]; [|done| |done|].
  { intros v Hv. apply tails_values in Hv; [|by apply Ht]. rewrite (dec_len _ _ _ _ _ _ _ _ _ Ht) in Hv.
    by replace (bound + 1 - 1) with bound in Hv by lia. }
  { intros token text. by rewrite lookup_empty. }
  split_and!.
  - pose proof (sublist_length _ _ Hsub) as Hl. rewrite !length_fmap in Hl.
    pose proof (length_tails penalty t). rewrite (dec_shape _ _ _ _ _ _ _ _ _ Ht) in *. lia.
  - by eapply sorted_sublist, tails_sorted.
  - apply (Forall_impl _ _ _ Hall). intros row (steps & Hs). exists steps. split; [done|].
    intros st s e token text Hc Hok Hrun Hse Hlen Hsb. destruct Hs as (v & Hd & _).
    by eapply derives_forced.
Qed.

(** ** A model from rows *)

Section table.
(** A row is a total and its items; every token has one unigram. *)
Record row_model : Type := { model_rows : gmap Z MergedGram; model_unigram : f64 }.

Definition f64_ratio (n m : Z) : f64 := SpecFloat.SFdiv 53 1024 (f64_from (int_as_f32 n)) (f64_from (int_as_f32 m)).

#[export] Instance row_language_model : LanguageModel row_model := {
  ModelError := unit;
  model_message := fun _ => [];
  is_read_after_check := fun _ _ => false;
  score := fun _ _ _ edge_cost => Ok edge_cost;
  begin_successor_span := fun _ row => row;
  nbest_successors_in_row := fun m prev row =>
    Ok (Some match model_rows m !! prev with Some gram => Row gram | None => Miss end, row);
  nbest_item_costs_with_facts := fun m prev token item row facts =>
    Ok (mk_costs match item with Some (freq, total) => Some (f64_ratio freq total) | None => None end
          (Some (model_unigram m)) f32_one, row, facts)
}.

#[export] Instance table_laws (d : table) (m : row_model) :
  TCEq (forallb (fun p => (0 <=? entry_token p.2)%Z && (entry_token p.2 <? u32_size)%Z) d
        && (Z.of_nat (length d) <=? u32_max)%Z) true ->
  DecoderLaws table row_model d m.
Proof.
  intros [Hu Hl]%TCEq_eq%andb_true_iff. apply Z.leb_le in Hl.
  refine {| memo_ok := fun _ _ _ => True; facts_ok := fun _ => True |}; try done.
  - intros keys tones ranges more. cbn. unfold default_ranges_continued, trellis_ranges, trellis_records, table_lookup.
    set (entries := omap _ d). intros [= <- _].
    assert (length entries <= length d) as Hlen.
    { unfold entries. clear. induction d as [|p d IH]; [done|]. cbn. case_decide; cbn; lia. }
    exists ((fun e => (entry_token e, Some tt)) <$> entries).
    assert (Forall (fun it : Z * option unit => is_u32 it.1) ((fun e => (entry_token e, Some tt)) <$> entries)) as Hf.
    { apply Forall_fmap, Forall_forall. intros e (p & Hp & He)%list_elem_of_omap.
      rewrite forallb_forall in Hu. apply list_elem_of_In in Hp. specialize (Hu p Hp).
      case_decide; [|done]. injection He as <-. cbn. unfold is_u32. lia. }
    split; [|done]. apply (convert_represents new_ranges _ []); [done| |apply represents_new].
    rewrite length_fmap. cbn. lia.
  - intros keys tones token memo facts item memo' facts' _ _. cbn.
    unfold default_item_with_facts, default_item_on_path, default_item, trellis_records, table_lookup.
    by intros [= <- _ _].
  - intros keys tones token facts text facts' _. cbn.
    unfold default_text_with_facts, default_text, trellis_records, table_lookup. by intros [= <- _].
Defined.
End table.

Definition sample_model : row_model :=
  {| model_rows := {[ 1%Z := new 4 [(16777218%Z, 3%Z)] ]};
     model_unigram := f64_ratio 1 8 |}.

Definition sample_ln (x : f64) : f64 := f64_add x (f64_ratio (-1) 1).
Definition sample_penalty : f32 := f32_div (int_as_f32 1) (int_as_f32 5).

Definition sample_input : GenerationInput :=
  {| gi_matrix := [[scan_of "ni" 0 2]; []; [scan_of "hao" 2 5]; []; []; []];
     gi_bound := 5; gi_physical := true; gi_topology := None |}.

Definition sample_rows (constraints : option ConstraintStore) : option (list (list Z)) :=
  match nbest_sentences_with_seeds_generation sample_table sample_model sample_ln sample_penalty
          sample_input [SENTENCE_START] constraints PINYIN with
  | Ok rows => Some (row_tokens <$> rows)
  | Err _ => None
  end.

(** The first two bytes forced to one character. *)
Definition sample_forced : ConstraintStore :=
  match Constraint.add (store_resize store_new 6) 0 2 16777218 (char_text 23612) with
  | Some (s, _) => s
  | None => store_new
  end.

Lemma one_run_ok t x : store_ok {| cells := [OneStep t 2 x; NoSearch 0; Free; Free; Free; Free] |}.
Proof.
  split; cbn [cells].
  - intros [|[|[|[|[|[|i]]]]]] t' e x' Hi; try discriminate. injection Hi as <- <- <-.
    split; [lia|]. intros j Hj _. by replace j with 1 by lia.
  - intros [|[|[|[|[|[|i]]]]]] s Hi; try discriminate. injection Hi as <-.
    split; [lia|]. exists t, 2, x. split; [done|lia].
Qed.

Definition span_fits_b (p q : nat) : bool :=
  match search sample_table (gi_matrix sample_input) (pm_zeros (generation_view sample_input)) p q
          SpanRanges_default with
  | Ok (r, _) => (Z.of_nat (span_size r) <=? u32_max)%Z
  | Err _ => true
  end.

Definition texts_fit_b : bool :=
  match decode_trellis sample_table sample_model sample_ln sample_penalty sample_input [SENTENCE_START]
          (Some sample_forced) PINYIN with
  | Ok (_, t) => (Z.of_nat (length (t_text_keys t)) <=? u32_max)%Z
  | Err _ => true
  end.

Lemma decoded_sentences_witness :
  match nbest_sentences_with_seeds_generation sample_table sample_model sample_ln sample_penalty
          sample_input [SENTENCE_START] (Some sample_forced) PINYIN with
  | Ok rows =>
      row_tokens <$> rows = [[16777218; 16777219]]%Z /\
      Forall (fun row => exists steps,
        sentence (d:=sample_table) (l:=sample_model) sample_ln (gi_matrix sample_input)
          (pm_zeros (generation_view sample_input)) 5 (Some sample_forced) [SENTENCE_START] row steps /\
        (0, 2, 16777218%Z) ∈ steps) rows
  | Err _ => False
  end.
Proof.
  assert (sample_rows (Some sample_forced) = Some [[16777218; 16777219]]%Z) as Hsample by (vm_compute; reflexivity).
  unfold sample_rows in Hsample.
  destruct (nbest_sentences_with_seeds_generation _ _ _ _ _ _ _ _) as [rows|e] eqn:E; [|discriminate].
  split; [by injection Hsample|].
  destruct (decoded_sentences (d:=sample_table) (l:=sample_model) sample_ln sample_penalty sample_input
    [SENTENCE_START] (Some sample_forced) PINYIN rows) as (_ & _ & H); [| |exact E|].
  - intros p q r c Hpq Hs. assert (forallb (fun p => forallb (span_fits_b p) (seq 0 6)) (seq 0 6) = true) as Hb
      by (vm_compute; reflexivity).
    assert (q <= 5) as Hq by apply Hpq. apply (forallb_seq _ 6 p) in Hb; [|lia].
    apply (forallb_seq _ 6 q) in Hb; [|lia]. unfold span_fits_b in Hb. unfold span_fits.
    change (gi_matrix sample_input) with (pm_columns (generation_view sample_input)) in Hb.
    rewrite Hs in Hb. by apply Z.leb_le.
  - intros facts t Ht. assert (texts_fit_b = true) as Hb by (vm_compute; reflexivity).
    unfold texts_fit_b in Hb. rewrite Ht in Hb. by apply Z.leb_le.
  - apply (Forall_impl _ _ _ H). intros row (steps & Hs & Hr). exists steps. split; [exact Hs|].
    apply (Hr sample_forced 0 2 16777218%Z (char_text 23612) eq_refl).
    + exact (one_run_ok 16777218 (char_text 23612)).
    + vm_compute. by left.
    + lia.
    + vm_compute. lia.
    + cbn. lia.
Defined.
