(* ===== verification/SessionState.v ===== *)
(** * SessionState: what a session keeps, and the record of a selection

    [SessionState] and its parts, of [crates/oxpinyin-engine/src/session]:
    [InputBuffer] of [buffer.rs] with its four caches, [SelectionRecord] of
    [record.rs], [SentenceState] of [sentence.rs], [Lookup] and the settings
    of [mod.rs]. A string is its bytes. A session operation takes the state
    and answers the new one and a result, which an error leaves as it found
    it at that moment; [None] is a panic. *)

From Stdlib Require Import ZArith Lia Bool Strings.Byte.
From stdpp Require Import base list.
From S2P Require Import Prelude Options Vocab Ucs4 Constraint Graph Models Scoring Ranking ScanMatrix Trellis Nbest Cursor.

(** ** Strings *)

(** A byte that does not start a character. *)
Definition continues (b : byte) : bool := in_range 128 191 b.

Definition is_char_boundary (s : bytes) (index : nat) : bool :=
  (index =? 0) || (index =? length s)
  || match s !! index with Some b => negb (continues b) | None => false end.

(** The last character boundary up to an index, and the first from one. *)
Fixpoint floor_boundary (s : bytes) (index : nat) : nat :=
  match index with
  | O => 0
  | S i => if is_char_boundary s index then index else floor_boundary s i
  end.

Fixpoint ceil_boundary (s : bytes) (fuel index : nat) : nat :=
  match fuel with
  | O => index
  | S fuel => if is_char_boundary s index then index else ceil_boundary s fuel (S index)
  end.

(** [str::get] of a range, and the slice that panics. *)
Definition str_get (s : bytes) (from to : nat) : option bytes :=
  if (from <=? to) && is_char_boundary s from && is_char_boundary s to
  then Some (take (to - from) (drop from s)) else None.

Definition str_from (s : bytes) (from : nat) : option bytes := str_get s from (length s).

Definition continuation_bits (b : byte) : Z := (byte_val b - 128)%Z.

(** The characters of well-formed text. *)
Fixpoint str_chars (s : bytes) : list Z :=
  match s with
  | [] => []
  | b0 :: r0 =>
      if in_range 0 127 b0 then byte_val b0 :: str_chars r0
      else
        match r0 with
        | [] => []
        | b1 :: r1 =>
            if in_range 194 223 b0
            then ((byte_val b0 - 192) * 64 + continuation_bits b1)%Z :: str_chars r1
            else
              match r1 with
              | [] => []
              | b2 :: r2 =>
                  if in_range 224 239 b0
                  then ((byte_val b0 - 224) * 4096 + continuation_bits b1 * 64 + continuation_bits b2)%Z :: str_chars r2
                  else
                    match r2 with
                    | [] => []
                    | b3 :: r3 =>
                        ((byte_val b0 - 240) * 262144 + continuation_bits b1 * 4096
                         + continuation_bits b2 * 64 + continuation_bits b3)%Z :: str_chars r3
                    end
              end
        end
  end.

(** [PhraseText::from] a string. *)
Definition str_text (s : bytes) : PhraseText := from_str (str_chars s).

(** ** The input *)

Record SelectedPath : Type := mk_selected { sp_edges : list Edge; sp_parsed_len : nat }.
Record RetainedParse : Type := mk_retained { rp_scan : list (list ScanKey); rp_matrix : ParsedMatrix }.

Record InputBuffer : Type := mk_input_buffer {
  raw : bytes;
  graph_cache : option SegmentGraph;
  selected_cache : option SelectedPath;
  parse_cache : option RetainedParse;
  keys_cache : option (list MatrixKey * nat);
  formatting_separators : bool;
  exact : list ExactSegment;
  parsed_full_pinyin : bool
}.

Definition buffer_default : InputBuffer := mk_input_buffer [] None None None None false [] false.

Definition with_raw (b : InputBuffer) (s : bytes) : InputBuffer :=
  mk_input_buffer s (graph_cache b) (selected_cache b) (parse_cache b) (keys_cache b)
    (formatting_separators b) (exact b) (parsed_full_pinyin b).

(** The fields a parse is read under. *)
Definition with_mode (b : InputBuffer) (formatting : bool) (segments : list ExactSegment) (full : bool) : InputBuffer :=
  mk_input_buffer (raw b) (graph_cache b) (selected_cache b) (parse_cache b) (keys_cache b) formatting segments full.

Definition with_caches (b : InputBuffer) (graph : option SegmentGraph) (selected : option SelectedPath)
    (parse : option RetainedParse) (keys : option (list MatrixKey * nat)) : InputBuffer :=
  mk_input_buffer (raw b) graph selected parse keys (formatting_separators b) (exact b) (parsed_full_pinyin b).

Definition invalidate_topology (b : InputBuffer) : InputBuffer :=
  with_caches b (graph_cache b) (selected_cache b) None None.

Definition invalidate (b : InputBuffer) : InputBuffer := invalidate_topology (with_caches b None None (parse_cache b) (keys_cache b)).

Definition full_pinyin (b : InputBuffer) : bool := bool_decide (exact b = []) || parsed_full_pinyin b.
Definition physical_separators (b : InputBuffer) : bool := negb (formatting_separators b) && bool_decide (exact b = []).

Definition set_exact (b : InputBuffer) (segments : list ExactSegment) : InputBuffer :=
  let b := invalidate b in
  with_mode b false (filter (fun segment => (seg_end segment <=? length (raw b)) = true) segments) false.

Definition set_full_pinyin (b : InputBuffer) (segments : list ExactSegment) : InputBuffer :=
  let b := set_exact (invalidate b) segments in with_mode b true (exact b) true.

(** [push] of a character of these bytes. *)
Definition push (b : InputBuffer) (character : bytes) : InputBuffer :=
  let b := with_mode (invalidate b) false [] false in with_raw b (raw b ++ character).

Definition pop (b : InputBuffer) : InputBuffer :=
  let b := with_mode (invalidate b) false [] false in
  with_raw b (take (floor_boundary (raw b) (length (raw b) - 1)) (raw b)).

Definition clear_input (b : InputBuffer) : InputBuffer := with_mode (with_raw (invalidate b) []) false [] false.
Definition clear_exact (b : InputBuffer) : InputBuffer := with_mode (invalidate b) false [] false.

Definition set_physical_separators (b : InputBuffer) (physical : bool) : InputBuffer :=
  let b := invalidate b in with_mode b (negb physical) (exact b) (parsed_full_pinyin b).

Definition refill (b : InputBuffer) (text : bytes) : InputBuffer := with_raw (invalidate b) text.

(** ** The selection *)

Record SelectionRecord : Type := mk_record {
  selected : PhraseText;
  parts : list PhraseText;
  consumed_ : nat;
  history : list Z;
  committed : bool
}.

Definition record_default : SelectionRecord := mk_record (Scalar []) [] 0 [] false.
Definition record_clear (_ : SelectionRecord) : SelectionRecord := record_default.

Definition set_consumed (r : SelectionRecord) (n : nat) : SelectionRecord :=
  mk_record (selected r) (parts r) n (history r) (committed r).
Definition set_committed (r : SelectionRecord) (c : bool) : SelectionRecord :=
  mk_record (selected r) (parts r) (consumed_ r) (history r) c.
Definition set_history (r : SelectionRecord) (h : list Z) : SelectionRecord :=
  mk_record (selected r) (parts r) (consumed_ r) h (committed r).
Definition set_selected (r : SelectionRecord) (text : PhraseText) (ps : list PhraseText) : SelectionRecord :=
  mk_record text ps (consumed_ r) (history r) (committed r).

Definition clamp_consumed (r : SelectionRecord) (s : bytes) : SelectionRecord :=
  set_consumed r (floor_boundary s (Nat.min (consumed_ r) (length s))).

Definition append_selected (r : SelectionRecord) (gap : bytes) (text : PhraseText) : SelectionRecord :=
  let whole := concat_push (concat_push (concat_push concat_new (selected r)) (str_text gap)) text in
  set_selected r (concat_finish whole)
    (parts r ++ (if bool_decide (gap = []) then [] else [str_text gap]) ++ [text]).

Definition push_token (r : SelectionRecord) (token : Z) : SelectionRecord := set_history r (history r ++ [token]).
Definition reset_history_extend (r : SelectionRecord) (base extra : list Z) : SelectionRecord :=
  set_history r (base ++ extra).

(** The loop of [rebuild_from_constraints]: the text, the parts, the tokens
    and where the last run ended. *)
Definition rebuild_step (s : bytes) (st : PhraseTextConcat * list PhraseText * list Z * nat) (r : run)
    : PhraseTextConcat * list PhraseText * list Z * nat :=
  let '(whole, ps, tokens, cursor) := st in
  let '(start, end_, token, text) := r in
  let '(whole, ps) :=
    match (if cursor <? start then str_get s cursor start else None) with
    | Some gap => (concat_push whole (str_text gap), ps ++ [str_text gap])
    | None => (whole, ps)
    end in
  (concat_push whole text, ps ++ [text], tokens ++ [token], end_).

Definition rebuild_from_constraints (r : SelectionRecord) (s : bytes) (rs : list run) : SelectionRecord :=
  match rs with
  | [] => record_clear r
  | _ =>
      let '(whole, ps, tokens, cursor) := fold_left (rebuild_step s) rs (concat_new, [], [], 0) in
      mk_record (concat_finish whole) ps (Nat.min cursor (length s)) tokens false
  end.

(** ** The sentences and the list *)

Record SentenceState : Type := mk_sentence {
  s_rows : list NbestRow;
  s_history : list Z;
  s_active : bool;
  last_result : list PhraseSpan;
  s_prefix : list PhraseText
}.

Definition sentence_begin (_ : SentenceState) : SentenceState := mk_sentence [] [] true [] [].
Definition sentence_reset (_ : SentenceState) : SentenceState := mk_sentence [] [] false [] [].

(** [SentenceState::phrases]. *)
Definition phrases (s : SentenceState) (row : NbestRow) : list PhraseText :=
  match row_spans row with
  | [] => [row_text row]
  | spans => s_prefix s ++ (span_text <$> spans)
  end.

Record Lookup : Type := mk_lookup {
  candidates : list Candidate;
  parsed_prefix : nat;
  stale : bool;
  sort_word : Z
}.

Definition PARITY_SORT_WORD : Z := 30.
Definition lookup_default : Lookup := mk_lookup [] 0 false PARITY_SORT_WORD.
Definition lookup_reset (l : Lookup) : Lookup := mk_lookup [] 0 false (sort_word l).

(** ** The state *)

Record SessionState : Type := mk_state {
  options : OptionBits;
  scoring : ScoringConfig;
  key_costs : list Z;
  collapse_sentence_rows_to_best : bool;
  candidate_ranking : CandidateRanking;
  nbest_shape : NbestShape;
  defer_list_builds : bool;
  input : InputBuffer;
  record : SelectionRecord;
  constraints : ConstraintStore;
  lookup_ : Lookup;
  sentence : SentenceState;
  scan_unreadable : bool;
  scan_ranked_phrase : bool
}.

Definition set_input (s : SessionState) (b : InputBuffer) : SessionState :=
  mk_state (options s) (scoring s) (key_costs s) (collapse_sentence_rows_to_best s) (candidate_ranking s)
    (nbest_shape s) (defer_list_builds s) b (record s) (constraints s) (lookup_ s) (sentence s)
    (scan_unreadable s) (scan_ranked_phrase s).
Definition set_record (s : SessionState) (r : SelectionRecord) : SessionState :=
  mk_state (options s) (scoring s) (key_costs s) (collapse_sentence_rows_to_best s) (candidate_ranking s)
    (nbest_shape s) (defer_list_builds s) (input s) r (constraints s) (lookup_ s) (sentence s)
    (scan_unreadable s) (scan_ranked_phrase s).
Definition set_constraints (s : SessionState) (c : ConstraintStore) : SessionState :=
  mk_state (options s) (scoring s) (key_costs s) (collapse_sentence_rows_to_best s) (candidate_ranking s)
    (nbest_shape s) (defer_list_builds s) (input s) (record s) c (lookup_ s) (sentence s)
    (scan_unreadable s) (scan_ranked_phrase s).
Definition set_lookup (s : SessionState) (l : Lookup) : SessionState :=
  mk_state (options s) (scoring s) (key_costs s) (collapse_sentence_rows_to_best s) (candidate_ranking s)
    (nbest_shape s) (defer_list_builds s) (input s) (record s) (constraints s) l (sentence s)
    (scan_unreadable s) (scan_ranked_phrase s).
Definition set_sentence (s : SessionState) (n : SentenceState) : SessionState :=
  mk_state (options s) (scoring s) (key_costs s) (collapse_sentence_rows_to_best s) (candidate_ranking s)
    (nbest_shape s) (defer_list_builds s) (input s) (record s) (constraints s) (lookup_ s) n
    (scan_unreadable s) (scan_ranked_phrase s).
Definition set_scan (s : SessionState) (unreadable ranked : bool) : SessionState :=
  mk_state (options s) (scoring s) (key_costs s) (collapse_sentence_rows_to_best s) (candidate_ranking s)
    (nbest_shape s) (defer_list_builds s) (input s) (record s) (constraints s) (lookup_ s) (sentence s)
    unreadable ranked.

Definition state_new (options : OptionBits) (config : ScoringConfig) (costs : list Z) : SessionState :=
  mk_state options config costs false SortWord PINYIN false buffer_default record_default store_new lookup_default
    (mk_sentence [] [] false [] []) false false.

(** ** Operations *)

Definition session (A : Type) : Type := SessionState -> option (SessionState * result A EngineError).

#[export] Instance session_ret : MRet session := fun A a s => Some (s, Ok a).
#[export] Instance session_bind : MBind session := fun A B f m s =>
  match m s with
  | None => None
  | Some (s, Err e) => Some (s, Err e)
  | Some (s, Ok a) => f a s
  end.

Definition get : session SessionState := fun s => Some (s, Ok s).
Definition modify (f : SessionState -> SessionState) : session unit := fun s => Some (f s, Ok tt).
Definition fail {A} (e : EngineError) : session A := fun s => Some (s, Err e).
Definition lift {A} (r : result A EngineError) : session A := fun s => Some (s, r).
Definition must {A} (a : option A) : session A := fun s => match a with Some a => Some (s, Ok a) | None => None end.

(** A [Result] its caller looks at. *)
Definition attempt {A} (m : session A) : session (result A EngineError) := fun s =>
  match m s with None => None | Some (s, r) => Some (s, Ok r) end.
