(* ===== verification/Retained.v ===== *)
(** * Retained: what a session parses once and reads again

    The cached reads of a session, of [crates/oxpinyin-engine/src/session]:
    the working graph of [lookup.rs], the selected path and the retained
    parse of [matrix.rs], the keys and the offset laws of [offsets.rs], over
    [apostrophe_extended] of [mod.rs]. Each read answers what its cache holds
    and fills it when it holds nothing. *)

From Stdlib Require Import ZArith Lia Bool Strings.Byte.
From stdpp Require Import base list.
From S2P Require Import Prelude Options Vocab Ucs4 Graph Models ScanMatrix MatrixBuild WindowScan Cursor CharOffset SessionState.

(** [apostrophe_extended]; the bytes left are enough fuel. *)
Fixpoint extend_apostrophes (input : bytes) (fuel end_ : nat) : nat :=
  match fuel with
  | O => end_
  | S fuel =>
      if bool_decide (input !! end_ = Some apostrophe) then extend_apostrophes input fuel (S end_) else end_
  end.

Definition apostrophe_extended (input : bytes) (end_ : nat) : nat :=
  extend_apostrophes input (length input - end_) end_.

Definition graph_result {A} (r : result A GraphError) : result A EngineError := map_err Graph_ r.

(** ** The working graph *)

Definition straddles (anchor : nat) (segment : ExactSegment) : bool :=
  (seg_start segment <? anchor) && (anchor <? seg_end segment).

Definition rebase (anchor : nat) (segment : ExactSegment) : ExactSegment :=
  mk_segment (seg_start segment - anchor) (seg_end segment - anchor) (seg_key segment) (seg_tone segment).

Definition build_uncached_graph_at (s : SessionState) (anchor : nat) (remaining : bytes)
    : result SegmentGraph EngineError :=
  let segments := exact (input s) in
  if bool_decide (segments = []) then graph_result (build_with_options remaining (options s))
  else if existsb (straddles anchor) segments then graph_result (build_exact remaining [])
  else graph_result (build_exact remaining
         (rebase anchor <$> filter (fun segment => (anchor <=? seg_start segment) = true) segments)).

Definition keep_graph (g : SegmentGraph) (s : SessionState) : SessionState :=
  let b := input s in set_input s (with_caches b (Some g) (selected_cache b) (parse_cache b) (keys_cache b)).
Definition keep_selected (p : SelectedPath) (s : SessionState) : SessionState :=
  let b := input s in set_input s (with_caches b (graph_cache b) (Some p) (parse_cache b) (keys_cache b)).
Definition keep_parse (p : RetainedParse) (s : SessionState) : SessionState :=
  let b := input s in set_input s (with_caches b (graph_cache b) (selected_cache b) (Some p) (keys_cache b)).
Definition keep_keys (k : list MatrixKey * nat) (s : SessionState) : SessionState :=
  let b := input s in set_input s (with_caches b (graph_cache b) (selected_cache b) (parse_cache b) (Some k)).

Definition build_graph_at (anchor : nat) (remaining : bytes) : session SegmentGraph :=
  s ← get;
  if anchor =? 0 then
    match graph_cache (input s) with
    | Some graph => mret graph
    | None =>
        graph ← lift (build_uncached_graph_at s anchor remaining);
        modify (keep_graph graph);; mret graph
    end
  else lift (build_uncached_graph_at s anchor remaining).

(** ** The selected path and the retained parse *)

Definition scan_divided (s : SessionState) : bool :=
  full_pinyin (input s) && negb (collapse_sentence_rows_to_best s).

Definition last_end (edges : list Edge) : nat := match last edges with Some e => to e | None => 0 end.

Definition path_of_edges (text : bytes) (edges : list Edge) : SelectedPath :=
  {| sp_edges := edges; sp_parsed_len := apostrophe_extended text (last_end edges) |}.

Definition selected_path : session SelectedPath :=
  s ← get;
  match selected_cache (input s) with
  | Some selected => mret selected
  | None =>
      graph ← build_graph_at 0 (raw (input s));
      let selected := path_of_edges (raw (input s)) (fewest_keys graph (has_incomplete (options s))) in
      modify (keep_selected selected);; mret selected
  end.

Definition build_retained_parse : session RetainedParse :=
  s ← get;
  graph ← build_graph_at 0 (raw (input s));
  selected ← selected_path;
  scan ← must (build_scan_matrix_over graph (sp_edges selected) (options s) (scan_divided s));
  mret {| rp_scan := scan; rp_matrix := from_scan scan (consumed graph) (physical_separators (input s)) |}.

Definition retained_parse : session RetainedParse :=
  s ← get;
  match parse_cache (input s) with
  | Some retained => mret retained
  | None => built ← build_retained_parse; modify (keep_parse built);; mret built
  end.

Definition ensure_matrix : session unit := _ ← retained_parse; mret tt.

(** ** The keys and the offsets *)

Definition scan_keys (scan : list (list ScanKey)) : list MatrixKey :=
  (fun k => matrix_key (sk_key k) (sk_tone k) (sk_start k) (sk_to k)) <$> concat scan.

Definition build_matrix_keys : session (list MatrixKey * nat) :=
  s ← get;
  if full_pinyin (input s) then
    retained ← retained_parse;
    mret (in_column_order (scan_keys (rp_scan retained)), pm_bound (rp_matrix retained))
  else
    keys ← must (Cursor.matrix_keys (raw (input s)) (options s));
    lift keys.

Definition matrix_keys : session (list MatrixKey * nat) :=
  s ← get;
  match keys_cache (input s) with
  | Some keys => mret keys
  | None => built ← build_matrix_keys; modify (keep_keys built);; mret built
  end.

(** A law of [Cursor] over the session's own keys. *)
Definition over_keys {A} (law : list MatrixKey -> bytes -> nat -> bool -> nat -> option (result A EngineError))
    (offset : nat) : session A :=
  s ← get;
  '(keys, parsed) ← matrix_keys;
  answer ← must (law keys (raw (input s)) parsed true offset);
  lift answer.

Definition lookup_offset_for_cursor (cursor : nat) : session nat := over_keys lookup_offset_over_spans cursor.
Definition left_word_offset (offset : nat) : session nat := over_keys left_word_offset_over_spans offset.
Definition right_word_offset (offset : nat) : session (option nat) := over_keys right_word_offset_over_spans offset.

Definition normalized_lookup_offset (offset : nat) : session nat :=
  s ← get; lift (normalize_lookup_offset (raw (input s)) offset).

Definition character_offset_with_walk {D} `{Dictionary D} (dictionary : D) (phrase : PhraseText) (offset : nat)
    : session (option nat * bool) :=
  s ← get;
  retained ← retained_parse;
  answer ← must (character_offset_with_walk_over_keys dictionary (raw (input s)) (pm_bound (rp_matrix retained))
                   (scan_keys (rp_scan retained)) true phrase offset);
  lift answer.

Definition character_offset {D} `{Dictionary D} (dictionary : D) (phrase : PhraseText) (offset : nat)
    : session (option nat) :=
  '(count, _) ← character_offset_with_walk dictionary phrase offset; mret count.

Definition full_parsed_len : session nat :=
  s ← get;
  if bool_decide (raw (input s) = []) then mret 0
  else selected ← attempt selected_path; mret (match selected with Ok p => sp_parsed_len p | Err _ => 0 end).

Definition composition_keys : session (list SyllableKey) :=
  selected ← selected_path; mret (Graph.key <$> sp_edges selected).

Definition next_boundary (s : bytes) (offset : nat) : nat :=
  ceil_boundary s (length s) (Nat.min offset (length s)).

Definition starts_with (text prefix : bytes) : bool := bool_decide (take (length prefix) text = prefix).

Definition selection_committed (s : SessionState) : bool := committed (record s).

Definition parse_continues (s : SessionState) (stored original : bytes) : bool :=
  negb (committed (record s)) && negb (bool_decide (stored = []))
  && (starts_with original stored || starts_with stored original).

Definition committed_parse_continues (s : SessionState) (stored original : bytes) : bool :=
  committed (record s) && negb (bool_decide (stored = []))
  && (starts_with original stored || starts_with stored original).
