(* ===== verification/Refresh.v ===== *)
(** * Refresh: the candidate lists of a session

    [session/lookup.rs] of [crates/oxpinyin-engine]: the window at an offset
    ([scan_window], [candidates_at]), the window over the spans that end at
    one ([scan_window_ending], [candidates_ending_at]), the LONGER row, the
    previous token and its gram, the frequencies, and the collection of a
    model without unigrams. What they ask of a language model and of a
    dictionary beside the decoder is two classes. *)

From Stdlib Require Import ZArith Lia Bool Strings.Byte.
From stdpp Require Import base list.
From S2P Require Import Prelude MergedGram Options Vocab Ucs4 Graph Kbest Float Models Scoring Sorting Ranking ScanMatrix MatrixBuild WindowScan Cursor Trellis Nbest Constraint SessionState Retained.

(** ** What a session asks of its parts *)

Class SessionModel (L : Type) `{LanguageModel L} : Type := {
  has_real_unigrams : L -> bool;
  unigram_freq : L -> Z -> result (option Z) (ModelError L);
  unigram_total : L -> result (option Z) (ModelError L);
  addon_unigram_freq : L -> Z -> result (option Z) (ModelError L);
  addon_unigram_total : L -> result (option Z) (ModelError L);
  merged_successors : L -> Z -> result (option MergedGram) (ModelError L);
  amplification_lambda : L -> f32
}.

Class SuggestionDictionary (D : Type) `{Dictionary D} : Type := {
  checked_extension_tokens : D -> list SyllableKey -> result (option (list Z)) bytes;
  phrase_text_for_token : D -> Z -> option PhraseText
}.

Definition SEGMENTATION_K : nat := 8.
Definition MAX_PHRASE_KEYS : nat := 8.

Definition engine_scoring {A} (r : result A ScoringError) : result A EngineError := map_err Scoring r.
Definition from_model {L A} `{LanguageModel L} (r : result A (ModelError L)) : result A EngineError :=
  map_err (fun e => Scoring (LanguageModelError (model_message e))) r.

(** The key paths of the LONGER suggestion. *)
Record SuggestionPath : Type := mk_suggestion { sug_keys : list SyllableKey; sug_tones : list Z }.

(** [room] is how many keys may still be pushed. *)
Fixpoint collect_suggestion_paths (matrix : list (list ScanKey)) (end_ : nat) (room node : nat) (path : SuggestionPath)
    : list SuggestionPath :=
  match matrix !! node with
  | None => []
  | Some column =>
      if node =? end_ then (if bool_decide (sug_keys path = []) then [] else [path])
      else
        match room with
        | O => []
        | S room =>
            column ≫= fun key =>
              if end_ <? sk_to key then []
              else collect_suggestion_paths matrix end_ room (sk_to key)
                     {| sug_keys := sug_keys path ++ [sk_key key]; sug_tones := sug_tones path ++ [sk_tone key] |}
        end
  end.

(** [max_by_key]: the last of the largest. *)
Definition latest_span (spans : list PhraseSpan) : option PhraseSpan :=
  fold_left (fun best span =>
    match best with
    | Some b => if Constraint.span_start span <? Constraint.span_start b then best else Some span
    | None => Some span
    end) spans None.

Definition previous_token (s : SessionState) (offset : nat) : option Z :=
  if offset =? 0 then Some SENTENCE_START
  else
    let spans := last_result (sentence s) in
    if existsb (fun span => Constraint.span_start span =? offset) spans
    then span_token <$> latest_span (filter (fun span => (Constraint.span_start span <? offset) = true) spans)
    else None.

Definition rank_word (s : SessionState) : Z :=
  match candidate_ranking s with
  | SortWord => sort_word (lookup_ s)
  | LengthThenFrequency => Z.lor SORT_BY_PHRASE_LENGTH SORT_BY_FREQUENCY
  end.

(** The rows the stored sentences show. *)
Definition sentence_candidate (index : nat) (row : NbestRow) : Candidate :=
  candidate_new (row_text row) Sentence (Z.to_nat (row_keys row)) (row_span row) (row_cost row) None
    (Some (Z.min 255 (Z.of_nat index))).

Definition shown_rows (s : SessionState) : list NbestRow :=
  if collapse_sentence_rows_to_best s then take 1 (s_rows (sentence s)) else s_rows (sentence s).

Definition prepend_nbest_rows (s : SessionState) (collected : list Candidate) : list Candidate :=
  prepend_rows (sort_word (lookup_ s)) (imap sentence_candidate (shown_rows s)) collected.

Definition fallback_row (remaining : bytes) : Candidate :=
  candidate_new (str_text remaining) Fallback 0 (length remaining) 0 None None.

(** ** The parse length of a window *)

Definition mark_reached (reached : list bool) (to anchor : nat) : option (list bool) :=
  if (anchor <=? to) && (to - anchor <? length reached) then Some (<[to - anchor := true]> reached) else None.

Definition usable_edges (s : SessionState) (graph : SegmentGraph) (node : nat) : list Edge :=
  filter (fun e => has_incomplete (options s) || negb (bool_decide (kind e = Incomplete)) = true) (outgoing graph node).

Definition reach_node (s : SessionState) (graph : SegmentGraph) (anchor : nat) (st : list bool * nat) (node : nat)
    : option (list bool * nat) :=
  let '(reached, end_) := st in
  here ← reached !! (node - anchor);
  if here : bool then
    for_each (usable_edges s graph node) (fun '(reached, end_) e =>
      reached ← mark_reached reached (to e) anchor; Some (reached, Nat.max end_ (to e))) (reached, end_)
  else Some (reached, end_).

Definition window_parsed_len (s : SessionState) (graph : SegmentGraph) (anchor : nat) : option nat :=
  let b := input s in
  if length (raw b) <? anchor then None
  else
    let remaining := drop anchor (raw b) in
    if existsb (straddles anchor) (exact b) then Some (apostrophe_extended remaining 0)
    else
      let reached := <[0 := true]> (replicate (length remaining + 1) false) in
      '(reached, end_) ←
        match List.find (fun segment => anchor <=? seg_start segment) (exact b) with
        | Some first => reached ← mark_reached reached (seg_end first) anchor; Some (reached, seg_end first)
        | None => Some (reached, anchor)
        end;
      '(_, end_) ← for_each (seq anchor (length (raw b) - anchor)) (reach_node s graph anchor) (reached, end_);
      Some (apostrophe_extended remaining (end_ - anchor)).

Section lookup.
Context {D L : Type} `{Dictionary D, !CandidateDictionary D, !SuggestionDictionary D, LanguageModel L, !SessionModel L} (d : D) (l : L).

(** ** The LONGER row *)

(** The tokens of one path, against the best so far. *)
Fixpoint longer_tokens (prefix_len : nat) (tokens : list Z) (winner : option (Z * Z * PhraseText))
    : result (option (Z * Z * PhraseText)) EngineError :=
  match tokens with
  | [] => Ok winner
  | token :: tokens =>
      match phrase_text_for_token d token with
      | None => longer_tokens prefix_len tokens winner
      | Some text =>
          if prefix_len * 2 + 1 <? phrase_length text then longer_tokens prefix_len tokens winner
          else
            match from_model (unigram_freq l token) with
            | Err e => Err e
            | Ok unigram =>
                let unigram := default 0%Z unigram in
                let better := match winner with Some (_, best, _) => (best <? unigram)%Z | None => true end in
                longer_tokens prefix_len tokens (if better then Some (token, unigram, text) else winner)
            end
      end
  end.

Fixpoint longer_paths (prefix_len : nat) (gate : bool) (paths : list SuggestionPath) (winner : option (Z * Z * PhraseText))
    : result (option (Z * Z * PhraseText)) EngineError :=
  match paths with
  | [] => Ok winner
  | path :: paths =>
      match (if gate then check_toned_incomplete (sug_keys path) (sug_tones path) else Ok tt) with
      | Err e => Err e
      | Ok _ =>
          match from_dictionary (checked_extension_tokens d (sug_keys path)) with
          | Err e => Err e
          | Ok None =>
              if gate then Err (OverlongUserIndexKey (length (sug_keys path)))
              else longer_paths prefix_len gate paths winner
          | Ok (Some tokens) =>
              match longer_tokens prefix_len tokens winner with
              | Err e => Err e
              | Ok winner => longer_paths prefix_len gate paths winner
              end
          end
      end
  end.

Definition longer_candidate (gate : bool) : session (option (RankKey * Candidate)) :=
  if negb (has_real_unigrams l) then mret None
  else
    selected ← selected_path;
    let prefix_len := length (sp_edges selected) in
    if (prefix_len =? 0) || (MAX_PHRASE_LENGTH <=? prefix_len) then mret None
    else
      let max_keys := Nat.min (prefix_len * 2) MAX_PHRASE_LENGTH in
      retained ← retained_parse;
      let matrix := rp_scan retained in
      if match head matrix with Some (_ :: _) => false | _ => true end then mret None
      else
        let paths := collect_suggestion_paths matrix (last_end (sp_edges selected)) max_keys 0 (mk_suggestion [] []) in
        winner ← lift (longer_paths prefix_len gate paths None);
        match winner with
        | None => mret None
        | Some (token, unigram, text) =>
            total ← lift (from_model (unigram_total l));
            s ← get;
            mret (Some (for_sort_word (phrase_length text) 0
                          (amplified_frequency unigram (default 0%Z total) (amplification_lambda l)) (sort_word (lookup_ s)),
                        candidate_new text Phrase 0 0 0 (Some token) None))
        end.

(** Both callers of [longer_candidate] ask the sort word first. *)
Definition longer_row (gate : bool) : session (option (RankKey * Candidate)) :=
  s ← get;
  if has_sort (sort_word (lookup_ s)) SORT_WITHOUT_LONGER_CANDIDATE then mret None else longer_candidate gate.

Definition prepend_longer_row (out : list Candidate) (gate : bool) : session (list Candidate) :=
  row ← longer_row gate;
  mret (match row with Some (_, candidate) => candidate :: out | None => out end).

(** ** Frequencies *)

Definition dynamic_adjust_gram (s : SessionState) (offset : nat) (gate : bool) : result (option (Z * MergedGram)) EngineError :=
  if negb (has_dynamic_adjust (options s)) then Ok None
  else
    match previous_token s offset with
    | None => Ok None
    | Some prev =>
        match map_err (row_read l prev) (merged_successors l prev) with
        | Err e => Err e
        | Ok gram =>
            match gram ≫= fault with
            | Some f => if gate then Err (lookup_gram prev f) else Ok None
            | None => Ok ((fun gram => (prev, gram)) <$> gram)
            end
        end
    end.

(** The frequency of a row of the phrase facade at a bigram possibility. *)
Definition price_row (s : SessionState) (total : Z) (lambda bigram : f32) (candidate : Candidate) (token : Z)
    : result (option Z) EngineError :=
  match match cand_live_unigram candidate with
        | Some live => Ok (Some live)
        | None => from_model (unigram_freq l token)
        end with
  | Err e => Err e
  | Ok count =>
      Ok ((fun count =>
        match candidate_ranking s with
        | LengthThenFrequency =>
            f32_as_u32 (f32_mul
              (Ranking.f32_add (f32_mul lambda bigram)
                 (f32_div (f32_mul (f32_sub f32_one lambda) (int_as_f32 count)) (int_as_f32 total)))
              AMPLIFY_SCALE_F32)
        | SortWord => amplified_frequency_with_bigram count total bigram lambda
        end) <$> count)
  end.

Definition candidate_frequency (s : SessionState) (gram : option (Z * MergedGram)) (gate : bool)
    (total addon_total : Z) (lambda : f32) (candidate : Candidate) : result Z EngineError :=
  match cand_token candidate with
  | None => Ok 0%Z
  | Some token =>
      match cand_kind candidate with
      | Addon =>
          match from_model (addon_unigram_freq l token) with
          | Err e => Err e
          | Ok raw => Ok (amplified_frequency (default 0%Z raw) addon_total lambda)
          end
      | _ =>
          match match dynamic_adjust_bigram_possibility (options s) (snd <$> gram) token with
                | Ok bigram => Ok bigram
                | Err f => if gate then Err (lookup_gram (default 0%Z (fst <$> gram)) f) else Ok f32_zero
                end with
          | Err e => Err e
          | Ok bigram =>
              match price_row s total lambda bigram candidate token with
              | Err e => Err e
              | Ok count => Ok (default 0%Z count)
              end
          end
      end
  end.

(** The loop over the rows. *)
Fixpoint each_frequency (price : Candidate -> result Z EngineError) (collected : list Candidate)
    : result (list Z) EngineError :=
  match collected with
  | [] => Ok []
  | candidate :: collected =>
      match price candidate with
      | Err e => Err e
      | Ok freq => match each_frequency price collected with Err e => Err e | Ok fs => Ok (freq :: fs) end
      end
  end.

Definition candidate_frequencies (s : SessionState) (collected : list Candidate) (gram : option (Z * MergedGram))
    (gate : bool) : result (list Z) EngineError :=
  match from_model (unigram_total l) with
  | Err e => Err e
  | Ok total =>
      match from_model (addon_unigram_total l) with
      | Err e => Err e
      | Ok addon_total =>
          each_frequency (candidate_frequency s gram gate (default 0%Z total) (default 0%Z addon_total)
                            (amplification_lambda l)) collected
      end
  end.

(** ** Without unigrams *)

Section fallback.
Context (s : SessionState) (graph : SegmentGraph).

Definition session_scorer : Scorer D L := with_key_costs (scoring s) d l (key_costs s).

(** The keys, kinds and ends along a decoded path. *)
Fixpoint walk_edges (ids : list nat)
    : list SyllableKey * list EdgeKind * list nat :=
  match ids with
  | [] => ([], [], [])
  | id :: ids =>
      match edge graph id with
      | None => walk_edges ids
      | Some e =>
          if negb (has_incomplete (options s)) && bool_decide (kind e = Incomplete) then ([], [], [])
          else
            let '(keys, kinds, ends) := walk_edges ids in
            (Graph.key e :: keys, kind e :: kinds, to e :: ends)
      end
  end.

Definition session_walk (path : DecodedPath)
    : list SyllableKey * list EdgeKind * list nat :=
  walk_edges (decoded_edges path).

Definition prefix_candidate (length_ end_ : nat) (ranked : PhraseEntry * Z) : Candidate :=
  candidate_new (entry_text ranked.1) Phrase length_ end_ ranked.2 (Some (entry_token ranked.1)) None.

(** The loop over the lengths of a prefix; an end out of range is a panic. *)
Fixpoint prefix_phrases (keys : list SyllableKey) (kinds : list EdgeKind) (ends : list nat)
    (lengths : list nat) (into : list Candidate) : option (result (list Candidate) EngineError) :=
  match lengths with
  | [] => Some (Ok into)
  | length_ :: lengths =>
      match engine_scoring (rank_phrases (session_scorer) (history (record s)) (take length_ keys) (take length_ kinds)) with
      | Err e => Some (Err e)
      | Ok [] => prefix_phrases keys kinds ends lengths into
      | Ok ranked =>
          end_ ← ends !! (length_ - 1);
          prefix_phrases keys kinds ends lengths (into ++ (prefix_candidate length_ end_ <$> ranked))
      end
  end.

Definition collect_prefix_phrases (path : DecodedPath) (into : list Candidate)
    : option (result (list Candidate) EngineError) :=
  let '(keys, kinds, ends) := session_walk path in
  prefix_phrases keys kinds ends (seq 1 (Nat.min (length keys) MAX_PHRASE_KEYS)) into.

(** One cell of the sentence table: the cheapest of the starts. *)
Definition sentence_cell : Type := option (Z * PhraseText * list Z).

Fixpoint fill_cell (keys : list SyllableKey) (kinds : list EdgeKind) (end_ : nat)
    (settled : list (nat * sentence_cell)) (cell : sentence_cell) : result sentence_cell EngineError :=
  match settled with
  | [] => Ok cell
  | (_, None) :: settled => fill_cell keys kinds end_ settled cell
  | (start, Some (prefix_cost, prefix_text, prefix_history)) :: settled =>
      match engine_scoring (rank_phrases (session_scorer) prefix_history
              (take (end_ - start) (drop start keys)) (take (end_ - start) (drop start kinds))) with
      | Err e => Err e
      | Ok [] => fill_cell keys kinds end_ settled cell
      | Ok ((entry, cost) :: _) =>
          let total := sat_add64 prefix_cost cost in
          let better := match cell with Some (seen, _, _) => (total <? seen)%Z | None => true end in
          fill_cell keys kinds end_ settled
            (if better
             then Some (total, concat_finish (concat_push (concat_push concat_new prefix_text) (entry_text entry)),
                        prefix_history ++ [entry_token entry])
             else cell)
      end
  end.

Fixpoint fill_cells (keys : list SyllableKey) (kinds : list EdgeKind) (ends : list nat)
    (table : list sentence_cell) : result (list sentence_cell) EngineError :=
  match ends with
  | [] => Ok table
  | end_ :: ends =>
      let first := end_ - MAX_PHRASE_KEYS in
      match fill_cell keys kinds end_ (drop first (zip (seq 0 end_) table)) None with
      | Err e => Err e
      | Ok cell => fill_cells keys kinds ends (table ++ [cell])
      end
  end.

(** [None]: a panic, on an end or a token history out of range. *)
Definition collect_sentences_with_tokens (path : DecodedPath)
    : option (result (list (Candidate * list Z)) EngineError) :=
  let '(keys, kinds, ends) := session_walk path in
  if bool_decide (keys = []) then Some (Ok [])
  else
    match fill_cells keys kinds (seq 1 (length keys)) [Some (0%Z, Scalar [], history (record s))] with
    | Err e => Some (Err e)
    | Ok table =>
        match list.last table ≫= id with
        | None => Some (Ok [])
        | Some (cost, text, tokens) =>
            if is_empty text then Some (Ok [])
            else
              tokens ← (if length tokens <? length (history (record s)) then None
                        else Some (drop (length (history (record s))) tokens));
              end_ ← ends !! (length keys - 1);
              Some (Ok [(candidate_new text Sentence (length keys) end_ cost None None, tokens)])
        end
    end.

Definition collect_sentence (path : DecodedPath) (into : list Candidate)
    : option (result (list Candidate) EngineError) :=
  found ← collect_sentences_with_tokens path;
  Some (match found with Ok rows => Ok (into ++ (fst <$> rows)) | Err e => Err e end).

Fixpoint collect_paths (paths : list DecodedPath) (into : list Candidate)
    : option (result (list Candidate) EngineError) :=
  match paths with
  | [] => Some (Ok into)
  | path :: paths =>
      found ← collect_prefix_phrases path into;
      match found with
      | Err e => Some (Err e)
      | Ok into =>
          found ← collect_sentence path into;
          match found with Err e => Some (Err e) | Ok into => collect_paths paths into end
      end
  end.

Definition decoded_paths : result (list DecodedPath) EngineError :=
  map_err Decode_ (k_best graph (edge_cost (session_scorer)) SEGMENTATION_K).

End fallback.

(** [dedup_by] on the text: the first of each run of equal texts. *)
Fixpoint dedup_adjacent (last_text : option PhraseText) (rows : list Candidate) : list Candidate :=
  match rows with
  | [] => []
  | row :: rows =>
      if match last_text with Some text => text_eq (cand_text row) text | None => false end
      then dedup_adjacent last_text rows
      else row :: dedup_adjacent (Some (cand_text row)) rows
  end.

Definition fallback_rows (s : SessionState) (graph : SegmentGraph) : session (list Candidate) :=
  paths ← lift (decoded_paths s graph);
  found ← must (collect_paths s graph paths []);
  collected ← lift found;
  mret (dedup_adjacent None (sort_by_key cand_cost collected)).

(** ** The window at an offset *)

Definition is_phrase (candidate : Candidate) : bool := bool_decide (cand_kind candidate = Phrase).

Definition note_unreadable (unreadable : bool) (s : SessionState) : SessionState :=
  set_scan s unreadable (scan_ranked_phrase s).
Definition note_ranked (ranked : bool) (s : SessionState) : SessionState :=
  set_scan s (scan_unreadable s) ranked.

(** The rows of a model with unigrams, and whether the scan found none. *)
Definition scanned_rows (anchor : nat) (gate : bool) (remaining : bytes) : session (list Candidate * bool) :=
  s ← get;
  gram ← lift (dynamic_adjust_gram s anchor gate);
  '(collected, unreadable) ←
    lift (collect_window_scan d gate (rp_matrix <$> parse_cache (input s)) (length (raw (input s))) remaining []);
  modify (note_unreadable unreadable);;
  modify (note_ranked (existsb is_phrase collected));;
  frequencies ← lift (candidate_frequencies s collected gram gate);
  longer ← longer_row gate;
  mret (ranked_rows (rank_word s) collected frequencies longer, bool_decide (collected = [])).

Definition window_len (s : SessionState) (graph : SegmentGraph) (anchor : nat) (remaining : bytes) : session nat :=
  if anchor =? 0 then selected ← selected_path; mret (sp_parsed_len selected)
  else if has_real_unigrams l then must (window_parsed_len s graph anchor)
  else mret (apostrophe_extended remaining (last_end (fewest_keys graph (has_incomplete (options s))))).

Definition scan_window (anchor : nat) (gate : bool) : session (list Candidate * nat) :=
  ensure_matrix;;
  s ← get;
  if length (raw (input s)) <=? anchor then
    out ← prepend_longer_row [] gate;
    s ← get;
    mret (prepend_nbest_rows s out, 0)
  else
    remaining ← must (str_from (raw (input s)) anchor);
    graph ← (if has_real_unigrams l then build_graph_at 0 (raw (input s)) else build_graph_at anchor remaining);
    parsed_prefix ← window_len s graph anchor remaining;
    '(collected, empty_phrase_scan) ←
      (if has_real_unigrams l then scanned_rows anchor gate remaining
       else rows ← fallback_rows s graph; mret (rows, false));
    let collected :=
      if bool_decide (collected = []) || empty_phrase_scan then collected ++ [fallback_row remaining] else collected in
    s ← get;
    mret (prepend_nbest_rows s collected, parsed_prefix).

Definition start_list (s : SessionState) : SessionState :=
  set_lookup s (mk_lookup [] (parsed_prefix (lookup_ s)) false (sort_word (lookup_ s))).
Definition keep_list (items : list Candidate) (parsed : nat) (s : SessionState) : SessionState :=
  set_lookup s (mk_lookup items parsed (stale (lookup_ s)) (sort_word (lookup_ s))).
Definition set_stale (b : bool) (s : SessionState) : SessionState :=
  set_lookup s (mk_lookup (candidates (lookup_ s)) (parsed_prefix (lookup_ s)) b (sort_word (lookup_ s))).

Definition refresh : session unit :=
  ensure_matrix;;
  s ← get;
  modify start_list;;
  '(items, parsed) ← scan_window (consumed_ (record s)) false;
  modify (keep_list items parsed).

Definition refresh_after_parse : session unit :=
  s ← get;
  if defer_list_builds s then ensure_matrix;; modify (set_stale true) else refresh.

Definition refresh_candidates : session unit :=
  s ← get;
  if stale (lookup_ s) then
    refreshed ← attempt refresh;
    match refreshed with
    | Ok _ => mret tt
    | Err e => modify (set_stale true);; fail e
    end
  else mret tt.

(** ** The windows a caller asks for *)

(** A list with its two flags. *)
Definition CandidateList : Type := list Candidate * bool * bool.

Definition check_offset (offset : nat) : session unit :=
  s ← get;
  if length (raw (input s)) <? offset then fail (LookupOffsetOutOfRange offset (length (raw (input s))))
  else if is_char_boundary (raw (input s)) offset then mret tt
  else fail (LookupOffsetInsideCharacter offset (length (raw (input s)))).

Definition spans_a_matrix_key (offset : nat) : session bool :=
  s ← get;
  let quoted := bool_decide (raw (input s) !! offset = Some apostrophe) in
  if negb (full_pinyin (input s)) then
    mret (quoted || existsb (fun segment => seg_start segment =? offset) (exact (input s)))
  else
    retained ← retained_parse;
    let starts := sk_start <$> concat (rp_scan retained) in
    if existsb (fun start => start =? offset) starts then mret true
    else mret ((offset <? pm_bound (rp_matrix retained))
               && match starts with
                  | [] => false
                  | start :: starts => foldr Nat.min start starts <=? offset
                  end && quoted).

Definition flagged (items : list Candidate) : session CandidateList :=
  s ← get; mret (items, scan_unreadable s, scan_ranked_phrase s).

Definition candidates_at (offset : nat) : session CandidateList :=
  check_offset offset;;
  modify (fun s => set_scan s false false);;
  s ← get;
  spans ← (if offset <? length (raw (input s)) then spans_a_matrix_key offset else mret true);
  if spans : bool then
    '(items, _) ← scan_window offset true;
    flagged items
  else
    remaining ← must (str_from (raw (input s)) offset);
    out ← prepend_longer_row [fallback_row remaining] true;
    s ← get;
    mret (prepend_nbest_rows s out, false, false).

(** One start of the window over the spans that end at an offset. *)
Record EndingScan : Type := mk_ending {
  e_rows : list Candidate; e_keys : list (RankKey * nat); e_unreadable : bool; e_ranked : bool
}.

Definition live_column (matrix : ParsedMatrix) (start : nat) : bool :=
  match pm_columns matrix !! start with Some (_ :: _) => true | _ => false end
  || default false (pm_zeros matrix !! start).

Definition scan_ending_from (s : SessionState) (matrix : ParsedMatrix) (offset : nat) (acc : EndingScan) (start : nat)
    : result EndingScan EngineError :=
  match dynamic_adjust_gram s start true with
  | Err e => Err e
  | Ok gram =>
      if negb (live_column matrix start) then Ok acc
      else
        match scan_parsed_paths d true 0 matrix offset (scan_fuel offset) start []
                {| system := []; addon := []; continued := false; unreadable := e_unreadable acc |} with
        | Err e => Err e
        | Ok b =>
            let group := flush_window_batch (addon b) (order_window_tail (system b) 0) in
            if bool_decide (group = [])
            then Ok (mk_ending (e_rows acc) (e_keys acc) (unreadable b) (e_ranked acc))
            else
              let ranked := e_ranked acc || existsb is_phrase group in
              let group := (fun candidate => set_span_start candidate start) <$> group in
              match candidate_frequencies s group gram true with
              | Err e => Err e
              | Ok frequencies =>
                  let '(group, keys) := rank_candidates group (rank_keys (rank_word s) group frequencies) in
                  Ok (mk_ending (e_rows acc ++ group) (e_keys acc ++ keys) (unreadable b) ranked)
              end
        end
  end.

Definition scan_window_ending (offset : nat) : session (list Candidate * nat) :=
  ensure_matrix;;
  s ← get;
  match rp_matrix <$> parse_cache (input s) with
  | None => mret ([], 0)
  | Some matrix =>
      let bound := Nat.min (pm_bound matrix) offset in
      scanned ← lift (fold_result (scan_ending_from s matrix offset) (seq 0 bound) (mk_ending [] [] false false));
      let out := dedup_ranked_by_text (e_rows scanned) (e_keys scanned) in
      modify (fun s => set_scan s (e_unreadable scanned) (e_ranked scanned));;
      s ← get;
      mret (prepend_nbest_rows s out, bound)
  end.

Definition candidates_ending_at (offset : nat) : session CandidateList :=
  check_offset offset;;
  modify (fun s => set_scan s false false);;
  s ← get;
  if (offset =? 0) || bool_decide (raw (input s) !! (offset - 1) = Some apostrophe)
  then mret (prepend_nbest_rows s [], false, false)
  else
    '(items, _) ← scan_window_ending offset;
    flagged items.
End lookup.
