(* ===== verification/Session.v ===== *)
(** * Session: the operations of an input session

    [crates/oxpinyin-engine/src/session]: [input.rs], [state.rs],
    [selection.rs] and [guess.rs], over the reads of [Retained] and the lists
    of [Refresh], with [ConstraintSpelling] and [lookup_finds_token] of
    [nbest.rs], which a decode and a replaced input check forcings with. A
    session of the pin's decoder has its logarithm and its sentence penalty
    as parameters, as [Nbest] has. *)

From Stdlib Require Import ZArith Lia Bool Strings.Byte.
From stdpp Require Import base list.
From S2P Require Import Prelude Chewing Options Vocab Ucs4 Graph Float Kbest Models Scoring Ranking ScanMatrix MatrixBuild WindowScan Cursor CharOffset Trellis Nbest Constraint SessionState Retained Refresh.

(** ** The readings of a span, by recursion *)

Section readings.
Context (matrix : list (list ScanKey)) (input : bytes) (end_ length_ : nat).

(** [keys] has its last element first; every step goes forward. *)
Fixpoint readings_from (fuel position : nat) (keys : list ChewingKey) : list (list ChewingKey) :=
  if (position =? end_) && (length keys =? length_) then [rev keys]
  else
    match fuel with
    | O => []
    | S fuel =>
        if separator_hop matrix input end_ position then readings_from fuel (S position) keys
        else if (end_ <=? position) || (length_ <=? length keys) then []
        else
          default [] (matrix !! position) ≫= fun edge =>
            if sk_to edge <=? position then []
            else readings_from fuel (sk_to edge) (reading_key edge :: keys)
    end.

Definition span_readings (start : nat) : list (list ChewingKey) := readings_from (end_ - start) start [].
End readings.

(** ** Whether a forcing still spells *)

Section spelling.
Context {D : Type} `{Dictionary D} (dictionary : D).

Fixpoint look_each (token : Z) (sequences : list (list SyllableKey)) (found : bool) : result bool EngineError :=
  match sequences with
  | [] => Ok found
  | sequence :: sequences =>
      match from_dictionary (lookup dictionary sequence) with
      | Err e => Err e
      | Ok entries => look_each token sequences (found || existsb (entry_keeps token) entries)
      end
  end.

Definition lookup_finds_token (reading : list ChewingKey) (token : Z) : result bool EngineError :=
  match mapM (fun key => from_canonical_text (pinyin_spelling key)) reading with
  | None => Ok false
  | Some path =>
      let has_incomplete := existsb (fun key => bool_decide (completeness key = Partial)) path in
      look_each token
        (if has_incomplete && negb (handles_partial_keys dictionary)
         then expand_keys path SCAN_EXPANSION_LIMIT else [path]) false
  end.

Fixpoint any_reading_finds (token : Z) (readings : list (list ChewingKey)) : result bool EngineError :=
  match readings with
  | [] => Ok false
  | reading :: readings =>
      match lookup_finds_token reading token with
      | Err e => Err e
      | Ok true => Ok true
      | Ok false => any_reading_finds token readings
      end
  end.

(** [ConstraintSpelling]; its [OnceCell] is the value it holds. *)
Record ConstraintSpelling : Type := mk_spelling {
  cs_scan : list (list ScanKey);
  cs_bound : nat;
  cs_physical : bool;
  cs_input : bytes
}.

(** The state is [last_item]. *)
Definition spells (cs : ConstraintSpelling) (last_item : option PronunciationRows) (start end_ : nat) (token : Z)
    (length_ : nat) : option PronunciationRows * result bool EngineError :=
  match from_dictionary (phrase_item_pronunciations dictionary token) with
  | Err e => (last_item, Err e)
  | Ok read =>
      let item_less := match read with Unsupported => true | _ => false end in
      let last_item := match read with Item rows => Some rows | _ => last_item end in
      let parsed := from_scan (cs_scan cs) (cs_bound cs) (cs_physical cs) in
      let columns := pm_columns parsed in
      if (length columns <=? end_) || column_is_empty columns (pm_zeros parsed) start
         || column_is_empty columns (pm_zeros parsed) end_
      then (last_item, Ok false)
      else if item_less
      then (last_item, any_reading_finds token (span_readings columns (cs_input cs) end_ length_ start))
      else
        (last_item,
         match last_item with
         | None | Some [] => Ok false
         | Some ((keys, _) :: _ as rows) =>
             if (sum_freq rows =? 0)%Z then Ok false
             else
               Ok (existsb (fun reading =>
                     negb (sum_freq (filter (fun row => reading_matches reading row.1 = true) rows) =? 0)%Z)
                   (span_readings columns (cs_input cs) end_ (length keys) start))
         end)
  end.
End spelling.

(** [ConstraintStore::validate] with a probe that keeps a state. *)
Section validate.
Context {P : Type} (still_spells : P -> nat -> nat -> Z -> nat -> P * result bool EngineError).

Fixpoint validate_walk (p : P) (s : ConstraintStore) (forcings : list run) (dropped : bool)
    : option (ConstraintStore * result bool EngineError) :=
  match forcings with
  | [] => Some (s, Ok dropped)
  | (index, end_, token, text) :: rest =>
      let '(p, spells) := still_spells p index end_ token (phrase_length text) in
      let drop_run :=
        s' ← free_range s index (Nat.min end_ (length (cells s)));
        validate_walk p s' rest true in
      if length (cells s) <=? end_ then drop_run
      else
        match spells with
        | Err e => Some (s, Err e)
        | Ok true => validate_walk p s rest dropped
        | Ok false => drop_run
        end
  end.

Definition validate_with (p : P) (s : ConstraintStore) (len : nat)
    : option (ConstraintStore * result bool EngineError) :=
  let s := store_resize s len in validate_walk p s (runs s) false.
End validate.

(** ** What training asks of a user model *)

Class UserModel (U : Type) : Type := {
  check_step : U -> list Z -> Z -> U * result unit bytes;
  observe : U -> list Z -> Z -> U * result unit bytes;
  observe_with_keys : U -> list Z -> Z -> list (list ChewingKey) -> U * result unit bytes
}.

Definition default_observe_with_keys {U} (observe_ : U -> list Z -> Z -> U * result unit bytes)
    (u : U) (history : list Z) (token : Z) (_ : list (list ChewingKey)) : U * result unit bytes :=
  observe_ u history token.

Definition user_error (r : result unit bytes) : result unit EngineError := map_err Models.UserModel r.

(** A step for each token of a history, its prefix first. *)
Fixpoint each_token {U} (step : U -> list Z -> Z -> U * result unit EngineError) (u : U) (prefix tokens : list Z)
    : U * result unit EngineError :=
  match tokens with
  | [] => (u, Ok tt)
  | token :: tokens =>
      match step u prefix token with
      | (u, Err e) => (u, Err e)
      | (u, Ok _) => each_token step u (prefix ++ [token]) tokens
      end
  end.

Inductive KeyOutcome : Type := Ignored | Consumed.
Inductive Selection : Type := Continued | Completed.

(** ** Operations that read no backend *)

Definition selection_outcome (s : SessionState) : Selection :=
  if length (raw (input s)) <=? consumed_ (record s) then Completed else Continued.

Definition rebuild_selection_from_constraints (s : SessionState) : SessionState :=
  set_record s (rebuild_from_constraints (record s) (raw (input s)) (runs (constraints s))).

Definition reset_composition (s : SessionState) : SessionState := set_lookup s (lookup_reset (lookup_ s)).

Definition discard_composition (s : SessionState) : SessionState :=
  let s := reset_composition s in
  let s := set_input s (clear_input (input s)) in
  let s := set_record s (record_clear (record s)) in
  set_constraints s (clear (constraints s)).

Definition reset (s : SessionState) : SessionState :=
  let s := discard_composition s in set_sentence s (sentence_reset (sentence s)).

Definition refill_raw (text : bytes) (s : SessionState) : SessionState :=
  let restoring := bool_decide (raw (input s) = []) && negb (bool_decide (text = [])) && is_active (constraints s) in
  let s := set_input s (refill (input s) text) in
  let s := if restoring then rebuild_selection_from_constraints s else s in
  set_record s (clamp_consumed (record s) (raw (input s))).

Definition on_input (f : InputBuffer -> InputBuffer) (s : SessionState) : SessionState := set_input s (f (input s)).

Definition set_collapse (collapse : bool) (s : SessionState) : SessionState :=
  let s := if bool_decide (collapse_sentence_rows_to_best s = collapse) then s else on_input invalidate_topology s in
  mk_state (options s) (scoring s) (key_costs s) collapse (candidate_ranking s) (nbest_shape s) (defer_list_builds s)
    (input s) (record s) (constraints s) (lookup_ s) (sentence s) (scan_unreadable s) (scan_ranked_phrase s).
Definition set_candidate_ranking (ranking : CandidateRanking) (s : SessionState) : SessionState :=
  mk_state (options s) (scoring s) (key_costs s) (collapse_sentence_rows_to_best s) ranking (nbest_shape s)
    (defer_list_builds s) (input s) (record s) (constraints s) (lookup_ s) (sentence s) (scan_unreadable s)
    (scan_ranked_phrase s).
Definition set_nbest_shape (shape : NbestShape) (s : SessionState) : SessionState :=
  mk_state (options s) (scoring s) (key_costs s) (collapse_sentence_rows_to_best s) (candidate_ranking s) shape
    (defer_list_builds s) (input s) (record s) (constraints s) (lookup_ s) (sentence s) (scan_unreadable s)
    (scan_ranked_phrase s).
Definition set_defer_list_builds (defer : bool) (s : SessionState) : SessionState :=
  mk_state (options s) (scoring s) (key_costs s) (collapse_sentence_rows_to_best s) (candidate_ranking s)
    (nbest_shape s) defer (input s) (record s) (constraints s) (lookup_ s) (sentence s) (scan_unreadable s)
    (scan_ranked_phrase s).
Definition set_scoring_config (c : ScoringConfig) (s : SessionState) : SessionState :=
  mk_state (options s) c (key_costs s) (collapse_sentence_rows_to_best s) (candidate_ranking s) (nbest_shape s)
    (defer_list_builds s) (input s) (record s) (constraints s) (lookup_ s) (sentence s) (scan_unreadable s)
    (scan_ranked_phrase s).
Definition put_options (o : OptionBits) (s : SessionState) : SessionState :=
  mk_state o (scoring s) (key_costs s) (collapse_sentence_rows_to_best s) (candidate_ranking s) (nbest_shape s)
    (defer_list_builds s) (input s) (record s) (constraints s) (lookup_ s) (sentence s) (scan_unreadable s)
    (scan_ranked_phrase s).
Definition put_sort_word (word : Z) (s : SessionState) : SessionState :=
  set_lookup s (mk_lookup (candidates (lookup_ s)) (parsed_prefix (lookup_ s)) (stale (lookup_ s)) word).

Definition clear_constraint (offset : nat) : session bool :=
  s ← get;
  '(store, cleared) ← must (clear_by_offset (constraints s) offset);
  modify (fun s => set_constraints s store);;
  if cleared : bool then modify rebuild_selection_from_constraints;; mret true else mret false.

(** ** Reading the sentences *)

Definition sentence_row (s : SessionState) (rank : Z) : option NbestRow := s_rows (sentence s) !! Z.to_nat rank.

Definition sentence_text (s : SessionState) (rank : Z) : option PhraseText :=
  row ← sentence_row s rank; if is_empty (row_text row) then None else Some (row_text row).

Definition sentence_phrases (s : SessionState) (rank : Z) : option (list PhraseText) :=
  row ← sentence_row s rank; if is_empty (row_text row) then None else Some (phrases (sentence s) row).

Definition sentence_log_possibility (s : SessionState) (rank : Z) : option f32 :=
  row ← sentence_row s rank; row_poss row.

(** ** Operations over the backends *)

Section session.
Context {D L : Type} `{Dictionary D, !CandidateDictionary D, !SuggestionDictionary D, LanguageModel L, !SessionModel L}
  (d : D) (l : L) (ln : f64 -> f64) (long_sentence_penalty : f32).

(** *** Input *)

(** [is_batch_input_character]: no byte of another character is one. *)
Definition is_batch_input (b : byte) : bool := in_range 33 126 b.

Definition push_all (text : bytes) (b : InputBuffer) : InputBuffer :=
  fold_left (fun b c => push b [c]) (filter (fun c => is_batch_input c = true) text) b.

Definition type_pinyin (text : bytes) : session KeyOutcome :=
  s ← get;
  let before := length (raw (input s)) in
  modify (on_input (push_all text));;
  s ← get;
  if length (raw (input s)) =? before then mret Ignored
  else refresh d l;; mret Consumed.

Definition erase : session KeyOutcome :=
  s ← get;
  if consumed_ (record s) <? length (raw (input s)) then
    modify (on_input pop);; refresh d l;; mret Consumed
  else if negb (is_empty (selected (record s))) then
    modify (fun s => set_constraints (set_record s (record_clear (record s))) (clear (constraints s)));;
    refresh d l;; mret Consumed
  else mret Ignored.

(** *** Replacing the input *)

Definition replacement_extends_selection (text : bytes) : session bool :=
  s ← get;
  must (if length (raw (input s)) <? consumed_ (record s) then None
        else Some (starts_with text (take (consumed_ (record s)) (raw (input s))))).

Definition spelling_of (s : SessionState) (retained : RetainedParse) : ConstraintSpelling :=
  {| cs_scan := rp_scan retained; cs_bound := pm_bound (rp_matrix retained);
     cs_physical := physical_separators (input s); cs_input := raw (input s) |}.

Definition validate_forcings (s : SessionState) (retained : RetainedParse)
    : session (ConstraintStore * result bool EngineError) :=
  must (validate_with (spells d (spelling_of s retained)) None (constraints s) (pm_bound (rp_matrix retained) + 1)).

Definition reconcile_replaced_selection : session unit :=
  s ← get;
  if consumed_ (record s) =? 0 then mret tt
  else
    parse ← retained_parse;
    kept ← (if 0 <? pm_bound (rp_matrix parse)
            then '(store, dropped) ← validate_forcings s parse; _ ← lift dropped; mret store
            else mret (clear (constraints s)));
    modify (fun s => set_record s (rebuild_from_constraints (record s) (raw (input s)) (runs kept))).

Definition reconcile_unless (continuous : bool) : session unit :=
  (if continuous then mret tt else reconcile_replaced_selection);; refresh_after_parse d l.

Definition replace_raw_with_physical_separators (text : bytes) (physical : bool) : session unit :=
  modify (on_input clear_exact);;
  continuous ← replacement_extends_selection text;
  modify (refill_raw text);;
  modify (on_input (fun b => set_physical_separators b physical));;
  reconcile_unless continuous.

Definition replace_raw (text : bytes) : session unit := replace_raw_with_physical_separators text true.

Definition replace_raw_exact (text : bytes) (segments : list ExactSegment) : session unit :=
  continuous ← replacement_extends_selection text;
  modify (refill_raw text);;
  modify (on_input (fun b => set_exact b segments));;
  reconcile_unless continuous.

Definition replace_raw_full_pinyin (text : bytes) (segments : list ExactSegment) : session unit :=
  continuous ← replacement_extends_selection text;
  modify (refill_raw text);;
  modify (on_input (fun b => set_full_pinyin b segments));;
  reconcile_unless continuous.

(** *** Settings *)

Definition set_options (o : OptionBits) : session unit :=
  s ← get;
  if bool_decide (options s = o) then mret tt
  else
    modify (fun s => on_input invalidate (put_options o s));;
    if bool_decide (raw (input s) = []) then mret tt else refresh d l.

Definition set_incomplete_pinyin (enabled : bool) : session unit :=
  s ← get; set_options (with_bit (options s) PINYIN_INCOMPLETE enabled).

Definition set_sort_options (word : Z) : session unit :=
  s ← get;
  if bool_decide (sort_word (lookup_ s) = word) then mret tt
  else
    modify (put_sort_word word);;
    if bool_decide (raw (input s) = []) then mret tt
    else if defer_list_builds s then modify (set_stale true)
    else refresh d l.

(** *** Selection *)

Definition select_behind (start end_ : nat) (token : option Z) (text : PhraseText) : session Selection :=
  s ← get;
  match token with
  | None => fail (SelectionAnchorBeforeComposition start (consumed_ (record s)))
  | Some token =>
      '(store, _) ← must (add (store_resize (constraints s) (length (raw (input s)) + 1)) start end_ token text);
      modify (fun s => rebuild_selection_from_constraints (set_constraints s store));;
      refresh d l;;
      s ← get; mret (selection_outcome s)
  end.

(** The text, the parts and the tokens a choice leaves on the record. *)
Definition record_text (s : SessionState) (candidate : Candidate) (span_start : nat) : SelectionRecord :=
  let r := record s in
  match nbest_row candidate with
  | Some rank =>
      set_selected r (cand_text candidate)
        match sentence_row s rank with
        | Some row => phrases (sentence s) row
        | None => [cand_text candidate]
        end
  | None =>
      let gap := if consumed_ r <? span_start then default [] (str_get (raw (input s)) (consumed_ r) span_start) else [] in
      append_selected r gap (cand_text candidate)
  end.

Definition record_tokens (s : SessionState) (candidate : Candidate) (token : option Z) (r : SelectionRecord)
    : SelectionRecord :=
  match token with
  | Some token => push_token r token
  | None =>
      match nbest_row candidate ≫= sentence_row s with
      | Some row => reset_history_extend r (s_history (sentence s)) (row_tokens row)
      | None => r
      end
  end.

(** The forcings a choice writes; [None] of the answer is a row that is gone. *)
Definition forced_store (s : SessionState) (candidate : Candidate) (token : option Z) (start end_ : nat)
    : option (option ConstraintStore) :=
  let len := length (raw (input s)) in
  let store := constraints s in
  match nbest_row candidate with
  | Some rank =>
      match sentence_row s rank with
      | None => Some None
      | Some chosen =>
          match head (s_rows (sentence s)) with
          | None => Some (Some store)
          | Some best =>
              '(store, _) ← diff_result (store_resize store (len + 1)) (row_spans best) (row_spans chosen) len;
              Some (Some store)
          end
      end
  | None =>
      match token with
      | None => Some (Some store)
      | Some token =>
          '(store, _) ← add (store_resize store (len + 1)) start end_ token (cand_text candidate);
          Some (Some store)
      end
  end.

Definition select_inner (anchor : nat) (candidate : Candidate) (token_override : option Z) : session Selection :=
  s ← get;
  let token := match token_override with Some t => Some t | None => cand_token candidate end in
  let start := anchor + Z.to_nat (Ranking.span_start candidate) in
  let end_ := next_boundary (raw (input s)) (anchor + Z.to_nat (consumed_bytes candidate)) in
  if (start <? consumed_ (record s)) && bool_decide (nbest_row candidate = None)
  then select_behind start end_ token (cand_text candidate)
  else
    modify (fun s => set_record s (record_tokens s candidate token (record_text s candidate start)));;
    store ← must (forced_store s candidate token start end_);
    match store with
    | None => modify (fun s => set_record s (set_consumed (record s) end_))
    | Some store =>
        modify (fun s => set_constraints s store);;
        modify (fun s => set_record s (set_committed (set_consumed (record s) end_) (length (raw (input s)) <=? end_)))
    end;;
    refresh d l;;
    s ← get; mret (selection_outcome s).

(** [select] and [select_promoted]. *)
Definition select (index : nat) (promoted : option Z) : session Selection :=
  refresh_candidates d l;;
  s ← get;
  match candidates (lookup_ s) !! index with
  | Some candidate => select_inner (consumed_ (record s)) candidate promoted
  | None => fail (CandidateIndexOutOfRange index (length (candidates (lookup_ s))))
  end.

(** [select_anchored] and [select_anchored_promoted]. *)
Definition select_anchored (index : nat) (window : list Candidate) (anchor : nat) (promoted : option Z)
    : session Selection :=
  s ← get;
  if length (raw (input s)) <? anchor then fail (LookupOffsetOutOfRange anchor (length (raw (input s))))
  else
    match window !! index with
    | Some candidate => select_inner anchor candidate promoted
    | None => fail (CandidateIndexOutOfRange index (length window))
    end.

(** *** Sentences *)

Definition put_rows (rows : list NbestRow) (s : SessionState) : SessionState :=
  set_sentence s (mk_sentence rows (s_history (sentence s)) (s_active (sentence s)) (last_result (sentence s))
                    (s_prefix (sentence s))).
Definition put_sentence_history (h : list Z) (s : SessionState) : SessionState :=
  set_sentence s (mk_sentence (s_rows (sentence s)) h (s_active (sentence s)) (last_result (sentence s))
                    (s_prefix (sentence s))).
Definition put_last_result (s : SessionState) : SessionState :=
  set_sentence s (mk_sentence (s_rows (sentence s)) (s_history (sentence s)) (s_active (sentence s))
                    (match s_rows (sentence s) with [] => [] | row :: _ => row_spans row end) (s_prefix (sentence s))).

Definition clear_selection (s : SessionState) : SessionState :=
  set_record (set_constraints s (clear (constraints s))) (record_clear (record s)).

(** The forcings checked against the parse, and the record after them. *)
Definition update_constraints : session unit :=
  retained ← retained_parse;
  s ← get;
  '(store, dropped) ← validate_forcings s retained;
  modify (fun s => set_constraints s store);;
  dropped ← lift dropped;
  if (dropped : bool) || (is_active store && bool_decide (history (record s) = []))
  then modify rebuild_selection_from_constraints else mret tt.

(** The decode over the whole parse. *)
Definition decode_matrix (seeds : option (list Z)) : session (list NbestRow) :=
  retained ← retained_parse;
  s ← get;
  let input_ := {| gi_matrix := rp_scan retained; gi_bound := pm_bound (rp_matrix retained);
                   gi_physical := physical_separators (input s); gi_topology := Some (rp_matrix retained) |} in
  lift match seeds with
       | None =>
           nbest_sentences_generation d l ln long_sentence_penalty input_ [] (Some (constraints s)) (nbest_shape s)
       | Some seeds =>
           nbest_sentences_with_seeds_generation d l ln long_sentence_penalty input_ seeds (Some (constraints s))
             (nbest_shape s)
       end.

Definition guess_over_matrix (seeds : option (list Z)) : session bool :=
  retained ← retained_parse;
  if pm_bound (rp_matrix retained) =? 0 then mret false
  else
    update_constraints;;
    rows ← decode_matrix seeds;
    modify (put_rows rows);;
    match seeds with None => modify (put_sentence_history []) | Some _ => mret tt end;;
    modify put_last_result;;
    refresh_after_parse d l;;
    mret true.

(** The rows of a model without unigrams. *)
Section path_sentences.
Context (s : SessionState) (graph : SegmentGraph).

Fixpoint path_sentences (paths : list DecodedPath)
    : option (result (list (Candidate * list Z)) EngineError) :=
  match paths with
  | [] => Some (Ok [])
  | path :: paths =>
      found ← collect_sentences_with_tokens d l s graph path;
      match found with
      | Err e => Some (Err e)
      | Ok rows =>
          more ← path_sentences paths;
          Some (match more with Ok more => Ok (rows ++ more) | Err e => Err e end)
      end
  end.

End path_sentences.

Fixpoint first_of_each_text (seen : list PhraseText) (rows : list (Candidate * list Z)) : list (Candidate * list Z) :=
  match rows with
  | [] => []
  | row :: rows =>
      if existsb (fun text => text_eq text (cand_text row.1)) seen then first_of_each_text seen rows
      else row :: first_of_each_text (cand_text row.1 :: seen) rows
  end.

Definition fallback_sentence (row : Candidate * list Z) : NbestRow :=
  mk_row (cand_text row.1) row.2 [] (consumed_keys row.1) (Z.to_nat (consumed_bytes row.1)) (cand_cost row.1) None.

Definition fallback_sentences (s : SessionState) (graph : SegmentGraph) : session (list NbestRow) :=
  paths ← lift (decoded_paths d l s graph);
  found ← must (path_sentences s graph paths);
  sentences ← lift found;
  mret (fallback_sentence <$> take (nbest (nbest_shape s))
          (first_of_each_text [] (sort_by_key (fun row => cand_cost row.1) sentences))).

Definition remaining_sentences (s : SessionState) (graph : SegmentGraph) : session (list NbestRow) :=
  if has_real_unigrams l then
    '(matrix, topology) ←
      (if consumed_ (record s) =? 0
       then retained ← retained_parse; mret (rp_scan retained, Some (rp_matrix retained))
       else suffix ← must (build_scan_matrix graph (options s) (scan_divided s)); mret (suffix, None));
    lift (nbest_sentences_generation d l ln long_sentence_penalty
            {| gi_matrix := matrix; gi_bound := consumed graph; gi_physical := physical_separators (input s);
               gi_topology := topology |} (history (record s)) None (nbest_shape s))
  else fallback_sentences s graph.

Definition shift_span (offset : nat) (span : PhraseSpan) : PhraseSpan :=
  {| Constraint.span_start := Constraint.span_start span + offset; span_token := Constraint.span_token span;
     span_text := Constraint.span_text span |}.
Definition shift_row (offset : nat) (row : NbestRow) : NbestRow :=
  mk_row (row_text row) (row_tokens row) (shift_span offset <$> row_spans row) (row_keys row) (row_span row)
    (row_cost row) (row_poss row).
Definition prefix_row (prefix : PhraseText) (row : NbestRow) : NbestRow :=
  mk_row (concat_finish (concat_push (concat_push concat_new prefix) (row_text row))) (row_tokens row) (row_spans row)
    (row_keys row) (row_span row) (row_cost row) (row_poss row).

(** The rows of the remaining input, made the composition's. *)
Definition keep_sentences (rows : list NbestRow) (s : SessionState) : SessionState :=
  let r := record s in
  let rows := shift_row (consumed_ r) <$> rows in
  let s := put_last_result (put_sentence_history (history r) (put_rows rows s)) in
  if is_empty (selected r) then s
  else
    let s := set_sentence s (mk_sentence (s_rows (sentence s)) (s_history (sentence s)) (s_active (sentence s))
                               (last_result (sentence s)) (parts r)) in
    put_rows (prefix_row (selected r) <$> rows) s.

Definition guess_over_remaining : session bool :=
  s ← get;
  remaining ← must (str_from (raw (input s)) (consumed_ (record s)));
  if bool_decide (remaining = []) then mret false
  else
    graph ← build_graph_at (consumed_ (record s)) remaining;
    if consumed graph =? 0 then mret false
    else
      rows ← remaining_sentences s graph;
      modify (keep_sentences rows);;
      refresh_after_parse d l;;
      mret true.

(** Both guesses start so; the guess goes on with an input. *)
Definition begin_guess (go : session bool) : session bool :=
  ensure_matrix;;
  modify (fun s => set_sentence s (sentence_begin (sentence s)));;
  s ← get;
  if bool_decide (raw (input s) = []) then modify clear_selection;; mret false else go.

Definition guess_sentence : session bool :=
  begin_guess
    (s ← get;
     let remaining_empty := length (raw (input s)) <=? consumed_ (record s) in
     if negb remaining_empty && (negb (is_active (constraints s)) || negb (has_real_unigrams l))
     then guess_over_remaining
     else if negb (has_real_unigrams l) then mret false
     else guess_over_matrix None).

Definition guess_sentence_with_prefix (prefix_tokens : list Z) : session bool :=
  begin_guess (guess_over_matrix (Some (SENTENCE_START :: prefix_tokens))).

(** *** Training *)

Section train.
Context {U : Type} `{UserModel U}.

Definition observe_token (u : U) (prefix : list Z) (token : Z) : U * result unit EngineError :=
  let '(u, r) := observe u prefix token in (u, user_error r).
Definition check_token (u : U) (prefix : list Z) (token : Z) : U * result unit EngineError :=
  let '(u, r) := check_step u prefix token in (u, user_error r).

Definition train_history (s : SessionState) (u : U) : U * result unit EngineError :=
  match each_token check_token u [] (history (record s)) with
  | (u, Err e) => (u, Err e)
  | (u, Ok _) => each_token observe_token u [] (history (record s))
  end.

(** The walk of [plan_spans]: the end of each span that trains. *)
Section plan.
Context (check : U -> list Z -> Z -> U * result unit EngineError) (store : ConstraintStore) (matrix : ParsedMatrix).

Definition span_fault (start end_ : nat) : option TrainingSpanFault :=
  let columns := pm_columns matrix in
  if length columns <=? end_ then Some PastMatrixEnd
  else if column_is_empty columns (pm_zeros matrix) start then Some EmptyStartColumn
  else if column_is_empty columns (pm_zeros matrix) end_ then Some EndEmptyColumn
  else None.

Fixpoint plan_walk (u : U) (prefix : list Z) (spans : list PhraseSpan) (train_next : bool)
    : U * result (list (option nat)) EngineError :=
  let tail := cell_count store - 1 in
  match spans with
  | [] => (u, Ok [])
  | span :: rest =>
      let start := Constraint.span_start span in
      let token := span_token span in
      if cell_count store <=? start then (u, Ok (replicate (length spans) None))
      else
        let forced := is_one_step_at store start in
        let go u next end_ :=
          match plan_walk u (prefix ++ [token]) rest next with
          | (u, Ok ends) => (u, Ok (end_ :: ends))
          | (u, Err e) => (u, Err e)
          end in
        if negb (train_next || forced) then go u train_next None
        else if forced && match one_step_token_at store start with Some t => negb (t =? token)%Z | None => false end
        then (u, Err (StaleTrainingConstraint start))
        else
          match check u prefix token with
          | (u, Err e) => (u, Err e)
          | (u, Ok _) =>
              let next := match rest with next :: _ => Constraint.span_start next | [] => tail end in
              let end_ := Nat.min next tail in
              match span_fault start end_ with
              | Some fault => (u, Err (StaleTrainingSpan start fault))
              | None => go u forced (Some end_)
              end
          end
  end.
End plan.

(** The user model's state beside the answer, which an error keeps. *)
Definition plan_spans (check : U -> list Z -> Z -> U * result unit EngineError) (spans : list PhraseSpan) (u : U)
    : session (U * result (option (list (option nat))) EngineError) :=
  s ← get;
  if negb (existsb (fun span => is_one_step_at (constraints s) (Constraint.span_start span)) spans)
  then mret (u, Ok None)
  else
    retained ← attempt retained_parse;
    mret match retained with
         | Err e => (u, Err e)
         | Ok retained =>
             let '(u, ends) := plan_walk check (constraints s) (rp_matrix retained) u [] spans false in
             (u, match ends with Ok ends => Ok (Some ends) | Err e => Err e end)
         end.

Fixpoint observe_spans (matrix : ParsedMatrix) (input : bytes) (u : U) (context : list Z)
    (spans : list (PhraseSpan * option nat)) : U * result unit EngineError :=
  match spans with
  | [] => (u, Ok tt)
  | (span, end_) :: rest =>
      let context' := context ++ [span_token span] in
      match end_ with
      | None => observe_spans matrix input u context' rest
      | Some end_ =>
          let readings :=
            span_readings (pm_columns matrix) input end_ (phrase_length (span_text span)) (Constraint.span_start span) in
          match observe_with_keys u context (span_token span) readings with
          | (u, Err e) => (u, user_error (Err e))
          | (u, Ok _) => observe_spans matrix input u context' rest
          end
      end
  end.

Definition train_spans (spans : list PhraseSpan) (u : U) : session (U * result unit EngineError) :=
  '(u, ends) ← plan_spans check_token spans u;
  match ends with
  | Err e => mret (u, Err e)
  | Ok None => mret (u, Ok tt)
  | Ok (Some ends) =>
      s ← get;
      retained ← attempt retained_parse;
      mret match retained with
           | Err e => (u, Err e)
           | Ok retained => observe_spans (rp_matrix retained) (raw (input s)) u [] (zip spans ends)
           end
  end.

Definition train (u : U) : session (U * result unit EngineError) :=
  s ← get;
  if bool_decide (last_result (sentence s) = []) then mret (train_history s u)
  else train_spans (last_result (sentence s)) u.

(** The row of an index, or the error past rows there are. *)
Definition nbest_training_row (s : SessionState) (index : Z) : result (option NbestRow) EngineError :=
  match s_rows (sentence s) with
  | [] => Ok None
  | rows =>
      match rows !! Z.to_nat index with
      | Some row => Ok (Some row)
      | None => Err (CandidateIndexOutOfRange (Z.to_nat index) (length rows))
      end
  end.

Definition trained (r : U * result unit EngineError) : U * result bool EngineError :=
  let '(u, r) := r in (u, match r with Ok _ => Ok true | Err e => Err e end).

Definition train_nbest (index : Z) (u : U) : session (U * result bool EngineError) :=
  s ← get;
  match nbest_training_row s index with
  | Err e => mret (u, Err e)
  | Ok None => mret (u, Ok false)
  | Ok (Some row) =>
      if bool_decide (row_spans row = []) then mret (trained (train_history s u))
      else r ← train_spans (row_spans row) u; mret (trained r)
  end.
End train.

Definition train_nbest_preflight (index : Z) : session unit :=
  s ← get;
  row ← lift (nbest_training_row s index);
  match row with
  | Some row =>
      if bool_decide (row_spans row = []) then mret tt
      else
        '(_, ends) ← plan_spans (fun u _ _ => (u, Ok tt)) (row_spans row) tt;
        _ ← lift ends; mret tt
  | None => mret tt
  end.
End session.
