(* ===== verification/SessionSpec.v ===== *)
(** * SessionSpec: the caches of a session are invisible

    Every operation of a session answers what it answers with its caches
    emptied first, and leaves a state that differs in the caches alone; what
    a cache holds is what a fresh build gives. *)

From Stdlib Require Import ZArith Lia Bool Strings.Byte.
From stdpp Require Import base list.
From S2P Require Import Prelude Options Vocab Ucs4 Graph Float Kbest Models Scoring Ranking ScanMatrix MatrixBuild WindowScan Cursor CharOffset Trellis Nbest Constraint SessionState Retained Refresh Session.

(** ** What a fresh build gives *)

Definition Caches : Type := option SegmentGraph * option SelectedPath * option RetainedParse * option (list MatrixKey * nat).

Definition recache (s : SessionState) (c : Caches) : SessionState :=
  set_input s (with_caches (input s) c.1.1.1 c.1.1.2 c.1.2 c.2).

(** A state with its caches emptied. *)
Definition forget (s : SessionState) : SessionState := recache s (None, None, None, None).

Definition fresh_graph (s : SessionState) : result SegmentGraph EngineError :=
  build_uncached_graph_at s 0 (raw (input s)).

Definition fresh_selected (s : SessionState) : result SelectedPath EngineError :=
  match fresh_graph s with
  | Err e => Err e
  | Ok graph => Ok (path_of_edges (raw (input s)) (fewest_keys graph (has_incomplete (options s))))
  end.

Definition fresh_parse (s : SessionState) : option (result RetainedParse EngineError) :=
  match fresh_graph s, fresh_selected s with
  | Ok graph, Ok selected =>
      scan ← build_scan_matrix_over graph (sp_edges selected) (options s) (scan_divided s);
      Some (Ok {| rp_scan := scan; rp_matrix := from_scan scan (consumed graph) (physical_separators (input s)) |})
  | Err e, _ | _, Err e => Some (Err e)
  end.

Definition fresh_keys (s : SessionState) : option (result (list MatrixKey * nat) EngineError) :=
  if full_pinyin (input s) then
    parse ← fresh_parse s;
    Some (match parse with
          | Ok parse => Ok (in_column_order (scan_keys (rp_scan parse)), pm_bound (rp_matrix parse))
          | Err e => Err e
          end)
  else Cursor.matrix_keys (raw (input s)) (options s).

(** What a cache holds is what a fresh build gives. *)
Record coherent (s : SessionState) : Prop := {
  coherent_graph : forall g, graph_cache (input s) = Some g -> fresh_graph s = Ok g;
  coherent_selected : forall p, selected_cache (input s) = Some p -> fresh_selected s = Ok p;
  coherent_parse : forall p, parse_cache (input s) = Some p -> fresh_parse s = Some (Ok p);
  coherent_keys : forall k, keys_cache (input s) = Some k -> fresh_keys s = Some (Ok k)
}.

(** ** Two runs side by side *)

(** Two states that differ from [base] in the caches alone; [held] says the
    retained parse is cached in both. *)
Record sees (base : SessionState) (held : bool) (s s' : SessionState) : Prop := {
  sees_left : exists c, s = recache base c;
  sees_right : exists c, s' = recache base c;
  sees_coherent : coherent s;
  sees_coherent' : coherent s';
  sees_held : held = true -> parse_cache (input s) <> None /\ parse_cache (input s') <> None
}.

Definition same (s s' : SessionState) : Prop := exists base, sees base false s s'.

(** From states related by [R], the same answer, and states related by [Q]. *)
Definition steps {A} (R Q : SessionState -> SessionState -> Prop) (m m' : session A) : Prop :=
  forall s s', R s s' ->
  match m s, m' s' with
  | Some (t, r), Some (t', r') => r = r' /\ match r with Ok _ => Q t t' | Err _ => same t t' end
  | None, None => True
  | _, _ => False
  end.

Lemma recache_recache s c c' : recache (recache s c) c' = recache s c'.
Proof. by destruct c as [[[??]?]?], c' as [[[??]?]?]. Qed.

Lemma sees_weaken base h s s' : sees base h s s' -> sees base false s s'.
Proof. intros [? ? ? ? _]. by constructor. Qed.

Lemma sees_any base h s s' : sees base true s s' -> sees base h s s'.
Proof. intros [? ? ? ? Hh]. constructor; [done..|]. intros _. by apply Hh. Qed.

Lemma sees_same base h s s' : sees base h s s' -> same s s'.
Proof. intros Hs. exists base. by eapply sees_weaken. Qed.

(** A parse held in both is one parse. *)
Lemma sees_parse base s s' : sees base true s s' -> parse_cache (input s) = parse_cache (input s').
Proof.
  intros [[c ->] [c' ->] Hs Hs' Hh]. destruct (Hh eq_refl) as [Hn Hn'].
  destruct (parse_cache (input (recache base c))) as [p|] eqn:Ep; [|done].
  destruct (parse_cache (input (recache base c'))) as [p'|] eqn:Ep'; [|done].
  apply coherent_parse in Ep; [|done]. apply coherent_parse in Ep'; [|done].
  change (fresh_parse (recache base c')) with (fresh_parse (recache base c)) in Ep'. congruence.
Qed.

Lemma steps_weaken {A} (R R' Q Q' : SessionState -> SessionState -> Prop) (m m' : session A) :
  (forall s s', R' s s' -> R s s') -> (forall s s', Q s s' -> Q' s s') -> steps R Q m m' -> steps R' Q' m m'.
Proof.
  intros HR HQ Hm s s' Hs. specialize (Hm s s' (HR _ _ Hs)).
  destruct (m s) as [[t [a|e]]|], (m' s') as [[t' r']|]; naive_solver.
Qed.

Lemma steps_ret {A} (R Q : SessionState -> SessionState -> Prop) (a a' : A) :
  a = a' -> (forall s s', R s s' -> Q s s') -> steps R Q (mret a) (mret a').
Proof. intros -> HQ s s' Hs. split; [done|]. by apply HQ. Qed.

Lemma steps_bind {A B} R Q T (m m' : session A) (f f' : A -> session B) :
  steps R Q m m' -> (forall a, steps Q T (f a) (f' a)) -> steps R T (m ≫= f) (m' ≫= f').
Proof.
  intros Hm Hf s s' Hs. specialize (Hm s s' Hs). unfold mbind, session_bind.
  destruct (m s) as [[t [a|e]]|], (m' s') as [[t' r']|]; try done.
  - destruct Hm as [<- Hq]. by apply Hf.
  - by destruct Hm as [<- Hq].
Qed.

Lemma steps_get {A} base h Q (f f' : SessionState -> session A) :
  (forall c c', sees base h (recache base c) (recache base c') ->
     steps (sees base h) Q (f (recache base c)) (f' (recache base c'))) ->
  steps (sees base h) Q (get ≫= f) (get ≫= f').
Proof.
  intros Hf s s' Hs. pose proof Hs as [[c ->] [c' ->] _ _ _]. unfold mbind, session_bind, get. by apply Hf.
Qed.

Lemma steps_same {A} Q (m m' : session A) :
  (forall base, steps (sees base false) Q m m') -> steps same Q m m'.
Proof. intros Hm s s' [base Hs]. by eapply Hm. Qed.

Lemma steps_lift {A} base h (r r' : result A EngineError) :
  r = r' -> steps (sees base h) (sees base h) (lift r) (lift r').
Proof. intros -> s s' Hs. split; [done|]. destruct r'; [done|]. by eapply sees_same. Qed.

Lemma steps_must {A} (R : SessionState -> SessionState -> Prop) (a a' : option A) :
  a = a' -> steps R R (must a) (must a').
Proof. intros -> s s' Hs. unfold must. by destruct a'. Qed.

Lemma steps_must_bind {A B} (R T : SessionState -> SessionState -> Prop) (a a' : option A) (f f' : A -> session B) :
  a = a' -> (forall x, a' = Some x -> steps R T (f x) (f' x)) -> steps R T (must a ≫= f) (must a' ≫= f').
Proof.
  intros -> Hf s s' Hs. unfold mbind, session_bind, must. destruct a' as [x|]; [|done]. by apply Hf.
Qed.

Lemma steps_fail {A} base h Q (e : EngineError) : steps (A := A) (sees base h) Q (fail e) (fail e).
Proof. intros s s' Hs. split; [done|]. by eapply sees_same. Qed.

Lemma steps_attempt {A} R (m m' : session A) : steps R same m m' -> steps R same (attempt m) (attempt m').
Proof.
  intros Hm s s' Hs. specialize (Hm s s' Hs). unfold attempt.
  destruct (m s) as [[t [a|e]]|], (m' s') as [[t' r']|]; naive_solver.
Qed.

Lemma steps_modify base h h' (f g : SessionState -> SessionState) (next : SessionState) :
  (forall s s', sees base h s s' -> sees next h' (f s) (g s')) ->
  steps (sees base h) (sees next h') (modify f) (modify g).
Proof. intros Hf s s' Hs. split; [done|]. by apply Hf. Qed.

Lemma coherent_eq s t :
  input s = input t -> options s = options t ->
  collapse_sentence_rows_to_best s = collapse_sentence_rows_to_best t -> coherent s -> coherent t.
Proof. destruct s, t; cbn; intros -> -> -> [Hg Hs Hp Hk]. constructor; [exact Hg|exact Hs|exact Hp|exact Hk]. Qed.

Lemma coherent_forget s : coherent (forget s).
Proof. by constructor. Qed.

(** A change outside the input, the options and the collapse mode. *)
Lemma sees_aside base h f :
  (forall c, f (recache base c) = recache (f base) c) ->
  input (f base) = input base -> options (f base) = options base ->
  collapse_sentence_rows_to_best (f base) = collapse_sentence_rows_to_best base ->
  forall s s', sees base h s s' -> sees (f base) h (f s) (f s').
Proof.
  intros Hf Hi Ho Hc s s' [[c ->] [c' ->] Hs Hs' Hh]. rewrite !Hf.
  assert (Hco : forall c, coherent (recache base c) -> coherent (recache (f base) c)).
  { intros [[[??]?]?]. apply coherent_eq; cbn; by rewrite ?Hi, ?Ho, ?Hc. }
  constructor; [by eexists|by eexists|by apply Hco|by apply Hco|].
  destruct c as [[[??]?]?], c' as [[[??]?]?]. exact Hh.
Qed.

(** A change that empties every cache. *)
Lemma sees_emptied base h f :
  (forall c, f (recache base c) = forget (f base)) ->
  forall s s', sees base h s s' -> sees (f base) false (f s) (f s').
Proof.
  intros Hf s s' [[c ->] [c' ->] _ _ _]. rewrite !Hf.
  constructor; [by eexists|by eexists|apply coherent_forget|apply coherent_forget|done].
Qed.

Lemma steps_aside base h f :
  (forall c, f (recache base c) = recache (f base) c) ->
  input (f base) = input base -> options (f base) = options base ->
  collapse_sentence_rows_to_best (f base) = collapse_sentence_rows_to_best base ->
  steps (sees base h) (sees (f base) h) (modify f) (modify f).
Proof. intros ? ? ? ?. apply steps_modify. by apply sees_aside. Qed.

Lemma steps_emptied base h f :
  (forall c, f (recache base c) = forget (f base)) ->
  steps (sees base h) (sees (f base) false) (modify f) (modify f).
Proof. intros ?. apply steps_modify. by eapply sees_emptied. Qed.

(** ** The cached reads *)

(** A read answers [v] of any state it is asked of, and leaves caches. *)
Definition answers {A} (P : SessionState -> Prop) (m : session A)
    (v : SessionState -> option (result A EngineError)) (held : bool) : Prop :=
  forall s, coherent s -> P s ->
  match m s, v s with
  | Some (t, r), Some r' =>
      r = r' /\ (exists c, t = recache s c) /\ coherent t
      /\ (parse_cache (input s) <> None -> parse_cache (input t) <> None)
      /\ (forall a, r = Ok a -> held = true -> parse_cache (input t) <> None)
  | None, None => True
  | _, _ => False
  end.

Lemma recache_self s : exists c, s = recache s c.
Proof.
  exists (graph_cache (input s), selected_cache (input s), parse_cache (input s), keys_cache (input s)).
  by destruct s as [???????[]].
Qed.

(** What a read says to the two runs. *)
Lemma steps_read {A} P (m : session A) v held base h :
  answers P m v held -> (forall c, v (recache base c) = v base) -> (forall c, P (recache base c)) ->
  steps (sees base h) (sees base (h || held)) m m.
Proof.
  intros Hm Hv HP s s' [[c ->] [c' ->] Hs Hs' Hh].
  pose proof (Hm _ Hs (HP c)) as H1. pose proof (Hm _ Hs' (HP c')) as H2. rewrite Hv in H1, H2.
  destruct (m (recache base c)) as [[t r]|], (m (recache base c')) as [[t' r']|], (v base) as [r''|]; try done.
  destruct H1 as (-> & [d ->] & Hc & Hk & Hn), H2 as (-> & [d' ->] & Hc' & Hk' & Hn'). split; [done|].
  rewrite !recache_recache in *.
  assert (Hsee : forall h', (h' = true -> parse_cache (input (recache base d)) <> None /\ parse_cache (input (recache base d')) <> None) ->
    sees base h' (recache base d) (recache base d')).
  { intros h' Hh'. constructor; [by eexists|by eexists|done|done|done]. }
  destruct r'' as [a|e]; [|exists base; by apply Hsee].
  apply Hsee. intros Eh. apply orb_true_iff in Eh as [->| ->]; [naive_solver|].
  split; [by eapply Hn|by eapply Hn'].
Qed.

Lemma coherent_fill s g p r k :
  (forall x, g = Some x -> fresh_graph s = Ok x) -> (forall x, p = Some x -> fresh_selected s = Ok x) ->
  (forall x, r = Some x -> fresh_parse s = Some (Ok x)) -> (forall x, k = Some x -> fresh_keys s = Some (Ok x)) ->
  coherent (recache s (g, p, r, k)).
Proof. intros Hg Hp Hr Hk. constructor; [exact Hg|exact Hp|exact Hr|exact Hk]. Qed.

Lemma coherent_keep_graph s g : coherent s -> fresh_graph s = Ok g -> coherent (keep_graph g s).
Proof. intros [? ? ? ?] Eg. apply (coherent_fill s (Some g)); [by intros ? [= <-]|done..]. Qed.
Lemma coherent_keep_selected s p : coherent s -> fresh_selected s = Ok p -> coherent (keep_selected p s).
Proof. intros [? ? ? ?] Ep. apply (coherent_fill s _ (Some p)); [done|by intros ? [= <-]|done..]. Qed.
Lemma coherent_keep_parse s p : coherent s -> fresh_parse s = Some (Ok p) -> coherent (keep_parse p s).
Proof. intros [? ? ? ?] Ep. apply (coherent_fill s _ _ (Some p)); [done|done|by intros ? [= <-]|done]. Qed.
Lemma coherent_keep_keys s k : coherent s -> fresh_keys s = Some (Ok k) -> coherent (keep_keys k s).
Proof. intros [? ? ? ?] Ek. apply (coherent_fill s _ _ _ (Some k)); [done|done|done|by intros ? [= <-]]. Qed.

Lemma answers_graph anchor remaining :
  answers (fun s => anchor = 0 -> remaining = raw (input s)) (build_graph_at anchor remaining)
    (fun s => Some (build_uncached_graph_at s anchor remaining)) false.
Proof.
  intros s Hs Hr. unfold build_graph_at, get, mbind, session_bind.
  destruct (Nat.eqb_spec anchor 0) as [->|Hne].
  2: { unfold lift. split_and!; try done. apply recache_self. }
  rewrite (Hr eq_refl). change (build_uncached_graph_at s 0 (raw (input s))) with (fresh_graph s).
  destruct (graph_cache (input s)) as [g|] eqn:Eg.
  { rewrite (coherent_graph _ Hs _ Eg). split_and!; try done. apply recache_self. }
  unfold lift, modify. destruct (fresh_graph s) as [g|e] eqn:Ef; split_and!; try done.
  - by eexists (_, _, _, _).
  - by apply coherent_keep_graph.
  - apply recache_self.
Qed.

Lemma answers_selected : answers (fun _ => True) selected_path (fun s => Some (fresh_selected s)) false.
Proof.
  intros s Hs _. unfold selected_path, get, mbind, session_bind.
  destruct (selected_cache (input s)) as [p|] eqn:Ep.
  { rewrite (coherent_selected _ Hs _ Ep). split_and!; try done. apply recache_self. }
  pose proof (answers_graph 0 (raw (input s)) s Hs (fun _ => eq_refl)) as Hg. fold (fresh_graph s) in Hg.
  destruct (build_graph_at 0 (raw (input s)) s) as [[t r]|]; [|done].
  destruct Hg as (-> & [c ->] & Hc & Hk & _). unfold fresh_selected. fold (fresh_graph s).
  destruct (fresh_graph s) as [g|e] eqn:Ef; [|split_and!; try done; by eexists].
  unfold modify. split_and!; try done.
  - destruct c as [[[a b] c] k]. by eexists (_, _, _, _).
  - apply coherent_keep_selected; [done|]. destruct c as [[[??]?]?]. unfold fresh_selected.
    change (fresh_graph (recache s _)) with (fresh_graph s). by rewrite Ef.
Qed.

Lemma answers_build : answers (fun _ => True) build_retained_parse fresh_parse false.
Proof.
  intros s Hs _. unfold build_retained_parse, get, mbind, session_bind.
  pose proof (answers_graph 0 (raw (input s)) s Hs (fun _ => eq_refl)) as Hg. fold (fresh_graph s) in Hg.
  destruct (build_graph_at 0 (raw (input s)) s) as [[t r]|]; [|done].
  destruct Hg as (-> & [c ->] & Hc & Hk & _). unfold fresh_parse.
  change (build_uncached_graph_at s 0 (raw (input s))) with (fresh_graph s).
  destruct (fresh_graph s) as [g|e] eqn:Ef; [|split_and!; try done; by eexists].
  pose proof (answers_selected _ Hc I) as Hp.
  destruct (selected_path (recache s c)) as [[t r]|]; [|done].
  destruct Hp as (-> & [c' ->] & Hc' & Hk' & _). rewrite recache_recache in *.
  replace (fresh_selected (recache s c)) with (fresh_selected s) in * by (by destruct c as [[[??]?]?]).
  destruct (fresh_selected s) as [p|e]; [|split_and!; [done|by eexists|done|tauto|done]].
  unfold must. destruct (build_scan_matrix_over g (sp_edges p) (options s) (scan_divided s)) as [scan|]; [|done].
  split_and!; [done|by eexists|done|tauto|done].
Qed.

Lemma answers_parse : answers (fun _ => True) retained_parse fresh_parse true.
Proof.
  intros s Hs _. unfold retained_parse, get, mbind, session_bind.
  destruct (parse_cache (input s)) as [p|] eqn:Ep.
  { rewrite (coherent_parse _ Hs _ Ep). split_and!; try done; try apply recache_self; intros; by rewrite Ep. }
  pose proof (answers_build _ Hs I) as Hb.
  destruct (build_retained_parse s) as [[t r]|]; [|done].
  destruct (fresh_parse s) as [r'|] eqn:Ef; [|done]. destruct Hb as (-> & [c ->] & Hc & Hk & _).
  destruct r' as [p|e]; [|split_and!; try done; by eexists].
  unfold modify. split_and!; try done.
  - destruct c as [[[a b] c] k]. by eexists (_, _, _, _).
  - apply coherent_keep_parse; [done|]. destruct c as [[[??]?]?]. exact Ef.
Qed.

Lemma answers_keys : answers (fun _ => True) Retained.matrix_keys fresh_keys false.
Proof.
  intros s Hs _. unfold Retained.matrix_keys, get, mbind, session_bind.
  destruct (keys_cache (input s)) as [k|] eqn:Ek.
  { rewrite (coherent_keys _ Hs _ Ek). split_and!; try done. apply recache_self. }
  assert (Hb : match build_matrix_keys s, fresh_keys s with
    | Some (t, r), Some r' =>
        r = r' /\ (exists c, t = recache s c) /\ coherent t
        /\ (parse_cache (input s) <> None -> parse_cache (input t) <> None)
    | None, None => True | _, _ => False end).
  { unfold build_matrix_keys, fresh_keys, get, mbind, session_bind. destruct (full_pinyin (input s)).
    - pose proof (answers_parse _ Hs I) as Hp.
      destruct (retained_parse s) as [[t r]|], (fresh_parse s) as [r'|]; try done; cbn [option_bind].
      destruct Hp as (-> & Hc & Hco & Hk & _). by destruct r'.
    - unfold must. destruct (Cursor.matrix_keys (raw (input s)) (options s)) as [r|]; [|done].
      unfold lift. split_and!; try done. apply recache_self. }
  destruct (build_matrix_keys s) as [[t r]|]; [|done].
  destruct (fresh_keys s) as [r'|] eqn:Ef; [|done]. destruct Hb as (-> & [c ->] & Hc & Hk).
  destruct r' as [k|e]; [|split_and!; try done; by eexists].
  unfold modify. split_and!; try done.
  - destruct c as [[[a b] c] k']. by eexists (_, _, _, _).
  - apply coherent_keep_keys; [done|]. destruct c as [[[??]?]?]. exact Ef.
Qed.

(** ** Steps of the reads *)

Create HintDb steps.

Lemma str_from_zero text n rest : str_from text n = Some rest -> n = 0 -> rest = text.
Proof.
  intros Hs ->. revert Hs.  unfold str_from, str_get. cbn. destruct (is_char_boundary text (length text)); [|done].
  intros [= <-]. rewrite drop_0, take_ge; [done|]. lia.
Qed.

Lemma see_graph base h anchor remaining :
  (anchor = 0 -> remaining = raw (input base)) ->
  steps (sees base h) (sees base h) (build_graph_at anchor remaining) (build_graph_at anchor remaining).
Proof.
  intros Hr. rewrite <- (orb_false_r h) at 2. by eapply steps_read; [apply answers_graph|..].
Qed.

Lemma see_selected base h : steps (sees base h) (sees base h) selected_path selected_path.
Proof. rewrite <- (orb_false_r h) at 2. by eapply steps_read; [apply answers_selected|..]. Qed.

Lemma see_parse base h : steps (sees base h) (sees base true) retained_parse retained_parse.
Proof. rewrite <- (orb_true_r h). by eapply steps_read; [apply answers_parse|..]. Qed.

Lemma see_keys base h : steps (sees base h) (sees base h) Retained.matrix_keys Retained.matrix_keys.
Proof. rewrite <- (orb_false_r h) at 2. by eapply steps_read; [apply answers_keys|..]. Qed.

#[export] Hint Resolve see_selected see_parse see_keys : steps.
#[export] Hint Resolve steps_fail : steps.
#[export] Hint Extern 1 (steps _ _ (lift _) (lift _)) => apply steps_lift; reflexivity : steps.
#[export] Hint Extern 1 (steps _ _ (must _) (must _)) => apply steps_must; reflexivity : steps.
#[export] Hint Extern 3 (steps _ _ (modify _) (modify _)) => apply steps_aside; reflexivity : steps.
#[export] Hint Extern 4 (steps _ _ (modify _) (modify _)) => apply steps_emptied; reflexivity : steps.

(** The relations between states, weakened. *)
Ltac see_weaken := intros ? ? ?; first [eassumption|by eapply sees_any|by eapply sees_weaken|by eapply sees_same].

(** One step of an operation: the reads and the changes by the hints, the
    branches by cases. *)
Ltac see_step :=
  lazymatch goal with
  | |- steps same _ _ _ => apply steps_same; intros ?
  | |- steps _ _ (mret _) (mret _) => apply steps_ret; [reflexivity|see_weaken]
  | |- steps _ _ (attempt _) (attempt _) => apply steps_attempt
  | |- steps _ _ (get ≫= _) (get ≫= _) => apply steps_get; intros ? ? ?
  | |- steps _ _ (must _ ≫= _) (must _ ≫= _) => apply steps_must_bind; [reflexivity|intros ? ?]
  | |- steps _ _ (_ ≫= _) (_ ≫= _) => eapply steps_bind; [|intros ?]
  | |- steps _ _ (match ?o with _ => _ end) (match ?o' with _ => _ end) =>
      try change o' with o; destruct o
  | |- steps _ _ _ _ =>
      first [solve [eauto with steps]
            |eapply see_graph; first [discriminate|reflexivity|intros ?; eapply str_from_zero; eassumption]
            |eapply steps_weaken; [| |solve [eauto with steps]]; see_weaken]
  end.
Ltac see := repeat (cbv zeta beta; see_step).

Lemma see_ensure base h : steps (sees base h) (sees base true) ensure_matrix ensure_matrix.
Proof. unfold ensure_matrix. see. Qed.
#[export] Hint Resolve see_ensure : steps.

Lemma see_over_keys {A} (law : list MatrixKey -> bytes -> nat -> bool -> nat -> option (result A EngineError)) offset base :
  steps (sees base false) same (over_keys law offset) (over_keys law offset).
Proof. unfold over_keys. see. Qed.
#[export] Hint Resolve see_over_keys : steps.

(** ** Steps of the lists *)

Section lists.
Context {D L : Type} `{Dictionary D, !CandidateDictionary D, !SuggestionDictionary D, LanguageModel L, !SessionModel L}
  (d : D) (l : L).

Lemma see_longer base h gate :
  steps (sees base h) (sees base h) (longer_candidate d l gate) (longer_candidate d l gate).
Proof. unfold longer_candidate. see. Qed.
#[local] Hint Resolve see_longer : steps.

Lemma see_longer_row base h gate :
  steps (sees base h) (sees base h) (longer_row d l gate) (longer_row d l gate).
Proof. unfold longer_row. see. Qed.
#[local] Hint Resolve see_longer_row : steps.

Lemma see_prepend_longer base h out gate :
  steps (sees base h) (sees base h) (prepend_longer_row d l out gate) (prepend_longer_row d l out gate).
Proof. unfold prepend_longer_row. see. Qed.
#[local] Hint Resolve see_prepend_longer : steps.

Lemma see_fallback base h c c' graph :
  steps (sees base h) (sees base h) (fallback_rows d l (recache base c) graph) (fallback_rows d l (recache base c') graph).
Proof. unfold fallback_rows. see. Qed.

Lemma see_scanned base anchor gate remaining :
  steps (sees base true) same (scanned_rows d l anchor gate remaining) (scanned_rows d l anchor gate remaining).
Proof.
  unfold scanned_rows. apply steps_get. intros c c' Hc. rewrite (sees_parse _ _ _ Hc). see.
Qed.
#[local] Hint Resolve see_fallback see_scanned : steps.

Lemma see_window_len base h c c' graph anchor remaining :
  steps (sees base h) (sees base h) (window_len l (recache base c) graph anchor remaining)
    (window_len l (recache base c') graph anchor remaining).
Proof. unfold window_len. see. Qed.
#[local] Hint Resolve see_window_len : steps.

Lemma see_scan_window base h anchor gate :
  steps (sees base h) same (scan_window d l anchor gate) (scan_window d l anchor gate).
Proof. unfold scan_window. see. Qed.
#[local] Hint Resolve see_scan_window : steps.

Lemma see_refresh base h : steps (sees base h) same (refresh d l) (refresh d l).
Proof. unfold refresh. see. Qed.
#[local] Hint Resolve see_refresh : steps.

Lemma see_refresh_after base h : steps (sees base h) same (refresh_after_parse d l) (refresh_after_parse d l).
Proof. unfold refresh_after_parse. see. Qed.
#[local] Hint Resolve see_refresh_after : steps.

Lemma see_refresh_candidates base h : steps (sees base h) same (refresh_candidates d l) (refresh_candidates d l).
Proof. unfold refresh_candidates. see. Qed.
#[local] Hint Resolve see_refresh_candidates : steps.

(** ** Steps of the windows *)

Lemma see_check_offset base h offset :
  steps (sees base h) (sees base h) (check_offset offset) (check_offset offset).
Proof. unfold check_offset. see. Qed.

Lemma see_spans base h offset :
  steps (sees base h) (sees base h) (spans_a_matrix_key offset) (spans_a_matrix_key offset).
Proof. unfold spans_a_matrix_key. see. Qed.

Lemma see_flagged base h items : steps (sees base h) same (flagged items) (flagged items).
Proof. unfold flagged. see. Qed.
#[local] Hint Resolve see_check_offset see_spans see_flagged : steps.

Lemma see_candidates_at base h offset :
  steps (sees base h) same (candidates_at d l offset) (candidates_at d l offset).
Proof. unfold candidates_at. see. Qed.

Lemma see_window_ending base h offset :
  steps (sees base h) same (scan_window_ending d l offset) (scan_window_ending d l offset).
Proof.
  unfold scan_window_ending. eapply steps_bind; [apply see_ensure|intros _].
  apply steps_get. intros c c' Hc. rewrite (sees_parse _ _ _ Hc). see.
Qed.
#[local] Hint Resolve see_window_ending : steps.

Lemma see_candidates_ending base h offset :
  steps (sees base h) same (candidates_ending_at d l offset) (candidates_ending_at d l offset).
Proof. unfold candidates_ending_at. see. Qed.
#[local] Hint Resolve see_candidates_at see_candidates_ending : steps.

(** ** Steps of the input *)

Lemma push_each_emptied rest b :
  with_caches (fold_left (fun b c => push b [c]) rest b) None None None None
  = fold_left (fun b c => push b [c]) rest (with_caches b None None None None).
Proof. revert b. induction rest as [|c rest IH]; intros b; [done|]. cbn [fold_left]. by rewrite IH. Qed.

(** Typing nothing keeps the caches, typing something empties them. *)
Lemma push_all_caches base text :
  let f := on_input (push_all text) in
  (f base = base /\ forall c, f (recache base c) = recache base c) \/ forall c, f (recache base c) = forget (f base).
Proof.
  cbv zeta. unfold on_input, push_all. destruct (filter (fun c => is_batch_input c = true) text) as [|c rest].
  - left. split; [by destruct base|]. done.
  - right. intros c0. cbn [fold_left]. unfold forget, recache, set_input. cbn. by rewrite push_each_emptied.
Qed.

Lemma see_push_all base h text :
  exists h', steps (sees base h) (sees (on_input (push_all text) base) h')
    (modify (on_input (push_all text))) (modify (on_input (push_all text))).
Proof.
  destruct (push_all_caches base text) as [[E Hc]|Hc]; [exists h; apply steps_aside|exists false; by apply steps_emptied].
  all: by rewrite E.
Qed.

Lemma see_type_pinyin base text : steps (sees base false) same (type_pinyin d l text) (type_pinyin d l text).
Proof.
  unfold type_pinyin. apply steps_get. intros c c' _. cbv zeta.
  destruct (see_push_all base false text) as [h Hp]. eapply steps_bind; [exact Hp|intros _]. see.
Qed.

Lemma see_erase base : steps (sees base false) same (erase d l) (erase d l).
Proof. unfold erase. see. Qed.

(** ** Steps of a replaced input *)

Lemma see_extends base h text :
  steps (sees base h) (sees base h) (replacement_extends_selection text) (replacement_extends_selection text).
Proof. unfold replacement_extends_selection. see. Qed.
#[local] Hint Resolve see_extends : steps.

Lemma see_validate base h c c' retained :
  steps (sees base h) (sees base h) (validate_forcings d (recache base c) retained)
    (validate_forcings d (recache base c') retained).
Proof. unfold validate_forcings. see. Qed.
#[local] Hint Resolve see_validate : steps.

Lemma see_reconcile base h : steps (sees base h) same (reconcile_replaced_selection d) (reconcile_replaced_selection d).
Proof. unfold reconcile_replaced_selection. see. Qed.
#[local] Hint Resolve see_reconcile : steps.

Lemma see_reconcile_unless base h continuous :
  steps (sees base h) same (reconcile_unless d l continuous) (reconcile_unless d l continuous).
Proof. unfold reconcile_unless. destruct continuous; see. Qed.
#[local] Hint Resolve see_reconcile_unless : steps.

Lemma refill_emptied base text c : refill_raw text (recache base c) = forget (refill_raw text base).
Proof.
  unfold refill_raw.
  change (input (recache base c)) with (with_caches (input base) c.1.1.1 c.1.1.2 c.1.2 c.2). cbn [raw with_caches].
  change (constraints (recache base c)) with (constraints base). by destruct (_ && _ && _).
Qed.

Lemma see_refill base h text :
  steps (sees base h) (sees (refill_raw text base) false) (modify (refill_raw text)) (modify (refill_raw text)).
Proof. apply steps_emptied. apply refill_emptied. Qed.
#[local] Hint Resolve see_refill : steps.

Lemma see_replace_raw base h text physical :
  steps (sees base h) same (replace_raw_with_physical_separators d l text physical)
    (replace_raw_with_physical_separators d l text physical).
Proof. unfold replace_raw_with_physical_separators. see. Qed.

Lemma see_replace_exact base h text segments :
  steps (sees base h) same (replace_raw_exact d l text segments) (replace_raw_exact d l text segments).
Proof. unfold replace_raw_exact. see. Qed.

Lemma see_replace_full base h text segments :
  steps (sees base h) same (replace_raw_full_pinyin d l text segments) (replace_raw_full_pinyin d l text segments).
Proof. unfold replace_raw_full_pinyin. see. Qed.

(** ** Steps of the settings *)

Lemma see_set_options base h o : steps (sees base h) same (set_options d l o) (set_options d l o).
Proof. unfold set_options. see. Qed.
#[local] Hint Resolve see_set_options : steps.

Lemma see_set_incomplete base h enabled :
  steps (sees base h) same (set_incomplete_pinyin d l enabled) (set_incomplete_pinyin d l enabled).
Proof. unfold set_incomplete_pinyin. see. Qed.

Lemma see_set_sort base h word : steps (sees base h) same (set_sort_options d l word) (set_sort_options d l word).
Proof. unfold set_sort_options. see. Qed.

(** ** Steps of a selection *)

Lemma see_select_behind base h start end_ token text :
  steps (sees base h) same (select_behind d l start end_ token text) (select_behind d l start end_ token text).
Proof. unfold select_behind. see. Qed.
#[local] Hint Resolve see_select_behind : steps.

Lemma see_select_inner base h anchor candidate token :
  steps (sees base h) same (select_inner d l anchor candidate token) (select_inner d l anchor candidate token).
Proof. unfold select_inner. see. Qed.
#[local] Hint Resolve see_select_inner : steps.

Lemma see_select base h index promoted : steps (sees base h) same (select d l index promoted) (select d l index promoted).
Proof. unfold select. see. Qed.

Lemma see_select_anchored base h index window anchor promoted :
  steps (sees base h) same (select_anchored d l index window anchor promoted) (select_anchored d l index window anchor promoted).
Proof. unfold select_anchored. see. Qed.

Lemma see_clear_constraint base h offset : steps (sees base h) same (clear_constraint offset) (clear_constraint offset).
Proof. unfold clear_constraint. see. Qed.

(** ** Steps of a sentence *)

Section sentences.
Context (ln : f64 -> f64) (penalty : f32).

Lemma see_update_constraints base h : steps (sees base h) same (update_constraints d) (update_constraints d).
Proof. unfold update_constraints. see. Qed.

Lemma see_decode base h seeds :
  steps (sees base h) same (decode_matrix d l ln penalty seeds) (decode_matrix d l ln penalty seeds).
Proof. unfold decode_matrix. see. Qed.
#[local] Hint Resolve see_update_constraints see_decode : steps.

Lemma see_guess_matrix base h seeds :
  steps (sees base h) same (guess_over_matrix d l ln penalty seeds) (guess_over_matrix d l ln penalty seeds).
Proof. unfold guess_over_matrix. destruct seeds; see. Qed.

Lemma see_fallback_sentences base h c c' graph :
  steps (sees base h) (sees base h) (fallback_sentences d l (recache base c) graph)
    (fallback_sentences d l (recache base c') graph).
Proof. unfold fallback_sentences. see. Qed.
#[local] Hint Resolve see_guess_matrix see_fallback_sentences : steps.

Lemma see_remaining base h c c' graph :
  steps (sees base h) same (remaining_sentences d l ln penalty (recache base c) graph)
    (remaining_sentences d l ln penalty (recache base c') graph).
Proof.
  unfold remaining_sentences. destruct (has_real_unigrams l); [|see].
  eapply (steps_bind _ same); [|intros [matrix topology]]; see.
Qed.
#[local] Hint Resolve see_remaining : steps.

Lemma keep_sentences_aside base rows :
  let f := keep_sentences rows in
  (forall c, f (recache base c) = recache (f base) c) /\ input (f base) = input base /\ options (f base) = options base /\
  collapse_sentence_rows_to_best (f base) = collapse_sentence_rows_to_best base /\ record (f base) = record base /\
  constraints (f base) = constraints base.
Proof.
  cbv zeta. split; [intros c|]; unfold keep_sentences;
    try change (record (recache base c)) with (record base); by destruct (is_empty _).
Qed.

Lemma see_keep_sentences base h rows :
  steps (sees base h) (sees (keep_sentences rows base) h) (modify (keep_sentences rows)) (modify (keep_sentences rows)).
Proof. destruct (keep_sentences_aside base rows) as (? & ? & ? & ? & _). by apply steps_aside. Qed.
#[local] Hint Resolve see_keep_sentences : steps.

Lemma see_guess_remaining base h :
  steps (sees base h) same (guess_over_remaining d l ln penalty) (guess_over_remaining d l ln penalty).
Proof. unfold guess_over_remaining. see. Qed.
#[local] Hint Resolve see_guess_remaining : steps.

Lemma see_begin_guess base h go :
  (forall base, steps (sees base true) same go go) -> steps (sees base h) same (begin_guess go) (begin_guess go).
Proof. intros Hgo. unfold begin_guess. see. Qed.

Lemma see_guess base h : steps (sees base h) same (guess_sentence d l ln penalty) (guess_sentence d l ln penalty).
Proof. apply see_begin_guess. intros ?. see. Qed.

Lemma see_guess_with_prefix base h tokens :
  steps (sees base h) same (guess_sentence_with_prefix d l ln penalty tokens) (guess_sentence_with_prefix d l ln penalty tokens).
Proof. apply see_begin_guess. intros ?. see. Qed.
End sentences.

(** ** Steps of training *)

Section train.
Context {U : Type} `{UserModel U}.

Lemma see_plan base h check spans (u : U) :
  steps (sees base h) same (plan_spans check spans u) (plan_spans check spans u).
Proof. unfold plan_spans. see. Qed.
#[local] Hint Resolve see_plan : steps.

Lemma see_train_spans base h spans (u : U) : steps (sees base h) same (train_spans spans u) (train_spans spans u).
Proof. unfold train_spans. see. Qed.
#[local] Hint Resolve see_train_spans : steps.

Lemma see_train base h (u : U) : steps (sees base h) same (train u) (train u).
Proof. unfold train. see. Qed.

Lemma see_train_nbest base h index (u : U) : steps (sees base h) same (train_nbest index u) (train_nbest index u).
Proof. unfold train_nbest. see. Qed.
End train.

Lemma see_preflight base h index : steps (sees base h) same (train_nbest_preflight index) (train_nbest_preflight index).
Proof.
  unfold train_nbest_preflight. apply steps_get. intros c c' _. eapply steps_bind; [apply steps_lift; reflexivity|].
  intros [row|]; [|see]. destruct (bool_decide _); [see|].
  eapply steps_bind; [apply see_plan|intros [??]]. see.
Qed.

Lemma see_character_offset base phrase offset :
  steps (sees base false) same (character_offset_with_walk d phrase offset) (character_offset_with_walk d phrase offset).
Proof. unfold character_offset_with_walk. see. Qed.

Lemma see_full_parsed_len base : steps (sees base false) same full_parsed_len full_parsed_len.
Proof. unfold full_parsed_len. see. Qed.

(** ** Every operation *)

Section operations.
Context (ln : f64 -> f64) (penalty : f32) {U : Type} `{UserModel U}.

Inductive Operation : Type :=
  | TypePinyin (text : bytes)
  | Erase
  | Reset
  | DiscardComposition
  | ResetComposition
  | ReplaceRaw (text : bytes) (physical : bool)
  | ReplaceExact (text : bytes) (segments : list ExactSegment)
  | ReplaceFullPinyin (text : bytes) (segments : list ExactSegment)
  | SetOptions (o : OptionBits)
  | SetIncomplete (enabled : bool)
  | SetSortOptions (word : Z)
  | SetCollapse (collapse : bool)
  | SetRanking (ranking : CandidateRanking)
  | SetShape (shape : NbestShape)
  | SetDefer (defer : bool)
  | SetScoring (c : ScoringConfig)
  | RefreshCandidates
  | CandidatesAt (offset : nat)
  | CandidatesEndingAt (offset : nat)
  | Select (index : nat) (promoted : option Z)
  | SelectAnchored (index : nat) (window : list Candidate) (anchor : nat) (promoted : option Z)
  | ClearConstraint (offset : nat)
  | GuessSentence
  | GuessSentenceWithPrefix (tokens : list Z)
  | Train (u : U)
  | TrainNbest (index : Z) (u : U)
  | TrainPreflight (index : Z)
  | NormalizedOffset (offset : nat)
  | OffsetForCursor (cursor : nat)
  | LeftWord (offset : nat)
  | RightWord (offset : nat)
  | CharacterOffset (phrase : PhraseText) (offset : nat)
  | MatrixKeys
  | CompositionKeys
  | FullParsedLen
  | Candidates
  | SentenceText (rank : Z)
  | SentencePhrases (rank : Z)
  | Consumed_.

(** What an operation answers, an error aside. *)
Inductive Answer : Type :=
  | Done
  | Outcome (k : KeyOutcome)
  | Chosen (x : Selection)
  | Flag (b : bool)
  | Offset (n : nat)
  | MaybeOffset (n : option nat)
  | Walked (n : option nat * bool)
  | Listed (l : CandidateList)
  | Trained (r : U * result unit EngineError)
  | TrainedRow (r : U * result bool EngineError)
  | Keys (k : list MatrixKey * nat)
  | Syllables (k : list SyllableKey)
  | Rows (r : list Candidate * nat)
  | Text (t : option PhraseText)
  | Texts (t : option (list PhraseText)).

Definition answering {A} (f : A -> Answer) (m : session A) : session Answer := a ← m; mret (f a).
Definition changing (f : SessionState -> SessionState) : session Answer := modify f;; mret Done.
Definition reading (f : SessionState -> Answer) : session Answer := s ← get; mret (f s).
Definition doing (m : session unit) : session Answer := m;; mret Done.

Definition perform (op : Operation) : session Answer :=
  match op with
  | TypePinyin text => answering Outcome (type_pinyin d l text)
  | Erase => answering Outcome (erase d l)
  | Reset => changing reset
  | DiscardComposition => changing discard_composition
  | ResetComposition => changing reset_composition
  | ReplaceRaw text physical => doing (replace_raw_with_physical_separators d l text physical)
  | ReplaceExact text segments => doing (replace_raw_exact d l text segments)
  | ReplaceFullPinyin text segments => doing (replace_raw_full_pinyin d l text segments)
  | SetOptions o => doing (set_options d l o)
  | SetIncomplete enabled => doing (set_incomplete_pinyin d l enabled)
  | SetSortOptions word => doing (set_sort_options d l word)
  | SetCollapse collapse => changing (set_collapse collapse)
  | SetRanking ranking => changing (set_candidate_ranking ranking)
  | SetShape shape => changing (set_nbest_shape shape)
  | SetDefer defer => changing (set_defer_list_builds defer)
  | SetScoring c => changing (set_scoring_config c)
  | RefreshCandidates => doing (refresh_candidates d l)
  | CandidatesAt offset => answering Listed (candidates_at d l offset)
  | CandidatesEndingAt offset => answering Listed (candidates_ending_at d l offset)
  | Select index promoted => answering Chosen (select d l index promoted)
  | SelectAnchored index window anchor promoted => answering Chosen (select_anchored d l index window anchor promoted)
  | ClearConstraint offset => answering Flag (clear_constraint offset)
  | GuessSentence => answering Flag (guess_sentence d l ln penalty)
  | GuessSentenceWithPrefix tokens => answering Flag (guess_sentence_with_prefix d l ln penalty tokens)
  | Train u => answering Trained (train u)
  | TrainNbest index u => answering TrainedRow (train_nbest index u)
  | TrainPreflight index => doing (train_nbest_preflight index)
  | NormalizedOffset offset => answering Offset (normalized_lookup_offset offset)
  | OffsetForCursor cursor => answering Offset (lookup_offset_for_cursor cursor)
  | LeftWord offset => answering Offset (left_word_offset offset)
  | RightWord offset => answering MaybeOffset (right_word_offset offset)
  | CharacterOffset phrase offset => answering Walked (character_offset_with_walk d phrase offset)
  | MatrixKeys => answering Keys Retained.matrix_keys
  | CompositionKeys => answering Syllables composition_keys
  | FullParsedLen => answering Offset full_parsed_len
  | Candidates => reading (fun s => Rows (candidates (lookup_ s), parsed_prefix (lookup_ s)))
  | SentenceText rank => reading (fun s => Text (sentence_text s rank))
  | SentencePhrases rank => reading (fun s => Texts (sentence_phrases s rank))
  | Consumed_ => reading (fun s => Offset (consumed_ (record s)))
  end.

(** A run of operations and what they answer; an error ends none. *)
Fixpoint run_session (before : SessionState -> SessionState) (ops : list Operation) (s : SessionState)
    : option (SessionState * list (result Answer EngineError)) :=
  match ops with
  | [] => Some (s, [])
  | op :: ops =>
      '(s, r) ← perform op (before s);
      '(s, rs) ← run_session before ops s;
      Some (s, r :: rs)
  end.

Lemma see_answering {A} base (f : A -> Answer) (m : session A) :
  steps (sees base false) same m m -> steps (sees base false) same (answering f m) (answering f m).
Proof. intros Hm. unfold answering. eapply steps_bind; [exact Hm|intros ?; see]. Qed.

Lemma see_doing base (m : session unit) :
  steps (sees base false) same m m -> steps (sees base false) same (doing m) (doing m).
Proof. intros Hm. unfold doing. eapply steps_bind; [exact Hm|intros ?; see]. Qed.

Lemma see_changing base f h :
  steps (sees base false) (sees (f base) h) (modify f) (modify f) -> steps (sees base false) same (changing f) (changing f).
Proof. intros Hm. unfold changing. eapply steps_bind; [exact Hm|intros ?; see]. Qed.

Lemma see_reading base f :
  (forall c, f (recache base c) = f base) -> steps (sees base false) same (reading f) (reading f).
Proof. intros Hf. unfold reading. apply steps_get. intros c c' _. apply steps_ret; [by rewrite !Hf|see_weaken]. Qed.

(** A change of the collapse mode drops the parse and its keys alone. *)
Lemma see_collapse base collapse :
  steps (sees base false) (sees (set_collapse collapse base) false) (modify (set_collapse collapse)) (modify (set_collapse collapse)).
Proof.
  apply steps_modify. intros s s' [[c ->] [c' ->] Hs Hs' _].
  assert (Hc : forall c, coherent (recache base c) ->
    (exists c', set_collapse collapse (recache base c) = recache (set_collapse collapse base) c')
    /\ coherent (set_collapse collapse (recache base c))).
  { clear. intros c Hs. unfold set_collapse.
    change (collapse_sentence_rows_to_best (recache base c)) with (collapse_sentence_rows_to_best base).
    case_bool_decide as E.
    - split; [by exists c|]. by eapply coherent_eq, Hs.
    - split; [by exists (c.1.1.1, c.1.1.2, None, None)|].
      destruct Hs as [Hg Hp _ _]. constructor; [exact Hg|exact Hp|done|done]. }
  constructor; try by apply Hc. done.
Qed.

Lemma see_perform base op : steps (sees base false) same (perform op) (perform op).
Proof.
  destruct op; cbn [perform];
    try (apply see_reading; reflexivity);
    try (apply (see_changing base _ false); first [apply see_collapse|solve [eauto with steps]]);
    first [apply see_answering|apply see_doing];
    eauto using see_type_pinyin, see_erase, see_replace_raw, see_replace_exact, see_replace_full, see_set_incomplete,
      see_set_sort, see_select, see_select_anchored, see_clear_constraint, see_guess, see_guess_with_prefix, see_train,
      see_train_nbest, see_preflight, see_character_offset, see_full_parsed_len with steps.
  - unfold normalized_lookup_offset. see.
  - eapply steps_weaken; [| |apply see_keys]; see_weaken.
  - unfold composition_keys. see.
Qed.

Lemma same_forget s s' : same s s' -> same s (forget s').
Proof.
  intros [base [Hc [c' ->] Hs Hs' _]]. exists base. constructor; [done|by eexists|done|apply coherent_forget|done].
Qed.

Lemma run_beside ops s s' :
  same s s' ->
  match run_session (fun s => s) ops s, run_session forget ops s' with
  | Some (t, answers), Some (t', answers') => answers = answers' /\ same t t'
  | None, None => True
  | _, _ => False
  end.
Proof.
  revert s s'. induction ops as [|op ops IH]; intros s s' Hs; [done|]. cbn [run_session].
  destruct (same_forget _ _ Hs) as [base Hb]. pose proof (see_perform base op _ _ Hb) as Hop.
  destruct (perform op s) as [[t r]|], (perform op (forget s')) as [[t' r']|]; try done; cbn [mbind option_bind].
  destruct Hop as [<- Ht]. assert (Hsame : same t t') by (by destruct r).
  specialize (IH t t' Hsame).
  destruct (run_session _ ops t) as [[u rs]|], (run_session forget ops t') as [[u' rs']|]; try done; cbn [mbind option_bind].
  by destruct IH as [<- ?].
Qed.

(** C3. The caches of a session are invisible: whatever operations run on a
    new session, they panic, fail and answer as they do with every cache
    emptied before each of them, the states they leave differ in the caches
    alone, and every cache holds what a fresh build of the input gives. *)
Theorem session_caches ops o config costs :
  match run_session (fun s => s) ops (state_new o config costs), run_session forget ops (state_new o config costs) with
  | Some (t, answers), Some (t', answers') => answers = answers' /\ forget t = forget t' /\ coherent t
  | None, None => True
  | _, _ => False
  end.
Proof.
  assert (Hs : same (state_new o config costs) (state_new o config costs)).
  { exists (state_new o config costs). constructor; try (by exists (None, None, None, None)); by constructor. }
  pose proof (run_beside ops _ _ Hs) as Hr.
  destruct (run_session _ ops _) as [[t answers]|], (run_session forget ops _) as [[t' answers']|]; try done.
  destruct Hr as [<- [base [[c ->] [c' ->] Ht _ _]]]. done.
Qed.
End operations.
End lists.
