(* ===== verification/SessionSafety.v ===== *)
(** * SessionSafety: no session typed in ASCII panics

    Whatever operations run on a new session, if the texts that replace its
    input are ASCII without NUL and none is pre-parsed full pinyin, every one
    of them answers or fails, and the cursor and the exact segments stay
    inside the input. Outside ASCII this does not hold. *)

From Stdlib Require Import ZArith Lia Bool Strings.Byte Strings.String Sorting.Sorted.
From stdpp Require Import base list.
From S2P Require Import Prelude Options Vocab Ucs4 Graph GraphBuild GraphPaths Float Kbest Models Scoring Ranking ScanMatrix MatrixBuild MatrixBuildSpec WindowScan Cursor CursorSpec CharOffset CharOffsetSpec Trellis Nbest Constraint TableDictionary NbestSpec SessionState Retained Refresh Session SessionSpec.

Definition is_ascii (b : byte) : bool := in_range 1 127 b.

(** What keeps a session from a panic. *)
Record sound (s : SessionState) : Prop := {
  sound_ascii : Forall (fun b => is_ascii b = true) (raw (input s));
  sound_exact : Forall (fun segment => seg_end segment <= length (raw (input s))) (exact (input s));
  sound_full : parsed_full_pinyin (input s) = false;
  sound_consumed : consumed_ (record s) <= length (raw (input s));
  sound_forcings : forward (cells (constraints s))
}.

(** ** The input *)

Lemma ascii_boundary text n : Forall (fun b => is_ascii b = true) text -> n <= length text -> is_char_boundary text n = true.
Proof.
  intros Ha Hn. unfold is_char_boundary. destruct (Nat.eqb_spec n 0); [done|]. destruct (Nat.eqb_spec n (length text)); [done|].
  destruct (lookup_lt_is_Some_2 text n) as [b Hb]; [lia|]. rewrite Hb. cbn [orb].
  rewrite Forall_lookup in Ha. specialize (Ha n b Hb). unfold is_ascii, continues, in_range in *.
  apply andb_true_iff in Ha as [_ H%Z.leb_le]. apply negb_true_iff, andb_false_iff. left. apply Z.leb_gt. lia.
Qed.

Lemma ascii_nul text : Forall (fun b => is_ascii b = true) text -> x00 ∉ text.
Proof. intros Ha Hin. rewrite Forall_forall in Ha. by specialize (Ha _ Hin). Qed.

Lemma floor_ascii text n : Forall (fun b => is_ascii b = true) text -> n <= length text -> floor_boundary text n = n.
Proof. intros Ha Hn. destruct n; [done|]. cbn. by rewrite ascii_boundary. Qed.

Lemma ceil_bound text fuel n : n <= length text -> fuel <= length text - n -> ceil_boundary text fuel n <= length text.
Proof.
  revert n. induction fuel as [|fuel IH]; intros n Hn Hf; cbn; [done|]. destruct (is_char_boundary text n); [done|].
  apply IH; lia.
Qed.

Lemma next_boundary_bound text n : Forall (fun b => is_ascii b = true) text -> next_boundary text n <= length text.
Proof.
  intros Ha. unfold next_boundary. destruct (length text) eqn:El; [by cbn; lia|]. cbn [ceil_boundary].
  rewrite ascii_boundary by (done || lia). lia.
Qed.

Lemma str_from_ascii text n :
  Forall (fun b => is_ascii b = true) text -> n <= length text -> str_from text n = Some (drop n text).
Proof.
  intros Ha Hn. unfold str_from, str_get. rewrite (proj2 (Nat.leb_le _ _)), !ascii_boundary by (done || lia).
  cbn. rewrite take_ge; [done|]. rewrite length_drop. lia.
Qed.

(** ** The parse *)

(** A graph the session builds is one of the two kinds. *)
Definition built_as (base : SessionState) (remaining : bytes) (g : SegmentGraph) : Prop :=
  (exact (input base) = [] /\ build_with_options remaining (options base) = Ok g) \/
  (exact (input base) <> [] /\ exists segments, build_exact remaining segments = Ok g).

Lemma graph_built base anchor remaining g :
  build_uncached_graph_at base anchor remaining = Ok g -> built_as base remaining g.
Proof.
  unfold build_uncached_graph_at, graph_result, map_err. case_bool_decide as He.
  - destruct (build_with_options _ _) eqn:E; [|done]. intros [= <-]. by left.
  - right. split; [done|]. destruct (existsb _ _).
    + exists []. by destruct (build_exact remaining []); simplify_eq.
    + eexists. by destruct (build_exact _ _) eqn:E; simplify_eq.
Qed.

Lemma exact_undivided base : sound base -> exact (input base) <> [] -> scan_divided base = false.
Proof.
  intros Hs He. unfold scan_divided, full_pinyin. rewrite (sound_full _ Hs), bool_decide_eq_false_2 by done. done.
Qed.

Lemma scan_built base remaining g :
  sound base -> x00 ∉ remaining -> built_as base remaining g ->
  exists scan, build_scan_matrix g (options base) (scan_divided base) = Some scan /\
    forall k, k ∈ concat scan -> sk_start k < sk_to k.
Proof.
  intros Hs H0 Hg.
  assert (exists segments, (build_with_options remaining (options base) = Ok g /\ x00 ∉ remaining) \/
    (build_exact remaining segments = Ok g /\ scan_divided base = false)) as [segments Hb].
  { destruct Hg as [[_ Hg]|[He [segments Hg]]]; [exists []; by left|]. exists segments. right.
    split; [done|]. by apply exact_undivided. }
  destruct (parsed_scan_matrix remaining (options base) segments g (scan_divided base) Hb) as (scan & -> & _ & Hcol & _).
  exists scan. split; [done|]. intros k (column & Hc & Hk)%list_elem_of_In%in_concat.
  apply list_elem_of_In, list_elem_of_lookup in Hc as (p & Hc). apply list_elem_of_In in Hk.
  destruct (Hcol p column Hc) as [_ Hin]. destruct (Hin k Hk) as (_ & Hf & _). unfold fits_in in Hf. lia.
Qed.

(** The parse of a session is there, or an error, and its keys go forward. *)
Lemma parse_built base :
  sound base -> exists r, fresh_parse base = Some r /\
  forall p, r = Ok p -> forall k, k ∈ scan_keys (rp_scan p) -> mk_start k < mk_end k.
Proof.
  intros Hs. unfold fresh_parse, fresh_selected. destruct (fresh_graph base) as [g|e] eqn:Eg; [|by exists (Err e)].
  pose proof Eg as Hg%graph_built.
  destruct (scan_built base _ g Hs (ascii_nul _ (sound_ascii _ Hs)) Hg) as (scan & Hscan & Hk).
  unfold build_scan_matrix in Hscan. cbn [sp_edges path_of_edges]. rewrite Hscan. cbn [mbind option_bind].
  eexists. split; [done|]. intros p [= <-] k. cbn [rp_scan]. unfold scan_keys.
  intros (sk & -> & Hin)%list_elem_of_fmap. cbn. by apply Hk.
Qed.

Lemma keys_built base :
  sound base -> exists r, fresh_keys base = Some r /\
  forall keys n, r = Ok (keys, n) -> starts_sorted (mk_span <$> keys).
Proof.
  intros Hs. unfold fresh_keys. destruct (full_pinyin (input base)).
  - destruct (parse_built base Hs) as (r & -> & _). cbn [mbind option_bind]. eexists. split; [done|].
    intros keys n. destruct r as [p|e]; [|done]. intros [= <- _]. apply in_column_order_spec.
  - destruct (build_with_options (raw (input base)) (options base)) as [g|e] eqn:Eb.
    + destruct (matrix_keys_spec _ _ _ Eb (ascii_nul _ (sound_ascii _ Hs))) as (keys & m & -> & _ & _ & Hsort & _).
      eexists. split; [done|]. by intros keys' n [= <- _].
    + unfold Cursor.matrix_keys. rewrite Eb. by eexists.
Qed.

(** ** The length of a window *)

Lemma mark_reached_some reached to anchor :
  anchor <= to -> to - anchor < List.length reached -> exists reached', mark_reached reached to anchor = Some reached' /\
  List.length reached' = List.length reached.
Proof.
  intros H1 H2. unfold mark_reached. rewrite (proj2 (Nat.leb_le _ _)), (proj2 (Nat.ltb_lt _ _)) by done.
  eexists. split; [done|]. apply length_insert.
Qed.

Lemma built_edges base g node e :
  built_as base (raw (input base)) g -> e ∈ outgoing g node -> node < to e <= List.length (raw (input base)).
Proof.
  intros [[_ Hg]|[_ [segments Hg]]] He.
  - destruct (built_edge _ _ _ _ _ Hg He) as (? & ? & ? & _). lia.
  - destruct (exact_paths _ _ _ true Hg) as (Hfwd & _ & _). destruct (Hfwd _ _ He) as [_ ?].
    apply build_exact_inv in Hg as (Hv & _ & Eg & _ & Hout). rewrite Hout, Eg in He.
    apply list_elem_of_filter in He as [_ He]. destruct (segment_edges_order _ _ _ Hv) as [Hall _].
    rewrite Forall_forall in Hall. specialize (Hall e He). lia.
Qed.

Lemma for_each_total {A S} (I : S -> Prop) (l : list A) (f : S -> A -> option S) s :
  I s -> (forall s x, I s -> x ∈ l -> exists s', f s x = Some s' /\ I s') ->
  exists s', for_each l f s = Some s' /\ I s'.
Proof.
  revert s. induction l as [|x l IH]; intros s Hs Hf; [by exists s|]. cbn [for_each].
  destruct (Hf s x Hs (list_elem_of_here _ _)) as (s' & -> & Hs'). cbn [mbind option_bind].
  apply IH; [done|]. intros t y Ht Hy. apply Hf; [done|by right].
Qed.

Lemma valid_segments_in text prev segments s :
  valid_segments text prev segments -> s ∈ segments -> seg_start s < seg_end s <= List.length text.
Proof.
  revert prev. induction segments as [|x segments IH]; intros prev; [by intros _ ?%not_elem_of_nil|].
  intros (H1 & H2 & _ & Hv) [->|Hin]%elem_of_cons; [lia|by eapply IH].
Qed.

Lemma exact_segments_in base g segment :
  fresh_graph base = Ok g -> segment ∈ exact (input base) -> seg_start segment < seg_end segment <= List.length (raw (input base)).
Proof.
  unfold fresh_graph, build_uncached_graph_at, graph_result, map_err.
  case_bool_decide as He; [rewrite He; by intros _ ?%not_elem_of_nil|].
  assert (existsb (straddles 0) (exact (input base)) = false) as ->.
  { apply not_true_iff_false. rewrite existsb_exists. intros (x & _ & Hx). unfold straddles in Hx.
    apply andb_true_iff in Hx as [Hx%Nat.ltb_lt _]. lia. }
  destruct (build_exact _ _) as [g'|] eqn:E; [|done]. intros _ Hin. apply build_exact_inv in E as (Hv & _).
  eapply (valid_segments_in _ _ _ (rebase 0 segment)) in Hv.
  - cbn in Hv. lia.
  - apply list_elem_of_fmap. exists segment. split; [done|]. apply list_elem_of_filter. done.
Qed.

Lemma reach_node_total base g anchor node st :
  fresh_graph base = Ok g -> anchor <= node < List.length (raw (input base)) ->
  List.length st.1 = List.length (raw (input base)) - anchor + 1 ->
  exists st', reach_node base g anchor st node = Some st' /\
    List.length st'.1 = List.length (raw (input base)) - anchor + 1.
Proof.
  intros Hg Hn Hl. destruct st as [reached end_]. cbn [fst] in Hl. unfold reach_node.
  destruct (lookup_lt_is_Some_2 reached (node - anchor)) as [here Hh]; [lia|]. rewrite Hh. cbn [mbind option_bind].
  destruct here; [|by eexists]. apply (for_each_total (fun st => List.length st.1 = List.length (raw (input base)) - anchor + 1)); [done|].
  intros [r n] e Hr He. cbn [fst] in Hr. unfold usable_edges in He. apply list_elem_of_filter in He as [_ He].
  apply (built_edges base) in He; [|by apply (graph_built base 0)].
  destruct (mark_reached_some r (to e) anchor) as (r' & -> & Hr'); [lia|rewrite Hr; lia|]. cbn [mbind option_bind].
  eexists. split; [done|]. cbn. lia.
Qed.

Lemma window_len_some base g anchor :
  fresh_graph base = Ok g -> anchor <= List.length (raw (input base)) -> is_Some (window_parsed_len base g anchor).
Proof.
  intros Hg Ha. unfold window_parsed_len. destruct (Nat.ltb_spec (List.length (raw (input base))) anchor); [lia|].
  destruct (existsb _ _); [done|].
  set (reached0 := <[0:=true]> _).
  assert (List.length reached0 = List.length (raw (input base)) - anchor + 1) as H0.
  { unfold reached0. by rewrite length_insert, length_replicate, length_drop. }
  assert (exists r n, (match List.find (fun segment => anchor <=? seg_start segment) (exact (input base)) with
      | Some first => reached ← mark_reached reached0 (seg_end first) anchor; Some (reached, seg_end first)
      | None => Some (reached0, anchor)
      end) = Some (r, n) /\ List.length r = List.length (raw (input base)) - anchor + 1) as (r & n & -> & Hr).
  { destruct (List.find _ _) as [first|] eqn:Ef; [|by exists reached0, anchor].
    apply List.find_some in Ef as [Hin%list_elem_of_In Hle%Nat.leb_le].
    pose proof (exact_segments_in base g first Hg Hin).
    destruct (mark_reached_some reached0 (seg_end first) anchor) as (r & -> & Hr); [lia..|]. cbn [mbind option_bind].
    eexists _, _. split; [done|]. lia. }
  cbn [mbind option_bind].
  destruct (for_each_total (fun st => List.length st.1 = List.length (raw (input base)) - anchor + 1)
      (seq anchor (List.length (raw (input base)) - anchor)) (reach_node base g anchor) (r, n)) as ([r' n'] & -> & _); [done| |done].
  intros st node Hst Hnode%elem_of_seq. apply reach_node_total; [done|lia|done].
Qed.

(** ** The forcings *)

Lemma validate_walk_some {P} (probe : P -> nat -> nat -> Z -> nat -> P * result bool EngineError) p s forcings dropped :
  forward (cells s) -> Forall (fun r : run => r.1.1.1 < r.1.1.2 /\ r.1.1.1 < List.length (cells s)) forcings ->
  exists s' r, validate_walk probe p s forcings dropped = Some (s', r) /\ forward (cells s').
Proof.
  revert p s dropped. induction forcings as [|[[[i e] t] x] rest IH]; intros p s dropped Hf Hall; [by eauto|].
  apply Forall_cons in Hall as [[Hie Hi] Hall]. cbn in Hie, Hi. cbn [validate_walk].
  destruct (probe p i e t (phrase_length x)) as [p' r].
  assert (exists s' r', (s' ← free_range s i (Nat.min e (List.length (cells s)));
    validate_walk probe p' s' rest true) = Some (s', r') /\ forward (cells s')) as Hdrop.
  { destruct (free_range_some s i e) as [s' Hs']; [lia..|]. rewrite Hs'. cbn [mbind option_bind].
    destruct (free_range_forward _ _ _ _ Hf Hs') as [Hf' Hl]. apply IH; [done|]. by rewrite Hl. }
  destruct (List.length (cells s) <=? e); [done|]. destruct r as [[|]|err]; [by apply IH|done|by eauto].
Qed.

Lemma resize_forward s len : forward (cells s) -> forward (cells (store_resize s len)).
Proof. intros Hf i t e x [_ H]%resize_lookup; [|done]. by eapply Hf. Qed.

Lemma validate_some {P} (probe : P -> nat -> nat -> Z -> nat -> P * result bool EngineError) p s len :
  forward (cells s) -> exists s' r, validate_with probe p s len = Some (s', r) /\ forward (cells s').
Proof.
  intros Hf%(resize_forward s len). unfold validate_with. apply validate_walk_some; [done|].
  apply Forall_forall. intros [[[i e] t] x] Hr. destruct (store_resize s len) as [l]. apply elem_of_runs in Hr.
  cbn [cells fst snd] in *. split; [by eapply Hf|]. by apply lookup_lt_Some in Hr.
Qed.

(** ** The paths of a model without unigrams *)

Section fallback.
Context {D L : Type} `{Dictionary D, LanguageModel L} (d : D) (l : L) (s : SessionState) (graph : SegmentGraph).

Lemma walk_lengths ids :
  let '(keys, kinds, ends) := walk_edges s graph ids in List.length ends = List.length keys.
Proof.
  induction ids as [|id ids IH]; [done|]. cbn [walk_edges]. destruct (edge graph id); [|done].
  destruct (_ && _); [done|]. destruct (walk_edges s graph ids) as [[keys kinds] ends]. cbn. by rewrite IH.
Qed.

Lemma prefix_phrases_some keys kinds ends lengths into :
  (forall n, n ∈ lengths -> 0 < n <= List.length ends) ->
  is_Some (prefix_phrases d l s keys kinds ends lengths into).
Proof.
  revert into. induction lengths as [|n lengths IH]; intros into Hn; [done|]. cbn [prefix_phrases].
  assert (forall n, n ∈ lengths -> 0 < n <= List.length ends) as Hn' by (intros m Hm; apply Hn; by right).
  destruct (engine_scoring _) as [[|x ranked]|]; [by apply IH| |done].
  destruct (lookup_lt_is_Some_2 ends (n - 1)) as [end_ ->]; [specialize (Hn n (list_elem_of_here _ _)); lia|].
  by apply IH.
Qed.

(** Every cell's tokens go on from the selection's. *)
Definition cell_ok (cell : sentence_cell) : Prop :=
  forall c t h, cell = Some (c, t, h) -> List.length (history (record s)) <= List.length h.

Lemma fill_cell_ok keys kinds end_ settled cell r :
  Forall (fun x => cell_ok x.2) settled -> cell_ok cell -> fill_cell d l s keys kinds end_ settled cell = Ok r -> cell_ok r.
Proof.
  revert cell. induction settled as [|[start [[[c t] h]|]] settled IH]; intros cell Hall Hc; cbn [fill_cell];
    [by intros [= <-]| |apply Forall_cons in Hall as [_ Hall]; by apply IH].
  apply Forall_cons in Hall as [Hx Hall]. destruct (engine_scoring _) as [[|[entry cost] ranked]|]; [by apply IH| |done].
  apply IH; [done|]. destruct cell as [[[seen ?] ?]|].
  - destruct (_ <? seen)%Z; [|done]. intros ? ? ? [= _ _ <-]. rewrite length_app. specialize (Hx c t h eq_refl). lia.
  - intros ? ? ? [= _ _ <-]. rewrite length_app. specialize (Hx c t h eq_refl). lia.
Qed.

Lemma fill_cells_ok keys kinds ends table r :
  Forall cell_ok table -> fill_cells d l s keys kinds ends table = Ok r -> Forall cell_ok r.
Proof.
  revert table. induction ends as [|end_ ends IH]; intros table Ht; cbn [fill_cells]; [by intros [= <-]|].
  destruct (fill_cell d l s keys kinds end_ _ None) as [cell|] eqn:Ec; [|done]. apply IH.
  apply Forall_app. split; [done|]. constructor; [|constructor]. refine (fill_cell_ok _ _ _ _ None _ _ _ Ec); [|intros ? ? ? [=]].
  apply Forall_drop, Forall_forall. intros [i x] Hx%elem_of_zip_r. rewrite Forall_forall in Ht. by apply Ht.
Qed.

Lemma sentences_some path : is_Some (collect_sentences_with_tokens d l s graph path).
Proof.
  unfold collect_sentences_with_tokens, session_walk. pose proof (walk_lengths (decoded_edges path)) as Hw.
  destruct (walk_edges s graph (decoded_edges path)) as [[keys kinds] ends]. case_bool_decide as He; [done|].
  destruct (fill_cells _ _ _ _ _ _ _) as [table|] eqn:Ef; [|done].
  apply fill_cells_ok in Ef; [|constructor; [|constructor]; by intros ? ? ? [= _ _ <-]].
  destruct (list.last table) as [cell|] eqn:El; [|done]. cbn [mbind option_bind]. unfold id.
  destruct cell as [[[cost text] tokens]|]; [|done]. destruct (is_empty text); [done|].
  rewrite Forall_forall in Ef. specialize (Ef _ (last_Some_elem_of _ _ El) cost text tokens eq_refl).
  rewrite (proj2 (Nat.ltb_ge _ _)) by done. cbn [mbind option_bind].
  destruct keys as [|k keys]; [done|]. destruct (lookup_lt_is_Some_2 ends (List.length (k :: keys) - 1)) as [e ->]; [cbn in *; lia|].
  done.
Qed.

Lemma paths_some paths into : is_Some (collect_paths d l s graph paths into).
Proof.
  revert into. induction paths as [|path paths IH]; intros into; [done|]. cbn [collect_paths].
  unfold collect_prefix_phrases, session_walk. pose proof (walk_lengths (decoded_edges path)) as Hw.
  destruct (walk_edges s graph (decoded_edges path)) as [[keys kinds] ends].
  destruct (prefix_phrases_some keys kinds ends (seq 1 (List.length keys `min` MAX_PHRASE_KEYS)) into) as [r ->].
  { intros n Hn%elem_of_seq. lia. }
  cbn [mbind option_bind]. destruct r as [rows|]; [|done]. unfold collect_sentence.
  destruct (sentences_some path) as [found ->]. cbn [mbind option_bind]. destruct found as [more|]; [apply IH|done].
Qed.

Lemma path_sentences_some paths : is_Some (path_sentences d l s graph paths).
Proof.
  induction paths as [|path paths IH]; [done|]. cbn [path_sentences]. destruct (sentences_some path) as [found ->].
  cbn [mbind option_bind]. destruct found; [|done]. destruct IH as [more ->]. done.
Qed.
End fallback.

(** ** Steps that do not panic *)

Definition near (base t : SessionState) : Prop := (exists c, t = recache base c) /\ coherent t.
Definition good (t : SessionState) : Prop := sound t /\ coherent t.

Definition safe {A} (P : SessionState -> Prop) (Q : A -> SessionState -> Prop) (m : session A) : Prop :=
  forall s, P s -> exists t r, m s = Some (t, r) /\ match r with Ok a => Q a t | Err _ => good t end.

Lemma sound_same s t :
  raw (input s) = raw (input t) -> exact (input s) = exact (input t) ->
  parsed_full_pinyin (input s) = parsed_full_pinyin (input t) ->
  consumed_ (record s) = consumed_ (record t) -> constraints s = constraints t -> sound s -> sound t.
Proof. intros Hr He Hf Hc Hs [? ? ? ? ?]. constructor; rewrite <- ?Hr, <- ?He, <- ?Hf, <- ?Hc, <- ?Hs; done. Qed.

Lemma near_good base t : sound base -> near base t -> good t.
Proof. intros Hs [[c ->] Hc]. split; [|done]. by apply (sound_same base). Qed.

Lemma safe_weaken {A} (P P' : SessionState -> Prop) (Q Q' : A -> SessionState -> Prop) m :
  (forall s, P' s -> P s) -> (forall a t, Q a t -> Q' a t) -> safe P Q m -> safe P' Q' m.
Proof.
  intros HP HQ Hm s Hs. destruct (Hm s (HP s Hs)) as (t & r & E & Hr). exists t, r. split; [done|]. destruct r; auto.
Qed.

Lemma safe_bind {A B} P (Q : A -> SessionState -> Prop) (T : B -> SessionState -> Prop) (m : session A) f :
  safe P Q m -> (forall a, safe (Q a) T (f a)) -> safe P T (m ≫= f).
Proof.
  intros Hm Hf s Hs. destruct (Hm s Hs) as (t & r & E & Hr). unfold mbind, session_bind. rewrite E.
  destruct r as [a|e]; [by apply Hf|by exists t, (Err e)].
Qed.

Lemma safe_ret {A} P (Q : A -> SessionState -> Prop) a : (forall t, P t -> Q a t) -> safe P Q (mret a).
Proof. intros HQ s Hs. exists s, (Ok a). split; [done|]. by apply HQ. Qed.

Lemma safe_get {B} base (T : B -> SessionState -> Prop) f :
  (forall c, safe (near base) T (f (recache base c))) -> safe (near base) T (get ≫= f).
Proof. intros Hf s Hs. pose proof Hs as [[c ->] _]. unfold mbind, session_bind, get. by apply Hf. Qed.

Lemma safe_good {A} (T : A -> SessionState -> Prop) m :
  (forall base, sound base -> safe (near base) T m) -> safe good T m.
Proof. intros Hm s [Hs Hc]. apply (Hm s Hs). split; [apply recache_self|done]. Qed.

Lemma safe_pure {A} (F : Prop) P (T : A -> SessionState -> Prop) m :
  (F -> safe P T m) -> safe (fun t => F /\ P t) T m.
Proof. intros Hm s [HF Hs]. by apply Hm. Qed.

Lemma safe_lift {A} base (r : result A EngineError) :
  sound base -> safe (near base) (fun a t => r = Ok a /\ near base t) (lift r).
Proof. intros Hb s Hs. exists s, r. split; [done|]. destruct r; [done|]. by eapply near_good. Qed.

Lemma safe_must {A} P (o : option A) : is_Some o -> safe P (fun a t => o = Some a /\ P t) (must o).
Proof. intros [a ->] s Hs. by exists s, (Ok a). Qed.

Lemma safe_fail {A} base (T : A -> SessionState -> Prop) e : sound base -> safe (near base) T (fail e).
Proof. intros Hb s Hs. exists s, (Err e). split; [done|]. by eapply near_good. Qed.

Lemma safe_attempt {A} P (Q : A -> SessionState -> Prop) m :
  safe P Q m -> (forall a t, Q a t -> good t) -> safe P (fun _ => good) (attempt m).
Proof.
  intros Hm HQ s Hs. destruct (Hm s Hs) as (t & r & E & Hr). unfold attempt. rewrite E. exists t, (Ok r).
  split; [done|]. destruct r; [by eapply HQ|done].
Qed.

Lemma safe_aside base f :
  (forall c, f (recache base c) = recache (f base) c) ->
  input (f base) = input base -> options (f base) = options base ->
  collapse_sentence_rows_to_best (f base) = collapse_sentence_rows_to_best base ->
  safe (near base) (fun _ => near (f base)) (modify f).
Proof.
  intros Hf Hi Ho Hc s [[c ->] Hs]. exists (f (recache base c)), (Ok tt). split; [done|].
  rewrite Hf. split; [by eexists|]. by apply (coherent_eq (recache base c)); cbn; rewrite ?Hi, ?Ho, ?Hc.
Qed.

Lemma safe_emptied base f :
  (forall c, f (recache base c) = forget (f base)) -> safe (near base) (fun _ => near (f base)) (modify f).
Proof.
  intros Hf s [[c ->] Hs]. exists (f (recache base c)), (Ok tt). split; [done|].
  rewrite Hf. split; [by eexists|apply coherent_forget].
Qed.

Lemma safe_read {A} P (m : session A) v held base :
  answers P m v held -> sound base -> (forall c, v (recache base c) = v base) -> (forall c, P (recache base c)) ->
  is_Some (v base) -> safe (near base) (fun a t => v base = Some (Ok a) /\ near base t) m.
Proof.
  intros Hm Hb Hv HP [r Hr] s [[c ->] Hs]. pose proof (Hm _ Hs (HP c)) as Ha. rewrite Hv, Hr in Ha.
  destruct (m (recache base c)) as [[t r']|]; [|done]. destruct Ha as (-> & [c' ->] & Hc & _).
  rewrite recache_recache in *. exists (recache base c'), r. split; [done|].
  assert (near base (recache base c')) as Hn by (split; [by eexists|done]).
  destruct r; [by rewrite Hr|]. by eapply near_good.
Qed.

(** ** The reads *)

Lemma safe_graph base anchor remaining :
  sound base -> (anchor = 0 -> remaining = raw (input base)) ->
  safe (near base) (fun g t => build_uncached_graph_at base anchor remaining = Ok g /\ near base t) (build_graph_at anchor remaining).
Proof.
  intros Hb Hr. eapply safe_weaken; [done| |eapply safe_read; [apply answers_graph|done|done|by intros c|done]].
  cbn. by intros a t [[= ->] ?].
Qed.

Lemma safe_selected base :
  sound base -> safe (near base) (fun p t => fresh_selected base = Ok p /\ near base t) selected_path.
Proof.
  intros Hb. eapply safe_weaken; [done| |eapply safe_read; [apply answers_selected|done|done|done|done]].
  cbn. by intros a t [[= ->] ?].
Qed.

Lemma safe_parse base :
  sound base -> safe (near base) (fun p t => fresh_parse base = Some (Ok p) /\ near base t) retained_parse.
Proof.
  intros Hb. eapply safe_read; [apply answers_parse|done|done|done|]. destruct (parse_built base Hb) as (r & -> & _). done.
Qed.

Lemma safe_keys base :
  sound base -> safe (near base) (fun k t => fresh_keys base = Some (Ok k) /\ near base t) Retained.matrix_keys.
Proof.
  intros Hb. eapply safe_read; [apply answers_keys|done|done|done|]. destruct (keys_built base Hb) as (r & -> & _). done.
Qed.

Create HintDb safe.

Ltac sound_side :=
  first [assumption
        |match goal with Hb : sound ?b |- sound _ => apply (sound_same b); [reflexivity..|exact Hb] end].
Ltac good_side := intros; cbv beta in *; repeat match goal with Hx : _ /\ near _ _ |- _ => destruct Hx as [_ Hx] end;
  first [eassumption|eapply near_good; [|eassumption]; sound_side].

(** One step of an operation. What a [must] needs is left. *)
Ltac safe_step :=
  lazymatch goal with
  | |- safe good _ _ => apply safe_good; intros ? ?
  | |- safe (fun _ => _ /\ _) _ _ => apply safe_pure; intros ?
  | |- safe ?P _ (mret _) =>
      first [apply safe_ret; good_side|apply (safe_ret P (fun _ => P)); intros ? Hx; exact Hx]
  | |- safe _ _ (fail _) => apply safe_fail; sound_side
  | |- safe _ _ (get ≫= _) => apply safe_get; intros ?
  | |- safe _ _ (attempt _) => eapply safe_attempt
  | |- forall _ _, _ -> good _ => good_side
  | |- safe _ _ (_ ≫= _) => eapply safe_bind; [|intros ?]
  | |- safe _ _ (lift _) => first [apply safe_lift; sound_side|eapply safe_weaken; [| |apply safe_lift; sound_side]; good_side]
  | |- safe _ _ (must _) => first [apply safe_must|eapply safe_weaken; [| |apply safe_must]; [good_side..|]]
  | |- safe _ _ (match ?o with _ => _ end) => destruct o eqn:?
  | |- safe _ _ (modify _) =>
      first [apply safe_aside; reflexivity|apply safe_emptied; reflexivity
            |eapply safe_weaken; [| |first [apply safe_aside; reflexivity|apply safe_emptied; reflexivity]]; good_side
            |solve [eauto with safe]]
  | |- safe _ _ _ =>
      first [solve [eauto with safe]|eapply safe_weaken; [| |solve [eauto with safe]]; good_side]
  end.
Ltac keep_safe := repeat (cbv zeta beta; safe_step).

#[export] Hint Extern 1 (sound _) => sound_side : safe.
#[export] Hint Resolve safe_selected safe_parse safe_keys : safe.

Lemma safe_ensure base : sound base -> safe (near base) (fun _ => near base) ensure_matrix.
Proof. intros Hb. unfold ensure_matrix. keep_safe. Qed.
#[export] Hint Resolve safe_ensure : safe.

Section lists.
Context {D L : Type} `{Dictionary D, !CandidateDictionary D, !SuggestionDictionary D, LanguageModel L, !SessionModel L}
  (d : D) (l : L).

Lemma safe_longer base gate : sound base -> safe (near base) (fun _ => near base) (longer_candidate d l gate).
Proof. intros Hb. unfold longer_candidate. keep_safe. Qed.
#[local] Hint Resolve safe_longer : safe.

Lemma safe_longer_row base gate : sound base -> safe (near base) (fun _ => near base) (longer_row d l gate).
Proof. intros Hb. unfold longer_row. keep_safe. Qed.
#[local] Hint Resolve safe_longer_row : safe.

Lemma safe_prepend_longer base out gate : sound base -> safe (near base) (fun _ => near base) (prepend_longer_row d l out gate).
Proof. intros Hb. unfold prepend_longer_row. keep_safe. Qed.
#[local] Hint Resolve safe_prepend_longer : safe.

Lemma safe_fallback base c graph : sound base -> safe (near base) (fun _ => near base) (fallback_rows d l (recache base c) graph).
Proof. intros Hb. unfold fallback_rows. keep_safe. apply paths_some. Qed.

Lemma safe_scanned base anchor gate remaining :
  sound base -> safe (near base) (fun _ => good) (scanned_rows d l anchor gate remaining).
Proof. intros Hb. unfold scanned_rows. keep_safe. Qed.
#[local] Hint Resolve safe_fallback safe_scanned : safe.

Lemma safe_window_len base c graph anchor remaining :
  sound base -> anchor <= List.length (raw (input base)) ->
  (has_real_unigrams l = true -> fresh_graph base = Ok graph) ->
  safe (near base) (fun _ => near base) (window_len l (recache base c) graph anchor remaining).
Proof.
  intros Hb Ha Hg. unfold window_len. keep_safe. apply (window_len_some base); auto.
Qed.

(** The graph a window reads. *)
Lemma safe_window_graph base anchor remaining :
  sound base -> (anchor = 0 -> remaining = raw (input base)) ->
  safe (near base) (fun g t => (has_real_unigrams l = true -> fresh_graph base = Ok g) /\ near base t)
    (if has_real_unigrams l then build_graph_at 0 (raw (input base)) else build_graph_at anchor remaining).
Proof.
  intros Hb Hr. destruct (has_real_unigrams l).
  - eapply safe_weaken; [done| |by apply safe_graph]. cbn. intros g t [Hg Ht]. done.
  - eapply safe_weaken; [done| |by apply safe_graph]. cbn. intros g t [Hg Ht]. done.
Qed.

Lemma safe_window_rows base c graph anchor gate remaining :
  sound base ->
  safe (near base) (fun _ => good)
    (if has_real_unigrams l then scanned_rows d l anchor gate remaining
     else rows ← fallback_rows d l (recache base c) graph; mret (rows, false)).
Proof. intros Hb. destruct (has_real_unigrams l); keep_safe. Qed.

Lemma safe_scan_window base anchor gate :
  sound base -> safe (near base) (fun _ => good) (scan_window d l anchor gate).
Proof.
  intros Hb. unfold scan_window. eapply safe_bind; [by apply safe_ensure|intros ?; cbv beta]. apply safe_get. intros c.
  change (raw (input (recache base c))) with (raw (input base)).
  destruct (Nat.leb_spec (List.length (raw (input base))) anchor) as [|Hlt]; [keep_safe|].
  eapply safe_bind; [apply safe_must; rewrite str_from_ascii by (apply Hb || lia); done|intros remaining; cbv beta].
  apply safe_pure. intros Hr. eapply safe_bind; [apply safe_window_graph; [done|]|intros graph; cbv beta].
  { intros E. exact (str_from_zero _ _ _ Hr E). }
  apply safe_pure. intros Hg. eapply safe_bind; [apply safe_window_len; [done|lia|done]|intros parsed; cbv beta].
  eapply safe_bind; [by apply safe_window_rows|intros [collected empty]]. keep_safe.
Qed.
#[local] Hint Resolve safe_scan_window : safe.

Lemma safe_refresh base : sound base -> safe (near base) (fun _ => good) (refresh d l).
Proof. intros Hb. unfold refresh. keep_safe. Qed.
#[local] Hint Resolve safe_refresh : safe.

Lemma safe_refresh_after base : sound base -> safe (near base) (fun _ => good) (refresh_after_parse d l).
Proof. intros Hb. unfold refresh_after_parse. keep_safe. Qed.
#[local] Hint Resolve safe_refresh_after : safe.

Lemma safe_refresh_candidates base : sound base -> safe (near base) (fun _ => good) (refresh_candidates d l).
Proof. intros Hb. unfold refresh_candidates. keep_safe. Qed.
#[local] Hint Resolve safe_refresh_candidates : safe.

Lemma safe_check_offset base offset :
  sound base -> safe (near base) (fun _ t => offset <= List.length (raw (input base)) /\ near base t) (check_offset offset).
Proof.
  intros Hb. unfold check_offset. apply safe_get. intros c. change (raw (input (recache base c))) with (raw (input base)).
  destruct (Nat.ltb_spec (List.length (raw (input base))) offset); [by apply safe_fail|].
  destruct (is_char_boundary _ _); [by apply safe_ret|by apply safe_fail].
Qed.

Lemma safe_spans base offset : sound base -> safe (near base) (fun _ => near base) (spans_a_matrix_key offset).
Proof. intros Hb. unfold spans_a_matrix_key. keep_safe. Qed.
#[local] Hint Resolve safe_check_offset safe_spans : safe.

Lemma safe_flagged base items : sound base -> safe (near base) (fun _ => good) (flagged items).
Proof. intros Hb. unfold flagged. keep_safe. Qed.
#[local] Hint Resolve safe_flagged : safe.

Lemma safe_candidates_at base offset : sound base -> safe (near base) (fun _ => good) (candidates_at d l offset).
Proof.
  intros Hb. unfold candidates_at. eapply safe_bind; [by apply safe_check_offset|intros ?; cbv beta].
  apply safe_pure. intros Ho. eapply safe_bind; [apply safe_aside; reflexivity|intros ?; cbv beta].
  apply safe_get. intros c. change (raw (input (recache (set_scan base false false) c))) with (raw (input base)).
  assert (sound (set_scan base false false)) as Hb' by sound_side.
  eapply (safe_bind _ (fun _ => near (set_scan base false false))); [|intros spans; cbv beta].
  { destruct (_ <? _); keep_safe. }
  destruct spans; keep_safe. rewrite str_from_ascii by (apply Hb || done). done.
Qed.

Lemma safe_window_ending base offset :
  sound base -> safe (near base) (fun _ => good) (scan_window_ending d l offset).
Proof. intros Hb. unfold scan_window_ending. keep_safe. Qed.
#[local] Hint Resolve safe_window_ending : safe.

Lemma safe_candidates_ending base offset :
  sound base -> safe (near base) (fun _ => good) (candidates_ending_at d l offset).
Proof. intros Hb. unfold candidates_ending_at. keep_safe. Qed.

(** ** The input *)

Lemma push_each_facts rest b :
  let b' := fold_left (fun b c => push b [c]) rest b in
  raw b' = raw b ++ rest /\ (rest <> [] -> exact b' = [] /\ parsed_full_pinyin b' = false) /\ (rest = [] -> b' = b).
Proof.
  revert b. induction rest as [|c rest IH]; intros b; cbn [fold_left]; [by rewrite app_nil_r|].
  destruct (IH (push b [c])) as (Hr & Hx & He). split; [rewrite Hr; cbn; by rewrite <- app_assoc|]. split; [|done].
  intros _. destruct rest as [|c' rest]; [by rewrite He|by apply Hx].
Qed.

Lemma sound_push base text : sound base -> sound (on_input (push_all text) base).
Proof.
  intros Hb. destruct (push_each_facts (filter (fun c => is_batch_input c = true) text) (input base)) as (Hr & Hx & He).
  unfold on_input, push_all. cbn [fold_left]. set (rest := filter _ text) in *.
  destruct (decide (rest = [])) as [E|E].
  { rewrite He by done. by apply (sound_same base). }
  destruct (Hx E) as [Hexact Hfull]. destruct Hb as [Ha _ _ Hc Hf].
  constructor; cbn; rewrite ?Hr, ?Hexact; [|done|done| |done].
  - apply Forall_app. split; [done|]. apply Forall_forall. intros b [Hb _]%list_elem_of_filter.
    unfold is_batch_input, is_ascii, in_range in *. apply andb_true_iff in Hb as [?%Z.leb_le ?%Z.leb_le].
    apply andb_true_iff. split; apply Z.leb_le; lia.
  - rewrite length_app. lia.
Qed.

Lemma safe_push base text :
  sound base -> safe (near base) (fun _ => near (on_input (push_all text) base)) (modify (on_input (push_all text))).
Proof.
  intros Hb. destruct (push_all_caches base text) as [[E Hc]|Hc]; [|by apply safe_emptied].
  apply safe_aside; by rewrite E.
Qed.

Lemma safe_type_pinyin base text : sound base -> safe (near base) (fun _ => good) (type_pinyin d l text).
Proof.
  intros Hb. unfold type_pinyin. apply safe_get. intros c. cbv zeta.
  eapply safe_bind; [by apply safe_push|intros ?; cbv beta]. pose proof (sound_push base text Hb). keep_safe.
Qed.

Lemma sound_pop base :
  sound base -> consumed_ (record base) < List.length (raw (input base)) -> sound (on_input pop base).
Proof.
  intros [Ha _ _ _ Hf] Hc. constructor; cbn; rewrite ?floor_ascii by (done || lia); [by apply Forall_take|done|done| |done].
  rewrite length_take. lia.
Qed.

Lemma sound_cleared base :
  sound base -> sound (set_constraints (set_record base (record_clear (record base))) (clear (constraints base))).
Proof. intros [Ha He Hp _ _]. constructor; cbn; [done|done|done|lia|apply forward_new]. Qed.

Lemma safe_erase base : sound base -> safe (near base) (fun _ => good) (erase d l).
Proof.
  intros Hb. unfold erase. apply safe_get. intros c.
  change (consumed_ (record (recache base c))) with (consumed_ (record base)).
  change (raw (input (recache base c))) with (raw (input base)).
  destruct (Nat.ltb_spec (consumed_ (record base)) (List.length (raw (input base)))).
  - pose proof (sound_pop base Hb ltac:(done)). keep_safe.
  - pose proof (sound_cleared base Hb). keep_safe.
Qed.

(** ** Replacing the input *)

(** Texts the theorem is about. *)
Definition plain (text : bytes) : Prop := Forall (fun b => is_ascii b = true) text.

Lemma rebuild_consumed r text rs : consumed_ (rebuild_from_constraints r text rs) <= List.length text.
Proof.
  unfold rebuild_from_constraints. destruct rs; [cbn; lia|]. destruct (fold_left _ _ _) as [[[??]?]?]. cbn. lia.
Qed.

Lemma sound_rebuild base rs :
  sound base -> sound (set_record base (rebuild_from_constraints (record base) (raw (input base)) rs)).
Proof. intros [Ha He Hp _ Hf]. constructor; cbn; [done|done|done|apply rebuild_consumed|done]. Qed.

Lemma sound_store base store :
  sound base -> forward (cells store) -> sound (set_constraints base store).
Proof. intros [Ha He Hp Hc _] Hf. by constructor. Qed.

(** A replaced input, before its segments are set. *)
Lemma sound_refill base text :
  sound base -> plain text -> exact (input base) = [] -> sound (refill_raw text base).
Proof.
  intros [_ _ Hp _ Hf] Ht He. unfold refill_raw.
  destruct (_ && _ && _); (constructor; cbn; [done|by rewrite He|done| |done]);
    rewrite floor_ascii by (done || lia); lia.
Qed.

Lemma refill_facts base text :
  plain text ->
  raw (input (refill_raw text base)) = text /\ exact (input (refill_raw text base)) = exact (input base) /\
  parsed_full_pinyin (input (refill_raw text base)) = parsed_full_pinyin (input base) /\
  constraints (refill_raw text base) = constraints base /\ consumed_ (record (refill_raw text base)) <= List.length text.
Proof.
  intros Ht. unfold refill_raw. destruct (_ && _ && _); cbn; rewrite floor_ascii by (done || lia); split_and!; done || lia.
Qed.

Lemma safe_extends base text :
  sound base -> safe (near base) (fun _ => near base) (replacement_extends_selection text).
Proof.
  intros Hb. unfold replacement_extends_selection. keep_safe.
  change (consumed_ (record (recache base c))) with (consumed_ (record base)).
  change (raw (input (recache base c))) with (raw (input base)).
  rewrite (proj2 (Nat.ltb_ge _ _)) by apply Hb. done.
Qed.
#[local] Hint Resolve safe_extends : safe.

Lemma safe_validate base c retained :
  sound base ->
  safe (near base) (fun x t => forward (cells x.1) /\ near base t) (validate_forcings d (recache base c) retained).
Proof.
  intros Hb. unfold validate_forcings.
  destruct (validate_some (spells d (spelling_of (recache base c) retained)) None (constraints base)
    (pm_bound (rp_matrix retained) + 1)) as (s' & r & E & Hf); [apply Hb|].
  change (constraints (recache base c)) with (constraints base). rewrite E.
  eapply safe_weaken; [done| |by apply safe_must]. by intros x t [[= <-] Ht].
Qed.
#[local] Hint Resolve safe_validate : safe.

(** A rebuild of the record from any forcings. *)
Lemma safe_rebuild base rs :
  sound base ->
  safe (near base) (fun _ => good)
    (modify (fun s => set_record s (rebuild_from_constraints (record s) (raw (input s)) rs))).
Proof. intros Hb. pose proof (sound_rebuild base rs Hb). keep_safe. Qed.

Lemma safe_reconcile base : sound base -> safe (near base) (fun _ => good) (reconcile_replaced_selection d).
Proof.
  intros Hb. unfold reconcile_replaced_selection. apply safe_get. intros c. destruct (_ =? 0); [keep_safe|].
  eapply safe_bind; [by apply safe_parse|intros parse; cbv beta]. apply safe_pure. intros _.
  eapply (safe_bind _ (fun _ => near base)); [|intros kept; cbv beta; by apply safe_rebuild].
  destruct (0 <? _); keep_safe.
Qed.
#[local] Hint Resolve safe_reconcile : safe.

Lemma safe_reconcile_unless base continuous :
  sound base -> safe (near base) (fun _ => good) (reconcile_unless d l continuous).
Proof. intros Hb. unfold reconcile_unless. destruct continuous; keep_safe. Qed.
#[local] Hint Resolve safe_reconcile_unless : safe.

Lemma safe_refill base text : safe (near base) (fun _ => near (refill_raw text base)) (modify (refill_raw text)).
Proof. apply safe_emptied. apply refill_emptied. Qed.
#[local] Hint Resolve safe_refill : safe.

Lemma safe_replace_raw base text physical :
  sound base -> plain text -> safe (near base) (fun _ => good) (replace_raw_with_physical_separators d l text physical).
Proof.
  intros Hb Ht. unfold replace_raw_with_physical_separators.
  assert (sound (on_input clear_exact base)) as Hb1 by (destruct Hb; by constructor).
  assert (sound (refill_raw text (on_input clear_exact base))) as Hb2 by (by apply sound_refill).
  eapply safe_bind; [apply safe_emptied; reflexivity|intros ?; cbv beta].
  eapply safe_bind; [by apply safe_extends|intros ?; cbv beta].
  eapply safe_bind; [apply safe_refill|intros ?; cbv beta].
  eapply safe_bind; [apply safe_emptied; reflexivity|intros ?; cbv beta]. keep_safe.
Qed.

Lemma sound_exact_set base text segments :
  sound base -> plain text -> sound (on_input (fun b => set_exact b segments) (refill_raw text base)).
Proof.
  intros [Ha He Hp Hc Hf] Ht. destruct (refill_facts base text Ht) as (Hr & Hx & Hq & Hs & Hn).
  revert Hr Hs Hn. generalize (refill_raw text base). clear -Ht Hf. intros t Hr Hs Hn.
  constructor; cbn; rewrite ?Hr, ?Hs; [done| |done|done|done]. apply Forall_forall. intros x [Hx'%Nat.leb_le _]%list_elem_of_filter. done.
Qed.

Lemma safe_replace_exact base text segments :
  sound base -> plain text -> safe (near base) (fun _ => good) (replace_raw_exact d l text segments).
Proof.
  intros Hb Ht. unfold replace_raw_exact. pose proof (sound_exact_set base text segments Hb Ht).
  eapply safe_bind; [by apply safe_extends|intros ?; cbv beta].
  eapply safe_bind; [apply safe_refill|intros ?; cbv beta].
  eapply safe_bind; [apply safe_emptied; reflexivity|intros ?; cbv beta]. keep_safe.
Qed.

(** ** Settings *)

Lemma safe_set_options base o : sound base -> safe (near base) (fun _ => good) (set_options d l o).
Proof. intros Hb. unfold set_options. keep_safe. Qed.
#[local] Hint Resolve safe_set_options : safe.

Lemma safe_set_incomplete base enabled : sound base -> safe (near base) (fun _ => good) (set_incomplete_pinyin d l enabled).
Proof. intros Hb. unfold set_incomplete_pinyin. keep_safe. Qed.

Lemma safe_set_sort base word : sound base -> safe (near base) (fun _ => good) (set_sort_options d l word).
Proof. intros Hb. unfold set_sort_options. keep_safe. Qed.

(** ** Selection *)

(** What a selection leaves, whatever it put on the record before. *)
Lemma sound_chosen base r store n c :
  sound base -> forward (cells store) -> n <= List.length (raw (input base)) ->
  sound (set_record (set_constraints (set_record base r) store)
           (set_committed (set_consumed (record (set_constraints (set_record base r) store)) n) c)).
Proof. intros [Ha He Hp _ _] Hf Hn. by constructor. Qed.

Lemma sound_moved base r n :
  sound base -> n <= List.length (raw (input base)) ->
  sound (set_record (set_record base r) (set_consumed (record (set_record base r)) n)).
Proof. intros [Ha He Hp _ Hf] Hn. by constructor. Qed.

Lemma sound_behind base store :
  sound base -> forward (cells store) -> sound (rebuild_selection_from_constraints (set_constraints base store)).
Proof. intros Hb Hf. apply sound_rebuild. by apply sound_store. Qed.

Lemma safe_select_behind base start end_ token text :
  sound base -> safe (near base) (fun _ => good) (select_behind d l start end_ token text).
Proof.
  intros Hb. unfold select_behind. apply safe_get. intros c. destruct token as [token|]; [|keep_safe].
  destruct (add_forward (store_resize (constraints (recache base c)) (List.length (raw (input (recache base c))) + 1)) start end_ token text)
    as (s' & n & E & Hf & _); [apply resize_forward, Hb|]. rewrite E.
  eapply safe_bind; [by apply safe_must|intros [store m]; cbv beta]. apply safe_pure. intros [= <- <-].
  pose proof (sound_behind base s' Hb Hf). keep_safe.
Qed.
#[local] Hint Resolve safe_select_behind : safe.

Lemma forced_store_some base candidate token start end_ :
  sound base -> exists r, forced_store base candidate token start end_ = Some r /\
  forall store, r = Some store -> forward (cells store).
Proof.
  intros Hb. pose proof (resize_forward (constraints base) (List.length (raw (input base)) + 1) (sound_forcings _ Hb)) as Hf.
  unfold forced_store. destruct (nbest_row candidate) as [rank|].
  - destruct (sentence_row base rank) as [chosen|]; [|by eexists].
    destruct (head _) as [best|]; [|eexists; split; [done|]; intros store [= <-]; apply Hb].
    unfold diff_result.
    destruct (diff_loop_forward _ (row_spans best) (row_spans chosen) (List.length (raw (input base))) false Hf)
      as (s' & b & -> & Hf'). eexists. split; [done|]. by intros store [= <-].
  - destruct token as [token|]; [|eexists; split; [done|]; intros store [= <-]; apply Hb].
    destruct (add_forward _ start end_ token (cand_text candidate) Hf) as (s' & n & -> & Hf' & _).
    eexists. split; [done|]. by intros store [= <-].
Qed.

Lemma safe_select_inner base anchor candidate token :
  sound base -> safe (near base) (fun _ => good) (select_inner d l anchor candidate token).
Proof.
  intros Hb. unfold select_inner. apply safe_get. intros c. cbv zeta. destruct (_ && _); [keep_safe|].
  set (end_ := next_boundary _ _). assert (end_ <= List.length (raw (input base))) as Hend.
  { apply next_boundary_bound. apply Hb. }
  eapply safe_bind; [apply safe_aside; reflexivity|intros ?; cbv beta].
  match goal with |- safe _ _ (must (forced_store (recache base c) ?x ?t ?a ?b) ≫= _) =>
    destruct (forced_store_some base x t a b Hb) as (store & E & Hf);
    change (forced_store (recache base c) x t a b) with (forced_store base x t a b); rewrite E end.
  eapply safe_bind; [by apply safe_must|intros ?; cbv beta]. apply safe_pure. intros [= <-].
  destruct store as [store|].
  - eapply safe_bind; [eapply safe_bind; [apply safe_aside; reflexivity|intros ?; cbv beta; apply safe_aside; reflexivity]|intros ?; cbv beta].
    match goal with |- safe (near ?b) _ _ => assert (sound b) by (apply sound_chosen; auto) end. keep_safe.
  - eapply safe_bind; [apply safe_aside; reflexivity|intros ?; cbv beta].
    match goal with |- safe (near ?b) _ _ => assert (sound b) by (by apply sound_moved) end. keep_safe.
Qed.
#[local] Hint Resolve safe_select_inner : safe.

Lemma safe_select base index promoted : sound base -> safe (near base) (fun _ => good) (select d l index promoted).
Proof. intros Hb. unfold select. keep_safe. Qed.

Lemma safe_select_anchored base index window anchor promoted :
  sound base -> safe (near base) (fun _ => good) (select_anchored d l index window anchor promoted).
Proof. intros Hb. unfold select_anchored. keep_safe. Qed.

Lemma safe_clear_constraint base offset : sound base -> safe (near base) (fun _ => good) (clear_constraint offset).
Proof.
  intros Hb. unfold clear_constraint. apply safe_get. intros c.
  destruct (clear_by_offset_forward (constraints base) offset) as (s' & b & E & Hf & _); [apply Hb|].
  change (constraints (recache base c)) with (constraints base). rewrite E.
  eapply safe_bind; [by apply safe_must|intros [store m]; cbv beta]. apply safe_pure. intros [= <- <-].
  pose proof (sound_behind base s' Hb Hf). pose proof (sound_store base s' Hb Hf). destruct b; keep_safe.
Qed.

(** ** Sentences *)

Section sentences.
Context (ln : f64 -> f64) (penalty : f32).

Lemma safe_update base : sound base -> safe (near base) (fun _ => good) (update_constraints d).
Proof.
  intros Hb. unfold update_constraints. eapply safe_bind; [by apply safe_parse|intros retained; cbv beta].
  apply safe_pure. intros _. apply safe_get. intros c. eapply safe_bind; [by apply safe_validate|intros [store dropped]; cbv beta].
  apply safe_pure. intros Hf. pose proof (sound_store base store Hb Hf). pose proof (sound_behind base store Hb Hf).
  keep_safe.
Qed.

Lemma safe_decode base seeds : sound base -> safe (near base) (fun _ => near base) (decode_matrix d l ln penalty seeds).
Proof. intros Hb. unfold decode_matrix. keep_safe. Qed.
#[local] Hint Resolve safe_update safe_decode : safe.

Lemma safe_guess_matrix base seeds : sound base -> safe (near base) (fun _ => good) (guess_over_matrix d l ln penalty seeds).
Proof. intros Hb. unfold guess_over_matrix. destruct seeds; keep_safe. Qed.
#[local] Hint Resolve safe_guess_matrix : safe.

Lemma safe_fallback_sentences base c graph :
  sound base -> safe (near base) (fun _ => near base) (fallback_sentences d l (recache base c) graph).
Proof. intros Hb. unfold fallback_sentences. keep_safe. apply path_sentences_some. Qed.
#[local] Hint Resolve safe_fallback_sentences : safe.

Lemma safe_remaining base c remaining graph :
  sound base -> x00 ∉ remaining -> built_as base remaining graph ->
  safe (near base) (fun _ => near base) (remaining_sentences d l ln penalty (recache base c) graph).
Proof.
  intros Hb Hnul Hg. unfold remaining_sentences. destruct (has_real_unigrams l); [|keep_safe].
  eapply (safe_bind _ (fun _ => near base)); [|intros [matrix topology]; cbv beta; keep_safe].
  destruct (_ =? 0); keep_safe. destruct (scan_built base remaining graph Hb Hnul Hg) as (scan & E & _). by exists scan.
Qed.

Lemma safe_keep_sentences base rows :
  sound base -> safe (near base) (fun _ => good) (modify (keep_sentences rows)).
Proof.
  intros Hb. destruct (keep_sentences_aside base rows) as (Hf & Hi & Ho & Hc & Hr & Hs).
  eapply safe_weaken; [done| |by apply safe_aside]. cbv beta. intros _ t. apply near_good.
  apply (sound_same base); by rewrite ?Hi, ?Hr, ?Hs.
Qed.
#[local] Hint Resolve safe_keep_sentences : safe.

Lemma safe_guess_remaining base : sound base -> safe (near base) (fun _ => good) (guess_over_remaining d l ln penalty).
Proof.
  intros Hb. unfold guess_over_remaining. apply safe_get. intros c.
  change (raw (input (recache base c))) with (raw (input base)).
  change (consumed_ (record (recache base c))) with (consumed_ (record base)).
  assert (str_from (raw (input base)) (consumed_ (record base)) = Some (drop (consumed_ (record base)) (raw (input base)))) as E
    by (apply str_from_ascii; apply Hb).
  rewrite E. eapply safe_bind; [by apply safe_must|intros remaining; cbv beta]. apply safe_pure. intros [= <-].
  case_bool_decide; [keep_safe|]. eapply safe_bind; [apply safe_graph; [done|]|intros graph; cbv beta].
  { intros ->. done. }
  apply safe_pure. intros Hg%graph_built. destruct (_ =? 0); [keep_safe|].
  eapply safe_bind; [eapply safe_remaining; [done| |done]|intros rows; cbv beta].
  { apply ascii_nul, Forall_drop, Hb. }
  keep_safe.
Qed.
#[local] Hint Resolve safe_guess_remaining : safe.

Lemma sound_cleared_selection base : sound base -> sound (clear_selection base).
Proof. intros [Ha He Hp _ _]. constructor; cbn; [done|done|done|lia|apply forward_new]. Qed.

Lemma safe_begin_guess base go :
  (forall base, sound base -> safe (near base) (fun _ => good) go) -> sound base ->
  safe (near base) (fun _ => good) (begin_guess go).
Proof.
  intros Hgo Hb. unfold begin_guess. eapply safe_bind; [by apply safe_ensure|intros ?; cbv beta].
  eapply safe_bind; [apply safe_aside; reflexivity|intros ?; cbv beta].
  match goal with |- safe (near ?b) _ _ => assert (sound b) as Hb' by (by apply (sound_same base)) end.
  pose proof (sound_cleared_selection _ Hb'). apply safe_get. intros c. case_bool_decide; keep_safe.
Qed.

Lemma safe_guess base : sound base -> safe (near base) (fun _ => good) (guess_sentence d l ln penalty).
Proof. apply safe_begin_guess. intros b Hb. keep_safe. Qed.

Lemma safe_guess_with_prefix base tokens :
  sound base -> safe (near base) (fun _ => good) (guess_sentence_with_prefix d l ln penalty tokens).
Proof. apply safe_begin_guess. intros b Hb. keep_safe. Qed.
End sentences.

(** ** Training and the offsets *)

Section train.
Context {U : Type} `{UserModel U}.

Lemma safe_plan {V} base check spans (u : V) : sound base -> safe (near base) (fun _ => good) (plan_spans check spans u).
Proof. intros Hb. unfold plan_spans. keep_safe. Qed.
#[local] Hint Resolve safe_plan : safe.

Lemma safe_train_spans base spans (u : U) : sound base -> safe (near base) (fun _ => good) (train_spans spans u).
Proof. intros Hb. unfold train_spans. keep_safe. Qed.
#[local] Hint Resolve safe_train_spans : safe.

Lemma safe_train base (u : U) : sound base -> safe (near base) (fun _ => good) (train u).
Proof. intros Hb. unfold train. keep_safe. Qed.

Lemma safe_train_nbest base index (u : U) : sound base -> safe (near base) (fun _ => good) (train_nbest index u).
Proof. intros Hb. unfold train_nbest. keep_safe. Qed.
End train.

Lemma safe_preflight base index : sound base -> safe (near base) (fun _ => good) (train_nbest_preflight index).
Proof.
  intros Hb. unfold train_nbest_preflight. apply safe_get. intros c.
  eapply safe_bind; [by apply safe_lift|intros row; cbv beta]. apply safe_pure. intros _.
  destruct row as [row|]; [|keep_safe]. case_bool_decide; [keep_safe|].
  eapply safe_bind; [by apply safe_plan|intros [??]; cbv beta]. keep_safe.
Qed.

Lemma safe_over_keys {A} (law : list MatrixKey -> bytes -> nat -> bool -> nat -> option (result A EngineError)) base offset :
  (forall keys parsed, starts_sorted (mk_span <$> keys) -> is_Some (law keys (raw (input base)) parsed true offset)) ->
  sound base -> safe (near base) (fun _ => near base) (over_keys law offset).
Proof.
  intros Hlaw Hb. unfold over_keys. apply safe_get. intros c.
  eapply safe_bind; [by apply safe_keys|intros [keys parsed]; cbv beta]. apply safe_pure. intros Hk.
  destruct (keys_built base Hb) as (r & E & Hs). rewrite E in Hk. injection Hk as ->. keep_safe.
  apply Hlaw. by eapply Hs.
Qed.

Lemma safe_offsets base offset :
  sound base ->
  safe (near base) (fun _ => near base) (lookup_offset_for_cursor offset) /\
  safe (near base) (fun _ => near base) (left_word_offset offset) /\
  safe (near base) (fun _ => near base) (right_word_offset offset).
Proof.
  intros Hb. unfold lookup_offset_for_cursor, left_word_offset, right_word_offset.
  split_and!; apply safe_over_keys; try done; intros keys parsed Hs;
    by destruct (laws_answer keys _ (matrix_spans_are keys) Hs (raw (input base)) parsed true offset) as (? & ? & ?).
Qed.

Lemma safe_character_offset base phrase offset :
  sound base -> safe (near base) (fun _ => good) (character_offset_with_walk d phrase offset).
Proof.
  intros Hb. unfold character_offset_with_walk. apply safe_get. intros c.
  eapply safe_bind; [by apply safe_parse|intros retained; cbv beta]. apply safe_pure. intros Hp.
  destruct (parse_built base Hb) as (r & E & Hk). rewrite E in Hp. injection Hp as ->. keep_safe.
  apply offset_answers. by apply Hk.
Qed.

Lemma safe_full_parsed base : sound base -> safe (near base) (fun _ => good) full_parsed_len.
Proof. intros Hb. unfold full_parsed_len. keep_safe. Qed.

(** ** Any run *)

Section operations.
Context (ln : f64 -> f64) (penalty : f32) {U : Type} `{UserModel U}.

(** The operations the theorem is about. *)
Definition plain_op (op : Operation (U := U)) : Prop :=
  match op with
  | ReplaceRaw text _ | ReplaceExact text _ => plain text
  | ReplaceFullPinyin _ _ => False
  | _ => True
  end.

Lemma safe_answering {A} base (f : A -> Answer (U := U)) (m : session A) (Q : A -> SessionState -> Prop) :
  sound base -> safe (near base) Q m -> (forall a t, Q a t -> good t) -> safe (near base) (fun _ => good) (answering f m).
Proof.
  intros Hb Hm HQ. unfold answering. eapply safe_bind; [exact Hm|intros a]. apply safe_ret. apply HQ.
Qed.

Lemma safe_doing base (m : session unit) :
  safe (near base) (fun _ => good) m -> safe (near base) (fun _ => good) (doing (U := U) m).
Proof. intros Hm. unfold doing. eapply safe_bind; [exact Hm|intros a]. by apply safe_ret. Qed.

Lemma safe_changing base f :
  safe (near base) (fun _ => good) (modify f) -> safe (near base) (fun _ => good) (changing (U := U) f).
Proof. intros Hm. unfold changing. eapply safe_bind; [exact Hm|intros a]. by apply safe_ret. Qed.

Lemma sound_emptied base : sound base -> sound (discard_composition base).
Proof. intros _. constructor; cbn; [done|done|done|lia|apply forward_new]. Qed.

Lemma safe_collapse base collapse : sound base -> safe (near base) (fun _ => good) (modify (set_collapse collapse)).
Proof.
  intros Hb s [[c ->] Hs]. exists (set_collapse collapse (recache base c)), (Ok tt). split; [done|].
  unfold set_collapse. change (collapse_sentence_rows_to_best (recache base c)) with (collapse_sentence_rows_to_best base).
  case_bool_decide as E; (split; [by apply (sound_same base)|]).
  - by eapply coherent_eq, Hs.
  - destruct Hs as [Hg Hp _ _]. constructor; [exact Hg|exact Hp|done|done].
Qed.

Lemma safe_reset base f :
  (forall c, f (recache base c) = forget (f base)) -> sound (f base) -> safe (near base) (fun _ => good) (modify f).
Proof. intros Hf Hb. eapply safe_weaken; [done| |by apply safe_emptied]. intros ? t. by apply near_good. Qed.

Lemma safe_answering_good {A} base (f : A -> Answer (U := U)) (m : session A) :
  sound base -> safe (near base) (fun _ => good) m -> safe (near base) (fun _ => good) (answering f m).
Proof. intros Hb Hm. by apply (safe_answering base f m (fun _ => good)). Qed.

Lemma safe_answering_near {A} base (f : A -> Answer (U := U)) (m : session A) :
  sound base -> safe (near base) (fun _ => near base) m -> safe (near base) (fun _ => good) (answering f m).
Proof. intros Hb Hm. apply (safe_answering base f m (fun _ => near base)); [done|done|]. intros _ t. by apply near_good. Qed.

Lemma safe_perform base op : sound base -> plain_op op -> safe (near base) (fun _ => good) (perform d l ln penalty op).
Proof.
  intros Hb Hop. destruct op; cbn [perform plain_op] in *;
    try solve [apply safe_doing; keep_safe|unfold reading; keep_safe];
    try solve [done|apply safe_changing, safe_collapse, Hb
      |apply safe_changing, (safe_reset base); [reflexivity|by apply sound_emptied]
      |apply safe_doing; eauto using safe_replace_raw, safe_replace_exact, safe_set_incomplete, safe_set_sort, safe_preflight
      |apply safe_answering_good; eauto using safe_type_pinyin, safe_erase, safe_candidates_at, safe_candidates_ending, safe_select,
        safe_select_anchored, safe_clear_constraint, safe_guess, safe_guess_with_prefix, safe_train, safe_train_nbest,
        safe_character_offset, safe_full_parsed
      |apply safe_answering_near; [done|by apply safe_offsets]].
  - apply safe_changing, (safe_reset base); [reflexivity|]. by apply (sound_same (discard_composition base)), sound_emptied.
  - apply safe_answering_near; [done|]. unfold normalized_lookup_offset. keep_safe.
  - eapply safe_answering; [done|by apply safe_keys|]. cbv beta. intros k t [_ Hk]. by eapply near_good.
  - apply safe_answering_good; [done|]. unfold composition_keys. keep_safe.
Qed.

Lemma run_good ops s :
  good s -> Forall plain_op ops ->
  exists t answers, run_session d l ln penalty (fun s => s) ops s = Some (t, answers) /\
    List.length answers = List.length ops /\ good t.
Proof.
  intros Hs Hops. revert s Hs. induction Hops as [|op ops Hop _ IH]; intros s Hs; [by exists s, []|]. cbn [run_session].
  destruct (safe_perform s op (proj1 Hs) Hop s) as (t & r & -> & Ht); [split; [apply recache_self|apply Hs]|].
  assert (good t) as Hg by (by destruct r). destruct (IH t Hg) as (u & answers & E & Hl & Hu).
  cbn [mbind option_bind]. rewrite E. exists u, (r :: answers). cbn. by rewrite Hl.
Qed.

(** C6. No run of operations on a new session panics, as long as the texts
    that replace its input are ASCII without NUL and none is pre-parsed full
    pinyin: every operation answers or fails, and afterwards the cursor, the
    exact segments, the constraints and every cache are those of the input. *)
Theorem session_never_panics ops o config costs (plain_ops : Forall plain_op ops) :
  exists t answers,
    run_session d l ln penalty (fun s => s) ops (state_new o config costs) = Some (t, answers) /\
    List.length answers = List.length ops /\
    consumed_ (record t) <= List.length (raw (input t)) /\
    Forall (fun segment => seg_end segment <= List.length (raw (input t))) (exact (input t)) /\
    forward (cells (constraints t)) /\ coherent t.
Proof.
  destruct (run_good ops (state_new o config costs)) as (t & answers & E & Hl & Hs & Hc); [|done|].
  { split; [|by constructor]. constructor; cbn; [done|done|done|lia|apply forward_new]. }
  exists t, answers. destruct Hs. split_and!; done.
Qed.
End operations.
End lists.

(** ** A session over the sample table *)

#[export] Instance table_suggestions : SuggestionDictionary table := {
  checked_extension_tokens := fun d keys =>
    Ok (Some ((fun p => entry_token p.2) <$>
      List.filter (fun p => bool_decide (take (List.length keys) p.1 = keys) && (List.length keys <? List.length p.1)) d));
  phrase_text_for_token := fun d token =>
    (fun p => entry_text p.2) <$> List.find (fun p : list SyllableKey * PhraseEntry => (entry_token p.2 =? token)%Z) d
}.

#[export] Instance row_session : SessionModel row_model := {
  has_real_unigrams := fun _ => true;
  unigram_freq := fun _ token => Ok (Some (token mod 8)%Z);
  unigram_total := fun _ => Ok (Some 100%Z);
  addon_unigram_freq := fun _ _ => Ok None;
  addon_unigram_total := fun _ => Ok None;
  merged_successors := fun _ _ => Ok None;
  amplification_lambda := fun _ => sample_penalty
}.

#[export] Instance no_user : UserModel unit := {
  check_step := fun u _ _ => (u, Ok tt);
  observe := fun u _ _ => (u, Ok tt);
  observe_with_keys := fun u _ _ _ => (u, Ok tt)
}.

Definition sample_options : OptionBits :=
  with_bit (with_bit (with_bit OptionBits_default PINYIN_INCOMPLETE true) USE_DIVIDED_TABLE true) USE_RESPLIT_TABLE true.

Definition run_sample (ops : list (Operation (U := unit))) :=
  run_session (L := row_model) sample_table sample_model sample_ln sample_penalty (fun s => s) ops
    (state_new sample_options ScoringConfig_default []).

Definition sample_ops : list (Operation (U := unit)) :=
  [TypePinyin (str "nihao"); GuessSentence; SentenceText 0; Select 1 None; ReplaceRaw (str "nihao") true; LeftWord 5;
   ClearConstraint 0; Erase; CandidatesAt 2; Train tt; Reset; FullParsedLen].

Lemma session_never_panics_witness : exists t answers,
  run_sample sample_ops = Some (t, answers) /\ List.length answers = List.length sample_ops /\
  consumed_ (record t) <= List.length (raw (input t)) /\
  Forall (fun segment => seg_end segment <= List.length (raw (input t))) (exact (input t)) /\
  forward (cells (constraints t)) /\ coherent t.
Proof.
  apply session_never_panics. unfold sample_ops. repeat constructor.
Defined.

(** Outside ASCII: a choice that survives the replacement of the input and
    loses its constraint leaves the cursor inside a character, and the next
    list of candidates slices the input there. *)
Definition a_comma_b : bytes := ["a"; "239"; "188"; "140"; "b"]%byte.

Definition cleared_inside : list (Operation (U := unit)) :=
  [TypePinyin (str "nihao"); Select 2 None; Select 0 None; ReplaceRaw a_comma_b true; ClearConstraint 2].

Lemma clear_constraint_panics :
  (exists t answers, run_sample cleared_inside = Some (t, answers) /\
     raw (input t) = a_comma_b /\ consumed_ (record t) = 2 /\ is_char_boundary (raw (input t)) 2 = false) /\
  run_sample (cleared_inside ++ [SetSortOptions 3]) = None.
Proof.
  split; [|vm_compute; reflexivity].
  destruct (run_sample cleared_inside) as [[t answers]|] eqn:E; [|by vm_compute in E].
  exists t, answers. vm_compute in E. by injection E as <- _.
Qed.
